(* ===== verification/_CoqProject ===== *)
-Q . S2P
Prelude.v
Net.v
Concrete.v
F64.v
Types.v
Scoring.v
MetaRules.v
SessionState.v
SshConnect.v
Filters.v
Engine.v
RateLimit.v
OperationRisk.v
EgressRate.v
ProcessTree.v
DbusWire.v
DbusPolicy.v
DbusChannel.v
DbusInspect.v
MassDestruction.v
DnsSocketTracker.v
DnsSocketInvariant.v
DnsCache.v
SensitivePaths.v
Paths.v
ScopedPermissions.v
SessionRules.v
SessionGrants.v
Digest.v
DigestReview.v
EgressPolicy.v
EgressCommand.v
SessionContainment.v
EgressScores.v
OutboundBinaries.v
TaintArgv.v
Taint.v
TaintFlow.v
Reputation.v
ReputationStore.v
ReputationReview.v
DaemonLink.v
ObservationProtocol.v
RemoteEval.v
Canonical.v
AuditRecord.v
AuditRow.v
AuditChain.v
AuditHistory.v
AuditTamper.v
AuditRetention.v
AuditStartup.v
Admission.v
SpawnFamilies.v
Delegation.v
DelegationProofs.v
SyscallMap.v
LocalSockets.v
EventHandler.v
HandlerProofs.v
Behavioural.v
PathNames.v
PathMatch.v
SensitivePathFilter.v
StaticFilters.v
DestructiveAction.v
LearnedRules.v
