(* ===== verification/Prelude.v ===== *)
(** * grith: a verification of its security proxy, supervision and review

    grith runs an AI coding tool under [ptrace] and decides, for every system
    call of interest, whether it runs, waits for a human, or is refused.  The
    crate [grith-proxy] scores a call with a pipeline of filters; the crate
    [grith-supervisor] intercepts the calls, keeps per-process and per-connection
    state, and asks the proxy; [grith-digest] holds the calls that wait for a
    human.  This library models the decision core of the three and proves what it
    promises.  Source paths below are under [src/crates/].

    ** Parts and files

    Prelude (this file): third-party values as a class ([Deps]: UUIDs,
    timestamps, JSON values; [DepsLaws]: what the code relies on), time as
    integers of nanoseconds, [u32]/[u64] truncation, errors ([result]), hash-map
    iteration as a class whose only law is that each entry is visited once
    ([HashIter], [HashIterLaws]), and the string functions of the Rust standard
    library the components share.  Net: addresses and their parser.  Concrete: an
    instance of these classes, on which the witnesses evaluate.  F64: the order
    and sum lemmas for scores, which are the binary64 numbers of the Standard
    Library's [SpecFloat], rounded as the processor rounds them, NaN and
    infinities included.

    The proxy ([grith-proxy/src/]):
    - Types ([types.rs]): calls, filter results, decisions and their accessors.
    - Scoring ([scoring.rs]): the sum of the matched scores and its routing to
      allow, queue or deny.
    - MetaRules ([meta_rules.rs]): rules on combinations of results.
    - SessionState ([session_state.rs]): the registry of shared session cells.
      Handles are locations of an explicit store, so a handle kept across an
      eviction still refers to the evicted cell; activation is also given as two
      atomic steps interleaved over any number of threads.
    - SshConnect ([ssh_connect.rs]): the clamp of trusted ssh connections.
    - Filters ([filters/mod.rs]): the filter trait as a record of operations on
      an explicit world (filters' state, session registry, clock), metrics and
      registry.  Engine ([engine.rs]) runs the three phases, the early denies,
      the meta-rules and the clamp over any list of such filters; OperationRisk,
      RateLimit and EgressRate ([filters/]) are three of them.
    - EgressPolicy and EgressCommand ([filters/egress_policy.rs]): what a
      destination is worth, and what URLs, command lines, DNS queries and
      listeners name one.  SessionContainment ([filters/session_containment.rs]):
      the sessions that read something sensitive.  EgressScores puts these
      filters and the sink tiers of [filters/taint.rs] together under the two
      meta-rules of [config/filters/meta_rules.toml] about contained sessions.
    - OutboundBinaries ([filters/outbound_binaries.rs]): which programs can send
      data out, and the variables a shell text refers to or assigns.  TaintArgv and
      Taint ([filters/taint.rs]): the paths an argument may name, the tables of what
      was read by whom, and the evaluation of every kind of call.  TaintFlow holds
      the theorems about runs of them.
    - Behavioural ([filters/behavioural.rs], [filters/capability.rs]): the histories a
      session's calls are compared with, and the grants of capabilities.
    - PathNames and PathMatch ([paths.rs], [filters/path_match.rs]): the spelling of
      paths and the patterns they match.  SensitivePathFilter
      ([filters/sensitive_path.rs]), StaticFilters (the allowlist, argument, canary,
      command and semantic filters) and DestructiveAction ([filters/destructive_action.rs]): the
      filters that judge a call by its text alone.

    The supervisor ([grith-supervisor/src/]):
    - MassDestruction ([supervisor/mass_destruction.rs]): the window of distinct
      files destroyed outside the working tree.
    - ProcessTree ([process_tree.rs]): the process map and the freezing and
      thawing of subtrees.
    - DbusWire ([dbus/wire.rs]): the decoder of bus messages, on lists of bytes
      with [usize] offsets; a panic is an outcome of its own.
    - DbusPolicy ([dbus/policy.rs], [dbus/mod.rs]): which calls need no review.
    - DbusChannel ([dbus/channel.rs]): the bytes retained per descriptor, and
      the tracker of all descriptors.
    - DbusInspect ([platform/linux/events.rs], the D-Bus functions): reading a
      write out of the tracee, judging it when the call enters and committing
      what the kernel accepted when it exits, as steps that can interleave.
    - DnsSocketTracker ([platform/linux/dns_socket_tracker.rs]): descriptor
      tables that processes share or copy, sockets with their reference counts,
      and the DNS route of each socket, in a state monad in which an overflow or a
      broken table is a panic.  DnsSocketInvariant holds its proofs: the tracker
      against a description of the kernel's descriptor tables.
    - DnsCache ([dns_cache.rs], and the lookups of
      [supervisor/event_handler.rs]): which name an address was reached by.
    - SensitivePaths ([syscall_map.rs], [grith-proxy/src/paths.rs]): which paths
      are noise, credential stores, secrets.
    - Paths: [std::path] and the file system as an interface ([Filesystem]), with
      the path resolution of [scoped_permissions.rs].
    - ScopedPermissions ([scoped_permissions.rs]): a reviewer's directory answer,
      its preview and its validation.
    - SessionRules ([supervisor/event_handler.rs], [workspace_only.rs],
      [provenance.rs]): the keys, entries and matching of the session's allowlist
      and denylist, and the workspace boundary.  SessionGrants holds the theorems
      about the two together.
    - SpawnFamilies ([supervisor/spawn_families.rs]) and Delegation
      ([supervisor/authority_delegation.rs], with the gate and the escalations of
      [supervisor/event_handler.rs]): programs and sockets through which a call hands
      its authority to a process outside the tree, and the key of an approval.
      DelegationProofs holds the theorems.
    - SyscallMap ([interceptor.rs], [syscall_map.rs]): the kinds of system calls and
      the tool call each becomes.  LocalSockets ([supervisor/event_handler.rs],
      [profiles.rs]): what stays on the machine.
    - EventHandler ([supervisor/event_handler.rs]: handle_syscall_event,
      enforce_decision, queue_and_wait): a stopped system call from the stop to its
      one response, as phases that each answer or pass on, with the session's grants,
      refusals and replays as explicit state.  HandlerProofs reasons about runs.
    - LearnedRules ([learned_rules.rs], and the persisting part of the review): what
      "learn and approve" may store, the file under its lock as interleaved system
      calls, and what a later session merges.

    Review ([grith-digest/src/] and its callers):
    - Digest ([queue.rs], [actions.rs], [types.rs]): the table of queued items,
      its statements, the review actions, and their interleaving.
    - DigestReview ([grith-supervisor/src/reviewer.rs],
      [grith-cli/src/digest_ui.rs], [grith-core/src/commands/exec_reviewer.rs],
      [supervisor/event_handler.rs]): the reviewers that wait for an answer, and
      the race between them, scope grants and remote answers.

    Learning and the daemon ([grith-server/src/routes/], [grith-proxy/src/],
    [grith-supervisor/src/supervisor/]):
    - Reputation ([reputation.rs]): Beta entries per key, the keys of an operation
      at its levels, ceilings, scores and priors.  ReputationStore: its file, the
      endpoints of [reputation_ipc.rs] and the reset of the command line.
      ReputationReview ([proxy_ipc.rs], [event_handler.rs]): who approves queued
      calls by it and what verdicts it is fed.
    - DaemonLink ([remote_eval.rs], [proxy_ipc.rs]): the outbox of outcomes, the
      daemon's ring of applied calls and its two endpoints over [Engine].
      ObservationProtocol: the two over a link that loses, delays and repeats
      requests.  RemoteEval ([remote_eval.rs], [event_handler.rs]): responses on the
      wire, and the retries of [evaluate_proxy].

    The audit log ([grith-audit/src/]):
    - Canonical and AuditRecord ([types.rs]): the length-prefixed encoder, the
      record, its three canonical forms and its hash.  AuditRow ([storage.rs],
      [record_parser.rs], [compression.rs]): the record as columns and back.
    - AuditChain ([storage.rs]): the table as a hash chain: appending, backfilling,
      repairing, verifying and pruning, with the checkpoint, the archive boundary
      and the quarantine.  AuditHistory: the histories the program makes.
      AuditTamper: tables anybody may have written.
    - AuditRetention ([retention.rs]): the pass that archives and deletes, and the
      recovery of a boundary.  AuditStartup ([grith-core/src/daemon/mod.rs]): what
      a starting daemon makes of the chain it finds.
    - Admission ([grith-supervisor/src/supervisor/session_state.rs]): leases and
      sessions under a cap, refused while the chain is quarantined.

    ** How they interact

    A call reaches [Engine.evaluate] with the state of the world; each filter
    returns a [FilterResult] and may change its own state; [SessionState] is
    read by the clamp and by filters; after the call's fate is known
    [observe_outcome] commits it to [EgressRate].  [EventHandler.handle_syscall_event]
    calls the parts in the order the supervisor does: kinds that are always refused,
    [SyscallMap], the denylist of [SessionRules], the short cuts and the allowlist,
    then the evaluation, [MassDestruction] and the escalations of [Delegation], the
    automatic approval of [ReputationReview], and the enforcement.
    [DnsCache] gives connections their names and [DnsSocketTracker] says which
    sockets speak DNS.  A call the engine queues becomes an item of [Digest], a
    reviewer of [DigestReview] waits for its answer, and an answer that names a
    directory passes [ScopedPermissions.validate_scoped_allow] before its rules
    join the allowlist.  A bus write reaches [DbusInspect.inspect_dbus_write],
    which peeks through [DbusChannel] at the messages [DbusWire.decode] finds and
    asks [DbusPolicy.classify] about each; those it refuses become an event for
    the proxy.  With a daemon, [RemoteEval.evaluate_proxy] sends the call, and the
    outcomes of earlier calls, to [DaemonLink.daemon_evaluate], which commits the
    outcomes, evaluates the call and may approve it by its [Reputation].
    What happened is appended to the audit log by [AuditChain.insert_batch].  At its
    start the daemon runs [AuditStartup.start_chain]; a quarantine closes both
    [insert_batch] and [Admission.check_audit_admissible].  While it runs,
    [AuditRetention.prune_and_archive] moves the old prefix of the chain to files.

    ** What the theorems show

    Routing and the pipeline (Scoring, Engine, MetaRules, SshConnect): a higher
    score is never treated more leniently; the early denies only ever deny more, and
    nothing more when every score and rule adds ([late_credit_denied] shows a credit
    that comes too late); a static deny is final; the clamp only ever turns a deny into a prompt; the
    rule loop is the first override or the sum; counters add up.  Session state:
    containment and its first reason are permanent under every operation and
    every interleaving; eviction forgets.  Rate filters: the pruned windows
    answer as the complete history would; refused calls can neither deny nor
    accumulate; cooldowns are edge-triggered; sessions are isolated.  Egress: only
    a destination under a trusted domain, label by label, is credited; a shared
    address is worth its worst candidate; the destination of a URL text is read
    back, unless a query or fragment carries an at sign ([authority_confusion]); a
    fetch is let through unreviewed only if all it names is trusted, up to the
    flags of [flag_value_hides_destination]; listeners follow their matrix; every
    score is bounded by the mode, that of a raw socket included, which the source means
    to be above the denial threshold.  Containment: the tracker answers as the full
    history, and under the default scores a contained session's connection with
    taint below high, or request without taint, is reviewed rather than denied; the last
    theorems of EgressScores give the exceptions.  Mass
    destruction: the pruned window escalates as the whole history would.  Process
    tree: freezing terminates on every tree reached without pid reuse, is exact,
    and thawing undoes it.  D-Bus: decoding adversarial bytes never panics, is
    bounded, does not depend on how the bytes are cut, and inverts the encoding
    the D-Bus specification gives; no allowed call delegates authority; shared
    descriptors are never decoded; and, end to end, every message the peer of a
    clean channel received was allowed by policy or surfaced for review, when the
    descriptor is connected once, each write completes before the next begins and its
    result counts bytes.  The last section of
    DbusInspect gives runs in which that proviso, or an assumption about
    [connect] and [sendmmsg], fails and a call passes unreviewed.

    DNS sockets: reference counts equal the references held, each route is given
    back exactly once, and the processes' views follow the kernel's tables.  DNS
    attribution: the pruned cache answers as the full history in which the latest
    mapping of each name stands, and an exact name has an unexpired source; [attribution_gaps] shows where that is
    weaker than it reads.  Directory scopes: preview and validation agree; a
    validated grant covers the reviewed call and nothing outside its directory
    and kinds; a block refuses the reviewed call; an ordinary approval matches its
    call again, with the exceptions the last theorems of SessionGrants give.
    Review: under every interleaving an approved item carries an approving action;
    decisions are final when calls do not overlap, and [overlapping_reviews] shows
    what happens when they do; a queued item is stored faithfully and listed, the
    worst first; the reviewers return what is on record, and return in time.

    Reputation: trust in a path under a sensitive root is that path's alone; an
    automatic approval has no ceiling and enough observations behind it; both
    approvers agree; parameters stay above the prior; saving is atomic and loads
    what was merged.  [reset_undone_by_save], [one_request_whitelists],
    [implicit_denial_unheard], [zero_below_trust] and their neighbours show where
    it does less, or more, than its comments say.  The daemon: its filters
    are in the state its calls into the proxy produce, in which an outcome is observed
    again only after as many others as the ring holds; none disappears but by the cap; a batch is the run of its fresh observations; a
    decision is read as it was written; and every failure of the link denies.

    Taint: what a session read is found again in whatever it sends while the entry is
    fresh and neither the end of the session nor a mount took it away, scopes do not see
    each other, and an ended session leaves nothing; the parser of arguments finds a path
    behind a bounded number of cuts.  Names: the pattern matcher, which goes back to its
    last star only, matches what a pattern means; reads of credential stores are reviewed,
    with the exceptions of [credential_reads_reviewed]; a recursive delete that names
    a protected directory literally is denied ([hidden_deletes] shows other spellings);
    the window of a session answers as its history.  Delegation: a
    call is exempt exactly if it is a query by its table, a copy of a delegating program
    under a name that does not delegate is found by its content,
    and the gate before the evaluation agrees with the escalation after it.  The
    handler: a refused directory stays refused; containment makes earlier grants
    void, but for the workspace boundary, scopes for sensitive directories and approved
    ssh hosts; a delegating spawn is answered with allow only by way of a review, a
    replay, a missing program or where calls are only logged; and an approval that is
    replayed without a prompt was the operator's.  [denied_spawns] shows the denied spawns
    that keep running.  Learned rules: appending ends and loses no rule while no lock
    is found stale, and what is merged opens only what a rule of the profile names;
    [stale_lock_loses_rule], [relinked_rule_opens_key] and [sensitive_rule_persists] show
    the limits.

    Audit: equal hashes mean equal evidence, or a collision of SHA-256; a record
    survives its row; a verification accepts exactly the contiguous, linked,
    rightly hashed and canonical tables, so a head hash commits to what the versions
    of the rows cover, where all versions are known; any
    history of the program's own operations verifies.  With cold storage on, retention
    deletes only what an archive holds, whatever the disk does, and completes on a healthy
    disk.  After the backfill of legacy rows a
    start changes no row, and it fails closed; an honest history starts.
    [full_prune_restarts], [checkpoint_hides], [repair_misses_links],
    [recovery_reads_one_link], [emptied_start_quarantines] and
    [retention_forgets_breaks] say what these leave open.  Admission: the cap holds
    for every sequence of requests, and a live lease is always honoured.

    ** Bounds and fuel

    [ProcessTree.descend] and [DbusInspect.read_loop] take the iterations of a
    loop as fuel: the size of the process map and the number of bytes are proved
    to suffice, and a cyclic map is proved to exhaust any fuel.  The bounds of
    [DbusWire] (fields per message, messages per call) are those of the code.
    Waiting loops ([poll_digest_status] and the others of DigestReview) take the
    list of their turns; [polling_terminates] says how many turns are enough.
    Offsets and counts are integers with the wrap-around or overflow check of
    their width written out.

    ** What is not modelled

    Futures: the filters of a phase are polled in order, each evaluation being
    one step.  Unicode case tables, the compiled URL pattern and [log2] of the
    egress policy, [powf], TOML and RFC 3339 texts, HTTP, [/proc] lookups, path
    canonicalisation, name resolution, JSON, zstd, SHA-256 and tracee memory are
    parameters.  SQLite is its tables and what it refuses: failures of the disk are
    modelled for the reputation file, the appends to the audit log and the archives,
    those of locks are left out.  Log output and the wall-clock
    stamps of events are left out.  The form the scope editor starts from
    ([default_scoped_allow]) and the rendering of every interface are left out.
    The filters on secrets in the arguments ([secret_scan], [dlp_gate]), domain reputation
    and the correlation of exfiltration, the packets and sockets of the DNS proxies, the
    queries, projections, rotation and compaction of the
    audit store, the rest of the daemon, the terminal and web
    interfaces, notifications and the language-model clients are not modelled:
    most are input and output around third-party libraries. *)

From Stdlib Require Import Ascii String ZArith Lia.
From stdpp Require Export base option list gmap fin_maps sets strings pretty.

(** ** Third-party values

    Types and functions of crates the repository only uses: [uuid::Uuid] with
    its [Display], [chrono::DateTime<Utc>] and [serde_json::Value] with the
    accessors the code calls.  Every model is parametric in them. *)

Class Deps := {
  Uuid : Type;
  Uuid_eq_dec :: EqDecision Uuid;
  Uuid_countable :: Countable Uuid;
  Uuid_to_string : Uuid → string;
  DateTime : Type;
  Json : Type;
  json_null : Json;
  json_get : Json → string → option Json;
  json_as_str : Json → option string;
  json_as_bool : Json → option bool;
  json_as_u64 : Json → option N;
  json_as_array : Json → option (list Json);
}.

(** What the code relies on in [uuid]: the hyphenated rendering is injective and
    36 lower-case hexadecimal digits and hyphens. *)
Definition is_hex (c : ascii) : bool :=
  match c with
  | "0" | "1" | "2" | "3" | "4" | "5" | "6" | "7" | "8" | "9"
  | "a" | "b" | "c" | "d" | "e" | "f" => true
  | _ => false
  end%char.

Fixpoint str_all (p : ascii → bool) (s : string) : bool :=
  match s with
  | EmptyString => true
  | String c s' => p c && str_all p s'
  end.

Definition uuid_char (c : ascii) : bool := match c with "-"%char => true | _ => is_hex c end.

Class DepsLaws `{Deps} := {
  Uuid_to_string_inj :: Inj (=) (=) Uuid_to_string;
  Uuid_to_string_length : ∀ u, String.length (Uuid_to_string u) = 36;
  Uuid_to_string_chars : ∀ u, str_all uuid_char (Uuid_to_string u) = true;
}.

(** ** Time

    [std::time::Instant] and [Duration] as integers of nanoseconds.  On the
    supported platform an [Instant] holds an [i64] of seconds, so the checked
    subtraction fails only below [instant_min]. *)

Abbreviation Instant := Z.
Abbreviation Duration := Z.

Definition nanos_per_sec : Z := 1000000000.
Definition from_secs (s : Z) : Duration := (s * nanos_per_sec)%Z.
Definition instant_min : Instant := (- 2 ^ 63 * nanos_per_sec)%Z.

Definition instant_checked_sub (i : Instant) (d : Duration) : option Instant :=
  if (instant_min <=? i - d)%Z then Some (i - d)%Z else None.

(** [Instant::saturating_duration_since]. *)
Definition saturating_duration_since (later earlier : Instant) : Duration :=
  Z.max 0 (later - earlier).

(** ** Machine integers *)

(** The value of an [n as u32] cast, and of a wrapping [u64] counter. *)
Definition as_u32 (n : Z) : Z := (n mod 2 ^ 32)%Z.
Definition as_u64 (n : Z) : Z := (n mod 2 ^ 64)%Z.

(** [checked_add] on [u64] and on a 64-bit [usize]. *)
Definition checked_add (a b : Z) : option Z :=
  if (a + b <? 2 ^ 64)%Z then Some (a + b)%Z else None.

Lemma checked_add_Some a b c : checked_add a b = Some c → c = (a + b)%Z ∧ (c < 2 ^ 64)%Z.
Proof. unfold checked_add. destruct (Z.ltb_spec (a + b) (2 ^ 64)); [|done]. intros [= <-]. lia. Qed.

Lemma as_u64_small n : (0 <= n < 2 ^ 64)%Z → as_u64 n = n.
Proof. intros. by apply Z.mod_small. Qed.

Lemma as_u32_small n : (0 <= n < 2 ^ 32)%Z → as_u32 n = n.
Proof. intros. by apply Z.mod_small. Qed.

(** ** Errors *)

(** [Result<A, Error>]; an error is its message. *)
Inductive result (A : Type) :=
  | Ok (a : A)
  | Err (message : string).
Arguments Ok {A}.
Arguments Err {A}.

#[export] Instance result_bind : MBind result :=
  λ A B f r, match r with Ok a => f a | Err e => Err e end.

(** ** Hash maps

    [std::collections::HashMap] iterates in an unspecified order: every
    definition that iterates takes the order from this interface, whose law only
    says that each entry is visited once. *)

Class HashIter := hash_iter : ∀ {K A} `{Countable K}, gmap K A → list (K * A).

Class HashIterLaws `{HashIter} : Prop :=
  hash_iter_perm : ∀ {K A} `{Countable K} (m : gmap K A), hash_iter m ≡ₚ map_to_list m.

Lemma hash_iter_elem_of `{HashIterLaws} {K A} `{Countable K} (m : gmap K A) k a :
  (k, a) ∈ hash_iter m ↔ m !! k = Some a.
Proof. rewrite hash_iter_perm. apply elem_of_map_to_list. Qed.

(** ** Strings

    A [String] or [&str] is its UTF-8 bytes. *)

Definition ascii_eqb (a b : ascii) : bool := Ascii.eqb a b.

Fixpoint strip_prefix (p s : string) : option string :=
  match p, s with
  | EmptyString, _ => Some s
  | String a p', String b s' => if ascii_eqb a b then strip_prefix p' s' else None
  | String _ _, EmptyString => None
  end.

Definition starts_with (p s : string) : bool :=
  match strip_prefix p s with Some _ => true | None => false end.

Fixpoint ends_with (suf s : string) : bool :=
  String.eqb s suf || match s with
                      | EmptyString => false
                      | String _ s' => ends_with suf s'
                      end.

Fixpoint contains (needle s : string) : bool :=
  starts_with needle s || match s with
                          | EmptyString => false
                          | String _ s' => contains needle s'
                          end.

Definition strip_suffix (suf s : string) : option string :=
  if ends_with suf s then Some (substring 0 (String.length s - String.length suf) s) else None.

(** [[&str]::join(sep)] *)
Fixpoint join (sep : string) (l : list string) : string :=
  match l with
  | [] => ""
  | [x] => x
  | x :: l' => x +:+ sep +:+ join sep l'
  end.

(** [str::split(c)] for an ASCII byte [c]: never empty. *)
Fixpoint split_on (c : ascii) (s : string) : list string :=
  match s with
  | EmptyString => [""]
  | String a s' =>
      if ascii_eqb a c then "" :: split_on c s'
      else match split_on c s' with
           | w :: ws => String a w :: ws
           | [] => [String a ""]
           end
  end.

(** [str::split(sep)] for a non-empty separator, given the text of the piece being
    read. *)
Fixpoint split_str_fuel (n : nat) (sep acc s : string) : list string :=
  match n, s with
  | S n', String a s' =>
      match strip_prefix sep s with
      | Some rest => acc :: split_str_fuel n' sep "" rest
      | None => split_str_fuel n' sep (acc +:+ String a EmptyString) s'
      end
  | _, _ => [acc +:+ s]
  end.

Definition split_str (sep s : string) : list string :=
  split_str_fuel (String.length s) sep "" s.

(** [rsplit(c).next()]: the text after the last [c], or all of it. *)
Definition after_last (c : ascii) (s : string) : string := default s (last (split_on c s)).

(** [rsplit_once(c)]: the texts around the last [c]. *)
Fixpoint rsplit_once (c : ascii) (s : string) : option (string * string) :=
  match s with
  | EmptyString => None
  | String a s' =>
      match rsplit_once c s' with
      | Some (h, t) => Some (String a h, t)
      | None => if ascii_eqb a c then Some (EmptyString, s') else None
      end
  end.

(** [trim_start_matches(p)] for a non-empty [p]. *)
Fixpoint trim_start_matches_fuel (n : nat) (p s : string) : string :=
  match n, strip_prefix p s with
  | S n', Some r => trim_start_matches_fuel n' p r
  | _, _ => s
  end.

Definition trim_start_matches (p s : string) : string :=
  trim_start_matches_fuel (String.length s) p s.

(** [trim_end_matches(c)] for an ASCII byte [c]. *)
Fixpoint trim_end_char (c : ascii) (s : string) : string :=
  match s with
  | EmptyString => EmptyString
  | String a s' =>
      match trim_end_char c s' with
      | EmptyString => if ascii_eqb a c then EmptyString else String a EmptyString
      | t => String a t
      end
  end.

(** [replace(a, b)] for ASCII bytes. *)
Fixpoint replace_char (a b : ascii) (s : string) : string :=
  match s with
  | EmptyString => EmptyString
  | String c s' => String (if ascii_eqb c a then b else c) (replace_char a b s')
  end.

(** [split_once(sep)]: the texts around the first [sep]. *)
Fixpoint split_once (sep s : string) : option (string * string) :=
  match strip_prefix sep s with
  | Some rest => Some (EmptyString, rest)
  | None =>
      match s with
      | EmptyString => None
      | String a s' => '(h, t) ← split_once sep s'; Some (String a h, t)
      end
  end.

(** [str::parse] for an unsigned integer type with the given maximum: an
    optional plus sign and at least one digit. *)
Fixpoint parse_digits (max acc : Z) (s : string) : option Z :=
  match s with
  | EmptyString => Some acc
  | String a s' =>
      let d := (Z.of_N (N_of_ascii a) - 48)%Z in
      if ((0 <=? d) && (d <=? 9) && (acc * 10 + d <=? max))%Z
      then parse_digits max (acc * 10 + d) s' else None
  end.

Definition parse_unsigned (max : Z) (s : string) : option Z :=
  let s := default s (strip_prefix "+" s) in
  if String.eqb s "" then None else parse_digits max 0 s.

(** [Path::file_name]: the last component, if it is a normal one.  Empty and [.]
    components are skipped. *)
Definition path_file_name (path : string) : option string :=
  let comps := List.filter (λ c, negb (String.eqb c "" || String.eqb c "."))
                 (split_on "/"%char path) in
  match last comps with
  | Some ".." | None => None
  | Some c => Some c
  end.

(** Membership of a string in a constant table ([slice::contains]). *)
Definition str_mem (x : string) (l : list string) : bool := existsb (String.eqb x) l.

(** [{n}] for an unsigned and for a signed integer. *)
Definition fmt_N (n : N) : string := pretty n.
Definition fmt_Z (n : Z) : string :=
  match n with
  | Zneg p => "-" +:+ pretty (Npos p)
  | _ => pretty (Z.to_N n)
  end.

(** [to_ascii_lowercase] and [eq_ignore_ascii_case]: bytes outside [A-Z] are
    unchanged. *)
Definition ascii_lower (c : ascii) : ascii :=
  let n := N_of_ascii c in
  if ((65 <=? n) && (n <=? 90))%N then ascii_of_N (n + 32) else c.

Fixpoint to_ascii_lowercase (s : string) : string :=
  match s with
  | EmptyString => EmptyString
  | String c s' => String (ascii_lower c) (to_ascii_lowercase s')
  end.

Definition ascii_upper (c : ascii) : ascii :=
  let n := N_of_ascii c in
  if ((97 <=? n) && (n <=? 122))%N then ascii_of_N (n - 32) else c.

Fixpoint to_ascii_uppercase (s : string) : string :=
  match s with
  | EmptyString => EmptyString
  | String c s' => String (ascii_upper c) (to_ascii_uppercase s')
  end.

(** The UTF-8 encodings of the characters with the White_Space property. *)
Definition byte_string (l : list N) : string := fold_right (λ n, String (ascii_of_N n)) "" l.

Definition whitespace : list string :=
  map byte_string
    ([[9]; [10]; [11]; [12]; [13]; [32]; [194; 133]; [194; 160]; [225; 154; 128]]
     ++ map (λ n, [226; 128; n]) [128; 129; 130; 131; 132; 133; 134; 135; 136; 137; 138; 168; 169; 175]
     ++ [[226; 129; 159]; [227; 128; 128]])%N.

(** [str::trim_start] and [trim_end]: one character per step, so the length of
    the string bounds the steps. *)
Fixpoint trim_start_fuel (n : nat) (s : string) : string :=
  match n, List.find (λ w, starts_with w s) whitespace with
  | S n', Some w => trim_start_fuel n' (default s (strip_prefix w s))
  | _, _ => s
  end.

Fixpoint trim_end_fuel (n : nat) (s : string) : string :=
  match n, List.find (λ w, ends_with w s) whitespace with
  | S n', Some w => trim_end_fuel n' (default s (strip_suffix w s))
  | _, _ => s
  end.

Definition trim_start (s : string) : string := trim_start_fuel (String.length s) s.
Definition trim_end (s : string) : string := trim_end_fuel (String.length s) s.
Definition trim (s : string) : string := trim_end (trim_start s).

Definition eq_ignore_ascii_case (a b : string) : bool :=
  String.eqb (to_ascii_lowercase a) (to_ascii_lowercase b).

(** *** Lemmas on strings *)

#[local] Arguments String.append !_ _ / : simpl nomatch.

Lemma append_assoc (a b c : string) : (a +:+ b) +:+ c = a +:+ (b +:+ c).
Proof. induction a as [|x a IH]; [done|]. cbn. f_equal. apply IH. Qed.

Lemma append_nil_r (a : string) : a +:+ "" = a.
Proof. induction a as [|x a IH]; [done|]. cbn. f_equal. apply IH. Qed.

Lemma length_append (a b : string) :
  String.length (a +:+ b) = String.length a + String.length b.
Proof. induction a as [|x a IH]; [done|]. cbn. f_equal. apply IH. Qed.

Lemma append_inj_length (a a' b b' : string) :
  String.length a = String.length a' → a +:+ b = a' +:+ b' → a = a' ∧ b = b'.
Proof.
  revert a'. induction a as [|x a IH]; intros [|y a'] Hl; cbn in *; try done.
  intros [= -> H]. injection Hl as Hl. destruct (IH a' Hl H) as [-> ->]. done.
Qed.

Lemma trim_end_char_idem c s : trim_end_char c (trim_end_char c s) = trim_end_char c s.
Proof.
  induction s as [|a s IH]; cbn; [done|].
  destruct (trim_end_char c s) as [|a' t] eqn:E.
  - destruct (ascii_eqb a c) eqn:Ec; cbn; [done|]. by rewrite Ec.
  - cbn in *. by rewrite IH.
Qed.

Lemma strip_prefix_Some p s r : strip_prefix p s = Some r ↔ s = p +:+ r.
Proof.
  revert s. induction p as [|a p IH]; intros s; cbn.
  - naive_solver.
  - destruct s as [|b s]; [naive_solver|]. unfold ascii_eqb.
    destruct (Ascii.eqb_spec a b) as [->|Hne]; [rewrite IH; naive_solver|].
    split; [done|]. intros [= -> _]. done.
Qed.

Lemma starts_with_spec p s : starts_with p s = true ↔ ∃ r, s = p +:+ r.
Proof.
  unfold starts_with. destruct (strip_prefix p s) as [r|] eqn:E.
  - apply strip_prefix_Some in E. naive_solver.
  - split; [done|]. intros [r Hr]. apply strip_prefix_Some in Hr. congruence.
Qed.

Lemma ends_with_spec suf s : ends_with suf s = true ↔ ∃ p, s = p +:+ suf.
Proof.
  induction s as [|c s IH]; cbn [ends_with]; rewrite orb_true_iff, String.eqb_eq.
  - split; [intros [->|?]; [by exists ""|done]|].
    intros [[|? p] Hp]; [by left|done].
  - rewrite IH. split.
    + intros [<-|[p ->]]; [by exists ""|by exists (String c p)].
    + intros [[|c' p] Hp]; [by left|]. right. exists p. cbn in Hp. congruence.
Qed.

Lemma contains_spec needle s : contains needle s = true ↔ ∃ p q, s = p +:+ needle +:+ q.
Proof.
  induction s as [|c s IH]; cbn [contains]; rewrite orb_true_iff, starts_with_spec.
  - split; [intros [[r Hr]|?]; [by exists "", r|done]|].
    intros ([|? p] & q & Hp); [|done]. left. by exists q.
  - rewrite IH. split.
    + intros [[r Hr]|(p & q & ->)]; [by exists "", r|by exists (String c p), q].
    + intros ([|c' p] & q & Hp); [left; by exists q|]. right. exists p, q. cbn in Hp. congruence.
Qed.

Lemma substring_prefix (a b : string) : substring 0 (String.length a) (a +:+ b) = a.
Proof. induction a as [|x a IH]; [by destruct b|]. cbn. f_equal. apply IH. Qed.

Lemma strip_suffix_app suf p : strip_suffix suf (p +:+ suf) = Some p.
Proof.
  unfold strip_suffix. rewrite (proj2 (ends_with_spec _ _)) by by exists p.
  rewrite length_append, Nat.add_sub. by rewrite substring_prefix.
Qed.

Lemma strip_prefix_app p s : strip_prefix p (p +:+ s) = Some s.
Proof. by apply strip_prefix_Some. Qed.

Lemma starts_with_app p s : starts_with p (p +:+ s) = true.
Proof. apply starts_with_spec. by exists s. Qed.

(** A text is its trimmed form followed by copies of the trimmed byte. *)
Lemma trim_end_char_app c s :
  ∃ n, s = trim_end_char c s +:+ string_of_list_ascii (replicate n c).
Proof.
  induction s as [|a s [n IH]]; [by exists 0|]. cbn [trim_end_char].
  destruct (trim_end_char c s) as [|b t] eqn:E.
  - unfold ascii_eqb. destruct (Ascii.eqb_spec a c) as [->|].
    + exists (S n). cbn. by rewrite IH.
    + exists n. cbn. by rewrite IH.
  - exists n. cbn. by rewrite IH.
Qed.

Lemma trim_end_char_snoc c s : trim_end_char c (s +:+ String c "") = trim_end_char c s.
Proof.
  induction s as [|a s IH]; cbn.
  - unfold ascii_eqb. by rewrite Ascii.eqb_refl.
  - cbn in IH. by rewrite IH.
Qed.

Lemma replace_char_app a b s t :
  replace_char a b (s +:+ t) = replace_char a b s +:+ replace_char a b t.
Proof. induction s as [|c s IH]; [done|]. cbn. f_equal. apply IH. Qed.

Lemma replace_char_idem a b s :
  replace_char a b (replace_char a b s) = replace_char a b s.
Proof.
  induction s as [|c s IH]; [done|]. cbn. rewrite IH. unfold ascii_eqb.
  destruct (Ascii.eqb_spec c a) as [->|Hne].
  - by destruct (Ascii.eqb b a).
  - by destruct (Ascii.eqb_spec c a).
Qed.

(** A text without the byte [c]. *)
Fixpoint lacks (c : ascii) (s : string) : bool :=
  match s with
  | EmptyString => true
  | String a s' => negb (ascii_eqb a c) && lacks c s'
  end.

Lemma lacks_app c a b : lacks c (a +:+ b) = lacks c a && lacks c b.
Proof. induction a as [|x a IH]; cbn; [done|]. by rewrite IH, andb_assoc. Qed.

Lemma contains_char c s : contains (String c "") s = negb (lacks c s).
Proof.
  induction s as [|a s IH]; [done|]. cbn [contains lacks]. rewrite IH, negb_andb, negb_involutive.
  f_equal. unfold starts_with; cbn. unfold ascii_eqb. rewrite Ascii.eqb_sym.
  by destruct (Ascii.eqb a c).
Qed.

Lemma starts_with_char c s t :
  s ≠ "" → starts_with (String c "") (s +:+ t) = starts_with (String c "") s.
Proof.
  destruct s as [|a s]; [done|]. intros _. unfold starts_with.
  change (String a s +:+ t) with (String a (s +:+ t)). cbn [strip_prefix].
  by destruct (ascii_eqb c a).
Qed.

Lemma split_on_nonempty c s : split_on c s ≠ [].
Proof. destruct s as [|a s]; cbn; [done|]. destruct (ascii_eqb a c); [done|]. by destruct (split_on c s). Qed.

Lemma split_on_sep c a b : split_on c (a +:+ String c b) = split_on c a ++ split_on c b.
Proof.
  induction a as [|x a IH]; cbn.
  - unfold ascii_eqb. by rewrite Ascii.eqb_refl.
  - destruct (ascii_eqb x c); [by rewrite IH|]. rewrite IH.
    by destruct (split_on c a) eqn:E; [apply split_on_nonempty in E|].
Qed.

Lemma split_on_lacks c s : lacks c s = true → split_on c s = [s].
Proof.
  induction s as [|a s IH]; cbn; [done|]. intros [Ha Hs]%andb_true_iff.
  apply negb_true_iff in Ha. by rewrite Ha, IH.
Qed.

Lemma join_split_on c s : join (String c "") (split_on c s) = s.
Proof.
  induction s as [|a s IH]; [done|]. cbn [split_on]. unfold ascii_eqb.
  pose proof (split_on_nonempty c s) as Hne.
  destruct (Ascii.eqb_spec a c) as [->|], (split_on c s) as [|w ws]; try done.
  - change (String c (join (String c "") (w :: ws)) = String c s). by rewrite IH.
  - rewrite <- IH. by destruct ws.
Qed.

Lemma join_app sep l k :
  l ≠ [] → k ≠ [] → join sep (l ++ k) = join sep l +:+ sep +:+ join sep k.
Proof.
  intros Hl Hk. induction l as [|x l IH]; [done|]. destruct l as [|y l].
  - destruct k; done.
  - change (join sep ((x :: y :: l) ++ k)) with (x +:+ sep +:+ join sep ((y :: l) ++ k)).
    rewrite IH by done. cbn [join]. by rewrite !append_assoc.
Qed.

Lemma after_last_sep c a b : lacks c b = true → after_last c (a +:+ String c b) = b.
Proof. intros Hb. unfold after_last. by rewrite split_on_sep, (split_on_lacks c b), last_snoc. Qed.

Lemma after_last_lacks c b : lacks c b = true → after_last c b = b.
Proof. intros Hb. unfold after_last. by rewrite split_on_lacks. Qed.

Lemma rsplit_once_lacks c s : lacks c s = true → rsplit_once c s = None.
Proof.
  induction s as [|a s IH]; cbn; [done|]. intros [Ha Hs]%andb_true_iff.
  apply negb_true_iff in Ha. by rewrite IH, Ha.
Qed.

Lemma rsplit_once_sep c a b : lacks c b = true → rsplit_once c (a +:+ String c b) = Some (a, b).
Proof.
  intros Hb. induction a as [|x a IH]; cbn.
  - rewrite rsplit_once_lacks by done. unfold ascii_eqb. by rewrite Ascii.eqb_refl.
  - by rewrite IH.
Qed.

Lemma rsplit_once_None c s : rsplit_once c s = None → lacks c s = true.
Proof.
  induction s as [|a s IH]; cbn; [done|].
  destruct (rsplit_once c s) as [[h t]|]; [done|]. destruct (ascii_eqb a c); [done|]. auto.
Qed.

Lemma rsplit_once_Some c s a b :
  rsplit_once c s = Some (a, b) → s = a +:+ String c b ∧ lacks c b = true.
Proof.
  revert a. induction s as [|x s IH]; intros a; cbn; [done|].
  destruct (rsplit_once c s) as [[h t]|] eqn:E.
  - intros [= <- <-]. destruct (IH h eq_refl) as [-> ?]. done.
  - unfold ascii_eqb. destruct (Ascii.eqb_spec x c) as [->|]; [|done]. intros [= <- <-].
    split; [done|]. by apply rsplit_once_None.
Qed.

(** The separator starts with a byte that the text before it lacks. *)
Lemma split_once_sep c sep a b :
  lacks c a = true → split_once (String c sep) (a +:+ String c sep +:+ b) = Some (a, b).
Proof.
  induction a as [|x a IH]; intros Ha.
  - change ("" +:+ String c sep +:+ b) with (String c sep +:+ b).
    pose proof (strip_prefix_app (String c sep) b) as Hs.
    destruct (String c sep +:+ b) eqn:E; cbn [split_once]; by rewrite Hs.
  - cbn [lacks] in Ha. apply andb_true_iff in Ha as [Hx Ha].
    change (String x a +:+ String c sep +:+ b) with (String x (a +:+ String c sep +:+ b)).
    cbn [split_once]. rewrite IH by done. cbn [strip_prefix].
    unfold ascii_eqb in *. rewrite Ascii.eqb_sym. apply negb_true_iff in Hx. by rewrite Hx.
Qed.

Lemma split_once_Some sep s h t : split_once sep s = Some (h, t) → s = h +:+ sep +:+ t.
Proof.
  revert h. induction s as [|c s IH]; intros h; cbn [split_once]; destruct (strip_prefix sep _) as [r|] eqn:E.
  - intros [= <- <-]. by apply strip_prefix_Some in E.
  - done.
  - intros [= <- <-]. by apply strip_prefix_Some in E.
  - destruct (split_once sep s) as [[h' t']|]; [|done]. intros [= <- <-]. by rewrite (IH h').
Qed.

Lemma str_all_app p a b : str_all p (a +:+ b) = str_all p a && str_all p b.
Proof.
  induction a as [|c a IH]; [done|]. change (str_all p (String c a +:+ b)) with (p c && str_all p (a +:+ b)).
  cbn. by rewrite IH, andb_assoc.
Qed.

Lemma to_ascii_lowercase_app a b :
  to_ascii_lowercase (a +:+ b) = to_ascii_lowercase a +:+ to_ascii_lowercase b.
Proof.
  induction a as [|x a IH]; [done|].
  change (String (ascii_lower x) (to_ascii_lowercase (a +:+ b))
          = String (ascii_lower x) (to_ascii_lowercase a +:+ to_ascii_lowercase b)).
  by rewrite IH.
Qed.

Lemma str_mem_spec x l : str_mem x l = true ↔ x ∈ l.
Proof.
  unfold str_mem. rewrite existsb_exists, list_elem_of_In.
  setoid_rewrite String.eqb_eq. naive_solver.
Qed.

(** ** Boolean quantifiers over lists *)

Lemma existsb_false_Forall {A} (p : A → bool) l :
  existsb p l = false ↔ Forall (λ x, p x = false) l.
Proof.
  induction l as [|x l IH]; cbn; [by split|].
  rewrite orb_false_iff, IH, Forall_cons. done.
Qed.

Lemma forallb_true_Forall {A} (p : A → bool) l :
  forallb p l = true ↔ Forall (λ x, p x = true) l.
Proof.
  induction l as [|x l IH]; cbn; [by split|].
  rewrite andb_true_iff, IH, Forall_cons. done.
Qed.

(** ** Automation *)

Create HintDb grith discriminated.

(** Split every [match] of the goal and the hypotheses, closing the absurd
    branches. *)
Ltac break_all :=
  repeat (case_match || (progress simplify_eq/=) || case_bool_decide || case_decide).

(** Turn boolean hypotheses and goals into propositions. *)
Ltac reflect_bools :=
  repeat (rewrite ?andb_true_iff, ?orb_true_iff, ?negb_true_iff, ?andb_false_iff,
            ?orb_false_iff, ?negb_false_iff, ?Z.ltb_lt, ?Z.leb_le, ?Z.ltb_ge, ?Z.leb_gt,
            ?Z.eqb_eq, ?Z.eqb_neq, ?bool_decide_eq_true, ?bool_decide_eq_false,
            ?String.eqb_eq, ?String.eqb_neq in * ).
