(* ===== verification/Net.v ===== *)
(** * Network addresses

    [std::net::IpAddr] and [std::net::SocketAddr]: an address is the integer its
    octets spell, a port is 16 bits wide. *)

From Stdlib Require Import Ascii.
From S2P Require Import Prelude.

Inductive IpAddr :=
  | V4 (octets : Z)
  | V6 (octets : Z).

#[export] Instance IpAddr_eq_dec : EqDecision IpAddr.
Proof. solve_decision. Defined.

#[export] Instance IpAddr_countable : Countable IpAddr.
Proof.
  apply (inj_countable'
    (λ a, match a with V4 o => inl o | V6 o => inr o end)
    (λ s, match s with inl o => V4 o | inr o => V6 o end)).
  by intros [].
Defined.

(** The flow label and the scope of an IPv6 socket address are part of its
    identity. *)
Record SocketAddr := {
  sa_ip : IpAddr;
  sa_port : Z;
  sa_flowinfo : Z;
  sa_scope_id : Z;
}.

#[export] Instance SocketAddr_eq_dec : EqDecision SocketAddr.
Proof. solve_decision. Defined.

(** [IpAddr::is_loopback]: 127.0.0.0/8 and ::1.  An IPv4-mapped IPv6 address is
    not a loopback address. *)
Definition is_loopback (a : IpAddr) : bool :=
  match a with
  | V4 o => (Z.shiftr o 24 =? 127)%Z
  | V6 o => (o =? 1)%Z
  end.

(** [IpAddr::is_unspecified] *)
Definition is_unspecified (a : IpAddr) : bool :=
  match a with V4 o | V6 o => (o =? 0)%Z end.

(** ** Parsing

    [str::parse::<IpAddr>], as the parser of the standard library works: an IPv4
    address is four decimal octets of at most three digits without leading zeros;
    an IPv6 address is eight groups of at most four hexadecimal digits, the last two
    possibly written as an IPv4 address, one run of zero groups as [::].  A failed
    attempt to read a part consumes nothing. *)

Definition to_digit (radix : Z) (c : ascii) : option Z :=
  let n := Z.of_N (N_of_ascii c) in
  let d := (if (48 <=? n) && (n <=? 57) then n - 48
            else if (97 <=? n) && (n <=? 102) then n - 87
            else if (65 <=? n) && (n <=? 70) then n - 55 else radix)%Z in
  if (d <? radix)%Z then Some d else None.

Fixpoint read_digits (radix max : Z) (max_digits count : nat) (acc : Z) (s : string) :
    option (nat * Z * string) :=
  match s with
  | String c s' =>
      match to_digit radix c with
      | Some d =>
          let acc := (acc * radix + d)%Z in
          if (max <? acc)%Z || (max_digits <=? count) then None
          else read_digits radix max max_digits (S count) acc s'
      | None => Some (count, acc, s)
      end
  | EmptyString => Some (count, acc, s)
  end.

(** [Parser::read_number] *)
Definition read_number (radix max : Z) (max_digits : nat) (allow_zero_prefix : bool) (s : string) :
    option (Z * string) :=
  match read_digits radix max max_digits 0 0 s with
  | Some (count, n, rest) =>
      if (count =? 0) || (negb allow_zero_prefix && starts_with "0" s && (1 <? count)) then None
      else Some (n, rest)
  | None => None
  end.

(** [Parser::read_separator] *)
Definition read_separator {A} (sep : string) (index : nat) (inner : string → option (A * string))
    (s : string) : option (A * string) :=
  if index =? 0 then inner s else r ← strip_prefix sep s; inner r.

Definition read_octet (index : nat) (s : string) : option (Z * string) :=
  read_separator "." index (read_number 10 255 3 false) s.

(** [Parser::read_ipv4_addr] *)
Definition read_ipv4_addr (s : string) : option (Z * string) :=
  '(a, s) ← read_octet 0 s; '(b, s) ← read_octet 1 s;
  '(c, s) ← read_octet 2 s; '(d, s) ← read_octet 3 s;
  Some (((a * 256 + b) * 256 + c) * 256 + d, s)%Z.

(** [read_groups]: the groups read, whether an IPv4 address ended them, and the
    rest.  [left] is the number of groups still allowed. *)
Fixpoint read_groups (left index : nat) (s : string) : list Z * bool * string :=
  match left with
  | O => ([], false, s)
  | S left' =>
      match (if 1 <? left then read_separator ":" index read_ipv4_addr s else None) with
      | Some (v4, rest) => ([Z.shiftr v4 16; Z.land v4 65535], true, rest)
      | None =>
          match read_separator ":" index (read_number 16 65535 4 true) s with
          | Some (g, rest) =>
              let '(gs, v4, rest) := read_groups left' (S index) rest in (g :: gs, v4, rest)
          | None => ([], false, s)
          end
      end
  end.

Definition ipv6_value (groups : list Z) : Z := fold_left (λ acc g, acc * 65536 + g)%Z groups 0%Z.

(** [Parser::read_ipv6_addr] *)
Definition read_ipv6_addr (s : string) : option (Z * string) :=
  let '(head, head_ipv4, rest) := read_groups 8 0 s in
  if length head =? 8 then Some (ipv6_value head, rest)
  else if head_ipv4 then None
  else
    rest ← strip_prefix "::" rest;
    let '(tail, _, rest) := read_groups (8 - (length head + 1)) 0 rest in
    Some (ipv6_value (head ++ replicate (8 - length head - length tail) 0%Z ++ tail), rest).

(** [s.parse::<IpAddr>().ok()] *)
Definition parse_ip (s : string) : option IpAddr :=
  match read_ipv4_addr s with
  | Some (o, EmptyString) => Some (V4 o)
  | Some _ => None
  | None =>
      match read_ipv6_addr s with
      | Some (o, EmptyString) => Some (V6 o)
      | _ => None
      end
  end.

Example parse_ipv4 : parse_ip "127.0.0.1" = Some (V4 2130706433). Proof. reflexivity. Qed.
Example parse_ipv4_zero_prefix : parse_ip "127.0.0.01" = None. Proof. reflexivity. Qed.
Example parse_ipv6_loopback : parse_ip "::1" = Some (V6 1). Proof. reflexivity. Qed.
Example parse_ipv6_mapped : parse_ip "::ffff:1.2.3.4" = Some (V6 (65535 * 2 ^ 32 + 16909060)).
Proof. reflexivity. Qed.
Example parse_ipv6_middle :
  parse_ip "2606:50c0:8000::153" = Some (V6 (ipv6_value [9734; 20672; 32768; 0; 0; 0; 0; 339]))%Z.
Proof. reflexivity. Qed.
Example parse_ipv6_short : parse_ip "1:2:3" = None. Proof. reflexivity. Qed.
Example parse_host : parse_ip "example.com" = None. Proof. reflexivity. Qed.
