(* ===== verification/Concrete.v ===== *)
(** * A concrete instance of the third-party values

    The models are parametric in [uuid], [chrono] and [serde_json] ([Deps]).
    This file gives one instance satisfying the laws, on which the witnesses
    evaluate: a UUID by its 36-character text, a JSON value as a tree. *)

From Stdlib Require Import Ascii String ZArith SpecFloat.
From S2P Require Import Prelude.

Inductive JsonTree :=
  | JNull
  | JBool (b : bool)
  | JNumber (n : N)
  | JString (s : string)
  | JArray (l : list JsonTree)
  | JObject (fields : list (string * JsonTree)).

Fixpoint assoc_find {A} (k : string) (l : list (string * A)) : option A :=
  match l with
  | [] => None
  | (k', a) :: l' => if String.eqb k k' then Some a else assoc_find k l'
  end.

Definition uuid_ok (s : string) : bool := Nat.eqb (String.length s) 36 && str_all uuid_char s.

(** The predicate of the type is sealed: a normal form that mentions the type stays
    small. *)
Lemma uuid_shape_sealed :
  { P : string → Prop | (∀ s, P s ↔ uuid_ok s = true) ∧ ∀ s (p q : P s), p = q }.
Proof.
  exists (λ s, Is_true (uuid_ok s)). split; [intros s; by rewrite Is_true_true|intros s p q; apply proof_irrel].
Qed.

Definition uuid_shape : string → Prop := proj1_sig uuid_shape_sealed.

Lemma uuid_shape_ok s : uuid_shape s ↔ uuid_ok s = true.
Proof. apply (proj2_sig uuid_shape_sealed). Qed.

Definition uuid_text : Type := { s : string | uuid_shape s }.

Lemma uuid_text_eq (a b : uuid_text) : proj1_sig a = proj1_sig b → a = b.
Proof.
  destruct a as [a Ha], b as [b Hb]; cbn. intros <-. f_equal. apply (proj2_sig uuid_shape_sealed).
Qed.

#[global] Instance uuid_text_eq_dec : EqDecision uuid_text.
Proof.
  intros a b. destruct (decide (proj1_sig a = proj1_sig b)) as [H|H]; [left|right].
  - by apply uuid_text_eq.
  - by intros ->.
Defined.

#[global] Program Instance uuid_text_countable : Countable uuid_text := {|
  encode u := encode (proj1_sig u);
  decode p := s ← decode p;
    match decide (uuid_ok s = true) with
    | left H => Some (exist _ s (proj2 (uuid_shape_ok s) H))
    | right _ => None
    end;
|}.
Next Obligation.
  intros [s Hs]. cbn. rewrite decode_encode. cbn. destruct (decide _) as [H|H].
  - f_equal. by apply uuid_text_eq.
  - destruct H. by apply uuid_shape_ok.
Qed.

Definition concrete_deps : Deps := {|
  Uuid := uuid_text;
  Uuid_to_string := proj1_sig;
  DateTime := Z;
  Json := JsonTree;
  json_null := JNull;
  json_get v k := match v with JObject fields => assoc_find k fields | _ => None end;
  json_as_str v := match v with JString s => Some s | _ => None end;
  json_as_bool v := match v with JBool b => Some b | _ => None end;
  json_as_u64 v := match v with JNumber n => Some n | _ => None end;
  json_as_array v := match v with JArray l => Some l | _ => None end;
|}.

Lemma concrete_deps_laws : @DepsLaws concrete_deps.
Proof.
  split; [exact uuid_text_eq| |];
    intros [a Ha]; cbn; apply uuid_shape_ok, andb_prop in Ha as [Ha%Nat.eqb_eq ?]; done.
Qed.

(** A parser of UUIDs that takes only the hyphenated text. *)
Definition concrete_uuid (s : string) : option uuid_text :=
  match decide (uuid_ok s = true) with
  | left H => Some (exist _ s (proj2 (uuid_shape_ok s) H))
  | right _ => None
  end.

Lemma concrete_uuid_round_trip (u : Uuid (Deps := concrete_deps)) :
  concrete_uuid (Uuid_to_string (Deps := concrete_deps) u) = Some u.
Proof.
  destruct u as [s Hs]. cbn. unfold concrete_uuid. destruct (decide _) as [H|H].
  - f_equal. by apply uuid_text_eq.
  - destruct H. by apply uuid_shape_ok.
Qed.

(** Floats are countable, and a positive is a text of its bits: what a JSON or a TOML
    encoder needs here is one text per value. *)
#[global] Instance spec_float_eq_dec : EqDecision spec_float.
Proof. solve_decision. Defined.

Definition spec_float_code (x : spec_float) : (bool + bool) + (unit + bool * positive * Z) :=
  match x with
  | S754_zero s => inl (inl s)
  | S754_infinity s => inl (inr s)
  | S754_nan => inr (inl tt)
  | S754_finite s m e => inr (inr (s, m, e))
  end.

Definition spec_float_decode (c : (bool + bool) + (unit + bool * positive * Z)) : spec_float :=
  match c with
  | inl (inl s) => S754_zero s
  | inl (inr s) => S754_infinity s
  | inr (inl _) => S754_nan
  | inr (inr (s, m, e)) => S754_finite s m e
  end.

#[global] Program Instance spec_float_countable : Countable spec_float :=
  inj_countable' spec_float_code spec_float_decode _.
Next Obligation. by intros []. Qed.

Fixpoint positive_text (p : positive) : string :=
  match p with
  | xH => ""
  | xO p => String "0" (positive_text p)
  | xI p => String "1" (positive_text p)
  end.

Fixpoint text_positive (s : string) : positive :=
  match s with
  | EmptyString => xH
  | String "1" s => xI (text_positive s)
  | String _ s => xO (text_positive s)
  end.

Lemma text_positive_text p : text_positive (positive_text p) = p.
Proof. induction p as [p IH|p IH|]; cbn; by rewrite ?IH. Qed.

(** The texts of a countable type. *)
Definition to_text `{Countable A} (x : A) : string := positive_text (encode x).
Definition of_text `{Countable A} (s : string) : option A := decode (text_positive s).

Lemma of_to_text `{Countable A} (x : A) : of_text (to_text x) = Some x.
Proof. unfold of_text, to_text. by rewrite text_positive_text, decode_encode. Qed.

(** Trimming keeps a first character that starts no white space. *)
Lemma trim_end_keeps n s : ∃ t, trim_end_fuel n (String "r" s) = String "r" t.
Proof.
  revert s. induction n as [|n IH]; intros s; [by exists s|]. cbn [trim_end_fuel].
  destruct (List.find _ whitespace) as [w|] eqn:Hf; [|by exists s].
  apply find_some in Hf as [Hw [p Hp]%ends_with_spec]. rewrite Hp, strip_suffix_app. cbn [default].
  destruct p as [|c p]; cbn in Hp.
  - assert (forallb (λ w, negb (starts_with "r" w)) whitespace = true) as Hws by (vm_compute; reflexivity).
    rewrite forallb_forall in Hws. specialize (Hws w Hw). by destruct w as [|c w]; [|injection Hp as <- _].
  - injection Hp as <- _. apply IH.
Qed.

Lemma trim_keeps s : String.eqb (trim (String "r" s)) "" = false.
Proof.
  unfold trim. change (trim_start (String "r" s)) with (String "r" s). unfold trim_end.
  by destruct (trim_end_keeps (String.length (String "r" s)) s) as [t ->].
Qed.

(** One iteration order of hash maps. *)
Definition concrete_iter : HashIter := λ K A _ _ m, map_to_list m.

Lemma concrete_iter_laws : @HashIterLaws concrete_iter.
Proof. intros K A ?? m. reflexivity. Qed.

(** Two distinct UUIDs. *)
Definition uuid_a : Uuid (Deps := concrete_deps) :=
  exist _ "00000000-0000-4000-8000-00000000000a" (proj2 (uuid_shape_ok "00000000-0000-4000-8000-00000000000a") eq_refl).
Definition uuid_b : Uuid (Deps := concrete_deps) :=
  exist _ "00000000-0000-4000-8000-00000000000b" (proj2 (uuid_shape_ok "00000000-0000-4000-8000-00000000000b") eq_refl).
