(* ===== verification/F64.v ===== *)
(** * Binary64 scores

    Every score, threshold and configuration weight of the proxy is an [f64].
    They are modelled bit-exactly, as the IEEE-754 binary64 numbers of the
    Standard Library's [SpecFloat]: a composite score is a sum of rounded
    additions, exactly as the Rust code computes it, with its NaN and infinity
    cases.  The order lemmas reduce comparison of (canonical) floats to
    comparison of integers, in units of the least subnormal [2^-1074], and
    [f64_add_le] shows that adding a non-negative score never lowers a sum. *)

From Stdlib Require Import ZArith Lia Bool SpecFloat.

Local Open Scope Z_scope.
#[local] Arguments Z.mul : simpl never.

(** ** Operations *)

Abbreviation f64 := spec_float.

Definition f64_prec : Z := 53.
Definition f64_emax : Z := 1024.

Definition f64_add : f64 -> f64 -> f64 := SFadd f64_prec f64_emax.
Definition f64_sub : f64 -> f64 -> f64 := SFsub f64_prec f64_emax.
Definition f64_mul : f64 -> f64 -> f64 := SFmul f64_prec f64_emax.
Definition f64_div : f64 -> f64 -> f64 := SFdiv f64_prec f64_emax.

(** The comparison operators of [f64]: all false when an operand is NaN. *)
Definition f64_lt (x y : f64) : bool := SFltb x y.
Definition f64_le (x y : f64) : bool := SFleb x y.
Definition f64_gt (x y : f64) : bool := SFltb y x.
Definition f64_ge (x y : f64) : bool := SFleb y x.
Definition f64_eq (x y : f64) : bool := SFeqb x y.

(** [f64::max]: a NaN operand is ignored. *)
Definition f64_max (x y : f64) : f64 :=
  match x, y with
  | S754_nan, _ => y
  | _, S754_nan => x
  | _, _ => if SFltb x y then y else x
  end.

(** [n as f64] for an integer, and the decimal literal [n / 10^k]: both are
    rounded once, which is what the compiler does with a literal. *)
Definition f64_of_Z (n : Z) : f64 := binary_normalize f64_prec f64_emax n 0 false.
Definition f64_dec (n : Z) (k : nat) : f64 := f64_div (f64_of_Z n) (f64_of_Z (10 ^ Z.of_nat k)).

Definition f64_zero : f64 := S754_zero false.
Definition f64_neg_zero : f64 := S754_zero true.

(** The integer part of a finite float, rounded towards zero. *)
Definition f64_trunc (x : f64) : option Z :=
  match x with
  | S754_zero _ => Some 0
  | S754_finite s m e =>
      let a := if 0 <=? e then Zpos m * 2 ^ e else Zpos m / 2 ^ (- e) in
      Some (if s then - a else a)
  | _ => None
  end.

(** [x as u32] : saturating, NaN to 0. *)
Definition f64_as_u32 (x : f64) : Z :=
  match x with
  | S754_nan => 0
  | S754_infinity s => if s then 0 else 2 ^ 32 - 1
  | _ => match f64_trunc x with
         | Some n => Z.max 0 (Z.min (2 ^ 32 - 1) n)
         | None => 0
         end
  end.

(** A float the hardware can hold: canonical mantissa and exponent. *)
Definition f64_valid (x : f64) : bool := valid_binary f64_prec f64_emax x.

Definition f64_is_nan (x : f64) : bool :=
  match x with S754_nan => true | _ => false end.

(** ** Floats as integers *)

(** Value of a finite float in units of [2^-1074]; infinities are placed beyond
    every finite value, and NaN has no key. *)
Definition f64_key (x : f64) : option Z :=
  match x with
  | S754_zero _ => Some 0
  | S754_infinity s => Some (if s then - 2 ^ 2100 else 2 ^ 2100)
  | S754_nan => None
  | S754_finite s m e =>
      let a := Zpos m * 2 ^ (e + 1074) in Some (if s then - a else a)
  end.

(** *** Digits and canonical mantissas *)

Lemma digits2_pos_spec (m : positive) :
  2 ^ (Zpos (digits2_pos m) - 1) <= Zpos m < 2 ^ Zpos (digits2_pos m).
Proof.
  induction m as [m IH|m IH|]; cbn [digits2_pos]; [| |cbn; lia];
    rewrite Pos2Z.inj_succ;
    replace (Z.succ (Zpos (digits2_pos m)) - 1) with (Zpos (digits2_pos m)) by lia;
    rewrite Z.pow_succ_r by lia;
    assert (2 ^ Zpos (digits2_pos m) = 2 * 2 ^ (Zpos (digits2_pos m) - 1))
      by (rewrite <- Z.pow_succ_r by lia; f_equal; lia);
    lia.
Qed.

Lemma digits2_pos_unique (m : positive) (d : Z) :
  1 <= d -> 2 ^ (d - 1) <= Zpos m < 2 ^ d -> Zpos (digits2_pos m) = d.
Proof.
  intros Hd Hm. pose proof (digits2_pos_spec m) as Hs.
  assert (d - 1 < Zpos (digits2_pos m)) by (apply (Z.pow_lt_mono_r_iff 2); lia).
  assert (Zpos (digits2_pos m) - 1 < d) by (apply (Z.pow_lt_mono_r_iff 2); lia).
  lia.
Qed.

Lemma fexp_spec k : fexp f64_prec f64_emax k = Z.max (k - 53) (- 1074).
Proof. reflexivity. Qed.

(** A canonical pair is subnormal at the least exponent, or has 53 digits. *)
Lemma bounded_spec (m : positive) (e : Z) :
  bounded f64_prec f64_emax m e = true <->
  - 1074 <= e <= 971 /\ Zpos m < 2 ^ 53 /\ (e = - 1074 \/ 2 ^ 52 <= Zpos m).
Proof.
  unfold bounded, canonical_mantissa. rewrite andb_true_iff, Z.eqb_eq, Z.leb_le, fexp_spec.
  pose proof (digits2_pos_spec m) as Hs.
  set (d := Zpos (digits2_pos m)) in *.
  assert (Hd : 1 <= d) by lia.
  change (f64_emax - f64_prec) with 971.
  split.
  - intros [Hc He].
    assert (Hd53 : d <= 53) by lia.
    assert (2 ^ d <= 2 ^ 53) by (apply Z.pow_le_mono_r; lia).
    repeat split; try lia.
    destruct (Z.eq_dec e (- 1074)) as [|Hne]; [now left|right].
    assert (Hd53' : d = 53) by lia. rewrite Hd53' in Hs. change (53 - 1) with 52 in Hs. lia.
  - intros (He & Hm & Hor).
    assert (d - 1 < 53) by (apply (Z.pow_lt_mono_r_iff 2); lia).
    destruct Hor as [->|Hn]; [lia|].
    assert (d = 53) by (apply digits2_pos_unique; change (53 - 1) with 52; lia).
    lia.
Qed.

Lemma pow2_pos k : 0 <= k -> 0 < 2 ^ k.
Proof. intros; apply Z.pow_pos_nonneg; lia. Qed.

Lemma pow2_split a b : 0 <= a -> a <= b -> 2 ^ b = 2 ^ a * 2 ^ (b - a).
Proof. intros; rewrite <- Z.pow_add_r by lia; f_equal; lia. Qed.

(** Two canonical positive floats at different exponents are ordered by them. *)
Lemma bounded_lt_exponent m1 e1 m2 e2 :
  bounded f64_prec f64_emax m1 e1 = true -> bounded f64_prec f64_emax m2 e2 = true ->
  e1 < e2 -> Zpos m1 * 2 ^ (e1 + 1074) < Zpos m2 * 2 ^ (e2 + 1074).
Proof.
  rewrite !bounded_spec. intros (H1 & Hm1 & _) (H2 & _ & Ho2) He.
  assert (Hm2 : 2 ^ 52 <= Zpos m2) by lia.
  pose proof (pow2_pos (e1 + 1074) ltac:(lia)) as Hp.
  rewrite (pow2_split (e1 + 1074) (e2 + 1074)) by lia.
  replace (e2 + 1074 - (e1 + 1074)) with (Z.succ (e2 - e1 - 1)) by lia.
  rewrite Z.pow_succ_r by lia.
  pose proof (pow2_pos (e2 - e1 - 1) ltac:(lia)) as Hq.
  change (2 ^ 53) with (2 * 2 ^ 52) in Hm1.
  set (p := 2 ^ (e1 + 1074)) in *. set (q := 2 ^ (e2 - e1 - 1)) in *.
  assert (Zpos m1 * p < 2 * 2 ^ 52 * p) by nia.
  assert (2 ^ 52 <= Zpos m2 * q) by nia.
  replace (Zpos m2 * (p * (2 * q))) with (Zpos m2 * q * (2 * p)) by ring. nia.
Qed.

Lemma bounded_key_lt m e :
  bounded f64_prec f64_emax m e = true -> 0 < Zpos m * 2 ^ (e + 1074) < 2 ^ 2100.
Proof.
  rewrite bounded_spec. intros (He & Hm & _).
  pose proof (pow2_pos (e + 1074) ltac:(lia)) as Hp. split; [nia|].
  assert (2 ^ (e + 1074) <= 2 ^ 2045) by (apply Z.pow_le_mono_r; lia).
  rewrite (pow2_split 2045 2100) by lia.
  change (2100 - 2045) with 55.
  set (p := 2 ^ (e + 1074)) in *. generalize dependent (2 ^ 2045). intros q Hq.
  assert (2 ^ 53 < 2 ^ 55) by reflexivity.
  apply Z.lt_le_trans with (2 ^ 53 * p); [apply Z.mul_lt_mono_pos_r; lia|]. nia.
Qed.

(** ** Comparison is comparison of keys *)

Lemma pos_compare_cont_Eq a b : Pos.compare_cont Eq a b = (Zpos a ?= Zpos b).
Proof. reflexivity. Qed.

Lemma finite_compare m1 e1 m2 e2 :
  bounded f64_prec f64_emax m1 e1 = true -> bounded f64_prec f64_emax m2 e2 = true ->
  match e1 ?= e2 with
  | Lt => Lt | Gt => Gt | Eq => Pos.compare_cont Eq m1 m2
  end = (Zpos m1 * 2 ^ (e1 + 1074) ?= Zpos m2 * 2 ^ (e2 + 1074)).
Proof.
  intros H1 H2. destruct (Z.compare_spec e1 e2) as [->|He|He]; symmetry.
  - rewrite pos_compare_cont_Eq.
    apply bounded_spec in H2. pose proof (pow2_pos (e2 + 1074) ltac:(lia)) as Hp.
    symmetry. apply Zmult_compare_compat_r. lia.
  - apply Z.compare_lt_iff. now apply bounded_lt_exponent.
  - apply Z.compare_gt_iff. now apply bounded_lt_exponent.
Qed.

(** The comparison of two valid floats, as integers. *)
Lemma f64_compare_key x y :
  f64_valid x = true -> f64_valid y = true ->
  SFcompare x y = match f64_key x, f64_key y with
                  | Some a, Some b => Some (a ?= b)
                  | _, _ => None
                  end.
Proof.
  unfold f64_valid. generalize (eq_refl (2 ^ 2100)). generalize (2 ^ 2100) at 1 as K.
  intros K HK Hx Hy.
  assert (HK0 : 0 < K) by (subst; reflexivity).
  assert (Hb : forall m e, bounded f64_prec f64_emax m e = true ->
                           0 < Zpos m * 2 ^ (e + 1074) < K)
    by (intros m e Hm; subst K; now apply bounded_key_lt).
  destruct x as [s1|s1| |s1 m1 e1], y as [s2|s2| |s2 m2 e2];
    cbn [f64_key SFcompare valid_binary] in *; rewrite <- ?HK; try reflexivity;
    repeat match goal with
           | H : bounded _ _ _ _ = true |- _ => pose proof (Hb _ _ H); revert H
           end; intros;
    repeat match goal with
           | s : bool |- _ => destruct s
           end; f_equal;
    try (symmetry; first [apply Z.compare_eq_iff; lia
                         |apply Z.compare_lt_iff; lia|apply Z.compare_gt_iff; lia]).
  - rewrite <- Zcompare_opp, (Z.compare_antisym (Zpos m1 * _)), <- finite_compare by assumption.
    now destruct (e1 ?= e2).
  - now apply finite_compare.
Qed.

Lemma f64_lt_key x y :
  f64_valid x = true -> f64_valid y = true ->
  f64_lt x y = true <->
  exists a b, f64_key x = Some a /\ f64_key y = Some b /\ a < b.
Proof.
  intros Hx Hy. unfold f64_lt, SFltb. rewrite f64_compare_key by assumption.
  destruct (f64_key x) as [a|], (f64_key y) as [b|]; [|split;
    [discriminate|intros (? & ? & ? & ? & ?); discriminate]..].
  destruct (Z.compare_spec a b); split; try discriminate; try reflexivity.
  - intros (? & ? & [= <-] & [= <-] & ?); lia.
  - eauto 10.
  - intros (? & ? & [= <-] & [= <-] & ?); lia.
Qed.

Lemma f64_le_key x y :
  f64_valid x = true -> f64_valid y = true ->
  f64_le x y = true <->
  exists a b, f64_key x = Some a /\ f64_key y = Some b /\ a <= b.
Proof.
  intros Hx Hy. unfold f64_le, SFleb. rewrite f64_compare_key by assumption.
  destruct (f64_key x) as [a|], (f64_key y) as [b|]; [|split;
    [discriminate|intros (? & ? & ? & ? & ?); discriminate]..].
  destruct (Z.compare_spec a b); split; try discriminate; try reflexivity; intros H'.
  - exists a, b; repeat split; lia.
  - exists a, b; repeat split; lia.
  - destruct H' as (? & ? & [= <-] & [= <-] & ?); lia.
Qed.

Lemma f64_lt_le_trans x y z :
  f64_valid x = true -> f64_valid y = true -> f64_valid z = true ->
  f64_lt x y = true -> f64_le y z = true -> f64_lt x z = true.
Proof.
  intros Hx Hy Hz. rewrite f64_lt_key, f64_le_key, f64_lt_key by assumption.
  intros (a & b & Ha & Hb & ?) (b' & c & Hb' & Hc & ?).
  rewrite Hb in Hb'; injection Hb' as <-. exists a, c. repeat split; trivial; lia.
Qed.

Lemma f64_le_lt_trans x y z :
  f64_valid x = true -> f64_valid y = true -> f64_valid z = true ->
  f64_le x y = true -> f64_lt y z = true -> f64_lt x z = true.
Proof.
  intros Hx Hy Hz. rewrite f64_le_key, f64_lt_key, f64_lt_key by assumption.
  intros (a & b & Ha & Hb & ?) (b' & c & Hb' & Hc & ?).
  rewrite Hb in Hb'; injection Hb' as <-. exists a, c. repeat split; trivial; lia.
Qed.

Lemma f64_le_trans x y z :
  f64_valid x = true -> f64_valid y = true -> f64_valid z = true ->
  f64_le x y = true -> f64_le y z = true -> f64_le x z = true.
Proof.
  intros Hx Hy Hz. rewrite !f64_le_key by assumption.
  intros (a & b & Ha & Hb & ?) (b' & c & Hb' & Hc & ?).
  rewrite Hb in Hb'; injection Hb' as <-. exists a, c. repeat split; trivial; lia.
Qed.

Lemma f64_lt_asym x y :
  f64_valid x = true -> f64_valid y = true -> f64_lt x y = true -> f64_lt y x = false.
Proof.
  intros Hx Hy H. apply not_true_is_false. intros H'. revert H H'.
  rewrite !f64_lt_key by assumption.
  intros (a & b & Ha & Hb & ?) (b' & a' & Hb' & Ha' & ?). rewrite Ha in Ha'; rewrite Hb in Hb'.
  injection Ha' as <-; injection Hb' as <-; lia.
Qed.

Lemma f64_lt_nan_l x : f64_lt S754_nan x = false.
Proof. reflexivity. Qed.

Lemma f64_lt_nan_r x : f64_lt x S754_nan = false.
Proof. now destruct x. Qed.

Lemma f64_key_None x : f64_key x = None -> f64_is_nan x = true.
Proof. now destruct x. Qed.

(** Two floats that are not NaN are comparable. *)
Lemma f64_le_or_gt x y :
  f64_valid x = true -> f64_valid y = true -> f64_is_nan x = false -> f64_is_nan y = false ->
  (f64_le x y = negb (f64_lt y x))%bool.
Proof.
  intros Hx Hy Hnx Hny. unfold f64_le, f64_lt, SFleb, SFltb.
  rewrite !f64_compare_key by assumption.
  destruct (f64_key x) as [a|] eqn:Ex; [|apply f64_key_None in Ex; congruence].
  destruct (f64_key y) as [b|] eqn:Ey; [|apply f64_key_None in Ey; congruence].
  rewrite (Z.compare_antisym b a). now destruct (b ?= a).
Qed.

(** ** Rounding an exact sum *)

(** *** The shift of a mantissa keeps its quotient and whether it was exact *)

Definition inexact (mrs : shr_record) : bool := orb (shr_r mrs) (shr_s mrs).

Lemma shr_1_spec mrs :
  0 <= shr_m mrs ->
  shr_m (shr_1 mrs) = shr_m mrs / 2 /\
  inexact (shr_1 mrs) = (inexact mrs || Z.odd (shr_m mrs))%bool.
Proof.
  destruct mrs as [m r s]; unfold inexact; cbn [shr_m shr_r shr_s].
  destruct m as [|p|p]; cbn; [..|lia]; intros _.
  - destruct r, s; split; reflexivity.
  - destruct p as [p|p|]; cbn [shr_m shr_r shr_s Z.odd]; (split; [|now destruct r, s]).
    + rewrite <- Z.div2_div. reflexivity.
    + rewrite <- Z.div2_div. reflexivity.
    + reflexivity.
Qed.

Lemma iter_pos_nat {A} (f : A -> A) p x : iter_pos f p x = Nat.iter (Pos.to_nat p) f x.
Proof.
  revert x. induction p as [p IH|p IH|]; intros x; cbn [iter_pos]; rewrite ?IH; [| |reflexivity];
    rewrite <- Nat.iter_add.
  - rewrite Pos2Nat.inj_xI. replace (S (2 * Pos.to_nat p)) with
      (Pos.to_nat p + Pos.to_nat p + 1)%nat by lia.
    now rewrite (Nat.iter_add _ 1).
  - rewrite Pos2Nat.inj_xO. f_equal. lia.
Qed.

Lemma shr_1_iter_spec (n : nat) mrs :
  0 <= shr_m mrs ->
  let r := Nat.iter n shr_1 mrs in
  shr_m r = shr_m mrs / 2 ^ Z.of_nat n /\
  inexact r = (inexact mrs || negb (shr_m mrs mod 2 ^ Z.of_nat n =? 0))%bool.
Proof.
  intros Hm. induction n as [|n IH].
  - cbn. rewrite Z.div_1_r, Z.mod_1_r. cbn. now rewrite orb_false_r.
  - cbv zeta in *. destruct IH as [IHm IHi].
    change (Nat.iter (S n) shr_1 mrs) with (shr_1 (Nat.iter n shr_1 mrs)).
    set (r := Nat.iter n shr_1 mrs) in *.
    assert (Hr : 0 <= shr_m r) by (rewrite IHm; apply Z.div_pos; [lia|apply pow2_pos; lia]).
    destruct (shr_1_spec r Hr) as [-> ->]. rewrite IHi, IHm.
    pose proof (pow2_pos (Z.of_nat n) ltac:(lia)) as Hp.
    rewrite Nat2Z.inj_succ, <- Z.add_1_r, Z.pow_add_r by lia. change (2 ^ 1) with 2.
    split; [now rewrite Z.div_div by lia|].
    rewrite <- orb_assoc. f_equal. rewrite Z.rem_mul_r by lia.
    rewrite Zodd_mod.
    pose proof (Z.mod_pos_bound (shr_m mrs) (2 ^ Z.of_nat n) ltac:(lia)).
    pose proof (Z.mod_pos_bound (shr_m mrs / 2 ^ Z.of_nat n) 2 ltac:(lia)).
    destruct (Z.eqb_spec (shr_m mrs mod 2 ^ Z.of_nat n) 0),
             (Z.eqb_spec ((shr_m mrs / 2 ^ Z.of_nat n) mod 2) 1); cbn;
      symmetry; rewrite ?negb_true_iff, ?negb_false_iff, ?Z.eqb_neq, ?Z.eqb_eq; nia.
Qed.

Lemma shr_exact_spec m e k :
  0 <= m -> 0 <= k ->
  exists mrs, shr (Build_shr_record m false false) e k = (mrs, e + k) /\
              shr_m mrs = m / 2 ^ k /\ inexact mrs = negb (m mod 2 ^ k =? 0).
Proof.
  intros Hm Hk. unfold shr. destruct k as [|p|p]; [| |lia].
  - exists (Build_shr_record m false false). rewrite Z.add_0_r, Z.div_1_r, Z.mod_1_r.
    repeat split.
  - rewrite iter_pos_nat. eexists; split; [reflexivity|].
    pose proof (shr_1_iter_spec (Pos.to_nat p) (Build_shr_record m false false) Hm) as [-> ->].
    rewrite positive_nat_Z. repeat split.
Qed.

Lemma round_nearest_even_spec mrs :
  let m' := round_nearest_even (shr_m mrs) (loc_of_shr_record mrs) in
  m' = shr_m mrs \/ (m' = shr_m mrs + 1 /\ inexact mrs = true).
Proof.
  destruct mrs as [m [] []]; cbn; auto. destruct (Z.even m); auto.
Qed.

Lemma digits2_pos_shift m p j :
  0 <= j -> Zpos p = Zpos m * 2 ^ j -> Zpos (digits2_pos p) = Zpos (digits2_pos m) + j.
Proof.
  intros Hj Hp. apply digits2_pos_unique; [lia|].
  pose proof (digits2_pos_spec m) as [Hl Hu]. rewrite Hp.
  replace (Zpos (digits2_pos m) + j - 1) with ((Zpos (digits2_pos m) - 1) + j) by lia.
  rewrite !Z.pow_add_r by lia. pose proof (pow2_pos j Hj). nia.
Qed.

Lemma pos_iter_xO m p : Zpos (Pos.iter xO m p) = Zpos m * 2 ^ Zpos p.
Proof.
  rewrite Pos2Nat.inj_iter. rewrite <- (positive_nat_Z p). induction (Pos.to_nat p) as [|n IH].
  - cbn. lia.
  - cbn [nat_rect]. rewrite Pos2Z.inj_xO, IH, Nat2Z.inj_succ, Z.pow_succ_r by lia. ring.
Qed.

(** [v] is rounded to [a]: no valid float lies strictly between them. *)
Definition rounds_to (v a : Z) : Prop :=
  forall my ey, bounded f64_prec f64_emax my ey = true ->
    let u := Zpos my * 2 ^ (ey + 1074) in (u <= v -> u <= a) /\ (v <= u -> a <= u).

(** A valid float is never strictly inside the gap above a mantissa of 53 bits. *)
Lemma bounded_gap my ey m f :
  bounded f64_prec f64_emax my ey = true -> - 1074 <= f -> 2 ^ 52 <= m ->
  let u := Zpos my * 2 ^ (ey + 1074) in let q := 2 ^ (f + 1074) in
  u <= m * q \/ (m + 1) * q <= u.
Proof.
  rewrite bounded_spec. intros (He & Hm53 & _) Hf Hm u q.
  pose proof (pow2_pos (f + 1074) ltac:(lia)) as Hq. fold q in Hq.
  destruct (Z_lt_le_dec ey f) as [Hlt|Hge].
  - left. subst u q. pose proof (pow2_pos (ey + 1074) ltac:(lia)) as Hp.
    rewrite (pow2_split (ey + 1074) (f + 1074)) by lia.
    replace (f + 1074 - (ey + 1074)) with (Z.succ (f - ey - 1)) by lia.
    rewrite Z.pow_succ_r by lia. pose proof (pow2_pos (f - ey - 1) ltac:(lia)) as Hr.
    change (2 ^ 53) with (2 * 2 ^ 52) in Hm53.
    set (p := 2 ^ (ey + 1074)) in *. set (r := 2 ^ (f - ey - 1)) in *.
    generalize dependent (2 ^ 52). intros c Hc Hmy.
    assert (c <= m * r) by nia. replace (m * (p * (2 * r))) with (m * r * (2 * p)) by ring. nia.
  - subst u. rewrite (pow2_split (f + 1074) (ey + 1074)) by lia. fold q.
    set (r := 2 ^ (ey + 1074 - (f + 1074))).
    replace (Zpos my * (q * r)) with (Zpos my * r * q) by ring.
    destruct (Z_lt_le_dec m (Zpos my * r)); [right|left]; nia.
Qed.

Lemma shr_fexp_id m f :
  fexp f64_prec f64_emax (Zdigits2 m + f) = f ->
  shr_fexp f64_prec f64_emax m f loc_Exact = (Build_shr_record m false false, f).
Proof. intros H. unfold shr_fexp. now rewrite H, Z.sub_diag. Qed.

Lemma Zdigits2_53 m : 2 ^ 52 <= m < 2 ^ 53 -> Zdigits2 m = 53.
Proof. intros Hm. destruct m as [|p|p]; [lia| |lia]. apply digits2_pos_unique; lia. Qed.

Lemma shr_fexp_carry f :
  - 1074 <= f ->
  exists mrs, shr_fexp f64_prec f64_emax (2 ^ 53) f loc_Exact = (mrs, f + 1) /\
              shr_m mrs = 2 ^ 52.
Proof.
  intros Hf. unfold shr_fexp. change (Zdigits2 (2 ^ 53)) with 54. rewrite fexp_spec.
  replace (Z.max (54 + f - 53) (-1074) - f) with 1 by lia.
  eexists; split; reflexivity.
Qed.

(** What [binary_round_aux] builds from a mantissa that is already in place. *)
Definition f64_pack (sx : bool) (m e : Z) : f64 :=
  match m with
  | Z0 => S754_zero sx
  | Zpos p => if e <=? 971 then S754_finite sx p e else S754_infinity sx
  | _ => S754_nan
  end.

Lemma round_exact sx m e :
  let f := fexp f64_prec f64_emax (Zpos (digits2_pos m) + e) in
  f <= e ->
  binary_round f64_prec f64_emax sx m e = f64_pack sx (Zpos m * 2 ^ (e - f)) f.
Proof.
  intros f Hf. unfold binary_round. fold f.
  assert (Ha : exists p, shl_align m e f = (p, f) /\ Zpos p = Zpos m * 2 ^ (e - f)).
  { unfold shl_align. destruct (f - e) as [|j|j] eqn:Ej; [| lia |].
    - exists m. replace f with e by lia. rewrite Z.sub_diag. split; [reflexivity|lia].
    - exists (Pos.iter xO m j). split; [reflexivity|]. rewrite pos_iter_xO. do 2 f_equal. lia. }
  destruct Ha as (p & -> & Hp).
  assert (Hd : fexp f64_prec f64_emax (Zdigits2 (Zpos p) + f) = f).
  { cbn [Zdigits2]. rewrite (digits2_pos_shift m p (e - f)) by (trivial; lia).
    replace (Zpos (digits2_pos m) + (e - f) + f) with (Zpos (digits2_pos m) + e) by lia.
    reflexivity. }
  unfold binary_round_aux. rewrite shr_fexp_id by assumption. cbn [shr_m loc_of_shr_record round_nearest_even].
  rewrite shr_fexp_id by assumption. cbn [shr_m]. rewrite <- Hp. reflexivity.
Qed.

Lemma round_inexact sx m e :
  - 1074 <= e ->
  let f := fexp f64_prec f64_emax (Zpos (digits2_pos m) + e) in
  e < f ->
  let lo := Zpos m / 2 ^ (f - e) in
  2 ^ 52 <= lo < 2 ^ 53 /\
  exists mr, (mr = lo \/ mr = lo + 1 /\ Zpos m mod 2 ^ (f - e) <> 0) /\
    binary_round f64_prec f64_emax sx m e =
      if mr =? 2 ^ 53 then f64_pack sx (2 ^ 52) (f + 1) else f64_pack sx mr f.
Proof.
  intros He f Hf lo. pose proof (digits2_pos_spec m) as [Hl Hu].
  assert (Hfd : f = Zpos (digits2_pos m) + e - 53)
    by (unfold f in *; rewrite fexp_spec in *; lia).
  pose proof (pow2_pos (f - e) ltac:(lia)) as Hk.
  assert (Hlo : 2 ^ 52 <= lo < 2 ^ 53).
  { unfold lo. replace (Zpos (digits2_pos m) - 1) with (52 + (f - e)) in Hl by lia.
    replace (Zpos (digits2_pos m)) with (53 + (f - e)) in Hu by lia.
    rewrite Z.pow_add_r in Hl, Hu by lia.
    split; [apply Z.div_le_lower_bound|apply Z.div_lt_upper_bound]; lia. }
  split; [assumption|]. assert (Elo : Zpos m / 2 ^ (f - e) = lo) by reflexivity. clearbody lo.
  unfold binary_round. fold f. unfold shl_align.
  destruct (f - e) as [|j|j] eqn:Ej; [lia| |lia]. rewrite <- Ej in *.
  unfold binary_round_aux. unfold shr_fexp at 1. cbn [shr_record_of_loc Zdigits2]. fold f.
  destruct (shr_exact_spec (Zpos m) e (f - e)) as (mrs & -> & Hm & Hi); [lia|lia|].
  replace (e + (f - e)) with f by lia.
  pose proof (round_nearest_even_spec mrs) as Hr. cbv zeta in Hr.
  set (mr := round_nearest_even (shr_m mrs) (loc_of_shr_record mrs)) in *.
  rewrite Hm, Hi, negb_true_iff, Z.eqb_neq, Elo in Hr.
  exists mr. split; [tauto|].
  destruct (Z.eqb_spec mr (2 ^ 53)) as [->|Hne].
  - destruct (shr_fexp_carry f) as (mrs2 & -> & ->); [lia|reflexivity].
  - rewrite shr_fexp_id by (rewrite Zdigits2_53, fexp_spec; lia). cbn [shr_m].
    reflexivity.
Qed.

(** The result of [binary_round] on a mantissa that is a multiple of the least
    subnormal: valid, and the nearest-or-equal float on either side. *)
Definition round_result (sx : bool) (v : Z) (x : f64) : Prop :=
  f64_valid x = true /\
  match x with
  | S754_finite s m e => s = sx /\ rounds_to v (Zpos m * 2 ^ (e + 1074))
  | S754_infinity s =>
      s = sx /\ forall my ey, bounded f64_prec f64_emax my ey = true ->
                              Zpos my * 2 ^ (ey + 1074) < v
  | _ => False
  end.

Lemma bounded_max my ey :
  bounded f64_prec f64_emax my ey = true ->
  Zpos my * 2 ^ (ey + 1074) <= (2 ^ 53 - 1) * 2 ^ (971 + 1074).
Proof.
  rewrite bounded_spec. intros (He & Hm & _).
  apply Z.mul_le_mono_nonneg; [lia|lia|apply Z.lt_le_incl, pow2_pos; lia|].
  apply Z.pow_le_mono_r; lia.
Qed.

(** A 53-bit mantissa at an exponent in range is a valid float; beyond it the
    result is an infinity, past every finite float. *)
Lemma f64_pack_spec sx m f v :
  - 1074 <= f -> 2 ^ 52 <= m < 2 ^ 53 ->
  (f <= 971 -> rounds_to v (m * 2 ^ (f + 1074))) ->
  (971 < f -> (2 ^ 53 - 1) * 2 ^ (971 + 1074) < v) ->
  round_result sx v (f64_pack sx m f).
Proof.
  intros Hf Hm Hfin Hinf. unfold f64_pack. destruct m as [|p|p]; [lia| |lia].
  destruct (Z.leb_spec f 971) as [Hle|Hgt]; (split; [try reflexivity|split; [reflexivity|]]).
  - unfold f64_valid. cbn [valid_binary]. apply bounded_spec. lia.
  - now apply Hfin.
  - intros my ey Hy. apply bounded_max in Hy. specialize (Hinf Hgt). lia.
Qed.

Lemma rounds_to_exact v : rounds_to v v.
Proof. intros my ey _ u; split; trivial. Qed.

(** A faithful rounding between two consecutive 53-bit mantissas. *)
Lemma rounds_to_lo m f v :
  - 1074 <= f -> 2 ^ 52 <= m -> m * 2 ^ (f + 1074) <= v < (m + 1) * 2 ^ (f + 1074) ->
  rounds_to v (m * 2 ^ (f + 1074)).
Proof.
  intros Hf Hm Hv my ey Hy u. pose proof (bounded_gap my ey m f Hy Hf Hm) as Hgap.
  cbv zeta in Hgap. fold u in Hgap. lia.
Qed.

Lemma rounds_to_hi m f v :
  - 1074 <= f -> 2 ^ 52 <= m -> m * 2 ^ (f + 1074) < v < (m + 1) * 2 ^ (f + 1074) ->
  rounds_to v ((m + 1) * 2 ^ (f + 1074)).
Proof.
  intros Hf Hm Hv my ey Hy u. pose proof (bounded_gap my ey m f Hy Hf Hm) as Hgap.
  cbv zeta in Hgap. fold u in Hgap. lia.
Qed.

(** Beyond exponent 971 even the least 53-bit mantissa is past every float. *)
Lemma overflow_lo m f v :
  971 < f -> 2 ^ 52 <= m -> m * 2 ^ (f + 1074) <= v ->
  (2 ^ 53 - 1) * 2 ^ (971 + 1074) < v.
Proof.
  intros Hf Hm Hv. rewrite (pow2_split (971 + 1074) (f + 1074)) in Hv by lia.
  replace (f + 1074 - (971 + 1074)) with (Z.succ (f - 972)) in Hv by lia.
  rewrite Z.pow_succ_r in Hv by lia. pose proof (pow2_pos (f - 972) ltac:(lia)) as Hr.
  pose proof (pow2_pos (971 + 1074) ltac:(lia)) as Hq.
  change (2 ^ 53) with (2 * 2 ^ 52).
  assert (Hc0 : 0 < 2 ^ 52) by reflexivity.
  set (r := 2 ^ (f - 972)) in *. generalize dependent (2 ^ (971 + 1074)).
  generalize dependent (2 ^ 52). intros c Hc Hc0 q Hv Hq.
  assert (c <= m * r) by nia.
  replace (m * (q * (2 * r))) with (m * r * (2 * q)) in Hv by ring. nia.
Qed.

Lemma binary_round_exact_result sx m e :
  - 1074 <= e -> fexp f64_prec f64_emax (Zpos (digits2_pos m) + e) <= e ->
  round_result sx (Zpos m * 2 ^ (e + 1074)) (binary_round f64_prec f64_emax sx m e).
Proof.
  intros He Hf. rewrite round_exact by assumption.
  set (f := fexp _ _ _) in *.
  assert (Hv : Zpos m * 2 ^ (e + 1074) = Zpos m * 2 ^ (e - f) * 2 ^ (f + 1074)).
  { rewrite <- Z.mul_assoc, <- Z.pow_add_r by (unfold f in *; rewrite fexp_spec in *; lia).
    do 2 f_equal. lia. }
  assert (Hd : exists p, Zpos m * 2 ^ (e - f) = Zpos p).
  { pose proof (pow2_pos (e - f) ltac:(lia)). destruct (Zpos m * 2 ^ (e - f)) eqn:E; [nia|eauto|nia]. }
  destruct Hd as [p Hp]. rewrite Hv, Hp.
  pose proof (digits2_pos_shift m p (e - f) ltac:(lia) (eq_sym Hp)) as Hdig.
  pose proof (digits2_pos_spec p) as Hps. rewrite Hdig in Hps.
  assert (Hff : f = Z.max (Zpos (digits2_pos m) + e - 53) (-1074)) by reflexivity.
  destruct (Z.eq_dec f (- 1074)) as [Hsub|Hnorm].
  - assert (Zpos p < 2 ^ 53).
    { apply Z.lt_le_trans with (2 ^ (Zpos (digits2_pos m) + (e - f))); [tauto|].
      apply Z.pow_le_mono_r; lia. }
    unfold f64_pack. destruct (Z.leb_spec f 971); [|lia].
    split; [unfold f64_valid; cbn [valid_binary]; apply bounded_spec; lia|].
    split; [reflexivity|apply rounds_to_exact].
  - replace (Zpos (digits2_pos m) + (e - f)) with 53 in Hps by lia.
    apply f64_pack_spec; [lia|lia|intros _; apply rounds_to_exact|].
    intros Hgt. apply (overflow_lo (Zpos p) f); lia.
Qed.

Lemma binary_round_inexact_result sx m e :
  - 1074 <= e -> e < fexp f64_prec f64_emax (Zpos (digits2_pos m) + e) ->
  round_result sx (Zpos m * 2 ^ (e + 1074)) (binary_round f64_prec f64_emax sx m e).
Proof.
  intros He Hf. destruct (round_inexact sx m e He Hf) as (Hlo & mr & Hmr & ->).
  set (f := fexp _ _ _) in *. set (lo := Zpos m / 2 ^ (f - e)) in *.
  pose proof (pow2_pos (f - e) ltac:(lia)) as Hk.
  pose proof (pow2_pos (e + 1074) ltac:(lia)) as Hq.
  pose proof (Z.div_mod (Zpos m) (2 ^ (f - e)) ltac:(lia)) as Hdm. fold lo in Hdm.
  pose proof (Z.mod_pos_bound (Zpos m) (2 ^ (f - e)) Hk) as Hmod.
  assert (Hsplit : 2 ^ (f + 1074) = 2 ^ (f - e) * 2 ^ (e + 1074))
    by (rewrite <- Z.pow_add_r by lia; f_equal; lia).
  set (v := Zpos m * 2 ^ (e + 1074)).
  assert (Hv : lo * 2 ^ (f + 1074) <= v < (lo + 1) * 2 ^ (f + 1074) /\
               (Zpos m mod 2 ^ (f - e) <> 0 -> lo * 2 ^ (f + 1074) < v)).
  { subst v. rewrite Hsplit. set (k := 2 ^ (f - e)) in *. set (q := 2 ^ (e + 1074)) in *.
    replace (lo * (k * q)) with (k * lo * q) by ring.
    replace ((lo + 1) * (k * q)) with ((k * lo + k) * q) by ring.
    split; [split|intros ?]; nia. }
  clearbody v lo. clear Hdm Hmod Hsplit Hk Hq. destruct Hv as [Hv Hstrict].
  destruct (Z.eqb_spec mr (2 ^ 53)) as [->|Hne].
  - assert (Hin : Zpos m mod 2 ^ (f - e) <> 0) by lia.
    assert (Elo : lo = 2 ^ 53 - 1) by lia. specialize (Hstrict Hin).
    apply f64_pack_spec; [lia|split; reflexivity || lia| |].
    + intros _. replace (2 ^ 52 * 2 ^ (f + 1 + 1074)) with ((lo + 1) * 2 ^ (f + 1074)).
      * apply rounds_to_hi; lia.
      * rewrite Elo. replace (f + 1 + 1074) with (Z.succ (f + 1074)) by lia.
        rewrite Z.pow_succ_r by lia. ring.
    + intros Hgt. apply Z.le_lt_trans with (lo * 2 ^ (f + 1074)); [|assumption].
      rewrite Elo. apply Z.mul_le_mono_nonneg_l; [lia|]. apply Z.pow_le_mono_r; lia.
  - apply f64_pack_spec; [lia|lia| |intros Hgt; apply (overflow_lo lo f); lia].
    intros _. destruct Hmr as [->|[-> Hin]].
    + apply rounds_to_lo; lia.
    + apply rounds_to_hi; [lia|lia|]. specialize (Hstrict Hin). lia.
Qed.

Lemma binary_round_result sx m e :
  - 1074 <= e ->
  round_result sx (Zpos m * 2 ^ (e + 1074)) (binary_round f64_prec f64_emax sx m e).
Proof.
  intros He. destruct (Z_lt_le_dec e (fexp f64_prec f64_emax (Zpos (digits2_pos m) + e))).
  - now apply binary_round_inexact_result.
  - now apply binary_round_exact_result.
Qed.

(** ** Addition *)

Lemma shl_align_spec m e e' :
  e' <= e -> Zpos (fst (shl_align m e e')) = Zpos m * 2 ^ (e - e').
Proof.
  intros He. unfold shl_align. destruct (e' - e) as [|j|j] eqn:Ej; cbn [fst]; [|lia|].
  - replace (e - e') with 0 by lia. lia.
  - rewrite pos_iter_xO. do 2 f_equal. lia.
Qed.

(** The sum of two finite floats is the rounding of the exact sum. *)
Lemma f64_add_finite s1 m1 e1 s2 m2 e2 :
  bounded f64_prec f64_emax m1 e1 = true -> bounded f64_prec f64_emax m2 e2 = true ->
  exists n e, - 1074 <= e /\
    f64_add (S754_finite s1 m1 e1) (S754_finite s2 m2 e2) =
      binary_normalize f64_prec f64_emax n e false /\
    n * 2 ^ (e + 1074) =
      cond_Zopp s1 (Zpos m1 * 2 ^ (e1 + 1074)) + cond_Zopp s2 (Zpos m2 * 2 ^ (e2 + 1074)).
Proof.
  rewrite !bounded_spec. intros (H1 & _) (H2 & _).
  do 2 eexists. split; [|split; [reflexivity|]]; [lia|].
  rewrite !shl_align_spec by lia. rewrite Z.mul_add_distr_r.
  assert (Hs : forall s m e, Z.min e1 e2 <= e ->
    cond_Zopp s (Zpos m * 2 ^ (e - Z.min e1 e2)) * 2 ^ (Z.min e1 e2 + 1074) =
    cond_Zopp s (Zpos m * 2 ^ (e + 1074))).
  { intros s m e He.
    replace (e + 1074) with ((e - Z.min e1 e2) + (Z.min e1 e2 + 1074)) by lia.
    rewrite (Z.pow_add_r 2 (e - _)) by lia. destruct s; cbn [cond_Zopp]; ring. }
  rewrite !Hs by lia. reflexivity.
Qed.

(** Where a normalised sum of (scaled) value [v] lies. *)
Lemma binary_normalize_result (n e : Z) :
  - 1074 <= e ->
  match (n * 2 ^ (e + 1074))%Z with
  | Z0 => binary_normalize f64_prec f64_emax n e false = S754_zero false
  | Zpos v => round_result false (Zpos v) (binary_normalize f64_prec f64_emax n e false)
  | Zneg v => round_result true (Zpos v) (binary_normalize f64_prec f64_emax n e false)
  end.
Proof.
  intros He. pose proof (pow2_pos (e + 1074) ltac:(lia)) as Hp.
  destruct n as [|p|p]; cbn [binary_normalize]; [reflexivity|..].
  - destruct (Zpos p * 2 ^ (e + 1074)) eqn:E; [nia| |nia].
    rewrite <- E. now apply binary_round_result.
  - destruct (Zneg p * 2 ^ (e + 1074)) as [|v|v] eqn:E; [nia|nia|].
    replace (Zpos v) with (Zpos p * 2 ^ (e + 1074)) by lia. now apply binary_round_result.
Qed.

Lemma f64_add_valid x y :
  f64_valid x = true -> f64_valid y = true -> f64_valid (f64_add x y) = true.
Proof.
  intros Hx Hy. destruct x as [s1|s1| |s1 m1 e1], y as [s2|s2| |s2 m2 e2];
    try reflexivity; try assumption; try (destruct s1, s2; reflexivity).
  destruct (f64_add_finite s1 m1 e1 s2 m2 e2 Hx Hy) as (n & e & He & -> & _).
  pose proof (binary_normalize_result n e He) as Hr.
  destruct (n * 2 ^ (e + 1074)); [now rewrite Hr|apply Hr|apply Hr].
Qed.

Lemma f64_sub_opp x y : f64_sub x y = f64_add x (SFopp y).
Proof.
  destruct x as [s1|s1| |s1 m1 e1], y as [s2|s2| |s2 m2 e2];
    first [reflexivity|destruct s1, s2; reflexivity].
Qed.

Lemma f64_sub_valid x y :
  f64_valid x = true -> f64_valid y = true -> f64_valid (f64_sub x y) = true.
Proof. intros Hx Hy. rewrite f64_sub_opp. apply f64_add_valid; [easy|now destruct y]. Qed.

Definition f64_neg_infinity : f64 := S754_infinity true.

Lemma f64_add_le_finite s1 m1 e1 m2 e2 :
  bounded f64_prec f64_emax m1 e1 = true -> bounded f64_prec f64_emax m2 e2 = true ->
  exists a b, f64_key (S754_finite s1 m1 e1) = Some a /\
    f64_key (f64_add (S754_finite s1 m1 e1) (S754_finite false m2 e2)) = Some b /\ a <= b.
Proof.
  intros Hx Hy. destruct (f64_add_finite s1 m1 e1 false m2 e2 Hx Hy) as (n & e & He & -> & Hn).
  pose proof (binary_normalize_result n e He) as Hr. rewrite Hn in Hr.
  pose proof (bounded_key_lt _ _ Hx) as Hk1. pose proof (bounded_key_lt _ _ Hy) as Hk2.
  cbn [cond_Zopp f64_key] in *.
  set (u1 := Zpos m1 * 2 ^ (e1 + 1074)) in *. set (u2 := Zpos m2 * 2 ^ (e2 + 1074)) in *.
  exists (cond_Zopp s1 u1).
  enough (exists b, f64_key (binary_normalize f64_prec f64_emax n e false) = Some b /\
                    cond_Zopp s1 u1 <= b) as (b & ? & ?)
    by (exists b; repeat split; [now destruct s1|assumption..]).
  destruct (cond_Zopp s1 u1 + u2) as [|v|v] eqn:Ev.
  - rewrite Hr. exists 0. split; [reflexivity|lia].
  - destruct Hr as [_ Hr]. destruct (binary_normalize _ _ _ _ _) as [|s| |s m e']; try contradiction;
      destruct Hr as [-> Hr]; cbn [f64_key]; eexists; (split; [reflexivity|]).
    + destruct s1; cbn [cond_Zopp]; lia.
    + destruct (Hr m1 e1 Hx) as [Hlo _]. fold u1 in Hlo. destruct s1; cbn [cond_Zopp] in *; [|lia].
      pose proof (Z.pow_nonneg 2 (e' + 1074)). nia.
  - destruct Hr as [_ Hr]. destruct s1; cbn [cond_Zopp] in Ev |- *; [|lia].
    destruct (binary_normalize _ _ _ _ _) as [|s| |s m e']; try contradiction;
      destruct Hr as [-> Hr]; cbn [f64_key]; eexists; (split; [reflexivity|]).
    + specialize (Hr m1 e1 Hx). fold u1 in Hr. lia.
    + destruct (Hr m1 e1 Hx) as [_ Hhi]. fold u1 in Hhi. lia.
Qed.

(** Adding a non-negative score never lowers a sum (unless the sum is already
    NaN or negative infinity). *)
Lemma f64_add_le x y :
  f64_valid x = true -> f64_valid y = true ->
  f64_lt f64_neg_infinity x = true -> f64_le f64_zero y = true ->
  f64_le x (f64_add x y) = true.
Proof.
  intros Hx Hy Hninf Hy0. apply f64_le_key; [assumption|now apply f64_add_valid|].
  destruct x as [s1|s1| |s1 m1 e1], y as [s2|s2| |s2 m2 e2]; try discriminate;
    try (destruct s2; try discriminate); try (now apply f64_add_le_finite);
    try (destruct s1; try discriminate);
    cbn [f64_valid valid_binary] in Hx, Hy;
    try apply bounded_key_lt in Hx; try apply bounded_key_lt in Hy;
    cbn [f64_add SFadd f64_key];
    (eexists _, _; split; [reflexivity|split; [reflexivity|]]); lia.
Qed.

Lemma f64_key_ge x k : f64_valid x = true -> f64_key x = Some k -> - 2 ^ 2100 <= k.
Proof.
  assert (H0 : 0 < 2 ^ 2100) by reflexivity.
  destruct x as [s|s| |s m e]; cbn [f64_valid valid_binary f64_key]; intros Hx [= <-].
  - lia.
  - destruct s; lia.
  - apply bounded_key_lt in Hx. generalize dependent (2 ^ 2100). intros K H0 HK. destruct s; lia.
Qed.

(** Whatever exceeds some threshold is above negative infinity. *)
Lemma f64_lt_neg_infinity t x :
  f64_valid t = true -> f64_valid x = true -> f64_lt t x = true ->
  f64_lt f64_neg_infinity x = true.
Proof.
  intros Ht Hx H. apply f64_lt_key in H; [|assumption..].
  destruct H as (a & b & Ha & Hb & Hab).
  apply f64_lt_key; [reflexivity|assumption|]. exists (- 2 ^ 2100), b.
  apply f64_key_ge in Ha; [|assumption]. repeat split; [assumption|lia].
Qed.

(** ** The larger of two floats *)

Lemma SFcompare_antisym x y :
  SFcompare y x = match SFcompare x y with Some c => Some (CompOpp c) | None => None end.
Proof.
  destruct x as [s| s| |s m e], y as [s'| s'| |s' m' e']; cbn;
    try destruct s; try destruct s'; cbn; try reflexivity;
    rewrite (Z.compare_antisym e e'); destruct (Z.compare e e'); cbn; try reflexivity;
    rewrite !pos_compare_cont_Eq, (Z.compare_antisym (Zpos m)); now rewrite ?CompOpp_involutive.
Qed.

Lemma SFcompare_None x y : SFcompare x y = None -> x = S754_nan \/ y = S754_nan.
Proof.
  destruct x as [s| s| |s m e], y as [s'| s'| |s' m' e']; cbn; auto;
    try destruct s; try destruct s'; try discriminate;
    destruct (Z.compare e e'); try discriminate.
Qed.

Lemma f64_lt_false_le x y :
  f64_is_nan x = false -> f64_is_nan y = false -> f64_lt x y = false -> f64_le y x = true.
Proof.
  unfold f64_lt, f64_le, SFltb, SFleb. intros Hx Hy. rewrite (SFcompare_antisym x y).
  destruct (SFcompare x y) as [[]|] eqn:E; try discriminate; cbn; try reflexivity.
  apply SFcompare_None in E as [->| ->]; discriminate.
Qed.

Lemma f64_le_refl x : f64_is_nan x = false -> f64_le x x = true.
Proof.
  intros Hx. apply f64_lt_false_le; [assumption..|]. unfold f64_lt, SFltb.
  pose proof (SFcompare_antisym x x) as H. now destruct (SFcompare x x) as [[]|].
Qed.

(** The maximum with a number is at least that number, whatever the operand. *)
Lemma f64_max_ge x y : f64_is_nan y = false -> f64_le y (f64_max x y) = true.
Proof.
  intros Hy. unfold f64_max. destruct (f64_is_nan x) eqn:Hx.
  { destruct x; try discriminate. now apply f64_le_refl. }
  assert (H : f64_le y (if SFltb x y then y else x) = true).
  { destruct (SFltb x y) eqn:E; [now apply f64_le_refl|]. now apply f64_lt_false_le. }
  destruct x; try discriminate; destruct y; try discriminate; exact H.
Qed.

(** [f64::clamp] for bounds that are numbers. *)
Definition f64_clamp (lo hi x : f64) : f64 :=
  if f64_lt x lo then lo else if f64_gt x hi then hi else x.

Lemma f64_clamp_bounds lo hi x :
  f64_is_nan x = false -> f64_le lo hi = true ->
  f64_le lo (f64_clamp lo hi x) = true /\ f64_le (f64_clamp lo hi x) hi = true.
Proof.
  intros Hx Hle.
  assert (Hlo : f64_is_nan lo = false) by now destruct lo.
  assert (Hhi : f64_is_nan hi = false) by (unfold f64_le, SFleb in Hle; destruct hi; try reflexivity; now destruct lo as [|[]| |]).
  unfold f64_clamp, f64_gt. destruct (f64_lt x lo) eqn:E1; [split; [now apply f64_le_refl|assumption]|].
  unfold f64_lt in *. destruct (SFltb hi x) eqn:E2; [split; [assumption|now apply f64_le_refl]|].
  split; apply f64_lt_false_le; assumption.
Qed.
