(* ===== verification/Types.v ===== *)
(** * Proxy data types

    [crates/grith-proxy/src/types.rs]: the tool call under evaluation and its
    accessors, filter results, decisions, severities and call outcomes. *)

From Stdlib Require Import Ascii.
From S2P Require Import Prelude F64.

(** ** Outcomes of a call *)

Inductive CallOutcome := Executed | ObservedOnly | Denied | KernelRefused.

#[export] Instance CallOutcome_eq_dec : EqDecision CallOutcome.
Proof. solve_decision. Defined.

Definition executed (o : CallOutcome) : bool :=
  match o with Executed | ObservedOnly => true | _ => false end.

Definition suppressed (o : CallOutcome) : bool :=
  match o with Denied | KernelRefused => true | _ => false end.

(** ** Small enumerations *)

Inductive BindProtocol := Tcp | Udp.

Inductive QueuePriority := Low | Medium | High | Critical.

Inductive Severity := SevNotice | SevWarning | SevError | SevCritical.

Inductive TaintLevel := TaintNone | TaintLow | TaintMedium | TaintHigh.

#[export] Instance BindProtocol_eq_dec : EqDecision BindProtocol.
Proof. solve_decision. Defined.
#[export] Instance QueuePriority_eq_dec : EqDecision QueuePriority.
Proof. solve_decision. Defined.
#[export] Instance Severity_eq_dec : EqDecision Severity.
Proof. solve_decision. Defined.
#[export] Instance TaintLevel_eq_dec : EqDecision TaintLevel.
Proof. solve_decision. Defined.

(** [Severity : Ord] is derived: the order of the constructors. *)
Definition severity_rank (s : Severity) : Z :=
  match s with SevNotice => 0 | SevWarning => 1 | SevError => 2 | SevCritical => 3 end.

Definition priority_rank (p : QueuePriority) : Z :=
  match p with Low => 0 | Medium => 1 | High => 2 | Critical => 3 end.

Record ListenerPolicyMatch := {
  lpm_allow_clamp : bool;
  lpm_desc : string;
}.

(** ** Unix sockets *)

Inductive UnixSocketClass := Privileged | Control.

#[export] Instance UnixSocketClass_eq_dec : EqDecision UnixSocketClass.
Proof. solve_decision. Defined.

Definition UnixSocketClass_KEY : string := "unix_socket_class".

Definition UnixSocketClass_as_str (c : UnixSocketClass) : string :=
  match c with Privileged => "privileged" | Control => "control" end.

Definition UnixSocketClass_from_str_value (value : string) : option UnixSocketClass :=
  if String.eqb value "privileged" then Some Privileged
  else if String.eqb value "control" then Some Control
  else None.

(** ** Spawn provenance *)

Record ComponentWritability := {
  cw_path : string;
  cw_owner_uid : Z;
  cw_other_writable : bool;
  cw_group_writable_non_root : bool;
  cw_world_writable : bool;
}.

Record SpawnProvenance := {
  sp_canonical_path : string;
  sp_sha256 : string;
  sp_owner_uid : Z;
  sp_owner_gid : Z;
  sp_mode : Z;
  sp_component_writability : list ComponentWritability;
  sp_matched_routine_root : option string;
  sp_is_outbound_capable : bool;
}.

(** ** Tool calls *)

Inductive ToolCallType :=
  | FileRead (path : string)
  | FileWrite (path content_hash : string)
  | FileAppend (path : string)
  | FileDelete (path : string)
  | DirList (path : string)
  | ShellExec (command : string) (args : list string)
  | HttpRequest (method url : string)
  | FileRename (old_path new_path : string)
  | FileLink (target link_path : string) (symbolic : bool)
  | FileChmod (path : string) (mode : Z)
  | DirCreate (path : string)
  | NetConnect (address : string) (port : Z)
  | NetListen (address : string) (port : Z)
  | ProcessSpawn (command : string) (args : list string)
  | DnsQuery (domain query_type : string)
  | OwnershipChange (target : string) (new_uid new_gid : Z)
  | FilesystemMutation (op : string) (source : option string) (target : string)
      (fstype : option string)
  | CrossProcessAccess (op : string) (target_pid : Z)
  | NamespaceOp (syscall : string) (flags : Z)
  | DbusMethodCall (socket : string) (destination interface member : option string).

#[export] Instance ToolCallType_eq_dec : EqDecision ToolCallType.
Proof. solve_decision. Defined.

(** Whether an operator's approval can be remembered for the session. *)
Definition supports_session_grant (t : ToolCallType) : bool :=
  match t with
  | FileRead _ | FileWrite _ _ | FileAppend _ | FileDelete _ | DirList _
  | FileRename _ _ | FileLink _ _ _ | FileChmod _ _ | DirCreate _
  | NetConnect _ _ | NetListen _ _ | ProcessSpawn _ _ | DnsQuery _ _
  | OwnershipChange _ _ _ | FilesystemMutation _ _ _ _
  | CrossProcessAccess _ _ | NamespaceOp _ _ => true
  | ShellExec _ _ | HttpRequest _ _ | DbusMethodCall _ _ _ _ => false
  end.

Definition category_supports_session_grant (category : string) : bool :=
  negb (str_mem category ["ShellExec"; "HttpRequest"; "DbusMethodCall"]).

(** Digits of an unsigned number in base [2^k] ([{:o}] and [{:x}]). *)
Fixpoint radix_digits (fuel : nat) (k : N) (n : N) (acc : string) : string :=
  match fuel with
  | O => acc
  | S fuel' =>
      let d := (n mod 2 ^ k)%N in
      let c := if (d <? 10)%N then Ascii.ascii_of_N (48 + d) else Ascii.ascii_of_N (87 + d) in
      let acc' := String c acc in
      if (n / 2 ^ k =? 0)%N then acc' else radix_digits fuel' k (n / 2 ^ k) acc'
  end.

Definition fmt_octal (n : Z) : string := radix_digits 64 3 (Z.to_N n) "".
Definition fmt_hex (n : Z) : string := "0x" +:+ radix_digits 64 4 (Z.to_N n) "".

Definition or_str (o : option string) (d : string) : string := default d o.

(** [Display for ToolCallType]. *)
Definition ToolCallType_display (t : ToolCallType) : string :=
  match t with
  | FileRead path => "FileRead(" +:+ path +:+ ")"
  | FileWrite path _ => "FileWrite(" +:+ path +:+ ")"
  | FileAppend path => "FileAppend(" +:+ path +:+ ")"
  | FileDelete path => "FileDelete(" +:+ path +:+ ")"
  | DirList path => "DirList(" +:+ path +:+ ")"
  | ShellExec command args => "ShellExec(" +:+ command +:+ " " +:+ join " " args +:+ ")"
  | HttpRequest method url => "HttpRequest(" +:+ method +:+ " " +:+ url +:+ ")"
  | FileRename old_path new_path =>
      "FileRename(" +:+ old_path +:+ " -> " +:+ new_path +:+ ")"
  | FileLink target link_path symbolic =>
      "FileLink(" +:+ (if symbolic then "symbolic" else "hard") +:+ " " +:+ link_path
        +:+ " -> " +:+ target +:+ ")"
  | FileChmod path mode => "FileChmod(" +:+ path +:+ ", " +:+ fmt_octal mode +:+ ")"
  | DirCreate path => "DirCreate(" +:+ path +:+ ")"
  | NetConnect address port => "NetConnect(" +:+ address +:+ ":" +:+ fmt_Z port +:+ ")"
  | NetListen address port => "NetListen(" +:+ address +:+ ":" +:+ fmt_Z port +:+ ")"
  | ProcessSpawn command args =>
      "ProcessSpawn(" +:+ command +:+ " " +:+ join " " args +:+ ")"
  | DnsQuery domain query_type => "DnsQuery(" +:+ domain +:+ " " +:+ query_type +:+ ")"
  | OwnershipChange target new_uid new_gid =>
      "OwnershipChange(" +:+ target +:+ " uid=" +:+ fmt_Z new_uid +:+ " gid="
        +:+ fmt_Z new_gid +:+ ")"
  | FilesystemMutation op source target fstype =>
      "FilesystemMutation(" +:+ op +:+ " src=" +:+ or_str source "" +:+ " target="
        +:+ target +:+ " fstype=" +:+ or_str fstype "" +:+ ")"
  | CrossProcessAccess op target_pid =>
      "CrossProcessAccess(" +:+ op +:+ " target_pid=" +:+ fmt_Z target_pid +:+ ")"
  | NamespaceOp syscall flags =>
      "NamespaceOp(" +:+ syscall +:+ " flags=" +:+ fmt_hex flags +:+ ")"
  | DbusMethodCall socket destination interface member =>
      "DbusMethodCall(" +:+ socket +:+ " " +:+ or_str destination "?" +:+ " "
        +:+ or_str interface "?" +:+ "." +:+ or_str member "?" +:+ ")"
  end.

(** The text of a rendered call before its first parenthesis, as the digest
    reviewer reads it back. *)
Fixpoint category_of (s : string) : string :=
  match s with
  | EmptyString => EmptyString
  | String c s' => if ascii_eqb c "("%char then EmptyString else String c (category_of s')
  end.

(** ** Scopes, contexts, results and decisions *)

Section Context_and_results.
Context `{D : Deps}.

(** [SessionScopeKey] wraps the session's UUID. *)
Record SessionScopeKey := { scope_uuid : Uuid }.

#[global] Instance SessionScopeKey_eq_dec : EqDecision SessionScopeKey.
Proof. solve_decision. Defined.

#[global] Program Instance SessionScopeKey_countable : Countable SessionScopeKey :=
  inj_countable' scope_uuid (λ u, {| scope_uuid := u |}) _.
Next Obligation. by intros []. Qed.

Definition from_session_id (id : Uuid) : SessionScopeKey := {| scope_uuid := id |}.

Record ToolCallContext := {
  ctx_id : Uuid;
  ctx_timestamp : DateTime;
  ctx_plugin_id : string;
  ctx_call_type : ToolCallType;
  ctx_arguments : Json;
  ctx_session_id : Uuid;
  ctx_task_context : option string;
  ctx_call_sequence_number : Z;
  ctx_source_taint : TaintLevel;
  ctx_profile_name : option string;
  ctx_conversation_id : option string;
  ctx_session_scope : option SessionScopeKey;
  ctx_spawn_provenance : option SpawnProvenance;
  ctx_listener_policy_match : option ListenerPolicyMatch;
  ctx_bind_protocol : option BindProtocol;
}.

(** [ToolCallContext::new], the fresh id and the clock reading as arguments. *)
Definition ToolCallContext_new (id : Uuid) (now : DateTime) (plugin_id : string)
    (call_type : ToolCallType) (session_id : Uuid) : ToolCallContext := {|
  ctx_id := id;
  ctx_timestamp := now;
  ctx_plugin_id := plugin_id;
  ctx_call_type := call_type;
  ctx_arguments := json_null;
  ctx_session_id := session_id;
  ctx_task_context := None;
  ctx_call_sequence_number := 0;
  ctx_source_taint := TaintNone;
  ctx_profile_name := None;
  ctx_conversation_id := None;
  ctx_session_scope := Some (from_session_id session_id);
  ctx_spawn_provenance := None;
  ctx_listener_policy_match := None;
  ctx_bind_protocol := None;
|}.

Definition unix_socket_class (ctx : ToolCallContext) : option UnixSocketClass :=
  v ← json_get (ctx_arguments ctx) UnixSocketClass_KEY;
  s ← json_as_str v;
  UnixSocketClass_from_str_value s.

(** The key of all scope-keyed filter state. The (throttled) warning the code
    logs when the explicit scope is missing is not part of the model. *)
Definition scope_or_warn (ctx : ToolCallContext) : SessionScopeKey :=
  match ctx_session_scope ctx with
  | Some scope => scope
  | None => from_session_id (ctx_session_id ctx)
  end.

Definition ctx_path (ctx : ToolCallContext) : option string :=
  match ctx_call_type ctx with
  | FileRead path | FileWrite path _ | FileAppend path | FileDelete path
  | DirList path | FileChmod path _ | DirCreate path => Some path
  | FileRename old_path _ => Some old_path
  | FileLink target _ _ | OwnershipChange target _ _
  | FilesystemMutation _ _ target _ => Some target
  | _ => None
  end.

Definition ctx_paths (ctx : ToolCallContext) : list string :=
  match ctx_call_type ctx with
  | FileLink target link_path _ => [target; link_path]
  | _ => option_list (ctx_path ctx)
  end.

Definition ctx_url (ctx : ToolCallContext) : option string :=
  match ctx_call_type ctx with HttpRequest _ url => Some url | _ => None end.

Definition ctx_command (ctx : ToolCallContext) : option string :=
  match ctx_call_type ctx with
  | ShellExec command _ | ProcessSpawn command _ => Some command
  | _ => None
  end.

Definition full_command (ctx : ToolCallContext) : option string :=
  match ctx_call_type ctx with
  | ShellExec command args | ProcessSpawn command args =>
      Some (if decide (args = []) then command else command +:+ " " +:+ join " " args)
  | _ => None
  end.

Definition ctx_address (ctx : ToolCallContext) : option (string * Z) :=
  match ctx_call_type ctx with
  | NetConnect address port | NetListen address port => Some (address, port)
  | _ => None
  end.

Record FilterResult := {
  fr_filter_name : string;
  fr_matched : bool;
  fr_score : f64;
  fr_rule_id : string;
  fr_severity : Severity;
  fr_message : string;
  fr_metadata : gmap string Json;
}.

Definition no_match (filter_name : string) : FilterResult := {|
  fr_filter_name := filter_name;
  fr_matched := false;
  fr_score := f64_zero;
  fr_rule_id := "";
  fr_severity := SevNotice;
  fr_message := "";
  fr_metadata := ∅;
|}.

Definition matched (filter_name rule_id : string) (score : f64) (severity : Severity)
    (message : string) : FilterResult := {|
  fr_filter_name := filter_name;
  fr_matched := true;
  fr_score := score;
  fr_rule_id := rule_id;
  fr_severity := severity;
  fr_message := message;
  fr_metadata := ∅;
|}.

Inductive ProxyAction :=
  | Allow
  | Queue (priority : QueuePriority)
  | Deny (reason : string).

#[global] Instance ProxyAction_eq_dec : EqDecision ProxyAction.
Proof. solve_decision. Defined.

Record ProxyDecision := {
  pd_action : ProxyAction;
  pd_composite_score : f64;
  pd_filter_results : list FilterResult;
  pd_evaluation_time : Duration;
  pd_decision_reason : string;
}.

Definition is_allowed (d : ProxyDecision) : bool := bool_decide (pd_action d = Allow).

Definition is_denied (d : ProxyDecision) : bool :=
  match pd_action d with Deny _ => true | _ => false end.

End Context_and_results.

Arguments FilterResult {_}.
Arguments ToolCallContext {_}.
