(* ===== verification/Scoring.v ===== *)
(** * Score aggregation and routing

    [crates/grith-proxy/src/scoring.rs] and the decision constructors of
    [types.rs]: the sum of the matched filters' scores, and its mapping to
    allow, queue (with a priority) or deny. *)

From Stdlib Require Import SpecFloat.
From S2P Require Import Prelude Concrete F64 Types.

(** ** Rendering of a score with one decimal ([{score:.1}]) *)

(** Round half to even of [num / den], for [den > 0]. *)
Definition div_half_even (num den : Z) : Z :=
  let q := (num / den)%Z in
  match (2 * (num mod den) ?= den)%Z with
  | Lt => q
  | Gt => q + 1
  | Eq => if Z.even q then q else q + 1
  end.

Definition f64_fmt1 (x : f64) : string :=
  let sign (s : bool) : string := if s then "-" else "" in
  match x with
  | S754_nan => "NaN"
  | S754_infinity s => sign s +:+ "inf"
  | S754_zero s => sign s +:+ "0.0"
  | S754_finite s m e =>
      let tenths :=
        if (0 <=? e)%Z then (Zpos m * 2 ^ e * 10)%Z
        else div_half_even (Zpos m * 10) (2 ^ (- e)) in
      sign s +:+ fmt_Z (tenths / 10) +:+ "." +:+ fmt_Z (tenths mod 10)
  end.

(** ** Thresholds *)

Definition SCORE_QUEUE_THRESHOLD : f64 := f64_of_Z 3.
Definition SCORE_DENY_THRESHOLD : f64 := f64_of_Z 8.

Definition severity_for (score : f64) : Severity :=
  if f64_ge score SCORE_DENY_THRESHOLD then SevCritical
  else if f64_ge score (f64_of_Z 5) then SevError
  else if f64_ge score SCORE_QUEUE_THRESHOLD then SevWarning
  else SevNotice.

Record ScoringConfig := {
  auto_allow_threshold : f64;
  auto_deny_threshold : f64;
}.

Definition ScoringConfig_default : ScoringConfig := {|
  auto_allow_threshold := SCORE_QUEUE_THRESHOLD;
  auto_deny_threshold := SCORE_DENY_THRESHOLD;
|}.

Definition thresholds (c : ScoringConfig) : f64 * f64 :=
  (auto_allow_threshold c, auto_deny_threshold c).

(** ** Aggregation and routing *)

Section Scoring.
Context `{D : Deps}.

(** [Iterator::sum] for [f64] folds from negative zero. *)
Definition f64_sum (l : list f64) : f64 := fold_left f64_add l f64_neg_zero.

Definition aggregate (results : list FilterResult) : f64 :=
  f64_sum (map fr_score (List.filter fr_matched results)).

Definition exceeds_deny (score deny_threshold : f64) : bool := f64_gt score deny_threshold.

Definition build_deny_reason (results : list FilterResult) : string :=
  let triggers :=
    map fr_message
      (List.filter (λ r, fr_matched r && f64_gt (fr_score r) f64_zero) results) in
  if decide (triggers = []) then "Score exceeds auto-deny threshold" else join "; " triggers.

Definition decision_allow (score : f64) (results : list FilterResult) (time : Duration) :
    ProxyDecision := {|
  pd_action := Allow;
  pd_composite_score := score;
  pd_filter_results := results;
  pd_evaluation_time := time;
  pd_decision_reason := "Score " +:+ f64_fmt1 score +:+ " below allow threshold";
|}.

Definition queue_priority (score : f64) : QueuePriority :=
  if f64_ge score (f64_of_Z 7) then Critical
  else if f64_ge score (f64_dec 55 1) then High
  else if f64_ge score (f64_of_Z 4) then Medium
  else Low.

Definition decision_queue (score : f64) (results : list FilterResult) (time : Duration) :
    ProxyDecision := {|
  pd_action := Queue (queue_priority score);
  pd_composite_score := score;
  pd_filter_results := results;
  pd_evaluation_time := time;
  pd_decision_reason := "Score " +:+ f64_fmt1 score +:+ " in escalation zone";
|}.

Definition decision_deny (score : f64) (results : list FilterResult) (reason : string)
    (time : Duration) : ProxyDecision := {|
  pd_action := Deny reason;
  pd_composite_score := score;
  pd_filter_results := results;
  pd_evaluation_time := time;
  pd_decision_reason := reason;
|}.

Definition route_decision (score : f64) (results : list FilterResult)
    (allow_threshold deny_threshold : f64) (evaluation_time : Duration) : ProxyDecision :=
  if f64_gt score deny_threshold then
    decision_deny score results (build_deny_reason results) evaluation_time
  else if f64_gt score allow_threshold then decision_queue score results evaluation_time
  else decision_allow score results evaluation_time.

(** ** Well-formed results *)

(** Scores the hardware can hold. *)
Definition result_valid (r : FilterResult) : Prop := f64_valid (fr_score r) = true.

(** A result that can only add to a score: what every built-in filter returns. *)
Definition result_nonneg (r : FilterResult) : Prop :=
  f64_valid (fr_score r) = true ∧ f64_le f64_zero (fr_score r) = true.

Lemma no_match_nonneg name : result_nonneg (no_match name).
Proof. by split. Qed.

(** ** Lemmas *)

Lemma f64_fold_valid l x :
  Forall (λ y, f64_valid y = true) l → f64_valid x = true →
  f64_valid (fold_left f64_add l x) = true.
Proof. intros Hl. revert x. induction Hl; cbn; auto using f64_add_valid. Qed.

Lemma matched_scores_valid results :
  Forall result_valid results →
  Forall (λ y, f64_valid y = true) (map fr_score (List.filter fr_matched results)).
Proof.
  induction 1 as [|r l Hr _ IH]; cbn; [constructor|].
  destruct (fr_matched r); cbn; [by constructor|done].
Qed.

Lemma aggregate_valid results :
  Forall result_valid results → f64_valid (aggregate results) = true.
Proof. intros. apply f64_fold_valid; [by apply matched_scores_valid|done]. Qed.

Lemma result_nonneg_valid r : result_nonneg r → result_valid r.
Proof. by intros []. Qed.

Lemma fold_add_le l x :
  Forall (λ y, f64_valid y = true ∧ f64_le f64_zero y = true) l →
  f64_valid x = true → f64_lt f64_neg_infinity x = true →
  f64_le x (fold_left f64_add l x) = true.
Proof.
  intros Hl. revert x. induction Hl as [|y l [Hy Hy0] Hl IH]; intros x Hx Hninf; cbn.
  - apply f64_le_key; [done..|].
    apply f64_lt_key in Hninf as (a & b & _ & Hb & _); [|done..]. by exists b, b.
  - pose proof (f64_add_le x y Hx Hy Hninf Hy0) as Hle.
    pose proof (f64_add_valid x y Hx Hy) as Hv.
    eapply f64_le_trans; [done|done| |exact Hle|].
    + apply f64_fold_valid; [|done]. eapply Forall_impl; [exact Hl|]. by intros ? [].
    + apply IH; [done|]. by eapply f64_lt_le_trans with (y := x).
Qed.

Lemma aggregate_app results extra :
  aggregate (results ++ extra) =
  fold_left f64_add (map fr_score (List.filter fr_matched extra)) (aggregate results).
Proof.
  unfold aggregate, f64_sum. by rewrite List.filter_app, map_app, fold_left_app.
Qed.

(** A later non-negative result never brings a score back under a threshold it
    has exceeded. *)
Lemma aggregate_app_gt results extra t :
  Forall result_valid results → Forall result_nonneg extra → f64_valid t = true →
  f64_gt (aggregate results) t = true → f64_gt (aggregate (results ++ extra)) t = true.
Proof.
  intros Hr He Ht Hgt. rewrite aggregate_app.
  pose proof (aggregate_valid results Hr) as Hv.
  assert (Hn : Forall (λ y, f64_valid y = true ∧ f64_le f64_zero y = true)
                 (map fr_score (List.filter fr_matched extra))).
  { clear -He. induction He as [|r l Hr _ IH]; cbn; [constructor|].
    destruct (fr_matched r); cbn; [by constructor|done]. }
  eapply f64_lt_le_trans; [done|done| |exact Hgt|].
  - apply f64_fold_valid; [|done]. eapply Forall_impl; [exact Hn|]. by intros ? [].
  - apply fold_add_le; [done..|]. by eapply f64_lt_neg_infinity with (t := t).
Qed.
End Scoring.

(** ** Properties *)

Section Properties.
Context `{D : Deps}.

(** Actions by increasing strictness; queue priorities in between. *)
Definition action_rank (a : ProxyAction) : Z :=
  match a with
  | Allow => 0
  | Queue p => 1 + priority_rank p
  | Deny _ => 5
  end.

Lemma priority_rank_bounds p : (0 ≤ priority_rank p ≤ 3)%Z.
Proof. by destruct p. Qed.

Lemma f64_ge_mono s1 s2 t :
  f64_valid s1 = true → f64_valid s2 = true → f64_valid t = true →
  f64_le s1 s2 = true → f64_ge s1 t = true → f64_ge s2 t = true.
Proof. intros ??? Hle Ht. exact (f64_le_trans t s1 s2 ltac:(done) ltac:(done) ltac:(done) Ht Hle). Qed.

Lemma f64_gt_mono s1 s2 t :
  f64_valid s1 = true → f64_valid s2 = true → f64_valid t = true →
  f64_le s1 s2 = true → f64_gt s1 t = true → f64_gt s2 t = true.
Proof. intros ??? Hle Ht. exact (f64_lt_le_trans t s1 s2 ltac:(done) ltac:(done) ltac:(done) Ht Hle). Qed.

Lemma queue_priority_mono s1 s2 :
  f64_valid s1 = true → f64_valid s2 = true → f64_le s1 s2 = true →
  (priority_rank (queue_priority s1) ≤ priority_rank (queue_priority s2))%Z.
Proof.
  intros H1 H2 Hle. unfold queue_priority.
  assert (Hm : ∀ t, f64_valid t = true → f64_ge s1 t = true → f64_ge s2 t = true)
    by (intros t Ht Hge; exact (f64_ge_mono s1 s2 t H1 H2 Ht Hle Hge)).
  pose proof (Hm (f64_of_Z 7) eq_refl). pose proof (Hm (f64_dec 55 1) eq_refl).
  pose proof (Hm (f64_of_Z 4) eq_refl).
  repeat case_match; cbn; (lia || intuition congruence).
Qed.

(** A higher composite score never gets a more lenient decision.  Whatever
    the operator's thresholds, if one score is at most another then its action
    (allow, queue by increasing priority, deny) is at most as strict. *)
Theorem route_decision_monotone s1 s2 rs1 rs2 allow deny t1 t2
    (Hs1 : f64_valid s1 = true) (Hs2 : f64_valid s2 = true)
    (Ha : f64_valid allow = true) (Hd : f64_valid deny = true)
    (Hle : f64_le s1 s2 = true) :
  (action_rank (pd_action (route_decision s1 rs1 allow deny t1))
   ≤ action_rank (pd_action (route_decision s2 rs2 allow deny t2)))%Z.
Proof.
  pose proof (f64_gt_mono s1 s2 deny Hs1 Hs2 Hd Hle) as Hdeny.
  pose proof (f64_gt_mono s1 s2 allow Hs1 Hs2 Ha Hle) as Hallow.
  pose proof (queue_priority_mono s1 s2 Hs1 Hs2 Hle) as Hq.
  pose proof (priority_rank_bounds (queue_priority s1)).
  pose proof (priority_rank_bounds (queue_priority s2)).
  unfold route_decision.
  destruct (f64_gt s1 deny); [rewrite Hdeny by done; cbn; lia|].
  destruct (f64_gt s1 allow); [rewrite Hallow by done|];
    destruct (f64_gt s2 deny); try destruct (f64_gt s2 allow); cbn; lia.
Qed.

(** A composite score that is NaN is routed to allow, whatever the
    thresholds and the results: both threshold tests are false on NaN. *)
Theorem route_decision_nan_allows rs allow deny t :
  pd_action (route_decision S754_nan rs allow deny t) = Allow.
Proof.
  unfold route_decision, f64_gt. fold (f64_lt deny S754_nan) (f64_lt allow S754_nan).
  by rewrite !f64_lt_nan_r.
Qed.

End Properties.

(** A score of 3.5 queues at the lowest priority; 7.5 at the highest. *)
Lemma route_decision_monotone_witness :
  (action_rank (pd_action (route_decision (D := concrete_deps) (f64_dec 35 1) []
      SCORE_QUEUE_THRESHOLD SCORE_DENY_THRESHOLD 0)) = 1 ∧
   action_rank (pd_action (route_decision (D := concrete_deps) (f64_dec 75 1) []
      SCORE_QUEUE_THRESHOLD SCORE_DENY_THRESHOLD 0)) = 4 ∧
   1 ≤ 4)%Z.
Proof.
  split; [vm_compute; reflexivity|split; [vm_compute; reflexivity|]].
  exact (route_decision_monotone (D := concrete_deps) (f64_dec 35 1) (f64_dec 75 1) [] []
    SCORE_QUEUE_THRESHOLD SCORE_DENY_THRESHOLD 0 0 eq_refl eq_refl eq_refl eq_refl eq_refl).
Defined.
