(* ===== verification/MetaRules.v ===== *)
(** * Composite meta-rules

    [crates/grith-proxy/src/meta_rules.rs] and [canonical_filter_name] of
    [filters/mod.rs]: rules that fire on a combination of filter results and
    adjust, or override, the composite score. *)

From S2P Require Import Prelude Concrete F64 Types Scoring.

(** Legacy snake_case filter names to their kebab-case ones. *)
Definition canonical_filter_names : list (string * string) :=
  [("operation_risk", "operation-risk"); ("path_match", "path-match");
   ("sensitive_path_heuristic", "sensitive-path-heuristic"); ("secret_scan", "secret-scan");
   ("egress_policy", "egress-policy"); ("dlp_gate", "dlp-gate");
   ("session_containment", "session-containment"); ("rate_limit", "rate-limit");
   ("egress_rate", "egress-rate")].

Definition canonical_filter_name (name : string) : string :=
  default name (assoc_find name canonical_filter_names).

Record MetaCondition := {
  mc_filter : option string;
  mc_rule_id : option string;
  mc_matched : option bool;
  mc_call_type : option string;
  mc_path_contains : option string;
  mc_taint_source : option string;
  mc_metadata_flag : option string;
}.

Record MetaRule := {
  mr_id : string;
  mr_conditions : list MetaCondition;
  mr_score_override : option f64;
  mr_score_adjustment : option f64;
  mr_message : string;
}.

(** The name a [call_type] condition is compared with. *)
Definition call_type_name (t : ToolCallType) : string :=
  match t with
  | FileRead _ => "FileRead"
  | FileWrite _ _ => "FileWrite"
  | FileAppend _ => "FileAppend"
  | FileDelete _ => "FileDelete"
  | DirList _ => "DirList"
  | ShellExec _ _ => "ShellExec"
  | HttpRequest _ _ => "HttpRequest"
  | FileRename _ _ => "FileRename"
  | FileLink _ _ _ => "FileLink"
  | FileChmod _ _ => "FileChmod"
  | DirCreate _ => "DirCreate"
  | NetConnect _ _ => "NetConnect"
  | NetListen _ _ => "NetListen"
  | ProcessSpawn _ _ => "ProcessSpawn"
  | DnsQuery _ _ => "DnsQuery"
  | OwnershipChange _ _ _ => "OwnershipChange"
  | FilesystemMutation _ _ _ _ => "FilesystemMutation"
  | CrossProcessAccess _ _ => "CrossProcessAccess"
  | NamespaceOp _ _ => "NamespaceOp"
  | DbusMethodCall _ _ _ _ => "DbusMethodCall"
  end.

(** [o.is_none_or(f)] *)
Definition is_none_or {A} (o : option A) (f : A → bool) : bool :=
  match o with None => true | Some a => f a end.

Definition json_str_is `{Deps} (v : Json) (expected : string) : bool :=
  bool_decide (json_as_str v = Some expected).

Section MetaRules.
Context `{D : Deps}.

Definition filter_condition (c : MetaCondition) (filter_name : string)
    (results : list FilterResult) : bool :=
  let want := canonical_filter_name filter_name in
  existsb (λ r,
    String.eqb (fr_filter_name r) want
    && is_none_or (mc_rule_id c) (String.eqb (fr_rule_id r))
    && is_none_or (mc_matched c) (Bool.eqb (fr_matched r))) results.

Definition taint_condition (expected : string) (results : list FilterResult) : bool :=
  existsb (λ r,
    match fr_metadata r !! "active_taint_sources" ≫= json_as_array with
    | Some arr => existsb (λ v, json_str_is v expected) arr
    | None => false
    end
    || match fr_metadata r !! "taint_source_category" with
       | Some cat => json_str_is cat expected
       | None => false
       end)
    (List.filter (λ r, String.eqb (fr_filter_name r) "taint") results).

Definition metadata_flag_condition (flag : string) (results : list FilterResult) : bool :=
  existsb (λ r, bool_decide (fr_metadata r !! flag ≫= json_as_bool = Some true)) results.

Definition matches_condition (c : MetaCondition) (results : list FilterResult)
    (ctx : ToolCallContext) : bool :=
  is_none_or (mc_filter c) (λ name, filter_condition c name results)
  && is_none_or (mc_call_type c) (String.eqb (call_type_name (ctx_call_type ctx)))
  && is_none_or (mc_path_contains c) (λ sub,
       match ctx_path ctx with Some path => contains sub path | None => false end)
  && is_none_or (mc_taint_source c) (λ expected, taint_condition expected results)
  && is_none_or (mc_metadata_flag c) (λ flag, metadata_flag_condition flag results).

Definition matches_all_conditions (rule : MetaRule) (results : list FilterResult)
    (ctx : ToolCallContext) : bool :=
  forallb (λ c, matches_condition c results ctx) (mr_conditions rule).

(** The loop over the rules: a firing override returns at once. *)
Fixpoint meta_evaluate_loop (rules : list MetaRule) (results : list FilterResult)
    (ctx : ToolCallContext) (adjustment : f64) : f64 :=
  match rules with
  | [] => adjustment
  | rule :: rules' =>
      if matches_all_conditions rule results ctx then
        match mr_score_override rule with
        | Some override_score => f64_sub override_score (aggregate results)
        | None =>
            match mr_score_adjustment rule with
            | Some adj => meta_evaluate_loop rules' results ctx (f64_add adjustment adj)
            | None => meta_evaluate_loop rules' results ctx adjustment
            end
        end
      else meta_evaluate_loop rules' results ctx adjustment
  end.

Definition meta_evaluate (rules : list MetaRule) (results : list FilterResult)
    (ctx : ToolCallContext) : f64 :=
  meta_evaluate_loop rules results ctx f64_zero.

(** ** Reference reading of the rules *)

Definition fires (results : list FilterResult) (ctx : ToolCallContext) (r : MetaRule) : bool :=
  matches_all_conditions r results ctx.

(** The override of the first firing rule that carries one. *)
Definition first_override (rules : list MetaRule) (results : list FilterResult)
    (ctx : ToolCallContext) : option f64 :=
  head (omap mr_score_override (List.filter (fires results ctx) rules)).

Definition firing_adjustments (rules : list MetaRule) (results : list FilterResult)
    (ctx : ToolCallContext) : list f64 :=
  omap mr_score_adjustment (List.filter (fires results ctx) rules).

Lemma meta_evaluate_loop_spec rules results ctx acc :
  meta_evaluate_loop rules results ctx acc =
  match first_override rules results ctx with
  | Some s => f64_sub s (aggregate results)
  | None => fold_left f64_add (firing_adjustments rules results ctx) acc
  end.
Proof.
  revert acc. unfold first_override, firing_adjustments.
  induction rules as [|r rules IH]; intros acc; cbn; [done|].
  change (fires results ctx r) with (matches_all_conditions r results ctx).
  destruct (matches_all_conditions r results ctx); [|apply IH].
  cbn. destruct (mr_score_override r); [done|].
  destruct (mr_score_adjustment r); rewrite IH; done.
Qed.

Lemma canonical_filter_name_idemp name :
  canonical_filter_name (canonical_filter_name name) = canonical_filter_name name.
Proof.
  unfold canonical_filter_name at 2 3, canonical_filter_names. cbn [assoc_find].
  repeat (match goal with |- context [if ?b then _ else _] => destruct b eqn:? end;
          [reflexivity|]).
  cbn [default]. unfold canonical_filter_name, canonical_filter_names. cbn [assoc_find].
  repeat match goal with H : _ = false |- _ => rewrite H; clear H end. done.
Qed.
End MetaRules.

(** ** Properties *)

Section Properties.
Context `{D : Deps}.

(** The meta-rule engine's result is the first firing override, returned as
    its distance from the aggregate, and otherwise the sum in order of the
    adjustments of the firing rules: adjustments accumulated before an override
    are discarded, rules after it are not consulted. *)
Theorem meta_evaluate_spec rules results ctx :
  meta_evaluate rules results ctx =
  match first_override rules results ctx with
  | Some s => f64_sub s (aggregate results)
  | None => fold_left f64_add (firing_adjustments rules results ctx) f64_zero
  end.
Proof. apply meta_evaluate_loop_spec. Qed.

(** A rule written with a legacy snake_case filter name fires exactly when
    the rule written with the kebab-case name does. *)
Theorem matches_condition_canonical c name results ctx
    (Hname : mc_filter c = Some name) :
  matches_condition c results ctx =
  matches_condition
    {| mc_filter := Some (canonical_filter_name name); mc_rule_id := mc_rule_id c;
       mc_matched := mc_matched c; mc_call_type := mc_call_type c;
       mc_path_contains := mc_path_contains c; mc_taint_source := mc_taint_source c;
       mc_metadata_flag := mc_metadata_flag c |} results ctx.
Proof.
  unfold matches_condition, filter_condition. rewrite Hname. cbn [is_none_or mc_filter
    mc_rule_id mc_matched mc_call_type mc_path_contains mc_taint_source mc_metadata_flag].
  by rewrite canonical_filter_name_idemp.
Qed.

End Properties.

Lemma matches_condition_canonical_witness :
  let D := concrete_deps in
  let c := {| mc_filter := Some "dlp_gate"; mc_rule_id := None; mc_matched := Some true;
              mc_call_type := None; mc_path_contains := None; mc_taint_source := None;
              mc_metadata_flag := None |} in
  let ctx := ToolCallContext_new uuid_a 0%Z "p" (FileRead "/etc/passwd") uuid_b in
  let rs := [matched "dlp-gate" "r" f64_zero SevNotice "m"] in
  matches_condition c rs ctx = true ∧
  matches_condition
    {| mc_filter := Some "dlp-gate"; mc_rule_id := None; mc_matched := Some true;
       mc_call_type := None; mc_path_contains := None; mc_taint_source := None;
       mc_metadata_flag := None |} rs ctx = true.
Proof.
  intros D c ctx rs. split; [reflexivity|].
  exact (eq_sym (matches_condition_canonical (D := concrete_deps) c "dlp_gate" rs ctx eq_refl)).
Defined.
