(* ===== verification/SessionState.v ===== *)
(** * Per-session state

    [crates/grith-proxy/src/session_state.rs]: the registry of session states,
    each an [Arc]-shared cell with a sticky containment flag, the reason of its
    first activation and a set-once inventory of trusted binaries.  The registry
    keeps handles to cells of an explicit store, so a handle kept across an
    eviction still refers to the evicted cell.  Activation is two atomic steps;
    [ActivationRace] interleaves them over any number of threads. *)

From S2P Require Import Prelude Concrete F64 Types.

Inductive ContainmentReason :=
  | SensitiveAccessOutsideScope (path taint_level : string)
  | Manual (actor : string).

#[export] Instance ContainmentReason_eq_dec : EqDecision ContainmentReason.
Proof. solve_decision. Defined.

(** ** The pinned inventory *)

Record SessionPinnedInventory := {
  inv_entries : gmap string string;
  inv_total_scanned : nat;
  inv_truncated : bool;
}.

(** Collecting into a map: the last entry of a path wins. *)
Definition from_entries (entries : list (string * string)) : SessionPinnedInventory :=
  let m := fold_left (λ m e, <[e.1 := e.2]> m) entries ∅ in
  {| inv_entries := m; inv_total_scanned := size m; inv_truncated := false |}.

Definition inv_len (i : SessionPinnedInventory) : nat := size (inv_entries i).

Definition inv_is_empty (i : SessionPinnedInventory) : bool := Nat.eqb (inv_len i) 0.

Definition expected_hash (i : SessionPinnedInventory) (canonical_path : string) :
    option string :=
  inv_entries i !! canonical_path.

Definition inv_contains (i : SessionPinnedInventory) (canonical_path sha256_hex : string) :
    bool :=
  match inv_entries i !! canonical_path with
  | Some expected => eq_ignore_ascii_case expected sha256_hex
  | None => false
  end.

Section SessionState.
Context `{D : Deps}.

(** ** One session's cell *)

Record SessionState := {
  ss_scope : SessionScopeKey;
  ss_containment_active : bool;
  ss_containment_reason : option ContainmentReason;
  ss_last_seen : Instant;
  ss_pinned_inventory : option SessionPinnedInventory;
}.

Definition SessionState_new (now : Instant) (scope : SessionScopeKey) : SessionState := {|
  ss_scope := scope;
  ss_containment_active := false;
  ss_containment_reason := None;
  ss_last_seen := now;
  ss_pinned_inventory := None;
|}.

(** [OnceLock::set], its error ignored. *)
Definition set_pinned_inventory (inventory : SessionPinnedInventory) (s : SessionState) :
    SessionState :=
  match ss_pinned_inventory s with
  | Some _ => s
  | None =>
      {| ss_scope := ss_scope s;
         ss_containment_active := ss_containment_active s;
         ss_containment_reason := ss_containment_reason s;
         ss_last_seen := ss_last_seen s;
         ss_pinned_inventory := Some inventory |}
  end.

(** [compare_exchange(false, true)]: the new cell, and whether it succeeded. *)
Definition cas_active (s : SessionState) : SessionState * bool :=
  if ss_containment_active s then (s, false)
  else
    ({| ss_scope := ss_scope s;
        ss_containment_active := true;
        ss_containment_reason := ss_containment_reason s;
        ss_last_seen := ss_last_seen s;
        ss_pinned_inventory := ss_pinned_inventory s |}, true).

Definition store_reason (reason : ContainmentReason) (s : SessionState) : SessionState := {|
  ss_scope := ss_scope s;
  ss_containment_active := ss_containment_active s;
  ss_containment_reason := Some reason;
  ss_last_seen := ss_last_seen s;
  ss_pinned_inventory := ss_pinned_inventory s;
|}.

Definition activate_containment (reason : ContainmentReason) (s : SessionState) :
    SessionState :=
  match cas_active s with
  | (s', true) => store_reason reason s'
  | (s', false) => s'
  end.

Definition touch (now : Instant) (s : SessionState) : SessionState := {|
  ss_scope := ss_scope s;
  ss_containment_active := ss_containment_active s;
  ss_containment_reason := ss_containment_reason s;
  ss_last_seen := now;
  ss_pinned_inventory := ss_pinned_inventory s;
|}.

(** ** The registry

    [Arc<SessionState>] is a location of the store; the map's entries and the
    callers' handles share it. *)

Record SessionStateRegistry := {
  reg_store : gmap nat SessionState;
  reg_next : nat;
  reg_sessions : gmap SessionScopeKey nat;
}.

Definition registry_new : SessionStateRegistry :=
  {| reg_store := ∅; reg_next := 0; reg_sessions := ∅ |}.

Definition with_cell (l : nat) (f : SessionState → SessionState)
    (reg : SessionStateRegistry) : SessionStateRegistry :=
  {| reg_store := alter f l (reg_store reg);
     reg_next := reg_next reg; reg_sessions := reg_sessions reg |}.

(** The clock is read when a cell is made and again by [touch]; the second
    reading overwrites the first. *)
Definition get_or_create (now : Instant) (scope : SessionScopeKey)
    (reg : SessionStateRegistry) : nat * SessionStateRegistry :=
  let '(l, reg) :=
    match reg_sessions reg !! scope with
    | Some l => (l, reg)
    | None =>
        let l := reg_next reg in
        (l, {| reg_store := <[l := SessionState_new now scope]> (reg_store reg);
               reg_next := S l;
               reg_sessions := <[scope := l]> (reg_sessions reg) |})
    end in
  (l, with_cell l (touch now) reg).

Definition registry_get (scope : SessionScopeKey) (reg : SessionStateRegistry) : option nat :=
  reg_sessions reg !! scope.

(** The cell behind a scope. *)
Definition registry_cell (scope : SessionScopeKey) (reg : SessionStateRegistry) :
    option SessionState :=
  l ← registry_get scope reg; reg_store reg !! l.

Definition registry_is_containment_active (scope : SessionScopeKey)
    (reg : SessionStateRegistry) : bool :=
  match registry_cell scope reg with
  | Some s => ss_containment_active s
  | None => false
  end.

Definition registry_activate_containment (now : Instant) (scope : SessionScopeKey)
    (reason : ContainmentReason) (reg : SessionStateRegistry) : SessionStateRegistry :=
  let '(l, reg) := get_or_create now scope reg in
  with_cell l (activate_containment reason) reg.

Definition registry_evict (scope : SessionScopeKey) (reg : SessionStateRegistry) :
    bool * SessionStateRegistry :=
  (bool_decide (is_Some (reg_sessions reg !! scope)),
   {| reg_store := reg_store reg; reg_next := reg_next reg;
      reg_sessions := delete scope (reg_sessions reg) |}).

Definition registry_len (reg : SessionStateRegistry) : nat := size (reg_sessions reg).

Definition snapshot_stale `{HashIter} (cutoff : Instant) (reg : SessionStateRegistry) :
    list (SessionScopeKey * Instant) :=
  omap (λ '(scope, l),
    s ← reg_store reg !! l;
    if (ss_last_seen s <? cutoff)%Z then Some (scope, ss_last_seen s) else None)
    (hash_iter (reg_sessions reg)).

(** *** Operations as a step relation

    Everything a client can do: the registry's operations, and the operations
    through a handle it holds, which may refer to an evicted cell. *)

Inductive registry_op :=
  | OpGetOrCreate (now : Instant) (scope : SessionScopeKey)
  | OpActivate (now : Instant) (scope : SessionScopeKey) (reason : ContainmentReason)
  | OpEvict (scope : SessionScopeKey)
  | OpHandleActivate (l : nat) (reason : ContainmentReason)
  | OpHandleSetInventory (l : nat) (inventory : SessionPinnedInventory).

Definition registry_step (op : registry_op) (reg : SessionStateRegistry) :
    SessionStateRegistry :=
  match op with
  | OpGetOrCreate now scope => (get_or_create now scope reg).2
  | OpActivate now scope reason => registry_activate_containment now scope reason reg
  | OpEvict scope => (registry_evict scope reg).2
  | OpHandleActivate l reason => with_cell l (activate_containment reason) reg
  | OpHandleSetInventory l inventory => with_cell l (set_pinned_inventory inventory) reg
  end.

Definition registry_run (ops : list registry_op) (reg : SessionStateRegistry) :
    SessionStateRegistry :=
  fold_left (λ reg op, registry_step op reg) ops reg.

(** Every entry has its own cell, which records the entry's scope. *)
Record registry_wf (reg : SessionStateRegistry) : Prop := {
  wf_cell : ∀ scope l, reg_sessions reg !! scope = Some l →
    ∃ s, reg_store reg !! l = Some s ∧ ss_scope s = scope;
  wf_fresh : ∀ l, reg_next reg ≤ l → reg_store reg !! l = None;
}.

(** What an operation must not change in a cell. *)
Definition cell_le (s s' : SessionState) : Prop :=
  ss_scope s' = ss_scope s
  ∧ (ss_containment_active s = true →
     ss_containment_active s' = true ∧ ss_containment_reason s' = ss_containment_reason s)
  ∧ (∀ i, ss_pinned_inventory s = Some i → ss_pinned_inventory s' = Some i).

#[global] Instance cell_le_preorder : PreOrder cell_le.
Proof.
  split.
  - intros s. by repeat split.
  - intros a b c (H1 & H2 & H3) (H4 & H5 & H6). split; [congruence|]. split; [|by auto].
    intros Ha. destruct (H2 Ha) as [Hb Hr]. destruct (H5 Hb) as [Hc Hr']. split; congruence.
Qed.

Lemma set_pinned_inventory_le i s : cell_le s (set_pinned_inventory i s).
Proof. unfold set_pinned_inventory. destruct (ss_pinned_inventory s) eqn:E; repeat split; cbn; congruence. Qed.

Lemma activate_containment_le r s : cell_le s (activate_containment r s).
Proof.
  unfold activate_containment, cas_active.
  destruct (ss_containment_active s) eqn:E; repeat split; cbn; congruence.
Qed.

Lemma touch_le now s : cell_le s (touch now s).
Proof. by repeat split. Qed.

Lemma with_cell_wf l f reg :
  (∀ s, cell_le s (f s)) → registry_wf reg → registry_wf (with_cell l f reg).
Proof.
  intros Hf [Hc Hn]. split; cbn.
  - intros scope l' Hl'. destruct (Hc scope l' Hl') as (s & Hs & Hsc).
    destruct (decide (l = l')) as [->|Hne].
    + exists (f s). rewrite lookup_alter_eq, Hs. split; [done|]. by destruct (Hf s) as [-> _].
    + exists s. by rewrite lookup_alter_ne.
  - intros l' Hl'. destruct (decide (l = l')) as [->|].
    + by rewrite lookup_alter_eq, Hn.
    + rewrite lookup_alter_ne by done. by apply Hn.
Qed.

Lemma get_or_create_wf now scope reg :
  registry_wf reg → registry_wf (get_or_create now scope reg).2.
Proof.
  intros Hwf. unfold get_or_create. destruct (reg_sessions reg !! scope) eqn:E; cbn;
    apply with_cell_wf; auto using touch_le.
  destruct Hwf as [Hc Hn]. split; cbn.
  - intros scope' l'. destruct (decide (scope = scope')) as [->|Hne].
    + rewrite lookup_insert_eq. intros [= <-]. rewrite lookup_insert_eq. eauto.
    + rewrite lookup_insert_ne by done. intros Hl'. destruct (Hc _ _ Hl') as (s & Hs & ?).
      exists s. rewrite lookup_insert_ne; [done|]. intros <-. rewrite Hn in Hs; [done|lia].
  - intros l' Hl'. rewrite lookup_insert_ne by lia. apply Hn. lia.
Qed.

Lemma registry_step_wf op reg : registry_wf reg → registry_wf (registry_step op reg).
Proof.
  intros Hwf. destruct op as [now scope|now scope r|scope|l r|l i]; cbn.
  - by apply get_or_create_wf.
  - unfold registry_activate_containment.
    pose proof (get_or_create_wf now scope reg Hwf) as H.
    destruct (get_or_create now scope reg). apply with_cell_wf; auto using activate_containment_le.
  - destruct Hwf as [Hc Hn]. split; cbn; [|done].
    intros scope' l'. rewrite lookup_delete_Some. naive_solver.
  - apply with_cell_wf; auto using activate_containment_le.
  - apply with_cell_wf; auto using set_pinned_inventory_le.
Qed.

Lemma registry_run_wf ops reg : registry_wf reg → registry_wf (registry_run ops reg).
Proof. revert reg. induction ops; intros reg Hwf; cbn; auto using registry_step_wf. Qed.

Lemma registry_new_wf : registry_wf registry_new.
Proof. split; cbn; intros *; [by rewrite lookup_empty|done]. Qed.

Lemma with_cell_le l f reg scope s :
  (∀ s, cell_le s (f s)) → registry_cell scope reg = Some s →
  ∃ s', registry_cell scope (with_cell l f reg) = Some s' ∧ cell_le s s'.
Proof.
  intros Hf. unfold registry_cell, registry_get, with_cell; cbn.
  destruct (reg_sessions reg !! scope) as [l'|]; [cbn|done]. intros Hs.
  destruct (decide (l = l')) as [->|].
  - rewrite lookup_alter_eq, Hs. eexists; split; [reflexivity|apply Hf].
  - rewrite lookup_alter_ne by done. exists s. split; [done|reflexivity].
Qed.

Lemma get_or_create_le now scope' reg scope s :
  registry_wf reg → registry_cell scope reg = Some s →
  ∃ s', registry_cell scope (get_or_create now scope' reg).2 = Some s' ∧ cell_le s s'.
Proof.
  intros [Hc Hn] Hs. unfold get_or_create.
  destruct (reg_sessions reg !! scope') eqn:E; cbn; apply with_cell_le; auto using touch_le.
  revert Hs. unfold registry_cell, registry_get; cbn.
  destruct (decide (scope' = scope)) as [->|]; [by rewrite E|].
  rewrite lookup_insert_ne by done. destruct (reg_sessions reg !! scope) as [l|]; [cbn|done].
  intros Hs. rewrite lookup_insert_ne; [done|]. intros <-. rewrite Hn in Hs; [done|lia].
Qed.

(** Only evicting the scope itself loses its cell. *)
Lemma registry_step_le op reg scope s :
  registry_wf reg → op ≠ OpEvict scope → registry_cell scope reg = Some s →
  ∃ s', registry_cell scope (registry_step op reg) = Some s' ∧ cell_le s s'.
Proof.
  intros Hwf Hop Hs. destruct op as [now sc|now sc r|sc|l r|l i]; cbn.
  - by apply get_or_create_le.
  - unfold registry_activate_containment.
    destruct (get_or_create_le now sc reg scope s Hwf Hs) as (s1 & H1 & Hle1).
    destruct (get_or_create now sc reg) as [l reg1]. cbn in *.
    destruct (with_cell_le l (activate_containment r) reg1 scope s1) as (s2 & H2 & Hle2);
      [auto using activate_containment_le|done|].
    exists s2. split; [done|]. by transitivity s1.
  - exists s. split; [|reflexivity]. revert Hs. unfold registry_cell, registry_get; cbn.
    rewrite lookup_delete_ne; [done|]. congruence.
  - apply with_cell_le; auto using activate_containment_le.
  - apply with_cell_le; auto using set_pinned_inventory_le.
Qed.

Lemma registry_run_le ops reg scope s :
  registry_wf reg → OpEvict scope ∉ ops → registry_cell scope reg = Some s →
  ∃ s', registry_cell scope (registry_run ops reg) = Some s' ∧ cell_le s s'.
Proof.
  revert reg s. induction ops as [|op ops IH]; intros reg s Hwf Hops Hs; cbn.
  - exists s. split; [done|reflexivity].
  - rewrite not_elem_of_cons in Hops. destruct Hops as [Hop Hops].
    destruct (registry_step_le op reg scope s Hwf (not_eq_sym Hop) Hs) as (s1 & H1 & Hle1).
    destruct (IH (registry_step op reg) s1) as (s2 & H2 & Hle2); auto using registry_step_wf.
    exists s2. split; [done|]. by transitivity s1.
Qed.

End SessionState.

(** ** Racing activations

    [activate_containment] is a compare-and-swap and then, for the winner, a
    store under the reason's lock.  Any number of threads run it on one cell. *)

Module ActivationRace.
Section Race.
Context `{D : Deps}.

Inductive pc :=
  | AtCas (reason : ContainmentReason)
  | AtStore (reason : ContainmentReason)
  | Done (reason : ContainmentReason) (won : bool).

Inductive step : SessionState * list pc → SessionState * list pc → Prop :=
  | step_cas s ths i r s' won :
      ths !! i = Some (AtCas r) → cas_active s = (s', won) →
      step (s, ths) (s', <[i := if won then AtStore r else Done r false]> ths)
  | step_store s ths i r :
      ths !! i = Some (AtStore r) →
      step (s, ths) (store_reason r s, <[i := Done r true]> ths).

Definition is_winner (p : pc) : bool :=
  match p with AtStore _ | Done _ true => true | _ => false end.

(** Until the flag is set nobody has passed the swap; afterwards exactly one thread has,
    and the recorded reason is its own once it has stored it. *)
Definition inv (c : SessionState * list pc) : Prop :=
  let '(s, ths) := c in
  if ss_containment_active s then
    ∃ i r, (ths !! i = Some (AtStore r) ∧ ss_containment_reason s = None ∨
            ths !! i = Some (Done r true) ∧ ss_containment_reason s = Some r)
           ∧ ∀ j p, ths !! j = Some p → is_winner p = true → j = i
  else ss_containment_reason s = None ∧ ∀ j p, ths !! j = Some p → ∃ r, p = AtCas r.

Lemma cas_active_inactive s :
  ss_containment_active s = false →
  ∃ s', cas_active s = (s', true) ∧ ss_containment_active s' = true
        ∧ ss_containment_reason s' = ss_containment_reason s.
Proof. unfold cas_active. intros ->. eexists. by repeat split. Qed.

Lemma cas_active_active s : ss_containment_active s = true → cas_active s = (s, false).
Proof. unfold cas_active. by intros ->. Qed.

Lemma step_inv c c' : step c c' → inv c → inv c'.
Proof.
  intros Hst. destruct Hst as [s ths i r s' won Hi Hcas|s ths i r Hi]; unfold inv.
  - destruct (ss_containment_active s) eqn:E.
    + rewrite (cas_active_active s E) in Hcas. injection Hcas as <- <-. rewrite E.
      intros (k & r0 & Hk & Hu). assert (k ≠ i) by (intros ->; naive_solver).
      exists k, r0. rewrite list_lookup_insert_ne by done. split; [done|].
      intros j p. rewrite list_lookup_insert_Some. intros [(<- & <- & _)|[? Hj]]; [done|].
      by eapply Hu.
    + destruct (cas_active_inactive s E) as (s1 & Hs1 & Ha & Hr).
      rewrite Hs1 in Hcas. injection Hcas as <- <-. rewrite Ha.
      intros [Hnone Hu]. exists i, r. split.
      * left. rewrite list_lookup_insert_eq by eauto using lookup_lt_Some. by rewrite Hr.
      * intros j p. rewrite list_lookup_insert_Some. intros [(<- & _ & _)|[? Hj]]; [done|].
        by destruct (Hu j p Hj) as [? ->].
  - destruct (ss_containment_active s) eqn:E; cbn; rewrite E.
    + intros (k & r0 & Hk & Hu). assert (i = k) as -> by by eapply Hu.
      exists k, r. rewrite list_lookup_insert_eq by eauto using lookup_lt_Some.
      split; [by right|]. intros j p. rewrite list_lookup_insert_Some.
      intros [(<- & _ & _)|[? Hj]]; [done|]. by eapply Hu.
    + intros [_ Hu]. by destruct (Hu i _ Hi).
Qed.

Lemma steps_inv c c' : rtc step c c' → inv c → inv c'.
Proof. induction 1; eauto using step_inv. Qed.

(** Every thread starts with its own reason on a cell that is not contained. *)
Definition initial (s : SessionState) (reasons : list ContainmentReason) :
    SessionState * list pc :=
  (s, map AtCas reasons).

Lemma initial_inv s reasons :
  ss_containment_active s = false → ss_containment_reason s = None →
  inv (initial s reasons).
Proof.
  intros Ha Hr. unfold inv, initial. rewrite Ha. split; [done|].
  intros j p. rewrite list_lookup_fmap. destruct (reasons !! j); naive_solver.
Qed.

(** A recorded reason is never replaced. *)
Lemma reason_stable c c' r :
  rtc step c c' → inv c → ss_containment_active c.1 = true →
  ss_containment_reason c.1 = Some r → ss_containment_reason c'.1 = Some r.
Proof.
  induction 1 as [|c1 c2 c3 Hst _ IH]; [done|]. intros Hinv Ha Hr.
  pose proof (step_inv _ _ Hst Hinv) as Hinv2.
  enough (ss_containment_active c2.1 = true ∧ ss_containment_reason c2.1 = Some r) as []
    by by apply IH.
  clear IH Hinv2. destruct Hst as [s ths i r0 s' won Hi Hcas|s ths i r0 Hi]; cbn in *.
  - rewrite (cas_active_active s Ha) in Hcas. by injection Hcas as <- <-.
  - rewrite Ha in Hinv. destruct Hinv as (k & r1 & Hk & Hu).
    assert (i = k) as -> by by eapply Hu. naive_solver.
Qed.

(** Each thread keeps the reason it started with. *)
Definition pc_reason (p : pc) : ContainmentReason :=
  match p with AtCas r | AtStore r | Done r _ => r end.

Lemma step_reasons c c' : step c c' → map pc_reason c'.2 = map pc_reason c.2.
Proof.
  intros [s ths i r s' won Hi Hcas|s ths i r Hi]; cbn;
    change (map pc_reason) with (fmap (M := list) pc_reason);
    rewrite list_fmap_insert; apply list_insert_id; rewrite list_lookup_fmap, Hi; cbn;
    by try destruct won.
Qed.

Lemma steps_reasons c c' : rtc step c c' → map pc_reason c'.2 = map pc_reason c.2.
Proof. induction 1 as [|? ? ? Hst _ IH]; [done|]. rewrite IH. by apply step_reasons. Qed.

End Race.
End ActivationRace.

(** ** Properties *)

Section Properties.
Context `{D : Deps}.

Definition registry_reason (scope : SessionScopeKey) (reg : SessionStateRegistry) :
    option ContainmentReason :=
  s ← registry_cell scope reg; ss_containment_reason s.

Definition registry_inventory (scope : SessionScopeKey) (reg : SessionStateRegistry) :
    option SessionPinnedInventory :=
  s ← registry_cell scope reg; ss_pinned_inventory s.

(** An operation that may create an entry for the scope. *)
Definition creates (scope : SessionScopeKey) (op : registry_op) : bool :=
  match op with
  | OpGetOrCreate _ scope' | OpActivate _ scope' _ => bool_decide (scope' = scope)
  | _ => false
  end.

Lemma registry_step_absent op reg scope :
  creates scope op = false → reg_sessions reg !! scope = None →
  reg_sessions (registry_step op reg) !! scope = None.
Proof.
  intros Hc Hn. destruct op as [now sc|now sc r|sc|l r|l i]; cbn in *;
    unfold registry_activate_containment, get_or_create; try apply bool_decide_eq_false in Hc.
  - destruct (reg_sessions reg !! sc); cbn; [done|by rewrite lookup_insert_ne].
  - destruct (reg_sessions reg !! sc); cbn; [done|by rewrite lookup_insert_ne].
  - by apply lookup_delete_None; right.
  - done.
  - done.
Qed.

Lemma registry_run_absent ops reg scope :
  Forall (λ op, creates scope op = false) ops → reg_sessions reg !! scope = None →
  reg_sessions (registry_run ops reg) !! scope = None.
Proof.
  intros Hops. revert reg. induction Hops as [|op ops Hop _ IH]; intros reg Hn; cbn; [done|].
  apply IH. by apply registry_step_absent.
Qed.

(** Containment cannot be lifted or re-explained.  In a registry reached
    by any operations, a contained session stays contained, with the reason of
    its first activation, under every further operation on the registry or on
    a handle, other than the eviction of that very session; and an inventory,
    once pinned, never changes. *)
Theorem registry_containment_sticky ops0 ops scope
    (Hops : OpEvict scope ∉ ops)
    (Hactive : registry_is_containment_active scope (registry_run ops0 registry_new) = true) :
  let reg := registry_run ops0 registry_new in
  registry_is_containment_active scope (registry_run ops reg) = true
  ∧ registry_reason scope (registry_run ops reg) = registry_reason scope reg
  ∧ (∀ i, registry_inventory scope reg = Some i →
          registry_inventory scope (registry_run ops reg) = Some i).
Proof.
  cbv zeta. set (reg := registry_run ops0 registry_new) in *.
  assert (Hwf : registry_wf reg) by apply registry_run_wf, registry_new_wf.
  unfold registry_is_containment_active, registry_reason, registry_inventory in *.
  destruct (registry_cell scope reg) as [s|] eqn:Hs; [|done].
  destruct (registry_run_le ops reg scope s Hwf Hops Hs) as (s' & -> & _ & Hc & Hi).
  destruct (Hc Hactive) as [Ha Hr]. by repeat split.
Qed.

(** Evicting a session forgets it: whatever is then done with other
    sessions or through handles kept from before the eviction, the scope is
    unknown and not contained until it is created or activated again. *)
Theorem registry_evict_forgets ops reg scope
    (Hops : Forall (λ op, creates scope op = false) ops) :
  let reg' := registry_run ops (registry_evict scope reg).2 in
  registry_get scope reg' = None ∧ registry_is_containment_active scope reg' = false.
Proof.
  intros reg'.
  assert (Hn : reg_sessions reg' !! scope = None)
    by (apply registry_run_absent; [done|cbn; apply lookup_delete_eq]).
  split; [done|]. unfold registry_is_containment_active, registry_cell, registry_get.
  by rewrite Hn.
Qed.

(** The stale-session sweep returns exactly the tracked scopes last seen
    before the cutoff, each with its time, whatever the map's iteration order. *)
Theorem snapshot_stale_spec `{!HashIter} `{!HashIterLaws} cutoff reg scope t :
  (scope, t) ∈ snapshot_stale cutoff reg ↔
  ∃ s, registry_cell scope reg = Some s ∧ ss_last_seen s = t ∧ (t < cutoff)%Z.
Proof.
  unfold snapshot_stale, registry_cell, registry_get. rewrite list_elem_of_omap. split.
  - intros ((sc & l) & Hin & Hl). apply hash_iter_elem_of in Hin.
    destruct (reg_store reg !! l) as [s|] eqn:E; cbn in Hl; [|done].
    destruct (Z.ltb_spec (ss_last_seen s) cutoff); [|done]. injection Hl as -> <-.
    exists s. by rewrite Hin.
  - intros (s & Hs & <- & Hlt). destruct (reg_sessions reg !! scope) as [l|] eqn:El; [|done].
    exists (scope, l). rewrite hash_iter_elem_of. split; [done|]. cbn in Hs |- *. rewrite Hs.
    cbn. by destruct (Z.ltb_spec (ss_last_seen s) cutoff); [|lia].
Qed.

(** Whatever the interleaving of any number of activations of one session,
    no state shows the flag set with a reason that is not one of the callers',
    a recorded reason is never replaced, and once all have returned the session
    is contained with the reason of exactly one of them. *)
Theorem activation_race_safe s reasons c c'
    (Hinactive : ss_containment_active s = false) (Hreason : ss_containment_reason s = None)
    (Hc : rtc ActivationRace.step (ActivationRace.initial s reasons) c)
    (Hc' : rtc ActivationRace.step c c') :
  (∀ r, ss_containment_reason c.1 = Some r →
        r ∈ reasons ∧ ss_containment_active c.1 = true ∧ ss_containment_reason c'.1 = Some r)
  ∧ (Forall (λ p, ∃ r won, p = ActivationRace.Done r won) c.2 → reasons ≠ [] →
     ss_containment_active c.1 = true ∧ is_Some (ss_containment_reason c.1)).
Proof.
  assert (Hinv : ActivationRace.inv c)
    by (eapply ActivationRace.steps_inv; [done|by apply ActivationRace.initial_inv]).
  apply ActivationRace.steps_reasons in Hc. cbn in Hc.
  assert (Hreasons : map ActivationRace.pc_reason c.2 = reasons)
    by (rewrite Hc, map_map; apply map_id).
  clear Hc. split.
  - intros r Hr. destruct c as [s1 ths]. cbn in *.
    destruct (ss_containment_active s1) eqn:E; [|destruct Hinv; congruence].
    destruct Hinv as (i & r0 & [[? ?]|[Hi Hr0]] & Hu); [congruence|].
    assert (r0 = r) as -> by congruence.
    split; [|split; [done|]].
    + rewrite <- Hreasons. apply list_elem_of_fmap. exists (ActivationRace.Done r true).
      split; [done|]. by eapply list_elem_of_lookup_2.
    + eapply ActivationRace.reason_stable; [exact Hc'| |done..].
      unfold ActivationRace.inv. rewrite E. exists i, r. auto.
  - intros Hdone Hne. rewrite Forall_lookup in Hdone. destruct c as [s1 ths]. cbn in *.
    destruct (ss_containment_active s1) eqn:E.
    + split; [done|]. destruct Hinv as (i & r & [[Hi _]|[_ Hr]] & _); [|by exists r].
      by destruct (Hdone i _ Hi) as (? & ? & ?).
    + destruct Hinv as [_ Hu]. destruct ths as [|p ths]; [by destruct reasons|].
      destruct (Hu 0 p eq_refl) as [? ->]. by destruct (Hdone 0 _ eq_refl) as (? & ? & ?).
Qed.

End Properties.

(** A contained session with a pinned inventory, a second activation and a
    second inventory through a handle. *)
Lemma registry_containment_sticky_witness :
  let D := concrete_deps in
  let sc := from_session_id uuid_a in
  let ops0 := [OpActivate 5 sc (Manual "alice")] in
  let ops := [OpActivate 9 sc (Manual "mallory"); OpEvict (from_session_id uuid_b);
              OpHandleSetInventory 0 (from_entries [])] in
  registry_reason sc (registry_run ops (registry_run ops0 registry_new)) = Some (Manual "alice").
Proof.
  intros D sc ops0 ops.
  destruct (registry_containment_sticky (D := concrete_deps) ops0 ops sc) as (_ & H & _).
  - apply not_elem_of_cons; split; [discriminate|].
    apply not_elem_of_cons; split; [|by intros Hin%list_elem_of_singleton].
    by intros [= H].
  - vm_compute. reflexivity.
  - rewrite H. vm_compute. reflexivity.
Defined.

(** A handle to the evicted cell is activated; the scope stays unknown. *)
Lemma registry_evict_forgets_witness :
  let D := concrete_deps in
  let sc := from_session_id uuid_a in
  let reg := (get_or_create 5 sc registry_new).2 in
  let ops := [OpHandleActivate 0 (Manual "alice"); OpGetOrCreate 6 (from_session_id uuid_b)] in
  registry_get sc (registry_run ops (registry_evict sc reg).2) = None.
Proof.
  intros D sc reg ops.
  apply (registry_evict_forgets (D := concrete_deps) ops reg sc).
  repeat constructor.
Defined.

Lemma snapshot_stale_spec_witness :
  let D := concrete_deps in let I := concrete_iter in
  let sc := from_session_id uuid_a in
  let reg := (get_or_create 5 sc registry_new).2 in
  (sc, 5%Z) ∈ snapshot_stale 6 reg.
Proof.
  intros D I sc reg.
  apply (proj2 (@snapshot_stale_spec concrete_deps concrete_iter concrete_iter_laws 6 reg sc 5)).
  exists (touch 5 (SessionState_new 5 sc)). split; [reflexivity|]. split; [reflexivity|lia].
Defined.

(** Two racing activations: the second thread wins the swap. *)
Lemma activation_race_safe_witness :
  let D := concrete_deps in
  let s0 := SessionState_new (D := concrete_deps) 0 (from_session_id (D := concrete_deps) uuid_a) in
  let rs := [Manual "a"; Manual "b"] in
  ∃ c, rtc ActivationRace.step (ActivationRace.initial s0 rs) c
       ∧ ss_containment_reason c.1 = Some (Manual "b") ∧ Manual "b" ∈ rs.
Proof.
  intros D s0 rs.
  pose (s1 := (cas_active (D := concrete_deps) s0).1).
  pose (c := (store_reason (D := concrete_deps) (Manual "b") s1,
              [ActivationRace.Done (Manual "a") false; ActivationRace.Done (Manual "b") true])).
  assert (Hc : rtc ActivationRace.step (ActivationRace.initial s0 rs) c).
  { eapply rtc_l; [exact (ActivationRace.step_cas s0 [ActivationRace.AtCas (Manual "a");
      ActivationRace.AtCas (Manual "b")] 1 _ s1 true eq_refl eq_refl)|].
    eapply rtc_l; [exact (ActivationRace.step_cas s1 [ActivationRace.AtCas (Manual "a");
      ActivationRace.AtStore (Manual "b")] 0 _ s1 false eq_refl eq_refl)|].
    eapply rtc_l; [exact (ActivationRace.step_store s1 [ActivationRace.Done (Manual "a") false;
      ActivationRace.AtStore (Manual "b")] 1 _ eq_refl)|]. apply rtc_refl. }
  exists c. split; [exact Hc|split; [reflexivity|]].
  apply (proj1 (activation_race_safe (D := concrete_deps) s0 rs c c eq_refl eq_refl Hc
    (rtc_refl _ c)) (Manual "b") eq_refl).
Defined.
