(* ===== verification/SshConnect.v ===== *)
(** * The ssh-connect review clamp

    [crates/grith-proxy/src/ssh_connect.rs]: a connection of the system's [ssh]
    that only the key-read filter stack would deny is lowered into the review
    band.  The resolution of [/proc/<pid>/exe] and the lossy rendering of a path
    are parameters: the theorems hold for any process table. *)

From Stdlib Require Import SpecFloat.
From S2P Require Import Prelude Concrete F64 Types Scoring SessionState.

Definition SSH_CANONICAL_PATHS : list string :=
  ["/usr/bin/ssh"; "/usr/local/bin/ssh"; "/bin/ssh"].

Definition BENIGN_CONTRIBUTORS : list string :=
  ["operation-risk"; "taint"; "session-containment"; "egress-policy"; "reputation";
   "egress-rate"].

Section SshConnect.
Context `{D : Deps}.

(** [std::fs::canonicalize("/proc/<pid>/exe").ok()] *)
Variable canonical_exe_for_pid : N → option string.
(** [Path::to_string_lossy] *)
Variable to_string_lossy : string → string.

Definition is_system_ssh_path (canonical : string) : bool :=
  bool_decide (path_file_name canonical = Some "ssh")
  && str_mem (to_string_lossy canonical) SSH_CANONICAL_PATHS.

Definition is_trusted_ssh_exe (pid : N) : bool :=
  match canonical_exe_for_pid pid with
  | Some c => is_system_ssh_path c
  | None => false
  end.

Definition is_trusted_ssh (sessions : SessionStateRegistry) (canonical : string)
    (ctx : ToolCallContext) : bool :=
  if is_system_ssh_path canonical then true
  else
    match (scope ← ctx_session_scope ctx; state ← registry_cell scope sessions;
           ss_pinned_inventory state) with
    | Some inv => bool_decide (is_Some (expected_hash inv (to_string_lossy canonical)))
    | None => false
    end.

Definition only_benign_contributors (results : list FilterResult) : bool :=
  forallb (λ r, str_mem (fr_filter_name r) BENIGN_CONTRIBUTORS)
    (List.filter (λ r, fr_matched r && f64_gt (fr_score r) f64_zero) results).

Definition clamp_target (allow_threshold deny_threshold : f64) : f64 :=
  f64_max (f64_sub deny_threshold (f64_dec 15 1)) (f64_add allow_threshold (f64_dec 5 1)).

Definition clamp_for_trusted_ssh (score allow_threshold deny_threshold : f64)
    (results : list FilterResult) : option f64 :=
  if negb (only_benign_contributors results) then None
  else
    let target := clamp_target allow_threshold deny_threshold in
    if f64_ge target score then None else Some target.

Definition is_net_connect (t : ToolCallType) : bool :=
  match t with NetConnect _ _ => true | _ => false end.

Definition maybe_clamp_ssh_connect (sessions : SessionStateRegistry)
    (score allow_threshold deny_threshold : f64) (results : list FilterResult)
    (ctx : ToolCallContext) : option f64 :=
  if f64_le score deny_threshold then None
  else if negb (is_net_connect (ctx_call_type ctx)) then None
  else if negb (starts_with "supervisor:" (ctx_plugin_id ctx)) then None
  else
    pid ← (v ← json_get (ctx_arguments ctx) "pid"; json_as_u64 v);
    canonical ← canonical_exe_for_pid pid;
    if negb (bool_decide (path_file_name canonical = Some "ssh")) then None
    else if negb (is_trusted_ssh sessions canonical ctx) then None
    else clamp_for_trusted_ssh score allow_threshold deny_threshold results.

(** ** Lemmas *)

(** Everything a clamp has checked. *)
Lemma maybe_clamp_Some sessions score allow deny results ctx s :
  maybe_clamp_ssh_connect sessions score allow deny results ctx = Some s →
  f64_le score deny = false ∧ is_net_connect (ctx_call_type ctx) = true
  ∧ starts_with "supervisor:" (ctx_plugin_id ctx) = true
  ∧ (∃ pid v exe, json_get (ctx_arguments ctx) "pid" = Some v ∧ json_as_u64 v = Some pid
      ∧ canonical_exe_for_pid pid = Some exe ∧ path_file_name exe = Some "ssh"
      ∧ is_trusted_ssh sessions exe ctx = true)
  ∧ only_benign_contributors results = true
  ∧ s = clamp_target allow deny ∧ f64_ge s score = false.
Proof.
  unfold maybe_clamp_ssh_connect. destruct (f64_le score deny); [done|].
  destruct (is_net_connect _); [cbn|done]. destruct (starts_with _ _); [cbn|done].
  destruct (json_get (ctx_arguments ctx) "pid") as [v|] eqn:Ev; [cbn|done].
  destruct (json_as_u64 v) as [pid|] eqn:Ep; [cbn|done].
  destruct (canonical_exe_for_pid pid) as [exe|] eqn:Ex; [cbn|done].
  case_bool_decide as Hf; [cbn|done].
  destruct (is_trusted_ssh sessions exe ctx) eqn:Et; [cbn|done].
  unfold clamp_for_trusted_ssh. destruct (only_benign_contributors results); [cbn|done].
  destruct (f64_ge _ score) eqn:Eg; [done|]. intros [= <-]. naive_solver.
Qed.

Lemma f64_max_valid x y :
  f64_valid x = true → f64_valid y = true → f64_valid (f64_max x y) = true.
Proof. unfold f64_max. intros. repeat case_match; done. Qed.

Lemma f64_max_ge_r x y :
  f64_valid x = true → f64_valid y = true → f64_is_nan y = false →
  f64_le y (f64_max x y) = true.
Proof.
  intros Hx Hy Hn.
  assert (Hyy : f64_le y y = true).
  { apply f64_le_key; [done..|]. destruct (f64_key y) eqn:E; [naive_solver lia|].
    apply f64_key_None in E. congruence. }
  unfold f64_max. destruct x as [sx|sx| |sx mx ex]; [..|]; try done;
    destruct y as [sy|sy| |sy my ey]; try done;
    (match goal with |- f64_le ?y (if SFltb ?x ?y then _ else _) = true =>
       pose proof (f64_le_or_gt y x Hy Hx eq_refl eq_refl) as Hc; unfold f64_lt in Hc;
       destruct (SFltb x y); [done|by rewrite Hc] end).
Qed.
End SshConnect.

(** ** Properties *)

Section Properties.
Context `{D : Deps}.

(** The clamp turns a deny into a prompt and never into an allow.  Where it
    applies, the call was a connection made by a supervised [ssh] whose binary
    is a trusted one, nothing outside the key-read filters had scored, the
    unclamped decision was a deny, and the clamped score is strictly lower and
    is still above the allow threshold.  The hypothesis on the threshold says
    that half a point can be added to it, which fails only beyond [2^52]. *)
Theorem maybe_clamp_never_allows exe lossy sessions score allow deny results ctx s t t'
    (Hscore : f64_valid score = true) (Hallow : f64_valid allow = true)
    (Hdeny : f64_valid deny = true)
    (Hnan : f64_is_nan score = false) (Hnan' : f64_is_nan deny = false)
    (Hband : f64_gt (f64_add allow (f64_dec 5 1)) allow = true)
    (Hclamp : maybe_clamp_ssh_connect exe lossy sessions score allow deny results ctx = Some s) :
  f64_lt s score = true
  ∧ is_denied (route_decision score results allow deny t) = true
  ∧ is_allowed (route_decision s results allow deny t') = false
  ∧ is_net_connect (ctx_call_type ctx) = true
  ∧ starts_with "supervisor:" (ctx_plugin_id ctx) = true
  ∧ Forall (λ r, fr_matched r = true → f64_gt (fr_score r) f64_zero = true →
                 fr_filter_name r ∈ BENIGN_CONTRIBUTORS) results.
Proof.
  apply maybe_clamp_Some in Hclamp as (Hle & Hnet & Hsup & _ & Hben & -> & Hge).
  assert (Hy : f64_valid (f64_add allow (f64_dec 5 1)) = true) by by apply f64_add_valid.
  assert (Hny : f64_is_nan (f64_add allow (f64_dec 5 1)) = false).
  { destruct (f64_add allow (f64_dec 5 1)); [done..| |done].
    unfold f64_gt in Hband. fold (f64_lt allow S754_nan) in Hband.
    by rewrite f64_lt_nan_r in Hband. }
  assert (Hx : f64_valid (f64_sub deny (f64_dec 15 1)) = true) by by apply f64_sub_valid.
  pose proof (f64_max_valid _ _ Hx Hy) as Hv.
  pose proof (f64_max_ge_r _ _ Hx Hy Hny) as Hmax.
  fold (clamp_target allow deny) in Hv, Hmax.
  assert (Hgt : f64_gt (clamp_target allow deny) allow = true)
    by exact (f64_lt_le_trans allow _ _ Hallow Hy Hv Hband Hmax).
  assert (Hnt : f64_is_nan (clamp_target allow deny) = false).
  { destruct (clamp_target allow deny); [done..| |done].
    change (f64_lt allow S754_nan = true) in Hgt. by rewrite f64_lt_nan_r in Hgt. }
  assert (Hden : f64_gt score deny = true).
  { rewrite (f64_le_or_gt score deny) in Hle by done. by apply negb_false_iff in Hle. }
  change (f64_le score (clamp_target allow deny) = false) in Hge.
  rewrite f64_le_or_gt in Hge by done. apply negb_false_iff in Hge.
  split; [done|]. unfold route_decision. rewrite Hden, Hgt.
  split; [done|]. split; [by destruct (f64_gt (clamp_target allow deny) deny)|].
  split; [done|split; [done|]].
  unfold only_benign_contributors in Hben. rewrite forallb_forall in Hben.
  apply Forall_forall. intros r Hr Hm Hs. apply str_mem_spec, Hben.
  apply filter_In. split; [by apply list_elem_of_In|]. by rewrite Hm, Hs.
Qed.

End Properties.

(** A supervised [/usr/bin/ssh] scored 12 by the key-read filters is clamped to
    6.5 at the default thresholds. *)
Lemma maybe_clamp_never_allows_witness :
  let D := concrete_deps in
  let ctx : ToolCallContext :=
    {| ctx_id := uuid_a; ctx_timestamp := 0%Z; ctx_plugin_id := "supervisor:codex";
       ctx_call_type := NetConnect "10.0.0.7" 22;
       ctx_arguments := JObject [("pid", JNumber 42)];
       ctx_session_id := uuid_b; ctx_task_context := None; ctx_call_sequence_number := 0;
       ctx_source_taint := TaintNone; ctx_profile_name := None; ctx_conversation_id := None;
       ctx_session_scope := None; ctx_spawn_provenance := None;
       ctx_listener_policy_match := None; ctx_bind_protocol := None |} in
  let rs := [matched "taint" "r" (f64_of_Z 5) SevError "m";
             matched "egress-policy" "r" (f64_of_Z 7) SevError "m"] in
  let exe (n : N) := Some "/usr/bin/ssh" in
  maybe_clamp_ssh_connect exe id registry_new (f64_of_Z 12) SCORE_QUEUE_THRESHOLD
    SCORE_DENY_THRESHOLD rs ctx = Some (f64_dec 65 1)
  ∧ is_allowed (route_decision (f64_dec 65 1) rs SCORE_QUEUE_THRESHOLD
      SCORE_DENY_THRESHOLD 0) = false.
Proof.
  intros D ctx rs exe.
  assert (H : maybe_clamp_ssh_connect exe id registry_new (f64_of_Z 12) SCORE_QUEUE_THRESHOLD
    SCORE_DENY_THRESHOLD rs ctx = Some (f64_dec 65 1)) by reflexivity.
  split; [exact H|].
  apply (maybe_clamp_never_allows (D := concrete_deps) exe id registry_new (f64_of_Z 12)
    SCORE_QUEUE_THRESHOLD SCORE_DENY_THRESHOLD rs ctx (f64_dec 65 1) 0 0
    eq_refl eq_refl eq_refl eq_refl eq_refl eq_refl H).
Defined.
