(* ===== verification/Filters.v ===== *)
(** * The security-filter interface and its registry

    [crates/grith-proxy/src/filters/mod.rs]: the [SecurityFilter] trait, its
    per-filter metrics and the registry the engine iterates.  A trait object is a
    record of operations on an explicit [World]: the filters' own state ([FS], a
    parameter here, instantiated by the filters' files), the process-wide session
    registry and the clock. *)

From S2P Require Import Prelude F64 Types SessionState.

Inductive FilterPhase := Static | Pattern | Context_.

#[export] Instance FilterPhase_eq_dec : EqDecision FilterPhase.
Proof. solve_decision. Defined.

(** ** Metrics *)

Record FilterMetrics := {
  fm_evaluation_count : Z;
  fm_total_latency_nanos : Z;
}.

Definition FilterMetrics_new : FilterMetrics :=
  {| fm_evaluation_count := 0; fm_total_latency_nanos := 0 |}.

(** Relaxed [fetch_add]s on [u64]: both wrap. *)
Definition metrics_record (latency : Duration) (m : FilterMetrics) : FilterMetrics := {|
  fm_evaluation_count := as_u64 (fm_evaluation_count m + 1);
  fm_total_latency_nanos := as_u64 (fm_total_latency_nanos m + as_u64 latency);
|}.

Definition avg_latency_ms (m : FilterMetrics) : f64 :=
  if (fm_evaluation_count m =? 0)%Z then f64_zero
  else f64_div (f64_div (f64_of_Z (fm_total_latency_nanos m))
                        (f64_of_Z (fm_evaluation_count m))) (f64_of_Z 1000000).

Section Filters.
Context `{D : Deps} {FS : Type}.

(** ** The world a filter runs in *)

Record World := {
  w_filters : FS;
  w_sessions : SessionStateRegistry;
  w_tick : nat;
}.

(** [Instant::now()]: the next reading of the clock. *)
Definition now (clock : nat → Instant) (w : World) : Instant * World :=
  (clock (w_tick w),
   {| w_filters := w_filters w; w_sessions := w_sessions w; w_tick := S (w_tick w) |}).

(** [start.elapsed()] *)
Definition elapsed (clock : nat → Instant) (start : Instant) (w : World) : Duration * World :=
  let '(t, w) := now clock w in (saturating_duration_since t start, w).

(** The trait.  [evaluate] returns [None] on [Err]. *)
Record SecurityFilter := {
  sf_name : string;
  sf_phase : FilterPhase;
  sf_is_ready : World → bool;
  sf_evaluate : ToolCallContext → World → option FilterResult * World;
  sf_evict_session_state : SessionScopeKey → World → nat * World;
  sf_observe_outcome : ToolCallContext → CallOutcome → Duration → World → World;
}.

(** ** Registry *)

Record FilterRegistry := {
  rg_filters : list SecurityFilter;
  rg_metrics : gmap string FilterMetrics;
}.

Definition FilterRegistry_new : FilterRegistry := {| rg_filters := []; rg_metrics := ∅ |}.

Definition register (filter : SecurityFilter) (reg : FilterRegistry) : FilterRegistry := {|
  rg_filters := rg_filters reg ++ [filter];
  rg_metrics := match rg_metrics reg !! sf_name filter with
                | Some _ => rg_metrics reg
                | None => <[sf_name filter := FilterMetrics_new]> (rg_metrics reg)
                end;
|}.

Definition filters_for_phase (phase : FilterPhase) (w : World) (reg : FilterRegistry) :
    list SecurityFilter :=
  List.filter (λ f, bool_decide (sf_phase f = phase) && sf_is_ready f w) (rg_filters reg).

Definition registry_count (reg : FilterRegistry) : nat := length (rg_filters reg).

(** The sum of the entries each filter dropped. *)
Definition registry_evict_session_state (scope : SessionScopeKey) (reg : FilterRegistry)
    (w : World) : nat * World :=
  fold_left (λ '(n, w) f, let '(k, w) := sf_evict_session_state f scope w in (n + k, w))
    (rg_filters reg) (0, w).

Definition registry_observe_outcome (ctx : ToolCallContext) (outcome : CallOutcome)
    (attempt_age : Duration) (reg : FilterRegistry) (w : World) : World :=
  fold_left (λ w f, sf_observe_outcome f ctx outcome attempt_age w) (rg_filters reg) w.

Record FilterInfo := {
  fi_name : string;
  fi_phase : FilterPhase;
  fi_is_ready : bool;
  fi_evaluation_count : Z;
  fi_avg_latency_ms : f64;
}.

Definition filter_info (w : World) (reg : FilterRegistry) : list FilterInfo :=
  map (λ f,
    let '(n, avg) :=
      match rg_metrics reg !! sf_name f with
      | Some m => (fm_evaluation_count m, avg_latency_ms m)
      | None => (0%Z, f64_zero)
      end in
    {| fi_name := sf_name f; fi_phase := sf_phase f; fi_is_ready := sf_is_ready f w;
       fi_evaluation_count := n; fi_avg_latency_ms := avg |})
    (rg_filters reg).

End Filters.

Arguments World {_} FS.
Arguments SecurityFilter {_} FS.
Arguments FilterRegistry {_} FS.
