(* ===== verification/Engine.v ===== *)
(** * The proxy pipeline

    [crates/grith-proxy/src/engine.rs]: a call is evaluated by the static, the
    pattern and the context filters in turn, with an early deny after each of the
    first two, then by the meta-rules and the ssh clamp, and routed by its
    composite score.  The futures of a phase are polled in registration order and
    [join_all] returns their results in that order; each filter's evaluation is
    one step of the world. *)

From S2P Require Import Prelude Concrete F64 Types Scoring MetaRules SessionState SshConnect Filters.

Section Engine.
Context `{D : Deps} {FS : Type}.

(** The clock's readings, [/proc/<pid>/exe] and [Path::to_string_lossy]. *)
Variable clock : nat → Instant.
Variable canonical_exe_for_pid : N → option string.
Variable to_string_lossy : string → string.

(** ** State *)

Record SecurityProxy := {
  px_registry : FilterRegistry FS;
  px_scoring : ScoringConfig;
  px_meta_rules : list MetaRule;
  px_call_count : Z;
  px_allow_count : Z;
  px_queue_count : Z;
  px_deny_count : Z;
  px_observed_count : Z;
  px_observed_executed : Z;
  px_observed_suppressed : Z;
}.

Definition SecurityProxy_new (registry : FilterRegistry FS) (scoring : ScoringConfig)
    (meta_rules : list MetaRule) : SecurityProxy := {|
  px_registry := registry; px_scoring := scoring; px_meta_rules := meta_rules;
  px_call_count := 0; px_allow_count := 0; px_queue_count := 0; px_deny_count := 0;
  px_observed_count := 0; px_observed_executed := 0; px_observed_suppressed := 0;
|}.

Definition with_metrics (m : gmap string FilterMetrics) (px : SecurityProxy) : SecurityProxy := {|
  px_registry := {| rg_filters := rg_filters (px_registry px); rg_metrics := m |};
  px_scoring := px_scoring px; px_meta_rules := px_meta_rules px;
  px_call_count := px_call_count px; px_allow_count := px_allow_count px;
  px_queue_count := px_queue_count px; px_deny_count := px_deny_count px;
  px_observed_count := px_observed_count px; px_observed_executed := px_observed_executed px;
  px_observed_suppressed := px_observed_suppressed px;
|}.

Definition count_call (px : SecurityProxy) : SecurityProxy := {|
  px_registry := px_registry px; px_scoring := px_scoring px;
  px_meta_rules := px_meta_rules px;
  px_call_count := as_u64 (px_call_count px + 1); px_allow_count := px_allow_count px;
  px_queue_count := px_queue_count px; px_deny_count := px_deny_count px;
  px_observed_count := px_observed_count px; px_observed_executed := px_observed_executed px;
  px_observed_suppressed := px_observed_suppressed px;
|}.

Definition record_decision (decision : ProxyDecision) (px : SecurityProxy) : SecurityProxy :=
  let '(a, q, d) := match pd_action decision with
                    | Allow => (1, 0, 0)%Z
                    | Queue _ => (0, 1, 0)%Z
                    | Deny _ => (0, 0, 1)%Z
                    end in
  {| px_registry := px_registry px; px_scoring := px_scoring px;
     px_meta_rules := px_meta_rules px; px_call_count := px_call_count px;
     px_allow_count := as_u64 (px_allow_count px + a);
     px_queue_count := as_u64 (px_queue_count px + q);
     px_deny_count := as_u64 (px_deny_count px + d);
     px_observed_count := px_observed_count px;
     px_observed_executed := px_observed_executed px;
     px_observed_suppressed := px_observed_suppressed px |}.

(** ** Running a phase *)

(** An error counts as no match. *)
Definition result_or_no_match (f : SecurityFilter FS) (r : option FilterResult) : FilterResult :=
  match r with Some r => r | None => no_match (sf_name f) end.

Fixpoint run_filters (fs : list (SecurityFilter FS)) (ctx : ToolCallContext)
    (m : gmap string FilterMetrics) (w : World FS) :
    list FilterResult * gmap string FilterMetrics * World FS :=
  match fs with
  | [] => ([], m, w)
  | f :: fs' =>
      let '(start, w) := now clock w in
      let '(r, w) := sf_evaluate f ctx w in
      let '(latency, w) := elapsed clock start w in
      let m := alter (metrics_record latency) (sf_name f) m in
      let '(rs, m, w) := run_filters fs' ctx m w in
      (result_or_no_match f r :: rs, m, w)
  end.

Definition run_phase (phase : FilterPhase) (ctx : ToolCallContext) (px : SecurityProxy)
    (w : World FS) : list FilterResult * SecurityProxy * World FS :=
  let '(rs, m, w) := run_filters (filters_for_phase phase w (px_registry px)) ctx
                       (rg_metrics (px_registry px)) w in
  (rs, with_metrics m px, w).

(** ** Evaluation *)

Definition decide_and_record (score : f64) (results : list FilterResult) (start : Instant)
    (px : SecurityProxy) (w : World FS) : ProxyDecision * SecurityProxy * World FS :=
  let '(allow, deny) := thresholds (px_scoring px) in
  let '(time, w) := elapsed clock start w in
  let decision := route_decision score results allow deny time in
  (decision, record_decision decision px, w).

(** Meta-rules, clamp and routing of the results of all the phases. *)
Definition finish (ctx : ToolCallContext) (results : list FilterResult) (start : Instant)
    (px : SecurityProxy) (w : World FS) : ProxyDecision * SecurityProxy * World FS :=
  let '(allow, deny) := thresholds (px_scoring px) in
  let score := f64_add (aggregate results) (meta_evaluate (px_meta_rules px) results ctx) in
  let score := default score
    (maybe_clamp_ssh_connect canonical_exe_for_pid to_string_lossy (w_sessions w)
       score allow deny results ctx) in
  decide_and_record score results start px w.

Definition evaluate (ctx : ToolCallContext) (px : SecurityProxy) (w : World FS) :
    ProxyDecision * SecurityProxy * World FS :=
  let '(start, w) := now clock w in
  let px := count_call px in
  let deny := (thresholds (px_scoring px)).2 in
  let '(rs1, px, w) := run_phase Static ctx px w in
  if exceeds_deny (aggregate rs1) deny then decide_and_record (aggregate rs1) rs1 start px w
  else
    let '(rs2, px, w) := run_phase Pattern ctx px w in
    let results := rs1 ++ rs2 in
    if exceeds_deny (aggregate results) deny then
      decide_and_record (aggregate results) results start px w
    else
      let '(rs3, px, w) := run_phase Context_ ctx px w in
      finish ctx (results ++ rs3) start px w.

(** ** Other operations *)

Definition with_sessions (s : SessionStateRegistry) (w : World FS) : World FS :=
  {| w_filters := w_filters w; w_sessions := s; w_tick := w_tick w |}.

Definition evict_session_state (scope : SessionScopeKey) (px : SecurityProxy) (w : World FS) :
    nat * World FS :=
  let '(removed, w) := registry_evict_session_state scope (px_registry px) w in
  (removed, with_sessions (registry_evict scope (w_sessions w)).2 w).

Definition observe_outcome (ctx : ToolCallContext) (outcome : CallOutcome)
    (attempt_age : Duration) (px : SecurityProxy) (w : World FS) :
    SecurityProxy * World FS :=
  let '(e, s) := if executed outcome then (1, 0)%Z else (0, 1)%Z in
  ({| px_registry := px_registry px; px_scoring := px_scoring px;
      px_meta_rules := px_meta_rules px; px_call_count := px_call_count px;
      px_allow_count := px_allow_count px; px_queue_count := px_queue_count px;
      px_deny_count := px_deny_count px;
      px_observed_count := as_u64 (px_observed_count px + 1);
      px_observed_executed := as_u64 (px_observed_executed px + e);
      px_observed_suppressed := as_u64 (px_observed_suppressed px + s) |},
   registry_observe_outcome ctx outcome attempt_age (px_registry px) w).

Inductive proxy_op :=
  | OpEvaluate (ctx : ToolCallContext)
  | OpObserve (ctx : ToolCallContext) (outcome : CallOutcome) (attempt_age : Duration)
  | OpEvictSession (scope : SessionScopeKey).

Definition proxy_step (op : proxy_op) (st : SecurityProxy * World FS) :
    SecurityProxy * World FS :=
  let '(px, w) := st in
  match op with
  | OpEvaluate ctx => let '(_, px, w) := evaluate ctx px w in (px, w)
  | OpObserve ctx outcome age => observe_outcome ctx outcome age px w
  | OpEvictSession scope => (px, (evict_session_state scope px w).2)
  end.

Definition proxy_run (ops : list proxy_op) (st : SecurityProxy * World FS) :
    SecurityProxy * World FS :=
  fold_left (λ st op, proxy_step op st) ops st.

(** ** Reference: the pipeline without early denies *)

Definition evaluate_full (ctx : ToolCallContext) (px : SecurityProxy) (w : World FS) :
    ProxyDecision * SecurityProxy * World FS :=
  let '(start, w) := now clock w in
  let px := count_call px in
  let '(rs1, px, w) := run_phase Static ctx px w in
  let '(rs2, px, w) := run_phase Pattern ctx px w in
  let '(rs3, px, w) := run_phase Context_ ctx px w in
  finish ctx ((rs1 ++ rs2) ++ rs3) start px w.

End Engine.

Arguments SecurityProxy {_} FS.

(** ** Lemmas *)

Section Lemmas.
Context `{D : Deps} {FS : Type}.
Variable clock : nat → Instant.
Variable exe : N → option string.
Variable lossy : string → string.

Notation evaluate := (evaluate clock exe lossy).
Notation finish := (finish clock exe lossy).
Notation run_phase := (run_phase clock).

Lemma run_phase_px phase ctx (px : SecurityProxy FS) w :
  ∃ m, (run_phase phase ctx px w).1.2 = with_metrics m px.
Proof. unfold run_phase. destruct (run_filters _ _ _ _ _) as [[rs m] w']. by exists m. Qed.

Lemma decide_and_record_px score rs start (px : SecurityProxy FS) w :
  (decide_and_record clock score rs start px w).1.2
  = record_decision (decide_and_record clock score rs start px w).1.1 px.
Proof. unfold decide_and_record. destruct (thresholds _), (elapsed _ _ _). done. Qed.

Lemma decide_and_record_action score rs start (px : SecurityProxy FS) w :
  pd_action (decide_and_record clock score rs start px w).1.1
  = pd_action (route_decision score rs (auto_allow_threshold (px_scoring px))
                 (auto_deny_threshold (px_scoring px)) 0).
Proof.
  unfold decide_and_record, thresholds, route_decision.
  destruct (elapsed _ _ _). cbn. by repeat case_match.
Qed.

Lemma decide_and_record_denied score rs start (px : SecurityProxy FS) w :
  f64_gt score (auto_deny_threshold (px_scoring px)) = true →
  is_denied (decide_and_record clock score rs start px w).1.1 = true.
Proof.
  intros H. unfold is_denied. rewrite decide_and_record_action.
  unfold route_decision. by rewrite H.
Qed.

Lemma finish_px ctx rs start (px : SecurityProxy FS) w :
  (finish ctx rs start px w).1.2 = record_decision (finish ctx rs start px w).1.1 px.
Proof. unfold finish. destruct (thresholds _). apply decide_and_record_px. Qed.

(** One evaluation counts one call and records the decision it returns. *)
Lemma evaluate_px ctx (px : SecurityProxy FS) w :
  ∃ m, (evaluate ctx px w).1.2
       = record_decision (evaluate ctx px w).1.1 (with_metrics m (count_call px)).
Proof.
  unfold evaluate. destruct (now clock w) as [start w0].
  pose proof (run_phase_px Static ctx (count_call px) w0) as [m1 H1].
  destruct (run_phase Static _ _ _) as [[rs1 px1] w1]. cbn in H1. subst px1.
  destruct (exceeds_deny _ _); [exists m1; apply decide_and_record_px|].
  pose proof (run_phase_px Pattern ctx (with_metrics m1 (count_call px)) w1) as [m2 H2].
  destruct (run_phase Pattern _ _ _) as [[rs2 px2] w2]. cbn in H2. subst px2.
  destruct (exceeds_deny _ _); [exists m2; apply decide_and_record_px|].
  pose proof (run_phase_px Context_ ctx
    (with_metrics m2 (with_metrics m1 (count_call px))) w2) as [m3 H3].
  destruct (run_phase Context_ _ _ _) as [[rs3 px3] w3]. cbn in H3. subst px3.
  exists m3. apply finish_px.
Qed.

(** *** Counters *)

Lemma as_u64_succ a b : as_u64 a = as_u64 b → as_u64 (a + 1) = as_u64 (b + 1).
Proof.
  unfold as_u64. intros H.
  by rewrite <- (Zplus_mod_idemp_l a), H, Zplus_mod_idemp_l.
Qed.

Lemma as_u64_idemp_l a b : as_u64 (as_u64 a + b) = as_u64 (a + b).
Proof. apply Zplus_mod_idemp_l. Qed.

Definition counters (n m : Z) (px : SecurityProxy FS) : Prop :=
  px_call_count px = as_u64 n
  ∧ as_u64 (px_allow_count px + px_queue_count px + px_deny_count px) = as_u64 n
  ∧ px_observed_count px = as_u64 m
  ∧ as_u64 (px_observed_executed px + px_observed_suppressed px) = as_u64 m.

Lemma as_u64_sum2 a b x y :
  as_u64 (as_u64 (a + x) + as_u64 (b + y)) = as_u64 (a + b + (x + y)).
Proof.
  rewrite as_u64_idemp_l, Z.add_comm, as_u64_idemp_l. f_equal. lia.
Qed.

Lemma as_u64_sum3 a b c x y z :
  as_u64 (as_u64 (a + x) + as_u64 (b + y) + as_u64 (c + z))
  = as_u64 (a + b + c + (x + y + z)).
Proof.
  rewrite <- Z.add_assoc, as_u64_idemp_l.
  replace (a + x + (as_u64 (b + y) + as_u64 (c + z)))%Z
    with (as_u64 (b + y) + (a + x + as_u64 (c + z)))%Z by lia.
  rewrite as_u64_idemp_l.
  replace (b + y + (a + x + as_u64 (c + z)))%Z
    with (as_u64 (c + z) + (a + x + b + y))%Z by lia.
  rewrite as_u64_idemp_l. f_equal. lia.
Qed.

Lemma counters_evaluate ctx n m px w :
  counters n m px → counters (n + 1) m (evaluate ctx px w).1.2.
Proof.
  intros (H1 & H2 & H3 & H4). destruct (evaluate_px ctx px w) as [mm ->].
  unfold record_decision, counters.
  destruct (pd_action _); cbn; rewrite as_u64_sum3, H1, as_u64_idemp_l;
    (split; [done|]); (split; [by apply as_u64_succ|]); by split.
Qed.

Lemma counters_observe ctx o age n m px (w : World FS) :
  counters n m px → counters n (m + 1) (observe_outcome ctx o age px w).1.
Proof.
  intros (H1 & H2 & H3 & H4). unfold observe_outcome, counters.
  destruct (executed o); cbn; rewrite H3, as_u64_idemp_l;
    (split; [done|]); (split; [done|]); (split; [done|]);
    rewrite as_u64_sum2; by apply as_u64_succ.
Qed.

(** *** Non-negative results *)

(** What the early deny relies on. *)
Definition filter_nonneg (f : SecurityFilter FS) : Prop :=
  ∀ ctx w r, (sf_evaluate f ctx w).1 = Some r → result_nonneg r.

Definition meta_nonneg (rules : list MetaRule) : Prop :=
  Forall (λ r, mr_score_override r = None ∧
    ∀ a, mr_score_adjustment r = Some a → f64_valid a = true ∧ f64_le f64_zero a = true) rules.

Lemma run_filters_nonneg fs ctx m w :
  Forall filter_nonneg fs → Forall result_nonneg (run_filters clock fs ctx m w).1.1.
Proof.
  intros Hfs. revert m w. induction Hfs as [|f fs Hf _ IH]; intros m w; cbn; [constructor|].
  destruct (sf_evaluate f ctx _) as [r w1] eqn:E.
  match goal with |- context [run_filters clock fs ctx ?m ?w] =>
    specialize (IH m w); destruct (run_filters clock fs ctx m w) as [[rs m'] w'] end.
  cbn in *. constructor; [|done]. destruct r as [r|]; cbn; [|apply no_match_nonneg].
  eapply Hf. by rewrite E.
Qed.

Lemma run_phase_nonneg phase ctx (px : SecurityProxy FS) w :
  Forall filter_nonneg (rg_filters (px_registry px)) →
  Forall result_nonneg (run_phase phase ctx px w).1.1.
Proof.
  intros Hf. unfold run_phase.
  assert (H : Forall filter_nonneg (filters_for_phase phase w (px_registry px))).
  { rewrite Forall_forall in Hf |- *. unfold filters_for_phase. intros f Hin.
    apply list_elem_of_In, filter_In in Hin as [Hin _]. by apply Hf, list_elem_of_In. }
  pose proof (run_filters_nonneg _ ctx (rg_metrics (px_registry px)) w H) as Hr.
  by destruct (run_filters _ _ _ _ _) as [[rs m] w'].
Qed.

Lemma meta_loop_nonneg rules rs ctx acc :
  meta_nonneg rules → f64_valid acc = true → f64_le f64_zero acc = true →
  f64_valid (meta_evaluate_loop rules rs ctx acc) = true
  ∧ f64_le f64_zero (meta_evaluate_loop rules rs ctx acc) = true.
Proof.
  intros Hr. revert acc. induction Hr as [|r rules [Ho Ha] _ IH]; intros acc Hv Hz; cbn; [done|].
  destruct (matches_all_conditions r rs ctx); [|by apply IH].
  rewrite Ho. destruct (mr_score_adjustment r) as [a|]; [|by apply IH].
  destruct (Ha a eq_refl) as [Hav Haz]. pose proof (f64_add_valid acc a Hv Hav).
  apply IH; [done|]. eapply f64_le_trans; [done| |done|exact Hz|]; [done|].
  apply f64_add_le; [done..| |done]. by eapply f64_lt_le_trans with (y := f64_zero).
Qed.

Lemma no_clamp sessions score allow deny rs ctx :
  is_net_connect (ctx_call_type ctx) = false →
  maybe_clamp_ssh_connect exe lossy sessions score allow deny rs ctx = None.
Proof. intros H. unfold maybe_clamp_ssh_connect. rewrite H. by destruct (f64_le score deny). Qed.

Lemma no_clamp_low sessions score allow deny rs ctx :
  f64_le score deny = true →
  maybe_clamp_ssh_connect exe lossy sessions score allow deny rs ctx = None.
Proof. intros H. unfold maybe_clamp_ssh_connect. by rewrite H. Qed.

(** Once the filters' score exceeds the deny threshold, the rest of the
    pipeline keeps it there. *)
Lemma finish_denied ctx rs start (px : SecurityProxy FS) w :
  Forall result_valid rs → meta_nonneg (px_meta_rules px) →
  is_net_connect (ctx_call_type ctx) = false →
  f64_valid (auto_deny_threshold (px_scoring px)) = true →
  f64_gt (aggregate rs) (auto_deny_threshold (px_scoring px)) = true →
  is_denied (finish ctx rs start px w).1.1 = true.
Proof.
  intros Hrs Hm Hnet Hd Hgt. unfold finish. cbn. rewrite no_clamp by done. cbn.
  apply decide_and_record_denied.
  destruct (meta_loop_nonneg (px_meta_rules px) rs ctx f64_zero Hm eq_refl eq_refl) as [Hv Hz].
  pose proof (aggregate_valid rs Hrs) as Ha.
  assert (Hadd : f64_le (aggregate rs)
      (f64_add (aggregate rs) (meta_evaluate (px_meta_rules px) rs ctx)) = true).
  { apply f64_add_le; [done..| |done].
    by eapply f64_lt_neg_infinity with (t := auto_deny_threshold (px_scoring px)). }
  exact (f64_lt_le_trans _ _ _ Hd Ha (f64_add_valid _ _ Ha Hv) Hgt Hadd).
Qed.
End Lemmas.

(** ** Properties *)

Section Properties.
Context `{D : Deps} {FS : Type}.

Definition count_evaluations (ops : list proxy_op) : Z :=
  Z.of_nat (length (List.filter (λ op, match op with OpEvaluate _ => true | _ => false end) ops)).
Definition count_observations (ops : list proxy_op) : Z :=
  Z.of_nat (length (List.filter (λ op, match op with OpObserve _ _ _ => true | _ => false end) ops)).

Lemma proxy_run_counters clock exe lossy ops n m (st : SecurityProxy FS * World FS) :
  counters n m st.1 →
  counters (n + count_evaluations ops) (m + count_observations ops)
    (proxy_run clock exe lossy ops st).1.
Proof.
  unfold count_evaluations, count_observations.
  revert n m st. induction ops as [|op ops IH]; intros n m [px w] H; cbn in *.
  - by rewrite !Z.add_0_r.
  - assert (Hs : counters (n + match op with OpEvaluate _ => 1 | _ => 0 end)
        (m + match op with OpObserve _ _ _ => 1 | _ => 0 end)
        (proxy_step clock exe lossy op (px, w)).1).
    { destruct op as [ctx|ctx o age|sc]; unfold proxy_step; rewrite ?Z.add_0_r; [| |done].
      - pose proof (counters_evaluate clock exe lossy ctx n m px w H) as Hc.
        by destruct (evaluate _ _ _ _ _ _) as [[? ?] ?].
      - by apply counters_observe. }
    apply IH in Hs. eapply eq_ind with (P := λ k, counters k _ _); [|].
    + eapply eq_ind with (P := λ k, counters _ k _); [exact Hs|].
      destruct op; cbn [length]; lia.
    + destruct op; cbn [length]; lia.
Qed.

(** Filters, rules and a threshold under which every score only raises the sum, on a call
    the ssh clamp does not concern. *)
Record only_adds ctx (px : SecurityProxy FS) : Prop := {
  oa_filters : Forall filter_nonneg (rg_filters (px_registry px));
  oa_meta : meta_nonneg (px_meta_rules px);
  oa_net : is_net_connect (ctx_call_type ctx) = false;
  oa_deny : f64_valid (auto_deny_threshold (px_scoring px)) = true;
}.

(** Without an early deny the two pipelines are the same run. *)
Lemma denied_or_full clock exe lossy ctx (px : SecurityProxy FS) w :
  let d := (evaluate clock exe lossy ctx px w).1.1 in
  is_denied d = true ∨ d = (evaluate_full clock exe lossy ctx px w).1.1.
Proof.
  unfold evaluate, evaluate_full. destruct (now clock w) as [start w0].
  pose proof (run_phase_px clock Static ctx (count_call px) w0) as [m1 H1].
  destruct (run_phase clock Static _ _ _) as [[rs1 px1] w1]. cbn in H1. subst px1.
  pose proof (run_phase_px clock Pattern ctx (with_metrics m1 (count_call px)) w1) as [m2 H2].
  destruct (run_phase clock Pattern _ _ _) as [[rs2 px2] w2]. cbn in H2. subst px2.
  cbn zeta. change (thresholds _).2 with (auto_deny_threshold (px_scoring px)). unfold exceeds_deny.
  destruct (f64_gt (aggregate rs1) _) eqn:E1; [left; by apply decide_and_record_denied|].
  destruct (f64_gt (aggregate (rs1 ++ rs2)) _) eqn:E2; [left; by apply decide_and_record_denied|].
  by right.
Qed.

Lemma early_deny_denied clock exe lossy ctx (px : SecurityProxy FS) w : only_adds ctx px →
  is_denied (evaluate clock exe lossy ctx px w).1.1 = is_denied (evaluate_full clock exe lossy ctx px w).1.1.
Proof.
  intros [Hfilters Hmeta Hnet Hdeny]. unfold evaluate, evaluate_full. destruct (now clock w) as [start w0].
  set (deny := auto_deny_threshold (px_scoring px)) in *.
  pose proof (run_phase_px clock Static ctx (count_call px) w0) as [m1 H1].
  pose proof (run_phase_nonneg clock Static ctx (count_call px) w0 Hfilters) as N1.
  destruct (run_phase clock Static _ _ _) as [[rs1 px1] w1]. cbn in H1, N1. subst px1.
  pose proof (run_phase_px clock Pattern ctx (with_metrics m1 (count_call px)) w1) as [m2 H2].
  pose proof (run_phase_nonneg clock Pattern ctx (with_metrics m1 (count_call px)) w1 Hfilters) as N2.
  destruct (run_phase clock Pattern _ _ _) as [[rs2 px2] w2]. cbn in H2, N2. subst px2.
  set (px3 := with_metrics m2 (with_metrics m1 (count_call px))).
  pose proof (run_phase_px clock Context_ ctx px3 w2) as [m3 H3].
  pose proof (run_phase_nonneg clock Context_ ctx px3 w2 Hfilters) as N3.
  destruct (run_phase clock Context_ _ _ _) as [[rs3 px4] w3]. cbn in H3, N3. subst px4.
  assert (V : ∀ l, Forall result_nonneg l → Forall result_valid l)
    by (intros l Hl; eapply Forall_impl; [exact Hl|apply result_nonneg_valid]).
  assert (Hfull : f64_gt (aggregate (rs1 ++ rs2)) deny = true →
    is_denied (finish clock exe lossy ctx ((rs1 ++ rs2) ++ rs3) start
                 (with_metrics m3 px3) w3).1.1 = true).
  { intros Hgt. apply finish_denied; [by apply V, Forall_app_2; [apply Forall_app_2|]|done..|].
    apply aggregate_app_gt; [by apply V, Forall_app_2|done..]. }
  cbn zeta. change (thresholds _).2 with deny. unfold exceeds_deny.
  destruct (f64_gt (aggregate rs1) deny) eqn:E1.
  - assert (Hgt : f64_gt (aggregate (rs1 ++ rs2)) deny = true)
      by exact (aggregate_app_gt rs1 rs2 deny (V _ N1) N2 Hdeny E1).
    rewrite (Hfull Hgt). rewrite decide_and_record_denied by exact E1. done.
  - destruct (f64_gt (aggregate (rs1 ++ rs2)) deny) eqn:E2; [|done].
    rewrite (Hfull eq_refl). rewrite decide_and_record_denied by exact E2. done.
Qed.

(** C25: The early denies against the pipeline that always runs all three phases. For
    any filters, meta-rules and call: whatever the full pipeline denies the early
    pipeline denies too, and a decision of the early pipeline that is not a denial is
    the decision of the full one. So they differ only by denying more, for instance
    where a credit of a later phase would have taken the call below the threshold again
    (late_credit_denied); where every filter's score is non-negative, the meta-rules
    only add, the call is not a connection and the threshold is a number, the two deny
    the same calls. *)
Theorem evaluate_early_deny_sound clock exe lossy ctx (px : SecurityProxy FS) w :
  let d := (evaluate clock exe lossy ctx px w).1.1 in
  let d' := (evaluate_full clock exe lossy ctx px w).1.1 in
  (is_denied d' = true → is_denied d = true) ∧ (is_denied d = false → d = d')
  ∧ (only_adds ctx px → is_denied d = is_denied d').
Proof.
  intros d d'. destruct (denied_or_full clock exe lossy ctx px w : is_denied d = true ∨ d = d') as [Hd | ->].
  - rewrite Hd. split; [done|]. split; [done|]. rewrite <- Hd. by apply early_deny_denied.
  - done.
Qed.

(** An early deny leaves the later filters untouched: when the static
    filters alone exceed the deny threshold, the call is denied on their
    results only and the world is the one they left, so no pattern or context
    filter saw the call. *)
Theorem evaluate_static_deny clock exe lossy ctx (px : SecurityProxy FS) w
    (Hgt : f64_gt (aggregate (run_phase clock Static ctx (count_call px) (now clock w).2).1.1)
             (auto_deny_threshold (px_scoring px)) = true) :
  let '(d, _, w') := evaluate clock exe lossy ctx px w in
  let '(rs1, _, w1) := run_phase clock Static ctx (count_call px) (now clock w).2 in
  is_denied d = true ∧ pd_filter_results d = rs1
  ∧ w_filters w' = w_filters w1 ∧ w_sessions w' = w_sessions w1.
Proof.
  unfold evaluate. destruct (now clock w) as [start w0]. cbn [snd] in *.
  pose proof (run_phase_px clock Static ctx (count_call px) w0) as [m1 H1].
  destruct (run_phase clock Static _ _ _) as [[rs1 px1] w1]. cbn [fst snd] in H1, Hgt. subst px1.
  cbn zeta. change (thresholds _).2 with (auto_deny_threshold (px_scoring px)).
  unfold exceeds_deny. rewrite Hgt. unfold decide_and_record.
  change (thresholds _) with
    (auto_allow_threshold (px_scoring px), auto_deny_threshold (px_scoring px)).
  destruct (elapsed clock start w1) as [time w2] eqn:E. unfold route_decision. rewrite Hgt.
  unfold elapsed, now in E. by injection E as <- <-.
Qed.

(** The counters account for every operation: after any sequence of
    evaluations, outcome reports and evictions on a new proxy, the number of
    calls is the number of evaluations and the sum of the allow, queue and deny
    counts, and the number of outcomes is that of the reports and the sum of the
    executed and suppressed counts, all modulo [2^64]. *)
Theorem proxy_counters clock exe lossy registry scoring rules ops (w : World FS) :
  let px := (proxy_run clock exe lossy ops (SecurityProxy_new registry scoring rules, w)).1 in
  px_call_count px = as_u64 (count_evaluations ops)
  ∧ as_u64 (px_allow_count px + px_queue_count px + px_deny_count px) = px_call_count px
  ∧ px_observed_count px = as_u64 (count_observations ops)
  ∧ as_u64 (px_observed_executed px + px_observed_suppressed px) = px_observed_count px.
Proof.
  intros px. destruct (proxy_run_counters clock exe lossy ops 0 0
    (SecurityProxy_new registry scoring rules, w)) as (H1 & H2 & H3 & H4).
  { by split_and!. }
  fold px in H1, H2, H3, H4. rewrite Z.add_0_l in H1, H2, H3, H4.
  by rewrite H2, H4, H1, H3.
Qed.

Lemma run_filters_errors clock fs ctx m (w : World FS) :
  (∀ f, f ∈ fs → ∀ w, (sf_evaluate f ctx w).1 = None) →
  (run_filters clock fs ctx m w).1.1 = map (λ f, no_match (sf_name f)) fs.
Proof.
  revert m w. induction fs as [|f fs IH]; intros m w Hf; cbn; [done|].
  set (w1 := (now clock w).2). pose proof (Hf f (list_elem_of_here _ _) w1) as He.
  change (sf_evaluate f ctx _) with (sf_evaluate f ctx w1).
  destruct (sf_evaluate f ctx w1) as [r w2]. cbn in He. subst r.
  match goal with |- context [run_filters clock fs ctx ?m ?w] =>
    specialize (IH m w); destruct (run_filters clock fs ctx m w) as [[rs m'] w'] end.
  cbn in *. rewrite IH; [done|]. intros g Hg. apply Hf. by apply list_elem_of_further.
Qed.

Lemma run_phase_errors clock phase ctx (px : SecurityProxy FS) w :
  (∀ f, f ∈ rg_filters (px_registry px) → ∀ w, (sf_evaluate f ctx w).1 = None) →
  Forall (λ r, fr_matched r = false) (run_phase clock phase ctx px w).1.1.
Proof.
  intros Hf. unfold run_phase.
  pose proof (run_filters_errors clock (filters_for_phase phase w (px_registry px)) ctx
    (rg_metrics (px_registry px)) w) as Hr.
  destruct (run_filters _ _ _ _ _) as [[rs m] w']. cbn in *. rewrite Hr.
  - clear. induction (filters_for_phase phase w (px_registry px)); cbn; by constructor.
  - intros f Hin. apply Hf. unfold filters_for_phase in Hin.
    apply list_elem_of_In, filter_In in Hin as [Hin _]. by apply list_elem_of_In.
Qed.

Lemma aggregate_unmatched rs :
  Forall (λ r, fr_matched r = false) rs → aggregate rs = f64_neg_zero.
Proof.
  unfold aggregate. intros Hr.
  replace (List.filter fr_matched rs) with (@nil FilterResult); [done|].
  induction Hr as [|r rs Hr _ IH]; cbn; [done|by rewrite Hr].
Qed.

(** A filter that fails contributes nothing, so the pipeline fails open:
    if every filter's evaluation returns an error, the call is allowed, whatever
    it is, with no meta-rules and non-negative thresholds. *)
Theorem evaluate_errors_allow clock exe lossy ctx (px : SecurityProxy FS) w
    (Herr : ∀ f, f ∈ rg_filters (px_registry px) → ∀ w, (sf_evaluate f ctx w).1 = None)
    (Hmeta : px_meta_rules px = [])
    (Hallow : f64_gt f64_zero (auto_allow_threshold (px_scoring px)) = false)
    (Hdeny : f64_gt f64_zero (auto_deny_threshold (px_scoring px)) = false)
    (Hnan : f64_is_nan (auto_deny_threshold (px_scoring px)) = false) :
  is_allowed (evaluate clock exe lossy ctx px w).1.1 = true.
Proof.
  unfold evaluate. destruct (now clock w) as [start w0].
  set (deny := auto_deny_threshold (px_scoring px)) in *.
  assert (Hneg : f64_gt f64_neg_zero deny = false) by (revert Hdeny; by destruct deny as [|[]| |]).
  pose proof (run_phase_px clock Static ctx (count_call px) w0) as [m1 H1].
  pose proof (run_phase_errors clock Static ctx (count_call px) w0 Herr) as N1.
  destruct (run_phase clock Static _ _ _) as [[rs1 px1] w1]. cbn in H1, N1. subst px1.
  cbn zeta. change (thresholds _).2 with deny. unfold exceeds_deny.
  rewrite aggregate_unmatched, Hneg by done.
  pose proof (run_phase_px clock Pattern ctx (with_metrics m1 (count_call px)) w1) as [m2 H2].
  pose proof (run_phase_errors clock Pattern ctx (with_metrics m1 (count_call px)) w1 Herr) as N2.
  destruct (run_phase clock Pattern _ _ _) as [[rs2 px2] w2]. cbn in H2, N2. subst px2.
  rewrite aggregate_unmatched, Hneg by by apply Forall_app_2.
  set (px3 := with_metrics m2 (with_metrics m1 (count_call px))).
  pose proof (run_phase_px clock Context_ ctx px3 w2) as [m3 H3].
  pose proof (run_phase_errors clock Context_ ctx px3 w2 Herr) as N3.
  destruct (run_phase clock Context_ _ _ _) as [[rs3 px4] w3]. cbn in H3, N3. subst px4.
  assert (Hle : f64_le f64_zero deny = true)
    by (revert Hdeny Hnan; by destruct deny as [|[]| |[] m e]).
  unfold finish. change (thresholds _) with (auto_allow_threshold (px_scoring px), deny).
  change (px_meta_rules _) with (px_meta_rules px). rewrite Hmeta.
  rewrite aggregate_unmatched by by apply Forall_app_2; [apply Forall_app_2|].
  change (f64_add f64_neg_zero (meta_evaluate [] _ ctx)) with f64_zero.
  rewrite no_clamp_low by done. cbn [default from_option].
  unfold is_allowed. apply bool_decide_eq_true. rewrite decide_and_record_action.
  unfold route_decision. change (auto_deny_threshold _) with deny.
  change (auto_allow_threshold _) with (auto_allow_threshold (px_scoring px)).
  by rewrite Hdeny, Hallow.
Qed.

End Properties.

(** ** Concrete pipelines *)

Module Example_pipeline.

#[local] Instance example_deps : Deps := concrete_deps.

(** A stateless filter: a fixed score, or an error. *)
Definition const_filter (name : string) (phase : FilterPhase) (score : option f64) :
    SecurityFilter unit := {|
  sf_name := name;
  sf_phase := phase;
  sf_is_ready _ := true;
  sf_evaluate _ w := ((λ s, matched name "rule" s SevError "message") <$> score, w);
  sf_evict_session_state _ w := (0, w);
  sf_observe_outcome _ _ _ w := w;
|}.

Definition proxy (fs : list (SecurityFilter unit)) : SecurityProxy unit :=
  SecurityProxy_new (fold_left (λ reg f, register f reg) fs FilterRegistry_new)
    ScoringConfig_default [].

Definition world : World unit := {| w_filters := tt; w_sessions := registry_new; w_tick := 0 |}.
Definition ctx : ToolCallContext := ToolCallContext_new uuid_a 0%Z "p" (FileDelete "/etc/passwd") uuid_b.
Definition clock (n : nat) : Instant := Z.of_nat n.
Definition no_exe (pid : N) : option string := None.

Definition three_phases : SecurityProxy unit :=
  proxy [const_filter "a" Static (Some (f64_of_Z 5)); const_filter "b" Pattern (Some (f64_of_Z 4));
         const_filter "c" Context_ (Some (f64_of_Z 1))].
Definition late_credit : SecurityProxy unit :=
  proxy [const_filter "a" Static (Some (f64_of_Z 5)); const_filter "b" Pattern (Some (f64_of_Z 4));
         const_filter "c" Context_ (Some (f64_of_Z (-1)))].
Definition static_heavy : SecurityProxy unit :=
  proxy [const_filter "a" Static (Some (f64_of_Z 9)); const_filter "b" Pattern (Some (f64_of_Z 4))].
Definition failing : SecurityProxy unit :=
  proxy [const_filter "a" Static None; const_filter "b" Pattern None].

End Example_pipeline.

(** The pattern phase reaches 9 and denies early. *)
Lemma evaluate_early_deny_sound_witness :
  let D := concrete_deps in
  let px := Example_pipeline.three_phases in
  let w := Example_pipeline.world in
  let run := evaluate Example_pipeline.clock Example_pipeline.no_exe id Example_pipeline.ctx px w in
  length (pd_filter_results run.1.1) = 2 ∧
  is_denied run.1.1 = is_denied (evaluate_full Example_pipeline.clock Example_pipeline.no_exe id
    Example_pipeline.ctx px w).1.1.
Proof.
  intros D px w run. split; [reflexivity|].
  apply (evaluate_early_deny_sound (D := concrete_deps) Example_pipeline.clock
    Example_pipeline.no_exe id Example_pipeline.ctx px w). split.
  - do 3 (apply Forall_cons_2; [intros ctx w0 r [= <-]; by split|]). apply Forall_nil_2.
  - constructor.
  - reflexivity.
  - reflexivity.
Defined.

(** A credit of the context phase comes too late: the full pipeline would queue. *)
Example late_credit_denied :
  let D := concrete_deps in
  let run := evaluate Example_pipeline.clock Example_pipeline.no_exe id Example_pipeline.ctx
               Example_pipeline.late_credit Example_pipeline.world in
  let full := evaluate_full Example_pipeline.clock Example_pipeline.no_exe id Example_pipeline.ctx
                Example_pipeline.late_credit Example_pipeline.world in
  is_denied run.1.1 = true ∧ is_denied full.1.1 = false ∧ is_allowed full.1.1 = false.
Proof. repeat split; vm_compute; reflexivity. Qed.

Lemma evaluate_static_deny_witness :
  let D := concrete_deps in
  let px := Example_pipeline.static_heavy in
  is_denied (evaluate Example_pipeline.clock Example_pipeline.no_exe id Example_pipeline.ctx px
    Example_pipeline.world).1.1 = true.
Proof.
  intros D px.
  exact (proj1 (evaluate_static_deny (D := concrete_deps) Example_pipeline.clock
    Example_pipeline.no_exe id Example_pipeline.ctx px Example_pipeline.world eq_refl)).
Defined.

(** Two failing filters: deleting [/etc/passwd] is allowed. *)
Lemma evaluate_errors_allow_witness :
  let D := concrete_deps in
  let px := Example_pipeline.failing in
  is_allowed (evaluate Example_pipeline.clock Example_pipeline.no_exe id Example_pipeline.ctx px
    Example_pipeline.world).1.1 = true.
Proof.
  intros D px.
  apply (evaluate_errors_allow (D := concrete_deps) Example_pipeline.clock
    Example_pipeline.no_exe id Example_pipeline.ctx px Example_pipeline.world).
  - intros f [<-|[<-|[]]]%list_elem_of_In; reflexivity.
  - reflexivity.
  - reflexivity.
  - reflexivity.
  - reflexivity.
Defined.
