(* ===== verification/RateLimit.v ===== *)
(** * The rate-limit filter

    [crates/grith-proxy/src/filters/rate_limit.rs]: a sliding one-minute window
    of call times per session and call category, with a burst count over its
    last five seconds. *)

From Stdlib Require Import Ascii.
From S2P Require Import Prelude Concrete F64 Types Scoring Filters.

Record RateLimit := {
  rl_max_per_minute : Z;
  rl_burst_threshold : Z;
}.

(** Configuration; the windows are the filter's state. *)
Record RateLimitFilter := {
  rl_limits : gmap string RateLimit;
  rl_risk_gated_burst : bool;
}.

Abbreviation Windows := (gmap string (list Instant)).

Definition RateLimitFilter_new (limits : gmap string RateLimit) : RateLimitFilter :=
  {| rl_limits := limits; rl_risk_gated_burst := false |}.

Definition with_risk_gated_burst (enabled : bool) (f : RateLimitFilter) : RateLimitFilter :=
  {| rl_limits := rl_limits f; rl_risk_gated_burst := enabled |}.

Definition rate_limit_defaults : RateLimitFilter :=
  RateLimitFilter_new (list_to_map [
    ("file_read", {| rl_max_per_minute := 60; rl_burst_threshold := 15 |});
    ("file_write", {| rl_max_per_minute := 30; rl_burst_threshold := 10 |});
    ("file_append", {| rl_max_per_minute := 30; rl_burst_threshold := 10 |});
    ("file_delete", {| rl_max_per_minute := 20; rl_burst_threshold := 5 |});
    ("dir_list", {| rl_max_per_minute := 60; rl_burst_threshold := 15 |});
    ("shell_exec", {| rl_max_per_minute := 20; rl_burst_threshold := 5 |});
    ("http_request", {| rl_max_per_minute := 60; rl_burst_threshold := 15 |})]).

Definition classify_call (t : ToolCallType) : string :=
  match t with
  | FileRead _ => "file_read"
  | FileWrite _ _ => "file_write"
  | FileAppend _ => "file_append"
  | FileDelete _ => "file_delete"
  | DirList _ => "dir_list"
  | ShellExec _ _ => "shell_exec"
  | HttpRequest _ _ => "http_request"
  | FileRename _ _ => "file_rename"
  | FileLink _ _ _ => "file_link"
  | FileChmod _ _ => "file_chmod"
  | DirCreate _ => "dir_create"
  | NetConnect _ _ => "net_connect"
  | NetListen _ _ => "net_listen"
  | ProcessSpawn _ _ => "process_spawn"
  | DnsQuery _ _ => "dns_query"
  | OwnershipChange _ _ _ => "ownership_change"
  | FilesystemMutation _ _ _ _ => "filesystem_mutation"
  | CrossProcessAccess _ _ => "cross_process_access"
  | NamespaceOp _ _ => "namespace_op"
  | DbusMethodCall _ _ _ _ => "dbus_method_call"
  end.

(** The text ["\x00"]. *)
Definition nul : string := String Ascii.zero EmptyString.

Section RateLimit.
Context `{D : Deps}.

Definition is_burst_risk_relevant (ctx : ToolCallContext) : bool :=
  if negb (bool_decide (ctx_source_taint ctx = TaintNone)) then true
  else
    match ctx_call_type ctx with
    | NetConnect _ _ | HttpRequest _ _ => true
    | ProcessSpawn _ _ =>
        match ctx_spawn_provenance ctx with
        | Some p => sp_is_outbound_capable p
        | None => false
        end
    | _ => false
    end.

Definition scope_window_key (scope : SessionScopeKey) (category : string) : string :=
  Uuid_to_string (scope_uuid scope) +:+ nul +:+ category.

Definition window_key (ctx : ToolCallContext) (category : string) : string :=
  scope_window_key (scope_or_warn ctx) category.

Definition at_or_after (since t : Instant) : bool := (since <=? t)%Z.

(** The two counts and the new windows; [None] when [now - 60s] is not an
    [Instant] and the subtraction panics. *)
Definition record_and_count (key : string) (now : Instant) (ws : Windows) :
    option (Z * Z * Windows) :=
  let timestamps := default [] (ws !! key) ++ [now] in
  one_minute_ago ← instant_checked_sub now (from_secs 60);
  let timestamps := List.filter (at_or_after one_minute_ago) timestamps in
  let minute_count := as_u32 (Z.of_nat (length timestamps)) in
  burst_window ← instant_checked_sub now (from_secs 5);
  let burst_count := as_u32 (Z.of_nat (length (List.filter (at_or_after burst_window) timestamps))) in
  Some (minute_count, burst_count, <[key := timestamps]> ws).

Definition threshold_80 (limit : RateLimit) : Z :=
  f64_as_u32 (f64_mul (f64_of_Z (rl_max_per_minute limit)) (f64_dec 8 1)).

(** The result of the two counts. *)
Definition score_counts (limit : RateLimit) (category : string) (minute_count burst_count : Z) :
    FilterResult :=
  if (rl_burst_threshold limit <=? burst_count)%Z then
    matched "rate-limit" "burst-detected" (f64_of_Z 3) SevError
      ("Burst detected: " +:+ fmt_Z burst_count +:+ " '" +:+ category
        +:+ "' calls in 5s (threshold: " +:+ fmt_Z (rl_burst_threshold limit) +:+ ")")
  else if (rl_max_per_minute limit <? minute_count)%Z then
    matched "rate-limit" "rate-exceeded" (f64_of_Z 2) SevWarning
      ("Rate exceeded: " +:+ fmt_Z minute_count +:+ " '" +:+ category
        +:+ "' calls/min (limit: " +:+ fmt_Z (rl_max_per_minute limit) +:+ ")")
  else if (threshold_80 limit <? minute_count)%Z then
    matched "rate-limit" "rate-approaching" (f64_of_Z 1) SevNotice
      ("Approaching rate limit: " +:+ fmt_Z minute_count +:+ " '" +:+ category
        +:+ "' calls/min (limit: " +:+ fmt_Z (rl_max_per_minute limit) +:+ ")")
  else no_match "rate-limit".

(** The limit that applies to a call, and [None] when the call is neither
    recorded nor scored. *)
Definition applicable_limit (f : RateLimitFilter) (ctx : ToolCallContext) : option RateLimit :=
  match rl_limits f !! classify_call (ctx_call_type ctx) with
  | None => None
  | Some limit =>
      if rl_risk_gated_burst f && negb (is_burst_risk_relevant ctx) then None else Some limit
  end.

Definition evaluate_at (f : RateLimitFilter) (ctx : ToolCallContext) (now : Instant)
    (ws : Windows) : option (FilterResult * Windows) :=
  let category := classify_call (ctx_call_type ctx) in
  match applicable_limit f ctx with
  | None => Some (no_match "rate-limit", ws)
  | Some limit =>
      '(minute_count, burst_count, ws) ← record_and_count (window_key ctx category) now ws;
      Some (score_counts limit category minute_count burst_count, ws)
  end.

Definition evict_windows (scope : SessionScopeKey) (ws : Windows) : nat * Windows :=
  let prefix := Uuid_to_string (scope_uuid scope) +:+ nul in
  let ws' := filter (λ kv, starts_with prefix kv.1 = false) ws in
  (size ws - size ws', ws').

(** The filter as the engine sees it: [get] and [set] find its windows in the
    filters' state.  A panic of the clock arithmetic is outside the interface
    and stands for an error here. *)
Definition rate_limit_filter {FS} (f : RateLimitFilter) (clock : nat → Instant)
    (get : FS → Windows) (set : Windows → FS → FS) : SecurityFilter FS :=
  let put (ws : Windows) (w : World FS) : World FS :=
    {| w_filters := set ws (w_filters w); w_sessions := w_sessions w; w_tick := w_tick w |} in
  {| sf_name := "rate-limit";
     sf_phase := Context_;
     sf_is_ready _ := true;
     sf_evaluate ctx w :=
       let '(t, w) := now clock w in
       match evaluate_at f ctx t (get (w_filters w)) with
       | Some (r, ws) => (Some r, put ws w)
       | None => (None, w)
       end;
     sf_evict_session_state scope w :=
       let '(n, ws) := evict_windows scope (get (w_filters w)) in (n, put ws w);
     sf_observe_outcome _ _ _ w := w |}.

(** ** Lemmas *)

Lemma instant_sub_ok now d :
  (instant_min + d <= now)%Z → instant_checked_sub now d = Some (now - d)%Z.
Proof. intros H. unfold instant_checked_sub. by destruct (Z.leb_spec instant_min (now - d)); [|lia]. Qed.

Lemma record_and_count_ok key now ws :
  (instant_min + from_secs 60 <= now)%Z →
  record_and_count key now ws =
  let ts := List.filter (at_or_after (now - from_secs 60)) (default [] (ws !! key) ++ [now]) in
  Some (as_u32 (Z.of_nat (length ts)),
        as_u32 (Z.of_nat (length (List.filter (at_or_after (now - from_secs 5)) ts))),
        <[key := ts]> ws).
Proof.
  intros H. unfold record_and_count. rewrite (instant_sub_ok now (from_secs 60)) by done. cbn.
  rewrite instant_sub_ok; [done|]. unfold from_secs, nanos_per_sec in *. lia.
Qed.

Lemma scope_window_key_inj `{!DepsLaws} s s' c c' :
  scope_window_key s c = scope_window_key s' c' → s = s' ∧ c = c'.
Proof.
  unfold scope_window_key. intros Heq.
  apply append_inj_length in Heq as [Hu Hc]; [|by rewrite !Uuid_to_string_length].
  apply append_inj_length in Hc as [_ Hc]; [|done].
  apply Uuid_to_string_inj in Hu. destruct s, s'; cbn in *. split; congruence.
Qed.

Lemma starts_with_scope `{!DepsLaws} s s' c :
  starts_with (Uuid_to_string (scope_uuid s) +:+ nul) (scope_window_key s' c) = true ↔ s = s'.
Proof.
  rewrite starts_with_spec. split.
  - intros [r Hr]. rewrite append_assoc in Hr.
    by apply (scope_window_key_inj s' s c r) in Hr as [-> _].
  - intros <-. exists c. unfold scope_window_key. by rewrite append_assoc.
Qed.

Lemma filter_filter_weaker {A} (p q : A → bool) l :
  (∀ x, q x = true → p x = true) →
  List.filter q (List.filter p l) = List.filter q l.
Proof.
  intros H. induction l as [|x l IH]; cbn; [done|].
  destruct (p x) eqn:Ep; cbn; rewrite IH; [done|].
  destruct (q x) eqn:Eq; [|done]. by rewrite (H x Eq) in Ep.
Qed.

Lemma at_or_after_weaker s s' x : (s <= s')%Z → at_or_after s' x = true → at_or_after s x = true.
Proof. unfold at_or_after. rewrite !Z.leb_le. lia. Qed.

(** ** Reference: counting over the whole history *)

(** The times of the calls that count towards a window. *)
Definition history (f : RateLimitFilter) (calls : list (ToolCallContext * Instant)) (key : string) :
    list Instant :=
  omap (λ '(ctx, t),
    match applicable_limit f ctx with
    | Some _ => if String.eqb (window_key ctx (classify_call (ctx_call_type ctx))) key
                then Some t else None
    | None => None
    end) calls.

Definition recent (d : Duration) (now : Instant) (ts : list Instant) : Z :=
  Z.of_nat (length (List.filter (at_or_after (now - d)) ts)).

(** What the filter should answer to a call made after [calls]. *)
Definition reference_result (f : RateLimitFilter) (calls : list (ToolCallContext * Instant))
    (ctx : ToolCallContext) (now : Instant) : FilterResult :=
  let category := classify_call (ctx_call_type ctx) in
  match applicable_limit f ctx with
  | None => no_match "rate-limit"
  | Some limit =>
      let ts := history f calls (window_key ctx category) ++ [now] in
      score_counts limit category (as_u32 (recent (from_secs 60) now ts))
        (as_u32 (recent (from_secs 5) now ts))
  end.

Fixpoint run_calls (f : RateLimitFilter) (calls : list (ToolCallContext * Instant)) (ws : Windows) :
    option Windows :=
  match calls with
  | [] => Some ws
  | (ctx, t) :: calls' => '(_, ws) ← evaluate_at f ctx t ws; run_calls f calls' ws
  end.

(** The pruned windows agree with the history on every later minute. *)
Definition windows_agree (f : RateLimitFilter) (calls : list (ToolCallContext * Instant))
    (ws : Windows) (bound : Instant) : Prop :=
  ∀ key since, (bound - from_secs 60 <= since)%Z →
    List.filter (at_or_after since) (default [] (ws !! key))
    = List.filter (at_or_after since) (history f calls key).

Lemma history_snoc f calls ctx t key :
  history f (calls ++ [(ctx, t)]) key =
  history f calls key ++
    match applicable_limit f ctx with
    | Some _ => if String.eqb (window_key ctx (classify_call (ctx_call_type ctx))) key
                then [t] else []
    | None => []
    end.
Proof.
  unfold history. rewrite omap_app. f_equal. cbn.
  destruct (applicable_limit f ctx); [|done]. by destruct (String.eqb _ _).
Qed.

Lemma evaluate_at_agree f calls ws ctx now bound r ws' :
  windows_agree f calls ws bound → (bound <= now)%Z →
  (instant_min + from_secs 60 <= now)%Z →
  evaluate_at f ctx now ws = Some (r, ws') →
  r = reference_result f calls ctx now ∧ windows_agree f (calls ++ [(ctx, now)]) ws' now.
Proof.
  intros Hag Hb Hmin. unfold evaluate_at, reference_result, windows_agree.
  destruct (applicable_limit f ctx) as [limit|] eqn:El.
  - set (key := window_key ctx (classify_call (ctx_call_type ctx))).
    rewrite record_and_count_ok by done. cbn. intros [= <- <-].
    assert (Hkey : ∀ since, (now - from_secs 60 <= since)%Z →
      List.filter (at_or_after since) (default [] (ws !! key) ++ [now])
      = List.filter (at_or_after since) (history f calls key ++ [now])).
    { intros since Hs. rewrite !List.filter_app, (Hag key since); [done|lia]. }
    split.
    + unfold recent. rewrite !Hkey by lia.
      by rewrite (filter_filter_weaker (at_or_after (now - from_secs 60)))
        by (intros x; apply at_or_after_weaker; unfold from_secs, nanos_per_sec; lia).
    + intros key' since Hs. rewrite history_snoc, El. fold key.
      destruct (String.eqb_spec key key') as [<-|Hne].
      * rewrite lookup_insert_eq. cbn [default from_option id].
        rewrite filter_filter_weaker by (intros x; apply at_or_after_weaker; lia).
        by apply Hkey.
      * rewrite lookup_insert_ne, app_nil_r by done. apply Hag. lia.
  - intros [= <- <-]. split; [done|]. intros key since Hs.
    rewrite history_snoc, El, app_nil_r. apply Hag. lia.
Qed.

(** Times that never go back, above the clock's underflow bound. *)
Definition times_ok (calls : list (ToolCallContext * Instant)) : Prop :=
  ∀ pre c1 c2 post, calls = pre ++ c1 :: c2 :: post → (c1.2 <= c2.2)%Z.

Lemma run_calls_agree f calls done_ ws bound ws' :
  windows_agree f done_ ws bound →
  (instant_min + from_secs 60 <= bound)%Z →
  (∀ c calls', calls = c :: calls' → (bound <= c.2)%Z) → times_ok calls →
  run_calls f calls ws = Some ws' →
  windows_agree f (done_ ++ calls) ws' (default bound (snd <$> last calls)).
Proof.
  revert done_ ws bound. induction calls as [|[ctx t] calls IH]; intros done_ ws bound Hag Hmin Hhd Hok; cbn.
  - intros [= <-]. by rewrite app_nil_r.
  - specialize (Hhd _ _ eq_refl). cbn in Hhd.
    destruct (evaluate_at f ctx t ws) as [[r ws1]|] eqn:E; cbn; [|done]. intros Hrun.
    destruct (evaluate_at_agree f done_ ws ctx t bound r ws1 Hag Hhd ltac:(lia) E) as [_ Hag1].
    replace (done_ ++ (ctx, t) :: calls) with ((done_ ++ [(ctx, t)]) ++ calls)
      by by rewrite <- app_assoc.
    assert (H := IH (done_ ++ [(ctx, t)]) ws1 t Hag1 ltac:(lia)).
    replace (default bound (snd <$> last ((ctx, t) :: calls))) with (default t (snd <$> last calls))
      by by destruct calls as [|c calls]; [|rewrite last_cons_cons; by destruct (last (c :: calls)) eqn:El;
           [|apply last_None in El]].
    apply H; [| |done].
    + intros c calls' ->. by apply (Hok [] (ctx, t) c calls').
    + intros pre c1 c2 post ->. by apply (Hok ((ctx, t) :: pre) c1 c2 post).
Qed.

Lemma evaluate_at_total f ctx now ws :
  (instant_min + from_secs 60 <= now)%Z → is_Some (evaluate_at f ctx now ws).
Proof.
  intros H. unfold evaluate_at. destruct (applicable_limit f ctx); [|by eexists].
  rewrite record_and_count_ok by done. by eexists.
Qed.
End RateLimit.

(** ** Properties *)

Section Properties.
Context `{D : Deps}.

Lemma run_calls_total f calls ws :
  Forall (λ c, instant_min + from_secs 60 <= c.2)%Z calls → is_Some (run_calls f calls ws).
Proof.
  intros Hc. revert ws. induction Hc as [|[ctx t] calls Ht _ IH]; intros ws; cbn; [by eexists|].
  destruct (evaluate_at_total f ctx t ws Ht) as [[r ws1] ->]. cbn. apply IH.
Qed.

Lemma times_ok_app_l calls calls' : times_ok (calls ++ calls') → times_ok calls.
Proof.
  intros H pre c1 c2 post ->. apply (H pre c1 c2 (post ++ calls')). by rewrite <- app_assoc.
Qed.

(** The pruned windows count exactly the recent history.  For calls whose
    times never go back, evaluation never panics, and the answer to each call is
    the one computed from the complete list of counted calls of its session and
    category: those of the last minute and of the last five seconds. *)
Theorem rate_limit_refines_history f calls ctx now
    (Hmin : Forall (λ c, instant_min + from_secs 60 <= c.2)%Z (calls ++ [(ctx, now)]))
    (Htimes : times_ok (calls ++ [(ctx, now)])) :
  ∃ ws ws', run_calls f calls ∅ = Some ws
    ∧ evaluate_at f ctx now ws = Some (reference_result f calls ctx now, ws').
Proof.
  apply Forall_app in Hmin as [Hmin Hnow]. apply Forall_cons_1 in Hnow as [Hnow _]. cbn in Hnow.
  destruct (run_calls_total f calls ∅ Hmin) as [ws Hws].
  destruct (evaluate_at_total f ctx now ws Hnow) as [[r ws'] Hev].
  exists ws, ws'. split; [done|].
  assert (H0 : windows_agree f [] ∅ (instant_min + from_secs 60)) by done.
  assert (Hag := run_calls_agree f calls [] ∅ _ ws H0 ltac:(lia)).
  destruct (evaluate_at_agree f calls ws ctx now (default (instant_min + from_secs 60)%Z
    (snd <$> last calls)) r ws') as [-> _]; [| |done..].
  - apply Hag; [|by eapply times_ok_app_l|done].
    intros c calls' ->. by apply Forall_cons_1 in Hmin as [Hc _].
  - destruct (last calls) as [c|] eqn:El; [|done]. cbn.
    apply last_Some in El as [pre ->]. rewrite <- app_assoc in Htimes.
    by apply (Htimes pre c (ctx, now) []).
Qed.

(** Evicting a session removes exactly its own windows: every category of
    the session is forgotten and every window of another session is kept. *)
Theorem evict_windows_exact `{!DepsLaws} scope scope' category ws :
  (evict_windows scope ws).2 !! scope_window_key scope' category
  = if decide (scope = scope') then None else ws !! scope_window_key scope' category.
Proof.
  unfold evict_windows; cbn [snd]. destruct (decide (scope = scope')) as [->|Hne].
  - apply map_lookup_filter_None. right. intros x _; cbn.
    by rewrite (proj2 (starts_with_scope scope' scope' category) eq_refl).
  - destruct (ws !! _) as [ts|] eqn:E.
    + apply map_lookup_filter_Some. split; [done|]. cbn. apply not_true_is_false.
      intros Hs%starts_with_scope. done.
    + apply map_lookup_filter_None. by left.
Qed.

(** A call's rate is charged to its own session and category only. *)
Theorem evaluate_at_isolated `{!DepsLaws} f ctx now ws r ws' scope category
    (Hev : evaluate_at f ctx now ws = Some (r, ws'))
    (Hother : scope ≠ scope_or_warn ctx ∨ category ≠ classify_call (ctx_call_type ctx)) :
  ws' !! scope_window_key scope category = ws !! scope_window_key scope category.
Proof.
  unfold evaluate_at in Hev. destruct (applicable_limit f ctx); [|by injection Hev as _ <-].
  unfold record_and_count in Hev. destruct (instant_checked_sub now (from_secs 60)); [cbn in Hev|done].
  destruct (instant_checked_sub now (from_secs 5)); [cbn in Hev|done]. injection Hev as _ <-.
  apply lookup_insert_ne. unfold window_key. intros Heq.
  apply scope_window_key_inj in Heq as [Hs Hc]. by destruct Hother as [[]|[]].
Qed.

(** With the production limits, outbound connections and process spawns
    are never counted nor scored, with or without the risk gate, whatever the
    volume: no limit is configured for their categories. *)
Theorem default_limits_ignore_connects ctx gated now ws
    (Hcall : match ctx_call_type ctx with
             | NetConnect _ _ | ProcessSpawn _ _ => True | _ => False end) :
  evaluate_at (with_risk_gated_burst gated rate_limit_defaults) ctx now ws
  = Some (no_match "rate-limit", ws).
Proof.
  unfold evaluate_at, applicable_limit. destruct (ctx_call_type ctx); try done; reflexivity.
Qed.

End Properties.

Module Example_rate_limit.
#[local] Instance example_deps : Deps := concrete_deps.
Definition delete_call (session : Uuid) : ToolCallContext :=
  ToolCallContext_new uuid_a 0%Z "p" (FileDelete "/tmp/x") session.
Definition connect_call : ToolCallContext :=
  ToolCallContext_new uuid_a 0%Z "p" (NetConnect "10.0.0.1" 22) uuid_a.
End Example_rate_limit.

(** Four deletions in four seconds are counted, and the fifth is a burst. *)
Lemma rate_limit_refines_history_witness :
  let D := concrete_deps in
  let c := Example_rate_limit.delete_call uuid_a in
  let calls := [(c, from_secs 100); (c, from_secs 101); (c, from_secs 102); (c, from_secs 103)] in
  (∃ ws ws', run_calls rate_limit_defaults calls ∅ = Some ws
    ∧ evaluate_at rate_limit_defaults c (from_secs 104) ws
      = Some (reference_result rate_limit_defaults calls c (from_secs 104), ws'))
  ∧ fr_rule_id (reference_result rate_limit_defaults calls c (from_secs 104)) = "burst-detected".
Proof.
  intros D c calls. split; [|vm_compute; reflexivity].
  apply (rate_limit_refines_history (D := concrete_deps) rate_limit_defaults calls c (from_secs 104)).
  - do 5 (apply Forall_cons_2; [vm_compute; discriminate|]). apply Forall_nil_2.
  - intros [|? [|? [|? [|? [|? pre]]]]] c1 c2 post [=]; subst;
      first [vm_compute; discriminate|by destruct pre].
Defined.

Lemma evict_windows_exact_witness :
  let D := concrete_deps in
  let ws := <[scope_window_key (from_session_id uuid_b) "file_read" := [5%Z]]> (∅ : Windows) in
  (evict_windows (from_session_id uuid_a) ws).2
    !! scope_window_key (from_session_id uuid_b) "file_read" = Some [5%Z].
Proof.
  intros D ws.
  refine (eq_trans (@evict_windows_exact concrete_deps concrete_deps_laws
    (from_session_id uuid_a) (from_session_id uuid_b) "file_read" ws) _).
  vm_compute. reflexivity.
Defined.

Lemma evaluate_at_isolated_witness :
  let D := concrete_deps in
  let ws := <[scope_window_key (from_session_id uuid_b) "file_delete" := [5%Z]]> (∅ : Windows) in
  ∃ r ws', evaluate_at rate_limit_defaults (Example_rate_limit.delete_call uuid_a) 10%Z ws
             = Some (r, ws')
    ∧ ws' !! scope_window_key (from_session_id uuid_b) "file_delete"
      = ws !! scope_window_key (from_session_id uuid_b) "file_delete".
Proof.
  intros D ws.
  destruct (evaluate_at_total (D := concrete_deps) rate_limit_defaults
    (Example_rate_limit.delete_call uuid_a) 10 ws ltac:(vm_compute; discriminate)) as [[r ws'] E].
  exists r, ws'. split; [exact E|].
  apply (@evaluate_at_isolated concrete_deps concrete_deps_laws rate_limit_defaults
    (Example_rate_limit.delete_call uuid_a) 10%Z ws r ws' (from_session_id uuid_b) "file_delete" E).
  left. intros [= Heq].
Defined.

Lemma default_limits_ignore_connects_witness :
  evaluate_at (D := concrete_deps) (with_risk_gated_burst true rate_limit_defaults)
    Example_rate_limit.connect_call 5 ∅ = Some (no_match "rate-limit", ∅).
Proof.
  exact (default_limits_ignore_connects (D := concrete_deps) Example_rate_limit.connect_call
    true 5 ∅ I).
Defined.
