(* ===== verification/OperationRisk.v ===== *)
(** * The operation-risk filter

    [crates/grith-proxy/src/filters/operation_risk.rs]: the baseline score of
    each kind of call, and the routine-spawn signal that lowers a process spawn
    whose binary was pinned at session start. *)

From S2P Require Import Prelude Concrete F64 Types Scoring SessionState Filters Engine.

Definition ROUTINE_SPAWN_SCORE : f64 := f64_dec 5 1.
Definition NON_ROUTINE_SPAWN_SCORE : f64 := f64_of_Z 1.
Definition ROUTINE_SPAWN_RULE_ID : string := "process-spawn-routine".
Definition NON_ROUTINE_SPAWN_RULE_ID : string := "process-spawn-baseline".

Definition is_body_bearing_http_method (method : string) : bool :=
  str_mem (to_ascii_uppercase (trim method)) ["POST"; "PUT"; "PATCH"].

(** The value of [GRITH_PROXY_ROUTINE_SIGNAL_ENABLED], as text, if it is set. *)
Definition routine_signal_env_override (var : option string) : option bool :=
  match var with
  | None => None
  | Some s =>
      if String.eqb s "" then None
      else Some (negb (eq_ignore_ascii_case s "0") && negb (eq_ignore_ascii_case s "false")
                 && negb (eq_ignore_ascii_case s "no"))
  end.

Definition effective_routine_signal_enabled (config : bool) (var : option string) : bool :=
  match routine_signal_env_override var with
  | Some value => value
  | None => config
  end.

Definition provenance_qualifies (prov : SpawnProvenance) : bool :=
  match sp_matched_routine_root prov with
  | None => false
  | Some _ =>
      if sp_is_outbound_capable prov then false
      else negb (existsb (λ c, cw_world_writable c || cw_other_writable c
                               || cw_group_writable_non_root c)
                   (sp_component_writability prov))
  end.

Section OperationRisk.
Context `{D : Deps}.

Definition inventory_pins_canonical (sessions : SessionStateRegistry) (ctx : ToolCallContext)
    (prov : SpawnProvenance) : bool :=
  match ctx_session_scope ctx with
  | None => false
  | Some scope =>
      match registry_cell scope sessions with
      | None => false
      | Some state =>
          match ss_pinned_inventory state with
          | None => false
          | Some inventory => inv_contains inventory (sp_canonical_path prov) (sp_sha256 prov)
          end
      end
  end.

Definition has_routine_signal (sessions : SessionStateRegistry) (ctx : ToolCallContext)
    (enabled : bool) : bool :=
  if negb enabled then false
  else
    match ctx_spawn_provenance ctx with
    | None => false
    | Some prov =>
        if negb (provenance_qualifies prov) then false
        else inventory_pins_canonical sessions ctx prov
    end.

Definition operation_risk_for_spawn (sessions : SessionStateRegistry) (ctx : ToolCallContext)
    (enabled : bool) : f64 :=
  if has_routine_signal sessions ctx enabled then ROUTINE_SPAWN_SCORE
  else NON_ROUTINE_SPAWN_SCORE.

Definition with_args (command : string) (args : list string) : string :=
  if decide (args = []) then command else command +:+ " " +:+ join " " args.

(** The setuid and setgid bits, [0o6000]. *)
Definition SETID_BITS : Z := 3072.

(** Score, rule, severity and message; [None] for the safe reads. *)
Definition operation_baseline (sessions : SessionStateRegistry) (enabled : bool)
    (ctx : ToolCallContext) : option (f64 * string * Severity * string) :=
  match ctx_call_type ctx with
  | FileRead _ | DirList _ => None
  | DirCreate path =>
      Some (f64_dec 2 1, "dir-create-baseline", SevNotice, "Directory creation: " +:+ path)
  | FileAppend path =>
      Some (f64_dec 3 1, "file-append-baseline", SevNotice, "File append: " +:+ path)
  | FileRename old_path new_path =>
      Some (f64_dec 3 1, "file-rename-baseline", SevNotice,
            "File rename: " +:+ old_path +:+ " -> " +:+ new_path)
  | FileLink target link_path symbolic =>
      Some (f64_dec 5 1,
            if symbolic then "symlink-create-baseline" else "hardlink-create-baseline", SevNotice,
            (if symbolic then "Symbolic" else "Hard") +:+ " link created: " +:+ link_path
              +:+ " -> " +:+ target)
  | FileWrite path _ =>
      Some (f64_dec 5 1, "file-write-baseline", SevNotice, "File write: " +:+ path)
  | HttpRequest method url =>
      if is_body_bearing_http_method method then
        Some (f64_of_Z 1, "http-write-request-baseline", SevNotice,
              "HTTP " +:+ method +:+ " request (carries body): " +:+ url)
      else
        Some (f64_dec 5 1, "http-request-baseline", SevNotice,
              "HTTP request: " +:+ method +:+ " " +:+ url)
  | NetConnect address port =>
      if starts_with "unix:" address then
        Some (f64_dec 5 1, "unix-socket-connect-baseline", SevNotice,
              "Unix socket connection: " +:+ address)
      else
        Some (f64_dec 5 1, "net-connect-baseline", SevNotice,
              "Network connection: " +:+ address +:+ ":" +:+ fmt_Z port)
  | ShellExec command args =>
      Some (f64_of_Z 1, "shell-exec-baseline", SevNotice,
            "Shell execution: " +:+ with_args command args)
  | ProcessSpawn command args =>
      let score := operation_risk_for_spawn sessions ctx enabled in
      Some (score,
            if f64_lt score NON_ROUTINE_SPAWN_SCORE then ROUTINE_SPAWN_RULE_ID
            else NON_ROUTINE_SPAWN_RULE_ID,
            SevNotice, "Process spawn: " +:+ with_args command args)
  | FileDelete path =>
      Some (f64_of_Z 1, "file-delete-baseline", SevWarning, "File deletion: " +:+ path)
  | FileChmod path mode =>
      if negb (Z.land mode SETID_BITS =? 0)%Z then
        Some (f64_of_Z 5, "file-chmod-setuid", SevError,
              "setuid/setgid permission change: " +:+ path +:+ " (mode " +:+ fmt_octal mode
                +:+ ")")
      else
        Some (f64_of_Z 1, "file-chmod-baseline", SevWarning,
              "Permission change: " +:+ path +:+ " (mode " +:+ fmt_octal mode +:+ ")")
  | NetListen address port =>
      Some (f64_dec 5 1, "net-listen-baseline", SevNotice,
            "Network listen: " +:+ address +:+ ":" +:+ fmt_Z port)
  | DnsQuery domain query_type =>
      Some (f64_dec 5 1, "dns-query-baseline", SevNotice,
            "DNS query: " +:+ domain +:+ " (" +:+ query_type +:+ ")")
  | OwnershipChange target new_uid new_gid =>
      Some (f64_of_Z 5, "ownership-change-baseline", SevWarning,
            "Ownership change: target=" +:+ target +:+ " uid=" +:+ fmt_Z new_uid +:+ " gid="
              +:+ fmt_Z new_gid)
  | FilesystemMutation op source target fstype =>
      Some (f64_of_Z 5, "filesystem-mutation-baseline", SevWarning,
            "Filesystem mutation: op=" +:+ op +:+ " src=" +:+ or_str source "" +:+ " target="
              +:+ target +:+ " fstype=" +:+ or_str fstype "")
  | CrossProcessAccess op target_pid =>
      Some (f64_of_Z 5, "cross-process-access-baseline", SevWarning,
            "Cross-process access: op=" +:+ op +:+ " target_pid=" +:+ fmt_Z target_pid)
  | NamespaceOp syscall flags =>
      Some (f64_of_Z 5, "namespace-op-baseline", SevWarning,
            "Namespace primitive: " +:+ syscall +:+ " flags=" +:+ fmt_hex flags)
  | DbusMethodCall socket destination interface member =>
      let call := match interface, member with
                  | Some iface, Some m => iface +:+ "." +:+ m
                  | None, Some m => m
                  | Some iface, None => iface
                  | None, None => "(unnamed)"
                  end in
      Some (f64_of_Z 5, "dbus-method-call-undeclared", SevWarning,
            "Undeclared D-Bus method call on " +:+ socket +:+ ": "
              +:+ or_str destination "(no destination)" +:+ " → " +:+ call)
  end.

Definition operation_risk_evaluate (sessions : SessionStateRegistry) (enabled : bool)
    (ctx : ToolCallContext) : FilterResult :=
  match operation_baseline sessions enabled ctx with
  | None => no_match "operation-risk"
  | Some (score, rule_id, severity, message) =>
      matched "operation-risk" rule_id score severity message
  end.

(** The filter as the engine sees it; [var] is the environment variable. *)
Definition operation_risk_filter {FS} (config : bool) (var : option string) : SecurityFilter FS := {|
  sf_name := "operation-risk";
  sf_phase := Static;
  sf_is_ready _ := true;
  sf_evaluate ctx w :=
    (Some (operation_risk_evaluate (w_sessions w)
             (effective_routine_signal_enabled config var) ctx), w);
  sf_evict_session_state _ w := (0, w);
  sf_observe_outcome _ _ _ w := w;
|}.

(** ** Lemmas *)

Lemma operation_risk_for_spawn_cases sessions ctx enabled :
  operation_risk_for_spawn sessions ctx enabled = ROUTINE_SPAWN_SCORE
  ∨ operation_risk_for_spawn sessions ctx enabled = NON_ROUTINE_SPAWN_SCORE.
Proof. unfold operation_risk_for_spawn. destruct (has_routine_signal _ _ _); auto. Qed.

(** The scores the filter can give. *)
Definition baseline_scores : list f64 :=
  [f64_zero; f64_dec 2 1; f64_dec 3 1; f64_dec 5 1; f64_of_Z 1; f64_of_Z 5].

(** Membership by syntactic identity of the scores. *)
Ltac in_scores := first [apply list_elem_of_here|apply list_elem_of_further; in_scores].

#[local] Opaque f64_dec f64_of_Z f64_zero.

Lemma operation_risk_score sessions enabled ctx :
  fr_score (operation_risk_evaluate sessions enabled ctx) ∈ baseline_scores.
Proof.
  unfold operation_risk_evaluate, operation_baseline, baseline_scores.
  destruct (ctx_call_type ctx) as [| | | | | |method url| | |path mode| |address port| | | | | | | |];
    cbn [matched no_match fr_score]; try solve [in_scores].
  - destruct (is_body_bearing_http_method method); in_scores.
  - destruct (negb _); in_scores.
  - destruct (starts_with _ address); in_scores.
  - destruct (operation_risk_for_spawn_cases sessions ctx enabled) as [->| ->];
      unfold ROUTINE_SPAWN_SCORE, NON_ROUTINE_SPAWN_SCORE; in_scores.
Qed.

#[local] Transparent f64_dec f64_of_Z f64_zero.

Lemma baseline_scores_ok :
  Forall (λ s, f64_valid s = true ∧ f64_le f64_zero s = true ∧ f64_le s (f64_of_Z 5) = true)
    baseline_scores.
Proof. repeat constructor. Qed.
End OperationRisk.

(** The filter meets the engine's requirement on scores. *)
Lemma operation_risk_filter_nonneg `{D : Deps} {FS} config var :
  filter_nonneg (operation_risk_filter (FS := FS) config var).
Proof.
  intros ctx w r [= <-].
  pose proof (operation_risk_score (w_sessions w)
    (effective_routine_signal_enabled config var) ctx) as Hin.
  pose proof baseline_scores_ok as Hok. rewrite Forall_forall in Hok.
  destruct (Hok _ Hin) as (Hv & Hz & _). by split.
Qed.

(** ** Properties *)

Section Properties.
Context `{D : Deps}.

(** The calls whose baseline alone asks for review. *)
Definition delegates_authority (t : ToolCallType) : bool :=
  match t with
  | FileChmod _ mode => negb (Z.land mode SETID_BITS =? 0)%Z
  | OwnershipChange _ _ _ | FilesystemMutation _ _ _ _ | CrossProcessAccess _ _
  | NamespaceOp _ _ | DbusMethodCall _ _ _ _ => true
  | _ => false
  end.

Lemma route_action_score s rs rs' t t' :
  pd_action (route_decision s rs SCORE_QUEUE_THRESHOLD SCORE_DENY_THRESHOLD t) = Allow ∨
  (∃ p, pd_action (route_decision s rs SCORE_QUEUE_THRESHOLD SCORE_DENY_THRESHOLD t) = Queue p) →
  pd_action (route_decision s rs SCORE_QUEUE_THRESHOLD SCORE_DENY_THRESHOLD t)
  = pd_action (route_decision s rs' SCORE_QUEUE_THRESHOLD SCORE_DENY_THRESHOLD t').
Proof.
  unfold route_decision. destruct (f64_gt s SCORE_DENY_THRESHOLD); [|by destruct (f64_gt s _)].
  cbn. by intros [|[]].
Qed.

(** The baseline alone never denies.  At the default thresholds, it asks
    for review (at medium priority) exactly for ownership changes, filesystem
    mutations, cross-process access, namespace primitives, undeclared D-Bus
    calls and mode changes that set a setuid or setgid bit, and allows every
    other call. *)
Theorem operation_risk_alone sessions enabled ctx t :
  let r := operation_risk_evaluate sessions enabled ctx in
  pd_action (route_decision (aggregate [r]) [r] SCORE_QUEUE_THRESHOLD SCORE_DENY_THRESHOLD t)
  = if delegates_authority (ctx_call_type ctx) then Queue Medium else Allow.
Proof.
  cbv zeta. unfold operation_risk_evaluate, operation_baseline, delegates_authority.
  destruct (ctx_call_type ctx) as [| | | | | |method url| | |path mode| |address port| | | | | | | |];
    try reflexivity.
  - by destruct (is_body_bearing_http_method method).
  - by destruct (negb _).
  - by destruct (starts_with _ address).
  - by destruct (operation_risk_for_spawn_cases sessions ctx enabled) as [->| ->].
Qed.

(** A spawn gets the routine baseline exactly when the signal is enabled,
    its binary lies under a routine root, cannot reach the network, has no
    component writable by others, and its canonical path is in the inventory
    pinned for the call's session with this very hash.  Anything missing (no
    scope, no session state, no inventory yet) leaves the full baseline. *)
Theorem routine_spawn_iff sessions enabled ctx command args
    (Hcall : ctx_call_type ctx = ProcessSpawn command args) :
  fr_rule_id (operation_risk_evaluate sessions enabled ctx) = ROUTINE_SPAWN_RULE_ID ↔
  enabled = true ∧ ∃ prov scope state inv expected,
    ctx_spawn_provenance ctx = Some prov
    ∧ is_Some (sp_matched_routine_root prov) ∧ sp_is_outbound_capable prov = false
    ∧ Forall (λ c, cw_world_writable c = false ∧ cw_other_writable c = false
                   ∧ cw_group_writable_non_root c = false) (sp_component_writability prov)
    ∧ ctx_session_scope ctx = Some scope ∧ registry_cell scope sessions = Some state
    ∧ ss_pinned_inventory state = Some inv
    ∧ inv_entries inv !! sp_canonical_path prov = Some expected
    ∧ eq_ignore_ascii_case expected (sp_sha256 prov) = true.
Proof.
  assert (Hrule : fr_rule_id (operation_risk_evaluate sessions enabled ctx) = ROUTINE_SPAWN_RULE_ID
                  ↔ has_routine_signal sessions ctx enabled = true).
  { unfold operation_risk_evaluate, operation_baseline. rewrite Hcall.
    unfold operation_risk_for_spawn. by destruct (has_routine_signal sessions ctx enabled). }
  rewrite Hrule. clear Hrule.
  unfold has_routine_signal, provenance_qualifies, inventory_pins_canonical, inv_contains.
  split.
  - destruct enabled; [cbn|done].
    destruct (ctx_spawn_provenance ctx) as [prov|]; [|done].
    destruct (sp_matched_routine_root prov) eqn:Eroot; [|done].
    destruct (sp_is_outbound_capable prov) eqn:Eout; [done|].
    destruct (existsb _ _) eqn:Ex; [done|]. cbn.
    destruct (ctx_session_scope ctx) as [scope|]; [|done].
    destruct (registry_cell scope sessions) as [state|] eqn:Ecell; [|done].
    destruct (ss_pinned_inventory state) as [inv|] eqn:Einv; [|done].
    destruct (inv_entries inv !! _) as [expected|] eqn:Ehash; [|done]. intros Hhash.
    split; [done|]. exists prov, scope, state, inv, expected.
    split_and!; first [done|by rewrite Eroot|idtac].
    apply existsb_false_Forall in Ex. eapply Forall_impl; [exact Ex|].
    by intros c [[]%orb_false_iff ?]%orb_false_iff.
  - intros (-> & prov & scope & state & inv & expected & -> & [root ->] & -> & Hsafe & -> & -> & -> & -> & Hh).
    cbn. replace (existsb _ _) with false; [done|]. symmetry. apply existsb_false_Forall.
    eapply Forall_impl; [exact Hsafe|]. by intros c (-> & -> & ->).
Qed.

End Properties.

(** A pinned compiler, spawned with an upper-case rendering of its hash. *)
Lemma routine_spawn_iff_witness :
  let D := concrete_deps in
  let scope := from_session_id uuid_a in
  let inv := from_entries [("/usr/bin/cc", "ab12")] in
  let sessions := with_cell 0 (set_pinned_inventory inv) (get_or_create 5 scope registry_new).2 in
  let prov := {| sp_canonical_path := "/usr/bin/cc"; sp_sha256 := "AB12"; sp_owner_uid := 0;
    sp_owner_gid := 0; sp_mode := 493; sp_component_writability := [];
    sp_matched_routine_root := Some "/usr/bin"; sp_is_outbound_capable := false |} in
  let ctx : ToolCallContext := {| ctx_id := uuid_a; ctx_timestamp := 0%Z; ctx_plugin_id := "p";
    ctx_call_type := ProcessSpawn "cc" ["-c"; "x.c"]; ctx_arguments := JNull;
    ctx_session_id := uuid_a; ctx_task_context := None; ctx_call_sequence_number := 0;
    ctx_source_taint := TaintNone; ctx_profile_name := None; ctx_conversation_id := None;
    ctx_session_scope := Some scope; ctx_spawn_provenance := Some prov;
    ctx_listener_policy_match := None; ctx_bind_protocol := None |} in
  fr_rule_id (operation_risk_evaluate sessions true ctx) = ROUTINE_SPAWN_RULE_ID.
Proof.
  intros D scope inv sessions prov ctx.
  apply (proj2 (routine_spawn_iff (D := concrete_deps) sessions true ctx "cc" ["-c"; "x.c"] eq_refl)).
  split; [reflexivity|]. exists prov, scope,
    (set_pinned_inventory inv (touch 5 (SessionState_new 5 scope))), inv, "ab12".
  split_and!; try reflexivity; [by eexists|apply Forall_nil_2].
Defined.
