(* ===== verification/EgressRate.v ===== *)
(** * The egress-rate filter

    [crates/grith-proxy/src/filters/egress_rate.rs]: per-session windows of
    outbound calls.  [evaluate_at] reads the committed history with the call in
    flight as a hypothetical; only [observe_outcome_at] writes, once the call's
    fate is known.  Unicode lower-casing is a parameter. *)

From Stdlib Require Import Ascii SpecFloat.
From S2P Require Import Prelude Concrete F64 Types Scoring SessionState Filters.

Record EgressRateConfig := {
  ec_enabled : bool;
  ec_max_egress_per_minute : Z;
  ec_max_unique_destinations_per_minute : Z;
  ec_max_unique_ports_per_minute : Z;
  ec_burst_threshold : Z;
  ec_burst_window_seconds : Z;
  ec_cooldown_seconds : Z;
  ec_read_spike_threshold : Z;
  ec_read_window_seconds : Z;
  ec_read_then_send_egress_threshold : Z;
  ec_blocked_spread_notice_threshold : Z;
  ec_blocked_spread_warning_threshold : Z;
  ec_blocked_spread_max_score : f64;
}.

Definition EgressRateConfig_default : EgressRateConfig := {|
  ec_enabled := true;
  ec_max_egress_per_minute := 30;
  ec_max_unique_destinations_per_minute := 10;
  ec_max_unique_ports_per_minute := 8;
  ec_burst_threshold := 8;
  ec_burst_window_seconds := 10;
  ec_cooldown_seconds := 30;
  ec_read_spike_threshold := 10;
  ec_read_window_seconds := 15;
  ec_read_then_send_egress_threshold := 3;
  ec_blocked_spread_notice_threshold := 3;
  ec_blocked_spread_warning_threshold := 6;
  ec_blocked_spread_max_score := f64_of_Z 2;
|}.

Definition RETENTION_WINDOW : Duration := from_secs 60.

(** [instant_sub]: the instant itself when the subtraction underflows. *)
Definition instant_sub (instant : Instant) (duration : Duration) : Instant :=
  default instant (instant_checked_sub instant duration).

(** [{:.0}] of a score or a number of seconds. *)
Definition f64_fmt0 (x : f64) : string :=
  let sign (s : bool) : string := if s then "-" else "" in
  match x with
  | S754_nan => "NaN"
  | S754_infinity s => sign s +:+ "inf"
  | S754_zero s => sign s +:+ "0"
  | S754_finite s m e =>
      sign s +:+ fmt_Z (if (0 <=? e)%Z then (Zpos m * 2 ^ e)%Z
                        else div_half_even (Zpos m) (2 ^ (- e)))
  end.

(** [Duration::as_secs_f64] *)
Definition as_secs_f64 (d : Duration) : f64 :=
  f64_add (f64_of_Z (d / nanos_per_sec))
    (f64_div (f64_of_Z (d mod nanos_per_sec)) (f64_of_Z nanos_per_sec)).

(** A refused destination: host and port. *)
Abbreviation AttemptKey := (option string * option Z)%type.

Record EgressCandidate := {
  cand_is_egress : bool;
  cand_routine : bool;
  cand_host : option string;
  cand_port : option Z;
}.

Definition counts_volumetric (c : EgressCandidate) : bool :=
  cand_is_egress c && negb (cand_routine c).

Record SessionEgressState := {
  es_attempted_egress_timestamps : list Instant;
  es_delivered_egress_timestamps : list Instant;
  es_delivered_destinations : list (string * Instant);
  es_delivered_ports : list (Z * Instant);
  es_executed_read_timestamps : list Instant;
  es_blocked_attempts : gmap AttemptKey Instant;
  es_cooldown_until : option Instant;
}.

Definition SessionEgressState_new : SessionEgressState := {|
  es_attempted_egress_timestamps := [];
  es_delivered_egress_timestamps := [];
  es_delivered_destinations := [];
  es_delivered_ports := [];
  es_executed_read_timestamps := [];
  es_blocked_attempts := ∅;
  es_cooldown_until := None;
|}.

Definition since (cutoff t : Instant) : bool := (cutoff <=? t)%Z.

Definition prune (now : Instant) (retention : Duration) (s : SessionEgressState) :
    SessionEgressState :=
  let cutoff := instant_sub now retention in
  {| es_attempted_egress_timestamps :=
       List.filter (since cutoff) (es_attempted_egress_timestamps s);
     es_delivered_egress_timestamps :=
       List.filter (since cutoff) (es_delivered_egress_timestamps s);
     es_delivered_destinations :=
       List.filter (λ x, since cutoff x.2) (es_delivered_destinations s);
     es_delivered_ports := List.filter (λ x, since cutoff x.2) (es_delivered_ports s);
     es_executed_read_timestamps :=
       List.filter (since cutoff) (es_executed_read_timestamps s);
     es_blocked_attempts := filter (λ kv, since cutoff kv.2 = true) (es_blocked_attempts s);
     es_cooldown_until :=
       match es_cooldown_until s with
       | Some until => if (until <=? now)%Z then None else Some until
       | None => None
       end |}.

(** [.filter(..).count() as u32 + u32::from(b)], wrapping as release builds do. *)
Definition count_u32 {A} (p : A → bool) (l : list A) (extra : bool) : Z :=
  as_u32 (as_u32 (Z.of_nat (length (List.filter p l))) + (if extra then 1 else 0)).

(** ** URLs *)

Definition url_authority (url : string) : option string :=
  match split_str "://" url with
  | _ :: rest :: _ =>
      Some (after_last "@"%char (default rest (head (split_on "/"%char rest))))
  | _ => None
  end.

Definition scheme_default_port (url : string) : option Z :=
  match split_str "://" url with
  | scheme :: _ =>
      if str_mem scheme ["https"; "wss"] then Some 443%Z
      else if str_mem scheme ["http"; "ws"] then Some 80%Z
      else None
  | [] => None
  end.

Definition parse_u16 (s : string) : option Z := parse_unsigned 65535 s.

(** Reads before the connection, connections of the window, the higher score. *)
Definition select_higher `{Deps} (current next : option FilterResult) : option FilterResult :=
  match current, next with
  | None, rhs => rhs
  | lhs, None => lhs
  | Some lhs, Some rhs => if f64_gt (fr_score rhs) (fr_score lhs) then Some rhs else Some lhs
  end.

Section EgressRate.
Context `{D : Deps}.
Variable to_lowercase : string → string.

Definition normalize_domain_set (values : list string) : gset string :=
  list_to_set (List.filter (λ v, negb (String.eqb v ""))
    (map (λ v, to_lowercase (trim_start_matches "." (trim_start_matches "*." (trim v)))) values)).

Definition host_in_domain_set (domains : gset string) (host : string) : bool :=
  let host := to_lowercase host in
  existsb (λ domain, String.eqb host domain || ends_with ("." +:+ domain) host)
    (elements domains).

Record EgressRateFilter := {
  ef_config : EgressRateConfig;
  ef_trusted_domains : gset string;
  ef_profile_trusted : gmap string (gset string);
}.

Definition from_config_with_trust `{HashIter} (config : EgressRateConfig)
    (trusted_domains : list string) (profile_trusted_domains : gmap string (list string)) :
    EgressRateFilter := {|
  ef_config := config;
  ef_trusted_domains := normalize_domain_set trusted_domains;
  ef_profile_trusted :=
    fold_left (λ m e, <[to_lowercase e.1 := normalize_domain_set e.2]> m)
      (hash_iter profile_trusted_domains) ∅;
|}.

(** ** Classification of a call *)

Definition is_egress (ctx : ToolCallContext) : bool :=
  match ctx_call_type ctx with
  | HttpRequest _ _ => true
  | NetConnect _ _ => negb (bool_decide (unix_socket_class ctx = Some Control))
  | _ => false
  end.

Definition is_source_read (t : ToolCallType) : bool :=
  match t with FileRead _ => true | _ => false end.

Definition extract_destination_host (ctx : ToolCallContext) : option string :=
  match ctx_call_type ctx with
  | HttpRequest _ url =>
      authority ← url_authority url;
      let host :=
        if starts_with "[" authority then
          String.substring 1 (String.length authority) (default "" (head (split_on "]"%char authority)))
        else match rsplit_once ":"%char authority with Some (h, _) => h | None => authority end in
      Some (to_lowercase host)
  | NetConnect address _ => Some (to_lowercase address)
  | _ => None
  end.

(** [nth(1)?] on a bracketed host without its closing bracket returns before
    the scheme's default applies. *)
Definition extract_destination_port (t : ToolCallType) : option Z :=
  match t with
  | HttpRequest _ url =>
      authority ← url_authority url;
      if starts_with "[" authority then
        after ← split_on "]"%char authority !! 1;
        match strip_prefix ":" after ≫= parse_u16 with
        | Some p => Some p
        | None => scheme_default_port url
        end
      else
        match ('(_, p) ← rsplit_once ":"%char authority; parse_u16 p) with
        | Some p => Some p
        | None => scheme_default_port url
        end
  | NetConnect _ port => Some port
  | _ => None
  end.

Definition is_routine_destination (f : EgressRateFilter) (ctx : ToolCallContext) : bool :=
  match extract_destination_host ctx with
  | None => false
  | Some host =>
      if host_in_domain_set (ef_trusted_domains f) host then true
      else
        match (name ← ctx_profile_name ctx; ef_profile_trusted f !! to_lowercase name) with
        | Some set => host_in_domain_set set host
        | None => false
        end
  end.

(** ** The checks *)

Section Checks.
Variable c : EgressRateConfig.

Definition er_matched (rule : string) (score : f64) (sev : Severity) (msg : string) :
    option FilterResult :=
  Some (matched "egress-rate" rule score sev msg).

Definition check_read_then_send (s : SessionEgressState) (cand : EgressCandidate) (now : Instant) :
    option FilterResult :=
  let start := instant_sub now (from_secs (ec_read_window_seconds c)) in
  let recent_reads := count_u32 (since start) (es_executed_read_timestamps s) false in
  let recent_egress :=
    count_u32 (since start) (es_attempted_egress_timestamps s) (cand_is_egress cand) in
  if ((ec_read_spike_threshold c <=? recent_reads)
      && (ec_read_then_send_egress_threshold c <=? recent_egress))%Z then
    er_matched "read-then-send-spike" (f64_of_Z 5) SevCritical
      ("Read-then-send spike: " +:+ fmt_Z recent_reads +:+ " reads + " +:+ fmt_Z recent_egress
        +:+ " egress in " +:+ fmt_Z (ec_read_window_seconds c) +:+ "s window")
  else None.

Definition check_burst (s : SessionEgressState) (cand : EgressCandidate) (now : Instant) :
    option FilterResult :=
  let start := instant_sub now (from_secs (ec_burst_window_seconds c)) in
  let burst_count :=
    count_u32 (since start) (es_delivered_egress_timestamps s) (counts_volumetric cand) in
  if (ec_burst_threshold c <=? burst_count)%Z then
    er_matched "egress-burst" (f64_of_Z 4) SevError
      ("Egress burst: " +:+ fmt_Z burst_count +:+ " outbound calls in "
        +:+ fmt_Z (ec_burst_window_seconds c) +:+ "s (threshold: "
        +:+ fmt_Z (ec_burst_threshold c) +:+ ")")
  else None.

Definition unique_with {A} `{Countable A} (start : Instant) (l : list (A * Instant))
    (extra : option A) : gset A :=
  list_to_set (map fst (List.filter (λ x, since start x.2) l)) ∪ list_to_set (option_list extra).

Definition check_dest_spread (s : SessionEgressState) (cand : EgressCandidate) (now : Instant) :
    option FilterResult :=
  let start := instant_sub now RETENTION_WINDOW in
  let n := Z.of_nat (size (unique_with start (es_delivered_destinations s)
             (if counts_volumetric cand then cand_host cand else None))) in
  if (ec_max_unique_destinations_per_minute c <? as_u32 n)%Z then
    er_matched "egress-dest-spread" (f64_of_Z 3) SevError
      ("Destination spread: " +:+ fmt_Z n +:+ " unique hosts/min (limit: "
        +:+ fmt_Z (ec_max_unique_destinations_per_minute c) +:+ ")")
  else None.

Definition check_port_spread (s : SessionEgressState) (cand : EgressCandidate) (now : Instant) :
    option FilterResult :=
  let start := instant_sub now RETENTION_WINDOW in
  let n := Z.of_nat (size (unique_with start (es_delivered_ports s)
             (if counts_volumetric cand then cand_port cand else None))) in
  if (ec_max_unique_ports_per_minute c <? as_u32 n)%Z then
    er_matched "egress-port-spread" (f64_dec 25 1) SevWarning
      ("Port spread: " +:+ fmt_Z n +:+ " unique ports/min (limit: "
        +:+ fmt_Z (ec_max_unique_ports_per_minute c) +:+ ")")
  else None.

Definition check_rate_exceeded (s : SessionEgressState) (cand : EgressCandidate) (now : Instant) :
    option FilterResult :=
  let start := instant_sub now RETENTION_WINDOW in
  let egress_count :=
    count_u32 (since start) (es_delivered_egress_timestamps s) (counts_volumetric cand) in
  if (ec_max_egress_per_minute c <? egress_count)%Z then
    er_matched "egress-rate-exceeded" (f64_of_Z 2) SevWarning
      ("Egress rate exceeded: " +:+ fmt_Z egress_count +:+ " outbound calls/min (limit: "
        +:+ fmt_Z (ec_max_egress_per_minute c) +:+ ")")
  else None.

Definition check_blocked_spread (s : SessionEgressState) (now : Instant) : option FilterResult :=
  let start := instant_sub now RETENTION_WINDOW in
  let distinct :=
    as_u32 (Z.of_nat (size (filter (λ kv, since start kv.2 = true) (es_blocked_attempts s)))) in
  if (distinct <? ec_blocked_spread_notice_threshold c)%Z then None
  else
    let '(score, severity) :=
      if (ec_blocked_spread_warning_threshold c <=? distinct)%Z
      then (ec_blocked_spread_max_score c, SevWarning)
      else (f64_of_Z 1, SevNotice) in
    er_matched "egress-blocked-spread" score severity
      ("Blocked-destination spread: " +:+ fmt_Z distinct
        +:+ " distinct refused destinations/min").

Definition check_cooldown (s : SessionEgressState) (now : Instant) : option FilterResult :=
  match es_cooldown_until s with
  | Some until =>
      if (now <? until)%Z then
        er_matched "egress-cooldown" (f64_dec 15 1) SevNotice
          ("Egress during cooldown (" +:+ f64_fmt0 (as_secs_f64 (until - now)) +:+ "s remaining)")
      else None
  | None => None
  end.

Definition maybe_arm_cooldown (at_ : Instant) (s : SessionEgressState) : SessionEgressState :=
  let start := instant_sub at_ (from_secs (ec_burst_window_seconds c)) in
  let delivered := count_u32 (since start) (es_delivered_egress_timestamps s) false in
  if (delivered <? ec_burst_threshold c)%Z then s
  else if (match es_cooldown_until s with Some until => at_ <? until | None => false end)%Z then s
  else
    {| es_attempted_egress_timestamps := es_attempted_egress_timestamps s;
       es_delivered_egress_timestamps := es_delivered_egress_timestamps s;
       es_delivered_destinations := es_delivered_destinations s;
       es_delivered_ports := es_delivered_ports s;
       es_executed_read_timestamps := es_executed_read_timestamps s;
       es_blocked_attempts := es_blocked_attempts s;
       es_cooldown_until := Some (at_ + from_secs (ec_cooldown_seconds c))%Z |}.

(** All seven, in the order they are compared. *)
Definition all_checks (s : SessionEgressState) (cand : EgressCandidate) (now : Instant) :
    list (option FilterResult) :=
  [check_read_then_send s cand now; check_burst s cand now; check_dest_spread s cand now;
   check_port_spread s cand now; check_rate_exceeded s cand now; check_blocked_spread s now;
   check_cooldown s now].
End Checks.

(** ** Evaluation and commit *)

Abbreviation EgressSessions := (gmap SessionScopeKey SessionEgressState).

Definition candidate (f : EgressRateFilter) (ctx : ToolCallContext) : EgressCandidate := {|
  cand_is_egress := true;
  cand_routine := is_routine_destination f ctx;
  cand_host := extract_destination_host ctx;
  cand_port := extract_destination_port (ctx_call_type ctx);
|}.

Definition er_evaluate_at (f : EgressRateFilter) (ctx : ToolCallContext) (now : Instant)
    (sessions : EgressSessions) : FilterResult :=
  if negb (is_egress ctx) || is_source_read (ctx_call_type ctx) then no_match "egress-rate"
  else
    let state := default SessionEgressState_new (sessions !! scope_or_warn ctx) in
    default (no_match "egress-rate")
      (fold_left select_higher (all_checks (ef_config f) state (candidate f ctx) now) None).

Definition push_read (at_ : Instant) (s : SessionEgressState) : SessionEgressState := {|
  es_attempted_egress_timestamps := es_attempted_egress_timestamps s;
  es_delivered_egress_timestamps := es_delivered_egress_timestamps s;
  es_delivered_destinations := es_delivered_destinations s;
  es_delivered_ports := es_delivered_ports s;
  es_executed_read_timestamps := es_executed_read_timestamps s ++ [at_];
  es_blocked_attempts := es_blocked_attempts s;
  es_cooldown_until := es_cooldown_until s;
|}.

Definition push_attempt (at_ : Instant) (s : SessionEgressState) : SessionEgressState := {|
  es_attempted_egress_timestamps := es_attempted_egress_timestamps s ++ [at_];
  es_delivered_egress_timestamps := es_delivered_egress_timestamps s;
  es_delivered_destinations := es_delivered_destinations s;
  es_delivered_ports := es_delivered_ports s;
  es_executed_read_timestamps := es_executed_read_timestamps s;
  es_blocked_attempts := es_blocked_attempts s;
  es_cooldown_until := es_cooldown_until s;
|}.

Definition push_delivered (at_ : Instant) (host : option string) (port : option Z)
    (s : SessionEgressState) : SessionEgressState := {|
  es_attempted_egress_timestamps := es_attempted_egress_timestamps s;
  es_delivered_egress_timestamps := es_delivered_egress_timestamps s ++ [at_];
  es_delivered_destinations :=
    es_delivered_destinations s ++ map (λ h, (h, at_)) (option_list host);
  es_delivered_ports := es_delivered_ports s ++ map (λ p, (p, at_)) (option_list port);
  es_executed_read_timestamps := es_executed_read_timestamps s;
  es_blocked_attempts := es_blocked_attempts s;
  es_cooldown_until := es_cooldown_until s;
|}.

Definition insert_blocked (at_ : Instant) (k : AttemptKey) (s : SessionEgressState) :
    SessionEgressState := {|
  es_attempted_egress_timestamps := es_attempted_egress_timestamps s;
  es_delivered_egress_timestamps := es_delivered_egress_timestamps s;
  es_delivered_destinations := es_delivered_destinations s;
  es_delivered_ports := es_delivered_ports s;
  es_executed_read_timestamps := es_executed_read_timestamps s;
  es_blocked_attempts := <[k := at_]> (es_blocked_attempts s);
  es_cooldown_until := es_cooldown_until s;
|}.

(** What an outcome commits to its session's (pruned) state. *)
Definition commit (f : EgressRateFilter) (ctx : ToolCallContext) (outcome : CallOutcome)
    (at_ : Instant) (s : SessionEgressState) : SessionEgressState :=
  if is_source_read (ctx_call_type ctx) then
    if executed outcome then push_read at_ s else s
  else
    let routine := is_routine_destination f ctx in
    let host := extract_destination_host ctx in
    let port := extract_destination_port (ctx_call_type ctx) in
    let s := if executed outcome || bool_decide (outcome = Denied) then push_attempt at_ s else s in
    let s := if executed outcome && negb routine
             then maybe_arm_cooldown (ef_config f) at_ (push_delivered at_ host port s) else s in
    if suppressed outcome && negb routine then insert_blocked at_ (host, port) s else s.

Definition observe_outcome_at (f : EgressRateFilter) (ctx : ToolCallContext)
    (outcome : CallOutcome) (attempt_age : Duration) (now : Instant)
    (sessions : EgressSessions) : EgressSessions :=
  if negb (is_egress ctx) && negb (is_source_read (ctx_call_type ctx)) then sessions
  else
    let at_ := instant_sub now attempt_age in
    let s := default SessionEgressState_new (sessions !! scope_or_warn ctx) in
    <[scope_or_warn ctx := commit f ctx outcome at_ (prune now RETENTION_WINDOW s)]> sessions.

Definition er_evict (scope : SessionScopeKey) (sessions : EgressSessions) :
    nat * EgressSessions :=
  (if decide (is_Some (sessions !! scope)) then 1 else 0, delete scope sessions).

(** The filter as the engine sees it. *)
Definition egress_rate_filter {FS} (f : EgressRateFilter) (clock : nat → Instant)
    (get : FS → EgressSessions) (set : EgressSessions → FS → FS) : SecurityFilter FS :=
  let put (s : EgressSessions) (w : World FS) : World FS :=
    {| w_filters := set s (w_filters w); w_sessions := w_sessions w; w_tick := w_tick w |} in
  {| sf_name := "egress-rate";
     sf_phase := Context_;
     sf_is_ready _ := true;
     sf_evaluate ctx w :=
       let '(t, w) := now clock w in
       (Some (er_evaluate_at f ctx t (get (w_filters w))), w);
     sf_evict_session_state scope w :=
       let '(n, s) := er_evict scope (get (w_filters w)) in (n, put s w);
     sf_observe_outcome ctx outcome age w :=
       let '(t, w) := now clock w in
       put (observe_outcome_at f ctx outcome age t (get (w_filters w))) w |}.
End EgressRate.

(** ** Lemmas *)

(** On underflow the cutoff is the instant itself, the latest possible one: the
    window is then empty rather than unbounded. *)
Lemma instant_sub_underflow i d : (i - d < instant_min)%Z → instant_sub i d = i.
Proof. intros H. unfold instant_sub, instant_checked_sub. by destruct (Z.leb_spec instant_min (i - d)); [lia|]. Qed.

Section Lemmas.
Context `{D : Deps}.
Abbreviation EgressSessions := (gmap SessionScopeKey SessionEgressState).
Variable lower : string → string.

(** *** The highest check *)

Definition score_ok (r : FilterResult) : Prop :=
  f64_valid (fr_score r) = true ∧ f64_is_nan (fr_score r) = false.

Lemma select_higher_spec a b :
  score_ok a → score_ok b →
  ∃ r, select_higher (Some a) (Some b) = Some r ∧ (r = a ∨ r = b)
       ∧ f64_le (fr_score a) (fr_score r) = true ∧ f64_le (fr_score b) (fr_score r) = true.
Proof.
  intros [Ha Hna] [Hb Hnb]. unfold select_higher, f64_gt.
  destruct (SFltb (fr_score a) (fr_score b)) eqn:E.
  - exists b. split_and!; [done|by right| |by apply f64_le_refl].
    rewrite f64_le_or_gt by done. apply negb_true_iff. by apply f64_lt_asym.
  - exists a. split_and!; [done|by left|by apply f64_le_refl|].
    rewrite f64_le_or_gt by done. unfold f64_lt. by rewrite E.
Qed.

Lemma fold_select_higher l best :
  Forall (λ o, ∀ r, o = Some r → score_ok r) l → (∀ r, best = Some r → score_ok r) →
  match fold_left select_higher l best with
  | None => best = None ∧ Forall (λ o, o = None) l
  | Some r => (best = Some r ∨ Some r ∈ l) ∧ score_ok r
      ∧ (∀ x, best = Some x ∨ Some x ∈ l → f64_le (fr_score x) (fr_score r) = true)
  end.
Proof.
  intros Hl. revert best. induction Hl as [|o l Ho Hl IH]; intros best Hb; cbn.
  - destruct best as [r|]; [|by split]. split_and!; [by left|by apply Hb|].
    intros x [[= <-]|Hx]; [|by apply not_elem_of_nil in Hx].
    destruct (Hb _ eq_refl). by apply f64_le_refl.
  - destruct best as [a|], o as [b|]; cbn [select_higher].
    + destruct (select_higher_spec a b (Hb a eq_refl) (Ho b eq_refl)) as (r0 & Hr0 & Hor & Ha & Hb').
      unfold select_higher in Hr0.
      specialize (IH (if f64_gt (fr_score b) (fr_score a) then Some b else Some a)).
      rewrite Hr0 in IH |- *. specialize (IH ltac:(intros r [= <-]; destruct Hor as [->| ->]; auto)).
      destruct (fold_left select_higher l (Some r0)) as [r|]; [|by destruct IH].
      destruct IH as (Hin & Hok & Hmax). split_and!; [|done|].
      * destruct Hin as [[= <-]|Hin]; [|right; by apply list_elem_of_further].
        destruct Hor as [->| ->]; [by left|right; apply list_elem_of_here].
      * assert (H0 : f64_le (fr_score r0) (fr_score r) = true) by (apply Hmax; by left).
        assert (V0 : f64_valid (fr_score r0) = true) by (destruct Hor as [->| ->]; [by destruct (Hb a eq_refl)|by destruct (Ho b eq_refl)]).
        destruct Hok as [Vr _], (Hb a eq_refl) as [Va _], (Ho b eq_refl) as [Vb _].
        intros x [[= <-]|Hx].
        { exact (f64_le_trans _ _ _ Va V0 Vr Ha H0). }
        apply elem_of_cons in Hx as [[= ->]|Hx]; [|apply Hmax; by right].
        exact (f64_le_trans _ _ _ Vb V0 Vr Hb' H0).
    + specialize (IH (Some a) Hb). destruct (fold_left _ _ _) as [r|]; [|by destruct IH].
      destruct IH as (Hin & Hok & Hmax). split_and!; [|done|].
      * destruct Hin; [by left|right; by apply list_elem_of_further].
      * intros x [Hx|[[=]|Hx]%elem_of_cons]; apply Hmax; auto.
    + specialize (IH (Some b) Ho). destruct (fold_left _ _ _) as [r|]; [|by destruct IH].
      destruct IH as (Hin & Hok & Hmax). split_and!; [|done|].
      * right. destruct Hin as [[= <-]|Hin]; [apply list_elem_of_here|by apply list_elem_of_further].
      * intros x [[=]|[[= ->]|Hx]%elem_of_cons]; apply Hmax; auto.
    + specialize (IH None ltac:(done)). destruct (fold_left _ _ _) as [r|].
      * destruct IH as (Hin & Hok & Hmax). split_and!; [|done|].
        -- destruct Hin; [done|right; by apply list_elem_of_further].
        -- intros x [Hx|[[=]|Hx]%elem_of_cons]; apply Hmax; auto.
      * destruct IH as [_ IH]. split; [done|by constructor].
Qed.

Lemma all_checks_ok c s cand now :
  f64_valid (ec_blocked_spread_max_score c) = true →
  f64_is_nan (ec_blocked_spread_max_score c) = false →
  Forall (λ o, ∀ r, o = Some r → score_ok r) (all_checks c s cand now).
Proof.
  intros Hv Hn. unfold all_checks. repeat apply Forall_cons_2; try apply Forall_nil_2; intros r;
    unfold check_read_then_send, check_burst, check_dest_spread, check_port_spread,
      check_rate_exceeded, check_blocked_spread, check_cooldown, er_matched.
  - destruct (_ && _); [|done]. by intros [= <-].
  - destruct (_ <=? _)%Z; [|done]. by intros [= <-].
  - destruct (_ <? _)%Z; [|done]. by intros [= <-].
  - destruct (_ <? _)%Z; [|done]. by intros [= <-].
  - destruct (_ <? _)%Z; [|done]. by intros [= <-].
  - destruct (_ <? _)%Z; [done|]. destruct (_ <=? _)%Z; intros [= <-]; by split.
  - destruct (es_cooldown_until s); [|done]. destruct (_ <? _)%Z; [|done]. by intros [= <-].
Qed.

(** *** Refusals *)

(** Nothing delivered, nothing read, no cooldown. *)
Definition quiet (s : SessionEgressState) : Prop :=
  es_delivered_egress_timestamps s = [] ∧ es_delivered_destinations s = []
  ∧ es_delivered_ports s = [] ∧ es_executed_read_timestamps s = []
  ∧ es_cooldown_until s = None.

Lemma quiet_new : quiet SessionEgressState_new.
Proof. by split_and!. Qed.

Lemma quiet_prune now d s : quiet s → quiet (prune now d s).
Proof. intros (H1 & H2 & H3 & H4 & H5). unfold quiet, prune; cbn. by rewrite H1, H2, H3, H4, H5. Qed.

Lemma suppressed_not_executed o : suppressed o = true → executed o = false.
Proof. by destruct o. Qed.

Lemma quiet_commit f ctx o at_ s :
  suppressed o = true → quiet s → quiet (commit lower f ctx o at_ s).
Proof.
  intros Ho Hq. unfold commit. rewrite (suppressed_not_executed o Ho), Ho. cbn [orb andb].
  destruct (is_source_read _); [done|].
  destruct (bool_decide (o = Denied)), (is_routine_destination _ _ _); done.
Qed.

(** An observation: the call, its outcome, its age and when it was reported. *)
Definition observation : Type := ToolCallContext * CallOutcome * Duration * Instant.

Definition observe_all (f : EgressRateFilter) (os : list observation) (ss : EgressSessions) :
    EgressSessions :=
  fold_left (λ ss '(ctx, o, age, now), observe_outcome_at lower f ctx o age now ss) os ss.

Definition refused (o : observation) : bool := suppressed o.1.1.2.

(** An invariant of the states, kept by every observation of a list. *)
Lemma observe_all_inv (P : SessionEgressState → Prop) f os ss :
  P SessionEgressState_new →
  (∀ ctx o age now s, (ctx, o, age, now) ∈ os → P s →
     P (commit lower f ctx o (instant_sub now age) (prune now RETENTION_WINDOW s))) →
  (∀ k s, ss !! k = Some s → P s) → ∀ k s, observe_all f os ss !! k = Some s → P s.
Proof.
  intros Hnew. revert ss. induction os as [|[[[ctx o] age] now] os IH]; intros ss Hstep Hss; [done|].
  cbn. apply IH.
  - intros ctx' o' age' now' s Hin. apply Hstep. by apply list_elem_of_further.
  - intros k s. unfold observe_outcome_at.
    destruct (negb _ && negb _); [apply Hss|].
    destruct (decide (scope_or_warn ctx = k)) as [<-|Hne].
    + rewrite lookup_insert_eq. intros [= <-]. apply Hstep; [apply list_elem_of_here|].
      destruct (ss !! scope_or_warn ctx) as [s0|] eqn:E; [by apply (Hss _ _ E)|done].
    + rewrite lookup_insert_ne by done. apply Hss.
Qed.

Lemma observe_refused_quiet f os k s :
  Forall (λ o, refused o = true) os → observe_all f os ∅ !! k = Some s → quiet s.
Proof.
  intros Hos. apply observe_all_inv; [apply quiet_new| |intros ? ?; by rewrite lookup_empty].
  intros ctx o age now s' Hin Hq. rewrite Forall_forall in Hos. specialize (Hos _ Hin).
  by apply quiet_commit, quiet_prune.
Qed.

Lemma count_u32_nil {A} (p : A → bool) b : count_u32 p [] b = if b then 1%Z else 0%Z.
Proof. by destruct b. Qed.

Lemma unique_with_nil {A} `{Countable A} start (o : option A) :
  (as_u32 (Z.of_nat (size (unique_with start [] o))) <= 1)%Z.
Proof.
  unfold unique_with. cbn. rewrite union_empty_l_L.
  destruct o; cbn; [rewrite union_empty_r_L, size_singleton|rewrite size_empty]; done.
Qed.

(** The thresholds that a single call in flight does not reach. *)
Definition config_tolerates_one (c : EgressRateConfig) : Prop :=
  (0 < ec_read_spike_threshold c ∧ 1 < ec_burst_threshold c
   ∧ 1 <= ec_max_unique_destinations_per_minute c ∧ 1 <= ec_max_unique_ports_per_minute c
   ∧ 1 <= ec_max_egress_per_minute c)%Z.

Lemma quiet_checks c s cand now :
  config_tolerates_one c → quiet s →
  fold_left select_higher (all_checks c s cand now) None = check_blocked_spread c s now.
Proof.
  intros (C1 & C2 & C3 & C4 & C5) (H1 & H2 & H3 & H4 & H5). unfold all_checks.
  assert (check_read_then_send c s cand now = None) as ->.
  { unfold check_read_then_send. rewrite H4, count_u32_nil.
    by destruct (Z.leb_spec (ec_read_spike_threshold c) 0); [lia|]. }
  assert (Hv : (count_u32 (since (instant_sub now (from_secs (ec_burst_window_seconds c)))) []
            (counts_volumetric cand) <= 1)%Z) by (rewrite count_u32_nil; by destruct (counts_volumetric cand)).
  assert (check_burst c s cand now = None) as ->.
  { unfold check_burst. rewrite H1.
    match goal with |- context [(?a <=? ?b)%Z] => destruct (Z.leb_spec a b) end; [lia|done]. }
  assert (check_dest_spread c s cand now = None) as ->.
  { unfold check_dest_spread. rewrite H2.
    match goal with |- context [unique_with ?a [] ?b] => pose proof (unique_with_nil a b) end.
    match goal with |- context [(?a <? ?b)%Z] => destruct (Z.ltb_spec a b) end; [lia|done]. }
  assert (check_port_spread c s cand now = None) as ->.
  { unfold check_port_spread. rewrite H3.
    match goal with |- context [unique_with ?a [] ?b] => pose proof (unique_with_nil a b) end.
    match goal with |- context [(?a <? ?b)%Z] => destruct (Z.ltb_spec a b) end; [lia|done]. }
  assert (check_rate_exceeded c s cand now = None) as ->.
  { unfold check_rate_exceeded. rewrite H1, count_u32_nil.
    match goal with |- context [(?a <? ?b)%Z] => destruct (Z.ltb_spec a b) end; [|done].
    destruct (counts_volumetric cand); lia. }
  assert (check_cooldown s now = None) as -> by (unfold check_cooldown; by rewrite H5).
  cbn. by destruct (check_blocked_spread c s now).
Qed.
End Lemmas.

(** ** Properties *)

Section Properties.
Context `{D : Deps}.
Variable lower : string → string.
Abbreviation EgressSessions := (gmap SessionScopeKey SessionEgressState).

Definition destination (ctx : ToolCallContext) : AttemptKey :=
  (extract_destination_host lower ctx, extract_destination_port (ctx_call_type ctx)).

Lemma er_evaluate_quiet f os ctx now :
  config_tolerates_one (ef_config f) → Forall (λ o, refused o = true) os →
  er_evaluate_at lower f ctx now (observe_all lower f os ∅) =
  if negb (is_egress ctx) || is_source_read (ctx_call_type ctx) then no_match "egress-rate"
  else default (no_match "egress-rate")
    (check_blocked_spread (ef_config f)
       (default SessionEgressState_new (observe_all lower f os ∅ !! scope_or_warn ctx)) now).
Proof.
  intros Hc Hos. unfold er_evaluate_at. destruct (_ || _); [done|]. rewrite quiet_checks; [done..|].
  destruct (observe_all lower f os ∅ !! scope_or_warn ctx) as [s|] eqn:E; [|apply quiet_new].
  by eapply observe_refused_quiet.
Qed.

(** No volume of refusals can deny.  After any sequence of refused calls,
    in any sessions, to any destinations and at any times, a call's egress-rate
    score is nothing, the notice score 1.0, or the configured ceiling of the
    blocked-spread signal: refused calls never count as delivered volume, never
    arm a cooldown and never complete a read-then-send correlation. *)
Theorem refusals_score_bounded f os ctx now
    (Hconfig : config_tolerates_one (ef_config f))
    (Hrefused : Forall (λ o, refused o = true) os) :
  let r := er_evaluate_at lower f ctx now (observe_all lower f os ∅) in
  r = no_match "egress-rate" ∨ fr_rule_id r = "egress-blocked-spread" ∧
    (fr_score r = f64_of_Z 1 ∨ fr_score r = ec_blocked_spread_max_score (ef_config f)).
Proof.
  cbv zeta. rewrite er_evaluate_quiet by done. destruct (_ || _); [by left|].
  unfold check_blocked_spread, er_matched. destruct (_ <? _)%Z; [by left|].
  destruct (_ <=? _)%Z; right; cbn; auto.
Qed.

(** The blocked destinations are among the given ones. *)
Definition blocked_in (ks : gset AttemptKey) (s : SessionEgressState) : Prop :=
  dom (es_blocked_attempts s) ⊆ ks.

Lemma blocked_in_prune ks now d s : blocked_in ks s → blocked_in ks (prune now d s).
Proof. unfold blocked_in, prune; cbn. intros H. rewrite dom_filter_subseteq. done. Qed.

Lemma blocked_in_commit ks f ctx o at_ s :
  destination ctx ∈ ks → blocked_in ks s → blocked_in ks (commit lower f ctx o at_ s).
Proof.
  intros Hk Hs. unfold commit. destruct (is_source_read _); [by destruct (executed o)|].
  assert (Hp : ∀ s (b : bool), blocked_in ks s → blocked_in ks (if b then push_attempt at_ s else s))
    by by intros ? [].
  assert (Hd : ∀ s (b : bool), blocked_in ks s → blocked_in ks
    (if b then maybe_arm_cooldown (ef_config f) at_ (push_delivered at_
       (extract_destination_host lower ctx) (extract_destination_port (ctx_call_type ctx)) s) else s)).
  { intros s' [] Hs'; [|done]. unfold maybe_arm_cooldown. by repeat case_match. }
  destruct (suppressed o && _); [|by apply Hd, Hp].
  unfold blocked_in. cbn. rewrite dom_insert. apply union_subseteq. split.
  - apply singleton_subseteq_l. exact Hk.
  - by apply Hd, Hp.
Qed.

(** A retry loop scores nothing.  However often a session's calls to one
    destination are refused, the next call of any session adds no egress-rate
    score, provided the notice threshold asks for at least two destinations. *)
Theorem retry_storm_scores_nothing f os k ctx now
    (Hconfig : config_tolerates_one (ef_config f))
    (Hnotice : (2 <= ec_blocked_spread_notice_threshold (ef_config f))%Z)
    (Hrefused : Forall (λ o, refused o = true) os)
    (Hsame : Forall (λ o : observation, destination o.1.1.1 = k) os) :
  er_evaluate_at lower f ctx now (observe_all lower f os ∅) = no_match "egress-rate".
Proof.
  rewrite er_evaluate_quiet by done. destruct (_ || _); [done|].
  set (s := default SessionEgressState_new _).
  assert (Hs : blocked_in {[k]} s).
  { unfold s. destruct (observe_all lower f os ∅ !! scope_or_warn ctx) as [s'|] eqn:E; [|done].
    revert E. apply (observe_all_inv lower (blocked_in {[k]})); [done| |done].
    intros c o age t s0 Hin H0. rewrite Forall_forall in Hsame. specialize (Hsame _ Hin). cbn in Hsame.
    apply blocked_in_commit; [by rewrite Hsame; apply elem_of_singleton|by apply blocked_in_prune]. }
  unfold check_blocked_spread.
  set (recent := filter _ (es_blocked_attempts s)).
  assert (Hsz : (size recent ≤ 1)%nat).
  { rewrite <- size_dom. transitivity (size ({[k]} : gset AttemptKey)); [|by rewrite size_singleton].
    apply subseteq_size. etransitivity; [apply dom_filter_subseteq|exact Hs]. }
  rewrite as_u32_small by lia.
  match goal with |- context [(?a <? ?b)%Z] => destruct (Z.ltb_spec a b) end; [done|lia].
Qed.

(** A cooldown is edge-triggered: while it is running, no outcome of any
    call extends or clears it, so a sustained burst cannot postpone its end. *)
Theorem cooldown_not_extended f ctx outcome age now sessions s until
    (Hs : sessions !! scope_or_warn ctx = Some s)
    (Hcool : es_cooldown_until s = Some until)
    (Hrunning : (now < until)%Z) (Hage : (0 <= age)%Z) :
  ∃ s', observe_outcome_at lower f ctx outcome age now sessions !! scope_or_warn ctx = Some s'
        ∧ es_cooldown_until s' = Some until.
Proof.
  unfold observe_outcome_at. destruct (negb _ && negb _); [by exists s|].
  rewrite lookup_insert_eq, Hs. cbn [default from_option id]. eexists. split; [done|].
  set (p := prune now RETENTION_WINDOW s).
  assert (Hp : es_cooldown_until p = Some until).
  { unfold p, prune; cbn. rewrite Hcool. by destruct (Z.leb_spec until now); [lia|]. }
  assert (Hat : (instant_sub now age < until)%Z).
  { unfold instant_sub, instant_checked_sub. destruct (_ <=? _)%Z; cbn; lia. }
  generalize dependent (instant_sub now age). intros at_ Hat. clearbody p.
  assert (Harm : ∀ q, es_cooldown_until q = Some until →
    es_cooldown_until (maybe_arm_cooldown (ef_config f) at_ q) = Some until).
  { intros q Hq. unfold maybe_arm_cooldown. destruct (_ <? _)%Z; [done|]. rewrite Hq.
    by destruct (Z.ltb_spec at_ until); [|lia]. }
  unfold commit. destruct (is_source_read _); [by destruct (executed outcome)|].
  assert (Hpush : ∀ b : bool, es_cooldown_until (if b then push_attempt at_ p else p) = Some until)
    by by intros [].
  assert (Hdel : ∀ b h q, es_cooldown_until q = Some until → es_cooldown_until
    (if b : bool then maybe_arm_cooldown (ef_config f) at_ (push_delivered at_ h
       (extract_destination_port (ctx_call_type ctx)) q) else q) = Some until)
    by (intros [] h q Hq; [by apply Harm|done]).
  destruct (suppressed outcome && _); cbn; by apply Hdel, Hpush.
Qed.

(** The reported result is the worst one: every check that fires scores at
    most what the filter returns, and what it returns is one of them, for any
    history, provided the configured ceiling is a number. *)
Theorem er_evaluate_max f ctx now sessions
    (Hv : f64_valid (ec_blocked_spread_max_score (ef_config f)) = true)
    (Hn : f64_is_nan (ec_blocked_spread_max_score (ef_config f)) = false)
    (Hegress : is_egress ctx = true) :
  let checks := all_checks (ef_config f)
    (default SessionEgressState_new (sessions !! scope_or_warn ctx)) (candidate lower f ctx) now in
  let r := er_evaluate_at lower f ctx now sessions in
  (r = no_match "egress-rate" ∧ Forall (λ o, o = None) checks) ∨
  (Some r ∈ checks ∧ ∀ x, Some x ∈ checks → f64_le (fr_score x) (fr_score r) = true).
Proof.
  cbv zeta. unfold er_evaluate_at. rewrite Hegress.
  assert (is_source_read (ctx_call_type ctx) = false) as ->
    by (unfold is_egress in Hegress; by destruct (ctx_call_type ctx)). cbn [negb orb].
  set (checks := all_checks _ _ _ _).
  pose proof (fold_select_higher checks None
    (all_checks_ok _ _ _ _ Hv Hn) ltac:(done)) as H.
  destruct (fold_left select_higher checks None) as [r|].
  - right. destruct H as (Hin & _ & Hmax). cbn. split; [by destruct Hin|]. auto.
  - left. by destruct H as [_ H].
Qed.

End Properties.

Module Example_egress.
#[local] Instance example_deps : Deps := concrete_deps.
Definition filter : EgressRateFilter := {|
  ef_config := EgressRateConfig_default; ef_trusted_domains := ∅; ef_profile_trusted := ∅ |}.
Definition connect (host : string) : ToolCallContext :=
  ToolCallContext_new uuid_a 0%Z "p" (NetConnect host 443) uuid_a.
Definition denied (host : string) (t : Z) : observation :=
  (connect host, Denied, 0%Z, from_secs t).
Definition lower : string → string := to_ascii_lowercase.
Definition scope : SessionScopeKey := from_session_id uuid_a.
Definition cooling : SessionEgressState := {|
  es_attempted_egress_timestamps := []; es_delivered_egress_timestamps := [];
  es_delivered_destinations := []; es_delivered_ports := []; es_executed_read_timestamps := [];
  es_blocked_attempts := ∅; es_cooldown_until := Some (from_secs 130) |}.
Definition sessions : gmap SessionScopeKey SessionEgressState := {[ scope := cooling ]}.
End Example_egress.

(** Three refused hosts score as a spread, and no more. *)
Lemma refusals_score_bounded_witness :
  let D := concrete_deps in
  let os := [Example_egress.denied "a" 100; Example_egress.denied "b" 101;
             Example_egress.denied "c" 102] in
  let r := er_evaluate_at Example_egress.lower Example_egress.filter (Example_egress.connect "d")
    (from_secs 103) (observe_all Example_egress.lower Example_egress.filter os ∅) in
  fr_score r = f64_of_Z 1 ∧ (r = no_match "egress-rate" ∨ fr_rule_id r = "egress-blocked-spread" ∧
    (fr_score r = f64_of_Z 1 ∨ fr_score r = f64_of_Z 2)).
Proof.
  intros D os r. split; [vm_compute; reflexivity|].
  apply (refusals_score_bounded (D := concrete_deps) Example_egress.lower Example_egress.filter
    os (Example_egress.connect "d") (from_secs 103)).
  - vm_compute. split_and!; first [reflexivity|discriminate].
  - do 3 (apply Forall_cons_2; [reflexivity|]). apply Forall_nil_2.
Defined.

Lemma retry_storm_scores_nothing_witness :
  let D := concrete_deps in
  let os := replicate 44 (Example_egress.denied "a" 100) in
  er_evaluate_at Example_egress.lower Example_egress.filter (Example_egress.connect "a")
    (from_secs 101) (observe_all Example_egress.lower Example_egress.filter os ∅)
  = no_match "egress-rate".
Proof.
  intros D os.
  apply (retry_storm_scores_nothing (D := concrete_deps) Example_egress.lower
    Example_egress.filter os (Some "a", Some 443%Z) (Example_egress.connect "a") (from_secs 101)).
  - vm_compute. split_and!; first [reflexivity|discriminate].
  - vm_compute. discriminate.
  - apply Forall_replicate. reflexivity.
  - apply Forall_replicate. reflexivity.
Defined.

Lemma cooldown_not_extended_witness :
  let D := concrete_deps in
  ∃ s', observe_outcome_at Example_egress.lower Example_egress.filter (Example_egress.connect "a")
          Executed 0 (from_secs 101) Example_egress.sessions !! Example_egress.scope = Some s'
        ∧ es_cooldown_until s' = Some (from_secs 130).
Proof.
  intros D.
  apply (cooldown_not_extended (D := concrete_deps) Example_egress.lower Example_egress.filter
    (Example_egress.connect "a") Executed 0 (from_secs 101) Example_egress.sessions
    Example_egress.cooling (from_secs 130)).
  - apply lookup_singleton_eq.
  - reflexivity.
  - reflexivity.
  - discriminate.
Defined.

(** In a cooldown the cooldown check is the one reported. *)
Lemma er_evaluate_max_witness :
  let D := concrete_deps in
  let checks := all_checks EgressRateConfig_default Example_egress.cooling
    (candidate Example_egress.lower Example_egress.filter (Example_egress.connect "a"))
    (from_secs 120) in
  let r := er_evaluate_at Example_egress.lower Example_egress.filter (Example_egress.connect "a")
    (from_secs 120) Example_egress.sessions in
  (r = no_match "egress-rate" ∧ Forall (λ o, o = None) checks) ∨
  (Some r ∈ checks ∧ ∀ x, Some x ∈ checks → f64_le (fr_score x) (fr_score r) = true).
Proof.
  intros D checks r.
  exact (er_evaluate_max (D := concrete_deps) Example_egress.lower Example_egress.filter
    (Example_egress.connect "a") (from_secs 120) Example_egress.sessions eq_refl eq_refl eq_refl).
Defined.
