(* ===== verification/ProcessTree.v ===== *)
(** * The supervised process tree

    [crates/grith-supervisor/src/process_tree.rs]: the processes a supervised tool
    has spawned, by pid, and the freezing and thawing of a process with all its
    descendants.  The traversal is a loop over an explicit stack; [descend] runs
    it for a number of iterations and returns [None] when they run out. *)

From S2P Require Import Prelude Concrete.

Inductive ProcessState := Running | Frozen | Exited.

#[export] Instance ProcessState_eq_dec : EqDecision ProcessState.
Proof. solve_decision. Defined.

Record ProcessInfo := {
  pi_pid : Z;
  pi_parent_pid : Z;
  pi_command : string;
  pi_args : list string;
  pi_state : ProcessState;
}.

Record ProcessTree := {
  pt_root_pid : Z;
  pt_processes : gmap Z ProcessInfo;
}.

Definition ProcessTree_new (root_pid : Z) (command : string) : ProcessTree := {|
  pt_root_pid := root_pid;
  pt_processes := {[ root_pid := {| pi_pid := root_pid; pi_parent_pid := 0; pi_command := command;
                                    pi_args := []; pi_state := Running |} ]};
|}.

Definition with_processes (m : gmap Z ProcessInfo) (t : ProcessTree) : ProcessTree :=
  {| pt_root_pid := pt_root_pid t; pt_processes := m |}.

Definition set_state (s : ProcessState) (i : ProcessInfo) : ProcessInfo := {|
  pi_pid := pi_pid i; pi_parent_pid := pi_parent_pid i; pi_command := pi_command i;
  pi_args := pi_args i; pi_state := s;
|}.

Definition pid_error {A} (prefix : string) (pid : Z) : result A :=
  Err (prefix +:+ fmt_Z pid +:+ " not found in tree").

Definition add_child (parent_pid child_pid : Z) (command : string) (t : ProcessTree) :
    result ProcessTree :=
  match pt_processes t !! parent_pid with
  | None => pid_error "parent pid " parent_pid
  | Some _ =>
      Ok (with_processes
            (<[child_pid := {| pi_pid := child_pid; pi_parent_pid := parent_pid;
                               pi_command := command; pi_args := []; pi_state := Running |}]>
               (pt_processes t)) t)
  end.

Definition update_command (pid : Z) (command : string) (args : list string) (t : ProcessTree) :
    ProcessTree :=
  with_processes
    (alter (λ i, {| pi_pid := pi_pid i; pi_parent_pid := pi_parent_pid i; pi_command := command;
                    pi_args := args; pi_state := pi_state i |}) pid (pt_processes t)) t.

Definition update_state (pid : Z) (state : ProcessState) (t : ProcessTree) : result ProcessTree :=
  match pt_processes t !! pid with
  | None => pid_error "pid " pid
  | Some i => Ok (with_processes (<[pid := set_state state i]> (pt_processes t)) t)
  end.

Definition remove_exited (t : ProcessTree) : nat * ProcessTree :=
  let m := filter (λ kv, pi_state kv.2 ≠ Exited) (pt_processes t) in
  (size (pt_processes t) - size m, with_processes m t).

Definition is_frozen (pid : Z) (t : ProcessTree) : bool :=
  match pt_processes t !! pid with
  | Some i => bool_decide (pi_state i = Frozen)
  | None => false
  end.

Definition get_process (pid : Z) (t : ProcessTree) : option ProcessInfo := pt_processes t !! pid.

Section Traversal.
Context `{HI : HashIter}.

Definition children_of (t : ProcessTree) (pid : Z) : list Z :=
  map (λ kv, pi_pid kv.2)
    (List.filter (λ kv, (pi_parent_pid kv.2 =? pid)%Z) (hash_iter (pt_processes t))).

Definition all_pids (t : ProcessTree) : list Z := map fst (hash_iter (pt_processes t)).

(** The head of [stack] is its top. *)
Fixpoint descend (fuel : nat) (t : ProcessTree) (stack found : list Z) : option (list Z) :=
  match stack with
  | [] => Some found
  | current :: stack' =>
      match fuel with
      | O => None
      | S fuel' =>
          let children := children_of t current in
          descend fuel' t (reverse children ++ stack') (found ++ children)
      end
  end.

Definition descendants_of (fuel : nat) (t : ProcessTree) (pid : Z) : option (result (list Z)) :=
  match pt_processes t !! pid with
  | None => Some (pid_error "pid " pid)
  | Some _ => Ok <$> descend fuel t [pid] []
  end.

(** The loop of [freeze_tree] ([Running] to [Frozen]) and of [thaw_tree]
    ([Frozen] to [Running]) over the pids it visits. *)
Definition switch_one (from to : ProcessState) (st : gmap Z ProcessInfo * list Z) (pid : Z) :
    gmap Z ProcessInfo * list Z :=
  match st.1 !! pid with
  | Some i => if decide (pi_state i = from) then (<[pid := set_state to i]> st.1, st.2 ++ [pid]) else st
  | None => st
  end.

Definition switch_tree (from to : ProcessState) (fuel : nat) (pid : Z) (t : ProcessTree) :
    option (result (list Z * ProcessTree)) :=
  match descendants_of fuel t pid with
  | None => None
  | Some (Err e) => Some (Err e)
  | Some (Ok ds) =>
      let st := fold_left (switch_one from to) ds (pt_processes t, []) in
      let st := switch_one from to st pid in
      Some (Ok (st.2, with_processes st.1 t))
  end.

Definition freeze_tree : nat → Z → ProcessTree → option (result (list Z * ProcessTree)) :=
  switch_tree Running Frozen.
Definition thaw_tree : nat → Z → ProcessTree → option (result (list Z * ProcessTree)) :=
  switch_tree Frozen Running.

(** ** Trees *)

(** Each process is stored under its own pid. *)
Definition tree_wf (t : ProcessTree) : Prop :=
  ∀ k i, pt_processes t !! k = Some i → pi_pid i = k.

Definition child (t : ProcessTree) (p c : Z) : Prop :=
  ∃ i, pt_processes t !! c = Some i ∧ pi_parent_pid i = p.

(** No process descends from itself: parents that are tracked have a lower
    rank. *)
Definition acyclic (t : ProcessTree) : Prop :=
  ∃ rank : Z → nat, ∀ p c, child t p c → is_Some (pt_processes t !! p) → rank p < rank c.

Context `{!HashIterLaws}.

Lemma children_of_spec t p c : tree_wf t → c ∈ children_of t p ↔ child t p c.
Proof.
  intros Hwf. unfold children_of, child. rewrite list_elem_of_fmap. split.
  - intros ([k i] & -> & Hin). apply list_elem_of_In, filter_In in Hin as [Hin Hp].
    apply list_elem_of_In, hash_iter_elem_of in Hin. apply Z.eqb_eq in Hp. cbn in *.
    exists i. by rewrite (Hwf k i Hin).
  - intros (i & Hc & <-). exists (c, i). split; [by rewrite <- (Hwf c i Hc)|].
    apply list_elem_of_In, filter_In. split; [by apply list_elem_of_In, hash_iter_elem_of|].
    cbn. apply Z.eqb_refl.
Qed.

Lemma NoDup_children t p : tree_wf t → NoDup (children_of t p).
Proof.
  intros Hwf. unfold children_of.
  assert (Heq : ∀ l, (∀ kv, kv ∈ l → pi_pid kv.2 = kv.1) →
    map (λ kv : Z * ProcessInfo, pi_pid kv.2) l = map fst l).
  { intros l Hl. apply map_ext_in. intros kv Hkv. by apply Hl, list_elem_of_In. }
  rewrite Heq.
  - assert (Hn : NoDup (map fst (hash_iter (pt_processes t)))).
    { change (NoDup (fst <$> hash_iter (pt_processes t))).
      rewrite hash_iter_perm. apply NoDup_fst_map_to_list. }
    revert Hn. generalize (hash_iter (pt_processes t)). intros l.
    induction l as [|[k i] l IH]; cbn; [done|]. rewrite !NoDup_cons. intros [Hk Hl].
    destruct (_ =? _)%Z; [|by apply IH]. cbn. rewrite NoDup_cons. split; [|by apply IH].
    intros Hin. apply Hk. apply list_elem_of_fmap in Hin as (kv & -> & Hin).
    apply list_elem_of_fmap. exists kv. split; [done|].
    apply list_elem_of_In. apply list_elem_of_In in Hin. by apply filter_In in Hin as [].
  - intros [k i] Hin. apply list_elem_of_In, filter_In in Hin as [Hin _].
    apply list_elem_of_In, hash_iter_elem_of in Hin. by apply (Hwf k i).
Qed.

Lemma NoDup_length_size (t : ProcessTree) (l : list Z) :
  NoDup l → (∀ x, x ∈ l → is_Some (pt_processes t !! x)) → length l ≤ size (pt_processes t).
Proof.
  intros Hn Hl. rewrite <- size_dom, <- (size_list_to_set (C := gset Z) l Hn).
  apply subseteq_size. intros x. rewrite elem_of_list_to_set, elem_of_dom. apply Hl.
Qed.

(** *** The traversal's invariant *)

Record traversal (t : ProcessTree) (rank : Z → nat) (pid : Z) (stack visited found : list Z) : Prop := {
  tv_perm : stack ++ visited ≡ₚ pid :: found;
  tv_nodup : NoDup (pid :: found);
  tv_tracked : ∀ x, x ∈ pid :: found → is_Some (pt_processes t !! x) ∧ rank pid ≤ rank x;
  tv_found : ∀ x, x ∈ found ↔ ∃ p, p ∈ visited ∧ child t p x;
  tv_desc : ∀ x, x ∈ found → tc (child t) pid x;
}.

Lemma child_unique t p p' c : child t p c → child t p' c → p = p'.
Proof. intros (i & Hi & <-) (i' & Hi' & <-). congruence. Qed.

Lemma traversal_step t rank pid current stack visited found :
  tree_wf t → (∀ p c, child t p c → is_Some (pt_processes t !! p) → rank p < rank c) →
  traversal t rank pid (current :: stack) visited found →
  traversal t rank pid (reverse (children_of t current) ++ stack) (current :: visited)
    (found ++ children_of t current).
Proof.
  intros Hwf Hrank [Hperm Hnd Htr Hf Hd].
  assert (Hcur : current ∈ pid :: found) by (rewrite <- Hperm; apply list_elem_of_here).
  assert (Hnv : current ∉ visited).
  { rewrite <- Hperm in Hnd. apply NoDup_cons in Hnd as [Hn _]. intros Hv. apply Hn.
    apply elem_of_app. by right. }
  assert (Hch : ∀ c, c ∈ children_of t current → child t current c)
    by (intros c; by apply children_of_spec).
  assert (Hfresh : ∀ c, c ∈ children_of t current → c ∉ pid :: found).
  { intros c Hc%Hch [->|Hin]%elem_of_cons.
    - destruct (Htr current Hcur) as [Hs Hle]. pose proof (Hrank _ _ Hc Hs). lia.
    - apply Hf in Hin as (p & Hp & Hpc). by rewrite (child_unique t _ _ _ Hc Hpc) in Hnv. }
  split.
  - rewrite reverse_Permutation, <- app_assoc, <- Permutation_middle.
    change (children_of t current ++ (current :: stack) ++ visited
            ≡ₚ pid :: found ++ children_of t current).
    rewrite Hperm. by rewrite Permutation_app_comm.
  - change (NoDup ((pid :: found) ++ children_of t current)).
    apply NoDup_app. split_and!; [done| |by apply NoDup_children].
    intros x Hx Hc. by apply (Hfresh x).
  - intros x Hx. change (x ∈ (pid :: found) ++ children_of t current) in Hx.
    apply elem_of_app in Hx as [Hx|Hx]; [by apply Htr|].
    destruct (Htr current Hcur) as [Hs Hle]. pose proof (Hrank _ _ (Hch x Hx) Hs).
    destruct (Hch x Hx) as (i & Hi & _). split; [by rewrite Hi|lia].
  - intros x. rewrite elem_of_app, Hf. split.
    + intros [(p & Hp & Hc)|Hx]; [exists p; split; [by apply list_elem_of_further|done]|].
      exists current. split; [apply list_elem_of_here|by apply Hch].
    + intros (p & [->|Hp]%elem_of_cons & Hc); [right; by apply children_of_spec|left; by exists p].
  - intros x [Hx|Hx]%elem_of_app; [by apply Hd|].
    apply elem_of_cons in Hcur as [->|Hcur]; [by apply tc_once, Hch|].
    eapply tc_r; [by apply Hd|by apply Hch].
Qed.

Lemma traversal_done t rank pid visited found :
  traversal t rank pid [] visited found →
  NoDup (pid :: found) ∧ ∀ x, x ∈ found ↔ tc (child t) pid x.
Proof.
  intros [Hperm Hnd Htr Hf Hd]. split; [done|]. intros x. split; [apply Hd|]. cbn in Hperm.
  assert (Hclosed : ∀ a b, tc (child t) a b → a ∈ visited → b ∈ found).
  { intros a b. induction 1 as [a b Hab|a b c Hab _ IH]; intros Ha; [apply Hf; by exists a|].
    apply IH. rewrite Hperm. apply list_elem_of_further, Hf. by exists a. }
  intros Hx. apply (Hclosed pid x Hx). rewrite Hperm. apply list_elem_of_here.
Qed.

Lemma descend_spec t rank pid fuel stack visited found :
  tree_wf t → (∀ p c, child t p c → is_Some (pt_processes t !! p) → rank p < rank c) →
  traversal t rank pid stack visited found →
  size (pt_processes t) ≤ fuel + length visited →
  ∃ l, descend fuel t stack found = Some l ∧ NoDup (pid :: l)
       ∧ ∀ x, x ∈ l ↔ tc (child t) pid x.
Proof.
  intros Hwf Hrank. revert stack visited found.
  induction fuel as [|fuel IH]; intros stack visited found Htv Hsz.
  - destruct stack as [|current stack].
    + exists found. split; [done|]. by eapply traversal_done.
    + destruct Htv as [Hperm Hnd Htr _ _].
      assert (Hl : length (pid :: found) ≤ size (pt_processes t))
        by (apply NoDup_length_size; [done|intros x Hx; by apply Htr]).
      rewrite <- Hperm in Hl. cbn in Hl. rewrite length_app in Hl. cbn in Hsz. lia.
  - destruct stack as [|current stack].
    + exists found. split; [done|]. by eapply traversal_done.
    + cbn [descend]. apply (IH _ (current :: visited)); [|cbn; lia].
      by apply traversal_step.
Qed.
End Traversal.

(** ** Lemmas on whole operations *)

Section Operations.
Context `{HI : HashIter} `{HL : !HashIterLaws}.

(** A process and what it descends to. *)
Definition in_subtree (t : ProcessTree) (pid q : Z) : Prop := q = pid ∨ tc (child t) pid q.

Lemma descendants_of_ok t pid fuel :
  tree_wf t → acyclic t → is_Some (pt_processes t !! pid) → size (pt_processes t) ≤ fuel →
  ∃ l, descendants_of fuel t pid = Some (Ok l) ∧ NoDup (pid :: l)
       ∧ ∀ x, x ∈ l ↔ tc (child t) pid x.
Proof.
  intros Hwf [rank Hrank] [i Hi] Hf. unfold descendants_of. rewrite Hi.
  destruct (descend_spec t rank pid fuel [pid] [] [] Hwf Hrank) as (l & -> & Hn & Hl).
  - split; [done|by apply NoDup_singleton| | |by intros x Hx%not_elem_of_nil].
    + intros x [->|[]%not_elem_of_nil]%elem_of_cons. split; [by rewrite Hi|lia].
    + intros x. split; [by intros Hx%not_elem_of_nil|by intros (p & Hp%not_elem_of_nil & _)].
  - cbn. lia.
  - by exists l.
Qed.

Definition in_state (s : ProcessState) (m : gmap Z ProcessInfo) (q : Z) : bool :=
  match m !! q with Some i => bool_decide (pi_state i = s) | None => false end.

Definition switched (from to : ProcessState) (i : ProcessInfo) : ProcessInfo :=
  if decide (pi_state i = from) then set_state to i else i.

Lemma fold_switch from to ds m out :
  NoDup ds →
  let st := fold_left (switch_one from to) ds (m, out) in
  st.2 = out ++ List.filter (in_state from m) ds
  ∧ ∀ q, st.1 !! q = if decide (q ∈ ds) then switched from to <$> m !! q else m !! q.
Proof.
  intros Hn. revert m out. induction Hn as [|d ds Hd Hn IH]; intros m out; cbn.
  - split; [by rewrite app_nil_r|]. intros q. by destruct (decide _) as [?%not_elem_of_nil|].
  - unfold switch_one at 2 4; cbn. unfold in_state at 1.
    destruct (m !! d) as [i|] eqn:Em; [case_decide as Hs|].
    + destruct (IH (<[d:=set_state to i]> m) (out ++ [d])) as [-> Hq].
      rewrite bool_decide_eq_true_2 by done. split.
      * rewrite <- app_assoc. cbn. do 2 f_equal. apply filter_ext_in. intros q Hin.
        apply list_elem_of_In in Hin. unfold in_state. rewrite lookup_insert_ne; [done|].
        by intros <-.
      * intros q. rewrite Hq. destruct (decide (q = d)) as [->|Hne].
        -- rewrite decide_False, decide_True by (done || apply list_elem_of_here).
           rewrite lookup_insert_eq, Em. cbn. unfold switched. by rewrite decide_True.
        -- rewrite lookup_insert_ne by done.
           destruct (decide (q ∈ ds)), (decide (q ∈ d :: ds)) as [Hc|Hc]; try done.
           ++ destruct Hc. by apply list_elem_of_further.
           ++ by apply elem_of_cons in Hc as [|].
    + destruct (IH m out) as [-> Hq]. rewrite bool_decide_eq_false_2 by done. split; [done|].
      intros q. rewrite Hq. destruct (decide (q = d)) as [->|Hne].
      * rewrite decide_False, decide_True by (done || apply list_elem_of_here).
        rewrite Em. cbn. unfold switched. by rewrite decide_False.
      * destruct (decide (q ∈ ds)), (decide (q ∈ d :: ds)) as [Hc|Hc]; try done.
        -- destruct Hc. by apply list_elem_of_further.
        -- by apply elem_of_cons in Hc as [|].
    + destruct (IH m out) as [-> Hq]. split; [done|].
      intros q. rewrite Hq. destruct (decide (q = d)) as [->|Hne].
      * rewrite Em. by repeat case_decide.
      * destruct (decide (q ∈ ds)), (decide (q ∈ d :: ds)) as [Hc|Hc]; try done.
        -- destruct Hc. by apply list_elem_of_further.
        -- by apply elem_of_cons in Hc as [|].
Qed.

Lemma switch_tree_spec from to t pid fuel :
  tree_wf t → acyclic t → is_Some (pt_processes t !! pid) → size (pt_processes t) ≤ fuel →
  ∃ changed t', switch_tree from to fuel pid t = Some (Ok (changed, t'))
    ∧ NoDup changed
    ∧ (∀ q, q ∈ changed ↔ in_subtree t pid q ∧ in_state from (pt_processes t) q = true)
    ∧ pt_root_pid t' = pt_root_pid t
    ∧ (∀ q, pt_processes t' !! q =
            (if decide (q ∈ changed) then set_state to else id) <$> pt_processes t !! q).
Proof.
  intros Hwf Hac Hp Hf. destruct (descendants_of_ok t pid fuel Hwf Hac Hp Hf) as (l & Hl & Hn & Hin).
  unfold switch_tree. rewrite Hl.
  set (st := fold_left (switch_one from to) l (pt_processes t, [])).
  assert (Hst : switch_one from to st pid = fold_left (switch_one from to) (l ++ [pid]) (pt_processes t, []))
    by by rewrite fold_left_app.
  rewrite Hst. clear st Hst.
  assert (Hnl : NoDup (l ++ [pid])) by by rewrite <- Permutation_cons_append.
  destruct (fold_switch from to (l ++ [pid]) (pt_processes t) [] Hnl) as [H2 H1].
  set (st := fold_left _ _ _) in *. clearbody st.
  assert (Hmem : ∀ q, q ∈ l ++ [pid] ↔ in_subtree t pid q).
  { intros q. rewrite elem_of_app, list_elem_of_singleton, Hin. unfold in_subtree. tauto. }
  assert (Hch : ∀ q, q ∈ st.2 ↔ in_subtree t pid q ∧ in_state from (pt_processes t) q = true).
  { intros q. rewrite H2. cbn. rewrite list_elem_of_In, filter_In, <- list_elem_of_In, Hmem. done. }
  eexists _, _. split; [done|]. split_and!; [|done|done|].
  - rewrite H2. cbn. clear -Hnl. induction Hnl as [|x l' Hx _ IH]; cbn; [constructor|].
    destruct (in_state _ _ _); [|done]. constructor; [|done]. intros H. apply Hx.
    apply list_elem_of_In. apply list_elem_of_In in H. by apply filter_In in H as [].
  - intros q. cbn [with_processes pt_processes]. rewrite H1.
    destruct (pt_processes t !! q) as [i|] eqn:Ei; [|by destruct (decide (q ∈ l ++ [pid])), (decide (q ∈ st.2))].
    specialize (Hch q). unfold in_state in Hch. rewrite Ei in Hch.
    destruct (decide (q ∈ l ++ [pid])) as [Hq|Hq], (decide (q ∈ st.2)) as [Hc|Hc]; cbn; try done.
    + apply Hch in Hc as [_ Hc%bool_decide_eq_true]. unfold switched. by rewrite decide_True.
    + unfold switched. rewrite decide_False; [done|]. intros Hs. apply Hc, Hch.
      split; [by apply Hmem|by apply bool_decide_eq_true].
    + destruct Hq. apply Hmem. by apply Hch in Hc as [].
Qed.

(** *** Preservation *)

(** The part of the state the shape of the tree depends on. *)
Definition same_edges (t t' : ProcessTree) : Prop :=
  ∀ q, (λ i, (pi_pid i, pi_parent_pid i)) <$> pt_processes t' !! q
       = (λ i, (pi_pid i, pi_parent_pid i)) <$> pt_processes t !! q.

Lemma same_edges_lookup t t' q i :
  same_edges t t' → pt_processes t' !! q = Some i →
  ∃ i', pt_processes t !! q = Some i' ∧ pi_pid i' = pi_pid i ∧ pi_parent_pid i' = pi_parent_pid i.
Proof.
  intros H Hi. specialize (H q). rewrite Hi in H. cbn in H.
  destruct (pt_processes t !! q) as [i'|]; [|done]. exists i'. by injection H.
Qed.

Lemma same_edges_sym t t' : same_edges t t' → same_edges t' t.
Proof. intros H q. by rewrite H. Qed.

Lemma same_edges_child t t' p c : same_edges t t' → child t' p c → child t p c.
Proof.
  intros H (i & Hi & <-). destruct (same_edges_lookup _ _ _ _ H Hi) as (i' & Hi' & _ & Hp).
  by exists i'.
Qed.

Lemma same_edges_wf t t' : same_edges t t' → tree_wf t → tree_wf t'.
Proof.
  intros H Hwf k i Hi. destruct (same_edges_lookup _ _ _ _ H Hi) as (i' & Hi' & <- & _).
  by apply Hwf.
Qed.

Lemma same_edges_tracked t t' q :
  same_edges t t' → is_Some (pt_processes t' !! q) → is_Some (pt_processes t !! q).
Proof. intros H [i Hi]. destruct (same_edges_lookup _ _ _ _ H Hi) as (i' & -> & _). by eexists. Qed.

Lemma same_edges_acyclic t t' : same_edges t t' → acyclic t → acyclic t'.
Proof.
  intros H [rank Hr]. exists rank. intros p c Hc Hp.
  apply Hr; [by eapply same_edges_child|by eapply same_edges_tracked].
Qed.

Lemma same_edges_subtree t t' pid q : same_edges t t' → in_subtree t' pid q → in_subtree t pid q.
Proof.
  intros H [->|Hq]; [by left|right]. induction Hq as [a b Hab|a b c Hab _ IH].
  - by apply tc_once, (same_edges_child t t').
  - eapply tc_l; [by apply (same_edges_child t t')|done].
Qed.

Lemma switch_same_edges t t' (P : Z → bool) to :
  (∀ q, pt_processes t' !! q = (if P q then set_state to else id) <$> pt_processes t !! q) →
  same_edges t t'.
Proof. intros H q. rewrite H. destruct (pt_processes t !! q), (P q); done. Qed.

(** Shrinking a tree keeps its shape. *)
Lemma submap_shape t t' :
  pt_processes t' ⊆ pt_processes t → tree_wf t ∧ acyclic t → tree_wf t' ∧ acyclic t'.
Proof.
  intros Hsub [Hwf [rank Hr]]. split.
  - intros k i Hi. by apply Hwf, (lookup_weaken _ _ _ _ Hi).
  - exists rank. intros p c (i & Hi & Hp) [j Hj]. apply Hr.
    + exists i. by split; [apply (lookup_weaken _ _ _ _ Hi)|].
    + exists j. by apply (lookup_weaken _ _ _ _ Hj).
Qed.

(** A pid that is neither tracked nor the parent of a tracked process. *)
Definition fresh_pid (t : ProcessTree) (q : Z) : Prop :=
  pt_processes t !! q = None ∧ ∀ k i, pt_processes t !! k = Some i → pi_parent_pid i ≠ q.

Lemma add_child_shape parent q command t t' :
  fresh_pid t q → add_child parent q command t = Ok t' →
  tree_wf t ∧ acyclic t → tree_wf t' ∧ acyclic t'.
Proof.
  intros [Hnew Hpar] Hadd [Hwf [rank Hr]]. unfold add_child in Hadd.
  destruct (pt_processes t !! parent) as [pi|] eqn:Ep; [|done]. injection Hadd as <-. split.
  - intros k i. cbn. destruct (decide (q = k)) as [->|Hne].
    + rewrite lookup_insert_eq. by intros [= <-].
    + rewrite lookup_insert_ne by done. apply Hwf.
  - exists (λ k, if decide (k = q) then S (rank parent) else rank k).
    assert (Hpq : parent ≠ q) by (intros ->; congruence).
    intros p c (i & Hi & Hp) [j Hj]. cbn in Hi, Hj.
    destruct (decide (q = c)) as [->|Hc].
    + rewrite lookup_insert_eq in Hi. injection Hi as <-. cbn in Hp. subst p.
      rewrite decide_False, decide_True by done. lia.
    + rewrite lookup_insert_ne in Hi by done. pose proof (Hpar c i Hi).
      assert (p ≠ q) by congruence. rewrite !decide_False by done.
      rewrite lookup_insert_ne in Hj by done. apply Hr; [by exists i|by exists j].
Qed.

Lemma new_shape root command : root ≠ 0%Z →
  tree_wf (ProcessTree_new root command) ∧ acyclic (ProcessTree_new root command).
Proof.
  intros Hne. split.
  - intros k i. cbn. intros [<- <-]%lookup_singleton_Some. done.
  - exists (λ _, 0). intros p c (i & Hi & Hp) [j Hj]. cbn in Hi, Hj.
    apply lookup_singleton_Some in Hi as [<- <-]. apply lookup_singleton_Some in Hj as [<- _].
    done.
Qed.

(** *** Operation sequences *)

Inductive tree_op :=
  | OpAddChild (parent q : Z) (command : string)
  | OpUpdateCommand (pid : Z) (command : string) (args : list string)
  | OpUpdateState (pid : Z) (state : ProcessState)
  | OpFreeze (pid : Z)
  | OpThaw (pid : Z)
  | OpRemoveExited.

(** An operation that fails, or a freeze that does not return, has no step. *)
Inductive tree_step : tree_op → ProcessTree → ProcessTree → Prop :=
  | step_add parent q command t t' :
      add_child parent q command t = Ok t' → tree_step (OpAddChild parent q command) t t'
  | step_command pid command args t :
      tree_step (OpUpdateCommand pid command args) t (update_command pid command args t)
  | step_state pid state t t' :
      update_state pid state t = Ok t' → tree_step (OpUpdateState pid state) t t'
  | step_freeze pid fuel changed t t' :
      freeze_tree fuel pid t = Some (Ok (changed, t')) → tree_step (OpFreeze pid) t t'
  | step_thaw pid fuel changed t t' :
      thaw_tree fuel pid t = Some (Ok (changed, t')) → tree_step (OpThaw pid) t t'
  | step_remove t : tree_step OpRemoveExited t (remove_exited t).2.

(** Steps in which a new child's pid is not in use anywhere in the tree. *)
Definition fresh_step (t t' : ProcessTree) : Prop :=
  ∃ op, tree_step op t t'
    ∧ match op with OpAddChild _ q _ => fresh_pid t q | _ => True end.

Lemma switch_one_same_edges from to st pid t :
  same_edges t (with_processes st.1 t) →
  same_edges t (with_processes (switch_one from to st pid).1 t).
Proof.
  intros H q. unfold switch_one. destruct (st.1 !! pid) as [i|] eqn:E; [|apply H].
  case_decide; [|apply H]. cbn. destruct (decide (pid = q)) as [->|Hne].
  - rewrite lookup_insert_eq. specialize (H q). cbn in H. rewrite E in H. by rewrite <- H.
  - rewrite lookup_insert_ne by done. apply H.
Qed.

Lemma switch_tree_same_edges from to fuel pid t changed t' :
  switch_tree from to fuel pid t = Some (Ok (changed, t')) → same_edges t t'.
Proof.
  unfold switch_tree. destruct (descendants_of fuel t pid) as [[ds|]|]; [|done..].
  intros [= _ <-]. apply switch_one_same_edges.
  assert (H : ∀ l st, same_edges t (with_processes st.1 t) →
    same_edges t (with_processes (fold_left (switch_one from to) l st).1 t)).
  { induction l as [|x l IH]; intros st Hst; cbn; [done|]. apply IH.
    by apply switch_one_same_edges. }
  by apply H.
Qed.

Lemma fresh_step_shape t t' :
  fresh_step t t' → tree_wf t ∧ acyclic t → tree_wf t' ∧ acyclic t'.
Proof.
  intros (op & Hst & Hfresh) Hshape.
  assert (Hedges : same_edges t t' → tree_wf t' ∧ acyclic t').
  { intros He. destruct Hshape. split; [by eapply same_edges_wf|by eapply same_edges_acyclic]. }
  destruct Hst as [parent q command t t' Hadd|pid command args t|pid state t t' Hup|
                   pid fuel changed t t' Hf|pid fuel changed t t' Hf|t].
  - by eapply add_child_shape.
  - apply Hedges. intros q. cbn. destruct (decide (pid = q)) as [->|].
    + rewrite lookup_alter_eq. by destruct (pt_processes t !! q).
    + by rewrite lookup_alter_ne.
  - apply Hedges. unfold update_state in Hup. destruct (pt_processes t !! pid) as [i|] eqn:E; [|done].
    injection Hup as <-. intros q. cbn. destruct (decide (pid = q)) as [->|].
    + by rewrite lookup_insert_eq, E.
    + by rewrite lookup_insert_ne.
  - apply Hedges. by eapply switch_tree_same_edges.
  - apply Hedges. by eapply switch_tree_same_edges.
  - eapply submap_shape; [|done]. apply map_filter_subseteq.
Qed.
End Operations.

(** ** Properties *)

Section Properties.
Context `{HI : HashIter} `{HL : !HashIterLaws}.

(** Freezing returns and is exact.  In a tree without cycles, with one
    iteration of fuel per tracked process, freezing a tracked process returns
    the running processes among it and its descendants, each once; it marks
    exactly those as frozen and changes nothing else. *)
Theorem freeze_tree_exact t pid fuel
    (Hwf : tree_wf t) (Hacyclic : acyclic t) (Hpid : is_Some (pt_processes t !! pid))
    (Hfuel : size (pt_processes t) ≤ fuel) :
  ∃ frozen t', freeze_tree fuel pid t = Some (Ok (frozen, t'))
    ∧ NoDup frozen
    ∧ (∀ q, q ∈ frozen ↔ in_subtree t pid q ∧ in_state Running (pt_processes t) q = true)
    ∧ (∀ q, pt_processes t' !! q =
            (if decide (q ∈ frozen) then set_state Frozen else id) <$> pt_processes t !! q).
Proof.
  destruct (switch_tree_spec Running Frozen t pid fuel Hwf Hacyclic Hpid Hfuel)
    as (frozen & t' & H & Hn & Hin & _ & Hq).
  by exists frozen, t'.
Qed.

Lemma set_state_back i : pi_state i = Running → set_state Running (set_state Frozen i) = i.
Proof. destruct i; cbn. by intros ->. Qed.

(** Thawing undoes freezing: if nothing below a process was already
    frozen, freezing it and then thawing it gives back the same tree, and both
    report the same processes. *)
Theorem freeze_thaw_round_trip t pid fuel
    (Hwf : tree_wf t) (Hacyclic : acyclic t) (Hpid : is_Some (pt_processes t !! pid))
    (Hfuel : size (pt_processes t) ≤ fuel)
    (Hnone : ∀ q, in_subtree t pid q → is_frozen q t = false) :
  ∃ frozen thawed t', freeze_tree fuel pid t = Some (Ok (frozen, t'))
    ∧ thaw_tree fuel pid t' = Some (Ok (thawed, t)) ∧ frozen ≡ₚ thawed.
Proof.
  destruct (switch_tree_spec Running Frozen t pid fuel Hwf Hacyclic Hpid Hfuel)
    as (frozen & t' & Hf & Hnd & Hin & Hroot & Hq).
  assert (Hedges : same_edges t t')
    by (apply (switch_same_edges t t' (λ q, bool_decide (q ∈ frozen)) Frozen); intros q; rewrite Hq;
        by destruct (decide (q ∈ frozen)); [rewrite bool_decide_eq_true_2|rewrite bool_decide_eq_false_2]).
  assert (Hsub : ∀ q, in_subtree t' pid q ↔ in_subtree t pid q).
  { intros q. split; [by apply same_edges_subtree|by apply same_edges_subtree, same_edges_sym]. }
  assert (Hsize : size (pt_processes t') ≤ fuel).
  { rewrite <- size_dom. replace (dom (pt_processes t')) with (dom (pt_processes t)); [by rewrite size_dom|].
    apply set_eq. intros q. rewrite !elem_of_dom, Hq, fmap_is_Some. done. }
  assert (Hpid' : is_Some (pt_processes t' !! pid)) by by rewrite Hq, fmap_is_Some.
  destruct (switch_tree_spec Frozen Running t' pid fuel (same_edges_wf t t' Hedges Hwf)
    (same_edges_acyclic t t' Hedges Hacyclic) Hpid' Hsize)
    as (thawed & t'' & Ht & Hnd' & Hin' & Hroot' & Hq').
  assert (Hsame : ∀ q, q ∈ thawed ↔ q ∈ frozen).
  { intros q. rewrite Hin', Hsub, Hin. unfold in_state. rewrite Hq.
    destruct (pt_processes t !! q) as [i|] eqn:Ei; [|done]. cbn.
    destruct (decide (q ∈ frozen)) as [Hqf|Hqf]; cbn.
    - apply Hin in Hqf as [Hs Hr]. unfold in_state in Hr. rewrite Ei in Hr. by rewrite Hr.
    - split; intros [Hs Hst]; (split; [done|]).
      + specialize (Hnone q Hs). unfold is_frozen in Hnone. rewrite Ei in Hnone. congruence.
      + destruct Hqf. apply Hin. unfold in_state. by rewrite Ei. }
  exists frozen, thawed, t'. split; [done|]. split; [|by apply NoDup_Permutation; [..|intros q; rewrite Hsame]].
  unfold thaw_tree. rewrite Ht. do 3 f_equal.
  destruct t as [root m], t'' as [root'' m'']. cbn in *. f_equal; [congruence|].
  apply map_eq. intros q. rewrite Hq', Hq.
  destruct (m !! q) as [i|] eqn:Ei; [|done]. cbn.
  destruct (decide (q ∈ frozen)) as [Hqf|Hqf].
  - rewrite decide_True by by apply Hsame. apply Hin in Hqf as [_ Hr].
    unfold in_state in Hr. cbn in Hr. rewrite Ei in Hr. apply bool_decide_eq_true in Hr.
    by rewrite set_state_back.
  - rewrite decide_False by by rewrite Hsame. done.
Qed.

(** Freezing always terminates as long as pids are not reused.  In any tree
    reached from a new one by additions of unused pids, updates, freezes, thaws
    and removals, freezing any tracked process returns. *)
Theorem freeze_terminates root command t pid
    (Hroot : root ≠ 0%Z) (Hreach : rtc fresh_step (ProcessTree_new root command) t)
    (Hpid : is_Some (pt_processes t !! pid)) :
  ∃ frozen t', freeze_tree (size (pt_processes t)) pid t = Some (Ok (frozen, t')).
Proof.
  assert (Hshape : tree_wf t ∧ acyclic t).
  { assert (H0 := new_shape root command Hroot). revert H0.
    induction Hreach as [|t1 t2 t3 Hst _ IH]; [done|]. intros H0. apply IH; [done|].
    by eapply fresh_step_shape. }
  destruct Hshape as [Hwf Hac].
  destruct (switch_tree_spec Running Frozen t pid _ Hwf Hac Hpid (le_n _))
    as (frozen & t' & H & _). by exists frozen, t'.
Qed.

(** A process on a cycle of the stack keeps the loop going. *)
Lemma descend_cycle t fuel stack found x :
  tree_wf t → x ∈ stack → tc (child t) x x → descend fuel t stack found = None.
Proof.
  intros Hwf. revert stack found x. induction fuel as [|fuel IH]; intros stack found x Hx Hc;
    (destruct stack as [|current stack]; [by apply not_elem_of_nil in Hx|]); cbn; [done|].
  destruct (decide (current = x)) as [->|Hne].
  - assert (Hy : ∃ y, child t x y ∧ tc (child t) y y).
    { inversion Hc as [? ? Hxx|? y ? Hxy Hyx]; subst; [by exists x|].
      exists y. split; [done|]. eapply tc_r; [exact Hyx|done]. }
    destruct Hy as (y & Hxy & Hyy). apply (IH _ _ y); [|done].
    apply elem_of_app. left. apply elem_of_reverse. by apply children_of_spec.
  - apply (IH _ _ x); [|done]. apply elem_of_app. right. by apply elem_of_cons in Hx as [->|].
Qed.

(** On a cycle the traversal never ends: freezing a process that descends
    from itself does not return, whatever the number of iterations.  The
    witness reaches such a tree by successful operations only, through the
    reuse of the pid of a removed process. *)
Theorem freeze_cycle_diverges t pid fuel
    (Hwf : tree_wf t) (Hcycle : tc (child t) pid pid) : freeze_tree fuel pid t = None.
Proof.
  assert (Hpid : is_Some (pt_processes t !! pid)).
  { assert (Htr : ∀ a b, tc (child t) a b → is_Some (pt_processes t !! b)).
    { induction 1 as [a b (i & Hi & _)|]; [by rewrite Hi|done]. }
    by eapply Htr. }
  destruct Hpid as [i Hi]. unfold freeze_tree, switch_tree, descendants_of. rewrite Hi.
  by rewrite (descend_cycle t fuel [pid] [] pid Hwf (list_elem_of_here _ _) Hcycle).
Qed.

End Properties.

Module Example_tree.
#[local] Instance example_iter : HashIter := concrete_iter.
#[local] Instance example_iter_laws : HashIterLaws := concrete_iter_laws.

(** A shell (1), its child (2) and grandchild (3). *)
Definition after {A} (r : result A) (d : A) : A := match r with Ok a => a | Err _ => d end.
Definition root : ProcessTree := ProcessTree_new 1 "sh".
Definition t2 : ProcessTree := after (add_child 1 2 "node" root) root.
Definition t3 : ProcessTree := after (add_child 2 3 "git" t2) root.

(** Process 2 exits and is removed; process 3 forks a child that gets pid 2. *)
Definition reaped : ProcessTree := (remove_exited (after (update_state 2 Exited t3) root)).2.
Definition reused : ProcessTree := after (add_child 3 2 "cc" reaped) root.

Lemma fresh_ok t q :
  bool_decide (map_Forall (λ k i, k ≠ q ∧ pi_parent_pid i ≠ q) (pt_processes t)) = true →
  fresh_pid t q.
Proof.
  intros H%bool_decide_eq_true. split.
  - destruct (pt_processes t !! q) as [i|] eqn:E; [|done]. by destruct (H q i E).
  - intros k i Hk. by destruct (H k i Hk).
Qed.

Lemma t3_reachable : rtc fresh_step root t3.
Proof.
  eapply rtc_l; [exists (OpAddChild 1 2 "node"); split; [by apply step_add|by apply fresh_ok]|].
  eapply rtc_l; [exists (OpAddChild 2 3 "git"); split; [by apply step_add|by apply fresh_ok]|].
  apply rtc_refl.
Qed.

Lemma t3_shape : tree_wf t3 ∧ acyclic t3.
Proof.
  assert (H0 : tree_wf root ∧ acyclic root) by by apply new_shape.
  revert H0. induction t3_reachable as [|a b c Hst _ IH]; [done|].
  intros H0. apply IH. by eapply fresh_step_shape.
Qed.
End Example_tree.

Lemma freeze_tree_exact_witness :
  let I := concrete_iter in
  ∃ frozen t', freeze_tree 3 2 Example_tree.t3 = Some (Ok (frozen, t')) ∧ NoDup frozen.
Proof.
  intros I.
  destruct (@freeze_tree_exact concrete_iter concrete_iter_laws Example_tree.t3 2 3
    (proj1 Example_tree.t3_shape) (proj2 Example_tree.t3_shape)
    ltac:(vm_compute; eexists; reflexivity) ltac:(vm_compute; lia)) as (frozen & t' & H & Hn & _).
  exists frozen, t'. split; [exact H|exact Hn].
Defined.

Lemma freeze_thaw_round_trip_witness :
  let I := concrete_iter in
  ∃ frozen t', freeze_tree 3 2 Example_tree.t3 = Some (Ok (frozen, t'))
    ∧ ∃ thawed, thaw_tree 3 2 t' = Some (Ok (thawed, Example_tree.t3)).
Proof.
  intros I.
  destruct (@freeze_thaw_round_trip concrete_iter concrete_iter_laws Example_tree.t3 2 3
    (proj1 Example_tree.t3_shape) (proj2 Example_tree.t3_shape)
    ltac:(vm_compute; eexists; reflexivity) ltac:(vm_compute; lia))
    as (frozen & thawed & t' & H & Ht & _).
  - intros q _. unfold is_frozen.
    destruct (pt_processes Example_tree.t3 !! q) as [i|] eqn:E; [|reflexivity].
    assert (Hall : map_Forall (λ _ i, pi_state i = Running) (pt_processes Example_tree.t3))
      by (apply (bool_decide_unpack _); vm_compute; exact Logic.I).
    rewrite (Hall q i E). reflexivity.
  - exists frozen, t'. split; [exact H|]. exists thawed. exact Ht.
Defined.

Lemma freeze_terminates_witness :
  let I := concrete_iter in
  ∃ frozen t', freeze_tree (size (pt_processes Example_tree.t3)) 1 Example_tree.t3
               = Some (Ok (frozen, t')).
Proof.
  intros I.
  apply (@freeze_terminates concrete_iter concrete_iter_laws 1 "sh" Example_tree.t3 1
    ltac:(lia) Example_tree.t3_reachable ltac:(vm_compute; eexists; reflexivity)).
Defined.

Lemma freeze_cycle_diverges_witness :
  let I := concrete_iter in
  add_child 3 2 "cc" Example_tree.reaped = Ok Example_tree.reused
  ∧ freeze_tree 1000 2 Example_tree.reused = None.
Proof.
  intros I. split; [reflexivity|].
  apply (@freeze_cycle_diverges concrete_iter concrete_iter_laws Example_tree.reused 2 1000).
  - assert (Hall : map_Forall (λ k i, pi_pid i = k) (pt_processes Example_tree.reused))
      by (apply (bool_decide_unpack _); vm_compute; exact Logic.I).
    exact Hall.
  - eapply (tc_l _ 2%Z 3%Z 2%Z); [|apply tc_once].
    + exists {| pi_pid := 3; pi_parent_pid := 2; pi_command := "git"; pi_args := [];
                pi_state := Running |}. split; reflexivity.
    + exists {| pi_pid := 2; pi_parent_pid := 3; pi_command := "cc"; pi_args := [];
                pi_state := Running |}. split; reflexivity.
Defined.
