(* ===== verification/DbusWire.v ===== *)
(** * The D-Bus wire decoder

    [crates/grith-supervisor/src/dbus/wire.rs]: decoding of the messages a traced
    process is about to write to a bus socket.  Buffers are lists of bytes and
    offsets are [usize] values as integers; indexing, slicing and unchecked
    additions panic in the model when they would panic in the code. *)

From Stdlib Require Import Ascii.
From Stdlib Require Strings.Byte Strings.String.
From S2P Require Import Prelude Concrete.

Abbreviation byte := Byte.byte.

#[export] Instance byte_eq_dec : EqDecision byte := Byte.byte_eq_dec.

Definition byte_Z (b : byte) : Z := Z.of_N (Byte.to_N b).

Definition MAX_MESSAGE_LEN : Z := 256 * 1024.
Definition MAX_HEADER_FIELDS : nat := 64.
Definition MAX_MESSAGES_PER_CALL : nat := 64.
Definition MAX_FIELD_STR : Z := 255.
Definition FIXED_HEADER_LEN : Z := 16.
Definition BEGIN_LINE : list byte := String.list_byte_of_string "BEGIN" ++ [Byte.x0d; Byte.x0a].
Definition MAX_AUTH_LEN : Z := 4096.

Inductive WireError :=
  | Malformed (what : string)
  | MessageTooLarge
  | AuthTooLong.

#[export] Instance WireError_eq_dec : EqDecision WireError.
Proof. solve_decision. Defined.

Definition WireError_tag (e : WireError) : string :=
  match e with
  | Malformed what => what
  | MessageTooLarge => "message-too-large"
  | AuthTooLong => "auth-too-long"
  end.

(** ** Outcomes: a value, an error, or a panic *)

Inductive outcome (A : Type) :=
  | Done (a : A)
  | Fail (e : WireError)
  | Panic.
Arguments Done {A}.
Arguments Fail {A}.
Arguments Panic {A}.

#[export] Instance outcome_ret : MRet outcome := λ A, Done.
#[export] Instance outcome_bind : MBind outcome := λ A B k m,
  match m with Done a => k a | Fail e => Fail e | Panic => Panic end.

(** [option.ok_or(e)?] *)
Definition ok_or {A} (o : option A) (what : string) : outcome A :=
  match o with Some a => Done a | None => Fail (Malformed what) end.

Definition len (buf : list byte) : Z := Z.of_nat (length buf).

(** [+] with overflow checks. *)
Definition uadd (a b : Z) : outcome Z :=
  match checked_add a b with Some c => Done c | None => Panic end.

(** [buf.get(i)], [buf.get(a..b)], [buf[i]], [&buf[..i]] and [&buf[i..]]. *)
Definition get (buf : list byte) (i : Z) : option byte :=
  if ((0 <=? i) && (i <? len buf))%Z then buf !! Z.to_nat i else None.
Definition get_range (buf : list byte) (a b : Z) : option (list byte) :=
  if ((0 <=? a) && (a <=? b) && (b <=? len buf))%Z
  then Some (take (Z.to_nat (b - a)) (drop (Z.to_nat a) buf)) else None.
Definition index (buf : list byte) (i : Z) : outcome byte :=
  match get buf i with Some b => Done b | None => Panic end.
Definition slice_to (buf : list byte) (i : Z) : outcome (list byte) :=
  if ((0 <=? i) && (i <=? len buf))%Z then Done (take (Z.to_nat i) buf) else Panic.
Definition slice_from (buf : list byte) (i : Z) : outcome (list byte) :=
  if ((0 <=? i) && (i <=? len buf))%Z then Done (drop (Z.to_nat i) buf) else Panic.

(** ** Messages *)

Inductive MessageType :=
  | MethodCall | MethodReturn | ErrorReply | Signal | Other (code : Z).

#[export] Instance MessageType_eq_dec : EqDecision MessageType.
Proof. solve_decision. Defined.

Definition MessageType_from_code (code : Z) : MessageType :=
  match code with
  | 1 => MethodCall
  | 2 => MethodReturn
  | 3 => ErrorReply
  | 4 => Signal
  | other => Other other
  end%Z.

Record DbusMessage := {
  dm_msg_type : option MessageType;
  dm_destination : option string;
  dm_path : option string;
  dm_interface : option string;
  dm_member : option string;
  dm_signature : option string;
  dm_body_first_string : option string;
}.

#[export] Instance DbusMessage_eq_dec : EqDecision DbusMessage.
Proof. solve_decision. Defined.

Definition DbusMessage_default : DbusMessage := {|
  dm_msg_type := None; dm_destination := None; dm_path := None; dm_interface := None;
  dm_member := None; dm_signature := None; dm_body_first_string := None;
|}.

Definition describe (m : DbusMessage) : string :=
  let dest := default "(no destination)" (dm_destination m) in
  match dm_interface m, dm_member m with
  | Some iface, Some member => dest +:+ " → " +:+ iface +:+ "." +:+ member
  | None, Some member => dest +:+ " → " +:+ member
  | Some iface, None => dest +:+ " → " +:+ iface
  | None, None => dest
  end.

Inductive Phase := Auth | Messages.

#[export] Instance Phase_eq_dec : EqDecision Phase.
Proof. solve_decision. Defined.

Record Decoded := {
  dec_messages : list DbusMessage;
  dec_consumed : Z;
  dec_phase : Phase;
}.

(** ** The handshake *)

Definition strip_nul (line : list byte) : list byte :=
  match line with Byte.x00 :: line' => line' | _ => line end.

(** Line by line: [line] is the part of the current line already read. *)
Fixpoint find_begin_loop (line : list byte) (off : Z) (buf : list byte) : option Z :=
  match buf with
  | [] => None
  | b :: buf' =>
      let line := line ++ [b] in
      if decide (b = Byte.x0a) then
        if decide (strip_nul line = BEGIN_LINE) then Some (off + 1)%Z
        else find_begin_loop [] (off + 1)%Z buf'
      else find_begin_loop line (off + 1)%Z buf'
  end.

Definition find_begin (buf : list byte) : outcome (option Z) :=
  match find_begin_loop [] 0 buf with
  | Some end_ => Done (Some end_)
  | None => if (MAX_AUTH_LEN <? len buf)%Z then Fail AuthTooLong else Done None
  end.

(** ** Values *)

Definition u32_of_bytes (bytes : list byte) (little_endian : bool) : Z :=
  fold_right (λ b acc, byte_Z b + 256 * acc)%Z 0%Z
    (if little_endian then bytes else reverse bytes).

Definition read_u32 (buf : list byte) (off : Z) (little_endian : bool) : outcome Z :=
  end_ ← ok_or (checked_add off 4) "u32-offset-overflow";
  bytes ← ok_or (get_range buf off end_) "u32-out-of-bounds";
  Done (u32_of_bytes bytes little_endian).

Definition align_up (off align : Z) : outcome Z :=
  let mask := (align - 1)%Z in
  v ← ok_or (checked_add off mask) "align-overflow";
  Done (Z.land v (Z.lnot mask)).

(** [std::str::from_utf8]: the well-formed byte sequences of Unicode's table 3-7. *)
Definition in_range (lo hi : N) (b : byte) : bool :=
  ((lo <=? Byte.to_N b) && (Byte.to_N b <=? hi))%N.
Definition cont : byte → bool := in_range 128 191.

Fixpoint utf8_valid (l : list byte) : bool :=
  match l with
  | [] => true
  | b0 :: l1 =>
      if in_range 0 127 b0 then utf8_valid l1
      else
        match l1 with
        | [] => false
        | b1 :: l2 =>
            if in_range 194 223 b0 then cont b1 && utf8_valid l2
            else
              match l2 with
              | [] => false
              | b2 :: l3 =>
                  if in_range 224 239 b0 then
                    (if in_range 224 224 b0 then in_range 160 191 b1
                     else if in_range 237 237 b0 then in_range 128 159 b1 else cont b1)
                    && cont b2 && utf8_valid l3
                  else
                    match l3 with
                    | [] => false
                    | b3 :: l4 =>
                        in_range 240 244 b0
                        && (if in_range 240 240 b0 then in_range 144 191 b1
                            else if in_range 244 244 b0 then in_range 128 143 b1 else cont b1)
                        && cont b2 && cont b3 && utf8_valid l4
                    end
              end
        end
  end.

(** [len_bytes] is 4 for a string or path and 1 for a signature. *)
Definition read_string (buf : list byte) (off : Z) (little_endian : bool) (len_bytes : Z) :
    outcome (string * Z) :=
  '(n, after_len) ←
    (if (len_bytes =? 4)%Z then
       off ← align_up off 4;
       n ← read_u32 buf off little_endian;
       a ← uadd off 4;
       Done (n, a)
     else
       b ← ok_or (get buf off) "strlen-out-of-bounds";
       a ← uadd off 1;
       Done (byte_Z b, a));
  if (MAX_FIELD_STR <? n)%Z then Fail (Malformed "string-too-long")
  else
    end_ ← ok_or (checked_add after_len n) "string-offset-overflow";
    bytes ← ok_or (get_range buf after_len end_) "string-out-of-bounds";
    if decide (get buf end_ ≠ Some Byte.x00) then Fail (Malformed "string-not-nul-terminated")
    else if negb (utf8_valid bytes) then Fail (Malformed "string-not-utf8")
    else
      next ← uadd end_ 1;
      Done (String.string_of_list_byte bytes, next).

Definition skip_fixed (buf : list byte) (off align size : Z) : outcome Z :=
  start ← align_up off align;
  end_ ← ok_or (checked_add start size) "fixed-offset-overflow";
  if (len buf <? end_)%Z then Fail (Malformed "fixed-out-of-bounds") else Done end_.

Definition one_of (c : ascii) (cs : list ascii) : bool := existsb (ascii_eqb c) cs.

Definition skip_simple_value (buf : list byte) (off : Z) (little_endian : bool) (sig : ascii) :
    outcome Z :=
  if one_of sig ["y"%char] then skip_fixed buf off 1 1
  else if one_of sig ["b"; "u"; "i"]%char then skip_fixed buf off 4 4
  else if one_of sig ["n"; "q"]%char then skip_fixed buf off 2 2
  else if one_of sig ["x"; "t"; "d"]%char then skip_fixed buf off 8 8
  else if one_of sig ["h"%char] then skip_fixed buf off 4 4
  else if one_of sig ["s"; "o"]%char then
    '(_, next) ← read_string buf off little_endian 4; Done next
  else if one_of sig ["g"%char] then
    '(_, next) ← read_string buf off little_endian 1; Done next
  else Fail (Malformed "unsupported-variant-type").

(** ** Header fields *)

Definition is_string_field (code : Z) (sig : ascii) : bool :=
  ((code =? 1)%Z && ascii_eqb sig "o")
  || (((code =? 2) || (code =? 3) || (code =? 6))%Z && ascii_eqb sig "s").

Definition set_field (code : Z) (value : string) (m : DbusMessage) : DbusMessage := {|
  dm_msg_type := dm_msg_type m;
  dm_destination := if (code =? 6)%Z then Some value else dm_destination m;
  dm_path := if (code =? 1)%Z then Some value else dm_path m;
  dm_interface := if (code =? 2)%Z then Some value else dm_interface m;
  dm_member := if (code =? 3)%Z then Some value else dm_member m;
  dm_signature := if (code =? 8)%Z then Some value else dm_signature m;
  dm_body_first_string := dm_body_first_string m;
|}.

(** The value of one header field. *)
Definition read_field_value (buf : list byte) (after_sig : Z) (little_endian : bool) (code : Z)
    (sig : ascii) (out : DbusMessage) : outcome (DbusMessage * Z) :=
  if is_string_field code sig then
    '(value, next) ← read_string buf after_sig little_endian 4;
    Done (set_field code value out, next)
  else if (code =? 8)%Z && ascii_eqb sig "g" then
    '(value, next) ← read_string buf after_sig little_endian 1;
    Done (set_field code value out, next)
  else
    next ← skip_simple_value buf after_sig little_endian sig;
    Done (out, next).

(** [remaining] is how many more fields the bound allows. *)
Fixpoint read_header_fields (remaining : nat) (buf : list byte) (off end_ : Z)
    (little_endian : bool) (out : DbusMessage) : outcome DbusMessage :=
  if (end_ <=? off)%Z then Done out
  else
    match remaining with
    | O => Fail (Malformed "too-many-header-fields")
    | S remaining' =>
        off ← align_up off 8;
        if (end_ <=? off)%Z then Done out
        else
          code ← ok_or (get buf off) "field-code-out-of-bounds";
          sig_off ← uadd off 1;
          '(sig, after_sig) ← read_string buf sig_off little_endian 1;
          match sig with
          | String c EmptyString =>
              '(out, next) ← read_field_value buf after_sig little_endian (byte_Z code) c out;
              if (next <=? off)%Z then Fail (Malformed "field-made-no-progress")
              else read_header_fields remaining' buf next end_ little_endian out
          | _ => Fail (Malformed "multi-char-variant-signature")
          end
    end.

Definition signature_starts_with_s (m : DbusMessage) : bool :=
  match dm_signature m with
  | Some (String c _) => ascii_eqb c "s"
  | _ => false
  end.

Definition set_body_first (o : option string) (m : DbusMessage) : DbusMessage := {|
  dm_msg_type := dm_msg_type m; dm_destination := dm_destination m; dm_path := dm_path m;
  dm_interface := dm_interface m; dm_member := dm_member m; dm_signature := dm_signature m;
  dm_body_first_string := o;
|}.

Definition with_type (code : Z) : DbusMessage := {|
  dm_msg_type := Some (MessageType_from_code code); dm_destination := None; dm_path := None;
  dm_interface := None; dm_member := None; dm_signature := None; dm_body_first_string := None;
|}.

(** [read_string(..).ok()]: an error is no string; a panic stays one. *)
Definition try_ok {A} (m : outcome A) : outcome (option A) :=
  match m with Done a => Done (Some a) | Fail _ => Done None | Panic => Panic end.

Definition read_message (buf : list byte) : outcome (option (DbusMessage * Z)) :=
  if (len buf <? FIXED_HEADER_LEN)%Z then Done None
  else
    b0 ← index buf 0;
    little_endian ←
      (if decide (b0 = Byte.x6c) then Done true
       else if decide (b0 = Byte.x42) then Done false
       else Fail (Malformed "bad-endianness-flag"));
    b3 ← index buf 3;
    if negb (byte_Z b3 =? 1)%Z then Fail (Malformed "bad-protocol-version")
    else
      body_len ← read_u32 buf 4 little_endian;
      fields_len ← read_u32 buf 12 little_endian;
      fields_end ← ok_or (checked_add FIXED_HEADER_LEN fields_len) "fields-len-overflow";
      body_start ← align_up fields_end 8;
      total ← ok_or (checked_add body_start body_len) "total-len-overflow";
      if (MAX_MESSAGE_LEN <? total)%Z then Fail MessageTooLarge
      else if (len buf <? total)%Z then Done None
      else
        b1 ← index buf 1;
        message ← read_header_fields MAX_HEADER_FIELDS buf FIXED_HEADER_LEN fields_end
                    little_endian (with_type (byte_Z b1));
        if (0 <? body_len)%Z && signature_starts_with_s message then
          own ← slice_to buf total;
          body ← try_ok (read_string own body_start little_endian 4);
          Done (Some (set_body_first (fst <$> body) message, total))
        else Done (Some (message, total)).

(** [remaining] is how many more messages the bound allows. *)
Fixpoint decode_loop (remaining : nat) (buf : list byte) : outcome (list DbusMessage * Z) :=
  r ← read_message buf;
  match r with
  | None => Done ([], 0%Z)
  | Some (message, n) =>
      match remaining with
      | O => Fail (Malformed "too-many-messages")
      | S remaining' =>
          rest ← slice_from buf n;
          '(messages, consumed) ← decode_loop remaining' rest;
          Done (message :: messages, (n + consumed)%Z)
      end
  end.

Definition decode (buf : list byte) (phase : Phase) : outcome Decoded :=
  start ←
    (match phase with
     | Messages => Done (Some 0%Z)
     | Auth => find_begin buf
     end);
  match start with
  | None => Done {| dec_messages := []; dec_consumed := 0; dec_phase := Auth |}
  | Some off =>
      rest ← slice_from buf off;
      '(messages, consumed) ← decode_loop MAX_MESSAGES_PER_CALL rest;
      Done {| dec_messages := messages; dec_consumed := (off + consumed)%Z;
              dec_phase := Messages |}
  end.

(** ** Outcomes that never panic *)

(** The value satisfies [P], if there is one, and there is no panic. *)
Definition ok {A} (P : A → Prop) (m : outcome A) : Prop :=
  match m with Done a => P a | Fail _ => True | Panic => False end.

Lemma ok_bind {A B} (P : A → Prop) (Q : B → Prop) (m : outcome A) (k : A → outcome B) :
  ok P m → (∀ a, P a → ok Q (k a)) → ok Q (m ≫= k).
Proof. destruct m; cbn; auto. Qed.

Lemma ok_weaken {A} (P Q : A → Prop) (m : outcome A) : ok P m → (∀ a, P a → Q a) → ok Q m.
Proof. destruct m; cbn; auto. Qed.

Lemma ok_or_ok {A} (o : option A) what : ok (λ a, o = Some a) (ok_or o what).
Proof. by destruct o. Qed.

Lemma uadd_ok a b : (a + b < 2 ^ 64)%Z → ok (λ c, c = (a + b)%Z) (uadd a b).
Proof. intros H. unfold uadd, checked_add. by destruct (Z.ltb_spec (a + b) (2 ^ 64)); [|lia]. Qed.

Lemma len_nonneg buf : (0 <= len buf)%Z.
Proof. unfold len. lia. Qed.

Lemma get_Some buf i b :
  get buf i = Some b → (0 <= i < len buf)%Z ∧ buf !! Z.to_nat i = Some b.
Proof.
  unfold get. destruct (Z.leb_spec 0 i), (Z.ltb_spec i (len buf)); cbn; done.
Qed.

Lemma get_range_Some buf a b l :
  get_range buf a b = Some l →
  (0 <= a <= b)%Z ∧ (b <= len buf)%Z ∧ l = take (Z.to_nat (b - a)) (drop (Z.to_nat a) buf).
Proof.
  unfold get_range.
  destruct (Z.leb_spec 0 a), (Z.leb_spec a b), (Z.leb_spec b (len buf)); cbn; try done.
  intros [= <-]. by split_and!; try lia.
Qed.

Lemma index_ok buf i : (0 <= i < len buf)%Z → ok (λ b, get buf i = Some b) (index buf i).
Proof.
  intros H. unfold index. destruct (get buf i) as [b|] eqn:E; [done|]. exfalso. revert E.
  unfold get. destruct (Z.leb_spec 0 i), (Z.ltb_spec i (len buf)); try lia. cbn.
  intros E%lookup_ge_None. unfold len in *. lia.
Qed.

Lemma slice_to_ok buf i :
  (0 <= i <= len buf)%Z → ok (λ l, l = take (Z.to_nat i) buf ∧ len l = i) (slice_to buf i).
Proof.
  intros H. unfold slice_to. destruct (Z.leb_spec 0 i), (Z.leb_spec i (len buf)); try lia.
  cbn. split; [done|]. unfold len in *. rewrite length_take. lia.
Qed.

Lemma slice_from_ok buf i :
  (0 <= i <= len buf)%Z → ok (λ l, l = drop (Z.to_nat i) buf ∧ len l = (len buf - i)%Z) (slice_from buf i).
Proof.
  intros H. unfold slice_from. destruct (Z.leb_spec 0 i), (Z.leb_spec i (len buf)); try lia.
  cbn. split; [done|]. unfold len in *. rewrite length_drop. lia.
Qed.

Lemma byte_Z_range b : (0 <= byte_Z b < 256)%Z.
Proof. unfold byte_Z. pose proof (Byte.to_N_bounded b). lia. Qed.

Lemma u32_range bytes le :
  length bytes = 4 → (0 <= u32_of_bytes bytes le < 2 ^ 32)%Z.
Proof.
  assert (H : ∀ l, (0 <= fold_right (λ b acc, byte_Z b + 256 * acc) 0 l < 256 ^ Z.of_nat (length l))%Z).
  { induction l as [|b l IH]; cbn [fold_right length]; [done|].
    pose proof (byte_Z_range b). rewrite Nat2Z.inj_succ, Z.pow_succ_r by lia. lia. }
  intros Hl. unfold u32_of_bytes. specialize (H (if le then bytes else reverse bytes)).
  replace (length (if le then bytes else reverse bytes)) with 4 in H; [exact H|].
  destruct le; [done|by rewrite length_reverse].
Qed.

Lemma read_u32_ok buf off le :
  ok (λ n, (0 <= n < 2 ^ 32)%Z ∧ (0 <= off)%Z ∧ (off + 4 <= len buf)%Z) (read_u32 buf off le).
Proof.
  unfold read_u32. eapply ok_bind; [apply ok_or_ok|]. intros e He.
  apply checked_add_Some in He as [-> _].
  eapply ok_bind; [apply ok_or_ok|]. intros bytes Hb. apply get_range_Some in Hb as (H1 & H2 & ->).
  cbn. split; [|lia]. apply u32_range. unfold len in *. rewrite length_take, length_drop. lia.
Qed.

(** [off & !(align - 1)] is the multiple of a power of two below. *)
Lemma align_land v k : (0 <= k)%Z → Z.land v (Z.lnot (2 ^ k - 1)) = (2 ^ k * (v / 2 ^ k))%Z.
Proof.
  intros Hk. replace (2 ^ k - 1)%Z with (Z.ones k) by (rewrite Z.ones_equiv; lia).
  rewrite <- Z.ldiff_land, Z.ldiff_ones_r by done.
  rewrite Z.shiftl_mul_pow2, Z.shiftr_div_pow2 by done. lia.
Qed.

Lemma align_up_ok off k :
  (0 <= k)%Z → (0 <= off)%Z →
  ok (λ v, (off <= v < off + 2 ^ k)%Z ∧ (v mod 2 ^ k = 0)%Z) (align_up off (2 ^ k)).
Proof.
  intros Hk Ho. unfold align_up. eapply ok_bind; [apply ok_or_ok|]. intros e He.
  apply checked_add_Some in He as [-> _]. cbn. rewrite align_land by done.
  pose proof (Z.pow_pos_nonneg 2 k ltac:(lia) Hk) as Hp.
  pose proof (Z.div_mod (off + (2 ^ k - 1)) (2 ^ k) ltac:(lia)).
  pose proof (Z.mod_pos_bound (off + (2 ^ k - 1)) (2 ^ k) Hp).
  split; [lia|]. rewrite Z.mul_comm. apply Z.mod_mul. lia.
Qed.

Definition align_up_ok4 off := align_up_ok off 2.
Definition align_up_ok8 off := align_up_ok off 3.

(** Buffers are no longer than an allocation can be. *)
Definition buf_ok (buf : list byte) : Prop := (len buf < 2 ^ 63)%Z.

Lemma read_string_ok buf off le n :
  buf_ok buf → (0 <= off)%Z →
  ok (λ r, (off < r.2 <= len buf)%Z) (read_string buf off le n).
Proof.
  intros Hb Ho. unfold buf_ok in Hb. unfold read_string.
  eapply (ok_bind (λ r : Z * Z, (0 <= r.1)%Z ∧ (off < r.2 <= len buf)%Z)).
  - destruct (n =? 4)%Z.
    + eapply ok_bind; [apply (align_up_ok off 2); lia|]. intros v [Hv _].
      eapply ok_bind; [apply read_u32_ok|]. intros m (Hm & _ & Hl).
      eapply ok_bind; [apply uadd_ok; lia|]. intros a ->. cbn. lia.
    + eapply ok_bind; [apply ok_or_ok|]. intros b Hg%get_Some.
      eapply ok_bind; [apply uadd_ok; lia|]. intros a ->. cbn. pose proof (byte_Z_range b). lia.
  - intros [m a] [Hm Ha]. cbn in Hm, Ha. destruct (_ <? _)%Z; [done|].
    eapply ok_bind; [apply ok_or_ok|]. intros e [-> _]%checked_add_Some.
    eapply ok_bind; [apply ok_or_ok|]. intros bytes (H1 & H2 & _)%get_range_Some.
    destruct (decide _) as [|Hnul%dec_stable]; [done|]. destruct (negb _); [done|].
    apply get_Some in Hnul as [Hlt _].
    eapply ok_bind; [apply uadd_ok; lia|]. intros c ->. cbn. lia.
Qed.

Lemma skip_fixed_ok buf off k size :
  (0 <= k)%Z → (0 <= off)%Z → (0 < size)%Z →
  ok (λ next, (off < next <= len buf)%Z) (skip_fixed buf off (2 ^ k) size).
Proof.
  intros Hk Ho Hs. unfold skip_fixed. eapply ok_bind; [by apply align_up_ok|]. intros v [Hv _].
  eapply ok_bind; [apply ok_or_ok|]. intros e [-> _]%checked_add_Some.
  destruct (Z.ltb_spec (len buf) (v + size)); cbn; [done|lia].
Qed.

Lemma skip_simple_value_ok buf off le sig :
  buf_ok buf → (0 <= off)%Z → ok (λ next, (off < next <= len buf)%Z) (skip_simple_value buf off le sig).
Proof.
  intros Hb Ho. unfold skip_simple_value.
  destruct (one_of _ _); [apply (skip_fixed_ok buf off 0); lia|].
  destruct (one_of _ _); [apply (skip_fixed_ok buf off 2); lia|].
  destruct (one_of _ _); [apply (skip_fixed_ok buf off 1); lia|].
  destruct (one_of _ _); [apply (skip_fixed_ok buf off 3); lia|].
  destruct (one_of _ _); [apply (skip_fixed_ok buf off 2); lia|].
  destruct (one_of _ _).
  { eapply ok_bind; [by apply read_string_ok|]. by intros [s next]. }
  destruct (one_of _ _); [|done].
  eapply ok_bind; [by apply read_string_ok|]. by intros [s next].
Qed.

Lemma read_field_value_ok buf off le code sig out :
  buf_ok buf → (0 <= off)%Z →
  ok (λ r, (off < r.2 <= len buf)%Z) (read_field_value buf off le code sig out).
Proof.
  intros Hb Ho. unfold read_field_value. destruct (is_string_field _ _).
  { eapply ok_bind; [by apply read_string_ok|]. by intros [s next]. }
  destruct (_ && _).
  { eapply ok_bind; [by apply read_string_ok|]. by intros [s next]. }
  eapply ok_bind; [by apply skip_simple_value_ok|]. done.
Qed.

Lemma read_header_fields_ok n buf off end_ le out :
  buf_ok buf → (0 <= off)%Z → ok (λ _, True) (read_header_fields n buf off end_ le out).
Proof.
  intros Hb. revert off out. induction n as [|n IH]; intros off out Ho; cbn [read_header_fields];
    (destruct (_ <=? _)%Z; [done|]); [done|].
  eapply ok_bind; [apply (align_up_ok off 3); lia|]. intros v [Hv _].
  destruct (_ <=? _)%Z; [done|].
  eapply ok_bind; [apply ok_or_ok|]. intros code Hg%get_Some.
  eapply ok_bind; [apply uadd_ok; unfold buf_ok in Hb; lia|]. intros so ->.
  eapply ok_bind; [apply read_string_ok; [done|lia]|]. intros [sig after] Ha. cbn in Ha.
  destruct sig as [|c [|]]; [done| |done].
  eapply ok_bind; [apply read_field_value_ok; [done|lia]|]. intros [out' next] Hn. cbn in Hn.
  destruct (_ <=? _)%Z; [done|]. apply IH. lia.
Qed.

Lemma read_message_ok buf :
  buf_ok buf →
  ok (λ r, ∀ m n, r = Some (m, n) → (16 <= n <= len buf)%Z ∧ (n <= MAX_MESSAGE_LEN)%Z)
    (read_message buf).
Proof.
  intros Hb. unfold read_message. destruct (Z.ltb_spec (len buf) FIXED_HEADER_LEN); [by cbn|].
  unfold FIXED_HEADER_LEN in *.
  eapply ok_bind; [apply index_ok; lia|]. intros b0 _.
  eapply (ok_bind (λ _, True)); [by repeat case_decide|]. intros le _.
  eapply ok_bind; [apply index_ok; lia|]. intros b3 _. destruct (negb _); [done|].
  eapply ok_bind; [apply read_u32_ok|]. intros body_len (Hbl & _).
  eapply ok_bind; [apply read_u32_ok|]. intros fields_len (Hfl & _).
  eapply ok_bind; [apply ok_or_ok|]. intros fe [-> _]%checked_add_Some.
  eapply ok_bind; [apply (align_up_ok _ 3); lia|]. intros bst [Hbst _].
  eapply ok_bind; [apply ok_or_ok|]. intros total [-> _]%checked_add_Some.
  destruct (Z.ltb_spec MAX_MESSAGE_LEN (bst + body_len)); [done|].
  destruct (Z.ltb_spec (len buf) (bst + body_len)); [by cbn|].
  eapply ok_bind; [apply index_ok; lia|]. intros b1 _.
  eapply ok_bind; [apply read_header_fields_ok; [done|lia]|]. intros msg _.
  assert (Hn : ∀ (m m' : DbusMessage) n, Some (m, (bst + body_len)%Z) = Some (m', n) →
                 (16 <= n <= len buf)%Z ∧ (n <= MAX_MESSAGE_LEN)%Z)
    by (intros m m' n [= _ <-]; lia).
  destruct (_ && _); [|exact (Hn _)].
  eapply ok_bind; [apply slice_to_ok; lia|]. intros own [_ Hown].
  eapply (ok_bind (λ _, True)); [|intros ? _; exact (Hn _)].
  assert (Hs := read_string_ok own bst le 4 ltac:(unfold buf_ok in *; lia) ltac:(lia)).
  by destruct (read_string own bst le 4).
Qed.

(** The messages decoded, the bytes they take, and what is left. *)
Definition loop_post (n : nat) (buf : list byte) (r : list DbusMessage * Z) : Prop :=
  length r.1 ≤ n ∧ (16 * Z.of_nat (length r.1) <= r.2 <= len buf)%Z
  ∧ read_message (drop (Z.to_nat r.2) buf) = Done None.

Lemma decode_loop_ok n buf : buf_ok buf → ok (loop_post n buf) (decode_loop n buf).
Proof.
  revert buf. induction n as [|n IH]; intros buf Hb; cbn [decode_loop].
  - pose proof (read_message_ok buf Hb) as Hm.
    destruct (read_message buf) as [[[m k]|]| |] eqn:E; cbn; try done.
    unfold loop_post; cbn. pose proof (len_nonneg buf). by split_and!; try lia.
  - pose proof (read_message_ok buf Hb) as Hm.
    destruct (read_message buf) as [[[m k]|]| |] eqn:E; cbn; try done.
    + cbn in Hm. destruct (Hm m k eq_refl) as [Hk _].
      eapply ok_bind; [apply slice_from_ok; lia|]. intros rest [-> Hl].
      eapply ok_bind; [apply IH; unfold buf_ok in *; lia|]. intros [ms c] (H1 & H2 & H3).
      cbn in *. unfold loop_post; cbn. split_and!; [lia|lia|lia|].
      rewrite drop_drop in H3. by rewrite Z2Nat.inj_add by lia.
    + unfold loop_post; cbn. pose proof (len_nonneg buf). by split_and!; try lia.
Qed.

(** ** Decoding a longer buffer *)

(** A value stays the same value. *)
Definition ext {A} (m m' : outcome A) : Prop := ∀ a, m = Done a → m' = Done a.
Definition ext_some {A} (m m' : outcome (option A)) : Prop :=
  ∀ a, m = Done (Some a) → m' = Done (Some a).

Lemma ext_refl {A} (m : outcome A) : ext m m.
Proof. by intros a. Qed.

Lemma ext_bind {A B} (m m' : outcome A) (k k' : A → outcome B) :
  ext m m' → (∀ a, ext (k a) (k' a)) → ext (m ≫= k) (m' ≫= k').
Proof. intros Hm Hk b. destruct m as [a| |]; cbn; try done. rewrite (Hm a eq_refl). apply Hk. Qed.

Lemma ext_some_bind {A B} (m m' : outcome A) (k k' : A → outcome (option B)) :
  ext m m' → (∀ a, m = Done a → ext_some (k a) (k' a)) → ext_some (m ≫= k) (m' ≫= k').
Proof. intros Hm Hk b. destruct m as [a| |]; cbn; try done. rewrite (Hm a eq_refl). by apply Hk. Qed.

Lemma ext_ok_or {A} (o o' : option A) what :
  (∀ a, o = Some a → o' = Some a) → ext (ok_or o what) (ok_or o' what).
Proof. intros H a. destruct o; cbn; [|done]. intros [= ->]. by rewrite (H a eq_refl). Qed.

Section Extension.
Variables buf more : list byte.

Lemma len_app : (len (buf ++ more) = len buf + len more)%Z.
Proof. unfold len. rewrite length_app. lia. Qed.

Lemma get_app i b : get buf i = Some b → get (buf ++ more) i = Some b.
Proof.
  intros [Hi Hl]%get_Some. unfold get. pose proof (len_nonneg more).
  destruct (Z.leb_spec 0 i), (Z.ltb_spec i (len (buf ++ more)));
    rewrite len_app in *; try lia. by apply lookup_app_l_Some.
Qed.

Lemma get_range_app a b l : get_range buf a b = Some l → get_range (buf ++ more) a b = Some l.
Proof.
  intros (H1 & H2 & ->)%get_range_Some. unfold get_range. pose proof (len_nonneg more).
  destruct (Z.leb_spec 0 a), (Z.leb_spec a b), (Z.leb_spec b (len (buf ++ more)));
    rewrite len_app in *; try lia. cbn. unfold len in *.
  rewrite drop_app_le by lia. rewrite take_app_le; [done|]. rewrite length_drop. lia.
Qed.

Lemma index_app i : ext (index buf i) (index (buf ++ more) i).
Proof.
  intros b. unfold index. destruct (get buf i) eqn:E; [|done]. intros [= ->].
  by rewrite (get_app i b E).
Qed.

Lemma slice_to_app i : ext (slice_to buf i) (slice_to (buf ++ more) i).
Proof.
  intros l. unfold slice_to. pose proof (len_nonneg more).
  destruct (Z.leb_spec 0 i), (Z.leb_spec i (len buf)); cbn; try done.
  intros [= <-]. destruct (Z.leb_spec i (len (buf ++ more))); rewrite len_app in *; [|lia].
  cbn. f_equal. apply take_app_le. unfold len in *. lia.
Qed.

Lemma slice_from_app i l :
  slice_from buf i = Done l → slice_from (buf ++ more) i = Done (l ++ more).
Proof.
  unfold slice_from. pose proof (len_nonneg more).
  destruct (Z.leb_spec 0 i), (Z.leb_spec i (len buf)); cbn; try done.
  intros [= <-]. destruct (Z.leb_spec i (len (buf ++ more))); rewrite len_app in *; [|lia].
  cbn. f_equal. apply drop_app_le. unfold len in *. lia.
Qed.

Lemma read_u32_app off le : ext (read_u32 buf off le) (read_u32 (buf ++ more) off le).
Proof.
  apply ext_bind; [apply ext_refl|]. intros e.
  apply ext_bind; [apply ext_ok_or; intros l; apply get_range_app|]. intros l. apply ext_refl.
Qed.

Lemma read_string_app off le n : ext (read_string buf off le n) (read_string (buf ++ more) off le n).
Proof.
  apply ext_bind.
  - destruct (n =? 4)%Z.
    + apply ext_bind; [apply ext_refl|]. intros v.
      apply ext_bind; [apply read_u32_app|]. intros m. apply ext_refl.
    + apply ext_bind; [apply ext_ok_or; intros b; apply get_app|]. intros b. apply ext_refl.
  - intros [m a]. destruct (_ <? _)%Z; [done|]. apply ext_bind; [apply ext_refl|]. intros e.
    apply ext_bind; [apply ext_ok_or; intros l; apply get_range_app|]. intros l.
    destruct (decide _) as [|Hnul%dec_stable]; [done|].
    rewrite decide_False by (rewrite (get_app e _ Hnul); tauto). apply ext_refl.
Qed.

Lemma skip_fixed_app off al size : ext (skip_fixed buf off al size) (skip_fixed (buf ++ more) off al size).
Proof.
  apply ext_bind; [apply ext_refl|]. intros v. apply ext_bind; [apply ext_refl|]. intros e.
  intros next. pose proof (len_nonneg more).
  destruct (Z.ltb_spec (len buf) e), (Z.ltb_spec (len (buf ++ more)) e); try done.
  rewrite len_app in *. lia.
Qed.

Lemma skip_simple_value_app off le sig :
  ext (skip_simple_value buf off le sig) (skip_simple_value (buf ++ more) off le sig).
Proof.
  unfold skip_simple_value. repeat (destruct (one_of _ _); [
    first [apply skip_fixed_app|apply ext_bind; [apply read_string_app|intros []; apply ext_refl]]|]).
  apply ext_refl.
Qed.

Lemma read_field_value_app off le code sig out :
  ext (read_field_value buf off le code sig out) (read_field_value (buf ++ more) off le code sig out).
Proof.
  unfold read_field_value. destruct (is_string_field _ _).
  { apply ext_bind; [apply read_string_app|intros []; apply ext_refl]. }
  destruct (_ && _).
  { apply ext_bind; [apply read_string_app|intros []; apply ext_refl]. }
  apply ext_bind; [apply skip_simple_value_app|intros ?; apply ext_refl].
Qed.

Lemma read_header_fields_app n off end_ le out :
  ext (read_header_fields n buf off end_ le out) (read_header_fields n (buf ++ more) off end_ le out).
Proof.
  revert off out. induction n as [|n IH]; intros off out; cbn [read_header_fields];
    (destruct (_ <=? _)%Z; [apply ext_refl|]); [apply ext_refl|].
  apply ext_bind; [apply ext_refl|]. intros v. destruct (_ <=? _)%Z; [apply ext_refl|].
  apply ext_bind; [apply ext_ok_or; intros b; apply get_app|]. intros code.
  apply ext_bind; [apply ext_refl|]. intros so.
  apply ext_bind; [apply read_string_app|]. intros [sig after].
  destruct sig as [|c [|]]; [done| |done].
  apply ext_bind; [apply read_field_value_app|]. intros [out' next].
  destruct (_ <=? _)%Z; [done|apply IH].
Qed.

Lemma try_ok_refl {A} (m : outcome A) : ext (try_ok m) (try_ok m).
Proof. apply ext_refl. Qed.

(** A complete message is decoded the same with anything after it. *)
Lemma read_message_app : ext_some (read_message buf) (read_message (buf ++ more)).
Proof.
  intros r. unfold read_message. pose proof (len_nonneg more).
  destruct (Z.ltb_spec (len buf) FIXED_HEADER_LEN); [done|].
  destruct (Z.ltb_spec (len (buf ++ more)) FIXED_HEADER_LEN); [rewrite len_app in *; lia|].
  revert r. apply ext_some_bind; [apply index_app|]. intros b0 _.
  apply ext_some_bind; [apply ext_refl|]. intros le _.
  apply ext_some_bind; [apply index_app|]. intros b3 _. destruct (negb _); [done|].
  apply ext_some_bind; [apply read_u32_app|]. intros body_len _.
  apply ext_some_bind; [apply read_u32_app|]. intros fields_len _.
  apply ext_some_bind; [apply ext_refl|]. intros fe _.
  apply ext_some_bind; [apply ext_refl|]. intros bst _.
  apply ext_some_bind; [apply ext_refl|]. intros total _.
  destruct (_ <? _)%Z; [done|].
  intros r. destruct (Z.ltb_spec (len buf) total); [done|].
  destruct (Z.ltb_spec (len (buf ++ more)) total); [rewrite len_app in *; lia|]. revert r.
  apply ext_some_bind; [apply index_app|]. intros b1 _.
  apply ext_some_bind; [apply read_header_fields_app|]. intros msg _.
  destruct (_ && _); [|by intros r]. apply ext_some_bind; [apply slice_to_app|].
  intros own _. by intros r.
Qed.

Lemma find_begin_loop_app line off e :
  find_begin_loop line off buf = Some e → find_begin_loop line off (buf ++ more) = Some e.
Proof.
  revert line off. induction buf as [|b l IH]; intros line off; cbn; [done|].
  repeat case_decide; auto.
Qed.
End Extension.

Lemma find_begin_loop_bounds line off buf e :
  find_begin_loop line off buf = Some e → (off <= e <= off + len buf)%Z.
Proof.
  revert line off. induction buf as [|b l IH]; intros line off; cbn; [done|].
  assert (Hl : len (b :: l) = (1 + len l)%Z) by (unfold len; cbn; lia). rewrite Hl.
  pose proof (len_nonneg l). repeat case_decide; [intros [= <-]; lia|..];
    intros Hin%IH; lia.
Qed.

(** *** The loop over messages *)

Lemma decode_loop_budget n n' buf ms c :
  decode_loop n buf = Done (ms, c) → length ms ≤ n' → decode_loop n' buf = Done (ms, c).
Proof.
  revert n' buf ms c. induction n as [|n IH]; intros n' buf ms c; cbn [decode_loop].
  - destruct (read_message buf) as [[[m k]|]| |] eqn:E; try done.
    intros [= <- <-] _. destruct n'; cbn [decode_loop]; by rewrite E.
  - destruct (read_message buf) as [[[m k]|]| |] eqn:E; try done.
    + cbn [mbind outcome_bind]. destruct (slice_from buf k) as [rest| |] eqn:Er; try done.
      cbn [mbind outcome_bind]. destruct (decode_loop n rest) as [[ms' c']| |] eqn:El; try done.
      intros [= <- <-] Hlen. cbn in Hlen. destruct n' as [|n']; [lia|].
      cbn [decode_loop]. rewrite E. cbn [mbind outcome_bind]. rewrite Er. cbn [mbind outcome_bind].
      by rewrite (IH n' rest ms' c' El) by lia.
    + intros [= <- <-] _. destruct n'; cbn [decode_loop]; by rewrite E.
Qed.

Lemma decode_loop_app n n' m buf more ms ms' c c' :
  decode_loop n buf = Done (ms, c) →
  decode_loop n' (drop (Z.to_nat c) buf ++ more) = Done (ms', c') →
  buf_ok buf → length ms + length ms' ≤ m →
  decode_loop m (buf ++ more) = Done (ms ++ ms', (c + c')%Z).
Proof.
  revert m buf ms c. induction n as [|n IH]; intros m buf ms c; cbn [decode_loop].
  - destruct (read_message buf) as [[[msg k]|]| |] eqn:E; try done.
    intros [= <- <-] H _ Hm. cbn in *. by eapply decode_loop_budget.
  - destruct (read_message buf) as [[[msg k]|]| |] eqn:E; try done.
    + cbn [mbind outcome_bind]. intros H1 H2 Hb Hm. pose proof (read_message_ok buf Hb) as Hok.
      rewrite E in Hok. destruct (Hok msg k eq_refl) as [Hk _]. clear Hok.
      assert (Hs := slice_from_ok buf k ltac:(lia)).
      destruct (slice_from buf k) as [rest| |] eqn:Er; try done. destruct Hs as [-> Hl].
      cbn [mbind outcome_bind] in H1.
      destruct (decode_loop n (drop (Z.to_nat k) buf)) as [[ms1 c1]| |] eqn:El; try done.
      injection H1 as <- <-. cbn in Hm. destruct m as [|m]; [lia|]. cbn [decode_loop].
      rewrite (read_message_app buf more _ E). cbn [mbind outcome_bind].
      rewrite (slice_from_app buf more k _ Er). cbn [mbind outcome_bind].
      assert (Hb1 : buf_ok (drop (Z.to_nat k) buf)) by (unfold buf_ok in *; lia).
      pose proof (decode_loop_ok n _ Hb1) as Hp. rewrite El in Hp. destruct Hp as (_ & Hc1 & _).
      cbn in Hc1.
      rewrite (IH m (drop (Z.to_nat k) buf) ms1 c1 El); [cbn; do 2 f_equal; lia| |done|lia].
      rewrite drop_drop, <- Z2Nat.inj_add by lia. exact H2.
    + intros [= <- <-] H _ Hm. cbn in *. by eapply decode_loop_budget.
Qed.

Lemma slice_from_0 buf : slice_from buf 0 = Done buf.
Proof. unfold slice_from. pose proof (len_nonneg buf). by destruct (Z.leb_spec 0 (len buf)); [|lia]. Qed.

(** Decoding in the message phase is the loop. *)
Lemma decode_messages_inv buf d :
  decode buf Messages = Done d →
  decode_loop MAX_MESSAGES_PER_CALL buf = Done (dec_messages d, dec_consumed d)
  ∧ dec_phase d = Messages.
Proof.
  unfold decode. cbn [mbind outcome_bind]. rewrite slice_from_0. cbn [mbind outcome_bind].
  destruct (decode_loop _ buf) as [[ms c]| |]; cbn; try done. by intros [= <-].
Qed.

Lemma decode_messages buf ms c :
  decode_loop MAX_MESSAGES_PER_CALL buf = Done (ms, c) →
  decode buf Messages = Done {| dec_messages := ms; dec_consumed := c; dec_phase := Messages |}.
Proof.
  intros H. unfold decode. cbn [mbind outcome_bind]. rewrite slice_from_0.
  cbn [mbind outcome_bind]. by rewrite H.
Qed.

(** What an authenticating channel's decoding does. *)
Lemma decode_auth_inv buf d :
  decode buf Auth = Done d →
  (d = {| dec_messages := []; dec_consumed := 0; dec_phase := Auth |}) ∨
  ∃ off rest c, find_begin_loop [] 0 buf = Some off ∧ slice_from buf off = Done rest
    ∧ decode_loop MAX_MESSAGES_PER_CALL rest = Done (dec_messages d, c)
    ∧ dec_consumed d = (off + c)%Z ∧ dec_phase d = Messages.
Proof.
  unfold decode, find_begin. destruct (find_begin_loop [] 0 buf) as [off|] eqn:E.
  - cbn [mbind outcome_bind]. destruct (slice_from buf off) as [rest| |] eqn:Er; try done.
    cbn [mbind outcome_bind]. destruct (decode_loop _ rest) as [[ms c]| |] eqn:El; try done.
    cbn. intros [= <-]. right. by exists off, rest, c.
  - destruct (_ <? _)%Z; cbn; [done|]. intros [= <-]. by left.
Qed.

(** ** The wire format, as the D-Bus specification writes it *)

Definition byte_of_Z (n : Z) : byte := default Byte.x00 (Byte.of_N (Z.to_N (n mod 256))).

Definition enc_u32 (le : bool) (n : Z) : list byte :=
  let bytes := [byte_of_Z n; byte_of_Z (n / 256); byte_of_Z (n / 65536); byte_of_Z (n / 16777216)] in
  if le then bytes else reverse bytes.

Definition str_bytes (s : string) : list byte := String.list_byte_of_string s.
Definition str_ok (s : string) : Prop :=
  (len (str_bytes s) <= MAX_FIELD_STR)%Z ∧ utf8_valid (str_bytes s) = true.

(** A string, and a signature, with their terminators. *)
Definition enc_string (le : bool) (s : string) : list byte :=
  enc_u32 le (len (str_bytes s)) ++ str_bytes s ++ [Byte.x00].
Definition enc_signature (s : string) : list byte :=
  [byte_of_Z (len (str_bytes s))] ++ str_bytes s ++ [Byte.x00].

Inductive field_sig := SigString | SigPath | SigSignature.

Definition sig_string (g : field_sig) : string :=
  match g with SigString => "s" | SigPath => "o" | SigSignature => "g" end.

Record wire_field := { wf_code : byte; wf_sig : field_sig; wf_value : string }.

Definition enc_field (le : bool) (f : wire_field) : list byte :=
  [wf_code f] ++ enc_signature (sig_string (wf_sig f))
  ++ match wf_sig f with
     | SigSignature => enc_signature (wf_value f)
     | _ => enc_string le (wf_value f)
     end.

Definition padding (off al : Z) : list byte := repeat Byte.x00 (Z.to_nat ((- off) mod al)).

(** The fields from offset [off] of the message, each aligned to 8. *)
Fixpoint enc_fields (le : bool) (off : Z) (fs : list wire_field) : list byte :=
  match fs with
  | [] => []
  | f :: fs' =>
      let bytes := padding off 8 ++ enc_field le f in
      bytes ++ enc_fields le (off + len bytes) fs'
  end.

(** An empty body, or one whose first argument is a string. *)
Inductive wire_body := EmptyBody | StringBody (first : string) (rest : list byte).

Definition enc_body (le : bool) (b : wire_body) : list byte :=
  match b with EmptyBody => [] | StringBody first rest => enc_string le first ++ rest end.

Definition enc_message (le : bool) (code flags : byte) (serial : list byte)
    (fs : list wire_field) (b : wire_body) : list byte :=
  let fields := enc_fields le FIXED_HEADER_LEN fs in
  [if le then Byte.x6c else Byte.x42; code; flags; Byte.x01]
  ++ enc_u32 le (len (enc_body le b)) ++ serial ++ enc_u32 le (len fields)
  ++ fields ++ padding (FIXED_HEADER_LEN + len fields) 8 ++ enc_body le b.

(** What a field contributes to the decoded message. *)
Definition apply_field (m : DbusMessage) (f : wire_field) : DbusMessage :=
  let code := byte_Z (wf_code f) in
  match wf_sig f with
  | SigString => if ((code =? 2) || (code =? 3) || (code =? 6))%Z then set_field code (wf_value f) m else m
  | SigPath => if (code =? 1)%Z then set_field code (wf_value f) m else m
  | SigSignature => if (code =? 8)%Z then set_field code (wf_value f) m else m
  end.

Definition expected_message (code : byte) (fs : list wire_field) (b : wire_body) : DbusMessage :=
  let m := fold_left apply_field fs (with_type (byte_Z code)) in
  match b with
  | StringBody first _ => if signature_starts_with_s m then set_body_first (Some first) m else m
  | EmptyBody => m
  end.

(** *** Reading back what was written *)

Lemma byte_Z_of n : byte_Z (byte_of_Z n) = (n mod 256)%Z.
Proof.
  unfold byte_of_Z, byte_Z. pose proof (Z.mod_pos_bound n 256 ltac:(lia)).
  destruct (Byte.of_N (Z.to_N (n mod 256))) as [b|] eqn:E; cbn.
  - apply Byte.to_of_N in E. rewrite E. lia.
  - apply Byte.of_N_None_iff in E. lia.
Qed.

Lemma len_app2 l l' : len (l ++ l') = (len l + len l')%Z.
Proof. unfold len. rewrite length_app. lia. Qed.

Lemma len_cons b l : len (b :: l) = (1 + len l)%Z.
Proof. unfold len. cbn. lia. Qed.

Lemma len_one b : len [b] = 1%Z.
Proof. done. Qed.

Lemma len_enc_u32 le n : len (enc_u32 le n) = 4%Z.
Proof. by destruct le. Qed.

Lemma get_at pre b post : get (pre ++ b :: post) (len pre) = Some b.
Proof.
  unfold get. pose proof (len_nonneg pre). pose proof (len_nonneg post).
  rewrite len_app2, len_cons.
  destruct (Z.leb_spec 0 (len pre)), (Z.ltb_spec (len pre) (len pre + (1 + len post))); try lia.
  cbn. unfold len. rewrite Nat2Z.id. by rewrite lookup_app_r, Nat.sub_diag by lia.
Qed.

Lemma get_range_at pre l post :
  get_range (pre ++ l ++ post) (len pre) (len pre + len l) = Some l.
Proof.
  unfold get_range. pose proof (len_nonneg pre). pose proof (len_nonneg post). pose proof (len_nonneg l).
  rewrite !len_app2.
  destruct (Z.leb_spec 0 (len pre)), (Z.leb_spec (len pre) (len pre + len l)),
    (Z.leb_spec (len pre + len l) (len pre + (len l + len post))); try lia.
  cbn. unfold len. rewrite Nat2Z.id, drop_app_length.
  replace (Z.to_nat _) with (length l) by lia. by rewrite take_app_length.
Qed.

Lemma checked_add_ok a b : (a + b < 2 ^ 64)%Z → checked_add a b = Some (a + b)%Z.
Proof. intros H. unfold checked_add. by destruct (Z.ltb_spec (a + b) (2 ^ 64)); [|lia]. Qed.

Lemma uadd_done a b : (a + b < 2 ^ 64)%Z → uadd a b = Done (a + b)%Z.
Proof. intros H. unfold uadd. by rewrite checked_add_ok. Qed.

Lemma u32_roundtrip le n : (0 <= n < 2 ^ 32)%Z → u32_of_bytes (enc_u32 le n) le = n.
Proof.
  intros Hn. unfold u32_of_bytes, enc_u32.
  replace (if le then if le then _ else _ else reverse _)
    with [byte_of_Z n; byte_of_Z (n / 256); byte_of_Z (n / 65536); byte_of_Z (n / 16777216)]
    by by destruct le.
  cbn [fold_right]. rewrite !byte_Z_of.
  pose proof (Z.div_mod n 256 ltac:(lia)).
  pose proof (Z.div_mod (n / 256) 256 ltac:(lia)) as H1. rewrite Z.div_div in H1 by lia.
  pose proof (Z.div_mod (n / 65536) 256 ltac:(lia)) as H2. rewrite Z.div_div in H2 by lia.
  change (256 * 256)%Z with 65536%Z in H1. change (65536 * 256)%Z with 16777216%Z in H2.
  rewrite (Z.mod_small (n / 16777216) 256); [lia|].
  split; [apply Z.div_pos; lia|apply Z.div_lt_upper_bound; lia].
Qed.

Lemma read_u32_at pre le n post :
  buf_ok pre → (0 <= n < 2 ^ 32)%Z →
  read_u32 (pre ++ enc_u32 le n ++ post) (len pre) le = Done n.
Proof.
  intros Hb Hn. unfold read_u32, buf_ok in *. rewrite checked_add_ok by lia. cbn [ok_or mbind outcome_bind].
  rewrite <- (len_enc_u32 le n), get_range_at. cbn [ok_or mbind outcome_bind].
  by rewrite u32_roundtrip.
Qed.

Lemma align_up_val off k :
  (0 <= k <= 3)%Z → (0 <= off < 2 ^ 63)%Z →
  align_up off (2 ^ k) = Done (off + (- off) mod 2 ^ k)%Z.
Proof.
  intros Hk Ho. unfold align_up.
  assert (Hp : (1 <= 2 ^ k <= 8)%Z)
    by (split; [apply (Z.pow_le_mono_r 2 0 k); lia|apply (Z.pow_le_mono_r 2 k 3); lia]).
  rewrite checked_add_ok by lia. cbn [ok_or mbind outcome_bind]. f_equal.
  rewrite align_land by lia.
  assert (k = 0 ∨ k = 1 ∨ k = 2 ∨ k = 3)%Z as [->|[->|[->| ->]]] by lia;
    cbn [Z.pow Z.pow_pos Pos.iter Z.mul Pos.mul];
    Z.to_euclidean_division_equations; lia.
Qed.

Lemma align_up4 off : (0 <= off < 2 ^ 63)%Z → align_up off 4 = Done (off + (- off) mod 4)%Z.
Proof. intros H. exact (align_up_val off 2 ltac:(lia) H). Qed.

Lemma align_up8 off : (0 <= off < 2 ^ 63)%Z → align_up off 8 = Done (off + (- off) mod 8)%Z.
Proof. intros H. exact (align_up_val off 3 ltac:(lia) H). Qed.

(** The part common to strings and signatures, after the length. *)
Lemma read_string_tail pre s post buf :
  buf = pre ++ str_bytes s ++ [Byte.x00] ++ post → buf_ok buf → str_ok s →
  get_range buf (len pre) (len pre + len (str_bytes s)) = Some (str_bytes s)
  ∧ get buf (len pre + len (str_bytes s)) = Some Byte.x00
  ∧ uadd (len pre + len (str_bytes s)) 1 = Done (len pre + len (str_bytes s) + 1)%Z
  ∧ checked_add (len pre) (len (str_bytes s)) = Some (len pre + len (str_bytes s))%Z
  ∧ String.string_of_list_byte (str_bytes s) = s.
Proof.
  intros -> Hb [Hl Hu]. unfold buf_ok in Hb. rewrite !len_app2 in Hb.
  pose proof (len_nonneg post). pose proof (len_nonneg pre). pose proof (len_nonneg (str_bytes s)).
  change (len [Byte.x00]) with 1%Z in Hb. split_and!.
  - apply get_range_at.
  - rewrite <- len_app2. rewrite app_assoc. apply get_at.
  - apply uadd_done. lia.
  - apply checked_add_ok. lia.
  - apply String.string_of_list_byte_of_string.
Qed.

Lemma read_string4_at pre le s post :
  buf_ok (pre ++ enc_string le s ++ post) → str_ok s → (len pre mod 4 = 0)%Z →
  read_string (pre ++ enc_string le s ++ post) (len pre) le 4
  = Done (s, (len pre + len (enc_string le s))%Z).
Proof.
  intros Hb Hs Hal. unfold enc_string in *.
  assert (Hbuf : pre ++ (enc_u32 le (len (str_bytes s)) ++ str_bytes s ++ [Byte.x00]) ++ post
    = (pre ++ enc_u32 le (len (str_bytes s))) ++ str_bytes s ++ [Byte.x00] ++ post)
    by by rewrite <- !app_assoc.
  destruct (read_string_tail _ s post _ Hbuf Hb Hs) as (H1 & H2 & H3 & H4 & H5).
  rewrite !len_app2, len_enc_u32 in H1, H2, H3, H4.
  assert (Hbp : (len pre + 4 + len (str_bytes s) + 1 < 2 ^ 63)%Z).
  { unfold buf_ok in Hb. rewrite !len_app2, len_enc_u32 in Hb. change (len [Byte.x00]) with 1%Z in Hb.
    pose proof (len_nonneg post). lia. }
  pose proof (len_nonneg pre). pose proof (len_nonneg (str_bytes s)). destruct Hs as [Hl Hu].
  unfold MAX_FIELD_STR in Hl.
  unfold read_string. change (4 =? 4)%Z with true. cbn match.
  rewrite align_up4 by lia.
  rewrite Z.mod_opp_l_z, Z.add_0_r by lia. cbn [mbind outcome_bind].
  replace (pre ++ _ ++ post) with (pre ++ enc_u32 le (len (str_bytes s)) ++ (str_bytes s ++ [Byte.x00]) ++ post)
    in * by by rewrite <- !app_assoc.
  rewrite read_u32_at by (unfold buf_ok in *; lia). cbn [mbind outcome_bind].
  rewrite uadd_done by lia. cbn [mbind outcome_bind].
  destruct (Z.ltb_spec MAX_FIELD_STR (len (str_bytes s))); [unfold MAX_FIELD_STR in *; lia|].
  rewrite H4. cbn [ok_or mbind outcome_bind]. rewrite H1. cbn [ok_or mbind outcome_bind].
  rewrite decide_False by (rewrite H2; tauto). rewrite Hu. cbn [negb]. rewrite H3.
  cbn [mbind outcome_bind]. rewrite H5. rewrite !len_app2, len_enc_u32.
  change (len [Byte.x00]) with 1%Z. do 2 f_equal. lia.
Qed.

Lemma read_string1_at pre le s post :
  buf_ok (pre ++ enc_signature s ++ post) → str_ok s →
  read_string (pre ++ enc_signature s ++ post) (len pre) le 1
  = Done (s, (len pre + len (enc_signature s))%Z).
Proof.
  intros Hb Hs. unfold enc_signature in *.
  set (n := byte_of_Z (len (str_bytes s))) in *.
  assert (Hbuf : pre ++ ([n] ++ str_bytes s ++ [Byte.x00]) ++ post
    = (pre ++ [n]) ++ str_bytes s ++ [Byte.x00] ++ post) by by rewrite <- !app_assoc.
  destruct (read_string_tail _ s post _ Hbuf Hb Hs) as (H1 & H2 & H3 & H4 & H5).
  rewrite !len_app2 in H1, H2, H3, H4. change (len [n]) with 1%Z in H1, H2, H3, H4.
  assert (Hbp : (len pre + 1 + len (str_bytes s) + 1 < 2 ^ 63)%Z).
  { unfold buf_ok in Hb. rewrite !len_app2 in Hb. change (len [n]) with 1%Z in Hb.
    change (len [Byte.x00]) with 1%Z in Hb. pose proof (len_nonneg post). lia. }
  pose proof (len_nonneg pre). pose proof (len_nonneg (str_bytes s)). destruct Hs as [Hl Hu].
  unfold MAX_FIELD_STR in Hl.
  unfold read_string. change (1 =? 4)%Z with false. cbn match.
  change (pre ++ ([n] ++ str_bytes s ++ [Byte.x00]) ++ post) with
    (pre ++ n :: ((str_bytes s ++ [Byte.x00]) ++ post)) in *.
  rewrite get_at. cbn [ok_or mbind outcome_bind]. rewrite uadd_done by lia. cbn [mbind outcome_bind].
  assert (Hn : byte_Z n = len (str_bytes s)) by (unfold n; rewrite byte_Z_of; apply Z.mod_small; lia).
  rewrite Hn.
  destruct (Z.ltb_spec MAX_FIELD_STR (len (str_bytes s))); [unfold MAX_FIELD_STR in *; lia|].
  rewrite H4. cbn [ok_or mbind outcome_bind]. rewrite H1. cbn [ok_or mbind outcome_bind].
  rewrite decide_False by (rewrite H2; tauto). rewrite Hu. cbn [negb]. rewrite H3.
  cbn [mbind outcome_bind]. rewrite H5. rewrite !len_app2.
  change (len [n]) with 1%Z. change (len [Byte.x00]) with 1%Z. do 2 f_equal. lia.
Qed.

Lemma sig_ok g : str_ok (sig_string g).
Proof. by destruct g. Qed.

Lemma len_enc_signature s : len (enc_signature s) = (len (str_bytes s) + 2)%Z.
Proof. unfold enc_signature. rewrite !len_app2, !len_one. lia. Qed.

Lemma len_enc_string le s : len (enc_string le s) = (len (str_bytes s) + 5)%Z.
Proof. unfold enc_string. rewrite !len_app2, len_enc_u32, len_one. lia. Qed.

Lemma len_padding off : len (padding off 8) = ((- off) mod 8)%Z.
Proof.
  unfold padding, len. rewrite repeat_length.
  pose proof (Z.mod_pos_bound (- off) 8 ltac:(lia)). lia.
Qed.

Lemma len_sig g : len (str_bytes (sig_string g)) = 1%Z.
Proof. by destruct g. Qed.

Lemma len_enc_field le f : (6 <= len (enc_field le f))%Z.
Proof.
  unfold enc_field. rewrite !len_app2, len_enc_signature, len_sig. change (len [wf_code f]) with 1%Z.
  pose proof (len_nonneg (str_bytes (wf_value f))).
  destruct (wf_sig f); rewrite ?len_enc_signature, ?len_enc_string; lia.
Qed.

Lemma skip_s buf off le :
  skip_simple_value buf off le "s" = ('(_, next) ← read_string buf off le 4; Done next).
Proof. done. Qed.
Lemma skip_o buf off le :
  skip_simple_value buf off le "o" = ('(_, next) ← read_string buf off le 4; Done next).
Proof. done. Qed.
Lemma skip_g buf off le :
  skip_simple_value buf off le "g" = ('(_, next) ← read_string buf off le 1; Done next).
Proof. done. Qed.

(** The value of a field, read after its signature. *)
Lemma read_field_value_at pre le f post out :
  let v := match wf_sig f with SigSignature => enc_signature (wf_value f) | _ => enc_string le (wf_value f) end in
  buf_ok (pre ++ v ++ post) → str_ok (wf_value f) → (len pre mod 4 = 0)%Z →
  ∀ c, sig_string (wf_sig f) = String c "" →
  read_field_value (pre ++ v ++ post) (len pre) le (byte_Z (wf_code f)) c out
  = Done (apply_field out f, (len pre + len v)%Z).
Proof.
  intros v Hb Hs Hal c Hc. unfold read_field_value, apply_field, is_string_field. subst v.
  destruct (wf_sig f); cbn [sig_string] in Hc; injection Hc as <-.
  - change (ascii_eqb "s" "o") with false. change (ascii_eqb "s" "s") with true.
    change (ascii_eqb "s" "g") with false.
    rewrite ?andb_false_r, ?andb_true_r, ?orb_false_l.
    destruct (_ || _); [|rewrite skip_s]; by rewrite read_string4_at.
  - change (ascii_eqb "o" "o") with true. change (ascii_eqb "o" "s") with false.
    change (ascii_eqb "o" "g") with false.
    rewrite ?andb_false_r, ?andb_true_r, ?orb_false_r.
    destruct (_ =? _)%Z; [|rewrite skip_o]; by rewrite read_string4_at.
  - change (ascii_eqb "g" "o") with false. change (ascii_eqb "g" "s") with false.
    change (ascii_eqb "g" "g") with true.
    rewrite ?andb_false_r, ?andb_true_r, ?orb_false_r.
    destruct (_ =? _)%Z; [|rewrite skip_g]; by rewrite read_string1_at.
Qed.

Lemma padded_mod4 p : ((p + (- p) mod 8 + 1 + (1 + 2)) mod 4 = 0)%Z.
Proof.
  rewrite (Z.mod_eq (- p) 8) by lia.
  replace (p + (- p - 8 * (- p / 8)) + 1 + (1 + 2))%Z with ((1 - 2 * (- p / 8)) * 4)%Z by lia.
  by apply Z.mod_mul.
Qed.

Lemma read_header_fields_step n pre le f post end_ out :
  let bytes := padding (len pre) 8 ++ enc_field le f in
  buf_ok (pre ++ bytes ++ post) → str_ok (wf_value f) →
  (len pre + len bytes <= end_)%Z →
  read_header_fields (S n) (pre ++ bytes ++ post) (len pre) end_ le out
  = read_header_fields n (pre ++ bytes ++ post) (len pre + len bytes) end_ le (apply_field out f).
Proof.
  intros bytes Hb Hs Hend. pose proof (len_nonneg pre) as Hp.
  pose proof (len_enc_field le f) as Hlf. pose proof (len_nonneg post) as Hpost.
  assert (Hbytes : len bytes = ((- len pre) mod 8 + len (enc_field le f))%Z)
    by (unfold bytes; by rewrite len_app2, len_padding).
  pose proof (Z.mod_pos_bound (- len pre) 8 ltac:(lia)) as Hmod.
  assert (Hsz : (len pre + len bytes < 2 ^ 63)%Z)
    by (unfold buf_ok in Hb; rewrite !len_app2 in Hb; lia).
  cbn [read_header_fields]. destruct (Z.leb_spec end_ (len pre)); [lia|].
  rewrite align_up8 by lia. cbn [mbind outcome_bind].
  set (pre' := pre ++ padding (len pre) 8).
  assert (Hp' : len pre' = (len pre + (- len pre) mod 8)%Z)
    by (unfold pre'; by rewrite len_app2, len_padding).
  rewrite <- Hp'. destruct (Z.leb_spec end_ (len pre')); [lia|].
  set (v := match wf_sig f with SigSignature => enc_signature (wf_value f)
            | _ => enc_string le (wf_value f) end).
  assert (Hfield : enc_field le f = wf_code f :: enc_signature (sig_string (wf_sig f)) ++ v) by done.
  assert (E1 : pre ++ bytes ++ post
    = pre' ++ wf_code f :: (enc_signature (sig_string (wf_sig f)) ++ v) ++ post).
  { unfold bytes, pre'. rewrite Hfield, <- !app_assoc, <- app_comm_cons, <- !app_assoc. done. }
  assert (E2 : pre ++ bytes ++ post
    = (pre' ++ [wf_code f]) ++ enc_signature (sig_string (wf_sig f)) ++ v ++ post)
    by (rewrite E1, <- !app_assoc; done).
  assert (E3 : pre ++ bytes ++ post
    = ((pre' ++ [wf_code f]) ++ enc_signature (sig_string (wf_sig f))) ++ v ++ post)
    by (rewrite E2, <- !app_assoc; done).
  rewrite E1 at 1. rewrite get_at. cbn [ok_or mbind outcome_bind].
  rewrite uadd_done by lia. cbn [mbind outcome_bind].
  replace (len pre' + 1)%Z with (len (pre' ++ [wf_code f])) by (rewrite len_app2; done).
  rewrite E2 at 1. rewrite read_string1_at by (rewrite <- ?E2; first [done|apply sig_ok]).
  cbn [mbind outcome_bind]. rewrite <- len_app2.
  assert (Hsig : ∃ c, sig_string (wf_sig f) = String c "") by (destruct (wf_sig f); by eexists).
  destruct Hsig as [c Esig]. rewrite Esig in Hfield, E2, E3 |- *.
  rewrite E3 at 1.
  rewrite (read_field_value_at ((pre' ++ [wf_code f]) ++ enc_signature (String c "")) le f post out);
    [|by fold v; rewrite <- E3|done| |done].
  - cbn [mbind outcome_bind]. fold v.
    replace (len ((pre' ++ [wf_code f]) ++ enc_signature (String c "")) + len v)%Z
      with (len pre + len bytes)%Z.
    + destruct (Z.leb_spec (len pre + len bytes) (len pre')); [lia|done].
    + rewrite Hbytes, Hfield, len_cons, !len_app2, Hp'. change (len [wf_code f]) with 1%Z. lia.
  - rewrite !len_app2, Hp', len_enc_signature. change (len (str_bytes (String c ""))) with 1%Z.
    change (len [wf_code f]) with 1%Z. apply padded_mod4.
Qed.

Lemma read_header_fields_at n pre le fs post out :
  let bytes := enc_fields le (len pre) fs in
  buf_ok (pre ++ bytes ++ post) → Forall (λ f, str_ok (wf_value f)) fs → length fs ≤ n →
  read_header_fields n (pre ++ bytes ++ post) (len pre) (len pre + len bytes) le out
  = Done (fold_left apply_field fs out).
Proof.
  intros bytes Hb Hfs. revert n pre out bytes Hb.
  induction Hfs as [|f fs Hf _ IH]; intros n pre out bytes Hb Hn.
  - subst bytes. cbn. rewrite Z.add_0_r.
    destruct n; cbn; by destruct (Z.leb_spec (len pre) (len pre)); [|lia|..].
  - cbn in Hn. destruct n as [|n]; [lia|]. subst bytes. cbn [enc_fields] in *.
    set (b1 := padding (len pre) 8 ++ enc_field le f) in *.
    set (b2 := enc_fields le (len pre + len b1) fs) in *. pose proof (len_nonneg b2).
    rewrite <- app_assoc in Hb |- *. rewrite len_app2.
    unfold b1. rewrite read_header_fields_step by (fold b1; first [done|lia]). fold b1.
    unfold b2. rewrite <- len_app2.
    specialize (IH n (pre ++ b1) (apply_field out f)). cbn zeta in IH.
    rewrite <- !app_assoc in IH. rewrite len_app2 in *. fold b2 in IH |- *.
    rewrite Z.add_assoc. apply IH; [done|lia].
Qed.

Lemma index_at pre b post : index (pre ++ b :: post) (len pre) = Done b.
Proof. unfold index. by rewrite get_at. Qed.

Lemma slice_to_at l post : slice_to (l ++ post) (len l) = Done l.
Proof.
  unfold slice_to. pose proof (len_nonneg l). pose proof (len_nonneg post). rewrite len_app2.
  destruct (Z.leb_spec 0 (len l)), (Z.leb_spec (len l) (len l + len post)); try lia. cbn.
  f_equal. unfold len. by rewrite Nat2Z.id, take_app_length.
Qed.

Lemma slice_from_at l post : slice_from (l ++ post) (len l) = Done post.
Proof.
  unfold slice_from. pose proof (len_nonneg l). pose proof (len_nonneg post). rewrite len_app2.
  destruct (Z.leb_spec 0 (len l)), (Z.leb_spec (len l) (len l + len post)); try lia. cbn.
  f_equal. unfold len. by rewrite Nat2Z.id, drop_app_length.
Qed.

Lemma padded_mod8 p : ((p + (- p) mod 8) mod 4 = 0)%Z.
Proof.
  rewrite (Z.mod_eq (- p) 8) by lia.
  replace (p + (- p - 8 * (- p / 8)))%Z with (- 2 * (- p / 8) * 4)%Z by lia. by apply Z.mod_mul.
Qed.

(** Everything before the body of an encoded message. *)
Definition enc_head (le : bool) (code flags : byte) (serial : list byte) (fs : list wire_field)
    (body_len : Z) : list byte :=
  let fields := enc_fields le FIXED_HEADER_LEN fs in
  ([if le then Byte.x6c else Byte.x42; code; flags; Byte.x01]
   ++ enc_u32 le body_len ++ serial ++ enc_u32 le (len fields))
  ++ fields ++ padding (FIXED_HEADER_LEN + len fields) 8.

Lemma enc_message_head le code flags serial fs b :
  enc_message le code flags serial fs b
  = enc_head le code flags serial fs (len (enc_body le b)) ++ enc_body le b.
Proof. unfold enc_message, enc_head. by rewrite <- !app_assoc. Qed.

Lemma len_enc_head le code flags serial fs n :
  length serial = 4 →
  let e := (FIXED_HEADER_LEN + len (enc_fields le FIXED_HEADER_LEN fs))%Z in
  len (enc_head le code flags serial fs n) = (e + (- e) mod 8)%Z.
Proof.
  intros Hs e. unfold enc_head. rewrite !len_app2, !len_enc_u32, len_padding.
  replace (len serial) with 4%Z by (unfold len; by rewrite Hs).
  change (len [_; _; _; _]) with 4%Z. subst e. unfold FIXED_HEADER_LEN. lia.
Qed.

(** The body of an encoded message, read as the decoder does. *)
Lemma read_body_at le code flags serial fs first tail :
  let b := StringBody first tail in
  let head := enc_head le code flags serial fs (len (enc_body le b)) in
  buf_ok (head ++ enc_body le b) → length serial = 4 → str_ok first →
  try_ok (read_string (head ++ enc_body le b) (len head) le 4)
  = Done (Some (first, (len head + len (enc_string le first))%Z)).
Proof.
  intros b head Hb Hser Hs. subst b. cbn [enc_body] in *.
  rewrite read_string4_at; [done|done|done|].
  unfold head. rewrite (len_enc_head _ _ _ _ _ _ Hser). apply padded_mod8.
Qed.

(** The eight steps of [read_message] on an encoded message. *)
Lemma read_message_head le code flags serial fs b rest :
  let m := enc_message le code flags serial fs b in
  let head := enc_head le code flags serial fs (len (enc_body le b)) in
  buf_ok (m ++ rest) → length serial = 4 → Forall (λ f, str_ok (wf_value f)) fs →
  length fs ≤ MAX_HEADER_FIELDS → (len m <= MAX_MESSAGE_LEN)%Z →
  read_message (m ++ rest) =
  let message := fold_left apply_field fs (with_type (byte_Z code)) in
  if (0 <? len (enc_body le b))%Z && signature_starts_with_s message then
    body ← try_ok (read_string m (len head) le 4);
    Done (Some (set_body_first (fst <$> body) message, len m))
  else Done (Some (message, len m)).
Proof.
  intros m head Hb Hser Hfs Hn Hmax.
  set (fields := enc_fields le FIXED_HEADER_LEN fs).
  set (flag := if le then Byte.x6c else Byte.x42).
  set (n := len (enc_body le b)) in *.
  set (hdr := [flag; code; flags; Byte.x01]).
  set (pre16 := hdr ++ enc_u32 le n ++ serial ++ enc_u32 le (len fields)).
  assert (Hpre16 : len pre16 = 16%Z).
  { unfold pre16. rewrite !len_app2, !len_enc_u32. unfold len at 2. by rewrite Hser. }
  assert (Hhead : len head = (16 + len fields + (- (16 + len fields)) mod 8)%Z)
    by apply (len_enc_head le code flags serial fs n Hser).
  assert (Hm : m = head ++ enc_body le b) by apply enc_message_head.
  assert (Hlm : len m = (len head + n)%Z) by by rewrite Hm, len_app2.
  pose proof (len_nonneg fields). pose proof (len_nonneg (enc_body le b)). pose proof (len_nonneg rest).
  pose proof (Z.mod_pos_bound (- (16 + len fields)) 8 ltac:(lia)).
  unfold MAX_MESSAGE_LEN in Hmax. fold n in H0.
  assert (E : m ++ rest = pre16 ++ fields ++ padding (16 + len fields) 8 ++ enc_body le b ++ rest).
  { rewrite Hm. unfold head, enc_head, pre16. fold n fields flag hdr.
    unfold FIXED_HEADER_LEN. by rewrite <- !app_assoc. }
  set (post := padding (16 + len fields) 8 ++ enc_body le b ++ rest) in E.
  assert (Hlen : len (m ++ rest) = (len m + len rest)%Z) by apply len_app2.
  unfold read_message, FIXED_HEADER_LEN. destruct (Z.ltb_spec (len (m ++ rest)) 16); [lia|].
  rewrite E.
  assert (I0 : index (pre16 ++ fields ++ post) 0 = Done flag) by exact (index_at [] flag _).
  assert (I1 : index (pre16 ++ fields ++ post) 1 = Done code) by exact (index_at [flag] code _).
  assert (I3 : index (pre16 ++ fields ++ post) 3 = Done Byte.x01)
    by exact (index_at [flag; code; flags] Byte.x01 _).
  rewrite I0. cbn [mbind outcome_bind].
  replace (if decide (flag = Byte.x6c) then Done true
           else if decide (flag = Byte.x42) then Done false
           else Fail (Malformed "bad-endianness-flag")) with (@Done bool le) by by destruct le.
  cbn [mbind outcome_bind].
  rewrite I3. cbn [mbind outcome_bind].
  change (negb (byte_Z Byte.x01 =? 1)%Z) with false. cbn match.
  assert (E4 : pre16 ++ fields ++ post = hdr ++ enc_u32 le n ++ (serial ++ enc_u32 le (len fields)) ++ fields ++ post)
    by (unfold pre16; by rewrite <- !app_assoc).
  assert (E12 : pre16 ++ fields ++ post
    = (hdr ++ enc_u32 le n ++ serial) ++ enc_u32 le (len fields) ++ fields ++ post)
    by (unfold pre16; by rewrite <- !app_assoc).
  assert (R4 : read_u32 (pre16 ++ fields ++ post) 4 le = Done n).
  { rewrite E4. apply (read_u32_at hdr); [done|lia]. }
  assert (R12 : read_u32 (pre16 ++ fields ++ post) 12 le = Done (len fields)).
  { rewrite E12. replace 12%Z with (len (hdr ++ enc_u32 le n ++ serial)).
    - apply read_u32_at; [unfold buf_ok; rewrite !len_app2, len_enc_u32; unfold len; rewrite Hser; done|lia].
    - rewrite !len_app2, len_enc_u32. unfold len. by rewrite Hser. }
  rewrite R4. cbn [mbind outcome_bind]. rewrite R12. cbn [mbind outcome_bind].
  rewrite checked_add_ok by lia. cbn [ok_or mbind outcome_bind].
  rewrite align_up8 by lia. cbn [mbind outcome_bind]. rewrite <- Hhead.
  rewrite checked_add_ok by lia. cbn [ok_or mbind outcome_bind]. rewrite <- Hlm.
  destruct (Z.ltb_spec MAX_MESSAGE_LEN (len m)); [unfold MAX_MESSAGE_LEN in *; lia|].
  rewrite <- E. destruct (Z.ltb_spec (len (m ++ rest)) (len m)); [lia|]. rewrite E.
  rewrite I1. cbn [mbind outcome_bind].
  assert (Hfields : fields = enc_fields le (len pre16) fs) by by rewrite Hpre16.
  assert (RH : read_header_fields MAX_HEADER_FIELDS (pre16 ++ fields ++ post) 16 (16 + len fields) le
    (with_type (byte_Z code)) = Done (fold_left apply_field fs (with_type (byte_Z code)))).
  { rewrite Hfields, <- Hpre16. apply read_header_fields_at; [|done|done].
    by rewrite <- Hfields, <- E. }
  rewrite RH. cbn [mbind outcome_bind]. cbv zeta. destruct (_ && _); [|done].
  rewrite <- E, slice_to_at. done.
Qed.

(** A message as a client writes it. *)
Record packet := {
  pk_little_endian : bool;
  pk_code : byte;
  pk_flags : byte;
  pk_serial : list byte;
  pk_fields : list wire_field;
  pk_body : wire_body;
}.

Definition enc_packet (p : packet) : list byte :=
  enc_message (pk_little_endian p) (pk_code p) (pk_flags p) (pk_serial p) (pk_fields p) (pk_body p).
Definition expected_packet (p : packet) : DbusMessage :=
  expected_message (pk_code p) (pk_fields p) (pk_body p).

(** Within the decoder's bounds. *)
Definition packet_ok (p : packet) : Prop :=
  length (pk_serial p) = 4
  ∧ Forall (λ f, str_ok (wf_value f)) (pk_fields p)
  ∧ length (pk_fields p) ≤ MAX_HEADER_FIELDS
  ∧ match pk_body p with StringBody first _ => str_ok first | EmptyBody => True end
  ∧ (len (enc_packet p) <= MAX_MESSAGE_LEN)%Z.

Lemma read_packet p rest :
  packet_ok p → buf_ok (enc_packet p ++ rest) →
  read_message (enc_packet p ++ rest) = Done (Some (expected_packet p, len (enc_packet p))).
Proof.
  intros (Hser & Hfs & Hn & Hbody & Hmax) Hb.
  unfold enc_packet, expected_packet, expected_message in *. destruct p as [le code flags serial fs b].
  cbn [pk_little_endian pk_code pk_flags pk_serial pk_fields pk_body] in *.
  rewrite read_message_head by done. cbv zeta.
  set (m := fold_left apply_field fs _).
  destruct b as [|first tail]; [done|].
  assert (Hpos : (0 <? len (enc_body le (StringBody first tail)))%Z = true).
  { apply Z.ltb_lt. cbn [enc_body]. rewrite len_app2, len_enc_string.
    pose proof (len_nonneg (str_bytes first)). pose proof (len_nonneg tail). lia. }
  rewrite Hpos. cbn [andb]. destruct (signature_starts_with_s m); [|done].
  rewrite enc_message_head in Hb, Hmax |- *.
  rewrite read_body_at; [done| |done|done].
  unfold buf_ok in *. rewrite len_app2 in Hb. pose proof (len_nonneg rest). lia.
Qed.

Lemma read_message_nil : read_message [] = Done None.
Proof. done. Qed.

Lemma decode_loop_packets n ps :
  Forall packet_ok ps → buf_ok (concat (map enc_packet ps)) → length ps ≤ n →
  decode_loop n (concat (map enc_packet ps))
  = Done (map expected_packet ps, len (concat (map enc_packet ps))).
Proof.
  intros Hps. revert n. induction Hps as [|p ps Hp Hps IH]; intros n Hb Hn; [by destruct n|].
  cbn [map concat length] in *. destruct n as [|n]; [lia|]. cbn [decode_loop].
  rewrite read_packet by done. cbn [mbind outcome_bind].
  set (more := concat (map enc_packet ps)) in *.
  pose proof (slice_from_at (enc_packet p) more) as Hs.
  rewrite Hs. cbn [mbind outcome_bind]. rewrite IH; [|unfold buf_ok in *|lia].
  - cbn [mbind outcome_bind]. by rewrite len_app2.
  - rewrite len_app2 in Hb. pose proof (len_nonneg (enc_packet p)). lia.
Qed.

(** ** Properties *)

Lemma decode_safe_aux buf phase (Hbuf : buf_ok buf) :
  match decode buf phase with
  | Panic => False
  | Fail _ => True
  | Done d =>
      (16 * Z.of_nat (length (dec_messages d)) <= dec_consumed d <= len buf)%Z
      ∧ length (dec_messages d) ≤ MAX_MESSAGES_PER_CALL
      ∧ match dec_phase d with
        | Messages => read_message (drop (Z.to_nat (dec_consumed d)) buf) = Done None
        | Auth => dec_messages d = [] ∧ dec_consumed d = 0%Z
        end
  end.
Proof.
  assert (Hloop := decode_loop_ok MAX_MESSAGES_PER_CALL).
  unfold decode. destruct phase; cbn [mbind outcome_bind].
  - unfold find_begin. destruct (find_begin_loop [] 0 buf) as [off|] eqn:E.
    + apply find_begin_loop_bounds in E as Hoff. cbn [mbind outcome_bind].
      assert (Hs := slice_from_ok buf off ltac:(lia)).
      destruct (slice_from buf off) as [rest| |]; try done. destruct Hs as [-> Hl].
      cbn [mbind outcome_bind]. specialize (Hloop (drop (Z.to_nat off) buf) ltac:(unfold buf_ok in *; lia)).
      destruct (decode_loop _ _) as [[ms c]| |]; try done. destruct Hloop as (H1 & H2 & H3).
      cbn in *. split_and!; [lia|lia|done|]. rewrite drop_drop in H3. by rewrite Z2Nat.inj_add by lia.
    + destruct (_ <? _)%Z; cbn; [done|]. pose proof (len_nonneg buf). split_and!; [lia|lia|lia|done..].
  - rewrite slice_from_0. cbn [mbind outcome_bind]. specialize (Hloop buf Hbuf).
    destruct (decode_loop _ _) as [[ms c]| |]; try done. destruct Hloop as (H1 & H2 & H3).
    cbn in *. split_and!; [lia|lia|done|done].
Qed.

(** C31: decoding adversarial bytes is total and bounded.  For any buffer an
    allocation can hold and in either phase, decoding never panics: it fails
    with an error, or consumes a prefix of the buffer that holds the messages
    returned, at most [MAX_MESSAGES_PER_CALL] of them and at least sixteen bytes
    each, leaving nothing complete behind in the message phase and consuming
    nothing while authenticating. *)
Theorem decode_safe buf phase (Hbuf : buf_ok buf) :
  match decode buf phase with
  | Panic => False
  | Fail _ => True
  | Done d =>
      (16 * Z.of_nat (length (dec_messages d)) <= dec_consumed d <= len buf)%Z
      ∧ length (dec_messages d) ≤ MAX_MESSAGES_PER_CALL
      ∧ match dec_phase d with
        | Messages => read_message (drop (Z.to_nat (dec_consumed d)) buf) = Done None
        | Auth => dec_messages d = [] ∧ dec_consumed d = 0%Z
        end
  end.
Proof. by apply decode_safe_aux. Qed.

(** Messages do not depend on how the bytes are cut into writes.  If a
    buffer decodes, and what it leaves with more bytes appended decodes too in
    the phase it left, then the whole decodes at once to the messages of the
    two, provided they fit in one call's bound. *)
Theorem decode_chunks buf more phase d d'
    (Hbuf : buf_ok buf) (Hd : decode buf phase = Done d)
    (Hd' : decode (drop (Z.to_nat (dec_consumed d)) buf ++ more) (dec_phase d) = Done d')
    (Hfit : length (dec_messages d) + length (dec_messages d') ≤ MAX_MESSAGES_PER_CALL) :
  decode (buf ++ more) phase = Done {|
    dec_messages := dec_messages d ++ dec_messages d';
    dec_consumed := (dec_consumed d + dec_consumed d')%Z;
    dec_phase := dec_phase d' |}.
Proof.
  destruct phase.
  - apply decode_auth_inv in Hd as [->|(off & rest & c & E & Er & El & Hc & Hp)].
    + cbn [dec_consumed dec_phase] in Hd'. change (drop _ buf) with buf in Hd'.
      rewrite Hd'. by destruct d'.
    + rewrite Hp in Hd'. apply decode_messages_inv in Hd' as [El' Hp'].
      apply find_begin_loop_bounds in E as Hoff.
      assert (Hs := slice_from_ok buf off ltac:(lia)). rewrite Er in Hs. destruct Hs as [-> Hl].
      assert (Hb1 : buf_ok (drop (Z.to_nat off) buf)) by (unfold buf_ok in *; lia).
      assert (Hloop := decode_loop_ok MAX_MESSAGES_PER_CALL _ Hb1). rewrite El in Hloop.
      destruct Hloop as (_ & Hcb & _). cbn in Hcb.
      unfold decode, find_begin. rewrite (find_begin_loop_app buf more _ _ _ E).
      cbn [mbind outcome_bind]. rewrite (slice_from_app buf more _ _ Er). cbn [mbind outcome_bind].
      rewrite Hc, Z2Nat.inj_add, <- drop_drop in El' by lia.
      rewrite (decode_loop_app _ _ MAX_MESSAGES_PER_CALL _ more _ _ _ _ El El' Hb1 Hfit).
      cbn. rewrite Hp', Hc. do 2 f_equal. lia.
  - apply decode_messages_inv in Hd as [El Hp]. rewrite Hp in Hd'.
    apply decode_messages_inv in Hd' as [El' Hp']. rewrite Hp'.
    apply decode_messages. by eapply decode_loop_app.
Qed.

(** Binary framing starts only after a whole [BEGIN] line: when the
    handshake ends, the bytes before the first message are complete lines, the
    last of which is [BEGIN\r\n], possibly after the credentials byte. *)
Theorem begin_at_line_start buf e (He : find_begin buf = Done (Some e)) :
  ∃ pre line, take (Z.to_nat e) buf = pre ++ line ∧ strip_nul line = BEGIN_LINE
    ∧ (pre = [] ∨ ∃ pre', pre = pre' ++ [Byte.x0a]).
Proof.
  unfold find_begin in He. destruct (find_begin_loop [] 0 buf) as [e'|] eqn:E;
    [|by destruct (_ <? _)%Z].
  injection He as ->.
  assert (Hgen : ∀ l pre line off,
    find_begin_loop line off l = Some e → off = len (pre ++ line) →
    (pre = [] ∨ ∃ pre', pre = pre' ++ [Byte.x0a]) →
    ∃ pre' line', take (Z.to_nat e) ((pre ++ line) ++ l) = pre' ++ line'
      ∧ strip_nul line' = BEGIN_LINE ∧ (pre' = [] ∨ ∃ p, pre' = p ++ [Byte.x0a])).
  { clear. intros l. induction l as [|b l IH]; intros pre line off; cbn; [done|].
    assert (Hlen : ∀ p x, (len (p ++ [x]) = len p + 1)%Z)
      by (intros; unfold len; rewrite length_app; cbn; lia).
    repeat case_decide; intros Hfb Hoff Hpre.
    - injection Hfb as <-. exists pre, (line ++ [b]). split; [|done].
      rewrite (cons_middle b), (app_assoc _ [b] l).
      replace (Z.to_nat (off + 1)) with (length ((pre ++ line) ++ [b])).
      + rewrite take_app_length. by rewrite <- app_assoc.
      + rewrite Hoff. rewrite <- (Hlen _ b). unfold len. by rewrite Nat2Z.id.
    - destruct (IH ((pre ++ line) ++ [b]) [] _ Hfb) as (p & q & Hp & Hq).
      + rewrite app_nil_r, Hlen. lia.
      + right. exists (pre ++ line). by subst b.
      + exists p, q. split; [|done]. rewrite <- Hp, app_nil_r. by rewrite <- (app_assoc _ [b] l).
    - destruct (IH pre (line ++ [b]) _ Hfb) as (p & q & Hp & Hq); [|done|].
      + rewrite app_assoc, Hlen. lia.
      + exists p, q. split; [|done]. rewrite <- Hp. by rewrite <- !app_assoc. }
  by apply (Hgen buf [] [] 0%Z E eq_refl); left.
Qed.

(** What a client writes is what the supervisor judges: any sequence of at
    most [MAX_MESSAGES_PER_CALL] messages, written as the D-Bus specification
    lays them out in either byte order and within the decoder's bounds, decodes
    to exactly their types, destinations, paths, interfaces, members,
    signatures and first string arguments, consuming every byte. *)
Theorem decode_packets ps
    (Hps : Forall packet_ok ps) (Hbuf : buf_ok (concat (map enc_packet ps)))
    (Hcount : length ps ≤ MAX_MESSAGES_PER_CALL) :
  decode (concat (map enc_packet ps)) Messages = Done {|
    dec_messages := map expected_packet ps;
    dec_consumed := len (concat (map enc_packet ps));
    dec_phase := Messages |}.
Proof. apply decode_messages. by apply decode_loop_packets. Qed.

(** ** Witnesses *)

(** A call of [StartTransientUnit] with a string argument. *)
Definition start_unit (le : bool) : packet := {|
  pk_little_endian := le; pk_code := Byte.x01; pk_flags := Byte.x00;
  pk_serial := [Byte.x01; Byte.x00; Byte.x00; Byte.x00];
  pk_fields := [
    {| wf_code := Byte.x01; wf_sig := SigPath; wf_value := "/org/freedesktop/systemd1" |};
    {| wf_code := Byte.x06; wf_sig := SigString; wf_value := "org.freedesktop.systemd1" |};
    {| wf_code := Byte.x02; wf_sig := SigString; wf_value := "org.freedesktop.systemd1.Manager" |};
    {| wf_code := Byte.x03; wf_sig := SigString; wf_value := "StartTransientUnit" |};
    {| wf_code := Byte.x08; wf_sig := SigSignature; wf_value := "ss" |}];
  pk_body := StringBody "payload.service" [Byte.x00];
|}.

Definition handshake : list byte :=
  [Byte.x00] ++ str_bytes "AUTH EXTERNAL" ++ [Byte.x0d; Byte.x0a] ++ BEGIN_LINE.

Lemma str_ok_bool s : (len (str_bytes s) <=? MAX_FIELD_STR)%Z && utf8_valid (str_bytes s) = true → str_ok s.
Proof. intros [H%Z.leb_le ?]%andb_true_iff. by split. Qed.

Lemma start_unit_ok le : packet_ok (start_unit le).
Proof.
  unfold packet_ok. split_and!; [done| |cbn; unfold MAX_HEADER_FIELDS; lia|by apply str_ok_bool|].
  - cbn [start_unit pk_fields]. repeat (apply Forall_cons_2; [by apply str_ok_bool|]). apply Forall_nil_2.
  - destruct le; by vm_compute.
Qed.

Lemma decode_safe_witness :
  match decode (handshake ++ enc_packet (start_unit true)) Auth with
  | Panic => False
  | Fail _ => True
  | Done d =>
      (16 * Z.of_nat (length (dec_messages d)) <= dec_consumed d
         <= len (handshake ++ enc_packet (start_unit true)))%Z
      ∧ length (dec_messages d) ≤ MAX_MESSAGES_PER_CALL
      ∧ match dec_phase d with
        | Messages => read_message (drop (Z.to_nat (dec_consumed d))
                        (handshake ++ enc_packet (start_unit true))) = Done None
        | Auth => dec_messages d = [] ∧ dec_consumed d = 0%Z
        end
  end.
Proof. apply (decode_safe (handshake ++ enc_packet (start_unit true)) Auth). by vm_compute. Defined.

Lemma decode_chunks_witness :
  decode ((handshake ++ enc_packet (start_unit true)) ++ enc_packet (start_unit false)) Auth
  = Done {| dec_messages := [expected_packet (start_unit true)] ++ [expected_packet (start_unit false)];
            dec_consumed := 228 + 205; dec_phase := Messages |}.
Proof.
  apply (decode_chunks (handshake ++ enc_packet (start_unit true)) (enc_packet (start_unit false)) Auth
    {| dec_messages := [expected_packet (start_unit true)]; dec_consumed := 228; dec_phase := Messages |}
    {| dec_messages := [expected_packet (start_unit false)]; dec_consumed := 205; dec_phase := Messages |}).
  - by vm_compute.
  - by vm_compute.
  - by vm_compute.
  - cbn. unfold MAX_MESSAGES_PER_CALL. lia.
Defined.

Lemma begin_at_line_start_witness :
  ∃ pre line, take (Z.to_nat 23) handshake = pre ++ line ∧ strip_nul line = BEGIN_LINE
    ∧ (pre = [] ∨ ∃ pre', pre = pre' ++ [Byte.x0a]).
Proof. apply (begin_at_line_start handshake 23). by vm_compute. Defined.

Lemma decode_packets_witness :
  decode (concat (map enc_packet [start_unit true; start_unit false])) Messages = Done {|
    dec_messages := map expected_packet [start_unit true; start_unit false];
    dec_consumed := len (concat (map enc_packet [start_unit true; start_unit false]));
    dec_phase := Messages |}.
Proof.
  apply decode_packets.
  - repeat (apply Forall_cons_2; [apply start_unit_ok|]). apply Forall_nil_2.
  - by vm_compute.
  - cbn. unfold MAX_MESSAGES_PER_CALL. lia.
Defined.
