(* ===== verification/DbusPolicy.v ===== *)
(** * The D-Bus method policy

    [crates/grith-supervisor/src/dbus/policy.rs] and [is_dbus_socket] of
    [dbus/mod.rs]: which decoded messages may proceed without asking a human. *)

From S2P Require Import Prelude Concrete DbusWire.

Inductive Verdict :=
  | Allow
  | Escalate (description : string).

#[export] Instance Verdict_eq_dec : EqDecision Verdict.
Proof. solve_decision. Defined.

Definition universal_read_only (interface member : string) : bool :=
  if String.eqb interface "org.freedesktop.DBus.Introspectable" then String.eqb member "Introspect"
  else if String.eqb interface "org.freedesktop.DBus.Peer" then str_mem member ["Ping"; "GetMachineId"]
  else if String.eqb interface "org.freedesktop.DBus.Properties" then str_mem member ["Get"; "GetAll"]
  else if String.eqb interface "org.freedesktop.DBus.ObjectManager" then
    String.eqb member "GetManagedObjects"
  else if String.eqb interface "org.gtk.vfs.MountTracker" then
    str_mem member ["ListMountableInfo"; "LookupMount"; "ListMounts"; "ListMounts2"]
  else false.

Definition BUS_DAEMON_METHODS : list string :=
  ["Hello"; "RequestName"; "ReleaseName"; "GetNameOwner"; "NameHasOwner"; "ListNames";
   "ListActivatableNames"; "ListQueuedOwners"; "AddMatch"; "RemoveMatch"; "GetId";
   "GetConnectionUnixUser"; "GetConnectionUnixProcessID"; "GetConnectionCredentials"].

Definition SECRET_SERVICE_INTERFACES : list string :=
  ["org.freedesktop.Secret.Service"; "org.freedesktop.Secret.Collection";
   "org.freedesktop.Secret.Item"; "org.freedesktop.Secret.Session";
   "org.freedesktop.Secret.Prompt"].

Definition portal_allows (interface member : string) : bool :=
  if String.eqb interface "org.freedesktop.portal.Settings" then str_mem member ["Read"; "ReadAll"]
  else if String.eqb interface "org.freedesktop.portal.Secret" then
    String.eqb member "RetrieveSecret"
  else if String.eqb interface "org.freedesktop.host.portal.Registry" then
    String.eqb member "Register"
  else false.

Definition destination_allows (destination interface member : string) : bool :=
  if String.eqb destination "org.freedesktop.DBus" then
    String.eqb interface "org.freedesktop.DBus" && str_mem member BUS_DAEMON_METHODS
  else if String.eqb destination "org.freedesktop.secrets" then
    str_mem interface SECRET_SERVICE_INTERFACES
  else if String.eqb destination "org.freedesktop.Notifications" then
    String.eqb interface "org.freedesktop.Notifications"
    && str_mem member ["GetCapabilities"; "GetServerInformation"]
  else if str_mem destination ["org.freedesktop.ScreenSaver"; "org.gnome.ScreenSaver"] then
    String.eqb member "GetActive"
    && str_mem interface ["org.freedesktop.ScreenSaver"; "org.gnome.ScreenSaver"]
  else if String.eqb destination "org.freedesktop.portal.Desktop" then
    portal_allows interface member
  else if String.eqb destination "org.freedesktop.systemd1" then
    String.eqb interface "org.freedesktop.systemd1.Manager" && String.eqb member "GetUnit"
  else false.

Definition is_scope_only_transient_unit (m : DbusMessage) : bool :=
  bool_decide (dm_destination m = Some "org.freedesktop.systemd1")
  && bool_decide (dm_interface m = Some "org.freedesktop.systemd1.Manager")
  && bool_decide (dm_member m = Some "StartTransientUnit")
  && match dm_body_first_string m with Some unit_ => ends_with ".scope" unit_ | None => false end.

Definition classify (m : DbusMessage) : Verdict :=
  match dm_msg_type m with
  | Some MethodReturn | Some ErrorReply | Some Signal => Allow
  | Some (Other _) | None =>
      Escalate ("unrecognised D-Bus message (" +:+ describe m +:+ ")")
  | Some MethodCall =>
      match dm_destination m, dm_member m with
      | Some destination, Some member =>
          match dm_interface m with
          | None => Escalate (describe m)
          | Some interface =>
              if universal_read_only interface member
                 || destination_allows destination interface member then Allow
              else if is_scope_only_transient_unit m then Allow
              else Escalate (describe m)
          end
      | _, _ => Escalate (describe m)
      end
  end.

Definition is_dbus_socket (address : string) : bool :=
  let path := to_ascii_lowercase (default address (strip_prefix "unix:" address)) in
  let path := default path (strip_prefix "@" path) in
  contains "/dbus-" path || contains "/dbus/" path
  || (starts_with "/run/user/" path && ends_with "/bus" path).

(** ** What the table lets through *)

(** Destinations the table vouches for beyond the universal reads. *)
Definition CURATED_DESTINATIONS : list string :=
  ["org.freedesktop.DBus"; "org.freedesktop.secrets"; "org.freedesktop.Notifications";
   "org.freedesktop.ScreenSaver"; "org.gnome.ScreenSaver"; "org.freedesktop.portal.Desktop";
   "org.freedesktop.systemd1"].

(** Methods that make a peer act, or arm one, by the module's exclusion list. *)
Definition DELEGATING_MEMBERS : list string :=
  ["StartServiceByName"; "UpdateActivationEnvironment"; "Set"; "Spawn"; "OpenURI"; "OpenFile";
   "Notify"; "CloseNotification"; "Inhibit"; "SimulateUserActivity"; "LoadUnit"; "StartUnit";
   "MountLocation"; "Reboot"; "PowerOff"; "SetEnvironment"].

Lemma eqb_guard {A} (a b : string) (x y z : A) :
  (if String.eqb a b then x else y) = z → (a = b ∧ x = z) ∨ (a ≠ b ∧ y = z).
Proof. destruct (String.eqb_spec a b); auto. Qed.

Lemma str_mem_disjoint (l l' : list string) x :
  forallb (λ y, negb (str_mem y l')) l = true → str_mem x l = true → x ∉ l'.
Proof.
  intros H Hx Hin%str_mem_spec. apply str_mem_spec, list_elem_of_In in Hx.
  rewrite forallb_forall in H. specialize (H x Hx). by rewrite Hin in H.
Qed.

Lemma eqb_mem (x y : string) : String.eqb x y = str_mem x [y].
Proof. cbn. by rewrite orb_false_r. Qed.

(** Splits a chain of string tests that came out true. *)
Ltac split_tests H :=
  repeat match type of H with
    | (if String.eqb _ _ then _ else _) = _ => apply eqb_guard in H as [[? H]|[_ H]]
    end; try discriminate H.

Lemma universal_member i mem : universal_read_only i mem = true → mem ∉ DELEGATING_MEMBERS.
Proof.
  unfold universal_read_only. rewrite !(eqb_mem mem). intros H. split_tests H;
    (eapply str_mem_disjoint; [|exact H]; done).
Qed.

Lemma portal_member i mem : portal_allows i mem = true → mem ∉ DELEGATING_MEMBERS.
Proof.
  unfold portal_allows. rewrite !(eqb_mem mem). intros H. split_tests H;
    (eapply str_mem_disjoint; [|exact H]; done).
Qed.

Lemma destination_member d i mem :
  destination_allows d i mem = true → d ≠ "org.freedesktop.secrets" → mem ∉ DELEGATING_MEMBERS.
Proof.
  unfold destination_allows. rewrite !(eqb_mem mem). intros H Hd.
  apply eqb_guard in H as [[_ [_ H]%andb_true_iff]|[_ H]];
    [eapply str_mem_disjoint; [|exact H]; done|].
  apply eqb_guard in H as [[? _]|[_ H]]; [done|].
  apply eqb_guard in H as [[_ [_ H]%andb_true_iff]|[_ H]];
    [eapply str_mem_disjoint; [|exact H]; done|].
  destruct (str_mem d _).
  { apply andb_true_iff in H as [H _]. eapply str_mem_disjoint; [|exact H]; done. }
  apply eqb_guard in H as [[_ H]|[_ H]]; [by apply portal_member in H|].
  apply eqb_guard in H as [[_ [_ H]%andb_true_iff]|[_ H]]; [|done].
  eapply str_mem_disjoint; [|exact H]; done.
Qed.

Lemma destination_curated d i mem : destination_allows d i mem = true → d ∈ CURATED_DESTINATIONS.
Proof.
  unfold destination_allows. intros H. apply str_mem_spec.
  apply eqb_guard in H as [[-> _]|[_ H]]; [done|].
  apply eqb_guard in H as [[-> _]|[_ H]]; [done|].
  apply eqb_guard in H as [[-> _]|[_ H]]; [done|].
  destruct (str_mem d _) eqn:E.
  { apply str_mem_spec in E. apply str_mem_spec.
    apply elem_of_cons in E as [->|[->|E%elem_of_nil]%elem_of_cons]; [by apply str_mem_spec..|done]. }
  apply eqb_guard in H as [[-> _]|[_ H]]; [done|].
  apply eqb_guard in H as [[-> _]|[_ H]]; done.
Qed.

Lemma scope_only_inv m :
  is_scope_only_transient_unit m = true →
  dm_destination m = Some "org.freedesktop.systemd1" ∧ dm_member m = Some "StartTransientUnit"
  ∧ ∃ unit_ p, dm_body_first_string m = Some unit_ ∧ unit_ = p +:+ ".scope".
Proof.
  unfold is_scope_only_transient_unit. rewrite !andb_true_iff, !bool_decide_eq_true.
  intros (((H1 & _) & H2) & H3). split_and!; [done|done|].
  destruct (dm_body_first_string m) as [u|]; [|done].
  apply ends_with_spec in H3 as [p ->]. by exists (p +:+ ".scope"), p.
Qed.

(** No allowed method call delegates authority.  A method call that
    proceeds without asking names its destination, interface and member; either
    the method is a universal read or the destination is a curated one; except
    towards the keyring its member is none of the delegating ones; and towards
    systemd it is a read, a unit lookup, or the start of a unit whose name,
    read from the body, ends in [.scope]. *)
Theorem classify_no_escape m
    (Hcall : dm_msg_type m = Some MethodCall) (Hallow : classify m = Allow) :
  ∃ d i mem, dm_destination m = Some d ∧ dm_interface m = Some i ∧ dm_member m = Some mem
  ∧ (universal_read_only i mem = true ∨ d ∈ CURATED_DESTINATIONS)
  ∧ (d ≠ "org.freedesktop.secrets" → mem ∉ DELEGATING_MEMBERS)
  ∧ (d = "org.freedesktop.systemd1" →
     universal_read_only i mem = true ∨ mem = "GetUnit"
     ∨ mem = "StartTransientUnit"
       ∧ ∃ unit_ p, dm_body_first_string m = Some unit_ ∧ unit_ = p +:+ ".scope").
Proof.
  unfold classify in Hallow. rewrite Hcall in Hallow.
  destruct (dm_destination m) as [d|] eqn:Ed; [|done].
  destruct (dm_member m) as [mem|] eqn:Em; [|done].
  destruct (dm_interface m) as [i|]; [|done]. exists d, i, mem. do 3 (split; [done|]).
  destruct (universal_read_only i mem) eqn:U.
  { apply universal_member in U. auto. }
  destruct (destination_allows d i mem) eqn:D.
  - split; [right; by eapply destination_curated|].
    split; [by eapply destination_member|]. intros ->. right. left. cbn in D.
    apply andb_true_iff in D as [_ H]. by apply String.eqb_eq.
  - cbn in Hallow. destruct (is_scope_only_transient_unit m) eqn:S; [|done].
    apply scope_only_inv in S as (H1 & H2 & H3). rewrite H1 in Ed. rewrite H2 in Em.
    injection Ed as <-. injection Em as <-. split; [right; by apply str_mem_spec|].
    split; [intros _; eapply (str_mem_disjoint ["StartTransientUnit"]); done|auto].
Qed.

Definition scope_call : DbusMessage := {|
  dm_msg_type := Some MethodCall; dm_destination := Some "org.freedesktop.systemd1";
  dm_path := Some "/org/freedesktop/systemd1";
  dm_interface := Some "org.freedesktop.systemd1.Manager";
  dm_member := Some "StartTransientUnit"; dm_signature := Some "ssa(sv)a(sa(sv))";
  dm_body_first_string := Some "app-chrome-42.scope";
|}.

Lemma classify_no_escape_witness :
  ∃ d i mem, dm_destination scope_call = Some d ∧ dm_interface scope_call = Some i
  ∧ dm_member scope_call = Some mem
  ∧ (universal_read_only i mem = true ∨ d ∈ CURATED_DESTINATIONS)
  ∧ (d ≠ "org.freedesktop.secrets" → mem ∉ DELEGATING_MEMBERS)
  ∧ (d = "org.freedesktop.systemd1" →
     universal_read_only i mem = true ∨ mem = "GetUnit"
     ∨ mem = "StartTransientUnit"
       ∧ ∃ unit_ p, dm_body_first_string scope_call = Some unit_ ∧ unit_ = p +:+ ".scope").
Proof. exact (classify_no_escape scope_call eq_refl eq_refl). Defined.
