(* ===== verification/DbusChannel.v ===== *)
(** * D-Bus inspection channels

    [crates/grith-supervisor/src/dbus/channel.rs]: the handshake phase and the
    retained bytes of each inspected connection, by process and descriptor.  The
    policy decision peeks at a pending write without advancing the stream; the
    bytes the kernel accepted are committed afterwards.  An operation that would
    panic returns [None]. *)

From S2P Require Import Prelude Concrete DbusWire.

Definition MAX_BUFFER : Z := MAX_MESSAGE_LEN.

(** [poison] is the tag of the code's [Option<Poison>]. *)
Record Channel := {
  ch_address : string;
  ch_phase : Phase;
  ch_buffer : list byte;
  ch_poison : option string;
}.

#[export] Instance Channel_eq_dec : EqDecision Channel.
Proof. solve_decision. Defined.

Definition Channel_new (address : string) : Channel :=
  {| ch_address := address; ch_phase := Auth; ch_buffer := []; ch_poison := None |}.

Definition poison (tag : string) (c : Channel) : Channel := {|
  ch_address := ch_address c; ch_phase := ch_phase c; ch_buffer := [];
  ch_poison := match ch_poison c with Some t => Some t | None => Some tag end;
|}.

(** [usize::saturating_add] *)
Definition saturating_add (a b : Z) : Z := Z.min (a + b) (2 ^ 64 - 1).

Definition channel_peek (bytes : list byte) (c : Channel) :
    option (Channel * result (list DbusMessage)) :=
  match ch_poison c with
  | Some tag => Some (c, Err tag)
  | None =>
      if (MAX_BUFFER <? saturating_add (len (ch_buffer c)) (len bytes))%Z then
        Some (poison "buffer-bound-exceeded" c, Err "buffer-bound-exceeded")
      else
        match decode (ch_buffer c ++ bytes) (ch_phase c) with
        | Done decoded => Some (c, Ok (dec_messages decoded))
        | Fail err => Some (poison (WireError_tag err) c, Err (WireError_tag err))
        | Panic => None
        end
  end.

Definition channel_commit (bytes : list byte) (accepted : Z) (c : Channel) : option Channel :=
  match ch_poison c with
  | Some _ => Some c
  | None =>
      if (len bytes <? accepted)%Z then Some (poison "write-exceeded-inspected-payload" c)
      else
        let buffer := ch_buffer c ++ take (Z.to_nat accepted) bytes in
        match decode buffer (ch_phase c) with
        | Done decoded =>
            match slice_from buffer (dec_consumed decoded) with
            | Done rest => Some {| ch_address := ch_address c; ch_phase := dec_phase decoded;
                                   ch_buffer := rest; ch_poison := None |}
            | _ => None
            end
        | Fail err => Some (poison (WireError_tag err)
            {| ch_address := ch_address c; ch_phase := ch_phase c; ch_buffer := buffer;
               ch_poison := None |})
        | Panic => None
        end
  end.

(** ** The tracker *)

Inductive Feed :=
  | NotTracked
  | FeedMessages (messages : list DbusMessage)
  | Poisoned (tag : string).

(** Keyed by [(tgid, fd)]. *)
Abbreviation DbusChannelTracker := (gmap (Z * Z) Channel).

Section Tracker.
Context `{HI : HashIter}.
Implicit Types t : DbusChannelTracker.

Definition register (tgid fd : Z) (address : string) (t : DbusChannelTracker) : DbusChannelTracker :=
  <[(tgid, fd) := Channel_new address]> t.
Definition is_tracked (tgid fd : Z) t : bool := bool_decide (is_Some (t !! (tgid, fd))).
Definition address (tgid fd : Z) t : option string := ch_address <$> t !! (tgid, fd).
Definition poison_tag_for (tgid fd : Z) t : option string := t !! (tgid, fd) ≫= ch_poison.
Definition is_poisoned (tgid fd : Z) t : bool := bool_decide (is_Some (poison_tag_for tgid fd t)).

Definition alias (tgid old_fd new_fd : Z) t : DbusChannelTracker :=
  match address tgid old_fd t with
  | None => t
  | Some a => <[(tgid, new_fd) := poison "duplicated-descriptor" (Channel_new a)]> t
  end.

Definition tracker_peek (tgid fd : Z) (bytes : list byte) t : option (DbusChannelTracker * Feed) :=
  match t !! (tgid, fd) with
  | None => Some (t, NotTracked)
  | Some c =>
      '(c', r) ← channel_peek bytes c;
      Some (<[(tgid, fd) := c']> t, match r with Ok ms => FeedMessages ms | Err tag => Poisoned tag end)
  end.

Definition tracker_commit (tgid fd : Z) (bytes : list byte) (accepted : Z) t :
    option DbusChannelTracker :=
  match t !! (tgid, fd) with
  | None => Some t
  | Some c => c' ← channel_commit bytes accepted c; Some (<[(tgid, fd) := c']> t)
  end.

Definition tracker_poison (tgid fd : Z) (tag : string) t : DbusChannelTracker :=
  alter (poison tag) (tgid, fd) t.
Definition close (tgid fd : Z) t : DbusChannelTracker := delete (tgid, fd) t.

Definition close_range (tgid first last : Z) t : DbusChannelTracker :=
  filter (λ kc, kc.1.1 ≠ tgid ∨ (kc.1.2 < 0)%Z ∨ (kc.1.2 < first)%Z ∨ (last < kc.1.2)%Z) t.

Definition remove_process (tgid : Z) t : DbusChannelTracker := filter (λ kc, kc.1.1 ≠ tgid) t.

(** The entries of one process, in the map's order. *)
Definition entries_of (tgid : Z) t : list (Z * Channel) :=
  map (λ kc, (kc.1.2, kc.2)) (List.filter (λ kc, (kc.1.1 =? tgid)%Z) (hash_iter t)).

Definition retain_and_poison (tgid : Z) (live_fds : gset Z) t : DbusChannelTracker * list Z :=
  (map_imap (λ k c,
     if negb (k.1 =? tgid)%Z then Some c
     else if bool_decide (k.2 ∈ live_fds) then Some (poison "survived-exec" c) else None) t,
   List.filter (λ fd, bool_decide (fd ∈ live_fds)) (map fst (entries_of tgid t))).

Definition inherit_process (parent_tgid child_tgid : Z) t : DbusChannelTracker * list Z :=
  let inherited := map (λ fc, (fc.1, ch_address fc.2)) (entries_of parent_tgid t) in
  (fold_left (λ t fa, <[(child_tgid, fa.1) := poison "forked-connection" (Channel_new fa.2)]> t)
     inherited t,
   map fst inherited).

Definition tracked_fds (tgid : Z) t : list Z := map fst (entries_of tgid t).
End Tracker.

(** ** One channel and its stream *)

Lemma poison_poisoned tag c : is_Some (ch_poison (poison tag c)).
Proof. cbn. destruct (ch_poison c); eauto. Qed.

(** The decoding of a whole stream at once, with no bound on its messages: the
    reference for a channel fed piece by piece. *)
Definition decode_stream (stream : list byte) : outcome Decoded :=
  match find_begin_loop [] 0 stream with
  | None => Done {| dec_messages := []; dec_consumed := 0; dec_phase := Auth |}
  | Some off =>
      rest ← slice_from stream off;
      '(messages, consumed) ← decode_loop (length rest) rest;
      Done {| dec_messages := messages; dec_consumed := (off + consumed)%Z;
              dec_phase := Messages |}
  end.

(** A channel in step with the stream its connection carried. *)
Definition in_step (stream : list byte) (c : Channel) (messages : list DbusMessage) : Prop :=
  ∃ d, decode_stream stream = Done d ∧ dec_messages d = messages ∧ dec_phase d = ch_phase c
    ∧ (0 <= dec_consumed d <= len stream)%Z
    ∧ ch_buffer c = drop (Z.to_nat (dec_consumed d)) stream.

Lemma buf_ok_app_l l l' : buf_ok (l ++ l') → buf_ok l.
Proof. unfold buf_ok. rewrite len_app2. pose proof (len_nonneg l'). lia. Qed.

Lemma buf_ok_drop n l : buf_ok l → buf_ok (drop n l).
Proof. unfold buf_ok, len. rewrite length_drop. lia. Qed.

Lemma slice_from_Done l i r : slice_from l i = Done r → (0 <= i <= len l)%Z ∧ r = drop (Z.to_nat i) l.
Proof. unfold slice_from. destruct (Z.leb_spec 0 i), (Z.leb_spec i (len l)); cbn; try done.
  intros [= <-]. done. Qed.

Lemma slice_from_do l i : (0 <= i <= len l)%Z → slice_from l i = Done (drop (Z.to_nat i) l).
Proof.
  intros H. unfold slice_from.
  by destruct (Z.leb_spec 0 i), (Z.leb_spec i (len l)); [|lia..].
Qed.

(** A loop that ends can be given any budget above the length of its input. *)
Lemma decode_loop_unbounded n buf ms k :
  buf_ok buf → decode_loop n buf = Done (ms, k) → decode_loop (length buf) buf = Done (ms, k).
Proof.
  intros Hb H. eapply decode_loop_budget; [exact H|].
  pose proof (decode_loop_ok n buf Hb) as Hok. rewrite H in Hok. destruct Hok as (_ & Hl & _).
  cbn in Hl. unfold len in Hl. lia.
Qed.

Lemma decode_loop_take n buf ms k :
  buf_ok buf → decode_loop n buf = Done (ms, k) →
  (0 <= k <= len buf)%Z ∧ (16 * Z.of_nat (length ms) <= k)%Z.
Proof.
  intros Hb H. pose proof (decode_loop_ok n buf Hb) as Hok. rewrite H in Hok.
  destruct Hok as (_ & Hl & _). cbn in Hl. lia.
Qed.

(** Decoding what is retained with new bytes is decoding the longer stream. *)
Definition extends_stream (stream : list byte) (c : Channel) (ms : list DbusMessage)
    (new : list byte) (d : Decoded) : Prop :=
  ∃ d', decode_stream (stream ++ new) = Done d' ∧ dec_messages d' = ms ++ dec_messages d
    ∧ dec_phase d' = dec_phase d
    ∧ (0 <= dec_consumed d <= len (ch_buffer c ++ new))%Z
    ∧ (0 <= dec_consumed d' <= len (stream ++ new))%Z
    ∧ drop (Z.to_nat (dec_consumed d)) (ch_buffer c ++ new)
      = drop (Z.to_nat (dec_consumed d')) (stream ++ new).

Lemma in_step_decode_messages stream c ms new d off :
  find_begin_loop [] 0 stream = Some off →
  buf_ok (stream ++ new) → in_step stream c ms →
  decode (ch_buffer c ++ new) (ch_phase c) = Done d → extends_stream stream c ms new d.
Proof.
  intros E Hb (d0 & H0 & Hms & Hph & Hk & Hbuf) Hd. unfold extends_stream.
  unfold decode_stream in H0. rewrite E in H0.
  apply find_begin_loop_bounds in E as Hoff.
  rewrite slice_from_do in H0 by lia. cbn [mbind outcome_bind] in H0.
  set (rest := drop (Z.to_nat off) stream) in *.
  destruct (decode_loop _ rest) as [[ms0 k0]| |] eqn:El; try done.
  cbn [mbind outcome_bind] in H0. injection H0 as <-.
  cbn [dec_messages dec_phase dec_consumed] in *. subst ms0.
  rewrite <- Hph in Hd. apply decode_messages_inv in Hd as [Ed Hp].
  assert (Hrest : buf_ok (rest ++ new)).
  { unfold rest. rewrite <- drop_app_le by (unfold len in *; lia). by apply buf_ok_drop. }
  destruct (decode_loop_take _ _ _ _ (buf_ok_app_l _ _ Hrest) El) as [Hk0 Hm0].
  assert (Hlr : len rest = (len stream - off)%Z)
    by (unfold rest, len in *; rewrite length_drop; lia).
  rewrite Hbuf, Z2Nat.inj_add, <- drop_drop in Ed |- * by lia. fold rest in Ed |- *.
  assert (Hb2 : buf_ok (drop (Z.to_nat k0) rest ++ new)).
  { rewrite <- drop_app_le by (unfold len in *; lia). by apply buf_ok_drop. }
  destruct (decode_loop_take _ _ _ _ Hb2 Ed) as [Hk1 Hm1].
  assert (Hl2 : len (drop (Z.to_nat k0) rest) = (len rest - k0)%Z)
    by (unfold len in *; rewrite length_drop; lia).
  rewrite !len_app2, Hl2 in Hk1. pose proof (len_nonneg new).
  assert (Happ : decode_loop (length (rest ++ new)) (rest ++ new)
    = Done (ms ++ dec_messages d, (k0 + dec_consumed d)%Z)).
  { eapply decode_loop_app; [exact El|exact Ed|by eapply buf_ok_app_l|].
    rewrite length_app. unfold len in *. lia. }
  eexists. unfold decode_stream. rewrite (find_begin_loop_app stream new _ _ _ E).
  rewrite slice_from_do by (rewrite len_app2; lia). cbn [mbind outcome_bind].
  rewrite drop_app_le by (unfold len in *; lia). fold rest.
  rewrite Happ. cbn [mbind outcome_bind]. split; [done|].
  cbn [dec_messages dec_phase dec_consumed]. rewrite !len_app2, Hl2.
  split_and!; [done|by rewrite Hp|lia|lia|lia|lia|].
  rewrite !Z2Nat.inj_add, <- !drop_drop by lia.
  rewrite (drop_app_le stream new) by (unfold len in *; lia). fold rest.
  by rewrite (drop_app_le rest new) by (unfold len in *; lia).
Qed.

Lemma in_step_decode_auth stream c ms new d :
  find_begin_loop [] 0 stream = None →
  buf_ok (stream ++ new) → in_step stream c ms →
  decode (ch_buffer c ++ new) (ch_phase c) = Done d → extends_stream stream c ms new d.
Proof.
  intros E Hb (d0 & H0 & Hms & Hph & Hk & Hbuf) Hd. unfold extends_stream.
  unfold decode_stream in H0. rewrite E in H0.
  injection H0 as <-. cbn [dec_messages dec_phase dec_consumed] in *. subst ms.
  change (drop _ stream) with stream in Hbuf. rewrite Hbuf in *. rewrite <- Hph in Hd.
  unfold decode, find_begin in Hd. unfold decode_stream.
  destruct (find_begin_loop [] 0 (stream ++ new)) as [off|] eqn:E2.
  + apply find_begin_loop_bounds in E2 as Hoff.
    cbn [mbind outcome_bind] in Hd |- *. rewrite slice_from_do in Hd |- * by lia.
    cbn [mbind outcome_bind] in Hd |- *. set (rest := drop (Z.to_nat off) _) in *.
    destruct (decode_loop _ rest) as [[m k]| |] eqn:El; try done.
    cbn [mbind outcome_bind] in Hd. injection Hd as <-.
    assert (Hrest : buf_ok rest) by by apply buf_ok_drop.
    apply (decode_loop_unbounded _ _ _ _ Hrest) in El as El2. rewrite El2.
    cbn [mbind outcome_bind]. destruct (decode_loop_take _ _ _ _ Hrest El) as [Hk1 _].
    assert (Hlr : len rest = (len (stream ++ new) - off)%Z)
      by (unfold rest, len in *; rewrite length_drop; lia).
    eexists. split; [done|]. cbn. split_and!; [done|done|lia|lia|lia|lia|done].
  + destruct (_ <? _)%Z; [done|]. cbn in Hd. injection Hd as <-.
    eexists. split; [done|]. cbn. pose proof (len_nonneg (stream ++ new)).
    by split_and!; try lia.
Qed.

Lemma in_step_decode stream c ms new d :
  buf_ok (stream ++ new) → in_step stream c ms →
  decode (ch_buffer c ++ new) (ch_phase c) = Done d → extends_stream stream c ms new d.
Proof.
  destruct (find_begin_loop [] 0 stream) eqn:E;
    [by eapply in_step_decode_messages|by apply in_step_decode_auth].
Qed.

(** More bytes complete more messages, after the same first ones. *)
Lemma decode_loop_prefix n n' buf more ms k ms' k' :
  decode_loop n buf = Done (ms, k) → decode_loop n' (buf ++ more) = Done (ms', k') →
  ms `prefix_of` ms'.
Proof.
  revert n' buf ms k ms' k'. induction n as [|n IH]; intros n' buf ms k ms' k'; cbn [decode_loop].
  { destruct (read_message buf) as [[[m j]|]| |]; try done. intros [= <- _] _. apply prefix_nil. }
  destruct (read_message buf) as [[[m j]|]| |] eqn:E; try done; cbn [mbind outcome_bind].
  2: { intros [= <- _] _. apply prefix_nil. }
  destruct (slice_from buf j) as [rest| |] eqn:Er; try done. cbn [mbind outcome_bind].
  destruct (decode_loop n rest) as [[ms1 k1]| |] eqn:El; try done. intros [= <- _] H.
  apply (read_message_app buf more) in E. apply (slice_from_app buf more) in Er.
  destruct n' as [|n']; cbn [decode_loop] in H; rewrite E in H; cbn [mbind outcome_bind] in H; [done|].
  rewrite Er in H. cbn [mbind outcome_bind] in H.
  destruct (decode_loop n' (rest ++ more)) as [[ms2 k2]| |] eqn:El2; try done.
  injection H as <- _. apply prefix_cons. by eapply IH.
Qed.

Lemma decode_prefix buf more ph d d' :
  decode buf ph = Done d → decode (buf ++ more) ph = Done d' →
  dec_messages d `prefix_of` dec_messages d'.
Proof.
  destruct ph; intros H H'.
  - apply decode_auth_inv in H as [->|(off & rest & c & E & Er & El & _)]; [apply prefix_nil|].
    apply (find_begin_loop_app buf more) in E. apply (slice_from_app buf more) in Er.
    unfold decode, find_begin in H'. rewrite E in H'. cbn [mbind outcome_bind] in H'.
    rewrite Er in H'. cbn [mbind outcome_bind] in H'.
    destruct (decode_loop _ (rest ++ more)) as [[ms2 k2]| |] eqn:El2; try done.
    injection H' as <-. by eapply decode_loop_prefix.
  - apply decode_messages_inv in H as [H _]. apply decode_messages_inv in H' as [H' _].
    by eapply decode_loop_prefix.
Qed.

Lemma in_step_new a : in_step [] (Channel_new a) [].
Proof. eexists. split; [reflexivity|]. by cbn. Qed.

Lemma channel_peek_Ok bytes c c' pm :
  channel_peek bytes c = Some (c', Ok pm) →
  c' = c ∧ ch_poison c = None
  ∧ ∃ d, decode (ch_buffer c ++ bytes) (ch_phase c) = Done d ∧ pm = dec_messages d.
Proof.
  unfold channel_peek. destruct (ch_poison c); [done|]. destruct (_ <? _)%Z; [done|].
  destruct (decode _ _) as [d| |]; try done. intros [= <- <-]. eauto.
Qed.

Lemma channel_commit_clean bytes acc c c' :
  channel_commit bytes acc c = Some c' → ch_poison c' = None →
  ch_poison c = None ∧ (acc <= len bytes)%Z
  ∧ ∃ d, decode (ch_buffer c ++ take (Z.to_nat acc) bytes) (ch_phase c) = Done d
    ∧ ch_phase c' = dec_phase d ∧ ch_address c' = ch_address c
    ∧ ch_buffer c' = drop (Z.to_nat (dec_consumed d)) (ch_buffer c ++ take (Z.to_nat acc) bytes).
Proof.
  unfold channel_commit. destruct (ch_poison c) eqn:Ep; [intros [= <-]; congruence|].
  destruct (Z.ltb_spec (len bytes) acc); [intros [= <-] Hc|].
  { destruct (poison_poisoned "write-exceeded-inspected-payload" c) as [t Ht]. congruence. }
  destruct (decode _ _) as [d|e|]; try done.
  - destruct (slice_from _ _) as [rest| |] eqn:Er; try done. intros [= <-] _.
    apply slice_from_Done in Er as [_ ->]. split_and!; [done|lia|]. by exists d.
  - intros [= <-] Hc. cbn in Hc. done.
Qed.

(** One write, judged in full and accepted in part. *)
Lemma in_step_write stream c ms bytes acc pm c1 c' :
  buf_ok (stream ++ take (Z.to_nat acc) bytes) → in_step stream c ms →
  channel_peek bytes c = Some (c1, Ok pm) →
  channel_commit bytes acc c1 = Some c' → ch_poison c' = None →
  ∃ new, in_step (stream ++ take (Z.to_nat acc) bytes) c' (ms ++ new) ∧ new `prefix_of` pm.
Proof.
  intros Hb Hin Hpeek Hcommit Hclean. apply channel_peek_Ok in Hpeek as (-> & _ & dp & Hdp & ->).
  apply channel_commit_clean in Hcommit as (_ & _ & d & Hd & Hph & _ & Hbuf); [|done].
  destruct (in_step_decode _ _ _ _ _ Hb Hin Hd) as (d' & H1 & H2 & H3 & H4 & H5 & H6).
  exists (dec_messages d). split.
  - exists d'. rewrite Hph, Hbuf. by split_and!; try lia.
  - eapply decode_prefix; [exact Hd|].
    rewrite <- app_assoc, take_drop. exact Hdp.
Qed.

(** ** What a channel retains *)

Lemma read_message_incomplete buf :
  read_message buf = Done None → (len buf < MAX_MESSAGE_LEN)%Z.
Proof.
  unfold read_message. destruct (Z.ltb_spec (len buf) FIXED_HEADER_LEN) as [Hs|_].
  { unfold FIXED_HEADER_LEN, MAX_MESSAGE_LEN in *. lia. }
  assert (Hbind : ∀ {A B} (m : outcome A) (k : A → outcome B) b,
    m ≫= k = Done b → ∃ a, k a = Done b) by (intros A B [a| |] k b Hk; cbn in Hk; [eauto|done..]).
  intros [b0 H0]%Hbind. revert H0. intros [le H0]%Hbind. revert H0. intros [b3 H0]%Hbind. revert H0.
  destruct (negb _); [done|]. intros [body_len H0]%Hbind. revert H0.
  intros [fields_len H0]%Hbind. revert H0. intros [fields_end H0]%Hbind. revert H0.
  intros [body_start H0]%Hbind. revert H0. intros [total H0]%Hbind. revert H0.
  destruct (Z.ltb_spec MAX_MESSAGE_LEN total); [done|].
  destruct (Z.ltb_spec (len buf) total); [lia|].
  intros [b1 H1]%Hbind. revert H1. intros [message H1]%Hbind. revert H1. destruct (_ && _); [|done].
  intros [own H1]%Hbind. revert H1. by intros [body H1]%Hbind.
Qed.

Lemma decode_loop_retains n buf ms k :
  buf_ok buf → decode_loop n buf = Done (ms, k) →
  (0 <= k <= len buf)%Z ∧ (len (drop (Z.to_nat k) buf) <= MAX_BUFFER)%Z.
Proof.
  intros Hl H. pose proof (decode_loop_ok n buf Hl) as Hok. rewrite H in Hok.
  destruct Hok as (_ & Hk & Hnone). cbn in Hk, Hnone. apply read_message_incomplete in Hnone.
  unfold MAX_BUFFER. lia.
Qed.

(** What decoding leaves is at most a partial message or handshake. *)
Lemma decode_retains buf ph d :
  buf_ok buf → decode buf ph = Done d →
  (0 <= dec_consumed d <= len buf)%Z
  ∧ (len (drop (Z.to_nat (dec_consumed d)) buf) <= MAX_BUFFER)%Z.
Proof.
  intros Hb H. destruct ph; [|apply decode_messages_inv in H as [H _]; by eapply decode_loop_retains].
  unfold decode, find_begin in H. destruct (find_begin_loop [] 0 buf) as [off|] eqn:E.
  - apply find_begin_loop_bounds in E as Hoff. cbn [mbind outcome_bind] in H.
    rewrite slice_from_do in H by lia. cbn [mbind outcome_bind] in H.
    set (rest := drop _ buf) in *. assert (Hrest : buf_ok rest) by by apply buf_ok_drop.
    destruct (decode_loop _ rest) as [[ms k]| |] eqn:El; try done. injection H as <-. cbn.
    destruct (decode_loop_retains _ _ _ _ Hrest El) as [H1 H2].
    assert (Hlr : len rest = (len buf - off)%Z) by (unfold rest, len in *; rewrite length_drop; lia).
    rewrite Z2Nat.inj_add, <- drop_drop by lia. fold rest. lia.
  - destruct (Z.ltb_spec MAX_AUTH_LEN (len buf)); [done|]. injection H as <-. cbn [dec_consumed].
    change (drop (Z.to_nat 0) buf) with buf.
    pose proof (len_nonneg buf). unfold MAX_AUTH_LEN, MAX_BUFFER, MAX_MESSAGE_LEN in *. lia.
Qed.

Definition retains (c : Channel) : Prop := (len (ch_buffer c) <= MAX_BUFFER)%Z.

Lemma poison_retains tag c : retains (poison tag c).
Proof. by unfold retains. Qed.

Lemma decode_no_panic buf ph : buf_ok buf → decode buf ph ≠ Panic.
Proof. intros Hb E. pose proof (decode_safe_aux buf ph Hb) as H. by rewrite E in H. Qed.

Lemma channel_peek_total bytes c :
  retains c → ∃ c' r, channel_peek bytes c = Some (c', r) ∧ retains c'.
Proof.
  intros Hc. unfold channel_peek. destruct (ch_poison c); [by eauto|].
  destruct (Z.ltb_spec MAX_BUFFER (saturating_add (len (ch_buffer c)) (len bytes))) as [|Hl];
    [eauto using poison_retains|].
  destruct (decode _ _) eqn:E; [by eauto|eauto using poison_retains|]. exfalso.
  eapply decode_no_panic; [|exact E]. unfold buf_ok, saturating_add, MAX_BUFFER, MAX_MESSAGE_LEN in *.
  rewrite len_app2. lia.
Qed.

Lemma channel_commit_total bytes acc c :
  retains c → (len bytes < 2 ^ 62)%Z → ∃ c', channel_commit bytes acc c = Some c' ∧ retains c'.
Proof.
  intros Hc Hb. unfold channel_commit. destruct (ch_poison c); [by eauto|].
  destruct (_ <? _)%Z; [eauto using poison_retains|].
  set (buffer := ch_buffer c ++ _).
  assert (Hbuf : buf_ok buffer).
  { unfold buf_ok, buffer, retains, MAX_BUFFER, MAX_MESSAGE_LEN in *. rewrite len_app2.
    unfold len in *. rewrite length_take. lia. }
  destruct (decode buffer _) as [d|e|] eqn:E; [|eauto using poison_retains|].
  - destruct (decode_retains _ _ _ Hbuf E) as [H1 H2].
    rewrite slice_from_do by done. eauto.
  - exfalso. by eapply decode_no_panic.
Qed.

(** ** The tracker's operations *)

Inductive op :=
  | ORegister (tgid fd : Z) (address : string)
  | OAlias (tgid old_fd new_fd : Z)
  | OPeek (tgid fd : Z) (bytes : list byte)
  | OCommit (tgid fd : Z) (bytes : list byte) (accepted : Z)
  | OPoison (tgid fd : Z) (tag : string)
  | OClose (tgid fd : Z)
  | OCloseRange (tgid first last : Z)
  | ORemoveProcess (tgid : Z)
  | ORetain (tgid : Z) (live_fds : gset Z)
  | OInherit (parent_tgid child_tgid : Z).

Section TrackerProofs.
Context `{HI : HashIter} `{HL : !HashIterLaws}.
Implicit Types t : DbusChannelTracker.

Definition apply_op (o : op) t : option DbusChannelTracker :=
  match o with
  | ORegister tgid fd a => Some (register tgid fd a t)
  | OAlias tgid old_fd new_fd => Some (alias tgid old_fd new_fd t)
  | OPeek tgid fd bytes => fst <$> tracker_peek tgid fd bytes t
  | OCommit tgid fd bytes accepted => tracker_commit tgid fd bytes accepted t
  | OPoison tgid fd tag => Some (tracker_poison tgid fd tag t)
  | OClose tgid fd => Some (close tgid fd t)
  | OCloseRange tgid first last => Some (close_range tgid first last t)
  | ORemoveProcess tgid => Some (remove_process tgid t)
  | ORetain tgid live => Some (fst (retain_and_poison tgid live t))
  | OInherit parent child => Some (fst (inherit_process parent child t))
  end.

Fixpoint apply_ops (os : list op) t : option DbusChannelTracker :=
  match os with [] => Some t | o :: os' => t' ← apply_op o t; apply_ops os' t' end.

(** The descriptor is not tracked, or can no longer be decoded. *)
Definition undecodable (k : Z * Z) t : Prop :=
  match t !! k with None => True | Some c => is_Some (ch_poison c) end.

Definition registers (k : Z * Z) (o : op) : bool :=
  match o with ORegister tgid fd _ => bool_decide ((tgid, fd) = k) | _ => false end.

Lemma undecodable_insert k k' c t :
  undecodable k t → (k' = k → is_Some (ch_poison c)) → undecodable k (<[k' := c]> t).
Proof.
  unfold undecodable. intros H Hc. destruct (decide (k' = k)) as [->|Hk].
  - rewrite lookup_insert_eq. by apply Hc.
  - by rewrite lookup_insert_ne.
Qed.

Lemma undecodable_sub k t t' :
  undecodable k t → (∀ c', t' !! k = Some c' →
    ∃ c, t !! k = Some c ∧ (is_Some (ch_poison c) → is_Some (ch_poison c'))) → undecodable k t'.
Proof.
  unfold undecodable. intros H Hsub. destruct (t' !! k) as [c'|]; [|done].
  destruct (Hsub c' eq_refl) as (c & Hc & Hp). rewrite Hc in H. auto.
Qed.

Lemma channel_peek_poison bytes c c' r :
  channel_peek bytes c = Some (c', r) → is_Some (ch_poison c) → c' = c.
Proof. unfold channel_peek. intros H [tag Ht]. rewrite Ht in H. by injection H. Qed.

Lemma channel_commit_poison bytes acc c c' :
  channel_commit bytes acc c = Some c' → is_Some (ch_poison c) → c' = c.
Proof. unfold channel_commit. intros H [tag Ht]. rewrite Ht in H. by injection H. Qed.

Lemma poison_keeps tag c : is_Some (ch_poison c) → is_Some (ch_poison (poison tag c)).
Proof. intros _. apply poison_poisoned. Qed.

Lemma retain_lookup tgid live t k :
  fst (retain_and_poison tgid live t) !! k
  = t !! k ≫= λ c, if negb (k.1 =? tgid)%Z then Some c
      else if bool_decide (k.2 ∈ live) then Some (poison "survived-exec" c) else None.
Proof. unfold retain_and_poison. cbn [fst]. by rewrite map_lookup_imap. Qed.

Lemma inherit_fold_undecodable k child l t :
  undecodable k t →
  undecodable k (fold_left (λ t (fa : Z * string),
    <[(child, fa.1) := poison "forked-connection" (Channel_new fa.2)]> t) l t).
Proof.
  revert t. induction l as [|fa l IH]; intros t Ht; cbn [fold_left]; [done|].
  apply IH, undecodable_insert; [done|]. intros _. apply poison_poisoned.
Qed.

Lemma apply_op_undecodable k o t t' :
  undecodable k t → registers k o = false → apply_op o t = Some t' → undecodable k t'.
Proof.
  intros Ht Hr Ho. destruct o; cbn in Ho, Hr.
  - apply bool_decide_eq_false in Hr. injection Ho as <-. by apply undecodable_insert.
  - injection Ho as <-. unfold alias. destruct (address _ _ _); [|done].
    apply undecodable_insert; [done|]. intros _. apply poison_poisoned.
  - unfold tracker_peek in Ho. destruct (t !! (tgid, fd)) as [c|] eqn:E; [|by injection Ho as <-].
    destruct (channel_peek bytes c) as [[c' r]|] eqn:Ep; [|done]. injection Ho as <-.
    apply undecodable_insert; [done|]. intros <-. unfold undecodable in Ht. rewrite E in Ht.
    by rewrite (channel_peek_poison _ _ _ _ Ep Ht).
  - unfold tracker_commit in Ho. destruct (t !! (tgid, fd)) as [c|] eqn:E; [|by injection Ho as <-].
    destruct (channel_commit bytes accepted c) as [c'|] eqn:Ep; [|done]. injection Ho as <-.
    apply undecodable_insert; [done|]. intros <-. unfold undecodable in Ht. rewrite E in Ht.
    by rewrite (channel_commit_poison _ _ _ _ Ep Ht).
  - injection Ho as <-. eapply undecodable_sub; [done|]. unfold tracker_poison. intros c'.
    rewrite lookup_alter. case_decide as Hk; [|by intros Hc; eauto]. subst k.
    rewrite fmap_Some. intros (c & Hc & ->). exists c. split; [done|apply poison_keeps].
  - injection Ho as <-. eapply undecodable_sub; [done|]. unfold close. intros c'.
    rewrite lookup_delete_Some. intros [_ Hc]. eauto.
  - injection Ho as <-. eapply undecodable_sub; [done|]. unfold close_range. intros c'.
    rewrite map_lookup_filter_Some. intros [Hc _]. eauto.
  - injection Ho as <-. eapply undecodable_sub; [done|]. unfold remove_process. intros c'.
    rewrite map_lookup_filter_Some. intros [Hc _]. eauto.
  - injection Ho as <-. eapply undecodable_sub; [done|]. intros c'.
    rewrite map_lookup_imap, bind_Some. intros (c & Hc & Hif). exists c. split; [done|].
    destruct (negb _); [by injection Hif as <-|]. destruct (bool_decide _); [|done].
    injection Hif as <-. intros _. apply poison_poisoned.
  - injection Ho as <-. unfold inherit_process. cbn [fst]. by apply inherit_fold_undecodable.
Qed.

Lemma apply_ops_undecodable k os t t' :
  undecodable k t → Forall (λ o, registers k o = false) os →
  apply_ops os t = Some t' → undecodable k t'.
Proof.
  intros Ht Hos. revert t Ht. induction Hos as [|o os Ho _ IH]; intros t Ht; cbn.
  - by intros [= <-].
  - rewrite bind_Some. intros (t1 & H1 & H2). eapply IH; [|done]. by eapply apply_op_undecodable.
Qed.

(** ** The entries of a process *)

Lemma elem_of_entries tgid t fd c : (fd, c) ∈ entries_of tgid t ↔ t !! (tgid, fd) = Some c.
Proof.
  unfold entries_of. rewrite list_elem_of_In, in_map_iff. split.
  - intros ([[t' fd'] c'] & [= -> ->] & [Hin Heq]%filter_In). cbn in Heq.
    apply Z.eqb_eq in Heq as ->. by apply hash_iter_elem_of, list_elem_of_In.
  - intros Hc. exists ((tgid, fd), c). split; [done|]. apply filter_In. split.
    + by apply list_elem_of_In, hash_iter_elem_of.
    + apply Z.eqb_refl.
Qed.

Lemma NoDup_entries tgid t : NoDup (map fst (entries_of tgid t)).
Proof.
  assert (Hn : NoDup (hash_iter t).*1).
  { rewrite hash_iter_perm. apply NoDup_fst_map_to_list. }
  unfold entries_of. rewrite map_map. cbn. induction (hash_iter t) as [|[[t' fd] c] l IH]; [constructor|].
  cbn in *. apply NoDup_cons in Hn as [Hnin Hn]. specialize (IH Hn).
  destruct (Z.eqb_spec t' tgid) as [->|]; [|done]. cbn. constructor; [|done].
  rewrite list_elem_of_In, in_map_iff. intros ([[t2 fd2] c2] & Hfd & [Hin Heq]%filter_In).
  cbn in *. apply Z.eqb_eq in Heq as ->. subst fd2. apply Hnin.
  apply list_elem_of_fmap. exists ((tgid, fd), c2). split; [done|]. by apply list_elem_of_In.
Qed.

Lemma elem_of_tracked_fds tgid t fd : fd ∈ tracked_fds tgid t ↔ is_Some (t !! (tgid, fd)).
Proof.
  unfold tracked_fds. rewrite list_elem_of_In, in_map_iff. split.
  - intros ([fd' c] & <- & Hin). apply list_elem_of_In, elem_of_entries in Hin. eauto.
  - intros [c Hc]. exists (fd, c). split; [done|]. by apply list_elem_of_In, elem_of_entries.
Qed.

Lemma fold_inherit_lookup child l t k :
  NoDup (map fst l) →
  fold_left (λ t (fa : Z * string),
    <[(child, fa.1) := poison "forked-connection" (Channel_new fa.2)]> t) l t !! k
  = match (if (k.1 =? child)%Z then list_to_map (M := gmap Z string) l !! k.2 else None) with
    | Some a => Some (poison "forked-connection" (Channel_new a))
    | None => t !! k
    end.
Proof.
  revert t. induction l as [|[fd a] l IH]; intros t Hn; cbn [fold_left list_to_map].
  { cbn. by destruct (_ =? _)%Z. }
  cbn in Hn. apply NoDup_cons in Hn as [Hnin Hn]. rewrite IH by done. cbn. destruct k as [kt kf]. cbn.
  destruct (Z.eqb_spec kt child) as [->|Hc]; [|rewrite lookup_insert_ne; [done|congruence]].
  destruct (decide (kf = fd)) as [->|Hf].
  - rewrite lookup_insert_eq. rewrite not_elem_of_list_to_map_1 by done. by rewrite lookup_insert_eq.
  - by rewrite !lookup_insert_ne by congruence.
Qed.

Lemma inherited_lookup parent t fd :
  list_to_map (M := gmap Z string) (map (λ fc, (fc.1, ch_address fc.2)) (entries_of parent t)) !! fd
  = ch_address <$> t !! (parent, fd).
Proof.
  assert (Hn : NoDup ((map (λ fc, (fc.1, ch_address fc.2)) (entries_of parent t)).*1)).
  { change (NoDup (map fst (map (λ fc, (fc.1, ch_address fc.2)) (entries_of parent t)))).
    rewrite map_map. apply (NoDup_entries parent t). }
  destruct (t !! (parent, fd)) as [c|] eqn:E; cbn.
  - apply elem_of_list_to_map_1; [done|]. apply list_elem_of_In, in_map_iff.
    exists (fd, c). split; [done|]. by apply list_elem_of_In, elem_of_entries.
  - apply not_elem_of_list_to_map_1. intros ([fd' a] & Hfd & Hin)%list_elem_of_fmap. cbn in Hfd.
    subst fd'. apply list_elem_of_In, in_map_iff in Hin as ([fd' c] & [= -> _] & Hin).
    apply list_elem_of_In, elem_of_entries in Hin. congruence.
Qed.

(** ** Properties *)

(** Only a connection the process opened itself, on its own descriptor, is
    ever decoded.  A descriptor that is untracked or poisoned, as every
    duplicated, inherited or exec-surviving one is, yields no messages after any
    sequence of operations on any descriptors, until a connection is registered
    on it. *)
Theorem undecodable_until_registered tgid fd os t t' bytes
    (Hk : undecodable (tgid, fd) t)
    (Hos : Forall (λ o, registers (tgid, fd) o = false) os)
    (Hrun : apply_ops os t = Some t') :
  ∃ t'' feed, tracker_peek tgid fd bytes t' = Some (t'', feed)
    ∧ (feed = NotTracked ∨ ∃ tag, feed = Poisoned tag).
Proof.
  pose proof (apply_ops_undecodable _ _ _ _ Hk Hos Hrun) as H. unfold undecodable in H.
  unfold tracker_peek. destruct (t' !! (tgid, fd)) as [c|]; [|by eauto].
  destruct H as [tag Htag]. unfold channel_peek. rewrite Htag. cbn.
  do 2 eexists. split; [reflexivity|]. right. by exists tag.
Qed.

(** A descriptor that changes hands is poisoned.  After [execve] a process
    keeps exactly its live tracked descriptors, all poisoned and all reported,
    each once; after [fork] the child has every tracked descriptor of its
    parent, poisoned from the start, and these are reported; no other process's
    channel changes in either case. *)
Theorem handover_poisons t tgid child live
    (survivors := snd (retain_and_poison tgid live t))
    (inherited := snd (inherit_process tgid child t)) :
  (∀ k, fst (retain_and_poison tgid live t) !! k
     = if (k.1 =? tgid)%Z
       then if bool_decide (k.2 ∈ live) then poison "survived-exec" <$> t !! k else None
       else t !! k)
  ∧ NoDup survivors ∧ (∀ fd, fd ∈ survivors ↔ fd ∈ live ∧ is_Some (t !! (tgid, fd)))
  ∧ (∀ k, fst (inherit_process tgid child t) !! k
     = if (k.1 =? child)%Z
       then match t !! (tgid, k.2) with
            | Some c => Some (poison "forked-connection" (Channel_new (ch_address c)))
            | None => t !! k
            end
       else t !! k)
  ∧ NoDup inherited ∧ (∀ fd, fd ∈ inherited ↔ is_Some (t !! (tgid, fd))).
Proof.
  assert (Hinh : inherited = tracked_fds tgid t).
  { unfold inherited, inherit_process, tracked_fds. cbn. by rewrite map_map. }
  split_and!.
  - intros k. rewrite retain_lookup. destruct (_ =? _)%Z, (bool_decide _), (t !! k); done.
  - unfold survivors, retain_and_poison. cbn.
    apply NoDup_ListNoDup, List.NoDup_filter, NoDup_ListNoDup, NoDup_entries.
  - intros fd. unfold survivors, retain_and_poison. cbn.
    rewrite list_elem_of_In, filter_In, bool_decide_eq_true, <- list_elem_of_In.
    fold (tracked_fds tgid t). rewrite elem_of_tracked_fds. tauto.
  - intros k. unfold inherit_process. cbn [fst]. rewrite fold_inherit_lookup.
    + rewrite inherited_lookup. destruct (_ =? _)%Z, (t !! (tgid, k.2)); done.
    + rewrite map_map. apply NoDup_entries.
  - rewrite Hinh. apply NoDup_entries.
  - rewrite Hinh. apply elem_of_tracked_fds.
Qed.
End TrackerProofs.

(** ** Witnesses *)

(** A bus descriptor survives an [execve]; a write through it is not decoded. *)
Definition before_exec : DbusChannelTracker := <[(72, 5)%Z := Channel_new "unix:/run/user/1000/bus"]> ∅.
Definition after_exec : DbusChannelTracker :=
  fst (retain_and_poison (HI := concrete_iter) 72 {[5%Z]} before_exec).

Lemma undecodable_until_registered_witness :
  ∃ t'' feed, tracker_peek 72 5 (str_bytes "BEGIN")
      (fst (inherit_process (HI := concrete_iter) 72 73 after_exec)) = Some (t'', feed)
    ∧ (feed = NotTracked ∨ ∃ tag, feed = Poisoned tag).
Proof.
  apply (undecodable_until_registered (HI := concrete_iter) 72 5
    [OCommit 72 5 [] 0; OInherit 72 73; OPeek 72 5 (str_bytes "BEGIN")] after_exec
    (fst (inherit_process (HI := concrete_iter) 72 73 after_exec))).
  - vm_compute. by eexists.
  - by repeat constructor.
  - by vm_compute.
Defined.

(** Two channels of process 72, of which descriptor 5 survives, forked to 73. *)
Definition two_channels : DbusChannelTracker :=
  <[(72, 6)%Z := Channel_new "unix:/tmp/dbus-a"]> before_exec.

Lemma handover_poisons_witness :
  (∀ k, fst (retain_and_poison (HI := concrete_iter) 72 {[5%Z]} two_channels) !! k
     = if (k.1 =? 72)%Z
       then if bool_decide (k.2 ∈ ({[5%Z]} : gset Z))
            then poison "survived-exec" <$> two_channels !! k else None
       else two_channels !! k)
  ∧ snd (retain_and_poison (HI := concrete_iter) 72 {[5%Z]} two_channels) = [5%Z]
  ∧ (∀ fd, fd ∈ snd (inherit_process (HI := concrete_iter) 72 73 two_channels)
           ↔ is_Some (two_channels !! (72%Z, fd))).
Proof.
  destruct (handover_poisons (HI := concrete_iter) (HL := concrete_iter_laws) two_channels 72 73 {[5%Z]})
    as (H1 & _ & _ & _ & _ & H2).
  split_and!; [exact H1|by vm_compute|exact H2].
Defined.
