(* ===== verification/DbusInspect.v ===== *)
(** * Inspecting D-Bus writes

    The D-Bus part of [crates/grith-supervisor/src/platform/linux/events.rs]: a
    write on an inspected channel is read out of the tracee and judged when the
    syscall is entered, and the bytes the kernel accepted are committed when it
    exits.  Reading a word of tracee memory ([ptrace::read], of the [nix] crate)
    is a parameter; addresses wrap at 64 bits, as in a release build. *)

From S2P Require Import Prelude Concrete DbusWire DbusPolicy DbusChannel.

(** ** The payload of a write *)

Section TraceeMemory.
(** The eight bytes at an address, or a failed [PTRACE_PEEKDATA]. *)
Variable read_word : Z → option (list byte).

Definition WORD : Z := 8.
Definition MMSGHDR_SIZE : Z := 64.

(** [offset] goes up by a word per step; [len] steps are always enough. *)
Fixpoint read_loop (fuel : nat) (addr offset n : Z) : option (list byte) :=
  if (n <=? offset)%Z then Some []
  else
    match fuel with
    | O => None
    | S fuel' =>
        word ← read_word (as_u64 (addr + offset));
        rest ← read_loop fuel' addr (offset + WORD) n;
        Some (take (Z.to_nat (Z.min WORD (n - offset))) word ++ rest)
    end.

Definition read_tracee_bytes (addr n : Z) : option (list byte) :=
  read_loop (Z.to_nat n) addr 0 n.

Definition read_tracee_u64 (addr : Z) : option Z :=
  bytes ← read_tracee_bytes addr 8;
  if decide (length bytes = 8) then Some (u32_of_bytes bytes true) else None.

Definition u64_checked_add (a b : Z) : option Z :=
  if (a + b <? 2 ^ 64)%Z then Some (a + b)%Z else None.
Definition u64_checked_mul (a b : Z) : option Z :=
  if (a * b <? 2 ^ 64)%Z then Some (a * b)%Z else None.

(** The entries from [index] on; [n] of them remain. *)
Fixpoint read_iovecs_loop (n : nat) (index iov_ptr limit : Z) (out : list byte) :
    option (list byte) :=
  match n with
  | O => Some out
  | S n' =>
      if (limit <=? len out)%Z then Some out
      else
        step ← u64_checked_mul index 16;
        entry ← u64_checked_add iov_ptr step;
        base ← read_tracee_u64 entry;
        n_bytes ← read_tracee_u64 (as_u64 (entry + 8));
        if (base =? 0)%Z && negb (n_bytes =? 0)%Z then None
        else
          let take := Z.min n_bytes (limit - len out) in
          out ←
            (if (0 <? take)%Z then
               bytes ← read_tracee_bytes base take; Some (out ++ bytes)
             else Some out);
          read_iovecs_loop n' (index + 1) iov_ptr limit out
  end.

Definition read_iovecs (iov_ptr iovlen limit : Z) : option (list byte) :=
  if (iov_ptr =? 0)%Z || (iovlen =? 0)%Z || (1024 <? iovlen)%Z then None
  else read_iovecs_loop (Z.to_nat iovlen) 0 iov_ptr limit [].

(** The headers of a batch from [index] on; [n] of them remain. *)
Fixpoint read_batch (n : nat) (index msgvec limit : Z) (out : list byte) : option (list byte) :=
  match n with
  | O => Some out
  | S n' =>
      header ← u64_checked_add msgvec (index * MMSGHDR_SIZE);
      iov_ptr ← read_tracee_u64 (as_u64 (header + 16));
      iovlen ← read_tracee_u64 (as_u64 (header + 24));
      remaining ← (if (len out <=? limit)%Z then Some (limit - len out)%Z else None);
      bytes ← read_iovecs iov_ptr iovlen remaining;
      read_batch n' (index + 1) msgvec limit (out ++ bytes)
  end.

(** The syscalls that write to a socket; any other is [OtherSys]. *)
Inductive SysId := Write | Sendto | Writev | Sendmsg | Sendmmsg | OtherSys.

Definition read_outbound_payload (nr : SysId) (args : nat → Z) : option (list byte) :=
  let limit := MAX_MESSAGE_LEN in
  match nr with
  | Write | Sendto => read_tracee_bytes (args 1) (Z.min (args 2) limit)
  | Writev => read_iovecs (args 1) (args 2) limit
  | Sendmsg =>
      iov_ptr ← read_tracee_u64 (as_u64 (args 1 + 16));
      iovlen ← read_tracee_u64 (as_u64 (args 1 + 24));
      read_iovecs iov_ptr iovlen limit
  | Sendmmsg =>
      let vlen := args 2 in
      if (vlen =? 0)%Z || (Z.of_nat MAX_MESSAGES_PER_CALL <? vlen)%Z then None
      else read_batch (Z.to_nat vlen) 0 (args 1) limit []
  | OtherSys => None
  end.
End TraceeMemory.

(** ** Judging and committing *)

Record PendingDbusWrite := { pw_tgid : Z; pw_fd : Z; pw_payload : list byte }.

(** The D-Bus part of the interceptor's state. *)
Record InspectState := {
  is_channels : DbusChannelTracker;
  is_pending_write : gmap Z PendingDbusWrite;
  is_pending_call : gmap Z (list DbusMessage);
}.

(** A [DbusMethodCall] event, without its wall-clock timestamp. *)
Record SyscallEvent := {
  ev_pid : Z;
  ev_tid : Z;
  ev_socket : string;
  ev_destination : option string;
  ev_interface : option string;
  ev_member : option string;
  ev_path : option string;
  ev_raw_syscall_nr : Z;
}.

Definition with_channels (t : DbusChannelTracker) (st : InspectState) : InspectState := {|
  is_channels := t; is_pending_write := is_pending_write st; is_pending_call := is_pending_call st;
|}.

Definition dbus_escalation_event (tgid tid nr : Z) (socket : string)
    (escalated : list DbusMessage) (st : InspectState) : SyscallEvent * InspectState :=
  let first := default DbusMessage_default (head escalated) in
  ({| ev_pid := tgid; ev_tid := tid; ev_socket := socket;
      ev_destination := dm_destination first; ev_interface := dm_interface first;
      ev_member := dm_member first; ev_path := dm_path first; ev_raw_syscall_nr := nr |},
   {| is_channels := is_channels st; is_pending_write := is_pending_write st;
      is_pending_call := <[tid := escalated]> (is_pending_call st) |}).

Definition escalates (m : DbusMessage) : bool :=
  match classify m with Escalate _ => true | Allow => false end.

(** [payload] is what [read_outbound_payload] returned. *)
Definition inspect_dbus_write (tgid tid fd nr : Z) (payload : option (list byte))
    (st : InspectState) : option (option SyscallEvent * InspectState) :=
  match address tgid fd (is_channels st) with
  | None => Some (None, st)
  | Some socket =>
      let escalate escalated st :=
        let '(ev, st) := dbus_escalation_event tgid tid nr socket escalated st in (Some ev, st) in
      if is_poisoned tgid fd (is_channels st) then Some (escalate [] st)
      else
        match payload with
        | None =>
            Some (escalate []
              (with_channels (tracker_poison tgid fd "payload-unreadable" (is_channels st)) st))
        | Some payload =>
            '(channels, feed) ← tracker_peek tgid fd payload (is_channels st);
            let st := {|
              is_channels := channels;
              is_pending_write :=
                <[tid := {| pw_tgid := tgid; pw_fd := fd; pw_payload := payload |}]>
                  (is_pending_write st);
              is_pending_call := is_pending_call st |} in
            match feed with
            | NotTracked => Some (None, st)
            | Poisoned _ => Some (escalate [] st)
            | FeedMessages messages =>
                match List.filter escalates messages with
                | [] => Some (None, st)
                | escalated => Some (escalate escalated st)
                end
            end
        end
  end.

(** [usize::try_from(result).unwrap_or(0)] *)
Definition accepted_bytes (result : Z) : Z := if (result <? 0)%Z then 0%Z else result.

Definition commit_dbus_write (tid result : Z) (st : InspectState) : option InspectState :=
  match is_pending_write st !! tid with
  | None => Some st
  | Some pending =>
      channels ← tracker_commit (pw_tgid pending) (pw_fd pending) (pw_payload pending)
                   (accepted_bytes result) (is_channels st);
      Some {| is_channels := channels; is_pending_write := delete tid (is_pending_write st);
              is_pending_call := is_pending_call st |}
  end.

(** The exit stop of a write whose return value could not be read. *)
Definition abandon_dbus_write (tid : Z) (st : InspectState) : InspectState :=
  match is_pending_write st !! tid with
  | None => st
  | Some pending =>
      {| is_channels := tracker_poison (pw_tgid pending) (pw_fd pending) "write-result-unreadable"
                          (is_channels st);
         is_pending_write := delete tid (is_pending_write st);
         is_pending_call := is_pending_call st |}
  end.

(** [allow] and [deny] both consume the pending call. *)
Definition settle_dbus_call (tid : Z) (st : InspectState) : InspectState := {|
  is_channels := is_channels st; is_pending_write := is_pending_write st;
  is_pending_call := delete tid (is_pending_call st);
|}.

(** [connect], at its entry stop: [inspection] is the session's setting and
    [is_unix] the protocol of the address. *)
Definition connect_dbus (inspection is_unix : bool) (tgid fd : Z) (addr : string)
    (st : InspectState) : InspectState :=
  if inspection && is_unix && is_dbus_socket addr then with_channels (register tgid fd addr (is_channels st)) st else st.

(** ** Stops of a traced process

    Inspection is on, and [Connect] is to a unix socket. *)

Inductive stop :=
  | Connect (tgid fd : Z) (addr : string)
  | Enter (tgid tid fd nr : Z) (payload : option (list byte))
  | Settle (tid : Z)
  | Exit (tid result : Z)
  | ExitUnreadable (tid : Z).

(** The messages a stop surfaces for review, and the next state. *)
Definition stop_step (s : stop) (st : InspectState) : option (list DbusMessage * InspectState) :=
  match s with
  | Connect tgid fd addr => Some ([], connect_dbus true true tgid fd addr st)
  | Enter tgid tid fd nr payload =>
      '(event, st) ← inspect_dbus_write tgid tid fd nr payload st;
      Some (match event with Some _ => default [] (is_pending_call st !! tid) | None => [] end, st)
  | Settle tid => Some ([], settle_dbus_call tid st)
  | Exit tid result => st ← commit_dbus_write tid result st; Some ([], st)
  | ExitUnreadable tid => Some ([], abandon_dbus_write tid st)
  end.

Fixpoint run_stops (ss : list stop) (st : InspectState) : option (list DbusMessage * InspectState) :=
  match ss with
  | [] => Some ([], st)
  | s :: ss' =>
      '(ms, st) ← stop_step s st;
      '(ms', st) ← run_stops ss' st;
      Some (ms ++ ms', st)
  end.

(** A write from its entry to its exit, with no other stop of an inspected
    write in between. *)
Record write := {
  w_tgid : Z; w_tid : Z; w_fd : Z; w_nr : Z;
  w_payload : option (list byte);
  w_result : Z;
}.

Definition write_stops (w : write) : list stop :=
  [Enter (w_tgid w) (w_tid w) (w_fd w) (w_nr w) (w_payload w); Settle (w_tid w);
   Exit (w_tid w) (w_result w)].







(** *** The tracker under one write *)






(** *** The invariant of a connection *)











(** ** No stop panics *)

Definition small (payload : list byte) : Prop := (len payload < 2 ^ 62)%Z.

Definition stop_small (s : stop) : Prop :=
  match s with Enter _ _ _ _ (Some payload) => small payload | _ => True end.

(** Every channel retains at most one message's worth of bytes. *)
Definition bounded (st : InspectState) : Prop :=
  map_Forall (λ _ c, retains c) (is_channels st)
  ∧ map_Forall (λ _ w, small (pw_payload w)) (is_pending_write st).

Lemma alter_retains tgid fd tag t :
  map_Forall (λ _ c, retains c) t → map_Forall (λ _ c, retains c) (tracker_poison tgid fd tag t).
Proof.
  intros Ht k c. unfold tracker_poison. rewrite lookup_alter_Some.
  intros [(_ & c' & _ & ->)|[_ H]]; [apply poison_retains|by eapply Ht].
Qed.

Lemma tracker_peek_total tgid fd bytes t :
  map_Forall (λ _ c, retains c) t →
  ∃ t' feed, tracker_peek tgid fd bytes t = Some (t', feed) ∧ map_Forall (λ _ c, retains c) t'.
Proof.
  intros Ht. unfold tracker_peek. destruct (t !! (tgid, fd)) as [c|] eqn:E; [|by eauto].
  destruct (channel_peek_total bytes c (Ht _ _ E)) as (c' & r & -> & Hc'). cbn.
  do 2 eexists. split; [done|]. by apply map_Forall_insert_2.
Qed.

Lemma inspect_total tgid tid fd nr payload st :
  bounded st → stop_small (Enter tgid tid fd nr payload) →
  ∃ ev st', inspect_dbus_write tgid tid fd nr payload st = Some (ev, st') ∧ bounded st'.
Proof.
  intros Hst Hsmall. pose proof Hst as [Hc Hw]. unfold inspect_dbus_write. destruct (address _ _ _); [|by eauto].
  destruct (is_poisoned _ _ _); [by do 2 eexists|].
  destruct payload as [bytes|].
  - destruct (tracker_peek_total tgid fd bytes _ Hc) as (t & feed & -> & Ht).
    assert (Hw' : map_Forall (λ _ w, small (pw_payload w))
      (<[tid := {| pw_tgid := tgid; pw_fd := fd; pw_payload := bytes |}]> (is_pending_write st)))
      by by apply map_Forall_insert_2.
    cbn [mbind option_bind]. destruct feed; [| |]; try (by do 2 eexists).
    destruct (List.filter _ _); by do 2 eexists.
  - do 2 eexists. split; [done|]. split; [by apply alter_retains|done].
Qed.

Lemma stop_step_total s st :
  bounded st → stop_small s → ∃ ms st', stop_step s st = Some (ms, st') ∧ bounded st'.
Proof.
  intros Hst Hs. pose proof Hst as [Hc Hw]. destruct s; cbn [stop_step].
  - do 2 eexists. split; [done|]. unfold connect_dbus. cbn [andb]. destruct (is_dbus_socket addr); [|done].
    split; [|done]. cbn. apply map_Forall_insert_2; [|done]. by vm_compute.
  - destruct (inspect_total tgid tid fd nr payload st Hst Hs) as (ev & st' & -> & Hst').
    cbn. by do 2 eexists.
  - do 2 eexists. split; [done|]. by split.
  - unfold commit_dbus_write. destruct (is_pending_write st !! tid) as [w|] eqn:E; [|by cbn; eauto].
    unfold tracker_commit. destruct (is_channels st !! _) as [c|] eqn:Ec; cbn.
    + destruct (channel_commit_total (pw_payload w) (accepted_bytes result) c (Hc _ _ Ec) (Hw _ _ E))
        as (c' & -> & Hc'). cbn. do 2 eexists. split; [done|].
      split; cbn; [by apply map_Forall_insert_2|by apply map_Forall_delete].
    + do 2 eexists. split; [done|]. split; cbn; [done|by apply map_Forall_delete].
  - do 2 eexists. split; [done|]. unfold abandon_dbus_write.
    destruct (is_pending_write st !! tid); [|done].
    split; cbn; [by apply alter_retains|by apply map_Forall_delete].
Qed.

(** ** Reading a tracee's memory *)

(** The bytes from [a], [n] of them, of a memory. *)
Definition mem_bytes (mem : Z → byte) (a n : Z) : list byte := map mem (seqZ a n).

Lemma mem_bytes_app mem a n1 n2 :
  (0 <= n1)%Z → (0 <= n2)%Z → mem_bytes mem a (n1 + n2) = mem_bytes mem a n1 ++ mem_bytes mem (a + n1) n2.
Proof. intros H1 H2. unfold mem_bytes. by rewrite seqZ_app, map_app. Qed.

Lemma length_mem_bytes mem a n : length (mem_bytes mem a n) = Z.to_nat n.
Proof. unfold mem_bytes. by rewrite length_map, length_seqZ. Qed.

Lemma take_mem_bytes mem a k n :
  (0 <= k <= n)%Z → take (Z.to_nat k) (mem_bytes mem a n) = mem_bytes mem a k.
Proof.
  intros H. replace n with (k + (n - k))%Z by lia. rewrite mem_bytes_app by lia.
  by rewrite take_app_length' by by rewrite length_mem_bytes.
Qed.

Section Memory.
Variable mem : Z → byte.
Variable read_word : Z → option (list byte).
(** [PTRACE_PEEKDATA] returns the eight bytes at the address. *)
Hypothesis Hread : ∀ a, read_word a = Some (mem_bytes mem a WORD).

Lemma read_loop_exact fuel addr offset n :
  (0 <= addr)%Z → (0 <= offset)%Z → (addr + n <= 2 ^ 64)%Z → (n - offset <= Z.of_nat fuel)%Z →
  read_loop read_word fuel addr offset n = Some (mem_bytes mem (addr + offset) (n - offset)).
Proof.
  revert offset. induction fuel as [|fuel IH]; intros offset Ha Ho Hn Hf; cbn [read_loop];
    destruct (Z.leb_spec n offset) as [Hle|Hlt]; try lia.
  1, 2: unfold mem_bytes; by rewrite seqZ_nil by lia.
  rewrite Hread. unfold WORD in *. cbn [mbind option_bind].
  rewrite IH by lia. cbn [mbind option_bind]. f_equal.
  unfold as_u64. rewrite Z.mod_small by lia.
  rewrite take_mem_bytes by lia. destruct (Z.le_ge_cases 8 (n - offset)).
  - rewrite Z.min_l by done. replace (n - offset)%Z with (8 + (n - (offset + 8)))%Z by lia.
    rewrite mem_bytes_app by lia. do 2 f_equal; lia.
  - rewrite Z.min_r by done. unfold mem_bytes at 2. rewrite seqZ_nil by lia. by rewrite app_nil_r.
Qed.

Lemma read_tracee_bytes_mem addr n :
  (0 <= addr)%Z → (addr + n <= 2 ^ 64)%Z →
  read_tracee_bytes read_word addr n = Some (mem_bytes mem addr n).
Proof.
  intros Ha Hn. unfold read_tracee_bytes. rewrite read_loop_exact by lia.
  by rewrite Z.add_0_r, Z.sub_0_r.
Qed.

(** A pointer-sized field of a structure in memory. *)
Definition mem_u64 (a : Z) : Z := u32_of_bytes (mem_bytes mem a 8) true.

Lemma read_tracee_u64_mem a :
  (0 <= a)%Z → (a + 8 <= 2 ^ 64)%Z → read_tracee_u64 read_word a = Some (mem_u64 a).
Proof.
  intros Ha Hn. unfold read_tracee_u64. rewrite read_tracee_bytes_mem by done.
  cbn [mbind option_bind]. by rewrite decide_True by by rewrite length_mem_bytes.
Qed.

(** The buffers of an [iovec] array of [n] entries at [p]. *)
Fixpoint iov_bytes (n : nat) (p : Z) : list byte :=
  match n with
  | O => []
  | S n' => mem_bytes mem (mem_u64 p) (mem_u64 (p + 8)) ++ iov_bytes n' (p + 16)
  end.

(** The array and its buffers lie in the address space, and no entry is null. *)
Fixpoint iov_ok (n : nat) (p : Z) : Prop :=
  match n with
  | O => True
  | S n' =>
      (0 < p)%Z ∧ (p + 16 <= 2 ^ 64)%Z
      ∧ (0 < mem_u64 p)%Z ∧ (0 <= mem_u64 (p + 8))%Z ∧ (mem_u64 p + mem_u64 (p + 8) <= 2 ^ 64)%Z
      ∧ iov_ok n' (p + 16)
  end.

Lemma read_iovecs_loop_exact n index p limit out :
  (0 <= index)%Z → (0 <= p)%Z → (index * 16 < 2 ^ 64)%Z →
  iov_ok n (p + index * 16) → (index + Z.of_nat n <= 1024)%Z → (len out <= limit)%Z →
  read_iovecs_loop read_word n index p limit out
  = Some (out ++ take (Z.to_nat (limit - len out)) (iov_bytes n (p + index * 16))).
Proof.
  revert index out. induction n as [|n IH]; intros index out Hi Hp Hi2 Hok Hn Hl; cbn [read_iovecs_loop].
  { cbn [iov_bytes]. by rewrite take_nil, app_nil_r. }
  destruct (Z.leb_spec limit (len out)) as [Hfull|Hroom].
  { replace (limit - len out)%Z with 0%Z by lia. cbn [Z.to_nat take]. by rewrite app_nil_r. }
  destruct Hok as (H1 & H2 & H3 & H4 & H5 & Hok). set (e := (p + index * 16)%Z) in *.
  unfold u64_checked_mul, u64_checked_add.
  destruct (Z.ltb_spec (index * 16) (2 ^ 64)); [|lia]. cbn [mbind option_bind]. fold e.
  destruct (Z.ltb_spec e (2 ^ 64)); [|lia]. cbn [mbind option_bind].
  assert (He8 : as_u64 (e + 8) = (e + 8)%Z) by (unfold as_u64; apply Z.mod_small; lia).
  rewrite He8, (read_tracee_u64_mem e), (read_tracee_u64_mem (e + 8)) by lia.
  cbn [mbind option_bind].
  destruct (Z.eqb_spec (mem_u64 e) 0); [lia|]. cbn [andb]. cbn [iov_bytes].
  set (base := mem_u64 e) in *. set (k := mem_u64 (e + 8)) in *.
  assert (Hstep : (p + (index + 1) * 16 = e + 16)%Z) by (unfold e; lia).
  rewrite <- Hstep in Hok |- *.
  destruct (Z.ltb_spec 0 (Z.min k (limit - len out))) as [Hpos|Hzero].
  - rewrite read_tracee_bytes_mem by lia. cbn [mbind option_bind].
    set (got := mem_bytes mem base (Z.min k (limit - len out))).
    assert (Hgot : len got = Z.min k (limit - len out))
      by (unfold len at 1; unfold got; rewrite length_mem_bytes; lia).
    rewrite IH by (rewrite ?len_app2; first [lia|done]). rewrite len_app2, Hgot, <- app_assoc.
    do 2 f_equal. rewrite take_app. f_equal.
    + unfold got. destruct (Z.le_ge_cases k (limit - len out)).
      * rewrite Z.min_l by done. rewrite take_ge; [done|]. rewrite length_mem_bytes. lia.
      * rewrite Z.min_r by done. by rewrite take_mem_bytes by lia.
    + rewrite length_mem_bytes. f_equal. lia.
  - cbn [mbind option_bind]. assert (k = 0)%Z as -> by lia.
    rewrite IH by first [lia|done]. unfold mem_bytes. by rewrite seqZ_nil by lia.
Qed.
End Memory.

(** ** Properties *)


(** Inspection neither panics nor hoards.  From any state in which each
    channel retains at most one message's worth of bytes, any sequence of stops,
    of any threads and in any order, with payloads of any content, runs to a
    state with the same bound. *)
Theorem inspection_total ss st (Hst : bounded st) (Hsmall : Forall stop_small ss) :
  ∃ surfaced st', run_stops ss st = Some (surfaced, st') ∧ bounded st'.
Proof.
  revert st Hst. induction Hsmall as [|s ss Hs _ IH]; intros st Hst; cbn [run_stops]; [by eauto|].
  destruct (stop_step_total s st Hst Hs) as (ms & st1 & -> & H1). cbn.
  destruct (IH st1 H1) as (ms' & st2 & -> & H2). cbn. eauto.
Qed.

(** The payload read out of a tracee is exactly what its buffers hold, up to
    the limit: for a [write] or [send], and for the [iovec] array of a [writev],
    the bytes returned are the first [MAX_MESSAGE_LEN] of the bytes the buffers
    hold, in order, when these lie in the address space. *)
Theorem payload_exact mem read_word args
    (Hread : ∀ a, read_word a = Some (mem_bytes mem a WORD))
    (Hargs : ∀ i, (0 <= args i)%Z) :
  ((args 1%nat + args 2%nat <= 2 ^ 64)%Z →
     read_outbound_payload read_word Write args
     = Some (take (Z.to_nat MAX_MESSAGE_LEN) (mem_bytes mem (args 1) (args 2))))
  ∧ ((0 < args 1%nat)%Z → (0 < args 2%nat <= 1024)%Z →
     iov_ok mem (Z.to_nat (args 2)) (args 1) →
     read_outbound_payload read_word Writev args
     = Some (take (Z.to_nat MAX_MESSAGE_LEN) (iov_bytes mem (Z.to_nat (args 2)) (args 1)))).
Proof.
  pose proof (Hargs 1%nat). pose proof (Hargs 2%nat). split.
  - intros Hn. unfold read_outbound_payload.
    rewrite (read_tracee_bytes_mem mem) by (done || lia). f_equal.
    destruct (Z.le_ge_cases (args 2%nat) MAX_MESSAGE_LEN).
    + rewrite Z.min_l by done. rewrite take_ge; [done|]. rewrite length_mem_bytes. lia.
    + rewrite Z.min_r by done. rewrite take_mem_bytes by (unfold MAX_MESSAGE_LEN in *; lia). done.
  - intros Hp Hn Hok. unfold read_outbound_payload, read_iovecs.
    destruct (Z.eqb_spec (args 1%nat) 0), (Z.eqb_spec (args 2%nat) 0),
      (Z.ltb_spec 1024 (args 2%nat)); try lia. cbn [orb].
    rewrite (read_iovecs_loop_exact mem) by (rewrite ?Z.add_0_r; done || (cbn; lia)).
    by rewrite Z.add_0_r.
Qed.

(** ** What inspection misses

    Runs on one bus connection in which a unit start reaches the bus unreviewed
    although the channel stays clean. *)

Definition bus : string := "unix:/run/user/1000/bus".
Definition empty_state : InspectState :=
  {| is_channels := ∅; is_pending_write := ∅; is_pending_call := ∅ |}.

Definition a_write (tid : Z) (payload : list byte) (result : Z) : write :=
  {| w_tgid := 72; w_tid := tid; w_fd := 5; w_nr := 1; w_payload := Some payload; w_result := result |}.
Definition whole (tid : Z) (payload : list byte) : write := a_write tid payload (len payload).

(** [StartTransientUnit] of a [.service], with flag byte [flags]. *)
Definition unit_start (flags : byte) : packet := {|
  pk_little_endian := true; pk_code := Byte.x01; pk_flags := flags;
  pk_serial := pk_serial (start_unit true); pk_fields := pk_fields (start_unit true);
  pk_body := pk_body (start_unit true) |}.

Definition opened : list stop := Connect 72 5 bus :: write_stops (whole 72 handshake).

(** The run surfaces nothing and leaves the channel clean, but the bytes sent
    decode to a call that needs review. *)
Definition slips_through (ss : list stop) (stream : list byte) : Prop :=
  ∃ st' c d m,
    run_stops ss empty_state = Some ([], st')
    ∧ is_channels st' !! (72, 5)%Z = Some c ∧ ch_poison c = None
    ∧ decode_stream stream = Done d ∧ m ∈ dec_messages d ∧ escalates m = true.

(** Two threads write the two parts of a call, and the second enters before the
    first exits: neither part alone is a complete message. *)
Lemma overlapping_writes_unreviewed :
  let call := enc_packet (unit_start Byte.x00) in
  let a := take 195 call in
  let b := drop 195 call in
  slips_through
    (opened ++ [Enter 72 72 5 1 (Some a); Enter 72 73 5 1 (Some b); Exit 72 (len a); Exit 73 (len b)])
    (handshake ++ a ++ b).
Proof.
  vm_compute. do 3 eexists. exists (expected_packet (unit_start Byte.x00)).
  split_and!; [reflexivity|reflexivity|reflexivity|reflexivity|by left|reflexivity].
Qed.

(** A second [connect] on the connected descriptor fails in the kernel, but its
    entry stop starts the channel over in the handshake phase. *)
Lemma reconnect_unreviewed :
  let call := enc_packet (unit_start Byte.x00) in
  slips_through (opened ++ Connect 72 5 bus :: write_stops (whole 72 call)) (handshake ++ call).
Proof.
  vm_compute. do 3 eexists. exists (expected_packet (unit_start Byte.x00)).
  split_and!; [reflexivity|reflexivity|reflexivity|reflexivity|by left|reflexivity].
Qed.

Definition hello : packet := {|
  pk_little_endian := true; pk_code := Byte.x01; pk_flags := Byte.x00;
  pk_serial := [Byte.x01; Byte.x00; Byte.x00; Byte.x00];
  pk_fields := [
    {| wf_code := Byte.x06; wf_sig := SigString; wf_value := "org.freedesktop.DBus" |};
    {| wf_code := Byte.x02; wf_sig := SigString; wf_value := "org.freedesktop.DBus" |};
    {| wf_code := Byte.x03; wf_sig := SigString; wf_value := "Hello" |}];
  pk_body := EmptyBody |}.

(** [sendmmsg] returns how many messages it sent, not how many bytes: after one,
    the channel is at the second byte of a stream whose peer is further on. *)
Lemma sendmmsg_result_unreviewed :
  let first := enc_packet hello in
  let call := enc_packet (unit_start Byte.x01) in
  slips_through
    (opened ++ write_stops (a_write 72 first 1) ++ write_stops (whole 72 call))
    (handshake ++ first ++ call).
Proof.
  vm_compute. do 3 eexists. exists (expected_packet (unit_start Byte.x01)).
  split_and!; [reflexivity|reflexivity|reflexivity|reflexivity|right; by left|reflexivity].
Qed.

(** The arguments of [write(fd, base, n)]. *)
Definition write_args (base n : Z) (i : nat) : Z := match i with 1 => base | 2 => n | _ => 5 end.

(** A write longer than [MAX_MESSAGE_LEN] is judged by its first bytes alone:
    its payload is the one of a write of exactly that length, whatever follows. *)
Lemma oversized_write_prefix_judged read_word nr (args args' : nat → Z)
    (Hnr : nr = Write ∨ nr = Sendto) (Hptr : args' 1 = args 1)
    (Hlen : (MAX_MESSAGE_LEN <= args 2%nat)%Z) (Hlen' : args' 2 = MAX_MESSAGE_LEN) :
  read_outbound_payload read_word nr args = read_outbound_payload read_word nr args'.
Proof.
  unfold read_outbound_payload. rewrite Hptr, Hlen', Z.min_id, (Z.min_r (args 2)) by done.
  by destruct Hnr as [-> | ->].
Qed.

(** The three runs.  A call cut over two overlapping writes, one after a
    repeated [connect], and one after a [sendmmsg] whose result is a number of
    messages each reach the bus unreviewed, on a channel that stays clean; and
    the payload of a write longer than [MAX_MESSAGE_LEN] is judged as the write
    of its first bytes would be. *)
Theorem inspection_gaps :
  let call := enc_packet (unit_start Byte.x00) in
  let call1 := enc_packet (unit_start Byte.x01) in
  let a := take 195 call in
  let b := drop 195 call in
  slips_through
    (opened ++ [Enter 72 72 5 1 (Some a); Enter 72 73 5 1 (Some b); Exit 72 (len a); Exit 73 (len b)])
    (handshake ++ a ++ b)
  ∧ slips_through (opened ++ Connect 72 5 bus :: write_stops (whole 72 call)) (handshake ++ call)
  ∧ slips_through
      (opened ++ write_stops (a_write 72 (enc_packet hello) 1) ++ write_stops (whole 72 call1))
      (handshake ++ enc_packet hello ++ call1)
  ∧ (∀ read_word base (more : N),
      read_outbound_payload read_word Write (write_args base (MAX_MESSAGE_LEN + Z.of_N more))
      = read_outbound_payload read_word Write (write_args base MAX_MESSAGE_LEN)).
Proof.
  split_and!; [exact overlapping_writes_unreviewed|exact reconnect_unreviewed
              |exact sendmmsg_result_unreviewed|].
  intros read_word base more. apply oversized_write_prefix_judged; [by left|done| |done].
  cbn [write_args]. lia.
Qed.

(** ** Witnesses *)




Lemma inspection_total_witness :
  ∃ surfaced st', run_stops [Connect 72 5 bus; Enter 72 72 5 1 (Some handshake);
      Enter 72 73 5 1 None; Exit 72 23; ExitUnreadable 73] empty_state = Some (surfaced, st')
    ∧ bounded st'.
Proof.
  apply inspection_total.
  - split; apply map_Forall_empty.
  - repeat (apply Forall_cons_2; [by vm_compute|]). apply Forall_nil_2.
Defined.

(** Five bytes at 8192, and an [iovec] for them at 4096. *)
Definition small_mem (a : Z) : byte :=
  if (a =? 4097)%Z then Byte.x20
  else if (a =? 4104)%Z then Byte.x05
  else if ((4096 <=? a) && (a <? 4112))%Z then Byte.x00 else Byte.x41.
Definition small_args (i : nat) : Z := match i with 1 => 4096 | 2 => 1 | _ => 5 end.
Definition small_read (a : Z) : option (list byte) := Some (mem_bytes small_mem a WORD).

Lemma payload_exact_witness :
  read_outbound_payload small_read Write small_args
    = Some (take (Z.to_nat MAX_MESSAGE_LEN) (mem_bytes small_mem (small_args 1) (small_args 2)))
  ∧ read_outbound_payload small_read Writev small_args
    = Some (take (Z.to_nat MAX_MESSAGE_LEN) (iov_bytes small_mem (Z.to_nat (small_args 2)) (small_args 1)))
  ∧ iov_bytes small_mem 1 4096 = str_bytes "AAAAA".
Proof.
  assert (Hargs : ∀ i, (0 <= small_args i)%Z) by (intros [|[|[|i]]]; by cbn).
  assert (P0 : (small_args 1 + small_args 2 <= 2 ^ 64)%Z) by by vm_compute.
  assert (P1 : (0 < small_args 1)%Z) by by vm_compute.
  assert (P2 : (0 < small_args 2 <= 1024)%Z) by by vm_compute.
  assert (P3 : iov_ok small_mem (Z.to_nat (small_args 2)) (small_args 1))
    by (vm_compute; by split_and!).
  destruct (payload_exact small_mem small_read small_args (λ a, eq_refl) Hargs) as [H1 H2].
  split; [exact (H1 P0)|]. split; [exact (H2 P1 P2 P3)|by vm_compute].
Defined.
