(* ===== verification/MassDestruction.v ===== *)
(** * The mass-destruction signal

    [crates/grith-supervisor/src/supervisor/mass_destruction.rs]: a session's
    window of distinct valuable files deleted or renamed outside its working
    tree, and the escalation of an allowed call once there are too many.  The
    environment is a parameter; the mutex around the tracker is never poisoned,
    since nothing panics while it is held. *)

From Stdlib Require Import Ascii.
From S2P Require Import Prelude Concrete F64 Types Scoring.

Definition WINDOW : Duration := from_secs 10.
Definition THRESHOLD : Z := 25.

(** [var] is the kill-switch variable's value. *)
Definition signal_enabled (var : option string) : bool :=
  match var with
  | Some v => negb (str_mem (trim v) ["0"; "false"; "no"; "off"])
  | None => true
  end.

(** [PathBuf]s are equal when their components are: repeated and trailing
    slashes and [.] components do not count.  Targets are absolute. *)
Abbreviation PathKey := (list string).
Definition path_key (path : string) : PathKey :=
  List.filter (λ c, negb (str_mem c [""; "."])) (split_on "/" path).

Record MassDestructionTracker := {
  md_seen : gmap PathKey Instant;
  md_window : Duration;
  md_threshold : Z;
}.

Definition MassDestructionTracker_new (window : Duration) (threshold : Z) :
    MassDestructionTracker :=
  {| md_seen := ∅; md_window := window; md_threshold := threshold |}.
Definition MassDestructionTracker_with_defaults : MassDestructionTracker :=
  MassDestructionTracker_new WINDOW THRESHOLD.

Definition record_target (target : string) (now : Instant) (t : MassDestructionTracker) :
    option Z * MassDestructionTracker :=
  let seen :=
    match instant_checked_sub now (md_window t) with
    | Some cutoff => filter (λ kt, (cutoff <= kt.2)%Z) (md_seen t)
    | None => md_seen t
    end in
  let seen := <[path_key target := now]> seen in
  let distinct := Z.of_nat (size seen) in
  (if (md_threshold t <=? distinct)%Z then Some distinct else None,
   {| md_seen := seen; md_window := md_window t; md_threshold := md_threshold t |}).

Definition destructive_target (call_type : ToolCallType) : option string :=
  match call_type with
  | FileDelete path => Some path
  | FileRename old_path _ => Some old_path
  | _ => None
  end.

Definition EPHEMERAL_ROOTS : list string :=
  ["/tmp/"; "/var/tmp/"; "/var/cache/"; "/dev/"; "/proc/"; "/sys/"; "/run/"].

Definition BUILD_ARTIFACT_SEGMENTS : list string :=
  ["/target/debug/"; "/target/release/"; "/node_modules/"; "/__pycache__/"; "/.git/objects/";
   "/.next/"].

Definition HOME_TOOLCHAIN_CACHES : list string :=
  [".gradle/caches/"; ".gradle/daemon/"; ".gradle/wrapper/dists/"; ".m2/repository/";
   ".ivy2/cache/"; ".sbt/boot/"; ".konan/"; ".kotlin/"; ".cargo/registry/"; ".cargo/git/";
   ".npm/_cacache/"; ".yarn/cache/"; ".yarn/berry/cache/"; ".pnpm-store/"; ".bun/install/cache/";
   "go/pkg/mod/"; ".nuget/packages/"; ".gem/"; ".pub-cache/"; ".stack/snapshots/";
   ".stack/pantry/"; ".cpanm/"; ".composer/cache/"].

Definition with_slash (home : string) : string :=
  if ends_with "/" home then home else home +:+ "/".

(** [home] is [$HOME], if set. *)
Definition home_toolchain_caches (home : option string) : list string :=
  match home with
  | None => []
  | Some h => map (λ suffix, with_slash h +:+ suffix) HOME_TOOLCHAIN_CACHES
  end.
Definition home_cache_prefix (home : option string) : option string :=
  (λ h, with_slash h +:+ ".cache/") <$> home.

Definition is_ephemeral (home : option string) (target : string) : bool :=
  if existsb (λ p, starts_with p target) EPHEMERAL_ROOTS then true
  else if existsb (λ seg, contains seg target) BUILD_ARTIFACT_SEGMENTS then true
  else if match home_cache_prefix home with Some cache => starts_with cache target | None => false end
  then true
  else existsb (λ prefix, starts_with prefix target) (home_toolchain_caches home).

Definition path_under (target root : string) : bool :=
  let root := default root (strip_suffix "/" root) in
  if String.eqb root "" then false
  else String.eqb target root
       || match strip_prefix root target with Some rest => starts_with "/" rest | None => false end.

(** The session's roots. *)
Record Roots := {
  working_root : option string;
  workspace_roots : list string;
  routine_roots : list string;
  scratch_roots : list string;
}.

Definition is_valuable_out_of_tree (home : option string) (roots : Roots) (target : string) : bool :=
  if negb (starts_with "/" target) then false
  else if match working_root roots with Some root => path_under target root | None => false end
  then false
  else if existsb (path_under target) (workspace_roots roots) then false
  else if existsb (path_under target) (routine_roots roots) then false
  else if existsb (path_under target) (scratch_roots roots) then false
  else negb (is_ephemeral home target).

Section Escalation.
Context `{D : Deps}.

Definition escalate_decision (count : Z) (d : ProxyDecision) : ProxyDecision := {|
  pd_action := Queue High;
  pd_composite_score := pd_composite_score d;
  pd_filter_results := pd_filter_results d;
  pd_evaluation_time := pd_evaluation_time d;
  pd_decision_reason := "mass-destruction signal: " +:+ fmt_Z count
    +:+ " distinct out-of-tree deletions within " +:+ fmt_Z (WINDOW / nanos_per_sec) +:+ "s";
|}.

Definition maybe_escalate (home : option string) (roots : Roots) (call_type : ToolCallType)
    (now : Instant) (d : ProxyDecision) (t : MassDestructionTracker) :
    option Z * ProxyDecision * MassDestructionTracker :=
  match destructive_target call_type with
  | None => (None, d, t)
  | Some target =>
      if negb (is_valuable_out_of_tree home roots target) then (None, d, t)
      else
        match record_target target now t with
        | (None, t) => (None, d, t)
        | (Some count, t) =>
            if negb (is_allowed d) then (None, d, t)
            else (Some count, escalate_decision count d, t)
        end
  end.
End Escalation.

(** ** The reference: the whole history *)

(** The targets a session has destroyed, with their times, oldest first. *)
Abbreviation history := (list (PathKey * Instant)).

(** The distinct targets destroyed since [cutoff]. *)
Definition destroyed_since (cutoff : Instant) (h : history) : gset PathKey :=
  list_to_set (map fst (List.filter (λ kt, (cutoff <=? kt.2)%Z) h)).

(** The last time of each target. *)
Definition latest (h : history) : gmap PathKey Instant :=
  fold_left (λ m kt, <[kt.1 := kt.2]> m) h ∅.

Fixpoint times_ok (last : Instant) (h : history) : Prop :=
  match h with [] => True | (_, t) :: h' => (last <= t)%Z ∧ times_ok t h' end.

Lemma latest_snoc h k t : latest (h ++ [(k, t)]) = <[k := t]> (latest h).
Proof. unfold latest. by rewrite fold_left_app. Qed.

Lemma destroyed_since_snoc cutoff h k t :
  destroyed_since cutoff (h ++ [(k, t)])
  = destroyed_since cutoff h ∪ (if (cutoff <=? t)%Z then {[k]} else ∅).
Proof.
  unfold destroyed_since. rewrite List.filter_app, map_app, list_to_set_app_L. cbn.
  destruct (cutoff <=? t)%Z; cbn; set_solver.
Qed.

Lemma times_ok_snoc last h k t :
  times_ok last (h ++ [(k, t)]) → times_ok last h ∧ Forall (λ kt, kt.2 <= t)%Z h ∧ (last <= t)%Z.
Proof.
  revert last. induction h as [|[k' t'] h IH]; intros last; cbn; [by intros [? _]|].
  intros [H1 (H2 & H3 & H4)%IH]. split_and!; [done|done| |lia]. by constructor.
Qed.

Lemma filter_before (cutoff : Instant) (m : gmap PathKey Instant) :
  (∀ k t, m !! k = Some t → (t < cutoff)%Z) → filter (λ kt, (cutoff <= kt.2)%Z) m = ∅.
Proof.
  intros Hm. apply map_empty. intros k. apply map_lookup_filter_None. right.
  intros t Ht. cbn. specialize (Hm k t Ht). lia.
Qed.

(** When times never go back, a target was destroyed since [cutoff] exactly if
    its last time is not before it. *)
Lemma latest_destroyed cutoff last h :
  times_ok last h →
  dom (filter (λ kt, (cutoff <= kt.2)%Z) (latest h)) = destroyed_since cutoff h.
Proof.
  induction h as [|[k t] h IH] using rev_ind; intros Ht.
  { unfold latest. cbn. by rewrite map_filter_empty, dom_empty_L. }
  apply times_ok_snoc in Ht as (Hh & Hall & _). specialize (IH Hh).
  rewrite latest_snoc, destroyed_since_snoc, <- IH.
  destruct (Z.leb_spec cutoff t).
  - rewrite map_filter_insert_True by done. rewrite dom_insert_L. set_solver.
  - rewrite map_filter_insert_False by (cbn; lia).
    assert (Hnone : ∀ k' t', latest h !! k' = Some t' → (t' <= t)%Z).
    { clear -Hall. induction h as [|[k0 t0] h IH] using rev_ind; intros k' t'; [done|].
      apply Forall_app in Hall as [Hh Ht0]. apply Forall_cons_1 in Ht0 as [Ht0 _].
      rewrite latest_snoc. intros [[_ <-]|[_ Hl]]%lookup_insert_Some; [exact Ht0|by eapply IH]. }
    rewrite !filter_before.
    + rewrite dom_empty_L. set_solver.
    + intros k' t' Hl. specialize (Hnone _ _ Hl). lia.
    + intros k' t' [_ Hl]%lookup_delete_Some. specialize (Hnone _ _ Hl). lia.
Qed.

Lemma filter_filter_le (c c' : Instant) (m : gmap PathKey Instant) :
  (c' <= c)%Z →
  filter (λ kt, (c <= kt.2)%Z) (filter (λ kt, (c' <= kt.2)%Z) m) = filter (λ kt, (c <= kt.2)%Z) m.
Proof.
  intros Hc. apply map_eq. intros k. apply option_eq. intros t.
  rewrite !map_lookup_filter_Some. cbn. split; [naive_solver|]. intros [? ?]. split_and!; [done|lia|done].
Qed.

Lemma filter_all (c : Instant) (m : gmap PathKey Instant) :
  map_Forall (λ _ t, (c <= t)%Z) m → filter (λ kt, (c <= kt.2)%Z) m = m.
Proof. intros Hm. apply map_filter_id. intros k t Ht. cbn. exact (Hm k t Ht). Qed.

Lemma latest_Forall (P : Instant → Prop) h :
  Forall (λ kt, P kt.2) h → map_Forall (λ _ t, P t) (latest h).
Proof.
  induction h as [|[k t] h IH] using rev_ind; intros Hh; [apply map_Forall_empty|].
  apply Forall_app in Hh as [Hh Ht]. apply Forall_cons_1 in Ht as [Ht _].
  rewrite latest_snoc. apply map_Forall_insert_2; [exact Ht|by apply IH].
Qed.

(** The tracker holds the last times of the targets since some cutoff that the
    next call's window does not reach. *)
Definition tracks (h : history) (last : Instant) (t : MassDestructionTracker) : Prop :=
  ∃ cutoff, (cutoff <= last - md_window t)%Z
    ∧ md_seen t = filter (λ kt, (cutoff <= kt.2)%Z) (latest h).

Lemma tracks_mono h last last' t : (last <= last')%Z → tracks h last t → tracks h last' t.
Proof. intros Hl (c & Hc & Hs). exists c. split; [lia|done]. Qed.

(** How many distinct targets a window ending now holds, the new one included. *)
Definition spread (h : history) (w : Duration) (target : string) (now : Instant) : Z :=
  Z.of_nat (size (destroyed_since (now - w) (h ++ [(path_key target, now)]))).

Lemma record_target_exact target now t h last :
  (0 <= md_window t)%Z → times_ok last (h ++ [(path_key target, now)]) →
  Forall (λ kt, (instant_min <= kt.2)%Z) h → tracks h now t →
  ∃ t', record_target target now t
    = (if (md_threshold t <=? spread h (md_window t) target now)%Z
       then Some (spread h (md_window t) target now) else None, t')
    ∧ tracks (h ++ [(path_key target, now)]) now t'
    ∧ md_window t' = md_window t ∧ md_threshold t' = md_threshold t.
Proof.
  intros Hw Htimes Hmin (cutoff & Hc & Hseen). set (key := path_key target) in *.
  set (w := md_window t) in *.
  assert (Hpruned : match instant_checked_sub now w with
      | Some c => filter (λ kt, (c <= kt.2)%Z) (md_seen t) | None => md_seen t end
    = filter (λ kt, (now - w <= kt.2)%Z) (latest h)).
  { unfold instant_checked_sub. destruct (Z.leb_spec instant_min (now - w)).
    - rewrite Hseen. by apply filter_filter_le.
    - apply (latest_Forall (λ t, instant_min <= t)%Z) in Hmin.
      rewrite Hseen, !filter_all; [done| |];
        (eapply map_Forall_impl; [exact Hmin|]; cbn; intros; lia). }
  assert (Hnew : <[key := now]> (filter (λ kt, (now - w <= kt.2)%Z) (latest h))
    = filter (λ kt, (now - w <= kt.2)%Z) (latest (h ++ [(key, now)]))).
  { rewrite latest_snoc, map_filter_insert_True; [done|cbn; lia]. }
  assert (Hsize : Z.of_nat (size (<[key := now]> (filter (λ kt, (now - w <= kt.2)%Z) (latest h))))
    = spread h w target now).
  { rewrite Hnew, <- size_dom. unfold spread. do 2 f_equal. by eapply latest_destroyed. }
  eexists. split; [unfold record_target; fold w; rewrite Hpruned; fold key; rewrite Hsize; reflexivity|].
  cbn. split; [|done]. exists (now - w)%Z. split; [cbn; fold w; lia|exact Hnew].
Qed.

(** ** Properties *)

Section Properties.
Context `{D : Deps}.
Variables (home : option string) (roots : Roots).

(** What a call adds to the history. *)
Definition observed (c : ToolCallType * Instant) : history :=
  match destructive_target c.1 with
  | Some target =>
      if is_valuable_out_of_tree home roots target then [(path_key target, c.2)] else []
  | None => []
  end.
Definition observations (cs : list (ToolCallType * Instant)) : history := flat_map observed cs.

(** The tracker after a session's calls, each with the proxy's decision. *)
Fixpoint run_calls (cs : list (ToolCallType * Instant * ProxyDecision))
    (t : MassDestructionTracker) : MassDestructionTracker :=
  match cs with
  | [] => t
  | (c, now, d) :: cs' => run_calls cs' (maybe_escalate home roots c now d t).2
  end.

(** The specification of [maybe_escalate], from the history alone. *)
Definition reference_escalation (w : Duration) (threshold : Z) (h : history)
    (c : ToolCallType) (now : Instant) (d : ProxyDecision) : option Z * ProxyDecision :=
  match destructive_target c with
  | Some target =>
      let n := spread h w target now in
      if is_valuable_out_of_tree home roots target && (threshold <=? n)%Z && is_allowed d
      then (Some n, escalate_decision n d) else (None, d)
  | None => (None, d)
  end.

Lemma maybe_escalate_exact c now d t h last :
  (0 <= md_window t)%Z → times_ok last (h ++ observed (c, now)) →
  Forall (λ kt, (instant_min <= kt.2)%Z) h → tracks h now t →
  (maybe_escalate home roots c now d t).1
    = reference_escalation (md_window t) (md_threshold t) h c now d
  ∧ tracks (h ++ observed (c, now)) now (maybe_escalate home roots c now d t).2
  ∧ md_window (maybe_escalate home roots c now d t).2 = md_window t
  ∧ md_threshold (maybe_escalate home roots c now d t).2 = md_threshold t.
Proof.
  intros Hw Htimes Hmin Htr. unfold maybe_escalate, reference_escalation, observed in *.
  cbn [fst snd] in *. destruct (destructive_target c) as [target|]; [|by rewrite app_nil_r].
  destruct (is_valuable_out_of_tree home roots target); cbn [negb andb]; [|by rewrite app_nil_r].
  destruct (record_target_exact target now t h last Hw Htimes Hmin Htr) as (t' & -> & H1 & H2 & H3).
  destruct (_ <=? _)%Z; cbn [andb]; [|done]. by destruct (is_allowed d).
Qed.

Lemma history_times_app last h h' : times_ok last (h ++ h') → times_ok last h.
Proof.
  revert last. induction h as [|[k t] h IH]; intros last; cbn; [done|]. intros [? ?%IH]. done.
Qed.

Lemma times_ok_last last h h' k t :
  times_ok last (h ++ (k, t) :: h') → Forall (λ kt, (kt.2 <= t)%Z) h.
Proof.
  intros H. rewrite cons_middle, app_assoc in H.
  apply history_times_app, times_ok_snoc in H. by destruct H as (_ & ? & _).
Qed.

(** Whatever the cutoff, a tracker that is in step at one time is at any later. *)
Definition in_step_from (h : history) (t : MassDestructionTracker) : Prop :=
  ∀ now, Forall (λ kt, (kt.2 <= now)%Z) h → tracks h now t.

Lemma observed_cases c : observed c = [] ∨ ∃ k, observed c = [(k, c.2)].
Proof.
  unfold observed. destruct (destructive_target _); [|by left].
  destruct (is_valuable_out_of_tree _ _ _); [|by left]. right. by eexists.
Qed.
Lemma unobserved c now d t :
  observed (c, now) = [] → maybe_escalate home roots c now d t = (None, d, t)
    ∧ ∀ w n h, reference_escalation w n h c now d = (None, d).
Proof.
  unfold observed, maybe_escalate, reference_escalation. cbn.
  destruct (destructive_target c); [|done]. by destruct (is_valuable_out_of_tree _ _ _).
Qed.

Lemma run_calls_in_step cs h t last :
  (0 <= md_window t)%Z → in_step_from h t →
  times_ok last (h ++ observations (map fst cs)) →
  Forall (λ kt, (instant_min <= kt.2)%Z) (h ++ observations (map fst cs)) →
  in_step_from (h ++ observations (map fst cs)) (run_calls cs t)
  ∧ md_window (run_calls cs t) = md_window t ∧ md_threshold (run_calls cs t) = md_threshold t.
Proof.
  revert h t. induction cs as [|[[c now] d] cs IH]; intros h t Hw Hs Htimes Hmin; cbn in *.
  { by rewrite app_nil_r. }
  fold (observations (map fst cs)) in *.
  destruct (observed_cases (c, now)) as [Hno|[k Hyes]].
  { destruct (unobserved c now d t Hno) as [-> _]. rewrite Hno in *. by apply IH. }
  rewrite Hyes in *. cbn [app snd] in *. pose proof (times_ok_last _ _ _ _ _ Htimes) as Hle.
  rewrite cons_middle, app_assoc in Htimes, Hmin |- *.
  destruct (maybe_escalate_exact c now d t h last Hw) as (_ & H2 & H3 & H4); rewrite ?Hyes.
  - by eapply history_times_app.
  - apply Forall_app in Hmin as [Hmin _]. by apply Forall_app in Hmin as [Hmin _].
  - by apply Hs.
  - rewrite Hyes in H2. cbn [snd] in H2. rewrite <- H3, <- H4. rewrite <- H3 in Hw.
    apply IH; [done| |done|done]. intros now' Hnow'. eapply tracks_mono; [|exact H2].
    apply Forall_app in Hnow' as [_ Hnow']. by apply Forall_cons_1 in Hnow' as [Hnow' _].
Qed.

(** The pruned window answers as the whole history would.  After any calls
    of a session whose times never go back, with any decisions, a call is
    escalated, to a high-priority review, exactly when it destroys a valuable
    file outside the working tree, the proxy allowed it, and the distinct such
    files destroyed since the start of the window, this one included, are at
    least the threshold; any other decision is left as it was. *)
Theorem escalation_refines_history window threshold cs c now d
    (Hwindow : (0 <= window)%Z)
    (Htimes : times_ok instant_min (observations (map fst cs ++ [(c, now)]))) :
  (maybe_escalate home roots c now d
     (run_calls cs (MassDestructionTracker_new window threshold))).1
  = reference_escalation window threshold (observations (map fst cs)) c now d.
Proof.
  unfold observations in *. rewrite flat_map_app in Htimes. cbn in Htimes. rewrite app_nil_r in Htimes.
  fold (observations (map fst cs)) in *.
  assert (Hmin : ∀ l last, times_ok last l → Forall (λ kt, (last <= kt.2)%Z) l).
  { clear. induction l as [|[k t] l IH]; intros last; cbn; [constructor|]. intros [Hl Ht].
    constructor; [done|]. eapply Forall_impl; [by apply IH|]. cbn. intros ? ?. lia. }
  pose proof (Hmin _ _ Htimes) as Hall. apply Forall_app in Hall as [Hall _].
  set (t0 := MassDestructionTracker_new window threshold).
  assert (H0 : in_step_from [] t0) by (intros n _; exists (n - window)%Z; by split; [|cbn]).
  pose proof (history_times_app _ _ _ Htimes) as Hpre.
  destruct (run_calls_in_step cs [] t0 instant_min Hwindow H0 Hpre Hall) as (Hs & Hw & Hn).
  destruct (observed_cases (c, now)) as [Hno|[k Hyes]].
  { destruct (unobserved c now d (run_calls cs t0) Hno) as [-> ->]. done. }
  destruct (maybe_escalate_exact c now d (run_calls cs t0) (observations (map fst cs)) instant_min)
    as (-> & _); [by rewrite Hw|done|done| |by rewrite Hw, Hn].
  apply Hs. rewrite Hyes in Htimes. by eapply times_ok_last.
Qed.
End Properties.

(** ** Witnesses *)

#[local] Existing Instance concrete_deps.

(** A spree of [n] deletions in the user's documents, one a tenth of a second. *)
Definition doc (i : nat) : ToolCallType := FileDelete ("/home/u/docs/f" +:+ fmt_N (N.of_nat i)).
Definition spree (n : nat) : list (ToolCallType * Instant * ProxyDecision) :=
  map (λ i, (doc i, from_secs 100 + Z.of_nat i * 100000000, decision_allow f64_zero [] 0)%Z) (seq 0 n).
Definition project : Roots := {|
  working_root := Some "/home/u/project"; workspace_roots := []; routine_roots := ["/usr/"];
  scratch_roots := [] |}.

(** The twenty-fifth deletion is escalated; a repeat of one would not be counted. *)
Lemma escalation_refines_history_witness :
  (maybe_escalate (Some "/home/u") project (doc 24) (from_secs 103) (decision_allow f64_zero [] 0)
     (run_calls (Some "/home/u") project (spree 24) (MassDestructionTracker_new WINDOW THRESHOLD))).1
  = reference_escalation (Some "/home/u") project WINDOW THRESHOLD
      (observations (Some "/home/u") project (map fst (spree 24))) (doc 24) (from_secs 103)
      (decision_allow f64_zero [] 0)
  ∧ fst (reference_escalation (Some "/home/u") project WINDOW THRESHOLD
      (observations (Some "/home/u") project (map fst (spree 24))) (doc 24) (from_secs 103)
      (decision_allow f64_zero [] 0)) = Some 25%Z.
Proof.
  split; [apply escalation_refines_history; by vm_compute|by vm_compute].
Defined.
