(* ===== verification/DnsSocketTracker.v ===== *)
(** * Descriptor tables and shared sockets of the DNS inspector

    [grith-supervisor/src/platform/linux/dns_socket_tracker.rs].  A process has
    a descriptor table, which processes created with [CLONE_FILES] share; a table
    maps descriptors to sockets; a socket keeps the route of its DNS traffic, the
    queries awaiting an answer, and two counts: the table entries that refer to
    it and the pending system calls that hold it.  A connected-proxy route owns a
    proxy endpoint outside the tracker, which the caller must tear down once the
    operation that drops the route returns its identity.

    The file models every operation in a state monad whose [None] is a panic (an
    [expect]); DnsSocketInvariant proves what the operations promise. *)

From S2P Require Import Prelude Net.

(** ** Data *)

Inductive SocketType :=
  | Stream
  | Datagram
  | SocketOther.

#[export] Instance SocketType_eq_dec : EqDecision SocketType.
Proof. solve_decision. Defined.

(** [FdTableId], [SocketId] and [DnsRouteId] wrap a [u64]. *)
Abbreviation FdTableId := Z.
Abbreviation SocketId := Z.
Abbreviation DnsRouteId := Z.

Inductive DnsRoute :=
  | RouteNone
  | InlineDns (resolver : option SocketAddr)
  | ConnectedProxy (route_id : DnsRouteId) (original_resolver proxy_endpoint : SocketAddr).

Definition route_id (r : DnsRoute) : option DnsRouteId :=
  match r with
  | ConnectedProxy id _ _ => Some id
  | RouteNone | InlineDns _ => None
  end.

Definition route_is_dns (r : DnsRoute) : bool :=
  match r with RouteNone => false | _ => true end.

Definition route_is_connected_proxy (r : DnsRoute) : bool :=
  match r with ConnectedProxy _ _ _ => true | _ => false end.

Record QueryMetadata := {
  q_id : Z;
  q_domain : string;
  q_qtype : Z;
}.

Record SocketState := {
  socket_type : SocketType;
  connected_destination : option SocketAddr;
  dns_route : DnsRoute;
  outstanding_queries : gmap Z (list QueryMetadata);
  descriptor_refs : Z;
  operation_refs : Z;
  connect_in_progress : bool;
}.

Definition SocketState_new (ty : SocketType) : SocketState := {|
  socket_type := ty;
  connected_destination := None;
  dns_route := RouteNone;
  outstanding_queries := ∅;
  descriptor_refs := 0;
  operation_refs := 0;
  connect_in_progress := false;
|}.

Definition with_destination (d : option SocketAddr) (s : SocketState) : SocketState := {|
  socket_type := socket_type s; connected_destination := d; dns_route := dns_route s;
  outstanding_queries := outstanding_queries s; descriptor_refs := descriptor_refs s;
  operation_refs := operation_refs s; connect_in_progress := connect_in_progress s |}.

Definition with_route (r : DnsRoute) (s : SocketState) : SocketState := {|
  socket_type := socket_type s; connected_destination := connected_destination s; dns_route := r;
  outstanding_queries := outstanding_queries s; descriptor_refs := descriptor_refs s;
  operation_refs := operation_refs s; connect_in_progress := connect_in_progress s |}.

Definition with_queries (q : gmap Z (list QueryMetadata)) (s : SocketState) : SocketState := {|
  socket_type := socket_type s; connected_destination := connected_destination s;
  dns_route := dns_route s; outstanding_queries := q; descriptor_refs := descriptor_refs s;
  operation_refs := operation_refs s; connect_in_progress := connect_in_progress s |}.

Definition with_refs (n : Z) (s : SocketState) : SocketState := {|
  socket_type := socket_type s; connected_destination := connected_destination s;
  dns_route := dns_route s; outstanding_queries := outstanding_queries s; descriptor_refs := n;
  operation_refs := operation_refs s; connect_in_progress := connect_in_progress s |}.

Definition with_ops (n : Z) (busy : bool) (s : SocketState) : SocketState := {|
  socket_type := socket_type s; connected_destination := connected_destination s;
  dns_route := dns_route s; outstanding_queries := outstanding_queries s;
  descriptor_refs := descriptor_refs s; operation_refs := n; connect_in_progress := busy |}.

(** The route displaced by the new one, and the socket after it. *)
Definition replace_route (route : DnsRoute) (s : SocketState) : option DnsRouteId * SocketState :=
  let old := dns_route s in
  let s := with_route route s in
  if decide (route_id old = route_id route) then (None, s)
  else (route_id old, with_queries ∅ s).

Record FdTable := { ft_sockets : gmap Z SocketId }.

Definition FdTable_default : FdTable := {| ft_sockets := ∅ |}.

Record RouteTransition := {
  rt_socket_id : SocketId;
  released_route : option DnsRouteId;
}.

Record DnsSocketTracker := {
  process_tables : gmap Z FdTableId;
  tables : gmap FdTableId FdTable;
  sockets : gmap SocketId SocketState;
  next_table_id : Z;
  next_socket_id : Z;
}.

Definition DnsSocketTracker_new : DnsSocketTracker := {|
  process_tables := ∅;
  tables := ∅;
  sockets := ∅;
  next_table_id := 1;
  next_socket_id := 1;
|}.

Definition set_processes (p : gmap Z FdTableId) (t : DnsSocketTracker) : DnsSocketTracker := {|
  process_tables := p; tables := tables t; sockets := sockets t;
  next_table_id := next_table_id t; next_socket_id := next_socket_id t |}.

Definition set_tables (tb : gmap FdTableId FdTable) (t : DnsSocketTracker) : DnsSocketTracker := {|
  process_tables := process_tables t; tables := tb; sockets := sockets t;
  next_table_id := next_table_id t; next_socket_id := next_socket_id t |}.

Definition set_sockets (s : gmap SocketId SocketState) (t : DnsSocketTracker) : DnsSocketTracker := {|
  process_tables := process_tables t; tables := tables t; sockets := s;
  next_table_id := next_table_id t; next_socket_id := next_socket_id t |}.

Definition put_socket (sid : SocketId) (s : SocketState) (t : DnsSocketTracker) : DnsSocketTracker :=
  set_sockets (<[sid := s]> (sockets t)) t.

Definition put_table (id : FdTableId) (tbl : FdTable) (t : DnsSocketTracker) : DnsSocketTracker :=
  set_tables (<[id := tbl]> (tables t)) t.

(** ** The state monad of the mutating operations; [None] is a panic *)

Definition TM (A : Type) : Type := DnsSocketTracker → option (A * DnsSocketTracker).

#[export] Instance TM_ret : MRet TM := λ A a t, Some (a, t).
#[export] Instance TM_bind : MBind TM := λ A B k m t,
  match m t with Some (a, t') => k a t' | None => None end.

Definition tget {A} (f : DnsSocketTracker → A) : TM A := λ t, Some (f t, t).
Definition tmodify (f : DnsSocketTracker → DnsSocketTracker) : TM unit := λ t, Some (tt, f t).
Definition expect {A} (o : option A) : TM A := λ t,
  match o with Some a => Some (a, t) | None => None end.

Definition allocate_table_id : TM FdTableId :=
  id ← tget next_table_id;
  next ← expect (checked_add id 1);
  tmodify (λ t, {| process_tables := process_tables t; tables := tables t; sockets := sockets t;
                   next_table_id := next; next_socket_id := next_socket_id t |}) ;;
  mret id.

Definition allocate_socket_id : TM SocketId :=
  id ← tget next_socket_id;
  next ← expect (checked_add id 1);
  tmodify (λ t, {| process_tables := process_tables t; tables := tables t; sockets := sockets t;
                   next_table_id := next_table_id t; next_socket_id := next |}) ;;
  mret id.

Definition table_id (t : DnsSocketTracker) (tgid : Z) : option FdTableId :=
  process_tables t !! tgid.

Definition ensure_process (tgid : Z) : TM FdTableId :=
  known ← tget (λ t, table_id t tgid);
  match known with
  | Some id => mret id
  | None =>
      id ← allocate_table_id;
      tmodify (λ t, set_processes (<[tgid := id]> (process_tables t)) t) ;;
      tmodify (put_table id FdTable_default) ;;
      mret id
  end.

Definition socket_id (t : DnsSocketTracker) (tgid fd : Z) : option SocketId :=
  id ← table_id t tgid;
  tbl ← tables t !! id;
  ft_sockets tbl !! fd.

Definition socket_matches (t : DnsSocketTracker) (tgid fd : Z) (sid : SocketId) : bool :=
  bool_decide (socket_id t tgid fd = Some sid).

Definition socket (t : DnsSocketTracker) (tgid fd : Z) : option SocketState :=
  sid ← socket_id t tgid fd;
  sockets t !! sid.

Definition increment_descriptor_ref (sid : SocketId) : TM unit :=
  found ← tget (λ t, sockets t !! sid);
  s ← expect found;
  tmodify (put_socket sid (with_refs (as_u64 (descriptor_refs s + 1)) s)).

(** Remove a socket, yielding the route it owned. *)
Definition remove_socket (sid : SocketId) : TM (option DnsRouteId) :=
  removed ← tget (λ t, sockets t !! sid);
  tmodify (λ t, set_sockets (delete sid (sockets t)) t) ;;
  mret (s ← removed; route_id (dns_route s)).

Definition decrement_descriptor_ref (sid : SocketId) : TM (option DnsRouteId) :=
  found ← tget (λ t, sockets t !! sid);
  s ← expect found;
  let s := with_refs (as_u64 (descriptor_refs s - 1)) s in
  tmodify (put_socket sid s) ;;
  if (descriptor_refs s =? 0)%Z && (operation_refs s =? 0)%Z
  then remove_socket sid else mret None.

Definition assign_fd (id : FdTableId) (fd : Z) (sid : SocketId) : TM (option DnsRouteId) :=
  found ← tget (λ t, tables t !! id);
  tbl ← expect found;
  let previous := ft_sockets tbl !! fd in
  tmodify (put_table id {| ft_sockets := <[fd := sid]> (ft_sockets tbl) |}) ;;
  if decide (previous = Some sid) then mret None
  else
    increment_descriptor_ref sid ;;
    match previous with
    | Some old => decrement_descriptor_ref old
    | None => mret None
    end.

Definition observe_socket (tgid fd : Z) (ty : SocketType) : TM (option DnsRouteId) :=
  id ← ensure_process tgid;
  sid ← allocate_socket_id;
  tmodify (put_socket sid (SocketState_new ty)) ;;
  assign_fd id fd sid.

Definition is_connected_proxy (t : DnsSocketTracker) (tgid fd : Z) : bool :=
  match socket t tgid fd with
  | Some s => route_is_connected_proxy (dns_route s)
  | None => false
  end.

Definition is_dns (t : DnsSocketTracker) (tgid fd : Z) : bool :=
  match socket t tgid fd with Some s => route_is_dns (dns_route s) | None => false end.

(** [self.sockets.get_mut(&id)?] followed by an update that yields a value. *)
Definition update_socket {A} (sid : SocketId) (f : SocketState → option A * SocketState) :
    TM (option A) :=
  found ← tget (λ t, sockets t !! sid);
  match found with
  | Some s => let '(a, s) := f s in tmodify (put_socket sid s) ;; mret a
  | None => mret None
  end.

(** The route of a socket whose peer is now [destination]. *)
Definition direct_route (s : SocketState) (destination : SocketAddr) : DnsRoute :=
  if decide (socket_type s = Datagram ∧ sa_port destination = 53%Z)
  then InlineDns (Some destination) else RouteNone.

Definition connect_socket (sid : SocketId) (destination : SocketAddr) : TM (option DnsRouteId) :=
  update_socket sid (λ s,
    let s := with_destination (Some destination) s in
    replace_route (direct_route s destination) s).

Definition disconnect_socket (sid : SocketId) : TM (option DnsRouteId) :=
  update_socket sid (λ s, replace_route RouteNone (with_destination None s)).

Definition set_connected_proxy_for_socket (sid : SocketId) (route : DnsRouteId)
    (original_resolver proxy_endpoint : SocketAddr) : TM (option RouteTransition) :=
  update_socket sid (λ s,
    if decide (socket_type s = Datagram) then
      let '(released, s) :=
        replace_route (ConnectedProxy route original_resolver proxy_endpoint)
          (with_destination (Some original_resolver) s) in
      (Some {| rt_socket_id := sid; released_route := released |}, s)
    else (None, s)).

(** The route that [observe_socket] returns is dropped. *)
Definition discover_dns (tgid fd : Z) (destination : SocketAddr) : TM bool :=
  known ← tget (λ t, socket t tgid fd);
  (match known with
   | None => observe_socket tgid fd Datagram ;; mret tt
   | Some _ => mret tt
   end) ;;
  sid ← tget (λ t, socket_id t tgid fd);
  found ← tget (λ t, socket t tgid fd);
  match sid, found with
  | Some sid, Some s =>
      if decide (socket_type s = Datagram ∧ sa_port destination = 53%Z) then
        (if route_is_connected_proxy (dns_route s) then mret tt
         else tmodify (put_socket sid (with_route (InlineDns (Some destination)) s))) ;;
        mret true
      else mret false
  | _, _ => mret false
  end.

(** *** Queries awaiting an answer *)

Definition is_inline (r : DnsRoute) : bool := match r with InlineDns _ => true | _ => false end.

(** Does an entry answer to the name and type?  Names compare without case. *)
Definition query_matches (domain : string) (qtype : Z) (e : QueryMetadata) : bool :=
  eq_ignore_ascii_case (q_domain e) domain && (q_qtype e =? qtype)%Z.

Definition remember_query (q : QueryMetadata) (s : SocketState) : SocketState :=
  if is_inline (dns_route s) then
    let entries := default [] (outstanding_queries s !! q_id q) in
    with_queries (<[q_id q := entries ++ [q]]> (outstanding_queries s)) s
  else s.

Definition remember_query_for_socket (sid : SocketId) (q : QueryMetadata) : TM unit :=
  update_socket sid (λ s, (Some tt, remember_query q s)) ;; mret tt.

(** [Iterator::position] and [rposition]. *)
Fixpoint position {A} (p : A → bool) (l : list A) : option nat :=
  match l with
  | [] => None
  | a :: l' => if p a then Some 0 else S <$> position p l'
  end.

Fixpoint rposition {A} (p : A → bool) (l : list A) : option nat :=
  match l with
  | [] => None
  | a :: l' =>
      match rposition p l' with
      | Some i => Some (S i)
      | None => if p a then Some 0 else None
      end
  end.

(** Write back the entries of a query id, dropping the key of an empty list. *)
Definition set_entries (id : Z) (entries : list QueryMetadata) (s : SocketState) : SocketState :=
  with_queries (if decide (entries = []) then delete id (outstanding_queries s)
                else <[id := entries]> (outstanding_queries s)) s.

Definition forget_query (q : QueryMetadata) (s : SocketState) : SocketState :=
  match outstanding_queries s !! q_id q with
  | None => s
  | Some entries =>
      set_entries (q_id q)
        (match rposition (query_matches (q_domain q) (q_qtype q)) entries with
         | Some i => delete i entries
         | None => entries
         end) s
  end.

Definition forget_query_for_socket (sid : SocketId) (q : QueryMetadata) : TM unit :=
  update_socket sid (λ s, (Some tt, forget_query q s)) ;; mret tt.

Definition take_matching_query_from_state (id : Z) (domain : string) (qtype : Z)
    (s : SocketState) : option QueryMetadata * SocketState :=
  if is_inline (dns_route s) then
    match (entries ← outstanding_queries s !! id;
           i ← position (query_matches domain qtype) entries;
           q ← entries !! i;
           Some (entries, i, q)) with
    | Some (entries, i, q) => (Some q, set_entries id (delete i entries) s)
    | None => (None, s)
    end
  else (None, s).

Definition take_matching_query_for_socket (sid : SocketId) (id : Z) (domain : string)
    (qtype : Z) : TM (option QueryMetadata) :=
  update_socket sid (take_matching_query_from_state id domain qtype).

(** *** Closing descriptors and processes *)

(** [self.tables.get_mut(&id)?.sockets.remove(&fd)] *)
Definition remove_fd (id : FdTableId) (fd : Z) : TM (option SocketId) :=
  found ← tget (λ t, tables t !! id);
  match found with
  | Some tbl =>
      tmodify (put_table id {| ft_sockets := delete fd (ft_sockets tbl) |}) ;;
      mret (ft_sockets tbl !! fd)
  | None => mret None
  end.

Definition close (tgid fd : Z) : TM (option DnsRouteId) :=
  id ← tget (λ t, table_id t tgid);
  match id with
  | None => mret None
  | Some id =>
      sid ← remove_fd id fd;
      match sid with
      | Some sid => decrement_descriptor_ref sid
      | None => mret None
      end
  end.

Definition duplicate_socket (tgid : Z) (sid : SocketId) (new_fd : Z) : TM (option DnsRouteId) :=
  known ← tget (λ t, sockets t !! sid);
  match known with
  | None => close tgid new_fd
  | Some _ => id ← ensure_process tgid; assign_fd id new_fd sid
  end.

(** [if let Some(route_id) = ... { released.push(route_id) }] around the
    rest of a loop. *)
Definition push_released (r : option DnsRouteId) (rest : TM (list DnsRouteId)) :
    TM (list DnsRouteId) :=
  released ← rest;
  mret (option_list r ++ released).

Fixpoint release_fds (id : FdTableId) (fds : list Z) : TM (list DnsRouteId) :=
  match fds with
  | [] => mret []
  | fd :: fds =>
      removed ← remove_fd id fd;
      sid ← expect removed;
      r ← decrement_descriptor_ref sid;
      push_released r (release_fds id fds)
  end.

Fixpoint release_sockets (sids : list SocketId) : TM (list DnsRouteId) :=
  match sids with
  | [] => mret []
  | sid :: sids =>
      r ← decrement_descriptor_ref sid;
      push_released r (release_sockets sids)
  end.

Fixpoint increment_all (sids : list SocketId) : TM unit :=
  match sids with
  | [] => mret tt
  | sid :: sids => increment_descriptor_ref sid ;; increment_all sids
  end.

Section Operations.
Context `{HashIter}.

Definition tracked_fds (t : DnsSocketTracker) (tgid : Z) : list Z :=
  match (id ← table_id t tgid; tables t !! id) with
  | Some tbl => (hash_iter (ft_sockets tbl)).*1
  | None => []
  end.

Definition has_connected_proxy_routes (t : DnsSocketTracker) : bool :=
  existsb (λ s, route_is_connected_proxy (dns_route s)) (hash_iter (sockets t)).*2.

(** The descriptors of table [id] that satisfy [p], in the order of the map. *)
Definition fds_of (t : DnsSocketTracker) (id : FdTableId) (p : Z → bool) : list Z :=
  match tables t !! id with
  | Some tbl => List.filter p (hash_iter (ft_sockets tbl)).*1
  | None => []
  end.

Definition close_range (tgid first last : Z) : TM (list DnsRouteId) :=
  id ← tget (λ t, table_id t tgid);
  match id with
  | None => mret []
  | Some id =>
      to_remove ← tget (λ t, fds_of t id (λ fd, (first <=? fd) && (fd <=? last))%Z);
      release_fds id to_remove
  end.

Definition unshare_table_for_exec (tgid : Z) : TM (option FdTableId) :=
  current ← tget (λ t, table_id t tgid);
  match current with
  | None => mret None
  | Some current =>
      is_shared ← tget (λ t,
        existsb (λ '(other, id), negb (other =? tgid)%Z && (id =? current)%Z)
          (hash_iter (process_tables t)));
      if is_shared : bool then
        snapshot ← tget (λ t, default FdTable_default (tables t !! current));
        new_id ← allocate_table_id;
        increment_all (hash_iter (ft_sockets snapshot)).*2 ;;
        tmodify (put_table new_id snapshot) ;;
        tmodify (λ t, set_processes (<[tgid := new_id]> (process_tables t)) t) ;;
        mret (Some new_id)
      else mret (Some current)
  end.

Definition retain_fds (tgid : Z) (live_fds : gset Z) : TM (list DnsRouteId) :=
  id ← unshare_table_for_exec tgid;
  match id with
  | None => mret []
  | Some id =>
      to_remove ← tget (λ t, fds_of t id (λ fd, bool_decide (fd ∉ live_fds)));
      release_fds id to_remove
  end.

Definition remove_process (tgid : Z) : TM (list DnsRouteId) :=
  found ← tget (λ t, table_id t tgid);
  tmodify (λ t, set_processes (delete tgid (process_tables t)) t) ;;
  match found with
  | None => mret []
  | Some id =>
      still_used ← tget (λ t, existsb (λ other, (other =? id)%Z) (hash_iter (process_tables t)).*2);
      if still_used : bool then mret []
      else
        removed ← tget (λ t, tables t !! id);
        tmodify (λ t, set_tables (delete id (tables t)) t) ;;
        release_sockets (match removed with
                         | Some tbl => (hash_iter (ft_sockets tbl)).*2
                         | None => []
                         end)
  end.

Definition inherit_process (parent_tgid child_tgid : Z) (shared : bool) : TM (list DnsRouteId) :=
  if decide (parent_tgid = child_tgid) then ensure_process parent_tgid ;; mret []
  else
    released ← remove_process child_tgid;
    parent_id ← ensure_process parent_tgid;
    if shared then
      tmodify (λ t, set_processes (<[child_tgid := parent_id]> (process_tables t)) t) ;;
      mret released
    else
      child_id ← allocate_table_id;
      snapshot ← tget (λ t, default FdTable_default (tables t !! parent_id));
      increment_all (hash_iter (ft_sockets snapshot)).*2 ;;
      tmodify (put_table child_id snapshot) ;;
      tmodify (λ t, set_processes (<[child_tgid := child_id]> (process_tables t)) t) ;;
      mret released.

Definition clear : TM (list DnsRouteId) :=
  released ← tget (λ t, omap (λ s, route_id (dns_route s)) (hash_iter (sockets t)).*2);
  tmodify (λ t, set_sockets ∅ (set_tables ∅ (set_processes ∅ t))) ;;
  mret released.

End Operations.

(** *** Holding sockets across a system call *)

(** [let id = self.socket_id(..)?; let state = self.sockets.get_mut(&id)?] and an
    update that may refuse. *)
Definition hold_with (tgid fd : Z) (f : SocketState → option SocketState) : TM (option SocketId) :=
  sid ← tget (λ t, socket_id t tgid fd);
  match sid with
  | None => mret None
  | Some sid =>
      update_socket sid (λ s, match f s with Some s' => (Some sid, s') | None => (None, s) end)
  end.

Definition pin_socket (tgid fd : Z) : TM (option SocketId) :=
  hold_with tgid fd (λ s,
    if negb (operation_refs s =? 0)%Z || connect_in_progress s then None
    else Some (with_ops (operation_refs s + 1) true s)).

Definition hold_socket (tgid fd : Z) : TM (option SocketId) :=
  hold_with tgid fd (λ s,
    if connect_in_progress s then None
    else n ← checked_add (operation_refs s) 1; Some (with_ops n false s)).

Definition hold_socket_identity (tgid fd : Z) : TM (option SocketId) :=
  hold_with tgid fd (λ s,
    n ← checked_add (operation_refs s) 1; Some (with_ops n (connect_in_progress s) s)).

Definition unpin_socket (sid : SocketId) : TM (option DnsRouteId) :=
  found ← tget (λ t, sockets t !! sid);
  match found with
  | None => mret None
  | Some s =>
      if (operation_refs s =? 0)%Z || negb (connect_in_progress s) then mret None
      else
        let s := with_ops (operation_refs s - 1) false s in
        tmodify (put_socket sid s) ;;
        if (operation_refs s =? 0)%Z && (descriptor_refs s =? 0)%Z
        then remove_socket sid else mret None
  end.

Definition release_socket_hold (sid : SocketId) : TM (option DnsRouteId) :=
  found ← tget (λ t, sockets t !! sid);
  match found with
  | None => mret None
  | Some s =>
      if (operation_refs s =? 0)%Z then mret None
      else
        let s := with_ops (operation_refs s - 1) (connect_in_progress s) s in
        tmodify (put_socket sid s) ;;
        if (operation_refs s =? 0)%Z && (descriptor_refs s =? 0)%Z
        then remove_socket sid else mret None
  end.
