(* ===== verification/DnsSocketInvariant.v ===== *)
(** * What the DNS socket tracker promises

    The invariant of [DnsSocketTracker]: reference counts are exact, every table is
    owned, every named socket exists.  Every operation keeps it, returns, and
    accounts for the connected-proxy routes it drops; the tables of processes
    follow the kernel's; a held socket survives. *)

From stdpp Require Import gmultiset.
From S2P Require Import Prelude Net Concrete DnsSocketTracker.

(** ** Sums over maps

    The multiset union of a function over the values of a map, used for the
    references of the tables and for the routes of the sockets. *)

Section MapSum.
Context `{Countable K} `{Countable B} {A : Type} (f : A → gmultiset B).
Implicit Types (m : gmap K A) (k : K) (a : A).

Definition map_msum m : gmultiset B := map_fold (λ _ a acc, f a ⊎ acc) ∅ m.

Lemma map_msum_empty : map_msum ∅ = ∅.
Proof. apply map_fold_empty. Qed.

Lemma map_msum_insert m k a : m !! k = None → map_msum (<[k := a]> m) = f a ⊎ map_msum m.
Proof.
  intros Hk. unfold map_msum. rewrite map_fold_insert_L; [done| |done].
  intros. multiset_solver.
Qed.

Lemma map_msum_delete m k a : m !! k = Some a → map_msum m = f a ⊎ map_msum (delete k m).
Proof.
  intros Hk. rewrite <-(map_msum_insert _ k a) by apply lookup_delete_eq.
  by rewrite insert_delete_id.
Qed.

Lemma map_msum_update m k a b :
  m !! k = Some b → f b ⊎ map_msum (<[k := a]> m) = f a ⊎ map_msum m.
Proof.
  intros Hk. rewrite (map_msum_delete m k b Hk).
  rewrite <-(insert_delete_eq m k), map_msum_insert by apply lookup_delete_eq. multiset_solver.
Qed.

Definition list_msum (l : list A) : gmultiset B := foldr (λ a acc, f a ⊎ acc) ∅ l.

#[export] Instance list_msum_proper : Proper ((≡ₚ) ==> (=)) list_msum.
Proof. induction 1; cbn; [done|multiset_solver..]. Qed.

Lemma map_msum_list m : map_msum m = list_msum (map_to_list m).*2.
Proof.
  induction m as [|k a m Hk IH] using map_ind; [by rewrite map_msum_empty, map_to_list_empty|].
  rewrite map_msum_insert by done. rewrite IH, map_to_list_insert by done. done.
Qed.

End MapSum.

Definition option_mset `{Countable B} (o : option B) : gmultiset B :=
  match o with Some b => {[+ b +]} | None => ∅ end.

Definition list_mset `{Countable B} (l : list B) : gmultiset B := list_to_set_disj l.

(** The table entries that refer to each socket. *)
Definition table_refs (tbl : FdTable) : gmultiset SocketId :=
  map_msum (λ sid, {[+ sid +]}) (ft_sockets tbl).

Definition fd_refs (t : DnsSocketTracker) : gmultiset SocketId :=
  map_msum table_refs (tables t).

(** The proxy routes the sockets own. *)
Definition socket_route (s : SocketState) : gmultiset DnsRouteId :=
  option_mset (route_id (dns_route s)).

Definition live_routes (t : DnsSocketTracker) : gmultiset DnsRouteId :=
  map_msum socket_route (sockets t).

(** ** Postconditions of operations that do not panic *)

Definition post {A} (m : TM A) (t : DnsSocketTracker) (Q : A → DnsSocketTracker → Prop) : Prop :=
  match m t with Some (a, t') => Q a t' | None => False end.

Lemma post_bind {A B} (m : TM A) (k : A → TM B) t (P : A → DnsSocketTracker → Prop)
    (Q : B → DnsSocketTracker → Prop) :
  post m t P → (∀ a t', P a t' → post (k a) t' Q) → post (m ≫= k) t Q.
Proof. unfold post, mbind, TM_bind. destruct (m t) as [[a t']|]; [|done]. naive_solver. Qed.

Lemma post_weaken {A} (m : TM A) t (P Q : A → DnsSocketTracker → Prop) :
  post m t P → (∀ a t', P a t' → Q a t') → post m t Q.
Proof. unfold post. destruct (m t) as [[a t']|]; naive_solver. Qed.

Lemma post_ret {A} (a : A) t (Q : A → DnsSocketTracker → Prop) : Q a t → post (mret a) t Q.
Proof. done. Qed.

Lemma post_tget {A B} (f : DnsSocketTracker → A) (k : A → TM B) t Q :
  post (k (f t)) t Q → post (tget f ≫= k) t Q.
Proof. done. Qed.

Lemma post_modify {B} (f : DnsSocketTracker → DnsSocketTracker) (k : unit → TM B) t Q :
  post (k tt) (f t) Q → post (tmodify f ≫= k) t Q.
Proof. done. Qed.

Lemma post_expect {A B} (a : A) (k : A → TM B) t Q :
  post (k a) t Q → post (expect (Some a) ≫= k) t Q.
Proof. done. Qed.

(** ** The invariant *)

(** Every query is filed under its id, and no id has an empty list. *)
Definition queries_ok (s : SocketState) : Prop :=
  ∀ id l, outstanding_queries s !! id = Some l → l ≠ [] ∧ Forall (λ q, q_id q = id) l.

(** A socket whose references are those of the multiset [R]. *)
Record socket_ok (R : gmultiset SocketId) (next : Z) (sid : SocketId) (s : SocketState) : Prop := {
  ok_id : (1 ≤ sid < next)%Z;
  ok_refs : descriptor_refs s = Z.of_nat (multiplicity sid R);
  ok_ops : (0 ≤ operation_refs s < 2 ^ 64)%Z;
  ok_queries : queries_ok s;
}.

Definition in_use (s : SocketState) : Prop := (0 < descriptor_refs s ∨ 0 < operation_refs s)%Z.

(** The sockets of a tracker whose references are [R]; the sockets of [X] need not
    be in use yet. *)
Record sockets_inv (X : gset SocketId) (R : gmultiset SocketId) (t : DnsSocketTracker) : Prop := {
  inv_size : (Z.of_nat (size R) < 2 ^ 64)%Z;
  inv_known : ∀ sid, sid ∈ R → is_Some (sockets t !! sid);
  inv_socket : ∀ sid s, sockets t !! sid = Some s → socket_ok R (next_socket_id t) sid s;
  inv_used : ∀ sid s, sockets t !! sid = Some s → sid ∉ X → in_use s;
  inv_next : (1 ≤ next_socket_id t < 2 ^ 64)%Z;
}.

Record tables_inv (t : DnsSocketTracker) : Prop := {
  inv_process : ∀ p id, process_tables t !! p = Some id → is_Some (tables t !! id);
  inv_owned : ∀ id tbl, tables t !! id = Some tbl → ∃ p, process_tables t !! p = Some id;
  inv_table_id : ∀ id tbl, tables t !! id = Some tbl → (1 ≤ id < next_table_id t)%Z;
  inv_next_table : (1 ≤ next_table_id t < 2 ^ 64)%Z;
}.

Definition tracker_inv (t : DnsSocketTracker) : Prop :=
  tables_inv t ∧ sockets_inv ∅ (fd_refs t) t.

(** Everything but the sockets is unchanged. *)
Definition same_tables (t t' : DnsSocketTracker) : Prop := t' = set_sockets (sockets t') t.

Lemma same_tables_refl t : same_tables t t.
Proof. by destruct t. Qed.

Lemma same_tables_trans t1 t2 t3 : same_tables t1 t2 → same_tables t2 t3 → same_tables t1 t3.
Proof. unfold same_tables. intros -> ->. done. Qed.

Lemma same_tables_refs t t' : same_tables t t' → fd_refs t' = fd_refs t.
Proof. by intros ->. Qed.

(** *** The invariant of the sockets under its primitive updates *)

Lemma multiplicity_le_size {A} `{Countable A} (x : A) (R : gmultiset A) : multiplicity x R ≤ size R.
Proof.
  induction R as [|y R IH] using gmultiset_ind; [by rewrite multiplicity_empty; lia|].
  rewrite multiplicity_disj_union, gmultiset_size_disj_union, gmultiset_size_singleton.
  destruct (decide (x = y)) as [->|Hne]; [rewrite multiplicity_singleton_eq|
    rewrite multiplicity_singleton_ne by done]; lia.
Qed.

Lemma sockets_inv_put X R R' t sid s :
  sockets_inv X R t →
  (Z.of_nat (size R') < 2 ^ 64)%Z →
  (∀ x, x ≠ sid → multiplicity x R' = multiplicity x R) →
  socket_ok R' (next_socket_id t) sid s →
  sockets_inv (X ∪ {[ sid ]}) R' (put_socket sid s t).
Proof.
  intros [Hsz Hk Hs Hu Hn] Hsz' HR Hok. split; cbn; [done| | | |done].
  - intros x Hx. destruct (decide (x = sid)) as [->|Hne].
    + rewrite lookup_insert_eq. done.
    + rewrite lookup_insert_ne by done. apply Hk.
      unfold elem_of, gmultiset_elem_of in *. by rewrite <-HR.
  - intros x s' [[-> ->]|[Hne Hx]]%lookup_insert_Some; [done|].
    destruct (Hs x s' Hx) as [????]. split; [done| |done..]. rewrite HR; done.
  - intros x s' [[-> ->]|[Hne Hx]]%lookup_insert_Some Hn'; [set_solver|].
    apply (Hu x s' Hx). set_solver.
Qed.

Lemma sockets_inv_mono X X' R t : X ⊆ X' → sockets_inv X R t → sockets_inv X' R t.
Proof. intros HX [Hsz Hk Hs Hu Hn]. split; try done. intros sid s ??. eapply Hu; set_solver. Qed.

(** A socket in use need not be exempted. *)
Lemma sockets_inv_in_use X R t sid s :
  sockets_inv (X ∪ {[ sid ]}) R t → sockets t !! sid = Some s → in_use s →
  sockets_inv (X ∖ {[ sid ]}) R t.
Proof.
  intros [Hsz Hk Hs Hu Hn] Hsid Huse. split; try done.
  intros x s' Hx HX. destruct (decide (x = sid)) as [->|Hne]; [congruence|].
  apply (Hu x s' Hx). set_solver.
Qed.

(** An unused socket that nothing refers to can go. *)
Lemma sockets_inv_remove X R t sid :
  sockets_inv (X ∪ {[ sid ]}) R t → multiplicity sid R = 0 →
  sockets_inv X R (set_sockets (delete sid (sockets t)) t).
Proof.
  intros [Hsz Hk Hs Hu Hn] H0. split; cbn; [done| | | |done].
  - intros x Hx. rewrite lookup_delete_ne; [by apply Hk|]. intros ->.
    unfold elem_of, gmultiset_elem_of in Hx. lia.
  - intros x s [Hne Hx]%lookup_delete_Some. by apply Hs.
  - intros x s [Hne Hx]%lookup_delete_Some HX. apply (Hu x s Hx). set_solver.
Qed.

Lemma live_routes_put t sid s s' :
  sockets t !! sid = Some s →
  socket_route s ⊎ live_routes (put_socket sid s' t) = socket_route s' ⊎ live_routes t.
Proof. intros Hs. by apply map_msum_update. Qed.

Lemma live_routes_remove t sid s :
  sockets t !! sid = Some s →
  live_routes t = socket_route s ⊎ live_routes (set_sockets (delete sid (sockets t)) t).
Proof. intros Hs. by apply map_msum_delete. Qed.

Lemma increment_post X R t sid :
  sockets_inv X R t → is_Some (sockets t !! sid) → (Z.of_nat (size R) + 1 < 2 ^ 64)%Z →
  post (increment_descriptor_ref sid) t (λ _ t',
    sockets_inv (X ∖ {[ sid ]}) ({[+ sid +]} ⊎ R) t' ∧ same_tables t t' ∧
    live_routes t' = live_routes t ∧ dom (sockets t') = dom (sockets t)).
Proof.
  intros Hinv [s Hs] Hsz. apply post_tget. rewrite Hs. apply post_expect. unfold post. cbn.
  destruct (inv_socket _ _ _ Hinv sid s Hs) as [Hid Hrefs Hops Hq].
  pose proof (multiplicity_le_size sid R) as Hm.
  rewrite as_u64_small by lia.
  set (s' := with_refs _ s).
  assert (Hput : sockets_inv (X ∪ {[ sid ]}) ({[+ sid +]} ⊎ R) (put_socket sid s' t)).
  { apply (sockets_inv_put _ R); [done|..].
    - rewrite gmultiset_size_disj_union, gmultiset_size_singleton. lia.
    - intros x Hne. rewrite multiplicity_disj_union, multiplicity_singleton_ne by done. lia.
    - split; [done| |done..]. cbn [s' with_refs descriptor_refs].
      rewrite multiplicity_disj_union, multiplicity_singleton_eq. lia. }
  split; [|split; [done|split]].
  - eapply sockets_inv_in_use; [exact Hput|apply lookup_insert_eq|]. left. cbn. lia.
  - pose proof (live_routes_put t sid s s' Hs) as Hl. unfold socket_route in Hl. cbn in Hl.
    multiset_solver.
  - cbn. rewrite dom_insert_L. apply elem_of_dom_2 in Hs. set_solver.
Qed.

Lemma remove_socket_post X R t sid s :
  sockets_inv (X ∪ {[ sid ]}) R t → sockets t !! sid = Some s → multiplicity sid R = 0 →
  post (remove_socket sid) t (λ r t',
    sockets_inv X R t' ∧ same_tables t t' ∧ live_routes t = live_routes t' ⊎ option_mset r).
Proof.
  intros Hinv Hs H0. apply post_tget, post_modify, post_ret. rewrite Hs. cbn.
  split; [by apply sockets_inv_remove|]. split; [done|].
  rewrite (live_routes_remove t sid s Hs). unfold socket_route. multiset_solver.
Qed.

Lemma decrement_post X R t sid :
  sockets_inv X ({[+ sid +]} ⊎ R) t →
  post (decrement_descriptor_ref sid) t (λ r t',
    sockets_inv X R t' ∧ same_tables t t' ∧ live_routes t = live_routes t' ⊎ option_mset r).
Proof.
  intros Hinv.
  destruct (inv_known _ _ _ Hinv sid) as [s Hs]; [multiset_solver|].
  apply post_tget. rewrite Hs. apply post_expect.
  destruct (inv_socket _ _ _ Hinv sid s Hs) as [Hid Hrefs Hops Hq].
  pose proof (multiplicity_le_size sid ({[+ sid +]} ⊎ R)) as Hm.
  pose proof (inv_size _ _ _ Hinv) as Hsz.
  rewrite multiplicity_disj_union, multiplicity_singleton_eq in Hrefs, Hm.
  cbv zeta. rewrite as_u64_small by lia. set (s' := with_refs _ s). apply post_modify.
  assert (Hput : sockets_inv (X ∪ {[ sid ]}) R (put_socket sid s' t)).
  { apply (sockets_inv_put _ ({[+ sid +]} ⊎ R)); [done|..].
    - rewrite gmultiset_size_disj_union in Hsz. lia.
    - intros x Hne. rewrite multiplicity_disj_union, multiplicity_singleton_ne by done. lia.
    - split; [done| |done..]. cbn [s' with_refs descriptor_refs]. lia. }
  assert (Hlive : live_routes (put_socket sid s' t) = live_routes t).
  { pose proof (live_routes_put t sid s s' Hs) as Hl. unfold socket_route in Hl. cbn in Hl.
    multiset_solver. }
  assert (Hrefs' : descriptor_refs s' = Z.of_nat (multiplicity sid R)) by (cbn [s' with_refs descriptor_refs]; lia).
  assert (Hops' : (0 ≤ operation_refs s')%Z) by apply Hops.
  destruct (Z.eqb_spec (descriptor_refs s') 0), (Z.eqb_spec (operation_refs s') 0); cbn [andb];
    [rewrite <-Hlive; eapply post_weaken; [eapply remove_socket_post;
      [exact Hput|apply lookup_insert_eq|lia]|by intros r t' (? & Hst & ?)]
    |apply post_ret; rewrite Hlive; cbn [option_mset]; split; [|split; [done|multiset_solver]]..];
    (eapply sockets_inv_mono; [|eapply sockets_inv_in_use;
      [exact Hput|apply lookup_insert_eq|unfold in_use; lia]]; set_solver).
Qed.

Lemma list_mset_nil {A} `{Countable A} (R : gmultiset A) : list_mset [] ⊎ R = R.
Proof. unfold list_mset. rewrite list_to_set_disj_nil. multiset_solver. Qed.

Lemma list_mset_cons {A} `{Countable A} (a : A) l : list_mset (a :: l) = {[+ a +]} ⊎ list_mset l.
Proof. apply list_to_set_disj_cons. Qed.

Lemma mset_None {A} `{Countable A} (R : gmultiset A) : R ⊎ option_mset None = R.
Proof. cbn. multiset_solver. Qed.

Lemma mset_nil {A} `{Countable A} (R : gmultiset A) : R ⊎ list_mset [] = R.
Proof. by rewrite (comm_L (⊎)), list_mset_nil. Qed.

Lemma increment_all_post X sids : ∀ R t,
  sockets_inv X R t → Forall (λ sid, is_Some (sockets t !! sid)) sids →
  (Z.of_nat (size R) + Z.of_nat (length sids) < 2 ^ 64)%Z →
  post (increment_all sids) t (λ _ t',
    sockets_inv X (list_mset sids ⊎ R) t' ∧ same_tables t t' ∧ live_routes t' = live_routes t).
Proof.
  induction sids as [|sid sids IH]; intros R t Hinv Hk Hsz; cbn [increment_all list_mset].
  - apply post_ret. split; [|split; [apply same_tables_refl|done]].
    by rewrite list_mset_nil.
  - apply Forall_cons_1 in Hk as [Hs Hk]. cbn [length] in Hsz.
    eapply post_bind; [eapply increment_post; [exact Hinv|done|lia]|]. cbv beta.
    intros _ t1 (H1 & Hst & Hl & Hd).
    eapply post_weaken; [eapply (IH ({[+ sid +]} ⊎ R))|].
    + eapply sockets_inv_mono; [|exact H1]. set_solver.
    + eapply Forall_impl; [exact Hk|]. intros x. cbv beta. by rewrite <-!elem_of_dom, Hd.
    + rewrite gmultiset_size_disj_union, gmultiset_size_singleton. lia.
    + cbv beta. intros _ t2 (H2 & Hst2 & Hl2). split; [|split].
      * rewrite list_mset_cons.
        by replace ({[+ sid +]} ⊎ _ ⊎ R) with (list_mset sids ⊎ ({[+ sid +]} ⊎ R)) by multiset_solver.
      * eapply same_tables_trans; done.
      * congruence.
Qed.

Lemma push_released_post r rest t Q :
  post rest t (λ rs t', Q (option_list r ++ rs) t') → post (push_released r rest) t Q.
Proof. intros H. unfold push_released. eapply post_bind; [exact H|]. done. Qed.

Lemma list_mset_released {A} `{Countable A} (r : option A) (rs : list A) :
  list_mset (option_list r ++ rs) = option_mset r ⊎ list_mset rs.
Proof.
  unfold list_mset. rewrite list_to_set_disj_app.
  f_equal. destruct r; cbn [option_list option_mset]; [|done].
  change (list_mset [a] = {[+ a +]}). by rewrite list_mset_cons, (comm_L (⊎)), list_mset_nil.
Qed.

Lemma release_sockets_post X sids : ∀ R t,
  sockets_inv X (list_mset sids ⊎ R) t →
  post (release_sockets sids) t (λ rs t',
    sockets_inv X R t' ∧ same_tables t t' ∧ live_routes t = live_routes t' ⊎ list_mset rs).
Proof.
  induction sids as [|sid sids IH]; intros R t Hinv; cbn [release_sockets].
  - apply post_ret. split; [|split; [apply same_tables_refl|]].
    + by rewrite list_mset_nil in Hinv.
    + symmetry. apply mset_nil.
  - eapply post_bind.
    { eapply (decrement_post X (list_mset sids ⊎ R)).
      by rewrite list_mset_cons, <-(assoc_L (⊎)) in Hinv. }
    cbv beta. intros r t1 (H1 & Hst & Hl). apply push_released_post.
    eapply post_weaken; [by eapply IH|]. cbv beta. intros rs t2 (H2 & Hst2 & Hl2).
    split; [done|split; [by eapply same_tables_trans|]].
    rewrite list_mset_released. multiset_solver.
Qed.

(** *** References and table updates *)

Lemma table_refs_insert tbl fd sid :
  option_mset (ft_sockets tbl !! fd) ⊎ table_refs {| ft_sockets := <[fd := sid]> (ft_sockets tbl) |}
  = {[+ sid +]} ⊎ table_refs tbl.
Proof.
  unfold table_refs. cbn [ft_sockets]. destruct (ft_sockets tbl !! fd) as [old|] eqn:E; cbn [option_mset].
  - by apply map_msum_update.
  - rewrite map_msum_insert by done. multiset_solver.
Qed.

Lemma table_refs_delete tbl fd :
  table_refs tbl =
  option_mset (ft_sockets tbl !! fd) ⊎ table_refs {| ft_sockets := delete fd (ft_sockets tbl) |}.
Proof.
  unfold table_refs. cbn [ft_sockets]. destruct (ft_sockets tbl !! fd) as [old|] eqn:E; cbn [option_mset].
  - by apply map_msum_delete.
  - rewrite delete_id by done. multiset_solver.
Qed.

Lemma fd_refs_put t id tbl tbl' :
  tables t !! id = Some tbl →
  table_refs tbl ⊎ fd_refs (put_table id tbl' t) = table_refs tbl' ⊎ fd_refs t.
Proof. intros H. by apply map_msum_update. Qed.

Lemma fd_refs_new t id tbl :
  tables t !! id = None → fd_refs (put_table id tbl t) = table_refs tbl ⊎ fd_refs t.
Proof. intros H. by apply map_msum_insert. Qed.

Lemma fd_refs_lookup t id tbl fd sid :
  tables t !! id = Some tbl → ft_sockets tbl !! fd = Some sid → sid ∈ fd_refs t.
Proof.
  intros Ht Hfd. unfold fd_refs. rewrite (map_msum_delete _ _ id tbl) by done.
  rewrite (table_refs_delete tbl fd), Hfd. multiset_solver.
Qed.

Lemma sockets_inv_ext X R t t' :
  sockets t' = sockets t → next_socket_id t' = next_socket_id t →
  sockets_inv X R t → sockets_inv X R t'.
Proof. intros Hs Hn [????]. split; rewrite ?Hs, ?Hn; done. Qed.

(** Replacing a table whose owner and id stay. *)
Lemma tables_inv_put t id tbl tbl' :
  tables t !! id = Some tbl → tables_inv t → tables_inv (put_table id tbl' t).
Proof.
  intros Ht [Hp Ho Hi Hn]. split; cbn; [| | |done].
  - intros p x Hx. destruct (Hp p x Hx) as [y Hy].
    destruct (decide (x = id)) as [->|]; [rewrite lookup_insert_eq|rewrite lookup_insert_ne by done]; eauto.
  - intros x y [[-> ->]|[_ Hy]]%lookup_insert_Some; eauto.
  - intros x y [[-> ->]|[_ Hy]]%lookup_insert_Some; eauto.
Qed.

Lemma tables_inv_same t t' : same_tables t t' → tables_inv t → tables_inv t'.
Proof. intros -> [????]. by split. Qed.

(** ** The descriptors of a process, as a map *)

Definition fds (t : DnsSocketTracker) (p : Z) : gmap Z SocketId :=
  match (id ← table_id t p; tables t !! id) with
  | Some tbl => ft_sockets tbl
  | None => ∅
  end.

Lemma fds_lookup t p fd : fds t p !! fd = socket_id t p fd.
Proof.
  unfold fds, socket_id. destruct (table_id t p) as [id|]; cbn; [|done].
  by destruct (tables t !! id); cbn.
Qed.

Lemma fds_same t t' p : same_tables t t' → fds t' p = fds t p.
Proof. by intros ->. Qed.

(** Replacing a table changes the descriptors of the processes that use it. *)
Lemma fds_put_table t id tbl tbl' p :
  tables t !! id = Some tbl →
  fds (put_table id tbl' t) p = if decide (table_id t p = Some id) then ft_sockets tbl' else fds t p.
Proof.
  intros Ht. unfold fds, table_id. cbn. case_decide as Hp.
  - by rewrite Hp; cbn; rewrite lookup_insert_eq.
  - destruct (process_tables t !! p) as [x|]; cbn; [|done].
    rewrite lookup_insert_ne by congruence. done.
Qed.

(** ** The operations on tables *)

Lemma post_eq {A B} (m : TM A) (k : A → TM B) a t t' Q :
  m t = Some (a, t') → post (k a) t' Q → post (m ≫= k) t Q.
Proof. intros H HQ. unfold post, mbind, TM_bind in *. by rewrite H. Qed.

Lemma allocate_table_id_eq t :
  (next_table_id t + 1 < 2 ^ 64)%Z →
  allocate_table_id t = Some (next_table_id t,
    {| process_tables := process_tables t; tables := tables t; sockets := sockets t;
       next_table_id := next_table_id t + 1; next_socket_id := next_socket_id t |}).
Proof.
  intros Hn. unfold allocate_table_id, mbind, TM_bind, tget, checked_add.
  by rewrite (proj2 (Z.ltb_lt _ _) Hn).
Qed.

Lemma allocate_socket_id_eq t :
  (next_socket_id t + 1 < 2 ^ 64)%Z →
  allocate_socket_id t = Some (next_socket_id t,
    {| process_tables := process_tables t; tables := tables t; sockets := sockets t;
       next_table_id := next_table_id t; next_socket_id := next_socket_id t + 1 |}).
Proof.
  intros Hn. unfold allocate_socket_id, mbind, TM_bind, tget, checked_add.
  by rewrite (proj2 (Z.ltb_lt _ _) Hn).
Qed.

Lemma ensure_process_post p t :
  tables_inv t → (next_table_id t + 1 < 2 ^ 64)%Z →
  post (ensure_process p) t (λ id t',
    tables_inv t' ∧ fd_refs t' = fd_refs t ∧ sockets t' = sockets t ∧
    next_socket_id t' = next_socket_id t ∧ (next_table_id t' ≤ next_table_id t + 1)%Z ∧
    (∀ q, fds t' q = fds t q) ∧ table_id t' p = Some id ∧
    (∀ q, q ≠ p → table_id t' q = table_id t q) ∧ is_Some (tables t' !! id)).
Proof.
  intros Hinv Hn. pose proof Hinv as [Hp Ho Hi Hnt]. unfold ensure_process.
  apply post_tget. unfold table_id at 1. destruct (process_tables t !! p) as [id|] eqn:E.
  - apply post_ret. split_and!; try done; [lia|by eapply Hp].
  - eapply post_eq; [by apply allocate_table_id_eq|]. apply post_modify, post_modify, post_ret.
    assert (Hfresh : tables t !! next_table_id t = None).
    { destruct (tables t !! _) as [y|] eqn:Ey; [|done]. apply Hi in Ey. lia. }
    assert (Hother : ∀ q x, process_tables t !! q = Some x → x ≠ next_table_id t ∧ q ≠ p).
    { intros q x Hq. split; [|congruence]. intros ->. destruct (Hp q _ Hq). congruence. }
    split_and!; [split; cbn| |done|done|cbn; lia|..].
    + intros q x [[-> <-]|[Hne Hq]]%lookup_insert_Some; [by rewrite lookup_insert_eq|].
      rewrite lookup_insert_ne by (symmetry; by eapply Hother). eauto.
    + intros x y [[<- <-]|[Hne Hy]]%lookup_insert_Some; [by exists p; rewrite lookup_insert_eq|].
      destruct (Ho x y Hy) as [q Hq]. exists q. rewrite lookup_insert_ne; [done|].
      intros <-. congruence.
    + intros x y [[<- <-]|[Hne Hy]]%lookup_insert_Some; [lia|]. apply Hi in Hy. lia.
    + lia.
    + rewrite (fd_refs_new _ _ FdTable_default) by done.
      change (list_mset [] ⊎ fd_refs t = fd_refs t). apply list_mset_nil.
    + intros q. unfold fds, table_id. cbn. destruct (decide (q = p)) as [->|Hne].
      * rewrite lookup_insert_eq, E. cbn. by rewrite lookup_insert_eq.
      * rewrite lookup_insert_ne by done.
        destruct (process_tables t !! q) as [x|] eqn:Eq; cbn; [|done].
        rewrite lookup_insert_ne; [done|]. symmetry. by eapply Hother.
    + apply lookup_insert_eq.
    + intros q Hq. unfold table_id. cbn. by rewrite lookup_insert_ne.
    + eexists. apply lookup_insert_eq.
Qed.

Lemma assign_fd_post t id fd sid tbl :
  tables_inv t → sockets_inv {[ sid ]} (fd_refs t) t → tables t !! id = Some tbl →
  is_Some (sockets t !! sid) → (Z.of_nat (size (fd_refs t)) + 1 < 2 ^ 64)%Z →
  post (assign_fd id fd sid) t (λ r t',
    tracker_inv t' ∧ live_routes t = live_routes t' ⊎ option_mset r ∧
    process_tables t' = process_tables t ∧ next_table_id t' = next_table_id t ∧
    tables t' = <[id := {| ft_sockets := <[fd := sid]> (ft_sockets tbl) |}]> (tables t) ∧
    (ft_sockets tbl !! fd = None → r = None)).
Proof.
  intros Ht Hs Htbl Hsid Hsz. unfold assign_fd.
  apply post_tget. rewrite Htbl. apply post_expect. cbv zeta. apply post_modify.
  set (tbl' := {| ft_sockets := _ |}). set (t1 := put_table id tbl' t).
  assert (Ht1 : tables_inv t1) by by eapply tables_inv_put.
  pose proof (fd_refs_put t id tbl tbl' Htbl) as Hrefs. fold t1 in Hrefs.
  pose proof (table_refs_insert tbl fd sid) as Hins. fold tbl' in Hins.
  assert (Hs1 : sockets_inv {[ sid ]} (fd_refs t) t1) by by apply (sockets_inv_ext _ _ t).
  destruct (ft_sockets tbl !! fd) as [old|] eqn:Eold; cbn [option_mset] in Hins.
  - destruct (decide (Some old = Some sid)) as [[= ->]|Hne].
    + apply post_ret. assert (Hsame : fd_refs t1 = fd_refs t) by multiset_solver.
      split; [split; [done|]|split; [|by rewrite ?Eold]].
      * rewrite Hsame. destruct Hsid as [s Hsid].
        eapply sockets_inv_mono; [|eapply (sockets_inv_in_use ∅ _ _ sid s)];
          [set_solver|by rewrite (left_id_L ∅ _)|done|].
        left. destruct (inv_socket _ _ _ Hs sid s Hsid) as [_ -> _ _].
        apply (fd_refs_lookup t id tbl fd sid Htbl) in Eold.
        unfold elem_of, gmultiset_elem_of in Eold. lia.
      * symmetry. apply mset_None.
    + eapply post_bind; [by eapply increment_post|]. cbv beta.
      intros _ t2 (H2 & Hst & Hl & _).
      replace ({[+ sid +]} ⊎ fd_refs t) with ({[+ old +]} ⊎ fd_refs t1) in H2 by multiset_solver.
      eapply post_weaken; [by eapply decrement_post|]. cbv beta.
      intros r t3 (H3 & Hst3 & Hl3). assert (Hst' := same_tables_trans _ _ _ Hst Hst3).
      split; [split|split; [|by rewrite Hst', ?Eold]].
      * by eapply tables_inv_same.
      * rewrite (same_tables_refs _ _ Hst'). eapply sockets_inv_mono; [|exact H3]. set_solver.
      * by rewrite <-Hl3, Hl.
  - destruct (decide (None = Some sid)); [done|].
    eapply post_bind; [by eapply increment_post|]. cbv beta.
    intros _ t2 (H2 & Hst & Hl & _). apply post_ret.
    split; [split|split; [|by rewrite Hst]].
    + by eapply tables_inv_same.
    + rewrite (same_tables_refs _ _ Hst).
      replace (fd_refs t1) with ({[+ sid +]} ⊎ fd_refs t) by multiset_solver.
      eapply sockets_inv_mono; [|exact H2]. set_solver.
    + rewrite Hl. symmetry. apply mset_None.
Qed.

(** Processes, next ids: what closing descriptors leaves alone. *)
Record same_frame (t t' : DnsSocketTracker) : Prop := {
  sf_processes : process_tables t' = process_tables t;
  sf_next_table : next_table_id t' = next_table_id t;
  sf_next_socket : next_socket_id t' = next_socket_id t;
}.

#[export] Instance same_frame_preorder : PreOrder same_frame.
Proof. split; [done|]. intros t1 t2 t3 [???] [???]. split; congruence. Qed.

Lemma same_tables_frame t t' : same_tables t t' → same_frame t t'.
Proof. by intros ->. Qed.

Lemma remove_fd_eq t id fd tbl :
  tables t !! id = Some tbl →
  remove_fd id fd t =
    Some (ft_sockets tbl !! fd, put_table id {| ft_sockets := delete fd (ft_sockets tbl) |} t).
Proof. intros Ht. unfold remove_fd, mbind, TM_bind, tget. by rewrite Ht. Qed.

(** Take an entry out of a table and drop its reference. *)
Lemma drop_fd_post t id tbl fd sid :
  tracker_inv t → tables t !! id = Some tbl → ft_sockets tbl !! fd = Some sid →
  post (decrement_descriptor_ref sid) (put_table id {| ft_sockets := delete fd (ft_sockets tbl) |} t)
    (λ r t', tracker_inv t' ∧ live_routes t = live_routes t' ⊎ option_mset r ∧ same_frame t t' ∧
       tables t' = <[id := {| ft_sockets := delete fd (ft_sockets tbl) |}]> (tables t)).
Proof.
  intros [Ht Hs] Htbl Hfd. set (tbl' := {| ft_sockets := _ |}). set (t1 := put_table id tbl' t).
  pose proof (fd_refs_put t id tbl tbl' Htbl) as Hrefs. fold t1 in Hrefs.
  pose proof (table_refs_delete tbl fd) as Hdel. fold tbl' in Hdel. rewrite Hfd in Hdel.
  cbn [option_mset] in Hdel.
  assert (Hs1 : sockets_inv ∅ ({[+ sid +]} ⊎ fd_refs t1) t1).
  { replace ({[+ sid +]} ⊎ fd_refs t1) with (fd_refs t) by multiset_solver.
    by apply (sockets_inv_ext _ _ t). }
  eapply post_weaken; [by eapply decrement_post|]. cbv beta. intros r t2 (H2 & Hst & Hl).
  split; [split|split; [exact Hl|split]].
  - eapply tables_inv_same; [done|]. by eapply tables_inv_put.
  - by rewrite (same_tables_refs _ _ Hst).
  - etransitivity; [|by eapply same_tables_frame]. done.
  - by rewrite Hst.
Qed.

Definition drop_fds (l : list Z) (tbl : FdTable) : FdTable :=
  {| ft_sockets := foldr delete (ft_sockets tbl) l |}.

Lemma foldr_delete_comm {A} (m : gmap Z A) l k :
  foldr delete (delete k m) l = delete k (foldr delete m l).
Proof. induction l as [|x l IH]; cbn; [done|]. by rewrite IH, delete_delete. Qed.

Lemma release_fds_post id l : ∀ t tbl,
  tracker_inv t → tables t !! id = Some tbl → NoDup l →
  Forall (λ fd, is_Some (ft_sockets tbl !! fd)) l →
  post (release_fds id l) t (λ rs t',
    tracker_inv t' ∧ live_routes t = live_routes t' ⊎ list_mset rs ∧ same_frame t t' ∧
    tables t' = <[id := drop_fds l tbl]> (tables t)).
Proof.
  induction l as [|fd l IH]; intros t tbl Hinv Ht Hnd Hl; cbn [release_fds].
  - apply post_ret. split_and!; [done|by rewrite mset_nil|done|].
    destruct tbl. unfold drop_fds. cbn. by rewrite insert_id.
  - apply NoDup_cons in Hnd as [Hfd Hnd]. apply Forall_cons_1 in Hl as [[sid Hsid] Hl].
    eapply post_eq; [by apply remove_fd_eq|]. rewrite Hsid. apply post_expect.
    eapply post_bind; [by eapply drop_fd_post|]. cbv beta.
    intros r t1 (H1 & Hl1 & Hf1 & Ht1). apply push_released_post.
    eapply post_weaken; [eapply (IH t1); [done|by rewrite Ht1, lookup_insert_eq|done|]|].
    + apply Forall_forall. intros x Hx. cbn. rewrite lookup_delete_ne by congruence.
      rewrite Forall_forall in Hl. by apply Hl.
    + cbv beta. intros rs t2 (H2 & Hl2 & Hf2 & Ht2). split_and!; [done| |by etransitivity|].
      * rewrite list_mset_released. multiset_solver.
      * rewrite Ht2, Ht1, insert_insert_eq. unfold drop_fds. cbn. by rewrite foldr_delete_comm.
Qed.

(** Does process [q] use the descriptor table of process [p]? *)
Definition shares_table (t : DnsSocketTracker) (p q : Z) : bool :=
  bool_decide (is_Some (table_id t p) ∧ table_id t p = table_id t q).

Lemma close_post t p fd :
  tracker_inv t →
  post (close p fd) t (λ r t',
    tracker_inv t' ∧ live_routes t = live_routes t' ⊎ option_mset r ∧ same_frame t t' ∧
    ∀ q, fds t' q = if shares_table t p q then delete fd (fds t q) else fds t q).
Proof.
  intros Hinv. unfold close. apply post_tget. unfold shares_table.
  destruct (table_id t p) as [id|] eqn:Ep.
  2:{ apply post_ret. split_and!; [done|by rewrite mset_None|done|]. intros q.
      case_bool_decide as Hq; [|done]. destruct Hq as [[? ?] _]. done. }
  destruct (inv_process _ (proj1 Hinv) p id Ep) as [tbl Htbl].
  eapply post_eq; [by apply remove_fd_eq|].
  assert (Hview : ∀ q, fds (put_table id {| ft_sockets := delete fd (ft_sockets tbl) |} t) q =
    if bool_decide (is_Some (Some id) ∧ Some id = table_id t q) then delete fd (fds t q) else fds t q).
  { intros q. rewrite (fds_put_table t id tbl) by done.
    case_decide as Hq; case_bool_decide as Hq'; [|naive_solver..|done].
    cbn. unfold fds. by rewrite Hq; cbn; rewrite Htbl. }
  destruct (ft_sockets tbl !! fd) as [sid|] eqn:Efd.
  - eapply post_weaken; [by eapply drop_fd_post|]. cbv beta. intros r t' (H' & Hl & Hf & Ht').
    split_and!; [done..|]. intros q. rewrite <-Hview. unfold fds, table_id.
    by rewrite (sf_processes _ _ Hf), Ht'.
  - apply post_ret.
    assert (Hid : put_table id {| ft_sockets := delete fd (ft_sockets tbl) |} t = t).
    { destruct t, tbl; unfold put_table, set_tables; cbn in *. f_equal.
      rewrite delete_id by done. by rewrite insert_id. }
    rewrite Hid in *. split_and!; [done|by rewrite mset_None|done|exact Hview].
Qed.

(** ** Copying, removing and reconciling descriptor tables *)

Lemma list_mset_length {A} `{Countable A} (l : list A) : length l = size (list_mset l).
Proof.
  induction l as [|a l IH]; [done|].
  rewrite list_mset_cons, gmultiset_size_disj_union, gmultiset_size_singleton. cbn. lia.
Qed.

Section ProcessOperations.
Context `{HashIterLaws}.

Lemma hash_values_refs tbl : list_mset (hash_iter (ft_sockets tbl)).*2 = table_refs tbl.
Proof.
  unfold table_refs. rewrite map_msum_list. unfold list_mset.
  rewrite (hash_iter_perm (ft_sockets tbl)). generalize (map_to_list (ft_sockets tbl)).*2.
  intros l. induction l as [|a l IH]; [done|]. rewrite list_to_set_disj_cons, IH. done.
Qed.

Lemma hash_values_elem tbl sid :
  sid ∈ (hash_iter (ft_sockets tbl)).*2 → ∃ fd, ft_sockets tbl !! fd = Some sid.
Proof. intros [[fd x] [-> Hx]]%list_elem_of_fmap. apply hash_iter_elem_of in Hx. eauto. Qed.

(** Give process [p] a copy of table [tbl] under the fresh id [nid]. *)
Lemma copy_table_post {B} t id nid tbl p (k : TM B) Q :
  tracker_inv t → tables t !! id = Some tbl →
  tables t !! nid = None → (1 ≤ nid < next_table_id t)%Z →
  (∀ x, table_id t p = Some x → ∃ q, q ≠ p ∧ table_id t q = Some x) →
  (2 * Z.of_nat (size (fd_refs t)) < 2 ^ 64)%Z →
  (∀ t', tracker_inv t' → live_routes t' = live_routes t →
     process_tables t' = <[p := nid]> (process_tables t) →
     tables t' = <[nid := tbl]> (tables t) → next_table_id t' = next_table_id t →
     post k t' Q) →
  post (increment_all (hash_iter (ft_sockets tbl)).*2 ;; tmodify (put_table nid tbl) ;;
        tmodify (λ t, set_processes (<[p := nid]> (process_tables t)) t) ;; k) t Q.
Proof.
  intros [Ht Hs] Htbl Hfresh Hnid Hown Hsz Hk.
  assert (Hle : size (table_refs tbl) ≤ size (fd_refs t)).
  { unfold fd_refs. rewrite (map_msum_delete _ _ id tbl), gmultiset_size_disj_union by done. lia. }
  eapply post_bind; [eapply increment_all_post; [exact Hs|..]|].
  - apply Forall_forall. intros sid Hsid. apply hash_values_elem in Hsid as [fd Hfd].
    eapply inv_known; [exact Hs|]. by eapply fd_refs_lookup.
  - rewrite list_mset_length, hash_values_refs. lia.
  - cbv beta. intros _ t1 (H1 & Hst & Hl). apply post_modify, post_modify.
    rewrite hash_values_refs in H1. apply Hk; [|exact Hl|by rewrite Hst..].
    split; [split|].
    + cbn. rewrite Hst. cbn. intros q x [[<- <-]|[Hne Hq]]%lookup_insert_Some.
      { by rewrite lookup_insert_eq. }
      destruct (inv_process _ Ht q x Hq) as [y Hy].
      rewrite lookup_insert_ne by congruence. eauto.
    + cbn. rewrite Hst. cbn. intros x y [[<- <-]|[Hne Hy]]%lookup_insert_Some.
      { exists p. by rewrite lookup_insert_eq. }
      destruct (inv_owned _ Ht x y Hy) as [q Hq].
      destruct (decide (q = p)) as [->|Hqp].
      * destruct (Hown x Hq) as (q' & Hq' & Hx). exists q'. by rewrite lookup_insert_ne.
      * exists q. by rewrite lookup_insert_ne.
    + cbn. rewrite Hst. cbn. intros x y [[<- <-]|[Hne Hy]]%lookup_insert_Some; [done|].
      by eapply inv_table_id.
    + cbn. rewrite Hst. cbn. apply Ht.
    + assert (Hr : fd_refs (set_processes (<[p:=nid]> (process_tables (put_table nid tbl t1)))
                   (put_table nid tbl t1)) = table_refs tbl ⊎ fd_refs t).
      { rewrite <-(same_tables_refs _ _ Hst). change (fd_refs (put_table nid tbl t1) = table_refs tbl ⊎ fd_refs t1).
        apply fd_refs_new. by rewrite Hst. }
      rewrite Hr. by apply (sockets_inv_ext _ _ t1).
Qed.

Lemma shared_spec t p id :
  existsb (λ '(other, x), negb (other =? p)%Z && (x =? id)%Z) (hash_iter (process_tables t)) = true
  ↔ ∃ q, q ≠ p ∧ table_id t q = Some id.
Proof.
  rewrite existsb_exists. split.
  - intros ([q x] & Hin & Hq). apply list_elem_of_In, hash_iter_elem_of in Hin.
    apply andb_true_iff in Hq as [Hq Hx]. apply negb_true_iff, Z.eqb_neq in Hq.
    apply Z.eqb_eq in Hx as ->. eauto.
  - intros (q & Hq & Hx). exists (q, id). rewrite <-list_elem_of_In, hash_iter_elem_of.
    split; [done|]. by rewrite Z.eqb_refl, (proj2 (Z.eqb_neq _ _) Hq).
Qed.

Lemma still_used_spec t id :
  existsb (λ other, (other =? id)%Z) (hash_iter (process_tables t)).*2 = true
  ↔ ∃ q, table_id t q = Some id.
Proof.
  rewrite existsb_exists. split.
  - intros (x & Hin & Hx). apply Z.eqb_eq in Hx as ->.
    apply list_elem_of_In, list_elem_of_fmap in Hin as [[q x] [-> Hq]].
    apply hash_iter_elem_of in Hq. eauto.
  - intros (q & Hq). exists id. split; [|apply Z.eqb_refl].
    apply list_elem_of_In, list_elem_of_fmap. exists (q, id). by rewrite hash_iter_elem_of.
Qed.

(** The tables of the processes other than [p] are those of before. *)
Lemma fds_unchanged t t' q :
  table_id t' q = table_id t q →
  (∀ id, table_id t q = Some id → tables t' !! id = tables t !! id) → fds t' q = fds t q.
Proof.
  intros Hq Ht. unfold fds. rewrite Hq. destruct (table_id t q) as [id|]; cbn; [|done].
  by rewrite Ht.
Qed.

Lemma remove_process_post t p :
  tracker_inv t →
  post (remove_process p) t (λ rs t',
    tracker_inv t' ∧ live_routes t = live_routes t' ⊎ list_mset rs ∧
    process_tables t' = delete p (process_tables t) ∧
    next_table_id t' = next_table_id t ∧ next_socket_id t' = next_socket_id t ∧
    size (fd_refs t') ≤ size (fd_refs t) ∧ ∀ q, q ≠ p → fds t' q = fds t q).
Proof.
  intros [Ht Hs]. unfold remove_process. apply post_tget, post_modify.
  set (t1 := set_processes (delete p (process_tables t)) t).
  assert (Hp1 : ∀ q, q ≠ p → table_id t1 q = table_id t q).
  { intros q Hq. unfold table_id. cbn. by rewrite lookup_delete_ne. }
  destruct (table_id t p) as [id|] eqn:Ep.
  - apply post_tget. destruct (existsb _ _) eqn:Eu.
    + apply still_used_spec in Eu as [q Hq]. apply post_ret.
      assert (Hqp : q ≠ p) by (intros ->; unfold table_id in Hq; cbn in Hq;
        by rewrite lookup_delete_eq in Hq).
      split_and!; [|by rewrite mset_nil|done..|intros q' Hq'; apply fds_unchanged; auto].
      split; [|by apply (sockets_inv_ext _ _ t)]. destruct Ht as [Hp Ho Hi Hn]. split; cbn; [|..|done].
      * intros x y [_ Hx]%lookup_delete_Some. eauto.
      * intros x y Hy. destruct (Ho x y Hy) as [q' Hq']. destruct (decide (q' = p)) as [->|Hne].
        -- exists q. assert (x = id) as -> by (unfold table_id in Ep; congruence). done.
        -- exists q'. by rewrite lookup_delete_ne.
      * done.
    + assert (Hnone : ∀ q, q ≠ p → table_id t q ≠ Some id).
      { intros q Hq Hx. rewrite <-Hp1 in Hx by done.
        assert (existsb (λ other, (other =? id)%Z) (hash_iter (process_tables t1)).*2 = true)
          by (apply still_used_spec; eauto). congruence. }
      destruct (inv_process _ Ht p id Ep) as [tbl Htbl].
      apply post_tget, post_modify. change (tables t1) with (tables t). rewrite Htbl.
      set (t2 := set_tables _ t1).
      assert (Hrefs : fd_refs t = table_refs tbl ⊎ fd_refs t2) by by apply map_msum_delete.
      eapply post_weaken; [eapply (release_sockets_post ∅ _ (fd_refs t2))|].
      * rewrite hash_values_refs, <-Hrefs. by apply (sockets_inv_ext _ _ t).
      * cbv beta. intros rs t3 (H3 & Hst & Hl).
        split_and!; [|exact Hl|by rewrite Hst..| |].
        -- split; [|by rewrite (same_tables_refs _ _ Hst)]. eapply tables_inv_same; [done|].
           destruct Ht as [Hp Ho Hi Hn]. split; cbn; [| | |done].
           ++ intros q x [Hq Hx]%lookup_delete_Some. rewrite lookup_delete_ne; [eauto|].
              intros <-. by eapply Hnone.
           ++ intros x y [Hx Hy]%lookup_delete_Some. destruct (Ho x y Hy) as [q Hq].
              exists q. rewrite lookup_delete_ne; [done|]. intros ->. unfold table_id in Ep. congruence.
           ++ intros x y [Hx Hy]%lookup_delete_Some. eauto.
        -- rewrite (same_tables_refs _ _ Hst), Hrefs, gmultiset_size_disj_union. lia.
        -- intros q Hq. rewrite (fds_same _ _ q Hst). apply fds_unchanged; [by apply Hp1|].
           intros x Hx. cbn. rewrite lookup_delete_ne; [done|]. intros <-. by eapply Hnone.
  - apply post_ret. assert (t1 = t) as ->.
    { destruct t. unfold t1, set_processes. cbn in *. by rewrite delete_id. }
    split_and!; [done|by rewrite mset_nil| |done..].
    unfold table_id in Ep. by rewrite delete_id.
Qed.

(** Room for the tables, sockets and references that one operation can add: the
    entries of all tables are in memory, and the ids count operations. *)
Definition room (t : DnsSocketTracker) : Prop :=
  (next_table_id t + 2 < 2 ^ 64 ∧ next_socket_id t + 1 < 2 ^ 64 ∧
   2 * Z.of_nat (size (fd_refs t)) + 1 < 2 ^ 64)%Z.

Lemma fresh_table_id t id : tables_inv t → (next_table_id t ≤ id)%Z → tables t !! id = None.
Proof.
  intros Ht Hn. destruct (tables t !! id) as [y|] eqn:Ey; [|done].
  apply (inv_table_id _ Ht) in Ey. lia.
Qed.

Lemma table_id_fresh t p id : tables_inv t → table_id t p = Some id → (id < next_table_id t)%Z.
Proof.
  intros Ht Hp. destruct (inv_process _ Ht p id Hp) as [y Hy].
  apply (inv_table_id _ Ht) in Hy. lia.
Qed.

(** Advancing the table counter keeps the invariant. *)
Lemma tracker_inv_bump t :
  tracker_inv t → (next_table_id t + 1 < 2 ^ 64)%Z →
  tracker_inv {| process_tables := process_tables t; tables := tables t; sockets := sockets t;
    next_table_id := next_table_id t + 1; next_socket_id := next_socket_id t |}.
Proof.
  intros [[Hp Ho Hi Hn] Hs] Hb. split; [|by apply (sockets_inv_ext _ _ t)].
  split; cbn; [done..| |lia]. intros id tbl Ht. apply Hi in Ht. lia.
Qed.

(** The views after process [p] received a copy of [tbl] under a fresh id. *)
Lemma fds_copied t t' p nid tbl q :
  tables_inv t → tables t !! nid = None →
  process_tables t' = <[p := nid]> (process_tables t) →
  tables t' = <[nid := tbl]> (tables t) →
  fds t' q = if decide (q = p) then ft_sockets tbl else fds t q.
Proof.
  intros Ht Hnid Hpt Htt. case_decide as Hq.
  - subst q. unfold fds, table_id. rewrite Hpt, lookup_insert_eq. cbn. by rewrite Htt, lookup_insert_eq.
  - apply fds_unchanged.
    + unfold table_id. by rewrite Hpt, lookup_insert_ne.
    + intros id Hid. rewrite Htt, lookup_insert_ne; [done|]. intros <-.
      destruct (inv_process _ Ht q nid Hid). congruence.
Qed.

Lemma unshare_post t p :
  tracker_inv t → room t →
  post (unshare_table_for_exec p) t (λ r t',
    tracker_inv t' ∧ live_routes t' = live_routes t ∧ (∀ q, fds t' q = fds t q) ∧
    match r with
    | Some id => table_id t' p = Some id ∧ ∀ q, q ≠ p → table_id t' q ≠ Some id
    | None => table_id t' p = None
    end).
Proof.
  intros Hinv (Hn & _ & Hsz). unfold unshare_table_for_exec. apply post_tget.
  destruct (table_id t p) as [cur|] eqn:Ep; [|by apply post_ret].
  apply post_tget. destruct (existsb _ _) eqn:Es.
  - apply shared_spec in Es as (q & Hq & Hx).
    destruct (inv_process _ (proj1 Hinv) p cur Ep) as [tbl Htbl].
    apply post_tget. rewrite Htbl. cbn [default from_option].
    eapply post_eq; [apply allocate_table_id_eq; lia|].
    eapply (copy_table_post _ cur); [apply tracker_inv_bump; [done|lia]|exact Htbl|..].
    + change (tables t !! next_table_id t = None). apply fresh_table_id; [apply Hinv|lia].
    + cbn. pose proof (inv_next_table _ (proj1 Hinv)). lia.
    + intros x Hx'. change (table_id t p = Some x) in Hx'. exists q. split; [done|].
      change (table_id t q = Some x). congruence.
    + change (2 * Z.of_nat (size (fd_refs t)) < 2 ^ 64)%Z. lia.
    + intros t' Hinv' Hl Hpt Htt _. apply post_ret. cbn in Hpt, Htt.
      assert (Hfr := fresh_table_id t _ (proj1 Hinv) (Z.le_refl _)).
      split_and!; [done|exact Hl| | |].
      * intros q'. rewrite (fds_copied t t' p _ tbl) by (done || apply Hinv).
        case_decide as Hd; [|done]. subst q'. unfold fds. rewrite Ep. cbn. by rewrite Htbl.
      * unfold table_id. by rewrite Hpt, lookup_insert_eq.
      * intros q' Hq' Hid. unfold table_id in Hid. rewrite Hpt, lookup_insert_ne in Hid by done.
        apply (table_id_fresh _ q') in Hid; [lia|apply Hinv].
  - apply post_ret. split_and!; [done..|]. intros q Hq Hx.
    assert (existsb (λ '(other, x), negb (other =? p)%Z && (x =? cur)%Z)
      (hash_iter (process_tables t)) = true) by (apply shared_spec; eauto). congruence.
Qed.

(** The descriptors a sweep selects, and the table it leaves. *)
Lemma fds_of_spec t id p tbl :
  tables t !! id = Some tbl →
  NoDup (fds_of t id p) ∧
  (∀ fd, fd ∈ fds_of t id p ↔ is_Some (ft_sockets tbl !! fd) ∧ p fd = true).
Proof.
  intros Htbl. unfold fds_of. rewrite Htbl.
  assert (Hnd : NoDup (hash_iter (ft_sockets tbl)).*1).
  { rewrite hash_iter_perm. apply NoDup_fst_map_to_list. }
  split.
  - revert Hnd. generalize (hash_iter (ft_sockets tbl)).*1. intros l.
    induction l as [|a l IH]; cbn; [done|]. rewrite NoDup_cons. intros [Ha Hl].
    destruct (p a); [|by apply IH]. apply NoDup_cons. split; [|by apply IH].
    rewrite list_elem_of_In, filter_In, <-list_elem_of_In. naive_solver.
  - intros fd. rewrite list_elem_of_In, filter_In, <-list_elem_of_In, list_elem_of_fmap.
    split.
    + intros [([k x] & -> & Hx) Hp]. apply hash_iter_elem_of in Hx. eauto.
    + intros [[x Hx] Hp]. split; [|done]. exists (fd, x). by rewrite hash_iter_elem_of.
Qed.

Lemma drop_fds_filter t id p tbl :
  tables t !! id = Some tbl →
  ft_sockets (drop_fds (fds_of t id p) tbl) = filter (λ kv, p kv.1 = false) (ft_sockets tbl).
Proof.
  intros Htbl. destruct (fds_of_spec t id p tbl Htbl) as [_ Hin]. cbn.
  apply map_eq. intros fd. rewrite map_lookup_filter.
  destruct (decide (fd ∈ fds_of t id p)) as [Hd|Hd].
  - rewrite lookup_foldr_delete by done. apply Hin in Hd as [_ Hp].
    destruct (ft_sockets tbl !! fd) as [x|]; cbn; [|done].
    case_guard as Hg; [cbn in Hg; congruence|done].
  - rewrite lookup_foldr_delete_not_elem_of by done.
    destruct (ft_sockets tbl !! fd) as [x|] eqn:Ex; cbn; [|done].
    case_guard as Hg; [done|]. exfalso. apply Hd, Hin. split; [eauto|].
    cbn in Hg. by destruct (p fd).
Qed.

(** Sweep the table of a process. *)
Lemma sweep_post t id p keep :
  tracker_inv t → table_id t p = Some id →
  post (to_remove ← tget (λ t, fds_of t id keep); release_fds id to_remove) t (λ rs t',
    tracker_inv t' ∧ live_routes t = live_routes t' ⊎ list_mset rs ∧ same_frame t t' ∧
    ∀ q, fds t' q = if shares_table t p q then filter (λ kv, keep kv.1 = false) (fds t q)
                    else fds t q).
Proof.
  intros Hinv Hp. destruct (inv_process _ (proj1 Hinv) p id Hp) as [tbl Htbl].
  apply post_tget. destruct (fds_of_spec t id keep tbl Htbl) as [Hnd Hin].
  eapply post_weaken; [eapply release_fds_post; [done..|]|].
  - apply Forall_forall. intros fd Hfd. by apply Hin in Hfd as [? _].
  - cbv beta. intros rs t' (H' & Hl & Hf & Ht'). split_and!; [done..|]. intros q.
    unfold shares_table, fds, table_id in *. rewrite (sf_processes _ _ Hf), Ht', Hp.
    case_bool_decide as Hq.
    + destruct Hq as [_ Hq]. rewrite <-Hq. cbn. rewrite lookup_insert_eq, Htbl.
      by apply drop_fds_filter.
    + destruct (process_tables t !! q) as [x|]; cbn; [|done].
      rewrite lookup_insert_ne; [done|]. intros <-. by apply Hq.
Qed.

End ProcessOperations.

(** ** Updates of one socket *)

(** A change of a socket that keeps the descriptor count and the socket in use. *)
Record socket_step (s s' : SocketState) : Prop := {
  step_refs : descriptor_refs s' = descriptor_refs s;
  step_ops : (0 ≤ operation_refs s < 2 ^ 64 → 0 ≤ operation_refs s' < 2 ^ 64)%Z;
  step_in_use : in_use s → in_use s';
  step_queries : queries_ok s → queries_ok s';
}.

Lemma put_socket_inv t sid s s' :
  tracker_inv t → sockets t !! sid = Some s → socket_step s s' → tracker_inv (put_socket sid s' t).
Proof.
  intros [Ht Hs] Hsid [Hr Ho Hu Hq]. split; [by eapply tables_inv_same; [|exact Ht]|].
  change (fd_refs (put_socket sid s' t)) with (fd_refs t).
  destruct (inv_socket _ _ _ Hs sid s Hsid) as [H1 H2 H3 H4].
  eapply sockets_inv_mono; [|eapply (sockets_inv_in_use ∅ _ _ sid s');
    [|apply lookup_insert_eq|apply Hu; by eapply (inv_used _ _ _ Hs)]]; [set_solver|].
  apply (sockets_inv_put _ (fd_refs t)); [done|apply Hs|done|].
  split; [done|congruence|auto..].
Qed.

Lemma update_socket_post {A} (f : SocketState → option A * SocketState) sid t :
  tracker_inv t → (∀ s, sockets t !! sid = Some s → socket_step s (f s).2) →
  post (update_socket sid f) t (λ a t', tracker_inv t' ∧
    match sockets t !! sid with
    | Some s => a = (f s).1 ∧ t' = put_socket sid (f s).2 t
    | None => a = None ∧ t' = t
    end).
Proof.
  intros Hinv Hf. unfold update_socket. apply post_tget.
  destruct (sockets t !! sid) as [s|] eqn:Es; [|by apply post_ret].
  specialize (Hf s eq_refl). destruct (f s) as [a s'] eqn:Ef. cbn in Hf.
  apply post_modify, post_ret. split; [by eapply put_socket_inv|done].
Qed.

Lemma replace_route_step s r : socket_step s (replace_route r s).2.
Proof. unfold replace_route. case_decide; cbn; split; cbn; auto. done. Qed.

Lemma socket_step_trans s1 s2 s3 : socket_step s1 s2 → socket_step s2 s3 → socket_step s1 s3.
Proof. intros [????] [????]. split; [congruence|auto..]. Qed.

Lemma with_destination_step s d : socket_step s (with_destination d s).
Proof. by split. Qed.

(** A replaced route is returned, or is the one installed. *)
Lemma replace_route_ledger s r :
  let '(released, s') := replace_route r s in
  (if decide (route_id (dns_route s) = route_id r) then ∅ else option_mset (route_id r))
    ⊎ socket_route s = socket_route s' ⊎ option_mset released.
Proof.
  unfold replace_route, socket_route. case_decide as Hd.
  - cbn [with_route dns_route]. rewrite Hd, mset_None. multiset_solver.
  - done.
Qed.

(** The socket is forgotten when both counts are zero. *)
Lemma drop_hold_post t sid s s' :
  tracker_inv t → sockets t !! sid = Some s →
  descriptor_refs s' = descriptor_refs s → (0 ≤ operation_refs s' < 2 ^ 64)%Z →
  outstanding_queries s' = outstanding_queries s → dns_route s' = dns_route s →
  post (tmodify (put_socket sid s') ;;
        if (operation_refs s' =? 0)%Z && (descriptor_refs s' =? 0)%Z
        then remove_socket sid else mret None) t (λ r t',
    tracker_inv t' ∧ same_tables t t' ∧ live_routes t = live_routes t' ⊎ option_mset r).
Proof.
  intros [Ht Hs] Hsid Hr Ho Hq Hroute. apply post_modify.
  destruct (inv_socket _ _ _ Hs sid s Hsid) as [H1 H2 H3 H4].
  assert (Hput : sockets_inv (∅ ∪ {[ sid ]}) (fd_refs t) (put_socket sid s' t)).
  { apply (sockets_inv_put _ (fd_refs t)); [done|apply Hs|done|].
    split; [done|congruence|done|]. unfold queries_ok. by rewrite Hq. }
  assert (Hlive : live_routes (put_socket sid s' t) = live_routes t).
  { pose proof (live_routes_put t sid s s' Hsid) as Hl. unfold socket_route in Hl.
    rewrite Hroute in Hl. multiset_solver. }
  destruct (Z.eqb_spec (operation_refs s') 0), (Z.eqb_spec (descriptor_refs s') 0); cbn [andb].
  1: { rewrite <-Hlive. eapply post_weaken;
         [eapply remove_socket_post; [exact Hput|apply lookup_insert_eq|lia]|].
       cbv beta. intros r t' (H' & Hst & Hl'). split; [|split; [|done]].
       - split; [by eapply tables_inv_same; [exact Hst|]; eapply tables_inv_same; [|exact Ht]|].
         by rewrite (same_tables_refs _ _ Hst).
       - by eapply same_tables_trans; [|exact Hst]. }
  all: apply post_ret; split; [split; [by eapply tables_inv_same; [|exact Ht]|]
    |by split; [|rewrite mset_None]];
    (eapply sockets_inv_mono; [|eapply (sockets_inv_in_use ∅ _ _ sid s');
      [exact Hput|apply lookup_insert_eq|unfold in_use; lia]]; set_solver).
Qed.

(** ** Queries *)

Lemma rposition_snoc {A} (p : A → bool) l a : p a = true → rposition p (l ++ [a]) = Some (length l).
Proof. intros Ha. induction l as [|x l IH]; cbn; [by rewrite Ha|by rewrite IH]. Qed.

Lemma set_entries_step id l s :
  (queries_ok s → Forall (λ q, q_id q = id) l) → socket_step s (set_entries id l s).
Proof.
  intros Hl. split; [done..|]. intros Hq x lx. unfold set_entries. cbn.
  case_decide as Hd.
  - intros [_ Hx]%lookup_delete_Some. by apply Hq.
  - intros [[<- <-]|[_ Hx]]%lookup_insert_Some; [auto|by apply Hq].
Qed.

Lemma remember_query_step q s : socket_step s (remember_query q s).
Proof.
  unfold remember_query. destruct (is_inline _); [|by split].
  split; [done..|]. intros Hq x lx. cbn. intros [[<- <-]|[_ Hx]]%lookup_insert_Some; [|by apply Hq].
  split; [by destruct (default _ _)|]. apply Forall_app. split; [|by apply Forall_cons_2; [|constructor]].
  destruct (outstanding_queries s !! q_id q) as [l|] eqn:El; cbn; [|constructor].
  by apply Hq in El as [_ ?].
Qed.

Lemma forget_query_step q s : socket_step s (forget_query q s).
Proof.
  unfold forget_query. destruct (outstanding_queries s !! q_id q) as [l|] eqn:El; [|by split].
  apply set_entries_step. intros Hq. apply Hq in El as [_ Hl].
  destruct (rposition _ l) as [i|]; [|done]. by apply Forall_delete.
Qed.

Lemma take_query_step id domain qtype s :
  socket_step s (take_matching_query_from_state id domain qtype s).2.
Proof.
  unfold take_matching_query_from_state. destruct (is_inline _); [|by split].
  destruct (outstanding_queries s !! id) as [l|] eqn:El; cbn; [|by split].
  destruct (position _ l) as [i|]; cbn; [|by split].
  destruct (l !! i) as [q|]; cbn; [|by split].
  apply set_entries_step. intros Hq. apply Hq in El as [_ Hl]. by apply Forall_delete.
Qed.

(** ** New descriptors *)

Lemma sockets_inv_new t ty :
  sockets_inv ∅ (fd_refs t) t → (next_socket_id t + 1 < 2 ^ 64)%Z →
  let t' := {| process_tables := process_tables t; tables := tables t;
               sockets := <[next_socket_id t := SocketState_new ty]> (sockets t);
               next_table_id := next_table_id t; next_socket_id := next_socket_id t + 1 |} in
  sockets_inv {[ next_socket_id t ]} (fd_refs t) t' ∧ live_routes t' = live_routes t.
Proof.
  intros [Hsz Hk Hs Hu Hn] Hb.
  assert (Hfresh : sockets t !! next_socket_id t = None).
  { destruct (sockets t !! _) as [s|] eqn:Es; [|done]. destruct (Hs _ _ Es). lia. }
  cbv zeta. split; [split; cbn|].
  - done.
  - intros x Hx. destruct (Hk x Hx) as [s Hx'].
    exists s. by rewrite lookup_insert_ne by congruence.
  - intros x s [[<- <-]|[Hne Hx]]%lookup_insert_Some.
    + split; cbn; [lia| |lia|done].
      destruct (decide (next_socket_id t ∈ fd_refs t)) as [Hin|Hin].
      { destruct (Hk _ Hin). congruence. }
      unfold elem_of, gmultiset_elem_of in Hin. lia.
    + destruct (Hs x s Hx). split; [lia|done..].
  - intros x s [[<- <-]|[Hne Hx]]%lookup_insert_Some HX; [set_solver|]. apply (Hu x s Hx). set_solver.
  - lia.
  - unfold live_routes. cbn. rewrite map_msum_insert by done. apply list_mset_nil.
Qed.

Lemma observe_socket_post t p fd ty :
  tracker_inv t → room t →
  post (observe_socket p fd ty) t (λ r t',
    tracker_inv t' ∧ live_routes t = live_routes t' ⊎ option_mset r ∧
    (socket_id t p fd = None → r = None) ∧ socket_id t' p fd = Some (next_socket_id t)).
Proof.
  intros [Ht Hs] (Hn & Hns & Hsz). unfold observe_socket.
  eapply post_bind; [apply ensure_process_post; [done|lia]|]. cbv beta.
  intros id t1 (Ht1 & Hr1 & Hs1 & Hns1 & _ & Hv & Hid & _ & [tbl Htbl]).
  eapply post_eq; [apply allocate_socket_id_eq; lia|]. apply post_modify.
  destruct (sockets_inv_new t1 ty) as [Hnew Hlive]; [|lia|].
  { rewrite Hr1. by apply (sockets_inv_ext _ _ t). }
  cbn [put_socket set_sockets process_tables tables sockets next_table_id next_socket_id].
  set (t2 := Build_DnsSocketTracker _ _ _ _ _) in *.
  eapply post_weaken; [eapply (assign_fd_post t2 id fd _ tbl)|].
  - destruct Ht1. by split.
  - exact Hnew.
  - exact Htbl.
  - eexists. apply lookup_insert_eq.
  - change (fd_refs t2) with (fd_refs t1). rewrite Hr1. lia.
  - cbv beta. intros r t' (H' & Hl & Hpt & _ & Htt & Hnone). split_and!; [done| | |].
    + rewrite <-Hl, Hlive. unfold live_routes. by rewrite Hs1.
    + intros Hsid. apply Hnone. rewrite <-fds_lookup, <-Hv in Hsid. unfold fds in Hsid.
      rewrite Hid in Hsid. cbn in Hsid. by rewrite Htbl in Hsid.
    + unfold socket_id, table_id in *. rewrite Hpt, Htt. cbn [t2 process_tables]. rewrite Hid.
      cbn [mbind option_bind]. rewrite lookup_insert_eq. cbn.
      by rewrite lookup_insert_eq, Hns1.
Qed.

Lemma socket_known t p fd sid :
  tracker_inv t → socket_id t p fd = Some sid → is_Some (sockets t !! sid).
Proof.
  intros [Ht Hs] Hsid. eapply inv_known; [exact Hs|]. unfold socket_id in Hsid.
  destruct (table_id t p) as [id|]; cbn in Hsid; [|done].
  destruct (tables t !! id) as [tbl|] eqn:Etbl; cbn in Hsid; [|done].
  by eapply fd_refs_lookup.
Qed.

(** The route dropped by [discover_dns] is always [None]. *)
Lemma discover_dns_post t p fd d :
  tracker_inv t → room t →
  post (discover_dns p fd d) t (λ _ t', tracker_inv t' ∧ live_routes t' = live_routes t).
Proof.
  intros Hinv Hroom. unfold discover_dns. apply post_tget.
  eapply (post_bind _ _ _ (λ _ t', tracker_inv t' ∧ live_routes t' = live_routes t)).
  - unfold socket. destruct (socket_id t p fd) as [sid|] eqn:Esid; cbn.
    + destruct (socket_known t p fd sid Hinv Esid) as [s ->]. by apply post_ret.
    + eapply post_bind; [by apply observe_socket_post|]. cbv beta.
      intros r t' (H' & Hl & Hr & _). apply post_ret. split; [done|].
      by rewrite Hl, Hr, mset_None.
  - cbv beta. intros _ t1 (H1 & Hl1). apply post_tget, post_tget. unfold socket.
    destruct (socket_id t1 p fd) as [sid|]; cbn [mbind option_bind]; [|by apply post_ret].
    destruct (sockets t1 !! sid) as [s|] eqn:Es; [|by apply post_ret].
    case_decide; [|by apply post_ret].
    destruct (route_is_connected_proxy (dns_route s)) eqn:Er.
    + by apply post_eq with (a := tt) (t' := t1).
    + apply post_modify, post_ret. set (s' := with_route _ s).
      split; [by eapply put_socket_inv; [..|split]|]. rewrite <-Hl1.
      pose proof (live_routes_put t1 sid s s' Es) as Hl. unfold socket_route in Hl.
      destruct (dns_route s); [..|done]; cbn [s' with_route dns_route route_id option_mset] in Hl;
        multiset_solver.
Qed.

Lemma duplicate_socket_post t p sid fd :
  tracker_inv t → room t →
  post (duplicate_socket p sid fd) t (λ r t',
    tracker_inv t' ∧ live_routes t = live_routes t' ⊎ option_mset r).
Proof.
  intros Hinv (Hn & Hns & Hsz). unfold duplicate_socket. apply post_tget.
  destruct (sockets t !! sid) as [s|] eqn:Es.
  - destruct Hinv as [Ht Hs]. eapply post_bind; [apply ensure_process_post; [done|lia]|]. cbv beta.
    intros id t1 (Ht1 & Hr1 & Hs1 & Hns1 & _ & _ & _ & _ & [tbl Htbl]).
    eapply post_weaken; [eapply (assign_fd_post t1 id fd sid tbl)|].
    + done.
    + rewrite Hr1. eapply sockets_inv_mono; [|by apply (sockets_inv_ext _ _ t)]. set_solver.
    + done.
    + rewrite Hs1. eauto.
    + rewrite Hr1. lia.
    + cbv beta. intros r t' (H' & Hl & _). split; [done|].
      rewrite <-Hl. unfold live_routes. by rewrite Hs1.
  - eapply post_weaken; [by apply close_post|]. cbv beta. intros r t' (H' & Hl & _). done.
Qed.

(** ** Holds *)

Lemma hold_with_post t p fd f :
  tracker_inv t → (∀ s s', f s = Some s' → socket_step s s' ∧ dns_route s' = dns_route s) →
  post (hold_with p fd f) t (λ _ t', tracker_inv t' ∧ live_routes t' = live_routes t).
Proof.
  intros Hinv Hf. unfold hold_with. apply post_tget.
  destruct (socket_id t p fd) as [sid|]; [|by apply post_ret].
  eapply post_weaken; [apply update_socket_post; [done|]|].
  - intros s Hs. specialize (Hf s). destruct (f s) as [s'|]; [by apply Hf|by split].
  - cbv beta. intros r t' [H' Hr]. split; [done|].
    destruct (sockets t !! sid) as [s|] eqn:Es; destruct Hr as [_ ->]; [|done].
    specialize (Hf s). destruct (f s) as [s'|]; cbn [snd].
    + destruct (Hf s' eq_refl) as [_ Hroute].
      pose proof (live_routes_put t sid s s' Es) as Hl. unfold socket_route in Hl.
      rewrite Hroute in Hl. multiset_solver.
    + pose proof (live_routes_put t sid s s Es). multiset_solver.
Qed.

Lemma with_ops_step s n b :
  (operation_refs s ≤ n < 2 ^ 64)%Z → (0 ≤ operation_refs s → 0 ≤ n)%Z →
  socket_step s (with_ops n b s) ∧ dns_route (with_ops n b s) = dns_route s.
Proof. intros Hn Hn'. split; [split|]; cbn; try done; [lia|unfold in_use; cbn; lia]. Qed.

Lemma hold_step s busy n :
  checked_add (operation_refs s) 1 = Some n →
  socket_step s (with_ops n busy s) ∧ dns_route (with_ops n busy s) = dns_route s.
Proof. intros [-> Hn]%checked_add_Some. apply with_ops_step; lia. Qed.

Section Steps.
Context `{HashIterLaws}.

(** ** Every operation as a step

    An operation and the routes it hands back to the caller. *)
Inductive TrackerOp :=
  | OpObserve (tgid fd : Z) (ty : SocketType)
  | OpConnect (sid : SocketId) (destination : SocketAddr)
  | OpDisconnect (sid : SocketId)
  | OpSetProxy (sid : SocketId) (route : DnsRouteId) (resolver endpoint : SocketAddr)
  | OpDiscover (tgid fd : Z) (destination : SocketAddr)
  | OpRemember (sid : SocketId) (q : QueryMetadata)
  | OpForget (sid : SocketId) (q : QueryMetadata)
  | OpTake (sid : SocketId) (id : Z) (domain : string) (qtype : Z)
  | OpDuplicate (tgid : Z) (sid : SocketId) (new_fd : Z)
  | OpClose (tgid fd : Z)
  | OpCloseRange (tgid first last : Z)
  | OpRetain (tgid : Z) (live_fds : gset Z)
  | OpInherit (parent_tgid child_tgid : Z) (shared : bool)
  | OpRemoveProcess (tgid : Z)
  | OpPin (tgid fd : Z)
  | OpUnpin (sid : SocketId)
  | OpHold (tgid fd : Z)
  | OpHoldIdentity (tgid fd : Z)
  | OpReleaseHold (sid : SocketId)
  | OpClear.

Definition returns {A} (f : A → list DnsRouteId) (m : TM A) : TM (list DnsRouteId) :=
  a ← m; mret (f a).

Definition apply_op (op : TrackerOp) : TM (list DnsRouteId) :=
  match op with
  | OpObserve p fd ty => returns option_list (observe_socket p fd ty)
  | OpConnect sid d => returns option_list (connect_socket sid d)
  | OpDisconnect sid => returns option_list (disconnect_socket sid)
  | OpSetProxy sid route resolver endpoint =>
      returns (λ o, option_list (o ≫= released_route))
        (set_connected_proxy_for_socket sid route resolver endpoint)
  | OpDiscover p fd d => returns (λ _, []) (discover_dns p fd d)
  | OpRemember sid q => returns (λ _, []) (remember_query_for_socket sid q)
  | OpForget sid q => returns (λ _, []) (forget_query_for_socket sid q)
  | OpTake sid id domain qtype =>
      returns (λ _, []) (take_matching_query_for_socket sid id domain qtype)
  | OpDuplicate p sid fd => returns option_list (duplicate_socket p sid fd)
  | OpClose p fd => returns option_list (close p fd)
  | OpCloseRange p a b => close_range p a b
  | OpRetain p live => retain_fds p live
  | OpInherit parent child shared => inherit_process parent child shared
  | OpRemoveProcess p => remove_process p
  | OpPin p fd => returns (λ _, []) (pin_socket p fd)
  | OpUnpin sid => returns option_list (unpin_socket sid)
  | OpHold p fd => returns (λ _, []) (hold_socket p fd)
  | OpHoldIdentity p fd => returns (λ _, []) (hold_socket_identity p fd)
  | OpReleaseHold sid => returns option_list (release_socket_hold sid)
  | OpClear => clear
  end.

(** The proxy route an operation installs: none if the socket is unknown, is no
    datagram socket, or has this very route already. *)
Definition installs (op : TrackerOp) (t : DnsSocketTracker) : gmultiset DnsRouteId :=
  match op with
  | OpSetProxy sid route _ _ =>
      match sockets t !! sid with
      | Some s =>
          if decide (socket_type s = Datagram ∧ route_id (dns_route s) ≠ Some route)
          then {[+ route +]} else ∅
      | None => ∅
      end
  | _ => ∅
  end.

(** The specification of a step: the invariant is kept, and every live or newly
    installed route is afterwards either live or handed back. *)
Definition step_spec (op : TrackerOp) (t : DnsSocketTracker) (m : TM (list DnsRouteId)) : Prop :=
  post m t (λ rs t', tracker_inv t' ∧
    installs op t ⊎ live_routes t = live_routes t' ⊎ list_mset rs).

Lemma returns_post {A} (f : A → list DnsRouteId) (m : TM A) t Q :
  post m t (λ a t', Q (f a) t') → post (returns f m) t Q.
Proof. intros Hm. unfold returns. eapply post_bind; [exact Hm|]. done. Qed.

Lemma list_mset_option {A} `{Countable A} (o : option A) : list_mset (option_list o) = option_mset o.
Proof.
  destruct o; [|done]. change (list_mset [a] = {[+ a +]}).
  by rewrite list_mset_cons, mset_nil.
Qed.

Lemma empty_mset {A} `{Countable A} (R : gmultiset A) : ∅ ⊎ R = R.
Proof. multiset_solver. Qed.

(** A replacement of the route of one socket. *)
Lemma route_update_post {A} (f : SocketState → option A * SocketState) (g : option A → list DnsRouteId)
    sid t (inst : SocketState → gmultiset DnsRouteId) :
  tracker_inv t →
  (∀ s, sockets t !! sid = Some s → socket_step s (f s).2 ∧
     inst s ⊎ socket_route s = socket_route (f s).2 ⊎ list_mset (g (f s).1)) →
  g None = [] →
  post (update_socket sid f) t (λ a t', tracker_inv t' ∧
    match sockets t !! sid with Some s => inst s | None => ∅ end ⊎ live_routes t
    = live_routes t' ⊎ list_mset (g a)).
Proof.
  intros Hinv Hf Hg. eapply post_weaken; [apply update_socket_post; [done|naive_solver]|].
  cbv beta. intros a t' [H' Ha]. split; [done|].
  destruct (sockets t !! sid) as [s|] eqn:Es; destruct Ha as [-> ->].
  - destruct (Hf s eq_refl) as [_ Hl]. pose proof (live_routes_put t sid s (f s).2 Es).
    multiset_solver.
  - by rewrite Hg, mset_nil, empty_mset.
Qed.

Lemma replace_step r s d inst :
  inst = (if decide (route_id (dns_route s) = route_id r) then ∅ else option_mset (route_id r)) →
  let '(a, s') := replace_route r (with_destination d s) in
  socket_step s s' ∧ inst ⊎ socket_route s = socket_route s' ⊎ option_mset a.
Proof.
  intros ->. pose proof (replace_route_ledger (with_destination d s) r) as Hl.
  pose proof (replace_route_step (with_destination d s) r) as Hst.
  destruct (replace_route r (with_destination d s)) as [a s']. split.
  - eapply socket_step_trans; [apply with_destination_step|exact Hst].
  - exact Hl.
Qed.

Lemma no_install (r : DnsRoute) (old : option DnsRouteId) :
  route_id r = None → ∅ = (if decide (old = route_id r) then ∅ else option_mset (route_id r)).
Proof. intros ->. by case_decide. Qed.

Lemma direct_route_None s d : route_id (direct_route s d) = None.
Proof. unfold direct_route. by case_decide. Qed.

Lemma connect_step sid d t : tracker_inv t → step_spec (OpConnect sid d) t (apply_op (OpConnect sid d)).
Proof.
  intros Hinv. apply returns_post.
  eapply post_weaken; [apply (route_update_post _ option_list sid t (λ _, ∅)); [done| |done]|].
  - intros s _. pose proof (replace_step (direct_route (with_destination (Some d) s) d) s (Some d) ∅) as Hr.
    cbv zeta. destruct (replace_route _ _) as [a s']. cbn [fst snd]. rewrite list_mset_option. apply Hr.
    by apply no_install, direct_route_None.
  - cbv beta. intros a t' [H' Hl]. split; [done|]. by destruct (sockets t !! sid).
Qed.

Lemma disconnect_step sid t :
  tracker_inv t → step_spec (OpDisconnect sid) t (apply_op (OpDisconnect sid)).
Proof.
  intros Hinv. apply returns_post.
  eapply post_weaken; [apply (route_update_post _ option_list sid t (λ _, ∅)); [done| |done]|].
  - intros s _. pose proof (replace_step RouteNone s None ∅) as Hr.
    destruct (replace_route _ _) as [a s']. cbn [fst snd]. rewrite list_mset_option. apply Hr.
    by apply no_install.
  - cbv beta. intros a t' [H' Hl]. split; [done|]. by destruct (sockets t !! sid).
Qed.

Lemma set_proxy_step sid route resolver endpoint t :
  tracker_inv t → step_spec (OpSetProxy sid route resolver endpoint) t
    (apply_op (OpSetProxy sid route resolver endpoint)).
Proof.
  intros Hinv. apply returns_post. unfold set_connected_proxy_for_socket, installs.
  apply (route_update_post _ (λ o, option_list (o ≫= released_route)) sid t
    (λ s, if decide (socket_type s = Datagram ∧ route_id (dns_route s) ≠ Some route)
          then {[+ route +]} else ∅)); [done| |done].
  intros s _. destruct (decide (socket_type s = Datagram)) as [Ht|Ht]; cbn [fst snd].
  - pose proof (replace_step (ConnectedProxy route resolver endpoint) s (Some resolver) _ eq_refl) as Hr.
    destruct (replace_route _ _) as [a s']. cbn [fst snd mbind option_bind released_route].
    rewrite list_mset_option. destruct Hr as [Hst Hl]. split; [exact Hst|]. rewrite <-Hl. f_equal.
    cbn [route_id]. repeat case_decide; naive_solver.
  - split; [by split|]. rewrite decide_False by naive_solver.
    transitivity (socket_route s); [apply empty_mset|symmetry; apply mset_nil].
Qed.

(** Operations that keep every route where it is. *)
Lemma quiet_step {A} op (m : TM A) t :
  (∀ t, installs op t = ∅) →
  post m t (λ _ t', tracker_inv t' ∧ live_routes t' = live_routes t) →
  step_spec op t (returns (λ _, []) m).
Proof.
  intros Hi Hm. apply returns_post. eapply post_weaken; [exact Hm|]. cbv beta.
  intros _ t' [H' Hl]. split; [done|]. by rewrite Hi, Hl, mset_nil, empty_mset.
Qed.

(** Operations that hand back at most one route. *)
Lemma release_step op (m : TM (option DnsRouteId)) t :
  (∀ t, installs op t = ∅) →
  post m t (λ r t', tracker_inv t' ∧ live_routes t = live_routes t' ⊎ option_mset r) →
  step_spec op t (returns option_list m).
Proof.
  intros Hi Hm. apply returns_post. eapply post_weaken; [exact Hm|]. cbv beta.
  intros r t' [H' Hl]. split; [done|]. by rewrite Hi, list_mset_option, empty_mset.
Qed.

(** Operations that hand back a list of routes. *)
Lemma sweep_step op (m : TM (list DnsRouteId)) t :
  (∀ t, installs op t = ∅) →
  post m t (λ rs t', tracker_inv t' ∧ live_routes t = live_routes t' ⊎ list_mset rs) →
  step_spec op t m.
Proof.
  intros Hi Hm. eapply post_weaken; [exact Hm|]. cbv beta.
  intros rs t' [H' Hl]. split; [done|]. by rewrite Hi, empty_mset.
Qed.

(** A query update touches no count and no route. *)
Lemma query_update_post {A} (f : SocketState → option A * SocketState) sid t :
  tracker_inv t →
  (∀ s, socket_step s (f s).2 ∧ dns_route (f s).2 = dns_route s) →
  post (update_socket sid f) t (λ _ t', tracker_inv t' ∧ live_routes t' = live_routes t).
Proof.
  intros Hinv Hf. eapply post_weaken; [apply (route_update_post f (λ _, []) sid t (λ _, ∅));
    [done| |done]|].
  - intros s _. destruct (Hf s) as [Hst Hr]. split; [done|].
    unfold socket_route. by rewrite Hr, mset_nil, empty_mset.
  - cbv beta. intros a t' [H' Hl]. split; [done|]. rewrite mset_nil in Hl.
    destruct (sockets t !! sid); by rewrite empty_mset in Hl.
Qed.

Lemma remember_query_route q s : dns_route (remember_query q s) = dns_route s.
Proof. unfold remember_query. by destruct (is_inline _). Qed.

Lemma forget_query_route q s : dns_route (forget_query q s) = dns_route s.
Proof. unfold forget_query. by destruct (outstanding_queries s !! q_id q). Qed.

Lemma take_query_route id domain qtype s :
  dns_route (take_matching_query_from_state id domain qtype s).2 = dns_route s.
Proof.
  unfold take_matching_query_from_state. destruct (is_inline _); [|done].
  by destruct (_ ≫= _) as [[[entries i] q]|].
Qed.

Lemma unpin_post t sid :
  tracker_inv t →
  post (unpin_socket sid) t (λ r t', tracker_inv t' ∧ live_routes t = live_routes t' ⊎ option_mset r).
Proof.
  intros Hinv. unfold unpin_socket. apply post_tget.
  destruct (sockets t !! sid) as [s|] eqn:Es; [|by apply post_ret; rewrite mset_None].
  destruct (Z.eqb_spec (operation_refs s) 0); cbn [orb]; [by apply post_ret; rewrite mset_None|].
  destruct (connect_in_progress s); cbn [negb]; [|by apply post_ret; rewrite mset_None].
  destruct (inv_socket _ _ _ (proj2 Hinv) sid s Es) as [_ _ Ho _].
  eapply post_weaken; [by eapply drop_hold_post; [exact Hinv|exact Es|done|cbn; lia|..]|].
  cbv beta. naive_solver.
Qed.

Lemma release_hold_post t sid :
  tracker_inv t →
  post (release_socket_hold sid) t (λ r t',
    tracker_inv t' ∧ live_routes t = live_routes t' ⊎ option_mset r).
Proof.
  intros Hinv. unfold release_socket_hold. apply post_tget.
  destruct (sockets t !! sid) as [s|] eqn:Es; [|by apply post_ret; rewrite mset_None].
  destruct (Z.eqb_spec (operation_refs s) 0); [by apply post_ret; rewrite mset_None|].
  destruct (inv_socket _ _ _ (proj2 Hinv) sid s Es) as [_ _ Ho _].
  eapply post_weaken; [by eapply drop_hold_post; [exact Hinv|exact Es|done|cbn; lia|..]|].
  cbv beta. naive_solver.
Qed.

Lemma close_range_post t p a b :
  tracker_inv t →
  post (close_range p a b) t (λ rs t',
    tracker_inv t' ∧ live_routes t = live_routes t' ⊎ list_mset rs ∧ same_frame t t' ∧
    ∀ q, fds t' q = if shares_table t p q
      then filter (λ kv, (a <=? kv.1)%Z && (kv.1 <=? b)%Z = false) (fds t q) else fds t q).
Proof.
  intros Hinv. unfold close_range. apply post_tget.
  destruct (table_id t p) as [id|] eqn:Ep; [by apply sweep_post|].
  apply post_ret. split_and!; [done|by rewrite mset_nil|done|]. intros q.
  unfold shares_table. rewrite Ep. by rewrite bool_decide_eq_false_2 by (intros [[??] _]; done).
Qed.

Lemma clear_post t :
  tracker_inv t →
  post clear t (λ rs t', tracker_inv t' ∧ live_routes t = live_routes t' ⊎ list_mset rs ∧
    ∀ q, fds t' q = ∅).
Proof.
  intros [Ht Hs]. unfold clear. apply post_tget, post_modify, post_ret.
  split; [|split; [|done]].
  { split; split; cbn; try done; try apply Ht; try apply Hs.
    intros sid Hsid. by apply gmultiset_not_elem_of_empty in Hsid. }
  etransitivity; [apply (map_msum_list socket_route (sockets t))|].
  symmetry. etransitivity; [apply empty_mset|symmetry].
  unfold list_mset. rewrite (hash_iter_perm (sockets t)).
  generalize (map_to_list (sockets t)).*2. intros l. induction l as [|s l IH]; [done|].
  change (list_msum socket_route (s :: l)) with (socket_route s ⊎ list_msum socket_route l).
  rewrite IH. unfold socket_route. cbn [omap list_omap].
  destruct (route_id (dns_route s)) as [r|]; [done|]. apply empty_mset.
Qed.

Lemma retain_fds_post t p live :
  tracker_inv t → room t →
  post (retain_fds p live) t (λ rs t',
    tracker_inv t' ∧ live_routes t = live_routes t' ⊎ list_mset rs ∧
    fds t' p = filter (λ kv, kv.1 ∈ live) (fds t p) ∧ ∀ q, q ≠ p → fds t' q = fds t q).
Proof.
  intros Hinv Hroom. unfold retain_fds. eapply post_bind; [by apply unshare_post|]. cbv beta.
  intros r t1 (H1 & Hl1 & Hv1 & Hr). destruct r as [id|].
  - destruct Hr as [Hp Hother].
    eapply post_weaken; [by apply sweep_post|]. cbv beta.
    intros rs t' (H' & Hl & _ & Hv). split_and!; [done|by rewrite <-Hl1| |].
    + rewrite Hv, Hv1. unfold shares_table. rewrite Hp.
      rewrite bool_decide_eq_true_2 by eauto. apply map_filter_ext. intros fd sid _. cbn.
      rewrite bool_decide_eq_false. destruct (decide (fd ∈ live)); naive_solver.
    + intros q Hq. rewrite Hv, Hv1. unfold shares_table. rewrite Hp.
      rewrite bool_decide_eq_false_2; [done|]. intros [_ Hx]. by eapply Hother.
  - apply post_ret. split_and!; [done|by rewrite Hl1, mset_nil| |done].
    rewrite Hv1. rewrite <-(Hv1 p). unfold fds. rewrite Hr. cbn. by rewrite map_filter_empty.
Qed.

(** A created process: with [CLONE_FILES] it uses its creator's table, otherwise
    it gets its own table, with the same sockets. *)
Lemma inherit_process_post t parent child shared :
  tracker_inv t → room t → parent ≠ child →
  post (inherit_process parent child shared) t (λ rs t',
    tracker_inv t' ∧ live_routes t = live_routes t' ⊎ list_mset rs ∧
    fds t' child = fds t parent ∧ (∀ q, q ≠ child → fds t' q = fds t q) ∧
    shares_table t' parent child = shared ∧
    (shared = false → ∀ q, q ≠ child → shares_table t' child q = false)).
Proof.
  intros Hinv (Hn & Hns & Hsz) Hne. unfold inherit_process. rewrite decide_False by done.
  eapply post_bind; [by apply remove_process_post|]. cbv beta.
  intros rs t1 ([Ht1 Hs1] & Hl1 & Hp1 & Hn1 & Hns1 & Hsz1 & Hv1).
  eapply post_bind; [apply ensure_process_post; [done|lia]|]. cbv beta.
  intros id t2 (Ht2 & Hr2 & Hs2 & Hns2 & Hn2 & Hv2 & Hid & Hids & [tbl Htbl]).
  assert (Hinv2 : tracker_inv t2).
  { split; [done|]. rewrite Hr2. by apply (sockets_inv_ext _ _ t1). }
  assert (Hl2 : live_routes t2 = live_routes t1) by (unfold live_routes; by rewrite Hs2).
  assert (Hparent : fds t2 parent = fds t parent) by by rewrite Hv2, Hv1.
  assert (Htbl2 : ft_sockets tbl = fds t parent).
  { rewrite <-Hparent. unfold fds. rewrite Hid. cbn. by rewrite Htbl. }
  assert (Hchild : table_id t2 child = None).
  { rewrite Hids by done. unfold table_id. by rewrite Hp1, lookup_delete_eq. }
  assert (Hledger : live_routes t = live_routes t2 ⊎ list_mset rs) by by rewrite Hl2.
  destruct shared.
  - apply post_modify, post_ret. set (t3 := set_processes _ t2).
    assert (Hpt : ∀ q, q ≠ child → table_id t3 q = table_id t2 q).
    { intros q Hq. unfold table_id. cbn. by rewrite lookup_insert_ne. }
    assert (Hc : table_id t3 child = Some id) by apply lookup_insert_eq.
    split_and!; [|done| | | |done].
    + split; [|by apply (sockets_inv_ext _ _ t2), Hinv2].
      destruct Ht2 as [Hp Ho Hi Hnt]. split; cbn; [| |done..].
      * intros q x [[<- <-]|[_ Hq]]%lookup_insert_Some; eauto.
      * intros x y Hy. destruct (Ho x y Hy) as [q Hq]. exists q.
        rewrite lookup_insert_ne; [done|]. intros <-. unfold table_id in Hchild. congruence.
    + rewrite <-Hparent. unfold fds. rewrite Hc, Hid. done.
    + intros q Hq. rewrite <-(Hv1 q), <-Hv2 by done. apply fds_unchanged; [by apply Hpt|done].
    + unfold shares_table. rewrite Hpt, Hc, Hid by done. apply bool_decide_eq_true_2. eauto.
  - eapply post_eq; [apply allocate_table_id_eq; lia|]. apply post_tget. cbn [tables].
    rewrite Htbl. cbn [default from_option].
    eapply (copy_table_post _ id); [apply tracker_inv_bump; [done|lia]|exact Htbl|..].
    + change (tables t2 !! next_table_id t2 = None). apply fresh_table_id; [done|lia].
    + cbn. pose proof (inv_next_table _ Ht2). lia.
    + intros x Hx. change (table_id t2 child = Some x) in Hx. congruence.
    + change (2 * Z.of_nat (size (fd_refs t2)) < 2 ^ 64)%Z. rewrite Hr2. lia.
    + intros t' Hinv' Hl Hpt Htt _. apply post_ret. cbn in Hpt, Htt.
      assert (Hfr := fresh_table_id t2 _ Ht2 (Z.le_refl _)).
      assert (Hv : ∀ q, fds t' q = if decide (q = child) then ft_sockets tbl else fds t2 q)
        by (intros q; by eapply fds_copied).
      assert (Hc : table_id t' child = Some (next_table_id t2))
        by (unfold table_id; rewrite Hpt; apply lookup_insert_eq).
      assert (Hsh : ∀ q, q ≠ child → table_id t' q ≠ Some (next_table_id t2)).
      { intros q Hq Hx. unfold table_id in Hx. rewrite Hpt, lookup_insert_ne in Hx by done.
        apply (table_id_fresh t2 q) in Hx; [lia|done]. }
      split_and!; [done|by rewrite Hl| | | |].
      * by rewrite Hv, decide_True by done.
      * intros q Hq. by rewrite Hv, decide_False, Hv2, Hv1 by done.
      * unfold shares_table. rewrite Hc. apply bool_decide_eq_false_2. intros [_ Hx].
        by apply (Hsh parent).
      * intros _ q Hq. unfold shares_table. rewrite Hc. apply bool_decide_eq_false_2.
        intros [_ Hx]. by apply (Hsh q).
Qed.


(** Every operation keeps the invariant, never panics, and accounts for its
    routes. *)
Lemma tracker_step op t : tracker_inv t → room t → step_spec op t (apply_op op).
Proof.
  intros Hinv Hroom. destruct op as [p fd ty|sid d|sid|sid route r e|p fd d|sid q|sid q|
    sid id dom qt|p sid fd|p fd|p a b|p live|parent child shared|p|p fd|sid|p fd|p fd|sid|];
    cbn [apply_op].
  - apply release_step; [done|]. eapply post_weaken; [by apply observe_socket_post|].
    cbv beta. naive_solver.
  - by apply connect_step.
  - by apply disconnect_step.
  - by apply set_proxy_step.
  - apply quiet_step; [done|by apply discover_dns_post].
  - apply quiet_step; [done|]. eapply post_bind; [apply query_update_post; [done|]|by intros [] ].
    intros s. split; [apply remember_query_step|apply remember_query_route].
  - apply quiet_step; [done|]. eapply post_bind; [apply query_update_post; [done|]|by intros [] ].
    intros s. split; [apply forget_query_step|apply forget_query_route].
  - apply quiet_step; [done|]. apply query_update_post; [done|].
    intros s. split; [apply take_query_step|apply take_query_route].
  - apply release_step; [done|by apply duplicate_socket_post].
  - apply release_step; [done|]. eapply post_weaken; [by apply close_post|]. cbv beta. naive_solver.
  - apply sweep_step; [done|]. eapply post_weaken; [by apply close_range_post|]. cbv beta. naive_solver.
  - apply sweep_step; [done|]. eapply post_weaken; [by apply retain_fds_post|]. cbv beta. naive_solver.
  - destruct (decide (parent = child)) as [->|Hne].
    + apply sweep_step; [done|]. unfold inherit_process. rewrite decide_True by done.
      destruct Hinv as [Ht Hs], Hroom as (? & _).
      eapply post_bind; [apply ensure_process_post; [done|lia]|]. cbv beta.
      intros id t1 (Ht1 & Hr1 & Hs1 & Hns1 & _). apply post_ret. split; [split; [done|]|].
      * rewrite Hr1. by apply (sockets_inv_ext _ _ t).
      * rewrite mset_nil. unfold live_routes. by rewrite Hs1.
    + apply sweep_step; [done|]. eapply post_weaken; [by apply inherit_process_post|].
      cbv beta. naive_solver.
  - apply sweep_step; [done|]. eapply post_weaken; [by apply remove_process_post|]. cbv beta. naive_solver.
  - apply quiet_step; [done|]. apply hold_with_post; [done|]. intros s s'.
    destruct (Z.eqb_spec (operation_refs s) 0) as [H0'|]; [|done]. cbn [negb orb].
    destruct (connect_in_progress s); [done|]. intros [= <-]. apply with_ops_step; lia.
  - apply release_step; [done|by apply unpin_post].
  - apply quiet_step; [done|]. apply hold_with_post; [done|]. intros s s'.
    destruct (connect_in_progress s); [done|].
    destruct (checked_add _ _) as [n|] eqn:En; cbn; [|done]. intros [= <-]. by apply hold_step.
  - apply quiet_step; [done|]. apply hold_with_post; [done|]. intros s s'.
    destruct (checked_add _ _) as [n|] eqn:En; cbn; [|done]. intros [= <-]. by apply hold_step.
  - apply release_step; [done|by apply release_hold_post].
  - apply sweep_step; [done|]. eapply post_weaken; [by apply clear_post|]. cbv beta. naive_solver.
Qed.

(** ** Runs *)

(** The routes installed and handed back by a sequence of operations, and the
    tracker after it; [None] if an operation panics. *)
Fixpoint run_ops (ops : list TrackerOp) (t : DnsSocketTracker) :
    option (gmultiset DnsRouteId * gmultiset DnsRouteId * DnsSocketTracker) :=
  match ops with
  | [] => Some (∅, ∅, t)
  | op :: ops =>
      '(rs, t') ← apply_op op t;
      '(installed, released, t'') ← run_ops ops t';
      Some (installs op t ⊎ installed, list_mset rs ⊎ released, t'')
  end.

#[export] Instance room_dec t : Decision (room t).
Proof. unfold room. apply _. Defined.

(** Is there room for every operation of the sequence? *)
Fixpoint room_along (ops : list TrackerOp) (t : DnsSocketTracker) : bool :=
  match ops with
  | [] => true
  | op :: ops =>
      bool_decide (room t) &&
      match apply_op op t with Some (_, t') => room_along ops t' | None => true end
  end.

Lemma tracker_inv_new : tracker_inv DnsSocketTracker_new.
Proof.
  split; split; cbn; try done.
  intros sid Hsid. by apply gmultiset_not_elem_of_empty in Hsid.
Qed.

Lemma run_ops_ledger ops : ∀ t,
  tracker_inv t → room_along ops t = true →
  ∃ installed released t', run_ops ops t = Some (installed, released, t') ∧ tracker_inv t' ∧
    installed ⊎ live_routes t = live_routes t' ⊎ released.
Proof.
  induction ops as [|op ops IH]; intros t Hinv Hr; cbn [run_ops].
  - exists ∅, ∅, t. split_and!; [done..|]. multiset_solver.
  - cbn [room_along] in Hr. apply andb_true_iff in Hr as [Hroom%bool_decide_eq_true Hr].
    pose proof (tracker_step op t Hinv Hroom) as Hstep. unfold step_spec, post in Hstep.
    destruct (apply_op op t) as [[rs t1]|]; [|done]. destruct Hstep as [H1 Hl1].
    destruct (IH t1 H1 Hr) as (i & r & t' & Hrun & H' & Hl). cbn [mbind option_bind].
    rewrite Hrun. cbn [mbind option_bind]. eexists _, _, _. split_and!; [done..|].
    multiset_solver.
Qed.

(** C8: whatever a traced program does to its descriptors (opening, duplicating,
    closing, forking with or without shared tables, exec, racing transactions on a
    socket), the tracker never panics, its reference counts stay exact, and every
    connected-proxy route ever installed is, at any time, either owned by exactly
    one live socket or was handed back to the caller for teardown exactly once. *)
Theorem routes_released_once ops :
  room_along ops DnsSocketTracker_new = true →
  ∃ installed released t, run_ops ops DnsSocketTracker_new = Some (installed, released, t) ∧
    tracker_inv t ∧ installed = live_routes t ⊎ released.
Proof.
  intros Hr. destruct (run_ops_ledger ops _ tracker_inv_new Hr) as (i & r & t & Hrun & Hinv & Hl).
  exists i, r, t. split_and!; [done..|]. rewrite <-Hl. symmetry.
  change (live_routes DnsSocketTracker_new) with (list_mset [] : gmultiset DnsRouteId).
  apply mset_nil.
Qed.

(** The descriptors of a process follow the kernel.  A new process sees the
    sockets of its creator, through the same table exactly when [CLONE_FILES] was
    given; exec keeps exactly the surviving descriptors, also when the table was
    shared, and disturbs no other process; a close is seen by exactly the processes
    that share the table. *)
Theorem process_views_follow_kernel t p q shared live fd :
  tracker_inv t → room t → p ≠ q →
  post (inherit_process p q shared) t (λ _ t',
    fds t' q = fds t p ∧ (∀ o, o ≠ q → fds t' o = fds t o) ∧
    shares_table t' p q = shared ∧
    (shared = false → ∀ o, o ≠ q → shares_table t' q o = false)) ∧
  post (retain_fds p live) t (λ _ t',
    fds t' p = filter (λ kv, kv.1 ∈ live) (fds t p) ∧ ∀ o, o ≠ p → fds t' o = fds t o) ∧
  post (close p fd) t (λ _ t',
    ∀ o, fds t' o = if shares_table t p o then delete fd (fds t o) else fds t o).
Proof.
  intros Hinv Hroom Hne. split_and!.
  - eapply post_weaken; [by apply inherit_process_post|]. cbv beta. naive_solver.
  - eapply post_weaken; [by apply retain_fds_post|]. cbv beta. naive_solver.
  - eapply post_weaken; [by apply close_post|]. cbv beta. naive_solver.
Qed.

End Steps.

(** A staged query whose send was denied leaves no trace: forgetting it
    right after it was remembered gives the socket back, identical retries of
    earlier sends included. *)
Theorem remember_forget_query q s :
  is_inline (dns_route s) = true → queries_ok s →
  forget_query q (remember_query q s) = s.
Proof.
  intros Hi Hq. unfold remember_query. rewrite Hi. unfold forget_query. cbn [with_queries outstanding_queries].
  rewrite lookup_insert_eq, rposition_snoc.
  2:{ unfold query_matches, eq_ignore_ascii_case. by rewrite String.eqb_refl, Z.eqb_refl. }
  set (l := default [] _). rewrite delete_middle, app_nil_r.
  unfold set_entries. cbn [with_queries outstanding_queries].
  destruct s as [ty d r qs n o b]; unfold with_queries; cbn in *. f_equal.
  subst l. destruct (qs !! q_id q) as [l|] eqn:El; cbn.
  - destruct (Hq _ _ El) as [Hne _]. rewrite decide_False by done.
    by rewrite insert_insert_eq, insert_id.
  - rewrite decide_True by done. by rewrite delete_insert_id.
Qed.

(** ** Held sockets

    What a pending system call relies on: while it holds a socket, whatever other
    threads do to descriptors, the socket stays, with its route and peer. *)

Record held_as (s s' : SocketState) : Prop := {
  held_type : socket_type s' = socket_type s;
  held_destination : connected_destination s' = connected_destination s;
  held_route : dns_route s' = dns_route s;
  held_ops : (operation_refs s ≤ operation_refs s')%Z;
  held_busy : connect_in_progress s = true → connect_in_progress s' = true;
}.

#[export] Instance held_as_preorder : PreOrder held_as.
Proof.
  split; [by split|]. intros s1 s2 s3 [?????] [?????]. split; [congruence..|lia|auto].
Qed.

Section Held.
Context `{HashIterLaws} (sid : SocketId).

Definition keeps (t t' : DnsSocketTracker) : Prop :=
  (sid < next_socket_id t)%Z → (sid < next_socket_id t')%Z ∧
  ∀ s, sockets t !! sid = Some s → (0 < operation_refs s)%Z →
    ∃ s', sockets t' !! sid = Some s' ∧ held_as s s'.

#[local] Instance keeps_preorder : PreOrder keeps.
Proof.
  split.
  - intros t Hn. split; [done|]. intros s ??. by exists s.
  - intros t1 t2 t3 H12 H23 Hn. destruct (H12 Hn) as [Hn2 Hs2], (H23 Hn2) as [Hn3 Hs3].
    split; [done|]. intros s Hs Ho. destruct (Hs2 s Hs Ho) as (s2 & Hs' & Hh2).
    destruct (Hs3 s2 Hs') as (s3 & ? & Hh3); [destruct Hh2; lia|].
    exists s3. split; [done|]. by etransitivity.
Qed.

(** [m] keeps the held socket, if it returns. *)
Definition keeping {A} (m : TM A) : Prop :=
  ∀ t, match m t with Some (_, t') => keeps t t' | None => True end.

Lemma keeping_bind {A B} (m : TM A) (k : A → TM B) :
  keeping m → (∀ a, keeping (k a)) → keeping (m ≫= k).
Proof.
  intros Hm Hk t. unfold mbind, TM_bind. specialize (Hm t). destruct (m t) as [[a t']|]; [|done].
  specialize (Hk a t'). destruct (k a t') as [[b t'']|]; [|done]. by etransitivity.
Qed.

Lemma keeping_ret {A} (a : A) : keeping (mret a).
Proof. intros t. change (keeps t t). reflexivity. Qed.

Lemma keeping_tget {A} (f : DnsSocketTracker → A) : keeping (tget f).
Proof. intros t. change (keeps t t). reflexivity. Qed.

Lemma keeping_expect {A} (o : option A) : keeping (expect o).
Proof. intros t. unfold expect. destruct o; [reflexivity|done]. Qed.

(** Changes of the other fields. *)
Lemma keeping_modify f :
  (∀ t, sockets (f t) = sockets t ∧ next_socket_id (f t) = next_socket_id t) → keeping (tmodify f).
Proof.
  intros Hf t. cbn. destruct (Hf t) as [Hs Hn]. intros Hlt. rewrite Hs, Hn. split; [done|].
  intros s ??. by exists s.
Qed.

(** An update of one socket, which may be the held one. *)
Lemma keeps_put t x s s' :
  sockets t !! x = Some s → (x = sid → held_as s s') → keeps t (put_socket x s' t).
Proof.
  intros Hs Hh Hlt. split; [done|]. intros s0 Hs0 Ho. cbn.
  destruct (decide (x = sid)) as [->|Hne].
  - rewrite lookup_insert_eq. exists s'. split; [done|]. assert (s0 = s) as -> by congruence. auto.
  - rewrite lookup_insert_ne by done. by exists s0.
Qed.

Lemma keeping_update {A} x (f : SocketState → option A * SocketState) :
  (x = sid → ∀ s, held_as s (f s).2) → keeping (update_socket x f).
Proof.
  intros Hf t. unfold update_socket, mbind, TM_bind, tget.
  destruct (sockets t !! x) as [s|] eqn:Es; [|change (keeps t t); reflexivity].
  destruct (f s) as [a s'] eqn:Ef. change (keeps t (put_socket x s' t)).
  eapply keeps_put; [done|]. intros Hx. specialize (Hf Hx s). by rewrite Ef in Hf.
Qed.

Lemma keeping_increment x : keeping (increment_descriptor_ref x).
Proof.
  intros t. unfold increment_descriptor_ref, mbind, TM_bind, tget.
  destruct (sockets t !! x) as [s|] eqn:Es; [|done]. cbn [expect].
  change (keeps t (put_socket x (with_refs (as_u64 (descriptor_refs s + 1)) s) t)).
  by eapply keeps_put.
Qed.

(** A socket is forgotten only when nothing holds it. *)
Lemma keeping_decrement x : keeping (decrement_descriptor_ref x).
Proof.
  intros t. unfold decrement_descriptor_ref, mbind, TM_bind, tget.
  destruct (sockets t !! x) as [s|] eqn:Es; [|done]. cbn [expect]. cbv zeta.
  set (s1 := with_refs _ s). unfold tmodify.
  assert (Hk : keeps t (put_socket x s1 t)) by by eapply keeps_put.
  destruct (_ && _) eqn:Eb; [|exact Hk].
  apply andb_true_iff in Eb as [_ Ho%Z.eqb_eq].
  change (keeps t (set_sockets (delete x (<[x := s1]> (sockets t))) t)).
  intros Hlt. split; [done|]. intros s0 Hs0 Hpos. cbn. exists s0. split; [|reflexivity].
  rewrite lookup_delete_ne, lookup_insert_ne; [done|..];
    intros ->; assert (s0 = s) as -> by congruence; cbn in Ho; lia.
Qed.

Lemma keeping_push r rest : keeping rest → keeping (push_released r rest).
Proof. intros Hr. apply keeping_bind; [done|]. intros. apply keeping_ret. Qed.

(** Walk through an operation. *)
Ltac keep :=
  repeat first
    [ progress cbv beta zeta | assumption | apply keeping_increment | apply keeping_decrement
    | apply keeping_push | apply keeping_ret | apply keeping_tget | apply keeping_expect
    | apply keeping_modify; intros; by split | match goal with H : _ |- _ => apply H end
    | apply keeping_bind; [|intros] | case_match | case_decide ].

Lemma keeping_ensure p : keeping (ensure_process p).
Proof. unfold ensure_process, allocate_table_id. keep. Qed.

Lemma keeping_remove_fd id fd : keeping (remove_fd id fd).
Proof. unfold remove_fd. keep. Qed.

Lemma keeping_close p fd : keeping (close p fd).
Proof. unfold close. pose proof keeping_remove_fd. keep. Qed.

Lemma keeping_assign id fd x : keeping (assign_fd id fd x).
Proof. unfold assign_fd. keep. Qed.

Lemma keeping_release_fds id l : keeping (release_fds id l).
Proof.
  pose proof keeping_remove_fd. induction l; cbn [release_fds]; keep.
Qed.

Lemma keeping_release_sockets l : keeping (release_sockets l).
Proof. induction l; cbn [release_sockets]; keep. Qed.

Lemma keeping_increment_all l : keeping (increment_all l).
Proof. induction l; cbn [increment_all]; keep. Qed.

(** A new socket has an id of its own. *)
Lemma keeping_observe p fd ty : keeping (observe_socket p fd ty).
Proof.
  unfold observe_socket. apply keeping_bind; [apply keeping_ensure|]. intros id t.
  unfold mbind, TM_bind. unfold allocate_socket_id at 1, mbind, TM_bind, tget, expect.
  destruct (checked_add _ _) as [n|] eqn:En; [|done].
  apply checked_add_Some in En as [-> _]. cbn [tmodify mret TM_ret].
  match goal with |- match assign_fd id fd ?x ?t1 with _ => _ end =>
    pose proof (keeping_assign id fd x t1) as Ha; destruct (assign_fd id fd x t1) as [[r t2]|]; [|done] end.
  etransitivity; [|exact Ha]. intros Hlt. cbn. split; [lia|]. intros s Hs Ho.
  exists s. rewrite lookup_insert_ne by lia. done.
Qed.

(** The operations that end the hold or change the peer of the held socket. *)
Definition touches (op : TrackerOp) (t : DnsSocketTracker) : bool :=
  match op with
  | OpConnect x _ | OpDisconnect x | OpSetProxy x _ _ _ | OpUnpin x | OpReleaseHold x =>
      (x =? sid)%Z
  | OpDiscover p fd _ => socket_matches t p fd sid
  | OpClear => true
  | _ => false
  end.

Lemma keeping_hold_with p fd f :
  (∀ s s', f s = Some s' → held_as s s') → keeping (hold_with p fd f).
Proof.
  intros Hf. unfold hold_with. apply keeping_bind; [apply keeping_tget|].
  intros [x|]; [|apply keeping_ret]. apply keeping_update. intros _ s0.
  destruct (f s0) as [s'|] eqn:E; [by apply Hf|]. reflexivity.
Qed.

Lemma held_with_ops s n b :
  (operation_refs s ≤ n)%Z → (connect_in_progress s = true → b = true) → held_as s (with_ops n b s).
Proof. by split. Qed.

Lemma held_queries s q : held_as s (with_queries q s).
Proof. by split. Qed.

Lemma keeping_returns {A} (f : A → list DnsRouteId) m : keeping m → keeping (returns f m).
Proof. intros Hm. apply keeping_bind; [done|]. intros. apply keeping_ret. Qed.

Lemma keeping_unhold x (busy : bool) t s :
  sockets t !! x = Some s → x ≠ sid →
  match (tmodify (put_socket x (with_ops (operation_refs s - 1) busy s)) ;;
         if (operation_refs s - 1 =? 0)%Z && (descriptor_refs s =? 0)%Z
         then remove_socket x else mret None) t with
  | Some (_, t') => keeps t t' | None => True end.
Proof.
  intros Hs Hne. unfold mbind, TM_bind, tmodify.
  destruct (_ && _).
  - intros Hlt. split; [done|]. intros s0 Hs0 _. cbn. exists s0. split; [|reflexivity].
    by rewrite lookup_delete_ne, lookup_insert_ne.
  - by eapply keeps_put.
Qed.

Lemma keeping_unpin x t : x ≠ sid →
  match unpin_socket x t with Some (_, t') => keeps t t' | None => True end.
Proof.
  intros Hne. unfold unpin_socket. unfold mbind at 1, TM_bind at 1, tget.
  destruct (sockets t !! x) as [s|] eqn:Es; [|change (keeps t t); reflexivity].
  destruct (_ || _); [change (keeps t t); reflexivity|].
  exact (keeping_unhold x false t s Es Hne).
Qed.

Lemma keeping_release_hold x t : x ≠ sid →
  match release_socket_hold x t with Some (_, t') => keeps t t' | None => True end.
Proof.
  intros Hne. unfold release_socket_hold. unfold mbind at 1, TM_bind at 1, tget.
  destruct (sockets t !! x) as [s|] eqn:Es; [|change (keeps t t); reflexivity].
  destruct (_ =? _)%Z; [change (keeps t t); reflexivity|].
  exact (keeping_unhold x (connect_in_progress s) t s Es Hne).
Qed.

Lemma keeping_at_returns {A} (f : A → list DnsRouteId) (m : TM A) t :
  match m t with Some (_, t') => keeps t t' | None => True end →
  match returns f m t with Some (_, t') => keeps t t' | None => True end.
Proof. unfold returns, mbind, TM_bind. by destruct (m t) as [[a t']|]. Qed.

Lemma keeping_remove_process p : keeping (remove_process p).
Proof. unfold remove_process. pose proof keeping_release_sockets. keep. Qed.

Lemma keeping_unshare p : keeping (unshare_table_for_exec p).
Proof.
  unfold unshare_table_for_exec, allocate_table_id. pose proof keeping_increment_all. keep.
Qed.

Lemma keeping_retain p live : keeping (retain_fds p live).
Proof.
  unfold retain_fds. pose proof keeping_unshare. pose proof keeping_release_fds. keep.
Qed.

Lemma keeping_inherit parent child shared : keeping (inherit_process parent child shared).
Proof.
  unfold inherit_process, allocate_table_id. pose proof keeping_remove_process.
  pose proof keeping_ensure. pose proof keeping_increment_all. keep.
Qed.

(** The marking of [discover_dns], on a socket other than the held one. *)
Lemma keeps_mark t x d :
  x ≠ sid →
  match (match sockets t !! x with
         | Some s =>
             if decide (socket_type s = Datagram ∧ sa_port d = 53%Z) then
               (if route_is_connected_proxy (dns_route s) then mret tt
                else tmodify (put_socket x (with_route (InlineDns (Some d)) s))) ;;
               mret true
             else mret false
         | None => mret false
         end : TM bool) t with Some (_, t') => keeps t t' | None => True end.
Proof.
  intros Hne. assert (Hrefl : keeps t t) by reflexivity.
  destruct (sockets t !! x) as [s|] eqn:Es; [|exact Hrefl]. case_decide; [|exact Hrefl].
  destruct (route_is_connected_proxy _); [exact Hrefl|]. by eapply keeps_put.
Qed.

Lemma keeping_discover p fd d t :
  tracker_inv t → room t → (sid < next_socket_id t)%Z → socket_matches t p fd sid = false →
  match discover_dns p fd d t with Some (_, t') => keeps t t' | None => True end.
Proof.
  intros Hinv Hroom Hlt Hm%bool_decide_eq_false. unfold discover_dns.
  pose proof (observe_socket_post t p fd Datagram Hinv Hroom) as Ho. unfold post in Ho.
  pose proof (keeping_observe p fd Datagram t) as Hk.
  unfold mbind, TM_bind, tget, socket in *.
  destruct (socket_id t p fd) as [x|] eqn:Ex.
  - cbn [mbind option_bind]. destruct (sockets t !! x) as [s|] eqn:Es.
    + cbn [mret TM_ret]. rewrite Ex. cbn [mbind option_bind].
      apply (keeps_mark t x d). congruence.
    + destruct (socket_known t p fd x Hinv Ex). congruence.
  - cbn [mbind option_bind]. destruct (observe_socket p fd Datagram t) as [[r t1]|]; [|done].
    cbn [mret TM_ret]. destruct Ho as (_ & _ & _ & ->). cbn [mbind option_bind].
    pose proof (keeps_mark t1 (next_socket_id t) d) as Hmark.
    destruct (_ t1) as [[b t2]|]; [|done]. etransitivity; [exact Hk|]. apply Hmark. lia.
Qed.

(** While a pending system call holds a socket, no other operation (closes,
    process exits, execs, forks, other transactions) removes it, changes its
    route or its peer, gives up the hold, or ends a connect transaction in
    progress. *)
Theorem held_socket_survives op t s rs t' :
  tracker_inv t → room t → sockets t !! sid = Some s → (0 < operation_refs s)%Z →
  touches op t = false → apply_op op t = Some (rs, t') →
  ∃ s', sockets t' !! sid = Some s' ∧ held_as s s'.
Proof.
  intros Hinv Hroom Hs Ho Ht Hop.
  pose proof (ok_id _ _ _ _ (inv_socket _ _ _ (proj2 Hinv) sid s Hs)) as Hid.
  assert (Hk : match apply_op op t with Some (_, t') => keeps t t' | None => True end).
  { destruct op; cbn [touches apply_op] in *; try (apply Z.eqb_neq in Ht); try done;
      try (apply keeping_at_returns).
    - apply keeping_observe.
    - apply keeping_update. done.
    - apply keeping_update. done.
    - apply keeping_update. done.
    - apply keeping_discover; [done..|lia|done].
    - apply keeping_bind; [|intros; apply keeping_ret]. apply keeping_update. intros _ s0.
      cbn. unfold remember_query. destruct (is_inline _); [apply held_queries|reflexivity].
    - apply keeping_bind; [|intros; apply keeping_ret]. apply keeping_update. intros _ s0.
      cbn. unfold forget_query. destruct (outstanding_queries s0 !! _); [apply held_queries|reflexivity].
    - apply keeping_update. intros _ s0. unfold take_matching_query_from_state.
      destruct (is_inline _); [|reflexivity].
      destruct (_ ≫= _) as [[[??]?]|]; [apply held_queries|reflexivity].
    - unfold duplicate_socket. apply keeping_bind; [apply keeping_tget|]. intros [s0|];
        [|apply keeping_close]. apply keeping_bind; [apply keeping_ensure|]. intros.
      apply keeping_assign.
    - apply keeping_close.
    - unfold close_range. pose proof keeping_release_fds. keep.
    - apply keeping_retain.
    - apply keeping_inherit.
    - apply keeping_remove_process.
    - apply keeping_hold_with. intros s0 s'. destruct (_ || _); [done|]. intros [= <-].
      apply held_with_ops; [lia|done].
    - by apply keeping_unpin.
    - apply keeping_hold_with. intros s0 s'. destruct (connect_in_progress s0) eqn:E; [done|].
      destruct (checked_add _ _) as [n|] eqn:En; cbn; [|done]. intros [= <-].
      apply checked_add_Some in En as [-> _]. apply held_with_ops; [lia|congruence].
    - apply keeping_hold_with. intros s0 s'.
      destruct (checked_add _ _) as [n|] eqn:En; cbn; [|done]. intros [= <-].
      apply checked_add_Some in En as [-> _]. apply held_with_ops; [lia|done].
    - by apply keeping_release_hold. }
  rewrite Hop in Hk. destruct Hk as [_ Hk]; [lia|]. by apply Hk.
Qed.

End Held.

(** ** Witnesses *)

Section Witnesses.
#[local] Existing Instance concrete_iter.
#[local] Existing Instance concrete_iter_laws.

Definition example_resolver : SocketAddr :=
  {| sa_ip := V4 2130706433; sa_port := 53; sa_flowinfo := 0; sa_scope_id := 0 |}.

(** A proxied socket, shared with a forked child, pinned while its last
    descriptors close. *)
Definition example_ops : list TrackerOp :=
  [OpObserve 100 7 Datagram; OpSetProxy 1 5 example_resolver example_resolver;
   OpInherit 100 101 false; OpPin 100 7; OpClose 100 7].

Definition state_after (ops : list TrackerOp) : DnsSocketTracker :=
  match run_ops ops DnsSocketTracker_new with
  | Some (_, _, t) => t
  | None => DnsSocketTracker_new
  end.

Lemma state_after_inv ops :
  room_along ops DnsSocketTracker_new = true → tracker_inv (state_after ops).
Proof.
  intros Hr. destruct (run_ops_ledger ops _ tracker_inv_new Hr) as (i & r & t & Hrun & Hinv & _).
  unfold state_after. by rewrite Hrun.
Qed.

Example example_unpin_releases :
  run_ops (example_ops ++ [OpRemoveProcess 101; OpUnpin 1]) DnsSocketTracker_new =
  Some ({[+ 5%Z +]}, {[+ 5%Z +]}, state_after (example_ops ++ [OpRemoveProcess 101; OpUnpin 1])).
Proof. vm_compute. reflexivity. Qed.

Lemma routes_released_once_witness :
  ∃ installed released t,
    run_ops (example_ops ++ [OpRemoveProcess 101; OpUnpin 1]) DnsSocketTracker_new =
      Some (installed, released, t) ∧
    tracker_inv t ∧ installed = live_routes t ⊎ released.
Proof. apply routes_released_once. vm_compute. reflexivity. Defined.

Lemma process_views_follow_kernel_witness :
  room DnsSocketTracker_new ∧
  post (inherit_process 100 101 true) DnsSocketTracker_new (λ _ t',
    fds t' 101 = fds DnsSocketTracker_new 100 ∧
    (∀ o, o ≠ 101%Z → fds t' o = fds DnsSocketTracker_new o) ∧
    shares_table t' 100 101 = true ∧
    (true = false → ∀ o, o ≠ 101%Z → shares_table t' 101 o = false)).
Proof.
  assert (Hroom : room DnsSocketTracker_new) by (apply (bool_decide_unpack (room _)); vm_compute; exact I).
  split; [exact Hroom|].
  apply (process_views_follow_kernel DnsSocketTracker_new 100 101 true ∅ 7 tracker_inv_new Hroom).
  lia.
Defined.

Lemma remember_forget_query_witness :
  let q := {| q_id := 9; q_domain := "example.com"; q_qtype := 1 |} in
  let s := with_route (InlineDns None) (SocketState_new Datagram) in
  forget_query q (remember_query q s) = s.
Proof. intros q s. apply remember_forget_query; [reflexivity|]. intros id l Hl. discriminate Hl. Defined.

Lemma held_socket_survives_witness :
  ∃ s s', sockets (state_after example_ops) !! 1%Z = Some s ∧
    sockets (state_after (example_ops ++ [OpRemoveProcess 101])) !! 1%Z = Some s' ∧ held_as s s'.
Proof.
  set (t := state_after example_ops). set (t' := state_after (example_ops ++ [OpRemoveProcess 101])).
  assert (Hinv : tracker_inv t) by (apply state_after_inv; vm_compute; reflexivity).
  assert (Hroom : room t) by (apply (bool_decide_unpack (room _)); vm_compute; exact I).
  assert (Hop : apply_op (OpRemoveProcess 101) t = Some ([], t')) by (vm_compute; reflexivity).
  destruct (sockets t !! 1%Z) as [s|] eqn:Es; [|vm_compute in Es; discriminate Es].
  assert (Ho : (0 < operation_refs s)%Z) by (vm_compute in Es; injection Es as <-; reflexivity).
  destruct (held_socket_survives 1 (OpRemoveProcess 101) t s [] t' Hinv Hroom Es Ho eq_refl Hop)
    as (s' & Hs' & Hh).
  exists s, s'. split; [reflexivity|]. split; [exact Hs'|exact Hh].
Defined.

End Witnesses.
