(* ===== verification/DnsCache.v ===== *)
(** * The DNS attribution cache

    [grith-supervisor/src/dns_cache.rs], and the lookups around it in
    [supervisor/event_handler.rs].  An intercepted [connect] carries a raw address;
    the cache finds the name it was reached by, from the answers the supervised
    program received, from the supervisor's own resolutions of trusted domains, and
    from reverse lookups.  Name resolution ([getaddrinfo], [getnameinfo]) is a
    parameter.  The clock readings are arguments. *)

From stdpp Require Import sorting.
From Stdlib Require Import Ascii.
From S2P Require Import Prelude Net Concrete.

Definition MAX_OBSERVED_TTL : Duration := from_secs (60 * 60).
Definition STARTUP_SEED_TTL : Duration := from_secs (5 * 60).
Definition REVERSE_TTL : Duration := from_secs (5 * 60).
Definition REVERSE_NEGATIVE_TTL : Duration := from_secs 15.
Definition OBSERVED_ATTRIBUTION_TTL_FLOOR : Duration := from_secs (10 * 60).
Definition MAX_OBSERVED_BATCH : nat := 256.
Definition FORWARD_CONFIRM_MIN_INTERVAL : Duration := from_secs 15.

Inductive DnsCacheError := EmptyDomain | TooManyAnswers.

Inductive Resolution :=
  | Exact (name : string)
  | Ambiguous (names : list string)
  | Unknown (addr : IpAddr)
  | NotAnIp (text : string).

Inductive AttributionLookup :=
  | Ready (r : Resolution)
  | NeedsReverse (addr : IpAddr).

Inductive AttributionSource :=
  | ObservedDns (tgid : Z)
  | StartupSeed.

Record AttributionMetadata := {
  source : AttributionSource;
  expires_at : Instant;
}.

Record ReverseEntry := {
  hostname : option string;
  reverse_expires_at : Instant;
}.

Record DnsCache := {
  reverse_cache : gmap IpAddr ReverseEntry;
  forward_cache : gmap IpAddr (gmap string AttributionMetadata);
}.

Definition DnsCache_new : DnsCache := {| reverse_cache := ∅; forward_cache := ∅ |}.

(** [trim_end_matches('.')] *)
Abbreviation trim_end_dots := (trim_end_char "."%char).

Definition insert_record (domain : string) (ip : IpAddr) (src : AttributionSource)
    (expires : Instant) (c : DnsCache) : DnsCache := {|
  reverse_cache := reverse_cache c;
  forward_cache :=
    <[ip := <[to_ascii_lowercase (trim_end_dots domain) :=
               {| source := src; expires_at := expires |}]> (default ∅ (forward_cache c !! ip))]>
      (forward_cache c) |}.

Definition remove_reverse (ip : IpAddr) (c : DnsCache) : DnsCache := {|
  reverse_cache := delete ip (reverse_cache c); forward_cache := forward_cache c |}.

(** [Ord::clamp] *)
Definition clamp (lo hi x : Z) : Z := if (x <? lo)%Z then lo else if (hi <? x)%Z then hi else x.

Definition staged (now : Instant) (answers : list (IpAddr * Duration)) : list (IpAddr * Instant) :=
  map (λ '(ip, ttl), (ip, now + clamp OBSERVED_ATTRIBUTION_TTL_FLOOR MAX_OBSERVED_TTL ttl)%Z) answers.

Definition commit_staged (domain : string) (tgid : Z) (l : list (IpAddr * Instant)) (c : DnsCache) :
    DnsCache :=
  fold_left (λ c '(ip, expires), remove_reverse ip (insert_record domain ip (ObservedDns tgid) expires c))
    l c.

Definition commit_observed_batch (now : Instant) (domain : string)
    (answers : list (IpAddr * Duration)) (tgid : Z) (c : DnsCache) :
    (nat + DnsCacheError) * DnsCache :=
  let domain := trim_end_dots (trim domain) in
  if String.eqb domain "" then (inr EmptyDomain, c)
  else if MAX_OBSERVED_BATCH <? length answers then (inr TooManyAnswers, c)
  else
    let l := staged now answers in
    (inl (length l), commit_staged domain tgid l c).

Definition record_observed (now : Instant) (domain : string) (ip : IpAddr) (ttl : Duration)
    (tgid : Z) (c : DnsCache) : DnsCache :=
  (commit_observed_batch now domain [(ip, ttl)] tgid c).2.

Definition record_domain (now : Instant) (domain ip : string) (c : DnsCache) : DnsCache :=
  match parse_ip ip with
  | Some addr => record_observed now domain addr (from_secs 60) 0 c
  | None => c
  end.

(** Each mapping with the clock reading of its insertion. *)
Definition record_resolved_domains (resolved : list (string * IpAddr * Instant)) (c : DnsCache) :
    DnsCache :=
  fold_left (λ c '(domain, ip, now),
    insert_record domain ip StartupSeed (now + STARTUP_SEED_TTL)%Z c) resolved c.

Definition is_observed (m : AttributionMetadata) : bool :=
  match source m with ObservedDns _ => true | StartupSeed => false end.

(** [retain(|_, metadata| metadata.expires_at > now)] *)
Definition unexpired (now : Instant) (records : gmap string AttributionMetadata) :
    gmap string AttributionMetadata :=
  filter (λ kv, (now < expires_at kv.2)%Z) records.

Section Lookups.
Context `{HashIter}.

(** The names of the records that count: the observed ones, or all if none is. *)
Definition candidate_names (records : gmap string AttributionMetadata) : list string :=
  let observed := (List.filter (λ kv, is_observed kv.2) (hash_iter records)).*1 in
  match observed with
  | [] => (hash_iter records).*1
  | _ => observed
  end.

Definition resolve_names (names : list string) : option Resolution :=
  match names with
  | [] => None
  | [name] => Some (Exact name)
  | _ => Some (Ambiguous (merge_sort String.le names))
  end.

Definition lookup_forward (addr : IpAddr) (now : Instant) (c : DnsCache) :
    option Resolution * DnsCache :=
  match forward_cache c !! addr with
  | Some records =>
      let records := unexpired now records in
      (resolve_names (candidate_names records),
       {| reverse_cache := reverse_cache c; forward_cache := <[addr := records]> (forward_cache c) |})
  | None => (None, c)
  end.

Definition lookup_attribution (now : Instant) (ip : string) (c : DnsCache) :
    AttributionLookup * DnsCache :=
  if String.eqb ip "" || starts_with "/" ip || starts_with "<" ip then (Ready (NotAnIp ip), c)
  else match parse_ip ip with
       | None => (Ready (NotAnIp ip), c)
       | Some addr =>
           match lookup_forward addr now c with
           | (Some r, c) => (Ready r, c)
           | (None, c) =>
               (match reverse_cache c !! addr with
                | Some cached =>
                    if (now <? reverse_expires_at cached)%Z
                    then Ready (match hostname cached with Some h => Exact h | None => Unknown addr end)
                    else NeedsReverse addr
                | None => NeedsReverse addr
                end, c)
           end
       end.

Definition commit_reverse_lookup (now : Instant) (addr : IpAddr) (host : option string)
    (c : DnsCache) : Resolution * DnsCache :=
  match lookup_forward addr now c with
  | (Some r, c) => (r, c)
  | (None, c) =>
      let ttl := match host with Some _ => REVERSE_TTL | None => REVERSE_NEGATIVE_TTL end in
      (match host with Some h => Exact h | None => Unknown addr end,
       {| reverse_cache := <[addr := {| hostname := host; reverse_expires_at := (now + ttl)%Z |}]>
            (reverse_cache c);
          forward_cache := forward_cache c |})
  end.

(** [reverse] is [reverse_dns_lookup]; it takes until [now2] to answer. *)
Definition resolve_attribution (reverse : IpAddr → option string) (now now2 : Instant) (ip : string)
    (c : DnsCache) : Resolution * DnsCache :=
  match lookup_attribution now ip c with
  | (Ready r, c) => (r, c)
  | (NeedsReverse addr, c) => commit_reverse_lookup now2 addr (reverse addr) c
  end.

Definition resolve (reverse : IpAddr → option string) (now now2 : Instant) (ip : string)
    (c : DnsCache) : string * DnsCache :=
  match resolve_attribution reverse now now2 ip c with
  | (Exact name, c) => (name, c)
  | (_, c) => (ip, c)
  end.

(** ** Re-resolving trusted destinations after a miss *)

Record DnsForwardConfirm := {
  domains : list string;
  last_attempt : option Instant;
}.

Definition DnsForwardConfirm_new (ds : list string) : option DnsForwardConfirm :=
  match ds with [] => None | _ => Some {| domains := ds; last_attempt := None |} end.

Definition try_begin (now : Instant) (f : DnsForwardConfirm) : bool * DnsForwardConfirm :=
  if match last_attempt f with
     | Some at_ => (saturating_duration_since now at_ <? FORWARD_CONFIRM_MIN_INTERVAL)%Z
     | None => false
     end
  then (false, f)
  else (true, {| domains := domains f; last_attempt := Some now |}).

(** [confirm_forward_attribution]: [resolved] is what [resolve_domains] answered
    within its budget, [None] if it took longer or failed; a late answer is
    merged by another step, [record_resolved_domains]. *)
Definition confirm_forward_attribution (now now2 : Instant)
    (resolved : option (list (string * IpAddr * Instant)))
    (confirm : option DnsForwardConfirm) (address : string) (miss : Resolution) (c : DnsCache) :
    Resolution * bool * option DnsForwardConfirm * DnsCache :=
  match confirm with
  | None => (miss, false, None, c)
  | Some f =>
      match try_begin now f with
      | (false, f) => (miss, false, Some f, c)
      | (true, f) =>
          match resolved with
          | None => (miss, false, Some f, c)
          | Some l =>
              match lookup_attribution now2 address (record_resolved_domains l c) with
              | (Ready ((Exact _ | Ambiguous _) as r), c) => (r, true, Some f, c)
              | (_, c) => (miss, false, Some f, c)
              end
          end
      end
  end.

End Lookups.

(** ** Records of an address *)

Definition records (c : DnsCache) (ip : IpAddr) : gmap string AttributionMetadata :=
  default ∅ (forward_cache c !! ip).

Lemma unexpired_lookup now m name r :
  unexpired now m !! name = Some r ↔ m !! name = Some r ∧ (now < expires_at r)%Z.
Proof. unfold unexpired. rewrite map_lookup_filter_Some. done. Qed.

Lemma unexpired_unexpired now now' m :
  (now ≤ now')%Z → unexpired now' (unexpired now m) = unexpired now' m.
Proof.
  intros Hle. apply map_eq. intros name. apply option_eq. intros r.
  rewrite !unexpired_lookup. intuition lia.
Qed.

Lemma unexpired_insert now m m' name r :
  unexpired now m = unexpired now m' →
  unexpired now (<[name := r]> m) = unexpired now (<[name := r]> m').
Proof.
  intros Heq. apply map_eq. intros k. apply option_eq. intros x.
  rewrite !unexpired_lookup. destruct (decide (k = name)) as [->|Hne].
  - by rewrite !lookup_insert_eq.
  - rewrite !lookup_insert_ne, <-!unexpired_lookup by done. by rewrite Heq.
Qed.

Lemma records_insert domain ip src e c ip' :
  records (insert_record domain ip src e c) ip' =
  if decide (ip' = ip)
  then <[to_ascii_lowercase (trim_end_dots domain) := {| source := src; expires_at := e |}]> (records c ip)
  else records c ip'.
Proof.
  unfold records, insert_record. cbn. case_decide as Hd.
  - subst. by rewrite lookup_insert_eq.
  - by rewrite lookup_insert_ne.
Qed.

(** ** Names that count *)

(** The specification of a lookup: among the active records, the observed names
    if there is one, else all names; one name is exact, several are ambiguous. *)
Definition spec_names (m : gmap string AttributionMetadata) : gset string :=
  let observed := dom (filter (λ kv, is_observed kv.2 = true) m) in
  if decide (observed = ∅) then dom m else observed.

Definition spec_resolution (names : gset string) : option Resolution :=
  resolve_names (elements names).

Lemma resolve_names_perm l l' : l ≡ₚ l' → resolve_names l = resolve_names l'.
Proof.
  intros Hp. destruct l as [|x [|y l]].
  - by apply Permutation_nil_l in Hp as ->.
  - by apply Permutation_singleton_l in Hp as ->.
  - pose proof (Permutation_length Hp) as Hl. destruct l' as [|x' [|y' l']]; try done.
    cut (merge_sort String.le (x :: y :: l) = merge_sort String.le (x' :: y' :: l'));
      [intros Heq; unfold resolve_names; by rewrite Heq|].
    apply (StronglySorted_unique String.le); [apply (StronglySorted_merge_sort _)..|].
    rewrite !merge_sort_Permutation. exact Hp.
Qed.

Section LookupSpec.
Context `{HashIterLaws}.

Lemma hash_names_perm {A} (m : gmap string A) : (hash_iter m).*1 ≡ₚ elements (dom m).
Proof.
  apply NoDup_Permutation.
  - rewrite hash_iter_perm. apply NoDup_fst_map_to_list.
  - apply NoDup_elements.
  - intros k. rewrite elem_of_elements, elem_of_dom, list_elem_of_fmap. split.
    + intros ([k' x] & -> & Hx). apply hash_iter_elem_of in Hx. eauto.
    + intros [x Hx]. exists (k, x). by rewrite hash_iter_elem_of.
Qed.

Lemma observed_names_perm (m : gmap string AttributionMetadata) :
  (List.filter (λ kv, is_observed kv.2) (hash_iter m)).*1
  ≡ₚ elements (dom (filter (λ kv, is_observed kv.2 = true) m)).
Proof.
  apply NoDup_Permutation.
  - assert (Hnd : NoDup (hash_iter m).*1) by (rewrite hash_iter_perm; apply NoDup_fst_map_to_list).
    revert Hnd. generalize (hash_iter m). intros l. induction l as [|kv l IH]; cbn; [done|].
    rewrite NoDup_cons. intros [Hn Hl]. destruct (is_observed kv.2); [|by apply IH].
    cbn. apply NoDup_cons. split; [|by apply IH]. intros Hin. apply Hn.
    apply list_elem_of_fmap in Hin as (x & Hx & Hin). apply list_elem_of_fmap. exists x. split; [done|].
    apply list_elem_of_In in Hin. apply filter_In in Hin as [Hin _]. by apply list_elem_of_In.
  - apply NoDup_elements.
  - intros k. rewrite elem_of_elements, elem_of_dom, list_elem_of_fmap. split.
    + intros ([k' x] & -> & Hx). apply list_elem_of_In, filter_In in Hx as [Hx Ho].
      apply list_elem_of_In, hash_iter_elem_of in Hx. exists x. by apply map_lookup_filter_Some.
    + intros [x [Hx Ho]%map_lookup_filter_Some]. exists (k, x). split; [done|].
      apply list_elem_of_In, filter_In. split; [|done]. by apply list_elem_of_In, hash_iter_elem_of.
Qed.

Lemma candidate_names_spec m : resolve_names (candidate_names m) = spec_resolution (spec_names m).
Proof.
  apply resolve_names_perm. unfold candidate_names, spec_names.
  pose proof (observed_names_perm m) as Hp. revert Hp. generalize (List.filter (λ kv, is_observed kv.2) (hash_iter m)).*1.
  intros observed Hp. case_decide as Hd.
  - rewrite Hd, elements_empty in Hp. apply Permutation_nil_r in Hp as ->. apply hash_names_perm.
  - destruct observed as [|x l]; [|done]. exfalso. apply Hd.
    symmetry in Hp. apply Permutation_nil_r, elements_empty_inv in Hp. set_solver.
Qed.

(** A lookup answers by the records active at its time. *)
Lemma lookup_forward_spec addr now c :
  (lookup_forward addr now c).1 = spec_resolution (spec_names (unexpired now (records c addr))).
Proof.
  unfold lookup_forward, records. destruct (forward_cache c !! addr) as [m|]; cbn;
    [apply candidate_names_spec|done].
Qed.

Lemma lookup_forward_records addr now c ip now' :
  (now ≤ now')%Z →
  unexpired now' (records (lookup_forward addr now c).2 ip) = unexpired now' (records c ip).
Proof.
  intros Hle. unfold lookup_forward, records. destruct (forward_cache c !! addr) as [m|] eqn:Em; [|done].
  cbn. destruct (decide (ip = addr)) as [->|Hne].
  - rewrite lookup_insert_eq, Em. by apply unexpired_unexpired.
  - by rewrite lookup_insert_ne.
Qed.

End LookupSpec.

(** ** The history of insertions *)

(** One insertion into the forward cache: address, name as stored, metadata. *)
Record insertion := { i_ip : IpAddr; i_name : string; i_meta : AttributionMetadata }.

(** What the code calls the cache with, and when. *)
Inductive cache_event :=
  | EvBatch (now : Instant) (domain : string) (answers : list (IpAddr * Duration)) (tgid : Z)
  | EvResolved (resolved : list (string * IpAddr * Instant))
  | EvLookup (now : Instant) (ip : string)
  | EvReverse (now : Instant) (addr : IpAddr) (host : option string).

Definition stored_name (domain : string) : string := to_ascii_lowercase (trim_end_dots domain).

(** The insertions an event asks for. *)
Definition insertions (e : cache_event) : list insertion :=
  match e with
  | EvBatch now domain answers tgid =>
      let domain := trim_end_dots (trim domain) in
      if String.eqb domain "" || (MAX_OBSERVED_BATCH <? length answers) then []
      else map (λ '(ip, ex), {| i_ip := ip; i_name := stored_name domain;
                  i_meta := {| source := ObservedDns tgid; expires_at := ex |} |}) (staged now answers)
  | EvResolved resolved =>
      map (λ '(domain, ip, now), {| i_ip := ip; i_name := stored_name domain;
             i_meta := {| source := StartupSeed; expires_at := (now + STARTUP_SEED_TTL)%Z |} |}) resolved
  | _ => []
  end.

(** The latest record of each name of an address, nothing pruned. *)
Definition apply_insertion (ip : IpAddr) (m : gmap string AttributionMetadata) (i : insertion) :
    gmap string AttributionMetadata :=
  if decide (i_ip i = ip) then <[i_name i := i_meta i]> m else m.

Definition history_records (h : list insertion) (ip : IpAddr) : gmap string AttributionMetadata :=
  fold_left (apply_insertion ip) h ∅.

Section History.
Context `{HashIterLaws}.

Definition cache_step (e : cache_event) (c : DnsCache) : DnsCache :=
  match e with
  | EvBatch now domain answers tgid => (commit_observed_batch now domain answers tgid c).2
  | EvResolved resolved => record_resolved_domains resolved c
  | EvLookup now ip => (lookup_attribution now ip c).2
  | EvReverse now addr host => (commit_reverse_lookup now addr host c).2
  end.

(** The clock reading at which an event prunes expired records. *)
Definition prunes_at (e : cache_event) : option Instant :=
  match e with EvLookup now _ | EvReverse now _ _ => Some now | _ => None end.

(** The cache and the history agree on every record still active at [now]. *)
Definition agrees (now : Instant) (c : DnsCache) (h : list insertion) : Prop :=
  ∀ ip, unexpired now (records c ip) = unexpired now (history_records h ip).

Lemma agrees_insert now c h domain ip src ex :
  agrees now c h →
  agrees now (insert_record domain ip src ex c)
    (h ++ [{| i_ip := ip; i_name := stored_name domain;
              i_meta := {| source := src; expires_at := ex |} |}]).
Proof.
  intros Ha ip'. unfold history_records. rewrite fold_left_app. cbn [fold_left].
  unfold apply_insertion at 1. cbn [i_ip i_name i_meta]. rewrite records_insert.
  destruct (decide (ip' = ip)) as [->|Hne].
  - rewrite decide_True by done. apply unexpired_insert, Ha.
  - rewrite decide_False by congruence. apply Ha.
Qed.

Lemma agrees_commit now l : ∀ c h domain tgid,
  trim_end_dots domain = domain → agrees now c h →
  agrees now (commit_staged domain tgid l c)
    (h ++ map (λ '(ip, ex), {| i_ip := ip; i_name := stored_name domain;
       i_meta := {| source := ObservedDns tgid; expires_at := ex |} |}) l).
Proof.
  induction l as [|[ip ex] l IH]; intros c h domain tgid Hd Ha; cbn; [by rewrite app_nil_r|].
  rewrite cons_middle, app_assoc. apply IH; [done|]. by apply agrees_insert.
Qed.

Lemma agrees_resolved now l : ∀ c h,
  agrees now c h →
  agrees now (record_resolved_domains l c) (h ++ insertions (EvResolved l)).
Proof.
  induction l as [|[[d ip] t] l IH]; intros c h Ha; cbn; [by rewrite app_nil_r|].
  rewrite cons_middle, app_assoc. by apply IH, agrees_insert.
Qed.

Lemma lookup_forward_agrees addr now now' c h :
  (now ≤ now')%Z → agrees now' c h → agrees now' (lookup_forward addr now c).2 h.
Proof. intros Hle Ha ip. by rewrite lookup_forward_records. Qed.

Lemma cache_step_agrees e now c h :
  (∀ t, prunes_at e = Some t → (t ≤ now)%Z) → agrees now c h →
  agrees now (cache_step e c) (h ++ insertions e).
Proof.
  intros Hp Ha. destruct e as [t domain answers tgid|l|t ip|t addr host]; cbn [cache_step insertions].
  - unfold commit_observed_batch. cbv zeta.
    destruct (String.eqb _ ""); cbn [orb snd]; [by rewrite app_nil_r|].
    destruct (MAX_OBSERVED_BATCH <? length answers); cbn [orb snd]; [by rewrite app_nil_r|].
    apply agrees_commit; [apply trim_end_char_idem|done].
  - by apply agrees_resolved.
  - rewrite app_nil_r. specialize (Hp t eq_refl). unfold lookup_attribution.
    destruct (_ || _); [done|]. destruct (parse_ip ip) as [addr|]; [|done].
    pose proof (lookup_forward_agrees addr t now c h Hp Ha) as Hl.
    by destruct (lookup_forward addr t c) as [[r|] c'].
  - rewrite app_nil_r. specialize (Hp t eq_refl). unfold commit_reverse_lookup.
    pose proof (lookup_forward_agrees addr t now c h Hp Ha) as Hl.
    by destruct (lookup_forward addr t c) as [[r|] c'].
Qed.

(** C29: A lookup answers as the history of all events would, in which the latest
    insertion of each name for the address stands: among those unexpired, the observed
    names, or the seeded ones if none is observed; one name exactly, several as an
    ambiguous list. This holds whatever was looked up, reverse-resolved and pruned in
    between, provided no such prune ran at a later time than the lookup. Because the
    latest insertion of a name replaces the earlier one, a seed refresh of a name takes
    the place of its unexpired observed record, although the comments want every active
    name kept; attribution_gaps and the finding show the consequence. *)
Theorem dns_lookup_refines_history events addr now :
  Forall (λ e, ∀ t, prunes_at e = Some t → (t ≤ now)%Z) events →
  (lookup_forward addr now (fold_left (λ c e, cache_step e c) events DnsCache_new)).1 =
  spec_resolution (spec_names (unexpired now
    (history_records (events ≫= insertions) addr))).
Proof.
  intros Hev. rewrite lookup_forward_spec. do 2 f_equal.
  assert (Hgen : ∀ c h, agrees now c h →
    agrees now (fold_left (λ c e, cache_step e c) events c) (h ++ (events ≫= insertions))).
  { clear addr. induction Hev as [|e events He Hev IH]; intros c h Ha; cbn.
    - by rewrite app_nil_r.
    - rewrite app_assoc. by apply IH, cache_step_agrees. }
  specialize (Hgen DnsCache_new []). apply Hgen. intros ip. done.
Qed.

End History.

(** ** Reading the answers of a lookup *)

Lemma spec_resolution_elem S name :
  name ∈ S →
  spec_resolution S = Some (Exact name) ∨
  ∃ l, spec_resolution S = Some (Ambiguous l) ∧ name ∈ l.
Proof.
  intros Hin%elem_of_elements. unfold spec_resolution. revert Hin.
  generalize (elements S). intros [|x [|y l]] Hin.
  - by apply not_elem_of_nil in Hin.
  - left. apply list_elem_of_singleton in Hin as ->. done.
  - right. eexists. split; [reflexivity|]. by rewrite merge_sort_Permutation.
Qed.

Lemma spec_resolution_exact S name : spec_resolution S = Some (Exact name) → S = {[ name ]}.
Proof.
  unfold spec_resolution. intros Hr. apply set_eq. intros x. rewrite <-elem_of_elements.
  destruct (elements S) as [|y [|z l]]; [done| |done]. injection Hr as ->.
  rewrite list_elem_of_singleton. set_solver.
Qed.

Lemma observed_in_names m name r :
  m !! name = Some r → is_observed r = true → name ∈ spec_names m.
Proof.
  intros Hm Ho. unfold spec_names.
  assert (Hd : name ∈ dom (filter (λ kv, is_observed kv.2 = true) m)).
  { apply elem_of_dom. exists r. by apply map_lookup_filter_Some. }
  case_decide; set_solver.
Qed.

Lemma spec_names_active m name :
  name ∈ spec_names m → ∃ r, m !! name = Some r ∧
    ((∃ n' r', m !! n' = Some r' ∧ is_observed r' = true) → is_observed r = true).
Proof.
  unfold spec_names. case_decide as Hd.
  - intros [r Hr]%elem_of_dom. exists r. split; [done|]. intros (n' & r' & Hr' & Ho).
    exfalso. assert (Hin : n' ∈ dom (filter (λ kv, is_observed kv.2 = true) m)).
    { apply elem_of_dom. exists r'. by apply map_lookup_filter_Some. }
    set_solver.
  - intros [r [Hr Ho]%map_lookup_filter_Some]%elem_of_dom. by exists r.
Qed.

(** ** Batches of answers *)

Lemma records_remove_reverse ip c ip' : records (remove_reverse ip c) ip' = records c ip'.
Proof. done. Qed.

Lemma commit_staged_other domain tgid l : ∀ c ip,
  ip ∉ l.*1 → records (commit_staged domain tgid l c) ip = records c ip ∧
    reverse_cache (commit_staged domain tgid l c) !! ip = reverse_cache c !! ip.
Proof.
  induction l as [|[ip' ex] l IH]; intros c ip Hn; cbn in *; [done|].
  apply not_elem_of_cons in Hn as [Hne Hn].
  destruct (IH (remove_reverse ip' (insert_record domain ip' (ObservedDns tgid) ex c)) ip Hn)
    as [Hr Hv].
  unfold commit_staged in *. rewrite Hr, Hv, records_remove_reverse, records_insert, decide_False by done.
  split; [done|]. cbn. by rewrite lookup_delete_ne.
Qed.

Lemma commit_staged_answered domain tgid l : ∀ c ip,
  ip ∈ l.*1 → ∃ ex, (ip, ex) ∈ l ∧
    records (commit_staged domain tgid l c) ip !! stored_name domain =
      Some {| source := ObservedDns tgid; expires_at := ex |} ∧
    reverse_cache (commit_staged domain tgid l c) !! ip = None.
Proof.
  induction l as [|[ip' ex] l IH]; intros c ip Hin; cbn in *; [by apply not_elem_of_nil in Hin|].
  set (c1 := remove_reverse ip' (insert_record domain ip' (ObservedDns tgid) ex c)).
  change (fold_left _ l _) with (commit_staged domain tgid l c1).
  destruct (decide (ip ∈ l.*1)) as [Hl|Hl].
  - destruct (IH c1 ip Hl) as (ex' & Hex & Hr & Hv). exists ex'. split_and!; [by right|done..].
  - apply elem_of_cons in Hin as [->|Hin]; [|done]. exists ex.
    destruct (commit_staged_other domain tgid l c1 ip' Hl) as [-> ->].
    split_and!; [by left| |cbn; by rewrite lookup_delete_eq].
    unfold c1. rewrite records_remove_reverse, records_insert, decide_True by done.
    by rewrite lookup_insert_eq.
Qed.

Lemma clamp_floor x : (OBSERVED_ATTRIBUTION_TTL_FLOOR ≤
  clamp OBSERVED_ATTRIBUTION_TTL_FLOOR MAX_OBSERVED_TTL x ≤ MAX_OBSERVED_TTL)%Z.
Proof.
  unfold clamp, OBSERVED_ATTRIBUTION_TTL_FLOOR, MAX_OBSERVED_TTL, from_secs, nanos_per_sec.
  destruct (Z.ltb_spec x (10 * 60 * 1000000000)), (Z.ltb_spec (60 * 60 * 1000000000) x); lia.
Qed.

Lemma staged_spec now answers ip ex :
  (ip, ex) ∈ staged now answers → (now + OBSERVED_ATTRIBUTION_TTL_FLOOR ≤ ex ≤ now + MAX_OBSERVED_TTL)%Z.
Proof.
  unfold staged. intros ([ip' ttl] & [= -> ->] & _)%list_elem_of_fmap.
  pose proof (clamp_floor ttl). lia.
Qed.

Lemma staged_ips now answers : (staged now answers).*1 = answers.*1.
Proof.
  unfold staged. induction answers as [|[ip ttl] l IH]; cbn; [done|]. by rewrite IH.
Qed.

Section Answers.
Context `{HashIterLaws}.

(** A batch of answers is committed whole or not at all.  A refused batch,
    whose domain is empty or which is too long, leaves the cache as it was; an
    accepted one names every answered address, for ten minutes whatever its TTL,
    exactly or as one of several candidates, even if a reverse lookup had failed,
    and touches no other address. *)
Theorem commit_batch_atomic now domain answers tgid c :
  let name := stored_name (trim_end_dots (trim domain)) in
  match commit_observed_batch now domain answers tgid c with
  | (inr EmptyDomain, c') => c' = c ∧ trim_end_dots (trim domain) = ""
  | (inr TooManyAnswers, c') => c' = c ∧ 256 < length answers
  | (inl n, c') => n = length answers ∧ n ≤ 256 ∧ ∀ ip,
      if decide (ip ∈ answers.*1) then
        reverse_cache c' !! ip = None ∧
        ∀ t, (t < now + from_secs 600)%Z →
          (lookup_forward ip t c').1 = Some (Exact name) ∨
          ∃ l, (lookup_forward ip t c').1 = Some (Ambiguous l) ∧ name ∈ l
      else records c' ip = records c ip ∧ reverse_cache c' !! ip = reverse_cache c !! ip
  end.
Proof.
  cbv zeta. unfold commit_observed_batch. cbv zeta.
  destruct (String.eqb_spec (trim_end_dots (trim domain)) "") as [Hd|Hd]; [done|].
  destruct (Nat.ltb_spec MAX_OBSERVED_BATCH (length answers)) as [Hl|Hl]; [done|].
  split_and!; [by unfold staged; rewrite length_map|by unfold staged; rewrite length_map|].
  intros ip. case_decide as Hip; rewrite <-(staged_ips now) in Hip.
  - destruct (commit_staged_answered (trim_end_dots (trim domain)) tgid _ c ip Hip)
      as (ex & Hex & Hr & Hv).
    split; [done|]. intros t Ht. rewrite lookup_forward_spec. apply spec_resolution_elem.
    eapply (observed_in_names _ _ {| source := ObservedDns tgid; expires_at := ex |}); [|reflexivity].
    apply unexpired_lookup. split; [exact Hr|].
    apply staged_spec in Hex. cbn. unfold OBSERVED_ATTRIBUTION_TTL_FLOOR in Hex.
    change (10 * 60)%Z with 600%Z in Hex. lia.
  - by apply commit_staged_other.
Qed.

(** A single name is reported only without a rival.  If a lookup answers one
    name, then either that name has an active record, no other record that counts
    is active, and if the supervised program observed any name for the address, it
    observed this one; or there is no active record and the name is that of a
    reverse lookup still cached. *)
Theorem exact_attribution_sound ip now c name :
  (lookup_attribution now ip c).1 = Ready (Exact name) →
  ∃ addr, parse_ip ip = Some addr ∧
  ((∃ r, unexpired now (records c addr) !! name = Some r ∧
      ∀ name' r', unexpired now (records c addr) !! name' = Some r' → name' ≠ name →
        is_observed r = true ∧ is_observed r' = false) ∨
   (unexpired now (records c addr) = ∅ ∧
    ∃ e, reverse_cache c !! addr = Some e ∧ hostname e = Some name ∧ (now < reverse_expires_at e)%Z)).
Proof.
  unfold lookup_attribution. destruct (_ || _); [done|].
  destruct (parse_ip ip) as [addr|]; [|done]. intros Hr. exists addr. split; [done|].
  pose proof (lookup_forward_spec addr now c) as Hf.
  assert (Hrev : reverse_cache (lookup_forward addr now c).2 = reverse_cache c).
  { unfold lookup_forward. by destruct (forward_cache c !! addr). }
  destruct (lookup_forward addr now c) as [[r|] c']; cbn [fst snd] in *.
  - left. injection Hr as ->. symmetry in Hf. apply spec_resolution_exact in Hf as HS.
    destruct (spec_names_active (unexpired now (records c addr)) name) as (r & Hr & Ho); [set_solver|].
    exists r. split; [done|]. intros name' r' Hr' Hne.
    assert (Hno : is_observed r' = false).
    { destruct (is_observed r') eqn:Eo; [|done]. exfalso. apply Hne.
      pose proof (observed_in_names _ _ _ Hr' Eo). set_solver. }
    split; [|done]. destruct (is_observed r) eqn:Eo; [done|]. exfalso.
    assert (Hd : dom (filter (λ kv, is_observed kv.2 = true) (unexpired now (records c addr))) = ∅
      ∨ dom (filter (λ kv, is_observed kv.2 = true) (unexpired now (records c addr))) ≠ ∅)
      by (destruct (decide (dom (filter (λ kv, is_observed kv.2 = true) (unexpired now (records c addr))) = ∅)); auto).
    destruct Hd as [Hd|Hd].
    + unfold spec_names in HS. rewrite decide_True in HS by done.
      assert (name' ∈ dom (unexpired now (records c addr))) by (apply elem_of_dom; eauto). set_solver.
    + apply set_choose_L in Hd as [n' [x [Hx Hox]%map_lookup_filter_Some]%elem_of_dom].
      assert (false = true) by (apply Ho; eauto). done.
  - right. rewrite Hrev in Hr. split.
    + symmetry in Hf. destruct (decide (spec_names (unexpired now (records c addr)) = ∅)) as [He|He].
      * apply dom_empty_inv_L. unfold spec_names in He. by case_decide.
      * apply set_choose_L in He as [x Hx]. apply spec_resolution_elem in Hx as [Hx|(l & Hx & _)]; congruence.
    + destruct (reverse_cache c !! addr) as [e|]; [|done]. exists e.
      destruct (Z.ltb_spec now (reverse_expires_at e)); [|done].
      destruct (hostname e) as [h|]; [|done]. by injection Hr as ->.
Qed.

End Answers.

(** ** Rate limiting of re-resolution *)

(** The attempts at the given times: those that were let through. *)
Fixpoint grants (times : list Instant) (f : DnsForwardConfirm) : list Instant :=
  match times with
  | [] => []
  | t :: times =>
      let '(granted, f) := try_begin t f in
      (if granted then [t] else []) ++ grants times f
  end.

Lemma grants_subset times : ∀ f g, g ∈ grants times f → g ∈ times.
Proof.
  induction times as [|t times IH]; intros f g; cbn; [done|].
  destruct (try_begin t f) as [[] f']; cbn; rewrite ?elem_of_cons; naive_solver.
Qed.

Lemma grants_last times : ∀ f,
  last_attempt (fold_left (λ f t, (try_begin t f).2) times f) =
  match last (grants times f) with Some g => Some g | None => last_attempt f end.
Proof.
  induction times as [|t times IH]; intros f; cbn [fold_left grants]; [done|]. rewrite IH.
  unfold try_begin. destruct (match last_attempt f with Some _ => _ | None => _ end); cbn [fst snd app].
  - done.
  - rewrite last_cons. by destruct (last (grants times _)).
Qed.

Lemma grants_le_last times : ∀ f g l,
  StronglySorted Z.le times → g ∈ grants times f → last (grants times f) = Some l → (g ≤ l)%Z.
Proof.
  induction times as [|t times IH]; intros f g l Hs; cbn [grants]; [by intros ?%not_elem_of_nil|].
  apply StronglySorted_inv in Hs as [Hs Ht]. destruct (try_begin t f) as [[] f']; cbn [app].
  - intros [->|Hg]%elem_of_cons Hl.
    + rewrite last_cons in Hl. destruct (last (grants times f')) as [l'|] eqn:El; [|injection Hl as ->; lia].
      injection Hl as ->. apply last_Some_elem_of, grants_subset in El.
      rewrite Forall_forall in Ht. by apply Ht.
    + rewrite last_cons in Hl. destruct (last (grants times f')) as [l'|] eqn:El.
      * injection Hl as ->. by eapply IH.
      * apply last_None in El. rewrite El in Hg. by apply not_elem_of_nil in Hg.
  - intros Hg Hl. by eapply IH.
Qed.

(** Of any attempts in the order of time, exactly those are let through that
    come at least 15 seconds after every one let through before: a burst costs one
    re-resolution, and a quiet period is never refused one. *)
Theorem try_begin_spacing ds before t f0 :
  DnsForwardConfirm_new ds = Some f0 → StronglySorted Z.le (before ++ [t]) →
  (try_begin t (fold_left (λ f t, (try_begin t f).2) before f0)).1 = true ↔
  Forall (λ g, g + from_secs 15 ≤ t)%Z (grants before f0).
Proof.
  intros Hnew Hs. assert (Hf0 : last_attempt f0 = None) by (destruct ds; [done|by injection Hnew as <-]).
  assert (Hbefore : StronglySorted Z.le before) by by apply StronglySorted_app_1_l in Hs.
  assert (Hle : ∀ g, g ∈ grants before f0 → (g ≤ t)%Z).
  { intros g Hg%grants_subset. eapply (StronglySorted_app_1_elem_of _ before [t]); [done..|by left]. }
  unfold try_begin. rewrite grants_last, Hf0. destruct (last (grants before f0)) as [l|] eqn:El.
  - apply last_Some_elem_of in El as Hl. specialize (Hle l Hl) as Hlt.
    unfold saturating_duration_since, FORWARD_CONFIRM_MIN_INTERVAL, from_secs, nanos_per_sec.
    rewrite Z.max_r by lia. destruct (Z.ltb_spec (t - l) (15 * 1000000000)); cbn; split; try done.
    + intros Hall. rewrite Forall_forall in Hall. specialize (Hall l Hl). lia.
    + intros _. apply Forall_forall. intros g Hg.
      pose proof (grants_le_last before f0 g l Hbefore Hg El). lia.
  - apply last_None in El as ->. cbn. split; [constructor|done].
Qed.

(** ** Two surprises, and witnesses *)

Section Examples.
#[local] Existing Instance concrete_iter.
#[local] Existing Instance concrete_iter_laws.

Definition example_ip : IpAddr := V4 3221225994.

Definition two_observed : DnsCache :=
  record_observed 0 "untrusted.example" example_ip 0 7
    (record_observed 0 "trusted.example" example_ip 0 7 DnsCache_new).

Example two_observed_ambiguous :
  (lookup_attribution 1 "192.0.2.10" two_observed).1 =
  Ready (Ambiguous ["trusted.example"; "untrusted.example"]).
Proof. vm_compute. reflexivity. Qed.

(** An observed name is forgotten as such when the supervisor resolves the
    same name itself: after the refresh of one of two conflicting names the other is
    reported alone.  And a reverse lookup is believed as it is: with nothing else
    known about an address, the name its owner publishes is reported as exact. *)
Theorem attribution_gaps :
  (lookup_attribution 1 "192.0.2.10"
     (record_resolved_domains [("trusted.example", example_ip, 1%Z)] two_observed)).1 =
    Ready (Exact "untrusted.example") ∧
  ∀ host now now2,
    (resolve_attribution (λ _, Some host) now now2 "203.0.113.9" DnsCache_new).1 = Exact host.
Proof. split; [vm_compute; reflexivity|done]. Qed.

Lemma dns_lookup_refines_history_witness :
  let events := [EvBatch 0 "a.example." [(example_ip, 0%Z)] 7; EvLookup 1 "192.0.2.10";
                 EvResolved [("b.example", example_ip, 2%Z)]] in
  (lookup_forward example_ip 3 (fold_left (λ c e, cache_step e c) events DnsCache_new)).1 =
  spec_resolution (spec_names (unexpired 3 (history_records (events ≫= insertions) example_ip))).
Proof.
  intros events. apply dns_lookup_refines_history.
  repeat (apply Forall_cons_2; [cbn; intros t Ht; inversion Ht; lia|]). apply Forall_nil_2.
Defined.

Lemma commit_batch_atomic_witness :
  (commit_observed_batch 0 "a.example" [(example_ip, 0%Z)] 7 two_observed).1 = inl 1 ∧
  let name := stored_name (trim_end_dots (trim "a.example")) in
  match commit_observed_batch 0 "a.example" [(example_ip, 0%Z)] 7 two_observed with
  | (inr EmptyDomain, c') => c' = two_observed ∧ trim_end_dots (trim "a.example") = ""
  | (inr TooManyAnswers, c') => c' = two_observed ∧ 256 < length [(example_ip, 0%Z)]
  | (inl n, c') => n = length [(example_ip, 0%Z)] ∧ n ≤ 256 ∧ ∀ ip,
      if decide (ip ∈ [(example_ip, 0%Z)].*1) then
        reverse_cache c' !! ip = None ∧
        ∀ t, (t < 0 + from_secs 600)%Z →
          (lookup_forward ip t c').1 = Some (Exact name) ∨
          ∃ l, (lookup_forward ip t c').1 = Some (Ambiguous l) ∧ name ∈ l
      else records c' ip = records two_observed ip ∧
           reverse_cache c' !! ip = reverse_cache two_observed !! ip
  end.
Proof.
  split; [vm_compute; reflexivity|].
  exact (commit_batch_atomic 0 "a.example" [(example_ip, 0%Z)] 7 two_observed).
Defined.

Lemma exact_attribution_sound_witness :
  let c := record_observed 0 "exact.example" example_ip 0 7
             (record_resolved_domains [("seed.example", example_ip, 0%Z)] DnsCache_new) in
  (lookup_attribution 1 "192.0.2.10" c).1 = Ready (Exact "exact.example") ∧
  ∃ addr, parse_ip "192.0.2.10" = Some addr ∧
  ((∃ r, unexpired 1 (records c addr) !! "exact.example" = Some r ∧
      ∀ name' r', unexpired 1 (records c addr) !! name' = Some r' → name' ≠ "exact.example" →
        is_observed r = true ∧ is_observed r' = false) ∨
   (unexpired 1 (records c addr) = ∅ ∧
    ∃ e, reverse_cache c !! addr = Some e ∧ hostname e = Some "exact.example" ∧
      (1 < reverse_expires_at e)%Z)).
Proof.
  intros c. assert (Hc : (lookup_attribution 1 "192.0.2.10" c).1 = Ready (Exact "exact.example"))
    by (vm_compute; reflexivity).
  split; [exact Hc|]. exact (exact_attribution_sound "192.0.2.10" 1 c "exact.example" Hc).
Defined.

Lemma try_begin_spacing_witness :
  let f0 := {| domains := ["github.com"]; last_attempt := None |} in
  (try_begin (from_secs 20) (fold_left (λ f t, (try_begin t f).2) [from_secs 1; from_secs 7] f0)).1 = true ↔
  Forall (λ g, g + from_secs 15 ≤ from_secs 20)%Z (grants [from_secs 1; from_secs 7] f0).
Proof.
  intros f0. apply (try_begin_spacing ["github.com"]); [reflexivity|].
  repeat (constructor; [|repeat (constructor; [unfold from_secs, nanos_per_sec; lia|]); constructor]).
  constructor.
Defined.

End Examples.
