(* ===== verification/SensitivePaths.v ===== *)
(** * Which paths are sensitive

    [grith-supervisor/src/syscall_map.rs], the classifiers of paths, and the
    file-name tokens of [grith-proxy/src/paths.rs].  They decide which file calls
    may be allowed without evaluation: noise, credential stores, in-project
    secrets, everything sensitive.  The Unicode case tables of the standard library
    are parameters. *)

From Stdlib Require Import Ascii String.
From S2P Require Import Prelude.

(** [str::to_lowercase], [char::is_uppercase] and [char::is_lowercase]; a [char] is
    its UTF-8 bytes. *)
Class Unicode := {
  to_lowercase : string → string;
  is_uppercase : string → bool;
  is_lowercase : string → bool;
}.

(** [str::to_lowercase] on ASCII text, as the standard library documents it. *)
Definition is_ascii (s : string) : bool :=
  forallb (λ c, (N_of_ascii c <? 128)%N) (list_ascii_of_string s).

Class UnicodeLaws `{Unicode} : Prop :=
  to_lowercase_ascii : ∀ s, is_ascii s = true → to_lowercase s = to_ascii_lowercase s.

(** ** Tokens of file names *)

Definition SENSITIVE_NAME_TOKENS : list string :=
  ["secret"; "secrets"; "credential"; "credentials"; "token"; "tokens"; "passwd"; "apikey"; "auth"].

(** [str::chars] on valid UTF-8: the first byte tells the length. *)
Definition char_len (c : ascii) : nat :=
  let n := N_of_ascii c in
  if (n <? 192)%N then 1 else if (n <? 224)%N then 2 else if (n <? 240)%N then 3 else 4.

Fixpoint chars_fuel (n : nat) (s : string) : list string :=
  match n, s with
  | S n', String c _ =>
      let k := char_len c in
      substring 0 k s :: chars_fuel n' (substring k (String.length s - k) s)
  | _, _ => []
  end.

Definition chars (s : string) : list string := chars_fuel (String.length s) s.

Definition is_ascii_digit (ch : string) : bool :=
  match ch with
  | String c EmptyString => ((48 <=? N_of_ascii c) && (N_of_ascii c <=? 57))%N
  | _ => false
  end.

Section Classifiers.
Context `{Unicode}.

Definition flush (current : string) : list string :=
  if String.eqb current "" then [] else [to_lowercase current].

Definition camel_boundary (prev ch : string) (next : option string) : bool :=
  is_uppercase ch &&
  (is_lowercase prev || is_ascii_digit prev ||
   (is_uppercase prev && match next with Some n => is_lowercase n | None => false end)).

Fixpoint tokenise_loop (prev : option string) (current : string) (cs : list string) : list string :=
  match cs with
  | [] => flush current
  | ch :: rest =>
      if str_mem ch ["-"; "_"; "."; " "] then flush current ++ tokenise_loop (Some ch) "" rest
      else
        let boundary :=
          match prev with
          | Some prev =>
              camel_boundary prev ch (head rest) || negb (Bool.eqb (is_ascii_digit ch) (is_ascii_digit prev))
          | None => false
          end in
        if boundary then flush current ++ tokenise_loop (Some ch) ch rest
        else tokenise_loop (Some ch) (current +:+ ch) rest
  end.

Definition tokenise_file_name (file_name : string) : list string :=
  tokenise_loop None "" (chars file_name).

Fixpoint adjacent (a b : string) (l : list string) : bool :=
  match l with
  | x :: (y :: _) as l' => (String.eqb x a && String.eqb y b) || adjacent a b l'
  | _ => false
  end.

Definition name_has_sensitive_token (file_name : string) : bool :=
  let tokens := tokenise_file_name file_name in
  existsb (λ t, str_mem t SENSITIVE_NAME_TOKENS) tokens || adjacent "api" "key" tokens.

(** ** Paths *)

(** [path.replace('\\', "/").to_lowercase()] *)
Definition path_lc (path : string) : string := to_lowercase (replace_char "\"%char "/"%char path).

Definition trim_slashes (s : string) : string := trim_end_char "/"%char s.

Definition last_component (s : string) : string := after_last "/"%char s.

Definition is_digits (s : string) : bool :=
  negb (String.eqb s "") && forallb is_ascii_digit (map (λ c, String c "") (list_ascii_of_string s)).

(** [splitn(2, '/')], the second part empty if there is no slash. *)
Definition is_cross_process_secret_proc_path (path : string) : bool :=
  match strip_prefix "/proc/" path with
  | None => false
  | Some rest =>
      if starts_with "self/" rest || starts_with "thread-self/" rest then false
      else
        let '(pid, sub) := default (rest, "") (split_once "/" rest) in
        is_digits pid && (String.eqb sub "environ" || String.eqb sub "mem")
  end.

Definition noise_prefixes : list string :=
  ["/sys/"; "/dev/null"; "/dev/urandom"; "/dev/random"; "/dev/pts/"; "/dev/tty"; "/dev/fd/"].

Definition noise_prefixes' : list string :=
  ["/etc/ssl/"; "/etc/ca-certificates/"; "/usr/share/ca-certificates/"; "/usr/lib/ssl/";
   "/usr/local/ssl/"; "/etc/ld.so."; "/etc/nsswitch"; "/etc/resolv.conf"; "/etc/hosts";
   "/etc/hostname"; "/etc/localtime"; "/etc/gai.conf"; "/etc/machine-id"; "/etc/dpkg/";
   "/etc/apt/"; "/etc/alternatives/"; "/etc/default/"; "/etc/lsb-release"; "/etc/os-release";
   "/etc/mime.types"; "/etc/shells"; "/etc/login.defs"; "/etc/environment"; "/etc/xdg/";
   "/etc/ssh/"; "/etc/passwd"; "/etc/group"; "/var/lib/dpkg/"; "/var/cache/"].

Definition is_noise_path (path : string) : bool :=
  (starts_with "/proc/" path && negb (is_cross_process_secret_proc_path path))
  || existsb (λ p, starts_with p path) noise_prefixes
  || str_mem path ["/dev/stdin"; "/dev/stdout"; "/dev/stderr"]
  || existsb (λ p, starts_with p path) noise_prefixes'
  || ends_with ".pyc" path
  || contains "__pycache__" path
  || starts_with "/tmp/." path.

Definition credential_dirs : list string :=
  ["/.ssh/"; "/.gnupg/"; "/.pki/"; "/.aws/"; "/.azure/"; "/.kube/"; "/.docker/"; "/.config/gcloud/"].

Definition credential_files : list string :=
  [".netrc"; ".npmrc"; ".pypirc"; ".pgpass"; ".git-credentials"; "id_rsa"; "id_ed25519"; "id_dsa";
   "id_ecdsa"].

Definition is_credential_store_path (path : string) : bool :=
  let lc := path_lc path in
  let file_name := last_component (trim_slashes lc) in
  let dir_probe := if ends_with "/" lc then lc else lc +:+ "/" in
  (contains "/.config/grith/" lc || contains "/config/grith/" lc)
  || existsb (λ d, contains d dir_probe) credential_dirs
  || str_mem file_name credential_files
  || (contains "/etc/shadow" lc || contains "/etc/sudoers" lc || contains "/etc/krb5.keytab" lc
      || contains "/library/keychains/" lc)
  || is_cross_process_secret_proc_path path.

Definition DOTENV_TEMPLATE_NAMES : list string :=
  [".env.example"; ".env.sample"; ".env.template"; ".env.dist"; ".env.defaults"].

Definition is_high_value_project_secret (path : string) : bool :=
  let file_name := last_component (trim_slashes (path_lc path)) in
  if str_mem file_name DOTENV_TEMPLATE_NAMES then false
  else
    String.eqb file_name ".env" || starts_with ".env." file_name
    || String.eqb file_name "master.key"
    || ends_with ".tfstate" file_name || ends_with ".tfstate.backup" file_name
    || ends_with ".p12" file_name || ends_with ".pfx" file_name.

Definition is_project_trust_guarded_path (path : string) : bool :=
  is_credential_store_path path || is_high_value_project_secret path.

Definition SOURCE_EXTS : list string :=
  [".php"; ".js"; ".jsx"; ".ts"; ".tsx"; ".mjs"; ".cjs"; ".vue"; ".py"; ".pyi"; ".rb"; ".go";
   ".rs"; ".java"; ".kt"; ".kts"; ".scala"; ".cs"; ".fs"; ".c"; ".h"; ".cc"; ".cpp"; ".cxx";
   ".hpp"; ".hh"; ".hxx"; ".swift"; ".m"; ".mm"; ".dart"; ".lua"; ".ex"; ".exs"; ".erl";
   ".clj"; ".cljs"; ".hs"; ".ml"; ".mli"; ".pl"; ".pm"; ".groovy"; ".jl"; ".nim"; ".zig";
   ".d"; ".pas"].

Definition is_source_code_filename (file_name : string) : bool :=
  existsb (λ ext, ends_with ext file_name) SOURCE_EXTS.

Definition is_sensitive_path (path : string) : bool :=
  let lc := path_lc path in
  let file_name := last_component lc in
  is_credential_store_path path
  || (ends_with ".pem" file_name || ends_with ".key" file_name || ends_with ".p12" file_name
      || ends_with ".pfx" file_name
      || str_mem file_name ["id_rsa"; "id_ed25519"; "id_dsa"; "id_ecdsa"])
  || (String.eqb file_name ".env" || starts_with ".env." file_name)
  || (ends_with ".tfstate" file_name || ends_with ".tfstate.backup" file_name)
  || str_mem file_name [".netrc"; ".npmrc"; ".pypirc"; ".pgpass"; ".bash_history"; ".zsh_history"]
  || (let world_readable_user_db := starts_with "/etc/passwd" lc || starts_with "/etc/group" lc in
      negb world_readable_user_db && name_has_sensitive_token file_name
      && negb (is_source_code_filename file_name)).

(** ** The guarded set is sensitive *)

Lemma trim_end_char_id c s : ends_with (String c "") s = false → trim_end_char c s = s.
Proof.
  induction s as [|a s IH]; [done|]. cbn [trim_end_char].
  intros He. assert (Hs : s ≠ "" → ends_with (String c "") s = false).
  { intros _. cbn in He. apply orb_false_iff in He as [_ He]. exact He. }
  destruct s as [|b s].
  - cbn. unfold ascii_eqb. destruct (Ascii.eqb_spec a c) as [->|]; [|done].
    cbn in He. by rewrite Ascii.eqb_refl in He.
  - rewrite IH by (by apply Hs). done.
Qed.

(** Every path that project trust must not cover (credential stores and
    in-project secrets) is sensitive, so its reads reach the proxy: provided the
    path is not written with a trailing slash. *)
Theorem guarded_paths_are_sensitive path :
  ends_with "/" (path_lc path) = false →
  is_project_trust_guarded_path path = true → is_sensitive_path path = true.
Proof.
  intros Hslash. unfold is_project_trust_guarded_path, is_sensitive_path. cbv zeta.
  destruct (is_credential_store_path path); [done|]. cbn [orb].
  unfold is_high_value_project_secret, trim_slashes. rewrite trim_end_char_id by done.
  set (f := last_component (path_lc path)). destruct (str_mem f DOTENV_TEMPLATE_NAMES); [done|].
  destruct (String.eqb f ".env"), (starts_with ".env." f), (ends_with ".tfstate" f),
    (ends_with ".tfstate.backup" f), (ends_with ".p12" f), (ends_with ".pfx" f); cbn [orb];
    rewrite ?orb_true_r; try done; cbn [orb].
  destruct (String.eqb_spec f "master.key") as [->|]; [|done]. intros _.
  replace (ends_with ".key" "master.key") with true by reflexivity. by rewrite !orb_true_r.
Qed.

End Classifiers.

(** ASCII case tables, for examples. *)
Definition ascii_unicode : Unicode := {|
  to_lowercase := to_ascii_lowercase;
  is_uppercase ch := negb (String.eqb (to_ascii_lowercase ch) ch);
  is_lowercase ch := negb (String.eqb (to_ascii_uppercase ch) ch);
|}.

Lemma ascii_unicode_laws : @UnicodeLaws ascii_unicode.
Proof. intros s _. reflexivity. Qed.

Section Examples.
#[local] Existing Instance ascii_unicode.

Example token_auth : name_has_sensitive_token "auth.json" = true. Proof. reflexivity. Qed.
Example token_hash : name_has_sensitive_token "773v9mxq3ohs6twiwt1rzauth.o" = false.
Proof. reflexivity. Qed.
Example token_camel : tokenise_file_name "HTTPServerToken.php" = ["http"; "server"; "token"; "php"].
Proof. reflexivity. Qed.
Example token_api_key : name_has_sensitive_token "apiKey.conf" = true. Proof. reflexivity. Qed.

Lemma guarded_paths_are_sensitive_witness :
  is_sensitive_path "/home/u/proj/config/master.key" = true.
Proof. apply guarded_paths_are_sensitive; reflexivity. Defined.

(** With a trailing slash the inclusion fails: a directory named [.env] is
    guarded but not sensitive. *)
Theorem guarded_directory_not_sensitive :
  is_project_trust_guarded_path "/home/u/proj/.env/" = true ∧
  is_sensitive_path "/home/u/proj/.env/" = false.
Proof. split; reflexivity. Qed.

End Examples.
