(* ===== verification/Paths.v ===== *)
(** * Paths and the file system

    [std::path] on the texts and components the supervisor handles, and the file
    system it asks, as an interface: what exists, what a path resolves to, who owns
    it.  A path without [.] and [..] is a list of components with a flag for the
    leading slash. *)

From Stdlib Require Import Ascii String.
From S2P Require Import Prelude.

Record PathBuf := {
  p_absolute : bool;
  p_components : list string;
}.

#[export] Instance PathBuf_eq_dec : EqDecision PathBuf.
Proof. solve_decision. Defined.

Definition root_path (components : list string) : PathBuf :=
  {| p_absolute := true; p_components := components |}.

(** The text of a path, and with a function applied to each component.
    [to_string_lossy] replaces invalid UTF-8, which never spans a slash, so it
    acts on components. *)
Definition path_text_with (f : string → string) (p : PathBuf) : string :=
  (if p_absolute p then "/" else "") +:+ join "/" (map f (p_components p)).

Definition path_text (p : PathBuf) : string := path_text_with id p.

(** [Path::components] of a raw text. *)
Inductive Component :=
  | RootDir
  | CurDir
  | ParentDir
  | Normal (name : string).

Definition components_of (s : string) : list Component :=
  let absolute := starts_with "/" s in
  let pieces := List.filter (λ c, negb (String.eqb c "")) (split_on "/"%char s) in
  let body := List.filter (λ c, negb (String.eqb c ".")) pieces in
  (if absolute then [RootDir] else
   match pieces with "." :: _ => [CurDir] | _ => [] end) ++
  map (λ c, if String.eqb c ".." then ParentDir else Normal c) body.

Definition is_absolute (s : string) : bool := starts_with "/" s.

(** [Path::starts_with] *)
Fixpoint list_prefix (l l' : list string) : bool :=
  match l, l' with
  | [], _ => true
  | x :: l, y :: l' => String.eqb x y && list_prefix l l'
  | _ :: _, [] => false
  end.

Definition path_starts_with (p base : PathBuf) : bool :=
  Bool.eqb (p_absolute p) (p_absolute base) && list_prefix (p_components base) (p_components p).

(** [Path::file_name] and [Path::parent] of a path without [..]. *)
Definition p_file_name (p : PathBuf) : option string := last (p_components p).

Definition p_join (p : PathBuf) (names : list string) : PathBuf :=
  {| p_absolute := p_absolute p; p_components := p_components p ++ names |}.

(** ** The file system *)

Inductive IoError :=
  | NotFound
  | OtherError (message : string).

Class Filesystem := {
  (** [Path::exists] and [is_dir] of a path, [fs::canonicalize] of a path's text,
      owner and mode from [fs::symlink_metadata]. *)
  fs_exists : PathBuf → bool;
  fs_is_dir : PathBuf → bool;
  fs_canonicalize : string → list string + IoError;
  fs_metadata : PathBuf → option (Z * Z);
  (** [to_string_lossy] of a component, and whether it is valid UTF-8. *)
  lossy : string → string;
  is_utf8 : string → bool;
  geteuid : Z;
  (** [dirs::home_dir] and the like, and [env::current_dir]. *)
  home_dir : option string;
  config_dir : option PathBuf;
  data_dir : option PathBuf;
  cache_dir : option PathBuf;
  current_dir : option string;
}.

(** A component is not empty and has no slash. *)
Definition plain (c : string) : Prop := c ≠ "" ∧ contains "/" c = false.

(** What the code relies on: a canonical path consists of components, and
    [to_string_lossy] keeps components. *)
Class FilesystemLaws `{Filesystem} : Prop := {
  canonicalize_plain : ∀ s comps, fs_canonicalize s = inl comps → Forall plain comps;
  lossy_plain : ∀ c, plain c → plain (lossy c);
}.

Section Resolve.
Context `{Filesystem}.

Definition to_string_lossy (p : PathBuf) : string := path_text_with lossy p.

(** [normalize_absolute] of [scoped_permissions.rs]. *)
Fixpoint normalize_components (cs : list Component) (acc : PathBuf) : result PathBuf :=
  match cs with
  | [] => Ok acc
  | RootDir :: cs => normalize_components cs (root_path [])
  | CurDir :: cs => normalize_components cs acc
  | Normal name :: cs => normalize_components cs (p_join acc [name])
  | ParentDir :: cs =>
      match p_components acc with
      | [] => Err "Directory escapes the filesystem root"
      | comps =>
          normalize_components cs
            {| p_absolute := p_absolute acc; p_components := take (length comps - 1) comps |}
      end
  end.

Definition normalize_absolute (path : string) : result PathBuf :=
  normalize_components (components_of path) {| p_absolute := false; p_components := [] |}.

(** The loop of [resolve_path] over the ancestors, whose components are given
    last first. *)
Fixpoint resolve_ancestor (absolute : bool) (rev_comps suffix : list string) : result (list string) :=
  let ancestor := {| p_absolute := absolute; p_components := reverse rev_comps |} in
  let up :=
    match rev_comps with
    | [] => Err "Could not resolve an existing parent directory"
    | name :: rest => resolve_ancestor absolute rest (name :: suffix)
    end in
  if fs_exists ancestor then
    match fs_canonicalize (path_text ancestor) with
    | inl resolved => Ok (resolved ++ suffix)
    | inr NotFound => up
    | inr (OtherError e) => Err ("Could not resolve parent directory: " +:+ e)
    end
  else up.

Definition resolve_missing (cleaned : PathBuf) : result (PathBuf * bool) :=
  match resolve_ancestor (p_absolute cleaned) (reverse (p_components cleaned)) [] with
  | Ok comps => Ok (root_path comps, false)
  | Err e => Err e
  end.

(** [resolve_path]: the canonical path, and whether it exists. *)
Definition resolve_path (path : string) : result (PathBuf * bool) :=
  match normalize_absolute path with
  | Err e => Err e
  | Ok cleaned =>
      if fs_exists cleaned then
        match fs_canonicalize (path_text cleaned) with
        | inl resolved => Ok (root_path resolved, true)
        | inr NotFound => resolve_missing cleaned
        | inr (OtherError e) => Err ("Could not resolve path: " +:+ e)
        end
      else resolve_missing cleaned
  end.

(** [resolve_target] *)
Definition resolve_target (path : string) : result PathBuf :=
  match resolve_path path with Ok (p, _) => Ok p | Err e => Err e end.

(** [with_trailing_separator] *)
Definition with_trailing_separator (s : string) : string :=
  let normalized := replace_char "\"%char "/"%char s in
  if ends_with "/" normalized then normalized else normalized +:+ "/".

End Resolve.

(** ** Lemmas *)

Lemma list_prefix_spec l l' : list_prefix l l' = true ↔ ∃ k, l' = l ++ k.
Proof.
  revert l'. induction l as [|x l IH]; intros l'; cbn; [naive_solver|].
  destruct l' as [|y l']; [naive_solver|].
  rewrite andb_true_iff, IH, String.eqb_eq. naive_solver.
Qed.

Lemma path_starts_with_spec p base :
  path_starts_with p base = true ↔
  p_absolute p = p_absolute base ∧ ∃ k, p_components p = p_components base ++ k.
Proof. unfold path_starts_with. rewrite andb_true_iff, list_prefix_spec, eqb_true_iff. done. Qed.
