(* ===== verification/ScopedPermissions.v ===== *)
(** * Directory-scoped permissions

    [grith-supervisor/src/scoped_permissions.rs].  A reviewer answers a file call
    with a directory and operations to allow, or to block, under it for the rest of
    the session.  One classifier serves the editor's live preview and the
    validation on Enter; an accepted proposal becomes rules of the session
    ([SessionRules]). *)

From Stdlib Require Import Ascii String.
From S2P Require Import Prelude Types SensitivePaths Paths.

Inductive ScopeMode := ScopeAllow | ScopeDeny.

Definition grants_authority (m : ScopeMode) : bool :=
  match m with ScopeAllow => true | ScopeDeny => false end.

(** [ScopedAllowRequest] and [ScopedDenyRequest] of [grith-digest]. *)
Record ScopedAllowRequest := {
  sa_directory : string;
  sa_read : bool;
  sa_write : bool;
  sa_delete : bool;
  sa_persist : bool;
}.

Record ScopedDenyRequest := {
  sd_directory : string;
  sd_read : bool;
  sd_write : bool;
  sd_delete : bool;
}.

(** [ValidatedScopedAllow] and [ValidatedScopedDeny]: distinct types, so that the
    rules of one cannot be installed as the other's. *)
Record ValidatedScopedAllow := {
  va_directory : string;
  va_rules : list string;
  va_warning : option string;
}.

Record ValidatedScopedDeny := {
  vd_directory : string;
  vd_rules : list string;
  vd_warning : option string;
}.

Record ScopePathPreview := {
  resolved_directory : string;
  preview_exists : bool;
}.

Inductive ScopeStatus :=
  | Covers
  | CoversPending
  | RemovedWhileFrozen
  | MissesTarget (target : string)
  | TooBroad (reason : string)
  | Sensitive (reason : string)
  | Glob
  | RuntimeRoot (reason : string)
  | Invalid (reason : string).

Definition blocks_apply (s : ScopeStatus) : bool :=
  match s with Covers | CoversPending | RemovedWhileFrozen => false | _ => true end.

Definition is_warning (s : ScopeStatus) : bool :=
  match s with CoversPending | RemovedWhileFrozen => true | _ => false end.

(** The em dash in UTF-8. *)
Definition em_dash : string := byte_string [226; 128; 148]%N.

Definition status_message (s : ScopeStatus) : string :=
  match s with
  | Covers => "Covers this operation"
  | CoversPending => "Directory does not exist yet " +:+ em_dash +:+ " the scope is session-only"
  | RemovedWhileFrozen =>
      "That directory was removed while this request was frozen " +:+ em_dash
        +:+ " the scope applies if it is recreated"
  | MissesTarget target => "The directory does not contain the target: " +:+ target
  | Glob => "Remove * and ? " +:+ em_dash +:+ " a directory already covers everything beneath it"
  | TooBroad reason | Sensitive reason | RuntimeRoot reason | Invalid reason => reason
  end.

(** [tool_call.strip_prefix(kind)?.strip_prefix('(')?.strip_suffix(')')] *)
Definition unary_target (tool_call kind : string) : option string :=
  r ← strip_prefix kind tool_call; r ← strip_prefix "(" r; strip_suffix ")" r.

(** The kinds whose rendering holds one path, in the order they are tried. *)
Definition unary_kinds : list string :=
  ["FileRead"; "DirList"; "FileWrite"; "FileAppend"; "DirCreate"; "FileDelete"].

Fixpoint first_target (tool_call : string) (kinds : list string) : option string :=
  match kinds with
  | [] => None
  | kind :: kinds =>
      match unary_target tool_call kind with
      | Some path => Some path
      | None => first_target tool_call kinds
      end
  end.

Definition rename_source (tool_call : string) : option string :=
  body ← unary_target tool_call "FileRename"; '(old, _) ← split_once " -> " body; Some old.

Definition scoped_operation_target (tool_call : string) : option string :=
  match first_target tool_call unary_kinds with
  | Some path => Some path
  | None => rename_source tool_call
  end.

Definition scoped_call_target (t : ToolCallType) : option string :=
  match t with
  | FileRead path | DirList path | FileWrite path _ | FileAppend path | DirCreate path
  | FileDelete path => Some path
  | FileRename old_path _ => Some old_path
  | _ => None
  end.

Definition scope_kinds : list (string * string) :=
  [("FileRead", "ro-prefix:"); ("DirList", "ro-prefix:"); ("FileWrite", "write-prefix:");
   ("FileAppend", "write-prefix:"); ("DirCreate", "write-prefix:"); ("FileDelete", "delete-prefix:");
   ("FileRename", "delete-prefix:")].

Definition scoped_rule_namespace (tool_call : string) : option string :=
  snd <$> List.find (λ '(kind, _), match unary_target tool_call kind with Some _ => true | None => false end)
    scope_kinds.

Definition namespace_label (namespace : string) : string :=
  if String.eqb namespace "ro-prefix:" then "read"
  else if String.eqb namespace "write-prefix:" then "write/create"
  else "delete/rename".

(** The mode-agnostic view of a request. *)
Record Proposal := {
  directory : string;
  read : bool;
  write : bool;
  delete_op : bool;
  persist : bool;
  mode : ScopeMode;
}.

Definition from_allow (r : ScopedAllowRequest) : Proposal := {|
  directory := sa_directory r; read := sa_read r; write := sa_write r; delete_op := sa_delete r;
  persist := sa_persist r; mode := ScopeAllow |}.

Definition from_deny (r : ScopedDenyRequest) : Proposal := {|
  directory := sd_directory r; read := sd_read r; write := sd_write r; delete_op := sd_delete r;
  persist := false; mode := ScopeDeny |}.

Definition selected_rule_namespaces (p : Proposal) : list string :=
  (if read p then ["ro-prefix:"] else []) ++ (if write p then ["write-prefix:"] else [])
  ++ (if delete_op p then ["delete-prefix:"] else []).

Definition DENY_RULE_PREFIX : string := "deny-".

Definition prefixed_rules (p : Proposal) (dir prefix : string) : list string :=
  map (λ namespace, prefix +:+ namespace +:+ dir) (selected_rule_namespaces p).

Definition CRITICAL_RUNTIME_TREES : list string :=
  ["/proc"; "/sys"; "/dev"; "/etc"; "/lib"; "/lib64"; "/lib32"; "/usr/lib"; "/usr/lib64";
   "/usr/lib32"; "/bin"; "/sbin"; "/usr/bin"; "/usr/sbin"; "/run"].

(** Verdicts that refuse ([Err] of the source) and that accept. *)
Inductive verdict (A : Type) :=
  | Accept (a : A)
  | Refuse (s : ScopeStatus).
Arguments Accept {A}.
Arguments Refuse {A}.

#[export] Instance verdict_bind : MBind verdict := λ A B k m,
  match m with Accept a => k a | Refuse s => Refuse s end.

Section Classify.
Context `{Unicode} `{Filesystem}.

(** [reject_runtime_root_scope]; [canonical.display()] is lossy too. *)
Definition reject_runtime_root_scope (dir : PathBuf) : verdict unit :=
  let trimmed := trim_slashes (replace_char "\"%char "/"%char (to_string_lossy dir)) in
  let shown := if String.eqb trimmed "" then "/" else trimmed in
  match List.find (λ tree, match fs_canonicalize tree with
                           | inl comps => path_starts_with (root_path comps) dir
                           | inr _ => false
                           end) CRITICAL_RUNTIME_TREES with
  | Some tree =>
      let canonical := match fs_canonicalize tree with inl comps => root_path comps | inr _ => root_path [] end in
      Refuse (RuntimeRoot ("Blocking " +:+ shown +:+ " would stop the supervised tool from running ("
        +:+ to_string_lossy canonical +:+ "); choose a directory inside it"))
  | None => Accept ()
  end.

(** [matches!(components, ["home", _] | ["Users", _] | ["users", _])] and the
    three-part form with a hidden last part. *)
Definition is_home_root (c : string) : bool := str_mem c ["home"; "Users"; "users"].

Definition is_user_home (components : list string) : bool :=
  match components with [h; _] => is_home_root h | _ => false end.

Fixpoint has_hidden_home (components : list string) : bool :=
  match components with
  | h :: (_ :: hidden :: _) as rest => (is_home_root h && starts_with "." hidden) || has_hidden_home rest
  | _ => false
  end.

Definition HOME_SENSITIVE : list (list string) :=
  [[".ssh"]; [".aws"]; [".gnupg"]; [".kube"]; [".config"; "gcloud"]; [".mozilla"];
   [".config"; "google-chrome"]; [".config"; "chromium"]; [".config"; "BraveSoftware"];
   [".config"; "microsoft-edge"]].

(** [dirs::home_dir().and_then(|p| canonicalize(p).ok())], and the like. *)
Definition canonical_dir (d : option string) : option PathBuf :=
  text ← d; match fs_canonicalize text with inl comps => Some (root_path comps) | inr _ => None end.

Definition sensitive_roots (home : option PathBuf) : list PathBuf :=
  (match home with Some home => map (p_join home) HOME_SENSITIVE | None => [] end)
  ++ map (λ base, p_join base ["grith"])
       (option_list config_dir ++ option_list data_dir ++ option_list cache_dir).

Definition reject_delete (dir : PathBuf) (home : option PathBuf) (components : list string) : verdict unit :=
  if match canonical_dir current_dir with Some project => bool_decide (project = dir) | None => false end
  then Refuse (TooBroad "Delete scope for the project root is blocked; choose a subdirectory")
  else
    let hidden_refusal := Sensitive "Delete scopes are blocked for home configuration directories" in
    if match home with
       | Some home =>
           path_starts_with dir home &&
           match drop (length (p_components home)) (p_components dir) with
           | part :: _ => is_utf8 part && starts_with "." part
           | [] => false
           end
       | None => false
       end
    then Refuse hidden_refusal
    else if has_hidden_home components then Refuse hidden_refusal
    else Accept ().

Definition reject_broad_or_sensitive_scope (dir : PathBuf) (request : Proposal) : verdict unit :=
  let normalized := replace_char "\"%char "/"%char (to_string_lossy dir) in
  let trimmed := trim_slashes normalized in
  let components := List.filter (λ part, negb (String.eqb part "")) (split_on "/"%char trimmed) in
  if String.eqb trimmed "" || str_mem trimmed ["/home"; "/Users"; "/tmp"; "/var"]
     || (length components <? 2) || is_user_home components
  then
    let floor := if String.eqb trimmed "" then "/" else trimmed in
    Refuse (TooBroad ("That directory scope is too broad " +:+ em_dash +:+ " pick a directory below "
      +:+ floor))
  else
    let home := canonical_dir home_dir in
    if match home with Some home => bool_decide (dir = home) | None => false end
    then Refuse (TooBroad "The home directory cannot be scoped")
    else
      let lower := to_ascii_lowercase trimmed +:+ "/" in
      let is_sensitive_parent := ends_with "/.config" (trim_slashes lower) in
      let roots := sensitive_roots home in
      let contains_sensitive_root :=
        existsb (λ s, negb (bool_decide (s = dir)) && path_starts_with s dir) roots in
      if is_sensitive_parent || contains_sensitive_root
      then Refuse (Sensitive "Sensitive directories require single-request approval")
      else
        let targets_sensitive_directory :=
          is_sensitive_path trimmed || is_sensitive_path lower
          || existsb (λ s, path_starts_with dir s) roots in
        if targets_sensitive_directory && (write request || delete_op request)
        then Refuse (Sensitive "Sensitive directories only support read-only scope for this session")
        else if delete_op request then reject_delete dir home components
        else Accept ().

Definition resolve_directory (dir : string) : result (PathBuf * bool) :=
  if String.eqb (trim dir) "" then Err "Directory cannot be empty"
  else if negb (is_absolute dir) then Err "Directory must be an absolute path"
  else match resolve_path dir with
       | Err e => Err e
       | Ok (resolved, exists_) =>
           if exists_ && negb (fs_is_dir resolved) then Err "Scope path must be a directory"
           else Ok (resolved, exists_)
       end.

Definition invalid_on_error {A} (r : result A) : verdict A :=
  match r with Ok a => Accept a | Err reason => Refuse (Invalid reason) end.

Definition classify_scope (p : Proposal) (tool_call : string) (directory_existed_at_open : bool) :
    verdict (PathBuf * ScopeStatus) :=
  if persist p then Refuse (Invalid "Persistent directory scopes are not available in v1")
  else if contains "*" (directory p) || contains "?" (directory p) then Refuse Glob
  else if negb (read p) && negb (write p) && negb (delete_op p)
  then Refuse (Invalid "Select at least one operation")
  else
    '(dir, exists_) ← invalid_on_error (resolve_directory (directory p));
    _ ← (if grants_authority (mode p) then reject_broad_or_sensitive_scope dir p
         else reject_runtime_root_scope dir);
    target ← (match scoped_operation_target tool_call with
              | Some target => Accept target
              | None => Refuse (Invalid "This operation does not support directory scoping")
              end);
    target ← invalid_on_error (resolve_target target);
    if negb (path_starts_with target dir) then
      Refuse (MissesTarget (match p_file_name target with
                            | Some name => lossy name
                            | None => to_string_lossy target
                            end))
    else
      _ ← (match scoped_rule_namespace tool_call with
           | Some namespace =>
               if str_mem namespace (selected_rule_namespaces p) then Accept ()
               else Refuse (Invalid ("Tick " +:+ namespace_label namespace
                      +:+ " so this scope covers the current operation"))
           | None => Accept ()
           end);
      Accept (dir, if (exists_ : bool) then Covers
                   else if directory_existed_at_open then RemovedWhileFrozen else CoversPending).

Definition preview (p : Proposal) (tool_call : string) (existed : bool) : ScopeStatus :=
  match classify_scope p tool_call existed with
  | Accept (_, status) => status
  | Refuse status => status
  end.

Definition preview_scoped_allow (r : ScopedAllowRequest) := preview (from_allow r).
Definition preview_scoped_deny (r : ScopedDenyRequest) := preview (from_deny r).

Definition warning_of (status : ScopeStatus) : option string :=
  if is_warning status then Some (status_message status) else None.

Definition validate_scoped_allow (r : ScopedAllowRequest) (current_tool_call : string) :
    result ValidatedScopedAllow :=
  let p := from_allow r in
  match classify_scope p current_tool_call false with
  | Refuse status => Err (status_message status)
  | Accept (dir, status) =>
      let dir := with_trailing_separator (to_string_lossy dir) in
      Ok {| va_rules := prefixed_rules p dir ""; va_directory := dir; va_warning := warning_of status |}
  end.

Definition validate_scoped_deny (r : ScopedDenyRequest) (current_tool_call : string) :
    result ValidatedScopedDeny :=
  let p := from_deny r in
  match classify_scope p current_tool_call false with
  | Refuse status => Err (status_message status)
  | Accept (dir, status) =>
      let dir := with_trailing_separator (to_string_lossy dir) in
      Ok {| vd_rules := prefixed_rules p dir DENY_RULE_PREFIX; vd_directory := dir;
            vd_warning := warning_of status |}
  end.

Definition preview_scope_path (dir : string) : result ScopePathPreview :=
  match resolve_directory dir with
  | Ok (path, exists_) =>
      Ok {| resolved_directory := with_trailing_separator (to_string_lossy path);
            preview_exists := exists_ |}
  | Err e => Err e
  end.

End Classify.
