(* ===== verification/SessionRules.v ===== *)
(** * The rules of a session

    [grith-supervisor/src/supervisor/event_handler.rs], the functions around the
    session allowlist; [workspace_only.rs]; and the provenance check of
    [provenance.rs].  Approvals add entries to the allowlist of the session and
    blocks add entries to its denylist; a call is looked up under a key.  A call the
    allowlist matches runs without evaluation by the proxy, a call the denylist
    matches is refused before anything else looks at it. *)

From Stdlib Require Import Ascii String.
From stdpp Require Import strings.
From S2P Require Import Prelude Types SensitivePaths Paths ScopedPermissions.

(** ** Matching of single entries *)

Definition directory_scope_matches (dir target : string) : bool :=
  let dir := trim_slashes dir in
  String.eqb target dir ||
  match strip_prefix dir target with
  | Some suffix => starts_with "/" suffix
  | None => false
  end.

Definition domain_matches (domain suffix : string) : bool :=
  String.eqb domain suffix ||
  ((String.length suffix <? String.length domain) && ends_with suffix domain
   && match String.get (String.length domain - String.length suffix - 1) domain with
      | Some c => ascii_eqb c "."%char
      | None => false
      end).

(** [glob_match] on the text around the first [*].  Its slice panics when prefix
    and suffix overlap in the path. *)
Definition glob_match (path pattern : string) : option bool :=
  match split_once "*" pattern with
  | Some (prefix, suffix) =>
      if starts_with prefix path && ends_with suffix path then
        let stop := String.length path - String.length suffix in
        if String.length path <? String.length prefix + String.length suffix then None
        else Some (negb (contains "/" (substring (String.length prefix) (stop - String.length prefix) path)))
      else Some false
  | None => Some (String.eqb path pattern)
  end.

(** ** Namespaces, keys and paths of calls *)

Definition scoped_prefix_namespace (t : ToolCallType) : option string :=
  match t with
  | FileRead _ | DirList _ => Some "ro-prefix:"
  | FileWrite _ _ | FileAppend _ | DirCreate _ => Some "write-prefix:"
  | FileDelete _ | FileRename _ _ => Some "delete-prefix:"
  | _ => None
  end.

(** [governed_paths] and [is_read_like] of [workspace_only.rs]. *)
Definition governed_paths (t : ToolCallType) : option (list string) :=
  match t with
  | FileRead path | DirList path | FileWrite path _ | FileAppend path | DirCreate path
  | FileDelete path => Some [path]
  | FileRename old_path new_path => Some [old_path; new_path]
  | _ => None
  end.

Definition is_read_like (t : ToolCallType) : bool :=
  match t with FileRead _ | DirList _ => true | _ => false end.

Definition projdir_guarded_paths (key : string) (t : ToolCallType) : list string :=
  key :: match t with
         | FileRename _ new_path => [new_path]
         | FileLink target _ _ => [target]
         | _ => []
         end.

(** A created entry directly under [/tmp] that later accesses may use freely. *)
Definition tmp_self_created_prefix (t : ToolCallType) : option string :=
  '(path, is_dir_create) ←
    match t with
    | DirCreate path => Some (path, true)
    | FileWrite path _ | FileAppend path => Some (path, false)
    | FileRename _ new_path => Some (new_path, false)
    | _ => None
    end;
  suffix ← strip_prefix "/tmp/" path;
  if String.eqb suffix "" || contains "/" suffix then None
  else if str_mem suffix [".X11-unix"; ".ICE-unix"; ".font-unix"; ".Test-unix"; ".XIM-unix"] then None
  else Some (if is_dir_create : bool then "/tmp/" +:+ suffix +:+ "/" else "/tmp/" +:+ suffix).

Section Rules.
Context `{Unicode} `{Filesystem}.

(** [process_start_time] reads [/proc]; [serde_json::from_str::<Vec<String>>]. *)
Variable process_start_time : Z → option Z.
Variable json_string_array : string → option (list string).

Definition parse_dns_candidate_array (value : string) : option (list string) :=
  if starts_with "[" value then
    candidates ← json_string_array value;
    match candidates with [] => None | _ => Some candidates end
  else None.

Definition session_allowlist_key (t : ToolCallType) : option string :=
  match t with
  | FileRead path | FileWrite path _ | FileAppend path | FileDelete path | DirList path
  | FileChmod path _ | DirCreate path => Some path
  | FileRename old_path _ => Some old_path
  | FileLink _ link_path _ => Some link_path
  | OwnershipChange target _ _ | FilesystemMutation _ _ target _ => Some target
  | NetConnect address _ => Some ("net:" +:+ address)
  | NetListen address port => Some ("listen:" +:+ address +:+ ":" +:+ fmt_Z port)
  | ProcessSpawn command _ => Some ("exec:" +:+ command)
  | DnsQuery domain _ => Some ("dns:" +:+ domain)
  | CrossProcessAccess op target_pid =>
      start ← process_start_time target_pid;
      Some ("process:" +:+ op +:+ ":" +:+ fmt_Z target_pid +:+ ":" +:+ fmt_Z start)
  | NamespaceOp syscall flags => Some ("namespace:" +:+ syscall +:+ ":" +:+ fmt_hex flags)
  | ShellExec _ _ | HttpRequest _ _ | DbusMethodCall _ _ _ _ => None
  end.

(** [fs::canonicalize(path).ok()], the path as text if it is valid UTF-8. *)
Definition canonicalize_allowlist_entry (namespace path : string) : option string :=
  match fs_canonicalize path with
  | inl comps => if forallb is_utf8 comps then Some (namespace +:+ path_text (root_path comps)) else None
  | inr _ => None
  end.

Definition readonly_allowlist_entry (path : string) : option string :=
  canonicalize_allowlist_entry "ro:" path.

Definition approved_session_allowlist_entry (t : ToolCallType) : option string :=
  match t with
  | FileRead path => canonicalize_allowlist_entry "ro:" path
  | FileWrite path _ | FileAppend path | FileDelete path | FileChmod path _ | DirCreate path =>
      canonicalize_allowlist_entry "rw:" path
  | FileRename old_path _ => canonicalize_allowlist_entry "rw:" old_path
  | OwnershipChange target _ _ | FilesystemMutation _ _ target _ =>
      canonicalize_allowlist_entry "rw:" target
  | FileLink _ _ _ => None
  | _ => session_allowlist_key t
  end.

Definition approved_session_allowlist_entries (t : ToolCallType) : list string :=
  match approved_session_allowlist_entry t with
  | None => []
  | Some key =>
      match (domain ← strip_prefix "net:" key; parse_dns_candidate_array domain) with
      | Some candidates => map (λ c, "net:" +:+ c) candidates
      | None => [key]
      end
  end.

(** ** Provenance of executables *)

Record ExecTrustDecision := {
  trusted : bool;
  canonical_path : option string;
}.

Definition is_under_root (path root : string) : bool :=
  starts_with (if ends_with "/" root then root else root +:+ "/") path.

(** Every prefix of the path, from the root to the file itself. *)
Definition path_prefixes (p : PathBuf) : list PathBuf :=
  map (λ n, root_path (take n (p_components p))) (seq 0 (S (length (p_components p)))).

(** Owned by root or the user, not world-writable, and not group-writable where
    root owns it. *)
Definition component_safe (p : PathBuf) : bool :=
  match fs_metadata p with
  | None => false
  | Some (owner, file_mode) =>
      ((owner =? 0) || (owner =? geteuid))%Z && (Z.land file_mode 2 =? 0)%Z
      && negb ((owner =? 0) && negb (Z.land file_mode 16 =? 0))%Z
  end.

Definition verify_path_safety (p : PathBuf) : bool := forallb component_safe (path_prefixes p).

Definition verify_provenance (matches : string → bool) (raw_path : string) : ExecTrustDecision :=
  match fs_canonicalize raw_path with
  | inr _ => {| trusted := false; canonical_path := None |}
  | inl comps =>
      let canonical := root_path comps in
      {| trusted := matches (to_string_lossy canonical) && verify_path_safety canonical;
         canonical_path := Some (to_string_lossy canonical) |}
  end.

Definition verify_exact_exec_provenance (raw_path : string) (trusted_execs : list string) :
    ExecTrustDecision :=
  verify_provenance (λ canonical, str_mem canonical trusted_execs) raw_path.

Definition verify_exec_provenance (raw_path : string) (trusted_roots : list string) :
    ExecTrustDecision :=
  verify_provenance (λ canonical, existsb (is_under_root canonical) trusted_roots) raw_path.

(** ** The allowlist

    The set is given by its elements in the order it is iterated. *)

Definition projdir_grant_blocked (key : string) (t : ToolCallType) : bool :=
  existsb is_project_trust_guarded_path (projdir_guarded_paths key t).

Definition entries_with (namespace : string) (allowed : list string) : list string :=
  omap (strip_prefix namespace) allowed.

Definition listen_match (key : string) (allowed : list string) : bool :=
  str_mem key allowed ||
  match (rest ← strip_prefix "listen:" key; rsplit_once ":"%char rest) with
  | Some (addr, _) => str_mem ("listen:" +:+ addr) allowed
  | None => false
  end.

Definition domain_allowed (allowed : list string) (domain : string) : bool :=
  existsb (domain_matches domain) (entries_with "net:" allowed).

Definition net_match (domain : string) (allowed : list string) : bool :=
  match parse_dns_candidate_array domain with
  | Some candidates => negb (bool_decide (candidates = [])) && forallb (domain_allowed allowed) candidates
  | None => domain_allowed allowed domain
  end.

Definition exec_match (exec_path : string) (allowed : list string) : bool :=
  let trusted_execs := entries_with "exec:" allowed in
  let trusted_roots := entries_with "exec-prefix:" allowed in
  (negb (bool_decide (trusted_execs = [])) && trusted (verify_exact_exec_provenance exec_path trusted_execs))
  || (negb (bool_decide (trusted_roots = [])) && trusted (verify_exec_provenance exec_path trusted_roots)).

(** The resolved text of a target, slashes normalised; a target that does not
    resolve is taken as written. *)
Definition resolved_text (target : string) : string :=
  replace_char "\"%char "/"%char
    (match resolve_target target with Ok p => to_string_lossy p | Err _ => target end).

Definition scope_match (t : ToolCallType) (allowed : list string) : bool :=
  match scoped_call_target t, scoped_prefix_namespace t with
  | Some target, Some namespace =>
      existsb (λ dir, directory_scope_matches dir (resolved_text target)) (entries_with namespace allowed)
  | _, _ => false
  end.

(** The loop over the [ro-glob:] entries; [None] is a panic. *)
Fixpoint glob_entries (key : string) (allowed : list string) : option bool :=
  match allowed with
  | [] => Some false
  | entry :: allowed =>
      match strip_prefix "ro-glob:" entry with
      | Some pattern =>
          matched ← glob_match key pattern;
          if matched : bool then Some true else glob_entries key allowed
      | None => glob_entries key allowed
      end
  end.

Definition is_file_read (t : ToolCallType) : bool := match t with FileRead _ => true | _ => false end.

Definition is_write_op (t : ToolCallType) : bool :=
  match t with
  | FileWrite _ _ | FileAppend _ | FileDelete _ | FileRename _ _ | FileChmod _ _ | DirCreate _
  | OwnershipChange _ _ _ | FilesystemMutation _ _ _ _ => true
  | _ => false
  end.

(** Entries that never serve as bare path prefixes. *)
Definition namespaced (entry : string) : bool :=
  existsb (λ p, starts_with p entry)
    ["exec-prefix:"; "ro-prefix:"; "write-prefix:"; "delete-prefix:"; "ro:"; "ro-glob:"; "rw:";
     "process:"; "namespace:"; "projdir:"].

Definition launch_derived_blocked (allowed : list string) (entry key : string) (t : ToolCallType) : bool :=
  str_mem ("projdir:" +:+ entry) allowed && projdir_grant_blocked key t.

Definition exact_path_match (key : string) (allowed : list string) (t : ToolCallType) : bool :=
  negb (starts_with "ro-prefix:" key) && negb (starts_with "write-prefix:" key)
  && negb (starts_with "delete-prefix:" key) && str_mem key allowed
  && negb (launch_derived_blocked allowed key key t).

Definition prefix_match (key : string) (allowed : list string) (t : ToolCallType) : bool :=
  existsb (λ prefix, negb (namespaced prefix) && starts_with prefix key
             && negb (launch_derived_blocked allowed prefix key t)) allowed.

(** The part after the namespaces of the key: file entries. *)
Definition entry_match (namespace_entry : option string) (allowed : list string) : bool :=
  match namespace_entry with Some e => str_mem e allowed | None => false end.

Definition path_match (key : string) (allowed : list string) (t : ToolCallType) : option bool :=
  if scope_match t allowed then Some true
  else if is_file_read t && entry_match (readonly_allowlist_entry key) allowed then Some true
  else
    globbed ← (if is_file_read t then glob_entries key allowed else Some false);
    if globbed : bool then Some true
    else if is_write_op t && entry_match (canonicalize_allowlist_entry "rw:" key) allowed then Some true
    else if starts_with "process:" key then
      Some (match t with CrossProcessAccess _ _ => str_mem key allowed | _ => false end)
    else if starts_with "namespace:" key then
      Some (match t with NamespaceOp _ _ => str_mem key allowed | _ => false end)
    else Some (exact_path_match key allowed t || prefix_match key allowed t).

Definition key_match (key : string) (allowed : list string) (t : ToolCallType) : option bool :=
  if starts_with "listen:" key then Some (listen_match key allowed)
  else match (match strip_prefix "net:" key with Some d => Some d | None => strip_prefix "dns:" key end) with
       | Some domain => Some (net_match domain allowed)
       | None =>
           match strip_prefix "exec:" key with
           | Some exec_path => Some (exec_match exec_path allowed)
           | None => path_match key allowed t
           end
       end.

(** [is_session_allowlist_match]; a link also needs its target to be writable
    under the same rules, and neither end guarded. *)
Definition is_session_allowlist_match (key : string) (allowed : list string) (t : ToolCallType) :
    option bool :=
  match t with
  | FileLink target _ _ =>
      if is_project_trust_guarded_path target || is_project_trust_guarded_path key then Some false
      else
        writable ← key_match target allowed (FileWrite target "");
        if writable : bool then key_match key allowed t else Some false
  | _ => key_match key allowed t
  end.

Definition is_sensitive_scoped_read_match (t : ToolCallType) (allowed : list string) : bool :=
  match t with
  | FileRead path | DirList path =>
      let directory_form := trim_slashes path +:+ "/" in
      if negb (is_sensitive_path path) && negb (is_sensitive_path directory_form) then false
      else existsb (λ dir, directory_scope_matches dir (resolved_text path))
             (entries_with "ro-prefix:" allowed)
  | _ => false
  end.

(** ** The denylist *)

Fixpoint deny_targets (namespace : string) (denied targets : list string) : option string :=
  match targets with
  | [] => None
  | target :: targets =>
      let resolved := resolved_text target in
      match List.find (λ entry, match strip_prefix namespace entry with
                                | Some dir => directory_scope_matches dir resolved
                                | None => false
                                end) denied with
      | Some rule => Some rule
      | None => deny_targets namespace denied targets
      end
  end.

Definition session_deny_match (t : ToolCallType) (denied : list string) : option string :=
  match denied with
  | [] => None
  | _ =>
      namespace ← scoped_prefix_namespace t;
      targets ← governed_paths t;
      deny_targets (DENY_RULE_PREFIX +:+ namespace) denied targets
  end.

(** ** The workspace boundary *)

Record WorkspaceBoundary := { roots : list string }.

Definition WorkspaceBoundary_new (raw : list string) : WorkspaceBoundary := {|
  roots := fold_left (λ normalised root,
    let trimmed := trim_slashes root in
    if String.eqb trimmed "" then normalised
    else
      let with_slash := trimmed +:+ "/" in
      if str_mem with_slash normalised then normalised else normalised ++ [with_slash]) raw [] |}.

Definition boundary_is_empty (b : WorkspaceBoundary) : bool := bool_decide (roots b = []).

Definition boundary_contains (b : WorkspaceBoundary) (path : string) : bool :=
  let path := replace_char "\"%char "/"%char path in
  existsb (λ root, String.eqb path (trim_slashes root) || starts_with root path) (roots b).

Definition SYSTEM_READ_ROOTS : list string :=
  ["/usr/"; "/lib/"; "/lib64/"; "/lib32/"; "/bin/"; "/sbin/"; "/opt/"; "/etc/"; "/var/lib/";
   "/var/cache/"; "/nix/store/"; "/snap/"; "/run/systemd/resolve/"; "/run/resolvconf/";
   "/run/NetworkManager/"; "/run/nscd/"].

Definition is_system_read_root (path : string) : bool :=
  let path := replace_char "\"%char "/"%char path in
  existsb (λ root, starts_with root path || String.eqb path (trim_slashes root)) SYSTEM_READ_ROOTS.

(** The call whose rules decide about one path of the call. *)
Definition boundary_probe (t : ToolCallType) (resolved : string) : ToolCallType :=
  match scoped_prefix_namespace t with
  | Some n =>
      if String.eqb n "ro-prefix:" then FileRead resolved
      else if String.eqb n "delete-prefix:" then FileDelete resolved
      else FileWrite resolved ""
  | None => FileWrite resolved ""
  end.

Fixpoint outside_target (b : WorkspaceBoundary) (t : ToolCallType) (allowed : list string)
    (targets : list string) : option (option string) :=
  match targets with
  | [] => Some None
  | target :: targets =>
      let resolved := resolved_text target in
      let rest := outside_target b t allowed targets in
      if boundary_contains b resolved then rest
      else if is_noise_path resolved || is_noise_path target then rest
      else if is_read_like t && is_system_read_root resolved then rest
      else
        let probe := boundary_probe t resolved in
        allowed_match ←
          (match session_allowlist_key probe with
           | Some key => is_session_allowlist_match key allowed probe
           | None => Some false
           end);
        if allowed_match : bool then rest else Some (Some resolved)
  end.

(** The first path that the boundary refuses; the outer [None] is a panic. *)
Definition workspace_only_block_reason (b : WorkspaceBoundary) (t : ToolCallType)
    (session_allowed : list string) : option (option string) :=
  if boundary_is_empty b then Some None
  else match governed_paths t with
       | None => Some None
       | Some targets => outside_target b t session_allowed targets
       end.

End Rules.
