(* ===== verification/SessionGrants.v ===== *)
(** * What approvals and blocks of a session cover

    Theorems on [ScopedPermissions] and [SessionRules] together: the rules a
    reviewer's directory answer produces decide the call the reviewer saw and no
    call outside the directory; the entries an ordinary approval stores match the
    approved call again; and the cases where one or the other fails. *)

From Stdlib Require Import Ascii String.
From S2P Require Import Prelude Types SensitivePaths Paths ScopedPermissions SessionRules.

(** ** Reading a rendered call back *)

(** The first arrow of a rename's rendering is the one between its paths. *)
Definition rename_unambiguous (t : ToolCallType) : Prop :=
  match t with
  | FileRename old_path new_path =>
      split_once " -> " (old_path +:+ " -> " +:+ new_path) = Some (old_path, new_path)
  | _ => True
  end.

Lemma unary_target_render kind p : unary_target (kind +:+ "(" +:+ p +:+ ")") kind = Some p.
Proof.
  unfold unary_target. rewrite strip_prefix_app. cbn [mbind option_bind].
  rewrite strip_prefix_app. apply strip_suffix_app.
Qed.

(** Evaluate [unary_target] on rendered calls. *)
Ltac eval_unary_target :=
  repeat match goal with
  | |- context [unary_target ?c ?k] =>
      first [ change (unary_target c k) with (@None string)
            | rewrite (unary_target_render k _ : unary_target c k = _) ]
  end.

(** The reviewer's form gets the call as text; reading that text back gives
    the call's own path and rule namespace, for every call, and nothing for the
    calls that have no directory scope: provided a rename's old path does not
    contain the arrow. *)
Theorem rendered_call_reads_back t :
  rename_unambiguous t →
  scoped_operation_target (ToolCallType_display t) = scoped_call_target t ∧
  (scoped_call_target t ≠ None →
   scoped_rule_namespace (ToolCallType_display t) = scoped_prefix_namespace t).
Proof.
  intros Hr. unfold scoped_operation_target, rename_source, scoped_rule_namespace.
  destruct t as [path|path h|path|path|path|c a|m u|old new|tgt l sy|path m|path| | | | | | | | |];
    try (split; [reflexivity|by intros []]);
    cbn [ToolCallType_display scoped_call_target scoped_prefix_namespace first_target unary_kinds
         List.find scope_kinds].
  1-5,7: eval_unary_target; by split.
  rewrite <- (append_assoc " -> " new ")"), <- (append_assoc old (" -> " +:+ new) ")").
  eval_unary_target. cbn [mbind option_bind]. cbn in Hr. by rewrite Hr.
Qed.

(** ** Directories and the texts beneath them *)

(** What [directory_scope_matches] decides: the directory itself, or a slash after
    it. *)
Lemma directory_scope_matches_spec dir target :
  directory_scope_matches dir target = true ↔
  ∃ rest, target = trim_slashes dir +:+ rest ∧ (rest = "" ∨ starts_with "/" rest = true).
Proof.
  unfold directory_scope_matches. rewrite orb_true_iff, String.eqb_eq. split.
  - intros [->|Hp]; [exists ""; split; [by rewrite append_nil_r|by left]|].
    destruct (strip_prefix _ target) as [r|] eqn:E; [|done].
    apply strip_prefix_Some in E. exists r. auto.
  - intros (rest & -> & [->|Hs]); [left; by rewrite append_nil_r|right].
    by rewrite strip_prefix_app.
Qed.

Lemma slashes_start n r :
  (r = "" ∨ starts_with "/" r = true) →
  let t := string_of_list_ascii (replicate n "/"%char) +:+ r in
  t = "" ∨ starts_with "/" t = true.
Proof. destruct n; [done|]. intros _. right. reflexivity. Qed.

(** The stored form of a directory covers every continuation of its text. *)
Lemma stored_directory_covers s r :
  replace_char "\" "/" s = s →
  (r = "" ∨ starts_with "/" r = true) →
  directory_scope_matches (with_trailing_separator s) (s +:+ r) = true.
Proof.
  intros Hn Hr. apply directory_scope_matches_spec.
  destruct (trim_end_char_app "/" s) as [n Hs].
  assert (trim_slashes (with_trailing_separator s) = trim_slashes s) as ->.
  { unfold with_trailing_separator. rewrite Hn. destruct (ends_with "/" s); [done|].
    apply trim_end_char_snoc. }
  exists (string_of_list_ascii (replicate n "/"%char) +:+ r). split.
  - rewrite <- append_assoc. unfold trim_slashes. by rewrite <- Hs.
  - by apply slashes_start.
Qed.

Lemma with_trailing_separator_normal s :
  with_trailing_separator (replace_char "\" "/" s) = with_trailing_separator s.
Proof. unfold with_trailing_separator. by rewrite replace_char_idem. Qed.

Section Grants.
Context `{Unicode} `{Filesystem}.

(** A path under a directory is covered by the directory's stored form. *)
Lemma under_directory_matches dir p :
  p_absolute dir = true → path_starts_with p dir = true →
  directory_scope_matches (with_trailing_separator (to_string_lossy dir))
    (replace_char "\" "/" (to_string_lossy p)) = true.
Proof.
  intros Ha [Habs [k Hk]]%path_starts_with_spec.
  rewrite <- with_trailing_separator_normal.
  set (s := replace_char "\" "/" (to_string_lossy dir)).
  assert (∃ r, replace_char "\" "/" (to_string_lossy p) = s +:+ r
               ∧ (r = "" ∨ starts_with "/" r = true ∨ s = "/")) as (r & -> & Hr).
  { unfold s, to_string_lossy, path_text_with. rewrite Habs, Ha, Hk, map_app.
    destruct (decide (k = [])) as [->|Hkn].
    { exists "". rewrite app_nil_r, append_nil_r. auto. }
    destruct (decide (p_components dir = [])) as [->|Hd].
    { exists (replace_char "\" "/" (join "/" (map lossy k))). split; [reflexivity|]. auto. }
    rewrite join_app by (by intros ?%map_eq_nil).
    rewrite <- append_assoc, replace_char_app. eexists. split; [reflexivity|]. auto. }
  assert (Hs : replace_char "\" "/" s = s) by apply replace_char_idem.
  destruct Hr as [Hr|[Hr| ->]]; [apply stored_directory_covers; auto..|reflexivity].
Qed.

Lemma resolve_path_absolute path p b : resolve_path path = Ok (p, b) → p_absolute p = true.
Proof. unfold resolve_path, resolve_missing. intros Hp. by break_all. Qed.

(** *** The classifier *)

Lemma selected_or_refused p tool_call :
  match (match scoped_rule_namespace tool_call with
         | Some namespace =>
             if str_mem namespace (selected_rule_namespaces p) then Accept ()
             else Refuse (Invalid ("Tick " +:+ namespace_label namespace
                    +:+ " so this scope covers the current operation"))
         | None => Accept ()
         end : verdict unit) with
  | Accept _ => ∀ ns, scoped_rule_namespace tool_call = Some ns → ns ∈ selected_rule_namespaces p
  | Refuse s => blocks_apply s = true
  end.
Proof.
  destruct (scoped_rule_namespace tool_call) as [ns|]; [|done].
  destruct (str_mem ns _) eqn:E; [|done]. apply str_mem_spec in E. by intros ? [= <-].
Qed.

Lemma reject_runtime_blocks dir s : reject_runtime_root_scope dir = Refuse s → blocks_apply s = true.
Proof. unfold reject_runtime_root_scope. case_match; [|done]. by intros [= <-]. Qed.

Lemma reject_broad_blocks dir p s :
  reject_broad_or_sensitive_scope dir p = Refuse s → blocks_apply s = true.
Proof.
  unfold reject_broad_or_sensitive_scope, reject_delete. cbv zeta.
  repeat (case_match; try (by intros [= <-]); try discriminate).
Qed.

(** What an accepted proposal guarantees; refusals are statuses that block. *)
Lemma classify_cases p tool_call existed :
  match classify_scope p tool_call existed with
  | Accept (dir, status) =>
      p_absolute dir = true ∧ blocks_apply status = false ∧
      (∃ target resolved, scoped_operation_target tool_call = Some target ∧
         resolve_target target = Ok resolved ∧ path_starts_with resolved dir = true) ∧
      (∀ ns, scoped_rule_namespace tool_call = Some ns → ns ∈ selected_rule_namespaces p)
  | Refuse s => blocks_apply s = true
  end.
Proof.
  unfold classify_scope.
  destruct (persist p), (contains "*" (directory p) || contains "?" (directory p)),
    (negb (read p) && negb (write p) && negb (delete_op p)); try done.
  destruct (resolve_directory (directory p)) as [[dir exists_]|] eqn:Hdir; [|done].
  cbn [invalid_on_error mbind verdict_bind].
  assert (Ha : p_absolute dir = true).
  { revert Hdir. unfold resolve_directory. repeat case_match; try discriminate.
    intros [= <- <-]. by eapply resolve_path_absolute. }
  assert (Hrej : ∀ s, (if grants_authority (mode p) then reject_broad_or_sensitive_scope dir p
                       else reject_runtime_root_scope dir) = Refuse s → blocks_apply s = true)
    by (destruct (grants_authority _); eauto using reject_broad_blocks, reject_runtime_blocks).
  destruct (if grants_authority (mode p) then reject_broad_or_sensitive_scope dir p
            else reject_runtime_root_scope dir) as [[]|s]; [clear Hrej|by apply Hrej].
  destruct (scoped_operation_target tool_call) as [target|] eqn:Ht; [|done].
  cbn [mbind verdict_bind]. destruct (resolve_target target) as [resolved|] eqn:Hres; [|done].
  cbn [invalid_on_error mbind verdict_bind].
  destruct (path_starts_with resolved dir) eqn:Hstart; [|done].
  cbn [negb]. pose proof (selected_or_refused p tool_call) as Hsel.
  match type of Hsel with match ?v with _ => _ end => destruct v end; [|done].
  split_and!; [done|by destruct exists_, existed| |done]. eauto 10.
Qed.

(** The flag for a directory seen before the freeze only words the warning. *)
Lemma classify_existed p tool_call existed :
  match classify_scope p tool_call false with
  | Accept (dir, _) => ∃ status, classify_scope p tool_call existed = Accept (dir, status)
  | Refuse s => classify_scope p tool_call existed = Refuse s
  end.
Proof.
  unfold classify_scope.
  destruct (persist p), (contains "*" (directory p) || contains "?" (directory p)),
    (negb (read p) && negb (write p) && negb (delete_op p)); try done.
  destruct (invalid_on_error (resolve_directory _)) as [[dir exists_]|]; [|done].
  cbn [mbind verdict_bind].
  destruct (if grants_authority (mode p) then reject_broad_or_sensitive_scope dir p
            else reject_runtime_root_scope dir); [|done].
  destruct (scoped_operation_target tool_call) as [target|]; [|done].
  cbn [mbind verdict_bind]. destruct (invalid_on_error (resolve_target target)) as [resolved|]; [|done].
  cbn [mbind verdict_bind]. destruct (negb (path_starts_with resolved dir)); [done|].
  destruct (scoped_rule_namespace tool_call) as [ns|]; [destruct (str_mem ns (selected_rule_namespaces p))|];
    cbn [mbind verdict_bind]; eauto.
Qed.

(** The editor's live preview and the validation on Enter agree, for grants
    and for blocks: the preview shows a status that lets the scope be applied
    exactly when the validation succeeds, whatever the editor believed about the
    directory when it opened, and a refusal carries the previewed message. *)
Theorem preview_agrees_with_validation (a : ScopedAllowRequest) (d : ScopedDenyRequest) tool_call existed :
  (if blocks_apply (preview_scoped_allow a tool_call existed)
   then validate_scoped_allow a tool_call
        = Err (status_message (preview_scoped_allow a tool_call existed))
   else ∃ v, validate_scoped_allow a tool_call = Ok v) ∧
  (if blocks_apply (preview_scoped_deny d tool_call existed)
   then validate_scoped_deny d tool_call
        = Err (status_message (preview_scoped_deny d tool_call existed))
   else ∃ v, validate_scoped_deny d tool_call = Ok v).
Proof.
  unfold preview_scoped_allow, preview_scoped_deny, preview, validate_scoped_allow,
    validate_scoped_deny; cbv zeta; split.
  - pose proof (classify_existed (from_allow a) tool_call existed) as E.
    pose proof (classify_cases (from_allow a) tool_call existed) as C.
    destruct (classify_scope _ _ false) as [[dir st]|s].
    + destruct E as [st' E]. rewrite E in C |- *. destruct C as (_ & -> & _). eauto.
    + rewrite E in C |- *. by rewrite C.
  - pose proof (classify_existed (from_deny d) tool_call existed) as E.
    pose proof (classify_cases (from_deny d) tool_call existed) as C.
    destruct (classify_scope _ _ false) as [[dir st]|s].
    + destruct E as [st' E]. rewrite E in C |- *. destruct C as (_ & -> & _). eauto.
    + rewrite E in C |- *. by rewrite C.
Qed.

(** *** Entries of the allowlist *)

Lemma entries_with_spec ns e allowed : e ∈ entries_with ns allowed ↔ ns +:+ e ∈ allowed.
Proof.
  unfold entries_with. rewrite list_elem_of_omap. setoid_rewrite strip_prefix_Some. naive_solver.
Qed.

Lemma entries_with_nil ns allowed :
  Forall (λ e, starts_with ns e = false) allowed → entries_with ns allowed = [].
Proof.
  unfold starts_with. induction 1 as [|e allowed He _ IH]; [done|]. cbn.
  by destruct (strip_prefix ns e).
Qed.

Lemma existsb_elem {A} (f : A → bool) l : existsb f l = true ↔ ∃ x, x ∈ l ∧ f x = true.
Proof. rewrite existsb_exists. by setoid_rewrite list_elem_of_In. Qed.

Lemma scope_match_spec t allowed :
  scope_match t allowed = true ↔
  ∃ target ns dir, scoped_call_target t = Some target ∧ scoped_prefix_namespace t = Some ns ∧
    ns +:+ dir ∈ allowed ∧ directory_scope_matches dir (resolved_text target) = true.
Proof.
  unfold scope_match.
  destruct (scoped_call_target t) as [target|], (scoped_prefix_namespace t) as [ns|];
    [|naive_solver..].
  rewrite existsb_elem. setoid_rewrite entries_with_spec. naive_solver.
Qed.

(** An accepted proposal, seen from the call it was made for. *)
Lemma classify_covers_call p t existed dir status :
  rename_unambiguous t →
  classify_scope p (ToolCallType_display t) existed = Accept (dir, status) →
  ∃ target ns, scoped_call_target t = Some target ∧ scoped_prefix_namespace t = Some ns ∧
    ns ∈ selected_rule_namespaces p ∧
    directory_scope_matches (with_trailing_separator (to_string_lossy dir)) (resolved_text target)
    = true.
Proof.
  intros Hr Hc. pose proof (classify_cases p (ToolCallType_display t) existed) as C.
  rewrite Hc in C. destruct C as (Ha & _ & (target & resolved & Ht & Hres & Hs) & Hsel).
  destruct (rendered_call_reads_back t Hr) as [Ht' Hns]. rewrite Ht in Ht'.
  assert (∃ ns, scoped_prefix_namespace t = Some ns) as [ns Hpn]
    by (destruct t; try discriminate; eauto).
  exists target, ns. split_and!; [done|done|apply Hsel; rewrite Hns by congruence; done|].
  unfold resolved_text. rewrite Hres. by apply under_directory_matches.
Qed.

(** Keys of file calls are paths: none of the other namespaces. *)
Lemma absolute_key_match json key allowed t :
  starts_with "/" key = true → key_match json key allowed t = path_match key allowed t.
Proof. intros [r ->]%starts_with_spec. reflexivity. Qed.

(** *** The denylist *)

Lemma deny_targets_None ns denied targets :
  deny_targets ns denied targets = None ↔
  ∀ target dir, target ∈ targets → ns +:+ dir ∈ denied →
    directory_scope_matches dir (resolved_text target) = false.
Proof.
  induction targets as [|target targets IH]; cbn [deny_targets].
  { split; [|done]. intros _ ? ? ?%not_elem_of_nil. done. }
  destruct (List.find _ denied) as [rule|] eqn:E.
  - split; [done|]. intros Hall. apply find_some in E as [Hin Hm].
    destruct (strip_prefix ns rule) as [dir|] eqn:Ep; [|done].
    apply strip_prefix_Some in Ep as ->. rewrite (Hall target dir) in Hm; [done|by left|].
    by apply list_elem_of_In.
  - rewrite IH. split; [|intros Hall t' d Ht; apply Hall; by right].
    intros Hall t' dir [->|Ht]%elem_of_cons Hd; [|by apply Hall].
    apply list_elem_of_In in Hd. apply (find_none _ _ E) in Hd. by rewrite strip_prefix_app in Hd.
Qed.

(** A block refuses exactly the file calls of its kind with a path, either
    end of a rename included, that resolves into its directory. *)
Theorem deny_match_spec t denied :
  session_deny_match t denied = None ↔
  ∀ ns targets target dir, scoped_prefix_namespace t = Some ns → governed_paths t = Some targets →
    target ∈ targets → (DENY_RULE_PREFIX +:+ ns) +:+ dir ∈ denied →
    directory_scope_matches dir (resolved_text target) = false.
Proof.
  unfold session_deny_match.
  destruct (decide (denied = [])) as [->|Hne].
  { split; [|done]. intros _ ? ? ? ? ? ? ? ?%not_elem_of_nil. done. }
  replace (match denied with [] => None | _ => _ end) with
    (ns ← scoped_prefix_namespace t; targets ← governed_paths t;
     deny_targets (DENY_RULE_PREFIX +:+ ns) denied targets) by by destruct denied.
  destruct (scoped_prefix_namespace t) as [ns|], (governed_paths t) as [targets|];
    cbn [mbind option_bind]; [rewrite deny_targets_None|..]; naive_solver.
Qed.

(** A directory block that validation accepts for the call under review
    refuses that call, whatever else is blocked. *)
Theorem scoped_deny_refuses_reviewed_call r t v denied :
  validate_scoped_deny r (ToolCallType_display t) = Ok v →
  rename_unambiguous t → vd_rules v ⊆ denied →
  is_Some (session_deny_match t denied).
Proof.
  intros Hv Hr Hsub. unfold validate_scoped_deny in Hv. cbv zeta in Hv.
  destruct (classify_scope _ _ false) as [[dir status]|] eqn:Hc; [|done].
  injection Hv as <-. destruct (classify_covers_call _ _ _ _ _ Hr Hc) as (target & ns & Ht & Hns & Hsel & Hd).
  destruct (session_deny_match t denied) eqn:E; [done|exfalso].
  unfold session_deny_match in E. revert E.
  assert (Hin : (DENY_RULE_PREFIX +:+ ns) +:+ with_trailing_separator (to_string_lossy dir) ∈ denied).
  { apply Hsub. cbn. unfold prefixed_rules. rewrite append_assoc. apply list_elem_of_fmap. by exists ns. }
  destruct denied as [|d0 denied0] eqn:Ed; [by apply not_elem_of_nil in Hin|]. rewrite <- Ed in *.
  rewrite Hns. cbn [mbind option_bind].
  assert (∃ targets, governed_paths t = Some targets ∧ target ∈ targets) as (targets & -> & Htg).
  { destruct t; cbn in Ht; simplify_eq; eexists; (split; [reflexivity|set_solver]). }
  cbn [mbind option_bind]. intros Hn. rewrite deny_targets_None in Hn.
  by rewrite (Hn _ _ Htg Hin) in Hd.
Qed.

Section Session.
Variable process_start_time : Z → option Z.
Variable json_string_array : string → option (list string).

(** A directory grant that validation accepts for the call under review does
    allow that call, whatever else the session allows. *)
Theorem scoped_allow_covers_reviewed_call r t v key allowed :
  validate_scoped_allow r (ToolCallType_display t) = Ok v →
  rename_unambiguous t →
  session_allowlist_key process_start_time t = Some key → starts_with "/" key = true →
  va_rules v ⊆ allowed →
  is_session_allowlist_match json_string_array key allowed t = Some true.
Proof.
  intros Hv Hr _ Habs Hsub. unfold validate_scoped_allow in Hv. cbv zeta in Hv.
  destruct (classify_scope _ _ false) as [[dir status]|] eqn:Hc; [|done].
  injection Hv as <-. destruct (classify_covers_call _ _ _ _ _ Hr Hc) as (target & ns & Ht & Hns & Hsel & Hd).
  assert (scope_match t allowed = true) as Hm.
  { apply scope_match_spec. exists target, ns. eexists. split_and!; [done|done| |exact Hd].
    apply Hsub. unfold prefixed_rules. cbn. apply list_elem_of_fmap. by exists ns. }
  assert (key_match json_string_array key allowed t = Some true).
  { rewrite absolute_key_match by done. unfold path_match. by rewrite Hm. }
  by destruct t.
Qed.

(** The namespaces of a grant's rules are the ticked ones. *)
Lemma va_rules_spec r tool_call v e :
  validate_scoped_allow r tool_call = Ok v →
  e ∈ va_rules v ↔ ∃ ns, ns ∈ selected_rule_namespaces (from_allow r) ∧ e = ns +:+ va_directory v.
Proof.
  unfold validate_scoped_allow. cbv zeta. destruct (classify_scope _ _ _) as [[]|]; [|done].
  intros [= <-]. cbn. unfold prefixed_rules. rewrite list_elem_of_fmap. naive_solver.
Qed.

Lemma selected_cases p ns :
  ns ∈ selected_rule_namespaces p → ns = "ro-prefix:" ∨ ns = "write-prefix:" ∨ ns = "delete-prefix:".
Proof. unfold selected_rule_namespaces. destruct (read p), (write p), (delete_op p); set_solver. Qed.

(** Lists of directory rules only. *)
Definition only_directory_rules (allowed : list string) : Prop :=
  Forall (λ e, ∃ ns dir, e = ns +:+ dir ∧
            (ns = "ro-prefix:" ∨ ns = "write-prefix:" ∨ ns = "delete-prefix:")) allowed.

Lemma directory_rules_without ns allowed :
  (∀ d, starts_with ns ("ro-prefix:" +:+ d) = false) →
  (∀ d, starts_with ns ("write-prefix:" +:+ d) = false) →
  (∀ d, starts_with ns ("delete-prefix:" +:+ d) = false) →
  only_directory_rules allowed → Forall (λ e, starts_with ns e = false) allowed.
Proof. intros H1 H2 H3 Ho. eapply Forall_impl; [exact Ho|]. naive_solver. Qed.

Lemma directory_rules_not_mem e allowed :
  existsb (λ p, starts_with p e) ["ro-prefix:"; "write-prefix:"; "delete-prefix:"] = false →
  only_directory_rules allowed → str_mem e allowed = false.
Proof.
  intros He Ho. destruct (str_mem e allowed) eqn:E; [|done].
  apply str_mem_spec in E. unfold only_directory_rules in Ho. rewrite Forall_forall in Ho.
  apply Ho in E as (ns & dir & -> & Hns). cbn [existsb] in He.
  destruct Hns as [->|[->| ->]]; rewrite starts_with_app in He; cbn in He; by rewrite ?orb_true_r in He.
Qed.

Lemma directory_rules_no_entries ns allowed :
  (∀ d, starts_with ns ("ro-prefix:" +:+ d) = false) →
  (∀ d, starts_with ns ("write-prefix:" +:+ d) = false) →
  (∀ d, starts_with ns ("delete-prefix:" +:+ d) = false) →
  only_directory_rules allowed → entries_with ns allowed = [].
Proof. intros. apply entries_with_nil. by apply directory_rules_without. Qed.

Lemma directory_rules_no_glob key allowed :
  only_directory_rules allowed → glob_entries key allowed = Some false.
Proof.
  induction 1 as [|e allowed (ns & dir & -> & Hns) _ IH]; [done|].
  cbn [glob_entries]. by destruct Hns as [->|[->| ->]]; cbn.
Qed.

Lemma directory_rules_no_prefix key allowed t :
  only_directory_rules allowed → prefix_match key allowed t = false.
Proof.
  intros Ho. apply existsb_false_Forall. eapply Forall_impl; [exact Ho|].
  intros e (ns & dir & -> & Hns). by destruct Hns as [->|[->| ->]].
Qed.

Lemma directory_rules_decide key allowed t :
  only_directory_rules allowed →
  key_match json_string_array key allowed t = Some true → scope_match t allowed = true.
Proof.
  intros Ho. unfold key_match.
  destruct (starts_with "listen:" key) eqn:El.
  { unfold listen_match. apply starts_with_spec in El as [r ->].
    rewrite directory_rules_not_mem by done. cbn [orb]. rewrite strip_prefix_app.
    cbn [mbind option_bind].
    destruct (rsplit_once ":" r) as [[a ?]|]; [|done]. by rewrite directory_rules_not_mem. }
  destruct (match strip_prefix "net:" key with Some d => Some d | None => strip_prefix "dns:" key end) as [d|].
  { unfold net_match, domain_allowed. rewrite directory_rules_no_entries by done. cbn [existsb].
    destruct (parse_dns_candidate_array _ d) as [[|c cs]|]; done. }
  destruct (strip_prefix "exec:" key) as [x|].
  { unfold exec_match. by rewrite !directory_rules_no_entries. }
  unfold path_match. destruct (scope_match t allowed); [done|].
  assert (Hn : ∀ ns p, ns = "ro:" ∨ ns = "rw:" →
            entry_match (canonicalize_allowlist_entry ns p) allowed = false).
  { intros ns p Hns. unfold entry_match, canonicalize_allowlist_entry.
    destruct (fs_canonicalize p); [|done]. destruct (forallb _ _); [|done].
    destruct Hns as [->| ->]; by apply directory_rules_not_mem. }
  unfold readonly_allowlist_entry. rewrite !Hn by auto. rewrite !andb_false_r.
  rewrite directory_rules_no_glob by done.
  replace (if is_file_read t then Some false else Some false) with (Some false)
    by (by destruct (is_file_read t)). cbn [mbind option_bind].
  destruct (starts_with "process:" key) eqn:Ep.
  { apply starts_with_spec in Ep as [r ->]. rewrite directory_rules_not_mem by done. by destruct t. }
  destruct (starts_with "namespace:" key) eqn:Ens.
  { apply starts_with_spec in Ens as [r ->]. rewrite directory_rules_not_mem by done. by destruct t. }
  rewrite directory_rules_no_prefix by done. rewrite orb_false_r.
  unfold exact_path_match. intros [= Hx]. reflect_bools. destruct Hx as [[[[H1 H2] H3] Hm] _].
  rewrite directory_rules_not_mem in Hm; [done| |done]. cbn. by rewrite H1, H2, H3.
Qed.

(** C6: a directory grant allows nothing else.  With its rules as the whole
    allowlist, a call that is let through without evaluation is a file call of a
    kind the reviewer ticked whose resolved path is the directory or lies below
    it, at a component boundary. *)
Theorem scoped_allow_confined r tool_call v key t :
  validate_scoped_allow r tool_call = Ok v →
  is_session_allowlist_match json_string_array key (va_rules v) t = Some true →
  ∃ target ns rest, scoped_call_target t = Some target ∧
    scoped_prefix_namespace t = Some ns ∧ ns ∈ selected_rule_namespaces (from_allow r) ∧
    resolved_text target = trim_slashes (va_directory v) +:+ rest ∧
    (rest = "" ∨ starts_with "/" rest = true).
Proof.
  intros Hv Hm.
  assert (Ho : only_directory_rules (va_rules v)).
  { apply Forall_forall. intros e He. apply (va_rules_spec _ _ _ _ Hv) in He as (ns & Hns & ->).
    exists ns, (va_directory v). split; [done|]. by eapply selected_cases. }
  assert (scope_match t (va_rules v) = true) as (target & ns & dir & Ht & Hns & He & Hd)%scope_match_spec.
  { destruct t; try by eapply directory_rules_decide.
    unfold is_session_allowlist_match in Hm. destruct (_ || _); [done|].
    destruct (key_match _ target _ _) as [[]|]; [|done..]. by eapply directory_rules_decide. }
  apply (va_rules_spec _ _ _ _ Hv) in He as (ns' & Hns' & Heq).
  apply directory_scope_matches_spec in Hd as (rest & Hr & Hrest).
  assert (ns = ns' ∧ dir = va_directory v) as [<- ->].
  { assert (ns = "ro-prefix:" ∨ ns = "write-prefix:" ∨ ns = "delete-prefix:") as Hc
      by (destruct t; cbn in Hns; simplify_eq; auto).
    apply selected_cases in Hns'.
    destruct Hc as [->|[->| ->]], Hns' as [->|[->| ->]]; cbn in Heq; simplify_eq; done. }
  exists target, ns, rest. auto.
Qed.

(** *** Ordinary approvals *)

(** The calls whose approval is remembered under the entry its lookup finds.  A
    link stores nothing, an executable is remembered by its provenance, and the
    theorems below treat listings and DNS queries. *)
Definition remembered (t : ToolCallType) : bool :=
  match t with
  | FileLink _ _ _ | ProcessSpawn _ _ | DnsQuery _ _ | DirList _ => false
  | _ => true
  end.

Definition file_call (t : ToolCallType) : bool := is_file_read t || is_write_op t.

Lemma domain_matches_refl d : domain_matches d d = true.
Proof. unfold domain_matches. by rewrite String.eqb_refl. Qed.

Lemma domain_allowed_granted d allowed : "net:" +:+ d ∈ allowed → domain_allowed allowed d = true.
Proof.
  intros Hd. unfold domain_allowed. apply existsb_elem. exists d.
  split; [by apply entries_with_spec|apply domain_matches_refl].
Qed.

Lemma approved_file_call_matches t key allowed :
  file_call t = true → session_allowlist_key process_start_time t = Some key →
  starts_with "/" key = true →
  approved_session_allowlist_entries process_start_time json_string_array t ≠ [] →
  approved_session_allowlist_entries process_start_time json_string_array t ⊆ allowed →
  key_match json_string_array key allowed t = Some true.
Proof.
  intros Hf Hk Habs Hne Hsub. rewrite absolute_key_match by done.
  assert (∃ ns, (ns = "ro:" ∧ is_file_read t = true ∨ ns = "rw:" ∧ is_write_op t = true ∧ is_file_read t = false) ∧
            approved_session_allowlist_entry process_start_time t = canonicalize_allowlist_entry ns key)
    as (ns & Hns & Hentry)
    by (destruct t; try discriminate; cbn in Hk; simplify_eq; eexists;
        (split; [|reflexivity]); cbn; auto).
  unfold approved_session_allowlist_entries in *. rewrite Hentry in *.
  destruct (canonicalize_allowlist_entry ns key) as [e|] eqn:Ee; [|done].
  assert (Hnet : strip_prefix "net:" e = None).
  { unfold canonicalize_allowlist_entry in Ee. destruct (fs_canonicalize key); [|done].
    destruct (forallb _ _); [|done].
    injection Ee as <-. by destruct Hns as [[-> _]|[-> _]]. }
  rewrite Hnet in Hsub. cbn [mbind option_bind] in Hsub.
  assert (Hm : entry_match (canonicalize_allowlist_entry ns key) allowed = true).
  { rewrite Ee. apply str_mem_spec. apply Hsub. by left. }
  unfold path_match. destruct (scope_match t allowed); [done|].
  destruct Hns as [[-> Hr]|(-> & Hw & Hr)].
  - unfold readonly_allowlist_entry. by rewrite Hr, Hm.
  - rewrite Hr, Hw, Hm. reflexivity.
Qed.

(** An approval is not a dead grant: when it stores anything, the same call
    is let through the next time, each host of an ambiguous address included. *)
Theorem approved_call_matches_again t key allowed :
  remembered t = true →
  session_allowlist_key process_start_time t = Some key →
  (file_call t = true → starts_with "/" key = true) →
  approved_session_allowlist_entries process_start_time json_string_array t ≠ [] →
  approved_session_allowlist_entries process_start_time json_string_array t ⊆ allowed →
  is_session_allowlist_match json_string_array key allowed t = Some true.
Proof.
  intros Hrem Hk Habs Hne Hsub.
  assert (key_match json_string_array key allowed t = Some true) as Hm; [|by destruct t].
  destruct (file_call t) eqn:Hf; [by apply approved_file_call_matches; auto|].
  destruct t as [| | | | | | | | | | |a port|a port| | | | |op pid|call flags|]; try discriminate.
  - cbn in Hk. injection Hk as <-.
    change (key_match _ _ _ _) with (Some (net_match json_string_array a allowed)).
    unfold approved_session_allowlist_entries in Hsub. cbn [approved_session_allowlist_entry] in Hsub.
    change (session_allowlist_key process_start_time (NetConnect a port)) with (Some ("net:" +:+ a)) in Hsub.
    cbn iota in Hsub. rewrite strip_prefix_app in *. cbn [mbind option_bind] in Hsub.
    unfold net_match. destruct (parse_dns_candidate_array json_string_array a) as [cs|] eqn:Ep.
    + assert (cs ≠ []) by (unfold parse_dns_candidate_array in Ep; repeat case_match; try discriminate;
        destruct (json_string_array a) as [[]|]; cbn in Ep; congruence).
      rewrite bool_decide_eq_false_2 by done. cbn [negb andb]. f_equal. apply forallb_true_Forall.
      apply Forall_forall. intros c Hc. apply domain_allowed_granted, Hsub, list_elem_of_fmap. eauto.
    + f_equal. apply domain_allowed_granted, Hsub. by left.
  - injection Hk as <-.
    change (key_match _ _ _ _) with (Some (listen_match ("listen:" +:+ a +:+ ":" +:+ fmt_Z port) allowed)).
    unfold listen_match. by rewrite (proj2 (str_mem_spec _ _)) by (apply Hsub; left).
  - unfold approved_session_allowlist_entries in Hsub.
    cbn [approved_session_allowlist_entry] in Hsub. rewrite Hk in Hsub.
    cbn in Hk. destruct (process_start_time pid) as [start|]; [|done]. injection Hk as <-.
    change (key_match _ ?k _ _) with (Some (str_mem k allowed)).
    f_equal. apply str_mem_spec, Hsub. left.
  - injection Hk as <-.
    change (key_match _ ?k _ _) with (Some (str_mem k allowed)).
    f_equal. apply str_mem_spec, Hsub. left.
Qed.

(** The exception: an approved DNS query stores [dns:] and the name, and the
    lookup of DNS queries reads [net:] entries only, so the grant never matches. *)
Theorem approved_dns_query_never_matches domain query_type :
  approved_session_allowlist_entries process_start_time json_string_array (DnsQuery domain query_type)
    = ["dns:" +:+ domain] ∧
  is_session_allowlist_match json_string_array ("dns:" +:+ domain) ["dns:" +:+ domain]
    (DnsQuery domain query_type) = Some false.
Proof.
  split; [reflexivity|].
  change (is_session_allowlist_match _ _ _ _)
    with (Some (net_match json_string_array domain ["dns:" +:+ domain])).
  unfold net_match, domain_allowed.
  change (entries_with "net:" _) with (@nil string). cbn [existsb].
  destruct (parse_dns_candidate_array json_string_array domain) as [[|c cs]|]; [done| |done].
  cbn [forallb]. by rewrite andb_false_r.
Qed.

(** An entry that is a bare path allows every operation but a link on every
    path whose text it begins, without regard to component boundaries.  Approving
    a directory listing stores such an entry, and so does the first write to a
    file directly under [/tmp]. *)
Theorem bare_entry_is_prefix_grant path key t :
  starts_with "/" path = true → starts_with path key = true →
  (∀ target link_path symbolic, t ≠ FileLink target link_path symbolic) →
  approved_session_allowlist_entries process_start_time json_string_array (DirList path) = [path] ∧
  is_session_allowlist_match json_string_array key [path] t = Some true.
Proof.
  intros [r ->]%starts_with_spec Hp Hl. split; [reflexivity|].
  pose proof Hp as [r' ->]%starts_with_spec.
  assert (key_match json_string_array (("/" +:+ r) +:+ r') ["/" +:+ r] t = Some true);
    [|destruct t; try done; by edestruct Hl].
  rewrite absolute_key_match by done. unfold path_match.
  destruct (scope_match _ _); [done|]. destruct (_ && _); [done|].
  replace (if is_file_read t then _ else _) with (Some false) by (by destruct (is_file_read t)).
  cbn [mbind option_bind]. destruct (_ && _); [done|].
  change (starts_with "process:" _) with false. change (starts_with "namespace:" _) with false. cbv iota.
  assert (prefix_match (("/" +:+ r) +:+ r') ["/" +:+ r] t = true) as ->; [|by rewrite orb_true_r].
  unfold prefix_match. cbn [existsb]. rewrite orb_false_r, Hp.
  change (namespaced _) with false. unfold launch_derived_blocked.
  by change (str_mem _ _) with false.
Qed.

End Session.
End Grants.

(** ** Concrete sessions *)

(** A file system on which every path exists, no path is a link, and the user's
    home is [/home/u]. *)
Definition plain_components (s : string) : list string :=
  List.filter (λ c, negb (String.eqb c "")) (split_on "/"%char s).

Definition plain_filesystem : Filesystem := {|
  fs_exists _ := true;
  fs_is_dir _ := true;
  fs_canonicalize s := inl (plain_components s);
  fs_metadata _ := Some (0, 493)%Z;
  lossy := id;
  is_utf8 _ := true;
  geteuid := 1000;
  home_dir := Some "/home/u";
  config_dir := None;
  data_dir := None;
  cache_dir := None;
  current_dir := Some "/home/u/proj";
|}.

Section Examples.
#[local] Existing Instance ascii_unicode.
#[local] Existing Instance plain_filesystem.

Definition start_5 : Z → option Z := λ _, Some 5%Z.
Definition two_hosts : string → option (list string) := λ _, Some ["ab.x.com"; "x.com"].

Definition read_proj : ScopedAllowRequest := {|
  sa_directory := "/home/u/proj/src"; sa_read := true; sa_write := false; sa_delete := false;
  sa_persist := false |}.

Definition block_writes : ScopedDenyRequest := {|
  sd_directory := "/home/u/other/"; sd_read := false; sd_write := true; sd_delete := true |}.

Lemma scoped_allow_covers_reviewed_call_witness :
  is_session_allowlist_match two_hosts "/home/u/proj/src/a.rs"
    ["ro-prefix:/home/u/proj/src/"] (FileRead "/home/u/proj/src/a.rs") = Some true.
Proof.
  by apply (scoped_allow_covers_reviewed_call start_5 two_hosts read_proj _
    {| va_directory := "/home/u/proj/src/"; va_rules := ["ro-prefix:/home/u/proj/src/"];
       va_warning := None |}).
Defined.

Lemma scoped_allow_confined_witness :
  ∃ target ns rest, scoped_call_target (DirList "/home/u/proj/src/x") = Some target ∧
    scoped_prefix_namespace (DirList "/home/u/proj/src/x") = Some ns ∧
    ns ∈ selected_rule_namespaces (from_allow read_proj) ∧
    resolved_text target = trim_slashes "/home/u/proj/src/" +:+ rest ∧
    (rest = "" ∨ starts_with "/" rest = true).
Proof.
  by apply (scoped_allow_confined two_hosts read_proj
    (ToolCallType_display (FileRead "/home/u/proj/src/a.rs"))
    {| va_directory := "/home/u/proj/src/"; va_rules := ["ro-prefix:/home/u/proj/src/"];
       va_warning := None |} "/home/u/proj/src/x").
Defined.

Lemma scoped_deny_refuses_reviewed_call_witness :
  is_Some (session_deny_match (FileDelete "/home/u/other/x")
    ["deny-write-prefix:/home/u/other/"; "deny-delete-prefix:/home/u/other/"]).
Proof.
  by apply (scoped_deny_refuses_reviewed_call block_writes _
    {| vd_directory := "/home/u/other/";
       vd_rules := ["deny-write-prefix:/home/u/other/"; "deny-delete-prefix:/home/u/other/"];
       vd_warning := None |}).
Defined.

Lemma approved_call_matches_again_witness :
  is_session_allowlist_match two_hosts "net:[1.2.3.4]" ["net:ab.x.com"; "net:x.com"]
    (NetConnect "[1.2.3.4]" 443) = Some true.
Proof. by apply (approved_call_matches_again start_5 two_hosts). Defined.

Lemma bare_entry_is_prefix_grant_witness :
  is_session_allowlist_match two_hosts "/tmp/ab/.netrc" ["/tmp/a"] (FileWrite "/tmp/ab/.netrc" "")
    = Some true.
Proof.
  by refine (proj2 (bare_entry_is_prefix_grant start_5 two_hosts "/tmp/a" _ _ _ _ _)).
Defined.

(** Three gaps of the rules, on concrete sessions: a delete scope lets a file
    be renamed to anywhere, although a block on the destination would refuse it;
    a read glob whose parts overlap in the path panics; and a renamed file whose
    name holds the arrow is read back as another path. *)
Theorem session_rule_gaps :
  (is_session_allowlist_match two_hosts "/home/u/proj/src/x"
     ["delete-prefix:/home/u/proj/src/"] (FileRename "/home/u/proj/src/x" "/home/u/.profile")
     = Some true
   ∧ session_deny_match (FileRename "/home/u/proj/src/x" "/home/u/.profile") ["deny-delete-prefix:/home/u/"]
     = Some "deny-delete-prefix:/home/u/") ∧
  is_session_allowlist_match two_hosts "/x/a" ["ro-glob:/x/a*a"] (FileRead "/x/a") = None ∧
  (scoped_operation_target (ToolCallType_display (FileRename "/a -> /b/x" "/c")) = Some "/a"
   ∧ scoped_call_target (FileRename "/a -> /b/x" "/c") = Some "/a -> /b/x").
Proof. repeat split; vm_compute; reflexivity. Qed.

End Examples.
