(* ===== verification/Digest.v ===== *)
(** * The digest queue

    [grith-digest/src/types.rs], [queue.rs] and [actions.rs].  Calls the proxy
    queues wait here for a human.  The queue is one SQLite table; every statement
    is one transaction, so a table is a map from the primary key to the other
    columns and each statement a function on it.  Failures of SQLite itself (disk,
    locking) are not modelled: such a call returns an error and changes nothing.

    A review is a read that checks the item and a separate write; between the two
    another process may write.  The statements are therefore also given on their
    own ([Stmt]), with a step relation in which the halves of any number of
    operations interleave. *)

From Stdlib Require Import Ascii String.
From stdpp Require Import sorting.
From S2P Require Import Prelude F64 Concrete.

Inductive DigestStatus :=
  | Pending
  | Approved
  | Denied
  | Expired
  | Escalated.

#[export] Instance DigestStatus_eq_dec : EqDecision DigestStatus.
Proof. solve_decision. Defined.

Definition DigestStatus_display (s : DigestStatus) : string :=
  match s with
  | Pending => "pending"
  | Approved => "approved"
  | Denied => "denied"
  | Expired => "expired"
  | Escalated => "escalated"
  end.

Definition from_str_lossy (s : string) : DigestStatus :=
  if String.eqb s "approved" then Approved
  else if String.eqb s "denied" then Denied
  else if String.eqb s "expired" then Expired
  else if String.eqb s "escalated" then Escalated
  else Pending.

Inductive ReviewAction :=
  | Approve
  | Deny
  | ApproveAndLearn
  | Escalate
  | UnlockEgress
  | DenyAndTerminate
  | AllowAlways.

Definition ReviewAction_display (a : ReviewAction) : string :=
  match a with
  | Approve => "approve"
  | Deny => "deny"
  | ApproveAndLearn => "approve_and_learn"
  | Escalate => "escalate"
  | UnlockEgress => "unlock_egress"
  | DenyAndTerminate => "deny_and_terminate"
  | AllowAlways => "allow_always"
  end.

Inductive ScoreSeverity :=
  | Low
  | Medium
  | High
  | Critical.

Definition from_score (score : f64) : ScoreSeverity :=
  if f64_ge score (f64_of_Z 7) then Critical
  else if f64_ge score (f64_dec 55 1) then High
  else if f64_ge score (f64_of_Z 4) then Medium
  else Low.

Record FilterBreakdown := {
  fb_filter_name : string;
  fb_score : f64;
  fb_rule_id : string;
  fb_message : string;
}.

Inductive DigestError :=
  | Database (message : string)
  | Serialization
  | NotFound (id : string)
  | InvalidAction (message : string).

(** The columns of [digest_queue] but the primary key [id]. *)
Record Row := {
  c_created_at : string;
  c_session_id : option string;
  c_tool_call_type : string;
  c_arguments_summary : string;
  c_decision_reason : option string;
  c_composite_score : f64;
  c_filter_breakdown : string;
  c_task_context : option string;
  c_plugin_id : string;
  c_status : string;
  c_reviewed_at : option string;
  c_review_action : option string;
  c_reviewer_notes : option string;
  c_informational_only : bool;
  c_escalated_at : option string;
  c_escalated_by : option string;
}.

Abbreviation Table := (gmap string Row).

Section Queue.
Context `{Deps}.

Record DigestItem := {
  id : Uuid;
  created_at : DateTime;
  session_id : option Uuid;
  tool_call_type : string;
  arguments_summary : string;
  decision_reason : option string;
  composite_score : f64;
  severity : ScoreSeverity;
  filter_breakdown : list FilterBreakdown;
  task_context : option string;
  plugin_id : string;
  status : DigestStatus;
  reviewed_at : option DateTime;
  review_action : option string;
  reviewer_notes : option string;
  informational_only : bool;
  escalated_at : option DateTime;
  escalated_by : option string;
}.

(** What the queue uses of [uuid], [chrono] and [serde_json]. *)
Class Codec := {
  parse_uuid : string → option Uuid;
  nil_uuid : Uuid;
  to_rfc3339 : DateTime → string;
  parse_rfc3339 : string → option DateTime;
  breakdown_to_json : list FilterBreakdown → string;
  breakdown_from_json : string → option (list FilterBreakdown);
}.

(** JSON has no NaN and no infinities: [serde_json] writes them as [null], which
    is not a number when read back. *)
Definition finite_breakdown (b : list FilterBreakdown) : Prop :=
  Forall (λ f, match f64_key (fb_score f) with Some _ => ¬ ∃ s, fb_score f = SpecFloat.S754_infinity s
               | None => False end) b.

Class CodecLaws `{Codec} : Prop := {
  uuid_round_trip : ∀ u, parse_uuid (Uuid_to_string u) = Some u;
  rfc3339_round_trip : ∀ t, parse_rfc3339 (to_rfc3339 t) = Some t;
  breakdown_round_trip : ∀ b, finite_breakdown b → breakdown_from_json (breakdown_to_json b) = Some b;
}.

Context `{Codec}.

(** A NaN is bound as NULL, which the column refuses; the primary key refuses a
    second row. *)
Definition enqueue (item : DigestItem) (t : Table) : (unit + DigestError) * Table :=
  let row := {|
    c_created_at := to_rfc3339 (created_at item);
    c_session_id := Uuid_to_string <$> session_id item;
    c_tool_call_type := tool_call_type item;
    c_arguments_summary := arguments_summary item;
    c_decision_reason := decision_reason item;
    c_composite_score := composite_score item;
    c_filter_breakdown := breakdown_to_json (filter_breakdown item);
    c_task_context := task_context item;
    c_plugin_id := plugin_id item;
    c_status := DigestStatus_display (status item);
    c_reviewed_at := None;
    c_review_action := None;
    c_reviewer_notes := None;
    c_informational_only := informational_only item;
    c_escalated_at := None;
    c_escalated_by := None |} in
  if f64_is_nan (composite_score item)
  then (inr (Database "NOT NULL constraint failed: digest_queue.composite_score"), t)
  else match t !! Uuid_to_string (id item) with
       | Some _ => (inr (Database "UNIQUE constraint failed: digest_queue.id"), t)
       | None => (inl (), <[Uuid_to_string (id item) := row]> t)
       end.

(** [row_to_item]; a corrupt UUID or creation time is replaced. *)
Definition row_to_item (now : DateTime) (key : string) (r : Row) : option DigestItem :=
  breakdown ← breakdown_from_json (c_filter_breakdown r);
  Some {|
    id := default nil_uuid (parse_uuid key);
    created_at := default now (parse_rfc3339 (c_created_at r));
    session_id := (s ← c_session_id r; parse_uuid s);
    tool_call_type := c_tool_call_type r;
    arguments_summary := c_arguments_summary r;
    decision_reason := c_decision_reason r;
    composite_score := c_composite_score r;
    severity := from_score (c_composite_score r);
    filter_breakdown := breakdown;
    task_context := c_task_context r;
    plugin_id := c_plugin_id r;
    status := from_str_lossy (c_status r);
    reviewed_at := (s ← c_reviewed_at r; parse_rfc3339 s);
    review_action := c_review_action r;
    reviewer_notes := c_reviewer_notes r;
    informational_only := c_informational_only r;
    escalated_at := (s ← c_escalated_at r; parse_rfc3339 s);
    escalated_by := c_escalated_by r |}.

Definition get_by_id (now : DateTime) (i : Uuid) (t : Table) : DigestItem + DigestError :=
  match t !! Uuid_to_string i with
  | None => inr (NotFound (Uuid_to_string i))
  | Some r =>
      match row_to_item now (Uuid_to_string i) r with
      | Some item => inl item
      | None => inr Serialization
      end
  end.

(** *** Listing *)

(** [ORDER BY composite_score DESC]; NULL would come last. *)
Definition by_score_desc (r s : string * Row) : Prop :=
  match f64_key (c_composite_score r.2), f64_key (c_composite_score s.2) with
  | Some a, Some b => (b <= a)%Z
  | _, None => True
  | None, Some _ => False
  end.

#[export] Instance by_score_desc_dec : RelDecision by_score_desc.
Proof. intros r s. unfold by_score_desc. repeat case_match; apply _. Defined.

(** [usize as i64]. *)
Definition as_i64 (n : Z) : Z := ((n + 2 ^ 63) mod 2 ^ 64 - 2 ^ 63)%Z.

(** [LIMIT l OFFSET o]: a negative limit is none, a negative offset is zero. *)
Definition sql_window {A} (limit offset : Z) (l : list A) : list A :=
  let l := drop (Z.to_nat offset) l in
  if (limit <? 0)%Z then l else take (Z.to_nat limit) l.

Fixpoint rows_to_items (now : DateTime) (rows : list (string * Row)) : list DigestItem + DigestError :=
  match rows with
  | [] => inl []
  | (key, r) :: rows =>
      match row_to_item now key r with
      | None => inr Serialization
      | Some item =>
          match rows_to_items now rows with
          | inl items => inl (item :: items)
          | inr e => inr e
          end
      end
  end.

Definition with_status (statuses : list string) (r : Row) : bool := str_mem (c_status r) statuses.

Section Listing.
Context `{HashIter}.

(** Rows with equal scores come in the order of the scan, which is unspecified. *)
Definition select_by_score (statuses : list string) (t : Table) : list (string * Row) :=
  merge_sort by_score_desc (List.filter (λ kr, with_status statuses kr.2) (hash_iter t)).

Definition get_pending (now : DateTime) (limit offset : Z) (t : Table) :=
  rows_to_items now (sql_window (as_i64 limit) (as_i64 offset) (select_by_score ["pending"] t)).

Definition get_actionable (now : DateTime) (limit offset : Z) (t : Table) :=
  rows_to_items now
    (sql_window (as_i64 limit) (as_i64 offset) (select_by_score ["pending"; "escalated"] t)).

End Listing.

Definition count_where (statuses : list string) (t : Table) : nat :=
  size (filter (λ kr, with_status statuses kr.2 = true) t).

Definition count_pending (t : Table) : nat := count_where ["pending"] t.
Definition count_all (t : Table) : nat := size t.
Definition count_escalated (t : Table) : nat := count_where ["escalated"] t.
Definition count_actionable (t : Table) : nat := count_where ["pending"; "escalated"] t.

(** *** Updates *)

Definition set_status (s : string) (r : Row) : Row := {|
  c_created_at := c_created_at r; c_session_id := c_session_id r;
  c_tool_call_type := c_tool_call_type r; c_arguments_summary := c_arguments_summary r;
  c_decision_reason := c_decision_reason r; c_composite_score := c_composite_score r;
  c_filter_breakdown := c_filter_breakdown r; c_task_context := c_task_context r;
  c_plugin_id := c_plugin_id r; c_status := s; c_reviewed_at := c_reviewed_at r;
  c_review_action := c_review_action r; c_reviewer_notes := c_reviewer_notes r;
  c_informational_only := c_informational_only r; c_escalated_at := c_escalated_at r;
  c_escalated_by := c_escalated_by r |}.

Definition set_review (at_ : string) (action : option string) (r : Row) : Row := {|
  c_created_at := c_created_at r; c_session_id := c_session_id r;
  c_tool_call_type := c_tool_call_type r; c_arguments_summary := c_arguments_summary r;
  c_decision_reason := c_decision_reason r; c_composite_score := c_composite_score r;
  c_filter_breakdown := c_filter_breakdown r; c_task_context := c_task_context r;
  c_plugin_id := c_plugin_id r; c_status := c_status r; c_reviewed_at := Some at_;
  c_review_action := action; c_reviewer_notes := c_reviewer_notes r;
  c_informational_only := c_informational_only r; c_escalated_at := c_escalated_at r;
  c_escalated_by := c_escalated_by r |}.

Definition set_notes (notes : option string) (r : Row) : Row := {|
  c_created_at := c_created_at r; c_session_id := c_session_id r;
  c_tool_call_type := c_tool_call_type r; c_arguments_summary := c_arguments_summary r;
  c_decision_reason := c_decision_reason r; c_composite_score := c_composite_score r;
  c_filter_breakdown := c_filter_breakdown r; c_task_context := c_task_context r;
  c_plugin_id := c_plugin_id r; c_status := c_status r; c_reviewed_at := c_reviewed_at r;
  c_review_action := c_review_action r; c_reviewer_notes := notes;
  c_informational_only := c_informational_only r; c_escalated_at := c_escalated_at r;
  c_escalated_by := c_escalated_by r |}.

Definition set_escalation (at_ : string) (by_ : option string) (r : Row) : Row := {|
  c_created_at := c_created_at r; c_session_id := c_session_id r;
  c_tool_call_type := c_tool_call_type r; c_arguments_summary := c_arguments_summary r;
  c_decision_reason := c_decision_reason r; c_composite_score := c_composite_score r;
  c_filter_breakdown := c_filter_breakdown r; c_task_context := c_task_context r;
  c_plugin_id := c_plugin_id r; c_status := c_status r; c_reviewed_at := c_reviewed_at r;
  c_review_action := c_review_action r; c_reviewer_notes := c_reviewer_notes r;
  c_informational_only := c_informational_only r; c_escalated_at := Some at_;
  c_escalated_by := by_ |}.

Definition update_row (i : Uuid) (f : Row → Row) (t : Table) : (unit + DigestError) * Table :=
  match t !! Uuid_to_string i with
  | None => (inr (NotFound (Uuid_to_string i)), t)
  | Some r => (inl (), <[Uuid_to_string i := f r]> t)
  end.

Definition update_status (now : DateTime) (i : Uuid) (s : DigestStatus)
    (action notes : option string) (t : Table) : (unit + DigestError) * Table :=
  update_row i (λ r, set_notes notes
    (set_review (to_rfc3339 now) action (set_status (DigestStatus_display s) r))) t.

Definition update_escalation (now : DateTime) (i : Uuid) (by_ : option string) (t : Table) :
    (unit + DigestError) * Table :=
  update_row i (λ r, set_escalation (to_rfc3339 now) by_ (set_status "escalated" r)) t.

(** Times are compared as texts. *)
Definition expires (cutoff : DateTime) (r : Row) : bool :=
  String.eqb (c_status r) "pending" && String.ltb (c_created_at r) (to_rfc3339 cutoff).

Definition expire_before (cutoff : DateTime) (t : Table) : nat * Table :=
  (size (filter (λ kr, expires cutoff kr.2 = true) t),
   (λ r, if expires cutoff r then set_status "expired" r else r) <$> t).

Definition clears (r : Row) : bool := with_status ["pending"; "escalated"] r.

Definition bulk_clear_pending (now : DateTime) (t : Table) : nat * Table :=
  (size (filter (λ kr, clears kr.2 = true) t),
   (λ r, if clears r then set_review (to_rfc3339 now) (Some "clear") (set_status "expired" r) else r)
     <$> t).

(** ** Actions *)

Definition validate_actionable (now : DateTime) (i : Uuid) (t : Table) : unit + DigestError :=
  match get_by_id now i t with
  | inr e => inr e
  | inl item =>
      if negb (bool_decide (status item = Pending)) && negb (bool_decide (status item = Escalated))
      then inr (InvalidAction ("item " +:+ Uuid_to_string i +:+ " is already "
                  +:+ DigestStatus_display (status item) +:+ " and cannot be reviewed"))
      else if informational_only item
      then inr (InvalidAction ("item " +:+ Uuid_to_string i
                  +:+ " is informational only (auto-denied) and cannot be approved"))
      else inl ()
  end.

Definition validate_escalatable (now : DateTime) (i : Uuid) (t : Table) : unit + DigestError :=
  match get_by_id now i t with
  | inr e => inr e
  | inl item =>
      if negb (bool_decide (status item = Pending))
      then inr (InvalidAction ("item " +:+ Uuid_to_string i +:+ " is "
                  +:+ DigestStatus_display (status item) +:+ " and can only be escalated from pending status"))
      else if informational_only item
      then inr (InvalidAction ("item " +:+ Uuid_to_string i
                  +:+ " is informational only and cannot be escalated"))
      else inl ()
  end.

(** An operation whose check failed changes nothing. *)
Definition after_check (check : unit + DigestError) (write : Table → (unit + DigestError) * Table)
    (t : Table) : (unit + DigestError) * Table :=
  match check with inl _ => write t | inr e => (inr e, t) end.

Definition approve (now : DateTime) (i : Uuid) (t : Table) :=
  after_check (validate_actionable now i t) (update_status now i Approved (Some "approve") None) t.
Definition deny (now : DateTime) (i : Uuid) (t : Table) :=
  after_check (validate_actionable now i t) (update_status now i Denied (Some "deny") None) t.
Definition approve_and_learn (now : DateTime) (i : Uuid) (t : Table) :=
  after_check (validate_actionable now i t)
    (update_status now i Approved (Some "approve_and_learn") None) t.
Definition unlock_egress (now : DateTime) (i : Uuid) (t : Table) :=
  after_check (validate_actionable now i t) (update_status now i Approved (Some "unlock_egress") None) t.
Definition deny_and_terminate (now : DateTime) (i : Uuid) (t : Table) :=
  after_check (validate_actionable now i t)
    (update_status now i Denied (Some "deny_and_terminate") None) t.
Definition allow_always (now : DateTime) (i : Uuid) (t : Table) :=
  after_check (validate_actionable now i t) (update_status now i Approved (Some "allow_always") None) t.

Definition add_notes (now : DateTime) (i : Uuid) (notes : string) (t : Table) :
    (unit + DigestError) * Table :=
  match get_by_id now i t with
  | inr e => (inr e, t)
  | inl item => update_status now i (status item) (review_action item) (Some notes) t
  end.

Definition escalate (now : DateTime) (i : Uuid) (by_ : option string) (t : Table) :=
  after_check (validate_escalatable now i t) (update_escalation now i by_) t.

Definition action_outcome (a : ReviewAction) : option (DigestStatus * string) :=
  match a with
  | Approve => Some (Approved, "approve")
  | Deny => Some (Denied, "deny")
  | ApproveAndLearn => Some (Approved, "approve_and_learn")
  | Escalate => None
  | UnlockEgress => Some (Approved, "unlock_egress")
  | DenyAndTerminate => Some (Denied, "deny_and_terminate")
  | AllowAlways => Some (Approved, "allow_always")
  end.

Definition review (now : DateTime) (i : Uuid) (a : ReviewAction) (notes : option string) (t : Table) :
    (unit + DigestError) * Table :=
  match a with
  | Escalate => escalate now i None t
  | _ =>
      after_check (validate_actionable now i t)
        (match action_outcome a with
         | Some (s, action) => update_status now i s (Some action) notes
         | None => λ t, (inr (InvalidAction "escalate should be handled before this point"), t)
         end) t
  end.

Definition is_actionable (item : DigestItem) : bool :=
  (bool_decide (status item = Pending) || bool_decide (status item = Escalated))
  && negb (informational_only item).

End Queue.

(** ** Statements and their interleaving *)

Section Concurrency.
Context `{Deps} `{!Codec}.

(** The write of an operation, once its read has been checked. *)
Inductive Stmt :=
  | SetStatus (i : Uuid) (s : DigestStatus) (action notes : option string)
  | SetEscalation (i : Uuid) (by_ : option string).

Definition exec_stmt (now : DateTime) (st : Stmt) (t : Table) : (unit + DigestError) * Table :=
  match st with
  | SetStatus i s action notes => update_status now i s action notes t
  | SetEscalation i by_ => update_escalation now i by_ t
  end.

(** The calls a client makes on an item. *)
Inductive Client :=
  | CReview (i : Uuid) (a : ReviewAction) (notes : option string)
  | CEscalate (i : Uuid) (by_ : option string)
  | CNotes (i : Uuid) (notes : string).

Definition run_client (now : DateTime) (c : Client) : Table → (unit + DigestError) * Table :=
  match c with
  | CReview i a notes => review now i a notes
  | CEscalate i by_ => escalate now i by_
  | CNotes i notes => add_notes now i notes
  end.

(** The read of a call: the statement it is going to run. *)
Definition prepare (now : DateTime) (c : Client) (t : Table) : Stmt + DigestError :=
  match c with
  | CReview i Escalate _ | CEscalate i _ =>
      match validate_escalatable now i t with
      | inl _ => inl (SetEscalation i (match c with CEscalate _ by_ => by_ | _ => None end))
      | inr e => inr e
      end
  | CReview i a notes =>
      match validate_actionable now i t with
      | inl _ =>
          match action_outcome a with
          | Some (s, action) => inl (SetStatus i s (Some action) notes)
          | None => inr (InvalidAction "escalate should be handled before this point")
          end
      | inr e => inr e
      end
  | CNotes i notes =>
      match get_by_id now i t with
      | inl item => inl (SetStatus i (status item) (review_action item) (Some notes))
      | inr e => inr e
      end
  end.

(** A call that is not interrupted is its read followed by its write. *)
Lemma run_client_prepare now c t :
  run_client now c t =
  match prepare now c t with
  | inl st => exec_stmt now st t
  | inr e => (inr e, t)
  end.
Proof.
  destruct c as [i a notes|i by_|i notes]; cbn [run_client prepare].
  - destruct a; unfold review, escalate, after_check; repeat case_match; simplify_eq/=; done.
  - unfold escalate, after_check. by repeat case_match; simplify_eq/=.
  - unfold add_notes. by destruct (get_by_id now i t).
Qed.

(** The table, and the writes of the calls in progress. *)
Record World := {
  w_table : Table;
  w_inflight : list Stmt;
}.

Inductive step : World → World → Prop :=
  | step_enqueue w item r t :
      status item ≠ Approved →
      enqueue item (w_table w) = (r, t) →
      step w {| w_table := t; w_inflight := w_inflight w |}
  | step_expire w cutoff n t :
      expire_before cutoff (w_table w) = (n, t) →
      step w {| w_table := t; w_inflight := w_inflight w |}
  | step_clear w now n t :
      bulk_clear_pending now (w_table w) = (n, t) →
      step w {| w_table := t; w_inflight := w_inflight w |}
  | step_read w now c st :
      prepare now c (w_table w) = inl st →
      step w {| w_table := w_table w; w_inflight := st :: w_inflight w |}
  | step_write w now l1 st l2 r t :
      w_inflight w = l1 ++ st :: l2 →
      exec_stmt now st (w_table w) = (r, t) →
      step w {| w_table := t; w_inflight := l1 ++ l2 |}.

(** ** Approvals are on record, under every interleaving *)

Definition approving : list string := ["approve"; "approve_and_learn"; "unlock_egress"; "allow_always"].

Definition row_recorded (r : Row) : Prop :=
  c_status r = "approved" → ∃ a, c_review_action r = Some a ∧ a ∈ approving.

Definition stmt_recorded (st : Stmt) : Prop :=
  match st with
  | SetStatus _ s action _ => s = Approved → ∃ a, action = Some a ∧ a ∈ approving
  | SetEscalation _ _ => True
  end.

Definition recorded (w : World) : Prop :=
  map_Forall (λ _, row_recorded) (w_table w) ∧ Forall stmt_recorded (w_inflight w).

Lemma from_str_lossy_display s : from_str_lossy (DigestStatus_display s) = s.
Proof. by destruct s. Qed.

Lemma from_str_lossy_approved s : from_str_lossy s = Approved → s = "approved".
Proof.
  unfold from_str_lossy. destruct (String.eqb_spec s "approved"); [done|]. by repeat case_match.
Qed.

Lemma update_row_recorded i f t r t' :
  map_Forall (λ _, row_recorded) t → (∀ row, t !! Uuid_to_string i = Some row → row_recorded (f row)) →
  update_row i f t = (r, t') → map_Forall (λ _, row_recorded) t'.
Proof.
  intros Ht Hf. unfold update_row. destruct (t !! Uuid_to_string i) as [row|] eqn:E; intros [= <- <-]; [|done].
  apply map_Forall_insert_2; [by apply Hf|done].
Qed.

Lemma exec_recorded now st t r t' :
  stmt_recorded st → map_Forall (λ _, row_recorded) t →
  exec_stmt now st t = (r, t') → map_Forall (λ _, row_recorded) t'.
Proof.
  intros Hst Ht. destruct st as [i s action notes|i by_]; cbn [exec_stmt]; unfold update_status, update_escalation;
    apply update_row_recorded; [done| |done|by intros ? _].
  intros row _ Hs. cbn in Hs |- *. apply Hst. destruct s; done.
Qed.

Lemma prepare_recorded now c t st :
  map_Forall (λ _, row_recorded) t → prepare now c t = inl st → stmt_recorded st.
Proof.
  intros Ht. destruct c as [i a notes|i by_|i notes]; cbn [prepare].
  - destruct a; repeat case_match; intros [= <-]; cbn; try done; intros Hs;
      simplify_eq; try done; eexists; (split; [reflexivity|]); unfold approving; set_solver.
  - repeat case_match; by intros [= <-].
  - destruct (get_by_id now i t) as [item|] eqn:E; [|done]. intros [= <-] Hs.
    unfold get_by_id in E. destruct (t !! Uuid_to_string i) as [row|] eqn:Er; [|done].
    destruct (row_to_item now _ row) as [item'|] eqn:Ei; [|done]. injection E as ->.
    unfold row_to_item in Ei. destruct (breakdown_from_json _); [|done]. injection Ei as <-. cbn in *.
    apply (Ht _ _ Er). by apply from_str_lossy_approved.
Qed.

Lemma step_recorded w w' : step w w' → recorded w → recorded w'.
Proof.
  intros Hs [Ht Hl]. destruct Hs as [w item r t Hne He|w cutoff n t He|w now n t He|w now c st He|w now l1 st l2 r t Hw He];
    (split; cbn [w_table w_inflight]; [|try done]).
  - unfold enqueue in He. destruct (f64_is_nan _); [by injection He as <- <-|].
    destruct (w_table w !! _); injection He as <- <-; [done|].
    apply map_Forall_insert_2; [|done]. intros Hs. cbn in Hs. by destruct (status item).
  - injection He as <- <-. apply map_Forall_fmap. intros k row Hrow.
    unfold compose. destruct (expires cutoff row); [done|by apply (Ht k)].
  - injection He as <- <-. apply map_Forall_fmap. intros k row Hrow.
    unfold compose. destruct (clears row); [done|by apply (Ht k)].
  - done.
  - constructor; [by eapply prepare_recorded|done].
  - rewrite Hw in Hl. apply Forall_app in Hl as [_ [Hst _]%Forall_cons_1]. by eapply exec_recorded.
  - rewrite Hw in Hl. apply Forall_app in Hl as [H1 [_ H2]%Forall_cons_1]. by apply Forall_app.
Qed.

(** C7: whatever the interleaving of reviews, notes, escalations, expiry and
    clearing by any number of processes, an item the queue calls approved carries
    an approving action: no denial, timeout or clearing ever reads as an approval. *)
Theorem approval_recorded w key r :
  rtc step {| w_table := ∅; w_inflight := [] |} w →
  w_table w !! key = Some r → c_status r = "approved" →
  ∃ a, c_review_action r = Some a ∧ a ∈ approving.
Proof.
  intros Hs Hr. assert (recorded w) as [Ht _]; [|by apply (Ht _ _ Hr)].
  assert (Hind : ∀ w1 w2, rtc step w1 w2 → recorded w1 → recorded w2)
    by (induction 1; eauto using step_recorded).
  apply (Hind _ _ Hs). split; cbn; [apply map_Forall_empty|constructor].
Qed.

(** ** Decisions are final, when calls do not overlap *)

Definition resolved (r : Row) : Prop :=
  c_status r = "approved" ∨ c_status r = "denied" ∨ c_status r = "expired".

Inductive Op :=
  | OEnqueue (item : DigestItem)
  | OExpire (cutoff : DateTime)
  | OClear (now : DateTime)
  | OClient (now : DateTime) (c : Client).

Definition apply_op (o : Op) (t : Table) : Table :=
  match o with
  | OEnqueue item => (enqueue item t).2
  | OExpire cutoff => (expire_before cutoff t).2
  | OClear now => (bulk_clear_pending now t).2
  | OClient now c => (run_client now c t).2
  end.

Definition apply_ops (ops : list Op) (t : Table) : Table := fold_left (λ t o, apply_op o t) ops t.

(** The decision of a row. *)
Definition decision (r : Row) : string * option string := (c_status r, c_review_action r).

Lemma get_by_id_row now i t item :
  get_by_id now i t = inl item →
  ∃ r, t !! Uuid_to_string i = Some r ∧ row_to_item now (Uuid_to_string i) r = Some item.
Proof. unfold get_by_id. repeat case_match; naive_solver. Qed.

Lemma row_to_item_fields now key r item :
  row_to_item now key r = Some item →
  status item = from_str_lossy (c_status r) ∧ review_action item = c_review_action r ∧
  informational_only item = c_informational_only r ∧ composite_score item = c_composite_score r.
Proof. unfold row_to_item. destruct (breakdown_from_json _); [|done]. by intros [= <-]. Qed.

Lemma resolved_lossy r : resolved r → from_str_lossy (c_status r) ≠ Pending ∧ from_str_lossy (c_status r) ≠ Escalated.
Proof. by intros [->|[->| ->]]. Qed.

(** The write of a call whose read saw a resolved item keeps its decision; only
    notes get that far. *)
Lemma prepare_resolved now c t st i :
  prepare now c t = inl st →
  (∀ r, t !! Uuid_to_string i = Some r → resolved r) →
  match st with
  | SetStatus j s action _ => j = i → ∀ r, t !! Uuid_to_string i = Some r → (DigestStatus_display s, action) = decision r
  | SetEscalation j _ => j ≠ i
  end.
Proof.
  intros Hp Hres.
  assert (Hesc : ∀ j, validate_escalatable now j t = inl () → j ≠ i).
  { unfold validate_escalatable. intros j. destruct (get_by_id now j t) as [item|] eqn:E; [|done].
    apply get_by_id_row in E as (r & Hr & Hi). apply row_to_item_fields in Hi as (-> & _).
    intros Hc ->. apply Hres, resolved_lossy in Hr as [Hr _]. by rewrite bool_decide_eq_false_2 in Hc. }
  assert (Hact : ∀ j, validate_actionable now j t = inl () → j ≠ i).
  { unfold validate_actionable. intros j. destruct (get_by_id now j t) as [item|] eqn:E; [|done].
    apply get_by_id_row in E as (r & Hr & Hi). apply row_to_item_fields in Hi as (-> & _).
    intros Hc ->. apply Hres, resolved_lossy in Hr as [Hr Hr'].
    by rewrite !bool_decide_eq_false_2 in Hc. }
  destruct c as [j a notes|j by_|j notes]; cbn [prepare] in Hp.
  - destruct (validate_escalatable now j t) as [[]|] eqn:E1, (validate_actionable now j t) as [[]|] eqn:E2;
      destruct a; simplify_eq/=; try (by apply Hesc); intros Heq; by destruct (Hact _ E2 Heq).
  - destruct (validate_escalatable now j t) as [[]|] eqn:E1; simplify_eq/=. by apply Hesc.
  - destruct (get_by_id now j t) as [item|] eqn:E; [|done]. injection Hp as <-.
    apply get_by_id_row in E as (r & Hr & Hi). apply row_to_item_fields in Hi as (Hs & Ha & _).
    intros -> r' Hr'. assert (r' = r) as -> by congruence. unfold decision. rewrite Hs, Ha.
    f_equal. by destruct (Hres _ Hr) as [->|[->| ->]].
Qed.

Lemma update_row_other i f t j :
  Uuid_to_string i ≠ j → (update_row i f t).2 !! j = t !! j.
Proof. intros Hne. unfold update_row. destruct (t !! Uuid_to_string i); cbn [snd]; [|done]. by rewrite lookup_insert_ne. Qed.

Lemma exec_other now st t j :
  match st with SetStatus i _ _ _ | SetEscalation i _ => Uuid_to_string i ≠ j end →
  (exec_stmt now st t).2 !! j = t !! j.
Proof. destruct st; intros Hne; by apply update_row_other. Qed.

Lemma apply_op_resolved `{!DepsLaws} o t i r :
  t !! Uuid_to_string i = Some r → resolved r →
  ∃ r', apply_op o t !! Uuid_to_string i = Some r' ∧ decision r' = decision r.
Proof.
  intros Hr Hres. destruct o as [item|cutoff|now|now c]; cbn [apply_op].
  - unfold enqueue. destruct (f64_is_nan _); [by exists r|].
    destruct (decide (Uuid_to_string (id item) = Uuid_to_string i)) as [->|Hne]; [rewrite Hr; by exists r|].
    destruct (t !! Uuid_to_string (id item)); [by exists r|]. cbn. exists r. by rewrite lookup_insert_ne.
  - cbn. rewrite lookup_fmap, Hr. eexists. split; [reflexivity|].
    unfold expires. destruct Hres as [->|[->| ->]]; done.
  - cbn. rewrite lookup_fmap, Hr. eexists. split; [reflexivity|].
    unfold clears, with_status. by destruct Hres as [->|[->| ->]].
  - rewrite run_client_prepare. destruct (prepare now c t) as [st|e] eqn:Hp; [|by exists r].
    pose proof (prepare_resolved now c t st i Hp) as Hk.
    specialize (Hk ltac:(intros r' Hr'; assert (r' = r) as -> by congruence; done)).
    destruct st as [j s action notes|j by_].
    + destruct (decide (j = i)) as [->|Hne].
      * specialize (Hk eq_refl r Hr). cbn. unfold update_status, update_row. rewrite Hr. cbn.
        rewrite lookup_insert_eq. by eexists.
      * exists r. by rewrite exec_other by (by intros ?%(inj _)).
    + exists r. rewrite exec_other; [done|]. by intros ?%(inj _).
Qed.

(** A decision is final when calls do not overlap: once an item is approved,
    denied or expired, no sequence of reviews, escalations, notes, expiries,
    clearings or new items changes its status or its recorded action. *)
Theorem decision_final `{!DepsLaws} ops t i r :
  t !! Uuid_to_string i = Some r → resolved r →
  ∃ r', apply_ops ops t !! Uuid_to_string i = Some r' ∧ decision r' = decision r.
Proof.
  revert t r. induction ops as [|o ops IH]; intros t r Hr Hres; [by exists r|].
  destruct (apply_op_resolved o t i r Hr Hres) as (r1 & Hr1 & Hd1). cbn [apply_ops fold_left].
  destruct (IH _ r1 Hr1) as (r2 & Hr2 & Hd2).
  - unfold resolved in *. unfold decision in Hd1. by injection Hd1 as -> _.
  - exists r2. split; [done|]. congruence.
Qed.

(** When two reviews of one item overlap, both reads succeed and the last
    write wins: an item one reviewer denied ends approved.  When a note overlaps
    a decision, the note's write takes the decision back. *)
Theorem overlapping_reviews now i notes t :
  validate_actionable now i t = inl () →
  ∃ item approval refusal note,
    get_by_id now i t = inl item ∧
    prepare now (CReview i Approve None) t = inl approval ∧
    prepare now (CReview i Deny None) t = inl refusal ∧
    prepare now (CNotes i notes) t = inl note ∧
    (∃ r, (exec_stmt now approval (exec_stmt now refusal t).2).2 !! Uuid_to_string i = Some r
          ∧ c_status r = "approved") ∧
    (∃ r, (exec_stmt now note (exec_stmt now refusal t).2).2 !! Uuid_to_string i = Some r
          ∧ from_str_lossy (c_status r) = status item).
Proof.
  intros Hv. pose proof Hv as Hget. unfold validate_actionable in Hget.
  destruct (get_by_id now i t) as [item|] eqn:E; [|done].
  apply get_by_id_row in E as Hrow. destruct Hrow as (r & Hr & _).
  exists item. cbn [prepare]. rewrite Hv, E. do 3 eexists. do 4 (split; [reflexivity|]).
  cbn [exec_stmt]. unfold update_status, update_row. rewrite Hr. cbn [snd]. rewrite lookup_insert_eq.
  cbn [snd]. rewrite !lookup_insert_eq. split; eexists; (split; [reflexivity|]); [done|].
  cbn. apply from_str_lossy_display.
Qed.

End Concurrency.

(** ** What the queue stores and lists *)

Section Storage.
Context `{Deps} `{!DepsLaws} `{!Codec} `{!CodecLaws}.

(** An item read back is the item that was queued, as a fresh one: its severity
    recomputed and its review fields empty; and queueing it changes no other
    item. *)
Theorem enqueue_round_trip item t t' now :
  enqueue item t = (inl (), t') → finite_breakdown (filter_breakdown item) →
  get_by_id now (id item) t' = inl {|
    id := id item; created_at := created_at item; session_id := session_id item;
    tool_call_type := tool_call_type item; arguments_summary := arguments_summary item;
    decision_reason := decision_reason item; composite_score := composite_score item;
    severity := from_score (composite_score item); filter_breakdown := filter_breakdown item;
    task_context := task_context item; plugin_id := plugin_id item; status := status item;
    reviewed_at := None; review_action := None; reviewer_notes := None;
    informational_only := informational_only item; escalated_at := None; escalated_by := None |} ∧
  ∀ i, i ≠ id item → get_by_id now i t' = get_by_id now i t.
Proof.
  unfold enqueue. intros He Hfin. destruct (f64_is_nan _); [done|].
  destruct (t !! Uuid_to_string (id item)) eqn:E; [done|]. injection He as <-. split.
  - unfold get_by_id. rewrite lookup_insert_eq. unfold row_to_item.
    cbn [c_filter_breakdown]. rewrite breakdown_round_trip by done. cbn.
    rewrite uuid_round_trip, rfc3339_round_trip, from_str_lossy_display. cbn. do 2 f_equal.
    destruct (session_id item) as [s|]; [|done]. cbn. by rewrite uuid_round_trip.
  - intros i Hne. unfold get_by_id. by rewrite lookup_insert_ne by (by intros ?%(inj _)).
Qed.

#[export] Instance by_score_desc_total : Total by_score_desc.
Proof. intros r s. unfold by_score_desc. repeat case_match; lia || tauto. Qed.

#[export] Instance by_score_desc_trans : Transitive by_score_desc.
Proof. intros r s u. unfold by_score_desc. repeat case_match; lia || tauto. Qed.

Context `{HashIterLaws}.

Lemma select_by_score_elem statuses t key r :
  (key, r) ∈ select_by_score statuses t ↔ t !! key = Some r ∧ with_status statuses r = true.
Proof.
  unfold select_by_score. rewrite merge_sort_Permutation, list_elem_of_In, filter_In, <- list_elem_of_In.
  rewrite hash_iter_elem_of. done.
Qed.

Lemma rows_to_items_map now rows :
  Forall (λ kr, is_Some (row_to_item now kr.1 kr.2)) rows →
  ∃ items, rows_to_items now rows = inl items ∧
    Forall2 (λ kr item, row_to_item now kr.1 kr.2 = Some item) rows items.
Proof.
  induction 1 as [|[key r] rows [item Hi] _ (items & Hit & Hf)]; [by exists []|].
  cbn in *. exists (item :: items). rewrite Hi, Hit. auto.
Qed.

(** One unreadable row makes the listing fail. *)
Lemma rows_to_items_unreadable now rows key r :
  (key, r) ∈ rows → row_to_item now key r = None → rows_to_items now rows = inr Serialization.
Proof.
  intros Hin Hn. induction rows as [|[k' r'] rows IH]; [by apply not_elem_of_nil in Hin|].
  cbn. apply elem_of_cons in Hin as [[= <- <-]|Hin]; [by rewrite Hn|].
  rewrite IH by done. by destruct (row_to_item now k' r').
Qed.

Lemma sql_window_all {A} limit (l : list A) :
  (Z.of_nat (length l) <= limit < 2 ^ 63)%Z → sql_window (as_i64 limit) (as_i64 0) l = l.
Proof.
  intros Hl. unfold sql_window, as_i64. rewrite Z.mod_small by lia.
  replace (limit + 2 ^ 63 - 2 ^ 63)%Z with limit by lia.
  rewrite (proj2 (Z.ltb_ge _ _)) by lia. cbn. apply take_ge. lia.
Qed.

Lemma select_by_score_perm statuses t :
  select_by_score statuses t ≡ₚ map_to_list (filter (λ kr, with_status statuses kr.2 = true) t).
Proof.
  apply NoDup_Permutation.
  - unfold select_by_score. rewrite merge_sort_Permutation. apply NoDup_ListNoDup, List.NoDup_filter.
    apply NoDup_ListNoDup. rewrite hash_iter_perm. apply NoDup_map_to_list.
  - apply NoDup_map_to_list.
  - intros [key r]. rewrite select_by_score_elem, elem_of_map_to_list, map_lookup_filter_Some. done.
Qed.

Lemma select_by_score_length statuses t : length (select_by_score statuses t) = count_where statuses t.
Proof. rewrite select_by_score_perm. apply length_map_to_list. Qed.

(** The scores SQLite keeps are numbers. *)
Definition numeric_scores (t : Table) : Prop :=
  map_Forall (λ _ r, f64_valid (c_composite_score r) = true ∧ is_Some (f64_key (c_composite_score r))) t.

(** With a limit that admits them all, the reviewer's list holds every pending
    item and nothing else, once each, highest score first. *)
Theorem get_pending_complete now limit t :
  (Z.of_nat (count_pending t) <= limit < 2 ^ 63)%Z → numeric_scores t →
  (∀ key r, t !! key = Some r → c_status r = "pending" → is_Some (row_to_item now key r)) →
  ∃ items, get_pending now limit 0 t = inl items ∧
    length items = count_pending t ∧
    (∀ item, item ∈ items ↔
       ∃ key r, t !! key = Some r ∧ c_status r = "pending" ∧ row_to_item now key r = Some item) ∧
    StronglySorted (λ a b, f64_le (composite_score b) (composite_score a) = true) items.
Proof.
  intros Hl Hnum Hread. unfold get_pending. rewrite sql_window_all by (by rewrite select_by_score_length).
  assert (Hpend : ∀ key r, (key, r) ∈ select_by_score ["pending"] t ↔ t !! key = Some r ∧ c_status r = "pending").
  { intros key r. rewrite select_by_score_elem. unfold with_status. rewrite str_mem_spec. set_solver. }
  destruct (rows_to_items_map now (select_by_score ["pending"] t)) as (items & Hit & Hf).
  { apply Forall_forall. intros [key r] [Hr Hs]%Hpend. by apply Hread. }
  exists items. rewrite Hit. split_and!; [done| | |].
  - rewrite <- (Forall2_length _ _ _ Hf). apply select_by_score_length.
  - intros item. split.
    + intros (i & Hi)%list_elem_of_lookup. destruct (Forall2_lookup_r _ _ _ _ _ Hf Hi) as ([key r] & Hr & Hx).
      apply list_elem_of_lookup_2, Hpend in Hr as [Hr Hs]. eauto 10.
    + intros (key & r & Hr & Hs & Hx). assert (Hin : (key, r) ∈ select_by_score ["pending"] t) by by apply Hpend.
      apply list_elem_of_lookup in Hin as [i Hi]. destruct (Forall2_lookup_l _ _ _ _ _ Hf Hi) as (item' & Hi' & Hx').
      cbn in Hx'. assert (item' = item) as -> by congruence. by eapply list_elem_of_lookup_2.
  - assert (Hs : StronglySorted by_score_desc (select_by_score ["pending"] t)) by apply (StronglySorted_merge_sort _).
    assert (Hn : Forall (λ kr, t !! kr.1 = Some kr.2) (select_by_score ["pending"] t)).
    { apply Forall_forall. by intros [key r] [Hr _]%Hpend. }
    clear Hit Hl Hread Hpend. revert Hs Hn. induction Hf as [|[key r] item rows items Hx Hf IH]; [constructor|].
    intros [Hs Hall]%StronglySorted_inv [Hr Hn]%Forall_cons_1. constructor; [by apply IH|].
    clear IH Hs. induction Hf as [|[key' r'] item' rows items Hx' Hf IH]; constructor.
    + apply Forall_cons_1 in Hall as [Hd _], Hn as [Hr' _]. cbn in *.
      apply row_to_item_fields in Hx as (_ & _ & _ & ->), Hx' as (_ & _ & _ & ->).
      destruct (Hnum _ _ Hr) as (Hv & [a Ha]), (Hnum _ _ Hr') as (Hv' & [b Hb]).
      apply f64_le_key; [done..|]. unfold by_score_desc in Hd. cbn in Hd. rewrite Ha, Hb in Hd. eauto 10.
    + apply IH; [by apply Forall_cons_1 in Hall as [_ Hall]|by apply Forall_cons_1 in Hn as [_ Hn]].
Qed.

(** One pending item whose stored breakdown cannot be read (a non-finite filter
    score is enough) makes the whole pending list fail, so no other item can be
    listed for review. *)
Theorem unreadable_item_hides_queue now limit t key r :
  (Z.of_nat (count_pending t) <= limit < 2 ^ 63)%Z →
  t !! key = Some r → c_status r = "pending" →
  breakdown_from_json (c_filter_breakdown r) = None →
  get_pending now limit 0 t = inr Serialization.
Proof.
  intros Hl Hr Hs Hb. unfold get_pending. rewrite sql_window_all by (by rewrite select_by_score_length).
  apply (rows_to_items_unreadable _ _ key r).
  - apply select_by_score_elem. split; [done|]. unfold with_status. rewrite Hs. reflexivity.
  - unfold row_to_item. by rewrite Hb.
Qed.

End Storage.

(** ** A concrete codec, for examples *)

Fixpoint bits_of (p : positive) : string :=
  match p with xH => "" | xO p => String "0" (bits_of p) | xI p => String "1" (bits_of p) end.

Fixpoint of_bits (s : string) : positive :=
  match s with
  | EmptyString => xH
  | String c s => if ascii_eqb c "0"%char then xO (of_bits s) else xI (of_bits s)
  end.

Lemma of_bits_of p : of_bits (bits_of p) = p.
Proof. induction p as [p IH|p IH|]; cbn; by rewrite ?IH. Qed.

Definition f64_tree (x : f64) : option (bool + bool + bool * positive * Z) :=
  match x with
  | SpecFloat.S754_zero s => Some (inl (inl s))
  | SpecFloat.S754_infinity s => Some (inl (inr s))
  | SpecFloat.S754_nan => None
  | SpecFloat.S754_finite s m e => Some (inr (s, m, e))
  end.

Definition tree_f64 (t : option (bool + bool + bool * positive * Z)) : f64 :=
  match t with
  | Some (inl (inl s)) => SpecFloat.S754_zero s
  | Some (inl (inr s)) => SpecFloat.S754_infinity s
  | None => SpecFloat.S754_nan
  | Some (inr (s, m, e)) => SpecFloat.S754_finite s m e
  end.

#[export] Instance f64_eq_dec : EqDecision f64.
Proof. solve_decision. Defined.

#[export] Instance f64_countable : Countable f64.
Proof. apply (inj_countable' f64_tree tree_f64). by intros []. Defined.

#[export] Instance FilterBreakdown_eq_dec : EqDecision FilterBreakdown.
Proof. solve_decision. Defined.

#[export] Instance FilterBreakdown_countable : Countable FilterBreakdown.
Proof.
  apply (inj_countable' (λ b, (fb_filter_name b, fb_score b, fb_rule_id b, fb_message b))
    (λ '(n, s, r, m), {| fb_filter_name := n; fb_score := s; fb_rule_id := r; fb_message := m |})).
  by intros [].
Defined.

(** Infinities and NaN do not survive, as in JSON. *)
Definition breakdown_finite (b : list FilterBreakdown) : bool :=
  forallb (λ f, match f64_tree (fb_score f) with Some (inl (inr _)) | None => false | _ => true end) b.

Definition concrete_codec : @Codec concrete_deps := {|
  parse_uuid := concrete_uuid : string → option (Uuid (Deps := concrete_deps));
  nil_uuid := uuid_a;
  to_rfc3339 := (λ t : Z, bits_of (encode t)) : DateTime (Deps := concrete_deps) → string;
  parse_rfc3339 := (λ s, decode (of_bits s) : option Z) : string → option (DateTime (Deps := concrete_deps));
  breakdown_to_json b := if breakdown_finite b then bits_of (encode b) else "null";
  breakdown_from_json s := if String.eqb s "null" then None else decode (of_bits s);
|}.

Lemma concrete_codec_laws : @CodecLaws concrete_deps concrete_codec.
Proof.
  split.
  - apply concrete_uuid_round_trip.
  - intros t. cbn. by rewrite of_bits_of, decode_encode.
  - intros b Hb. cbn.
    assert (breakdown_finite b = true) as ->.
    { apply forallb_true_Forall. eapply Forall_impl; [exact Hb|]. cbn. intros f.
      destruct (fb_score f) as [s|s| |s m e]; cbn; [done| |done|done]. intros []. eauto. }
    rewrite of_bits_of, decode_encode.
    destruct (String.eqb_spec (bits_of (encode b)) "null") as [E|]; [|done].
    by destruct (encode b).
Qed.

Section Examples.
#[local] Existing Instances concrete_deps concrete_codec concrete_deps_laws concrete_codec_laws
  concrete_iter concrete_iter_laws.

Definition example_item (i : uuid_text) (score : f64) : DigestItem := {|
  id := i : Uuid; created_at := 7%Z : DateTime; session_id := Some (uuid_b : Uuid);
  tool_call_type := "FileRead(/etc/hosts)"; arguments_summary := "/etc/hosts";
  decision_reason := None; composite_score := score; severity := Low;
  filter_breakdown := [];
  task_context := None; plugin_id := "p"; status := Pending; reviewed_at := None; review_action := None;
  reviewer_notes := None; informational_only := false; escalated_at := None; escalated_by := None |}.

Definition one_item : Table := (enqueue (example_item uuid_a (f64_of_Z 5)) ∅).2.
Definition two_items : Table := (enqueue (example_item uuid_b (f64_of_Z 6)) one_item).2.
Definition at_9 : DateTime (Deps := concrete_deps) := 9%Z.

Lemma enqueue_round_trip_witness :
  ∃ item, get_by_id at_9 (uuid_a : Uuid) one_item = inl item ∧ severity item = Medium.
Proof.
  eexists. split; [|reflexivity || shelve].
  exact (proj1 (enqueue_round_trip (example_item uuid_a (f64_of_Z 5)) ∅ one_item at_9 eq_refl
    ltac:(constructor))).
  Unshelve. vm_compute. reflexivity.
Defined.

Definition approved_world : World := {|
  w_table := (approve at_9 (uuid_a : Uuid) one_item).2; w_inflight := [] |}.

Lemma approval_recorded_witness :
  ∃ a, (r ← w_table approved_world !! proj1_sig uuid_a; c_review_action r) = Some a ∧ a ∈ approving.
Proof.
  destruct (w_table approved_world !! proj1_sig uuid_a) as [r|] eqn:E; [|by vm_compute in E].
  cbn [mbind option_bind]. apply (approval_recorded approved_world (proj1_sig uuid_a) r); [|done|].
  - eapply rtc_l; [eapply (step_enqueue _ (example_item uuid_a (f64_of_Z 5)) (inl ()) one_item); done|].
    eapply rtc_l; [eapply (step_read _ at_9 (CReview (uuid_a : Uuid) Approve None)); reflexivity|].
    eapply rtc_l; [|apply rtc_refl]. by eapply (step_write _ at_9 [] _ []).
  - revert E. vm_compute. by intros [= <-].
Defined.

Lemma decision_final_witness :
  ∃ r', apply_ops [OClear at_9; OClient at_9 (CReview (uuid_a : Uuid) Deny None);
                   OClient at_9 (CNotes (uuid_a : Uuid) "late"); OExpire at_9]
          (w_table approved_world) !! Uuid_to_string (uuid_a : Uuid) = Some r' ∧
        decision r' = ("approved", Some "approve").
Proof.
  destruct (w_table approved_world !! Uuid_to_string (uuid_a : Uuid)) as [r|] eqn:E; [|by vm_compute in E].
  destruct (decision_final [OClear at_9; OClient at_9 (CReview (uuid_a : Uuid) Deny None);
                   OClient at_9 (CNotes (uuid_a : Uuid) "late"); OExpire at_9] _ _ r E) as (r' & Hr' & Hd).
  - left. revert E. vm_compute. by intros [= <-].
  - exists r'. split; [done|]. rewrite Hd. revert E. vm_compute. by intros [= <-].
Defined.

Lemma overlapping_reviews_witness :
  ∃ refusal approval r,
    prepare at_9 (CReview (uuid_a : Uuid) Deny None) one_item = inl refusal ∧
    prepare at_9 (CReview (uuid_a : Uuid) Approve None) one_item = inl approval ∧
    (exec_stmt at_9 approval (exec_stmt at_9 refusal one_item).2).2 !! Uuid_to_string (uuid_a : Uuid) = Some r ∧
    c_status r = "approved".
Proof.
  assert (Hv : validate_actionable at_9 (uuid_a : Uuid) one_item = inl ()) by (vm_compute; reflexivity).
  destruct (overlapping_reviews at_9 (uuid_a : Uuid) "n" one_item Hv)
    as (item & approval & refusal & note & _ & Ha & Hd & _ & (r & Hr & Hs) & _).
  exists refusal, approval, r. auto.
Defined.

Lemma get_pending_complete_witness :
  ∃ items, get_pending at_9 100 0 two_items = inl items ∧ length items = 2.
Proof.
  assert (Hc : count_pending two_items = 2) by (vm_compute; reflexivity).
  assert (Hall : ∀ p : string * Row → bool, forallb p (map_to_list two_items) = true →
            ∀ key r, two_items !! key = Some r → p (key, r) = true).
  { intros p Hp key r Hr. apply forallb_true_Forall in Hp. rewrite Forall_forall in Hp.
    apply Hp. by apply elem_of_map_to_list. }
  destruct (get_pending_complete at_9 100 two_items) as (items & Hi & Hl & _).
  - rewrite Hc. lia.
  - intros key r Hr.
    apply (Hall (λ kr, f64_valid (c_composite_score kr.2) && negb (f64_is_nan (c_composite_score kr.2)))) in Hr;
      [|vm_compute; reflexivity].
    cbn [snd] in Hr. apply andb_true_iff in Hr as [Hv Hn]. split; [done|].
    destruct (f64_key (c_composite_score r)) as [a|] eqn:E; [by exists a|].
    apply f64_key_None in E. by rewrite E in Hn.
  - intros key r Hr _.
    apply (Hall (λ kr, match row_to_item at_9 kr.1 kr.2 with Some _ => true | None => false end)) in Hr;
      [|vm_compute; reflexivity].
    cbn [fst snd] in Hr. by destruct (row_to_item at_9 key r).
  - exists items. rewrite <- Hc. auto.
Defined.

(** An item whose breakdown holds an infinity, as the queue stores it. *)
Definition infinite_item : DigestItem := {|
  id := uuid_a : Uuid; created_at := at_9; session_id := None; tool_call_type := "FileRead(/x)";
  arguments_summary := "/x"; decision_reason := None; composite_score := f64_of_Z 5; severity := Medium;
  filter_breakdown := [{| fb_filter_name := "f"; fb_score := SpecFloat.S754_infinity false;
                          fb_rule_id := "r"; fb_message := "m" |}];
  task_context := None; plugin_id := "p"; status := Pending; reviewed_at := None; review_action := None;
  reviewer_notes := None; informational_only := false; escalated_at := None; escalated_by := None |}.

Lemma unreadable_item_hides_queue_witness :
  let t := (enqueue (example_item uuid_b (f64_of_Z 6)) (enqueue infinite_item ∅).2).2 in
  count_pending t = 2 ∧ get_pending at_9 100 0 t = inr Serialization.
Proof.
  intros t. assert (Hc : count_pending t = 2) by (vm_compute; reflexivity). split; [done|].
  destruct (t !! proj1_sig uuid_a) as [r|] eqn:E; [|by vm_compute in E].
  apply (unreadable_item_hides_queue at_9 100 t (proj1_sig uuid_a) r); [rewrite Hc; lia|done| |];
    revert E; vm_compute; by intros [= <-].
Defined.

End Examples.
