(* ===== verification/DigestReview.v ===== *)
(** * Waiting for a review

    The reviewers that wait for an answer to a queued call:
    [grith-supervisor/src/reviewer.rs] (polling), [grith-cli/src/digest_ui.rs]
    (inline prompt), [grith-core/src/commands/exec_reviewer.rs] (full-screen
    dialog and terminal dialog), and the loop of
    [supervisor/event_handler.rs] that races the reviewer against scope grants and
    remote answers.  Other processes may change the queue at any time: each step is
    given the table it finds. *)

From Stdlib Require Import Ascii String.
From S2P Require Import Prelude F64 Concrete Digest ScopedPermissions.

(** [ReviewOutcome] *)
Inductive ReviewOutcome :=
  | OApproved
  | ODenied
  | OTimedOut.

Inductive PermissionReviewAction :=
  | PApprove
  | PDeny
  | PApproveAndLearn
  | PScopedAllow (r : ScopedAllowRequest)
  | PScopedDeny (r : ScopedDenyRequest)
  | PDenyAndTerminate.

Definition is_approved (a : PermissionReviewAction) : bool :=
  match a with PApprove | PApproveAndLearn | PScopedAllow _ => true | _ => false end.

(** [serde_json] on [PermissionReviewAction]: an object, read back as written. *)
Class ActionJson := {
  action_to_json : PermissionReviewAction → string;
  action_from_json : string → option PermissionReviewAction;
}.

Class ActionJsonLaws `{ActionJson} : Prop := {
  action_json_round_trip : ∀ a, action_from_json (action_to_json a) = Some a;
  action_json_object : ∀ a, starts_with "{" (action_to_json a) = true;
}.

Section Storage.
Context `{ActionJson}.

Definition to_storage_value (a : PermissionReviewAction) : string :=
  match a with
  | PApprove => "approve"
  | PDeny => "deny"
  | PApproveAndLearn => "approve_and_learn"
  | PDenyAndTerminate => "deny_and_terminate"
  | PScopedAllow _ | PScopedDeny _ => action_to_json a
  end.

Definition from_storage_value (value : string) : option PermissionReviewAction :=
  if String.eqb value "approve" then Some PApprove
  else if String.eqb value "deny" then Some PDeny
  else if String.eqb value "approve_and_learn" then Some PApproveAndLearn
  else if String.eqb value "deny_and_terminate" then Some PDenyAndTerminate
  else action_from_json value.

(** A review action survives the text column: scoped grants and blocks come
    back with their directory and operation bits, and no action reads as
    another. *)
Theorem storage_value_round_trip `{!ActionJsonLaws} a :
  from_storage_value (to_storage_value a) = Some a.
Proof.
  assert (Hj : ∀ b, from_storage_value (action_to_json b) = Some b).
  { intros b. pose proof (action_json_object b) as Ho. unfold from_storage_value.
    rewrite action_json_round_trip.
    repeat match goal with |- context [String.eqb ?x ?y] => destruct (String.eqb_spec x y) as [E|_] end;
      try done; rewrite E in Ho; discriminate. }
  destruct a; try reflexivity; apply Hj.
Qed.

End Storage.

Section Reviewers.
Context `{Deps} `{!Codec}.

(** [digest_store.get(id)] of the local store: [None] if the item is missing or
    unreadable. *)
Definition stored (now : DateTime) (i : Uuid) (t : Table) : option DigestStatus :=
  match get_by_id now i t with inl item => Some (status item) | inr _ => None end.

(** What an item's status says of its review; [None] while it is open. *)
Definition settled (s : option DigestStatus) : option ReviewOutcome :=
  match s with
  | Some Approved => Some OApproved
  | Some Denied | Some Expired => Some ODenied
  | _ => None
  end.

(** One turn of a polling loop: the time waited so far, the clock, and the table
    at its read and at its write. *)
Record Turn := {
  elapsed : Duration;
  clock : DateTime;
  at_read : Table;
  at_write : Table;
}.

(** [poll_digest_status]; [None]: still waiting after these turns. *)
Fixpoint poll_digest_status (timeout : Duration) (i : Uuid) (turns : list Turn) :
    option (ReviewOutcome * Table) :=
  match turns with
  | [] => None
  | w :: turns =>
      if (timeout <=? elapsed w)%Z then
        match settled (stored (clock w) i (at_read w)) with
        | Some o => Some (o, at_read w)
        | None =>
            Some (OTimedOut, (update_status (clock w) i Expired (Some "auto_deny_timeout")
                   (Some ("auto denied after timeout at " +:+ to_rfc3339 (clock w))) (at_write w)).2)
        end
      else
        match stored (clock w) i (at_read w) with
        | Some Approved => Some (OApproved, at_read w)
        | Some Denied | Some Expired => Some (ODenied, at_read w)
        | Some Pending | Some Escalated => poll_digest_status timeout i turns
        | None => Some (ODenied, at_read w)
        end
  end.

Definition POLL_INTERVAL : Duration := 250000000.

Definition auto_deny (now : DateTime) (i : Uuid) (t : Table) : Table :=
  (update_status now i Denied (Some "auto_deny_timeout")
     (Some ("auto denied at " +:+ to_rfc3339 now)) t).2.

Definition check_resolved (now : DateTime) (i : Uuid) (t : Table) : option ReviewOutcome :=
  settled (stored now i t).

Fixpoint silent_poll (timeout : Duration) (i : Uuid) (turns : list Turn) :
    option (ReviewOutcome * Table) :=
  match turns with
  | [] => None
  | w :: turns =>
      if (timeout <=? elapsed w)%Z then Some (OTimedOut, auto_deny (clock w) i (at_write w))
      else match check_resolved (clock w) i (at_read w) with
           | Some o => Some (o, at_read w)
           | None => silent_poll timeout i turns
           end
  end.

(** *** The inline prompt *)

(** [DigestAction], without the indices the single-item prompt ignores. *)
Inductive DigestAction :=
  | Review (a : ReviewAction)
  | Skip
  | Quit
  | ToggleView
  | Next
  | Previous.

(** Both cases of a letter. *)
Definition key_is (c k : ascii) : bool := ascii_eqb (ascii_lower c) k.

Definition parse_digest_key (ch : ascii) : option DigestAction :=
  if key_is ch "a" then Some (Review Approve)
  else if key_is ch "d" then Some (Review Deny)
  else if key_is ch "l" then Some (Review ApproveAndLearn)
  else if key_is ch "e" then Some (Review Escalate)
  else if key_is ch "u" then Some (Review UnlockEgress)
  else if key_is ch "t" then Some (Review DenyAndTerminate)
  else if key_is ch "p" then Some (Review AllowAlways)
  else if key_is ch "s" then Some Skip
  else if key_is ch "q" then Some Quit
  else if key_is ch "v" then Some ToggleView
  else if key_is ch "j" then Some Next
  else if key_is ch "k" then Some Previous
  else None.

Definition review_outcome (a : ReviewAction) : option ReviewOutcome :=
  match a with
  | Approve | ApproveAndLearn | UnlockEgress | AllowAlways => Some OApproved
  | Deny | DenyAndTerminate => Some ODenied
  | Escalate => None
  end.

Definition apply_inline_action (now : DateTime) (i : Uuid) (a : DigestAction) (t : Table) :
    option ReviewOutcome * Table :=
  match a with
  | Review a =>
      match review now i a None t with
      | (inl _, t') => (review_outcome a, t')
      | (inr _, t') => (None, t')
      end
  | Quit => (Some ODenied, auto_deny now i t)
  | _ => (None, t)
  end.

Inductive InlineEvent :=
  | Key (ch : ascii)
  | EscKey
  | StreamEnd
  | OtherEvent
  | PollTick.

(** The loop, with what each turn selects; nobody else writes between a review's
    read and its write. *)
Fixpoint run_inline_raw_mode (timeout : Duration) (i : Uuid) (turns : list (Turn * InlineEvent)) :
    option (ReviewOutcome * Table) :=
  match turns with
  | [] => None
  | (w, event) :: turns =>
      if (timeout <=? elapsed w)%Z then Some (OTimedOut, auto_deny (clock w) i (at_write w))
      else
        match event with
        | Key ch =>
            match parse_digest_key ch with
            | Some a =>
                match apply_inline_action (clock w) i a (at_write w) with
                | (Some o, t) => Some (o, t)
                | (None, _) => run_inline_raw_mode timeout i turns
                end
            | None => run_inline_raw_mode timeout i turns
            end
        | EscKey | StreamEnd => Some (ODenied, auto_deny (clock w) i (at_write w))
        | OtherEvent => run_inline_raw_mode timeout i turns
        | PollTick =>
            match check_resolved (clock w) i (at_read w) with
            | Some o => Some (o, at_read w)
            | None => run_inline_raw_mode timeout i turns
            end
        end
  end.

(** *** The dialogs *)

Context `{ActionJson}.

Definition answer_outcome (a : PermissionReviewAction) : DigestStatus * ReviewOutcome :=
  if is_approved a then (Approved, OApproved) else (Denied, ODenied).

(** The closure of [ExecTuiQueueReviewer::review]; no answer is a timeout or a
    withdrawn dialog. *)
Definition exec_tui_review (w : Turn) (i : Uuid) (answer : option PermissionReviewAction) :
    ReviewOutcome * Table :=
  match answer with
  | Some a =>
      let '(s, o) := answer_outcome a in
      (o, (update_status (clock w) i s (Some (to_storage_value a))
             (Some (to_storage_value a +:+ " via exec TUI dialog")) (at_write w)).2)
  | None =>
      match settled (stored (clock w) i (at_read w)) with
      | Some o => (o, at_read w)
      | None =>
          (OTimedOut, (update_status (clock w) i Expired (Some "auto_deny_timeout")
             (Some "auto denied after exec TUI review timeout") (at_write w)).2)
      end
  end.

(** The closure of [TerminalQueueReviewer::review]. *)
Definition terminal_review (w : Turn) (i : Uuid) (a : PermissionReviewAction) : ReviewOutcome * Table :=
  let '(s, o) := answer_outcome a in
  let still_pending :=
    match stored (clock w) i (at_read w) with
    | None | Some Pending | Some Escalated => true
    | _ => false
    end in
  (o, if still_pending
      then (update_status (clock w) i s (Some (to_storage_value a))
              (Some (to_storage_value a +:+ " via TUI dialog")) (at_write w)).2
      else at_write w).

(** *** The race around a reviewer *)

Inductive RaceEvent :=
  (** The reviewer answered. *)
  | ReviewerDone (o : ReviewOutcome) (t : Table)
  (** A poll, and whether a scope of the session now covers the call. *)
  | DrainPoll (covers : bool) (w : Turn).

(** The loop of the event handler; the flag says that a scope grant decided. *)
Fixpoint await_review (i : Uuid) (events : list RaceEvent) : option (ReviewOutcome * bool * Table) :=
  match events with
  | [] => None
  | ReviewerDone o t :: _ => Some (o, false, t)
  | DrainPoll covers w :: events =>
      if covers then
        match update_status (clock w) i Approved (Some "scope_drain")
                (Some "auto-approved: a session scope granted during review covers this target")
                (at_write w) with
        | (inl _, t) => Some (OApproved, true, t)
        | (inr _, _) => await_review i events
        end
      else
        match stored (clock w) i (at_read w) with
        | Some Approved => Some (OApproved, false, at_read w)
        | Some Denied | Some Expired => Some (ODenied, false, at_read w)
        | _ => await_review i events
        end
  end.

(** What the loop makes of an answer: done, or the item is pending again and is
    put to the reviewer once more. *)
Inductive Conclusion :=
  | Concluded (o : ReviewOutcome) (action : option string) (scope : option ValidatedScopedAllow)
      (drained : bool)
  | ReviewAgain.

Definition stored_action (now : DateTime) (i : Uuid) (t : Table) : option string :=
  match get_by_id now i t with inl item => review_action item | inr _ => None end.

(** [validate] is [validate_scoped_allow] on the rendered call. *)
Definition conclude_review (validate : ScopedAllowRequest → result ValidatedScopedAllow)
    (now : DateTime) (i : Uuid) (o : ReviewOutcome) (drained : bool) (t : Table) : Conclusion * Table :=
  if drained then (Concluded o (Some "scope_drain") None true, t)
  else
    let action := stored_action now i t in
    let parsed := a ← action; from_storage_value a in
    let pending_again notes :=
      match update_status now i Pending None (Some notes) t with
      | (inl _, t) => (ReviewAgain, t)
      | (inr _, t) => (Concluded ODenied action None false, t)
      end in
    match o, parsed with
    | OApproved, Some (PScopedAllow r) =>
        match validate r with
        | Ok scope => (Concluded o action (Some scope) false, t)
        | Err error => pending_again ("Scoped approval rejected: " +:+ error)
        end
    | OApproved, None =>
        if match action with Some a => starts_with "{" (trim_start a) | None => false end
        then pending_again "Invalid structured review action"
        else (Concluded o action None false, t)
    | _, _ => (Concluded o action None false, t)
    end.

End Reviewers.

(** ** The answer is the one on record *)

Section Agreement.
Context `{Deps} `{!Codec}.

(** The outcome the waiting call acts on, against the item as the queue then has
    it. *)
Definition on_record (now : DateTime) (i : Uuid) (o : ReviewOutcome) (t : Table) : Prop :=
  match o with
  | OApproved => stored now i t = Some Approved
  | ODenied | OTimedOut => stored now i t = Some Denied ∨ stored now i t = Some Expired
  end.

Definition readable (now : DateTime) (i : Uuid) (t : Table) : Prop := is_Some (stored now i t).

Lemma stored_update now now' i s action notes t :
  readable now i t → stored now i (update_status now' i s action notes t).2 = Some s.
Proof.
  unfold readable, stored, get_by_id, update_status, update_row.
  destruct (t !! Uuid_to_string i) as [r|]; [|by intros []]. cbn [snd]. rewrite lookup_insert_eq.
  unfold row_to_item. cbn [c_filter_breakdown set_notes set_review set_status].
  destruct (breakdown_from_json _); cbn [mbind option_bind]; [|by intros []].
  intros _. cbn [status]. f_equal. apply from_str_lossy_display.
Qed.

Lemma settled_on_record now i t o : settled (stored now i t) = Some o → on_record now i o t.
Proof. unfold settled. destruct (stored now i t) as [[]|] eqn:E; intros [= <-]; cbn; auto. Qed.

Lemma update_on_record now now' i s action notes t o :
  readable now i t → settled (Some s) = Some o →
  on_record now i o (update_status now' i s action notes t).2.
Proof.
  intros Hr Hs. unfold on_record. rewrite stored_update by done.
  destruct s; cbn in Hs; simplify_eq; auto.
Qed.

Lemma timed_out_on_record now now' i s action notes t :
  readable now i t → s = Denied ∨ s = Expired →
  on_record now i OTimedOut (update_status now' i s action notes t).2.
Proof. intros Hr [->| ->]; unfold on_record; rewrite stored_update by done; auto. Qed.

Definition readable_turn (i : Uuid) (w : Turn) : Prop :=
  ∀ now, readable now i (at_read w) ∧ readable now i (at_write w).

Lemma stored_now now now' i t : stored now i t = stored now' i t.
Proof.
  unfold stored, get_by_id. destruct (t !! Uuid_to_string i) as [r|]; [|done].
  unfold row_to_item. by destruct (breakdown_from_json _).
Qed.

Lemma on_record_now now now' i o t : on_record now i o t → on_record now' i o t.
Proof. unfold on_record. rewrite (stored_now now now'). done. Qed.

Lemma poll_on_record timeout i turns o t now :
  Forall (readable_turn i) turns →
  poll_digest_status timeout i turns = Some (o, t) → on_record now i o t.
Proof.
  induction 1 as [|w turns Hw _ IH]; [done|]. cbn [poll_digest_status].
  destruct (timeout <=? elapsed w)%Z.
  - destruct (settled _) as [o'|] eqn:Es; intros [= <- <-].
    + eapply on_record_now, settled_on_record, Es.
    + apply timed_out_on_record; [apply Hw|auto].
  - destruct (stored (clock w) i (at_read w)) as [s|] eqn:E.
    + assert (Hs : ∀ o, settled (Some s) = Some o → on_record now i o (at_read w)).
      { intros o' Ho. eapply on_record_now, settled_on_record. by rewrite E. }
      destruct s; try done; intros [= <- <-]; by apply Hs.
    + destruct (Hw (clock w)) as [[s Hs] _]. congruence.
Qed.

Lemma silent_on_record timeout i turns o t now :
  Forall (readable_turn i) turns → silent_poll timeout i turns = Some (o, t) → on_record now i o t.
Proof.
  induction 1 as [|w turns Hw _ IH]; [done|]. cbn [silent_poll].
  destruct (timeout <=? elapsed w)%Z.
  - intros [= <- <-]. apply timed_out_on_record; [apply Hw|auto].
  - destruct (check_resolved _ _ _) as [o'|] eqn:Es; [intros [= <- <-]|done].
    eapply on_record_now, settled_on_record, Es.
Qed.

Lemma auto_deny_on_record now now' i t o :
  readable now i t → o = ODenied ∨ o = OTimedOut → on_record now i o (auto_deny now' i t).
Proof. intros Hr Ho. unfold auto_deny, on_record. rewrite stored_update by done. destruct Ho as [->| ->]; auto. Qed.

Lemma review_writes now i a t u t' o :
  review now i a None t = (inl u, t') → review_outcome a = Some o →
  ∃ s action, settled (Some s) = Some o ∧ t' = (update_status now i s (Some action) None t).2.
Proof.
  intros Hr Ho. destruct a; cbn in Ho; simplify_eq; unfold review, after_check in Hr;
    destruct (validate_actionable now i t); try done; cbn [action_outcome] in Hr;
    do 2 eexists; (split; [|by rewrite Hr]); reflexivity.
Qed.

Lemma inline_action_on_record now now' i a t o t' :
  readable now i t → apply_inline_action now' i a t = (Some o, t') → on_record now i o t'.
Proof.
  intros Hr. destruct a as [a| | | | |]; try done; cbn [apply_inline_action].
  - destruct (review now' i a None t) as [[u|] t1] eqn:E; [|done]. intros [= Ho <-].
    destruct (review_writes _ _ _ _ _ _ _ E Ho) as (s & action & Hs & ->). by apply update_on_record.
  - intros [= <- <-]. apply auto_deny_on_record; auto.
Qed.

Lemma inline_on_record timeout i turns o t now :
  Forall (readable_turn i) turns.*1 → run_inline_raw_mode timeout i turns = Some (o, t) →
  on_record now i o t.
Proof.
  intros Hall. induction turns as [|[w event] turns IH]; [done|].
  apply Forall_cons_1 in Hall as [Hw Hall]. specialize (IH Hall). cbn [run_inline_raw_mode].
  destruct (timeout <=? elapsed w)%Z.
  { intros [= <- <-]. apply auto_deny_on_record; [apply Hw|auto]. }
  destruct event as [ch| | | |]; [| | |done|].
  - destruct (parse_digest_key ch) as [a|]; [|done].
    destruct (apply_inline_action (clock w) i a (at_write w)) as [[o'|] t'] eqn:E; [|done].
    intros [= <- <-]. eapply inline_action_on_record; [apply Hw|exact E].
  - intros [= <- <-]. apply auto_deny_on_record; [apply Hw|auto].
  - intros [= <- <-]. apply auto_deny_on_record; [apply Hw|auto].
  - destruct (check_resolved _ _ _) as [o'|] eqn:Es; [intros [= <- <-]|done].
    eapply on_record_now, settled_on_record, Es.
Qed.

Context `{ActionJson}.

Lemma exec_tui_on_record w i answer o t now :
  readable_turn i w → exec_tui_review w i answer = (o, t) → on_record now i o t.
Proof.
  intros Hw. unfold exec_tui_review. destruct answer as [a|].
  - unfold answer_outcome. destruct (is_approved a); intros [= <- <-];
      (apply update_on_record; [apply Hw|done]).
  - destruct (settled _) as [o'|] eqn:Es; intros [= <- <-].
    + eapply on_record_now, settled_on_record, Es.
    + apply timed_out_on_record; [apply Hw|auto].
Qed.

(** A waiting call is let through only on a recorded approval, and refused
    only with a refusal or expiry on record: for the polling reviewer, the silent
    fallback, the inline prompt and the full-screen dialog, whatever other
    processes write in between, as long as the item stays readable. *)
Theorem review_on_record now timeout i (turns : list Turn) events w answer :
  Forall (readable_turn i) turns → Forall (readable_turn i) events.*1 → readable_turn i w →
  (∀ o t, poll_digest_status timeout i turns = Some (o, t) → on_record now i o t) ∧
  (∀ o t, silent_poll timeout i turns = Some (o, t) → on_record now i o t) ∧
  (∀ o t, run_inline_raw_mode timeout i events = Some (o, t) → on_record now i o t) ∧
  (∀ o t, exec_tui_review w i answer = (o, t) → on_record now i o t).
Proof.
  intros Ht He Hw. split_and!; intros o t.
  - by apply poll_on_record.
  - by apply silent_on_record.
  - by apply inline_on_record.
  - by apply exec_tui_on_record.
Qed.

(** The two polling reviewers return: after as many turns as fit into the
    timeout at one per quarter second, whatever the table does. *)
Theorem polling_terminates timeout i turns :
  (∀ k w, turns !! k = Some w → (POLL_INTERVAL * Z.of_nat k <= elapsed w)%Z) →
  (timeout <= POLL_INTERVAL * (Z.of_nat (length turns) - 1))%Z → turns ≠ [] →
  is_Some (poll_digest_status timeout i turns) ∧ is_Some (silent_poll timeout i turns).
Proof.
  intros Hel Hlen Hne.
  assert (Hlast : ∃ w, w ∈ turns ∧ (timeout <= elapsed w)%Z).
  { destruct (lookup_lt_is_Some_2 turns (length turns - 1)) as [w Hw].
    { destruct turns; cbn; [done|lia]. }
    exists w. split; [by eapply list_elem_of_lookup_2|]. specialize (Hel _ _ Hw).
    assert (length turns ≠ 0) by by destruct turns. unfold POLL_INTERVAL in *. lia. }
  destruct Hlast as (w & Hin & Hw). clear Hel Hlen Hne.
  induction turns as [|v turns IH]; [by apply not_elem_of_nil in Hin|].
  cbn [poll_digest_status silent_poll].
  destruct (timeout <=? elapsed v)%Z eqn:Ev; [split; [case_match|]; eauto|].
  apply elem_of_cons in Hin as [->|Hin]; [apply Z.leb_gt in Ev; lia|].
  destruct (IH Hin) as [Hp Hs]. split.
  - destruct (stored _ _ _) as [[]|]; eauto.
  - destruct (check_resolved _ _ _); eauto.
Qed.

(** Two ways in which a refusal on record is not honoured.  The terminal
    dialog does not overwrite an item that was refused meanwhile, but still
    returns its own approval; and a scope grant found by the race overwrites a
    refusal another reviewer recorded since the last poll. *)
Theorem recorded_refusals_overridden w i t a :
  stored (clock w) i t = Some Denied → at_read w = t → at_write w = t → is_approved a = true →
  terminal_review w i a = (OApproved, t) ∧
  ∃ t', await_review i [DrainPoll true w] = Some (OApproved, true, t') ∧
        stored (clock w) i t' = Some Approved.
Proof.
  intros Hs Hr Hw Ha. split.
  - unfold terminal_review, answer_outcome. by rewrite Ha, Hr, Hs, Hw.
  - cbn [await_review]. rewrite Hw.
    assert (Hrd : readable (clock w) i t) by (by eexists).
    pose proof (stored_update (clock w) (clock w) i Approved (Some "scope_drain")
      (Some "auto-approved: a session scope granted during review covers this target") t Hrd) as Hu.
    destruct (update_status (clock w) i Approved (Some "scope_drain") _ t) as [[[]|e] t'] eqn:E; [eauto|].
    exfalso. revert E. unfold update_status, update_row.
    unfold stored, get_by_id in Hs. by destruct (t !! Uuid_to_string i).
Qed.

(** A scoped approval counts only if its scope is valid for the call, and an
    action that is not understood counts for nothing: otherwise the item goes back
    to pending, or the call is denied. *)
Theorem scoped_approval_validated validate now i drained t action scope t' :
  conclude_review validate now i OApproved drained t = (Concluded OApproved action scope drained, t') →
  drained = false →
  action = stored_action now i t ∧
  (∀ r, (a ← action; from_storage_value a) = Some (PScopedAllow r) →
     ∃ v, scope = Some v ∧ validate r = Ok v) ∧
  ((a ← action; from_storage_value a) = None →
     ∀ a, action = Some a → starts_with "{" (trim_start a) = false).
Proof.
  intros Hc ->. unfold conclude_review in Hc. cbv zeta in Hc.
  set (act := stored_action now i t) in *.
  destruct (a ← act; from_storage_value a) as [p|] eqn:Hp.
  - destruct p; simplify_eq/=;
      try (split_and!; [done|by rewrite Hp; intros ? [=]|by rewrite Hp]).
    destruct (validate r) as [v|e] eqn:Hv.
    + simplify_eq/=. split_and!; [done| |by rewrite Hp].
      rewrite Hp. intros ? [= <-]. eauto.
    + by destruct (update_status now i Pending None _ t) as [[]].
  - destruct (match act with Some a => starts_with "{" (trim_start a) | None => false end) eqn:Ea.
    + by destruct (update_status now i Pending None _ t) as [[]].
    + simplify_eq/=. split_and!; [done|by rewrite Hp|]. intros _ a Ha. by rewrite Ha in Ea.
Qed.

End Agreement.

(** ** Concrete runs *)

Section Examples.
#[local] Existing Instances concrete_deps concrete_codec.

#[local] Instance no_json : ActionJson := {|
  action_to_json _ := "{}";
  action_from_json _ := None;
|}.

Definition turn_at (e : Duration) (t : Table) : Turn := {|
  elapsed := e; clock := at_9; at_read := t; at_write := t |}.

Definition denied_item : Table := (deny at_9 (uuid_a : Uuid) one_item).2.
Definition approved_item : Table := (approve at_9 (uuid_a : Uuid) one_item).2.

Lemma approved_stored : stored at_9 (uuid_a : Uuid) approved_item = Some Approved.
Proof. vm_compute. reflexivity. Qed.

Lemma approved_readable : readable_turn (uuid_a : Uuid) (turn_at 0 approved_item).
Proof. intros now. unfold readable. rewrite !(stored_now now at_9). cbn. rewrite approved_stored. eauto. Qed.

Lemma review_on_record_witness :
  poll_digest_status (from_secs 1) (uuid_a : Uuid) [turn_at 0 approved_item]
    = Some (OApproved, approved_item) ∧
  on_record at_9 (uuid_a : Uuid) OApproved approved_item.
Proof.
  assert (Hp : poll_digest_status (from_secs 1) (uuid_a : Uuid) [turn_at 0 approved_item]
    = Some (OApproved, approved_item))
    by (cbn [poll_digest_status turn_at elapsed clock at_read]; by rewrite approved_stored).
  split; [exact Hp|].
  refine (proj1 (review_on_record at_9 (from_secs 1) (uuid_a : Uuid) [turn_at 0 approved_item] []
    (turn_at 0 approved_item) None _ _ _) _ _ Hp).
  - constructor; [apply approved_readable|constructor].
  - constructor.
  - apply approved_readable.
Defined.

Lemma polling_terminates_witness :
  is_Some (poll_digest_status (from_secs 1) (uuid_a : Uuid)
    (map (λ k, turn_at (POLL_INTERVAL * Z.of_nat k) one_item) (seq 0 5))).
Proof.
  apply polling_terminates; [|vm_compute; discriminate|discriminate].
  intros k w Hw. rewrite list_lookup_fmap in Hw.
  destruct (seq 0 5 !! k) as [j|] eqn:E; [|done]. injection Hw as <-.
  apply lookup_seq in E as [-> _]. cbn [elapsed turn_at]. lia.
Defined.

Lemma recorded_refusals_overridden_witness :
  (terminal_review (turn_at 0 denied_item) (uuid_a : Uuid) PApprove).1 = OApproved.
Proof.
  assert (Hs : stored at_9 (uuid_a : Uuid) denied_item = Some Denied) by (vm_compute; reflexivity).
  rewrite (proj1 (recorded_refusals_overridden (turn_at 0 denied_item) (uuid_a : Uuid) denied_item PApprove
    Hs eq_refl eq_refl eq_refl)). reflexivity.
Defined.

End Examples.
