(* ===== verification/EgressPolicy.v ===== *)
(** * Egress policy: destinations

    The first half of [crates/grith-proxy/src/filters/egress_policy.rs]: the
    configuration, the hosts and URLs a call may name, and the judgement of one
    destination.  [EgressCommand.v] has the second half: command lines, the shape
    of payloads and the filter itself. *)

From Stdlib Require Import Ascii String.
From S2P Require Import Prelude Concrete Net F64 Types Scoring SessionState Filters.
From S2P Require Import SensitivePaths.

Definition UNKNOWN_DNS_SOFT_SCORE : f64 := f64_dec 5 1.

Inductive EgressMode := Monitor | Review | Enforce.

Record EgressPolicyConfig := {
  epc_enabled : bool;
  epc_mode : EgressMode;
  epc_trusted_domains : list string;
  epc_blocked_domains : list string;
  epc_blocked_schemes : list string;
  epc_review_schemes : list string;
  epc_blocked_ports : list Z;
  epc_review_ports : list Z;
  epc_allow_private_ip : bool;
  epc_review_unknown_destinations : bool;
  epc_blocked_command_tokens : list string;
  epc_review_command_tokens : list string;
  epc_entropy_threshold : f64;
  epc_base64_min_chunk_len : Z;
  epc_suspicious_url_length : Z;
  epc_suspicious_arg_length : Z;
  epc_unusual_ports : list Z;
  epc_profile_trusted_domains : gmap string (list string);
}.

Definition EgressPolicyConfig_default : EgressPolicyConfig := {|
  epc_enabled := true;
  epc_mode := Review;
  epc_trusted_domains := [];
  epc_blocked_domains := [];
  epc_blocked_schemes := ["ftp"; "sftp"; "tftp"; "gopher"; "file"; "data"];
  epc_review_schemes := ["smtp"; "dns"; "ws"; "wss"];
  epc_blocked_ports := [21; 23; 25]%Z;
  epc_review_ports := [53; 110; 143; 445; 587; 2525]%Z;
  epc_allow_private_ip := true;
  epc_review_unknown_destinations := true;
  epc_blocked_command_tokens := ["nslookup"; "dig"; "ftp"; "sftp"];
  epc_review_command_tokens := ["curl"; "wget"; "nc"; "netcat"; "scp"];
  epc_entropy_threshold := f64_dec 45 1;
  epc_base64_min_chunk_len := 40;
  epc_suspicious_url_length := 2000;
  epc_suspicious_arg_length := 4000;
  epc_unusual_ports := [4444; 5555; 6666; 6667; 6697; 8443; 8888; 9090; 9999; 1337; 31337]%Z;
  epc_profile_trusted_domains := ∅;
|}.

(** A place an outbound call may reach. *)
Record Destination := {
  dst_scheme : option string;
  dst_host : string;
  dst_port : option Z;
}.

(** The compiled URL pattern is a parameter of [EgressCommand.v]. *)
Record EgressPolicyFilter := {
  ep_mode : EgressMode;
  ep_trusted_domains : gset string;
  ep_blocked_domains : gset string;
  ep_blocked_schemes : gset string;
  ep_review_schemes : gset string;
  ep_blocked_ports : gset Z;
  ep_review_ports : gset Z;
  ep_allow_private_ip : bool;
  ep_review_unknown_destinations : bool;
  ep_blocked_command_tokens : list string;
  ep_review_command_tokens : list string;
  ep_entropy_threshold : f64;
  ep_base64_min_chunk_len : Z;
  ep_suspicious_url_length : Z;
  ep_suspicious_arg_length : Z;
  ep_unusual_ports : gset Z;
  ep_profile_trusted : gmap string (gset string);
}.

(** ** Addresses *)

(** [Ipv6Addr::to_ipv4_mapped] *)
Definition to_ipv4_mapped (v6 : Z) : option IpAddr :=
  if (Z.shiftr v6 32 =? 65535)%Z then Some (V4 (Z.land v6 (2 ^ 32 - 1))) else None.

Definition is_loopback_bind_address (addr : string) : bool :=
  if eq_ignore_ascii_case addr "localhost" then true
  else
    match parse_ip addr with
    | None => false
    | Some ip =>
        if is_loopback ip then true
        else
          match ip with
          | V6 v6 => match to_ipv4_mapped v6 with Some v4 => is_loopback v4 | None => false end
          | V4 _ => false
          end
    end.

Definition is_wildcard_bind_address (addr : string) : bool :=
  match parse_ip addr with
  | None => false
  | Some ip =>
      if is_unspecified ip then true
      else
        match ip with
        | V6 v6 => match to_ipv4_mapped v6 with Some v4 => is_unspecified v4 | None => false end
        | V4 _ => false
        end
  end.

(** [Ipv4Addr::is_private], [is_link_local], [is_broadcast], [is_documentation]. *)
Definition v4_in (a b c d bits o : Z) : bool :=
  (Z.shiftr o (32 - bits) =? Z.shiftr (((a * 256 + b) * 256 + c) * 256 + d) (32 - bits))%Z.

Definition v4_is_private (o : Z) : bool :=
  v4_in 10 0 0 0 8 o || v4_in 172 16 0 0 12 o || v4_in 192 168 0 0 16 o.
Definition v4_is_link_local (o : Z) : bool := v4_in 169 254 0 0 16 o.
Definition v4_is_broadcast (o : Z) : bool := (o =? 2 ^ 32 - 1)%Z.
Definition v4_is_documentation (o : Z) : bool :=
  v4_in 192 0 2 0 24 o || v4_in 198 51 100 0 24 o || v4_in 203 0 113 0 24 o.

Definition is_private_or_local_host (host : string) : bool :=
  if eq_ignore_ascii_case host "localhost" then true
  else
    match parse_ip host with
    | Some (V4 o) =>
        v4_is_private o || is_loopback (V4 o) || v4_is_link_local o || v4_is_broadcast o
        || v4_is_documentation o
    | Some (V6 o) =>
        let first_segment := Z.shiftr o 112 in
        is_loopback (V6 o) || is_unspecified (V6 o)
        || (Z.land first_segment 65024 =? 64512)%Z || (Z.land first_segment 65472 =? 65152)%Z
    | None => false
    end.

Definition UDP_SERVICE_PORTS : list Z :=
  [1194; 1701; 1812; 1813; 1900; 3478; 3479; 4500; 5060; 5061; 5349; 5353; 5355; 6771; 11211;
   27015; 51820]%Z.

Definition is_udp_service_port (port : Z) : bool :=
  (port <? 1024)%Z || existsb (Z.eqb port) UDP_SERVICE_PORTS.

(** ** URLs *)

Definition is_object_storage_uri_scheme (scheme : string) : bool :=
  str_mem scheme
    ["s3"; "s3a"; "s3n"; "gs"; "gcs"; "wasb"; "wasbs"; "abfs"; "abfss"; "adl"; "adls"; "b2"; "r2";
     "oss"; "cos"; "swift"; "minio"].

(** The port is left in the host when it does not read as a [u16]. *)
Definition parse_host_port (authority : string) : string * option Z :=
  if starts_with "[" authority then
    match split_once "]" authority with
    | Some (opening, remainder) =>
        let host := default opening (strip_prefix "[" opening) in
        match (text ← strip_prefix ":" remainder; parse_unsigned 65535 text) with
        | Some port => (host, Some port)
        | None => (host, None)
        end
    | None => (authority, None)
    end
  else
    match rsplit_once ":"%char authority with
    | Some (host, port_text) =>
        if negb (contains ":" host) && negb (String.eqb port_text "") then
          match parse_unsigned 65535 port_text with
          | Some port => (host, Some port)
          | None => (authority, None)
          end
        else (authority, None)
    | None => (authority, None)
    end.

Definition default_port_for_scheme (scheme : string) : option Z :=
  assoc_find scheme
    [("http", 80); ("https", 443); ("ws", 80); ("wss", 443); ("ftp", 21); ("sftp", 22);
     ("smtp", 25); ("dns", 53)]%Z.

Definition effective_port (dest : Destination) : option Z :=
  match dst_port dest with
  | Some port => Some port
  | None => dst_scheme dest ≫= default_port_for_scheme
  end.

Section EgressPolicy.
Context `{D : Deps} `{Unicode}.

Definition normalize_vec (values : list string) : list string :=
  List.filter (λ v, negb (String.eqb v "")) (map (λ v, to_lowercase (trim v)) values).

Definition normalize_tokens (values : list string) : gset string :=
  list_to_set (normalize_vec values).

Definition normalize_domains (values : list string) : gset string :=
  list_to_set (map (trim_start_matches ".") (normalize_vec values)).

Definition egress_from_config `{HashIter} (config : EgressPolicyConfig) : EgressPolicyFilter := {|
  ep_mode := epc_mode config;
  ep_trusted_domains := normalize_domains (epc_trusted_domains config);
  ep_blocked_domains := normalize_domains (epc_blocked_domains config);
  ep_blocked_schemes := normalize_tokens (epc_blocked_schemes config);
  ep_review_schemes := normalize_tokens (epc_review_schemes config);
  ep_blocked_ports := list_to_set (epc_blocked_ports config);
  ep_review_ports := list_to_set (epc_review_ports config);
  ep_allow_private_ip := epc_allow_private_ip config;
  ep_review_unknown_destinations := epc_review_unknown_destinations config;
  ep_blocked_command_tokens := normalize_vec (epc_blocked_command_tokens config);
  ep_review_command_tokens := normalize_vec (epc_review_command_tokens config);
  ep_entropy_threshold := epc_entropy_threshold config;
  ep_base64_min_chunk_len := epc_base64_min_chunk_len config;
  ep_suspicious_url_length := epc_suspicious_url_length config;
  ep_suspicious_arg_length := epc_suspicious_arg_length config;
  ep_unusual_ports := list_to_set (epc_unusual_ports config);
  ep_profile_trusted :=
    fold_left (λ m e, <[to_lowercase e.1 := normalize_domains e.2]> m)
      (hash_iter (epc_profile_trusted_domains config)) ∅;
|}.

Definition parse_url_destination (url : string) : option Destination :=
  '(scheme, rest) ← split_once "://" url;
  if String.eqb scheme "" then None
  else
    let authority := default rest (head (split_on "/"%char rest)) in
    let authority := after_last "@"%char authority in
    let '(host, port) := parse_host_port authority in
    if String.eqb host "" then None
    else Some {| dst_scheme := Some (to_lowercase scheme); dst_host := to_lowercase host;
                 dst_port := port |}.

Definition parse_net_destination (address : string) (port : Z) : Destination :=
  {| dst_scheme := None; dst_host := to_lowercase address; dst_port := Some port |}.

(** The order of the set is unspecified and does not matter. *)
Definition egress_domain_matches (domains : gset string) (host : string) : bool :=
  let host := to_lowercase host in
  existsb (λ domain, String.eqb host domain || ends_with ("." +:+ domain) host) (elements domains).

(** ** One destination *)

Section Judgement.
Variable f : EgressPolicyFilter.

Definition blocked_score : f64 :=
  match ep_mode f with Enforce => f64_of_Z 9 | Review => f64_dec 65 1 | Monitor => f64_of_Z 2 end.

Definition review_score : f64 :=
  match ep_mode f with Enforce => f64_dec 45 1 | Review => f64_dec 35 1 | Monitor => f64_of_Z 1 end.

Definition is_trusted_host (host : string) (profile_trusted : option (gset string)) : bool :=
  egress_domain_matches (ep_trusted_domains f) host
  || match profile_trusted with
     | Some domains => egress_domain_matches domains host
     | None => false
     end.

Definition is_trusted_or_allowed_local (host : string) (profile_trusted : option (gset string)) :
    bool :=
  is_trusted_host host profile_trusted
  || (ep_allow_private_ip f && is_private_or_local_host host).

Definition ep_matched (rule_id : string) (score : f64) (message : string) : FilterResult :=
  matched "egress-policy" rule_id score (severity_for score) message.

Definition trusted_result (rule_id message : string) : FilterResult :=
  matched "egress-policy" rule_id (f64_of_Z (-1)) SevNotice message.

Definition scheme_in (dest : Destination) (schemes : gset string) : option string :=
  scheme ← dst_scheme dest; if decide (scheme ∈ schemes) then Some scheme else None.

Definition port_in (dest : Destination) (ports : gset Z) : option Z :=
  port ← effective_port dest; if decide (port ∈ ports) then Some port else None.

(** The conditions in the order of the code; the first that holds answers. *)
Definition unknown_destination (dest : Destination) (source : string) : option FilterResult :=
  if ep_review_unknown_destinations f then
    if ep_allow_private_ip f && is_private_or_local_host (dst_host dest) then None
    else
      let is_dns := String.eqb source "dns_query" in
      let score := if is_dns then UNKNOWN_DNS_SOFT_SCORE else review_score in
      Some (matched "egress-policy" "unknown-destination" score
              (if is_dns then SevNotice else severity_for score)
              ("Unknown outbound destination from " +:+ source +:+ ": " +:+ dst_host dest))
  else None.

Definition evaluate_destination (dest : Destination) (source : string)
    (profile_trusted : option (gset string)) : option FilterResult :=
  match scheme_in dest (ep_blocked_schemes f) with
  | Some scheme =>
      Some (ep_matched "blocked-scheme" blocked_score
              ("Blocked outbound scheme from " +:+ source +:+ ": " +:+ scheme))
  | None =>
  if egress_domain_matches (ep_blocked_domains f) (dst_host dest) then
    Some (ep_matched "blocked-domain" blocked_score
            ("Blocked outbound destination from " +:+ source +:+ ": " +:+ dst_host dest))
  else
  match port_in dest (ep_blocked_ports f) with
  | Some port =>
      Some (ep_matched "blocked-port" blocked_score
              ("Blocked outbound destination port from " +:+ source +:+ ": " +:+ fmt_Z port))
  | None =>
  if negb (ep_allow_private_ip f) && is_private_or_local_host (dst_host dest) then
    Some (ep_matched "private-address-egress" review_score
            ("Private/local address outbound from " +:+ source +:+ ": " +:+ dst_host dest))
  else
  match scheme_in dest (ep_review_schemes f) with
  | Some scheme =>
      Some (ep_matched "review-scheme" review_score
              ("Review outbound scheme from " +:+ source +:+ ": " +:+ scheme))
  | None =>
  match (if String.eqb source "dns_query" then None else port_in dest (ep_review_ports f)) with
  | Some port =>
      Some (ep_matched "review-port" review_score
              ("Review outbound destination port from " +:+ source +:+ ": " +:+ fmt_Z port))
  | None =>
  if egress_domain_matches (ep_trusted_domains f) (dst_host dest) then
    Some (trusted_result "trusted-destination"
            ("Trusted outbound destination from " +:+ source +:+ ": " +:+ dst_host dest))
  else if match profile_trusted with
          | Some domains => egress_domain_matches domains (dst_host dest)
          | None => false
          end then
    Some (trusted_result "profile-trusted-destination"
            ("Profile-trusted outbound destination from " +:+ source +:+ ": " +:+ dst_host dest))
  else unknown_destination dest source
  end end end end.

Definition evaluate_unusual_port (dest : Destination) (source : string) : option FilterResult :=
  port ← effective_port dest;
  if decide (port ∈ ep_unusual_ports f ∧ port ∉ ep_blocked_ports f ∧ port ∉ ep_review_ports f) then
    Some (ep_matched "unusual-port" review_score
            ("Unusual outbound destination port from " +:+ source +:+ ": " +:+ fmt_Z port))
  else None.

(** ** Ambiguous destinations *)

Definition score_or_zero (r : option FilterResult) : f64 :=
  match r with Some r => fr_score r | None => f64_zero end.

Definition set_message (message : string) (r : FilterResult) : FilterResult := {|
  fr_filter_name := fr_filter_name r; fr_matched := fr_matched r; fr_score := fr_score r;
  fr_rule_id := fr_rule_id r; fr_severity := fr_severity r; fr_message := message;
  fr_metadata := fr_metadata r |}.

Fixpoint worst_candidate (worst : option (option FilterResult)) (candidates : list string) (port : Z)
    (profile_trusted : option (gset string)) : option (option FilterResult) :=
  match candidates with
  | [] => worst
  | candidate :: rest =>
      let result :=
        evaluate_destination (parse_net_destination candidate port) "net_connect" profile_trusted in
      let worse :=
        match worst with
        | None => true
        | Some prior => f64_gt (score_or_zero result) (score_or_zero prior)
        end in
      worst_candidate (if worse then Some result else worst) rest port profile_trusted
  end.

Definition evaluate_worst_case_candidate (candidates : list string) (port : Z)
    (profile_trusted : option (gset string)) : option FilterResult :=
  result ← mjoin (worst_candidate None candidates port profile_trusted);
  if f64_gt (fr_score result) f64_zero then
    Some (set_message (fr_message result
            +:+ " (ambiguous shared-IP DNS attribution; candidates: " +:+ join ", " candidates
            +:+ ")") result)
  else Some result.

End Judgement.

Definition select_higher_risk (current next : option FilterResult) : option FilterResult :=
  match current, next with
  | None, rhs => rhs
  | lhs, None => lhs
  | Some lhs, Some rhs => if f64_gt (fr_score rhs) (fr_score lhs) then Some rhs else Some lhs
  end.

End EgressPolicy.

(** ** Lemmas *)

(** The labels of a host name. *)
Abbreviation labels := (split_on "."%char).

Lemma under_domain_labels domain host :
  String.eqb host domain || ends_with ("." +:+ domain) host = true ↔
  labels domain `suffix_of` labels host.
Proof.
  rewrite orb_true_iff, String.eqb_eq, ends_with_spec. split.
  - intros [->|[p ->]]; [done|]. exists (labels p). by apply split_on_sep.
  - intros [k Hk]. rewrite <- (join_split_on "." host), Hk. destruct k as [|w k].
    + left. apply join_split_on.
    + right. exists (join "." (w :: k)).
      rewrite join_app; [|done|apply split_on_nonempty]. by rewrite join_split_on.
Qed.

(** A number is written with digits and a plus sign. *)
Lemma parse_digits_lacks c max acc s n :
  (N_of_ascii c < 48 ∨ 57 < N_of_ascii c)%N → parse_digits max acc s = Some n → lacks c s = true.
Proof.
  intros Hc. revert acc. induction s as [|a s IH]; intros acc; cbn; [done|].
  destruct ((_ <=? _) && _ && _)%Z eqn:E; [|done]. intros Hd. rewrite (IH _ Hd), andb_true_r.
  unfold ascii_eqb. destruct (Ascii.eqb_spec a c) as [->|]; [|done].
  rewrite !andb_true_iff, !Z.leb_le in E. lia.
Qed.

Lemma parse_unsigned_lacks c max s n :
  (N_of_ascii c < 48 ∨ 57 < N_of_ascii c)%N → ascii_eqb "+" c = false →
  parse_unsigned max s = Some n → lacks c s = true ∧ s ≠ "".
Proof.
  unfold parse_unsigned. intros Hc Hplus. destruct (strip_prefix "+" s) as [r|] eqn:E; cbn [default]; unfold id.
  - apply strip_prefix_Some in E. subst s. destruct (String.eqb r ""); [done|].
    intros Hr. apply (parse_digits_lacks c) in Hr; [|done]. split; [|done].
    change (negb (ascii_eqb "+" c) && lacks c r = true). by rewrite Hplus.
  - destruct (String.eqb_spec s "") as [|Hne]; [done|].
    intros Hr. apply (parse_digits_lacks c) in Hr; done.
Qed.

Lemma head_split c a b : lacks c a = true → head (split_on c (a +:+ String c b)) = Some a.
Proof. intros Ha. by rewrite split_on_sep, split_on_lacks. Qed.

Section Lemmas.
Context `{D : Deps} `{Unicode}.

Lemma egress_domain_matches_spec domains host :
  egress_domain_matches domains host = true ↔
  ∃ domain, domain ∈ domains ∧ labels domain `suffix_of` labels (to_lowercase host).
Proof.
  unfold egress_domain_matches. rewrite existsb_exists. split.
  - intros (d & Hin & Hd%under_domain_labels). exists d. split; [|done].
    by apply elem_of_elements, list_elem_of_In.
  - intros (d & Hin & Hd%under_domain_labels). exists d. split; [|done].
    by apply list_elem_of_In, elem_of_elements.
Qed.

Lemma scheme_in_None dest schemes scheme :
  scheme_in dest schemes = None → dst_scheme dest = Some scheme → scheme ∉ schemes.
Proof. unfold scheme_in. intros Hin Hs. rewrite Hs in Hin. cbn in Hin. by case_decide. Qed.

Lemma port_in_None dest ports port :
  port_in dest ports = None → effective_port dest = Some port → port ∉ ports.
Proof. unfold port_in. intros Hin Hp. rewrite Hp in Hin. cbn in Hin. by case_decide. Qed.

(** *** Scores *)

Definition destination_scores (f : EgressPolicyFilter) : list f64 :=
  [blocked_score f; review_score f; UNKNOWN_DNS_SOFT_SCORE; f64_of_Z (-1)].

Lemma evaluate_destination_score f dest source profile r :
  evaluate_destination f dest source profile = Some r → fr_score r ∈ destination_scores f.
Proof.
  unfold evaluate_destination, unknown_destination, destination_scores, ep_matched, trusted_result.
  set (b := blocked_score f). set (v := review_score f). set (u := UNKNOWN_DNS_SOFT_SCORE).
  set (m := f64_of_Z (-1)). clearbody b v u m.
  repeat case_match; try done; intros [= <-]; cbn [fr_score matched]; rewrite !elem_of_cons; auto.
Qed.

(** Scores are comparable numbers. *)
Definition comparable (x : f64) : Prop := f64_valid x = true ∧ f64_is_nan x = false.

Lemma score_or_zero_comparable f dest source profile :
  comparable (score_or_zero (evaluate_destination f dest source profile)).
Proof.
  destruct (evaluate_destination f dest source profile) as [r|] eqn:E; [|by split].
  apply evaluate_destination_score in E. cbn [score_or_zero].
  cut (Forall comparable (destination_scores f)); [by intros Hf; eapply Forall_forall in Hf|].
  unfold destination_scores, blocked_score, review_score. destruct (ep_mode f); repeat constructor.
Qed.

Lemma comparable_le_refl x : comparable x → f64_le x x = true.
Proof.
  intros [Hv Hn]. apply f64_le_key; [done..|].
  destruct (f64_key x) as [k|] eqn:E; [exists k, k; auto with lia|].
  apply f64_key_None in E. congruence.
Qed.

Lemma f64_not_gt x y : comparable x → comparable y → f64_gt x y = false → f64_le x y = true.
Proof.
  intros [Hx Hnx] [Hy Hny] Hgt. rewrite f64_le_or_gt by done. by apply negb_true_iff.
Qed.

Lemma f64_gt_le x y : comparable x → comparable y → f64_gt x y = true → f64_le y x = true.
Proof.
  intros [Hx _] [Hy _] Hgt. apply f64_lt_key in Hgt as (a & b & Ha & Hb & Hab); [|done..].
  apply f64_le_key; [done..|]. exists a, b. auto with lia.
Qed.

(** *** The worst candidate *)

Section Worst.
#[local] Arguments f64_gt : simpl never.
#[local] Arguments evaluate_destination : simpl never.
Variable f : EgressPolicyFilter.
Variable port : Z.
Variable profile : option (gset string).

Definition candidate_score (candidate : string) : f64 :=
  score_or_zero (evaluate_destination f (parse_net_destination candidate port) "net_connect" profile).

(** The running worst is one of the scores seen, and none is higher. *)
Definition is_worst (seen : list string) (worst : option FilterResult) : Prop :=
  (∃ c, c ∈ seen ∧ worst = evaluate_destination f (parse_net_destination c port) "net_connect" profile)
  ∧ ∀ c, c ∈ seen → f64_le (candidate_score c) (score_or_zero worst) = true.

Lemma worst_candidate_spec candidates seen worst :
  is_worst seen worst →
  ∃ worst', worst_candidate f (Some worst) candidates port profile = Some worst'
    ∧ is_worst (seen ++ candidates) worst'.
Proof.
  revert seen worst. induction candidates as [|c candidates IH]; intros seen worst [Hone Hall]; cbn.
  { exists worst. by rewrite app_nil_r. }
  set (r := evaluate_destination f (parse_net_destination c port) "net_connect" profile).
  assert (Hr : comparable (score_or_zero r)) by apply score_or_zero_comparable.
  assert (Hw : comparable (score_or_zero worst)).
  { destruct Hone as (c' & _ & ->). apply score_or_zero_comparable. }
  replace (seen ++ c :: candidates) with ((seen ++ [c]) ++ candidates) by by rewrite <- app_assoc.
  destruct (f64_gt (score_or_zero r) (score_or_zero worst)) eqn:E; apply IH; split.
  - exists c. split; [apply elem_of_app; right; apply list_elem_of_here|done].
  - intros c' [Hin|Hc%list_elem_of_singleton]%elem_of_app; [|subst c'; by apply comparable_le_refl].
    apply (f64_le_trans _ (score_or_zero worst)); [apply score_or_zero_comparable|apply Hw|apply Hr| |].
    + by apply Hall.
    + by apply f64_gt_le.
  - destruct Hone as (c' & Hin & Hc'). exists c'. split; [|done]. apply elem_of_app. by left.
  - intros c' [Hin|Hc%list_elem_of_singleton]%elem_of_app; [by apply Hall|subst c'].
    by apply f64_not_gt.
Qed.
End Worst.
End Lemmas.

(** ** Properties *)

Section Properties.
Context `{D : Deps} `{Unicode}.

(** A result with a known score that is not a credit. *)
#[local] Ltac no_credit H :=
  exfalso; injection H as <-; cbn [ep_matched matched fr_score] in *;
  first [congruence|done].

(** An ambiguous connection is scored as its worst candidate.  Whatever the
    order of the candidates, the score is that of one of them and none scores
    higher, a candidate without opinion counting as zero: the trusted credit is
    kept only when every candidate earns it, and a blocked candidate decides. *)
Theorem worst_case_candidate_max f candidates port profile (Hne : candidates ≠ []) :
  let r := score_or_zero (evaluate_worst_case_candidate f candidates port profile) in
  (∃ c, c ∈ candidates ∧ r = candidate_score f port profile c)
  ∧ ∀ c, c ∈ candidates → f64_le (candidate_score f port profile c) r = true.
Proof.
  destruct candidates as [|c candidates]; [done|]. cbv zeta. unfold evaluate_worst_case_candidate.
  cbn [worst_candidate].
  destruct (worst_candidate_spec f port profile candidates [c]
    (evaluate_destination f (parse_net_destination c port) "net_connect" profile)) as (w & -> & Hw).
  { split; [exists c; split; [apply list_elem_of_here|done]|].
    intros c' ->%list_elem_of_singleton. apply comparable_le_refl, score_or_zero_comparable. }
  destruct Hw as [(c' & Hin & Hc') Hall]. change ([c] ++ candidates) with (c :: candidates) in *.
  match goal with |- context [score_or_zero ?e] =>
    assert (Hs : score_or_zero e = score_or_zero w) end.
  { destruct w as [w|]; [cbn|done]. by destruct (f64_gt (fr_score w) f64_zero). }
  rewrite Hs. split; [|done]. exists c'. by rewrite Hc'.
Qed.

(** C27: credit only for trusted hosts.  A destination scores below zero only
    when some trusted domain, of the operator or of the profile, is a suffix of its
    host label by label, no blocked domain is, and neither its scheme nor its port
    is blocked or under review: a look-alike such as [evilgithub.com] earns
    nothing. *)
Theorem credit_only_when_trusted f dest source profile r
    (Hr : evaluate_destination f dest source profile = Some r)
    (Hcredit : f64_lt (fr_score r) f64_zero = true) :
  (∃ domain, (domain ∈ ep_trusted_domains f ∨ domain ∈ default ∅ profile)
     ∧ labels domain `suffix_of` labels (to_lowercase (dst_host dest)))
  ∧ (∀ domain, domain ∈ ep_blocked_domains f →
       ¬ labels domain `suffix_of` labels (to_lowercase (dst_host dest)))
  ∧ (∀ scheme, dst_scheme dest = Some scheme →
       scheme ∉ ep_blocked_schemes f ∧ scheme ∉ ep_review_schemes f)
  ∧ (∀ port, effective_port dest = Some port → port ∉ ep_blocked_ports f
       ∧ (source ≠ "dns_query" → port ∉ ep_review_ports f)).
Proof.
  unfold evaluate_destination in Hr.
  assert (Hb : f64_lt (blocked_score f) f64_zero = false)
    by (unfold blocked_score; by destruct (ep_mode f)).
  assert (Hv : f64_lt (review_score f) f64_zero = false)
    by (unfold review_score; by destruct (ep_mode f)).
  assert (Hu : f64_lt UNKNOWN_DNS_SOFT_SCORE f64_zero = false) by reflexivity.
  destruct (scheme_in dest (ep_blocked_schemes f)) eqn:Ebs; [no_credit Hr|].
  destruct (egress_domain_matches (ep_blocked_domains f) _) eqn:Ebd;
    [no_credit Hr|].
  destruct (port_in dest (ep_blocked_ports f)) eqn:Ebp; [no_credit Hr|].
  destruct (negb _ && _); [no_credit Hr|].
  destruct (scheme_in dest (ep_review_schemes f)) eqn:Ers; [no_credit Hr|].
  match type of Hr with match ?e with _ => _ end = _ => destruct e eqn:Erp end;
    [no_credit Hr|].
  split_and!.
  - destruct (egress_domain_matches (ep_trusted_domains f) _) eqn:Et.
    { apply egress_domain_matches_spec in Et as (d & Hin & Hd). exists d. auto. }
    destruct profile as [domains|]; [destruct (egress_domain_matches domains _) eqn:Ep|].
    { apply egress_domain_matches_spec in Ep as (d & Hin & Hd). exists d. auto. }
    all: cbv beta iota in Hr; unfold unknown_destination in Hr; destruct (ep_review_unknown_destinations f); [|done];
      destruct (_ && _); [done|]; destruct (String.eqb source "dns_query"); no_credit Hr.
  - intros d Hin Hd. assert (egress_domain_matches (ep_blocked_domains f) (dst_host dest) = true);
      [|congruence]. apply egress_domain_matches_spec. by exists d.
  - intros scheme Hs. split; by eapply scheme_in_None.
  - intros port Hp. split; [by eapply port_in_None|]. intros Hsrc%String.eqb_neq.
    rewrite Hsrc in Erp. by eapply port_in_None.
Qed.

(** The text of a URL, its user information and path included. *)
Definition url_text (scheme : string) (user : option string) (host port_text path : string) : string :=
  scheme +:+ "://" +:+ default "" (user ← user; Some (user +:+ "@")) +:+ host +:+ port_text +:+ path.

(** A host name as it stands in a URL. *)
Definition plain_host (host : string) : bool :=
  negb (String.eqb host "") && lacks "/" host && lacks "@" host && lacks ":" host
  && negb (starts_with "[" host).

Definition port_reads (port_text : string) (port : option Z) : Prop :=
  (port_text = "" ∧ port = None) ∨
  (∃ digits p, port_text = ":" +:+ digits ∧ parse_unsigned 65535 digits = Some p ∧ port = Some p).

Lemma port_reads_lacks c port_text port :
  (N_of_ascii c < 48 ∨ 57 < N_of_ascii c)%N → ascii_eqb "+" c = false → ascii_eqb ":" c = false →
  port_reads port_text port → lacks c port_text = true.
Proof.
  intros Hc Hp Hcol [[-> _]|(digits & p & -> & Hd & _)]; [done|].
  apply (parse_unsigned_lacks c) in Hd as [Hd _]; [|done..].
  change (negb (ascii_eqb ":" c) && lacks c digits = true). by rewrite Hcol.
Qed.

Lemma parse_host_port_plain host port_text port :
  plain_host host = true → port_reads port_text port →
  parse_host_port (host +:+ port_text) = (host, port).
Proof.
  unfold plain_host. rewrite !andb_true_iff, !negb_true_iff. intros ((((Hne & _) & _) & Hc) & Hb) Hp.
  unfold parse_host_port.
  apply String.eqb_neq in Hne. rewrite starts_with_char, Hb by done.
  destruct Hp as [[-> ->]|(digits & p & -> & Hd & ->)].
  - rewrite append_nil_r, rsplit_once_lacks by done. done.
  - pose proof (parse_unsigned_lacks ":" _ _ _ ltac:(vm_compute; by right) eq_refl Hd) as [Hl Hn].
    change (":" +:+ digits) with (String ":" digits).
    rewrite rsplit_once_sep by done. rewrite contains_char, Hc. cbn [negb andb].
    apply String.eqb_neq in Hn. by rewrite Hn, Hd.
Qed.

(** Whatever stands before the [@] of the authority is dropped. *)
Lemma parse_url_text scheme user host port_text port path
    (Hscheme : scheme ≠ "" ∧ lacks ":" scheme = true)
    (Huser : lacks "/" (default "" user) = true) (Hhost : plain_host host = true)
    (Hport : port_reads port_text port) (Hpath : path = "" ∨ ∃ p, path = "/" +:+ p) :
  parse_url_destination (url_text scheme user host port_text path)
  = Some {| dst_scheme := Some (to_lowercase scheme); dst_host := to_lowercase host;
            dst_port := port |}.
Proof.
  destruct Hscheme as [Hs Hcolon]. unfold parse_url_destination, url_text.
  set (user_info := default "" (user ← user; Some (user +:+ "@"))).
  change "://" with (String ":" "//"). rewrite split_once_sep by done. cbn [mbind option_bind].
  apply String.eqb_neq in Hs as ->.
  assert (Hh := Hhost). unfold plain_host in Hh. rewrite !andb_true_iff, !negb_true_iff in Hh.
  destruct Hh as ((((Hne & Hslash) & Hat) & _) & _).
  assert (Hps : lacks "/" port_text = true)
    by (apply (port_reads_lacks "/" port_text port); [vm_compute; by left|done..]).
  assert (Hpa : lacks "@" port_text = true)
    by (apply (port_reads_lacks "@" port_text port); [vm_compute; by right|done..]).
  set (authority := user_info +:+ host +:+ port_text).
  assert (Hus : lacks "/" user_info = true).
  { unfold user_info. destruct user as [u|]; [|done].
    change (lacks "/" (u +:+ "@") = true). rewrite lacks_app. by change (lacks "/" u = true) in Huser; rewrite Huser. }
  assert (Ha : lacks "/" authority = true).
  { unfold authority. by rewrite !lacks_app, Hus, Hslash, Hps. }
  assert (Hhead : default (user_info +:+ host +:+ port_text +:+ path)
            (head (split_on "/" (user_info +:+ host +:+ port_text +:+ path))) = authority).
  { replace (user_info +:+ host +:+ port_text +:+ path) with (authority +:+ path)
      by by unfold authority; rewrite !append_assoc.
    destruct Hpath as [->|[p ->]].
    - by rewrite append_nil_r, split_on_lacks.
    - change ("/" +:+ p) with (String "/" p). by rewrite head_split. }
  rewrite Hhead. replace (after_last "@" authority) with (host +:+ port_text).
  2:{ symmetry. unfold authority, user_info. destruct user as [u|]; cbn [default mbind option_bind from_option id].
      - rewrite append_assoc. apply after_last_sep. by rewrite lacks_app, Hat.
      - apply after_last_lacks. by rewrite lacks_app, Hat. }
  rewrite (parse_host_port_plain host port_text port) by done. by rewrite Hne.
Qed.

(** The bytes that end the authority of a URL (RFC 3986, section 3.2). *)
Definition ends_authority : list ascii := ["/"; "?"; "#"]%char.

(** A URL's destination is read back.  For every scheme, user information
    inside the authority, host name, port and path that is empty or starts with a
    slash, the destination is the lower-cased scheme and host and the written
    port. *)
Theorem url_destination_roundtrip scheme user host port_text port path
    (Hscheme : scheme ≠ "" ∧ lacks ":" scheme = true)
    (Huser : Forall (λ c, lacks c (default "" user) = true) ends_authority)
    (Hhost : plain_host host = true) (Hport : port_reads port_text port)
    (Hpath : path = "" ∨ ∃ p, path = "/" +:+ p) :
  parse_url_destination (url_text scheme user host port_text path)
  = Some {| dst_scheme := Some (to_lowercase scheme); dst_host := to_lowercase host;
            dst_port := port |}.
Proof. apply parse_url_text; [done|by inversion Huser|done..]. Qed.

(** A query that mentions a trusted host is taken for the host.  Only a
    slash ends the authority, so in [https://evil.example?@github.com] everything
    before the [@] counts as user information although a URL's host ends at the
    question mark or the hash: whatever host is contacted, the destination is
    credited as the trusted one written behind it. *)
Theorem authority_confusion f evil sep host profile
    (Hsep : sep = "?" ∨ sep = "#") (Hevil : lacks "/" evil = true) (Hhost : plain_host host = true)
    (Hprivate : ep_allow_private_ip f = true)
    (Htrusted : egress_domain_matches (ep_trusted_domains f) (to_lowercase host) = true)
    (Hblocked : egress_domain_matches (ep_blocked_domains f) (to_lowercase host) = false)
    (Hscheme : to_lowercase "https" = "https"
       ∧ "https" ∉ ep_blocked_schemes f ∧ "https" ∉ ep_review_schemes f)
    (Hport : 443%Z ∉ ep_blocked_ports f ∧ 443%Z ∉ ep_review_ports f) :
  ∃ dest, parse_url_destination ("https://" +:+ evil +:+ sep +:+ "@" +:+ host) = Some dest
    ∧ dst_host dest = to_lowercase host
    ∧ evaluate_destination f dest "http_request" profile
      = Some (trusted_result "trusted-destination"
                ("Trusted outbound destination from http_request: " +:+ to_lowercase host)).
Proof.
  assert (Hl : lacks "/" (evil +:+ sep) = true)
    by (rewrite lacks_app, Hevil; by destruct Hsep as [-> | ->]).
  eexists. split; [|split].
  - replace ("https://" +:+ evil +:+ sep +:+ "@" +:+ host)
      with (url_text "https" (Some (evil +:+ sep)) host "" "").
    2:{ unfold url_text; cbn [mbind option_bind]. change (default "" (Some ?x)) with x.
        rewrite !append_nil_r, !append_assoc. reflexivity. }
    apply parse_url_text; [done|exact Hl|done|by left|by left].
  - done.
  - destruct Hscheme as (Hlow & Hbs & Hrs), Hport as [Hbp Hrp].
    unfold evaluate_destination, scheme_in, port_in, effective_port.
    cbn [dst_scheme dst_port dst_host mbind option_bind]. rewrite Hlow.
    rewrite !decide_False by done. rewrite Hblocked, Hprivate.
    change (default_port_for_scheme "https") with (Some 443%Z). cbn [mbind option_bind].
    rewrite !decide_False by done. rewrite Htrusted. reflexivity.
Qed.

Lemma is_ascii_app a b : is_ascii (a +:+ b) = is_ascii a && is_ascii b.
Proof.
  induction a as [|x a IH]; [done|].
  change (is_ascii (String x a +:+ b)) with ((N_of_ascii x <? 128)%N && is_ascii (a +:+ b)).
  by rewrite IH, andb_assoc.
Qed.

(** A host written with its root dot, which names the same host, is not under any
    configured domain: neither blocked nor trusted. *)
Theorem root_dot_matches_nothing `{!UnicodeLaws} domains host
    (Hascii : is_ascii host = true)
    (Hdomains : ∀ domain, domain ∈ domains → last (labels domain) ≠ Some "") :
  egress_domain_matches domains (host +:+ ".") = false.
Proof.
  apply not_true_is_false. intros (d & Hin & [k Hk])%egress_domain_matches_spec.
  rewrite to_lowercase_ascii in Hk by by rewrite is_ascii_app, Hascii.
  rewrite to_ascii_lowercase_app in Hk. change (to_ascii_lowercase ".") with (String "." "") in Hk.
  rewrite split_on_sep in Hk. change (labels "") with [""] in Hk. apply (f_equal last) in Hk. rewrite last_snoc in Hk.
  apply (Hdomains d Hin). rewrite Hk. rewrite last_app.
  destruct (last (labels d)) eqn:E; [done|]. by apply last_None, split_on_nonempty in E.
Qed.
End Properties.

(** ** Witnesses *)

Module Example_egress.
#[local] Existing Instance concrete_deps.
#[local] Existing Instance ascii_unicode.
#[local] Existing Instance concrete_iter.

(** The default configuration with one trusted and one blocked domain. *)
Definition config : EgressPolicyConfig := {|
  epc_enabled := true; epc_mode := Review; epc_trusted_domains := ["github.com"];
  epc_blocked_domains := ["evil.example"];
  epc_blocked_schemes := epc_blocked_schemes EgressPolicyConfig_default;
  epc_review_schemes := epc_review_schemes EgressPolicyConfig_default;
  epc_blocked_ports := epc_blocked_ports EgressPolicyConfig_default;
  epc_review_ports := epc_review_ports EgressPolicyConfig_default;
  epc_allow_private_ip := true; epc_review_unknown_destinations := true;
  epc_blocked_command_tokens := epc_blocked_command_tokens EgressPolicyConfig_default;
  epc_review_command_tokens := epc_review_command_tokens EgressPolicyConfig_default;
  epc_entropy_threshold := epc_entropy_threshold EgressPolicyConfig_default;
  epc_base64_min_chunk_len := 40; epc_suspicious_url_length := 2000;
  epc_suspicious_arg_length := 4000;
  epc_unusual_ports := epc_unusual_ports EgressPolicyConfig_default;
  epc_profile_trusted_domains := ∅ |}.

Definition f : EgressPolicyFilter := egress_from_config config.

Definition rule_of (url : string) : option string :=
  dest ← parse_url_destination url; fr_rule_id <$> evaluate_destination f dest "http_request" None.

Example rules :
  map rule_of
    ["https://github.com/x"; "https://api.github.com"; "https://evilgithub.com"; "https://evil.example";
     "ftp://github.com"; "https://github.com:25/"; "wss://github.com"; "http://127.0.0.1:3000/"]
  = [Some "trusted-destination"; Some "trusted-destination"; Some "unknown-destination";
     Some "blocked-domain"; Some "blocked-scheme"; Some "blocked-port"; Some "review-scheme"; None].
Proof. vm_compute. reflexivity. Qed.

Example hosts :
  forallb is_private_or_local_host
    ["LocalHost"; "10.1.2.3"; "172.31.0.1"; "192.168.0.1"; "127.9.9.9"; "169.254.1.1";
     "255.255.255.255"; "203.0.113.7"; "::1"; "::"; "fd00::1"; "fe80::1"] = true
  ∧ existsb is_private_or_local_host
    ["172.32.0.1"; "8.8.8.8"; "0.0.0.0"; "2001:db8::1"; "::ffff:10.0.0.1"; "example.com"] = false.
Proof. vm_compute. split; reflexivity. Qed.
Example loopback_addresses :
  forallb is_loopback_bind_address
    ["localhost"; "127.0.0.1"; "127.0.0.53"; "::1"; "::ffff:127.0.0.1"] = true
  ∧ existsb is_loopback_bind_address
    ["evil.example.com"; "10.0.0.5"; "192.168.1.10"; "0.0.0.0"; "::ffff:0.0.0.0"] = false.
Proof. vm_compute. split; reflexivity. Qed.
End Example_egress.

Lemma worst_case_candidate_max_witness :
  let D := concrete_deps in
  let U := ascii_unicode in
  let f := Example_egress.f in
  let candidates := ["github.com"; "x.org"; "a.evil.example"] in
  score_or_zero (evaluate_worst_case_candidate f candidates 443 None) = f64_dec 65 1
  ∧ f64_le (candidate_score f 443 None "github.com")
      (score_or_zero (evaluate_worst_case_candidate f candidates 443 None)) = true.
Proof.
  intros D U f candidates. split; [vm_compute; reflexivity|].
  apply (@worst_case_candidate_max concrete_deps ascii_unicode f candidates 443 None); [done|].
  apply list_elem_of_here.
Defined.

Lemma credit_only_when_trusted_witness :
  let D := concrete_deps in
  let U := ascii_unicode in
  let dest := parse_net_destination "api.github.com" 443 in
  ∃ domain, (domain ∈ ep_trusted_domains Example_egress.f ∨ domain ∈ default (∅ : gset string) None)
    ∧ labels domain `suffix_of` labels (to_lowercase (dst_host dest)).
Proof.
  intros D U dest.
  apply (@credit_only_when_trusted concrete_deps ascii_unicode Example_egress.f dest "net_connect" None
    (trusted_result "trusted-destination"
       "Trusted outbound destination from net_connect: api.github.com"));
    vm_compute; reflexivity.
Defined.

Lemma url_destination_roundtrip_witness :
  let U := ascii_unicode in
  parse_url_destination (url_text "HTTPS" (Some "user:pw") "API.GitHub.com" ":8443" "/a?b@c")
  = Some {| dst_scheme := Some "https"; dst_host := "api.github.com"; dst_port := Some 8443%Z |}.
Proof.
  intros U. apply (@url_destination_roundtrip ascii_unicode "HTTPS" (Some "user:pw") "API.GitHub.com"
    ":8443" (Some 8443%Z) "/a?b@c"); [done|by repeat constructor|reflexivity| |].
  - right. by exists "8443", 8443%Z.
  - right. by exists "a?b@c".
Defined.

(** [evil.example] is blocked, and unvouched for when it is written alone. *)
Lemma authority_confusion_witness :
  let D := concrete_deps in
  let U := ascii_unicode in
  Example_egress.rule_of "https://evil.example/" = Some "blocked-domain"
  ∧ ∃ dest, parse_url_destination ("https://" +:+ "evil.example" +:+ "?" +:+ "@" +:+ "github.com")
              = Some dest
    ∧ dst_host dest = "github.com"
    ∧ evaluate_destination Example_egress.f dest "http_request" None
      = Some (trusted_result "trusted-destination"
                ("Trusted outbound destination from http_request: " +:+ "github.com")).
Proof.
  intros D U. split; [vm_compute; reflexivity|].
  apply (@authority_confusion concrete_deps ascii_unicode Example_egress.f "evil.example" "?" "github.com"
    None); [by left|vm_compute; reflexivity..| |].
  - split; [reflexivity|]. split; apply (bool_decide_eq_true_1 _); vm_compute; reflexivity.
  - split; apply (bool_decide_eq_true_1 _); vm_compute; reflexivity.
Defined.

Lemma root_dot_matches_nothing_witness :
  let U := ascii_unicode in
  egress_domain_matches {["evil.example"]} "evil.example" = true
  ∧ egress_domain_matches {["evil.example"]} ("evil.example" +:+ ".") = false.
Proof.
  intros U. split; [vm_compute; reflexivity|].
  apply (@root_dot_matches_nothing ascii_unicode ascii_unicode_laws); [reflexivity|].
  intros domain ->%elem_of_singleton. done.
Defined.
