(* ===== verification/SessionContainment.v ===== *)
(** * The session-containment filter

    [crates/grith-proxy/src/filters/session_containment.rs]: once a session has
    read something sensitive, its outbound calls are scored up for a while.  The
    tracker is shared with the review actions, which may lift a containment, and
    with the dashboard, which lists the contained sessions.  The two meta-rules of
    [config/filters/meta_rules.toml] that keep a contained connection reviewable
    are here too. *)

From Stdlib Require Import Ascii String.
From S2P Require Import Prelude Concrete F64 Types Scoring SessionState Filters SensitivePaths.
From S2P Require Import EgressPolicy.

(** ** Configuration *)

Record SessionContainmentConfig := {
  scc_enabled : bool;
  scc_containment_window_seconds : Z;
  scc_sensitive_sources : list string;
  scc_outbound_command_tokens : list string;
  scc_network_score : f64;
  scc_process_score : f64;
  scc_shell_score : f64;
}.

Definition SessionContainmentConfig_default : SessionContainmentConfig := {|
  scc_enabled := true;
  scc_containment_window_seconds := 600;
  scc_sensitive_sources :=
    [".env"; ".ssh"; ".aws"; ".gnupg"; ".kube/config"; "id_rsa"; "id_ed25519"; "credentials";
     "secrets"; "passwd"; "shadow"; "keychain"];
  scc_outbound_command_tokens :=
    ["curl "; "wget "; "nc "; "netcat "; "scp "; "ftp "; "sftp "; "nslookup "; " dig "];
  scc_network_score := f64_dec 35 1;
  scc_process_score := f64_of_Z 4;
  scc_shell_score := f64_dec 35 1;
|}.

Definition LOCAL_DESTINATION_SCORE : f64 := f64_of_Z 2.

(** ** The tracker *)

(** [Duration::as_secs] *)
Definition as_secs (d : Duration) : Z := (d / nanos_per_sec)%Z.

Section Tracker.
Context `{D : Deps}.

Record ContainmentTracker := {
  contained_sessions : gmap Uuid Instant;
  containment_window : Duration;
}.

Definition ContainmentTracker_new (window : Duration) : ContainmentTracker :=
  {| contained_sessions := ∅; containment_window := window |}.

Definition ContainmentTracker_defaults : ContainmentTracker :=
  ContainmentTracker_new (from_secs 600).

Definition with_contained (m : gmap Uuid Instant) (t : ContainmentTracker) : ContainmentTracker :=
  {| contained_sessions := m; containment_window := containment_window t |}.

Definition containment_register (session_id : Uuid) (now : Instant) (t : ContainmentTracker) :
    ContainmentTracker :=
  with_contained (<[session_id := now]> (contained_sessions t)) t.

Definition containment_unregister (session_id : Uuid) (t : ContainmentTracker) :
    bool * ContainmentTracker :=
  (bool_decide (is_Some (contained_sessions t !! session_id)),
   with_contained (delete session_id (contained_sessions t)) t).

(** An expired entry is dropped by the query that finds it. *)
Definition active_remaining_seconds (session_id : Uuid) (now : Instant) (t : ContainmentTracker) :
    option Z * ContainmentTracker :=
  match contained_sessions t !! session_id with
  | None => (None, t)
  | Some armed_at =>
      let elapsed := saturating_duration_since now armed_at in
      if (containment_window t <? elapsed)%Z then
        (None, with_contained (delete session_id (contained_sessions t)) t)
      else (Some (as_secs (containment_window t - elapsed)), t)
  end.

(** The loop over the map sorts the sessions into expired and active ones; the
    expired ones are removed after it. *)
Fixpoint partition_sessions (window : Duration) (now : Instant) (entries : list (Uuid * Instant)) :
    list Uuid * list (Uuid * Z) :=
  match entries with
  | [] => ([], [])
  | (id, armed_at) :: entries' =>
      let '(expired, active) := partition_sessions window now entries' in
      let elapsed := saturating_duration_since now armed_at in
      if (window <? elapsed)%Z then (id :: expired, active)
      else (expired, (id, as_secs (window - elapsed)) :: active)
  end.

Definition containment_list_active `{HashIter} (now : Instant) (t : ContainmentTracker) :
    list (Uuid * Z) * ContainmentTracker :=
  let '(expired, active) :=
    partition_sessions (containment_window t) now (hash_iter (contained_sessions t)) in
  (active, with_contained (foldl (λ m id, delete id m) (contained_sessions t) expired) t).

End Tracker.

(** ** The filter *)

Record SessionContainmentFilter := {
  scf_sensitive_sources : list string;
  scf_outbound_command_tokens : list string;
  scf_network_score : f64;
  scf_process_score : f64;
  scf_shell_score : f64;
}.

Section SessionContainment.
Context `{D : Deps} `{Unicode}.

Definition normalize (values : list string) : list string :=
  List.filter (λ v, negb (String.eqb v "")) (map (λ v, to_lowercase (trim v)) values).

(** The filter and the tracker it shares. *)
Definition containment_from_config (config : SessionContainmentConfig) :
    SessionContainmentFilter * ContainmentTracker :=
  ({| scf_sensitive_sources := normalize (scc_sensitive_sources config);
      scf_outbound_command_tokens := normalize (scc_outbound_command_tokens config);
      scf_network_score := scc_network_score config;
      scf_process_score := scc_process_score config;
      scf_shell_score := scc_shell_score config |},
   ContainmentTracker_new (from_secs (scc_containment_window_seconds config))).

Definition containment_defaults : SessionContainmentFilter * ContainmentTracker :=
  containment_from_config SessionContainmentConfig_default.

Definition is_sensitive_source (f : SessionContainmentFilter) (path : string) : bool :=
  let lowered := to_lowercase path in
  let basename := after_last "/"%char lowered in
  let stem := default basename (head (split_on "."%char basename)) in
  existsb (λ needle,
    if contains "/" needle then String.eqb lowered needle || ends_with ("/" +:+ needle) lowered
    else if starts_with "." needle then
      str_mem needle (split_on "/"%char lowered) || starts_with needle basename
    else str_mem needle (split_on "/"%char lowered) || String.eqb stem needle)
    (scf_sensitive_sources f).

Definition looks_outbound_command (f : SessionContainmentFilter) (command : string) : bool :=
  let lowered := to_lowercase command in
  existsb (λ needle, contains needle lowered) (scf_outbound_command_tokens f).

Definition spawn_is_outbound_capable (f : SessionContainmentFilter) (ctx : ToolCallContext) : bool :=
  match ctx_spawn_provenance ctx with
  | Some prov => sp_is_outbound_capable prov
  | None =>
      match full_command ctx with
      | Some cmd => looks_outbound_command f cmd
      | None => false
      end
  end.

Definition mk_message (remaining : Z) (kind : string) : string :=
  "Session containment active (" +:+ fmt_Z remaining +:+ "s remaining): " +:+ kind
    +:+ " requires review".

(** The result for a contained session. *)
Definition contained_result (f : SessionContainmentFilter) (ctx : ToolCallContext) (remaining : Z) :
    FilterResult :=
  let charge rule_id score kind :=
    matched "session-containment" rule_id score (severity_for score) (mk_message remaining kind) in
  let network := charge "contained-network-egress" (scf_network_score f) "network egress" in
  match ctx_call_type ctx with
  | NetConnect address _ =>
      if bool_decide (unix_socket_class ctx = Some Control) then
        charge "contained-local-ipc-egress" LOCAL_DESTINATION_SCORE "local control-injection IPC"
      else if is_loopback_bind_address address then
        charge "contained-loopback-egress" LOCAL_DESTINATION_SCORE "loopback service"
      else network
  | HttpRequest _ _ => network
  | ProcessSpawn _ _ =>
      if spawn_is_outbound_capable f ctx then
        charge "contained-process-egress" (scf_process_score f) "outbound-capable process spawn"
      else no_match "session-containment"
  | ShellExec _ _ =>
      match full_command ctx with
      | Some full =>
          if looks_outbound_command f full then
            charge "contained-shell-egress" (scf_shell_score f) "shell outbound operation"
          else no_match "session-containment"
      | None => no_match "session-containment"
      end
  | _ => no_match "session-containment"
  end.

Definition reads_sensitive_source (f : SessionContainmentFilter) (ctx : ToolCallContext) : bool :=
  match ctx_call_type ctx with FileRead path => is_sensitive_source f path | _ => false end.

Definition containment_evaluate_at (f : SessionContainmentFilter) (ctx : ToolCallContext)
    (now : Instant) (t : ContainmentTracker) : FilterResult * ContainmentTracker :=
  if reads_sensitive_source f ctx then
    (no_match "session-containment", containment_register (ctx_session_id ctx) now t)
  else
    let t := if bool_decide (ctx_source_taint ctx ≠ TaintNone)
             then containment_register (ctx_session_id ctx) now t else t in
    match active_remaining_seconds (ctx_session_id ctx) now t with
    | (None, t) => (no_match "session-containment", t)
    | (Some remaining, t) => (contained_result f ctx remaining, t)
    end.

(** The filter as the engine sees it.  It keeps the trait's default eviction: the
    end of a session does not touch its containment. *)
Definition session_containment_filter {FS} (f : SessionContainmentFilter) (clock : nat → Instant)
    (get : FS → ContainmentTracker) (set : ContainmentTracker → FS → FS) : SecurityFilter FS :=
  {| sf_name := "session-containment";
     sf_phase := Context_;
     sf_is_ready _ := true;
     sf_evaluate ctx w :=
       let '(t, w) := now clock w in
       let '(r, tracker) := containment_evaluate_at f ctx t (get (w_filters w)) in
       (Some r, {| w_filters := set tracker (w_filters w); w_sessions := w_sessions w;
                   w_tick := w_tick w |});
     sf_evict_session_state _ w := (0, w);
     sf_observe_outcome _ _ _ w := w |}.

End SessionContainment.

(** ** Reference: the time of the last arming *)

Section Reference.
Context `{D : Deps} `{Unicode} `{HashIter}.

(** What the filter, the review actions and the dashboard do to the tracker. *)
Inductive containment_op :=
  | OpCall (ctx : ToolCallContext) (now : Instant)
  | OpLift (session_id : Uuid)
  | OpQuery (session_id : Uuid) (now : Instant)
  | OpList (now : Instant).

Inductive containment_answer :=
  | AResult (r : FilterResult)
  | ALifted (was_contained : bool)
  | ARemaining (remaining : option Z)
  | AActive (active : list (Uuid * Z)).

Definition containment_step (f : SessionContainmentFilter) (op : containment_op)
    (t : ContainmentTracker) : containment_answer * ContainmentTracker :=
  match op with
  | OpCall ctx now => let '(r, t) := containment_evaluate_at f ctx now t in (AResult r, t)
  | OpLift s => let '(b, t) := containment_unregister s t in (ALifted b, t)
  | OpQuery s now => let '(o, t) := active_remaining_seconds s now t in (ARemaining o, t)
  | OpList now => let '(l, t) := containment_list_active now t in (AActive l, t)
  end.

Definition containment_run (f : SessionContainmentFilter) (ops : list containment_op)
    (t : ContainmentTracker) : ContainmentTracker :=
  fold_left (λ t op, (containment_step f op t).2) ops t.

(** A call arms its session by reading a sensitive source or carrying taint. *)
Definition arms (f : SessionContainmentFilter) (ctx : ToolCallContext) : bool :=
  reads_sensitive_source f ctx || bool_decide (ctx_source_taint ctx ≠ TaintNone).

Definition armed_step (f : SessionContainmentFilter) (s : Uuid) (armed : option Instant)
    (op : containment_op) : option Instant :=
  match op with
  | OpCall ctx now => if arms f ctx && bool_decide (ctx_session_id ctx = s) then Some now else armed
  | OpLift s' => if decide (s' = s) then None else armed
  | OpQuery _ _ | OpList _ => armed
  end.

(** The last arming of a session that was not lifted since; nothing expires. *)
Definition armed_at (f : SessionContainmentFilter) (ops : list containment_op) (s : Uuid) :
    option Instant :=
  fold_left (armed_step f s) ops None.

Definition remaining_at (window : Duration) (armed : option Instant) (now : Instant) : option Z :=
  armed_at ← armed;
  let elapsed := saturating_duration_since now armed_at in
  if (window <? elapsed)%Z then None else Some (as_secs (window - elapsed)).

Definition op_time (op : containment_op) : option Instant :=
  match op with OpCall _ now | OpQuery _ now | OpList now => Some now | OpLift _ => None end.

Definition last_time (bound : Instant) (ops : list containment_op) : Instant :=
  fold_left (λ b op, default b (op_time op)) ops bound.

(** Times that never go back. *)
Fixpoint monotone (bound : Instant) (ops : list containment_op) : Prop :=
  match ops with
  | [] => True
  | op :: ops' =>
      (bound <= default bound (op_time op))%Z ∧ monotone (default bound (op_time op)) ops'
  end.

(** The answer an operation should get after [ops]. *)
Definition answers (f : SessionContainmentFilter) (window : Duration) (bound : Instant)
    (ops : list containment_op) (op : containment_op) (a : containment_answer) : Prop :=
  let remaining s now := remaining_at window (armed_at f ops s) now in
  match op, a with
  | OpCall ctx now, AResult r =>
      r = if reads_sensitive_source f ctx then no_match "session-containment"
          else
            match remaining_at window (armed_at f (ops ++ [op]) (ctx_session_id ctx)) now with
            | None => no_match "session-containment"
            | Some remaining => contained_result f ctx remaining
            end
  | OpLift s, ALifted b => is_Some (remaining s (last_time bound ops)) → b = true
  | OpQuery s now, ARemaining o => o = remaining s now
  | OpList now, AActive l => NoDup l.*1 ∧ ∀ s r, (s, r) ∈ l ↔ remaining s now = Some r
  | _, _ => False
  end.

(** *** Lemmas on the tracker *)

Definition remaining_in (t : ContainmentTracker) (s : Uuid) (now : Instant) : option Z :=
  remaining_at (containment_window t) (contained_sessions t !! s) now.

Lemma active_remaining_seconds_fst s now t :
  (active_remaining_seconds s now t).1 = remaining_in t s now.
Proof.
  unfold active_remaining_seconds, remaining_in, remaining_at.
  destruct (contained_sessions t !! s); cbn; [|done]. by destruct (_ <? _)%Z.
Qed.

(** An expired containment stays expired. *)
Lemma remaining_at_expired window armed now now' :
  (now <= now')%Z → remaining_at window armed now = None → remaining_at window armed now' = None.
Proof.
  unfold remaining_at, saturating_duration_since. destruct armed as [a|]; cbn; [|done]. intros Hle.
  destruct (Z.ltb_spec window (Z.max 0 (now - a))); [intros _|done].
  by destruct (Z.ltb_spec window (Z.max 0 (now' - a))); [|lia].
Qed.

(** Two trackers that nobody can tell apart from [bound] on. *)
Definition same_from (bound : Instant) (t t' : ContainmentTracker) : Prop :=
  containment_window t' = containment_window t ∧
  ∀ s now, (bound <= now)%Z → remaining_in t' s now = remaining_in t s now.

Lemma drop_expired s now t :
  remaining_in t s now = None →
  same_from now t (with_contained (delete s (contained_sessions t)) t).
Proof.
  intros Hexp. split; [done|]. intros s' now' Hle. unfold remaining_in; cbn.
  destruct (decide (s = s')) as [<-|Hne]; [|by rewrite lookup_delete_ne].
  rewrite lookup_delete_eq; cbn. symmetry. by apply (remaining_at_expired _ _ now).
Qed.

Lemma active_remaining_seconds_snd s now t :
  same_from now t (active_remaining_seconds s now t).2.
Proof.
  pose proof (active_remaining_seconds_fst s now t) as Hfst. revert Hfst.
  unfold active_remaining_seconds. destruct (contained_sessions t !! s) eqn:E; [|done].
  destruct (_ <? _)%Z; [|done]. cbn. intros Hexp. by apply drop_expired.
Qed.

Lemma partition_sessions_active window now entries s r :
  (s, r) ∈ (partition_sessions window now entries).2 ↔
  ∃ a, (s, a) ∈ entries ∧ remaining_at window (Some a) now = Some r.
Proof.
  unfold remaining_at; cbn. induction entries as [|[id a] entries IH]; cbn [partition_sessions].
  - split; [intros Hin|intros (? & Hin & _)]; by apply not_elem_of_nil in Hin.
  - destruct (partition_sessions window now entries) as [expired active]. cbn [snd] in IH.
    destruct (window <? saturating_duration_since now a)%Z eqn:E; cbn [snd].
    + rewrite IH. split; [intros (b & Hin & Hr)|intros (b & Hin & Hr)].
      * exists b. split; [by apply list_elem_of_further|done].
      * apply elem_of_cons in Hin as [[= -> ->]|Hin]; [by rewrite E in Hr|by exists b].
    + rewrite elem_of_cons, IH. split.
      * intros [[= -> ->]|(b & Hin & Hr)].
        -- exists a. split; [apply list_elem_of_here|by rewrite E].
        -- exists b. split; [by apply list_elem_of_further|done].
      * intros (b & [[= -> ->]|Hin]%elem_of_cons & Hr).
        -- left. rewrite E in Hr. by injection Hr as <-.
        -- right. by exists b.
Qed.

Lemma partition_sessions_keys window now entries s r :
  (s, r) ∈ (partition_sessions window now entries).2 → s ∈ entries.*1.
Proof.
  rewrite partition_sessions_active. intros (a & Hin & _). by apply (list_elem_of_fmap_2 fst) in Hin.
Qed.

Lemma partition_sessions_NoDup window now entries :
  NoDup entries.*1 → NoDup (partition_sessions window now entries).2.*1.
Proof.
  induction entries as [|[id a] entries IH]; [by constructor|]. cbn [fmap list_fmap fst].
  intros [Hid Hnd]%NoDup_cons. specialize (IH Hnd).
  pose proof (partition_sessions_keys window now entries id) as Hkeys.
  cbn [partition_sessions]. destruct (partition_sessions window now entries) as [expired active].
  destruct (_ <? _)%Z; [done|]. cbn. apply NoDup_cons. split; [|done].
  intros [[s r] [-> Hin]]%list_elem_of_fmap_1. by apply Hid, (Hkeys r).
Qed.

Lemma partition_sessions_expired window now entries s :
  s ∈ (partition_sessions window now entries).1 →
  ∃ a, (s, a) ∈ entries ∧ remaining_at window (Some a) now = None.
Proof.
  unfold remaining_at; cbn. induction entries as [|[id a] entries IH]; cbn [partition_sessions].
  - intros Hin. by apply not_elem_of_nil in Hin.
  - destruct (partition_sessions window now entries) as [expired active].
    destruct (window <? saturating_duration_since now a)%Z eqn:E; cbn [fst].
    + intros [->|(b & Hin & Hr)%IH]%elem_of_cons.
      * exists a. split; [apply list_elem_of_here|by rewrite E].
      * exists b. split; [by apply list_elem_of_further|done].
    + intros (b & Hin & Hr)%IH. exists b. split; [by apply list_elem_of_further|done].
Qed.

Lemma drop_all_expired now t expired :
  (∀ s, s ∈ expired → remaining_in t s now = None) →
  same_from now t (with_contained (foldl (λ m id, delete id m) (contained_sessions t) expired) t).
Proof.
  revert t. induction expired as [|s expired IH]; intros t Hexp; [done|]. cbn [foldl].
  destruct (drop_expired s now t) as [Hw Hd]; [apply Hexp, list_elem_of_here|].
  destruct (IH (with_contained (delete s (contained_sessions t)) t)) as [Hw' Hd'].
  - intros s' Hs'. rewrite Hd by lia. by apply Hexp, list_elem_of_further.
  - split; [done|]. intros s' now' Hle. rewrite <- Hd by done. by apply Hd'.
Qed.

Lemma containment_list_active_spec `{!HashIterLaws} now t :
  let '(l, t') := containment_list_active now t in
  (NoDup l.*1 ∧ ∀ s r, (s, r) ∈ l ↔ remaining_in t s now = Some r) ∧ same_from now t t'.
Proof.
  unfold containment_list_active.
  set (entries := hash_iter (contained_sessions t)).
  assert (Hnd : NoDup entries.*1).
  { unfold entries. rewrite (hash_iter_perm (contained_sessions t)). apply NoDup_fst_map_to_list. }
  pose proof (partition_sessions_active (containment_window t) now entries) as Hact.
  pose proof (partition_sessions_NoDup (containment_window t) now entries Hnd) as Hndl.
  pose proof (partition_sessions_expired (containment_window t) now entries) as Hexp.
  destruct (partition_sessions _ now entries) as [expired active]. cbn [fst snd] in *.
  split; [split; [done|]|].
  - intros s r. rewrite Hact. unfold remaining_in, entries. split.
    + intros (a & Hin & Hr). apply hash_iter_elem_of in Hin. by rewrite Hin.
    + destruct (contained_sessions t !! s) as [a|] eqn:E; [|done]. intros Hr.
      exists a. by rewrite hash_iter_elem_of.
  - apply drop_all_expired. intros s (a & Hin & Hr)%Hexp. unfold remaining_in.
    unfold entries in Hin. apply hash_iter_elem_of in Hin. by rewrite Hin.
Qed.

(** *** The tracker follows the reference *)

Lemma armed_at_snoc f ops op s : armed_at f (ops ++ [op]) s = armed_step f s (armed_at f ops s) op.
Proof. unfold armed_at. by rewrite fold_left_app. Qed.

Lemma last_time_snoc start ops op :
  last_time start (ops ++ [op]) = default (last_time start ops) (op_time op).
Proof. unfold last_time. by rewrite fold_left_app. Qed.

Definition tracks (f : SessionContainmentFilter) (window : Duration) (ops : list containment_op)
    (bound : Instant) (t : ContainmentTracker) : Prop :=
  containment_window t = window ∧
  ∀ s now, (bound <= now)%Z → remaining_in t s now = remaining_at window (armed_at f ops s) now.

Lemma tracks_same_from f window ops bound bound' t t' :
  (bound <= bound')%Z → tracks f window ops bound t → same_from bound' t t' →
  tracks f window ops bound' t'.
Proof.
  intros Hle [Hw Ht] [Hw' Hs]. split; [congruence|]. intros s now Hnow.
  rewrite Hs by done. apply Ht. lia.
Qed.

(** Operations that arm nothing and lift nothing. *)
Lemma tracks_passive f window ops op bound t :
  (∀ s, armed_step f s (armed_at f ops s) op = armed_at f ops s) →
  tracks f window ops bound t → tracks f window (ops ++ [op]) bound t.
Proof.
  intros Hop [Hw Ht]. split; [done|]. intros s now Hnow. by rewrite armed_at_snoc, Hop, Ht.
Qed.

Lemma tracks_register f window ops bound t ctx now :
  arms f ctx = true → (bound <= now)%Z → tracks f window ops bound t →
  tracks f window (ops ++ [OpCall ctx now]) now (containment_register (ctx_session_id ctx) now t).
Proof.
  intros Harm Hle [Hw Ht]. split; [done|]. intros s now' Hnow. rewrite armed_at_snoc.
  unfold remaining_in, containment_register, armed_step; cbn. rewrite Harm; cbn [andb].
  case_bool_decide as Heq.
  - by rewrite Heq, lookup_insert_eq, Hw.
  - rewrite lookup_insert_ne by done. apply Ht. lia.
Qed.

Lemma tracks_lift f window ops bound t s :
  tracks f window ops bound t →
  tracks f window (ops ++ [OpLift s]) bound (containment_unregister s t).2.
Proof.
  intros [Hw Ht]. split; [done|]. intros s' now Hnow. rewrite armed_at_snoc.
  unfold remaining_in; cbn. destruct (decide (s = s')) as [<-|Hne].
  - by rewrite lookup_delete_eq.
  - rewrite lookup_delete_ne by done. by apply Ht.
Qed.

(** The query at the end of an evaluation. *)
Lemma tracks_query f window ops bound t s now :
  (bound <= now)%Z → tracks f window ops bound t →
  let '(o, t') := active_remaining_seconds s now t in
  o = remaining_at window (armed_at f ops s) now ∧ tracks f window ops now t'.
Proof.
  intros Hle Ht. pose proof (active_remaining_seconds_fst s now t) as Hfst.
  pose proof (active_remaining_seconds_snd s now t) as Hsnd.
  destruct (active_remaining_seconds s now t) as [o t']; cbn [fst snd] in *. subst o.
  split; [by apply Ht|]. by eapply tracks_same_from.
Qed.

Lemma evaluate_tracks f window ops bound t ctx now :
  (bound <= now)%Z → tracks f window ops bound t →
  let '(r, t') := containment_evaluate_at f ctx now t in
  answers f window bound ops (OpCall ctx now) (AResult r)
  ∧ tracks f window (ops ++ [OpCall ctx now]) now t'.
Proof.
  intros Hle Ht. unfold containment_evaluate_at. cbn [answers].
  destruct (reads_sensitive_source f ctx) eqn:Er.
  { split; [done|]. apply (tracks_register f window ops bound); [by unfold arms; rewrite Er|done..]. }
  set (t1 := if bool_decide _ then _ else t).
  assert (H1 : tracks f window (ops ++ [OpCall ctx now]) now t1).
  { unfold t1. case_bool_decide as Etaint.
    - apply (tracks_register f window ops bound); [|done..].
      unfold arms. rewrite Er. by apply bool_decide_true.
    - apply tracks_passive; [|by apply (tracks_same_from _ _ _ bound now t t)].
      intros s. cbn. unfold arms. rewrite Er. by case_bool_decide. }
  pose proof (tracks_query f window _ now t1 (ctx_session_id ctx) now ltac:(lia) H1) as Hq.
  destruct (active_remaining_seconds _ now t1) as [o t'].
  destruct Hq as [-> Ht']. by destruct (remaining_at _ _ _).
Qed.

Lemma step_tracks `{!HashIterLaws} f window ops start t op :
  let bound := last_time start ops in
  (bound <= default bound (op_time op))%Z → tracks f window ops bound t →
  let '(a, t') := containment_step f op t in
  answers f window start ops op a
  ∧ tracks f window (ops ++ [op]) (last_time start (ops ++ [op])) t'.
Proof.
  cbv zeta. rewrite last_time_snoc. intros Hle Ht. destruct op as [ctx now|s|s now|now]; cbn in Hle |- *.
  - pose proof (evaluate_tracks f window ops _ t ctx now Hle Ht) as He.
    by destruct (containment_evaluate_at f ctx now t).
  - split; [|by apply tracks_lift]. destruct Ht as [Hw Ht]. rewrite <- Ht by lia.
    unfold remaining_in, remaining_at. intros [r Hr]. apply bool_decide_true.
    by destruct (contained_sessions t !! s).
  - pose proof (tracks_query f window ops _ t s now Hle Ht) as Hq.
    destruct (active_remaining_seconds s now t) as [o t']. destruct Hq as [-> Ht'].
    split; [done|]. by apply tracks_passive.
  - pose proof (containment_list_active_spec now t) as Hl.
    destruct (containment_list_active now t) as [l t']. destruct Hl as [[Hnd Hl] Hs]. split.
    + split; [done|]. intros s r. rewrite Hl. by destruct Ht as [_ ->].
    + apply tracks_passive; [done|]. by eapply tracks_same_from.
Qed.

Lemma monotone_snoc start ops op :
  monotone start (ops ++ [op]) ↔
  monotone start ops ∧ (last_time start ops <= default (last_time start ops) (op_time op))%Z.
Proof.
  revert start. induction ops as [|o ops IH]; intros start; cbn; [tauto|]. rewrite IH.
  unfold last_time; cbn. tauto.
Qed.
Lemma run_tracks `{!HashIterLaws} f window ops start :
  monotone start ops →
  tracks f window ops (last_time start ops) (containment_run f ops (ContainmentTracker_new window)).
Proof.
  induction ops as [|op ops IH] using rev_ind; [done|]. intros Hm.
  apply monotone_snoc in Hm as [Hm Hle]. specialize (IH Hm).
  pose proof (step_tracks f window ops start _ op Hle IH) as Hstep.
  unfold containment_run. rewrite fold_left_app. cbn [fold_left].
  fold (containment_run f ops (ContainmentTracker_new window)).
  destruct (containment_step f op _) as [a t']. apply Hstep.
Qed.

End Reference.

(** ** Properties *)

Section Properties.
Context `{D : Deps} `{Unicode}.

(** C28: the tracker, which forgets expired entries as it meets them, answers
    like the complete history.  For times that never go back, and whatever the
    interleaving of calls, lifts, queries and listings, a call is scored exactly
    when the last call of its session that armed containment (this one included)
    is not lifted and at most the window old; a query and the listing report
    exactly those sessions, once each, with the whole seconds left; and lifting a
    session still contained says so. *)
Theorem containment_refines_history `{HashIterLaws} f window start ops op
    (Hmono : monotone start (ops ++ [op])) :
  answers f window start ops op
    (containment_step f op (containment_run f ops (ContainmentTracker_new window))).1.
Proof.
  apply monotone_snoc in Hmono as [Hm Hle].
  pose proof (step_tracks f window ops start _ op Hle (run_tracks f window ops start Hm)) as Hstep.
  by destruct (containment_step f op _) as [a t'], Hstep.
Qed.

(** The default configuration, whatever the Unicode tables. *)
Lemma default_outbound_tokens `{!UnicodeLaws} :
  scf_outbound_command_tokens containment_defaults.1
  = ["curl"; "wget"; "nc"; "netcat"; "scp"; "ftp"; "sftp"; "nslookup"; "dig"].
Proof.
  unfold containment_defaults, containment_from_config, normalize.
  cbn [fst scf_outbound_command_tokens SessionContainmentConfig_default scc_outbound_command_tokens map].
  rewrite !to_lowercase_ascii by (vm_compute; reflexivity). vm_compute. reflexivity.
Qed.

(** The outbound-command tokens lose the spaces that delimit them.  The
    default list says ["nc "] and [" dig "], but normalisation trims every entry,
    so a contained session's shell command is scored as an outbound operation as
    soon as the letters [nc], [dig], [ftp] or [scp] occur anywhere in it. *)
Theorem outbound_tokens_lose_delimiters `{!UnicodeLaws} ctx command remaining
    (Hshell : match ctx_call_type ctx with ShellExec _ _ => True | _ => False end)
    (Hfull : full_command ctx = Some command)
    (Htoken : existsb (λ token, contains token (to_lowercase command)) ["nc"; "dig"; "ftp"; "scp"]
              = true) :
  contained_result containment_defaults.1 ctx remaining
  = matched "session-containment" "contained-shell-egress" (f64_dec 35 1) SevWarning
      (mk_message remaining "shell outbound operation").
Proof.
  assert (Hlooks : looks_outbound_command containment_defaults.1 command = true).
  { unfold looks_outbound_command. rewrite default_outbound_tokens.
    cbn [existsb] in Htoken |- *. set (l := to_lowercase command) in *.
    destruct (contains "nc" l), (contains "dig" l), (contains "ftp" l), (contains "scp" l);
      rewrite ?orb_true_r; try done. }
  unfold contained_result. destruct (ctx_call_type ctx); try done.
  rewrite Hfull, Hlooks. reflexivity.
Qed.

End Properties.

(** ** Witnesses *)

Module Example_containment.
#[local] Existing Instance concrete_deps.
#[local] Existing Instance ascii_unicode.
Definition call (session : Uuid) (t : ToolCallType) : ToolCallContext :=
  ToolCallContext_new uuid_a 0%Z "p" t session.
Definition read_key : ToolCallContext := call uuid_a (FileRead "/home/u/.ssh/id_rsa").
Definition upload : ToolCallContext := call uuid_a (HttpRequest "POST" "https://example.com/up").
Definition sync : ToolCallContext := call uuid_a (ShellExec "npm" ["run"; "sync"]).

Definition f : SessionContainmentFilter := containment_defaults.1.

(** The paths of the source's own tests. *)
Example sensitive_paths :
  forallb (is_sensitive_source f)
    ["/home/u/.ssh/id_rsa"; "/home/u/.aws/credentials"; "/home/u/project/.env";
     "/home/u/project/.env.local"; "/home/u/.kube/config"; "/home/u/.gnupg/secring.gpg";
     "/etc/shadow"; "/home/u/app/secrets.yaml"; "/home/u/app/credentials.json";
     "/home/u/k8s/secrets/db"] = true.
Proof. vm_compute. reflexivity. Qed.

Example ordinary_paths :
  existsb (is_sensitive_source f)
    ["/home/u/grith/crates/grith-proxy/src/filters/secret_scan.rs";
     "/home/u/grith/crates/grith-core/src/credentials_helper.rs";
     "/home/u/.cargo/registry/src/idx/sample-1.2.0/src/lib.rs";
     "/home/u/grith/target/debug/deps/sign_profiles-90c7a42aee726d3d";
     "/home/u/grith/docs/secrets-design.md"] = false.
Proof. vm_compute. reflexivity. Qed.

End Example_containment.

(** A key read at 100s, a lift, a second read at 200s: at 799s one second is left
    of the second containment, and at 801s none. *)
Lemma containment_refines_history_witness :
  let D := concrete_deps in
  let U := ascii_unicode in
  let I := concrete_iter in
  let f := Example_containment.f in
  let ops := [OpCall Example_containment.read_key (from_secs 100); OpLift uuid_a;
              OpCall Example_containment.read_key (from_secs 200); OpList (from_secs 300)] in
  let run op := (containment_step f op
                   (containment_run f ops (ContainmentTracker_new (from_secs 600)))).1 in
  answers f (from_secs 600) 0 ops (OpQuery uuid_a (from_secs 799))
    (run (OpQuery uuid_a (from_secs 799)))
  ∧ run (OpQuery uuid_a (from_secs 799)) = ARemaining (Some 1%Z)
  ∧ run (OpQuery uuid_a (from_secs 801)) = ARemaining None.
Proof.
  intros D U I f ops run. split; [|split; vm_compute; reflexivity].
  apply (@containment_refines_history concrete_deps ascii_unicode concrete_iter concrete_iter_laws
    f (from_secs 600) 0%Z ops (OpQuery uuid_a (from_secs 799))).
  vm_compute. repeat split; discriminate.
Defined.

(** ["npm run sync"] contains none of the configured tokens. *)
Lemma outbound_tokens_lose_delimiters_witness :
  let D := concrete_deps in
  let U := ascii_unicode in
  existsb (λ token, contains token "npm run sync")
    (scc_outbound_command_tokens SessionContainmentConfig_default) = false
  ∧ contained_result Example_containment.f Example_containment.sync 10
    = matched "session-containment" "contained-shell-egress" (f64_dec 35 1) SevWarning
        (mk_message 10 "shell outbound operation").
Proof.
  intros D U. split; [vm_compute; reflexivity|].
  apply (@outbound_tokens_lose_delimiters concrete_deps ascii_unicode ascii_unicode_laws
    Example_containment.sync "npm run sync" 10); [exact I|vm_compute; reflexivity..].
Defined.
