(* ===== verification/EgressScores.v ===== *)
(** * The score of an outbound call

    How the filters add up for a call that leaves the machine: the operation
    baseline, the egress policy, the sink tiers of the taint filter
    ([crates/grith-proxy/src/filters/taint.rs]), the session containment, the
    egress-rate burst, and the two rules of [config/filters/meta_rules.toml] that
    keep the history of a session from being charged twice. *)

From Stdlib Require Import Ascii String SpecFloat.
From S2P Require Import Prelude Concrete Net F64 Types Scoring MetaRules SessionState Filters.
From S2P Require Import Engine OperationRisk SensitivePaths EgressRate EgressPolicy.
From S2P Require Import EgressCommand SessionContainment.

(** ** Taint sinks

    The level in effect, the tainted process and the recent read are the state of
    the rest of the taint filter; [str::to_uppercase] is a parameter. *)

Section TaintSinks.
Context `{D : Deps}.
Variable to_uppercase : string → string.

Definition is_high_risk_http_method (method : string) : bool :=
  str_mem (to_uppercase method) ["POST"; "PUT"; "PATCH"].

Definition taint_http_sink (level : TaintLevel) (method url : string) : FilterResult :=
  let call := method +:+ " " +:+ url in
  match level with
  | TaintHigh =>
      matched "taint" "high-taint-network-sink" (f64_of_Z 5) SevCritical
        ("Highly tainted data flowing to network sink: " +:+ call)
  | TaintMedium =>
      if is_high_risk_http_method method then
        matched "taint" "medium-taint-high-risk-sink" (f64_of_Z 4) SevError
          ("Tainted data flowing to high-risk HTTP sink: " +:+ call)
      else
        matched "taint" "medium-taint-network-sink" (f64_of_Z 3) SevWarning
          ("Tainted data flowing to network sink: " +:+ call)
  | TaintLow =>
      if is_high_risk_http_method method then
        matched "taint" "low-taint-high-risk-sink" (f64_of_Z 3) SevWarning
          ("Low-taint data flowing to high-risk sink: " +:+ call)
      else no_match "taint"
  | TaintNone => no_match "taint"
  end.

(** [pid_level] is the taint of the connecting process. *)
Definition taint_connect_sink (level : TaintLevel) (pid_level : option TaintLevel)
    (ctx : ToolCallContext) (address : string) (port : Z) : FilterResult :=
  let control_class := bool_decide (unix_socket_class ctx = Some Control) in
  let loopback := is_loopback_bind_address address in
  let at_ := address +:+ ":" +:+ fmt_Z port in
  if control_class || loopback then
    match pid_level with
    | Some (TaintLow | TaintMedium | TaintHigh) =>
        matched "taint"
          (if loopback && negb control_class then "tainted-loopback-sink" else "tainted-local-ipc-sink")
          (f64_of_Z 3) SevWarning
          (if loopback && negb control_class
           then "Tainted data flowing to a loopback service: " +:+ at_
           else "Tainted data flowing to local control-injection socket: " +:+ address)
    | _ => no_match "taint"
    end
  else
    match level with
    | TaintHigh =>
        matched "taint" "high-taint-network-sink" (f64_of_Z 5) SevCritical
          ("Highly tainted data flowing to network sink: " +:+ at_)
    | TaintMedium | TaintLow =>
        matched "taint" "tainted-network-sink" (f64_of_Z 3) SevWarning
          ("Tainted data flowing to network sink: " +:+ at_)
    | TaintNone => no_match "taint"
    end.

(** The source categories, if there are any, go with a match. *)
Definition stamp_sources (cats : option Json) (r : FilterResult) : FilterResult :=
  if fr_matched r then
    match cats with Some v => set_metadata "active_taint_sources" v r | None => r end
  else r.

(** Without taint, a sensitive read in the last thirty seconds. *)
Definition proximity_bonus (level : TaintLevel) (recent_read : bool) (message : string)
    (r : FilterResult) : FilterResult :=
  if bool_decide (level = TaintNone) && recent_read then
    {| fr_filter_name := fr_filter_name r; fr_matched := true; fr_score := f64_dec 15 1;
       fr_rule_id := "proximity-sensitive-read"; fr_severity := SevNotice; fr_message := message;
       fr_metadata := fr_metadata r |}
  else r.

Definition taint_network_sink (level : TaintLevel) (pid_level : option TaintLevel) (cats : option Json)
    (recent_read : bool) (ctx : ToolCallContext) : FilterResult :=
  match ctx_call_type ctx with
  | HttpRequest method url =>
      proximity_bonus level recent_read
        ("HTTP request within 30s of sensitive file read: " +:+ method +:+ " " +:+ url)
        (stamp_sources cats (taint_http_sink level method url))
  | NetConnect address port =>
      proximity_bonus level recent_read
        ("Network connection within 30s of sensitive file read: " +:+ address +:+ ":" +:+ fmt_Z port)
        (stamp_sources cats (taint_connect_sink level pid_level ctx address port))
  | _ => no_match "taint"
  end.

End TaintSinks.

(** ** The meta-rules about contained sessions *)

Definition on_rule (filter rule_id : string) : MetaCondition := {|
  mc_filter := Some filter; mc_rule_id := Some rule_id; mc_matched := Some true;
  mc_call_type := None; mc_path_contains := None; mc_taint_source := None;
  mc_metadata_flag := None |}.

Definition contained_egress_taint_redundancy : MetaRule := {|
  mr_id := "contained-egress-taint-redundancy";
  mr_conditions := [on_rule "session-containment" "contained-network-egress";
                    on_rule "taint" "tainted-network-sink"];
  mr_score_override := None;
  mr_score_adjustment := Some (f64_of_Z (-3));
  mr_message := "Session containment and taint restate the same session history";
|}.

Definition contained_egress_burst_redundancy : MetaRule := {|
  mr_id := "contained-egress-burst-redundancy";
  mr_conditions := [on_rule "session-containment" "contained-network-egress";
                    on_rule "egress-rate" "egress-burst"];
  mr_score_override := None;
  mr_score_adjustment := Some (f64_of_Z (-4));
  mr_message := "Session containment already reviews every outbound call in this session";
|}.

(** ** The decision *)

Section Scores.
Context `{D : Deps} `{U : Unicode} `{!EgressDeps}.

(** The composite score. *)
Definition total (results : list FilterResult) (ctx : ToolCallContext) : f64 :=
  f64_add (aggregate results)
    (meta_evaluate [contained_egress_taint_redundancy; contained_egress_burst_redundancy] results ctx).

(** The decision as the engine's [finish] takes it without a clamp. *)
Definition decide_results (results : list FilterResult) (ctx : ToolCallContext) (t : Duration) :
    ProxyDecision :=
  route_decision (total results ctx) results SCORE_QUEUE_THRESHOLD SCORE_DENY_THRESHOLD t.

Lemma decide_queued results ctx t :
  f64_gt (total results ctx) SCORE_DENY_THRESHOLD = false →
  f64_gt (total results ctx) SCORE_QUEUE_THRESHOLD = true →
  pd_action (decide_results results ctx t) = Queue (queue_priority (total results ctx)).
Proof. unfold decide_results, route_decision. by intros -> ->. Qed.

Lemma decide_denied results ctx t :
  f64_gt (total results ctx) SCORE_DENY_THRESHOLD = true →
  is_denied (decide_results results ctx t) = true.
Proof. unfold decide_results, route_decision. by intros ->. Qed.

(** A connection that can leave the machine, or a request. *)
Definition leaves_machine (ctx : ToolCallContext) : Prop :=
  match ctx_call_type ctx with
  | HttpRequest _ _ => True
  | NetConnect address _ =>
      unix_socket_class ctx ≠ Some Control ∧ is_loopback_bind_address address = false
  | _ => False
  end.

(** ** Lemmas: each filter's contribution, up to texts and metadata *)

Lemma contained_network f ctx remaining :
  leaves_machine ctx →
  contained_result f ctx remaining =
  matched "session-containment" "contained-network-egress" (scf_network_score f)
    (severity_for (scf_network_score f)) (mk_message remaining "network egress").
Proof.
  unfold leaves_machine, contained_result. destruct (ctx_call_type ctx); try done.
  intros [Hc ->]. by rewrite bool_decide_false.
Qed.

Lemma network_baseline sessions enabled ctx :
  leaves_machine ctx →
  ∃ rule s severity message,
    operation_risk_evaluate sessions enabled ctx = matched "operation-risk" rule s severity message
    ∧ (s = f64_dec 5 1 ∨ s = f64_of_Z 1).
Proof.
  unfold leaves_machine, operation_risk_evaluate, operation_baseline.
  destruct (ctx_call_type ctx) as [| | | | | |method url| | | | |address port| | | | | | | |]; try done.
  - destruct (is_body_bearing_http_method method); eauto 10.
  - destruct (starts_with _ address); eauto 10.
Qed.

(** The egress policy's result at a known score. *)
Lemma egress_at_score F ctx s :
  fr_score (egress_policy_evaluate F ctx) = s →
  ∃ m rule severity message metadata,
    egress_policy_evaluate F ctx =
      {| fr_filter_name := "egress-policy"; fr_matched := m; fr_score := s; fr_rule_id := rule;
         fr_severity := severity; fr_message := message; fr_metadata := metadata |}
    ∧ (m = true ∨ s = f64_zero).
Proof.
  intros Hs. destruct (evaluate_well_scored F ctx) as (Hn & Hm & _).
  destruct (egress_policy_evaluate F ctx) as [n m s' rule sev msg md]. cbn in *. subst.
  eexists _, _, _, _, _. by split.
Qed.

(** A sink of a connection without high taint. *)
Lemma connect_sink to_uppercase level pid_level cats ctx address port :
  ctx_call_type ctx = NetConnect address port → leaves_machine ctx → level ≠ TaintHigh →
  taint_network_sink to_uppercase level pid_level cats false ctx = no_match "taint"
  ∨ ∃ message metadata, taint_network_sink to_uppercase level pid_level cats false ctx =
      {| fr_filter_name := "taint"; fr_matched := true; fr_score := f64_of_Z 3;
         fr_rule_id := "tainted-network-sink"; fr_severity := SevWarning; fr_message := message;
         fr_metadata := metadata |}.
Proof.
  unfold leaves_machine, taint_network_sink, taint_connect_sink, proximity_bonus, stamp_sources.
  intros Hcall. rewrite Hcall. intros [Hc ->].
  rewrite (bool_decide_eq_false_2 (unix_socket_class ctx = Some Control)) by done. cbn [orb].
  rewrite andb_false_r. intros Hl. destruct level; [by left| | |done]; right;
    cbn [fr_matched matched]; destruct cats; cbn; by eexists _, _.
Qed.

(** A burst, if there is one, at its fixed score. *)
Lemma check_burst_cases rate history candidate now :
  check_burst rate history candidate now = None
  ∨ ∃ message, check_burst rate history candidate now
               = Some (matched "egress-rate" "egress-burst" (f64_of_Z 4) SevError message).
Proof. unfold check_burst, er_matched. case_match; [right; by eexists|by left]. Qed.

(** ** Properties *)

(** C26: Containment alone queues an outbound call and does not deny it. With the egress
    policy in review mode, the default scores, thresholds and redundancy rules, and an
    egress score that is zero or the review score: a contained session's connection off
    the machine with any taint below high, or its HTTP request with no taint in effect,
    judged by operation risk, egress policy, the taint sink of the network, containment
    and an egress burst together, is queued, at critical priority when the egress policy
    asks for a review. A request with medium taint is not covered: it is denied
    (contained_request_denied). *)
Theorem contained_egress_reviewed F sessions enabled ctx remaining t to_uppercase level pid_level cats
    rate history candidate now
    (Hnet : leaves_machine ctx) (Hmode : ep_mode F = Review)
    (Hegress : fr_score (egress_policy_evaluate F ctx) = f64_zero
               ∨ fr_score (egress_policy_evaluate F ctx) = review_score F)
    (Htaint : match ctx_call_type ctx with
              | NetConnect _ _ => level ≠ TaintHigh | _ => level = TaintNone end) :
  let results :=
    [operation_risk_evaluate sessions enabled ctx; egress_policy_evaluate F ctx;
     taint_network_sink to_uppercase level pid_level cats false ctx;
     contained_result containment_defaults.1 ctx remaining;
     default (no_match "egress-rate") (check_burst rate history candidate now)] in
  ∃ p, pd_action (decide_results results ctx t) = Queue p
    ∧ (fr_score (egress_policy_evaluate F ctx) = review_score F → p = Critical).
Proof.
  cbv zeta. rewrite contained_network by done.
  generalize (mk_message remaining "network egress"); intros m.
  destruct (network_baseline sessions enabled ctx Hnet) as (rule & s & severity & message & -> & Hs).
  unfold review_score in *. rewrite Hmode in *.
  assert (Hsink : taint_network_sink to_uppercase level pid_level cats false ctx = no_match "taint"
    ∨ ∃ message metadata, taint_network_sink to_uppercase level pid_level cats false ctx =
      {| fr_filter_name := "taint"; fr_matched := true; fr_score := f64_of_Z 3;
         fr_rule_id := "tainted-network-sink"; fr_severity := SevWarning; fr_message := message;
         fr_metadata := metadata |}).
  { destruct (ctx_call_type ctx) eqn:Hcall; try by unfold leaves_machine in Hnet; rewrite Hcall in Hnet.
    - left. unfold taint_network_sink. rewrite Hcall, Htaint. reflexivity.
    - by eapply connect_sink. }
  assert (Hburst := check_burst_cases rate history candidate now).
  assert (He := egress_at_score F ctx _ eq_refl).
  destruct He as (em & er & es & emsg & emd & -> & Hm). cbn [fr_score] in *.
  destruct Hs as [-> | ->], Hegress as [He|He]; rewrite He in *;
    (destruct Hm as [-> |Hm]; [|try (by vm_compute in Hm); destruct em]);
    destruct Hsink as [-> |(tm & tmd & ->)], Hburst as [-> |[bm ->]];
    (eexists; split; [apply decide_queued; vm_compute; reflexivity|]);
    intros Hr; first [vm_compute; reflexivity|by vm_compute in Hr].
Qed.

(** A contained request is still charged for its history twice.  The
    redundancy rule names the rule of a tainted connection only; an HTTP request
    with medium taint carries another rule id, so a contained request to a
    destination under review is denied without asking, where the connection of
    [contained_egress_reviewed] is queued. *)
Theorem contained_request_denied F sessions enabled ctx method url remaining t to_uppercase pid_level cats
    (Hcall : ctx_call_type ctx = HttpRequest method url) (Hmode : ep_mode F = Review)
    (Hegress : fr_score (egress_policy_evaluate F ctx) = review_score F) :
  is_denied (decide_results
    [operation_risk_evaluate sessions enabled ctx; egress_policy_evaluate F ctx;
     taint_network_sink to_uppercase TaintMedium pid_level cats false ctx;
     contained_result containment_defaults.1 ctx remaining] ctx t) = true.
Proof.
  assert (Hnet : leaves_machine ctx) by by unfold leaves_machine; rewrite Hcall.
  rewrite contained_network by done. generalize (mk_message remaining "network egress"); intros m.
  destruct (network_baseline sessions enabled ctx Hnet) as (rule & s & severity & message & -> & Hs).
  unfold review_score in Hegress. rewrite Hmode in Hegress.
  destruct (egress_at_score F ctx _ Hegress) as (em & er & es & emsg & emd & -> & Hm).
  destruct Hm as [-> |Hm]; [|by vm_compute in Hm].
  unfold taint_network_sink, taint_http_sink, stamp_sources. rewrite Hcall.
  apply decide_denied.
  destruct Hs as [-> | ->], (is_high_risk_http_method to_uppercase method), cats; vm_compute; reflexivity.
Qed.

(** An outbound spawn of a contained session to a destination under review is
    denied without asking.  The network score was lowered so that the containment,
    the baseline and an unknown destination together stay below the denial
    threshold; the process score was not, and a program that can reach the network
    never has the routine baseline, so the same three add up to 8.5. *)
Theorem contained_spawn_denied F sessions enabled ctx command args prov remaining t
    (Hcall : ctx_call_type ctx = ProcessSpawn command args)
    (Hprov : ctx_spawn_provenance ctx = Some prov) (Hout : sp_is_outbound_capable prov = true)
    (Hmode : ep_mode F = Review)
    (Hegress : fr_score (egress_policy_evaluate F ctx) = review_score F) :
  is_denied (decide_results
    [operation_risk_evaluate sessions enabled ctx; egress_policy_evaluate F ctx;
     contained_result containment_defaults.1 ctx remaining] ctx t) = true.
Proof.
  assert (Hbase : has_routine_signal sessions ctx enabled = false).
  { unfold has_routine_signal, provenance_qualifies. rewrite Hprov, Hout.
    destruct enabled; [|done]. by destruct (sp_matched_routine_root prov). }
  unfold operation_risk_evaluate, operation_baseline, operation_risk_for_spawn, contained_result,
    spawn_is_outbound_capable. rewrite Hcall, Hbase, Hprov, Hout.
  unfold review_score in Hegress. rewrite Hmode in Hegress.
  destruct (egress_at_score F ctx _ Hegress) as (em & er & es & emsg & emd & -> & Hm).
  destruct Hm as [-> |Hm]; [|by vm_compute in Hm].
  apply decide_denied. vm_compute. reflexivity.
Qed.

(** A raw socket is never denied for being one.  The comment places its score
    well above the denial threshold, but seven and the baseline of a connection add
    up to 7.5: in every mode, with any configuration, the call is queued. *)
Theorem raw_socket_not_denied F sessions enabled ctx address port t
    (Hcall : ctx_call_type ctx = NetConnect address port) (Hraw : starts_with "raw:" address = true) :
  pd_action (decide_results [operation_risk_evaluate sessions enabled ctx; egress_policy_evaluate F ctx]
               ctx t) = Queue Critical.
Proof.
  unfold egress_policy_evaluate, evaluate_call, operation_risk_evaluate, operation_baseline.
  rewrite Hcall. unfold evaluate_net_connect. rewrite Hraw.
  destruct (starts_with "unix:" address); (etrans; [apply decide_queued; vm_compute; reflexivity|]);
    vm_compute; reflexivity.
Qed.

(** A loopback listener is scored.  The decision matrix lets a loopback bind
    pass silently, but the bind goes on to be judged as an outbound destination: on
    a port counted as unusual it scores above the review threshold. *)
Theorem loopback_listener_scored F ctx address port
    (Hcall : ctx_call_type ctx = NetListen address port)
    (Hraw : starts_with "raw:" address = false) (Hcontrol : unix_socket_class ctx ≠ Some Control)
    (Hloopback : is_loopback_bind_address address = true) (Hmode : ep_mode F = Review)
    (Hport : port ∈ ep_unusual_ports F ∧ port ∉ ep_blocked_ports F ∧ port ∉ ep_review_ports F) :
  let r := egress_policy_evaluate F ctx in
  fr_matched r = true ∧ f64_gt (fr_score r) SCORE_QUEUE_THRESHOLD = true.
Proof.
  cbv zeta. unfold egress_policy_evaluate, evaluate_call. rewrite Hcall.
  set (profile := mbind _ _). unfold evaluate_net_listen. rewrite Hraw, Hloopback.
  rewrite bool_decide_eq_false_2 by done.
  assert (Hu : evaluate_unusual_port F (parse_net_destination address port) "net_listen"
    = Some (ep_matched "unusual-port" (review_score F)
              ("Unusual outbound destination port from net_listen: " +:+ fmt_Z port))).
  { unfold evaluate_unusual_port. cbn. by rewrite decide_True by done. }
  rewrite Hu.
  pose proof (evaluate_destination_ok F (parse_net_destination address port) "net_listen" profile) as Hd.
  destruct (evaluate_destination F _ "net_listen" profile) as [r|] eqn:Er; cbn [select_higher_risk default].
  2:{ unfold review_score. rewrite Hmode. by split. }
  apply destination_signal_matched in Er as Hr. unfold review_score. rewrite Hmode.
  cbn [fr_score ep_matched matched].
  destruct (f64_gt (f64_dec 35 1) (fr_score r)) eqn:E; cbn [default]; unfold id; [by split|].
  split; [done|]. destruct Hd as (_ & _ & Hb). unfold in_bounds in Hb.
  rewrite !andb_true_iff in Hb. destruct Hb as [[Hc%comparable_b_spec _] _].
  apply f64_not_gt in E; [|by split|done].
  apply (f64_lt_le_trans _ (f64_dec 35 1)); [done|done|by destruct Hc|done|done].
Qed.

End Scores.
(** ** Witnesses *)

Module Example_scores.
#[local] Existing Instance concrete_deps.
#[local] Existing Instance ascii_unicode.
#[local] Existing Instance Example_command.example_deps.
Definition F : EgressPolicyFilter := Example_command.f.
Definition call (t : ToolCallType) : ToolCallContext := ToolCallContext_new uuid_a 0%Z "p" t uuid_b.
Definition connect : ToolCallContext := call (NetConnect "db.example.org" 5432).
Definition request : ToolCallContext := call (HttpRequest "GET" "https://db.example.org/x").
Definition raw : ToolCallContext := call (NetConnect "raw:AF_PACKET" 0).
Definition listen : ToolCallContext := call (NetListen "127.0.0.1" 8888).
Definition spawn : ToolCallContext := {|
  ctx_id := uuid_a; ctx_timestamp := 0%Z; ctx_plugin_id := "p";
  ctx_call_type := ProcessSpawn "curl" ["https://db.example.org/x"]; ctx_arguments := JNull;
  ctx_session_id := uuid_a; ctx_task_context := None; ctx_call_sequence_number := 0;
  ctx_source_taint := TaintNone; ctx_profile_name := None; ctx_conversation_id := None;
  ctx_session_scope := None;
  ctx_spawn_provenance := Some {| sp_canonical_path := "/usr/bin/curl"; sp_sha256 := "ab";
    sp_owner_uid := 0; sp_owner_gid := 0; sp_mode := 493; sp_component_writability := [];
    sp_matched_routine_root := Some "/usr/bin"; sp_is_outbound_capable := true |};
  ctx_listener_policy_match := None; ctx_bind_protocol := None |}.
Definition outgoing : EgressCandidate :=
  {| cand_is_egress := true; cand_routine := false; cand_host := None; cand_port := None |}.
End Example_scores.

(** The egress policy asks for a review of these calls. *)
Lemma example_scores_review :
  let D := concrete_deps in
  let U := ascii_unicode in
  let E := Example_command.example_deps in
  let score ctx := fr_score (egress_policy_evaluate Example_scores.F ctx) in
  score Example_scores.connect = review_score Example_scores.F
  ∧ score Example_scores.request = review_score Example_scores.F
  ∧ score Example_scores.spawn = review_score Example_scores.F.
Proof. intros D U E score. vm_compute. split_and!; reflexivity. Qed.

Lemma contained_egress_reviewed_witness :
  let D := concrete_deps in
  let U := ascii_unicode in
  let E := Example_command.example_deps in
  ∃ p, pd_action (decide_results
    [operation_risk_evaluate registry_new true Example_scores.connect;
     egress_policy_evaluate Example_scores.F Example_scores.connect;
     taint_network_sink to_ascii_uppercase TaintMedium None None false Example_scores.connect;
     contained_result containment_defaults.1 Example_scores.connect 10;
     default (no_match "egress-rate") (check_burst EgressRateConfig_default SessionEgressState_new
       Example_scores.outgoing 0)] Example_scores.connect 0) = Queue p
    ∧ (fr_score (egress_policy_evaluate Example_scores.F Example_scores.connect)
       = review_score Example_scores.F → p = Critical).
Proof.
  intros D U E.
  apply (@contained_egress_reviewed concrete_deps ascii_unicode Example_command.example_deps
    Example_scores.F registry_new true Example_scores.connect 10 0 to_ascii_uppercase TaintMedium None
    None EgressRateConfig_default SessionEgressState_new Example_scores.outgoing 0);
    [vm_compute; by split|reflexivity|right; apply example_scores_review|done].
Defined.

Lemma contained_request_denied_witness :
  let D := concrete_deps in
  let U := ascii_unicode in
  let E := Example_command.example_deps in
  is_denied (decide_results
    [operation_risk_evaluate registry_new true Example_scores.request;
     egress_policy_evaluate Example_scores.F Example_scores.request;
     taint_network_sink to_ascii_uppercase TaintMedium None None false Example_scores.request;
     contained_result containment_defaults.1 Example_scores.request 10] Example_scores.request 0) = true.
Proof.
  intros D U E.
  apply (@contained_request_denied concrete_deps ascii_unicode Example_command.example_deps
    Example_scores.F registry_new true Example_scores.request "GET" "https://db.example.org/x");
    [reflexivity|reflexivity|apply example_scores_review].
Defined.

Lemma contained_spawn_denied_witness :
  let D := concrete_deps in
  let U := ascii_unicode in
  let E := Example_command.example_deps in
  is_denied (decide_results
    [operation_risk_evaluate registry_new true Example_scores.spawn;
     egress_policy_evaluate Example_scores.F Example_scores.spawn;
     contained_result containment_defaults.1 Example_scores.spawn 10] Example_scores.spawn 0) = true.
Proof.
  intros D U E.
  eapply (@contained_spawn_denied concrete_deps ascii_unicode Example_command.example_deps
    Example_scores.F registry_new true Example_scores.spawn "curl" ["https://db.example.org/x"]);
    [reflexivity|reflexivity|reflexivity|reflexivity|apply example_scores_review].
Defined.

Lemma raw_socket_not_denied_witness :
  let D := concrete_deps in
  let U := ascii_unicode in
  let E := Example_command.example_deps in
  pd_action (decide_results
    [operation_risk_evaluate registry_new true Example_scores.raw;
     egress_policy_evaluate Example_scores.F Example_scores.raw] Example_scores.raw 0) = Queue Critical.
Proof.
  intros D U E.
  apply (@raw_socket_not_denied concrete_deps ascii_unicode Example_command.example_deps
    Example_scores.F registry_new true Example_scores.raw "raw:AF_PACKET" 0); reflexivity.
Defined.

Lemma loopback_listener_scored_witness :
  let D := concrete_deps in
  let U := ascii_unicode in
  let E := Example_command.example_deps in
  f64_gt (fr_score (egress_policy_evaluate Example_scores.F Example_scores.listen))
    SCORE_QUEUE_THRESHOLD = true.
Proof.
  intros D U E.
  apply (@loopback_listener_scored concrete_deps ascii_unicode Example_command.example_deps
    Example_scores.F Example_scores.listen "127.0.0.1" 8888);
    first [reflexivity|done].
Defined.
