(* ===== verification/OutboundBinaries.v ===== *)
(** * Programs that can move data off the host

    [crates/grith-proxy/src/filters/outbound_binaries.rs]: the curated registry of
    outbound-capable programs with the shapes of their arguments, the environment
    variables that hold secrets, and the scan of shell texts for references to
    variables and for assignments.  Resolving a path on the file system is the
    parameter [fs_canonicalize] of the one function that needs it. *)

From Stdlib Require Import Ascii String.
From S2P Require Import Prelude.

(** ** Shapes of arguments

    [argv] is the full vector, the program's name first. *)

Definition any_arg (p : string → bool) (argv : list string) : bool := existsb p argv.

Definition subcommand_in (verbs argv : list string) : bool :=
  match argv !! 1 with Some subcommand => str_mem subcommand verbs | None => false end.

Definition git_push_or_remote (argv : list string) : bool :=
  match argv !! 1 with
  | None => false
  | Some subcommand =>
      str_mem subcommand ["push"; "fetch"; "clone"; "ls-remote"; "remote-https"; "remote-http";
                          "send-pack"]
      || (String.eqb subcommand "archive" && any_arg (String.eqb "--remote") argv)
      || (String.eqb subcommand "config" && any_arg (String.eqb "--get-remote") argv)
  end.

Definition npm_install_remote_or_publish (argv : list string) : bool :=
  match argv !! 1 with
  | None => false
  | Some subcommand =>
      if String.eqb subcommand "publish" then true
      else if str_mem subcommand ["install"; "i"; "add"] then
        any_arg (λ a, String.eqb a "--registry" || String.eqb a "--index-url"
                      || starts_with "http://" a || starts_with "https://" a
                      || starts_with "git+" a || starts_with "github:" a) argv
      else false
  end.

Definition pip_install_remote (argv : list string) : bool :=
  match argv !! 1 with
  | None => false
  | Some subcommand =>
      if negb (String.eqb subcommand "install") then false
      else any_arg (λ a, String.eqb a "--index-url" || String.eqb a "--extra-index-url"
                         || starts_with "http://" a || starts_with "https://" a
                         || starts_with "git+" a) argv
  end.

Definition cargo_publish_or_remote_install (argv : list string) : bool :=
  match argv !! 1 with
  | None => false
  | Some subcommand =>
      if str_mem subcommand ["publish"; "yank"; "owner"] then true
      else if String.eqb subcommand "install" then
        any_arg (λ a, String.eqb a "--git" || starts_with "http" a) argv
      else false
  end.

Definition gem_push_or_remote_install (argv : list string) : bool :=
  match argv !! 1 with
  | None => false
  | Some subcommand =>
      if String.eqb subcommand "push" then true
      else if String.eqb subcommand "install" then any_arg (String.eqb "--source") argv
      else false
  end.

Definition go_remote_install : list string → bool := subcommand_in ["install"; "get"; "mod"].

Definition kubectl_outbound (argv : list string) : bool :=
  match argv !! 1 with
  | None => false
  | Some subcommand =>
      if str_mem subcommand ["cp"; "exec"; "attach"; "port-forward"; "proxy"] then true
      else if str_mem subcommand ["apply"; "create"; "replace"; "delete"] then
        any_arg (λ a, String.eqb a "-f" || starts_with "--filename=" a
                      || starts_with "http://" a || starts_with "https://" a) argv
      else false
  end.

Definition docker_push : list string → bool := subcommand_in ["push"; "pull"].

Definition composer_remote : list string → bool :=
  subcommand_in ["install"; "update"; "require"; "remove"; "create-project"; "publish"; "global";
                 "outdated"; "self-update"].

Definition skopeo_remote : list string → bool :=
  subcommand_in ["copy"; "inspect"; "sync"; "login"; "delete"; "list-tags"].

Definition hg_push : list string → bool := subcommand_in ["push"; "pull"; "clone"; "outgoing"].

Definition svn_remote : list string → bool :=
  subcommand_in ["commit"; "checkout"; "co"; "update"; "up"; "export"].

Definition gh_upload (argv : list string) : bool :=
  let next verbs := match argv !! 2 with Some verb => str_mem verb verbs | None => false end in
  match argv !! 1 with
  | None => false
  | Some top =>
      if String.eqb top "gist" then next ["create"; "edit"]
      else if String.eqb top "release" then next ["upload"; "create"]
      else if String.eqb top "api" then true
      else if String.eqb top "pr" then next ["create"; "edit"; "comment"]
      else if String.eqb top "issue" then next ["create"; "edit"; "comment"]
      else false
  end.

Definition shell_with_network_primitive (argv : list string) : bool :=
  if negb (any_arg (λ a, String.eqb a "-c" || String.eqb a "-C") (drop 1 argv)) then false
  else
    let combined := fold_left (λ acc s, acc +:+ s +:+ " ") (drop 1 argv) "" in
    contains "/dev/tcp/" combined || contains "/dev/udp/" combined
    || contains "exec 3<>" combined || contains "exec 5<>" combined
    || (contains "base64" combined && contains "curl" combined)
    || (contains "base64" combined && contains "wget" combined).

Definition interpreter_inline_code (argv : list string) : bool :=
  any_arg (λ a, str_mem a ["-c"; "-e"; "--eval"; "--exec"; "eval"]) (drop 1 argv).

Definition db_client_remote_host (argv : list string) : bool :=
  any_arg (λ arg,
    str_mem arg ["-h"; "--host"; "-host"]
    || match strip_prefix "--host=" arg with
       | Some stripped => negb (String.eqb stripped "")
       | None => false
       end
    || starts_with "mongodb://" arg || starts_with "mongodb+srv://" arg) argv.

(** ** The registry *)

Record OutboundBinaryRule := rule {
  canonical_paths : list string;
  requires_destination_arg : bool;
  argv_filter : option (list string → bool);
  justification : string;
}.

(** Generic network tools. *)
Definition generic_network_tools : list OutboundBinaryRule := [
  rule ["/usr/bin/curl"; "/usr/local/bin/curl"; "/opt/homebrew/bin/curl"; "/bin/curl"] true None
    "HTTP/HTTPS client; argv carries the destination URL";
  rule ["/usr/bin/wget"; "/usr/local/bin/wget"; "/opt/homebrew/bin/wget"; "/usr/bin/wget2"] true None
    "HTTP fetcher; argv carries the destination URL";
  rule ["/usr/bin/nc"; "/usr/bin/ncat"; "/usr/local/bin/nc"; "/usr/local/bin/ncat";
        "/bin/nc"] true None
    "netcat — raw socket I/O to any host:port";
  rule ["/usr/bin/socat"; "/usr/local/bin/socat"] true None
    "Bidirectional socket relay; argv carries source/dest";
  rule ["/usr/bin/aria2c"; "/usr/local/bin/aria2c"] true None
    "Multi-protocol downloader; argv carries URL";
  rule ["/usr/bin/lftp"; "/usr/bin/ftp"; "/usr/bin/tftp"] true None
    "FTP/TFTP clients with destination in argv";
  rule ["/usr/bin/http"; "/usr/local/bin/http"; "/usr/bin/httpie"; "/usr/local/bin/httpie"] true None
    "HTTPie — request CLI";
  rule ["/usr/bin/rclone"; "/usr/local/bin/rclone"] true None
    "Cloud storage sync — uploads files to remote";
  rule ["/usr/bin/kafkacat"; "/usr/local/bin/kafkacat"; "/usr/bin/kcat"] true None
    "Kafka producer/consumer — emits/reads from brokers";
  rule ["/usr/bin/mc"; "/usr/local/bin/mc"] true None
    "MinIO client — uploads to S3-compatible endpoints"
].

(** Remote shell / copy. *)
Definition remote_shell_copy : list OutboundBinaryRule := [
  rule ["/usr/bin/ssh"; "/usr/local/bin/ssh"; "/bin/ssh"] true None
    "ssh — interactive remote shell; argv carries user@host";
  rule ["/usr/bin/scp"; "/usr/local/bin/scp"; "/bin/scp"] true None
    "scp — file copy to remote host";
  rule ["/usr/bin/sftp"; "/usr/local/bin/sftp"] true None
    "sftp — interactive file transfer to remote";
  rule ["/usr/bin/rsync"; "/usr/local/bin/rsync"] true None
    "rsync — directory sync; with remote target exfils content";
  rule ["/usr/bin/mosh"; "/usr/local/bin/mosh"] true None
    "Mosh — mobile shell over UDP"
].

(** DNS. *)
Definition dns : list OutboundBinaryRule := [
  rule ["/usr/bin/nslookup"; "/usr/local/bin/nslookup"] true None
    "DNS lookup tool; resolves attacker-controlled names";
  rule ["/usr/bin/dig"; "/usr/local/bin/dig"] true None
    "DNS query tool; argv carries domain to resolve";
  rule ["/usr/bin/host"; "/usr/local/bin/host"] true None
    "DNS host-lookup CLI";
  rule ["/usr/bin/drill"; "/usr/bin/kdig"] true None
    "DNS query tools (ldns / knot variants)"
].

(** VCS push paths. *)
Definition vcs_push_paths : list OutboundBinaryRule := [
  rule ["/usr/bin/git"; "/usr/local/bin/git"; "/opt/homebrew/bin/git"] false (Some git_push_or_remote)
    "git push/fetch/clone with remote URL exfils repo content";
  rule ["/usr/bin/hg"; "/usr/local/bin/hg"] false (Some hg_push)
    "Mercurial push/pull/clone — same shape as git";
  rule ["/usr/bin/svn"; "/usr/local/bin/svn"] false (Some svn_remote)
    "Subversion commit/checkout/update reaches the server";
  rule ["/usr/bin/bzr"] true None
    "Bazaar VCS — push/pull to remote branch"
].

(** Forge CLIs. *)
Definition forge_clis : list OutboundBinaryRule := [
  rule ["/usr/bin/gh"; "/usr/local/bin/gh"; "/opt/homebrew/bin/gh"] false (Some gh_upload)
    "GitHub CLI — gist/release uploads + api hits GitHub";
  rule ["/usr/bin/glab"; "/usr/local/bin/glab"] false None
    "GitLab CLI — all subcommands talk to a GitLab host";
  rule ["/usr/bin/bb"] false None
    "Bitbucket CLI (Debian package path) — talks to Bitbucket";
  rule ["/usr/local/bin/tea"; "/root/go/bin/tea"] false None
    "Gitea CLI (go-installed paths only — /usr/bin/tea is a text editor)"
].

(** Cloud CLIs. *)
Definition cloud_clis : list OutboundBinaryRule := [
  rule ["/usr/bin/aws"; "/usr/local/bin/aws"; "/opt/homebrew/bin/aws"] false None
    "AWS CLI — every subcommand hits AWS endpoints";
  rule ["/usr/bin/gcloud"; "/usr/local/bin/gcloud"; "/usr/lib/google-cloud-sdk/bin/gcloud"] false None
    "Google Cloud CLI — every subcommand hits GCP";
  rule ["/usr/bin/gsutil"; "/usr/local/bin/gsutil"] false None
    "Google Cloud Storage CLI — uploads/lists buckets";
  rule ["/usr/bin/bq"; "/usr/local/bin/bq"] false None
    "BigQuery CLI — queries / loads send data to GCP";
  rule ["/usr/bin/az"; "/usr/local/bin/az"; "/opt/az/bin/az"] false None
    "Azure CLI — every subcommand hits Azure endpoints";
  rule ["/usr/bin/oci"; "/usr/local/bin/oci"] false None
    "Oracle Cloud CLI";
  rule ["/usr/bin/doctl"; "/usr/local/bin/doctl"] false None
    "DigitalOcean CLI — uploads/manages droplets";
  rule ["/usr/bin/s3cmd"; "/usr/local/bin/s3cmd"] false None
    "Legacy S3 client";
  rule ["/usr/bin/b2"; "/usr/local/bin/b2"] false None
    "Backblaze B2 CLI"
].

(** Container / orchestrator push paths. *)
Definition container_push_paths : list OutboundBinaryRule := [
  rule ["/usr/bin/docker"; "/usr/local/bin/docker"] false (Some docker_push)
    "docker push/pull exfils container image layers";
  rule ["/usr/bin/podman"; "/usr/local/bin/podman"] false (Some docker_push)
    "podman push — same shape as docker push";
  rule ["/usr/bin/buildah"; "/usr/local/bin/buildah"] false (Some docker_push)
    "buildah push — image registry exfil";
  rule ["/usr/bin/skopeo"; "/usr/local/bin/skopeo"] false (Some skopeo_remote)
    "skopeo copy/inspect/sync/login — image transport";
  rule ["/usr/bin/helm"; "/usr/local/bin/helm"] false None
    "Helm push/install talks to chart repos / kube API";
  rule ["/usr/bin/kubectl"; "/usr/local/bin/kubectl"] false (Some kubectl_outbound)
    "kubectl cp/exec/proxy/apply -f <url> — egress shapes"
].

(** Package managers (publish or install-from-remote). *)
Definition package_managers : list OutboundBinaryRule := [
  rule ["/usr/bin/npm"; "/usr/local/bin/npm"] false (Some npm_install_remote_or_publish)
    "npm publish, npm install --registry/--index-url/<url>";
  rule ["/usr/bin/pnpm"; "/usr/local/bin/pnpm"] false (Some npm_install_remote_or_publish)
    "pnpm — same publish/remote-install shape as npm";
  rule ["/usr/bin/yarn"; "/usr/local/bin/yarn"] false (Some npm_install_remote_or_publish)
    "yarn — same publish/remote-install shape as npm";
  rule ["/usr/bin/pip"; "/usr/bin/pip3"; "/usr/local/bin/pip"] false (Some pip_install_remote)
    "pip install --index-url / git+ / http URLs";
  rule ["/usr/bin/cargo"; "/usr/local/bin/cargo"] false (Some cargo_publish_or_remote_install)
    "cargo publish; cargo install --git";
  rule ["/usr/bin/gem"; "/usr/local/bin/gem"] false (Some gem_push_or_remote_install)
    "gem push; gem install --source";
  rule ["/usr/bin/go"; "/usr/local/go/bin/go"; "/usr/local/bin/go"] false (Some go_remote_install)
    "go install/get with vcs path — pulls remote";
  rule ["/usr/bin/composer"; "/usr/local/bin/composer"] false (Some composer_remote)
    "composer install/update/require — reaches packagist"
].

(** Database clients with remote host. *)
Definition database_clients : list OutboundBinaryRule := [
  rule ["/usr/bin/psql"; "/usr/local/bin/psql"] false (Some db_client_remote_host)
    "psql -h <host> — remote PostgreSQL session";
  rule ["/usr/bin/mysql"; "/usr/local/bin/mysql"] false (Some db_client_remote_host)
    "mysql -h <host> — remote MySQL session";
  rule ["/usr/bin/mysqldump"; "/usr/local/bin/mysqldump"] false (Some db_client_remote_host)
    "mysqldump -h <host> — exfils tables";
  rule ["/usr/bin/redis-cli"; "/usr/local/bin/redis-cli"] false (Some db_client_remote_host)
    "redis-cli -h <host>";
  rule ["/usr/bin/mongo"; "/usr/local/bin/mongo"; "/usr/bin/mongosh";
        "/usr/local/bin/mongosh"] false (Some db_client_remote_host)
    "mongo / mongosh with mongodb:// URI";
  rule ["/usr/bin/cqlsh"; "/usr/local/bin/cqlsh"] true None
    "Cassandra CLI — positional <host> argument";
  rule ["/usr/bin/clickhouse-client"; "/usr/local/bin/clickhouse-client"] false (Some db_client_remote_host)
    "clickhouse-client --host <h>";
  rule ["/usr/bin/influx"; "/usr/local/bin/influx"] false (Some db_client_remote_host)
    "influx -host <h>"
].

(** Mail / messaging. *)
Definition mail_messaging : list OutboundBinaryRule := [
  rule ["/usr/bin/mail"; "/usr/bin/mailx"; "/usr/bin/s-nail"; "/usr/bin/sendmail";
        "/usr/sbin/sendmail"; "/usr/bin/msmtp"; "/usr/bin/mutt"] false None
    "MTAs / mail CLIs — body content reaches the recipient";
  rule ["/usr/bin/swaks"; "/usr/local/bin/swaks"] false None
    "SMTP swiss army knife";
  rule ["/usr/local/bin/slack-cli"; "/usr/bin/slack-cli"] false None
    "Slack message-posting CLI"
].

(** Browsers / headless. *)
Definition browsers_headless : list OutboundBinaryRule := [
  rule ["/usr/bin/firefox"; "/usr/lib/firefox/firefox"; "/usr/local/bin/firefox"] false None
    "Firefox — opens URLs, can be driven headless";
  rule ["/usr/bin/chromium"; "/usr/bin/google-chrome"; "/usr/bin/chrome";
        "/opt/google/chrome/google-chrome"] false None
    "Chrome/Chromium — supports --headless --dump-dom <url>";
  rule ["/usr/local/bin/playwright"; "/usr/bin/playwright"] false None
    "Playwright headless browser driver"
].

(** Language interpreters with inline-code shapes. *)
Definition language_interpreters : list OutboundBinaryRule := [
  rule ["/usr/bin/python"; "/usr/bin/python3"; "/usr/bin/python3.9"; "/usr/bin/python3.10";
        "/usr/bin/python3.11"; "/usr/bin/python3.12"; "/usr/bin/python3.13";
        "/usr/bin/python3.14"; "/usr/local/bin/python"; "/usr/local/bin/python3";
        "/usr/local/bin/python3.9"; "/usr/local/bin/python3.10";
        "/usr/local/bin/python3.11"; "/usr/local/bin/python3.12";
        "/usr/local/bin/python3.13"; "/usr/local/bin/python3.14";
        "/opt/homebrew/bin/python3"; "/opt/homebrew/bin/python3.9";
        "/opt/homebrew/bin/python3.10"; "/opt/homebrew/bin/python3.11";
        "/opt/homebrew/bin/python3.12"; "/opt/homebrew/bin/python3.13"] false (Some interpreter_inline_code)
    "python -c '<arbitrary code>' can build any destination";
  rule ["/usr/bin/ruby"; "/usr/local/bin/ruby"] false (Some interpreter_inline_code)
    "ruby -e '<arbitrary code>'";
  rule ["/usr/bin/perl"; "/usr/local/bin/perl"] false (Some interpreter_inline_code)
    "perl -e '<arbitrary code>'";
  rule ["/usr/bin/node"; "/usr/local/bin/node"; "/opt/homebrew/bin/node"] false (Some interpreter_inline_code)
    "node -e '<arbitrary code>'";
  rule ["/usr/bin/deno"; "/usr/local/bin/deno"] false (Some interpreter_inline_code)
    "deno eval / deno -e";
  rule ["/usr/bin/bun"; "/usr/local/bin/bun"] false (Some interpreter_inline_code)
    "bun -e '<arbitrary code>'";
  rule ["/usr/bin/php"; "/usr/local/bin/php"] false (Some interpreter_inline_code)
    "php -r '<arbitrary code>'";
  rule ["/usr/bin/Rscript"; "/usr/local/bin/Rscript"] false (Some interpreter_inline_code)
    "Rscript -e '<arbitrary code>'";
  rule ["/usr/bin/lua"; "/usr/local/bin/lua"] false (Some interpreter_inline_code)
    "lua -e '<arbitrary code>'";
  rule ["/usr/bin/julia"; "/usr/local/bin/julia"] false (Some interpreter_inline_code)
    "julia -e '<arbitrary code>'";
  rule ["/usr/bin/osascript"] false (Some interpreter_inline_code)
    "macOS osascript -e '<arbitrary AppleScript>'"
].

(** Shells with network primitives. *)
Definition shells_with_network_primitives : list OutboundBinaryRule := [
  rule ["/bin/bash"; "/usr/bin/bash"; "/usr/local/bin/bash"] false (Some shell_with_network_primitive)
    "bash -c '<command>' with /dev/tcp/, exec 3<>, etc.";
  rule ["/bin/sh"; "/usr/bin/sh"] false (Some shell_with_network_primitive)
    "sh -c '<command>' with embedded network primitives";
  rule ["/bin/zsh"; "/usr/bin/zsh"; "/usr/local/bin/zsh"] false (Some shell_with_network_primitive)
    "zsh -c '<command>' with embedded network primitives";
  rule ["/usr/bin/dash"; "/bin/dash"] false (Some shell_with_network_primitive)
    "dash -c '<command>' with embedded network primitives";
  rule ["/bin/ksh"; "/usr/bin/ksh"] false (Some shell_with_network_primitive)
    "ksh -c '<command>' with embedded network primitives";
  rule ["/usr/bin/fish"; "/usr/local/bin/fish"] false (Some shell_with_network_primitive)
    "fish -c '<command>' with embedded network primitives"
].

Definition OUTBOUND_CAPABLE_BINARIES : list OutboundBinaryRule :=
  generic_network_tools ++ remote_shell_copy ++ dns ++ vcs_push_paths ++ forge_clis ++ cloud_clis ++ container_push_paths ++ package_managers ++ database_clients ++ mail_messaging ++ browsers_headless ++ language_interpreters ++ shells_with_network_primitives.

(** ** Classification *)

Inductive Classification :=
  | Outbound (destination_required : bool)
  | Routine
  | Unknown.

#[export] Instance Classification_eq_dec : EqDecision Classification.
Proof. solve_decision. Defined.

(** The loop over the registry: the first rule that lists the path decides. *)
Fixpoint classify_in (rules : list OutboundBinaryRule) (path_str : string) (argv : list string) :
    Classification :=
  match rules with
  | [] => Routine
  | r :: rules' =>
      if negb (str_mem path_str (canonical_paths r)) then classify_in rules' path_str argv
      else
        let matches := match argv_filter r with Some f => f argv | None => true end in
        if matches then Outbound (requires_destination_arg r) else Routine
  end.

(** A path that is not text is the empty text here ([to_str().unwrap_or_default]). *)
Definition classify_binary (path_str : string) (argv : list string) : Classification :=
  if String.eqb path_str "" then Unknown
  else classify_in OUTBOUND_CAPABLE_BINARIES path_str argv.

Definition canonicalise_spawn_target (fs_canonicalize : string → option string)
    (raw_path : string) : option string :=
  if String.eqb raw_path "" then None else fs_canonicalize raw_path.

(** ** Secrets in the environment *)

Definition CANONICAL_SECRET_ENV_VARS : list string :=
  ["OPENAI_API_KEY"; "ANTHROPIC_API_KEY"; "GOOGLE_API_KEY"; "GEMINI_API_KEY";
   "MISTRAL_API_KEY"; "COHERE_API_KEY"; "GROQ_API_KEY"; "OPENROUTER_API_KEY";
   "AWS_SECRET_ACCESS_KEY"; "AWS_SESSION_TOKEN"; "AWS_ACCESS_KEY_ID";
   "GOOGLE_APPLICATION_CREDENTIALS"; "GCLOUD_TOKEN"; "AZURE_CLIENT_SECRET";
   "GITHUB_TOKEN"; "GH_TOKEN"; "GITLAB_TOKEN"; "BITBUCKET_TOKEN"; "STRIPE_SECRET_KEY";
   "STRIPE_API_KEY"; "TWILIO_AUTH_TOKEN"; "SENDGRID_API_KEY"; "DATABASE_URL"; "DB_URL";
   "POSTGRES_PASSWORD"; "MYSQL_PASSWORD"; "MONGO_URL"; "REDIS_URL"; "NPM_TOKEN";
   "PYPI_TOKEN"; "CARGO_REGISTRY_TOKEN"; "DOCKER_PASSWORD"; "DOCKERHUB_TOKEN"].

Definition is_canonical_secret_env_var (name : string) : bool :=
  str_mem name CANONICAL_SECRET_ENV_VARS.

(** *** References in a shell text *)

Definition is_alphabetic (c : ascii) : bool :=
  let n := N_of_ascii c in ((65 <=? n) && (n <=? 90) || (97 <=? n) && (n <=? 122))%N.
Definition is_digit (c : ascii) : bool :=
  let n := N_of_ascii c in ((48 <=? n) && (n <=? 57))%N.
Definition is_alphanumeric (c : ascii) : bool := is_alphabetic c || is_digit c.
Definition name_start (c : ascii) : bool := is_alphabetic c || ascii_eqb c "_"%char.
Definition name_char (c : ascii) : bool := is_alphanumeric c || ascii_eqb c "_"%char.

(** The longest prefix of characters of a kind, and the rest. *)
Fixpoint span (p : ascii → bool) (s : string) : string * string :=
  match s with
  | EmptyString => ("", "")
  | String c s' =>
      if p c then let '(a, b) := span p s' in (String c a, b) else ("", s)
  end.

(** A name at the head: [None] if the first character cannot start one. *)
Definition take_name (s : string) : option string * string :=
  match s with
  | String c s' =>
      if name_start c then let '(a, b) := span name_char s' in (Some (String c a), b) else (None, s)
  | EmptyString => (None, s)
  end.

(** Past the closing brace, or to the end. *)
Fixpoint skip_brace (s : string) : string :=
  match s with
  | EmptyString => EmptyString
  | String c s' => if ascii_eqb c "}"%char then s' else skip_brace s'
  end.

(** The loop on the index; each turn takes at least a byte. *)
Fixpoint env_refs_loop (fuel : nat) (s : string) : list string :=
  match fuel, s with
  | S fuel', String c s' =>
      if negb (ascii_eqb c "$"%char) then env_refs_loop fuel' s'
      else
        let '(braced, s1) :=
          match strip_prefix "{" s' with Some s1 => (true, s1) | None => (false, s') end in
        let '(name, s2) := take_name s1 in
        let s3 := if braced : bool then skip_brace s2 else s2 in
        option_list name ++ env_refs_loop fuel' s3
  | _, _ => []
  end.

Definition extract_env_var_refs (token : string) : list string :=
  env_refs_loop (String.length token) token.

(** *** Assignments *)

(** [split] with a set of characters. *)
Fixpoint split_if (p : ascii → bool) (s : string) : list string :=
  match s with
  | EmptyString => [EmptyString]
  | String c s' =>
      if p c then EmptyString :: split_if p s'
      else
        match split_if p s' with
        | w :: l => String c w :: l
        | [] => [String c EmptyString]
        end
  end.

Definition statement_separator (c : ascii) : bool :=
  ascii_eqb c ";"%char || ascii_eqb c "010"%char || ascii_eqb c "&"%char || ascii_eqb c "|"%char.

Definition quote_mark : string := String "034" "".

Definition strip_keyword (chunk : string) : string :=
  let after k := strip_prefix k chunk in
  match after "export " with
  | Some c => trim c
  | None =>
      match after "declare " with
      | Some c => trim c
      | None =>
          match after "readonly " with
          | Some c => trim c
          | None => match after "local " with Some c => trim c | None => chunk end
          end
      end
  end.

(** [trim_end_matches] of one character. *)
Definition unquote (rhs : string) : string :=
  trim_end_char "'" (trim_start_matches "'" (trim_end_char "034" (trim_start_matches quote_mark rhs))).

Definition target_ok (lhs : string) : bool :=
  negb (String.eqb lhs "") && str_all name_char lhs
  && match lhs with String c _ => negb (is_digit c) | EmptyString => true end.

Definition assignment_of (chunk : string) : option (string * list string) :=
  '(lhs, rhs) ← split_once "=" (strip_keyword (trim chunk));
  if negb (target_ok lhs) then None
  else
    match extract_env_var_refs (unquote (trim rhs)) with
    | [] => None
    | sources => Some (lhs, sources)
    end.

Definition extract_var_assignments (command : string) : list (string * list string) :=
  omap assignment_of (split_if statement_separator command).

(** ** Lemmas *)

#[local] Arguments String.append !_ _ / : simpl nomatch.

Lemma span_length p s : let '(a, b) := span p s in (String.length b <= String.length s).
Proof.
  induction s as [|c s IH]; cbn; [done|]. destruct (p c); [|done].
  destruct (span p s) as [a b]. cbn in *. lia.
Qed.

Lemma take_name_length s : String.length (take_name s).2 <= String.length s.
Proof.
  destruct s as [|c s]; cbn; [done|]. destruct (name_start c); [|done].
  pose proof (span_length name_char s). destruct (span name_char s). cbn in *. lia.
Qed.

Lemma skip_brace_length s : String.length (skip_brace s) <= String.length s.
Proof. induction s as [|c s IH]; cbn; [done|]. destruct (ascii_eqb c "}"); lia. Qed.

Lemma strip_brace_length s s1 : strip_prefix "{" s = Some s1 → String.length s1 <= String.length s.
Proof. intros ->%strip_prefix_Some. rewrite length_append. lia. Qed.

Lemma env_refs_fuel n s :
  String.length s <= n → env_refs_loop n s = extract_env_var_refs s.
Proof.
  unfold extract_env_var_refs. remember (String.length s) as m eqn:Hm.
  assert (Hle : String.length s <= m) by lia. clear Hm. intros Hn. revert n s Hn Hle.
  induction m as [|m IH]; intros [|n] [|c s] Hn Hle; cbn in Hle; try (lia || done). cbn [env_refs_loop].
  destruct (negb (ascii_eqb c "$")); [apply IH; lia|].
  destruct (strip_prefix "{" s) as [s1|] eqn:E.
  - apply strip_brace_length in E. pose proof (take_name_length s1) as Ht.
    destruct (take_name s1) as [name s2]. cbn in Ht. pose proof (skip_brace_length s2).
    f_equal. apply IH; lia.
  - pose proof (take_name_length s) as Ht. destruct (take_name s) as [name s2]. cbn in Ht.
    f_equal. apply IH; lia.
Qed.

Lemma span_app p a b :
  str_all p a = true → match b with String c _ => p c = false | _ => True end →
  span p (a +:+ b) = (a, b).
Proof.
  intros Ha Hb. induction a as [|c a IH]; cbn in *.
  - destruct b as [|c b]; [done|]. cbn. by rewrite Hb.
  - apply andb_prop in Ha as [Hc Ha]. cbn. by rewrite Hc, (IH Ha).
Qed.

Lemma skip_brace_app s t : lacks "}" s = true → skip_brace (s +:+ String "}" t) = t.
Proof.
  induction s as [|c s IH]; cbn; [done|]. intros [Hc Hs]%andb_prop.
  apply negb_true_iff in Hc. rewrite Hc. by apply IH.
Qed.

(** ** Properties *)

(** A shell text in pieces: literal text, [$NAME] and [${NAME...}]. *)
Inductive text_piece :=
  | Literal (text : string)
  | Ref (name : string)
  | Braced (name modifier : string).

Definition show_piece (p : text_piece) : string :=
  match p with
  | Literal text => text
  | Ref name => String "$" name
  | Braced name modifier => "${" +:+ name +:+ modifier +:+ "}"
  end.

Definition show_pieces (l : list text_piece) : string := fold_right (λ p s, show_piece p +:+ s) "" l.

Definition piece_name (p : text_piece) : option string :=
  match p with Literal _ => None | Ref name | Braced name _ => Some name end.

Definition name_ok (name : string) : bool :=
  match name with String c s => name_start c && str_all name_char s | EmptyString => false end.

(** What follows a name does not extend it. *)
Definition ends_name (s : string) : bool :=
  match s with String c _ => negb (name_char c) | EmptyString => true end.

Fixpoint pieces_ok (l : list text_piece) : bool :=
  match l with
  | [] => true
  | p :: l' =>
      match p with
      | Literal text => lacks "$" text
      | Ref name => name_ok name && ends_name (show_pieces l')
      | Braced name modifier => name_ok name && ends_name modifier && lacks "}" modifier
      end && pieces_ok l'
  end.

Lemma take_name_app name s : name_ok name = true → ends_name s = true → take_name (name +:+ s) = (Some name, s).
Proof.
  destruct name as [|c name]; [done|]. cbn. intros [Hc Hn]%andb_prop Hs. rewrite Hc.
  rewrite (span_app name_char name s); [done|done|]. destruct s; [done|]. by apply negb_true_iff.
Qed.

Lemma refs_literal text s :
  lacks "$" text = true → extract_env_var_refs (text +:+ s) = extract_env_var_refs s.
Proof.
  induction text as [|c text IH]; [done|]. cbn [lacks]. intros [Hc Ht]%andb_prop.
  unfold extract_env_var_refs. cbn. rewrite Hc. rewrite env_refs_fuel by done. by apply IH.
Qed.

Lemma refs_dollar s :
  extract_env_var_refs (String "$" s) =
    let '(braced, s1) :=
      match strip_prefix "{" s with Some s1 => (true, s1) | None => (false, s) end in
    let '(name, s2) := take_name s1 in
    option_list name ++ extract_env_var_refs (if braced : bool then skip_brace s2 else s2).
Proof.
  unfold extract_env_var_refs at 1. cbn [String.length env_refs_loop].
  cbn [ascii_eqb Ascii.eqb Bool.eqb negb].
  destruct (strip_prefix "{" s) as [s1|] eqn:E.
  - apply strip_brace_length in E. pose proof (take_name_length s1) as Ht.
    destruct (take_name s1) as [name s2]. cbn in Ht. pose proof (skip_brace_length s2).
    f_equal. apply env_refs_fuel. lia.
  - pose proof (take_name_length s) as Ht. destruct (take_name s) as [name s2]. cbn in Ht.
    f_equal. by apply env_refs_fuel.
Qed.

Lemma refs_ref name s :
  name_ok name = true → ends_name s = true →
  extract_env_var_refs (String "$" name +:+ s) = name :: extract_env_var_refs s.
Proof.
  intros Hn Hs. pose proof (take_name_app _ _ Hn Hs) as Ht.
  assert (Hb : strip_prefix "{" (name +:+ s) = None).
  { destruct name as [|c name]; [done|]. cbn -[ascii_eqb] in Hn |- *. apply andb_prop in Hn as [Hc _].
    destruct (ascii_eqb "{" c) eqn:E; [|done]. apply Ascii.eqb_eq in E as <-. done. }
  change (String "$" name +:+ s) with (String "$" (name +:+ s)). by rewrite refs_dollar, Hb, Ht.
Qed.

Lemma refs_braced name modifier s :
  name_ok name = true → ends_name modifier = true → lacks "}" modifier = true →
  extract_env_var_refs (("${" +:+ name +:+ modifier +:+ "}") +:+ s) = name :: extract_env_var_refs s.
Proof.
  intros Hn He Hm.
  assert (Ht : take_name (name +:+ (modifier +:+ String "}" s)) = (Some name, modifier +:+ String "}" s)).
  { apply take_name_app; [done|]. destruct modifier; [done|]. apply He. }
  replace (("${" +:+ name +:+ modifier +:+ "}") +:+ s)
    with (String "$" (String "{" (name +:+ (modifier +:+ String "}" s)))) by (cbn; by rewrite !append_assoc).
  rewrite refs_dollar. cbn [strip_prefix]. cbn [ascii_eqb Ascii.eqb Bool.eqb].
  by rewrite Ht, skip_brace_app.
Qed.

(** The references of a shell text are found, each once and in order, whatever
    their form and whatever the text around them; and inside the braces of a
    reference nothing is looked at: a secret named only in the default of another
    variable ([${X:-$SECRET}]) is not found. *)
Theorem env_refs_exact l (Hok : pieces_ok l = true) :
  extract_env_var_refs (show_pieces l) = omap piece_name l.
Proof.
  induction l as [|p l IH]; [done|]. cbn [pieces_ok] in Hok.
  apply andb_prop in Hok as [Hp Hl]. specialize (IH Hl).
  change (show_pieces (p :: l)) with (show_piece p +:+ show_pieces l). cbn [omap list_omap].
  destruct p as [text|name|name modifier]; cbn [show_piece piece_name].
  - by rewrite refs_literal.
  - apply andb_prop in Hp as [Hn He]. rewrite (refs_ref name) by done. by rewrite IH.
  - apply andb_prop in Hp as [[Hn He]%andb_prop Hm]. rewrite refs_braced by done. by rewrite IH.
Qed.

(** No path is listed twice. *)
Lemma registry_paths_NoDup : NoDup (OUTBOUND_CAPABLE_BINARIES ≫= canonical_paths).
Proof. apply (bool_decide_unpack _). vm_compute. exact I. Qed.

Lemma classify_in_absent rules p argv :
  p ∉ rules ≫= canonical_paths → classify_in rules p argv = Routine.
Proof.
  induction rules as [|r rules IH]; [done|]. cbn. rewrite elem_of_app. intros Hp.
  destruct (str_mem p (canonical_paths r)) eqn:E; cbn.
  - apply str_mem_spec in E. tauto.
  - apply IH. tauto.
Qed.

Lemma classify_in_exact rules p argv r :
  NoDup (rules ≫= canonical_paths) → r ∈ rules → p ∈ canonical_paths r →
  classify_in rules p argv =
    if match argv_filter r with Some f => f argv | None => true end
    then Outbound (requires_destination_arg r) else Routine.
Proof.
  intros Hnd Hr Hp. induction rules as [|r' rules IH]; [by apply not_elem_of_nil in Hr|].
  cbn in Hnd |- *. apply NoDup_app in Hnd as (_ & Hdisj & Hnd).
  apply elem_of_cons in Hr as [<-|Hr].
  - apply str_mem_spec in Hp. by rewrite Hp.
  - destruct (str_mem p (canonical_paths r')) eqn:E; cbn; [|by apply IH].
    apply str_mem_spec in E. destruct (Hdisj p E). apply list_elem_of_bind. eauto.
Qed.

(** The classification is the rule of the path: on the registry, in any order
    of its rows, a path some rule lists is outbound exactly when the shape of the
    arguments is that rule's, with its demand for a destination; any other path that
    resolved is routine, and only a path without a text is unknown. *)
Theorem classify_by_rule rules path_str argv (Hperm : rules ≡ₚ OUTBOUND_CAPABLE_BINARIES)
    (Hpath : path_str ≠ "") :
  classify_in rules path_str argv = classify_binary path_str argv
  ∧ (∀ r, r ∈ OUTBOUND_CAPABLE_BINARIES → path_str ∈ canonical_paths r →
     classify_binary path_str argv =
       if match argv_filter r with Some f => f argv | None => true end
       then Outbound (requires_destination_arg r) else Routine)
  ∧ (path_str ∉ OUTBOUND_CAPABLE_BINARIES ≫= canonical_paths →
     classify_binary path_str argv = Routine)
  ∧ classify_binary "" argv = Unknown.
Proof.
  unfold classify_binary. destruct (String.eqb_spec path_str "") as [|_]; [done|].
  assert (Hnd : NoDup (rules ≫= canonical_paths)).
  { rewrite Hperm. apply registry_paths_NoDup. }
  split; [|split; [|split; [apply classify_in_absent|done]]].
  - destruct (decide (path_str ∈ rules ≫= canonical_paths)) as [Hin|Hout].
    + apply list_elem_of_bind in Hin as (r & Hp & Hr). rewrite (classify_in_exact _ _ _ r Hnd Hr Hp).
      symmetry. apply classify_in_exact; [apply registry_paths_NoDup|by rewrite <- Hperm|done].
    + rewrite (classify_in_absent rules) by done. symmetry. apply classify_in_absent. by rewrite <- Hperm.
  - intros r Hr Hp. by apply classify_in_exact; [apply registry_paths_NoDup|..].
Qed.

(** ** Witnesses *)

Module Example_outbound.

(** Small cases. *)
Example refs_of_tests :
  map extract_env_var_refs
    ["$FOO"; "${FOO}"; "a$FOO/b${BAR}c"; "${FOO:-default}"; "$1 $$ $?"; "no refs"; "${#FOO}"]
  = [["FOO"]; ["FOO"]; ["FOO"; "BAR"]; ["FOO"]; []; []; []].
Proof. vm_compute. reflexivity. Qed.

Example assignments_of_tests :
  map extract_var_assignments
    ["FOO=$OPENAI_API_KEY"; "export FOO=${BAR}; curl $FOO"; "A=$X$Y"; "1A=$X"; "ls -la"; "A=plain"]
  = [[("FOO", ["OPENAI_API_KEY"])]; [("FOO", ["BAR"])]; [("A", ["X"; "Y"])]; []; []; []].
Proof. vm_compute. reflexivity. Qed.

(** Only the first assignment of a declaration is seen, under the wrong name for the
    second value, and an appending assignment is not seen. *)
Example assignments_missed :
  map extract_var_assignments ["export A=1 B=$SECRET"; "A+=$SECRET"; "declare -x B=$SECRET"]
  = [[("A", ["SECRET"])]; []; []].
Proof. vm_compute. reflexivity. Qed.

Example classifications :
  map (λ '(p, argv), classify_binary p argv)
    [("/usr/bin/curl", ["curl"; "https://e.com"]); ("/usr/bin/git", ["git"; "status"]);
     ("/usr/bin/git", ["git"; "push"]); ("/usr/bin/locale", ["locale"]);
     ("/usr/bin/gh", ["gh"; "pr"; "view"]); ("/usr/bin/python3.12", ["python3"; "-c"; "x"])]
  = [Outbound true; Routine; Outbound false; Routine; Routine; Outbound false].
Proof. vm_compute. reflexivity. Qed.

(** The row of [php] has a filter that knows no flag of [php]: inline code is given
    with [-r]. *)
Example php_inline_missed : classify_binary "/usr/bin/php" ["php"; "-r"; "code"] = Routine.
Proof. vm_compute. reflexivity. Qed.

Definition text : list text_piece :=
  [Literal "curl -H "; Ref "TOKEN"; Literal " "; Braced "URL" ":-$OPENAI_API_KEY"].

End Example_outbound.

Lemma env_refs_exact_witness :
  extract_env_var_refs "curl -H $TOKEN ${URL:-$OPENAI_API_KEY}" = ["TOKEN"; "URL"].
Proof. apply (env_refs_exact Example_outbound.text). vm_compute. reflexivity. Defined.

Lemma classify_by_rule_witness :
  classify_binary "/usr/bin/hg" ["hg"; "push"] = Outbound false
  ∧ classify_in (rev OUTBOUND_CAPABLE_BINARIES) "/usr/bin/hg" ["hg"; "push"] = Outbound false.
Proof.
  assert (Hp : rev OUTBOUND_CAPABLE_BINARIES ≡ₚ OUTBOUND_CAPABLE_BINARIES)
    by (symmetry; apply Permutation_rev).
  destruct (classify_by_rule (rev OUTBOUND_CAPABLE_BINARIES) "/usr/bin/hg" ["hg"; "push"] Hp
              ltac:(discriminate)) as (He & Hrule & _).
  rewrite He. split; vm_compute; reflexivity.
Defined.
