(* ===== verification/Taint.v ===== *)
(** * The taint filter

    [crates/grith-proxy/src/filters/taint.rs]: what a session, or a conversation, has
    read is remembered by path, by process, by variable and by the pipes it set up,
    and scored when it reaches a sink.  The sinks' tiers are in EgressScores, the
    texts of arguments in TaintArgv, the outbound programs in OutboundBinaries.

    The clock is read up to several times in one evaluation: [rd_now] is the first
    reading and [rd_later] stands for the later ones.  The file system, the current
    directory and [/proc] are read through the same record. *)

From Stdlib Require Import Ascii String.
From S2P Require Import Prelude F64 Types SessionState SensitivePaths Net EgressPolicy EgressCommand.
From S2P Require Import EgressScores OutboundBinaries TaintArgv Filters.

Definition DEFAULT_TAINT_TTL : Duration := from_secs 3600.
Definition PROXIMITY_WINDOW : Duration := from_secs 30.

Record Reading := {
  rd_now : Z;
  rd_later : Z;
  rd_instant : Instant;
  rd_current_dir : option string;
  rd_proc_cwd : N → option string;
  rd_canonicalize : string → option string;
}.

(** [str::to_uppercase], the [Debug] text of an argument vector and two JSON values. *)
Class TaintText `{Deps} := {
  to_uppercase : string → string;
  fmt_argv : list string → string;
  json_string : string → Json;
  json_strings : list string → Json;
}.

(** ** Levels *)

Definition taint_ord (level : TaintLevel) : Z :=
  match level with TaintNone => 0 | TaintLow => 1 | TaintMedium => 2 | TaintHigh => 3 end.

Definition combine_taint (a b : TaintLevel) : TaintLevel :=
  if (taint_ord b <=? taint_ord a)%Z then a else b.

Definition is_tainted (level : TaintLevel) : bool := negb (bool_decide (level = TaintNone)).

(** ** State *)

Record TaintEntry := {
  te_level : TaintLevel;
  te_registered_at : Z;
}.

Record TaintFilter := {
  tf_sensitive_sources : list string;
  tf_taint_ttl : Duration;
  tf_spawn_data_flow_only : bool;
  tf_outbound_requires_data_flow : bool;
}.

(** The five maps behind the filter's locks. *)
Record TaintState := {
  ts_registry : gmap string TaintEntry;
  ts_recent : gmap string Z;
  ts_pids : gmap (string * N) TaintLevel;
  ts_vars : gmap string (gset string);
  ts_pipes : gset string;
}.

Definition TaintState_new : TaintState :=
  {| ts_registry := ∅; ts_recent := ∅; ts_pids := ∅; ts_vars := ∅; ts_pipes := ∅ |}.

Definition with_registry (m : gmap string TaintEntry) (s : TaintState) : TaintState :=
  {| ts_registry := m; ts_recent := ts_recent s; ts_pids := ts_pids s; ts_vars := ts_vars s;
     ts_pipes := ts_pipes s |}.
Definition with_recent (m : gmap string Z) (s : TaintState) : TaintState :=
  {| ts_registry := ts_registry s; ts_recent := m; ts_pids := ts_pids s; ts_vars := ts_vars s;
     ts_pipes := ts_pipes s |}.
Definition with_pids (m : gmap (string * N) TaintLevel) (s : TaintState) : TaintState :=
  {| ts_registry := ts_registry s; ts_recent := ts_recent s; ts_pids := m; ts_vars := ts_vars s;
     ts_pipes := ts_pipes s |}.
Definition with_vars (m : gmap string (gset string)) (s : TaintState) : TaintState :=
  {| ts_registry := ts_registry s; ts_recent := ts_recent s; ts_pids := ts_pids s; ts_vars := m;
     ts_pipes := ts_pipes s |}.
Definition with_pipes (m : gset string) (s : TaintState) : TaintState :=
  {| ts_registry := ts_registry s; ts_recent := ts_recent s; ts_pids := ts_pids s;
     ts_vars := ts_vars s; ts_pipes := m |}.

Definition TaintFilter_new (sensitive_sources : list string) : TaintFilter := {|
  tf_sensitive_sources := sensitive_sources;
  tf_taint_ttl := DEFAULT_TAINT_TTL;
  tf_spawn_data_flow_only := false;
  tf_outbound_requires_data_flow := false;
|}.

Definition with_outbound_taint_requires_data_flow (on : bool) (f : TaintFilter) : TaintFilter := {|
  tf_sensitive_sources := tf_sensitive_sources f; tf_taint_ttl := tf_taint_ttl f;
  tf_spawn_data_flow_only := tf_spawn_data_flow_only f; tf_outbound_requires_data_flow := on |}.

Definition with_spawn_data_flow_only (on : bool) (f : TaintFilter) : TaintFilter := {|
  tf_sensitive_sources := tf_sensitive_sources f; tf_taint_ttl := tf_taint_ttl f;
  tf_spawn_data_flow_only := on;
  tf_outbound_requires_data_flow := tf_outbound_requires_data_flow f |}.

Definition with_defaults : TaintFilter := TaintFilter_new
  [".env"; ".ssh"; "credentials"; "secrets"; ".aws"; ".gnupg"; "id_rsa"; "id_ed25519"; "private_key";
   ".kube/config"; "token"; "passwd"; "shadow"; ".netrc"; ".git-credentials"; ".npmrc"; ".pypirc";
   ".docker/config.json"; ".bash_history"; ".zsh_history"].

(** ** Sources *)

Section Sources.
Context `{Unicode}.

Definition high_patterns : list string := [".ssh"; "id_rsa"; "id_ed25519"; "private_key"; "shadow"].
Definition medium_patterns : list string :=
  [".env"; ".aws"; "credentials"; "secrets"; ".gnupg"; ".kube/config"].

Definition classify_source (f : TaintFilter) (path : string) : TaintLevel :=
  let path_lower := to_lowercase path in
  if negb (existsb (λ pat, contains (to_lowercase pat) path_lower) (tf_sensitive_sources f)) then TaintNone
  else if existsb (λ pat, contains pat path_lower) high_patterns then TaintHigh
  else if existsb (λ pat, contains pat path_lower) medium_patterns then TaintMedium
  else TaintLow.

(** Always a category: the doc's [None] does not occur. *)
Definition classify_source_category (path : string) : string :=
  let path_lower := to_lowercase path in
  if existsb (λ pat, contains pat path_lower) high_patterns then "ssh-key"
  else if existsb (λ pat, contains pat path_lower) medium_patterns then "env-file"
  else "sensitive-file".

Definition tainted_basename_is_sensitive (f : TaintFilter) (tainted_path : string) : bool :=
  match path_file_name tainted_path with
  | Some name => is_tainted (classify_source f name)
  | None => false
  end.

End Sources.

(** ** Keys *)

Section Taint.
Context `{D : Deps} `{U : Unicode} `{HashIter} `{!TaintText}.

Definition NUL : string := String "000" "".

Definition scope_text (scope : SessionScopeKey) : string := "ses:" +:+ Uuid_to_string (scope_uuid scope).

Definition scope_prefix (ctx : ToolCallContext) : string :=
  match ctx_conversation_id ctx with
  | Some conv_id => "conv:" +:+ conv_id
  | None => scope_text (scope_or_warn ctx)
  end.

Definition registry_key (ctx : ToolCallContext) (path : string) : string :=
  scope_prefix ctx +:+ NUL +:+ path.

Definition key_matches_context (key : string) (ctx : ToolCallContext) : bool :=
  starts_with (scope_prefix ctx +:+ NUL) key.

Definition path_from_key (key : string) : string :=
  match split_once NUL key with Some (_, path) => path | None => key end.

(** ** The registry *)

Definition evict_stale_entries (f : TaintFilter) (now : Z) (s : TaintState) : TaintState :=
  let cutoff := (now - tf_taint_ttl f)%Z in
  with_registry (filter (λ e, (cutoff <= te_registered_at e.2)%Z) (ts_registry s)) s.

Definition highest_level (ctx : ToolCallContext) (entries : list (string * TaintEntry)) : TaintLevel :=
  fold_left (λ highest e,
    if key_matches_context e.1 ctx && (taint_ord highest <? taint_ord (te_level e.2))%Z
    then te_level e.2 else highest) entries TaintNone.

Definition get_effective_taint (f : TaintFilter) (now : Z) (ctx : ToolCallContext) (s : TaintState) :
    TaintLevel * TaintState :=
  if is_tainted (ctx_source_taint ctx) then (ctx_source_taint ctx, s)
  else
    let s := evict_stale_entries f now s in
    (highest_level ctx (hash_iter (ts_registry s)), s).

Definition tainted_paths_for_scope (ctx : ToolCallContext) (s : TaintState) : list string :=
  omap (λ e, strip_prefix (scope_prefix ctx +:+ NUL) e.1) (hash_iter (ts_registry s)).

Definition tainted_path_count (f : TaintFilter) (now : Z) (s : TaintState) : nat * TaintState :=
  let s := evict_stale_entries f now s in (size (ts_registry s), s).

(** Sorted and without duplicates: there are three categories. *)
Definition active_source_categories (f : TaintFilter) (now : Z) (ctx : ToolCallContext) (s : TaintState) :
    list string * TaintState :=
  let s := evict_stale_entries f now s in
  let cats := map (λ e, classify_source_category (path_from_key e.1))
                (List.filter (λ e, key_matches_context e.1 ctx) (hash_iter (ts_registry s))) in
  (List.filter (λ c, str_mem c cats) ["env-file"; "sensitive-file"; "ssh-key"], s).

(** The filter's state and the registry of sessions. *)
Definition TaintWorld : Type := TaintState * SessionStateRegistry.

(** The trace for debugging is not modelled. *)
Definition register_taint (instant : Instant) (now : Z) (ctx : ToolCallContext) (path : string)
    (level : TaintLevel) (w : TaintWorld) : TaintWorld :=
  if bool_decide (level = TaintNone) then w
  else
    let '(s, sessions) := w in
    let s := with_registry (<[registry_key ctx path := {| te_level := level; te_registered_at := now |}]>
                              (ts_registry s)) s in
    (s,
     if bool_decide (level = TaintHigh) then
       registry_activate_containment instant (scope_or_warn ctx)
         (SensitiveAccessOutsideScope path "high") sessions
     else sessions).

(** ** Processes, variables and pipes *)

Definition extract_pid (ctx : ToolCallContext) : option N :=
  v ← json_get (ctx_arguments ctx) "pid"; json_as_u64 v.

Definition mark_pid_tainted (ctx : ToolCallContext) (level : TaintLevel) (s : TaintState) : TaintState :=
  match extract_pid ctx with
  | None => s
  | Some pid =>
      if bool_decide (level = TaintNone) then s
      else
        let key := (scope_prefix ctx, pid) in
        match ts_pids s !! key with
        | Some current =>
            if (taint_ord level <=? taint_ord current)%Z then s
            else with_pids (<[key := level]> (ts_pids s)) s
        | None => with_pids (<[key := level]> (ts_pids s)) s
        end
  end.

Definition pid_taint_level (ctx : ToolCallContext) (s : TaintState) : option TaintLevel :=
  pid ← extract_pid ctx; ts_pids s !! (scope_prefix ctx, pid).

Definition mark_env_var_tainted (ctx : ToolCallContext) (var_name : string) (s : TaintState) : TaintState :=
  let scope := scope_prefix ctx in
  with_vars (<[scope := {[var_name]} ∪ default ∅ (ts_vars s !! scope)]> (ts_vars s)) s.

Definition is_env_var_tainted (ctx : ToolCallContext) (s : TaintState) (var_name : string) : bool :=
  if is_canonical_secret_env_var var_name then true
  else match ts_vars s !! scope_prefix ctx with
       | Some set => bool_decide (var_name ∈ set)
       | None => false
       end.

Definition mark_pipe_observed (ctx : ToolCallContext) (s : TaintState) : TaintState :=
  with_pipes ({[scope_prefix ctx]} ∪ ts_pipes s) s.

Definition is_pipe_observed (ctx : ToolCallContext) (s : TaintState) : bool :=
  bool_decide (scope_prefix ctx ∈ ts_pipes s).

Definition observe_assignment (ctx : ToolCallContext) (s : TaintState) (a : string * list string) :
    TaintState :=
  if existsb (is_env_var_tainted ctx s) a.2 then mark_env_var_tainted ctx a.1 s else s.

Definition observe_shell_command (ctx : ToolCallContext) (command : string) (s : TaintState) : TaintState :=
  let s := fold_left (observe_assignment ctx) (extract_var_assignments command) s in
  if command_contains_pipe_or_redirect command then mark_pipe_observed ctx s else s.

Definition is_supervisor_event (ctx : ToolCallContext) : bool :=
  starts_with "supervisor:" (ctx_plugin_id ctx).

Definition caller_cwd (rd : Reading) (ctx : ToolCallContext) : option string :=
  if negb (is_supervisor_event ctx) then
    match ctx_conversation_id ctx with Some _ => None | None => rd_current_dir rd end
  else
    pid ← extract_pid ctx;
    cwd ← rd_proc_cwd rd pid;
    if negb (starts_with "/" cwd) || ends_with " (deleted)" cwd then None else Some cwd.

(** ** Spawns *)

Definition spawn_taint_match (rule_id message : string) : FilterResult :=
  matched "taint" rule_id (f64_of_Z 3) SevWarning message.

(** The first tainted path an argument refers to. *)
Definition argv_tainted_path (f : TaintFilter) (cwd : option string) (paths argv : list string) :
    option string :=
  head (argv ≫= λ arg,
        argv_path_candidates arg ≫= λ candidate,
          List.filter (λ p,
            argv_arg_matches_tainted_path candidate p (resolve_argv_token candidate cwd)
              (tainted_basename_is_sensitive f p)) paths).

Definition argv_tainted_var (ctx : ToolCallContext) (s : TaintState) (argv : list string) : option string :=
  head (argv ≫= λ arg, List.filter (is_env_var_tainted ctx s) (extract_env_var_refs arg)).

(** The rule on a command and its arguments, given whether there is taint. *)
Definition data_flow_conditions (f : TaintFilter) (rd : Reading) (ctx : ToolCallContext)
    (command : string) (argv : list string) (session_has_taint : bool) (s : TaintState) :
    option FilterResult :=
  let text := command +:+ " " +:+ fmt_argv argv in
  let tainted_paths := tainted_paths_for_scope ctx s in
  match (if session_has_taint then argv_tainted_path f (caller_cwd rd ctx) tainted_paths argv else None) with
  | Some p =>
      Some (spawn_taint_match "tainted-shell-sink-argv-path"
              ("Tainted data ref in spawn argv: tainted path " +:+ p +:+ " appears in " +:+ text))
  | None =>
  match argv_tainted_var ctx s argv with
  | Some var =>
      Some (spawn_taint_match "tainted-shell-sink-argv-env"
              ("Spawn argv references tainted env var $" +:+ var +:+ ": " +:+ text))
  | None =>
  if session_has_taint && is_pipe_observed ctx s then
    Some (spawn_taint_match "tainted-shell-sink-fd-lineage"
            ("Spawn under active taint with observed pipe/redirect: " +:+ text))
  else
  let outbound :=
    if session_has_taint && negb (tf_outbound_requires_data_flow f) then
      match canonicalise_spawn_target (rd_canonicalize rd) command with
      | None =>
          Some (spawn_taint_match "tainted-shell-sink-unknown-binary"
                  ("Spawn under taint, canonicalisation failed: " +:+ text))
      | Some canonical =>
          match classify_binary canonical argv with
          | Outbound destination_required =>
              if negb destination_required || argv_contains_destination_arg argv then
                Some (spawn_taint_match "tainted-shell-sink-outbound-binary"
                        ("Spawn under taint of outbound-capable binary: " +:+ text))
              else None
          | Unknown =>
              Some (spawn_taint_match "tainted-shell-sink-unknown-binary"
                      ("Spawn under taint of empty-path binary: " +:+ text))
          | Routine => None
          end
      end
    else None in
  match outbound with
  | Some r => Some r
  | None =>
  if session_has_taint
     && command_text_matches_exfil_pattern
          (default (join " " argv) (shell_command_text (ctx_call_type ctx))) tainted_paths then
    Some (spawn_taint_match "tainted-shell-sink-shell-pattern"
            ("Spawn command text matches exfil pattern under taint: " +:+ text))
  else None
  end end end.

Definition taint_on_spawn_data_flow (f : TaintFilter) (rd : Reading) (ctx : ToolCallContext)
    (s : TaintState) : option FilterResult * TaintState :=
  match ctx_call_type ctx with
  | ShellExec command argv | ProcessSpawn command argv =>
      let '(level, s) := get_effective_taint f (rd_now rd) ctx s in
      let session_has_taint := is_tainted level || bool_decide (is_Some (pid_taint_level ctx s)) in
      (data_flow_conditions f rd ctx command argv session_has_taint s, s)
  | _ => (None, s)
  end.

(** The rule that any taint is enough. *)
Definition legacy_shell_sink (level : TaintLevel) (ctx : ToolCallContext) : FilterResult :=
  let full := default "" (full_command ctx) in
  match level with
  | TaintHigh =>
      matched "taint" "high-taint-shell-sink" (f64_of_Z 5) SevCritical
        ("Highly tainted data flowing to shell: " +:+ full)
  | TaintMedium | TaintLow =>
      matched "taint" "tainted-shell-sink" (f64_of_Z 3) SevWarning
        ("Tainted data flowing to shell: " +:+ full)
  | TaintNone => no_match "taint"
  end.

(** ** Evaluation *)

(** The categories are looked up for a match only. *)
Definition stamp_active (f : TaintFilter) (rd : Reading) (ctx : ToolCallContext) (r : FilterResult)
    (s : TaintState) : FilterResult * TaintState :=
  if fr_matched r then
    let '(cats, s) := active_source_categories f (rd_later rd) ctx s in
    (stamp_sources (if decide (cats = []) then None else Some (json_strings cats)) r, s)
  else (r, s).

Definition recent_read (rd : Reading) (ctx : ToolCallContext) (s : TaintState) : bool :=
  match ts_recent s !! scope_prefix ctx with
  | None => false
  | Some last_read =>
      let elapsed := (rd_later rd - last_read)%Z in
      (0 <=? Z.quot elapsed nanos_per_sec)%Z && (elapsed <? PROXIMITY_WINDOW)%Z
  end.

(** The two network sinks differ in their tiers and their message. *)
Definition network_sink (f : TaintFilter) (rd : Reading) (ctx : ToolCallContext)
    (tiers : TaintLevel → option TaintLevel → FilterResult) (message : string) (s : TaintState) :
    FilterResult * TaintState :=
  let '(level, s) := get_effective_taint f (rd_now rd) ctx s in
  let '(r, s) := stamp_active f rd ctx (tiers level (pid_taint_level ctx s)) s in
  (proximity_bonus level (recent_read rd ctx s) message r, s).

Definition spawn_evaluate (f : TaintFilter) (rd : Reading) (ctx : ToolCallContext) (s : TaintState) :
    FilterResult * TaintState :=
  let s := match shell_command_text (ctx_call_type ctx) with
           | Some text => observe_shell_command ctx text s
           | None => s
           end in
  let '(r, s) :=
    if tf_spawn_data_flow_only f then
      let '(o, s) := taint_on_spawn_data_flow f rd ctx s in
      match o with
      | Some r => (r, s)
      | None => (no_match "taint", (get_effective_taint f (rd_later rd) ctx s).2)
      end
    else
      let '(level, s) := get_effective_taint f (rd_now rd) ctx s in
      (legacy_shell_sink level ctx, s) in
  stamp_active f rd ctx r s.

Definition taint_evaluate (f : TaintFilter) (rd : Reading) (ctx : ToolCallContext) (w : TaintWorld) :
    FilterResult * TaintWorld :=
  let '(s, sessions) := w in
  let level_of := classify_source f in
  let register now path level w := register_taint (rd_instant rd) now ctx path level w in
  let propagated path level :=
    combine_taint level (default TaintNone (pid_taint_level ctx s)) in
  match ctx_call_type ctx with
  | FileRead path =>
      let level := level_of path in
      let '(s, sessions) := register (rd_now rd) path level w in
      if is_tainted level then
        (set_metadata "taint_source_category" (json_string (classify_source_category path))
           (no_match "taint"),
         (mark_pid_tainted ctx level
            (with_recent (<[scope_prefix ctx := rd_later rd]> (ts_recent s)) s), sessions))
      else (no_match "taint", (s, sessions))
  | HttpRequest method url =>
      let '(r, s) :=
        network_sink f rd ctx (λ level _, taint_http_sink to_uppercase level method url)
          ("HTTP request within 30s of sensitive file read: " +:+ method +:+ " " +:+ url) s in
      (r, (s, sessions))
  | NetConnect address port =>
      let '(r, s) :=
        network_sink f rd ctx (λ level pid_level, taint_connect_sink level pid_level ctx address port)
          ("Network connection within 30s of sensitive file read: " +:+ address +:+ ":" +:+ fmt_Z port) s in
      (r, (s, sessions))
  | ShellExec _ _ | ProcessSpawn _ _ =>
      let '(r, s) := spawn_evaluate f rd ctx s in (r, (s, sessions))
  | FileWrite path _ | FileAppend path =>
      (no_match "taint", register (rd_now rd) path (propagated path (level_of path)) w)
  | FileDelete path | FileChmod path _ | DirCreate path | DirList path =>
      (no_match "taint", register (rd_now rd) path (level_of path) w)
  | FileRename old_path new_path =>
      let src := level_of old_path in
      (no_match "taint",
       register (rd_later rd) new_path (propagated new_path (combine_taint (level_of new_path) src))
         (register (rd_now rd) old_path src w))
  | FilesystemMutation _ source target _ =>
      (no_match "taint",
       match source with
       | Some src => register (rd_now rd) target (level_of src) w
       | None => w
       end)
  | FileLink _ _ _ | NetListen _ _ | DnsQuery _ _ | OwnershipChange _ _ _
  | CrossProcessAccess _ _ | NamespaceOp _ _ | DbusMethodCall _ _ _ _ => (no_match "taint", w)
  end.

(** ** The end of a session *)

Definition taint_evict (scope : SessionScopeKey) (s : TaintState) : nat * TaintState :=
  let scope_prefix := scope_text scope in
  let registry := filter (λ e, starts_with (scope_prefix +:+ NUL) e.1 = false) (ts_registry s) in
  let pids := filter (λ e, e.1.1 ≠ scope_prefix) (ts_pids s) in
  let removed :=
    ((size (ts_registry s) - size registry)
     + (size (ts_recent s) - size (delete scope_prefix (ts_recent s)))
     + (size (ts_pids s) - size pids)
     + size (default ∅ (ts_vars s !! scope_prefix))
     + (if decide (scope_prefix ∈ ts_pipes s) then 1 else 0))%nat in
  (removed,
   {| ts_registry := registry; ts_recent := delete scope_prefix (ts_recent s); ts_pids := pids;
      ts_vars := delete scope_prefix (ts_vars s);
      ts_pipes := ts_pipes s ∖ {[scope_prefix]} |}).

(** The filter as the engine sees it; [read] is the environment at a tick. *)
Definition taint_filter {FS} (f : TaintFilter) (read : nat → Reading)
    (get : FS → TaintState) (set : TaintState → FS → FS) : SecurityFilter FS :=
  {| sf_name := "taint";
     sf_phase := Context_;
     sf_is_ready _ := true;
     sf_evaluate ctx w :=
       let '(r, (s, sessions)) :=
         taint_evaluate f (read (w_tick w)) ctx (get (w_filters w), w_sessions w) in
       (Some r, {| w_filters := set s (w_filters w); w_sessions := sessions; w_tick := S (w_tick w) |});
     sf_evict_session_state scope w :=
       let '(n, s) := taint_evict scope (get (w_filters w)) in
       (n, {| w_filters := set s (w_filters w); w_sessions := w_sessions w; w_tick := w_tick w |});
     sf_observe_outcome _ _ _ w := w |}.

End Taint.
