(* ===== verification/TaintFlow.v ===== *)
(** * What the taint filter guarantees

    Properties of the filter of [Taint] over sequences of calls, session ends and
    direct marks: a sensitive read is not forgotten while it is fresh, scopes do not
    affect one another, the end of a session forgets it, an upload of a tainted file
    is flagged, and the proximity signal never comes into play. *)

From Stdlib Require Import Ascii String.
From S2P Require Import Prelude Concrete F64 Types SessionState SensitivePaths Net EgressPolicy.
From S2P Require Import EgressCommand EgressScores OutboundBinaries TaintArgv Filters Taint.

(** ** Lists *)

Lemma existsb_agree {A} (p q : A → bool) l : (∀ x, p x = q x) → existsb p l = existsb q l.
Proof. intros Hpq. induction l as [|x l IH]; cbn; [done|]. by rewrite Hpq, IH. Qed.

Lemma existsb_members {A} (p : A → bool) l k :
  (∀ x, x ∈ l ↔ x ∈ k) → existsb p l = existsb p k.
Proof.
  intros Hlk. apply eq_true_iff_eq. rewrite !existsb_exists.
  split; intros (x & Hx%list_elem_of_In & Hp); exists x; (split; [apply list_elem_of_In, Hlk|]); done.
Qed.

Lemma bind_agree {A B} (g h : A → list B) l : (∀ x, g x = h x) → l ≫= g = l ≫= h.
Proof. intros Hgh. induction l as [|x l IH]; cbn; [done|]. by rewrite Hgh, IH. Qed.

Lemma filter_agree {A} (p q : A → bool) l :
  (∀ x, p x = q x) → List.filter p l = List.filter q l.
Proof. intros Hpq. induction l as [|x l IH]; cbn; [done|]. by rewrite Hpq, IH. Qed.

Lemma head_is_Some {A} (l : list A) : is_Some (head l) ↔ ∃ x, x ∈ l.
Proof.
  destruct l as [|x l]; cbn; split.
  - by intros [].
  - by intros [x Hx%elem_of_nil].
  - intros _. exists x. apply list_elem_of_here.
  - by eexists.
Qed.

Lemma elem_of_filter_bool {A} (p : A → bool) l x : x ∈ List.filter p l ↔ p x = true ∧ x ∈ l.
Proof. rewrite !list_elem_of_In, filter_In. tauto. Qed.

(** ** Levels *)

Lemma taint_ord_inj a b : taint_ord a = taint_ord b → a = b.
Proof. by destruct a, b. Qed.

Lemma taint_ord_combine a b : taint_ord (combine_taint a b) = Z.max (taint_ord a) (taint_ord b).
Proof. by destruct a, b. Qed.

Lemma taint_ord_nonneg a : (0 <= taint_ord a)%Z.
Proof. destruct a; cbn; lia. Qed.

Lemma is_tainted_ord a : is_tainted a = true ↔ (0 < taint_ord a)%Z.
Proof. destruct a; cbn; split; (done || lia). Qed.

Section Flow.
Context `{D : Deps} `{DL : !DepsLaws} `{U : Unicode} `{HI : HashIter} `{HL : !HashIterLaws} `{!TaintText}.

#[local] Arguments String.append !_ _ / : simpl nomatch.

(** ** Scopes *)

(** The scope texts of calls and of sessions. *)
Definition is_scope (B : string) : Prop :=
  (∃ conv, B = "conv:" +:+ conv) ∨ (∃ u, B = scope_text u).

Definition nul_free (B : string) : Prop := lacks "000" B = true.

Definition entry_key (B path : string) : string := B +:+ NUL +:+ path.

Lemma scope_prefix_is_scope ctx : is_scope (scope_prefix ctx).
Proof. unfold scope_prefix. destruct (ctx_conversation_id ctx); [left|right]; by eexists. Qed.

Lemma entry_key_inj B B' p p' :
  nul_free B → nul_free B' → entry_key B p = entry_key B' p' → B = B' ∧ p = p'.
Proof.
  unfold nul_free, entry_key, NUL. revert B'. induction B as [|c B IH]; intros [|c' B'] Hn Hn' Heq; cbn in *.
  - by injection Heq.
  - injection Heq as <- _. done.
  - injection Heq as -> _. done.
  - injection Heq as -> Heq. apply andb_prop in Hn as [_ Hn], Hn' as [_ Hn'].
    destruct (IH B' Hn Hn' Heq) as [-> ->]. done.
Qed.

Lemma key_matches_spec key ctx :
  key_matches_context key ctx = true ↔ ∃ p, key = entry_key (scope_prefix ctx) p.
Proof.
  unfold key_matches_context, entry_key. rewrite starts_with_spec.
  split; intros [p ->]; exists p; by rewrite append_assoc.
Qed.

(** A session's entries are nobody else's. *)
Lemma scope_text_inj u B p q :
  is_scope B → entry_key B p = entry_key (scope_text u) q → B = scope_text u ∧ p = q.
Proof.
  intros [[conv ->]|[v ->]]; unfold entry_key, scope_text; [done|].
  intros [= Heq].
  apply append_inj_length in Heq as [Hu Hp]; [|by rewrite !Uuid_to_string_length].
  split; [by rewrite Hu|]. unfold NUL in Hp. by injection Hp.
Qed.

Lemma session_key_scope u B p :
  is_scope B → starts_with (scope_text u +:+ NUL) (entry_key B p) = true → B = scope_text u.
Proof.
  intros HB [q Hq]%starts_with_spec. rewrite append_assoc in Hq.
  by destruct (scope_text_inj u B p q HB Hq) as [-> _].
Qed.

Lemma session_key u p : starts_with (scope_text u +:+ NUL) (entry_key (scope_text u) p) = true.
Proof. unfold entry_key. rewrite <- append_assoc. apply starts_with_app. Qed.

(** ** The registry *)

Definition at_path (B p : string) (s : TaintState) : option TaintEntry := ts_registry s !! entry_key B p.

Definition fresh (f : TaintFilter) (now : Z) (o : option TaintEntry) : option TaintEntry :=
  e ← o; if (now - tf_taint_ttl f <=? te_registered_at e)%Z then Some e else None.

Lemma evict_lookup f now B p s :
  at_path B p (evict_stale_entries f now s) = fresh f now (at_path B p s).
Proof.
  unfold at_path, evict_stale_entries, fresh. cbn.
  rewrite map_lookup_filter. destruct (ts_registry s !! entry_key B p) as [e|]; [cbn|done].
  destruct (Z.leb_spec (now - tf_taint_ttl f) (te_registered_at e)); case_guard; cbn in *; (done || lia).
Qed.

Lemma fresh_fresh f now later o :
  (now <= later)%Z → fresh f later (fresh f now o) = fresh f later o.
Proof.
  intros Hle. destruct o as [e|]; [cbn|done].
  destruct (Z.leb_spec (now - tf_taint_ttl f) (te_registered_at e)); [done|]. cbn.
  destruct (Z.leb_spec (later - tf_taint_ttl f) (te_registered_at e)); [lia|done].
Qed.

Lemma fresh_Some f now o e :
  fresh f now o = Some e ↔ o = Some e ∧ (now - tf_taint_ttl f <= te_registered_at e)%Z.
Proof.
  destruct o as [e'|]; cbn; [|naive_solver].
  destruct (Z.leb_spec (now - tf_taint_ttl f) (te_registered_at e')); naive_solver lia.
Qed.

(** *** The highest level *)

Lemma highest_fold ctx l h :
  let r := fold_left (λ highest e,
    if key_matches_context e.1 ctx && (taint_ord highest <? taint_ord (te_level e.2))%Z
    then te_level e.2 else highest) l h in
  (taint_ord h <= taint_ord r)%Z
  ∧ (∀ e, e ∈ l → key_matches_context e.1 ctx = true → (taint_ord (te_level e.2) <= taint_ord r)%Z)
  ∧ (r = h ∨ ∃ e, e ∈ l ∧ key_matches_context e.1 ctx = true ∧ te_level e.2 = r).
Proof.
  revert h. induction l as [|x l IH]; intros h; cbn.
  { split; [lia|]. split; [|by left]. intros e He. by apply not_elem_of_nil in He. }
  set (h' := if _ && _ then _ else h).
  assert (Hh : (taint_ord h <= taint_ord h')%Z
    ∧ (key_matches_context x.1 ctx = true → (taint_ord (te_level x.2) <= taint_ord h')%Z)
    ∧ (h' = h ∨ (key_matches_context x.1 ctx = true ∧ te_level x.2 = h'))).
  { unfold h'. destruct (key_matches_context x.1 ctx); cbn;
      [destruct (Z.ltb_spec (taint_ord h) (taint_ord (te_level x.2)))|]; repeat split; auto; try lia; done. }
  destruct Hh as (H1 & H2 & H3), (IH h') as (H4 & H5 & H6). split; [lia|]. split.
  - intros e [->|He]%elem_of_cons Hm; [specialize (H2 Hm); lia|by apply H5].
  - destruct H6 as [->|(e & He & Hm)].
    + destruct H3 as [->|[Hm Hx]]; [by left|]. right. exists x. split; [apply list_elem_of_here|done].
    + right. exists e. split; [by apply list_elem_of_further|done].
Qed.

Lemma highest_level_ge ctx s p e :
  at_path (scope_prefix ctx) p s = Some e →
  (taint_ord (te_level e) <= taint_ord (highest_level ctx (hash_iter (ts_registry s))))%Z.
Proof.
  intros Hp. destruct (highest_fold ctx (hash_iter (ts_registry s)) TaintNone) as (_ & Hge & _).
  apply (Hge (entry_key (scope_prefix ctx) p, e)); [by apply hash_iter_elem_of|].
  cbn. apply key_matches_spec. by exists p.
Qed.

Lemma highest_level_from ctx s :
  highest_level ctx (hash_iter (ts_registry s)) = TaintNone
  ∨ ∃ p e, at_path (scope_prefix ctx) p s = Some e
      ∧ te_level e = highest_level ctx (hash_iter (ts_registry s)).
Proof.
  destruct (highest_fold ctx (hash_iter (ts_registry s)) TaintNone) as (_ & _ & [Hz|([k e] & He & Hm & Hr)]);
    [by left|right].
  apply key_matches_spec in Hm as [p Hp]. cbn in Hp. subst k. apply hash_iter_elem_of in He.
  by exists p, e.
Qed.

(** ** What one scope sees *)

Record same_view (f : TaintFilter) (now : Z) (B : string) (s1 s2 : TaintState) : Prop := {
  sv_paths : ∀ p, fresh f now (at_path B p s1) = fresh f now (at_path B p s2);
  sv_recent : ts_recent s1 !! B = ts_recent s2 !! B;
  sv_pids : ∀ pid, ts_pids s1 !! (B, pid) = ts_pids s2 !! (B, pid);
  sv_vars : ts_vars s1 !! B = ts_vars s2 !! B;
  sv_pipes : B ∈ ts_pipes s1 ↔ B ∈ ts_pipes s2;
}.

#[local] Instance same_view_equiv f now B : Equivalence (same_view f now B).
Proof.
  split.
  - by split.
  - intros s1 s2 []. split; naive_solver.
  - intros s1 s2 s3 [] []. split; intros; [etrans; eauto..|]. tauto.
Qed.

Lemma same_view_later f now later B s1 s2 :
  (now <= later)%Z → same_view f now B s1 s2 → same_view f later B s1 s2.
Proof.
  intros Hle [Hp ? ? ? ?]. split; auto. intros p.
  by rewrite <- (fresh_fresh f now later (at_path B p s1)), <- (fresh_fresh f now later (at_path B p s2)), Hp.
Qed.

(** After the eviction the lookups agree. *)
Record exact_view (B : string) (s1 s2 : TaintState) : Prop := {
  xv_paths : ∀ p, at_path B p s1 = at_path B p s2;
  xv_recent : ts_recent s1 !! B = ts_recent s2 !! B;
  xv_pids : ∀ pid, ts_pids s1 !! (B, pid) = ts_pids s2 !! (B, pid);
  xv_vars : ts_vars s1 !! B = ts_vars s2 !! B;
  xv_pipes : B ∈ ts_pipes s1 ↔ B ∈ ts_pipes s2;
}.

Lemma exact_same f now B s1 s2 : exact_view B s1 s2 → same_view f now B s1 s2.
Proof. intros [Hp ? ? ? ?]. split; auto. intros p. by rewrite Hp. Qed.

Lemma evict_exact f now B s1 s2 :
  same_view f now B s1 s2 → exact_view B (evict_stale_entries f now s1) (evict_stale_entries f now s2).
Proof. intros [Hp ? ? ? ?]. split; auto. intros p. by rewrite !evict_lookup. Qed.

Lemma exact_evict f now B s1 s2 :
  exact_view B s1 s2 → exact_view B (evict_stale_entries f now s1) (evict_stale_entries f now s2).
Proof. intros. by apply evict_exact, exact_same. Qed.

(** *** Operations on one scope, seen from another *)

Section Frame.
Context (f : TaintFilter) (A B : string) (HA : nul_free A) (HB : nul_free B) (Hne : A ≠ B).

Lemma frame_stale now b s : (now <= b)%Z → same_view f b B s (evict_stale_entries f now s).
Proof. intros Hle. split; try done. intros p. by rewrite evict_lookup, fresh_fresh. Qed.

Lemma frame_registry b p e s : same_view f b B s (with_registry (<[entry_key A p := e]> (ts_registry s)) s).
Proof.
  split; try done. intros q. unfold at_path. cbn. rewrite lookup_insert_ne; [done|].
  intros [? _]%entry_key_inj; done.
Qed.

Lemma frame_recent b t s : same_view f b B s (with_recent (<[A := t]> (ts_recent s)) s).
Proof. split; try done. cbn. by rewrite lookup_insert_ne. Qed.

Lemma frame_pids b pid l s : same_view f b B s (with_pids (<[(A, pid) := l]> (ts_pids s)) s).
Proof. split; try done. intros q. cbn. rewrite lookup_insert_ne; [done|congruence]. Qed.

Lemma frame_vars b set s : same_view f b B s (with_vars (<[A := set]> (ts_vars s)) s).
Proof. split; try done. cbn. by rewrite lookup_insert_ne. Qed.

Lemma frame_pipes b s : same_view f b B s (with_pipes ({[A]} ∪ ts_pipes s) s).
Proof. split; try done. cbn. set_solver. Qed.

End Frame.

Lemma frame_evict f b u B s :
  is_scope B → scope_text u ≠ B → same_view f b B s (taint_evict u s).2.
Proof.
  intros HB Hne. split; cbn [taint_evict snd ts_recent ts_pids ts_vars ts_pipes].
  - intros p. f_equal. unfold at_path. cbn [ts_registry]. rewrite map_lookup_filter.
    destruct (ts_registry s !! entry_key B p) as [e|]; [cbn|done]. rewrite option_guard_True; [done|].
    apply not_true_is_false. intros Hs. by apply (session_key_scope u B p HB) in Hs as ->.
  - by rewrite lookup_delete_ne.
  - intros pid. rewrite map_lookup_filter. destruct (ts_pids s !! (B, pid)); [cbn|done].
    by rewrite option_guard_True.
  - by rewrite lookup_delete_ne.
  - set_solver.
Qed.

(** After the end of a session its view is that of a fresh filter. *)
Lemma evict_empty u s :
  exact_view (scope_text u) (taint_evict u s).2 TaintState_new.
Proof.
  split; cbn [taint_evict snd TaintState_new ts_recent ts_pids ts_vars ts_pipes].
  - intros p. transitivity (@None TaintEntry); [|done]. unfold at_path. cbn [ts_registry].
    rewrite map_lookup_filter. destruct (ts_registry s !! _) as [e|]; [cbn|done].
    rewrite option_guard_False; [done|].
    intros Hs. pose proof (session_key u p) as Hk. cbn in Hs, Hk. congruence.
  - by rewrite lookup_delete_eq.
  - intros pid. rewrite map_lookup_filter.
    destruct (ts_pids s !! _); [cbn|done]. rewrite option_guard_False; [done|]. by cbn; intros [].
  - by rewrite lookup_delete_eq.
  - set_solver.
Qed.

(** *** The same operation on two states that look alike *)

Section Same.
Context (f : TaintFilter) (ctx : ToolCallContext).
Let B := scope_prefix ctx.

Lemma same_registry b p e s1 s2 :
  same_view f b B s1 s2 →
  same_view f b B (with_registry (<[entry_key B p := e]> (ts_registry s1)) s1)
    (with_registry (<[entry_key B p := e]> (ts_registry s2)) s2).
Proof.
  intros [Hp ? ? ? ?]. split; auto. intros q. unfold at_path in *. cbn.
  destruct (decide (entry_key B p = entry_key B q)) as [->|]; [by rewrite !lookup_insert_eq|].
  by rewrite !lookup_insert_ne.
Qed.

Lemma same_pid_level b s1 s2 : same_view f b B s1 s2 → pid_taint_level ctx s1 = pid_taint_level ctx s2.
Proof. intros Hv. unfold pid_taint_level. destruct (extract_pid ctx); [cbn|done]. apply Hv. Qed.

Lemma same_mark_pid b level s1 s2 :
  same_view f b B s1 s2 → same_view f b B (mark_pid_tainted ctx level s1) (mark_pid_tainted ctx level s2).
Proof.
  intros Hv. unfold mark_pid_tainted. destruct (extract_pid ctx) as [pid|]; [|done].
  case_bool_decide; [done|]. pose proof (sv_pids _ _ _ _ _ Hv pid) as Hp. fold B. rewrite <- Hp.
  assert (Hins : same_view f b B (with_pids (<[(B, pid) := level]> (ts_pids s1)) s1)
                   (with_pids (<[(B, pid) := level]> (ts_pids s2)) s2)).
  { destruct Hv. split; auto. intros q. cbn. destruct (decide (pid = q)) as [->|].
    - by rewrite !lookup_insert_eq.
    - rewrite !lookup_insert_ne by congruence. auto. }
  destruct (ts_pids s1 !! (B, pid)) as [current|]; [|done]. by destruct (_ <=? _)%Z.
Qed.

Lemma same_env_var b s1 s2 : same_view f b B s1 s2 →
  ∀ v, is_env_var_tainted ctx s1 v = is_env_var_tainted ctx s2 v.
Proof. intros Hv v. unfold is_env_var_tainted. fold B. by rewrite (sv_vars _ _ _ _ _ Hv). Qed.

Lemma same_mark_var b v s1 s2 :
  same_view f b B s1 s2 → same_view f b B (mark_env_var_tainted ctx v s1) (mark_env_var_tainted ctx v s2).
Proof.
  intros []. split; auto. cbn. fold B. rewrite !lookup_insert_eq. by f_equal; f_equal; f_equal.
Qed.

Lemma same_mark_pipe b s1 s2 :
  same_view f b B s1 s2 → same_view f b B (mark_pipe_observed ctx s1) (mark_pipe_observed ctx s2).
Proof. intros []. split; auto. cbn. fold B. set_solver. Qed.

Lemma same_observe b command s1 s2 :
  same_view f b B s1 s2 →
  same_view f b B (observe_shell_command ctx command s1) (observe_shell_command ctx command s2).
Proof.
  intros Hv. unfold observe_shell_command.
  assert (Hfold : ∀ l, same_view f b B (fold_left (observe_assignment ctx) l s1)
                         (fold_left (observe_assignment ctx) l s2)).
  { intros l. revert s1 s2 Hv. induction l as [|a l IH]; intros s1 s2 Hv; cbn; [done|].
    apply IH. unfold observe_assignment.
    rewrite (existsb_agree _ (is_env_var_tainted ctx s2)) by (intros v; by apply (same_env_var b)).
    destruct (existsb _ _); [by apply same_mark_var|done]. }
  destruct (command_contains_pipe_or_redirect command); [|done]. by apply same_mark_pipe.
Qed.

(** *** Answers *)

Lemma exact_highest s1 s2 :
  exact_view B s1 s2 →
  highest_level ctx (hash_iter (ts_registry s1)) = highest_level ctx (hash_iter (ts_registry s2)).
Proof.
  intros Hx. apply taint_ord_inj, Z.le_antisymm.
  - destruct (highest_level_from ctx s1) as [->|(p & e & He & <-)]; [apply taint_ord_nonneg|].
    apply (highest_level_ge ctx s2 p). by rewrite <- (xv_paths _ _ _ Hx).
  - destruct (highest_level_from ctx s2) as [->|(p & e & He & <-)]; [apply taint_ord_nonneg|].
    apply (highest_level_ge ctx s1 p). by rewrite (xv_paths _ _ _ Hx).
Qed.

Lemma tainted_paths_spec s p :
  p ∈ tainted_paths_for_scope ctx s ↔ is_Some (at_path B p s).
Proof.
  unfold tainted_paths_for_scope. rewrite list_elem_of_omap. split.
  - intros ([k e] & Hk & Hp). apply hash_iter_elem_of in Hk. cbn [fst] in Hp.
    apply strip_prefix_Some in Hp. rewrite append_assoc in Hp. subst k. by exists e.
  - intros [e He]. exists (entry_key B p, e). split; [by apply hash_iter_elem_of|].
    cbn [fst]. apply strip_prefix_Some. unfold entry_key. by rewrite append_assoc.
Qed.

Lemma exact_paths s1 s2 p :
  exact_view B s1 s2 → p ∈ tainted_paths_for_scope ctx s1 ↔ p ∈ tainted_paths_for_scope ctx s2.
Proof. intros Hx. by rewrite !tainted_paths_spec, (xv_paths _ _ _ Hx). Qed.

Lemma same_categories n s1 s2 :
  same_view f n B s1 s2 →
  (active_source_categories f n ctx s1).1 = (active_source_categories f n ctx s2).1.
Proof.
  intros Hx%evict_exact. unfold active_source_categories. cbn [fst].
  revert Hx. generalize (evict_stale_entries f n s1), (evict_stale_entries f n s2). clear s1 s2.
  intros s1 s2 Hx. apply filter_agree. intros c. unfold str_mem.
  apply existsb_members. intros d. rewrite !list_elem_of_fmap.
  assert (Hgo : ∀ t1 t2, exact_view B t1 t2 →
    (∃ y : string * TaintEntry, d = classify_source_category (path_from_key y.1) ∧
       y ∈ List.filter (λ e, key_matches_context e.1 ctx) (hash_iter (ts_registry t1))) →
    ∃ y : string * TaintEntry, d = classify_source_category (path_from_key y.1) ∧
       y ∈ List.filter (λ e, key_matches_context e.1 ctx) (hash_iter (ts_registry t2))).
  { intros t1 t2 Ht ([k e] & Hd & [Hm He]%elem_of_filter_bool). exists (k, e). split; [done|].
    apply elem_of_filter_bool. split; [done|]. apply hash_iter_elem_of in He. apply hash_iter_elem_of.
    cbn in Hm. apply key_matches_spec in Hm as [p ->]. rewrite <- He. symmetry. apply Ht. }
  split; apply Hgo; [done|]. destruct Hx; split; auto.
Qed.

Lemma argv_path_some cwd paths argv :
  is_Some (argv_tainted_path f cwd paths argv) ↔
  ∃ p, p ∈ paths ∧ ∃ arg c, arg ∈ argv ∧ c ∈ argv_path_candidates arg ∧
    argv_arg_matches_tainted_path c p (resolve_argv_token c cwd) (tainted_basename_is_sensitive f p) = true.
Proof.
  unfold argv_tainted_path. rewrite head_is_Some. setoid_rewrite list_elem_of_bind.
  setoid_rewrite list_elem_of_bind. setoid_rewrite elem_of_filter_bool. naive_solver.
Qed.

Lemma same_argv_var b s1 s2 argv :
  same_view f b B s1 s2 → argv_tainted_var ctx s1 argv = argv_tainted_var ctx s2 argv.
Proof.
  intros Hv. unfold argv_tainted_var. f_equal. apply bind_agree. intros arg. apply filter_agree.
  by apply (same_env_var b).
Qed.

(** All of a result but its message, which may name either of two tainted paths. *)
Definition verdict (r : FilterResult) : FilterResult := {|
  fr_filter_name := fr_filter_name r; fr_matched := fr_matched r; fr_score := fr_score r;
  fr_rule_id := fr_rule_id r; fr_severity := fr_severity r; fr_message := "";
  fr_metadata := fr_metadata r |}.

Lemma same_conditions rd command argv taint s1 s2 :
  exact_view B s1 s2 →
  verdict <$> data_flow_conditions f rd ctx command argv taint s1
  = verdict <$> data_flow_conditions f rd ctx command argv taint s2.
Proof.
  intros Hx. unfold data_flow_conditions.
  assert (Hpath : is_Some (if taint then argv_tainted_path f (caller_cwd rd ctx) (tainted_paths_for_scope ctx s1) argv else None)
                ↔ is_Some (if taint then argv_tainted_path f (caller_cwd rd ctx) (tainted_paths_for_scope ctx s2) argv else None)).
  { destruct taint; [|done]. rewrite !argv_path_some. by setoid_rewrite (exact_paths s1 s2 _ Hx). }
  assert (Hexfil : ∀ t, command_text_matches_exfil_pattern t (tainted_paths_for_scope ctx s1)
                      = command_text_matches_exfil_pattern t (tainted_paths_for_scope ctx s2)).
  { intros t. unfold command_text_matches_exfil_pattern.
    by rewrite (existsb_members _ _ _ (λ p, exact_paths s1 s2 p Hx)). }
  destruct (if taint then _ else None) as [p1|] eqn:E1 in Hpath |- *;
    destruct (if taint then argv_tainted_path f _ (tainted_paths_for_scope ctx s2) argv else None) as [p2|];
    [done|destruct Hpath as [[? ?] _]; done|destruct Hpath as [_ [? ?]]; done|].
  rewrite (same_argv_var 0 s1 s2) by by apply exact_same.
  destruct (argv_tainted_var ctx s2 argv) as [v|]; [done|].
  assert (Hpipe : is_pipe_observed ctx s1 = is_pipe_observed ctx s2)
    by (apply bool_decide_ext; apply (xv_pipes _ _ _ Hx)).
  rewrite Hpipe, Hexfil. by repeat case_match.
Qed.

End Same.

(** *** Evaluations *)

Section Evaluate.
Context (f : TaintFilter) (rd : Reading) (ctx : ToolCallContext).
Hypothesis Hclock : (rd_now rd <= rd_later rd)%Z.

(** Calls are not given a level of their own. *)
Hypothesis Hsource : ctx_source_taint ctx = TaintNone.

Let B := scope_prefix ctx.

Lemma effective_level now s :
  get_effective_taint f now ctx s =
  (highest_level ctx (hash_iter (ts_registry (evict_stale_entries f now s))), evict_stale_entries f now s).
Proof. unfold get_effective_taint. by rewrite Hsource. Qed.

Lemma same_register b instant now path level s1 s2 r1 r2 :
  same_view f b B s1 s2 →
  same_view f b B (register_taint instant now ctx path level (s1, r1)).1
    (register_taint instant now ctx path level (s2, r2)).1.
Proof.
  intros Hv. unfold register_taint. case_bool_decide; [done|]. cbn [fst].
  by apply (same_registry f ctx b path).
Qed.

Lemma same_stamp r r' s1 s2 :
  verdict r = verdict r' → same_view f (rd_later rd) B s1 s2 →
  verdict (stamp_active f rd ctx r s1).1 = verdict (stamp_active f rd ctx r' s2).1
  ∧ same_view f (rd_later rd) B (stamp_active f rd ctx r s1).2 (stamp_active f rd ctx r' s2).2.
Proof.
  intros Hr Hv. pose proof (same_categories f ctx (rd_later rd) s1 s2 Hv) as Hc.
  assert (Hm : fr_matched r = fr_matched r') by (by injection Hr).
  unfold stamp_active. rewrite Hm. destruct (fr_matched r') eqn:E; [|done].
  unfold active_source_categories in *. cbn [fst snd] in *. rewrite Hc.
  split; [|by apply exact_same, evict_exact]. unfold stamp_sources. rewrite Hm, E.
  destruct (if decide _ then _ else _); [|done].
  destruct r, r'; unfold verdict in *; cbn in *. by injection Hr as -> -> -> -> -> ->.
Qed.

Lemma same_recent b s1 s2 : same_view f b B s1 s2 → recent_read rd ctx s1 = recent_read rd ctx s2.
Proof. intros Hv. unfold recent_read. fold B. by rewrite (sv_recent _ _ _ _ _ Hv). Qed.

Lemma proximity_verdict level recent message r r' :
  verdict r = verdict r' →
  verdict (proximity_bonus level recent message r) = verdict (proximity_bonus level recent message r').
Proof.
  unfold proximity_bonus, verdict. destruct r, r'; cbn. intros [= -> -> -> -> -> ->].
  by destruct (bool_decide (level = TaintNone) && recent).
Qed.

Lemma same_network tiers message s1 s2 :
  same_view f (rd_now rd) B s1 s2 →
  verdict (network_sink f rd ctx tiers message s1).1 = verdict (network_sink f rd ctx tiers message s2).1
  ∧ same_view f (rd_later rd) B (network_sink f rd ctx tiers message s1).2
      (network_sink f rd ctx tiers message s2).2.
Proof.
  intros Hv%evict_exact. unfold network_sink. rewrite !effective_level.
  revert Hv. generalize (evict_stale_entries f (rd_now rd) s1), (evict_stale_entries f (rd_now rd) s2).
  clear s1 s2. intros s1 s2 Hx. rewrite (exact_highest ctx s1 s2 Hx).
  rewrite (same_pid_level f ctx 0 s1 s2) by by apply exact_same.
  set (level := highest_level _ _).
  destruct (same_stamp (tiers level (pid_taint_level ctx s2)) _ s1 s2 eq_refl
              (exact_same f _ _ _ _ Hx)) as [Hr Hx'].
  destruct (stamp_active f rd ctx _ s1) as [r1 t1], (stamp_active f rd ctx _ s2) as [r2 t2].
  cbn [fst snd] in *. rewrite (same_recent _ t1 t2 Hx').
  split; [by apply proximity_verdict|done].
Qed.

Lemma same_data_flow s1 s2 :
  same_view f (rd_now rd) B s1 s2 →
  verdict <$> (taint_on_spawn_data_flow f rd ctx s1).1 = verdict <$> (taint_on_spawn_data_flow f rd ctx s2).1
  ∧ same_view f (rd_now rd) B (taint_on_spawn_data_flow f rd ctx s1).2
      (taint_on_spawn_data_flow f rd ctx s2).2.
Proof.
  intros Hv. pose proof (evict_exact _ _ _ _ _ Hv) as Hx. unfold taint_on_spawn_data_flow.
  destruct (ctx_call_type ctx); try done; rewrite !effective_level; cbn [fst snd];
    rewrite (exact_highest ctx _ _ Hx), (same_pid_level f ctx 0 _ _ (exact_same f _ _ _ _ Hx));
    (split; [by apply same_conditions|by apply exact_same]).
Qed.

Lemma same_spawn s1 s2 :
  same_view f (rd_now rd) B s1 s2 →
  verdict (spawn_evaluate f rd ctx s1).1 = verdict (spawn_evaluate f rd ctx s2).1
  ∧ same_view f (rd_later rd) B (spawn_evaluate f rd ctx s1).2 (spawn_evaluate f rd ctx s2).2.
Proof.
  intros Hv. unfold spawn_evaluate.
  set (t1 := match shell_command_text _ with Some _ => _ | None => s1 end).
  set (t2 := match shell_command_text _ with Some _ => _ | None => s2 end).
  assert (Ht : same_view f (rd_now rd) B t1 t2).
  { unfold t1, t2. destruct (shell_command_text _); [by apply same_observe|done]. }
  clearbody t1 t2. clear Hv s1 s2.
  assert (Hlater : ∀ u1 u2, same_view f (rd_now rd) B u1 u2 → same_view f (rd_later rd) B u1 u2)
    by (intros u1 u2; by apply same_view_later).
  destruct (tf_spawn_data_flow_only f).
  - destruct (same_data_flow t1 t2 Ht) as [Ho Hv].
    destruct (taint_on_spawn_data_flow f rd ctx t1) as [o1 u1], (taint_on_spawn_data_flow f rd ctx t2) as [o2 u2].
    cbn [fst snd] in *. destruct o1 as [r1|], o2 as [r2|]; try done.
    + apply same_stamp; [by apply (inj Some) in Ho|by apply Hlater].
    + rewrite !effective_level. cbn [snd]. apply same_stamp; [done|]. by apply exact_same, evict_exact, Hlater.
  - rewrite !effective_level. apply evict_exact in Ht. rewrite (exact_highest ctx _ _ Ht).
    apply same_stamp; [done|]. by apply exact_same.
Qed.

(** A call of a scope answers by what the scope sees, and changes it accordingly. *)
Lemma evaluate_same s1 s2 r1 r2 :
  same_view f (rd_now rd) B s1 s2 →
  verdict (taint_evaluate f rd ctx (s1, r1)).1 = verdict (taint_evaluate f rd ctx (s2, r2)).1
  ∧ same_view f (rd_later rd) B (taint_evaluate f rd ctx (s1, r1)).2.1
      (taint_evaluate f rd ctx (s2, r2)).2.1.
Proof.
  intros Hv. pose proof (same_view_later _ _ _ _ _ _ Hclock Hv) as Hl.
  assert (Hpid := same_pid_level f ctx _ _ _ Hv).
  unfold taint_evaluate. rewrite Hpid.
  assert (Hreg : ∀ instant n path level,
    same_view f (rd_later rd) B (register_taint instant n ctx path level (s1, r1)).1
      (register_taint instant n ctx path level (s2, r2)).1) by (intros; by apply same_register).
  destruct (ctx_call_type ctx); try (split; [done|apply Hreg]); try (split; [done|exact Hl]).
  - specialize (Hreg (rd_instant rd) (rd_now rd) path (classify_source f path)).
    destruct (register_taint _ _ _ _ _ (s1, r1)) as [u1 q1], (register_taint _ _ _ _ _ (s2, r2)) as [u2 q2].
    cbn [fst] in Hreg. destruct (is_tainted (classify_source f path)); [|done].
    split; [done|]. cbn [fst snd]. apply same_mark_pid. destruct Hreg. split; auto. cbn.
    fold B. by rewrite !lookup_insert_eq.
  - destruct (same_spawn s1 s2 Hv) as [H1 H2].
    destruct (spawn_evaluate f rd ctx s1), (spawn_evaluate f rd ctx s2). done.
  - match goal with |- context [network_sink f rd ctx ?t ?m s1] => destruct (same_network t m s1 s2 Hv) end.
    by do 2 destruct (network_sink _ _ _ _ _ _).
  - pose proof (Hreg (rd_instant rd) (rd_now rd) old_path (classify_source f old_path)) as H0.
    destruct (register_taint _ _ _ old_path _ (s1, r1)) as [u1 q1], (register_taint _ _ _ old_path _ (s2, r2)) as [u2 q2].
    split; [done|]. by apply same_register.
  - match goal with |- context [network_sink f rd ctx ?t ?m s1] => destruct (same_network t m s1 s2 Hv) end.
    by do 2 destruct (network_sink _ _ _ _ _ _).
  - destruct (same_spawn s1 s2 Hv) as [H1 H2].
    destruct (spawn_evaluate f rd ctx s1), (spawn_evaluate f rd ctx s2). done.
  - split; [done|]. destruct source; [apply Hreg|exact Hl].
Qed.

End Evaluate.

(** *** A call, seen from another scope *)

Section EvaluateFrame.
Context (f : TaintFilter) (rd : Reading) (ctx : ToolCallContext) (B : string) (b : Z).
Hypothesis Hclock : (rd_now rd <= rd_later rd <= b)%Z.
Hypothesis HA : nul_free (scope_prefix ctx).
Hypothesis HB : nul_free B.
Hypothesis Hne : scope_prefix ctx ≠ B.

#[local] Notation "s ~ s'" := (same_view f b B s s') (at level 70).

Lemma frame_effective now s : (now <= b)%Z → s ~ (get_effective_taint f now ctx s).2.
Proof. intros. unfold get_effective_taint. case_match; [done|]. by apply frame_stale. Qed.

Lemma frame_register instant now path level s r :
  s ~ (register_taint instant now ctx path level (s, r)).1.
Proof. unfold register_taint. case_bool_decide; [done|]. by apply frame_registry. Qed.

Lemma frame_stamp r s : s ~ (stamp_active f rd ctx r s).2.
Proof. unfold stamp_active. case_match; [|done]. apply frame_stale. lia. Qed.

Lemma frame_mark_pid level s : s ~ mark_pid_tainted ctx level s.
Proof. unfold mark_pid_tainted. repeat case_match; try done; by apply frame_pids. Qed.

Lemma frame_observe command s : s ~ observe_shell_command ctx command s.
Proof.
  unfold observe_shell_command.
  assert (Hfold : ∀ l s, s ~ fold_left (observe_assignment ctx) l s).
  { induction l as [|a l IH]; intros t; cbn; [done|]. etrans; [|apply IH].
    unfold observe_assignment. case_match; [by apply frame_vars|done]. }
  case_match; [|apply Hfold]. etrans; [apply Hfold|]. by apply frame_pipes.
Qed.

Lemma frame_network tiers message s : s ~ (network_sink f rd ctx tiers message s).2.
Proof.
  unfold network_sink. pose proof (frame_effective (rd_now rd) s ltac:(lia)) as H1.
  destruct (get_effective_taint f (rd_now rd) ctx s) as [level t]. cbn in H1.
  pose proof (frame_stamp (tiers level (pid_taint_level ctx t)) t) as H2.
  destruct (stamp_active _ _ _ _ t). cbn in *. by etrans.
Qed.

Lemma frame_data_flow s : s ~ (taint_on_spawn_data_flow f rd ctx s).2.
Proof.
  unfold taint_on_spawn_data_flow. pose proof (frame_effective (rd_now rd) s ltac:(lia)) as H1.
  destruct (ctx_call_type ctx); try done; by destruct (get_effective_taint f (rd_now rd) ctx s).
Qed.

Lemma frame_spawn s : s ~ (spawn_evaluate f rd ctx s).2.
Proof.
  unfold spawn_evaluate. set (t := match shell_command_text _ with Some _ => _ | None => s end).
  assert (Ht : s ~ t) by (unfold t; case_match; [apply frame_observe|done]).
  clearbody t. destruct (tf_spawn_data_flow_only f).
  - pose proof (frame_data_flow t) as H1. destruct (taint_on_spawn_data_flow f rd ctx t) as [[r|] u]; cbn in H1.
    + etrans; [exact Ht|]. etrans; [exact H1|]. apply frame_stamp.
    + etrans; [exact Ht|]. etrans; [exact H1|].
      etrans; [apply (frame_effective (rd_later rd)); lia|]. apply frame_stamp.
  - pose proof (frame_effective (rd_now rd) t ltac:(lia)) as H1.
    destruct (get_effective_taint f (rd_now rd) ctx t) as [level u]. cbn in H1.
    etrans; [exact Ht|]. etrans; [exact H1|]. apply frame_stamp.
Qed.

Lemma evaluate_frame s r : s ~ (taint_evaluate f rd ctx (s, r)).2.1.
Proof.
  unfold taint_evaluate. destruct (ctx_call_type ctx); try apply frame_register; try done.
  - pose proof (frame_register (rd_instant rd) (rd_now rd) path (classify_source f path) s r) as H1.
    destruct (register_taint _ _ _ _ _ (s, r)) as [u q]. cbn in H1.
    destruct (is_tainted _); [|done]. cbn. etrans; [exact H1|].
    etrans; [by apply (frame_recent f (scope_prefix ctx) B Hne b (rd_later rd))|]. apply frame_mark_pid.
  - pose proof (frame_spawn s). by destruct (spawn_evaluate f rd ctx s).
  - match goal with |- context [network_sink f rd ctx ?t ?m s] => pose proof (frame_network t m s) end.
    by destruct (network_sink _ _ _ _ _ _).
  - pose proof (frame_register (rd_instant rd) (rd_now rd) old_path (classify_source f old_path) s r) as H1.
    destruct (register_taint _ _ _ old_path _ (s, r)) as [u q]. etrans; [exact H1|]. apply frame_register.
  - match goal with |- context [network_sink f rd ctx ?t ?m s] => pose proof (frame_network t m s) end.
    by destruct (network_sink _ _ _ _ _ _).
  - pose proof (frame_spawn s). by destruct (spawn_evaluate f rd ctx s).
  - destruct source; [apply frame_register|done].
Qed.

End EvaluateFrame.

(** ** Histories *)

(** What reaches the filter: calls, ends of sessions and the count of entries. *)
Inductive taint_op :=
  | OpEvaluate (rd : Reading) (ctx : ToolCallContext)
  | OpEnd (scope : SessionScopeKey)
  | OpCount (now : Z).

Definition taint_step (f : TaintFilter) (op : taint_op) (w : TaintWorld) : option FilterResult * TaintWorld :=
  match op with
  | OpEvaluate rd ctx => let '(r, w) := taint_evaluate f rd ctx w in (Some r, w)
  | OpEnd scope => (None, ((taint_evict scope w.1).2, w.2))
  | OpCount now => (None, ((tainted_path_count f now w.1).2, w.2))
  end.

Definition op_scope (op : taint_op) : option string :=
  match op with
  | OpEvaluate _ ctx => Some (scope_prefix ctx)
  | OpEnd scope => Some (scope_text scope)
  | OpCount _ => None
  end.

(** The answers of a scope's calls, in order. *)
Fixpoint answers_of (f : TaintFilter) (B : string) (ops : list taint_op) (w : TaintWorld) :
    list FilterResult :=
  match ops with
  | [] => []
  | op :: ops' =>
      let '(r, w) := taint_step f op w in
      (if decide (op_scope op = Some B) then option_list r else []) ++ answers_of f B ops' w
  end.

Definition taint_run (f : TaintFilter) (ops : list taint_op) (w : TaintWorld) : TaintWorld :=
  fold_left (λ w op, (taint_step f op w).2) ops w.

(** Clocks that do not go back. *)
Definition op_end (now : Z) (op : taint_op) : Z :=
  match op with OpEvaluate rd _ => rd_later rd | OpCount t => t | OpEnd _ => now end.

Fixpoint timed (now : Z) (ops : list taint_op) : Prop :=
  match ops with
  | [] => True
  | op :: ops' =>
      match op with
      | OpEvaluate rd _ => (now <= rd_now rd <= rd_later rd)%Z
      | OpCount t => (now <= t)%Z
      | OpEnd _ => True
      end ∧ timed (op_end now op) ops'
  end.

(** Calls without a level of their own, in scopes without the separating byte. *)
Definition plain_op (op : taint_op) : Prop :=
  match op with
  | OpEvaluate _ ctx => ctx_source_taint ctx = TaintNone ∧ nul_free (scope_prefix ctx)
  | _ => True
  end.

Lemma scope_text_nul_free u : nul_free (scope_text u).
Proof.
  unfold nul_free, scope_text. rewrite lacks_app. cbn [lacks ascii_eqb Ascii.eqb negb andb]. cbn.
  pose proof (Uuid_to_string_chars (scope_uuid u)) as Hc. revert Hc.
  induction (Uuid_to_string (scope_uuid u)) as [|c s IH]; [done|]. cbn [str_all lacks].
  intros [Hc Hs]%andb_prop. rewrite IH by done. rewrite andb_true_r.
  destruct (ascii_eqb c "000") eqn:E; [|done]. apply Ascii.eqb_eq in E as ->. done.
Qed.

Lemma step_same f op s1 s2 r1 r2 now B :
  op_scope op = Some B → timed now [op] → plain_op op → same_view f now B s1 s2 →
  verdict <$> (taint_step f op (s1, r1)).1 = verdict <$> (taint_step f op (s2, r2)).1
  ∧ same_view f (op_end now op) B (taint_step f op (s1, r1)).2.1 (taint_step f op (s2, r2)).2.1.
Proof.
  destruct op as [rd ctx|u|n]; cbn [op_scope timed op_end plain_op taint_step]; [| |done].
  - intros [= <-] [Ht _] [Hsrc _] Hv.
    destruct (evaluate_same f rd ctx ltac:(lia) Hsrc s1 s2 r1 r2) as [Hr Hs].
    { eapply same_view_later; [|exact Hv]. lia. }
    destruct (taint_evaluate f rd ctx (s1, r1)), (taint_evaluate f rd ctx (s2, r2)).
    cbn in *. split; [by rewrite Hr|done].
  - intros [= <-] _ _ Hv. split; [done|]. cbn [fst snd].
    etrans; [apply exact_same, evict_empty|]. symmetry. apply exact_same, evict_empty.
Qed.

Lemma step_frame f op s r now B :
  op_scope op ≠ Some B → is_scope B → nul_free B → timed now [op] → plain_op op →
  same_view f (Z.max now (op_end now op)) B s (taint_step f op (s, r)).2.1.
Proof.
  destruct op as [rd ctx|u|n]; cbn [op_scope timed op_end plain_op taint_step]; intros Hne HB Hn.
  - intros [Ht _] [_ HA].
    pose proof (evaluate_frame f rd ctx B (Z.max now (rd_later rd)) ltac:(lia) HA Hn ltac:(congruence) s r).
    by destruct (taint_evaluate f rd ctx (s, r)).
  - intros _ _. apply frame_evict; [done|congruence].
  - intros _ _. apply frame_stale. lia.
Qed.

Lemma timed_cons now op ops : timed now (op :: ops) → timed now [op] ∧ timed (op_end now op) ops.
Proof. cbn. tauto. Qed.

Lemma timed_end now op : timed now [op] → (now <= op_end now op)%Z.
Proof. destruct op; cbn; lia. Qed.

Lemma answers_same f B ops s1 s2 r1 r2 now :
  is_scope B → nul_free B → timed now ops → Forall plain_op ops → same_view f now B s1 s2 →
  map verdict (answers_of f B ops (s1, r1))
  = map verdict (answers_of f B (filter (λ op, op_scope op = Some B) ops) (s2, r2)).
Proof.
  intros HB Hn. revert s1 s2 r1 r2 now. induction ops as [|op ops IH]; intros s1 s2 r1 r2 now Ht Hp Hv; [done|].
  apply timed_cons in Ht as [Ht Hts]. apply Forall_cons in Hp as [Hp Hps]. rewrite filter_cons.
  pose proof (timed_end now op Ht) as Hend.
  destruct (decide (op_scope op = Some B)) as [Hs|Hs].
  - destruct (step_same f op s1 s2 r1 r2 now B Hs Ht Hp Hv) as [Hr Hv'].
    cbn [answers_of]. destruct (taint_step f op (s1, r1)) as [a1 [t1 q1]], (taint_step f op (s2, r2)) as [a2 [t2 q2]].
    cbn [fst snd] in *. destruct (decide (op_scope op = Some B)); [|done].
    rewrite !map_app. f_equal; [|by eapply IH].
    destruct a1, a2; try done. apply (inj Some) in Hr. exact (f_equal (λ x, [x]) Hr).
  - pose proof (step_frame f op s1 r1 now B Hs HB Hn Ht Hp) as Hv'. cbn [answers_of].
    destruct (taint_step f op (s1, r1)) as [a1 [t1 q1]]. cbn [fst snd] in Hv'.
    destruct (decide (op_scope op = Some B)); [done|]. cbn [app]. eapply IH; [done|done|].
    rewrite Z.max_r in Hv' by done. etrans; [symmetry; exact Hv'|]. by eapply same_view_later.
Qed.

(** ** Invariants over an evaluation *)

(** The levels a call may register a path with: at least the path's own, but for the
    target of a mount, which takes its source's. *)
Definition may_register (f : TaintFilter) (ctx : ToolCallContext) (path : string) (level : TaintLevel) : Prop :=
  (taint_ord (classify_source f path) <= taint_ord level)%Z
  ∨ ∃ op source fstype, ctx_call_type ctx = FilesystemMutation op source path fstype.

Section Invariant.
Context (f : TaintFilter) (rd : Reading) (ctx : ToolCallContext) (P : TaintState → Prop).

Definition put (n : Z) (path : string) (level : TaintLevel) (s : TaintState) : TaintState :=
  with_registry (<[registry_key ctx path := {| te_level := level; te_registered_at := n |}]>
                   (ts_registry s)) s.

Hypothesis Pstale : ∀ s n, n = rd_now rd ∨ n = rd_later rd → P s → P (evict_stale_entries f n s).
Hypothesis Pput : ∀ s n path level, n = rd_now rd ∨ n = rd_later rd → level ≠ TaintNone →
  may_register f ctx path level → P s → P (put n path level s).
Hypothesis Pread : ∀ s path, classify_source f path ≠ TaintNone → P s →
  P (with_recent (<[scope_prefix ctx := rd_later rd]> (ts_recent s))
       (put (rd_now rd) path (classify_source f path) s)).
Hypothesis Ppids : ∀ s m, P s → P (with_pids m s).
Hypothesis Pvars : ∀ s m, P s → P (with_vars m s).
Hypothesis Ppipes : ∀ s m, P s → P (with_pipes m s).

Lemma inv_register instant n path level s r :
  n = rd_now rd ∨ n = rd_later rd → may_register f ctx path level →
  P s → P (register_taint instant n ctx path level (s, r)).1.
Proof. intros. unfold register_taint. case_bool_decide; [done|]. by apply Pput. Qed.

Lemma inv_effective n s : n = rd_now rd ∨ n = rd_later rd → P s → P (get_effective_taint f n ctx s).2.
Proof. intros. unfold get_effective_taint. case_match; [done|]. by apply Pstale. Qed.

Lemma inv_stamp r s : P s → P (stamp_active f rd ctx r s).2.
Proof. intros. unfold stamp_active. case_match; [|done]. apply Pstale; tauto. Qed.

Lemma inv_observe command s : P s → P (observe_shell_command ctx command s).
Proof.
  intros Hs. unfold observe_shell_command.
  assert (Hfold : ∀ l s, P s → P (fold_left (observe_assignment ctx) l s)).
  { induction l as [|a l IH]; intros t Ht; cbn; [done|]. apply IH.
    unfold observe_assignment. case_match; [by apply Pvars|done]. }
  case_match; [apply Ppipes|]; by apply Hfold.
Qed.

Lemma inv_network tiers message s : P s → P (network_sink f rd ctx tiers message s).2.
Proof.
  intros Hs. unfold network_sink. pose proof (inv_effective (rd_now rd) s ltac:(tauto) Hs) as H1.
  destruct (get_effective_taint f (rd_now rd) ctx s) as [level t]. cbn in H1.
  pose proof (inv_stamp (tiers level (pid_taint_level ctx t)) t H1). by destruct (stamp_active _ _ _ _ t).
Qed.

Lemma inv_spawn s : P s → P (spawn_evaluate f rd ctx s).2.
Proof.
  intros Hs. unfold spawn_evaluate. set (t := match shell_command_text _ with Some _ => _ | None => s end).
  assert (Ht : P t) by (unfold t; case_match; [by apply inv_observe|done]). clearbody t.
  destruct (tf_spawn_data_flow_only f).
  - assert (H1 : P (taint_on_spawn_data_flow f rd ctx t).2).
    { unfold taint_on_spawn_data_flow. pose proof (inv_effective (rd_now rd) t ltac:(tauto) Ht).
      destruct (ctx_call_type ctx); try done; by destruct (get_effective_taint f (rd_now rd) ctx t). }
    destruct (taint_on_spawn_data_flow f rd ctx t) as [[r|] u]; cbn in H1; apply inv_stamp; [done|].
    apply inv_effective; tauto.
  - pose proof (inv_effective (rd_now rd) t ltac:(tauto) Ht) as H1.
    destruct (get_effective_taint f (rd_now rd) ctx t). by apply inv_stamp.
Qed.

Lemma may_own path : may_register f ctx path (classify_source f path).
Proof. left. lia. Qed.

Lemma may_combine path l : may_register f ctx path (combine_taint (classify_source f path) l).
Proof. left. rewrite taint_ord_combine. lia. Qed.

Lemma evaluate_inv s r : P s → P (taint_evaluate f rd ctx (s, r)).2.1.
Proof.
  intros Hs. unfold taint_evaluate.
  assert (Hreg : ∀ path level, may_register f ctx path level →
    P (register_taint (rd_instant rd) (rd_now rd) ctx path level (s, r)).1)
    by (intros; apply inv_register; tauto).
  destruct (ctx_call_type ctx) eqn:Hcall; try (by apply Hreg, may_own); try (by apply Hreg, may_combine);
    try exact Hs.
  - assert (Hmark : ∀ level s, P s → P (mark_pid_tainted ctx level s)).
    { intros level t Ht. unfold mark_pid_tainted. repeat case_match; by try apply Ppids. }
    specialize (Pread s path). unfold register_taint, is_tainted.
    destruct (classify_source f path) eqn:El; cbn -[mark_pid_tainted with_recent with_registry];
      [exact Hs|apply Hmark; by apply Pread..].
  - pose proof (inv_spawn s Hs). by destruct (spawn_evaluate f rd ctx s).
  - match goal with |- context [network_sink f rd ctx ?t ?m s] => pose proof (inv_network t m s Hs) end.
    by destruct (network_sink _ _ _ _ _ _).
  - pose proof (Hreg old_path _ (may_own old_path)) as H1.
    destruct (register_taint _ _ _ old_path _ (s, r)) as [u q]. apply inv_register; [tauto| |done].
    left. rewrite !taint_ord_combine. lia.
  - match goal with |- context [network_sink f rd ctx ?t ?m s] => pose proof (inv_network t m s Hs) end.
    by destruct (network_sink _ _ _ _ _ _).
  - pose proof (inv_spawn s Hs). by destruct (spawn_evaluate f rd ctx s).
  - destruct source as [src|]; [|exact Hs]. apply Hreg. right. by eexists _, _, _.
Qed.

End Invariant.

(** ** A sensitive read stays *)

Definition kept (B path : string) (l : TaintLevel) (t0 : Z) (s : TaintState) : Prop :=
  ∃ e, at_path B path s = Some e ∧ (taint_ord l <= taint_ord (te_level e))%Z ∧ (t0 <= te_registered_at e)%Z.

Lemma kept_stale f B path l t0 n s :
  (n <= t0 + tf_taint_ttl f)%Z → kept B path l t0 s → kept B path l t0 (evict_stale_entries f n s).
Proof.
  intros Hn (e & He & Hl & Ht). exists e. split; [|done]. rewrite evict_lookup. apply fresh_Some.
  split; [done|lia].
Qed.

Lemma kept_put B path l t0 ctx n path' level s :
  (entry_key (scope_prefix ctx) path' = entry_key B path → taint_ord l <= taint_ord level ∧ t0 <= n)%Z →
  kept B path l t0 s → kept B path l t0 (put ctx n path' level s).
Proof.
  intros Hk (e & He & Hl & Ht). unfold kept, at_path, put. cbn [ts_registry with_registry].
  change (registry_key ctx path') with (entry_key (scope_prefix ctx) path').
  destruct (decide (entry_key (scope_prefix ctx) path' = entry_key B path)) as [Heq|Hne].
  - rewrite Heq, lookup_insert_eq. eexists. split; [done|]. by apply Hk.
  - rewrite lookup_insert_ne by done. by exists e.
Qed.

(** What would let the entry go: the end of its session, or a mount onto its path. *)
Definition spares (B path : string) (op : taint_op) : Prop :=
  match op with
  | OpEvaluate _ ctx =>
      scope_prefix ctx = B → ∀ m source fstype, ctx_call_type ctx ≠ FilesystemMutation m source path fstype
  | OpEnd u => scope_text u ≠ B
  | OpCount _ => True
  end.

Lemma kept_step f B path t0 op now s r :
  nul_free B → is_scope B → plain_op op → spares B path op → timed now [op] → (t0 <= now)%Z →
  (op_end now op <= t0 + tf_taint_ttl f)%Z →
  kept B path (classify_source f path) t0 s →
  kept B path (classify_source f path) t0 (taint_step f op (s, r)).2.1.
Proof.
  intros HB Hsc Hplain Hsp Ht Hnow Hend Hk. destruct op as [rd ctx|u|n]; cbn in Ht, Hend, Hsp, Hplain;
    cbn [taint_step fst snd].
  - assert (Hput : ∀ s n path' level, n = rd_now rd ∨ n = rd_later rd → may_register f ctx path' level →
      kept B path (classify_source f path) t0 s → kept B path (classify_source f path) t0 (put ctx n path' level s)).
    { intros t n path' level Hn Hmay. apply kept_put. intros [HBc ->]%entry_key_inj; [|tauto|done].
      split; [|lia]. destruct Hmay as [?|(m & src & fs & Hcall)]; [done|]. by destruct (Hsp HBc m src fs). }
    pose proof (evaluate_inv f rd ctx (kept B path (classify_source f path) t0)) as Hinv.
    enough (Hk' : kept B path (classify_source f path) t0 (taint_evaluate f rd ctx (s, r)).2.1)
      by by destruct (taint_evaluate f rd ctx (s, r)).
    apply Hinv; try done.
    + intros t n Hn. apply kept_stale. lia.
    + intros t n p' level Hn _. by apply Hput.
    + intros t p' _ Ht'. apply (Hput t (rd_now rd) p' (classify_source f p')); [tauto|left; lia|done].
  - destruct Hk as (e & He & Hl). exists e. split; [|done]. rewrite <- He.
    unfold at_path. cbn [fst snd taint_evict ts_registry]. rewrite map_lookup_filter.
    destruct (ts_registry s !! entry_key B path); [cbn|done]. rewrite option_guard_True; [done|].
    apply not_true_is_false. intros Hs. by apply (session_key_scope u B path Hsc) in Hs as ->.
  - apply kept_stale; [lia|done].
Qed.

Lemma kept_run f B path t0 ops now s r :
  nul_free B → is_scope B → Forall plain_op ops → Forall (spares B path) ops → timed now ops →
  (t0 <= now)%Z → (fold_left op_end ops now <= t0 + tf_taint_ttl f)%Z →
  kept B path (classify_source f path) t0 s →
  kept B path (classify_source f path) t0 (taint_run f ops (s, r)).1.
Proof.
  intros HB Hsc. revert s r now. induction ops as [|op ops IH]; intros s r now Hp Hs Ht Hnow Hend Hk; [done|].
  apply Forall_cons in Hp as [Hp Hps], Hs as [Hs Hss]. apply timed_cons in Ht as [Ht Hts].
  cbn in Hend |- *. pose proof (timed_end now op Ht) as Hle.
  assert (Hmono : (op_end now op <= fold_left op_end ops (op_end now op))%Z).
  { clear -Hts. revert Hts. generalize (op_end now op). induction ops as [|o ops IH]; intros t Ht; cbn; [lia|].
    apply timed_cons in Ht as [Ho Hts]. pose proof (timed_end t o Ho). specialize (IH _ Hts). lia. }
  pose proof (kept_step f B path t0 op now s r HB Hsc Hp Hs Ht Hnow ltac:(lia) Hk) as Hk'.
  destruct (taint_step f op (s, r)) as [a [s' r']]. cbn in Hk' |- *.
  apply (IH s' r' (op_end now op)); (done || lia).
Qed.

(** ** The proximity signal *)

Definition backed (f : TaintFilter) (gap now : Z) (s : TaintState) : Prop :=
  ∀ B t, ts_recent s !! B = Some t → is_scope B ∧ (t <= now)%Z
    ∧ ((∃ p e, at_path B p s = Some e ∧ (t - gap <= te_registered_at e)%Z ∧ te_level e ≠ TaintNone)
       ∨ (t + PROXIMITY_WINDOW <= now)%Z).

Lemma backed_later f gap now later s : (now <= later)%Z → backed f gap now s → backed f gap later s.
Proof. intros Hle Hb B t Ht. destruct (Hb B t Ht) as (? & ? & [?|?]); repeat split; (auto || lia). Qed.

Lemma backed_stale f gap now n s :
  (n <= now)%Z → (PROXIMITY_WINDOW + gap <= tf_taint_ttl f)%Z →
  backed f gap now s → backed f gap now (evict_stale_entries f n s).
Proof.
  intros Hn Hgap Hb B t Ht. destruct (Hb B t Ht) as (Hsc & Hle & [(p & e & He & Hr & Hl)|?]); [|by auto].
  split; [done|]. split; [done|].
  destruct (Z.le_gt_cases (n - tf_taint_ttl f) (te_registered_at e)) as [Hf|Hf].
  - left. exists p, e. split; [|done]. rewrite evict_lookup. by apply fresh_Some.
  - right. lia.
Qed.

Lemma backed_put f gap now ctx n path level s :
  (now - gap <= n)%Z → level ≠ TaintNone → backed f gap now s → backed f gap now (put ctx n path level s).
Proof.
  intros Hn Hl Hb B t Ht. destruct (Hb B t Ht) as (Hsc & Hle & [(p & e & He & Hr & Hlv)|?]); [|by auto].
  split; [done|]. split; [done|]. left. exists p. unfold at_path, put in *. cbn [ts_registry with_registry].
  destruct (decide (registry_key ctx path = entry_key B p)) as [->|].
  - rewrite lookup_insert_eq. eexists. split; [done|]. cbn. split; [lia|done].
  - rewrite lookup_insert_ne by done. by exists e.
Qed.

Lemma backed_evaluate f gap now rd ctx s r :
  (now <= rd_now rd <= rd_later rd)%Z → (rd_later rd - rd_now rd <= gap)%Z →
  (PROXIMITY_WINDOW + gap <= tf_taint_ttl f)%Z →
  backed f gap now s → backed f gap (rd_later rd) (taint_evaluate f rd ctx (s, r)).2.1.
Proof.
  intros Ht Hg Hgap Hb. apply evaluate_inv.
  - intros t n Hn. apply backed_stale; lia.
  - intros t n path level Hn Hl _. apply backed_put; [lia|done].
  - intros t path Hl Hbt B u. cbn [ts_recent with_recent].
    destruct (decide (scope_prefix ctx = B)) as [<-|Hne].
    + rewrite lookup_insert_eq. intros [= <-]. split; [apply scope_prefix_is_scope|]. split; [lia|]. left.
      exists path. unfold at_path, put. cbn [ts_registry with_registry with_recent].
      change (registry_key ctx path) with (entry_key (scope_prefix ctx) path).
      rewrite lookup_insert_eq. eexists. split; [done|]. cbn. split; [lia|done].
    + rewrite lookup_insert_ne by done. intros Hu.
      by apply (backed_put f gap (rd_later rd) ctx (rd_now rd) path (classify_source f path) t
        ltac:(lia) Hl Hbt B u Hu).
  - done.
  - done.
  - done.
  - eapply backed_later; [|exact Hb]. lia.
Qed.

(** With a reading of the clock behind it, an entry is found when the level is asked
    for. *)
Lemma backed_no_bonus f gap now rd ctx s :
  (now <= rd_now rd <= rd_later rd)%Z → (rd_later rd - rd_now rd <= gap)%Z →
  (PROXIMITY_WINDOW + gap <= tf_taint_ttl f)%Z → backed f gap now s →
  (get_effective_taint f (rd_now rd) ctx s).1 = TaintNone → recent_read rd ctx s = false.
Proof.
  intros Ht Hg Hgap Hb Hnone. unfold recent_read.
  destruct (ts_recent s !! scope_prefix ctx) as [t|] eqn:Et; [|done].
  destruct (Hb _ _ Et) as (_ & Hle & Hcase). apply andb_false_iff. right. apply Z.ltb_ge.
  destruct Hcase as [(p & e & He & Hr & Hl)|?]; [|lia].
  destruct (Z.le_gt_cases (rd_now rd - tf_taint_ttl f) (te_registered_at e)) as [Hf|Hf]; [exfalso|lia].
  revert Hnone. unfold get_effective_taint. destruct (is_tainted (ctx_source_taint ctx)) eqn:Es.
  { by destruct (ctx_source_taint ctx). }
  cbn [fst]. intros Hh.
  pose proof (highest_level_ge ctx (evict_stale_entries f (rd_now rd) s) p e) as Hge.
  rewrite Hh in Hge. destruct (te_level e); try done; cbn in Hge;
    (assert (He' : at_path (scope_prefix ctx) p (evict_stale_entries f (rd_now rd) s) = Some e)
      by (rewrite evict_lookup; by apply fresh_Some)); specialize (Hge He'); lia.
Qed.

Definition no_proximity (r : FilterResult) : Prop := fr_rule_id r ≠ "proximity-sensitive-read".

Lemma stamp_rule f rd ctx r s : fr_rule_id (stamp_active f rd ctx r s).1 = fr_rule_id r.
Proof.
  unfold stamp_active. destruct (fr_matched r) eqn:E; [|done]. unfold active_source_categories. cbn [fst].
  unfold stamp_sources. rewrite E. by destruct (if decide _ then _ else _).
Qed.

Lemma stamp_recent f rd ctx r s : ts_recent (stamp_active f rd ctx r s).2 = ts_recent s.
Proof. unfold stamp_active. by destruct (fr_matched r). Qed.

Lemma effective_recent f n ctx s : ts_recent (get_effective_taint f n ctx s).2 = ts_recent s.
Proof. unfold get_effective_taint. by destruct (is_tainted _). Qed.

Lemma network_no_proximity f gap now rd ctx tiers message s :
  (now <= rd_now rd <= rd_later rd)%Z → (rd_later rd - rd_now rd <= gap)%Z →
  (PROXIMITY_WINDOW + gap <= tf_taint_ttl f)%Z → backed f gap now s →
  (∀ level pid, no_proximity (tiers level pid)) →
  no_proximity (network_sink f rd ctx tiers message s).1.
Proof.
  intros Ht Hg Hgap Hb Htiers. pose proof (backed_no_bonus f gap now rd ctx s Ht Hg Hgap Hb) as Hno.
  unfold network_sink. pose proof (effective_recent f (rd_now rd) ctx s) as Hrec.
  destruct (get_effective_taint f (rd_now rd) ctx s) as [level t]. cbn [fst snd] in *.
  pose proof (stamp_rule f rd ctx (tiers level (pid_taint_level ctx t)) t) as Hrule.
  pose proof (stamp_recent f rd ctx (tiers level (pid_taint_level ctx t)) t) as Hrec'.
  destruct (stamp_active _ _ _ _ t) as [a u]. cbn [fst snd] in *.
  assert (Hr : recent_read rd ctx u = recent_read rd ctx s)
    by (unfold recent_read; by rewrite Hrec', Hrec).
  unfold proximity_bonus. destruct (bool_decide (level = TaintNone)) eqn:El.
  - apply bool_decide_eq_true in El. rewrite Hr, Hno by done. cbn. unfold no_proximity.
    rewrite Hrule. apply Htiers.
  - cbn. unfold no_proximity. rewrite Hrule. apply Htiers.
Qed.

Lemma http_no_proximity level method url : no_proximity (taint_http_sink to_uppercase level method url).
Proof. unfold taint_http_sink, no_proximity. by repeat case_match. Qed.

Lemma connect_no_proximity level pid ctx address port :
  no_proximity (taint_connect_sink level pid ctx address port).
Proof. unfold taint_connect_sink, no_proximity. by repeat case_match. Qed.

Lemma conditions_shape f rd ctx command argv taint s r :
  data_flow_conditions f rd ctx command argv taint s = Some r →
  ∃ rule message, r = spawn_taint_match rule message ∧ starts_with "tainted-shell-sink-" rule = true.
Proof.
  unfold data_flow_conditions.
  repeat match goal with
  | |- context [match ?x with _ => _ end] =>
      lazymatch x with context [match _ with _ => _ end] => fail | _ => destruct x end
  end; try done; intros [= <-]; eexists _, _; by (split; [reflexivity|vm_compute]).
Qed.

Lemma spawn_no_proximity f rd ctx s : no_proximity (spawn_evaluate f rd ctx s).1.
Proof.
  unfold spawn_evaluate. set (t := match shell_command_text _ with Some _ => _ | None => s end). clearbody t.
  destruct (tf_spawn_data_flow_only f).
  - destruct (taint_on_spawn_data_flow f rd ctx t) as [o u] eqn:E.
    destruct o as [r|]; unfold no_proximity; rewrite stamp_rule; [|done].
    unfold taint_on_spawn_data_flow in E. destruct (ctx_call_type ctx); try done;
      destruct (get_effective_taint f (rd_now rd) ctx t); injection E as E _;
      apply conditions_shape in E as (rule & message & -> & Hrule); cbn; intros ->; by vm_compute in Hrule.
  - destruct (get_effective_taint f (rd_now rd) ctx t) as [level u]. unfold no_proximity.
    rewrite stamp_rule. by destruct level.
Qed.

Lemma evaluate_no_proximity f gap now rd ctx s r :
  (now <= rd_now rd <= rd_later rd)%Z → (rd_later rd - rd_now rd <= gap)%Z →
  (PROXIMITY_WINDOW + gap <= tf_taint_ttl f)%Z → backed f gap now s →
  no_proximity (taint_evaluate f rd ctx (s, r)).1.
Proof.
  intros Ht Hg Hgap Hb. unfold taint_evaluate. destruct (ctx_call_type ctx); try done.
  - destruct (register_taint _ _ _ _ _ (s, r)). by destruct (is_tainted _).
  - pose proof (spawn_no_proximity f rd ctx s). by destruct (spawn_evaluate f rd ctx s).
  - match goal with |- context [network_sink f rd ctx ?t ?m s] =>
      pose proof (network_no_proximity f gap now rd ctx t m s Ht Hg Hgap Hb (λ l _, http_no_proximity l _ _)) end.
    by destruct (network_sink _ _ _ _ _ _).
  - match goal with |- context [network_sink f rd ctx ?t ?m s] =>
      pose proof (network_no_proximity f gap now rd ctx t m s Ht Hg Hgap Hb
                    (λ l p, connect_no_proximity l p ctx address port)) end.
    by destruct (network_sink _ _ _ _ _ _).
  - pose proof (spawn_no_proximity f rd ctx s). by destruct (spawn_evaluate f rd ctx s).
Qed.

(** The readings of a call are at most [gap] apart. *)
Definition prompt (gap : Z) (op : taint_op) : Prop :=
  match op with OpEvaluate rd _ => (rd_later rd - rd_now rd <= gap)%Z | _ => True end.

Lemma backed_step f gap now op s r :
  timed now [op] → prompt gap op → (0 <= gap)%Z → (PROXIMITY_WINDOW + gap <= tf_taint_ttl f)%Z →
  backed f gap now s → backed f gap (op_end now op) (taint_step f op (s, r)).2.1.
Proof.
  intros Ht Hp Hg0 Hgap Hb. destruct op as [rd ctx|u|n]; cbn in Ht, Hp; cbn [taint_step fst snd op_end].
  - pose proof (backed_evaluate f gap now rd ctx s r ltac:(lia) Hp Hgap Hb).
    by destruct (taint_evaluate f rd ctx (s, r)).
  - intros B t. cbn [taint_evict snd ts_recent]. rewrite lookup_delete_Some. intros [Hne Hr].
    destruct (Hb B t Hr) as (Hsc & Hle & Hcase). split; [done|]. split; [done|].
    destruct Hcase as [(p & e & He & Hrest)|?]; [left|by right]. exists p, e. split; [|done].
    pose proof (sv_paths _ _ _ _ _ (frame_evict f (te_registered_at e + tf_taint_ttl f) u B s Hsc Hne) p) as Hv.
    rewrite He in Hv. cbn [fresh mbind option_bind] in Hv.
    rewrite (proj2 (Z.leb_le _ _)) in Hv by lia. symmetry in Hv. by apply fresh_Some in Hv as [? _].
  - apply backed_stale; [lia|done|]. eapply backed_later; [|exact Hb]. lia.
Qed.

(** ** The sessions' registry *)

Lemma activated_is_active instant scope reason reg :
  registry_wf reg →
  registry_is_containment_active scope (registry_activate_containment instant scope reason reg) = true.
Proof.
  intros Hwf. unfold registry_is_containment_active, registry_activate_containment.
  destruct (get_or_create instant scope reg) as [l reg1] eqn:E.
  assert (Hl : ∃ s, reg_sessions reg1 !! scope = Some l ∧ reg_store reg1 !! l = Some s).
  { unfold get_or_create in E. destruct (reg_sessions reg !! scope) as [l'|] eqn:El.
    - destruct (wf_cell _ Hwf _ _ El) as (s & Hs & _). injection E as <- <-. cbn.
      exists (touch instant s). by rewrite lookup_alter_eq, Hs.
    - injection E as <- <-. cbn. rewrite lookup_insert_eq, lookup_alter_eq, lookup_insert_eq. by eexists. }
  destruct Hl as (s & Hl & Hs). unfold registry_cell, registry_get, with_cell. cbn. rewrite Hl. cbn.
  rewrite lookup_alter_eq, Hs. cbn. unfold activate_containment, cas_active.
  by destruct (ss_containment_active s) eqn:Ea.
Qed.

Definition is_activation (o : registry_op) : Prop := ∃ i scope reason, o = OpActivate i scope reason.

Definition activates (r r' : SessionStateRegistry) : Prop :=
  ∃ l, r' = registry_run l r ∧ Forall is_activation l.

Lemma activates_refl r : activates r r.
Proof. exists []. by split. Qed.

Lemma activates_trans r1 r2 r3 : activates r1 r2 → activates r2 r3 → activates r1 r3.
Proof.
  intros (l & -> & Hl) (k & -> & Hk). exists (l ++ k). split; [|by apply Forall_app].
  unfold registry_run. by rewrite fold_left_app.
Qed.

Lemma activates_register instant n ctx path level s r :
  activates r (register_taint instant n ctx path level (s, r)).2.
Proof.
  unfold register_taint. case_bool_decide; [apply activates_refl|]. cbn.
  case_bool_decide; [|apply activates_refl].
  exists [OpActivate instant (scope_or_warn ctx) (SensitiveAccessOutsideScope path "high")].
  split; [done|]. repeat constructor. by eexists _, _, _.
Qed.

Lemma activates_step f op s r : activates r (taint_step f op (s, r)).2.2.
Proof.
  destruct op as [rd ctx|u|n]; cbn [taint_step snd]; try apply activates_refl.
  enough (He : activates r (taint_evaluate f rd ctx (s, r)).2.2) by by destruct (taint_evaluate f rd ctx (s, r)).
  unfold taint_evaluate. destruct (ctx_call_type ctx); try apply activates_register; try apply activates_refl.
  - pose proof (activates_register (rd_instant rd) (rd_now rd) ctx path (classify_source f path) s r) as H1.
    destruct (register_taint _ _ _ _ _ (s, r)). by destruct (is_tainted _).
  - destruct (spawn_evaluate f rd ctx s). apply activates_refl.
  - destruct (network_sink _ _ _ _ _ _). apply activates_refl.
  - pose proof (activates_register (rd_instant rd) (rd_now rd) ctx old_path (classify_source f old_path) s r) as H1.
    destruct (register_taint _ _ _ old_path _ (s, r)) as [u q]. eapply activates_trans; [exact H1|].
    apply activates_register.
  - destruct (network_sink _ _ _ _ _ _). apply activates_refl.
  - destruct (spawn_evaluate f rd ctx s). apply activates_refl.
  - destruct source; [apply activates_register|apply activates_refl].
Qed.

Lemma activates_run f ops w : activates w.2 (taint_run f ops w).2.
Proof.
  revert w. induction ops as [|op ops IH]; intros [s r]; cbn; [apply activates_refl|].
  eapply activates_trans; [apply (activates_step f op s r)|apply IH].
Qed.

Lemma activates_keeps scope r r' :
  registry_wf r → activates r r' → registry_is_containment_active scope r = true →
  registry_is_containment_active scope r' = true.
Proof.
  intros Hwf (l & -> & Hl). unfold registry_is_containment_active.
  destruct (registry_cell scope r) as [c|] eqn:Ec; [|done]. intros Ha.
  destruct (registry_run_le l r scope c Hwf) as (c' & -> & _ & Hle & _); [|done|by apply Hle].
  intros Hin. rewrite Forall_forall in Hl. by destruct (Hl _ Hin) as (? & ? & ? & ?).
Qed.

(** ** Properties *)

(** C19: scopes do not affect one another.  Whatever the calls, session ends and counts
    that reach the filter, in whatever interleaving, the answers a session or a
    conversation gets are those it would get if only its own operations had happened:
    same match, score, rule, severity and metadata (the message may name another of
    several tainted paths).  The clock must not go back, no call may carry a level of
    its own, and no conversation id may contain a NUL byte. *)
Theorem taint_scopes_isolated f B ops w now (Hscope : is_scope B) (Hnul : nul_free B)
    (Htimed : timed now ops) (Hplain : Forall plain_op ops) :
  map verdict (answers_of f B ops w)
  = map verdict (answers_of f B (filter (λ op, op_scope op = Some B) ops) w).
Proof. destruct w as [s r]. by apply (answers_same f B ops s s r r now). Qed.

(** The end of a session forgets it, and nothing else.  Afterwards the session's
    calls are answered as by a fresh filter, whatever happened before and whatever else
    happens in between; what every other session and conversation sees is unchanged. *)
Theorem ended_session_forgotten f u ops s r now B
    (Htimed : timed now ops) (Hplain : Forall plain_op ops) (Hscope : is_scope B)
    (Hother : B ≠ scope_text u) :
  map verdict (answers_of f (scope_text u) ops ((taint_evict u s).2, r))
  = map verdict (answers_of f (scope_text u) (filter (λ op, op_scope op = Some (scope_text u)) ops)
                   (TaintState_new, r))
  ∧ ∀ t, same_view f t B s (taint_evict u s).2.
Proof.
  split.
  - apply (answers_same f _ ops _ _ r r now); [right; by exists u|apply scope_text_nul_free|done|done|].
    apply exact_same, evict_empty.
  - intros t. by apply frame_evict.
Qed.

(** The proximity signal never comes into play.  A read that could trigger it also
    registers taint, and the entry outlives the window of the signal, so wherever the
    signal would look for a recent read the level is not none.  From a fresh filter, for
    every sequence of calls, session ends and counts, as long as the clock does not go
    back and the readings of one call lie within [gap] of each other, no answer carries
    the rule of the signal. *)
Theorem proximity_never f ops r gap now B
    (Htimed : timed now ops) (Hprompt : Forall (prompt gap) ops) (Hgap0 : (0 <= gap)%Z)
    (Hgap : (PROXIMITY_WINDOW + gap <= tf_taint_ttl f)%Z) :
  Forall no_proximity (answers_of f B ops (TaintState_new, r)).
Proof.
  assert (Hb : backed f gap now TaintState_new) by (intros B' t Ht; cbn in Ht; by rewrite lookup_empty in Ht).
  revert Hb. generalize TaintState_new. revert r now Htimed. induction ops as [|op ops IH];
    intros r now Ht s Hb; [constructor|].
  apply timed_cons in Ht as [Ht Hts]. apply Forall_cons in Hprompt as [Hp Hps].
  pose proof (backed_step f gap now op s r Ht Hp Hgap0 Hgap Hb) as Hb'. cbn [answers_of].
  assert (Ha : Forall no_proximity (option_list (taint_step f op (s, r)).1)).
  { destruct op as [rd ctx|u|n]; [|constructor..]. cbn in Ht, Hp. cbn [taint_step].
    pose proof (evaluate_no_proximity f gap now rd ctx s r ltac:(lia) Hp Hgap Hb) as Hr.
    destruct (taint_evaluate f rd ctx (s, r)). repeat constructor. exact Hr. }
  destruct (taint_step f op (s, r)) as [a [s' r']]. cbn [fst snd] in *.
  apply Forall_app. split; [by destruct (decide _)|]. by apply (IH Hps r' (op_end now op)).
Qed.

(** Equal tiers: all but the message and the metadata. *)
Definition same_tier (a b : FilterResult) : Prop :=
  fr_matched a = fr_matched b ∧ fr_score a = fr_score b ∧ fr_rule_id a = fr_rule_id b
  ∧ fr_severity a = fr_severity b.

Lemma stamp_tier f rd ctx r s : same_tier (stamp_active f rd ctx r s).1 r.
Proof.
  unfold stamp_active. destruct (fr_matched r) eqn:E; [|done]. unfold active_source_categories. cbn [fst].
  unfold stamp_sources. rewrite E. by destruct (if decide _ then _ else _).
Qed.

(** The level in effect after a sensitive read. *)
Lemma read_level f rd0 ctx0 path ops rd ctx s r :
  ctx_call_type ctx0 = FileRead path → classify_source f path ≠ TaintNone →
  plain_op (OpEvaluate rd0 ctx0) → plain_op (OpEvaluate rd ctx) → scope_prefix ctx = scope_prefix ctx0 →
  timed (rd_now rd0) (OpEvaluate rd0 ctx0 :: ops ++ [OpEvaluate rd ctx]) →
  Forall plain_op ops → Forall (spares (scope_prefix ctx0) path) ops →
  (rd_now rd <= rd_now rd0 + tf_taint_ttl f)%Z →
  let s' := (taint_run f (OpEvaluate rd0 ctx0 :: ops) (s, r)).1 in
  kept (scope_prefix ctx0) path (classify_source f path) (rd_now rd0) (evict_stale_entries f (rd_now rd) s')
  ∧ (taint_ord (classify_source f path) <=
     taint_ord (get_effective_taint f (rd_now rd) ctx s').1)%Z.
Proof.
  intros Hcall Hl [_ Hn0] [Hsrc _] Hsc Ht Hp Hs Httl s'.
  apply timed_cons in Ht as [Ht0 Ht]. cbn [op_end] in Ht.
  assert (Hend : ∀ now, timed now (ops ++ [OpEvaluate rd ctx]) →
            timed now ops ∧ (fold_left op_end ops now <= rd_now rd)%Z).
  { clear. induction ops as [|o ops IH]; intros t Ht; [cbn in *; lia|].
    apply timed_cons in Ht as [Ho Ht]. destruct (IH _ Ht) as [Hto Hle]. cbn in Ho |- *. tauto. }
  destruct (Hend _ Ht) as [Hto Hle]. cbn in Ht0.
  assert (Hk : kept (scope_prefix ctx0) path (classify_source f path) (rd_now rd0) s').
  { unfold s'. cbn [taint_run fold_left].
    change (fold_left _ ops ?w) with (taint_run f ops w).
    assert (Hread : kept (scope_prefix ctx0) path (classify_source f path) (rd_now rd0)
                      (taint_step f (OpEvaluate rd0 ctx0) (s, r)).2.1).
    { cbn [taint_step]. unfold taint_evaluate. rewrite Hcall. unfold register_taint.
      rewrite bool_decide_false by done. unfold is_tainted. rewrite bool_decide_false by done. cbn [negb snd fst].
      assert (Hm : ∀ t, ts_registry (mark_pid_tainted ctx0 (classify_source f path) t) = ts_registry t)
        by (intros t; unfold mark_pid_tainted; by repeat case_match).
      unfold kept, at_path. rewrite Hm. cbn [ts_registry with_recent with_registry].
      change (registry_key ctx0 path) with (entry_key (scope_prefix ctx0) path).
      rewrite lookup_insert_eq. eexists. split; [done|]. cbn. lia. }
    destruct (taint_step f (OpEvaluate rd0 ctx0) (s, r)) as [a [s1 r1]]. cbn [snd fst] in *.
    apply (kept_run f _ path _ ops (rd_later rd0)); (done || lia || apply scope_prefix_is_scope). }
  apply (kept_stale f _ _ _ _ (rd_now rd)) in Hk; [|done]. split; [done|].
  rewrite effective_level by done. cbn [fst]. destruct Hk as (e & He & Hle' & _).
  etrans; [exact Hle'|]. apply (highest_level_ge ctx _ path). by rewrite Hsc.
Qed.

Definition after_shell_text (ctx : ToolCallContext) (s : TaintState) : TaintState :=
  match shell_command_text (ctx_call_type ctx) with
  | Some text => observe_shell_command ctx text s
  | None => s
  end.

Lemma shell_text_registry ctx s : ts_registry (after_shell_text ctx s) = ts_registry s.
Proof.
  unfold after_shell_text. destruct (shell_command_text _) as [text|]; [|done]. unfold observe_shell_command.
  assert (Hf : ∀ l u, ts_registry (fold_left (observe_assignment ctx) l u) = ts_registry u).
  { induction l as [|a l IH]; intros u; cbn; [done|]. rewrite IH. unfold observe_assignment. by case_match. }
  case_match; cbn; apply Hf.
Qed.

Lemma shell_text_pids ctx s : ts_pids (after_shell_text ctx s) = ts_pids s.
Proof.
  unfold after_shell_text. destruct (shell_command_text _) as [text|]; [|done]. unfold observe_shell_command.
  assert (Hf : ∀ l u, ts_pids (fold_left (observe_assignment ctx) l u) = ts_pids u).
  { induction l as [|a l IH]; intros u; cbn; [done|]. rewrite IH. unfold observe_assignment. by case_match. }
  case_match; cbn; apply Hf.
Qed.

Lemma shell_text_level f now ctx s :
  (get_effective_taint f now ctx (after_shell_text ctx s)).1 = (get_effective_taint f now ctx s).1.
Proof.
  unfold get_effective_taint. destruct (is_tainted _); [done|]. cbn [fst].
  unfold evict_stale_entries. cbn. by rewrite shell_text_registry.
Qed.

Lemma network_tier f rd ctx tiers message s :
  ctx_source_taint ctx = TaintNone →
  let level := (get_effective_taint f (rd_now rd) ctx s).1 in
  level ≠ TaintNone →
  same_tier (network_sink f rd ctx tiers message s).1 (tiers level (pid_taint_level ctx s)).
Proof.
  intros Hsrc level Hl. unfold network_sink, level in *. rewrite effective_level in * by done. cbn [fst] in *.
  set (l := highest_level _ _) in *.
  pose proof (stamp_tier f rd ctx (tiers l (pid_taint_level ctx (evict_stale_entries f (rd_now rd) s)))
                (evict_stale_entries f (rd_now rd) s)) as Hst.
  destruct (stamp_active _ _ _ _ _) as [a u]. cbn [fst] in *. unfold proximity_bonus.
  by rewrite bool_decide_false.
Qed.

Lemma legacy_tier f rd ctx s :
  tf_spawn_data_flow_only f = false →
  same_tier (spawn_evaluate f rd ctx s).1
    (legacy_shell_sink (get_effective_taint f (rd_now rd) ctx s).1 ctx).
Proof.
  intros Hoff. unfold spawn_evaluate. rewrite Hoff. fold (after_shell_text ctx s).
  rewrite <- (shell_text_level f (rd_now rd) ctx s).
  destruct (get_effective_taint f (rd_now rd) ctx (after_shell_text ctx s)) as [l t]. apply stamp_tier.
Qed.

(** C14: a sensitive read is not forgotten while it is fresh.  After a call has read a
    path the patterns know, and whatever follows it, for as long as the entry lives and
    unless the session ends or a mount is placed on the path, every request, every
    connection and, under the rule that any taint is enough, every spawn of the same
    scope is scored by the tier of a level that is at least the path's. *)
Theorem fresh_read_reaches_sinks f rd0 ctx0 path ops rd ctx s r
    (Hread : ctx_call_type ctx0 = FileRead path) (Hlevel : classify_source f path ≠ TaintNone)
    (Hplain0 : plain_op (OpEvaluate rd0 ctx0)) (Hplain1 : plain_op (OpEvaluate rd ctx))
    (Hscope : scope_prefix ctx = scope_prefix ctx0)
    (Htimed : timed (rd_now rd0) (OpEvaluate rd0 ctx0 :: ops ++ [OpEvaluate rd ctx]))
    (Hplain : Forall plain_op ops) (Hspares : Forall (spares (scope_prefix ctx0) path) ops)
    (Hfresh : (rd_now rd <= rd_now rd0 + tf_taint_ttl f)%Z) :
  let w := taint_run f (OpEvaluate rd0 ctx0 :: ops) (s, r) in
  let answer := (taint_evaluate f rd ctx w).1 in
  ∃ level, (taint_ord (classify_source f path) <= taint_ord level)%Z
  ∧ match ctx_call_type ctx with
    | HttpRequest method url => same_tier answer (taint_http_sink to_uppercase level method url)
    | NetConnect address port =>
        same_tier answer (taint_connect_sink level (pid_taint_level ctx w.1) ctx address port)
    | ShellExec _ _ | ProcessSpawn _ _ =>
        tf_spawn_data_flow_only f = false → same_tier answer (legacy_shell_sink level ctx)
    | _ => True
    end.
Proof.
  intros w answer.
  destruct (read_level f rd0 ctx0 path ops rd ctx s r Hread Hlevel Hplain0 Hplain1 Hscope Htimed Hplain
              Hspares Hfresh) as [_ Hle]. fold w in Hle.
  exists (get_effective_taint f (rd_now rd) ctx w.1).1. split; [exact Hle|].
  assert (Hne : (get_effective_taint f (rd_now rd) ctx w.1).1 ≠ TaintNone).
  { intros Hn. rewrite Hn in Hle. by destruct (classify_source f path). }
  destruct Hplain1 as [Hsrc _]. unfold answer, taint_evaluate. destruct w as [t q]. cbn [fst snd] in *.
  destruct (ctx_call_type ctx) eqn:Hcall; try done.
  - intros Hoff. pose proof (legacy_tier f rd ctx t Hoff). by destruct (spawn_evaluate f rd ctx t).
  - match goal with |- context [network_sink f rd ctx ?tiers ?m t] =>
      pose proof (network_tier f rd ctx tiers m t Hsrc Hne) end. by destruct (network_sink _ _ _ _ _ _).
  - match goal with |- context [network_sink f rd ctx ?tiers ?m t] =>
      pose proof (network_tier f rd ctx tiers m t Hsrc Hne) end. by destruct (network_sink _ _ _ _ _ _).
  - intros Hoff. pose proof (legacy_tier f rd ctx t Hoff). by destruct (spawn_evaluate f rd ctx t).
Qed.

Lemma conditions_path f rd ctx command argv s p arg c :
  p ∈ tainted_paths_for_scope ctx s → arg ∈ argv → c ∈ argv_path_candidates arg →
  argv_arg_matches_tainted_path c p (resolve_argv_token c (caller_cwd rd ctx))
    (tainted_basename_is_sensitive f p) = true →
  ∃ message, data_flow_conditions f rd ctx command argv true s
             = Some (spawn_taint_match "tainted-shell-sink-argv-path" message).
Proof.
  intros Hp Ha Hc Hm. unfold data_flow_conditions.
  assert (Hs : is_Some (argv_tainted_path f (caller_cwd rd ctx) (tainted_paths_for_scope ctx s) argv))
    by (apply argv_path_some; exists p; split; [done|]; by exists arg, c).
  destruct Hs as [q ->]. by eexists.
Qed.

(** C16: Under the data-flow rule, a spawn or shell call one of whose arguments denotes
    a path that was read as sensitive, or a file under it, is matched by the rule of the
    argument with score 3, whatever the program is, when: the read was of the same scope
    and not longer ago than the time to live of taint; the operations in between, on
    clocks that do not go back, neither end that session nor mount something onto the
    path; no context carries a taint level of its own or a scope with a NUL; and the
    path is the argument after at most the bounded number of cuts at an equals or at
    sign, the file scheme and a leading at sign stripped, resolved against the caller's
    directory. *)
Theorem tainted_upload_flagged f rd0 ctx0 path ops rd ctx s r command argv arg k t q
    (Hread : ctx_call_type ctx0 = FileRead path) (Hlevel : classify_source f path ≠ TaintNone)
    (Hplain0 : plain_op (OpEvaluate rd0 ctx0)) (Hplain1 : plain_op (OpEvaluate rd ctx))
    (Hscope : scope_prefix ctx = scope_prefix ctx0)
    (Htimed : timed (rd_now rd0) (OpEvaluate rd0 ctx0 :: ops ++ [OpEvaluate rd ctx]))
    (Hplain : Forall plain_op ops) (Hspares : Forall (spares (scope_prefix ctx0) path) ops)
    (Hfresh : (rd_now rd <= rd_now rd0 + tf_taint_ttl f)%Z)
    (Hrule : tf_spawn_data_flow_only f = true)
    (Hspawn : ctx_call_type ctx = ProcessSpawn command argv ∨ ctx_call_type ctx = ShellExec command argv)
    (Harg : arg ∈ argv) (Hcuts : k <= MAX_ARGV_CANDIDATE_CUTS) (Htail : tail_at k arg = Some t)
    (Hne : strip_at (strip_file_scheme t) ≠ "")
    (Hden : denotes (caller_cwd rd ctx) (strip_at (strip_file_scheme t)) = Some q)
    (Hunder : path_equals_or_under q path = true) :
  let answer := (taint_evaluate f rd ctx (taint_run f (OpEvaluate rd0 ctx0 :: ops) (s, r))).1 in
  fr_matched answer = true ∧ fr_score answer = f64_of_Z 3
  ∧ fr_rule_id answer = "tainted-shell-sink-argv-path".
Proof.
  intros answer.
  destruct (read_level f rd0 ctx0 path ops rd ctx s r Hread Hlevel Hplain0 Hplain1 Hscope Htimed Hplain
              Hspares Hfresh) as [(e & He & _) Hle].
  destruct Hplain1 as [Hsrc _]. revert answer He Hle.
  generalize (taint_run f (OpEvaluate rd0 ctx0 :: ops) (s, r)). clear s r Htimed. intros [s r] answer He Hle.
  cbn [fst] in *.
  assert (Hpath : path ∈ tainted_paths_for_scope ctx
            (get_effective_taint f (rd_now rd) ctx (after_shell_text ctx s)).2).
  { apply tainted_paths_spec. rewrite effective_level by done. cbn [snd]. exists e.
    rewrite Hscope. rewrite evict_lookup in *. unfold at_path in *. by rewrite shell_text_registry. }
  assert (Htaint : is_tainted (get_effective_taint f (rd_now rd) ctx (after_shell_text ctx s)).1 = true).
  { rewrite shell_text_level. apply is_tainted_ord. destruct (classify_source f path); [done|cbn in Hle; lia..]. }
  assert (Hcand : strip_file_scheme t ∈ argv_path_candidates arg).
  { unfold argv_path_candidates. apply candidates_spec. right. exists k, t.
    split; [lia|]. split; [done|]. split; [done|]. intros Hz. by rewrite Hz in Hne. }
  assert (Ho : ∃ message, (taint_on_spawn_data_flow f rd ctx (after_shell_text ctx s)).1
             = Some (spawn_taint_match "tainted-shell-sink-argv-path" message)).
  { unfold taint_on_spawn_data_flow.
    destruct (get_effective_taint f (rd_now rd) ctx (after_shell_text ctx s)) as [l u]. cbn [fst snd] in *.
    rewrite Htaint. destruct Hspawn as [-> | ->]; cbn [orb];
      by eapply conditions_path, denoted_path_matches. }
  assert (Hs : (taint_evaluate f rd ctx (s, r)).1 = (spawn_evaluate f rd ctx s).1)
    by (unfold taint_evaluate; destruct Hspawn as [-> | ->]; by destruct (spawn_evaluate f rd ctx s)).
  unfold answer. rewrite Hs. unfold spawn_evaluate. rewrite Hrule. fold (after_shell_text ctx s).
  destruct (taint_on_spawn_data_flow f rd ctx (after_shell_text ctx s)) as [o u], Ho as [m Ho].
  cbn [fst] in Ho. subst o. destruct (stamp_tier f rd ctx (spawn_taint_match "tainted-shell-sink-argv-path" m) u)
    as (-> & -> & -> & _). done.
Qed.

(** Reading key material contains the session.  Once a call has read a path of the
    highest level its session is contained in the registry of sessions, and stays so
    whatever calls, session ends and counts the filter sees afterwards. *)
Theorem high_read_contains f rd ctx path ops s r
    (Hread : ctx_call_type ctx = FileRead path) (Hhigh : classify_source f path = TaintHigh)
    (Hwf : registry_wf r) :
  registry_is_containment_active (scope_or_warn ctx)
    (taint_run f (OpEvaluate rd ctx :: ops) (s, r)).2 = true.
Proof.
  change (taint_run f (OpEvaluate rd ctx :: ops) (s, r))
    with (taint_run f ops (taint_step f (OpEvaluate rd ctx) (s, r)).2).
  assert (Hs : (taint_step f (OpEvaluate rd ctx) (s, r)).2.2 =
    registry_activate_containment (rd_instant rd) (scope_or_warn ctx) (SensitiveAccessOutsideScope path "high") r).
  { cbn [taint_step]. unfold taint_evaluate. rewrite Hread, Hhigh. done. }
  eapply activates_keeps; [|apply activates_run|].
  - rewrite Hs. by apply (registry_step_wf (OpActivate _ _ _)).
  - rewrite Hs. by apply activated_is_active.
Qed.

End Flow.

(** ** Witnesses *)

Module Example_taint.
#[local] Existing Instance concrete_deps.
#[local] Existing Instance ascii_unicode.
#[local] Existing Instance concrete_iter.

#[export] Instance text : TaintText := {|
  to_uppercase := to_ascii_uppercase;
  fmt_argv l := "[" +:+ join ", " l +:+ "]";
  json_string := JString;
  json_strings l := JArray (map JString l);
|}.

Definition reading (seconds : Z) : Reading := {|
  rd_now := from_secs seconds; rd_later := from_secs seconds; rd_instant := from_secs seconds;
  rd_current_dir := Some "/proj"; rd_proc_cwd _ := Some "/proj"; rd_canonicalize p := Some p;
|}.

(** A call of a process of the session. *)
Definition call (session : Uuid) (pid : N) (t : ToolCallType) : ToolCallContext :=
  let c := ToolCallContext_new uuid_a 0%Z "supervisor:tool" t session in
  {| ctx_id := ctx_id c; ctx_timestamp := ctx_timestamp c; ctx_plugin_id := ctx_plugin_id c;
     ctx_call_type := t; ctx_arguments := JObject [("pid", JNumber pid)];
     ctx_session_id := session; ctx_task_context := None; ctx_call_sequence_number := 0;
     ctx_source_taint := TaintNone; ctx_profile_name := None; ctx_conversation_id := None;
     ctx_session_scope := Some (from_session_id session); ctx_spawn_provenance := None;
     ctx_listener_policy_match := None; ctx_bind_protocol := None |}.

Definition f : TaintFilter :=
  with_outbound_taint_requires_data_flow true (with_spawn_data_flow_only true with_defaults).

Definition at_ (seconds : Z) (session : Uuid) (pid : N) (t : ToolCallType) : taint_op :=
  OpEvaluate (reading seconds) (call session pid t).

Definition start : TaintWorld := (TaintState_new, registry_new).

Definition rules (B : Uuid) (ops : list taint_op) : list (string * bool) :=
  map (λ r, (fr_rule_id r, fr_matched r))
    (answers_of f (scope_text (from_session_id B)) ops start).

(** Levels of paths. *)
Example levels :
  map (classify_source f)
    ["/h/.ssh/id_rsa"; "/proj/.env"; "/h/.netrc"; "/proj/src/lib.rs"; "/proj/api/[token]/route.ts"]
  = [TaintHigh; TaintMedium; TaintLow; TaintNone; TaintLow].
Proof. vm_compute. reflexivity. Qed.

(** A file written by a process that read a secret is tainted; a rename by another
    process loses it: only the name and the renaming process are asked, not the
    registry. *)
Example rename_loses_taint :
  rules uuid_a
    [at_ 1 uuid_a 7 (FileRead "/proj/.env"); at_ 2 uuid_a 7 (FileWrite "/tmp/a" "");
     at_ 3 uuid_a 8 (ProcessSpawn "/bin/up" ["up"; "/tmp/a"]);
     at_ 4 uuid_a 9 (FileRename "/tmp/a" "/tmp/b");
     at_ 5 uuid_a 8 (ProcessSpawn "/bin/up" ["up"; "/tmp/b"])]
  = [("", false); ("", false); ("tainted-shell-sink-argv-path", true); ("", false); ("", false)].
Proof. vm_compute. reflexivity. Qed.

(** Reading such a file does not taint the reader: its copy is clean. *)
Example copy_of_copy_is_clean :
  rules uuid_a
    [at_ 1 uuid_a 7 (FileRead "/proj/.env"); at_ 2 uuid_a 7 (FileWrite "/tmp/a" "");
     at_ 3 uuid_a 8 (FileRead "/tmp/a"); at_ 4 uuid_a 8 (FileWrite "/tmp/b" "");
     at_ 5 uuid_a 8 (ProcessSpawn "/bin/up" ["up"; "/tmp/b"])]
  = [("", false); ("", false); ("", false); ("", false); ("", false)].
Proof. vm_compute. reflexivity. Qed.

Definition level_of (path : string) (ops : list taint_op) : option TaintLevel :=
  te_level <$> at_path (scope_text (from_session_id uuid_a)) path (taint_run f ops start).1.

(** A registration overwrites: listing a directory whose own name is weakly sensitive
    lowers the level a write gave it. *)
Example registration_downgrades :
  let ops := [at_ 1 uuid_a 7 (FileRead "/h/.ssh/id_rsa"); at_ 2 uuid_a 7 (FileWrite "/tmp/token" "")] in
  level_of "/tmp/token" ops = Some TaintHigh
  ∧ level_of "/tmp/token" (ops ++ [at_ 3 uuid_a 8 (FileChmod "/tmp/token" 420)]) = Some TaintLow.
Proof. vm_compute. split; reflexivity. Qed.

Definition interleaved : list taint_op :=
  [at_ 1 uuid_a 7 (FileRead "/proj/.env"); at_ 2 uuid_b 7 (FileRead "/h/.ssh/id_rsa");
   at_ 3 uuid_a 7 (HttpRequest "POST" "https://e.com/"); OpCount (from_secs 4);
   OpEnd (from_session_id uuid_b); at_ 5 uuid_a 7 (ProcessSpawn "/bin/up" ["up"; "-f=@.env"])].

Definition upload : ToolCallContext := call uuid_a 7 (ProcessSpawn "/bin/up" ["up"; "-f=@./.env"]).

End Example_taint.

Lemma taint_scopes_isolated_witness :
  let D := concrete_deps in
  let U := ascii_unicode in
  let I := concrete_iter in
  let T := Example_taint.text in
  let B := scope_text (from_session_id uuid_a) in
  let ops := Example_taint.interleaved in
  map verdict (answers_of Example_taint.f B ops Example_taint.start)
  = map verdict (answers_of Example_taint.f B (filter (λ op, op_scope op = Some B) ops) Example_taint.start)
  ∧ Example_taint.rules uuid_a ops
    = [("", false); ("medium-taint-high-risk-sink", true); ("tainted-shell-sink-argv-path", true)].
Proof.
  intros D U I T B ops. split; [|vm_compute; reflexivity].
  apply (@taint_scopes_isolated concrete_deps concrete_deps_laws ascii_unicode concrete_iter concrete_iter_laws
    Example_taint.text Example_taint.f B ops Example_taint.start 0%Z).
  - right. by eexists.
  - vm_compute. reflexivity.
  - vm_compute. intuition discriminate.
  - repeat constructor.
Defined.

(** Session [b] ends after reading a key; its next request finds nothing. *)
Lemma ended_session_forgotten_witness :
  let D := concrete_deps in
  let U := ascii_unicode in
  let I := concrete_iter in
  let T := Example_taint.text in
  let u := from_session_id uuid_b in
  let s := (taint_run Example_taint.f
              [Example_taint.at_ 1 uuid_b 7 (FileRead "/h/.ssh/id_rsa")] Example_taint.start).1 in
  let ops := [Example_taint.at_ 3 uuid_b 7 (HttpRequest "POST" "https://e.com/")] in
  let B := scope_text (from_session_id uuid_a) in
  (map verdict (answers_of Example_taint.f (scope_text u) ops ((taint_evict u s).2, registry_new))
   = map verdict (answers_of Example_taint.f (scope_text u) (filter (λ op, op_scope op = Some (scope_text u)) ops)
                    (TaintState_new, registry_new))
   ∧ ∀ t, same_view Example_taint.f t B s (taint_evict u s).2)
  ∧ map fr_rule_id (answers_of Example_taint.f (scope_text u) ops ((taint_evict u s).2, registry_new)) = [""]
  ∧ map fr_rule_id (answers_of Example_taint.f (scope_text u) ops (s, registry_new)) = ["high-taint-network-sink"].
Proof.
  intros D U I T u s ops B. split; [|split; vm_compute; reflexivity].
  apply (@ended_session_forgotten concrete_deps concrete_deps_laws ascii_unicode concrete_iter
    concrete_iter_laws Example_taint.text Example_taint.f u ops s registry_new 0%Z B).
  - vm_compute. intuition discriminate.
  - repeat constructor.
  - right. by eexists.
  - vm_compute. discriminate.
Defined.

(** The request three seconds after a read of the session. *)
Lemma proximity_never_witness :
  let D := concrete_deps in
  let U := ascii_unicode in
  let I := concrete_iter in
  let T := Example_taint.text in
  Forall no_proximity
    (answers_of Example_taint.f (scope_text (from_session_id uuid_a)) Example_taint.interleaved
       (TaintState_new, registry_new)).
Proof.
  intros D U I T.
  apply (@proximity_never concrete_deps concrete_deps_laws ascii_unicode concrete_iter concrete_iter_laws
    Example_taint.text Example_taint.f Example_taint.interleaved registry_new (from_secs 1) 0%Z
    (scope_text (from_session_id uuid_a))).
  - vm_compute. intuition discriminate.
  - repeat constructor; vm_compute; discriminate.
  - vm_compute. discriminate.
  - vm_compute. discriminate.
Defined.

(** An hour later, to the second, the request is still scored. *)
Lemma fresh_read_reaches_sinks_witness :
  let D := concrete_deps in
  let U := ascii_unicode in
  let I := concrete_iter in
  let T := Example_taint.text in
  let f := Example_taint.f in
  let ctx0 := Example_taint.call uuid_a 7 (FileRead "/h/.ssh/id_rsa") in
  let ctx := Example_taint.call uuid_a 8 (HttpRequest "GET" "https://e.com/") in
  let w := taint_run f [OpEvaluate (Example_taint.reading 1) ctx0; OpEnd (from_session_id uuid_b)]
             Example_taint.start in
  ∃ level, (taint_ord TaintHigh <= taint_ord level)%Z
  ∧ same_tier (taint_evaluate f (Example_taint.reading 3601) ctx w).1
      (taint_http_sink to_uppercase level "GET" "https://e.com/").
Proof.
  intros D U I T f ctx0 ctx w.
  apply (@fresh_read_reaches_sinks concrete_deps concrete_deps_laws ascii_unicode concrete_iter
    concrete_iter_laws Example_taint.text f (Example_taint.reading 1) ctx0 "/h/.ssh/id_rsa"
    [OpEnd (from_session_id uuid_b)] (Example_taint.reading 3601) ctx TaintState_new registry_new).
  - reflexivity.
  - vm_compute. discriminate.
  - vm_compute. split; reflexivity.
  - vm_compute. split; reflexivity.
  - reflexivity.
  - vm_compute. intuition discriminate.
  - repeat constructor.
  - repeat constructor; vm_compute; discriminate.
  - vm_compute. discriminate.
Defined.

(** The upload flag of a program nobody knows, in the session's directory. *)
Lemma tainted_upload_flagged_witness :
  let D := concrete_deps in
  let U := ascii_unicode in
  let I := concrete_iter in
  let T := Example_taint.text in
  let f := Example_taint.f in
  let ctx0 := Example_taint.call uuid_a 7 (FileRead "/proj/.env") in
  let answer := (taint_evaluate f (Example_taint.reading 5) Example_taint.upload
                   (taint_run f [OpEvaluate (Example_taint.reading 1) ctx0] Example_taint.start)).1 in
  fr_matched answer = true ∧ fr_score answer = f64_of_Z 3 ∧ fr_rule_id answer = "tainted-shell-sink-argv-path".
Proof.
  intros D U I T f ctx0.
  apply (@tainted_upload_flagged concrete_deps concrete_deps_laws ascii_unicode concrete_iter
    concrete_iter_laws Example_taint.text f (Example_taint.reading 1) ctx0 "/proj/.env" []
    (Example_taint.reading 5) Example_taint.upload TaintState_new registry_new
    "/bin/up" ["up"; "-f=@./.env"] "-f=@./.env" 2 "./.env" "/proj/.env").
  - reflexivity.
  - vm_compute. discriminate.
  - vm_compute. split; reflexivity.
  - vm_compute. split; reflexivity.
  - reflexivity.
  - vm_compute. intuition discriminate.
  - constructor.
  - constructor.
  - vm_compute. discriminate.
  - reflexivity.
  - left. reflexivity.
  - right. left.
  - unfold MAX_ARGV_CANDIDATE_CUTS. lia.
  - reflexivity.
  - vm_compute. discriminate.
  - vm_compute. reflexivity.
  - vm_compute. reflexivity.
Defined.

Lemma high_read_contains_witness :
  let D := concrete_deps in
  let U := ascii_unicode in
  let I := concrete_iter in
  let T := Example_taint.text in
  let f := Example_taint.f in
  let ctx := Example_taint.call uuid_b 7 (FileRead "/h/.ssh/id_rsa") in
  registry_is_containment_active (from_session_id uuid_b)
    (taint_run f [OpEvaluate (Example_taint.reading 2) ctx; OpEnd (from_session_id uuid_b)]
       Example_taint.start).2 = true.
Proof.
  intros D U I T f ctx.
  apply (@high_read_contains concrete_deps ascii_unicode concrete_iter Example_taint.text f
    (Example_taint.reading 2) ctx "/h/.ssh/id_rsa" [OpEnd (from_session_id uuid_b)] TaintState_new registry_new).
  - reflexivity.
  - vm_compute. reflexivity.
  - apply registry_new_wf.
Defined.
