(* ===== verification/Reputation.v ===== *)
(** * The reputation of operations

    [grith-proxy/src/reputation.rs]: what the user approved and denied, kept as a
    Beta distribution per tuple of features at several granularities, and the
    scores it lowers.  [powf] and the RFC 3339 texts of [chrono] are parameters.
    Saving, the daemon's endpoints and the callers are in [ReputationStore.v]. *)

From Stdlib Require Import Ascii String ZArith Lia SpecFloat.
From S2P Require Import Prelude Concrete F64 Types.

(** [f64::powf] and [chrono]: the text of an instant in UTC, its parser and the
    whole seconds between two instants. *)
Class Powf := powf : f64 → f64 → f64.

(** [Display for f64]: the shortest decimal that reads back as the float. *)
Class F64Display := fmt_f64 : f64 → string.

Class Chrono `{Deps} := {
  to_rfc3339 : DateTime → string;
  parse_from_rfc3339 : string → option DateTime;
  num_seconds_since : DateTime → DateTime → Z;
}.

(** ** Configuration *)

Record ReputationConfig := {
  rc_enabled : bool;
  rc_decay_lambda : f64;
  rc_deny_weight : f64;
  rc_auto_allow_trust : f64;
  rc_auto_allow_min_observations : Z;
  rc_max_score_reduction : f64;
  rc_ceiling_filter_threshold : f64;
  rc_max_auto_allow_raw_score : f64;
  rc_save_interval_seconds : Z;
}.

Definition ReputationConfig_default : ReputationConfig := {|
  rc_enabled := true;
  rc_decay_lambda := f64_dec 98 2;
  rc_deny_weight := f64_of_Z 3;
  rc_auto_allow_trust := f64_dec 92 2;
  rc_auto_allow_min_observations := 8;
  rc_max_score_reduction := f64_of_Z 4;
  rc_ceiling_filter_threshold := f64_of_Z 5;
  rc_max_auto_allow_raw_score := f64_of_Z 7;
  rc_save_interval_seconds := 300;
|}.

(** ** Path classes *)

Definition SENSITIVE_ROOTS : list string :=
  ["/.ssh/"; "/.aws/"; "/.gnupg/"; "/.pki/"; "/.config/gh/"; "/.kube/"; "/.docker/";
   "/.config/gcloud/"; "/.azure/"].

Definition is_sensitive_root (path : string) : bool :=
  existsb (λ root, contains root path) SENSITIVE_ROOTS.

(** [Path::parent] on a text: the pieces between slashes that are components are
    the non-empty ones other than [.], which counts only at the start. *)
Definition is_component (first : bool) (piece : string) : bool :=
  negb (String.eqb piece "") && (first || negb (String.eqb piece ".")).

Fixpoint trim_pieces (rev_pieces : list string) : list string :=
  match rev_pieces with
  | [] => []
  | piece :: rest =>
      if is_component (match rest with [] => true | _ => false end) piece
      then rev_pieces else trim_pieces rest
  end.

Definition parent_text (path : string) : option string :=
  match trim_pieces (reverse (split_on "/"%char path)) with
  | [] => None
  | _ :: rest =>
      Some (match reverse (trim_pieces rest) with
            | [] => if starts_with "/" path then "/" else ""
            | up => join "/" up
            end)
  end.

Definition derive_path_classes (path : string) : list (Z * string) :=
  let classes := [(0%Z, path)] in
  if is_sensitive_root path then classes
  else
    match parent_text path with
    | Some parent =>
        if negb (String.eqb parent "") && negb (String.eqb parent "/")
        then classes ++ [(1%Z, parent +:+ "/*")] else classes
    | None => classes
    end.

(** ** Keys *)

Definition reputation_key (profile action proc dest path_class : string) : string :=
  profile +:+ "|" +:+ action +:+ "|" +:+ proc +:+ "|" +:+ dest +:+ "|" +:+ path_class.

Definition or_star (s : string) : string := if String.eqb s "" then "*" else s.

Definition build_reputation_keys (profile action process destination path : string) :
    list (Z * string) :=
  let dest := or_star destination in
  let proc := or_star process in
  map (λ '(level, pc), (level, reputation_key profile action proc dest pc))
    (derive_path_classes path)
  ++ (if is_sensitive_root path then []
      else [(3%Z, reputation_key profile action proc dest "*")]).

Definition action_name (call_type : ToolCallType) : string :=
  match call_type with
  | FileRead _ => "FileRead"
  | FileWrite _ _ => "FileWrite"
  | FileAppend _ => "FileAppend"
  | FileDelete _ => "FileDelete"
  | DirList _ => "DirList"
  | DirCreate _ => "DirCreate"
  | FileRename _ _ => "FileRename"
  | FileLink _ _ _ => "FileLink"
  | FileChmod _ _ => "FileChmod"
  | ShellExec _ _ => "ShellExec"
  | ProcessSpawn _ _ => "ProcessSpawn"
  | HttpRequest _ _ => "HttpRequest"
  | NetConnect _ _ => "NetConnect"
  | NetListen _ _ => "NetListen"
  | DnsQuery _ _ => "DnsQuery"
  | OwnershipChange _ _ _ => "OwnershipChange"
  | FilesystemMutation _ _ _ _ => "FilesystemMutation"
  | CrossProcessAccess _ _ => "CrossProcessAccess"
  | NamespaceOp _ _ => "NamespaceOp"
  | DbusMethodCall _ _ _ _ => "DbusMethodCall"
  end.

(** ** Entries *)

Inductive ReputationOutcome :=
  | Approved (weight : f64)
  | Refused (weight : f64).

Definition f64_half : f64 := f64_dec 5 1.
Definition MIN_ALPHA : f64 := f64_half.
Definition MIN_BETA : f64 := f64_half.

(** [Duration::as_secs_f64] *)
Definition as_secs_f64 (d : Duration) : f64 :=
  f64_add (f64_of_Z (d / nanos_per_sec)) (f64_div (f64_of_Z (d mod nanos_per_sec)) (f64_of_Z nanos_per_sec)).

Record ReputationEntry := {
  re_alpha : f64;
  re_beta : f64;
  re_last_updated : string;
  re_last_updated_instant : option Instant;
}.

(** The map of [ReputationTable]. *)
Abbreviation ReputationTable := (gmap string ReputationEntry).

Section Entries.
Context {D : Deps} {CH : Chrono} {PW : Powf}.

(** One reading of the monotonic and of the wall clock. *)
Record Moment := { m_instant : Instant; m_utc : DateTime }.

Definition ReputationEntry_new (now : Moment) (alpha beta : f64) : ReputationEntry := {|
  re_alpha := f64_max alpha MIN_ALPHA;
  re_beta := f64_max beta MIN_BETA;
  re_last_updated := to_rfc3339 (m_utc now);
  re_last_updated_instant := Some (m_instant now);
|}.

Definition trust_score (e : ReputationEntry) : f64 :=
  f64_div (re_alpha e) (f64_add (re_alpha e) (re_beta e)).

Definition observation_count (e : ReputationEntry) : f64 := f64_add (re_alpha e) (re_beta e).

Definition elapsed_hours (now : Moment) (e : ReputationEntry) : f64 :=
  match re_last_updated_instant e with
  | Some last =>
      f64_div (as_secs_f64 (saturating_duration_since (m_instant now) last)) (f64_of_Z 3600)
  | None =>
      match parse_from_rfc3339 (re_last_updated e) with
      | Some dt =>
          f64_div (f64_of_Z (Z.max 0 (num_seconds_since (m_utc now) dt))) (f64_of_Z 3600)
      | None => f64_zero
      end
  end.

Definition apply_decay (now : Moment) (decay_lambda : f64) (e : ReputationEntry) :
    ReputationEntry :=
  let hours := elapsed_hours now e in
  let '(alpha, beta) :=
    if f64_gt hours f64_zero then
      let factor := powf decay_lambda hours in
      (f64_max (f64_mul (re_alpha e) factor) MIN_ALPHA,
       f64_max (f64_mul (re_beta e) factor) MIN_BETA)
    else (re_alpha e, re_beta e) in
  {| re_alpha := alpha; re_beta := beta; re_last_updated := re_last_updated e;
     re_last_updated_instant := Some (m_instant now) |}.

Definition entry_observe (now : Moment) (outcome : ReputationOutcome) (decay_lambda : f64)
    (e : ReputationEntry) : ReputationEntry :=
  let e := apply_decay now decay_lambda e in
  let '(alpha, beta) :=
    match outcome with
    | Approved weight => (f64_add (re_alpha e) weight, re_beta e)
    | Refused weight => (re_alpha e, f64_add (re_beta e) weight)
    end in
  {| re_alpha := f64_max alpha MIN_ALPHA; re_beta := f64_max beta MIN_BETA;
     re_last_updated := to_rfc3339 (m_utc now);
     re_last_updated_instant := Some (m_instant now) |}.

(** ** Safety ceilings *)

Definition is_ceiling_write (call_type : ToolCallType) : bool :=
  match call_type with
  | FileWrite _ _ | FileAppend _ | FileDelete _ | FileRename _ _ | FileChmod _ _
  | DirCreate _ => true
  | _ => false
  end.

Definition ceiling_write_path (call_type : ToolCallType) : option string :=
  match call_type with
  | FileWrite path _ | FileAppend path | FileDelete path | FileChmod path _
  | DirCreate path => Some path
  | FileRename old_path _ => Some old_path
  | _ => None
  end.

Definition ceiling_op_path (call_type : ToolCallType) : option string :=
  match call_type with
  | FileRead path | FileWrite path _ | FileAppend path | FileDelete path
  | FileChmod path _ | DirCreate path | DirList path => Some path
  | FileRename old_path _ => Some old_path
  | _ => None
  end.

Definition option_sensitive (path : option string) : bool :=
  match path with Some p => is_sensitive_root p | None => false end.

Definition has_safety_ceiling (filter_results : list FilterResult) (call_type : ToolCallType)
    (config : ReputationConfig) : bool :=
  if existsb (λ r, fr_matched r && f64_ge (fr_score r) (rc_ceiling_filter_threshold config))
       filter_results then true
  else if existsb (λ r, fr_matched r && String.eqb (fr_filter_name r) "secret-scan") filter_results
  then true
  else if is_ceiling_write call_type && option_sensitive (ceiling_write_path call_type) then true
  else option_sensitive (ceiling_op_path call_type).

(** ** The table *)

Definition ReputationTable_new : ReputationTable := ∅.

(** [entry(key).or_insert_with(...)] *)
Definition entry_or_insert (key : string) (e : ReputationEntry) (t : ReputationTable) :
    ReputationTable :=
  match t !! key with Some _ => t | None => <[key := e]> t end.

(** One key: a reading of the clocks for an entry created, one for its update. *)
Definition observe_key (now now' : Moment) (outcome : ReputationOutcome)
    (config : ReputationConfig) (key : string) (t : ReputationTable) : ReputationTable :=
  let one := f64_of_Z 1 in
  alter (entry_observe now' outcome (rc_decay_lambda config)) key
    (entry_or_insert key (ReputationEntry_new now one one) t).

Fixpoint observe_keys (clock : nat → Moment) (tick : nat) (keys : list (Z * string))
    (outcome : ReputationOutcome) (config : ReputationConfig) (t : ReputationTable) :
    ReputationTable :=
  match keys with
  | [] => t
  | (_, key) :: keys =>
      observe_keys clock (S (S tick)) keys outcome config
        (observe_key (clock tick) (clock (S tick)) outcome config key t)
  end.

Definition table_observe (clock : nat → Moment) (keys : list (Z * string))
    (outcome : ReputationOutcome) (config : ReputationConfig) (t : ReputationTable) :
    ReputationTable :=
  if negb (rc_enabled config) then t else observe_keys clock 0 keys outcome config t.

Definition enough_observations (config : ReputationConfig) (e : ReputationEntry) : bool :=
  f64_ge (observation_count e) (f64_of_Z (rc_auto_allow_min_observations config)).

Fixpoint first_known (keys : list (Z * string)) (config : ReputationConfig) (t : ReputationTable) :
    option (f64 * Z) :=
  match keys with
  | [] => None
  | (level, key) :: keys =>
      match t !! key with
      | Some e =>
          if enough_observations config e then Some (trust_score e, level)
          else first_known keys config t
      | None => first_known keys config t
      end
  end.

Definition table_lookup (keys : list (Z * string)) (config : ReputationConfig)
    (t : ReputationTable) : option (f64 * Z) :=
  if negb (rc_enabled config) then None else first_known keys config t.

Definition adjust_score (original_score : f64) (keys : list (Z * string))
    (ceiling_applies : bool) (config : ReputationConfig) (t : ReputationTable) : f64 :=
  if negb (rc_enabled config) then original_score
  else
    match table_lookup keys config t with
    | None => original_score
    | Some (trust, _) =>
        if negb ceiling_applies && f64_ge trust (rc_auto_allow_trust config)
           && f64_le original_score (rc_max_auto_allow_raw_score config)
        then f64_zero
        else
          let reduction :=
            f64_mul (f64_mul (f64_sub trust f64_half) (f64_of_Z 2)) (rc_max_score_reduction config) in
          f64_max (f64_sub original_score reduction) f64_zero
    end.

(** [seed_from_profile]: the priors, in the order of the code; the clocks are read
    once per prior that is missing, here by its position. *)
Definition seed_priors (profile : string)
    (routine_paths routine_commands routine_destinations readonly_paths : list string) :
    list (string * f64) :=
  let key action p := profile +:+ "|" +:+ action +:+ "|*|*|" +:+ p in
  let ten := f64_of_Z 10 in
  concat (map (λ p, [(key "FileRead" p, ten); (key "FileWrite" p, ten)]) routine_paths)
  ++ map (λ c, (key "ProcessSpawn" c, ten)) routine_commands
  ++ map (λ d, (key "NetConnect" d, ten)) routine_destinations
  ++ map (λ p, (key "FileRead" p, f64_of_Z 8)) readonly_paths.

Fixpoint seed (clock : nat → Moment) (tick : nat) (priors : list (string * f64))
    (t : ReputationTable) : ReputationTable :=
  match priors with
  | [] => t
  | (key, alpha) :: priors =>
      seed clock (S tick) priors
        (entry_or_insert key (ReputationEntry_new (clock tick) alpha f64_half) t)
  end.

Definition seed_from_profile (clock : nat → Moment) (profile : string)
    (routine_paths routine_commands routine_destinations readonly_paths : list string)
    (t : ReputationTable) : ReputationTable :=
  seed clock 0
    (seed_priors profile routine_paths routine_commands routine_destinations readonly_paths) t.

Definition table_len (t : ReputationTable) : nat := size t.
Definition table_is_empty (t : ReputationTable) : bool := bool_decide (size t = 0).
Definition table_reset (t : ReputationTable) : ReputationTable := ∅.

End Entries.

(** ** Path classes and keys *)

Lemma trim_pieces_suffix l : ∃ d, l = d ++ trim_pieces l.
Proof.
  induction l as [|p l [d IH]]; [by exists []|]. cbn [trim_pieces].
  destruct (is_component _ p); [by exists []|]. exists (p :: d). cbn. by rewrite <-IH.
Qed.

(** The parent other than the root is followed by a slash in the path. *)
Lemma parent_text_prefix q t :
  parent_text q = Some t → t ≠ "" → t ≠ "/" → ∃ rest, q = t +:+ "/" +:+ rest.
Proof.
  unfold parent_text. destruct (trim_pieces_suffix (reverse (split_on "/"%char q))) as [d Hd].
  destruct (trim_pieces (reverse (split_on "/"%char q))) as [|p rest]; [done|].
  destruct (trim_pieces_suffix rest) as [d' Hd']. rewrite Hd' in Hd.
  destruct (reverse (trim_pieces rest)) as [|u up] eqn:Eu;
    [intros [= <-]; by destruct (starts_with "/" q)|].
  intros [= <-] _ _.
  assert (Hq : split_on "/"%char q = (u :: up) ++ (reverse d' ++ [p] ++ reverse d)).
  { rewrite <-(reverse_involutive (split_on _ _)), Hd, reverse_app, reverse_cons, reverse_app, Eu.
    by rewrite <-!app_assoc. }
  exists (join "/" (reverse d' ++ [p] ++ reverse d)).
  rewrite <-(join_split_on "/"%char q), Hq. apply join_app; [done|].
  intros H. apply (f_equal length) in H. rewrite !length_app in H. cbn in H. lia.
Qed.

#[local] Arguments String.append !_ _ / : simpl nomatch.

Lemma append_snoc_split x c y b :
  x +:+ String c "" = y +:+ b →
  (b = "" ∧ y = x +:+ String c "") ∨ ∃ b', b = b' +:+ String c "" ∧ x = y +:+ b'.
Proof.
  revert y. induction x as [|a x IH]; intros [|a' y] H; cbn in H.
  - right. exists "". by rewrite <-H.
  - injection H as -> H. destruct y, b; try done. by left.
  - right. exists (String a x). by rewrite <-H.
  - injection H as -> H. destruct (IH y H) as [[-> ->]|(b' & -> & ->)]; [by left|].
    right. by exists b'.
Qed.

Lemma sensitive_root_slash root : root ∈ SENSITIVE_ROOTS → ∃ r, root = r +:+ "/".
Proof.
  intros H. apply ends_with_spec. revert H. unfold SENSITIVE_ROOTS.
  repeat (rewrite elem_of_cons; intros [->|H]; [done|revert H]). by intros ?%elem_of_nil.
Qed.

Lemma is_sensitive_root_spec p :
  is_sensitive_root p = true ↔ ∃ root, root ∈ SENSITIVE_ROOTS ∧ contains root p = true.
Proof.
  unfold is_sensitive_root. rewrite existsb_exists. setoid_rewrite list_elem_of_In. done.
Qed.

(** The class of a directory is under a sensitive root only if its files are. *)
Lemma class_not_sensitive t rest :
  is_sensitive_root (t +:+ "/" +:+ rest) = false → is_sensitive_root (t +:+ "/*") = false.
Proof.
  intros Hq. apply not_true_is_false. intros (root & Hin & Hc)%is_sensitive_root_spec.
  apply not_true_iff_false in Hq. apply Hq, is_sensitive_root_spec. exists root. split; [done|].
  apply contains_spec in Hc as (a & b & Hab).
  change "/*" with ("/" +:+ "*") in Hab. rewrite <-append_assoc, <-(append_assoc a) in Hab.
  apply append_snoc_split in Hab as [[_ H]|(b' & _ & H)].
  - destruct (sensitive_root_slash root Hin) as [r ->]. exfalso.
    rewrite <-append_assoc in H. symmetry in H.
    apply append_snoc_split in H as [[? _]|(b' & Hb & _)]; [done|].
    destruct b' as [|? [|??]]; discriminate Hb.
  - apply contains_spec. exists a, (b' +:+ rest).
    by rewrite <-(append_assoc t), H, !append_assoc.
Qed.

Lemma derive_path_classes_elem level pc q :
  (level, pc) ∈ derive_path_classes q →
  (level = 0%Z ∧ pc = q) ∨ (level = 1%Z ∧ is_sensitive_root q = false ∧ is_sensitive_root pc = false).
Proof.
  unfold derive_path_classes. destruct (is_sensitive_root q) eqn:Hs.
  { intros [= -> ->]%list_elem_of_singleton. by left. }
  destruct (parent_text q) as [t|] eqn:Ht; [|intros [= -> ->]%list_elem_of_singleton; by left].
  destruct (negb (String.eqb t "") && negb (String.eqb t "/")) eqn:Hn;
    [|intros [= -> ->]%list_elem_of_singleton; by left].
  reflect_bools. destruct Hn as [H1 H2].
  destruct (parent_text_prefix q t Ht H1 H2) as [rest ->].
  rewrite elem_of_app, !list_elem_of_singleton. intros [[= -> ->]|[= -> ->]]; [by left|].
  right. split_and!; [done..|]. by eapply class_not_sensitive.
Qed.

Lemma bar_inj a b x y :
  lacks "|" a = true → lacks "|" b = true → a +:+ "|" +:+ x = b +:+ "|" +:+ y → a = b ∧ x = y.
Proof.
  intros Ha Hb H. apply (f_equal (split_once "|")) in H.
  rewrite !(split_once_sep "|"%char "") in H by done. naive_solver.
Qed.

Definition barless (fields : list string) : bool := forallb (lacks "|"%char) fields.

(** Keys of fields without the separator determine the fields. *)
Lemma reputation_key_inj p a r d c p' a' r' d' c' :
  barless [p; a; r; d] = true → barless [p'; a'; r'; d'] = true →
  reputation_key p a r d c = reputation_key p' a' r' d' c' →
  p = p' ∧ a = a' ∧ r = r' ∧ d = d' ∧ c = c'.
Proof.
  unfold barless, reputation_key; cbn [forallb]. intros H H' He. reflect_bools.
  destruct_and?.
  apply bar_inj in He as [-> He]; [|done..]. apply bar_inj in He as [-> He]; [|done..].
  apply bar_inj in He as [-> He]; [|done..]. apply bar_inj in He as [-> ->]; [|done..]. done.
Qed.

Lemma barless_or_star p a r d : barless [p; a; r; d] = true → barless [p; a; or_star r; or_star d] = true.
Proof.
  unfold barless, or_star; cbn [forallb]. intros H. reflect_bools. destruct_and?.
  split_and!; try done; by destruct (String.eqb _ _).
Qed.

Lemma build_reputation_keys_elem p a r d q level key :
  (level, key) ∈ build_reputation_keys p a r d q →
  ∃ pc, key = reputation_key p a (or_star r) (or_star d) pc ∧
    (pc = q ∨ (is_sensitive_root q = false ∧ is_sensitive_root pc = false)).
Proof.
  unfold build_reputation_keys. rewrite elem_of_app, list_elem_of_fmap.
  intros [([l pc] & [= -> ->] & H)|H].
  - exists pc. split; [done|]. apply derive_path_classes_elem in H as [[_ ->]|(_ & ? & ?)]; auto.
  - destruct (is_sensitive_root q) eqn:Hs; [by apply not_elem_of_nil in H|].
    apply list_elem_of_singleton in H as [= -> ->]. exists "*". auto.
Qed.

Lemma sensitive_keys p a r d q :
  is_sensitive_root q = true →
  build_reputation_keys p a r d q = [(0%Z, reputation_key p a (or_star r) (or_star d) q)].
Proof. intros H. unfold build_reputation_keys, derive_path_classes. by rewrite H. Qed.

(** ** The table *)

Section TableLemmas.
Context {D : Deps} {CH : Chrono} {PW : Powf}.
Implicit Types (t : ReputationTable) (config : ReputationConfig) (clock : nat → Moment).

Lemma observe_key_other now now' o config k k' t :
  k' ≠ k → observe_key now now' o config k t !! k' = t !! k'.
Proof.
  intros H. unfold observe_key, entry_or_insert. rewrite lookup_alter_ne by done.
  destruct (t !! k); [done|]. by rewrite lookup_insert_ne.
Qed.

Lemma observe_key_same now now' o config k t :
  observe_key now now' o config k t !! k
  = Some (entry_observe now' o (rc_decay_lambda config)
            (default (ReputationEntry_new now (f64_of_Z 1) (f64_of_Z 1)) (t !! k))).
Proof.
  unfold observe_key, entry_or_insert. rewrite lookup_alter_eq.
  destruct (t !! k) as [e|] eqn:E; [by rewrite E|]. by rewrite lookup_insert_eq.
Qed.

Lemma observe_keys_other clock n keys o config k t :
  k ∉ keys.*2 → observe_keys clock n keys o config t !! k = t !! k.
Proof.
  revert n t. induction keys as [|[l k'] keys IH]; intros n t; [done|].
  rewrite fmap_cons, not_elem_of_cons. intros [Hne Hk].
  cbn [observe_keys]. rewrite IH by done. by apply observe_key_other.
Qed.

Lemma first_known_ext keys config t t' :
  (∀ k, k ∈ keys.*2 → t !! k = t' !! k) → first_known keys config t = first_known keys config t'.
Proof.
  induction keys as [|[l k] keys IH]; [done|]. intros H. cbn [first_known].
  rewrite (H k) by (rewrite fmap_cons; set_solver). rewrite IH; [done|].
  intros k' Hk'. apply H. rewrite fmap_cons. set_solver.
Qed.

Lemma table_lookup_evidence keys config t trust level :
  table_lookup keys config t = Some (trust, level) →
  ∃ k e, (level, k) ∈ keys ∧ t !! k = Some e ∧ enough_observations config e = true
         ∧ trust = trust_score e.
Proof.
  unfold table_lookup. destruct (negb _); [done|].
  induction keys as [|[l k] keys IH]; [done|]. cbn [first_known].
  destruct (t !! k) as [e|] eqn:E; [destruct (enough_observations config e) eqn:En|].
  - intros [= <- <-]. exists k, e. split_and!; try done. set_solver.
  - intros H. destruct (IH H) as (k' & e' & ? & ?). exists k', e'. split; [set_solver|done].
  - intros H. destruct (IH H) as (k' & e' & ? & ?). exists k', e'. split; [set_solver|done].
Qed.

Lemma table_lookup_unchanged clock config outcome t keys keys' :
  (∀ k, k ∈ keys.*2 → k ∈ keys'.*2 → False) →
  table_lookup keys config (table_observe clock keys' outcome config t) = table_lookup keys config t.
Proof.
  intros Hd. unfold table_lookup, table_observe. destruct (negb (rc_enabled config)); [done|].
  apply first_known_ext. intros k Hk. apply observe_keys_other. eauto.
Qed.

(** What is learned about a path under a sensitive root concerns that path
    alone: observing any other operation, whatever its directory, its files or its
    process, leaves the trust found for it unchanged. *)
Theorem sensitive_trust_is_exact clock config outcome t p a r d path p' a' r' d' path' :
  is_sensitive_root path = true →
  barless [p; a; r; d] = true → barless [p'; a'; r'; d'] = true →
  (p, a, or_star r, or_star d, path) ≠ (p', a', or_star r', or_star d', path') →
  table_lookup (build_reputation_keys p a r d path) config
    (table_observe clock (build_reputation_keys p' a' r' d' path') outcome config t)
  = table_lookup (build_reputation_keys p a r d path) config t.
Proof.
  intros Hs Hb Hb' Hne. apply table_lookup_unchanged. intros k Hk Hk'.
  rewrite (sensitive_keys p a r d path Hs) in Hk. apply list_elem_of_singleton in Hk as ->.
  apply list_elem_of_fmap in Hk' as ([l k] & Hk & Hin). cbn in Hk. subst k.
  apply build_reputation_keys_elem in Hin as (pc & Hkey & Hpc).
  apply reputation_key_inj in Hkey as (Hp & Ha & Hr & Hd & Hc);
    [|by apply barless_or_star..].
  destruct Hpc as [Hpc|[_ ?]]; [apply Hne|]; congruence.
Qed.

(** *** Ceilings *)

Lemma no_ceiling results call_type config :
  has_safety_ceiling results call_type config = false →
  Forall (λ r, fr_matched r = true →
    f64_ge (fr_score r) (rc_ceiling_filter_threshold config) = false
    ∧ fr_filter_name r ≠ "secret-scan") results
  ∧ ∀ p, ceiling_op_path call_type = Some p → is_sensitive_root p = false.
Proof.
  unfold has_safety_ceiling. destruct (existsb _ _) eqn:E1; [done|].
  destruct (existsb _ _) eqn:E2 in |- *; [done|]. destruct (is_ceiling_write call_type && _); [done|].
  intros Hop. split; [|intros p Hp; by rewrite Hp in Hop].
  rewrite existsb_false_Forall, Forall_forall in E1, E2. apply Forall_forall. intros r Hr Hm.
  specialize (E1 r Hr). specialize (E2 r Hr). cbn beta in E1, E2. rewrite Hm in E1, E2.
  split; [done|]. by apply String.eqb_neq.
Qed.

(** A ceiling applies exactly when a matched filter scored at least the
    threshold, the secret scan matched, or the path of the operation is under a
    sensitive root; the separate test of writes adds nothing. *)
Theorem ceiling_spec results call_type config :
  has_safety_ceiling results call_type config = true ↔
  (∃ r, r ∈ results ∧ fr_matched r = true ∧
    (f64_ge (fr_score r) (rc_ceiling_filter_threshold config) = true
     ∨ fr_filter_name r = "secret-scan"))
  ∨ ∃ path, ceiling_op_path call_type = Some path ∧ is_sensitive_root path = true.
Proof.
  unfold has_safety_ceiling.
  assert (Hw : is_ceiling_write call_type && option_sensitive (ceiling_write_path call_type) = true →
               option_sensitive (ceiling_op_path call_type) = true) by (by destruct call_type).
  assert (Hop : option_sensitive (ceiling_op_path call_type) = true ↔
                ∃ path, ceiling_op_path call_type = Some path ∧ is_sensitive_root path = true).
  { destruct (ceiling_op_path call_type) as [path|]; cbn; naive_solver. }
  rewrite <-Hop. clear Hop.
  destruct (existsb _ _) eqn:E1; [|destruct (existsb _ _) eqn:E2 in |- *].
  - apply existsb_exists in E1 as (r & Hr & [? ?]%andb_true_iff). apply list_elem_of_In in Hr.
    split; [|done]. intros _. left. eauto 10.
  - apply existsb_exists in E2 as (r & Hr & [? Hn]%andb_true_iff). apply list_elem_of_In in Hr.
    apply String.eqb_eq in Hn. split; [|done]. intros _. left. eauto 10.
  - destruct (is_ceiling_write call_type && _) eqn:Ew.
    + split; [|done]. intros _. right. auto.
    + split; [auto|]. intros [(r & Hr & Hm & Hor)|?]; [|done].
      rewrite existsb_false_Forall, Forall_forall in E1, E2.
      specialize (E1 r Hr). specialize (E2 r Hr). cbn beta in E1, E2.
      rewrite Hm in E1, E2. cbn in E1, E2. destruct Hor as [?|Hn]; [congruence|].
      apply String.eqb_neq in E2. done.
Qed.

(** *** Entries stay above the prior *)

Definition floored (e : ReputationEntry) : Prop :=
  f64_le MIN_ALPHA (re_alpha e) = true ∧ f64_le MIN_BETA (re_beta e) = true.

Definition table_floored (t : ReputationTable) : Prop := map_Forall (λ _, floored) t.

Lemma floored_max a b u i :
  floored {| re_alpha := f64_max a MIN_ALPHA; re_beta := f64_max b MIN_BETA;
             re_last_updated := u; re_last_updated_instant := i |}.
Proof. by split; apply f64_max_ge. Qed.

Lemma entry_observe_floored now o lambda e : floored (entry_observe now o lambda e).
Proof. unfold entry_observe. destruct o; apply floored_max. Qed.

Lemma entry_or_insert_floored k e t :
  floored e → table_floored t → table_floored (entry_or_insert k e t).
Proof.
  intros He Ht. unfold entry_or_insert. destruct (t !! k); [done|].
  by apply map_Forall_insert_2.
Qed.

Lemma observe_keys_floored clock n keys o config t :
  table_floored t → table_floored (observe_keys clock n keys o config t).
Proof.
  revert n t. induction keys as [|[l k] keys IH]; intros n t Ht; [done|]. apply IH.
  intros k' e. destruct (decide (k' = k)) as [->|Hne].
  - rewrite observe_key_same. intros [= <-]. apply entry_observe_floored.
  - rewrite observe_key_other by done. apply Ht.
Qed.

Lemma seed_floored clock n priors t : table_floored t → table_floored (seed clock n priors t).
Proof.
  revert n t. induction priors as [|[k a] priors IH]; intros n t Ht; [done|].
  apply IH, entry_or_insert_floored; [apply floored_max|done].
Qed.

(** The operations on a table. *)
Inductive table_op :=
  | TObserve (clock : nat → Moment) (keys : list (Z * string)) (outcome : ReputationOutcome)
      (config : ReputationConfig)
  | TSeed (clock : nat → Moment) (profile : string)
      (routine_paths routine_commands routine_destinations readonly_paths : list string)
  | TReset.

Definition table_step (op : table_op) (t : ReputationTable) : ReputationTable :=
  match op with
  | TObserve clock keys o config => table_observe clock keys o config t
  | TSeed clock profile paths commands dests readonly =>
      seed_from_profile clock profile paths commands dests readonly t
  | TReset => table_reset t
  end.

(** C35: Whatever is observed, seeded or reset, with whatever weights (infinite and
    NaN ones included), both parameters of every entry stay at least 0.5. *)
Theorem table_run_floored ops :
  table_floored (fold_left (λ t op, table_step op t) ops ReputationTable_new).
Proof.
  assert (H0 : table_floored ReputationTable_new) by apply map_Forall_empty.
  revert H0. generalize ReputationTable_new. induction ops as [|op ops IH]; intros t Ht; [done|].
  apply IH. destruct op as [clock keys o config|clock p l1 l2 l3 l4|]; cbn.
  - unfold table_observe. destruct (negb _); [done|]. by apply observe_keys_floored.
  - by apply seed_floored.
  - apply map_Forall_empty.
Qed.

(** *** Scores *)

(** Without enough observations at any level the score is unchanged; with them
    the result is never negative, and is zero if no ceiling applies, the trust
    reaches the threshold and the score is within range. *)
Theorem adjust_score_spec score keys ceiling config t :
  rc_enabled config = true →
  match table_lookup keys config t with
  | None => adjust_score score keys ceiling config t = score
  | Some (trust, level) =>
      f64_le f64_zero (adjust_score score keys ceiling config t) = true
      ∧ (∃ k e, (level, k) ∈ keys ∧ t !! k = Some e ∧ enough_observations config e = true
                ∧ trust = trust_score e)
      ∧ (ceiling = false → f64_ge trust (rc_auto_allow_trust config) = true →
         f64_le score (rc_max_auto_allow_raw_score config) = true →
         adjust_score score keys ceiling config t = f64_zero)
  end.
Proof.
  intros He. unfold adjust_score. rewrite He. cbn [negb].
  destruct (table_lookup keys config t) as [[trust level]|] eqn:El; [|done].
  split_and!.
  - destruct (_ && _ && _); [done|]. by apply f64_max_ge.
  - by apply table_lookup_evidence in El.
  - intros -> -> ->. done.
Qed.

Lemma adjust_zero_evidence score keys ceiling config t :
  f64_eq (adjust_score score keys ceiling config t) f64_zero = true →
  f64_eq score f64_zero = true
  ∨ ∃ level k e, (level, k) ∈ keys ∧ t !! k = Some e ∧ enough_observations config e = true.
Proof.
  unfold adjust_score. destruct (negb _); [auto|].
  destruct (table_lookup keys config t) as [[trust level]|] eqn:El; [|auto]. intros _. right.
  apply table_lookup_evidence in El as (k & e & ? & ? & ? & _). eauto 10.
Qed.

(** *** Priors *)

Lemma entry_or_insert_keeps k k' e e' t :
  t !! k = Some e → entry_or_insert k' e' t !! k = Some e.
Proof.
  intros H. unfold entry_or_insert. destruct (t !! k') eqn:E; [done|].
  rewrite lookup_insert_ne; [done|]. intros ->. congruence.
Qed.

Lemma seed_keeps clock n priors t k e :
  t !! k = Some e → seed clock n priors t !! k = Some e.
Proof.
  revert n t. induction priors as [|[k' a] priors IH]; intros n t H; [done|].
  by apply IH, entry_or_insert_keeps.
Qed.

Lemma seed_adds clock n priors t k e :
  t !! k = None → seed clock n priors t !! k = Some e → k ∈ priors.*1.
Proof.
  revert n t. induction priors as [|[k' a] priors IH]; intros n t H; cbn [seed]; [congruence|].
  rewrite fmap_cons, elem_of_cons. destruct (decide (k = k')) as [->|Hne]; [by left|].
  intros Hs. right. eapply IH, Hs. unfold entry_or_insert.
  destruct (t !! k'); [done|]. by rewrite lookup_insert_ne.
Qed.

(** The keys of the priors leave the process and the destination open. *)
Lemma seed_priors_key p paths commands dests readonly k :
  k ∈ (seed_priors p paths commands dests readonly).*1 →
  ∃ action pc, lacks "|" action = true ∧ k = reputation_key p action "*" "*" pc.
Proof.
  assert (Hk : ∀ action pc, p +:+ "|" +:+ action +:+ "|*|*|" +:+ pc
                            = reputation_key p action "*" "*" pc) by done.
  intros ([? a] & -> & Hin)%list_elem_of_fmap. cbn. revert Hin. unfold seed_priors.
  rewrite !elem_of_app, !list_elem_of_fmap, list_elem_of_In, in_concat.
  intros [(l & Hl & Hin)|[(c & [= -> _] & _)|[(d & [= -> _] & _)|(q & [= -> _] & _)]]].
  - apply in_map_iff in Hl as (q & <- & _). rewrite Hk in Hin. rewrite Hk in Hin.
    destruct Hin as [[= <- _]|[[= <- _]|[]]].
    + by exists "FileRead", q.
    + by exists "FileWrite", q.
  - by exists "ProcessSpawn", c.
  - by exists "NetConnect", d.
  - by exists "FileRead", q.
Qed.

(** Seeding a profile keeps what was learned, and is invisible to every
    operation whose process or destination is known: no prior is stored under a key
    such an operation looks up. *)
Theorem seed_spec clock prof paths commands dests readonly t :
  barless [prof] = true →
  (∀ k e, t !! k = Some e →
     seed_from_profile clock prof paths commands dests readonly t !! k = Some e)
  ∧ (∀ config p a r d path,
       barless [p; a; r; d] = true → or_star r ≠ "*" ∨ or_star d ≠ "*" →
       table_lookup (build_reputation_keys p a r d path) config
         (seed_from_profile clock prof paths commands dests readonly t)
       = table_lookup (build_reputation_keys p a r d path) config t).
Proof.
  intros Hp. split; [intros; by apply seed_keeps|].
  intros config p a r d path Hb Hne. unfold table_lookup. destruct (negb _); [done|].
  apply first_known_ext. intros k ([l k'] & -> & Hin)%list_elem_of_fmap. cbn.
  unfold seed_from_profile. destruct (t !! k') as [e|] eqn:E; [by apply seed_keeps|].
  destruct (seed _ _ _ _ !! k') as [e|] eqn:Es; [|done]. exfalso.
  apply seed_adds in Es; [|done]. apply seed_priors_key in Es as (act & pc & Hact & ->).
  apply build_reputation_keys_elem in Hin as (pc' & Hkey & _).
  apply reputation_key_inj in Hkey as (_ & _ & Hr & Hd & _).
  - destruct Hne; congruence.
  - unfold barless in *; cbn [forallb] in *. reflect_bools. destruct_and?. done.
  - by apply barless_or_star.
Qed.

End TableLemmas.

(** ** Concrete instances *)

(** A clock of seconds since the epoch whose texts are not parsed, and no decay. *)
Definition concrete_chrono : @Chrono concrete_deps :=
  Build_Chrono concrete_deps fmt_Z (λ _, None) Z.sub.

Definition no_decay : Powf := λ _ _, f64_of_Z 1.

Section Concrete.
#[local] Existing Instance concrete_deps.
#[local] Existing Instance concrete_chrono.
#[local] Existing Instance no_decay.

Definition still_clock : nat → Moment := λ _, {| m_instant := 0; m_utc := 0%Z |}.

(** A table after observing the same keys [n] times. *)
Definition observed (n : nat) (keys : list (Z * string)) (o : ReputationOutcome) : ReputationTable :=
  Nat.iter n (table_observe still_clock keys o ReputationConfig_default) ReputationTable_new.

Lemma observed_S n keys o :
  observed (S n) keys o
  = table_observe still_clock keys o ReputationConfig_default (observed n keys o).
Proof. reflexivity. Qed.

Definition claude_keys (path : string) : list (Z * string) :=
  build_reputation_keys "claude-code" "FileRead" "claude" "" path.

Example keys_of_a_file :
  claude_keys "/home/dan/.//src/foo.rs" =
    [(0%Z, "claude-code|FileRead|claude|*|/home/dan/.//src/foo.rs");
     (1%Z, "claude-code|FileRead|claude|*|/home/dan/.//src/*");
     (3%Z, "claude-code|FileRead|claude|*|*")].
Proof. reflexivity. Qed.

Lemma sensitive_trust_is_exact_witness :
  table_lookup (claude_keys "/home/dan/.ssh/id_ed25519") ReputationConfig_default
    (observed 20 (claude_keys "/home/dan/.ssh/id_rsa") (Approved (f64_of_Z 1))) = None.
Proof.
  rewrite observed_S. unfold claude_keys.
  rewrite sensitive_trust_is_exact by first [reflexivity|discriminate].
  vm_compute. reflexivity.
Defined.

Lemma adjust_score_spec_witness :
  rc_enabled ReputationConfig_default = true ∧
  adjust_score (f64_of_Z 4) (claude_keys "/tmp/f") false ReputationConfig_default
    (observed 20 (claude_keys "/tmp/f") (Approved (f64_dec 15 1))) = f64_zero.
Proof.
  split; [reflexivity|].
  pose proof (adjust_score_spec (f64_of_Z 4) (claude_keys "/tmp/f") false ReputationConfig_default
    (observed 20 (claude_keys "/tmp/f") (Approved (f64_dec 15 1))) eq_refl) as H.
  revert H. set (t := observed 20 _ _).
  assert (E : ∃ trust level,
    table_lookup (claude_keys "/tmp/f") ReputationConfig_default t = Some (trust, level)
    ∧ f64_ge trust (rc_auto_allow_trust ReputationConfig_default) = true)
    by (eexists _, _; vm_compute; split; reflexivity).
  clearbody t. destruct E as (trust & level & -> & Hge). intros (_ & _ & H).
  by apply H.
Defined.

Lemma seed_spec_witness :
  barless ["claude-code"] = true ∧
  table_lookup (build_reputation_keys "claude-code" "ProcessSpawn" "bash" "" "git")
    ReputationConfig_default
    (seed_from_profile still_clock "claude-code" [] ["git"] [] [] ReputationTable_new) = None.
Proof.
  split; [reflexivity|].
  rewrite (proj2 (seed_spec still_clock "claude-code" [] ["git"] [] [] ReputationTable_new eq_refl))
    by first [reflexivity|left; discriminate].
  reflexivity.
Defined.

(** *** What the granularities and the reduction allow *)

(** The comment on the path classes says trust must not cross from a source file to
    the environment file of the project; the process level carries it there. *)
Theorem sibling_trust :
  adjust_score (f64_of_Z 4) (claude_keys "/home/dan/project/.env") false ReputationConfig_default
    (observed 12 (claude_keys "/home/dan/project/src/foo.rs") (Approved (f64_of_Z 1))) = f64_zero.
Proof. vm_compute. reflexivity. Qed.

(** Trust below the threshold also brings a low score to zero, which the callers
    read as an automatic approval. *)
Theorem zero_below_trust :
  let t := observed 8 (claude_keys "/tmp/f") (Approved (f64_of_Z 1)) in
  match table_lookup (claude_keys "/tmp/f") ReputationConfig_default t with
  | Some (trust, _) =>
      f64_lt trust (rc_auto_allow_trust ReputationConfig_default)
      && f64_eq (adjust_score (f64_dec 31 1) (claude_keys "/tmp/f") false
                   ReputationConfig_default t) f64_zero
  | None => false
  end = true.
Proof. vm_compute. reflexivity. Qed.

(** Changing the owner of a key, linking to it and renaming a file over it are under
    no ceiling. *)
Theorem uncovered_ceilings :
  let key := "/home/dan/.ssh/authorized_keys" in
  Forall (λ c, has_safety_ceiling [] c ReputationConfig_default = false)
    [OwnershipChange key 0 0; FileLink key "/tmp/l" true; FileRename "/tmp/l" key]
  ∧ has_safety_ceiling [] (FileRead key) ReputationConfig_default = true.
Proof. split; [repeat constructor|reflexivity]. Qed.

End Concrete.
