(* ===== verification/ReputationStore.v ===== *)
(** * Keeping and consulting the reputation table

    Persistence ([save] and [load] of [grith-proxy/src/reputation.rs]), the daemon's
    endpoints ([grith-server/src/routes/reputation_ipc.rs]), the automatic approval
    of queued calls in the daemon ([proxy_ipc.rs]) and in the supervisor, and the
    observations it records ([event_handler.rs]).  TOML, the disk's failures and the
    shortest decimal of a float are parameters. *)

From Stdlib Require Import Ascii String ZArith Lia SpecFloat.
From S2P Require Import Prelude Concrete F64 Types Reputation.

(** ** [str::parse] for [f64] *)

Fixpoint take_digits (acc : Z) (count : nat) (s : string) : Z * nat * string :=
  match s with
  | String a s' =>
      let d := (Z.of_N (N_of_ascii a) - 48)%Z in
      if ((0 <=? d) && (d <=? 9))%Z then take_digits (acc * 10 + d) (S count) s'
      else (acc, count, s)
  | EmptyString => (acc, count, s)
  end.

Definition parse_exponent (s : string) : option Z :=
  let '(negative, digits) :=
    match s with
    | String "-" r => (true, r)
    | String "+" r => (false, r)
    | _ => (false, s)
    end in
  match take_digits 0 0 digits with
  | (e, S _, EmptyString) => Some (if negative : bool then (- e)%Z else e)
  | _ => None
  end.

(** Mantissa and decimal exponent of an unsigned decimal. *)
Definition parse_decimal (s : string) : option (Z * Z) :=
  let '(m, n1, rest) := take_digits 0 0 s in
  let '(m, n2, rest) :=
    match rest with
    | String "." r => take_digits m 0 r
    | _ => (m, 0, rest)
    end in
  match n1 + n2, rest with
  | O, _ => None
  | _, EmptyString => Some (m, (- Z.of_nat n2)%Z)
  | _, String "e" r | _, String "E" r => e ← parse_exponent r; Some (m, (e - Z.of_nat n2)%Z)
  | _, _ => None
  end.

(** The float nearest to [m * 10 ^ k]. *)
Definition f64_of_decimal (m k : Z) : f64 :=
  match m with
  | Zpos p =>
      if (0 <=? k)%Z then f64_of_Z (m * 10 ^ k)
      else f64_div (S754_finite false p 0) (S754_finite false (Z.to_pos (10 ^ (- k))) 0)
  | _ => f64_zero
  end.

Definition parse_unsigned_f64 (s : string) : option f64 :=
  if eq_ignore_ascii_case s "inf" || eq_ignore_ascii_case s "infinity"
  then Some (S754_infinity false)
  else if eq_ignore_ascii_case s "nan" then Some S754_nan
  else '(m, k) ← parse_decimal s; Some (f64_of_decimal m k).

Definition parse_f64 (s : string) : option f64 :=
  match s with
  | String "-" r => SFopp <$> parse_unsigned_f64 r
  | String "+" r => parse_unsigned_f64 r
  | _ => parse_unsigned_f64 s
  end.

Definition f64_is_finite (x : f64) : bool :=
  match x with S754_zero _ | S754_finite _ _ _ => true | _ => false end.

(** ** Observations of clients *)

Definition MAX_APPROVED_WEIGHT : f64 := f64_dec 15 1.
Definition MAX_DENIED_WEIGHT : f64 := f64_of_Z 5.
Definition MAX_OBSERVE_KEYS : nat := 32.
Definition MAX_OBSERVE_KEY_LEN : nat := 512.

Definition parse_outcome (s : string) : option ReputationOutcome :=
  '(kind, text) ← split_once ":" s;
  weight ← parse_f64 text;
  if negb (f64_is_finite weight) then None
  else if String.eqb kind "approved" then Some (Approved (f64_clamp f64_zero MAX_APPROVED_WEIGHT weight))
  else if String.eqb kind "denied" then Some (Refused (f64_clamp f64_zero MAX_DENIED_WEIGHT weight))
  else None.

Record ObserveRequest := {
  or_keys : list (Z * string);
  or_outcome : string;
}.

Section Endpoints.
Context {D : Deps} {CH : Chrono} {PW : Powf}.
Implicit Types (t : ReputationTable) (config : ReputationConfig) (clock : nat → Moment).

(** Status and body; the bearer token is checked before. *)
Definition observe_reputation clock config (body : ObserveRequest) t :
    Z * string * ReputationTable :=
  if (MAX_OBSERVE_KEYS <? length (or_keys body))
     || existsb (λ '(_, k), MAX_OBSERVE_KEY_LEN <? String.length k) (or_keys body)
  then (400%Z, "observation exceeds bounds", t)
  else
    match parse_outcome (or_outcome body) with
    | None => (400%Z, "invalid outcome format", t)
    | Some outcome => (200%Z, "observed", table_observe clock (or_keys body) outcome config t)
    end.

(** The count of a profile's entries removed, or [None] if all are. *)
Definition reset_reputation (profile : option string) t : option nat * ReputationTable :=
  match profile with
  | Some profile =>
      let kept := filter (λ '(k, _), starts_with (profile +:+ "|") k = false) t in
      (Some (table_len t - table_len kept), kept)
  | None => (None, table_reset t)
  end.

End Endpoints.

(** ** The disk *)

Class Toml := {
  toml_to_string_pretty : ReputationTable → result string;
  toml_from_str : string → option ReputationTable;
}.

(** The monotonic instant is not serialised. *)
Definition forget_instant (e : ReputationEntry) : ReputationEntry := {|
  re_alpha := re_alpha e; re_beta := re_beta e; re_last_updated := re_last_updated e;
  re_last_updated_instant := None |}.

Class TomlLaws `{Toml} : Prop := {
  toml_round_trip : ∀ t s,
    toml_to_string_pretty t = Ok s → toml_from_str s = Some (forget_instant <$> t);
  toml_skips_instant : ∀ s t k e,
    toml_from_str s = Some t → t !! k = Some e → re_last_updated_instant e = None;
}.

(** The contents of the files, and which calls fail: a failed write leaves part of
    the text behind. *)
Abbreviation Disk := (gmap string string).

Record DiskFaults := {
  df_create_dir : option string;
  df_read : option string;
  df_write : option (string * string);
  df_rename : option string;
}.

Definition no_faults : DiskFaults :=
  {| df_create_dir := None; df_read := None; df_write := None; df_rename := None |}.

(** [Path::with_extension] of a path that names a file. *)
Definition with_extension (ext path : string) : string :=
  let stem f := match rsplit_once "."%char f with
                | Some (EmptyString, _) | None => f
                | Some (stem, _) => stem
                end in
  match rsplit_once "/"%char path with
  | Some (dir, f) => dir +:+ "/" +:+ stem f +:+ "." +:+ ext
  | None => stem path +:+ "." +:+ ext
  end.

Section Persistence.
Context `{Toml} `{HI : HashIter}.
Implicit Types (t : ReputationTable).

Definition MAX_PARAMETER : f64 := f64_of_Z 10000.

Definition sanitize_entry (e : ReputationEntry) : option ReputationEntry :=
  if f64_lt (re_alpha e) f64_zero || f64_lt (re_beta e) f64_zero
     || f64_is_nan (re_alpha e) || f64_is_nan (re_beta e) then None
  else Some {| re_alpha := f64_clamp MIN_ALPHA MAX_PARAMETER (re_alpha e);
               re_beta := f64_clamp MIN_BETA MAX_PARAMETER (re_beta e);
               re_last_updated := re_last_updated e;
               re_last_updated_instant := re_last_updated_instant e |}.

Definition table_load (read_error : option string) (path : string) (disk : Disk) : ReputationTable :=
  match disk !! path with
  | None => ReputationTable_new
  | Some content =>
      match read_error with
      | Some _ => ReputationTable_new
      | None => omap sanitize_entry (default ∅ (toml_from_str content))
      end
  end.

Definition merge_entry (entry existing : ReputationEntry) : ReputationEntry := {|
  re_alpha := if f64_gt (re_alpha entry) (re_alpha existing) then re_alpha entry else re_alpha existing;
  re_beta := if f64_gt (re_beta entry) (re_beta existing) then re_beta entry else re_beta existing;
  re_last_updated :=
    if String.ltb (re_last_updated existing) (re_last_updated entry)
    then re_last_updated entry else re_last_updated existing;
  re_last_updated_instant := re_last_updated_instant existing;
|}.

Definition merge_one (merged : ReputationTable) (ke : string * ReputationEntry) : ReputationTable :=
  let '(key, entry) := ke in
  match merged !! key with
  | Some existing => <[key := merge_entry entry existing]> merged
  | None => <[key := entry]> merged
  end.

Definition merge_tables (disk_table t : ReputationTable) : ReputationTable :=
  fold_left merge_one (hash_iter t) disk_table.

Definition table_save (faults : DiskFaults) (path : string) t (disk : Disk) : result unit * Disk :=
  match df_create_dir faults with
  | Some e => (Err e, disk)
  | None =>
      match toml_to_string_pretty (merge_tables (table_load (df_read faults) path disk) t) with
      | Err e => (Err e, disk)
      | Ok content =>
          let tmp := with_extension "toml.tmp" path in
          match df_write faults with
          | Some (partial, e) => (Err e, <[tmp := partial]> disk)
          | None =>
              let disk := <[tmp := content]> disk in
              match df_rename faults with
              | Some e => (Err e, disk)
              | None => (Ok tt, <[path := content]> (delete tmp disk))
              end
          end
      end
  end.

(** The CLI's reset, when no daemon runs. *)
Definition cmd_reputation_reset (profile : option string) (faults : DiskFaults) (path : string)
    (disk : Disk) : result unit * Disk :=
  let t := table_load (df_read faults) path disk in
  table_save faults path (reset_reputation profile t).2 disk.

End Persistence.

(** [PathBuf::join] of a relative name, and the default location. *)
Definition path_join (dir name : string) : string :=
  if String.eqb dir "" then name
  else if ends_with "/" dir then dir +:+ name else dir +:+ "/" +:+ name.

Definition default_reputation_path (env : string → option string) : string :=
  match env "GRITH_CONFIG_DIR" with
  | Some path => path_join path "reputation.toml"
  | None =>
      match env "HOME" with
      | Some home => path_join (path_join home ".config/grith") "reputation.toml"
      | None =>
          match env "USERPROFILE" with
          | Some profile => path_join (path_join profile ".config/grith") "reputation.toml"
          | None => path_join ".grith" "reputation.toml"
          end
      end
  end.

(** ** Merging *)

Section MergeLemmas.
Context `{HIL : HashIterLaws}.
Implicit Types (t : ReputationTable).

(** What merging leaves at a key. *)
Definition merged_entry (on_disk mine : option ReputationEntry) : option ReputationEntry :=
  match on_disk, mine with
  | Some existing, Some entry => Some (merge_entry entry existing)
  | Some e, None | None, Some e => Some e
  | None, None => None
  end.

Lemma merge_one_lookup t k e k' :
  merge_one t (k, e) !! k'
  = if decide (k = k') then merged_entry (t !! k') (Some e) else t !! k'.
Proof.
  unfold merge_one. destruct (decide (k = k')) as [->|Hne].
  - destruct (t !! k') as [x|] eqn:E; by rewrite lookup_insert_eq.
  - destruct (t !! k) as [x|]; by rewrite lookup_insert_ne.
Qed.

#[local] Arguments merge_one : simpl never.

Lemma merge_fold_lookup l t k :
  NoDup l.*1 →
  fold_left merge_one l t !! k
  = merged_entry (t !! k) ((list_to_map l : ReputationTable) !! k).
Proof.
  revert t. induction l as [|[k' e] l IH]; intros t Hn; cbn.
  { rewrite lookup_empty. by destruct (t !! k). }
  apply NoDup_cons in Hn as [Hk Hn]. rewrite IH by done.
  rewrite merge_one_lookup. destruct (decide (k' = k)) as [->|Hne].
  - rewrite lookup_insert_eq, not_elem_of_list_to_map_1 by done.
    by destruct (t !! k).
  - by rewrite lookup_insert_ne.
Qed.

Lemma merge_tables_lookup disk t k :
  merge_tables disk t !! k = merged_entry (disk !! k) (t !! k).
Proof.
  unfold merge_tables.
  assert (Hp : hash_iter t ≡ₚ map_to_list t) by apply hash_iter_perm.
  assert (Hn : NoDup (hash_iter t).*1) by (rewrite Hp; apply NoDup_fst_map_to_list).
  rewrite merge_fold_lookup by done. do 2 f_equal.
  rewrite <-(list_to_map_to_list t) at 2. by apply list_to_map_proper.
Qed.

Lemma merge_tables_empty disk : merge_tables disk ∅ = disk.
Proof.
  apply map_eq. intros k. rewrite merge_tables_lookup, lookup_empty. by destruct (disk !! k).
Qed.

End MergeLemmas.

(** ** Sanitising *)

Definition sane (e : ReputationEntry) : Prop :=
  f64_le MIN_ALPHA (re_alpha e) = true ∧ f64_le (re_alpha e) MAX_PARAMETER = true
  ∧ f64_le MIN_BETA (re_beta e) = true ∧ f64_le (re_beta e) MAX_PARAMETER = true.

Lemma sanitize_entry_sane e e' : sanitize_entry e = Some e' → sane e'.
Proof.
  unfold sanitize_entry. destruct (_ || _ || _ || _) eqn:E; [done|]. intros [= <-].
  rewrite !orb_false_iff in E. destruct E as [[[_ _] Ha] Hb].
  destruct (f64_clamp_bounds MIN_ALPHA MAX_PARAMETER (re_alpha e) Ha eq_refl).
  destruct (f64_clamp_bounds MIN_BETA MAX_PARAMETER (re_beta e) Hb eq_refl).
  by split_and!.
Qed.

Lemma sanitize_entry_idem e e' : sanitize_entry e = Some e' → sanitize_entry e' = Some e'.
Proof.
  unfold sanitize_entry at 1. destruct (_ || _ || _ || _) eqn:E; [done|]. intros [= <-].
  rewrite !orb_false_iff in E. destruct E as [[[Ha Hb] Hna] Hnb].
  unfold sanitize_entry, f64_clamp; cbn [re_alpha re_beta re_last_updated re_last_updated_instant].
  destruct (f64_lt (re_alpha e) MIN_ALPHA) eqn:E1, (f64_gt (re_alpha e) MAX_PARAMETER) eqn:E2,
    (f64_lt (re_beta e) MIN_BETA) eqn:E3, (f64_gt (re_beta e) MAX_PARAMETER) eqn:E4;
    rewrite ?Ha, ?Hb, ?Hna, ?Hnb, ?E1, ?E2, ?E3, ?E4; reflexivity.
Qed.

(** ** Persistence *)

Section PersistenceLemmas.
Context `{HIL : HashIterLaws} `{TL : TomlLaws}.
Implicit Types (t : ReputationTable).

Lemma with_extension_ne path : with_extension "toml.tmp" path ≠ path.
Proof.
  assert (Hf : ∀ f, match rsplit_once "."%char f with
                    | Some (EmptyString, _) | None => f
                    | Some (stem, _) => stem
                    end +:+ "." +:+ "toml.tmp" ≠ f).
  { intros f Heq. destruct (rsplit_once "."%char f) as [[[|a stem] ext]|] eqn:E.
    1, 3: apply (f_equal String.length) in Heq; rewrite !length_append in Heq; cbn in Heq; lia.
    apply rsplit_once_Some in E as [-> Hl].
    apply append_inj_length in Heq as [_ [= <-]]; done. }
  unfold with_extension. destruct (rsplit_once "/"%char path) as [[dir f]|] eqn:E; [|apply Hf].
  apply rsplit_once_Some in E as [-> _]. intros Heq.
  apply append_inj_length in Heq as [_ [= Heq]]; [|done]. by apply Hf in Heq.
Qed.

Lemma save_ok faults path t disk disk' :
  table_save faults path t disk = (Ok tt, disk') →
  ∃ content,
    toml_to_string_pretty (merge_tables (table_load (df_read faults) path disk) t) = Ok content
    ∧ disk' !! path = Some content.
Proof.
  unfold table_save. destruct (df_create_dir faults); [done|].
  destruct (toml_to_string_pretty _) as [content|]; [|done].
  destruct (df_write faults) as [[partial e]|]; [done|]. destruct (df_rename faults); [done|].
  intros [= <-]. exists content. by rewrite lookup_insert_eq.
Qed.

(** C34: A save fails without changing the table's file, or replaces it by the whole
    text of the merged table; whatever fails, no other file than the temporary one
    is touched. *)
Theorem save_atomic faults path t disk :
  let '(r, disk') := table_save faults path t disk in
  (∀ p, p ≠ path → p ≠ with_extension "toml.tmp" path → disk' !! p = disk !! p)
  ∧ match r with
    | Err _ => disk' !! path = disk !! path
    | Ok _ => ∃ content,
        toml_to_string_pretty (merge_tables (table_load (df_read faults) path disk) t) = Ok content
        ∧ disk' !! path = Some content
    end.
Proof.
  pose proof (with_extension_ne path) as Hne. unfold table_save.
  destruct (df_create_dir faults); [done|].
  destruct (toml_to_string_pretty _) as [content|]; [|done].
  destruct (df_write faults) as [[partial e]|]; [|destruct (df_rename faults)].
  - split; [intros p _ Hp; by rewrite lookup_insert_ne|by rewrite lookup_insert_ne].
  - split; [intros p _ Hp; by rewrite lookup_insert_ne|by rewrite lookup_insert_ne].
  - split.
    + intros p Hp Ht. by rewrite lookup_insert_ne, lookup_delete_ne, lookup_insert_ne.
    + exists content. split; [done|]. by rewrite lookup_insert_eq.
Qed.

Lemma table_load_elem path disk k e :
  table_load None path disk !! k = Some e →
  re_last_updated_instant e = None ∧ sanitize_entry e = Some e.
Proof.
  unfold table_load, ReputationTable_new. destruct (disk !! path) as [content|]; [|by rewrite lookup_empty].
  rewrite lookup_omap. destruct (toml_from_str content) as [t|] eqn:Et; cbn;
    [|by rewrite lookup_empty].
  destruct (t !! k) as [e0|] eqn:Ek; [|done]. cbn. intros Hs.
  split; [|by eapply sanitize_entry_idem].
  pose proof (toml_skips_instant _ _ _ _ Et Ek) as Hi.
  unfold sanitize_entry in Hs. destruct (_ || _ || _ || _); [done|]. by injection Hs as <-.
Qed.

(** After a successful save, loading gives at each key the greater parameters of
    the file and of memory, within the bounds of a sane entry. *)
Theorem save_load path t disk disk' :
  table_save no_faults path t disk = (Ok tt, disk') →
  ∀ k, table_load None path disk' !! k
       = merged_entry (table_load None path disk !! k) (t !! k) ≫= sanitize_entry ∘ forget_instant.
Proof.
  intros Hs k. destruct (save_ok _ _ _ _ _ Hs) as (content & Ht & Hp). cbn [df_read no_faults] in Ht.
  unfold table_load at 1. rewrite Hp, (toml_round_trip _ _ Ht). cbn.
  rewrite lookup_omap, lookup_fmap, merge_tables_lookup. by destruct (merged_entry _ _).
Qed.

Lemma merge_entry_self e : merge_entry e e = e.
Proof. unfold merge_entry. destruct e; cbn. repeat case_match; done. Qed.

(** The reset of the command line changes nothing: [save] merges what is left
    with the file the entries were read from, so every entry removed comes back. *)
Theorem reset_undone_by_save profile path disk disk' :
  cmd_reputation_reset profile no_faults path disk = (Ok tt, disk') →
  table_load None path disk' = table_load None path disk.
Proof.
  intros Hs. apply map_eq. intros k. unfold cmd_reputation_reset in Hs.
  rewrite (save_load _ _ _ _ Hs). cbn [df_read no_faults].
  set (loaded := table_load None path disk).
  assert (Hsub : ∀ e, (reset_reputation profile loaded).2 !! k = Some e → loaded !! k = Some e).
  { intros e. destruct profile as [p|]; cbn; [|unfold table_reset; by rewrite lookup_empty].
    by intros [? _]%map_lookup_filter_Some. }
  destruct (loaded !! k) as [e|] eqn:E.
  - destruct (table_load_elem _ _ _ _ E) as [Hi Hsan].
    assert (He : forget_instant e = e) by (destruct e; cbn in *; by rewrite Hi).
    destruct ((reset_reputation profile loaded).2 !! k) as [e'|] eqn:E'; cbn.
    + pose proof (Hsub _ eq_refl) as [= ->]. by rewrite merge_entry_self, He.
    + by rewrite He.
  - destruct ((reset_reputation profile loaded).2 !! k) as [e'|]; [|done].
    by specialize (Hsub _ eq_refl).
Qed.

(** Saving never lowers a parameter of the file, so decay does not reach it. *)
Lemma merge_entry_ge entry existing :
  f64_is_nan (re_alpha existing) = false → f64_is_nan (re_beta existing) = false →
  f64_le (re_alpha existing) (re_alpha (merge_entry entry existing)) = true
  ∧ f64_le (re_beta existing) (re_beta (merge_entry entry existing)) = true.
Proof.
  assert (Hg : ∀ x y, f64_is_nan x = false → f64_le x (if f64_gt y x then y else x) = true).
  { intros x y Hx. destruct (f64_gt y x) eqn:E; [|by apply f64_le_refl].
    unfold f64_gt, SFltb in E. unfold f64_le, SFleb. by destruct (SFcompare x y) as [[]|]. }
  intros Ha Hb. by split; apply Hg.
Qed.

End PersistenceLemmas.

(** ** Observations of clients *)

(** Whatever text a client sends, the weight observed lies between zero and the
    largest legitimate weight of its kind; NaN and infinities are refused. *)
Theorem parse_outcome_bounded s outcome :
  parse_outcome s = Some outcome →
  match outcome with
  | Approved w => f64_le f64_zero w = true ∧ f64_le w MAX_APPROVED_WEIGHT = true
  | Refused w => f64_le f64_zero w = true ∧ f64_le w MAX_DENIED_WEIGHT = true
  end.
Proof.
  unfold parse_outcome. destruct (split_once ":" s) as [[kind text]|]; [|done]. cbn [mbind option_bind].
  destruct (parse_f64 text) as [w|]; [|done]. cbn [mbind option_bind].
  destruct (f64_is_finite w) eqn:Hf; [|done]. cbn [negb].
  assert (Hn : f64_is_nan w = false) by by destruct w.
  destruct (String.eqb kind "approved"); [|destruct (String.eqb kind "denied"); [|done]];
    intros [= <-]; by apply f64_clamp_bounds.
Qed.

Lemma f64_clamp_id lo hi x :
  f64_le lo x = true → f64_le x hi = true → f64_clamp lo hi x = x.
Proof.
  assert (Hle : ∀ a b, f64_le a b = true → f64_lt b a = false).
  { intros a b. unfold f64_le, f64_lt, SFleb, SFltb. rewrite (SFcompare_antisym a b).
    by destruct (SFcompare a b) as [[]|]. }
  intros H1 H2. unfold f64_clamp, f64_gt. rewrite (Hle _ _ H1).
  pose proof (Hle _ _ H2) as H3. unfold f64_lt in H3. by rewrite H3.
Qed.

Section EndpointLemmas.
Context {D : Deps} {CH : Chrono} {PW : Powf}.
Implicit Types (t : ReputationTable).

(** Resetting a profile removes its entries and no other. *)
Lemma reset_profile_lookup profile t k :
  (reset_reputation (Some profile) t).2 !! k
  = if starts_with (profile +:+ "|") k then None else t !! k.
Proof.
  cbn. destruct (starts_with (profile +:+ "|") k) eqn:E.
  - apply map_lookup_filter_None. right. intros e _. cbn. congruence.
  - destruct (t !! k) as [e|] eqn:Ek.
    + by apply map_lookup_filter_Some.
    + apply map_lookup_filter_None. by left.
Qed.

End EndpointLemmas.

(** ** Concrete instances *)

(** A table as the text of its position in stdpp's enumeration. *)
#[global] Instance ReputationEntry_eq_dec : EqDecision ReputationEntry.
Proof. solve_decision. Defined.

#[global] Program Instance ReputationEntry_countable : Countable ReputationEntry :=
  inj_countable' (λ e, (re_alpha e, re_beta e, re_last_updated e, re_last_updated_instant e))
    (λ '(a, b, u, i), Build_ReputationEntry a b u i) _.
Next Obligation. by intros []. Qed.

Definition concrete_toml : Toml := {|
  toml_to_string_pretty t := Ok (positive_text (encode t));
  toml_from_str s :=
    match decode (A := ReputationTable) (text_positive s) with
    | Some t => Some (forget_instant <$> t)
    | None => None
    end;
|}.

Lemma concrete_toml_laws : @TomlLaws concrete_toml.
Proof.
  split; cbn.
  - intros t s [= <-]. by rewrite text_positive_text, decode_encode.
  - intros s t k e. destruct (decode (text_positive s)) as [t0|]; [|done].
    intros [= <-]. rewrite lookup_fmap. destruct (t0 !! k); [|done]. by intros [= <-].
Qed.

Section Concrete.
#[local] Existing Instance concrete_deps.
#[local] Existing Instance concrete_chrono.
#[local] Existing Instance no_decay.
#[local] Existing Instance concrete_toml.
#[local] Existing Instance concrete_iter.

Example parse_f64_examples :
  map parse_f64 ["1.5"; ".5e1"; "3."; "-0"; "+inf"; "1e400"; "1e-400"; "0.92"; "."; "1e"; "5x"; ""]
  = [Some (f64_dec 15 1); Some (f64_of_Z 5); Some (f64_of_Z 3); Some f64_neg_zero;
     Some (S754_infinity false); Some (S754_infinity false); Some f64_zero; Some (f64_dec 92 2);
     None; None; None; None].
Proof. vm_compute. reflexivity. Qed.

Example with_extension_examples :
  map (with_extension "toml.tmp") ["/home/dan/.config/grith/reputation.toml"; "rep"; "/a.b/.hidden"]
  = ["/home/dan/.config/grith/reputation.toml.tmp"; "rep.toml.tmp"; "/a.b/.hidden.toml.tmp"].
Proof. reflexivity. Qed.

Lemma parse_outcome_bounded_witness :
  parse_outcome "approved:1000000.0" = Some (Approved MAX_APPROVED_WEIGHT)
  ∧ f64_le MAX_APPROVED_WEIGHT MAX_APPROVED_WEIGHT = true.
Proof.
  assert (H : parse_outcome "approved:1000000.0" = Some (Approved MAX_APPROVED_WEIGHT))
    by (vm_compute; reflexivity).
  split; [exact H|]. exact (proj2 (parse_outcome_bounded _ _ H)).
Defined.

(** A table with one learned entry, and its file. *)
Definition one_entry : ReputationTable :=
  {[ "claude-code|FileRead|claude|*|/tmp/f" :=
     {| re_alpha := f64_of_Z 20; re_beta := f64_of_Z 1; re_last_updated := "2026-01-01T00:00:00Z";
        re_last_updated_instant := None |} ]}.

Definition one_file : Disk :=
  {[ "/home/dan/.config/grith/reputation.toml" := positive_text (encode one_entry) ]}.

Lemma reset_undone_by_save_witness :
  ∃ disk',
    cmd_reputation_reset None no_faults "/home/dan/.config/grith/reputation.toml" one_file = (Ok tt, disk')
    ∧ table_load None "/home/dan/.config/grith/reputation.toml" disk'
      = table_load None "/home/dan/.config/grith/reputation.toml" one_file
    ∧ size (table_load None "/home/dan/.config/grith/reputation.toml" one_file) = 1.
Proof.
  destruct (cmd_reputation_reset None no_faults "/home/dan/.config/grith/reputation.toml" one_file)
    as [r disk'] eqn:E.
  assert (Hr : r = Ok tt) by (apply (f_equal fst) in E; cbn [fst] in E; rewrite <-E; reflexivity).
  subst r. exists disk'. split; [done|]. split.
  - exact (@reset_undone_by_save concrete_iter concrete_iter_laws concrete_toml concrete_toml_laws
             None _ _ _ E).
  - vm_compute. reflexivity.
Defined.

Lemma save_atomic_witness :
  ∃ r disk',
    table_save {| df_create_dir := None; df_read := None; df_write := Some ("half", "disk full");
                  df_rename := None |} "/r/reputation.toml" one_entry one_file = (r, disk')
    ∧ disk' !! "/r/reputation.toml" = one_file !! "/r/reputation.toml".
Proof.
  pose proof (save_atomic {| df_create_dir := None; df_read := None;
    df_write := Some ("half", "disk full"); df_rename := None |} "/r/reputation.toml" one_entry one_file)
    as H.
  destruct (table_save _ _ _ _) as [r disk'] eqn:E. exists r, disk'. split; [done|].
  destruct H as [_ H]. destruct r as [|e]; [|exact H].
  apply (f_equal fst) in E. discriminate E.
Defined.

(** A request may repeat one key: the clamp on the weight does not stop one request
    from raising an unknown operation to an automatic approval, as its comment says
    it does. *)
Theorem one_request_whitelists :
  let key := (0%Z, "claude-code|ProcessSpawn|bash|*|curl") in
  let '(status, _, t) :=
    observe_reputation still_clock ReputationConfig_default
      {| or_keys := replicate 32 key; or_outcome := "approved:1.5" |} ReputationTable_new in
  (status, adjust_score (f64_of_Z 7) [key] false ReputationConfig_default t) = (200%Z, f64_zero).
Proof. vm_compute. reflexivity. Qed.

(** A configured denial weight above the default's is cut by the daemon. *)
Theorem daemon_caps_deny_weight : parse_outcome "denied:11" = Some (Refused (f64_of_Z 5)).
Proof. vm_compute. reflexivity. Qed.

End Concrete.
