(* ===== verification/ReputationReview.v ===== *)
(** * Reputation in the review of calls

    Who consults the table and who feeds it: the automatic approval of queued calls
    in the daemon ([grith-server/src/routes/proxy_ipc.rs]) and in the supervisor, the
    reputation recorded in the audit trail and the observation of verdicts
    ([grith-supervisor/src/supervisor/event_handler.rs]). *)

From Stdlib Require Import Ascii String ZArith Lia SpecFloat.
From S2P Require Import Prelude Concrete F64 Types Reputation ReputationStore.

(** ** What a call is about *)

Section Subject.
Context {D : Deps}.

Definition json_str (args : Json) (key : string) : option string :=
  v ← json_get args key; json_as_str v.

(** The first argument of the process that looks like a host. *)
Definition looks_like_host (arg : string) : bool :=
  negb (starts_with "-" arg) && (contains "@" arg || contains "." arg).

Definition args_destination (args : Json) : option string :=
  v ← json_get args "process_args";
  l ← json_as_array v;
  List.find looks_like_host (omap json_as_str l).

(** The path, address, command or domain of a call, empty if it has none. *)
Definition daemon_subject (call_type : ToolCallType) : string :=
  match call_type with
  | FileRead path | FileWrite path _ | FileAppend path | FileDelete path
  | FileChmod path _ | DirList path | DirCreate path => path
  | FileRename old_path _ => old_path
  | ProcessSpawn command _ => command
  | NetConnect address _ | NetListen address _ => address
  | DnsQuery domain _ => domain
  | _ => ""
  end.

Definition supervisor_subject (call_type : ToolCallType) : option string :=
  match call_type with
  | FileRead path | FileWrite path _ | FileAppend path | FileDelete path
  | FileChmod path _ | DirList path | DirCreate path => Some path
  | FileRename old_path _ => Some old_path
  | OwnershipChange target _ _ | FilesystemMutation _ _ target _ => Some target
  | ProcessSpawn command _ => Some command
  | NetConnect address _ | NetListen address _ => Some address
  | DnsQuery domain _ => Some domain
  | _ => None
  end.

(** The keys under which a verdict is asked for. *)
Definition lookup_keys (profile : string) (call_type : ToolCallType) (args : Json)
    (subject : string) : list (Z * string) :=
  build_reputation_keys profile (action_name call_type)
    (default "*" (json_str args "process")) (default "*" (args_destination args)) subject.

Definition with_verdict (action : ProxyAction) (reason : string) (d : ProxyDecision) : ProxyDecision := {|
  pd_action := action; pd_composite_score := pd_composite_score d;
  pd_filter_results := pd_filter_results d; pd_evaluation_time := pd_evaluation_time d;
  pd_decision_reason := reason |}.

(** ** The automatic approval *)

Definition maybe_apply_reputation_auto_allow (config : ReputationConfig) (t : ReputationTable)
    (ctx : ToolCallContext) (decision : ProxyDecision) : ProxyDecision :=
  let profile := default "unknown" (ctx_profile_name ctx) in
  let path := daemon_subject (ctx_call_type ctx) in
  if String.eqb path "" then decision
  else if has_safety_ceiling (pd_filter_results decision) (ctx_call_type ctx) config then decision
  else
    let keys := lookup_keys profile (ctx_call_type ctx) (ctx_arguments ctx) path in
    let adjusted := adjust_score (pd_composite_score decision) keys false config t in
    if f64_eq adjusted f64_zero
    then with_verdict Allow "daemon reputation auto-allow: trust sufficient" decision
    else decision.

Record ReputationContext := {
  rx_trust_score : f64;
  rx_auto_allowed : bool;
  rx_score_reduction : f64;
  rx_reputation_key : string;
}.

(** The supervisor's own check, without a daemon; the flags are the escalations that
    forbid it. *)
Definition supervisor_auto_allow (daemon_proxy mass_destruction_escalated
    authority_delegation_escalated delegation_would_enforce : bool) (scope_name : string)
    (config : ReputationConfig) (t : ReputationTable) (ctx : ToolCallContext)
    (decision : ProxyDecision) : option ReputationContext :=
  let queued := match pd_action decision with Queue _ => true | _ => false end in
  if negb daemon_proxy && negb mass_destruction_escalated && negb authority_delegation_escalated
     && negb delegation_would_enforce && queued
  then
    let path := default "" (supervisor_subject (ctx_call_type ctx)) in
    if String.eqb path "" then None
    else
      let keys := lookup_keys scope_name (ctx_call_type ctx) (ctx_arguments ctx) path in
      if has_safety_ceiling (pd_filter_results decision) (ctx_call_type ctx) config then None
      else
        let adjusted := adjust_score (pd_composite_score decision) keys false config t in
        if negb (f64_eq adjusted f64_zero) then None
        else Some {|
          rx_trust_score := default f64_zero (fst <$> table_lookup keys config t);
          rx_auto_allowed := true;
          rx_score_reduction := f64_sub (pd_composite_score decision) adjusted;
          rx_reputation_key := default "" (snd <$> head keys) |}
  else None.

(** The reputation written to the audit record of any other decision. *)
Definition audit_reputation_context (scope_name : string) (config : ReputationConfig)
    (t : ReputationTable) (ctx : ToolCallContext) (decision : ProxyDecision) :
    option ReputationContext :=
  let path := default "" (supervisor_subject (ctx_call_type ctx)) in
  if String.eqb path "" then None
  else
    let keys := build_reputation_keys scope_name (action_name (ctx_call_type ctx)) "*" "*" path in
    '(trust, _) ← table_lookup keys config t;
    let ceiling := has_safety_ceiling (pd_filter_results decision) (ctx_call_type ctx) config in
    let adjusted := adjust_score (pd_composite_score decision) keys ceiling config t in
    Some {|
      rx_trust_score := trust;
      rx_auto_allowed := f64_eq adjusted f64_zero;
      rx_score_reduction := f64_sub (pd_composite_score decision) adjusted;
      rx_reputation_key := default "" (snd <$> head keys) |}.

(** ** Observations *)

Definition implicit_deny_weight (config : ReputationConfig) : f64 :=
  f64_max (f64_div (rc_deny_weight config) (f64_of_Z 3)) (f64_of_Z 1).

Definition manual_deny_weight (config : ReputationConfig) : f64 :=
  f64_max (rc_deny_weight config) (f64_of_Z 1).

Definition terminate_deny_weight (config : ReputationConfig) : f64 :=
  f64_add (manual_deny_weight config)
    (f64_sub (manual_deny_weight config) (implicit_deny_weight config)).

(** The keys a verdict is recorded under; [None] if the call has no subject. *)
Definition observation_keys (scope_name : string) (call_type : ToolCallType)
    (ctx_args : option Json) : option (list (Z * string)) :=
  let process :=
    c ← (a ← ctx_args; json_str a "process");
    if negb (String.eqb c "") && negb (starts_with "fork-from-" c) then Some c else None in
  let destination := a ← ctx_args; args_destination a in
  path ← supervisor_subject call_type;
  Some (build_reputation_keys scope_name (action_name call_type)
          (default "*" process) (default "*" destination) path).

Inductive Observation :=
  | NotObserved
  | ObservedLocally (keys : list (Z * string)) (outcome : ReputationOutcome)
  | SentToDaemon (request : ObserveRequest).

Definition outcome_text `{F64Display} (outcome : ReputationOutcome) : string :=
  match outcome with
  | Approved weight => "approved:" +:+ fmt_f64 weight
  | Refused weight => "denied:" +:+ fmt_f64 weight
  end.

Definition record_reputation_observation_with_ctx `{F64Display} (daemon_proxy : bool)
    (scope_name : string) (config : ReputationConfig) (call_type : ToolCallType)
    (outcome : ReputationOutcome) (ctx_args : option Json) : Observation :=
  if negb (rc_enabled config) then NotObserved
  else
    match observation_keys scope_name call_type ctx_args with
    | None => NotObserved
    | Some keys =>
        if daemon_proxy then SentToDaemon {| or_keys := keys; or_outcome := outcome_text outcome |}
        else ObservedLocally keys outcome
    end.

Definition record_reputation_observation `{F64Display} (daemon_proxy : bool) (scope_name : string)
    (config : ReputationConfig) (call_type : ToolCallType) (outcome : ReputationOutcome) : Observation :=
  record_reputation_observation_with_ctx daemon_proxy scope_name config call_type outcome None.

End Subject.

(** ** Soundness of the automatic approval *)

Section ReviewLemmas.
Context {D : Deps} {CH : Chrono} {PW : Powf} {FD : F64Display}.
Implicit Types (t : ReputationTable) (config : ReputationConfig) (ctx : ToolCallContext).

(** C24: The daemon turns a review into an approval only if no filter scored as high
    as the ceiling, no secret was found, the call's path is under no sensitive root,
    and the table holds enough observations of the call at one of its levels (unless
    the score was zero anyway).  The score and the filters' results are kept. *)
Theorem daemon_auto_allow_sound config t ctx decision :
  maybe_apply_reputation_auto_allow config t ctx decision ≠ decision →
  let path := daemon_subject (ctx_call_type ctx) in
  let keys := lookup_keys (default "unknown" (ctx_profile_name ctx)) (ctx_call_type ctx)
                (ctx_arguments ctx) path in
  path ≠ ""
  ∧ Forall (λ r, fr_matched r = true →
      f64_ge (fr_score r) (rc_ceiling_filter_threshold config) = false
      ∧ fr_filter_name r ≠ "secret-scan") (pd_filter_results decision)
  ∧ (∀ p, ceiling_op_path (ctx_call_type ctx) = Some p → is_sensitive_root p = false)
  ∧ (f64_eq (pd_composite_score decision) f64_zero = true
     ∨ ∃ level k e, (level, k) ∈ keys ∧ t !! k = Some e ∧ enough_observations config e = true)
  ∧ pd_composite_score (maybe_apply_reputation_auto_allow config t ctx decision)
    = pd_composite_score decision
  ∧ pd_filter_results (maybe_apply_reputation_auto_allow config t ctx decision)
    = pd_filter_results decision.
Proof.
  unfold maybe_apply_reputation_auto_allow. cbv zeta.
  destruct (String.eqb_spec (daemon_subject (ctx_call_type ctx)) "") as [|Hp]; [done|].
  destruct (has_safety_ceiling _ _ _) eqn:Hc; [done|].
  set (keys := lookup_keys _ _ _ _).
  destruct (f64_eq (adjust_score _ _ _ _ _) f64_zero) eqn:Ha; [|done]. intros _.
  destruct (no_ceiling _ _ _ Hc) as [Hf Hs]. split_and!; try done.
  apply adjust_zero_evidence in Ha as [?|(level & k & e & ?)]; [by left|right; eauto].
Qed.

(** *** Supervisor and daemon *)

(** Without escalations the supervisor approves exactly the queued calls the
    daemon would, for the same profile name and table; changes of ownership and of
    the file-system tree, which only the supervisor considers, apart. *)
Theorem supervisor_agrees_with_daemon config t ctx decision priority :
  pd_action decision = Queue priority →
  match ctx_call_type ctx with
  | OwnershipChange _ _ _ | FilesystemMutation _ _ _ _ => False
  | _ => True
  end →
  is_Some (supervisor_auto_allow false false false false
             (default "unknown" (ctx_profile_name ctx)) config t ctx decision)
  ↔ pd_action (maybe_apply_reputation_auto_allow config t ctx decision) = Allow.
Proof.
  intros Hq Hc. unfold supervisor_auto_allow, maybe_apply_reputation_auto_allow.
  rewrite Hq. cbn [negb andb].
  assert (Hs : default "" (supervisor_subject (ctx_call_type ctx)) = daemon_subject (ctx_call_type ctx))
    by by destruct (ctx_call_type ctx).
  rewrite Hs. cbv zeta. set (keys := lookup_keys _ _ _ _).
  assert (Hno : ∀ P : Prop, (is_Some (@None ReputationContext) ↔ P) ↔ ¬ P)
    by (intros P; split; [intros [_ HP] ?; by destruct (HP ltac:(done))|intros ?; split; [by intros []|done]]).
  destruct (String.eqb _ ""); [apply Hno; congruence|].
  destruct (has_safety_ceiling _ _ _); [apply Hno; congruence|].
  destruct (f64_eq _ _); cbn; [by eauto|apply Hno; congruence].
Qed.

(** *** What is recorded *)

Lemma build_reputation_keys_length p a r d q : length (build_reputation_keys p a r d q) ≤ 3.
Proof.
  unfold build_reputation_keys, derive_path_classes.
  destruct (is_sensitive_root q); [cbn; lia|]. destruct (parent_text q) as [x|]; [|cbn; lia].
  destruct (_ && _); cbn; lia.
Qed.

Definition legitimate (outcome : ReputationOutcome) : Prop :=
  match outcome with
  | Approved w => f64_le f64_zero w = true ∧ f64_le w MAX_APPROVED_WEIGHT = true
                  ∧ f64_is_finite w = true ∧ parse_f64 (fmt_f64 w) = Some w
  | Refused w => f64_le f64_zero w = true ∧ f64_le w MAX_DENIED_WEIGHT = true
                 ∧ f64_is_finite w = true ∧ parse_f64 (fmt_f64 w) = Some w
  end.

Lemma parse_outcome_text outcome :
  legitimate outcome → parse_outcome (outcome_text outcome) = Some outcome.
Proof.
  destruct outcome as [w|w]; cbn [legitimate outcome_text]; intros (H0 & H1 & Hf & Hp);
    unfold parse_outcome.
  - change ("approved:" +:+ fmt_f64 w) with ("approved" +:+ ":" +:+ fmt_f64 w).
    rewrite (split_once_sep ":"%char "") by done. cbn [mbind option_bind].
    rewrite Hp. cbn [mbind option_bind]. rewrite Hf. cbn. by rewrite f64_clamp_id.
  - change ("denied:" +:+ fmt_f64 w) with ("denied" +:+ ":" +:+ fmt_f64 w).
    rewrite (split_once_sep ":"%char "") by done. cbn [mbind option_bind].
    rewrite Hp. cbn [mbind option_bind]. rewrite Hf. cbn. by rewrite f64_clamp_id.
Qed.

(** An observation that goes through the daemon changes the table as a local one
    does, if its weight is one the daemon accepts, its text reads back, and no key is
    longer than the daemon accepts. *)
Theorem remote_observation_equivalent clock config t profile c outcome args keys :
  legitimate outcome →
  record_reputation_observation_with_ctx false profile config c outcome args
    = ObservedLocally keys outcome →
  Forall (λ lk, String.length lk.2 ≤ MAX_OBSERVE_KEY_LEN) keys →
  ∃ request,
    record_reputation_observation_with_ctx true profile config c outcome args = SentToDaemon request
    ∧ observe_reputation clock config request t
      = (200%Z, "observed", table_observe clock keys outcome config t).
Proof.
  intros Hl. unfold record_reputation_observation_with_ctx.
  destruct (negb (rc_enabled config)); [done|].
  destruct (observation_keys profile c args) as [ks|] eqn:Ek; [|done]. intros [= ->] Hlen.
  eexists. split; [done|]. unfold observe_reputation; cbn [or_keys or_outcome].
  rewrite parse_outcome_text by done.
  assert (Hn : length keys ≤ 3).
  { unfold observation_keys in Ek. destruct (supervisor_subject c); [|done].
    injection Ek as <-. apply build_reputation_keys_length. }
  rewrite (proj2 (Nat.ltb_ge _ _)) by (unfold MAX_OBSERVE_KEYS; lia).
  rewrite (proj2 (existsb_false_Forall _ _)); [done|].
  eapply Forall_impl; [exact Hlen|]. intros [l k] Hk. apply Nat.ltb_ge, Hk.
Qed.

(** A denial the supervisor records without the call's arguments (the automatic
    denials and the replayed ones) is never heard by a call whose process or
    destination is known: the trust its approvals built is unchanged. *)
Theorem implicit_denial_unheard clock config t profile c outcome args subject :
  let process := default "*" (json_str args "process") in
  let destination := default "*" (args_destination args) in
  barless [profile; action_name c; process; destination] = true →
  or_star process ≠ "*" ∨ or_star destination ≠ "*" →
  ∀ keys,
  record_reputation_observation false profile config c outcome = ObservedLocally keys outcome →
  table_lookup (lookup_keys profile c args subject) config
    (table_observe clock keys outcome config t)
  = table_lookup (lookup_keys profile c args subject) config t.
Proof.
  cbv zeta. intros Hb Hne keys. unfold record_reputation_observation,
    record_reputation_observation_with_ctx.
  destruct (negb (rc_enabled config)); [done|].
  unfold observation_keys. cbn [mbind option_bind]. destruct (supervisor_subject c) as [path|]; [|done].
  cbn [mbind option_bind default]. intros [= <-].
  apply table_lookup_unchanged. intros k Hk Hk'.
  apply list_elem_of_fmap in Hk as ([l1 k1] & -> & Hk).
  apply list_elem_of_fmap in Hk' as ([l2 k2] & Heq & Hk'). cbn in Heq. subst k2. cbn in Hk'.
  apply build_reputation_keys_elem in Hk as (pc & -> & _).
  apply build_reputation_keys_elem in Hk' as (pc' & Hkey & _).
  apply reputation_key_inj in Hkey as (_ & _ & Hr & Hd & _).
  - cbn in *. destruct Hne; congruence.
  - by apply barless_or_star.
  - unfold barless in *; cbn [forallb] in *. reflect_bools. destruct_and?. done.
Qed.

End ReviewLemmas.

(** ** Concrete runs *)

Definition concrete_fmt : F64Display := λ w,
  if f64_eq w (f64_of_Z 1) then "1" else if f64_eq w (f64_dec 15 1) then "1.5"
  else if f64_eq w (f64_of_Z 3) then "3" else "5".

Section Concrete.
#[local] Existing Instance concrete_deps.
#[local] Existing Instance concrete_chrono.
#[local] Existing Instance no_decay.
#[local] Existing Instance concrete_fmt.

Example default_deny_weights :
  map (λ f, f ReputationConfig_default)
    [implicit_deny_weight; manual_deny_weight; terminate_deny_weight]
  = [f64_of_Z 1; f64_of_Z 3; f64_of_Z 5].
Proof. vm_compute. reflexivity. Qed.

Definition claude_args : Json :=
  JObject [("process", JString "claude"); ("process_args", JArray [JString "-p"; JString "x"])].

Definition read_call : ToolCallType := FileRead "/tmp/f".

Definition read_ctx : ToolCallContext := {|
  ctx_id := uuid_a; ctx_timestamp := 0%Z; ctx_plugin_id := "grith-supervisor";
  ctx_call_type := read_call; ctx_arguments := claude_args; ctx_session_id := uuid_b;
  ctx_task_context := None; ctx_call_sequence_number := 0; ctx_source_taint := TaintNone;
  ctx_profile_name := Some "claude-code"; ctx_conversation_id := None; ctx_session_scope := None;
  ctx_spawn_provenance := None; ctx_listener_policy_match := None; ctx_bind_protocol := None |}.

Definition queued_decision : ProxyDecision := {|
  pd_action := Queue Medium; pd_composite_score := f64_of_Z 4; pd_filter_results := [];
  pd_evaluation_time := 0; pd_decision_reason := "" |}.

Definition trusted_table : ReputationTable :=
  {[ "claude-code|FileRead|claude|*|/tmp/f" :=
     {| re_alpha := f64_of_Z 20; re_beta := f64_of_Z 1; re_last_updated := "";
        re_last_updated_instant := None |} ]}.

Lemma auto_allowed_run :
  maybe_apply_reputation_auto_allow ReputationConfig_default trusted_table read_ctx queued_decision
  = with_verdict Allow "daemon reputation auto-allow: trust sufficient" queued_decision.
Proof. vm_compute. reflexivity. Qed.

Lemma daemon_auto_allow_sound_witness :
  maybe_apply_reputation_auto_allow ReputationConfig_default trusted_table read_ctx queued_decision
    ≠ queued_decision
  ∧ daemon_subject read_call ≠ "".
Proof.
  assert (H : maybe_apply_reputation_auto_allow ReputationConfig_default trusted_table read_ctx
                queued_decision ≠ queued_decision) by (rewrite auto_allowed_run; discriminate).
  split; [exact H|]. exact (proj1 (daemon_auto_allow_sound _ _ _ _ H)).
Defined.

Lemma supervisor_agrees_with_daemon_witness :
  is_Some (supervisor_auto_allow false false false false "claude-code" ReputationConfig_default
             trusted_table read_ctx queued_decision).
Proof.
  apply (proj2 (supervisor_agrees_with_daemon ReputationConfig_default trusted_table read_ctx
                  queued_decision Medium eq_refl I)).
  rewrite auto_allowed_run. reflexivity.
Defined.

Lemma remote_observation_equivalent_witness :
  legitimate (Approved (f64_dec 15 1))
  ∧ ∃ request,
      record_reputation_observation_with_ctx true "claude-code" ReputationConfig_default read_call
        (Approved (f64_dec 15 1)) (Some claude_args) = SentToDaemon request
      ∧ or_outcome request = "approved:1.5".
Proof.
  assert (Hl : legitimate (Approved (f64_dec 15 1))) by (vm_compute; by split_and!).
  split; [exact Hl|].
  destruct (remote_observation_equivalent still_clock ReputationConfig_default ∅ "claude-code"
    read_call (Approved (f64_dec 15 1)) (Some claude_args)
    (lookup_keys "claude-code" read_call claude_args "/tmp/f") Hl eq_refl) as (request & Hr & _).
  - repeat constructor; cbn; lia.
  - exists request. split; [exact Hr|]. injection Hr as <-. vm_compute. reflexivity.
Defined.

Lemma implicit_denial_unheard_witness :
  ∃ keys,
    record_reputation_observation false "claude-code" ReputationConfig_default read_call
      (Refused (f64_of_Z 1)) = ObservedLocally keys (Refused (f64_of_Z 1))
    ∧ table_lookup (lookup_keys "claude-code" read_call claude_args "/tmp/f") ReputationConfig_default
        (table_observe still_clock keys (Refused (f64_of_Z 1)) ReputationConfig_default trusted_table)
      = table_lookup (lookup_keys "claude-code" read_call claude_args "/tmp/f")
          ReputationConfig_default trusted_table.
Proof.
  eexists. split; [reflexivity|].
  apply (implicit_denial_unheard still_clock ReputationConfig_default trusted_table "claude-code"
           read_call (Refused (f64_of_Z 1)) claude_args "/tmp/f"); [reflexivity|left; discriminate|reflexivity].
Defined.

(** The audit record of a queued call looks under the keys of an unknown process, so
    it can say the call was automatically approved by a prior that was not consulted. *)
Theorem audit_context_misreports :
  let t := seed_from_profile still_clock "claude-code" ["/tmp/f"] [] [] [] ReputationTable_new in
  supervisor_auto_allow false false false false "claude-code" ReputationConfig_default t read_ctx
    queued_decision = None
  ∧ rx_auto_allowed <$> audit_reputation_context "claude-code" ReputationConfig_default t read_ctx
      queued_decision = Some true.
Proof. vm_compute. by split. Qed.

End Concrete.
