(* ===== verification/DaemonLink.v ===== *)
(** * The link between a supervisor and the daemon

    In daemon mode the filters live in the daemon, so a supervisor sends each call to
    be evaluated and, with the next request, the outcomes of the calls before it.
    The outbox and its transport ([supervisor/remote_eval.rs]), the retries of
    [evaluate_proxy] ([supervisor/event_handler.rs]) and the daemon's endpoints
    ([grith-server/src/routes/proxy_ipc.rs]).  HTTP, JSON and the daemon's restart
    are parameters; locks are taken whole. *)

From Stdlib Require Import Ascii String ZArith Lia SpecFloat.
From S2P Require Import Prelude Concrete F64 Types Scoring SessionState Filters Engine Reputation ReputationReview.

(** ** The supervisor's outbox *)

Section Outbox.
Context `{D : Deps}.

Record WireObservation := {
  wo_call_id : Uuid;
  wo_scope : Uuid;
  wo_session_id : Uuid;
  wo_call_type : ToolCallType;
  wo_profile_name : option string;
  wo_arguments : Json;
  wo_outcome : CallOutcome;
  wo_age_ms : Z;
}.

Record PendingObservation := {
  po_observation : WireObservation;
  po_attempted_at : Instant;
}.

Record ObservationOutbox := {
  ob_pending : list PendingObservation;
  ob_dropped : Z;
}.

Definition ObservationOutbox_default : ObservationOutbox := {| ob_pending := []; ob_dropped := 0 |}.

Definition OUTBOX_CAP : nat := 256.

Definition outbox_push (o : PendingObservation) (ob : ObservationOutbox) : ObservationOutbox :=
  let '(pending, dropped) :=
    if OUTBOX_CAP <=? length (ob_pending ob)
    then (tail (ob_pending ob), as_u64 (ob_dropped ob + 1)) else (ob_pending ob, ob_dropped ob) in
  {| ob_pending := pending ++ [o]; ob_dropped := dropped |}.

Definition outbox_take (ob : ObservationOutbox) : list PendingObservation * ObservationOutbox :=
  (ob_pending ob, {| ob_pending := []; ob_dropped := ob_dropped ob |}).

Definition with_age (age_ms : Z) (o : WireObservation) : WireObservation := {|
  wo_call_id := wo_call_id o; wo_scope := wo_scope o; wo_session_id := wo_session_id o;
  wo_call_type := wo_call_type o; wo_profile_name := wo_profile_name o;
  wo_arguments := wo_arguments o; wo_outcome := wo_outcome o; wo_age_ms := age_ms |}.

Definition nanos_per_milli : Z := 1000000.

(** Each age is read from the clock as the request is built. *)
Fixpoint to_wire (clock : nat → Instant) (tick : nat) (batch : list PendingObservation) :
    list WireObservation :=
  match batch with
  | [] => []
  | p :: batch =>
      let elapsed := saturating_duration_since (clock tick) (po_attempted_at p) in
      with_age (Z.min (elapsed / nanos_per_milli) (2 ^ 64 - 1)) (po_observation p)
      :: to_wire clock (S tick) batch
  end.

Definition outbox_restore (batch : list PendingObservation) (ob : ObservationOutbox) :
    ObservationOutbox :=
  match batch with
  | [] => ob
  | _ =>
      let pending := batch ++ ob_pending ob in
      {| ob_pending := drop (length pending - OUTBOX_CAP) pending; ob_dropped := ob_dropped ob |}
  end.

(** What [observe_proxy_outcome] queues in daemon mode. *)
Definition pending_outcome (ctx : ToolCallContext) (outcome : CallOutcome) (attempt_start : Instant) :
    PendingObservation := {|
  po_attempted_at := attempt_start;
  po_observation := {|
    wo_call_id := ctx_id ctx;
    wo_scope := match ctx_session_scope ctx with
                | Some s => scope_uuid s
                | None => ctx_session_id ctx
                end;
    wo_session_id := ctx_session_id ctx;
    wo_call_type := ctx_call_type ctx;
    wo_profile_name := ctx_profile_name ctx;
    wo_arguments := ctx_arguments ctx;
    wo_outcome := outcome;
    wo_age_ms := 0 |} |}.

(** ** The daemon's ring of applied calls *)

Definition APPLIED_RING_CAPACITY : nat := 4096.

Record AppliedRing := {
  ar_seen : gset Uuid;
  ar_order : list Uuid;
}.

Definition AppliedRing_new : AppliedRing := {| ar_seen := ∅; ar_order := [] |}.

Definition claim_call_id (call_id : Uuid) (r : AppliedRing) : bool * AppliedRing :=
  if decide (call_id ∈ ar_seen r) then (false, r)
  else
    let seen := {[ call_id ]} ∪ ar_seen r in
    let order := ar_order r ++ [call_id] in
    if APPLIED_RING_CAPACITY <? length order then
      match order with
      | evicted :: order => (true, {| ar_seen := seen ∖ {[ evicted ]}; ar_order := order |})
      | [] => (true, {| ar_seen := seen; ar_order := order |})
      end
    else (true, {| ar_seen := seen; ar_order := order |}).

(** The minimal context the daemon rebuilds; the fresh id is overwritten. *)
Definition observed_context (now : DateTime) (o : WireObservation) : ToolCallContext :=
  let ctx := ToolCallContext_new (wo_call_id o) now "grith-supervisor" (wo_call_type o)
               (wo_session_id o) in
  {| ctx_id := wo_call_id o; ctx_timestamp := ctx_timestamp ctx;
     ctx_plugin_id := ctx_plugin_id ctx; ctx_call_type := ctx_call_type ctx;
     ctx_arguments := wo_arguments o; ctx_session_id := ctx_session_id ctx;
     ctx_task_context := ctx_task_context ctx;
     ctx_call_sequence_number := ctx_call_sequence_number ctx;
     ctx_source_taint := ctx_source_taint ctx; ctx_profile_name := wo_profile_name o;
     ctx_conversation_id := ctx_conversation_id ctx;
     ctx_session_scope := Some (from_session_id (wo_scope o));
     ctx_spawn_provenance := ctx_spawn_provenance ctx;
     ctx_listener_policy_match := ctx_listener_policy_match ctx;
     ctx_bind_protocol := ctx_bind_protocol ctx |}.

(** ** The daemon *)

Context {FS : Type}.

Record Daemon := {
  dm_ring : AppliedRing;
  dm_proxy : SecurityProxy FS;
  dm_world : World FS;
  dm_reputation : ReputationTable;
}.

Definition set_proxy (pw : SecurityProxy FS * World FS) (d : Daemon) : Daemon :=
  {| dm_ring := dm_ring d; dm_proxy := pw.1; dm_world := pw.2; dm_reputation := dm_reputation d |}.

Definition apply_observation (now : DateTime) (d : Daemon) (o : WireObservation) : Daemon :=
  let '(fresh, ring) := claim_call_id (wo_call_id o) (dm_ring d) in
  let d := {| dm_ring := ring; dm_proxy := dm_proxy d; dm_world := dm_world d;
              dm_reputation := dm_reputation d |} in
  if fresh : bool then
    set_proxy (observe_outcome (observed_context now o) (wo_outcome o)
                 (wo_age_ms o * nanos_per_milli)%Z (dm_proxy d) (dm_world d)) d
  else d.

Definition apply_observations (now : DateTime) (observations : list WireObservation) (d : Daemon) :
    Daemon :=
  fold_left (apply_observation now) observations d.

Variable clock : nat → Instant.
Variable canonical_exe_for_pid : N → option string.
Variable to_string_lossy : string → string.

(** [POST /api/proxy/evaluate], up to the rendering of the response. *)
Definition daemon_evaluate (config : ReputationConfig) (now : DateTime) (ctx : ToolCallContext)
    (observations : list WireObservation) (d : Daemon) : ProxyDecision * Daemon :=
  let d := apply_observations now observations d in
  let '(decision, px, w) :=
    evaluate clock canonical_exe_for_pid to_string_lossy ctx (dm_proxy d) (dm_world d) in
  let d := set_proxy (px, w) d in
  let decision :=
    match pd_action decision with
    | Queue _ => maybe_apply_reputation_auto_allow config (dm_reputation d) ctx decision
    | _ => decision
    end in
  (decision, d).

(** [POST /api/proxy/observe]: the count in the response includes the skipped. *)
Definition daemon_observe (now : DateTime) (observations : list WireObservation) (d : Daemon) :
    nat * Daemon :=
  (length observations, apply_observations now observations d).

End Outbox.

Arguments Daemon {_} FS.

Lemma ring_capacity_pos : 0 < APPLIED_RING_CAPACITY.
Proof. unfold APPLIED_RING_CAPACITY. lia. Qed.

Lemma outbox_cap_pos : 0 < OUTBOX_CAP.
Proof. unfold OUTBOX_CAP. lia. Qed.

#[global] Opaque APPLIED_RING_CAPACITY OUTBOX_CAP.

(** ** The ring is the end of the log *)

Section Ring.
Context `{D : Deps}.
Implicit Types (log : list Uuid).

Definition recent log : list Uuid := drop (length log - APPLIED_RING_CAPACITY) log.

Record ring_ok (r : AppliedRing) log : Prop := {
  ro_order : ar_order r = recent log;
  ro_nodup : NoDup (recent log);
  ro_seen : ∀ x, x ∈ ar_seen r ↔ x ∈ recent log;
}.

Lemma ring_ok_new : ring_ok AppliedRing_new [].
Proof. split; [done|constructor|]. intros x. cbn. set_solver. Qed.

Lemma recent_length log : length (recent log) = min (length log) APPLIED_RING_CAPACITY.
Proof. unfold recent. rewrite length_drop. lia. Qed.

Lemma recent_snoc log x :
  recent (log ++ [x])
  = (if APPLIED_RING_CAPACITY <=? length log then tail (recent log) else recent log) ++ [x].
Proof.
  unfold recent. rewrite length_app. cbn [length].
  destruct (Nat.leb_spec APPLIED_RING_CAPACITY (length log)).
  - rewrite drop_app_le by (pose proof ring_capacity_pos; lia). f_equal.
    replace (length log + 1 - APPLIED_RING_CAPACITY)
      with (S (length log - APPLIED_RING_CAPACITY)) by lia.
    by rewrite <-Nat.add_1_r, <-drop_drop.
  - replace (length log + 1 - APPLIED_RING_CAPACITY) with 0 by lia.
    by replace (length log - APPLIED_RING_CAPACITY) with 0 by lia.
Qed.

(** Claiming succeeds exactly for the ids that are not among the last applied. *)
Lemma claim_spec id r log :
  ring_ok r log →
  (claim_call_id id r).1 = bool_decide (id ∉ recent log)
  ∧ ring_ok (claim_call_id id r).2 (if (claim_call_id id r).1 then log ++ [id] else log).
Proof.
  intros [Ho Hn Hs]. unfold claim_call_id.
  destruct (decide (id ∈ ar_seen r)) as [Hin|Hin].
  { cbn. split; [|by split]. rewrite bool_decide_eq_false_2; [done|].
    intros H. apply H, Hs, Hin. }
  assert (Hrec : id ∉ recent log) by (intros H; by apply Hin, Hs).
  rewrite bool_decide_eq_true_2 by done.
  assert (Hnd : NoDup (recent log ++ [id])).
  { apply NoDup_app. split_and!; [done| |apply NoDup_singleton]. set_solver. }
  rewrite Ho, length_app, recent_length. cbn [length].
  destruct (Nat.ltb_spec APPLIED_RING_CAPACITY
              (min (length log) APPLIED_RING_CAPACITY + 1)) as [Hc|Hc].
  - assert (Hle : APPLIED_RING_CAPACITY <= length log) by lia.
    assert (Hrs : recent (log ++ [id]) = tail (recent log) ++ [id])
      by (rewrite recent_snoc; by rewrite (proj2 (Nat.leb_le _ _) Hle)).
    pose proof (recent_length log) as Hl. pose proof ring_capacity_pos.
    destruct (recent log) as [|ev rest] eqn:Er; [cbn in Hl; lia|]. cbn [app].
    split; [done|]. cbn in Hrs, Hnd. apply NoDup_cons in Hnd as [Hev Hnd].
    split; cbn [fst snd ar_order ar_seen]; rewrite Hrs; [done|done|].
    intros x. rewrite elem_of_difference, elem_of_union, !elem_of_singleton, Hs.
    set_solver.
  - assert (Hlt : APPLIED_RING_CAPACITY <=? length log = false) by (apply Nat.leb_gt; lia).
    assert (Hrs : recent (log ++ [id]) = recent log ++ [id]) by (rewrite recent_snoc, Hlt; done).
    assert (Hd : ∀ X : bool * AppliedRing, X = (true, {| ar_seen := {[id]} ∪ ar_seen r; ar_order := recent log ++ [id] |}) →
                 X.1 = true ∧ ring_ok X.2 (if X.1 then log ++ [id] else log)).
    { intros X ->. cbn. split; [done|]. split; cbn; rewrite Hrs; [done|done|]. set_solver. }
    by apply Hd.
Qed.

(** *** What a batch adds *)

(** The ids of a batch that are applied, in order, given the log so far. *)
Fixpoint fresh_ids log (ids : list Uuid) : list Uuid :=
  match ids with
  | [] => []
  | id :: ids =>
      if bool_decide (id ∉ recent log) then id :: fresh_ids (log ++ [id]) ids
      else fresh_ids log ids
  end.

(** An id is applied again only after the capacity's worth of others. *)
Definition spaced log : Prop :=
  ∀ i j x, log !! i = Some x → log !! j = Some x → i < j → i + APPLIED_RING_CAPACITY < j.

Lemma recent_elem log i x :
  log !! i = Some x → length log ≤ i + APPLIED_RING_CAPACITY → x ∈ recent log.
Proof.
  intros Hi Hle. unfold recent. apply list_elem_of_lookup.
  exists (i - (length log - APPLIED_RING_CAPACITY)). rewrite lookup_drop.
  apply lookup_lt_Some in Hi as Hlt. rewrite <-Hi. f_equal. lia.
Qed.

Lemma spaced_snoc log x : spaced log → x ∉ recent log → spaced (log ++ [x]).
Proof.
  intros Hs Hx i j y Hi Hj Hij.
  apply lookup_lt_Some in Hj as Hlt. rewrite length_app in Hlt. cbn in Hlt.
  rewrite lookup_app_l in Hi by lia.
  destruct (decide (j < length log)) as [Hjl|Hjl].
  - rewrite lookup_app_l in Hj by lia. by apply (Hs i j y).
  - assert (j = length log) as -> by lia.
    rewrite lookup_app_r, Nat.sub_diag in Hj by lia. cbn in Hj. injection Hj as <-.
    destruct (decide (i + APPLIED_RING_CAPACITY < length log)); [done|].
    exfalso. apply Hx. eapply recent_elem; [exact Hi|lia].
Qed.

Lemma fresh_ids_spaced log ids : spaced log → spaced (log ++ fresh_ids log ids).
Proof.
  revert log. induction ids as [|id ids IH]; intros log Hs; cbn [fresh_ids]; [by rewrite app_nil_r|].
  case_bool_decide; [|by apply IH].
  change (id :: fresh_ids (log ++ [id]) ids) with ([id] ++ fresh_ids (log ++ [id]) ids).
  rewrite app_assoc. apply IH. by apply spaced_snoc.
Qed.

Lemma fresh_ids_covers log ids x : x ∈ ids → x ∈ log ++ fresh_ids log ids.
Proof.
  revert log. induction ids as [|id ids IH]; intros log; [by intros ?%elem_of_nil|].
  cbn [fresh_ids]. rewrite elem_of_cons. case_bool_decide as Hd.
  - change (id :: fresh_ids (log ++ [id]) ids) with ([id] ++ fresh_ids (log ++ [id]) ids).
    rewrite app_assoc. intros [->|Hx]; [set_solver|]. by apply IH.
  - intros [->|Hx]; [|by apply IH]. unfold recent in Hd.
    apply elem_of_app. left.
    apply list_elem_of_lookup in Hd as [i Hi]. rewrite lookup_drop in Hi.
    by eapply list_elem_of_lookup_2.
Qed.

Lemma fresh_ids_sub log ids x : x ∈ fresh_ids log ids → x ∈ ids.
Proof.
  revert log. induction ids as [|id ids IH]; intros log; [done|]. cbn [fresh_ids].
  case_bool_decide; rewrite ?elem_of_cons; [intros [->|?]; eauto|eauto].
Qed.

End Ring.

(** ** What the daemon's filters see *)

Section Applied.
Context `{D : Deps} {FS : Type}.
Variable clock : nat → Instant.
Variable exe : N → option string.
Variable lossy : string → string.
Implicit Types (d : Daemon FS) (log : list Uuid).

Fixpoint fresh_observations log (obs : list WireObservation) : list WireObservation :=
  match obs with
  | [] => []
  | o :: obs =>
      if bool_decide (wo_call_id o ∉ recent log)
      then o :: fresh_observations (log ++ [wo_call_id o]) obs
      else fresh_observations log obs
  end.

Lemma fresh_observations_ids log obs :
  map wo_call_id (fresh_observations log obs) = fresh_ids log (map wo_call_id obs).
Proof.
  revert log. induction obs as [|o obs IH]; intros log; [done|]. cbn.
  case_bool_decide; cbn; [f_equal|]; apply IH.
Qed.

Definition observe_op (now : DateTime) (o : WireObservation) : proxy_op :=
  OpObserve (observed_context now o) (wo_outcome o) (wo_age_ms o * nanos_per_milli)%Z.

Lemma apply_observations_run now obs d log :
  ring_ok (dm_ring d) log →
  ring_ok (dm_ring (apply_observations now obs d)) (log ++ fresh_ids log (map wo_call_id obs))
  ∧ (dm_proxy (apply_observations now obs d), dm_world (apply_observations now obs d))
    = proxy_run clock exe lossy (map (observe_op now) (fresh_observations log obs))
        (dm_proxy d, dm_world d).
Proof.
  revert d log. induction obs as [|o obs IH]; intros d log Hr; [cbn; by rewrite app_nil_r|].
  change (apply_observations now (o :: obs) d)
    with (apply_observations now obs (apply_observation now d o)).
  destruct (claim_spec (wo_call_id o) (dm_ring d) log Hr) as [Hb Hr'].
  cbn [map fresh_ids fresh_observations]. unfold apply_observation. rewrite <-Hb.
  destruct (claim_call_id (wo_call_id o) (dm_ring d)) as [fresh ring]. cbn [fst snd] in *.
  clear Hb. destruct fresh; [|set (d1 := Build_Daemon _ _ _ _); by apply (IH d1 log)].
  set (d1 := set_proxy _ _). destruct (IH d1 _ Hr') as [H1 H2].
  rewrite <-app_assoc in H1. split; [exact H1|]. rewrite H2.
  unfold proxy_run. cbn [map fold_left]. f_equal. subst d1. cbn.
  by destruct (observe_outcome _ _ _ _ _).
Qed.

(** A batch advances the filters exactly as observing, in the order sent, those of
    its calls that are not among the last ones applied. *)
Theorem apply_observations_spec now obs d log :
  ring_ok (dm_ring d) log →
  (dm_proxy (apply_observations now obs d), dm_world (apply_observations now obs d))
  = proxy_run clock exe lossy (map (observe_op now) (fresh_observations log obs))
      (dm_proxy d, dm_world d).
Proof. intros Hr. by apply apply_observations_run. Qed.

End Applied.

(** *** Limits of the bookkeeping *)

Section Limits.
Context `{D : Deps}.

(** The part of a restored batch that exceeds the cap is not counted as dropped. *)
Lemma restore_drops_uncounted batch (ob : ObservationOutbox) :
  ob_dropped (outbox_restore batch ob) = ob_dropped ob
  ∧ (length batch = OUTBOX_CAP →
     length (ob_pending (outbox_restore batch ob)) = OUTBOX_CAP).
Proof.
  split; [by destruct batch|]. intros Hl. unfold outbox_restore.
  destruct batch as [|p batch]; [cbn in Hl; pose proof outbox_cap_pos; lia|].
  cbn [ob_pending]. rewrite length_drop, length_app. lia.
Qed.

Lemma fresh_ids_distinct log ids :
  NoDup (log ++ ids) → fresh_ids log ids = ids.
Proof.
  revert log. induction ids as [|id ids IH]; intros log Hn; [done|]. cbn [fresh_ids].
  rewrite bool_decide_eq_true_2.
  - f_equal. apply IH. by rewrite <-app_assoc.
  - intros Hr. apply NoDup_app in Hn as (_ & Hd & _). apply (Hd id); [|by left].
    unfold recent in Hr. apply list_elem_of_lookup in Hr as [i Hi]. rewrite lookup_drop in Hi.
    by eapply list_elem_of_lookup_2.
Qed.

(** The ring is shared by all clients: once they applied as many other calls as it
    holds, a call sent again is committed again. *)
Lemma reapplied_after_wrap a others :
  NoDup (a :: others) → length others = APPLIED_RING_CAPACITY →
  fresh_ids (a :: others) [a] = [a].
Proof.
  intros [Ha _]%NoDup_cons Hl. cbn [fresh_ids]. rewrite bool_decide_eq_true_2; [done|].
  unfold recent. cbn [length]. rewrite <-Hl.
  by replace (S (length others) - length others) with 1 by lia.
Qed.

End Limits.

(** *** A daemon that just started *)

Section Concrete.
#[local] Existing Instance concrete_deps.

Definition fresh_daemon : Daemon unit := {|
  dm_ring := AppliedRing_new;
  dm_proxy := SecurityProxy_new FilterRegistry_new ScoringConfig_default [];
  dm_world := {| w_filters := tt; w_sessions := registry_new; w_tick := 0 |};
  dm_reputation := ∅ |}.

Definition one_outcome : PendingObservation := {|
  po_attempted_at := 0;
  po_observation := {|
    wo_call_id := uuid_a; wo_scope := uuid_b; wo_session_id := uuid_b;
    wo_call_type := NetConnect "example.net" 443; wo_profile_name := None; wo_arguments := JNull;
    wo_outcome := Executed; wo_age_ms := 0 |} |}.

Lemma apply_observations_spec_witness :
  (dm_proxy (apply_observations 0%Z [po_observation one_outcome] fresh_daemon),
   dm_world (apply_observations 0%Z [po_observation one_outcome] fresh_daemon))
  = proxy_run (λ _, 0%Z) (λ _, None) id
      (map (observe_op 0%Z) (fresh_observations [] [po_observation one_outcome]))
      (dm_proxy fresh_daemon, dm_world fresh_daemon).
Proof. apply apply_observations_spec. apply ring_ok_new. Defined.

End Concrete.
