(* ===== verification/ObservationProtocol.v ===== *)
(** * The observation protocol over an unreliable link

    The outbox of one supervisor, the requests on their way, the daemon with its ring
    of applied calls, and other clients of the same daemon.  A request can be lost,
    or arrive after the supervisor gave it up; its answer can be lost.  Every client
    operation and every daemon handler is one step. *)

From Stdlib Require Import ZArith Lia.
From S2P Require Import Prelude Concrete F64 Types Scoring SessionState Filters Engine Reputation DaemonLink.

Section Protocol.
Context `{D : Deps} {FS : Type}.
Variable clock : nat → Instant.
Variable exe : N → option string.
Variable lossy : string → string.

(** The last three fields are history: the ids queued, those the cap dropped, and the
    calls the daemon made into its proxy, in order. *)
Record Link := {
  lk_outbox : ObservationOutbox;
  lk_flight : option (nat * list PendingObservation);
  lk_network : gmap nat (list WireObservation);
  lk_answered : gset nat;
  lk_next : nat;
  lk_daemon : Daemon FS;
  lk_pushed : list Uuid;
  lk_lost : list Uuid;
  lk_history : list proxy_op;
}.

(** The calls whose outcome reached the filters. *)
Definition observed_id (op : proxy_op) : option Uuid :=
  match op with OpObserve ctx _ _ => Some (ctx_id ctx) | _ => None end.

Definition observed_ids (history : list proxy_op) : list Uuid := omap observed_id history.

Definition lk_log (s : Link) : list Uuid := observed_ids (lk_history s).

Definition Link_new (d : Daemon FS) : Link := {|
  lk_outbox := ObservationOutbox_default; lk_flight := None; lk_network := ∅; lk_answered := ∅;
  lk_next := 0; lk_daemon := d; lk_pushed := []; lk_lost := []; lk_history := [] |}.

Definition pending_id (p : PendingObservation) : Uuid := wo_call_id (po_observation p).
Definition ids (batch : list PendingObservation) : list Uuid := map pending_id batch.
Definition wire_ids (obs : list WireObservation) : list Uuid := map wo_call_id obs.

(** What a handler that ran did: it applied the observations and, for an evaluate,
    then evaluated the call. *)
Inductive request_kind :=
  | KEvaluate (config : ReputationConfig) (ctx : ToolCallContext)
  | KObserve.

Definition handle (kind : request_kind) (now : DateTime) (obs : list WireObservation) (d : Daemon FS) :
    Daemon FS :=
  match kind with
  | KEvaluate config ctx => (daemon_evaluate clock exe lossy config now ctx obs d).2
  | KObserve => (daemon_observe now obs d).2
  end.

(** The observations of a batch whose id the ring let through. *)
Fixpoint claimed (r : AppliedRing) (obs : list WireObservation) : list WireObservation :=
  match obs with
  | [] => []
  | o :: obs =>
      let '(fresh, r) := claim_call_id (wo_call_id o) r in
      (if fresh : bool then [o] else []) ++ claimed r obs
  end.

(** The calls one request makes into the proxy. *)
Definition handled (kind : request_kind) (now : DateTime) (obs : list WireObservation)
    (d : Daemon FS) : list proxy_op :=
  map (observe_op now) (claimed (dm_ring d) obs)
  ++ match kind with KEvaluate _ ctx => [OpEvaluate ctx] | KObserve => [] end.

Inductive link_op :=
  | LPush (o : PendingObservation)
  | LSend (tick : nat)
  | LDeliver (n : nat) (kind : request_kind) (now : DateTime)
  | LLose (n : nat)
  | LSuccess
  | LFailure
  | LOther (obs : list WireObservation) (kind : request_kind) (now : DateTime).

Definition link_step (op : link_op) (s : Link) : option Link :=
  match op with
  | LPush o =>
      let full := OUTBOX_CAP <=? length (ob_pending (lk_outbox s)) in
      Some {| lk_outbox := outbox_push o (lk_outbox s); lk_flight := lk_flight s;
              lk_network := lk_network s; lk_answered := lk_answered s; lk_next := lk_next s;
              lk_daemon := lk_daemon s; lk_pushed := lk_pushed s ++ [pending_id o];
              lk_lost := lk_lost s ++
                (if full then ids (take 1 (ob_pending (lk_outbox s))) else []);
              lk_history := lk_history s |}
  | LSend tick =>
      match lk_flight s with
      | Some _ => None
      | None =>
          let '(batch, outbox) := outbox_take (lk_outbox s) in
          Some {| lk_outbox := outbox; lk_flight := Some (lk_next s, batch);
                  lk_network := <[lk_next s := to_wire clock tick batch]> (lk_network s);
                  lk_answered := lk_answered s; lk_next := S (lk_next s);
                  lk_daemon := lk_daemon s; lk_pushed := lk_pushed s; lk_lost := lk_lost s;
                  lk_history := lk_history s |}
      end
  | LDeliver n kind now =>
      obs ← lk_network s !! n;
      Some {| lk_outbox := lk_outbox s; lk_flight := lk_flight s;
              lk_network := delete n (lk_network s); lk_answered := {[n]} ∪ lk_answered s;
              lk_next := lk_next s; lk_daemon := handle kind now obs (lk_daemon s);
              lk_pushed := lk_pushed s; lk_lost := lk_lost s;
              lk_history := lk_history s ++ handled kind now obs (lk_daemon s) |}
  | LLose n =>
      Some {| lk_outbox := lk_outbox s; lk_flight := lk_flight s;
              lk_network := delete n (lk_network s); lk_answered := lk_answered s;
              lk_next := lk_next s; lk_daemon := lk_daemon s; lk_pushed := lk_pushed s;
              lk_lost := lk_lost s; lk_history := lk_history s |}
  | LSuccess =>
      '(n, batch) ← lk_flight s;
      if decide (n ∈ lk_answered s) then
        Some {| lk_outbox := lk_outbox s; lk_flight := None; lk_network := lk_network s;
                lk_answered := lk_answered s; lk_next := lk_next s; lk_daemon := lk_daemon s;
                lk_pushed := lk_pushed s; lk_lost := lk_lost s; lk_history := lk_history s |}
      else None
  | LFailure =>
      '(_, batch) ← lk_flight s;
      let pending := batch ++ ob_pending (lk_outbox s) in
      Some {| lk_outbox := outbox_restore batch (lk_outbox s); lk_flight := None;
              lk_network := lk_network s; lk_answered := lk_answered s; lk_next := lk_next s;
              lk_daemon := lk_daemon s; lk_pushed := lk_pushed s;
              lk_lost := lk_lost s ++ ids (take (length pending - OUTBOX_CAP) pending);
              lk_history := lk_history s |}
  | LOther obs kind now =>
      Some {| lk_outbox := lk_outbox s; lk_flight := lk_flight s; lk_network := lk_network s;
              lk_answered := lk_answered s; lk_next := lk_next s;
              lk_daemon := handle kind now obs (lk_daemon s); lk_pushed := lk_pushed s;
              lk_lost := lk_lost s; lk_history := lk_history s ++ handled kind now obs (lk_daemon s) |}
  end.

Fixpoint link_run (ops : list link_op) (s : Link) : option Link :=
  match ops with
  | [] => Some s
  | op :: ops => s ← link_step op s; link_run ops s
  end.

(** ** The invariant *)

Definition in_flight (s : Link) : list Uuid :=
  match lk_flight s with Some (_, batch) => ids batch | None => [] end.

Record link_inv (s : Link) : Prop := {
  li_ring : ring_ok (dm_ring (lk_daemon s)) (lk_log s);
  li_spaced : spaced (lk_log s);
  li_cap : length (ob_pending (lk_outbox s)) ≤ OUTBOX_CAP;
  li_kept : ∀ x, x ∈ lk_pushed s →
    x ∈ ids (ob_pending (lk_outbox s)) ∨ x ∈ in_flight s ∨ x ∈ lk_log s ∨ x ∈ lk_lost s;
  li_next : ∀ n, is_Some (lk_network s !! n) ∨ n ∈ lk_answered s → n < lk_next s;
  li_flight : ∀ n batch, lk_flight s = Some (n, batch) →
    n < lk_next s
    ∧ (n ∈ lk_answered s → ∀ x, x ∈ ids batch → x ∈ lk_log s)
    ∧ (∀ obs, lk_network s !! n = Some obs → wire_ids obs = ids batch);
}.

Lemma to_wire_ids tick batch : wire_ids (to_wire clock tick batch) = ids batch.
Proof.
  revert tick. induction batch as [|p batch IH]; intros tick; [done|].
  unfold wire_ids, ids in *. cbn [to_wire map]. by rewrite IH.
Qed.

Lemma claimed_fresh r log obs : ring_ok r log → claimed r obs = fresh_observations log obs.
Proof.
  revert r log. induction obs as [|o obs IH]; intros r log Hr; [done|].
  destruct (claim_spec (wo_call_id o) r log Hr) as [Hb Hr']. cbn [claimed fresh_observations].
  rewrite <-Hb. destruct (claim_call_id (wo_call_id o) r) as [[] r']; cbn in *.
  - f_equal. by apply IH.
  - by apply IH.
Qed.

Lemma observed_ids_app h h' : observed_ids (h ++ h') = observed_ids h ++ observed_ids h'.
Proof. apply omap_app. Qed.

Lemma observed_ids_observe now obs : observed_ids (map (observe_op now) obs) = wire_ids obs.
Proof. induction obs as [|o obs IH]; [done|]. unfold observed_ids in *. cbn. by f_equal. Qed.

Lemma handled_ids kind now obs d log :
  ring_ok (dm_ring d) log → observed_ids (handled kind now obs d) = fresh_ids log (wire_ids obs).
Proof.
  intros Hr. unfold handled. rewrite observed_ids_app, observed_ids_observe, (claimed_fresh _ log) by done.
  unfold wire_ids. rewrite fresh_observations_ids. destruct kind; apply app_nil_r.
Qed.

Lemma handle_ring kind now obs d log :
  ring_ok (dm_ring d) log →
  ring_ok (dm_ring (handle kind now obs d)) (log ++ observed_ids (handled kind now obs d)).
Proof.
  intros Hr. rewrite (handled_ids kind now obs d log Hr).
  destruct (apply_observations_run clock exe lossy now obs d log Hr) as [H _].
  destruct kind as [config ctx|]; [|done]. unfold handle, daemon_evaluate.
  by destruct (evaluate _ _ _ _ _ _) as [[decision px] w].
Qed.

Definition committed (d : Daemon FS) : SecurityProxy FS * World FS := (dm_proxy d, dm_world d).

(** A request moves the filters as its calls into the proxy do. *)
Lemma handle_runs kind now obs d log :
  ring_ok (dm_ring d) log →
  committed (handle kind now obs d)
  = proxy_run clock exe lossy (handled kind now obs d) (committed d).
Proof.
  intros Hr. destruct (apply_observations_run clock exe lossy now obs d log Hr) as [_ H].
  unfold handled, proxy_run, committed in *. rewrite fold_left_app, (claimed_fresh _ log) by done.
  rewrite <-H. destruct kind as [config ctx|]; [|done].
  cbn [fold_left proxy_step handle]. unfold daemon_evaluate.
  by destruct (evaluate _ _ _ _ _ _) as [[decision px] w].
Qed.

Lemma ids_app l l' : ids (l ++ l') = ids l ++ ids l'.
Proof. apply map_app. Qed.

Lemma ids_take_drop n l x : x ∈ ids l → x ∈ ids (take n l) ∨ x ∈ ids (drop n l).
Proof. intros Hx. rewrite <-(take_drop n l), ids_app in Hx. by apply elem_of_app. Qed.

Lemma link_inv_new d : ring_ok (dm_ring d) [] → link_inv (Link_new d).
Proof.
  intros Hr. split; cbn.
  - done.
  - intros i j x Hi. by rewrite lookup_nil in Hi.
  - lia.
  - set_solver.
  - intros n [[? Hn]|Hn]; [by rewrite lookup_empty in Hn|set_solver].
  - done.
Qed.

Lemma outbox_push_pending o ob :
  ob_pending (outbox_push o ob)
  = (if OUTBOX_CAP <=? length (ob_pending ob) then drop 1 (ob_pending ob) else ob_pending ob) ++ [o].
Proof. unfold outbox_push. by destruct (OUTBOX_CAP <=? _), (ob_pending ob). Qed.

Lemma outbox_restore_pending batch ob :
  length (ob_pending ob) ≤ OUTBOX_CAP →
  ob_pending (outbox_restore batch ob)
  = drop (length (batch ++ ob_pending ob) - OUTBOX_CAP) (batch ++ ob_pending ob).
Proof.
  intros Hc. unfold outbox_restore. destruct batch as [|p batch]; [|done].
  cbn [app]. by replace (length (ob_pending ob) - OUTBOX_CAP) with 0 by lia.
Qed.

(** The daemon's part of a step that applies a batch. *)
Lemma apply_inv kind now obs d log :
  ring_ok (dm_ring d) log → spaced log →
  ring_ok (dm_ring (handle kind now obs d)) (log ++ observed_ids (handled kind now obs d))
  ∧ spaced (log ++ observed_ids (handled kind now obs d)).
Proof.
  intros Hr Hs. split; [by apply handle_ring|].
  rewrite (handled_ids _ _ _ _ log) by done. by apply fresh_ids_spaced.
Qed.

Lemma log_grows s kind now obs x :
  x ∈ observed_ids (lk_history s) → x ∈ observed_ids (lk_history s ++ handled kind now obs (lk_daemon s)).
Proof. intros Hx. rewrite observed_ids_app. apply elem_of_app. by left. Qed.

Lemma log_covers s kind now obs x :
  ring_ok (dm_ring (lk_daemon s)) (observed_ids (lk_history s)) → x ∈ wire_ids obs →
  x ∈ observed_ids (lk_history s ++ handled kind now obs (lk_daemon s)).
Proof.
  intros Hr Hx. rewrite observed_ids_app, (handled_ids _ _ _ _ _ Hr).
  by apply fresh_ids_covers.
Qed.

Lemma push_inv o s s' : 0 < OUTBOX_CAP → link_inv s → link_step (LPush o) s = Some s' → link_inv s'.
Proof.
  intros Hcap [Hr Hs Hc Hk Hn Hf] [= <-]. split; cbn; try done.
  - rewrite outbox_push_pending, length_app. cbn.
    destruct (Nat.leb_spec OUTBOX_CAP (length (ob_pending (lk_outbox s)))); rewrite ?length_drop; lia.
  - intros x. rewrite outbox_push_pending, ids_app, !elem_of_app.
    change (in_flight _) with (in_flight s).
    intros [Hx|Hx]; [|left; right; exact Hx].
    destruct (Hk x Hx) as [Hx'|[?|[?|?]]]; [|auto|auto|auto].
    destruct (OUTBOX_CAP <=? length (ob_pending (lk_outbox s))); [|auto].
    apply (ids_take_drop 1) in Hx' as [?|?]; auto.
Qed.

Lemma send_inv tick s s' : link_inv s → link_step (LSend tick) s = Some s' → link_inv s'.
Proof.
  intros [Hr Hs Hc Hk Hn Hf]. cbn. destruct (lk_flight s) as [|] eqn:Ef; [done|].
  intros [= <-]. split; cbn; try done.
  - lia.
  - intros x Hx. destruct (Hk x Hx) as [?|[Hx'|?]]; [auto| |auto].
    unfold in_flight in Hx'. rewrite Ef in Hx'. by apply not_elem_of_nil in Hx'.
  - intros n. rewrite lookup_insert_is_Some. intros [[->|[_ ?]]|?]; [lia|..];
      (apply Nat.lt_lt_succ_r, Hn; auto).
  - intros n batch [= <- <-]. split_and!; [lia| |].
    + intros Hin. specialize (Hn _ (or_intror Hin)). lia.
    + intros obs. rewrite lookup_insert_eq. intros [= <-]. apply to_wire_ids.
Qed.

Lemma deliver_inv n kind now s s' :
  link_inv s → link_step (LDeliver n kind now) s = Some s' → link_inv s'.
Proof.
  intros [Hr Hs Hc Hk Hn Hf]. cbn. destruct (lk_network s !! n) as [obs|] eqn:En; [|done].
  intros [= <-]. destruct (apply_inv kind now obs _ _ Hr Hs) as [Hr' Hs'].
  unfold lk_log in *. rewrite <-observed_ids_app in Hr', Hs'.
  split; unfold lk_log; cbn; try done.
  - intros x Hx. destruct (Hk x Hx) as [?|[?|[?|?]]]; auto using log_grows.
  - intros m [Hm|Hm].
    + rewrite lookup_delete_is_Some in Hm. apply Hn. left. by destruct Hm.
    + apply elem_of_union in Hm as [->%elem_of_singleton|?]; apply Hn; [left; by rewrite En|by right].
  - intros m batch Hb. destruct (Hf m batch Hb) as (H1 & H2 & H3). split_and!; [done| |].
    + intros [->%elem_of_singleton|Hm]%elem_of_union x Hx; [|auto using log_grows].
      apply log_covers; [done|]. by rewrite (H3 obs En).
    + intros obs' Hobs. apply lookup_delete_Some in Hobs as [_ ?]. auto.
Qed.

Lemma lose_inv n s s' : link_inv s → link_step (LLose n) s = Some s' → link_inv s'.
Proof.
  intros [Hr Hs Hc Hk Hn Hf] [= <-]. split; cbn; try done.
  - intros m [Hm|Hm]; [|auto]. rewrite lookup_delete_is_Some in Hm. apply Hn. left. by destruct Hm.
  - intros m batch Hb. destruct (Hf m batch Hb) as (H1 & H2 & H3). split_and!; [done..|].
    intros obs' Hobs. apply lookup_delete_Some in Hobs as [_ ?]. auto.
Qed.

Lemma success_inv s s' : link_inv s → link_step LSuccess s = Some s' → link_inv s'.
Proof.
  intros [Hr Hs Hc Hk Hn Hf]. cbn. destruct (lk_flight s) as [[n batch]|] eqn:Ef; [|done]. cbn.
  destruct (decide _) as [Hin|]; [|done]. intros [= <-]. split; cbn; try done.
  intros x Hx. destruct (Hk x Hx) as [?|[Hx'|?]]; [auto| |auto].
  unfold in_flight in Hx'. rewrite Ef in Hx'. right. right. left.
  destruct (Hf n batch eq_refl) as (_ & Hl & _). auto.
Qed.

Lemma failure_inv s s' : link_inv s → link_step LFailure s = Some s' → link_inv s'.
Proof.
  intros [Hr Hs Hc Hk Hn Hf]. cbn. destruct (lk_flight s) as [[n batch]|] eqn:Ef; [|done]. cbn.
  intros [= <-]. split; cbn; try done.
  - rewrite outbox_restore_pending, length_drop by done. lia.
  - intros x Hx. rewrite outbox_restore_pending by done.
    assert (Hp : ∀ y, y ∈ ids (batch ++ ob_pending (lk_outbox s)) →
      y ∈ ids (drop (length (batch ++ ob_pending (lk_outbox s)) - OUTBOX_CAP) (batch ++ ob_pending (lk_outbox s)))
      ∨ y ∈ lk_lost s ++ ids (take (length (batch ++ ob_pending (lk_outbox s)) - OUTBOX_CAP)
                                (batch ++ ob_pending (lk_outbox s)))).
    { intros y Hy. rewrite elem_of_app. destruct (ids_take_drop
        (length (batch ++ ob_pending (lk_outbox s)) - OUTBOX_CAP) _ _ Hy); auto. }
    destruct (Hk x Hx) as [?|[Hx'|[?|?]]].
    + destruct (Hp x) as [?|?]; [rewrite ids_app; set_solver|auto|auto].
    + unfold in_flight in Hx'. rewrite Ef in Hx'.
      destruct (Hp x) as [?|?]; [rewrite ids_app; set_solver|auto|auto].
    + auto.
    + rewrite elem_of_app. auto.
Qed.

Lemma other_inv obs kind now s s' :
  link_inv s → link_step (LOther obs kind now) s = Some s' → link_inv s'.
Proof.
  intros [Hr Hs Hc Hk Hn Hf] [= <-].
  destruct (apply_inv kind now obs _ _ Hr Hs) as [Hr' Hs'].
  unfold lk_log in *. rewrite <-observed_ids_app in Hr', Hs'.
  split; unfold lk_log; cbn; try done.
  - intros x Hx. destruct (Hk x Hx) as [?|[?|[?|?]]]; auto using log_grows.
  - intros m batch Hb. destruct (Hf m batch Hb) as (H1 & H2 & H3). split_and!; [done| |done].
    intros Hm x Hx. auto using log_grows.
Qed.

Lemma link_step_inv op s s' : link_inv s → link_step op s = Some s' → link_inv s'.
Proof.
  intros Hi. destruct op.
  - by apply push_inv; [apply outbox_cap_pos|].
  - by apply send_inv.
  - by apply deliver_inv.
  - by apply lose_inv.
  - by apply success_inv.
  - by apply failure_inv.
  - by apply other_inv.
Qed.

Lemma link_run_inv ops s s' : link_inv s → link_run ops s = Some s' → link_inv s'.
Proof.
  revert s. induction ops as [|op ops IH]; intros s Hi; cbn [link_run]; [by intros [= <-]|].
  destruct (link_step op s) as [s1|] eqn:E; [|done]. cbn. apply IH. by eapply link_step_inv.
Qed.

Lemma link_step_runs d0 op s s' :
  link_inv s → committed (lk_daemon s) = proxy_run clock exe lossy (lk_history s) d0 →
  link_step op s = Some s' → committed (lk_daemon s') = proxy_run clock exe lossy (lk_history s') d0.
Proof.
  intros Hi Hc. pose proof (li_ring _ Hi) as Hr.
  assert (Hh : ∀ kind now obs,
    committed (handle kind now obs (lk_daemon s))
    = proxy_run clock exe lossy (lk_history s ++ handled kind now obs (lk_daemon s)) d0).
  { intros kind now obs. rewrite (handle_runs _ _ _ _ _ Hr), Hc. unfold proxy_run.
    by rewrite fold_left_app. }
  destruct op; cbn; [by intros [= <-]| | |by intros [= <-]| | |intros [= <-]; apply Hh].
  - destruct (lk_flight s); [done|]. by intros [= <-].
  - destruct (lk_network s !! n); [intros [= <-]; apply Hh|done].
  - destruct (lk_flight s) as [[n batch]|]; [|done]. cbn.
    by destruct (decide _); [intros [= <-]|].
  - destruct (lk_flight s) as [[n batch]|]; [by intros [= <-]|done].
Qed.

Lemma link_run_runs d0 ops s s' :
  link_inv s → committed (lk_daemon s) = proxy_run clock exe lossy (lk_history s) d0 →
  link_run ops s = Some s' → committed (lk_daemon s') = proxy_run clock exe lossy (lk_history s') d0.
Proof.
  revert s. induction ops as [|op ops IH]; intros s Hi Hc; cbn [link_run]; [by intros [= <-]|].
  destruct (link_step op s) as [s1|] eqn:E; [|done]. cbn.
  apply IH; [by eapply link_step_inv|by eapply link_step_runs].
Qed.

(** C9: Whatever requests are lost, repeated, late or given up, and whatever other
    clients of the same daemon send, starting from an empty ring: the filter state of
    the daemon is exactly what its calls into the proxy produce, evaluations and
    observations in order, and in that sequence the outcome of a call id is observed
    again only after at least 4096 others in between. *)
Theorem observations_at_most_once ops d s :
  dm_ring d = AppliedRing_new → link_run ops (Link_new d) = Some s →
  committed (lk_daemon s) = proxy_run clock exe lossy (lk_history s) (committed d)
  ∧ ∀ i j x, observed_ids (lk_history s) !! i = Some x → observed_ids (lk_history s) !! j = Some x →
      i < j → i + APPLIED_RING_CAPACITY < j.
Proof.
  intros Hr Hs. assert (Hn : link_inv (Link_new d)) by (apply link_inv_new; rewrite Hr; apply ring_ok_new).
  split; [by apply (link_run_runs _ ops (Link_new d))|].
  exact (li_spaced _ (link_run_inv _ _ _ Hn Hs)).
Qed.

(** No outcome disappears: each one queued is committed by the daemon, still to be
    sent, on its way, or was dropped by the cap; after an answer that succeeded,
    nothing is on its way. *)
Theorem observations_accounted_for ops d s :
  ring_ok (dm_ring d) [] → link_run ops (Link_new d) = Some s →
  (∀ x, x ∈ lk_pushed s →
    x ∈ ids (ob_pending (lk_outbox s)) ∨ x ∈ in_flight s ∨ x ∈ lk_log s ∨ x ∈ lk_lost s)
  ∧ (∀ s', link_step LSuccess s = Some s' → ∀ x, x ∈ lk_pushed s →
      x ∈ ids (ob_pending (lk_outbox s)) ∨ x ∈ lk_log s ∨ x ∈ lk_lost s).
Proof.
  intros Hr Hs. pose proof (link_run_inv _ _ _ (link_inv_new d Hr) Hs) as Hi.
  split; [apply Hi|]. intros s' Hs' x Hx.
  pose proof (success_inv _ _ Hi Hs') as Hi'.
  revert Hs'. cbn. destruct (lk_flight s) as [[n batch]|] eqn:Ef; [|done]. cbn.
  destruct (decide _); [|done]. intros [= <-].
  destruct (li_kept _ Hi' x Hx) as [?|[Hx'|?]]; [auto| |auto].
  by apply not_elem_of_nil in Hx'.
Qed.

End Protocol.

(** ** A run with a late request *)

Section Concrete.
#[local] Existing Instance concrete_deps.

(** The first request times out and arrives after the second. *)
Definition late_run : list link_op :=
  [LPush one_outcome; LSend 0; LFailure; LSend 0; LDeliver 1 KObserve 0%Z; LSuccess;
   LDeliver 0 KObserve 0%Z].

Definition run_late : option (Link (FS := unit)) :=
  link_run (λ _, 0%Z) (λ _, None) id late_run (Link_new fresh_daemon).

Lemma run_late_log :
  match run_late with
  | Some s => bool_decide (lk_log s = [uuid_a]) && (px_observed_count (dm_proxy (lk_daemon s)) =? 1)%Z
              && bool_decide (lk_flight s = None)
  | None => false
  end = true.
Proof. vm_compute. reflexivity. Qed.

Lemma observations_at_most_once_witness :
  ∃ s, run_late = Some s ∧ observed_ids (lk_history s) = [uuid_a]
       ∧ committed (lk_daemon s)
         = proxy_run (λ _, 0%Z) (λ _, None) id (lk_history s) (committed fresh_daemon)
       ∧ ∀ i j x, observed_ids (lk_history s) !! i = Some x → observed_ids (lk_history s) !! j = Some x →
                  i < j → i + APPLIED_RING_CAPACITY < j.
Proof.
  pose proof run_late_log as H. destruct run_late as [s|] eqn:E; [|discriminate].
  apply andb_true_iff in H as [[H _]%andb_true_iff _]. apply bool_decide_eq_true in H.
  exists s. split; [done|]. split; [done|].
  exact (observations_at_most_once (λ _, 0%Z) (λ _, None) id late_run fresh_daemon s eq_refl E).
Defined.

Lemma observations_accounted_for_witness :
  ∃ s, run_late = Some s
       ∧ ∀ x, x ∈ lk_pushed s →
           x ∈ ids (ob_pending (lk_outbox s)) ∨ x ∈ in_flight s ∨ x ∈ lk_log s ∨ x ∈ lk_lost s.
Proof.
  pose proof run_late_log as H. destruct run_late as [s|] eqn:E; [|discriminate].
  exists s. split; [done|].
  exact (proj1 (observations_accounted_for (λ _, 0%Z) (λ _, None) id late_run fresh_daemon s
                  ring_ok_new E)).
Defined.

End Concrete.
