(* ===== verification/RemoteEval.v ===== *)
(** * Evaluating through the daemon

    What the daemon answers ([evaluate_proxy] of [grith-server/src/routes/proxy_ipc.rs])
    and how the supervisor reads it; the classification of failures and the retries
    after a rotated token or a restart ([supervisor/remote_eval.rs],
    [supervisor/event_handler.rs]).  JSON values, the network and the daemon's
    restart are parameters. *)

From Stdlib Require Import Ascii String ZArith Lia SpecFloat.
From S2P Require Import Prelude Concrete F64 Types Scoring SessionState Filters Engine Reputation ReputationStore DaemonLink.

(** ** [Duration] and seconds *)

(** The nearest integer to [n / d], ties to even. *)
Definition div_half_even (n d : Z) : Z :=
  let q := (n / d)%Z in
  let r := (n mod d)%Z in
  if (2 * r <? d)%Z then q
  else if (d <? 2 * r)%Z then (q + 1)%Z
  else if Z.even q then q else (q + 1)%Z.

(** [Duration::from_secs_f64]: [None] is its panic. *)
Definition from_secs_f64 (x : f64) : option Duration :=
  match x with
  | S754_zero _ => Some 0%Z
  | S754_finite false m e =>
      let nanos := (Zpos m * nanos_per_sec)%Z in
      let d := if (0 <=? e)%Z then (nanos * 2 ^ e)%Z else div_half_even nanos (2 ^ (- e)) in
      if (d <? 2 ^ 64 * nanos_per_sec)%Z then Some d else None
  | _ => None
  end.

(** ** The response *)

Definition priority_debug (p : QueuePriority) : string :=
  match p with Low => "Low" | Medium => "Medium" | High => "High" | Critical => "Critical" end.

Definition severity_text (s : Severity) : string :=
  match s with
  | SevNotice => "Notice" | SevWarning => "Warning" | SevError => "Error" | SevCritical => "Critical"
  end.

Definition action_text (a : ProxyAction) : string :=
  match a with
  | Allow => "allow"
  | Queue priority => "queue:" +:+ priority_debug priority
  | Deny reason => "deny:" +:+ reason
  end.

Record FilterResultSummary := {
  fs_filter_name : string;
  fs_matched : bool;
  fs_score : f64;
  fs_rule_id : string;
  fs_severity : Severity;
  fs_message : string;
}.

Record EvaluateResponse := {
  er_composite_score : f64;
  er_action : string;
  er_decision_reason : string;
  er_filter_results : list FilterResultSummary;
  er_evaluation_time_ms : f64;
}.

(** [serde_json] renders a response and reads numbers; a float that is not finite is
    written as null.  With [float_roundtrip] a finite one is read back exactly. *)
Class ResponseJson `{Deps} := {
  summary_json : FilterResultSummary → Json;
  response_json : EvaluateResponse → Json;
  json_as_f64 : Json → option f64;
}.

Section Response.
Context `{D : Deps} {RJ : ResponseJson}.

Definition field (v : Json) (key : string) : Json := default json_null (json_get v key).

Definition finite_only (x : f64) : option f64 := if f64_is_finite x then Some x else None.

Class ResponseJsonLaws : Prop := {
  null_as_str : json_as_str json_null = None;
  null_as_f64 : json_as_f64 json_null = None;
  response_score : ∀ r, json_as_f64 (field (response_json r) "composite_score")
                        = finite_only (er_composite_score r);
  response_action : ∀ r, json_as_str (field (response_json r) "action") = Some (er_action r);
  response_reason : ∀ r, json_as_str (field (response_json r) "decision_reason")
                         = Some (er_decision_reason r);
  response_results : ∀ r, json_as_array (field (response_json r) "filter_results")
                          = Some (map summary_json (er_filter_results r));
  response_time : ∀ r, json_as_f64 (field (response_json r) "evaluation_time_ms")
                       = finite_only (er_evaluation_time_ms r);
  summary_name : ∀ f, json_as_str (field (summary_json f) "filter_name") = Some (fs_filter_name f);
  summary_matched : ∀ f, json_as_bool (field (summary_json f) "matched") = Some (fs_matched f);
  summary_score : ∀ f, json_as_f64 (field (summary_json f) "score") = finite_only (fs_score f);
  summary_rule : ∀ f, json_as_str (field (summary_json f) "rule_id") = Some (fs_rule_id f);
  summary_severity : ∀ f, json_as_str (field (summary_json f) "severity")
                          = Some (severity_text (fs_severity f));
  summary_message : ∀ f, json_as_str (field (summary_json f) "message") = Some (fs_message f);
}.

Definition summarise (r : FilterResult) : FilterResultSummary := {|
  fs_filter_name := fr_filter_name r; fs_matched := fr_matched r; fs_score := fr_score r;
  fs_rule_id := fr_rule_id r; fs_severity := fr_severity r; fs_message := fr_message r |}.

Definition evaluate_response (decision : ProxyDecision) : EvaluateResponse := {|
  er_composite_score := pd_composite_score decision;
  er_action := action_text (pd_action decision);
  er_decision_reason := pd_decision_reason decision;
  er_filter_results := map summarise (pd_filter_results decision);
  er_evaluation_time_ms := f64_mul (as_secs_f64 (pd_evaluation_time decision)) (f64_of_Z 1000) |}.

Definition parse_action (action_str : string) : result ProxyAction :=
  if String.eqb action_str "allow" then Ok Allow
  else
    match strip_prefix "deny:" action_str with
    | Some reason => Ok (Deny reason)
    | None =>
        if starts_with "queue:" action_str then
          Ok (Queue (if contains "Critical" action_str then Critical
                     else if contains "High" action_str then High
                     else if contains "Medium" action_str then Medium else Low))
        else Err ("unknown action: " +:+ action_str)
    end.

Definition parse_severity (s : string) : Severity :=
  if str_mem s ["Critical"; "critical"] then SevCritical
  else if str_mem s ["Error"; "error"] then SevError
  else if str_mem s ["Warning"; "warning"] then SevWarning
  else SevNotice.

Definition parse_filter_result (fr : Json) : option FilterResult :=
  let severity := parse_severity (default "Notice" (json_as_str (field fr "severity"))) in
  name ← json_as_str (field fr "filter_name");
  matched ← json_as_bool (field fr "matched");
  score ← json_as_f64 (field fr "score");
  Some {|
    fr_filter_name := name; fr_matched := matched; fr_score := score;
    fr_rule_id := default "" (json_as_str (field fr "rule_id"));
    fr_severity := severity;
    fr_message := default "" (json_as_str (field fr "message"));
    fr_metadata := ∅ |}.

(** [None] is the panic of the conversion of the evaluation time. *)
Definition parse_daemon_decision (body : Json) : option (result ProxyDecision) :=
  match json_as_f64 (field body "composite_score"), json_as_str (field body "action") with
  | None, _ => Some (Err "missing composite_score")
  | _, None => Some (Err "missing action")
  | Some composite_score, Some action_str =>
      match parse_action action_str with
      | Err e => Some (Err e)
      | Ok action =>
          let results :=
            match json_as_array (field body "filter_results") with
            | Some arr => omap parse_filter_result arr
            | None => []
            end in
          time ← from_secs_f64
            (f64_div (default f64_zero (json_as_f64 (field body "evaluation_time_ms")))
                     (f64_of_Z 1000));
          Some (Ok {|
            pd_action := action; pd_composite_score := composite_score;
            pd_filter_results := results; pd_evaluation_time := time;
            pd_decision_reason := default "" (json_as_str (field body "decision_reason")) |})
      end
  end.

End Response.

(** ** Failures and retries *)

Inductive RemoteEvalError :=
  | ETransport (detail : string)
  | EAuthRejected (status : Z) (body : string)
  | EHttpStatus (status : Z) (body : string)
  | EParse (detail : string).

Definition is_auth_rejection (e : RemoteEvalError) : bool :=
  match e with EAuthRejected _ _ => true | _ => false end.

Definition RemoteEvalError_display (e : RemoteEvalError) : string :=
  match e with
  | ETransport detail => "request failed: " +:+ detail
  | EAuthRejected status body | EHttpStatus status body =>
      "daemon returned " +:+ fmt_Z status +:+ ": " +:+ body
  | EParse detail => "response parse failed: " +:+ detail
  end.

Definition DAEMON_UNREACHABLE_REASON : string := "daemon_unreachable".
Definition DAEMON_RESTART_RETRY_COOLDOWN : Duration := from_secs 60.

Section Retry.
Context `{D : Deps} {RJ : ResponseJson} {E : Type}.

(** A response is its status, its body as text and as JSON. *)
Inductive Reply :=
  | NoReply (detail : string)
  | Response (status : Z) (text : string) (json : result Json).

Definition classify_reply (reply : Reply) : Json + RemoteEvalError :=
  match reply with
  | NoReply detail => inr (ETransport detail)
  | Response status text json =>
      if negb ((200 <=? status) && (status <? 300))%Z then
        inr (if ((status =? 401) || (status =? 403))%Z then EAuthRejected status text
             else EHttpStatus status text)
      else match json with Ok body => inl body | Err detail => inr (EParse detail) end
  end.

(** The network and the machine: a request, the token file, the start of a daemon
    (with the wait for it), and a position in the readings of the clock. *)
Record Env := {
  ev_post : string → ToolCallContext → list WireObservation → E → Reply * E;
  ev_token_file : E → result string;
  ev_spawn_daemon : E → option string * E;
  ev_tick : E → nat;
}.

Variable env : Env.
Variable clock : nat → Instant.

Record Supervisor := {
  sv_outbox : ObservationOutbox;
  sv_token : string;
  sv_last_attempt : option Instant;
}.

Definition set_outbox (ob : ObservationOutbox) (s : Supervisor) : Supervisor :=
  {| sv_outbox := ob; sv_token := sv_token s; sv_last_attempt := sv_last_attempt s |}.
Definition set_token (token : string) (s : Supervisor) : Supervisor :=
  {| sv_outbox := sv_outbox s; sv_token := token; sv_last_attempt := sv_last_attempt s |}.
Definition set_last_attempt (at_ : option Instant) (s : Supervisor) : Supervisor :=
  {| sv_outbox := sv_outbox s; sv_token := sv_token s; sv_last_attempt := at_ |}.

(** [DaemonRestartState] *)
Definition take_attempt (now : Instant) (s : Supervisor) : bool * Supervisor :=
  match sv_last_attempt s with
  | Some at_ =>
      if (saturating_duration_since now at_ <? DAEMON_RESTART_RETRY_COOLDOWN)%Z then (false, s)
      else (true, set_last_attempt (Some now) s)
  | None => (true, set_last_attempt (Some now) s)
  end.

Definition note_success (s : Supervisor) : Supervisor := set_last_attempt None s.

Definition remote_proxy_evaluate (token : string) (ctx : ToolCallContext) (s : Supervisor) (e : E) :
    option (ProxyDecision + RemoteEvalError) * Supervisor * E :=
  let '(batch, outbox) := outbox_take (sv_outbox s) in
  let s := set_outbox outbox s in
  let '(reply, e) := ev_post env token ctx (to_wire clock (ev_tick env e) batch) e in
  match classify_reply reply with
  | inl body =>
      match parse_daemon_decision body with
      | None => (None, s, e)
      | Some (Ok decision) => (Some (inl decision), s, e)
      | Some (Err detail) => (Some (inr (EParse detail)), s, e)
      end
  | inr error => (Some (inr error), set_outbox (outbox_restore batch (sv_outbox s)) s, e)
  end.

Definition reload_rotated_token (just_used : string) (s : Supervisor) (e : E) :
    option string * Supervisor :=
  match ev_token_file env e with
  | Err _ => (None, s)
  | Ok content =>
      let fresh := trim content in
      if String.eqb fresh "" || String.eqb fresh just_used then (None, s)
      else (Some fresh, set_token fresh s)
  end.

Definition attempt_daemon_restart (e : E) : result string * E :=
  let '(error, e) := ev_spawn_daemon env e in
  match error with
  | Some error => (Err error, e)
  | None => (match ev_token_file env e with Ok t => Ok (trim t) | Err x => Err x end, e)
  end.

Definition daemon_unreachable_decision (error : string) : ProxyDecision := {|
  pd_action := Deny DAEMON_UNREACHABLE_REASON;
  pd_composite_score := S754_infinity false;
  pd_filter_results := [];
  pd_evaluation_time := 0;
  pd_decision_reason := "Daemon unreachable; operation denied for safety: " +:+ error |}.

Definition was_evaluated (decision : ProxyDecision) : bool :=
  match pd_action decision with
  | Deny reason => negb (String.eqb reason DAEMON_UNREACHABLE_REASON)
  | _ => true
  end.

Definition unreachable (error : RemoteEvalError) : ProxyDecision :=
  daemon_unreachable_decision (RemoteEvalError_display error).

(** A restart, at most one per minute, and one more request. *)
Definition restart_and_retry (ctx : ToolCallContext) (error : RemoteEvalError) (s : Supervisor) (e : E) :
    option ProxyDecision * Supervisor * E :=
  let '(allowed, s) := take_attempt (clock (ev_tick env e)) s in
  if allowed : bool then
    let '(token, e) := attempt_daemon_restart e in
    match token with
    | Err _ => (Some (unreachable error), s, e)
    | Ok new_token =>
        let s := set_token new_token s in
        let '(r, s, e) := remote_proxy_evaluate new_token ctx s e in
        (match r with
         | None => None
         | Some (inl decision) => Some decision
         | Some (inr retry_error) => Some (unreachable retry_error)
         end, s, e)
    end
  else (Some (unreachable error), s, e).

(** After a rejection of the token, one request with the token now on disk. *)
Definition retry_with_rotated_token (ctx : ToolCallContext) (current_token : string)
    (error : RemoteEvalError) (s : Supervisor) (e : E) :
    option (option ProxyDecision) * Supervisor * E :=
  if is_auth_rejection error then
    let '(fresh, s) := reload_rotated_token current_token s e in
    match fresh with
    | None => (None, s, e)
    | Some fresh =>
        let '(r, s, e) := remote_proxy_evaluate fresh ctx s e in
        match r with
        | None => (Some None, s, e)
        | Some (inl decision) => (Some (Some decision), note_success s, e)
        | Some (inr _) => (None, s, e)
        end
    end
  else (None, s, e).

(** [evaluate_proxy]; [local] is the in-process proxy, and [None] a panic. *)
Definition evaluate_proxy (remote has_restart : bool) (local : ToolCallContext → E → ProxyDecision * E)
    (ctx : ToolCallContext) (s : Supervisor) (e : E) : option ProxyDecision * Supervisor * E :=
  if remote then
    let current_token := sv_token s in
    let '(r, s, e) := remote_proxy_evaluate current_token ctx s e in
    match r with
    | None => (None, s, e)
    | Some (inl decision) =>
        (Some decision, if has_restart then note_success s else s, e)
    | Some (inr error) =>
        if has_restart then
          let '(r, s, e) := retry_with_rotated_token ctx current_token error s e in
          match r with
          | Some decision => (decision, s, e)
          | None => restart_and_retry ctx error s e
          end
        else (Some (unreachable error), s, e)
    end
  else
    let '(decision, e) := local ctx e in (Some decision, s, e).

(** [observe_proxy_outcome] in daemon mode: an unevaluated call is not observed. *)
Definition observe_remote (ctx : ToolCallContext) (decision : ProxyDecision) (outcome : CallOutcome)
    (attempt_start : Instant) (s : Supervisor) : Supervisor :=
  if was_evaluated decision
  then set_outbox (outbox_push (pending_outcome ctx outcome attempt_start) (sv_outbox s)) s
  else s.

(** [flush_observations] *)
Definition flush_observations (post : list WireObservation → E → Reply * E) (s : Supervisor) (e : E) :
    Supervisor * E :=
  let '(batch, outbox) := outbox_take (sv_outbox s) in
  match batch with
  | [] => (set_outbox outbox s, e)
  | _ =>
      let '(reply, e) := post (to_wire clock (ev_tick env e) batch) e in
      (match reply with
       | Response status _ _ =>
           if ((200 <=? status) && (status <? 300))%Z then set_outbox outbox s
           else set_outbox (outbox_restore batch outbox) s
       | NoReply _ => set_outbox (outbox_restore batch outbox) s
       end, e)
  end.

End Retry.

Arguments Env {_} E.

(** ** The decision survives the wire *)

Section RoundTrip.
Context `{D : Deps} {RJ : ResponseJson} {RL : ResponseJsonLaws}.

Lemma parse_action_text a : parse_action (action_text a) = Ok a.
Proof.
  destruct a as [|p|reason]; [done|by destruct p|].
  unfold parse_action, action_text.
  rewrite (proj2 (String.eqb_neq ("deny:" +:+ reason) "allow")) by done.
  by rewrite strip_prefix_app.
Qed.

Lemma parse_severity_text s : parse_severity (severity_text s) = s.
Proof. by destruct s. Qed.

Definition without_metadata (r : FilterResult) : FilterResult := {|
  fr_filter_name := fr_filter_name r; fr_matched := fr_matched r; fr_score := fr_score r;
  fr_rule_id := fr_rule_id r; fr_severity := fr_severity r; fr_message := fr_message r;
  fr_metadata := ∅ |}.

Lemma parse_filter_result_summary r :
  parse_filter_result (summary_json (summarise r))
  = if f64_is_finite (fr_score r) then Some (without_metadata r) else None.
Proof.
  unfold parse_filter_result.
  rewrite summary_name, summary_matched, summary_score, summary_rule, summary_severity, summary_message.
  cbn. rewrite parse_severity_text. unfold finite_only. by destruct (f64_is_finite _).
Qed.

Lemma parse_results rs :
  omap parse_filter_result (map summary_json (map summarise rs))
  = map without_metadata (List.filter (λ r, f64_is_finite (fr_score r)) rs).
Proof.
  induction rs as [|r rs IH]; [done|]. cbn [map List.filter].
  change (omap parse_filter_result (summary_json (summarise r) :: map summary_json (map summarise rs)))
    with (match parse_filter_result (summary_json (summarise r)) with
          | Some y => y :: omap parse_filter_result (map summary_json (map summarise rs))
          | None => omap parse_filter_result (map summary_json (map summarise rs))
          end).
  rewrite IH, parse_filter_result_summary. by destruct (f64_is_finite (fr_score r)).
Qed.

(** C33: The supervisor reads the daemon's decision as it was made: action, reason,
    score and the filters' results, less their metadata and the results whose score
    is not a finite number.  A composite score that is not finite is an error, which
    denies the call. *)
Theorem decision_round_trip decision :
  if f64_is_finite (pd_composite_score decision) then
    ∀ time,
    from_secs_f64 (f64_div (default f64_zero (finite_only (er_evaluation_time_ms (evaluate_response decision))))
                     (f64_of_Z 1000)) = Some time →
    parse_daemon_decision (response_json (evaluate_response decision)) = Some (Ok {|
      pd_action := pd_action decision;
      pd_composite_score := pd_composite_score decision;
      pd_filter_results :=
        map without_metadata (List.filter (λ r, f64_is_finite (fr_score r)) (pd_filter_results decision));
      pd_evaluation_time := time;
      pd_decision_reason := pd_decision_reason decision |})
  else
    parse_daemon_decision (response_json (evaluate_response decision))
    = Some (Err "missing composite_score").
Proof.
  unfold parse_daemon_decision. rewrite response_score, response_action, response_reason,
    response_results, response_time.
  change (finite_only (er_composite_score (evaluate_response decision)))
    with (if f64_is_finite (pd_composite_score decision) then Some (pd_composite_score decision) else None).
  destruct (f64_is_finite (pd_composite_score decision)); [|done].
  intros time Ht. rewrite Ht.
  change (er_action (evaluate_response decision)) with (action_text (pd_action decision)).
  change (er_filter_results (evaluate_response decision)) with (map summarise (pd_filter_results decision)).
  by rewrite parse_action_text, parse_results.
Qed.

End RoundTrip.

(** ** Failing closed *)

Section FailClosed.
Context `{D : Deps} {RJ : ResponseJson} {E : Type}.
Variable env : Env E.
Variable clock : nat → Instant.

Notation remote_proxy_evaluate := (remote_proxy_evaluate env clock).
Notation evaluate_proxy := (evaluate_proxy env clock).

(** Some request was answered with this decision. *)
Definition answered (ctx : ToolCallContext) (decision : ProxyDecision) : Prop :=
  ∃ token obs e body,
    classify_reply (ev_post env token ctx obs e).1 = inl body
    ∧ parse_daemon_decision body = Some (Ok decision).

Definition pending (s : Supervisor) : list PendingObservation := ob_pending (sv_outbox s).

Lemma remote_answered token ctx s e decision s' e' :
  remote_proxy_evaluate token ctx s e = (Some (inl decision), s', e') → answered ctx decision.
Proof.
  unfold RemoteEval.remote_proxy_evaluate. destruct (outbox_take (sv_outbox s)) as [batch outbox].
  destruct (ev_post _ _ _ _ _) as [reply e1] eqn:Ep.
  destruct (classify_reply reply) as [body|error] eqn:Ec; [|done].
  destruct (parse_daemon_decision body) as [[d|x]|] eqn:Ed; try done. intros [= <- _ _].
  exists token, (to_wire clock (ev_tick env e) batch), e, body. rewrite Ep. by split.
Qed.

(** A request that fails keeps the outbox, unless its answer was read. *)
Lemma remote_outbox token ctx s e r s' e' :
  length (pending s) ≤ OUTBOX_CAP → remote_proxy_evaluate token ctx s e = (r, s', e') →
  pending s' = pending s ∨ pending s' = [].
Proof.
  intros Hc. unfold RemoteEval.remote_proxy_evaluate, outbox_take. cbn.
  destruct (ev_post _ _ _ _ _) as [reply e1].
  destruct (classify_reply reply) as [body|error]; cbn.
  - destruct (parse_daemon_decision body) as [[d|x]|]; intros [= _ <- _]; by right.
  - intros [= _ <- _]. left. unfold pending. cbn. unfold outbox_restore.
    destruct (ob_pending (sv_outbox s)) as [|p l] eqn:Eo; [done|].
    cbn [ob_pending]. rewrite app_nil_r. unfold pending in Hc. rewrite Eo in Hc.
    by replace (length (p :: l) - OUTBOX_CAP) with 0 by lia.
Qed.

Definition refused (decision : ProxyDecision) : Prop :=
  pd_action decision = Deny DAEMON_UNREACHABLE_REASON
  ∧ pd_composite_score decision = S754_infinity false
  ∧ was_evaluated decision = false.

Lemma unreachable_refused error : refused (unreachable error).
Proof. by split_and!. Qed.

Lemma restart_closed ctx error s e decision s' e' :
  restart_and_retry env clock ctx error s e = (Some decision, s', e') →
  answered ctx decision ∨ refused decision.
Proof.
  unfold restart_and_retry. destruct (take_attempt _ s) as [[] s1]; cycle 1.
  { intros [= <- _ _]. right. apply unreachable_refused. }
  destruct (attempt_daemon_restart env e) as [[token|x] e1]; cycle 1.
  { intros [= <- _ _]. right. apply unreachable_refused. }
  destruct (remote_proxy_evaluate _ _ _ _) as [[[[d|error']|] s2] e2] eqn:Er; [..|done].
  - intros [= <- _ _]. left. by eapply remote_answered.
  - intros [= <- _ _]. right. apply unreachable_refused.
Qed.

(** C10: In daemon mode every decision is one the daemon gave in answer to this call,
    or the denial of an unreachable daemon, with an infinite score, which no filter is
    told about: no failure, rotated token or restart leads to another allowance. *)
Theorem evaluate_proxy_fails_closed has_restart local ctx s e decision s' e' :
  evaluate_proxy true has_restart local ctx s e = (Some decision, s', e') →
  answered ctx decision
  ∨ (refused decision
     ∧ ∀ outcome start s, observe_remote ctx decision outcome start s = s).
Proof.
  assert (Hr : ∀ d, answered ctx d ∨ refused d →
    answered ctx d ∨ (refused d ∧ ∀ o t s, observe_remote ctx d o t s = s)).
  { intros d [?|Hd]; [by left|right]. split; [done|]. intros o t s0. unfold observe_remote.
    by destruct Hd as (_ & _ & ->). }
  intros H. apply Hr. revert H. unfold RemoteEval.evaluate_proxy.
  destruct (remote_proxy_evaluate _ _ _ _) as [[[[d|error]|] s1] e1] eqn:E1; [..|done].
  { intros [= <- _ _]. left. by eapply remote_answered. }
  destruct has_restart; [|intros [= <- _ _]; right; apply unreachable_refused].
  unfold retry_with_rotated_token. destruct (is_auth_rejection error); [|apply restart_closed].
  destruct (reload_rotated_token _ _ _ _) as [[fresh|] s2]; [|apply restart_closed].
  destruct (remote_proxy_evaluate fresh _ _ _) as [[[[d|error']|] s3] e3] eqn:E3.
  - intros [= <- _ _]. left. by eapply remote_answered.
  - apply restart_closed.
  - done.
Qed.

(** A second restart is not attempted within the cooldown. *)
Lemma restart_cooldown (s : Supervisor) t t' s' :
  take_attempt t s = (true, s') → (t' - t < DAEMON_RESTART_RETRY_COOLDOWN)%Z →
  (take_attempt t' s').1 = false.
Proof.
  unfold take_attempt. intros H Ht.
  assert (s' = set_last_attempt (Some t) s) as ->.
  { destruct (sv_last_attempt s) as [a|]; [destruct (_ <? _)%Z|]; by simplify_eq. }
  cbn. unfold saturating_duration_since.
  destruct (Z.ltb_spec (Z.max 0 (t' - t)) DAEMON_RESTART_RETRY_COOLDOWN) as [|Hge]; [done|].
  unfold DAEMON_RESTART_RETRY_COOLDOWN, from_secs, nanos_per_sec in *. lia.
Qed.

End FailClosed.

(** ** Concrete runs *)

Section Concrete.
#[local] Existing Instance concrete_deps.

Definition f64_json (x : f64) : JsonTree :=
  if f64_is_finite x then JString (positive_text (encode x)) else JNull.

Definition concrete_summary_json (f : FilterResultSummary) : JsonTree :=
  JObject [("filter_name", JString (fs_filter_name f)); ("matched", JBool (fs_matched f));
           ("score", f64_json (fs_score f)); ("rule_id", JString (fs_rule_id f));
           ("severity", JString (severity_text (fs_severity f)));
           ("message", JString (fs_message f))].

Definition concrete_response_json (r : EvaluateResponse) : JsonTree :=
  JObject [("composite_score", f64_json (er_composite_score r)); ("action", JString (er_action r));
           ("decision_reason", JString (er_decision_reason r));
           ("filter_results", JArray (map concrete_summary_json (er_filter_results r)));
           ("evaluation_time_ms", f64_json (er_evaluation_time_ms r))].

Definition concrete_as_f64 (v : JsonTree) : option f64 :=
  match v with JString s => decode (A := spec_float) (text_positive s) | _ => None end.

Definition concrete_response : @ResponseJson concrete_deps :=
  Build_ResponseJson concrete_deps concrete_summary_json concrete_response_json concrete_as_f64.

Lemma f64_json_read x : concrete_as_f64 (f64_json x) = finite_only x.
Proof.
  unfold f64_json, finite_only. destruct (f64_is_finite x); [|done].
  cbn. by rewrite text_positive_text, decode_encode.
Qed.

Lemma concrete_response_laws : @ResponseJsonLaws concrete_deps concrete_response.
Proof. split; try done; intros; apply f64_json_read. Qed.

#[local] Existing Instance concrete_response.

Definition some_result : FilterResult := {|
  fr_filter_name := "taint"; fr_matched := true; fr_score := f64_dec 35 1; fr_rule_id := "t";
  fr_severity := SevWarning; fr_message := "m"; fr_metadata := ∅ |}.

Definition some_decision : ProxyDecision := {|
  pd_action := Queue High; pd_composite_score := f64_of_Z 5; pd_filter_results := [some_result];
  pd_evaluation_time := 1500000; pd_decision_reason := "review" |}.

Lemma decision_round_trip_witness :
  from_secs_f64 (f64_div (default f64_zero (finite_only (er_evaluation_time_ms (evaluate_response some_decision))))
                   (f64_of_Z 1000)) = Some 1500000%Z
  ∧ parse_daemon_decision (response_json (evaluate_response some_decision)) = Some (Ok some_decision).
Proof.
  assert (Ht : from_secs_f64 (f64_div (default f64_zero
    (finite_only (er_evaluation_time_ms (evaluate_response some_decision)))) (f64_of_Z 1000)) = Some 1500000%Z)
    by (vm_compute; reflexivity).
  split; [exact Ht|].
  exact (@decision_round_trip concrete_deps concrete_response concrete_response_laws some_decision _ Ht).
Defined.

(** The daemon rejects the first token, as after a restart; the second is on disk. *)
Definition rotated_env : Env unit := {|
  ev_post token ctx obs e :=
    (if String.eqb token "new"
     then Response 200 "" (Ok (response_json (evaluate_response some_decision)))
     else Response 403 "Invalid IPC token" (Err "not json"), e);
  ev_token_file _ := Ok "new ";
  ev_spawn_daemon e := (Some "not started", e);
  ev_tick _ := 0 |}.

Definition old_supervisor : Supervisor :=
  {| sv_outbox := ObservationOutbox_default; sv_token := "old"; sv_last_attempt := None |}.

Definition some_context : ToolCallContext :=
  ToolCallContext_new uuid_a 0%Z "grith-supervisor" (FileRead "/tmp/f") uuid_b.

Lemma evaluate_proxy_fails_closed_witness :
  ∃ s', evaluate_proxy rotated_env (λ _, 0%Z) true true (λ _ e, (some_decision, e)) some_context
          old_supervisor tt = (Some some_decision, s', tt)
        ∧ (answered rotated_env some_context some_decision
           ∨ (refused some_decision
              ∧ ∀ outcome start s, observe_remote some_context some_decision outcome start s = s)).
Proof.
  exists (set_token "new" old_supervisor).
  assert (H : evaluate_proxy rotated_env (λ _, 0%Z) true true (λ _ e, (some_decision, e)) some_context
          old_supervisor tt = (Some some_decision, set_token "new" old_supervisor, tt))
    by (vm_compute; reflexivity).
  split; [exact H|].
  exact (evaluate_proxy_fails_closed rotated_env (λ _, 0%Z) true _ _ _ _ _ _ _ H).
Defined.

End Concrete.
