(* ===== verification/Canonical.v ===== *)
(** * Canonical encodings

    The length-prefixed encoder behind the record hashes of the audit trail
    ([grith-audit/src/types.rs], [Canonical] and [sha256_hex]) with the bit pattern
    of a float, and what makes a hash of an encoding a commitment: a writer is
    [Delimits] a value when no text that follows can make two different values read
    the same. *)

From Stdlib Require Import Ascii String ZArith Lia SpecFloat.
From S2P Require Import Prelude F64.

#[local] Arguments String.append !_ _ / : simpl nomatch.

(** ** Digits *)

Definition hex_digit (d : N) : ascii :=
  if (d <? 10)%N then ascii_of_N (48 + d) else ascii_of_N (87 + d).

(** The last [k] hexadecimal digits of [n]. *)
Fixpoint hex_fixed (k : nat) (n : N) : string :=
  match k with
  | O => ""
  | S k' => hex_fixed k' (n / 16) +:+ String (hex_digit (n mod 16)) ""
  end.

(** [f64::to_bits].  [SpecFloat] has one NaN: its payload is not modelled. *)
Definition f64_to_bits (x : f64) : N :=
  let sign (s : bool) := if s then (2 ^ 63)%N else 0%N in
  match x with
  | S754_zero s => sign s
  | S754_infinity s => sign s + 2047 * 2 ^ 52
  | S754_nan => 2047 * 2 ^ 52 + 2 ^ 51
  | S754_finite s m e =>
      if (Npos m <? 2 ^ 52)%N then sign s + Npos m
      else sign s + (Z.to_N (e + 1075) * 2 ^ 52 + (Npos m - 2 ^ 52))
  end%N.

(** ** The digest *)

(** [sha2::Sha256]: the bytes of the digest of some bytes. *)
Class Sha256 := sha256 : string → string.

Fixpoint hex_of_bytes (s : string) : string :=
  match s with
  | EmptyString => ""
  | String c s' => hex_fixed 2 (N_of_ascii c) +:+ hex_of_bytes s'
  end.

Definition sha256_hex `{Sha256} (data : string) : string := hex_of_bytes (sha256 data).

(** Two texts with the same digest. *)
Definition collision `{Sha256} : Prop := ∃ x y, x ≠ y ∧ sha256 x = sha256 y.

(** ** The encoder *)

Abbreviation Canonical := string.
Abbreviation Writer := (Canonical → Canonical).

Definition UNIT_SEP : ascii := ascii_of_N 31.
Definition REC_SEP : ascii := ascii_of_N 30.

Definition Canonical_new (domain : string) : Canonical := domain +:+ String REC_SEP "".

Definition c_text (name value : string) : Writer := λ buf,
  buf +:+ name +:+ String UNIT_SEP
    (String "+" (fmt_N (N.of_nat (String.length value)) +:+ String UNIT_SEP (value +:+ String REC_SEP ""))).

Definition c_absent (name : string) : Writer := λ buf,
  buf +:+ name +:+ String UNIT_SEP (String "-" (String UNIT_SEP (String REC_SEP ""))).

Definition c_opt_text (name : string) (value : option string) : Writer :=
  match value with Some v => c_text name v | None => c_absent name end.

Definition c_float (name : string) (value : f64) : Writer :=
  c_text name (hex_fixed 16 (f64_to_bits value)).

Definition c_count (name : string) (n : nat) : Writer :=
  c_text (name +:+ ".len") (fmt_N (N.of_nat n)).

(** One statement after another, and a [for] loop. *)
Definition c_then (w1 w2 : Writer) : Writer := λ buf, w2 (w1 buf).
Definition c_each {A} (w : A → Writer) (l : list A) : Writer := λ buf, fold_left (λ b x, w x b) l buf.

Declare Scope canonical_scope.
Delimit Scope canonical_scope with canonical.
Infix "▷" := c_then (at level 60, right associativity) : canonical_scope.

(** ** Digits are injective *)

Lemma hex_digit_inj a b : (a < 16)%N → (b < 16)%N → hex_digit a = hex_digit b → a = b.
Proof.
  unfold hex_digit. intros Ha Hb H. apply (f_equal N_of_ascii) in H.
  destruct (N.ltb_spec a 10), (N.ltb_spec b 10); rewrite !N_ascii_embedding in H by lia; lia.
Qed.

Lemma hex_digit_is_hex a : (a < 16)%N → is_hex (hex_digit a) = true.
Proof.
  intros Ha. assert (forallb (λ n, is_hex (hex_digit (N.of_nat n))) (seq 0 16) = true) as H by done.
  rewrite forallb_forall in H. specialize (H (N.to_nat a)). rewrite N2Nat.id in H.
  apply H, in_seq. lia.
Qed.

Lemma hex_fixed_length k n : String.length (hex_fixed k n) = k.
Proof. revert n. induction k as [|k IH]; intros n; cbn; [done|]. rewrite length_append, IH. cbn. lia. Qed.

Lemma hex_fixed_inj k a b :
  (a < 16 ^ N.of_nat k)%N → (b < 16 ^ N.of_nat k)%N → hex_fixed k a = hex_fixed k b → a = b.
Proof.
  revert a b. induction k as [|k IH]; intros a b Ha Hb H; [cbn in *; lia|].
  rewrite Nat2N.inj_succ, N.pow_succ_r' in Ha, Hb. cbn [hex_fixed] in H.
  apply append_inj_length in H as [H1 [= H2]]; [|by rewrite !hex_fixed_length].
  apply hex_digit_inj in H2; [|apply N.mod_lt; lia..].
  apply IH in H1; [|apply N.Div0.div_lt_upper_bound; lia..].
  rewrite (N.div_mod a 16), (N.div_mod b 16) by lia. by rewrite H1, H2.
Qed.

Lemma hex_fixed_is_hex k n : str_all is_hex (hex_fixed k n) = true.
Proof.
  revert n. induction k as [|k IH]; intros n; cbn; [done|].
  rewrite str_all_app, IH. cbn. rewrite hex_digit_is_hex by (apply N.mod_lt; lia). done.
Qed.

Lemma hex_of_bytes_inj a b : hex_of_bytes a = hex_of_bytes b → a = b.
Proof.
  revert b. induction a as [|x a IH]; intros [|y b] H; [done|..]; cbn [hex_of_bytes] in H.
  - apply (f_equal String.length) in H. rewrite length_append, hex_fixed_length in H. done.
  - apply (f_equal String.length) in H. rewrite length_append, hex_fixed_length in H. done.
  - apply append_inj_length in H as [H1 H2]; [|by rewrite !hex_fixed_length].
    apply hex_fixed_inj in H1; [|apply N_ascii_bounded..].
    f_equal; [|by apply IH]. rewrite <- (ascii_N_embedding x), <- (ascii_N_embedding y). by rewrite H1.
Qed.

Lemma hex_of_bytes_is_hex a : str_all is_hex (hex_of_bytes a) = true.
Proof. induction a as [|x a IH]; [done|]. cbn [hex_of_bytes]. by rewrite str_all_app, hex_fixed_is_hex, IH. Qed.

Lemma sha256_hex_inj `{Sha256} x y : sha256_hex x = sha256_hex y → x = y ∨ collision.
Proof.
  intros He%hex_of_bytes_inj. destruct (decide (x = y)) as [->|Hne]; [by left|].
  right. by exists x, y.
Qed.

Lemma is_hex_lacks c s : is_hex c = false → str_all is_hex s = true → lacks c s = true.
Proof.
  intros Hc. induction s as [|x s IH]; cbn; [done|]. intros [Hx Hs]%andb_true_iff.
  rewrite IH by done. unfold ascii_eqb. destruct (Ascii.eqb_spec x c) as [->|]; [congruence|done].
Qed.

(** ** Bit patterns are injective *)

Lemma f64_to_bits_bound x : f64_valid x = true → (f64_to_bits x < 16 ^ 16)%N.
Proof.
  change (16 ^ 16)%N with (2 * 2 ^ 63)%N.
  destruct x as [s|s| |s m e]; cbn [f64_to_bits]; intros Hv; try (destruct s; lia); try lia.
  unfold f64_valid, valid_binary in Hv. apply bounded_spec in Hv as (He & Hm & Ho).
  assert (Npos m < 2 ^ 53)%N by lia.
  destruct (N.ltb_spec (Npos m) (2 ^ 52)); [destruct s; lia|].
  assert (Z.to_N (e + 1075) * 2 ^ 52 <= 2046 * 2 ^ 52)%N by (apply N.mul_le_mono_r; lia).
  destruct s; lia.
Qed.

(** The sign, the exponent field and the fraction of a bit pattern. *)
Definition sign_bits (s : bool) : N := if s then (2 ^ 63)%N else 0%N.

Lemma fields_inj s1 x1 f1 s2 x2 f2 :
  (x1 < 2048)%N → (x2 < 2048)%N → (f1 < 2 ^ 52)%N → (f2 < 2 ^ 52)%N →
  (sign_bits s1 + (x1 * 2 ^ 52 + f1) = sign_bits s2 + (x2 * 2 ^ 52 + f2))%N →
  s1 = s2 ∧ x1 = x2 ∧ f1 = f2.
Proof. unfold sign_bits. destruct s1, s2; lia. Qed.

(** The exponent field and the fraction of a float. *)
Definition bit_fields (x : f64) : bool * N * N :=
  match x with
  | S754_zero s => (s, 0%N, 0%N)
  | S754_infinity s => (s, 2047%N, 0%N)
  | S754_nan => (false, 2047%N, (2 ^ 51)%N)
  | S754_finite s m e =>
      if (Npos m <? 2 ^ 52)%N then (s, 0%N, Npos m)
      else (s, Z.to_N (e + 1075), (Npos m - 2 ^ 52)%N)
  end.

Lemma f64_to_bits_fields x :
  let '(s, e, f) := bit_fields x in f64_to_bits x = (sign_bits s + (e * 2 ^ 52 + f))%N.
Proof.
  unfold f64_to_bits, bit_fields. destruct x as [s|s| |s m e]; try (destruct s; done); [done|].
  by destruct (N.ltb_spec (Npos m) (2 ^ 52)).
Qed.

Lemma bit_fields_bound x :
  f64_valid x = true → let '(s, e, f) := bit_fields x in (e < 2048 ∧ f < 2 ^ 52)%N.
Proof.
  destruct x as [s|s| |s m e]; cbn [bit_fields]; intros Hv; try lia.
  unfold f64_valid, valid_binary in Hv. apply bounded_spec in Hv as (He & Hm & Ho).
  destruct (N.ltb_spec (Npos m) (2 ^ 52)); lia.
Qed.

Lemma bit_fields_inj x y :
  f64_valid x = true → f64_valid y = true → bit_fields x = bit_fields y → x = y.
Proof.
  unfold f64_valid, valid_binary.
  destruct x as [s|s| |s m e], y as [s'|s'| |s' m' e']; cbn [bit_fields]; intros Hx Hy Hf;
    rewrite ?bounded_spec in *;
    repeat match type of Hf with context [(?a <? ?b)%N] => destruct (N.ltb_spec a b) end;
    try done; injection Hf; clear Hf; intros; subst; try lia; try done; f_equal; lia.
Qed.

Lemma f64_to_bits_inj x y :
  f64_valid x = true → f64_valid y = true → f64_to_bits x = f64_to_bits y → x = y.
Proof.
  intros Hx Hy H. apply bit_fields_inj; [done..|].
  pose proof (f64_to_bits_fields x) as Ex. pose proof (f64_to_bits_fields y) as Ey.
  pose proof (bit_fields_bound x Hx) as Bx. pose proof (bit_fields_bound y Hy) as By.
  destruct (bit_fields x) as [[s1 e1] f1], (bit_fields y) as [[s2 e2] f2].
  rewrite Ex, Ey in H. apply fields_inj in H as (-> & -> & ->); [done|apply Bx|apply By|apply Bx|apply By].
Qed.

(** ** Texts cut at a separator *)

Lemma cut_at c a b s t :
  lacks c a = true → lacks c b = true → a +:+ String c s = b +:+ String c t → a = b ∧ s = t.
Proof.
  revert b. induction a as [|x a IH]; intros [|y b] Ha Hb H; cbn in *.
  - by injection H.
  - injection H as <- _. unfold ascii_eqb in Hb. by rewrite Ascii.eqb_refl in Hb.
  - injection H as -> _. unfold ascii_eqb in Ha. by rewrite Ascii.eqb_refl in Ha.
  - apply andb_true_iff in Ha as [_ Ha], Hb as [_ Hb]. injection H as -> H.
    by destruct (IH b Ha Hb H) as [-> ->].
Qed.

Lemma fmt_N_lacks c n : (∀ d, pretty_N_char d ≠ c) → lacks c (fmt_N n) = true.
Proof.
  intros Hc. assert (∀ d, negb (ascii_eqb (pretty_N_char d) c) = true) as Hd.
  { intros d. unfold ascii_eqb. destruct (Ascii.eqb_spec (pretty_N_char d) c); [by destruct (Hc d)|done]. }
  unfold fmt_N, pretty, pretty_N. case_decide as Hn; [by apply andb_true_iff; split; [apply (Hd 0%N)|]|].
  clear Hn. cut (∀ s, lacks c s = true → lacks c (pretty_N_go n s) = true); [by intros ->|].
  induction (N.lt_wf_0 n) as [m _ IH]. intros s Hs.
  destruct (decide (0 < m)%N) as [Hm|]; [|by replace m with 0%N by lia].
  rewrite pretty_N_go_step by done. apply IH; [by apply N.div_lt|].
  cbn [lacks]. by rewrite Hs, Hd.
Qed.

Lemma fmt_N_lacks_sep n : lacks UNIT_SEP (fmt_N n) = true.
Proof. apply fmt_N_lacks. intros d. unfold pretty_N_char. by repeat case_match. Qed.

#[export] Instance fmt_N_inj : Inj (=) (=) fmt_N.
Proof. unfold fmt_N. apply _. Qed.

#[export] Instance fmt_Z_inj : Inj (=) (=) fmt_Z.
Proof.
  assert (∀ n p, fmt_N n ≠ String "-" p) as Hne.
  { intros n p Hp. assert (lacks "-" (fmt_N n) = true) as Hl
      by (apply fmt_N_lacks; intros d; unfold pretty_N_char; by repeat case_match).
    by rewrite Hp in Hl. }
  intros [|p|p] [|q|q]; cbn [fmt_Z]; intros H; try done;
    try (change (pretty ?n) with (fmt_N n) in H);
    try (by apply (Hne (Z.to_N 0)) in H); try (by symmetry in H; apply Hne in H);
    try (by apply Hne in H).
  - by apply fmt_N_inj in H.
  - by apply fmt_N_inj in H.
  - apply fmt_N_inj in H. cbn in H. congruence.
  - injection H as H. change (pretty ?n) with (fmt_N n) in H. apply fmt_N_inj in H. congruence.
Qed.

(** ** Writers append *)

Class Appends (w : Writer) : Prop := appends : ∀ buf, w buf = buf +:+ w "".

#[export] Instance appends_text name v : Appends (c_text name v).
Proof. done. Qed.

#[export] Instance appends_absent name : Appends (c_absent name).
Proof. done. Qed.

#[export] Instance appends_opt_text name v : Appends (c_opt_text name v).
Proof. by destruct v. Qed.

#[export] Instance appends_then w1 w2 : Appends w1 → Appends w2 → Appends (c_then w1 w2).
Proof.
  intros A1 A2 buf. unfold c_then. rewrite (A2 (w1 buf)), (A1 buf), (A2 (w1 "")).
  by rewrite append_assoc.
Qed.

#[export] Instance appends_each {A} (w : A → Writer) l : (∀ x, Appends (w x)) → Appends (c_each w l).
Proof.
  intros Hw buf. unfold c_each. revert buf. induction l as [|x l IH]; intros buf; cbn.
  - by rewrite append_nil_r.
  - rewrite IH, (IH (w x "")), Hw. by rewrite append_assoc.
Qed.

#[export] Instance appends_match {C} (w : C → Writer) (v : option C) (w' : Writer) :
  (∀ x, Appends (w x)) → Appends w' → Appends (match v with Some x => w x | None => w' end).
Proof. by destruct v. Qed.

(** What starts with a field that is there. *)
Definition starts_present (w : Writer) : Prop :=
  ∃ n v rest, lacks UNIT_SEP n = true ∧ w "" = c_text n v "" +:+ rest.

Lemma starts_text n v : lacks UNIT_SEP n = true → starts_present (c_text n v).
Proof. intros Hn. exists n, v, "". by rewrite append_nil_r. Qed.

Lemma starts_then n v w :
  lacks UNIT_SEP n = true → Appends w → starts_present (c_then (c_text n v) w).
Proof. intros Hn Hw. exists n, v, (w ""). split; [done|]. apply Hw. Qed.

(** ** Writers that delimit a value *)

(** The writer of [a] appends a text from which, whatever follows, [p a] and the
    rest can be told. *)
Class Delimits {A B} (w : A → Writer) (p : A → B) : Prop := {
  delimits_appends : ∀ a, Appends (w a);
  delimits_inj : ∀ a b s t, w a "" +:+ s = w b "" +:+ t → p a = p b ∧ s = t;
}.

Section Delimits.
Context {A : Type}.
Implicit Types (w : A → Writer).

Lemma delimits_via {B C} w (p : A → B) (q : A → C) :
  Delimits w p → (∀ a b, p a = p b → q a = q b) → Delimits w q.
Proof.
  intros [Ha Hi] Hpq. split; [done|]. intros a b s t H.
  destruct (Hi _ _ _ _ H) as [Hp ->]. split; [by apply Hpq|done].
Qed.

Lemma delimits_then {B C} w1 w2 (p : A → B) (q : A → C) :
  Delimits w1 p → Delimits w2 q →
  Delimits (λ a, c_then (w1 a) (w2 a)) (λ a, (p a, q a)).
Proof.
  intros [A1 I1] [A2 I2]. split; [apply _|].
  - intros a b s t H. unfold c_then in H. rewrite (A2 a), (A2 b), !append_assoc in H.
    apply I1 in H as [-> H]. by apply I2 in H as [-> ->].
Qed.

Lemma text_inj name v v' s t :
  c_text name v "" +:+ s = c_text name v' "" +:+ t → v = v' ∧ s = t.
Proof.
  unfold c_text. cbn [String.append]. rewrite !append_assoc. intros H.
  apply (append_inj_length name name) in H as [_ H]; [|done]. cbn in H.
  injection H as H. rewrite !append_assoc in H. cbn in H.
  apply cut_at in H as [Hl H]; [|apply fmt_N_lacks_sep..].
  apply fmt_N_inj in Hl. rewrite !append_assoc in H.
  apply append_inj_length in H as [-> H]; [|lia]. cbn in H. by injection H as ->.
Qed.

(** A field that is there and one that is not differ, whatever their names. *)
Lemma absent_text_ne n n' v s t :
  lacks UNIT_SEP n = true → lacks UNIT_SEP n' = true →
  c_absent n "" +:+ s ≠ c_text n' v "" +:+ t.
Proof.
  unfold c_absent, c_text. cbn [String.append]. rewrite !append_assoc. intros Hn Hn' H.
  cbn in H. by apply cut_at in H as [_ H].
Qed.

#[export] Instance delimits_text name (v : A → string) : Delimits (λ a, c_text name (v a)) v.
Proof. split; [done|]. intros a b s t. apply text_inj. Qed.

#[export] Instance delimits_absent name : Delimits (λ _ : A, c_absent name) (λ _, ()).
Proof.
  split; [done|]. intros a b s t. unfold c_absent. cbn [String.append]. rewrite !append_assoc.
  intros H. apply (append_inj_length name name) in H as [_ H]; [|done]. cbn in H. by injection H.
Qed.

(** A value that may be absent. *)
Lemma delimits_match {C B} name (v : A → option C) (w : C → Writer) (p : C → B) :
  Delimits w p → lacks UNIT_SEP name = true → (∀ x, starts_present (w x)) →
  Delimits (λ a, match v a with Some x => w x | None => c_absent name end) (λ a, p <$> v a).
Proof.
  intros [Ha Hi] Hn Hp. split; [apply _|].
  intros a b s t. destruct (v a) as [x|], (v b) as [y|]; cbn [fmap option_fmap option_map].
  - intros H. by apply Hi in H as [-> ->].
  - destruct (Hp x) as (n & u & rest & Hlack & ->). intros H. symmetry in H.
    rewrite append_assoc in H. by apply absent_text_ne in H.
  - destruct (Hp y) as (n & u & rest & Hlack & ->). intros H.
    rewrite append_assoc in H. by apply absent_text_ne in H.
  - intros H. by apply (delimits_inj (w := λ _ : A, c_absent name) (p := λ _, ()) a b) in H as [_ ->].
Qed.

End Delimits.

Lemma delimits_opt_text {A} name (v : A → option string) :
  lacks UNIT_SEP name = true → Delimits (λ a, c_opt_text name (v a)) v.
Proof.
  intros Hn. unfold c_opt_text. apply (delimits_via _ (λ a, id <$> v a)).
  - apply delimits_match; [apply (delimits_text name id)|done|].
    intros x. by apply starts_text.
  - intros a b. unfold id. by destruct (v a), (v b); cbn; intros; simplify_eq.
Qed.

Lemma each_inj {A B} (w : A → Writer) (p : A → B) l l' s t :
  Delimits w p → length l = length l' →
  c_each w l "" +:+ s = c_each w l' "" +:+ t → p <$> l = p <$> l' ∧ s = t.
Proof.
  intros [Ha Hi]. revert l'. induction l as [|x l IH]; intros [|y l'] Hl H; try done.
  injection Hl as Hl. cbn in H. fold (c_each w l (w x "")) (c_each w l' (w y "")) in H.
  rewrite (appends (w := c_each w l) (w x "")), (appends (w := c_each w l') (w y "")), !append_assoc in H.
  apply Hi in H as [Hx H]. destruct (IH _ Hl H) as [Hls ->]. cbn. by rewrite Hx, Hls.
Qed.

(** A counted sequence. *)
Lemma delimits_list {A C B} name (l : A → list C) (w : C → Writer) (p : C → B) :
  Delimits w p →
  Delimits (λ a, c_then (c_count name (length (l a))) (c_each w (l a))) (λ a, p <$> l a).
Proof.
  intros Hw. pose proof Hw as [Ha _]. unfold c_count. split; [apply _|].
  intros a b s t H. unfold c_then in H.
  rewrite (appends (w := c_each w (l a)) (c_text _ _ "")),
    (appends (w := c_each w (l b)) (c_text _ _ "")), !append_assoc in H.
  apply text_inj in H as [Hn H]. apply fmt_N_inj in Hn.
  apply (each_inj w p) in H; [done|done|lia].
Qed.

Definition float_text (x : f64) : string := hex_fixed 16 (f64_to_bits x).

Lemma delimits_float {A} name (v : A → f64) :
  Delimits (λ a, c_float name (v a)) (λ a, float_text (v a)).
Proof. apply delimits_text. Qed.

Lemma float_text_inj x y :
  f64_valid x = true → f64_valid y = true → float_text x = float_text y → x = y.
Proof.
  intros Hx Hy H. apply f64_to_bits_inj; [done..|].
  by apply hex_fixed_inj in H; [|apply f64_to_bits_bound..].
Qed.
