(* ===== verification/AuditRecord.v ===== *)
(** * Audit records and their hashes

    [grith-audit/src/types.rs]: the record of one evaluation, the three canonical
    forms its hash was computed over in the life of the program, and what such a hash
    commits to.  SHA-256, the texts of UUIDs and instants and the decimal text of a
    float are parameters. *)

From Stdlib Require Import Ascii String ZArith Lia SpecFloat.
From stdpp Require Import sorting.
From S2P Require Import Prelude Concrete F64 Canonical Types Reputation.

#[local] Arguments String.append !_ _ / : simpl nomatch.

(** ** The analytics envelope *)

Inductive CompletenessTier := TierDecisions | TierSpawns | TierIo | TierAll.
Inductive RecordClass := ClassDecision | ClassRoutineSpawn | ClassRoutineIo | ClassNoise
  | ClassLlmUsage | ClassSystem.
Inductive Category := CatFileRead | CatFileMutation | CatProcess | CatNetworkEgress
  | CatNetworkListen | CatCrossProcess | CatNamespace | CatLlm | CatSystem | CatOther.
Inductive DestinationKind := DestDomain | DestHostPort | DestUrlOrigin | DestUnixSocketClass | DestOther.
Inductive SecurityEventType := SecQueue | SecDeny | SecCanary | SecGap.
Inductive ResolutionStatus := ResPending | ResApproved | ResDenied | ResExpired | ResEscalated.

Definition completeness_name (v : CompletenessTier) : string :=
  match v with TierDecisions => "decisions" | TierSpawns => "spawns" | TierIo => "io" | TierAll => "all" end.

Definition record_class_name (v : RecordClass) : string :=
  match v with
  | ClassDecision => "decision" | ClassRoutineSpawn => "routine_spawn"
  | ClassRoutineIo => "routine_io" | ClassNoise => "noise"
  | ClassLlmUsage => "llm_usage" | ClassSystem => "system"
  end.

Definition category_name (v : Category) : string :=
  match v with
  | CatFileRead => "file_read" | CatFileMutation => "file_mutation" | CatProcess => "process"
  | CatNetworkEgress => "network_egress" | CatNetworkListen => "network_listen"
  | CatCrossProcess => "cross_process" | CatNamespace => "namespace" | CatLlm => "llm"
  | CatSystem => "system" | CatOther => "other"
  end.

Definition destination_kind_name (v : DestinationKind) : string :=
  match v with
  | DestDomain => "domain" | DestHostPort => "host_port" | DestUrlOrigin => "url_origin"
  | DestUnixSocketClass => "unix_socket_class" | DestOther => "other"
  end.

Definition security_event_type_name (v : SecurityEventType) : string :=
  match v with SecQueue => "queue" | SecDeny => "deny" | SecCanary => "canary" | SecGap => "gap" end.

Definition resolution_status_name (v : ResolutionStatus) : string :=
  match v with
  | ResPending => "pending" | ResApproved => "approved" | ResDenied => "denied"
  | ResExpired => "expired" | ResEscalated => "escalated"
  end.

Record AuditConfigVersion := {
  cfg_profile_id : string;
  cfg_profile_version : string;
  cfg_config_hash : string;
  cfg_policy_version : string;
  cfg_auto_allow_threshold_micros : Z;
  cfg_auto_deny_threshold_micros : Z;
  cfg_queue_policy : string;
  cfg_team_default_config_version : string;
}.

Record AuditLlmPricing := {
  pr_cost_micros : N;
  pr_price_source : string;
  pr_pricing_version : string;
}.

Record AuditDestinationMetadata := {
  dm_kind : DestinationKind;
  dm_destination_hmac : string;
  dm_hmac_key_version : N;
  dm_approved_display_label : option string;
}.

Record AuditSecurityMetadata {D : Deps} := {
  sm_event_type : SecurityEventType;
  sm_event_revision : N;
  sm_resolution_status : option ResolutionStatus;
  sm_resolved_at : option DateTime;
  sm_resolution_code : option string;
  sm_enforcement_outcome_code : option string;
  sm_gap_count : option N;
}.

Record AuditAnalyticsMetadata {D : Deps} := {
  am_metadata_version : N;
  am_completeness : CompletenessTier;
  am_record_class : RecordClass;
  am_category : Category;
  am_config : AuditConfigVersion;
  am_filter_set_version : option N;
  am_llm_pricing : option AuditLlmPricing;
  am_destination : option AuditDestinationMetadata;
  am_security : option AuditSecurityMetadata;
}.

(** ** Records *)

Inductive RecordType := Full | Compact.

Definition RecordType_display (t : RecordType) : string :=
  match t with Full => "full" | Compact => "compact" end.

Definition RecordType_from_str_lenient (s : string) : RecordType :=
  if String.eqb s "compact" then Compact else Full.

Inductive ProxyActionSummary := ActionAllow | ActionQueue | ActionDeny.

Definition ProxyActionSummary_display (a : ProxyActionSummary) : string :=
  match a with ActionAllow => "allow" | ActionQueue => "queue" | ActionDeny => "deny" end.

Record FilterResultSummary := {
  frs_filter_name : string;
  frs_matched : bool;
  frs_score : f64;
  frs_rule_id : string;
  frs_severity : string;
  frs_message : string;
}.

Record AuditRecord {D : Deps} := {
  rec_id : Uuid;
  rec_timestamp : DateTime;
  rec_session_id : Uuid;
  rec_plugin_id : string;
  rec_tool_call_type : string;
  rec_arguments_summary : string;
  rec_arguments_hash : string;
  rec_composite_score : f64;
  rec_proxy_action : ProxyActionSummary;
  rec_decision_reason : option string;
  rec_enforcement_outcome : option string;
  rec_filter_results : list FilterResultSummary;
  rec_filter_scores : option (gmap string f64);
  rec_execution_result : option string;
  rec_evaluation_time_ms : f64;
  rec_task_context : option string;
  rec_source : string;
  rec_supervised_tool : option string;
  rec_supervised_pid : option N;
  rec_project_name : option string;
  rec_correlation_id : option Uuid;
  rec_record_hash : option string;
  rec_prev_hash : option string;
  rec_chain_sequence : option Z;
  rec_llm_provider : option string;
  rec_llm_model : option string;
  rec_prompt_tokens : option N;
  rec_completion_tokens : option N;
  rec_estimated_cost_usd : option f64;
  rec_spawn_sha256 : option string;
  rec_matched_routine_root : option string;
  rec_shadow_phase3_filters : option string;
  rec_original_addr : option string;
  rec_rewritten_addr : option string;
  rec_clamp_profile_entry : option string;
  rec_record_type : RecordType;
  rec_hash_version : N;
  rec_analytics_metadata : option AuditAnalyticsMetadata;
}.

Definition LEGACY_HASH_VERSION : N := 1.
Definition HASH_VERSION_V2 : N := 2.
Definition CURRENT_HASH_VERSION : N := 3.

(** ** Canonical forms *)

Section Hashing.
Context {D : Deps} {CH : Chrono} {FD : F64Display} {SH : Sha256}.
Local Open Scope canonical_scope.

(** The chain fields of a record. *)
Definition set_chain (r : AuditRecord) (seq : option Z) (prev hash : option string) : AuditRecord := {|
  rec_id := rec_id r; rec_timestamp := rec_timestamp r; rec_session_id := rec_session_id r;
  rec_plugin_id := rec_plugin_id r; rec_tool_call_type := rec_tool_call_type r;
  rec_arguments_summary := rec_arguments_summary r; rec_arguments_hash := rec_arguments_hash r;
  rec_composite_score := rec_composite_score r; rec_proxy_action := rec_proxy_action r;
  rec_decision_reason := rec_decision_reason r; rec_enforcement_outcome := rec_enforcement_outcome r;
  rec_filter_results := rec_filter_results r; rec_filter_scores := rec_filter_scores r;
  rec_execution_result := rec_execution_result r; rec_evaluation_time_ms := rec_evaluation_time_ms r;
  rec_task_context := rec_task_context r; rec_source := rec_source r;
  rec_supervised_tool := rec_supervised_tool r; rec_supervised_pid := rec_supervised_pid r;
  rec_project_name := rec_project_name r; rec_correlation_id := rec_correlation_id r;
  rec_record_hash := hash; rec_prev_hash := prev; rec_chain_sequence := seq;
  rec_llm_provider := rec_llm_provider r; rec_llm_model := rec_llm_model r;
  rec_prompt_tokens := rec_prompt_tokens r; rec_completion_tokens := rec_completion_tokens r;
  rec_estimated_cost_usd := rec_estimated_cost_usd r; rec_spawn_sha256 := rec_spawn_sha256 r;
  rec_matched_routine_root := rec_matched_routine_root r;
  rec_shadow_phase3_filters := rec_shadow_phase3_filters r; rec_original_addr := rec_original_addr r;
  rec_rewritten_addr := rec_rewritten_addr r; rec_clamp_profile_entry := rec_clamp_profile_entry r;
  rec_record_type := rec_record_type r; rec_hash_version := rec_hash_version r;
  rec_analytics_metadata := rec_analytics_metadata r |}.

Definition canonical_v1 (r : AuditRecord) : string :=
  join "|" [Uuid_to_string (rec_id r); to_rfc3339 (rec_timestamp r); Uuid_to_string (rec_session_id r);
    rec_plugin_id r; rec_tool_call_type r; rec_arguments_hash r; fmt_f64 (rec_composite_score r);
    ProxyActionSummary_display (rec_proxy_action r); default "GENESIS" (rec_prev_hash r)].

Definition compute_record_hash_v1 (r : AuditRecord) : string := sha256_hex (canonical_v1 r).

Definition write_filter_result (fr : FilterResultSummary) : Writer :=
  c_text "fr.filter_name" (frs_filter_name fr) ▷
  c_text "fr.matched" (if frs_matched fr then "1" else "0") ▷
  c_float "fr.score" (frs_score fr) ▷
  c_text "fr.rule_id" (frs_rule_id fr) ▷
  c_text "fr.severity" (frs_severity fr) ▷
  c_text "fr.message" (frs_message fr).

(** The entries of a hash map by key. *)
Definition key_le (a b : string * f64) : Prop := String.le a.1 b.1.
#[local] Instance key_le_dec a b : Decision (key_le a b).
Proof. unfold key_le. apply _. Defined.

Definition sorted_scores (scores : gmap string f64) : list (string * f64) :=
  merge_sort key_le (map_to_list scores).

Definition write_score (kv : string * f64) : Writer :=
  c_text "fs.key" kv.1 ▷ c_float "fs.score" kv.2.

Definition write_filter_scores (scores : option (gmap string f64)) : Writer :=
  match scores with
  | Some scores =>
      c_count "filter_scores" (length (sorted_scores scores)) ▷ c_each write_score (sorted_scores scores)
  | None => c_absent "filter_scores"
  end.

Definition write_cost (cost : option f64) : Writer :=
  match cost with
  | Some v => c_float "estimated_cost_usd" v
  | None => c_absent "estimated_cost_usd"
  end.

Definition body_v2 (r : AuditRecord) : Writer :=
  c_text "id" (Uuid_to_string (rec_id r)) ▷
  c_text "timestamp" (to_rfc3339 (rec_timestamp r)) ▷
  c_text "session_id" (Uuid_to_string (rec_session_id r)) ▷
  c_text "plugin_id" (rec_plugin_id r) ▷
  c_text "tool_call_type" (rec_tool_call_type r) ▷
  c_text "arguments_summary" (rec_arguments_summary r) ▷
  c_text "arguments_hash" (rec_arguments_hash r) ▷
  c_float "composite_score" (rec_composite_score r) ▷
  c_text "proxy_action" (ProxyActionSummary_display (rec_proxy_action r)) ▷
  c_opt_text "decision_reason" (rec_decision_reason r) ▷
  c_opt_text "enforcement_outcome" (rec_enforcement_outcome r) ▷
  (c_count "filter_results" (length (rec_filter_results r)) ▷
   c_each write_filter_result (rec_filter_results r)) ▷
  write_filter_scores (rec_filter_scores r) ▷
  c_opt_text "execution_result" (rec_execution_result r) ▷
  c_float "evaluation_time_ms" (rec_evaluation_time_ms r) ▷
  c_opt_text "task_context" (rec_task_context r) ▷
  c_text "source" (rec_source r) ▷
  c_opt_text "supervised_tool" (rec_supervised_tool r) ▷
  c_opt_text "supervised_pid" (fmt_N <$> rec_supervised_pid r) ▷
  c_opt_text "project_name" (rec_project_name r) ▷
  c_opt_text "correlation_id" (Uuid_to_string <$> rec_correlation_id r) ▷
  c_opt_text "prev_hash" (rec_prev_hash r) ▷
  c_opt_text "chain_sequence" (fmt_Z <$> rec_chain_sequence r) ▷
  c_opt_text "llm_provider" (rec_llm_provider r) ▷
  c_opt_text "llm_model" (rec_llm_model r) ▷
  c_opt_text "prompt_tokens" (fmt_N <$> rec_prompt_tokens r) ▷
  c_opt_text "completion_tokens" (fmt_N <$> rec_completion_tokens r) ▷
  write_cost (rec_estimated_cost_usd r) ▷
  c_opt_text "spawn_sha256" (rec_spawn_sha256 r) ▷
  c_opt_text "matched_routine_root" (rec_matched_routine_root r) ▷
  c_opt_text "shadow_phase3_filters" (rec_shadow_phase3_filters r) ▷
  c_opt_text "original_addr" (rec_original_addr r) ▷
  c_opt_text "rewritten_addr" (rec_rewritten_addr r) ▷
  c_opt_text "clamp_profile_entry" (rec_clamp_profile_entry r) ▷
  c_text "record_type" (RecordType_display (rec_record_type r)) ▷
  c_text "hash_version" (fmt_N (rec_hash_version r)).

Definition canonical_v2 (r : AuditRecord) : string :=
  body_v2 r (Canonical_new "grith-audit-record-v2").

Definition compute_record_hash_v2 (r : AuditRecord) : string := sha256_hex (canonical_v2 r).

Definition write_pricing (p : AuditLlmPricing) : Writer :=
  c_text "llm_pricing.present" "1" ▷
  c_text "llm_pricing.cost_micros" (fmt_N (pr_cost_micros p)) ▷
  c_text "llm_pricing.price_source" (pr_price_source p) ▷
  c_text "llm_pricing.pricing_version" (pr_pricing_version p).

Definition write_destination (d : AuditDestinationMetadata) : Writer :=
  c_text "destination.present" "1" ▷
  c_text "destination.kind" (destination_kind_name (dm_kind d)) ▷
  c_text "destination.hmac" (dm_destination_hmac d) ▷
  c_text "destination.key_version" (fmt_N (dm_hmac_key_version d)) ▷
  c_opt_text "destination.approved_display_label" (dm_approved_display_label d).

Definition write_security (s : AuditSecurityMetadata) : Writer :=
  c_text "security.present" "1" ▷
  c_text "security.event_type" (security_event_type_name (sm_event_type s)) ▷
  c_text "security.event_revision" (fmt_N (sm_event_revision s)) ▷
  c_opt_text "security.resolution_status" (resolution_status_name <$> sm_resolution_status s) ▷
  c_opt_text "security.resolved_at" (to_rfc3339 <$> sm_resolved_at s) ▷
  c_opt_text "security.resolution_code" (sm_resolution_code s) ▷
  c_opt_text "security.enforcement_outcome_code" (sm_enforcement_outcome_code s) ▷
  c_opt_text "security.gap_count" (fmt_N <$> sm_gap_count s).

Definition write_metadata (m : AuditAnalyticsMetadata) : Writer :=
  c_text "analytics_metadata.present" "1" ▷
  c_text "metadata_version" (fmt_N (am_metadata_version m)) ▷
  c_text "completeness" (completeness_name (am_completeness m)) ▷
  c_text "record_class" (record_class_name (am_record_class m)) ▷
  c_text "category" (category_name (am_category m)) ▷
  c_text "config.profile_id" (cfg_profile_id (am_config m)) ▷
  c_text "config.profile_version" (cfg_profile_version (am_config m)) ▷
  c_text "config.config_hash" (cfg_config_hash (am_config m)) ▷
  c_text "config.policy_version" (cfg_policy_version (am_config m)) ▷
  c_text "config.auto_allow_threshold_micros" (fmt_Z (cfg_auto_allow_threshold_micros (am_config m))) ▷
  c_text "config.auto_deny_threshold_micros" (fmt_Z (cfg_auto_deny_threshold_micros (am_config m))) ▷
  c_text "config.queue_policy" (cfg_queue_policy (am_config m)) ▷
  c_text "config.team_default_config_version" (cfg_team_default_config_version (am_config m)) ▷
  c_opt_text "filter_set_version" (fmt_N <$> am_filter_set_version m) ▷
  match am_llm_pricing m with Some p => write_pricing p | None => c_absent "llm_pricing" end ▷
  match am_destination m with Some d => write_destination d | None => c_absent "destination" end ▷
  match am_security m with Some s => write_security s | None => c_absent "security" end.

Definition body_v3 (r : AuditRecord) : Writer :=
  c_text "v2_canonical_digest" (compute_record_hash_v2 r) ▷
  match rec_analytics_metadata r with
  | Some m => write_metadata m
  | None => c_absent "analytics_metadata"
  end.

Definition canonical_v3 (r : AuditRecord) : string :=
  body_v3 r (Canonical_new "grith-audit-record-v3").

Definition compute_record_hash_v3 (r : AuditRecord) : string := sha256_hex (canonical_v3 r).

Definition compute_record_hash (r : AuditRecord) : string :=
  if N.eqb (rec_hash_version r) LEGACY_HASH_VERSION then compute_record_hash_v1 r
  else if N.eqb (rec_hash_version r) HASH_VERSION_V2 then compute_record_hash_v2 r
  else if N.eqb (rec_hash_version r) CURRENT_HASH_VERSION then compute_record_hash_v3 r
  else "UNSUPPORTED_HASH_VERSION:" +:+ fmt_N (rec_hash_version r).

(** ** Building records *)

(** [AuditRecord::new] and [new_compact]: the identity, the instant and the text of
    the arguments come from [uuid], [chrono] and [serde_json]. *)
Definition DEFAULT_SUMMARY_LIMIT : nat := 256.
Definition SPAWN_SUMMARY_LIMIT : nat := 4096.

(** The first byte of a character in UTF-8. *)
Definition is_char_start (c : ascii) : bool :=
  negb ((128 <=? N_of_ascii c) && (N_of_ascii c <? 192))%N.

(** The indices of the characters of a text. *)
Fixpoint char_indices (i : nat) (s : string) : list nat :=
  match s with
  | EmptyString => []
  | String c s' => if is_char_start c then i :: char_indices (S i) s' else char_indices (S i) s'
  end.

Fixpoint take_while {A} (p : A → bool) (l : list A) : list A :=
  match l with
  | x :: l' => if p x then x :: take_while p l' else []
  | [] => []
  end.

Definition summarize_arguments_with_limit (s : string) (limit : nat) : string :=
  if (limit <? String.length s)%nat then
    let target := limit - 3 in
    let truncate_at := default 0 (last (take_while (λ i, (i <=? target)%nat) (char_indices 0 s))) in
    substring 0 truncate_at s +:+ "..."
  else s.

Definition summarize_arguments (s : string) : string :=
  summarize_arguments_with_limit s DEFAULT_SUMMARY_LIMIT.

Definition base_record (i : Uuid) (now : DateTime) (session_id : Uuid) (plugin_id tool_call_type
    arguments : string) (action : ProxyActionSummary) (record_type : RecordType) (score : f64)
    (filter_results : list FilterResultSummary) (filter_scores : option (gmap string f64))
    (evaluation_time_ms : f64) (task_context : option string) : AuditRecord := {|
  rec_id := i; rec_timestamp := now; rec_session_id := session_id; rec_plugin_id := plugin_id;
  rec_tool_call_type := tool_call_type; rec_arguments_summary := summarize_arguments arguments;
  rec_arguments_hash := sha256_hex arguments; rec_composite_score := score;
  rec_proxy_action := action; rec_decision_reason := None; rec_enforcement_outcome := None;
  rec_filter_results := filter_results; rec_filter_scores := filter_scores;
  rec_execution_result := None; rec_evaluation_time_ms := evaluation_time_ms;
  rec_task_context := task_context; rec_source := "wasm"; rec_supervised_tool := None;
  rec_supervised_pid := None; rec_project_name := None; rec_correlation_id := None;
  rec_record_hash := None; rec_prev_hash := None; rec_chain_sequence := None;
  rec_llm_provider := None; rec_llm_model := None; rec_prompt_tokens := None;
  rec_completion_tokens := None; rec_estimated_cost_usd := None; rec_spawn_sha256 := None;
  rec_matched_routine_root := None; rec_shadow_phase3_filters := None; rec_original_addr := None;
  rec_rewritten_addr := None; rec_clamp_profile_entry := None; rec_record_type := record_type;
  rec_hash_version := CURRENT_HASH_VERSION; rec_analytics_metadata := None |}.

(** The last result of a filter gives its score. *)
Definition AuditRecord_new (i : Uuid) (now : DateTime) (session_id : Uuid) (plugin_id tool_call_type
    arguments : string) (composite_score : f64) (action : ProxyActionSummary)
    (filter_results : list FilterResultSummary) (evaluation_time_ms : f64)
    (task_context : option string) : AuditRecord :=
  let filter_scores :=
    match filter_results with
    | [] => None
    | _ => Some (fold_left (λ m fr, <[frs_filter_name fr := frs_score fr]> m) filter_results ∅)
    end in
  base_record i now session_id plugin_id tool_call_type arguments action Full composite_score
    filter_results filter_scores evaluation_time_ms task_context.

Definition AuditRecord_new_compact (i : Uuid) (now : DateTime) (session_id : Uuid)
    (plugin_id tool_call_type arguments : string) (action : ProxyActionSummary) : AuditRecord :=
  base_record i now session_id plugin_id tool_call_type arguments action Compact f64_zero
    [] None f64_zero None.
End Hashing.

(** What the code relies on in [chrono]: the text of an instant reads back. *)
Class ChronoLaws `{Chrono} : Prop :=
  rfc3339_round_trip : ∀ t, parse_from_rfc3339 (to_rfc3339 t) = Some t.

(** ** What a hash covers *)

Section Coverage.
Context {D : Deps} {CH : Chrono} {FD : F64Display} {SH : Sha256}.

(** [with_analytics_metadata]. *)
Definition set_metadata (r : AuditRecord) (m : option AuditAnalyticsMetadata) : AuditRecord := {|
  rec_id := rec_id r; rec_timestamp := rec_timestamp r; rec_session_id := rec_session_id r;
  rec_plugin_id := rec_plugin_id r; rec_tool_call_type := rec_tool_call_type r;
  rec_arguments_summary := rec_arguments_summary r; rec_arguments_hash := rec_arguments_hash r;
  rec_composite_score := rec_composite_score r; rec_proxy_action := rec_proxy_action r;
  rec_decision_reason := rec_decision_reason r; rec_enforcement_outcome := rec_enforcement_outcome r;
  rec_filter_results := rec_filter_results r; rec_filter_scores := rec_filter_scores r;
  rec_execution_result := rec_execution_result r; rec_evaluation_time_ms := rec_evaluation_time_ms r;
  rec_task_context := rec_task_context r; rec_source := rec_source r;
  rec_supervised_tool := rec_supervised_tool r; rec_supervised_pid := rec_supervised_pid r;
  rec_project_name := rec_project_name r; rec_correlation_id := rec_correlation_id r;
  rec_record_hash := rec_record_hash r; rec_prev_hash := rec_prev_hash r;
  rec_chain_sequence := rec_chain_sequence r;
  rec_llm_provider := rec_llm_provider r; rec_llm_model := rec_llm_model r;
  rec_prompt_tokens := rec_prompt_tokens r; rec_completion_tokens := rec_completion_tokens r;
  rec_estimated_cost_usd := rec_estimated_cost_usd r; rec_spawn_sha256 := rec_spawn_sha256 r;
  rec_matched_routine_root := rec_matched_routine_root r;
  rec_shadow_phase3_filters := rec_shadow_phase3_filters r; rec_original_addr := rec_original_addr r;
  rec_rewritten_addr := rec_rewritten_addr r; rec_clamp_profile_entry := rec_clamp_profile_entry r;
  rec_record_type := rec_record_type r; rec_hash_version := rec_hash_version r;
  rec_analytics_metadata := m |}.

Definition with_analytics_metadata (r : AuditRecord) (m : AuditAnalyticsMetadata) : AuditRecord :=
  set_metadata r (Some m).

(** A record but for its own hash; and but for its metadata too. *)
Definition evidence (r : AuditRecord) : AuditRecord :=
  set_chain r (rec_chain_sequence r) (rec_prev_hash r) None.
Definition evidence_v2 (r : AuditRecord) : AuditRecord := set_metadata (evidence r) None.

(** The floats of a record are floats of the machine. *)
Definition result_valid (fr : FilterResultSummary) : Prop := f64_valid (frs_score fr) = true.
Definition scores_valid (m : gmap string f64) : Prop := map_Forall (λ _ x, f64_valid x = true) m.

Record record_valid (r : AuditRecord) : Prop := {
  rv_score : f64_valid (rec_composite_score r) = true;
  rv_time : f64_valid (rec_evaluation_time_ms r) = true;
  rv_cost : ∀ x, rec_estimated_cost_usd r = Some x → f64_valid x = true;
  rv_results : Forall result_valid (rec_filter_results r);
  rv_scores : ∀ m, rec_filter_scores r = Some m → scores_valid m;
}.

End Coverage.

#[local] Opaque float_text.

Create HintDb delimits discriminated.
#[export] Hint Resolve delimits_text delimits_float : delimits.
#[export] Hint Extern 2 (Delimits (λ a, c_opt_text _ _) _) => (apply delimits_opt_text; reflexivity) : delimits.
#[export] Hint Extern 3 (Delimits (λ a, c_then _ _) _) => (apply delimits_then) : delimits.

Ltac delimits := typeclasses eauto with delimits.

Section Commitment.
Context {D : Deps} {CH : Chrono} {FD : F64Display} {SH : Sha256}.

Lemma fmap_inj_on {A B} (P : A → Prop) (f : A → B) l l' :
  (∀ x y, P x → P y → f x = f y → x = y) → Forall P l → Forall P l' →
  f <$> l = f <$> l' → l = l'.
Proof.
  intros Hf Hl. revert l'. induction Hl as [|x l Hx _ IH]; intros [|y l'] Hl' H; try done.
  apply Forall_cons in Hl' as [Hy Hl']. cbn in H. injection H as Hxy H.
  f_equal; [by apply Hf|by apply IH].
Qed.

Definition filter_result_view (fr : FilterResultSummary) :=
  (frs_filter_name fr, ((if frs_matched fr then "1" else "0"), (float_text (frs_score fr),
    (frs_rule_id fr, (frs_severity fr, frs_message fr))))).

Lemma delimits_filter_result : Delimits write_filter_result filter_result_view.
Proof. unfold write_filter_result, filter_result_view. delimits. Qed.

Lemma filter_result_view_inj x y :
  result_valid x → result_valid y → filter_result_view x = filter_result_view y → x = y.
Proof.
  destruct x, y. unfold result_valid, filter_result_view. cbn. intros Hx Hy.
  rewrite !pair_equal_spec. intros (-> & Hm & Hs & -> & -> & ->).
  apply float_text_inj in Hs as ->; [|done..].
  f_equal. by repeat case_match.
Qed.

Definition score_view (kv : string * f64) := (kv.1, float_text kv.2).

Lemma delimits_filter_scores (v : AuditRecord → option (gmap string f64)) :
  Delimits (λ a, write_filter_scores (v a)) (λ a, (λ m, score_view <$> sorted_scores m) <$> v a).
Proof.
  unfold write_filter_scores.
  apply (delimits_match "filter_scores" v
    (λ m, c_then (c_count "filter_scores" (length (sorted_scores m))) (c_each write_score (sorted_scores m)))
    (λ m, score_view <$> sorted_scores m)); [|done|].
  - apply delimits_list. unfold write_score, score_view. delimits.
  - intros m. apply starts_then; [done|apply _].
Qed.

Lemma sorted_scores_perm m : sorted_scores m ≡ₚ map_to_list m.
Proof. apply merge_sort_Permutation. Qed.

Lemma sorted_scores_inj m m' :
  scores_valid m → scores_valid m' →
  score_view <$> sorted_scores m = score_view <$> sorted_scores m' → m = m'.
Proof.
  intros Hm Hm' H.
  assert (∀ k, scores_valid k → Forall (λ kv, f64_valid kv.2 = true) (sorted_scores k)) as Hall.
  { intros k Hk. apply Forall_forall. intros [n x].
    rewrite sorted_scores_perm, elem_of_map_to_list. apply Hk. }
  apply (fmap_inj_on (λ kv, f64_valid kv.2 = true)) in H; [|idtac|by apply Hall..].
  - apply map_to_list_inj. rewrite <- (sorted_scores_perm m), H. apply sorted_scores_perm.
  - intros [n x] [n' x'] Hx Hx'. unfold score_view. cbn. rewrite pair_equal_spec. intros [-> Hf].
    by apply float_text_inj in Hf as ->.
Qed.

Lemma delimits_cost (v : AuditRecord → option f64) :
  Delimits (λ a, write_cost (v a)) (λ a, float_text <$> v a).
Proof.
  unfold write_cost. apply (delimits_match "estimated_cost_usd" v); [apply (delimits_float _ id)|done|].
  intros x. by apply starts_text.
Qed.

Lemma delimits_results (v : AuditRecord → list FilterResultSummary) :
  Delimits (λ a, c_then (c_count "filter_results" (length (v a))) (c_each write_filter_result (v a)))
    (λ a, filter_result_view <$> v a).
Proof. apply delimits_list, delimits_filter_result. Qed.

(** The fields of a record as the second canonical form shows them. *)
Definition view_v2 (r : AuditRecord) :=
  (Uuid_to_string (rec_id r),
  (to_rfc3339 (rec_timestamp r),
  (Uuid_to_string (rec_session_id r),
  (rec_plugin_id r,
  (rec_tool_call_type r,
  (rec_arguments_summary r,
  (rec_arguments_hash r,
  (float_text (rec_composite_score r),
  (ProxyActionSummary_display (rec_proxy_action r),
  (rec_decision_reason r,
  (rec_enforcement_outcome r,
  (filter_result_view <$> rec_filter_results r,
  ((λ m, score_view <$> sorted_scores m) <$> rec_filter_scores r,
  (rec_execution_result r,
  (float_text (rec_evaluation_time_ms r),
  (rec_task_context r,
  (rec_source r,
  (rec_supervised_tool r,
  (fmt_N <$> rec_supervised_pid r,
  (rec_project_name r,
  (Uuid_to_string <$> rec_correlation_id r,
  (rec_prev_hash r,
  (fmt_Z <$> rec_chain_sequence r,
  (rec_llm_provider r,
  (rec_llm_model r,
  (fmt_N <$> rec_prompt_tokens r,
  (fmt_N <$> rec_completion_tokens r,
  (float_text <$> rec_estimated_cost_usd r,
  (rec_spawn_sha256 r,
  (rec_matched_routine_root r,
  (rec_shadow_phase3_filters r,
  (rec_original_addr r,
  (rec_rewritten_addr r,
  (rec_clamp_profile_entry r,
  (RecordType_display (rec_record_type r),
   fmt_N (rec_hash_version r)))))))))))))))))))))))))))))))))))).

Lemma delimits_body_v2 : Delimits body_v2 view_v2.
Proof.
  unfold body_v2, view_v2.
  repeat first
    [ apply delimits_text | apply delimits_float | apply delimits_filter_scores | apply delimits_cost
    | (apply delimits_opt_text; reflexivity)
    | (apply delimits_then; [first [apply delimits_results | idtac]|]) ].
Qed.

Context {DL : DepsLaws} {CL : ChronoLaws}.

#[export] Instance to_rfc3339_inj : Inj (=) (=) to_rfc3339.
Proof.
  intros x y Hxy. apply (f_equal parse_from_rfc3339) in Hxy.
  rewrite !rfc3339_round_trip in Hxy. congruence.
Qed.

Lemma option_fmap_inj_on {A B} (P : A → Prop) (f : A → B) (x y : option A) :
  (∀ a b, P a → P b → f a = f b → a = b) → (∀ a, x = Some a → P a) → (∀ a, y = Some a → P a) →
  f <$> x = f <$> y → x = y.
Proof.
  intros Hf Hx Hy. destruct x as [a|], y as [b|]; cbn; intros Hxy; try done.
  injection Hxy as Hxy. f_equal. apply Hf; auto.
Qed.

Lemma ProxyActionSummary_display_inj a b :
  ProxyActionSummary_display a = ProxyActionSummary_display b → a = b.
Proof. by destruct a, b. Qed.

Lemma RecordType_display_inj a b : RecordType_display a = RecordType_display b → a = b.
Proof. by destruct a, b. Qed.

Lemma view_v2_inj a b :
  record_valid a → record_valid b → view_v2 a = view_v2 b → evidence_v2 a = evidence_v2 b.
Proof.
  intros [A1 A2 A3 A4 A5] [B1 B2 B3 B4 B5]. destruct a, b. unfold view_v2. cbn in *.
  intros Hv. repeat match type of Hv with (_, _) = (_, _) => apply pair_equal_spec in Hv as [? Hv] end.
  repeat match goal with
  | H : Uuid_to_string _ = Uuid_to_string _ |- _ => apply (inj Uuid_to_string) in H
  | H : to_rfc3339 _ = to_rfc3339 _ |- _ => apply (inj to_rfc3339) in H
  | H : float_text _ = float_text _ |- _ => apply float_text_inj in H; [|done..]
  | H : fmt_N _ = fmt_N _ |- _ => apply (inj fmt_N) in H
  | H : fmt_N <$> _ = fmt_N <$> _ |- _ => apply (inj (fmap fmt_N)) in H
  | H : fmt_Z <$> _ = fmt_Z <$> _ |- _ => apply (inj (fmap fmt_Z)) in H
  | H : Uuid_to_string <$> _ = _ |- _ => apply (inj (fmap Uuid_to_string)) in H
  | H : ProxyActionSummary_display _ = _ |- _ => apply ProxyActionSummary_display_inj in H
  | H : RecordType_display _ = _ |- _ => apply RecordType_display_inj in H
  | H : float_text <$> _ = _ |- _ => apply (option_fmap_inj_on _ _ _ _ float_text_inj A3 B3) in H
  | H : filter_result_view <$> _ = _ |- _ =>
      apply (fmap_inj_on _ _ _ _ filter_result_view_inj A4 B4) in H
  | H : _ <$> _ = _ <$> _ |- _ => apply (option_fmap_inj_on _ _ _ _ sorted_scores_inj A5 B5) in H
  end.
  subst. reflexivity.
Qed.

(** *** The analytics envelope *)

Definition view_pricing (p : AuditLlmPricing) :=
  ("1", (fmt_N (pr_cost_micros p), (pr_price_source p, pr_pricing_version p))).
Definition view_destination (d : AuditDestinationMetadata) :=
  ("1", (destination_kind_name (dm_kind d), (dm_destination_hmac d,
    (fmt_N (dm_hmac_key_version d), dm_approved_display_label d)))).
Definition view_security (s : AuditSecurityMetadata) :=
  ("1", (security_event_type_name (sm_event_type s), (fmt_N (sm_event_revision s),
    (resolution_status_name <$> sm_resolution_status s, (to_rfc3339 <$> sm_resolved_at s,
    (sm_resolution_code s, (sm_enforcement_outcome_code s, fmt_N <$> sm_gap_count s))))))).
Definition view_metadata (m : AuditAnalyticsMetadata) :=
  ("1", (fmt_N (am_metadata_version m), (completeness_name (am_completeness m),
    (record_class_name (am_record_class m), (category_name (am_category m),
    (cfg_profile_id (am_config m), (cfg_profile_version (am_config m),
    (cfg_config_hash (am_config m), (cfg_policy_version (am_config m),
    (fmt_Z (cfg_auto_allow_threshold_micros (am_config m)),
    (fmt_Z (cfg_auto_deny_threshold_micros (am_config m)), (cfg_queue_policy (am_config m),
    (cfg_team_default_config_version (am_config m), (fmt_N <$> am_filter_set_version m,
    (view_pricing <$> am_llm_pricing m, (view_destination <$> am_destination m,
    view_security <$> am_security m)))))))))))))))).

Lemma delimits_metadata : Delimits write_metadata view_metadata.
Proof.
  unfold write_metadata, view_metadata.
  repeat first [ apply delimits_text | (apply delimits_opt_text; reflexivity)
    | apply delimits_then | apply delimits_match; [|done|intros ?; apply starts_then; [done|apply _]] ].
Qed.

(** Take the equations of two equal views apart. *)
Ltac split_view Hv :=
  repeat match type of Hv with (_, _) = (_, _) => apply pair_equal_spec in Hv as [? Hv] end.

Lemma enum_names_inj :
  Inj (=) (=) completeness_name ∧ Inj (=) (=) record_class_name ∧ Inj (=) (=) category_name ∧
  Inj (=) (=) destination_kind_name ∧ Inj (=) (=) security_event_type_name ∧
  Inj (=) (=) resolution_status_name.
Proof. repeat split; intros [] []; done. Qed.

#[local] Instance view_pricing_inj : Inj (=) (=) view_pricing.
Proof.
  intros [] [] Hv. unfold view_pricing in Hv. cbn in Hv. split_view Hv.
  repeat match goal with H : fmt_N _ = fmt_N _ |- _ => apply (inj fmt_N) in H end. by subst.
Qed.

#[local] Instance view_destination_inj : Inj (=) (=) view_destination.
Proof.
  destruct enum_names_inj as (_ & _ & _ & Hd & _).
  intros [] [] Hv. unfold view_destination in Hv. cbn in Hv. split_view Hv.
  repeat match goal with
  | H : fmt_N _ = fmt_N _ |- _ => apply (inj fmt_N) in H
  | H : destination_kind_name _ = _ |- _ => apply Hd in H
  end. by subst.
Qed.

#[local] Instance view_security_inj : Inj (=) (=) view_security.
Proof.
  destruct enum_names_inj as (_ & _ & _ & _ & He & Hr).
  intros [] [] Hv. unfold view_security in Hv. cbn in Hv. split_view Hv.
  repeat match goal with
  | H : fmt_N _ = fmt_N _ |- _ => apply (inj fmt_N) in H
  | H : security_event_type_name _ = _ |- _ => apply He in H
  | H : resolution_status_name <$> _ = _ |- _ => apply (inj (fmap resolution_status_name)) in H
  | H : to_rfc3339 <$> _ = _ |- _ => apply (inj (fmap to_rfc3339)) in H
  | H : fmt_N <$> _ = _ |- _ => apply (inj (fmap fmt_N)) in H
  end. by subst.
Qed.

#[local] Instance view_metadata_inj : Inj (=) (=) view_metadata.
Proof.
  destruct enum_names_inj as (Hc & Hr & Hcat & _).
  intros [???? [] ????] [???? [] ????] Hv. unfold view_metadata in Hv. cbn in Hv. split_view Hv.
  repeat match goal with
  | H : fmt_N _ = fmt_N _ |- _ => apply (inj fmt_N) in H
  | H : fmt_Z _ = fmt_Z _ |- _ => apply (inj fmt_Z) in H
  | H : completeness_name _ = _ |- _ => apply Hc in H
  | H : record_class_name _ = _ |- _ => apply Hr in H
  | H : category_name _ = _ |- _ => apply Hcat in H
  | H : fmt_N <$> _ = _ |- _ => apply (inj (fmap fmt_N)) in H
  | H : view_pricing <$> _ = _ |- _ => apply (inj (fmap view_pricing)) in H
  | H : view_destination <$> _ = _ |- _ => apply (inj (fmap view_destination)) in H
  | H : view_security <$> _ = _ |- _ => apply (inj (fmap view_security)) in H
  end. by subst.
Qed.

(** *** Hashes commit *)

(** A canonical text is its domain and what the writer appends. *)
Lemma canonical_new_inj domain (w w' : Writer) :
  Appends w → Appends w' → w (Canonical_new domain) = w' (Canonical_new domain) → w "" = w' "".
Proof.
  intros Hw Hw'. rewrite (Hw (Canonical_new _)), (Hw' (Canonical_new _)). intros H.
  by apply append_inj_length in H as [_ H].
Qed.

Lemma view_of_canonical {A B} (w : A → Writer) (p : A → B) domain a b :
  Delimits w p → w a (Canonical_new domain) = w b (Canonical_new domain) → p a = p b.
Proof.
  intros [Ha Hi] H. apply canonical_new_inj in H; [|done..].
  apply (Hi a b "" ""). by rewrite !append_nil_r.
Qed.

Lemma hash_v2_commits a b :
  record_valid a → record_valid b → compute_record_hash_v2 a = compute_record_hash_v2 b →
  evidence_v2 a = evidence_v2 b ∨ collision.
Proof.
  intros Ha Hb Hh. apply sha256_hex_inj in Hh as [Hh|Hc]; [left|by right].
  apply view_v2_inj; [done..|]. by apply (view_of_canonical _ _ _ _ _ delimits_body_v2) in Hh.
Qed.

Lemma delimits_body_v3 :
  Delimits body_v3 (λ r, (compute_record_hash_v2 r, view_metadata <$> rec_analytics_metadata r)).
Proof.
  unfold body_v3. apply delimits_then; [apply delimits_text|].
  apply delimits_match; [apply delimits_metadata|done|].
  intros m. apply starts_then; [done|apply _].
Qed.

Lemma evidence_split a b :
  evidence_v2 a = evidence_v2 b → rec_analytics_metadata a = rec_analytics_metadata b →
  evidence a = evidence b.
Proof.
  destruct a, b. unfold evidence_v2, evidence, set_metadata, set_chain. cbn. intros Hab ->.
  injection Hab; intros; subst; reflexivity.
Qed.

Lemma hash_v3_commits a b :
  record_valid a → record_valid b → compute_record_hash_v3 a = compute_record_hash_v3 b →
  evidence a = evidence b ∨ collision.
Proof.
  intros Ha Hb Hh. apply sha256_hex_inj in Hh as [Hh|Hc]; [|by right].
  apply (view_of_canonical _ _ _ _ _ delimits_body_v3) in Hh.
  apply pair_equal_spec in Hh as [H2 Hm]. apply (inj (fmap view_metadata)) in Hm.
  apply hash_v2_commits in H2 as [H2|Hc]; [left|by right|done..]. by apply evidence_split.
Qed.

(** *** The forms are apart *)

Lemma canonical_v1_head r : ∃ c t, canonical_v1 r = String c t ∧ uuid_char c = true.
Proof.
  unfold canonical_v1. cbn [join]. pose proof (Uuid_to_string_chars (rec_id r)) as Hc.
  pose proof (Uuid_to_string_length (rec_id r)) as Hl.
  destruct (Uuid_to_string (rec_id r)) as [|c u]; [done|]. cbn in Hc.
  apply andb_true_iff in Hc as [Hc _]. by eexists c, _.
Qed.

Lemma canonical_v2_form r : canonical_v2 r = "grith-audit-record-v2" +:+ String REC_SEP (body_v2 r "").
Proof.
  unfold canonical_v2. rewrite (delimits_appends (Delimits := delimits_body_v2) r (Canonical_new _)).
  unfold Canonical_new. by rewrite append_assoc.
Qed.

Lemma canonical_v3_form r : canonical_v3 r = "grith-audit-record-v3" +:+ String REC_SEP (body_v3 r "").
Proof.
  unfold canonical_v3. rewrite (delimits_appends (Delimits := delimits_body_v3) r (Canonical_new _)).
  unfold Canonical_new. by rewrite append_assoc.
Qed.

Lemma v1_v2_apart a b : canonical_v1 a ≠ canonical_v2 b.
Proof.
  destruct (canonical_v1_head a) as (c & t & -> & Hc).
  rewrite canonical_v2_form. by intros [= -> _].
Qed.

Lemma v1_v3_apart a b : canonical_v1 a ≠ canonical_v3 b.
Proof.
  destruct (canonical_v1_head a) as (c & t & -> & Hc).
  rewrite canonical_v3_form. by intros [= -> _].
Qed.

Lemma v2_v3_apart a b : canonical_v2 a ≠ canonical_v3 b.
Proof.
  rewrite canonical_v2_form, canonical_v3_form. intros H.
  by apply append_inj_length in H as [H _].
Qed.

(** What the hash of a record fixes, by version. *)
Definition committed (a b : AuditRecord) : Prop :=
  rec_hash_version a = rec_hash_version b ∧
  (rec_hash_version a = LEGACY_HASH_VERSION → canonical_v1 a = canonical_v1 b) ∧
  (rec_hash_version a = HASH_VERSION_V2 → evidence_v2 a = evidence_v2 b) ∧
  (rec_hash_version a = CURRENT_HASH_VERSION → evidence a = evidence b).

Definition supported (r : AuditRecord) : Prop :=
  rec_hash_version r = LEGACY_HASH_VERSION ∨ rec_hash_version r = HASH_VERSION_V2 ∨
  rec_hash_version r = CURRENT_HASH_VERSION.

(** The canonical form of a record of a supported version. *)
Definition canonical (r : AuditRecord) : string :=
  if N.eqb (rec_hash_version r) LEGACY_HASH_VERSION then canonical_v1 r
  else if N.eqb (rec_hash_version r) HASH_VERSION_V2 then canonical_v2 r
  else canonical_v3 r.

Lemma supported_hash r : supported r → compute_record_hash r = sha256_hex (canonical r).
Proof.
  unfold supported, compute_record_hash, canonical. intros Hs.
  destruct Hs as [-> | [-> | ->]]; done.
Qed.

Lemma unsupported_hash a b :
  supported a → compute_record_hash a = compute_record_hash b → supported b.
Proof.
  intros Ha. rewrite (supported_hash a Ha). unfold compute_record_hash, supported.
  destruct (N.eqb_spec (rec_hash_version b) LEGACY_HASH_VERSION); [by left|].
  destruct (N.eqb_spec (rec_hash_version b) HASH_VERSION_V2); [by right; left|].
  destruct (N.eqb_spec (rec_hash_version b) CURRENT_HASH_VERSION); [by right; right|].
  intros Hh. pose proof (hex_of_bytes_is_hex (sha256 (canonical a))) as Hx.
  unfold sha256_hex in Hh. by rewrite Hh in Hx.
Qed.

Lemma same_version a b :
  supported a → supported b → canonical a = canonical b → rec_hash_version a = rec_hash_version b.
Proof.
  unfold canonical. intros [Ha|[Ha|Ha]] [Hb|[Hb|Hb]]; rewrite Ha, Hb; cbn; try done; intros H; exfalso.
  - exact (v1_v2_apart _ _ H).
  - exact (v1_v3_apart _ _ H).
  - exact (v1_v2_apart _ _ (eq_sym H)).
  - exact (v2_v3_apart _ _ H).
  - exact (v1_v3_apart _ _ (eq_sym H)).
  - exact (v2_v3_apart _ _ (eq_sym H)).
Qed.

Lemma hash_commits a b :
  supported a → record_valid a → record_valid b →
  compute_record_hash a = compute_record_hash b → committed a b ∨ collision.
Proof.
  intros Sa Va Vb Hh. pose proof (unsupported_hash a b Sa Hh) as Sb.
  assert (canonical a = canonical b ∨ collision) as [Hc|Hc]; [|idtac|by right].
  { rewrite !supported_hash in Hh by done. by apply sha256_hex_inj in Hh. }
  pose proof (same_version a b Sa Sb Hc) as Hv. unfold committed. unfold canonical in Hc.
  unfold compute_record_hash in Hh. rewrite <- Hv in Hh, Hc.
  destruct Sa as [E|[E|E]]; rewrite E in Hh, Hc; cbn in Hh, Hc.
  - left. by rewrite Hv in E; rewrite Hv, E.
  - apply hash_v2_commits in Hh as [Hh|?]; [left|by right|done..]. by rewrite Hv in E; rewrite Hv, E.
  - apply hash_v3_commits in Hh as [Hh|?]; [left|by right|done..]. by rewrite Hv in E; rewrite Hv, E.
Qed.

(** Every version fixes the link to the predecessor. *)
Definition prev_text (r : AuditRecord) : string := default "GENESIS" (rec_prev_hash r).

Lemma after_last_app c a b : after_last c (a +:+ String c b) = after_last c b.
Proof.
  unfold after_last. rewrite split_on_sep. pose proof (split_on_nonempty c b) as Hne.
  destruct (last (split_on c b)) as [x|] eqn:E.
  - by rewrite last_app, E.
  - by apply last_None in E.
Qed.

Lemma canonical_v1_prev r : lacks "|" (prev_text r) = true → after_last "|" (canonical_v1 r) = prev_text r.
Proof.
  intros Hl. unfold canonical_v1. cbn [join]. fold (prev_text r).
  do 8 (change ("|" +:+ ?x) with (String "|" x); rewrite after_last_app). by apply after_last_lacks.
Qed.

Lemma committed_prev a b :
  supported a → lacks "|" (prev_text a) = true → lacks "|" (prev_text b) = true →
  committed a b → prev_text a = prev_text b.
Proof.
  intros [E|[E|E]] La Lb (_ & H1 & H2 & H3).
  - rewrite <- (canonical_v1_prev a La), <- (canonical_v1_prev b Lb). by rewrite H1.
  - specialize (H2 E). apply (f_equal rec_prev_hash) in H2. unfold prev_text. cbn in H2. by rewrite H2.
  - specialize (H3 E). apply (f_equal rec_prev_hash) in H3. unfold prev_text. cbn in H3. by rewrite H3.
Qed.

(** The hash of a record commits to it.  Two records of which the first has a
    known version and whose hashes agree have the same version; under version 3 they
    agree in every field but the hash itself, under version 2 in every field but the
    hash and the analytics envelope, and under version 1 in the nine joined texts --
    or two texts with the same SHA-256 are exhibited. *)
Theorem record_hash_commits a b :
  supported a → record_valid a → record_valid b →
  compute_record_hash a = compute_record_hash b →
  (rec_hash_version a = rec_hash_version b ∧
   (rec_hash_version a = CURRENT_HASH_VERSION → evidence a = evidence b) ∧
   (rec_hash_version a = HASH_VERSION_V2 → evidence_v2 a = evidence_v2 b) ∧
   (rec_hash_version a = LEGACY_HASH_VERSION → canonical_v1 a = canonical_v1 b)) ∨ collision.
Proof.
  intros Sa Va Vb Hh. destruct (hash_commits a b Sa Va Vb Hh) as [(?&?&?&?)|?]; [left|by right].
  repeat split; assumption.
Qed.

(** The second half of the digest of an unknown version is not a digest: no
    hash of a known version equals it. *)
Lemma unsupported_is_no_hash a b :
  supported a → ¬ supported b → compute_record_hash a ≠ compute_record_hash b.
Proof. intros Sa Sb Hh. by apply Sb, (unsupported_hash a b). Qed.

End Commitment.

(** ** A concrete instance *)

Definition audit_chrono : @Chrono concrete_deps :=
  Build_Chrono concrete_deps (λ t : Z, to_text t) (λ s, of_text (A := Z) s) Z.sub.

Lemma audit_chrono_laws : @ChronoLaws concrete_deps audit_chrono.
Proof. intros t. apply of_to_text. Qed.

Definition audit_fmt : F64Display := to_text.

(** A digest with collisions: the decimal text of a polynomial hash. *)
Definition toy_sha256 : Sha256 := λ s,
  fmt_N (fold_left (λ acc c, (acc * 131 + N_of_ascii c + 1) mod (2 ^ 61 - 1))%N
           (list_ascii_of_string s) 7%N).

Section Concrete.
#[local] Existing Instances concrete_deps concrete_deps_laws audit_chrono audit_chrono_laws audit_fmt toy_sha256.

Definition example_record (i : Uuid) (summary : string) : AuditRecord :=
  AuditRecord_new i (100%Z : DateTime) uuid_b "codex" "FileRead" summary (f64_of_Z 3) ActionQueue
    [{| frs_filter_name := "path"; frs_matched := true; frs_score := f64_of_Z 3; frs_rule_id := "r";
        frs_severity := "warning"; frs_message := "m" |}] (f64_dec 5 1) None.

Lemma example_record_valid i s : record_valid (example_record i s).
Proof.
  split; [reflexivity|reflexivity|discriminate| |].
  - repeat constructor.
  - intros m [= <-]. intros k x. cbn. rewrite insert_empty, lookup_singleton_Some. intros [_ <-]. reflexivity.
Qed.

(** A record and the same one once it has its hash. *)
Lemma record_hash_commits_witness :
  let a := example_record uuid_a "{}" in
  let b := set_chain a None None (Some (compute_record_hash a)) in
  (rec_hash_version a = rec_hash_version b ∧
   (rec_hash_version a = CURRENT_HASH_VERSION → evidence a = evidence b) ∧
   (rec_hash_version a = HASH_VERSION_V2 → evidence_v2 a = evidence_v2 b) ∧
   (rec_hash_version a = LEGACY_HASH_VERSION → canonical_v1 a = canonical_v1 b)) ∨ collision.
Proof.
  apply (record_hash_commits (example_record uuid_a "{}")).
  - right. right. reflexivity.
  - apply example_record_valid.
  - destruct (example_record_valid uuid_a "{}"). by split.
  - reflexivity.
Defined.

(** One field changed, another hash. *)
Example summary_is_covered :
  String.eqb (compute_record_hash (example_record uuid_a "{}"))
    (compute_record_hash (example_record uuid_a "{ }")) = false.
Proof. vm_compute. reflexivity. Qed.

Example long_summary :
  summarize_arguments_with_limit "abcdefghij" 8 = "abcde..." ∧
  summarize_arguments_with_limit "abcd" 8 = "abcd" ∧
  summarize_arguments_with_limit "abcdefghij" 2 = "...".
Proof. repeat split; vm_compute; reflexivity. Qed.

End Concrete.
