(* ===== verification/AuditRow.v ===== *)
(** * The rows of the audit log

    How a record is kept in the table [audit_log] and read back:
    [execute_insert] of [grith-audit/src/storage.rs], [row_to_record] of
    [record_parser.rs] and the compression of the three large columns of
    [compression.rs].  SQLite keeps the texts and the integers of a row; its reals,
    [serde_json], [zstd] and [uuid]'s parser are parameters. *)

From Stdlib Require Import Ascii String ZArith Lia SpecFloat.
From S2P Require Import Prelude Concrete F64 Canonical Types Reputation DbusWire AuditRecord.

#[local] Arguments String.append !_ _ / : simpl nomatch.

(** ** What the rows are written with *)

(** [f64::is_finite]. *)
Definition is_finite (x : f64) : bool :=
  match x with S754_zero _ | S754_finite _ _ _ => true | _ => false end.

Class AuditCodec {D : Deps} := {
  parse_uuid : string → option Uuid;
  nil_uuid : Uuid;
  filter_results_to_json : list FilterResultSummary → string;
  filter_results_from_json : string → option (list FilterResultSummary);
  filter_scores_to_json : gmap string f64 → string;
  filter_scores_from_json : string → option (gmap string f64);
  metadata_to_json : AuditAnalyticsMetadata → string;
  metadata_from_json : string → option AuditAnalyticsMetadata;
  zstd_encode_all : string → option string;
  zstd_decode_all : string → option string;
  (** What a REAL column gives back for a float; a NaN is kept as NULL. *)
  stored_real : f64 → option f64;
}.

Definition utf8 (s : string) : bool := utf8_valid (list_byte_of_string s).

(** zstd's magic number, bytes 28 B5 2F FD. *)
Definition ZSTD_MAGIC : string := byte_string [40; 181; 47; 253]%N.
Definition COMPRESS_THRESHOLD : nat := 256.

(** JSON has no infinities and no NaN. *)
Class AuditCodecLaws `{AuditCodec} : Prop := {
  uuid_parse_round_trip : ∀ u, parse_uuid (Uuid_to_string u) = Some u;
  filter_results_round_trip : ∀ l, Forall (λ fr, is_finite (frs_score fr) = true) l →
    filter_results_from_json (filter_results_to_json l) = Some l;
  filter_scores_round_trip : ∀ m, map_Forall (λ _ x, is_finite x = true) m →
    filter_scores_from_json (filter_scores_to_json m) = Some m;
  metadata_round_trip : ∀ m, metadata_from_json (metadata_to_json m) = Some m;
  json_utf8 : ∀ l m, utf8 (filter_results_to_json l) = true ∧ utf8 (filter_scores_to_json m) = true;
  zstd_round_trip : ∀ s c, zstd_encode_all s = Some c →
    starts_with ZSTD_MAGIC c = true ∧ zstd_decode_all c = Some s;
  stored_real_finite : ∀ x, is_finite x = true → x ≠ f64_neg_zero → stored_real x = Some x;
}.

(** ** Compression *)

Section Compression.
Context {D : Deps} {AC : AuditCodec}.

Definition compress_string (s : string) : string :=
  if (String.length s <? COMPRESS_THRESHOLD)%nat then s
  else match zstd_encode_all s with
       | Some compressed => if (String.length compressed <? String.length s)%nat then compressed else s
       | None => s
       end.

Definition is_compressed (bytes : string) : bool := starts_with ZSTD_MAGIC bytes.

Definition decompress_string (bytes : string) : result string :=
  if is_compressed bytes then
    match zstd_decode_all bytes with
    | None => Err "I/O error: zstd"
    | Some decoded =>
        if utf8 decoded then Ok decoded else Err "compressed audit column was not valid UTF-8"
    end
  else if utf8 bytes then Ok bytes else Err "plaintext audit column was not valid UTF-8".

End Compression.

(** ** Rows *)

(** The columns of [audit_log].  The bytes of a TEXT and of a BLOB are not told
    apart: every reader takes both. *)
Record AuditRow := {
  col_id : string;
  col_timestamp : string;
  col_session_id : string;
  col_plugin_id : string;
  col_tool_call_type : string;
  col_arguments_summary : string;
  col_arguments_hash : string;
  col_composite_score : f64;
  col_proxy_action : string;
  col_filter_results : string;
  col_filter_scores : option string;
  col_execution_result : option string;
  col_evaluation_time_ms : f64;
  col_task_context : option string;
  col_source : string;
  col_supervised_tool : option string;
  col_supervised_pid : option Z;
  col_correlation_id : option string;
  col_record_hash : option string;
  col_prev_hash : option string;
  col_chain_sequence : option Z;
  col_llm_provider : option string;
  col_llm_model : option string;
  col_prompt_tokens : option Z;
  col_completion_tokens : option Z;
  col_estimated_cost_usd : option f64;
  col_spawn_sha256 : option string;
  col_matched_routine_root : option string;
  col_shadow_phase3_filters : option string;
  col_original_addr : option string;
  col_rewritten_addr : option string;
  col_clamp_profile_entry : option string;
  col_record_type : option string;
  col_project_name : option string;
  col_decision_reason : option string;
  col_enforcement_outcome : option string;
  col_hash_version : option Z;
  col_analytics_metadata : option string;
  col_synced_at : option string;
}.

(** [as i64] and [as usize]. *)
Definition as_i64 (n : Z) : Z := ((n + 2 ^ 63) mod 2 ^ 64 - 2 ^ 63)%Z.

Section Rows.
Context {D : Deps} {CH : Chrono} {AC : AuditCodec}.

(** The values [execute_insert] binds; [None] when a column that may not be NULL
    would be. *)
Definition record_to_row (r : AuditRecord) : result AuditRow :=
  match stored_real (rec_composite_score r), stored_real (rec_evaluation_time_ms r) with
  | None, _ => Err "database error: NOT NULL constraint failed: audit_log.composite_score"
  | _, None => Err "database error: NOT NULL constraint failed: audit_log.evaluation_time_ms"
  | Some score, Some time => Ok {|
      col_id := Uuid_to_string (rec_id r);
      col_timestamp := to_rfc3339 (rec_timestamp r);
      col_session_id := Uuid_to_string (rec_session_id r);
      col_plugin_id := rec_plugin_id r;
      col_tool_call_type := rec_tool_call_type r;
      col_arguments_summary := compress_string (rec_arguments_summary r);
      col_arguments_hash := rec_arguments_hash r;
      col_composite_score := score;
      col_proxy_action := ProxyActionSummary_display (rec_proxy_action r);
      col_filter_results := compress_string (filter_results_to_json (rec_filter_results r));
      col_filter_scores := (λ m, compress_string (filter_scores_to_json m)) <$> rec_filter_scores r;
      col_execution_result := rec_execution_result r;
      col_evaluation_time_ms := time;
      col_task_context := rec_task_context r;
      col_source := rec_source r;
      col_supervised_tool := rec_supervised_tool r;
      col_supervised_pid := Z.of_N <$> rec_supervised_pid r;
      col_correlation_id := Uuid_to_string <$> rec_correlation_id r;
      col_record_hash := rec_record_hash r;
      col_prev_hash := rec_prev_hash r;
      col_chain_sequence := rec_chain_sequence r;
      col_llm_provider := rec_llm_provider r;
      col_llm_model := rec_llm_model r;
      col_prompt_tokens := (λ v, as_i64 (Z.of_N v)) <$> rec_prompt_tokens r;
      col_completion_tokens := (λ v, as_i64 (Z.of_N v)) <$> rec_completion_tokens r;
      col_estimated_cost_usd := x ← rec_estimated_cost_usd r; stored_real x;
      col_spawn_sha256 := rec_spawn_sha256 r;
      col_matched_routine_root := rec_matched_routine_root r;
      col_shadow_phase3_filters := rec_shadow_phase3_filters r;
      col_original_addr := rec_original_addr r;
      col_rewritten_addr := rec_rewritten_addr r;
      col_clamp_profile_entry := rec_clamp_profile_entry r;
      col_record_type := Some (RecordType_display (rec_record_type r));
      col_project_name := rec_project_name r;
      col_decision_reason := rec_decision_reason r;
      col_enforcement_outcome := rec_enforcement_outcome r;
      col_hash_version := Some (Z.of_N (rec_hash_version r));
      col_analytics_metadata := metadata_to_json <$> rec_analytics_metadata r;
      col_synced_at := None |}
  end.

Definition proxy_action_lenient (s : string) : ProxyActionSummary :=
  if String.eqb s "allow" then ActionAllow else if String.eqb s "queue" then ActionQueue
  else if String.eqb s "deny" then ActionDeny else ActionAllow.

(** An optional text read by a parser that may refuse it. *)
Definition parse_opt {A} (error : string) (f : string → option A) (o : option string) : result (option A) :=
  match o with
  | None => Ok None
  | Some s => match f s with Some a => Ok (Some a) | None => Err error end
  end.

(** [u32] and [u8] of a 64-bit integer. *)
Definition to_u32 (v : Z) : option N :=
  if ((0 <=? v) && (v <? 2 ^ 32))%Z then Some (Z.to_N v) else None.
Definition to_u8 (v : Z) : option N :=
  if ((0 <=? v) && (v <? 2 ^ 8))%Z then Some (Z.to_N v) else None.

(** [row_to_record]; a corrupt UUID becomes the nil one and a corrupt instant the
    present. *)
Definition row_to_record (now : DateTime) (row : AuditRow) : result AuditRecord :=
  filter_results_json ← decompress_string (col_filter_results row);
  filter_results ← match filter_results_from_json filter_results_json with
                   | Some l => Ok l | None => Err "serialization error: filter_results" end;
  filter_scores_json ← match col_filter_scores row with
                       | None => Ok None
                       | Some blob => s ← decompress_string blob; Ok (Some s) end;
  filter_scores ← parse_opt "serialization error: filter_scores" filter_scores_from_json filter_scores_json;
  arguments_summary ← decompress_string (col_arguments_summary row);
  supervised_pid ← match col_supervised_pid row with
                   | None => Ok None
                   | Some v => match to_u32 v with Some p => Ok (Some p)
                               | None => Err "database error: integer out of range" end end;
  metadata ← parse_opt "serialization error: analytics_metadata" metadata_from_json (col_analytics_metadata row);
  Ok {|
    rec_id := default nil_uuid (parse_uuid (col_id row));
    rec_timestamp := default now (parse_from_rfc3339 (col_timestamp row));
    rec_session_id := default nil_uuid (parse_uuid (col_session_id row));
    rec_plugin_id := col_plugin_id row;
    rec_tool_call_type := col_tool_call_type row;
    rec_arguments_summary := arguments_summary;
    rec_arguments_hash := col_arguments_hash row;
    rec_composite_score := col_composite_score row;
    rec_proxy_action := proxy_action_lenient (col_proxy_action row);
    rec_decision_reason := col_decision_reason row;
    rec_enforcement_outcome := col_enforcement_outcome row;
    rec_filter_results := filter_results;
    rec_filter_scores := filter_scores;
    rec_execution_result := col_execution_result row;
    rec_evaluation_time_ms := col_evaluation_time_ms row;
    rec_task_context := col_task_context row;
    rec_source := col_source row;
    rec_supervised_tool := col_supervised_tool row;
    rec_supervised_pid := supervised_pid;
    rec_project_name := col_project_name row;
    rec_correlation_id := s ← col_correlation_id row; parse_uuid s;
    rec_record_hash := col_record_hash row;
    rec_prev_hash := col_prev_hash row;
    rec_chain_sequence := col_chain_sequence row;
    rec_llm_provider := col_llm_provider row;
    rec_llm_model := col_llm_model row;
    rec_prompt_tokens := (λ v, Z.to_N (as_u64 v)) <$> col_prompt_tokens row;
    rec_completion_tokens := (λ v, Z.to_N (as_u64 v)) <$> col_completion_tokens row;
    rec_estimated_cost_usd := col_estimated_cost_usd row;
    rec_spawn_sha256 := col_spawn_sha256 row;
    rec_matched_routine_root := col_matched_routine_root row;
    rec_shadow_phase3_filters := col_shadow_phase3_filters row;
    rec_original_addr := col_original_addr row;
    rec_rewritten_addr := col_rewritten_addr row;
    rec_clamp_profile_entry := col_clamp_profile_entry row;
    rec_record_type := default Full (RecordType_from_str_lenient <$> col_record_type row);
    rec_hash_version := default LEGACY_HASH_VERSION (v ← col_hash_version row; to_u8 v);
    rec_analytics_metadata := metadata |}.

End Rows.

(** ** Reading back what was written *)

(** A finite float that SQLite keeps. *)
Definition kept (x : f64) : Prop := is_finite x = true ∧ x ≠ f64_neg_zero.

Section RoundTrip.
Context {D : Deps} {CH : Chrono} {AC : AuditCodec}.

(** A record whose columns hold it: its numbers fit and JSON has its scores. *)
Record storable (r : AuditRecord) : Prop := {
  st_score : kept (rec_composite_score r);
  st_time : kept (rec_evaluation_time_ms r);
  st_cost : ∀ x, rec_estimated_cost_usd r = Some x → kept x;
  st_results : Forall (λ fr, is_finite (frs_score fr) = true) (rec_filter_results r);
  st_scores : ∀ m, rec_filter_scores r = Some m → map_Forall (λ _ x, is_finite x = true) m;
  st_summary : utf8 (rec_arguments_summary r) = true;
  st_pid : ∀ p, rec_supervised_pid r = Some p → (p < 2 ^ 32)%N;
  st_prompt : ∀ n, rec_prompt_tokens r = Some n → (n < 2 ^ 64)%N;
  st_completion : ∀ n, rec_completion_tokens r = Some n → (n < 2 ^ 64)%N;
  st_version : (rec_hash_version r < 2 ^ 8)%N;
}.

Context {DL : DepsLaws} {CL : ChronoLaws} {ACL : AuditCodecLaws}.

Lemma magic_not_utf8 s : starts_with ZSTD_MAGIC s = true → utf8 s = false.
Proof.
  intros [t ->]%starts_with_spec. unfold utf8.
  change (list_byte_of_string (ZSTD_MAGIC +:+ t))
    with ([Byte.x28; Byte.xb5; Byte.x2f; Byte.xfd] ++ list_byte_of_string t).
  by destruct (list_byte_of_string t).
Qed.

Lemma compress_round_trip s : utf8 s = true → decompress_string (compress_string s) = Ok s.
Proof.
  intros Hs. assert (Hraw : decompress_string s = Ok s).
  { unfold decompress_string, is_compressed. destruct (starts_with ZSTD_MAGIC s) eqn:E.
    - apply magic_not_utf8 in E. congruence.
    - by rewrite Hs. }
  unfold compress_string. destruct (_ <? _)%nat; [done|].
  destruct (zstd_encode_all s) as [c|] eqn:E; [|done]. destruct (_ <? _)%nat; [|done].
  apply zstd_round_trip in E as [Hm Hd]. unfold decompress_string, is_compressed. by rewrite Hm, Hd, Hs.
Qed.

Lemma kept_stored x : kept x → stored_real x = Some x.
Proof. intros [Hf Hz]. by apply stored_real_finite. Qed.

Lemma tokens_round_trip n : (n < 2 ^ 64)%N → Z.to_N (as_u64 (as_i64 (Z.of_N n))) = n.
Proof.
  intros Hn. unfold as_u64, as_i64.
  rewrite Zminus_mod_idemp_l. replace (Z.of_N n + 2 ^ 63 - 2 ^ 63)%Z with (Z.of_N n) by lia.
  rewrite Z.mod_small by lia. lia.
Qed.

Lemma option_tokens_round_trip (o : option N) :
  (∀ n, o = Some n → (n < 2 ^ 64)%N) →
  (λ v, Z.to_N (as_u64 v)) <$> ((λ v, as_i64 (Z.of_N v)) <$> o) = o.
Proof. destruct o as [n|]; [|done]. cbn. intros Hn. rewrite tokens_round_trip by auto. done. Qed.

Lemma scores_column (o : option (gmap string f64)) :
  match (λ m, compress_string (filter_scores_to_json m)) <$> o with
  | None => Ok None
  | Some blob => s ← decompress_string blob; Ok (Some s)
  end = Ok (filter_scores_to_json <$> o).
Proof. destruct o as [m|]; [cbn|done]. by rewrite compress_round_trip by apply (json_utf8 []). Qed.

Lemma parse_opt_map {A} e (f : string → option A) (g : A → string) (o : option A) :
  (∀ a, o = Some a → f (g a) = Some a) → parse_opt e f (g <$> o) = Ok o.
Proof. destruct o as [a|]; [cbn|done]. intros H. by rewrite H. Qed.

Lemma pid_column (o : option N) :
  (∀ p, o = Some p → (p < 2 ^ 32)%N) →
  match Z.of_N <$> o with
  | None => Ok None
  | Some v => match to_u32 v with Some p => Ok (Some p) | None => Err "database error: integer out of range" end
  end = Ok o.
Proof.
  destruct o as [p|]; [cbn|done]. intros Hp. specialize (Hp p eq_refl). unfold to_u32.
  rewrite (proj2 (Z.leb_le _ _)), (proj2 (Z.ltb_lt _ _)) by lia. cbn. by rewrite N2Z.id.
Qed.

Lemma version_column n : (n < 2 ^ 8)%N → to_u8 (Z.of_N n) = Some n.
Proof.
  intros Hn. unfold to_u8. rewrite (proj2 (Z.leb_le _ _)), (proj2 (Z.ltb_lt _ _)) by lia.
  cbn. by rewrite N2Z.id.
Qed.

Lemma cost_column (o : option f64) : (∀ x, o = Some x → kept x) → o ≫= stored_real = o.
Proof. destruct o as [x|]; [cbn|done]. intros Hx. by apply kept_stored, Hx. Qed.

Lemma correlation_column (o : option Uuid) : (Uuid_to_string <$> o) ≫= parse_uuid = o.
Proof. destruct o as [u|]; [cbn|done]. apply uuid_parse_round_trip. Qed.

Lemma action_column a : proxy_action_lenient (ProxyActionSummary_display a) = a.
Proof. by destruct a. Qed.

Lemma type_column t : RecordType_from_str_lenient (RecordType_display t) = t.
Proof. by destruct t. Qed.

Lemma persist_column now r :
  storable r → ∃ row, record_to_row r = Ok row ∧ row_to_record now row = Ok r.
Proof.
  intros []. eexists. unfold record_to_row. rewrite !kept_stored by done.
  split; [reflexivity|]. unfold row_to_record. cbn [col_filter_results col_filter_scores
    col_arguments_summary col_supervised_pid col_analytics_metadata].
  rewrite (compress_round_trip (filter_results_to_json _)) by apply (json_utf8 _ ∅). cbn [mbind result_bind].
  rewrite filter_results_round_trip by done. cbn [mbind result_bind].
  rewrite scores_column. cbn [mbind result_bind].
  rewrite (parse_opt_map _ filter_scores_from_json) by (intros; apply filter_scores_round_trip; auto). cbn [mbind result_bind].
  rewrite compress_round_trip, pid_column by done. cbn [mbind result_bind].
  rewrite (parse_opt_map _ metadata_from_json) by (intros; apply metadata_round_trip). cbn.
  rewrite !uuid_parse_round_trip, rfc3339_round_trip, !option_tokens_round_trip by done.
  rewrite action_column, type_column, correlation_column, cost_column, version_column by done.
  by destruct r.
Qed.

(** C32: what [execute_insert] writes, [row_to_record] reads back unchanged: every one
    of the columns, the compressed and the cast ones included. *)
Theorem persist_round_trip now r :
  storable r → ∃ row, record_to_row r = Ok row ∧ row_to_record now row = Ok r.
Proof. apply persist_column. Qed.

End RoundTrip.

(** ** A concrete codec *)

#[export] Instance CompletenessTier_eq_dec : EqDecision CompletenessTier. Proof. solve_decision. Defined.
#[export] Instance RecordClass_eq_dec : EqDecision RecordClass. Proof. solve_decision. Defined.
#[export] Instance Category_eq_dec : EqDecision Category. Proof. solve_decision. Defined.
#[export] Instance DestinationKind_eq_dec : EqDecision DestinationKind. Proof. solve_decision. Defined.
#[export] Instance SecurityEventType_eq_dec : EqDecision SecurityEventType. Proof. solve_decision. Defined.
#[export] Instance ResolutionStatus_eq_dec : EqDecision ResolutionStatus. Proof. solve_decision. Defined.

(** An enumeration by its names. *)
Definition by_name {A} (name : A → string) (all : list A) (s : string) : option A :=
  List.find (λ v, String.eqb (name v) s) all.

#[export] Program Instance CompletenessTier_countable : Countable CompletenessTier :=
  inj_countable completeness_name (by_name completeness_name [TierDecisions; TierSpawns; TierIo; TierAll]) _.
Next Obligation. by intros []. Qed.
#[export] Program Instance RecordClass_countable : Countable RecordClass :=
  inj_countable record_class_name (by_name record_class_name
    [ClassDecision; ClassRoutineSpawn; ClassRoutineIo; ClassNoise; ClassLlmUsage; ClassSystem]) _.
Next Obligation. by intros []. Qed.
#[export] Program Instance Category_countable : Countable Category :=
  inj_countable category_name (by_name category_name
    [CatFileRead; CatFileMutation; CatProcess; CatNetworkEgress; CatNetworkListen; CatCrossProcess;
     CatNamespace; CatLlm; CatSystem; CatOther]) _.
Next Obligation. by intros []. Qed.
#[export] Program Instance DestinationKind_countable : Countable DestinationKind :=
  inj_countable destination_kind_name (by_name destination_kind_name
    [DestDomain; DestHostPort; DestUrlOrigin; DestUnixSocketClass; DestOther]) _.
Next Obligation. by intros []. Qed.
#[export] Program Instance SecurityEventType_countable : Countable SecurityEventType :=
  inj_countable security_event_type_name (by_name security_event_type_name [SecQueue; SecDeny; SecCanary; SecGap]) _.
Next Obligation. by intros []. Qed.
#[export] Program Instance ResolutionStatus_countable : Countable ResolutionStatus :=
  inj_countable resolution_status_name (by_name resolution_status_name
    [ResPending; ResApproved; ResDenied; ResExpired; ResEscalated]) _.
Next Obligation. by intros []. Qed.

#[export] Instance FilterResultSummary_eq_dec : EqDecision FilterResultSummary. Proof. solve_decision. Defined.
#[export] Program Instance FilterResultSummary_countable : Countable FilterResultSummary :=
  inj_countable' (λ f, (frs_filter_name f, frs_matched f, frs_score f, frs_rule_id f, frs_severity f, frs_message f))
    (λ '(n, m, s, r, v, t), Build_FilterResultSummary n m s r v t) _.
Next Obligation. by intros []. Qed.

#[export] Instance AuditConfigVersion_eq_dec : EqDecision AuditConfigVersion. Proof. solve_decision. Defined.
#[export] Program Instance AuditConfigVersion_countable : Countable AuditConfigVersion :=
  inj_countable' (λ c, (cfg_profile_id c, cfg_profile_version c, cfg_config_hash c, cfg_policy_version c,
      cfg_auto_allow_threshold_micros c, cfg_auto_deny_threshold_micros c, cfg_queue_policy c,
      cfg_team_default_config_version c))
    (λ '(a, b, c, d, e, f, g, h), Build_AuditConfigVersion a b c d e f g h) _.
Next Obligation. by intros []. Qed.
#[export] Instance AuditLlmPricing_eq_dec : EqDecision AuditLlmPricing. Proof. solve_decision. Defined.
#[export] Program Instance AuditLlmPricing_countable : Countable AuditLlmPricing :=
  inj_countable' (λ p, (pr_cost_micros p, pr_price_source p, pr_pricing_version p))
    (λ '(a, b, c), Build_AuditLlmPricing a b c) _.
Next Obligation. by intros []. Qed.
#[export] Instance AuditDestinationMetadata_eq_dec : EqDecision AuditDestinationMetadata. Proof. solve_decision. Defined.
#[export] Program Instance AuditDestinationMetadata_countable : Countable AuditDestinationMetadata :=
  inj_countable' (λ d, (dm_kind d, dm_destination_hmac d, dm_hmac_key_version d, dm_approved_display_label d))
    (λ '(a, b, c, d), Build_AuditDestinationMetadata a b c d) _.
Next Obligation. by intros []. Qed.

Definition concrete_security : Type := @AuditSecurityMetadata concrete_deps.
Definition concrete_metadata : Type := @AuditAnalyticsMetadata concrete_deps.
#[export] Instance Z_datetime_eq_dec : EqDecision (DateTime (Deps := concrete_deps)) := Z.eq_dec.
#[export] Instance concrete_security_eq_dec : EqDecision concrete_security. Proof. solve_decision. Defined.
#[export] Program Instance concrete_security_countable : Countable concrete_security :=
  inj_countable' (λ s : concrete_security, (sm_event_type s, sm_event_revision s, sm_resolution_status s,
      (sm_resolved_at s : option Z), sm_resolution_code s, sm_enforcement_outcome_code s, sm_gap_count s))
    (λ '(a, b, c, d, e, f, g), Build_AuditSecurityMetadata concrete_deps a b c d e f g) _.
Next Obligation. by intros []. Qed.
#[export] Instance concrete_metadata_eq_dec : EqDecision concrete_metadata. Proof. solve_decision. Defined.
#[export] Program Instance concrete_metadata_countable : Countable concrete_metadata :=
  inj_countable' (λ m : concrete_metadata, (am_metadata_version m, am_completeness m, am_record_class m,
      am_category m, am_config m, am_filter_set_version m, am_llm_pricing m, am_destination m,
      (am_security m : option concrete_security)))
    (λ '(a, b, c, d, e, f, g, h, i), Build_AuditAnalyticsMetadata concrete_deps a b c d e f g h i) _.
Next Obligation. by intros []. Qed.

Lemma positive_text_utf8 p : utf8 (positive_text p) = true.
Proof. unfold utf8. induction p as [p IH|p IH|]; cbn; [exact IH|exact IH|done]. Qed.

(** Infinities and NaN are not written; a frame is the text behind the magic number;
    a zero loses its sign. *)
Definition concrete_audit_codec : @AuditCodec concrete_deps := {|
  parse_uuid := concrete_uuid : string → option (Uuid (Deps := concrete_deps));
  nil_uuid := uuid_b;
  filter_results_to_json l := to_text l;
  filter_results_from_json s := of_text s;
  filter_scores_to_json m := to_text m;
  filter_scores_from_json s := of_text s;
  metadata_to_json m := to_text (A := concrete_metadata) m;
  metadata_from_json s := of_text (A := concrete_metadata) s;
  zstd_encode_all s := Some (ZSTD_MAGIC +:+ s);
  zstd_decode_all s := strip_prefix ZSTD_MAGIC s;
  stored_real x := match x with
                   | S754_nan => None
                   | S754_zero _ => Some f64_zero
                   | _ => Some x
                   end;
|}.

Lemma concrete_audit_codec_laws : @AuditCodecLaws concrete_deps concrete_audit_codec.
Proof.
  split; cbn.
  - apply concrete_uuid_round_trip.
  - intros l _. apply of_to_text.
  - intros m _. apply of_to_text.
  - intros m. apply (of_to_text (A := concrete_metadata)).
  - intros l m. split; apply positive_text_utf8.
  - intros s c [= <-]. split; [exact (starts_with_app ZSTD_MAGIC s)|exact (strip_prefix_app ZSTD_MAGIC s)].
  - intros [[]| | |]; cbn; try done.
Qed.

Section Concrete.
#[local] Existing Instances concrete_deps concrete_deps_laws audit_chrono audit_chrono_laws audit_fmt toy_sha256
  concrete_audit_codec concrete_audit_codec_laws.

Lemma example_storable i s : utf8 (summarize_arguments s) = true → storable (example_record i s).
Proof.
  intros Hs. split; cbn; try done.
  - repeat constructor.
  - intros m [= <-] k x. rewrite insert_empty, lookup_singleton_Some. intros [_ <-]. reflexivity.
Qed.

Lemma persist_round_trip_witness :
  ∃ row, record_to_row (example_record uuid_a "{}") = Ok row ∧
    row_to_record (200%Z : DateTime) row = Ok (example_record uuid_a "{}").
Proof. apply persist_round_trip. apply example_storable. reflexivity. Defined.

(** A NaN does not fit the table, and a negative zero does not survive it. *)
Example nan_refused :
  match record_to_row (AuditRecord_new uuid_a (1%Z : DateTime) uuid_b "p" "FileRead" "{}" S754_nan
    ActionAllow [] f64_zero None) with Ok _ => false | Err _ => true end = true.
Proof. vm_compute. reflexivity. Qed.

End Concrete.
