(* ===== verification/AuditChain.v ===== *)
(** * The audit chain

    [grith-audit/src/storage.rs]: the table of audit records as a hash chain.
    Appending, backfilling, repairing and pruning rows, the checkpoint and the
    archive boundary kept beside them, and the verification of the chain.

    The table is the list of its rows in the order of insertion; SQLite's
    transactions, its PRIMARY KEY and the partial UNIQUE index on [chain_sequence] are
    modelled by what they refuse.  Sequences are 64-bit: they wrap. *)

From Stdlib Require Import Ascii String ZArith Lia SpecFloat.
From stdpp Require Import sorting.
From S2P Require Import Prelude Concrete F64 Canonical Types Reputation DbusWire AuditRecord AuditRow.

(** ** Outcomes *)

Inductive AuditError :=
  | Database (constraint : bool) (message : string)
  | RowError (message : string)
  | Serialization (message : string)
  | ChainQuarantined (reason : string)
  | ChannelClosed
  | ChannelFull
  | Archive (message : string).

Definition is_unique_sequence_violation (e : AuditError) : bool :=
  match e with Database true msg => contains "chain_sequence" msg | _ => false end.

(** What the message of a break is formatted from. *)
Inductive BreakReason :=
  | NoChainSequence
  | NonContiguous (expected found : Z)
  | PrevHashMismatch (expected found : option string)
  | RecordHashMismatch (stored : option string) (computed : string)
  | NonCanonicalRecordType (raw canonical : string)
  | NonCanonicalProxyAction (raw canonical : string).

Inductive ChainVerification {D : Deps} :=
  | Valid (record_count : Z)
  | Broken (at_sequence : Z) (record_id : Uuid) (reason : BreakReason)
  | Empty
  | Unanchored (first_sequence : Z)
  | AnchorMismatch (boundary_sequence : Z) (expected_prev_hash : string)
      (found_prev_hash : option string) (first_sequence : Z).

Definition is_healthy `{Deps} (v : ChainVerification) : bool :=
  match v with Valid _ | Empty => true | _ => false end.

Definition is_tamper_evidence `{Deps} (v : ChainVerification) : bool :=
  match v with Broken _ _ _ | AnchorMismatch _ _ _ _ => true | _ => false end.

Record ChainCheckpoint := {
  ck_sequence : Z;
  ck_record_hash : option string;
}.

Record ArchiveBoundary {D : Deps} := {
  ab_sequence : Z;
  ab_record_hash : string;
  ab_updated_at : DateTime;
}.

Inductive AnchorResolution {D : Deps} :=
  | Genesis
  | Anchored (boundary : ArchiveBoundary)
  | Unresolved (outcome : ChainVerification).

(** ** Storage *)

(** The values of [chain_metadata] are JSON texts: [Err] is a text that does not
    parse. *)
Record AuditStorage {D : Deps} := {
  as_rows : list AuditRow;
  as_verified_head : option (result ChainCheckpoint);
  as_archive_boundary : option (result ArchiveBoundary);
  as_verify_cache : option ChainVerification;
  as_unique_sequence_index : bool;
  as_quarantine : option string;
  as_read_only : bool;
}.

Section Chain.
Context {D : Deps} {CH : Chrono} {FD : F64Display} {SH : Sha256} {AC : AuditCodec}.

Definition set_rows (rows : list AuditRow) (st : AuditStorage) : AuditStorage := {|
  as_rows := rows; as_verified_head := as_verified_head st;
  as_archive_boundary := as_archive_boundary st; as_verify_cache := as_verify_cache st;
  as_unique_sequence_index := as_unique_sequence_index st; as_quarantine := as_quarantine st;
  as_read_only := as_read_only st |}.

Definition set_checkpoint (c : option (result ChainCheckpoint)) (st : AuditStorage) : AuditStorage := {|
  as_rows := as_rows st; as_verified_head := c;
  as_archive_boundary := as_archive_boundary st; as_verify_cache := as_verify_cache st;
  as_unique_sequence_index := as_unique_sequence_index st; as_quarantine := as_quarantine st;
  as_read_only := as_read_only st |}.

Definition set_boundary (b : ArchiveBoundary) (st : AuditStorage) : AuditStorage := {|
  as_rows := as_rows st; as_verified_head := as_verified_head st;
  as_archive_boundary := Some (Ok b); as_verify_cache := as_verify_cache st;
  as_unique_sequence_index := as_unique_sequence_index st; as_quarantine := as_quarantine st;
  as_read_only := as_read_only st |}.

Definition set_cache (c : option ChainVerification) (st : AuditStorage) : AuditStorage := {|
  as_rows := as_rows st; as_verified_head := as_verified_head st;
  as_archive_boundary := as_archive_boundary st; as_verify_cache := c;
  as_unique_sequence_index := as_unique_sequence_index st; as_quarantine := as_quarantine st;
  as_read_only := as_read_only st |}.

Definition set_quarantined (reason : option string) (st : AuditStorage) : AuditStorage := {|
  as_rows := as_rows st; as_verified_head := as_verified_head st;
  as_archive_boundary := as_archive_boundary st; as_verify_cache := as_verify_cache st;
  as_unique_sequence_index := as_unique_sequence_index st; as_quarantine := reason;
  as_read_only := as_read_only st |}.

Definition is_quarantined (st : AuditStorage) : bool :=
  match as_quarantine st with Some _ => true | None => false end.

Definition invalidate_verify_cache : AuditStorage → AuditStorage := set_cache None.

(** ** Queries *)

(** The chained rows in the order of their sequences. *)
Definition seq_le (a b : Z * AuditRow) : Prop := (a.1 <= b.1)%Z.
#[export] Instance seq_le_dec a b : Decision (seq_le a b).
Proof. unfold seq_le. apply _. Defined.

Definition sequenced (row : AuditRow) : option (Z * AuditRow) :=
  s ← col_chain_sequence row; Some (s, row).

Definition by_sequence (rows : list AuditRow) : list (Z * AuditRow) :=
  merge_sort seq_le (omap sequenced rows).

Definition first_chained_row (rows : list AuditRow) : option (Z * option string) :=
  '(s, row) ← head (by_sequence rows); Some (s, col_prev_hash row).

Definition chain_head_on (rows : list AuditRow) : option string * Z :=
  match last (by_sequence rows) with
  | Some (s, row) => (col_record_hash row, s)
  | None => (None, 0%Z)
  end.

(** The row of a sequence, where it is asked for without an order. *)
Definition row_at (sequence : Z) (rows : list AuditRow) : option AuditRow :=
  List.find (λ row, bool_decide (col_chain_sequence row = Some sequence)) rows.

Definition up_to (max_sequence : Z) (row : AuditRow) : bool :=
  match col_chain_sequence row with Some s => (s <=? max_sequence)%Z | None => false end.

(** ** Appending *)

(** The INSERT of [execute_insert] under the constraints of the table. *)
Definition execute_insert (unique_index : bool) (record : AuditRecord) (rows : list AuditRow) :
    list AuditRow + AuditError :=
  match record_to_row record with
  | Err e => inr (Database true e)
  | Ok row =>
      if existsb (λ r, String.eqb (col_id r) (col_id row)) rows
      then inr (Database true "UNIQUE constraint failed: audit_log.id")
      else if unique_index && existsb (λ r, match col_chain_sequence r with
                | Some _ => bool_decide (col_chain_sequence r = col_chain_sequence row)
                | None => false end) rows
      then inr (Database true "UNIQUE constraint failed: audit_log.chain_sequence")
      else inl (rows ++ [row])
  end.

(** The chain fields of a record that follows [prev_hash]. *)
Definition chained (record : AuditRecord) (sequence : Z) (prev_hash : option string) : AuditRecord :=
  let record := set_chain record (Some sequence) prev_hash (rec_record_hash record) in
  set_chain record (Some sequence) prev_hash (Some (compute_record_hash record)).

Fixpoint insert_all (unique_index : bool) (prev_hash : option string) (last_seq : Z)
    (records : list AuditRecord) (rows : list AuditRow) : list AuditRow + AuditError :=
  match records with
  | [] => inl rows
  | record :: records =>
      let last_seq := as_i64 (last_seq + 1) in
      let record := chained record last_seq prev_hash in
      match execute_insert unique_index record rows with
      | inr e => inr e
      | inl rows => insert_all unique_index (rec_record_hash record) last_seq records rows
      end
  end.

(** One transaction; [fault] is an error of SQLite itself, and nothing is kept. *)
Definition append_transaction (fault : option string) (records : list AuditRecord) (st : AuditStorage) :
    list AuditRow + AuditError :=
  match fault with
  | Some e => inr (Database false e)
  | None =>
      if as_read_only st then inr (Database false "attempt to write a readonly database")
      else
        let '(prev_hash, last_seq) := chain_head_on (as_rows st) in
        insert_all (as_unique_sequence_index st) prev_hash last_seq records (as_rows st)
  end.

Definition MAX_ATTEMPTS : nat := 3.

(** The attempts still to make, numbered from [attempt]. *)
Fixpoint attempt_append (remaining attempt : nat) (faults : nat → option string)
    (records : list AuditRecord) (st : AuditStorage) : (unit + AuditError) * AuditStorage :=
  match append_transaction (faults attempt) records st with
  | inl rows => (inl (), invalidate_verify_cache (set_rows rows st))
  | inr e =>
      match remaining with
      | S (S r as remaining') =>
          if is_unique_sequence_violation e then attempt_append remaining' (S attempt) faults records st
          else (inr e, st)
      | _ => (inr e, st)
      end
  end.

Definition insert_batch (faults : nat → option string) (records : list AuditRecord) (st : AuditStorage) :
    (unit + AuditError) * AuditStorage :=
  match as_quarantine st with
  | Some reason => (inr (ChainQuarantined reason), st)
  | None => attempt_append MAX_ATTEMPTS 1 faults records st
  end.

(** [insert_record] is the same transaction for one record. *)
Definition insert_record (faults : nat → option string) (record : AuditRecord) (st : AuditStorage) :
    (unit + AuditError) * AuditStorage :=
  match as_quarantine st with
  | Some reason => (inr (ChainQuarantined reason), st)
  | None => attempt_append MAX_ATTEMPTS 1 faults [record] st
  end.

(** ** Backfilling *)

(** [ORDER BY timestamp ASC, id ASC], on the texts. *)
Definition oldest_first (a b : AuditRow) : Prop :=
  String.ltb (col_timestamp a) (col_timestamp b) = true ∨
  (col_timestamp a = col_timestamp b ∧ String.le (col_id a) (col_id b)).
#[export] Instance oldest_first_dec a b : Decision (oldest_first a b).
Proof. unfold oldest_first. apply _. Defined.

Definition unchained (row : AuditRow) : bool :=
  match col_chain_sequence row with None => true | Some _ => false end.

Definition legacy_rows (rows : list AuditRow) : list AuditRow :=
  merge_sort oldest_first (List.filter unchained rows).

Fixpoint read_all (now : DateTime) (rows : list AuditRow) : result (list AuditRecord) :=
  match rows with
  | [] => Ok []
  | row :: rows => record ← row_to_record now row; records ← read_all now rows; Ok (record :: records)
  end.

(** The chain columns of a row. *)
Definition set_chain_columns (row : AuditRow) (seq : option Z) (prev hash : option string) : AuditRow := {|
  col_id := col_id row; col_timestamp := col_timestamp row; col_session_id := col_session_id row;
  col_plugin_id := col_plugin_id row; col_tool_call_type := col_tool_call_type row;
  col_arguments_summary := col_arguments_summary row; col_arguments_hash := col_arguments_hash row;
  col_composite_score := col_composite_score row; col_proxy_action := col_proxy_action row;
  col_filter_results := col_filter_results row; col_filter_scores := col_filter_scores row;
  col_execution_result := col_execution_result row; col_evaluation_time_ms := col_evaluation_time_ms row;
  col_task_context := col_task_context row; col_source := col_source row;
  col_supervised_tool := col_supervised_tool row; col_supervised_pid := col_supervised_pid row;
  col_correlation_id := col_correlation_id row; col_record_hash := hash; col_prev_hash := prev;
  col_chain_sequence := seq; col_llm_provider := col_llm_provider row; col_llm_model := col_llm_model row;
  col_prompt_tokens := col_prompt_tokens row; col_completion_tokens := col_completion_tokens row;
  col_estimated_cost_usd := col_estimated_cost_usd row; col_spawn_sha256 := col_spawn_sha256 row;
  col_matched_routine_root := col_matched_routine_root row;
  col_shadow_phase3_filters := col_shadow_phase3_filters row; col_original_addr := col_original_addr row;
  col_rewritten_addr := col_rewritten_addr row; col_clamp_profile_entry := col_clamp_profile_entry row;
  col_record_type := col_record_type row; col_project_name := col_project_name row;
  col_decision_reason := col_decision_reason row; col_enforcement_outcome := col_enforcement_outcome row;
  col_hash_version := col_hash_version row; col_analytics_metadata := col_analytics_metadata row;
  col_synced_at := col_synced_at row |}.

(** The UPDATE of the chain columns of the row with an id, refused when another row
    has the sequence. *)
Definition update_chain (unique_index : bool) (i : string) (seq : Z) (prev hash : option string)
    (rows : list AuditRow) : list AuditRow + AuditError :=
  if unique_index && existsb (λ r, String.eqb (col_id r) i) rows
     && existsb (λ r, negb (String.eqb (col_id r) i) && bool_decide (col_chain_sequence r = Some seq)) rows
  then inr (Database true "UNIQUE constraint failed: audit_log.chain_sequence")
  else inl (map (λ r, if String.eqb (col_id r) i then set_chain_columns r (Some seq) prev hash else r) rows).

Fixpoint backfill_all (unique_index : bool) (prev_hash : option string) (last_seq : Z)
    (legacy : list AuditRecord) (rows : list AuditRow) : list AuditRow + AuditError :=
  match legacy with
  | [] => inl rows
  | record :: legacy =>
      let last_seq := as_i64 (last_seq + 1) in
      let record := chained record last_seq prev_hash in
      match update_chain unique_index (Uuid_to_string (rec_id record)) last_seq prev_hash
              (rec_record_hash record) rows with
      | inr e => inr e
      | inl rows => backfill_all unique_index (rec_record_hash record) last_seq legacy rows
      end
  end.

Definition backfill_chain_for_legacy_rows (now : DateTime) (st : AuditStorage) :
    (nat + AuditError) * AuditStorage :=
  match read_all now (legacy_rows (as_rows st)) with
  | Err e => (inr (RowError e), st)
  | Ok [] => (inl 0, st)
  | Ok legacy =>
      if as_read_only st then (inr (Database false "attempt to write a readonly database"), st)
      else
        let '(prev_hash, last_seq) := chain_head_on (as_rows st) in
        match backfill_all (as_unique_sequence_index st) prev_hash last_seq legacy (as_rows st) with
        | inr e => (inr e, st)
        | inl rows => (inl (length legacy), invalidate_verify_cache (set_rows rows st))
        end
  end.

(** ** Repairing *)

(** The chain fields are overwritten before they are compared. *)
Definition repair_fields (record : AuditRecord) (i : Z) (prev_hash : option string) : AuditRecord * bool :=
  let expected_seq := (i + 1)%Z in
  let touched := set_chain record (Some expected_seq) prev_hash (rec_record_hash record) in
  let expected_hash := compute_record_hash touched in
  let needs_repair :=
    negb (bool_decide (rec_chain_sequence touched = Some expected_seq))
    || negb (bool_decide (rec_prev_hash touched = prev_hash))
    || negb (bool_decide (rec_record_hash touched = Some expected_hash)) in
  (set_chain touched (Some expected_seq) prev_hash (Some expected_hash), needs_repair).

Fixpoint repair_all (unique_index : bool) (i : Z) (prev_hash : option string) (records : list AuditRecord)
    (repaired : nat) (rows : list AuditRow) : (nat * list AuditRow) + AuditError :=
  match records with
  | [] => inl (repaired, rows)
  | record :: records =>
      let '(record, needs_repair) := repair_fields record i prev_hash in
      if needs_repair then
        match update_chain unique_index (Uuid_to_string (rec_id record)) (- (i + 1)) (rec_prev_hash record)
                (rec_record_hash record) rows with
        | inr e => inr e
        | inl rows => repair_all unique_index (i + 1) (rec_record_hash record) records (S repaired) rows
        end
      else repair_all unique_index (i + 1) (rec_record_hash record) records repaired rows
  end.

Definition flip_placeholder (row : AuditRow) : AuditRow :=
  match col_chain_sequence row with
  | Some s => if (s <? 0)%Z
              then set_chain_columns row (Some (- s)%Z) (col_prev_hash row) (col_record_hash row) else row
  | None => row
  end.

Definition repair_chain (now : DateTime) (st : AuditStorage) : (nat + AuditError) * AuditStorage :=
  match read_all now ((by_sequence (as_rows st)).*2) with
  | Err e => (inr (RowError e), st)
  | Ok [] => (inl 0, st)
  | Ok records =>
      if as_read_only st then (inr (Database false "attempt to write a readonly database"), st)
      else
        match repair_all (as_unique_sequence_index st) 0 None records 0 (as_rows st) with
        | inr e => (inr e, st)
        | inl (repaired, rows) =>
            let st := set_rows (map flip_placeholder rows) st in
            let st := if (0 <? repaired)%nat then set_checkpoint None st else st in
            (inl repaired, invalidate_verify_cache st)
        end
  end.

(** ** Verification *)

Definition resolve_verification_anchor (st : AuditStorage) : AnchorResolution + AuditError :=
  match first_chained_row (as_rows st) with
  | None => inl Genesis
  | Some (first_sequence, first_prev_hash) =>
      if (first_sequence <=? 1)%Z then inl Genesis
      else
        match as_archive_boundary st with
        | Some (Err e) => inr (Serialization e)
        | Some (Ok boundary) =>
            let sequence_links := (ab_sequence boundary + 1 =? first_sequence)%Z in
            let hash_links := bool_decide (first_prev_hash = Some (ab_record_hash boundary)) in
            if sequence_links && hash_links then inl (Anchored boundary)
            else inl (Unresolved (AnchorMismatch (ab_sequence boundary) (ab_record_hash boundary)
                                    first_prev_hash first_sequence))
        | None => inl (Unresolved (Unanchored first_sequence))
        end
  end.

Definition noncanonical_enum_reason (raw_record_type : option string) (canonical_record_type : string)
    (raw_proxy_action : option string) (canonical_proxy_action : string) : option BreakReason :=
  match
    match raw_record_type with
    | Some raw => if String.eqb raw canonical_record_type then None
                  else Some (NonCanonicalRecordType raw canonical_record_type)
    | None => None
    end
  with
  | Some reason => Some reason
  | None =>
      match raw_proxy_action with
      | Some raw => if String.eqb raw canonical_proxy_action then None
                    else Some (NonCanonicalProxyAction raw canonical_proxy_action)
      | None => None
      end
  end.

Definition row_noncanonical (row : AuditRow) (record : AuditRecord) : option BreakReason :=
  noncanonical_enum_reason (col_record_type row) (RecordType_display (rec_record_type record))
    (Some (col_proxy_action row)) (ProxyActionSummary_display (rec_proxy_action record)).

(** The walk of [verify_chain_from]. *)
Fixpoint verify_rows (now : DateTime) (expected : Z) (prev_record_hash : option string) (count : Z)
    (rows : list (Z * AuditRow)) : ChainVerification + AuditError :=
  match rows with
  | [] => inl (Valid count)
  | (seq, row) :: rows =>
      match row_to_record now row with
      | Err e => inr (RowError e)
      | Ok record =>
          if negb (seq =? expected)%Z then
            inl (Broken seq (rec_id record) (NonContiguous expected seq))
          else if negb (bool_decide (rec_prev_hash record = prev_record_hash)) then
            inl (Broken seq (rec_id record) (PrevHashMismatch prev_record_hash (rec_prev_hash record)))
          else if negb (bool_decide (rec_record_hash record = Some (compute_record_hash record))) then
            inl (Broken seq (rec_id record)
                   (RecordHashMismatch (rec_record_hash record) (compute_record_hash record)))
          else match row_noncanonical row record with
          | Some reason => inl (Broken seq (rec_id record) reason)
          | None => verify_rows now (expected + 1) (rec_record_hash record) (count + 1) rows
          end
      end
  end.

Definition above (start_sequence : Z) (rows : list AuditRow) : list (Z * AuditRow) :=
  List.filter (λ sr, (start_sequence <? sr.1)%Z) (by_sequence rows).

Definition verify_chain_from (now : DateTime) (start_sequence : Z) (seed_prev_hash : option string)
    (already_verified : Z) (rows : list AuditRow) : ChainVerification + AuditError :=
  match rows with
  | [] => inl Empty
  | _ =>
      match (if (start_sequence =? 0)%Z then head (legacy_rows rows) else None) with
      | Some row => inl (Broken 0 (default nil_uuid (parse_uuid (col_id row))) NoChainSequence)
      | None => verify_rows now (start_sequence + 1) seed_prev_hash already_verified (above start_sequence rows)
      end
  end.

Definition verify_chain (now : DateTime) (st : AuditStorage) : ChainVerification + AuditError :=
  match resolve_verification_anchor st with
  | inr e => inr e
  | inl Genesis => verify_chain_from now 0 None 0 (as_rows st)
  | inl (Anchored b) =>
      verify_chain_from now (ab_sequence b) (Some (ab_record_hash b)) (Z.max 0 (ab_sequence b)) (as_rows st)
  | inl (Unresolved outcome) => inl outcome
  end.

(** Where an incremental verification starts. *)
Definition incremental_start (st : AuditStorage) :
    ((Z * option string * Z) + ChainVerification) + AuditError :=
  match as_verified_head st with
  | Some (Err e) => inr (Serialization e)
  | Some (Ok c) => inl (inl (ck_sequence c, ck_record_hash c, Z.max 0 (ck_sequence c)))
  | None =>
      match resolve_verification_anchor st with
      | inr e => inr e
      | inl Genesis => inl (inl (0%Z, None, 0%Z))
      | inl (Anchored b) => inl (inl (ab_sequence b, Some (ab_record_hash b), Z.max 0 (ab_sequence b)))
      | inl (Unresolved outcome) => inl (inr outcome)
      end
  end.

(** The checkpoint after a valid verification: at the head, written when it moved. *)
Definition advance_checkpoint (st : AuditStorage) : (unit + AuditError) * AuditStorage :=
  match last (by_sequence (as_rows st)) with
  | None => (inl (), st)
  | Some (seq, row) =>
      let moved := match as_verified_head st with
                   | Some (Ok c) => negb (ck_sequence c =? seq)%Z
                   | _ => true
                   end in
      if negb moved then (inl (), st)
      else if as_read_only st then (inr (Database false "attempt to write a readonly database"), st)
      else (inl (), set_checkpoint (Some (Ok {| ck_sequence := seq; ck_record_hash := col_record_hash row |})) st)
  end.

Definition incremental_verify_chain (now : DateTime) (st : AuditStorage) :
    (ChainVerification + AuditError) * AuditStorage :=
  match incremental_start st with
  | inr e => (inr e, st)
  | inl (inr outcome) => (inl outcome, st)
  | inl (inl (start_seq, seed_hash, prefix_count)) =>
      match verify_chain_from now start_seq seed_hash prefix_count (as_rows st) with
      | inl (Valid n) =>
          match advance_checkpoint st with
          | (inl _, st) => (inl (Valid n), st)
          | (inr e, st) => (inr e, st)
          end
      | other => (other, st)
      end
  end.

Definition cached_verify_chain (now : DateTime) (st : AuditStorage) :
    (ChainVerification + AuditError) * AuditStorage :=
  match as_verify_cache st with
  | Some cached => (inl cached, st)
  | None =>
      match incremental_verify_chain now st with
      | (inl result, st) => (inl result, set_cache (Some result) st)
      | (inr e, st) => (inr e, st)
      end
  end.

(** ** Pruning *)

(** The hash at a boundary: a row without one is an error, no row is nothing to do. *)
Definition hash_at_boundary (max_sequence : Z) (rows : list AuditRow) : option string + AuditError :=
  match row_at max_sequence rows with
  | None => inl None
  | Some row => match col_record_hash row with
                | Some hash => inl (Some hash)
                | None => inr (Database false "Invalid column type Null at index: 0, name: record_hash")
                end
  end.

(** The rows [read_prefix_into] visits. *)
Definition prefix_rows (max_sequence : Z) (rows : list AuditRow) : list AuditRow + AuditError :=
  if (max_sequence <=? 0)%Z then inl []
  else match hash_at_boundary max_sequence rows with
       | inr e => inr e
       | inl None => inl []
       | inl (Some _) => inl (List.filter (λ sr, (sr.1 <=? max_sequence)%Z) (by_sequence rows)).*2
       end.

Definition delete_prefix (now : DateTime) (max_sequence : Z) (st : AuditStorage) :
    (nat + AuditError) * AuditStorage :=
  if (max_sequence <=? 0)%Z then (inl 0, st)
  else
    match hash_at_boundary max_sequence (as_rows st) with
    | inr e => (inr e, st)
    | inl None => (inl 0, st)
    | inl (Some hash) =>
        let count := length (List.filter (up_to max_sequence) (as_rows st)) in
        if (count =? 0)%nat then (inl 0, st)
        else if as_read_only st then (inr (Database false "attempt to write a readonly database"), st)
        else
          let existing_verified :=
            match as_verified_head st with Some (Ok c) => Some (ck_sequence c) | _ => None end in
          let keeps := match existing_verified with Some seq => negb (seq <? max_sequence)%Z | None => false end in
          let st := set_rows (List.filter (λ r, negb (up_to max_sequence r)) (as_rows st)) st in
          let st := if keeps then st
                    else set_checkpoint (Some (Ok {| ck_sequence := max_sequence; ck_record_hash := Some hash |})) st in
          let st := set_boundary {| ab_sequence := max_sequence; ab_record_hash := hash; ab_updated_at := now |} st in
          (inl count, invalidate_verify_cache st)
    end.

End Chain.
