(* ===== verification/AuditHistory.v ===== *)
(** * What the audit chain guarantees

    The history of a table that only the program writes: appends, verifications and
    prunes that leave a row keep it a chain, and the full, the incremental and the
    cached verification all report it valid with the number of records ever appended.
    The hash of its head commits to all of it. *)

From Stdlib Require Import Ascii String ZArith Lia SpecFloat.
From stdpp Require Import sorting.
From S2P Require Import Prelude Concrete F64 Canonical Types Reputation DbusWire AuditRecord AuditRow AuditChain.

#[local] Arguments String.append !_ _ / : simpl nomatch.

(** ** Chains *)

Section Chains.
Context {D : Deps} {CH : Chrono} {FD : F64Display} {SH : Sha256} {AC : AuditCodec}.
Implicit Types (rows : list AuditRow) (row : AuditRow).

(** A row read as the same record at any time. *)
Definition reads row (rec : AuditRecord) : Prop := ∀ now, row_to_record now row = Ok rec.

(** A row that follows [prev] in a chain. *)
Record link_ok (sequence : Z) (prev : option string) row (rec : AuditRecord) : Prop := {
  lk_reads : reads row rec;
  lk_sequence : col_chain_sequence row = Some sequence;
  lk_prev : col_prev_hash row = prev;
  lk_hash : col_record_hash row = Some (compute_record_hash rec);
  lk_canonical : row_noncanonical row rec = None;
}.

Fixpoint chain_ok (sequence : Z) (prev : option string) rows : Prop :=
  match rows with
  | [] => True
  | row :: rows =>
      (∃ rec, link_ok sequence prev row rec) ∧ chain_ok (sequence + 1) (col_record_hash row) rows
  end.

Fixpoint numbered (sequence : Z) rows : list (Z * AuditRow) :=
  match rows with
  | [] => []
  | row :: rows => (sequence, row) :: numbered (sequence + 1) rows
  end.

(** The hash the next row links to. *)
Definition seed_after (seed : option string) rows : option string :=
  match last rows with Some row => col_record_hash row | None => seed end.

Lemma seed_after_cons seed row rows : seed_after seed (row :: rows) = seed_after (col_record_hash row) rows.
Proof. unfold seed_after. rewrite last_cons. by destruct (last rows). Qed.

Lemma seed_after_app seed rows rows' : seed_after seed (rows ++ rows') = seed_after (seed_after seed rows) rows'.
Proof. unfold seed_after. rewrite last_app. by destruct (last rows'). Qed.

Lemma chain_ok_app s p rows rows' :
  chain_ok s p (rows ++ rows') ↔ chain_ok s p rows ∧ chain_ok (s + Z.of_nat (length rows)) (seed_after p rows) rows'.
Proof.
  revert s p. induction rows as [|row rows IH]; intros s p.
  - cbn [app length chain_ok]. rewrite Z.add_0_r. naive_solver.
  - cbn [app length chain_ok]. rewrite IH, seed_after_cons, Nat2Z.inj_succ.
    replace (s + 1 + Z.of_nat (length rows))%Z with (s + Z.succ (Z.of_nat (length rows)))%Z by lia.
    naive_solver.
Qed.

Lemma numbered_app s rows rows' :
  numbered s (rows ++ rows') = numbered s rows ++ numbered (s + Z.of_nat (length rows)) rows'.
Proof.
  revert s. induction rows as [|row rows IH]; intros s; cbn [app numbered length].
  - by rewrite Z.add_0_r.
  - rewrite IH, Nat2Z.inj_succ. do 2 f_equal. cbn. f_equal. lia.
Qed.

Lemma numbered_length s rows : length (numbered s rows) = length rows.
Proof. revert s. induction rows; intros s; cbn; [done|]. by rewrite IHrows. Qed.

Lemma numbered_snd s rows : (numbered s rows).*2 = rows.
Proof. revert s. induction rows as [|r rows IH]; intros s; cbn; [done|]. by rewrite IH. Qed.

Lemma numbered_elem s rows sr :
  sr ∈ numbered s rows → (s <= sr.1 < s + Z.of_nat (length rows))%Z.
Proof.
  revert s. induction rows as [|row rows IH]; intros s; cbn [numbered length].
  - by intros ?%elem_of_nil.
  - intros [->|H]%elem_of_cons; cbn; [lia|]. apply IH in H. lia.
Qed.

Lemma numbered_sorted s rows : StronglySorted seq_le (numbered s rows).
Proof.
  revert s. induction rows as [|row rows IH]; intros s; cbn; constructor; [apply IH|].
  apply Forall_forall. intros sr H%numbered_elem. unfold seq_le. cbn. lia.
Qed.

Lemma numbered_fun s rows x y :
  x ∈ numbered s rows → y ∈ numbered s rows → x.1 = y.1 → x = y.
Proof.
  revert s. induction rows as [|row rows IH]; intros s; cbn [numbered]; [by intros ?%elem_of_nil|].
  intros [->|Hx]%elem_of_cons [->|Hy]%elem_of_cons Hxy; [done| | |by eapply IH].
  - apply numbered_elem in Hy. cbn in Hxy. lia.
  - apply numbered_elem in Hx. cbn in Hxy. lia.
Qed.

#[export] Instance seq_le_trans : Transitive seq_le.
Proof. unfold seq_le. intros ???. lia. Qed.
#[export] Instance seq_le_total : Total seq_le.
Proof. unfold seq_le. intros x y. lia. Qed.

(** A table in the order of its sequences. *)
Lemma by_sequence_numbered s rows :
  omap sequenced rows = numbered s rows → by_sequence rows = numbered s rows.
Proof.
  intros H. unfold by_sequence. rewrite H. apply (StronglySorted_unique_strong seq_le).
  - intros x y Hx Hy. rewrite (merge_sort_Permutation seq_le) in Hx. intros Hxy Hyx.
    eapply numbered_fun; [done..|]. unfold seq_le in *. lia.
  - apply (StronglySorted_merge_sort seq_le).
  - apply numbered_sorted.
  - apply merge_sort_Permutation.
Qed.

Lemma chain_ok_sequenced s p rows : chain_ok s p rows → omap sequenced rows = numbered s rows.
Proof.
  revert s p. induction rows as [|row rows IH]; intros s p; [done|].
  intros [(rec & Hl) Hc]. cbn. unfold sequenced at 1. rewrite (lk_sequence _ _ _ _ Hl). cbn.
  f_equal. by eapply IH.
Qed.

Lemma chain_ok_by_sequence s p rows : chain_ok s p rows → by_sequence rows = numbered s rows.
Proof. intros H. by eapply by_sequence_numbered, chain_ok_sequenced. Qed.

Lemma chain_ok_chained s p rows : chain_ok s p rows → legacy_rows rows = [].
Proof.
  intros H. unfold legacy_rows. assert (List.filter unchained rows = []) as ->; [|done].
  revert s p H. induction rows as [|row rows IH]; intros s p; [done|].
  intros [(rec & Hl) Hc]. cbn. unfold unchained at 1. rewrite (lk_sequence _ _ _ _ Hl). by eapply IH.
Qed.

(** ** Verification is exact *)

Lemma row_to_record_columns now row rec :
  row_to_record now row = Ok rec →
  rec_prev_hash rec = col_prev_hash row ∧ rec_record_hash rec = col_record_hash row ∧
  rec_chain_sequence rec = col_chain_sequence row.
Proof.
  unfold row_to_record, mbind, result_bind. intros H.
  repeat match type of H with
  | context [match ?x with Ok _ => _ | Err _ => _ end] => destruct x; [|discriminate H]
  end. injection H as <-. done.
Qed.

Lemma verify_rows_ok now s p count rows :
  chain_ok s p rows →
  verify_rows now s p count (numbered s rows) = inl (Valid (count + Z.of_nat (length rows))).
Proof.
  revert s p count. induction rows as [|row rows IH]; intros s p count.
  - intros _. cbn. do 2 f_equal. lia.
  - intros [(rec & [Hr Hs Hp Hh Hc]) Hrest]. cbn [numbered verify_rows].
    destruct (row_to_record_columns now row rec (Hr now)) as (Ep & Eh & _).
    rewrite Hr, Z.eqb_refl. cbn [negb]. rewrite Ep, Hp, bool_decide_true by done. cbn [negb].
    rewrite Eh, Hh, bool_decide_true by done. cbn [negb]. rewrite Hc.
    rewrite Hh in Hrest. rewrite IH by done. do 2 f_equal. cbn [length]. lia.
Qed.

(** What a walk that ends well has seen. *)
Fixpoint walked (now : DateTime) (s : Z) (p : option string) (l : list (Z * AuditRow)) : Prop :=
  match l with
  | [] => True
  | (seq, row) :: l =>
      seq = s ∧ (∃ rec, row_to_record now row = Ok rec ∧ col_prev_hash row = p ∧
        col_record_hash row = Some (compute_record_hash rec) ∧ row_noncanonical row rec = None) ∧
      walked now (s + 1) (col_record_hash row) l
  end.

Lemma verify_rows_sound now s p count l n :
  verify_rows now s p count l = inl (Valid n) →
  walked now s p l ∧ n = (count + Z.of_nat (length l))%Z.
Proof.
  revert s p count. induction l as [|[seq row] l IH]; intros s p count; cbn [verify_rows walked length].
  - intros [= <-]. split; [done|lia].
  - destruct (row_to_record now row) as [rec|] eqn:Hr; [|done].
    destruct (row_to_record_columns now row rec Hr) as (Ep & Eh & _).
    destruct (Z.eqb_spec seq s) as [->|]; [cbn [negb]|done].
    case_bool_decide as Hp; [cbn [negb]|done]. case_bool_decide as Hh; [cbn [negb]|done].
    destruct (row_noncanonical row rec) eqn:Hc; [done|]. intros H.
    apply IH in H as [Hw ->]. rewrite Eh in Hw, Hh. rewrite Ep in Hp. split; [|lia].
    split; [done|]. split; [by exists rec|done].
Qed.

End Chains.

(** ** Appending *)

Section Appending.
Context {D : Deps} {CH : Chrono} {FD : F64Display} {SH : Sha256} {AC : AuditCodec}.
Context {DL : DepsLaws} {CL : ChronoLaws} {ACL : AuditCodecLaws}.
Implicit Types (rows : list AuditRow) (row : AuditRow).

Lemma storable_chained r s p : storable r → storable (chained r s p).
Proof. intros []. by split. Qed.

Lemma chained_hash r s p :
  rec_record_hash (chained r s p) = Some (compute_record_hash (chained r s p)).
Proof. reflexivity. Qed.

(** The row of a storable record reads as the record. *)
Lemma row_of_storable r :
  storable r → ∃ row, record_to_row r = Ok row ∧ reads row r ∧
    col_chain_sequence row = rec_chain_sequence r ∧ col_prev_hash row = rec_prev_hash r ∧
    col_record_hash row = rec_record_hash r ∧ row_noncanonical row r = None.
Proof.
  intros Hr. assert (∃ row, record_to_row r = Ok row) as [row Hrow].
  { unfold record_to_row. rewrite (kept_stored _ (st_score _ Hr)), (kept_stored _ (st_time _ Hr)). eauto. }
  exists row. split; [done|]. assert (reads row r) as Hreads.
  { intros now. destruct (persist_column now r Hr) as (row' & Hrow' & Hread). congruence. }
  split; [done|]. unfold record_to_row in Hrow.
  rewrite (kept_stored _ (st_score _ Hr)), (kept_stored _ (st_time _ Hr)) in Hrow.
  injection Hrow as <-. do 3 (split; [done|]). unfold row_noncanonical, noncanonical_enum_reason.
  cbn [col_record_type col_proxy_action]. by rewrite !String.eqb_refl.
Qed.

Lemma insert_all_ok unique base seed records rows rows' :
  chain_ok (base + 1) seed rows → Forall storable records →
  (0 <= base)%Z → (base + Z.of_nat (length rows) + Z.of_nat (length records) < 2 ^ 63)%Z →
  insert_all unique (seed_after seed rows) (base + Z.of_nat (length rows)) records rows = inl rows' →
  chain_ok (base + 1) seed rows' ∧ length rows' = length rows + length records ∧ ∃ new, rows' = rows ++ new.
Proof.
  revert rows. induction records as [|r records IH]; intros rows Hc Hst Hb Hbound; cbn [insert_all].
  - intros [= <-]. split; [done|]. split; [cbn; lia|]. exists []. by rewrite app_nil_r.
  - apply Forall_cons in Hst as [Hr Hst]. cbn [length] in Hbound.
    assert (as_i64 (base + Z.of_nat (length rows) + 1) = base + Z.of_nat (length rows) + 1)%Z as ->.
    { unfold as_i64. rewrite Z.mod_small by lia. lia. }
    set (rec := chained r _ _).
    destruct (row_of_storable rec (storable_chained _ _ _ Hr)) as (row & Hrow & Hreads & Hseq & Hprev & Hhash & Hcan).
    unfold execute_insert. rewrite Hrow. destruct (existsb _ rows); [done|].
    destruct (unique && _); [done|]. assert (rec_record_hash rec = Some (compute_record_hash rec)) as Hown by reflexivity.
    rewrite Hown in Hhash |- *.
    replace (Some (compute_record_hash rec)) with (seed_after seed (rows ++ [row]))
      by (unfold seed_after; by rewrite last_snoc, Hhash).
    replace (base + Z.of_nat (length rows) + 1)%Z with (base + Z.of_nat (length (rows ++ [row])))%Z
      by (rewrite length_app; cbn; lia).
    intros H. apply IH in H as (Hc' & Hl & new & ->); [|idtac|done|done|rewrite length_app; cbn [length]; lia].
    + split; [done|]. rewrite !length_app in *. cbn [length] in *. split; [lia|].
      exists (row :: new). by rewrite <- app_assoc.
    + apply chain_ok_app. split; [done|]. split; [|done]. exists rec. split; [done| |done|done|done].
      rewrite Hseq. cbn. f_equal. lia.
Qed.

Lemma chain_head_numbered base seed rows :
  chain_ok (base + 1) seed rows →
  chain_head_on rows = match last rows with
                       | Some row => (col_record_hash row, base + Z.of_nat (length rows))%Z
                       | None => (None, 0%Z)
                       end.
Proof.
  intros Hc. unfold chain_head_on. rewrite (chain_ok_by_sequence _ _ _ Hc). clear Hc.
  induction rows as [|row rows IH] using rev_ind; [done|].
  rewrite numbered_app, !last_snoc. cbn [numbered]. rewrite last_snoc, length_app. cbn [length].
  f_equal. lia.
Qed.

(** The program's own table: a chain from its anchor, with the checkpoint and the
    cache it may have. *)
Definition verdict (base : Z) rows : ChainVerification :=
  match rows with [] => Empty | _ => Valid (base + Z.of_nat (length rows)) end.

Record intact (st : AuditStorage) (base : Z) (seed : option string) : Prop := {
  in_chain : chain_ok (base + 1) seed (as_rows st);
  in_anchor : (base = 0%Z ∧ seed = None ∧ as_archive_boundary st = None) ∨
    ((0 < base)%Z ∧ as_rows st ≠ [] ∧
     ∃ b, as_archive_boundary st = Some (Ok b) ∧ ab_sequence b = base ∧ seed = Some (ab_record_hash b));
  in_checkpoint : as_verified_head st = None ∨
    ∃ c before after, as_verified_head st = Some (Ok c) ∧ as_rows st = before ++ after ∧
      ck_sequence c = (base + Z.of_nat (length before))%Z ∧ ck_record_hash c = seed_after seed before;
  in_cache : as_verify_cache st = None ∨ as_verify_cache st = Some (verdict base (as_rows st));
  in_writable : as_read_only st = false ∧ as_quarantine st = None;
}.

Lemma in_base st base seed : intact st base seed → (0 <= base)%Z.
Proof. intros [_ [[-> _]|[? _]] _ _ _]; lia. Qed.

Lemma in_seed st base seed : intact st base seed →
  chain_head_on (as_rows st) = (seed_after seed (as_rows st), (base + Z.of_nat (length (as_rows st)))%Z).
Proof.
  intros [Hc Ha _ _ _]. rewrite (chain_head_numbered _ _ _ Hc). unfold seed_after.
  destruct (last (as_rows st)) eqn:E; [done|]. apply last_None in E. rewrite E in *.
  destruct Ha as [(-> & -> & _)|(_ & [] & _)]; done.
Qed.

Lemma append_transaction_intact fault records st base seed rows :
  intact st base seed → Forall storable records →
  (base + Z.of_nat (length (as_rows st)) + Z.of_nat (length records) < 2 ^ 63)%Z →
  append_transaction fault records st = inl rows →
  intact (invalidate_verify_cache (set_rows rows st)) base seed ∧
  length rows = length (as_rows st) + length records.
Proof.
  intros Hin Hst Hbound. unfold append_transaction. destruct fault; [done|].
  rewrite (proj1 (in_writable _ _ _ Hin)), (in_seed _ _ _ Hin). intros E.
  apply insert_all_ok in E as (Hc & Hl & new & ->); [|apply Hin|done|by eapply in_base|done].
  split; [|done]. destruct Hin as [_ Ha Hk _ Hw]. split; cbn; [done| | |by left|done].
  - destruct Ha as [?|(? & Hne & ?)]; [by left|]. right. split; [done|]. split; [|done].
    by destruct (as_rows st).
  - destruct Hk as [?|(c & before & after & ? & -> & ? & ?)]; [by left|]. right.
    exists c, before, (after ++ new). by rewrite app_assoc.
Qed.

Lemma attempt_append_intact remaining attempt faults records st base seed out st' :
  intact st base seed → Forall storable records →
  (base + Z.of_nat (length (as_rows st)) + Z.of_nat (length records) < 2 ^ 63)%Z →
  attempt_append remaining attempt faults records st = (out, st') →
  intact st' base seed ∧
  length (as_rows st') = length (as_rows st) + (if out then length records else 0).
Proof.
  intros Hin Hst Hbound. revert attempt. induction remaining as [|r IH]; intros attempt; cbn [attempt_append];
    destruct (append_transaction (faults attempt) records st) as [rows|e] eqn:E.
  1,3: intros [= <- <-]; by eapply append_transaction_intact.
  - intros [= <- <-]. split; [done|lia].
  - destruct r as [|r]; [intros [= <- <-]; split; [done|lia]|].
    destruct (is_unique_sequence_violation e); [apply IH|intros [= <- <-]; split; [done|lia]].
Qed.

End Appending.

(** ** Verifying *)

Section Verifying.
Context {D : Deps} {CH : Chrono} {FD : F64Display} {SH : Sha256} {AC : AuditCodec}.
Implicit Types (rows : list AuditRow) (row : AuditRow).

Lemma filter_all_in {A} (p : A → bool) l : (∀ x, x ∈ l → p x = true) → List.filter p l = l.
Proof.
  induction l as [|x l IH]; intros H; cbn; [done|]. rewrite H by by left.
  f_equal. apply IH. intros y Hy. apply H. by right.
Qed.

Lemma filter_none {A} (p : A → bool) l : (∀ x, x ∈ l → p x = false) → List.filter p l = [].
Proof.
  induction l as [|x l IH]; intros H; cbn; [done|]. rewrite H by by left.
  apply IH. intros y Hy. apply H. by right.
Qed.

Lemma above_chain base seed before after :
  chain_ok (base + 1) seed (before ++ after) →
  above (base + Z.of_nat (length before)) (before ++ after)
  = numbered (base + Z.of_nat (length before) + 1) after.
Proof.
  intros Hc. unfold above. rewrite (chain_ok_by_sequence _ _ _ Hc), numbered_app, List.filter_app.
  rewrite (filter_none _ (numbered _ before)), filter_all_in; cbn [app].
  - f_equal. lia.
  - intros x Hx%numbered_elem. apply Z.ltb_lt. lia.
  - intros x Hx%numbered_elem. apply Z.ltb_ge. lia.
Qed.

(** A walk from anywhere in a chain. *)
Lemma verify_from_inside now base seed before after count :
  chain_ok (base + 1) seed (before ++ after) → before ++ after ≠ [] →
  verify_chain_from now (base + Z.of_nat (length before)) (seed_after seed before) count (before ++ after)
  = inl (Valid (count + Z.of_nat (length after))).
Proof.
  intros Hc Hne. unfold verify_chain_from. rewrite (above_chain _ _ _ _ Hc), (chain_ok_chained _ _ _ Hc).
  apply chain_ok_app in Hc as [_ Hc].
  destruct (before ++ after); [done|]. cbn [head]. rewrite Tauto.if_same.
  replace (base + Z.of_nat (length before) + 1)%Z with (base + 1 + Z.of_nat (length before))%Z by lia.
  by apply verify_rows_ok.
Qed.

Lemma first_chained_chain base seed rows :
  chain_ok (base + 1) seed rows →
  first_chained_row rows = match rows with [] => None | _ => Some ((base + 1)%Z, seed) end.
Proof.
  intros Hc. unfold first_chained_row. rewrite (chain_ok_by_sequence _ _ _ Hc).
  destruct rows as [|row rows]; [done|]. destruct Hc as [(rec & Hl) _]. cbn.
  by rewrite (lk_prev _ _ _ _ Hl).
Qed.

Lemma intact_anchor st base seed :
  intact st base seed → as_rows st ≠ [] →
  ∃ a, resolve_verification_anchor st = inl a ∧
    ((a = Genesis ∧ base = 0%Z ∧ seed = None) ∨
     ∃ b, a = Anchored b ∧ ab_sequence b = base ∧ seed = Some (ab_record_hash b)).
Proof.
  intros [Hc Ha _ _ _] Hne. unfold resolve_verification_anchor. rewrite (first_chained_chain _ _ _ Hc).
  destruct (as_rows st); [done|].
  destruct Ha as [(-> & -> & Hb)|(Hpos & _ & b & Hb & Hseq & ->)].
  - eexists. split; [reflexivity|]. by left.
  - rewrite (proj2 (Z.leb_gt _ _)), Hb, Hseq, Z.eqb_refl, bool_decide_true by (done || lia). cbn.
    eexists. split; [reflexivity|]. right. by exists b.
Qed.

Lemma verify_chain_intact now st base seed :
  intact st base seed → verify_chain now st = inl (verdict base (as_rows st)).
Proof.
  intros Hin. pose proof (in_chain _ _ _ Hin) as Hc. pose proof (in_base _ _ _ Hin) as Hb.
  destruct (as_rows st) as [|row rows] eqn:E.
  - unfold verify_chain, resolve_verification_anchor. rewrite E. done.
  - destruct (intact_anchor _ _ _ Hin) as (a & Ha & Hcase); [by rewrite E|].
    unfold verify_chain. rewrite Ha, E. unfold verdict.
    pose proof (verify_from_inside now base seed [] (row :: rows) base Hc) as Hv.
    cbn [length app] in Hv. rewrite Z.add_0_r in Hv.
    destruct Hcase as [(-> & -> & ->)|(b & -> & <- & ->)]; [by apply Hv|].
    rewrite Z.max_r by done. by apply Hv.
Qed.

Lemma incremental_walk now st base seed :
  intact st base seed → as_rows st ≠ [] →
  ∃ s p n, incremental_start st = inl (inl (s, p, n)) ∧
    verify_chain_from now s p n (as_rows st) = inl (verdict base (as_rows st)).
Proof.
  intros Hin Hne. pose proof (in_chain _ _ _ Hin) as Hc. pose proof (in_base _ _ _ Hin) as Hb.
  unfold incremental_start.
  destruct (in_checkpoint _ _ _ Hin) as [->|(c & before & after & -> & Hr & Hs & Hh)].
  - destruct (intact_anchor _ _ _ Hin Hne) as (a & -> & Hcase).
    pose proof (verify_from_inside now base seed [] (as_rows st) base Hc Hne) as Hv.
    cbn [length app] in Hv. rewrite Z.add_0_r in Hv. unfold verdict.
    destruct Hcase as [(-> & -> & ->)|(b & -> & <- & ->)]; do 3 eexists; (split; [reflexivity|]);
      rewrite ?Z.max_r by done; by destruct (as_rows st).
  - do 3 eexists. split; [reflexivity|]. rewrite Hs, Hh, Z.max_r by lia. rewrite Hr in Hc, Hne |- *.
    rewrite (verify_from_inside now base seed before after _ Hc Hne). unfold verdict.
    destruct (before ++ after) eqn:E; [done|]. rewrite <- E, length_app. do 2 f_equal. lia.
Qed.

Lemma last_by_sequence base seed rows :
  chain_ok (base + 1) seed rows →
  last (by_sequence rows) = row ← last rows; Some ((base + Z.of_nat (length rows))%Z, row).
Proof.
  intros Hc. rewrite (chain_ok_by_sequence _ _ _ Hc). clear Hc.
  induction rows as [|row rows IH] using rev_ind; [done|].
  rewrite numbered_app, !last_snoc. cbn [numbered]. rewrite last_snoc, length_app. cbn. do 2 f_equal. lia.
Qed.

Lemma advance_intact st base seed :
  intact st base seed → as_rows st ≠ [] →
  ∃ st', advance_checkpoint st = (inl (), st') ∧ intact st' base seed ∧ as_rows st' = as_rows st ∧
    as_verify_cache st' = as_verify_cache st.
Proof.
  intros Hin Hne. unfold advance_checkpoint. rewrite (last_by_sequence _ _ _ (in_chain _ _ _ Hin)).
  destruct (last (as_rows st)) as [row|] eqn:E; [cbn [mbind option_bind]|by apply last_None in E].
  case_match; [by exists st|]. rewrite (proj1 (in_writable _ _ _ Hin)).
  eexists. split; [reflexivity|]. split; [|done]. destruct Hin as [Hc Ha Hk Hca Hw]. split; cbn; try done.
  right. eexists _, (as_rows st), []. split; [done|]. rewrite app_nil_r. split; [done|]. split; [done|].
  unfold seed_after. by rewrite E.
Qed.

Lemma incremental_intact now st base seed :
  intact st base seed →
  ∃ st', incremental_verify_chain now st = (inl (verdict base (as_rows st)), st') ∧
    intact st' base seed ∧ as_rows st' = as_rows st.
Proof.
  intros Hin. unfold incremental_verify_chain. destruct (decide (as_rows st = [])) as [E|Hne].
  - exists st. split; [|done]. rewrite E. unfold incremental_start, resolve_verification_anchor.
    destruct (in_checkpoint _ _ _ Hin) as [-> | (c & ? & ? & -> & _)]; [by rewrite E|done].
  - destruct (incremental_walk now _ _ _ Hin Hne) as (s & p & n & -> & ->).
    destruct (advance_intact _ _ _ Hin Hne) as (st' & -> & Hin' & Hr & _).
    unfold verdict. destruct (as_rows st) as [|row rows] eqn:E; [done|]. by exists st'.
Qed.

Lemma cached_intact now st base seed :
  intact st base seed →
  ∃ st', cached_verify_chain now st = (inl (verdict base (as_rows st)), st') ∧
    intact st' base seed ∧ as_rows st' = as_rows st.
Proof.
  intros Hin. unfold cached_verify_chain. destruct (in_cache _ _ _ Hin) as [-> | ->].
  - destruct (incremental_intact now _ _ _ Hin) as (st' & -> & Hin' & Hr).
    eexists. split; [reflexivity|]. split; [|done]. destruct Hin' as [Hc Ha Hk Hca Hw].
    split; cbn; try done. right. by rewrite Hr.
  - by exists st.
Qed.

End Verifying.

(** ** Pruning *)

Section Pruning.
Context {D : Deps} {CH : Chrono} {FD : F64Display} {SH : Sha256} {AC : AuditCodec}.
Implicit Types (rows : list AuditRow) (row : AuditRow).

Lemma chain_sequences s p rows row :
  chain_ok s p rows → row ∈ rows →
  ∃ q h, col_chain_sequence row = Some q ∧ col_record_hash row = Some h ∧ (s <= q < s + Z.of_nat (length rows))%Z.
Proof.
  revert s p. induction rows as [|r rows IH]; intros s p; [by intros _ ?%elem_of_nil|].
  intros [(rec & Hl) Hc] [->|Hr]%elem_of_cons; cbn [length].
  - exists s, (compute_record_hash rec). destruct Hl. split; [done|]. split; [done|lia].
  - destruct (IH _ _ Hc Hr) as (q & h & ? & ? & ?). exists q, h. split; [done|]. split; [done|lia].
Qed.

Lemma up_to_chain s p rows max row :
  chain_ok s p rows → row ∈ rows →
  ((s + Z.of_nat (length rows) <= max + 1)%Z → up_to max row = true) ∧
  ((max < s)%Z → up_to max row = false).
Proof.
  intros Hc Hr. destruct (chain_sequences _ _ _ _ Hc Hr) as (q & h & Hq & _ & Hb). unfold up_to. rewrite Hq.
  split; intros; [apply Z.leb_le|apply Z.leb_gt]; lia.
Qed.

(** Where the boundary of a prefix falls in a chain. *)
Lemma find_app_r {A} (p : A → bool) l l' : (∀ x, x ∈ l → p x = false) → List.find p (l ++ l') = List.find p l'.
Proof.
  induction l as [|x l IH]; intros H; cbn; [done|]. rewrite H by by left.
  apply IH. intros y Hy. apply H. by right.
Qed.

Lemma row_at_boundary s p before row after :
  chain_ok s p (before ++ row :: after) → row_at (s + Z.of_nat (length before)) (before ++ row :: after) = Some row.
Proof.
  intros [Hb [(rec & Hl) _]]%chain_ok_app. unfold row_at. rewrite find_app_r.
  - cbn. rewrite bool_decide_true; [done|]. apply Hl.
  - intros x Hx. destruct (chain_sequences _ _ _ _ Hb Hx) as (q & h & Hq & _ & Hr).
    apply bool_decide_false. rewrite Hq. intros [= ->]. lia.
Qed.

Lemma row_at_below s p rows max : chain_ok s p rows → (max < s)%Z → row_at max rows = None.
Proof.
  intros Hc Hm. unfold row_at. rewrite <- (app_nil_r rows), find_app_r; [done|].
  intros x Hx. destruct (chain_sequences _ _ _ _ Hc Hx) as (q & h & Hq & _ & Hr).
  apply bool_decide_false. rewrite Hq. intros [= ->]. lia.
Qed.

Lemma filter_prefix s p before after :
  chain_ok s p (before ++ after) →
  List.filter (up_to (s + Z.of_nat (length before) - 1)) (before ++ after) = before ∧
  List.filter (λ r, negb (up_to (s + Z.of_nat (length before) - 1) r)) (before ++ after) = after.
Proof.
  intros [Hb Ha]%chain_ok_app. rewrite !List.filter_app.
  assert (∀ x, x ∈ before → up_to (s + Z.of_nat (length before) - 1) x = true) as Hin
    by (intros x Hx; apply (up_to_chain _ _ _ _ _ Hb Hx); lia).
  assert (∀ x, x ∈ after → up_to (s + Z.of_nat (length before) - 1) x = false) as Hout
    by (intros x Hx; apply (up_to_chain _ _ _ _ _ Ha Hx); lia).
  split.
  - rewrite filter_all_in, filter_none by done. apply app_nil_r.
  - rewrite filter_none, filter_all_in; [done|..]; intros x Hx; by rewrite ?(Hin x Hx), ?(Hout x Hx).
Qed.

Lemma longer_prefix {A} (before after bef aft : list A) :
  before ++ after = bef ++ aft → length before <= length bef →
  ∃ mid, bef = before ++ mid ∧ after = mid ++ aft.
Proof.
  intros [(k & -> & ->)|(k & -> & ->)]%app_eq_inv Hl; [|by exists k].
  rewrite length_app in Hl. destruct k as [|x k]; [|cbn in Hl; lia].
  exists []. by rewrite !app_nil_r.
Qed.

(** A checkpoint is below the boundary or in the rows above it. *)
Lemma checkpoint_above st base seed before after h :
  intact st base seed → as_rows st = before ++ after → seed_after seed before = Some h →
  as_verified_head st = None ∨
  ∃ c, as_verified_head st = Some (Ok c) ∧
    ((ck_sequence c < base + Z.of_nat (length before))%Z ∨
     ∃ mid rest, after = mid ++ rest ∧
       ck_sequence c = (base + Z.of_nat (length before) + Z.of_nat (length mid))%Z ∧
       ck_record_hash c = seed_after (Some h) mid).
Proof.
  intros Hin Hr Hseed.
  destruct (in_checkpoint _ _ _ Hin) as [?|(c & bef & aft & Hk & Hsplit & Hs & Hck)]; [by left|right].
  exists c. split; [done|]. rewrite Hr in Hsplit.
  destruct (decide (length before <= length bef)) as [Hl|Hl]; [right|left; lia].
  destruct (longer_prefix _ _ _ _ Hsplit Hl) as (mid & -> & ->). exists mid, aft. split; [done|].
  rewrite Hs, Hck, seed_after_app, Hseed, length_app. split; [lia|done].
Qed.

(** The boundary of a prefix that ends in a row. *)
Lemma boundary_hash st base seed before row after :
  intact st base seed → as_rows st = before ++ row :: after →
  ∃ h, hash_at_boundary (base + Z.of_nat (S (length before))) (as_rows st) = inl (Some h) ∧
    seed_after seed (before ++ [row]) = Some h.
Proof.
  intros Hin Hr. pose proof (in_chain _ _ _ Hin) as Hc. rewrite Hr in Hc. unfold hash_at_boundary.
  pose proof (row_at_boundary _ _ _ _ _ Hc) as Hat. rewrite Nat2Z.inj_succ, Hr.
  replace (base + Z.succ (Z.of_nat (length before)))%Z with (base + 1 + Z.of_nat (length before))%Z by lia.
  rewrite Hat. destruct (chain_sequences _ _ _ row Hc) as (_ & h & _ & Hh & _).
  { rewrite elem_of_app. right. by left. }
  exists h. rewrite Hh. split; [done|]. unfold seed_after. by rewrite last_snoc.
Qed.

(** The storage after a prefix is gone. *)
Lemma delete_prefix_intact now st base seed before row after :
  intact st base seed → as_rows st = before ++ row :: after → after ≠ [] →
  ∃ st' seed', delete_prefix now (base + Z.of_nat (S (length before))) st = (inl (S (length before)), st') ∧
    intact st' (base + Z.of_nat (S (length before))) seed' ∧ as_rows st' = after.
Proof.
  intros Hin Hr Hne. pose proof (in_base _ _ _ Hin) as Hb.
  destruct (boundary_hash _ _ _ _ _ _ Hin Hr) as (h & Hh & Hseed).
  pose proof (in_chain _ _ _ Hin) as Hc. rewrite Hr in Hc.
  assert (Hr' : as_rows st = (before ++ [row]) ++ after) by by rewrite Hr, <- app_assoc.
  rewrite <- Hr, Hr' in Hc. destruct (filter_prefix _ _ _ _ Hc) as [Hf1 Hf2].
  pose proof (checkpoint_above _ _ _ _ _ _ Hin Hr' Hseed) as Hk.
  apply chain_ok_app in Hc as [_ Hc]. rewrite Hseed in Hc. rewrite length_app in *. cbn [length] in *.
  rewrite Nat.add_1_r in *. set (max := (base + Z.of_nat (S (length before)))%Z) in *.
  replace (base + 1 + Z.of_nat (S (length before)) - 1)%Z with max in Hf1, Hf2 by (unfold max; lia).
  replace (base + 1 + Z.of_nat (S (length before)))%Z with (max + 1)%Z in Hc by (unfold max; lia).
  assert (Hmax : (0 < max)%Z) by (unfold max; lia).
  unfold delete_prefix. rewrite (proj2 (Z.leb_gt _ _)), Hh, Hr', Hf1, Hf2, length_app by done.
  cbn [length]. rewrite Nat.add_1_r. cbn [Nat.eqb]. rewrite (proj1 (in_writable _ _ _ Hin)).
  eexists _, (Some h). split; [reflexivity|]. split; [|by case_match].
  split; cbn.
  - by case_match.
  - right. split; [done|]. split; [by case_match|]. eexists. split; [done|]. done.
  - right. destruct Hk as [Hk|(c & Hk & Hcase)]; rewrite Hk; cbn.
    + eexists _, [], after. split; [done|]. cbn. split; [done|]. split; [lia|done].
    + destruct (Z.ltb_spec (ck_sequence c) max); cbn.
      * eexists _, [], after. split; [done|]. cbn. split; [done|]. split; [lia|done].
      * destruct Hcase as [?|(mid & rest & -> & ? & ?)]; [lia|]. by exists c, mid, rest.
  - by left.
  - destruct (in_writable _ _ _ Hin). by case_match.
Qed.

(** A prune below the segment changes nothing. *)
Lemma delete_prefix_below now st base seed max :
  intact st base seed → (max <= base)%Z → delete_prefix now max st = (inl 0, st).
Proof.
  intros Hin Hm. unfold delete_prefix, hash_at_boundary. destruct (Z.leb_spec max 0); [done|].
  rewrite (row_at_below _ _ _ _ (in_chain _ _ _ Hin)) by lia. done.
Qed.

End Pruning.

(** ** Histories *)

Section History.
Context {D : Deps} {CH : Chrono} {FD : F64Display} {SH : Sha256} {AC : AuditCodec}.

Definition new_storage (unique_index : bool) : AuditStorage := {|
  as_rows := []; as_verified_head := None; as_archive_boundary := None; as_verify_cache := None;
  as_unique_sequence_index := unique_index; as_quarantine := None; as_read_only := false |}.

(** The storages the program alone can reach, with the number of records appended:
    any batch, any failure of SQLite, verifications and backfills at any time, and
    prunes that leave a row. *)
Inductive honest : AuditStorage → nat → Prop :=
  | honest_new u : honest (new_storage u) 0
  | honest_batch faults records st total out st' :
      honest st total → Forall storable records → (Z.of_nat (total + length records) < 2 ^ 63)%Z →
      insert_batch faults records st = (out, st') →
      honest st' (total + (if out then length records else 0))
  | honest_record faults record st total out st' :
      honest st total → storable record → (Z.of_nat (S total) < 2 ^ 63)%Z →
      insert_record faults record st = (out, st') →
      honest st' (total + (if out then 1 else 0))
  | honest_verify now st total out st' :
      honest st total → incremental_verify_chain now st = (out, st') → honest st' total
  | honest_cached now st total out st' :
      honest st total → cached_verify_chain now st = (out, st') → honest st' total
  | honest_backfill now st total out st' :
      honest st total → backfill_chain_for_legacy_rows now st = (out, st') → honest st' total
  | honest_prune now max_sequence st total out st' :
      honest st total → (max_sequence < Z.of_nat total)%Z →
      delete_prefix now max_sequence st = (out, st') → honest st' total.

Context {DL : DepsLaws} {CL : ChronoLaws} {ACL : AuditCodecLaws}.

Lemma new_intact u : intact (new_storage u) 0 None.
Proof. split; cbn; [done|by left|by left|by left|done]. Qed.

Lemma insert_batch_intact faults records st base seed out st' :
  intact st base seed → Forall storable records →
  (base + Z.of_nat (length (as_rows st)) + Z.of_nat (length records) < 2 ^ 63)%Z →
  insert_batch faults records st = (out, st') →
  intact st' base seed ∧ length (as_rows st') = length (as_rows st) + (if out then length records else 0).
Proof.
  intros Hin. unfold insert_batch. rewrite (proj2 (in_writable _ _ _ Hin)). by apply attempt_append_intact.
Qed.

Lemma insert_record_batch faults r st : insert_record faults r st = insert_batch faults [r] st.
Proof. done. Qed.

Lemma backfill_intact now st base seed :
  intact st base seed → backfill_chain_for_legacy_rows now st = (inl 0, st).
Proof.
  intros Hin. unfold backfill_chain_for_legacy_rows.
  by rewrite (chain_ok_chained _ _ _ (in_chain _ _ _ Hin)).
Qed.

Lemma prune_intact now max_sequence st base seed out st' :
  intact st base seed → (max_sequence < base + Z.of_nat (length (as_rows st)))%Z →
  delete_prefix now max_sequence st = (out, st') →
  ∃ base' seed', intact st' base' seed' ∧
    (base' + Z.of_nat (length (as_rows st')) = base + Z.of_nat (length (as_rows st)))%Z.
Proof.
  intros Hin Hmax Hd. destruct (Z.le_gt_cases max_sequence base) as [Hle|Hgt].
  - rewrite (delete_prefix_below _ _ _ _ _ Hin Hle) in Hd. injection Hd as <- <-. by exists base, seed.
  - set (k := Z.to_nat (max_sequence - base - 1)).
    destruct (lookup_lt_is_Some_2 (as_rows st) k) as [row Hrow]; [lia|].
    pose proof (take_drop_middle _ _ _ Hrow) as Hsplit. symmetry in Hsplit.
    assert (Hlk : length (take k (as_rows st)) = k) by (rewrite length_take; lia).
    destruct (delete_prefix_intact now st base seed _ row _ Hin Hsplit) as (s & seed' & Hd' & Hin' & Hr).
    { intros Hnil. apply (f_equal length) in Hsplit. rewrite length_app, Hlk, Hnil in Hsplit. cbn in Hsplit. lia. }
    rewrite Hlk in Hd', Hin'.
    replace (base + Z.of_nat (S k))%Z with max_sequence in Hd', Hin' by lia. rewrite Hd' in Hd.
    injection Hd as <- <-. exists max_sequence, seed'. split; [done|]. rewrite Hr, length_drop. lia.
Qed.

Lemma honest_intact st total :
  honest st total → ∃ base seed, intact st base seed ∧ (base + Z.of_nat (length (as_rows st)) = Z.of_nat total)%Z.
Proof.
  induction 1 as [u|faults records st total out st' _ (base & seed & Hin & Ht) Hst Hb Hop
    |faults r st total out st' _ (base & seed & Hin & Ht) Hst Hb Hop
    |now st total out st' _ (base & seed & Hin & Ht) Hop
    |now st total out st' _ (base & seed & Hin & Ht) Hop
    |now st total out st' _ (base & seed & Hin & Ht) Hop
    |now max st total out st' _ (base & seed & Hin & Ht) Hmax Hop].
  - exists 0%Z, None. split; [apply new_intact|done].
  - destruct (insert_batch_intact _ _ _ _ _ _ _ Hin Hst ltac:(lia) Hop) as [Hin' Hl].
    exists base, seed. split; [done|]. rewrite Hl. destruct out; lia.
  - rewrite insert_record_batch in Hop.
    destruct (insert_batch_intact _ _ _ _ _ _ _ Hin (proj2 (Forall_singleton _ _) Hst) ltac:(cbn; lia) Hop) as [Hin' Hl].
    exists base, seed. split; [done|]. rewrite Hl. destruct out; cbn; lia.
  - destruct (incremental_intact now _ _ _ Hin) as (s & Hs & Hin' & Hr). rewrite Hs in Hop.
    injection Hop as <- <-. exists base, seed. by rewrite Hr.
  - destruct (cached_intact now _ _ _ Hin) as (s & Hs & Hin' & Hr). rewrite Hs in Hop.
    injection Hop as <- <-. exists base, seed. by rewrite Hr.
  - rewrite (backfill_intact _ _ _ _ Hin) in Hop. injection Hop as <- <-. by exists base, seed.
  - rewrite <- Ht in Hmax. destruct (prune_intact _ _ _ _ _ _ _ Hin Hmax Hop) as (b' & s' & Hin' & Hl).
    exists b', s'. split; [done|]. lia.
Qed.

(** C11: a history of appends, verifications and prunes that leave a row verifies: the
    full, the incremental and the cached verification agree, and report the number of
    records ever appended, the archived ones included. *)
Theorem honest_history_verifies now st total :
  honest st total →
  let verdict := if (total =? 0)%nat then Empty else Valid (Z.of_nat total) in
  verify_chain now st = inl verdict ∧
  (incremental_verify_chain now st).1 = inl verdict ∧
  (cached_verify_chain now st).1 = inl verdict.
Proof.
  intros (base & seed & Hin & Ht)%honest_intact. cbn zeta.
  assert (verdict base (as_rows st) = if (total =? 0)%nat then Empty else Valid (Z.of_nat total)) as <-.
  { unfold verdict. pose proof (in_base _ _ _ Hin). destruct (Nat.eqb_spec total 0) as [->|].
    - destruct (as_rows st); [done|]. cbn [length] in Ht. lia.
    - destruct (as_rows st) eqn:E; [|by rewrite <- Ht].
      destruct (in_anchor _ _ _ Hin) as [(-> & _)|(_ & Hne & _)]; [cbn in Ht; lia|by rewrite E in Hne]. }
  split; [by eapply verify_chain_intact|].
  destruct (incremental_intact now _ _ _ Hin) as (? & -> & _).
  by destruct (cached_intact now _ _ _ Hin) as (? & -> & _).
Qed.

End History.

Section Concrete.
#[local] Existing Instances concrete_deps concrete_deps_laws audit_chrono audit_chrono_laws audit_fmt toy_sha256
  concrete_audit_codec concrete_audit_codec_laws.

Definition at_nine : DateTime (Deps := concrete_deps) := 9%Z.
Definition no_fault : nat → option string := λ _, None.
Definition two_records : list AuditRecord := [example_record uuid_a "{}"; example_record uuid_b "[]"].

(** Two records appended, the first one pruned. *)
Definition two_appended : AuditStorage := (insert_batch no_fault two_records (new_storage true)).2.
Definition one_pruned : AuditStorage := (delete_prefix at_nine 1 two_appended).2.

Lemma two_appended_honest : honest two_appended 2.
Proof.
  assert (honest two_appended (0 + if (insert_batch no_fault two_records (new_storage true)).1 then 2 else 0)) as H.
  { apply (honest_batch no_fault two_records (new_storage true) 0); [apply honest_new| |done|apply surjective_pairing].
    apply Forall_cons; split; [by apply example_storable|]; apply Forall_singleton; by apply example_storable. }
  by replace (if (insert_batch no_fault two_records (new_storage true)).1 then 2 else 0)
    with 2 in H by (vm_compute; reflexivity).
Qed.

Lemma one_pruned_honest : honest one_pruned 2.
Proof.
  eapply (honest_prune at_nine 1); [apply two_appended_honest|done|apply surjective_pairing].
Qed.

Lemma honest_history_verifies_witness :
  verify_chain at_nine one_pruned = inl (Valid 2) ∧
  (incremental_verify_chain at_nine one_pruned).1 = inl (Valid 2) ∧
  (cached_verify_chain at_nine one_pruned).1 = inl (Valid 2).
Proof. exact (honest_history_verifies at_nine one_pruned 2 one_pruned_honest). Defined.

Example one_row_left : length (as_rows one_pruned) = 1.
Proof. vm_compute. reflexivity. Qed.

End Concrete.
