(* ===== verification/AuditTamper.v ===== *)
(** * Tampering with the audit chain

    What verification sees of a table that anybody may have written: exactly the
    contiguity, the links, the hashes and the spelling of the rows above its start.
    A head hash held elsewhere commits to every row below it; a checkpoint hides the
    rows at or below it. *)

From Stdlib Require Import Ascii String ZArith Lia SpecFloat.
From stdpp Require Import sorting.
From S2P Require Import Prelude Concrete F64 Canonical Types Reputation DbusWire AuditRecord AuditRow AuditChain AuditHistory.

#[local] Arguments String.append !_ _ / : simpl nomatch.

(** ** Computed hashes *)

Section Hashes.
Context {D : Deps} {CH : Chrono} {FD : F64Display} {SH : Sha256}.

Lemma compute_record_hash_shape r :
  lacks "|" (compute_record_hash r) = true ∧ compute_record_hash r ≠ "GENESIS".
Proof.
  assert (∀ x, lacks "|" (sha256_hex x) = true ∧ sha256_hex x ≠ "GENESIS") as Hhex.
  { intros x. pose proof (hex_of_bytes_is_hex (sha256 x)) as Hx. unfold sha256_hex.
    split; [by apply is_hex_lacks|]. intros E. by rewrite E in Hx. }
  unfold compute_record_hash. repeat (case_match; [apply Hhex|]).
  split; [|done]. rewrite lacks_app. cbn. apply fmt_N_lacks. intros d. unfold pretty_N_char. by repeat case_match.
Qed.

(** The texts of two links tell them apart. *)
Lemma link_text_inj (p q : option string) :
  (∀ h, p = Some h → ∃ r, h = compute_record_hash r) → (∀ h, q = Some h → ∃ r, h = compute_record_hash r) →
  default "GENESIS" p = default "GENESIS" q → p = q.
Proof.
  intros Hp Hq. destruct p as [x|], q as [y|]; cbn; try done; intros E.
  - by rewrite E.
  - destruct (Hp x eq_refl) as [r ->]. by destruct (compute_record_hash_shape r).
  - destruct (Hq y eq_refl) as [r ->]. by destruct (compute_record_hash_shape r).
Qed.

Lemma link_text_lacks (p : option string) :
  (∀ h, p = Some h → ∃ r, h = compute_record_hash r) → lacks "|" (default "GENESIS" p) = true.
Proof. destruct p as [h|]; [|done]. cbn. intros H. destruct (H h eq_refl) as [r ->]. apply compute_record_hash_shape. Qed.
End Hashes.

(** ** What a head commits to *)

Section Commits.
Context {D : Deps} {CH : Chrono} {FD : F64Display} {SH : Sha256} {AC : AuditCodec}.
Implicit Types (l : list (Z * AuditRow)).

Lemma walked_app now s p l l' :
  walked now s p (l ++ l') ↔
  walked now s p l ∧ walked now (s + Z.of_nat (length l)) (seed_after p l.*2) l'.
Proof.
  revert s p. induction l as [|[q row] l IH]; intros s p; cbn [app walked length fmap list_fmap].
  - rewrite Z.add_0_r. naive_solver.
  - cbn. rewrite IH, seed_after_cons, Nat2Z.inj_succ.
    replace (s + 1 + Z.of_nat (length l))%Z with (s + Z.succ (Z.of_nat (length l)))%Z by lia. naive_solver.
Qed.

Lemma walked_hash now s l :
  walked now s None l → ∀ h, seed_after None l.*2 = Some h → ∃ r, h = compute_record_hash r.
Proof.
  intros Hw h. induction l as [|[q row] l _] using rev_ind; [done|].
  apply walked_app in Hw as [_ (_ & (rec & _ & _ & Hh & _) & _)].
  rewrite fmap_app. unfold seed_after. cbn. rewrite last_snoc, Hh. intros [= <-]. by exists rec.
Qed.

(** The records of two rows, as far as the hash of the first fixes the second. *)
Definition committed_rows (now : DateTime) (x y : Z * AuditRow) : Prop :=
  ∃ a b, row_to_record now x.2 = Ok a ∧ row_to_record now y.2 = Ok b ∧ committed a b.

(** The floats of the rows that read are floats, and their versions are known. *)
Definition rows_valid (now : DateTime) (l : list (Z * AuditRow)) : Prop :=
  ∀ x r, x ∈ l → row_to_record now x.2 = Ok r → record_valid r.
Definition rows_supported (now : DateTime) (l : list (Z * AuditRow)) : Prop :=
  ∀ x r, x ∈ l → row_to_record now x.2 = Ok r → supported r.

Lemma rows_valid_app now l l' : rows_valid now (l ++ l') → rows_valid now l ∧ rows_valid now l'.
Proof. unfold rows_valid. intros H. split; intros x r Hx; apply H; rewrite elem_of_app; auto. Qed.

Lemma rows_supported_app now l l' :
  rows_supported now (l ++ l') → rows_supported now l ∧ rows_supported now l'.
Proof. unfold rows_supported. intros H. split; intros x r Hx; apply H; rewrite elem_of_app; auto. Qed.

Context {DL : DepsLaws} {CL : ChronoLaws}.

Lemma last_links_commit now s s' p p' q q' x y :
  walked now s p [(q, x)] → walked now s' p' [(q', y)] →
  (∀ h, p = Some h → ∃ r, h = compute_record_hash r) → (∀ h, p' = Some h → ∃ r, h = compute_record_hash r) →
  rows_supported now [(q, x)] → rows_valid now [(q, x)] → rows_valid now [(q', y)] →
  col_record_hash x = col_record_hash y →
  (committed_rows now (q, x) (q', y) ∧ p = p') ∨ collision.
Proof.
  intros (_ & (a & Ha & Pa & Ea & _) & _) (_ & (b & Hb & Pb & Eb & _) & _) Hp Hp' Hs Hv Hv' Hh.
  specialize (Hs _ a (proj2 (list_elem_of_singleton _ _) eq_refl) Ha).
  specialize (Hv _ a (proj2 (list_elem_of_singleton _ _) eq_refl) Ha).
  specialize (Hv' _ b (proj2 (list_elem_of_singleton _ _) eq_refl) Hb).
  destruct (hash_commits a b Hs Hv Hv') as [Hc|?]; [congruence|left|by right].
  split; [by exists a, b|].
  destruct (row_to_record_columns _ _ _ Ha) as (Qa & _), (row_to_record_columns _ _ _ Hb) as (Qb & _).
  assert (rec_prev_hash a = p) as <- by congruence. assert (rec_prev_hash b = p') as <- by congruence.
  apply link_text_inj; [done..|]. by apply committed_prev; [|apply link_text_lacks..|].
Qed.

Lemma walks_commit now l l' :
  walked now 1 None l → walked now 1 None l' → rows_supported now l → rows_valid now l → rows_valid now l' →
  seed_after None l.*2 = seed_after None l'.*2 →
  Forall2 (committed_rows now) l l' ∨ collision.
Proof.
  revert l'. induction l as [|[q x] l IH] using rev_ind; intros l' Hw Hw' Hs Hv Hv'.
  - destruct l' as [|[q' y] l' _] using rev_ind; [by left|].
    apply walked_app in Hw' as [_ (_ & (b & _ & _ & Eb & _) & _)].
    rewrite fmap_app. unfold seed_after. cbn. rewrite last_snoc. by rewrite Eb.
  - destruct l' as [|[q' y] l' _] using rev_ind.
    { apply walked_app in Hw as [_ (_ & (a & _ & _ & Ea & _) & _)].
      rewrite fmap_app. unfold seed_after. cbn. rewrite last_snoc. by rewrite Ea. }
    apply walked_app in Hw as [Hw Hx], Hw' as [Hw' Hy]. rewrite !fmap_app.
    unfold seed_after at 1 2. cbn. rewrite !last_snoc. intros Hh.
    apply rows_supported_app in Hs as [Hs Hs1]. apply rows_valid_app in Hv as [Hv Hv1], Hv' as [Hv' Hv1'].
    edestruct (last_links_commit now) as [[Hc Hseed]|?];
      [exact Hx|exact Hy|by eapply walked_hash|by eapply walked_hash|done..| |by right].
    destruct (IH l' Hw Hw' Hs Hv Hv' Hseed) as [Hall|?]; [left|by right].
    apply Forall2_app; [done|]. by constructor.
Qed.

End Commits.

(** ** Verification is exactly the walk *)

Section Exact.
Context {D : Deps} {CH : Chrono} {FD : F64Display} {SH : Sha256} {AC : AuditCodec}.
Implicit Types (rows : list AuditRow) (row : AuditRow).

Lemma verify_rows_complete now s p count l :
  walked now s p l → verify_rows now s p count l = inl (Valid (count + Z.of_nat (length l))).
Proof.
  revert s p count. induction l as [|[q row] l IH]; intros s p count; cbn [walked verify_rows length].
  - intros _. do 2 f_equal. lia.
  - intros (-> & (rec & Hr & Hp & Hh & Hc) & Hw).
    destruct (row_to_record_columns _ _ _ Hr) as (Ep & Eh & _).
    rewrite Hr, Z.eqb_refl. cbn [negb]. rewrite Ep, Hp, bool_decide_true by done. cbn [negb].
    rewrite Eh, Hh, bool_decide_true by done. cbn [negb]. rewrite Hc. rewrite Hh in Hw.
    rewrite IH by done. do 2 f_equal. lia.
Qed.

(** C13: what [verify_chain_from] means.  It reports [Valid n] exactly when the table is
    not empty, no row lacks a sequence if the walk starts at the genesis, and the rows
    above the start, in the order of their sequences, read as records that are numbered
    without a gap from the start, linked to the seed and to each other, hash to their
    stored hash and spell their enumerations canonically; [n] counts them on top of what
    was verified before. *)
Theorem verify_chain_from_exact now start seed already rows n :
  verify_chain_from now start seed already rows = inl (Valid n) ↔
  rows ≠ [] ∧ (start = 0%Z → legacy_rows rows = []) ∧
  walked now (start + 1) seed (above start rows) ∧
  n = (already + Z.of_nat (length (above start rows)))%Z.
Proof.
  unfold verify_chain_from. destruct rows as [|r rows]; [naive_solver|]. set (all := r :: rows).
  destruct (Z.eqb_spec start 0) as [->|Hs].
  - destruct (legacy_rows all) as [|l ls]; cbn [head]; [|naive_solver].
    split; [intros H%verify_rows_sound; naive_solver|].
    intros (_ & _ & Hw & ->). by apply verify_rows_complete.
  - split; [intros H%verify_rows_sound; naive_solver|].
    intros (_ & _ & Hw & ->). by apply verify_rows_complete.
Qed.

(** The record of a version the program does not know is taken at its word: the stored
    text [UNSUPPORTED_HASH_VERSION:n] passes for the hash of any content. *)
Lemma unsupported_version_accepted now s p count row rec :
  row_to_record now row = Ok rec → ¬ supported rec → row_noncanonical row rec = None →
  col_prev_hash row = p →
  col_record_hash row = Some ("UNSUPPORTED_HASH_VERSION:" +:+ fmt_N (rec_hash_version rec)) →
  verify_rows now s p count [(s, row)] = inl (Valid (count + 1)).
Proof.
  intros Hr Hs Hc Hp Hh. apply (verify_rows_complete now s p count [(s, row)]). split; [done|].
  split; [|done]. exists rec. split; [done|]. split; [done|]. split; [|done]. rewrite Hh. f_equal.
  unfold compute_record_hash, supported in *.
  by rewrite !(proj2 (N.eqb_neq _ _)) by naive_solver.
Qed.

(** Rows at sequence 0 and below are never walked from the genesis. *)
Lemma nonpositive_rows_skipped now rows n forged :
  verify_chain_from now 0 None 0 rows = inl (Valid n) →
  Forall (λ r, ∃ q, col_chain_sequence r = Some q ∧ (q <= 0)%Z) forged →
  above 0 (forged ++ rows) = above 0 rows →
  verify_chain_from now 0 None 0 (forged ++ rows) = inl (Valid n).
Proof.
  rewrite !verify_chain_from_exact. intros (Hne & Hl & Hw & Hn) Hf Ha. rewrite Ha.
  split; [by destruct forged|]. split; [|done]. intros _. specialize (Hl eq_refl).
  unfold legacy_rows in *. rewrite List.filter_app.
  assert (List.filter unchained forged = []) as ->; [|done].
  apply filter_none. intros r Hr. rewrite Forall_forall in Hf. destruct (Hf r Hr) as (q & Hq & _).
  unfold unchained. by rewrite Hq.
Qed.

(** Verification reads a row only through its record and the two enumerations: another
    spelling of an id or of an instant is not seen. *)
Lemma spelling_is_free now s p count q row row' l :
  row_to_record now row = row_to_record now row' →
  col_record_type row = col_record_type row' → col_proxy_action row = col_proxy_action row' →
  verify_rows now s p count ((q, row) :: l) = verify_rows now s p count ((q, row') :: l).
Proof.
  intros Hr Ht Ha. cbn [verify_rows]. rewrite Hr. unfold row_noncanonical. by rewrite Ht, Ha.
Qed.

(** C12: The head hash commits to the evidence. Two tables that both verify from the
    genesis (the full walk from sequence zero, without checkpoint or archive boundary)
    and end in the same hash, the rows of the first under known hash versions (1 to 3)
    and the rows of both holding valid floats, have equally many rows above sequence
    zero and, row by row, the same version and the same content of all fields that
    version's hash covers (version 1 covers nine fields) - or two texts with the same
    SHA-256 are exhibited. A row of an unknown version commits to nothing
    (unsupported_version_accepted). *)
Theorem head_hash_commits {DL : DepsLaws} {CL : ChronoLaws} now rows rows' n n' :
  verify_chain_from now 0 None 0 rows = inl (Valid n) →
  verify_chain_from now 0 None 0 rows' = inl (Valid n') →
  seed_after None (above 0 rows).*2 = seed_after None (above 0 rows').*2 →
  rows_supported now (above 0 rows) →
  rows_valid now (above 0 rows) → rows_valid now (above 0 rows') →
  (n = n' ∧ Forall2 (committed_rows now) (above 0 rows) (above 0 rows')) ∨ collision.
Proof.
  intros (_ & _ & Hw & ->)%verify_chain_from_exact (_ & _ & Hw' & ->)%verify_chain_from_exact Hh Hs Hv Hv'.
  destruct (walks_commit now _ _ Hw Hw' Hs Hv Hv' Hh) as [Hall|?]; [left|by right].
  split; [|done]. by rewrite (Forall2_length _ _ _ Hall).
Qed.

(** What a checkpoint hides.  When every chained row is at or below the checkpoint --
    whatever the rows hold and however many were cut from the end -- the incremental
    verification of a writable table reports it valid with the checkpoint's count. *)
Theorem checkpoint_hides now st c :
  as_verified_head st = Some (Ok c) → as_rows st ≠ [] → ck_sequence c ≠ 0%Z → as_read_only st = false →
  Forall (λ r, ∀ q, col_chain_sequence r = Some q → (q <= ck_sequence c)%Z) (as_rows st) →
  (incremental_verify_chain now st).1 = inl (Valid (Z.max 0 (ck_sequence c))).
Proof.
  intros Hk Hne Hz Hro Hbelow. unfold incremental_verify_chain, incremental_start. rewrite Hk.
  assert (above (ck_sequence c) (as_rows st) = []) as Habove.
  { unfold above. apply filter_none. intros [q r] Hx. unfold by_sequence in Hx.
    rewrite (merge_sort_Permutation seq_le) in Hx.
    apply list_elem_of_omap in Hx as (r' & Hr' & Hs). unfold sequenced in Hs.
    destruct (col_chain_sequence r') as [q'|] eqn:E; [|done]. injection Hs as -> ->.
    apply Z.ltb_ge. rewrite Forall_forall in Hbelow. by apply (Hbelow r). }
  assert (verify_chain_from now (ck_sequence c) (ck_record_hash c) (Z.max 0 (ck_sequence c)) (as_rows st)
    = inl (Valid (Z.max 0 (ck_sequence c)))) as ->.
  { apply verify_chain_from_exact. rewrite Habove. split; [done|]. split; [done|]. split; [done|]. cbn. lia. }
  unfold advance_checkpoint. destruct (last (by_sequence (as_rows st))) as [[q r]|]; [|done]. rewrite Hk.
  destruct (negb (negb _)); [done|]. by rewrite Hro.
Qed.

End Exact.

(** ** Pruning everything *)

Section FullPrune.
Context {D : Deps} {CH : Chrono} {FD : F64Display} {SH : Sha256} {AC : AuditCodec}.
Context {DL : DepsLaws} {CL : ChronoLaws} {ACL : AuditCodecLaws}.

Lemma delete_all now st base seed before row out st' :
  intact st base seed → as_rows st = before ++ [row] →
  delete_prefix now (base + Z.of_nat (S (length before))) st = (out, st') →
  as_rows st' = [] ∧ as_read_only st' = false ∧ as_quarantine st' = None ∧
  ∃ c, as_verified_head st' = Some (Ok c) ∧ ck_sequence c = (base + Z.of_nat (S (length before)))%Z.
Proof.
  intros Hin Hr Hd. pose proof (in_base _ _ _ Hin) as Hb.
  destruct (boundary_hash _ _ _ _ _ _ Hin Hr) as (h & Hh & Hseed).
  pose proof (in_chain _ _ _ Hin) as Hc.
  assert (Hr' : as_rows st = (before ++ [row]) ++ []) by by rewrite app_nil_r.
  rewrite Hr' in Hc. destruct (filter_prefix _ _ _ _ Hc) as [Hf1 Hf2].
  pose proof (checkpoint_above _ _ _ _ _ _ Hin Hr' Hseed) as Hk.
  rewrite length_app in *. cbn [length] in *. rewrite Nat.add_1_r in *.
  set (max := (base + Z.of_nat (S (length before)))%Z) in *.
  replace (base + 1 + Z.of_nat (S (length before)) - 1)%Z with max in Hf1, Hf2 by (unfold max; lia).
  revert Hd. unfold delete_prefix.
  rewrite (proj2 (Z.leb_gt _ _)), Hh, Hr', Hf1, Hf2, length_app by (unfold max; lia).
  cbn [length]. rewrite Nat.add_1_r. cbn [Nat.eqb].
  destruct (in_writable _ _ _ Hin) as [Hro Hq]. rewrite Hro.
  destruct Hk as [Hk|(c & Hk & Hcase)]; rewrite Hk; cbn.
  - intros [= <- <-]. repeat split; [done..|]. by eexists.
  - destruct (Z.ltb_spec (ck_sequence c) max); intros [= <- <-]; cbn; repeat split; try done; [by eexists|].
    destruct Hcase as [?|(mid & rest & Hmid & Hs & _)]; [lia|].
    symmetry in Hmid. apply app_eq_nil in Hmid as [-> _]. exists c. split; [done|]. rewrite Hs. cbn. lia.
Qed.

(** The first row of an empty table. *)
Lemma insert_into_empty faults r st st' :
  as_rows st = [] → as_read_only st = false → as_quarantine st = None → storable r →
  insert_record faults r st = (inl (), st') →
  ∃ row, as_rows st' = [row] ∧ chain_ok 1 None [row] ∧ as_verified_head st' = as_verified_head st ∧
    as_read_only st' = false.
Proof.
  intros Hrows Hro Hq Hst. unfold insert_record. rewrite Hq.
  assert (∀ remaining attempt, attempt_append remaining attempt faults [r] st = (inl (), st') →
    ∃ row, as_rows st' = [row] ∧ chain_ok 1 None [row] ∧ as_verified_head st' = as_verified_head st ∧
      as_read_only st' = false) as H; [|apply H].
  assert (∀ attempt rows, append_transaction (faults attempt) [r] st = inl rows →
    ∃ row, rows = [row] ∧ chain_ok 1 None [row]) as Htx.
  { intros attempt rows. unfold append_transaction. destruct (faults attempt); [done|].
    rewrite Hro, Hrows. intros E.
    apply (insert_all_ok _ 0 None [r] []) in E as (Hc & Hl & _); [|done|by constructor|done|done].
    destruct rows as [|row [|]]; [done| |done]. by exists row. }
  intros remaining. induction remaining as [|k IH]; intros attempt; cbn [attempt_append];
    destruct (append_transaction (faults attempt) [r] st) as [rows|e] eqn:E.
  1,3: intros [= <-]; destruct (Htx _ _ E) as (row & -> & Hc); by exists row.
  - done.
  - destruct k as [|k]; [done|]. destruct (is_unique_sequence_violation e); [apply IH|done].
Qed.

(** Pruning every row restarts the chain.  The archive boundary is not read when the
    next sequence is allocated: the record after it is a second genesis, sequence 1
    without a predecessor; the full verification then counts one record, while the
    incremental one still reports as many as were archived, without having looked at the
    new row. *)
Theorem full_prune_restarts now st total r faults out st1 st2 :
  honest st total → (0 < total)%nat → storable r →
  delete_prefix now (Z.of_nat total) st = (out, st1) →
  insert_record faults r st1 = (inl (), st2) →
  first_chained_row (as_rows st2) = Some (1%Z, None) ∧
  verify_chain now st2 = inl (Valid 1) ∧
  (incremental_verify_chain now st2).1 = inl (Valid (Z.of_nat total)).
Proof.
  intros (base & seed & Hin & Ht)%honest_intact Hpos Hst Hd Hi.
  destruct (as_rows st) as [|row before _] eqn:Hr using rev_ind.
  { destruct (in_anchor _ _ _ Hin) as [(-> & _)|(_ & Hne & _)]; [cbn in Ht; lia|by rewrite Hr in Hne]. }
  rewrite length_app in Ht. cbn [length] in Ht. rewrite Nat.add_1_r in Ht. rewrite <- Ht in Hd.
  destruct (delete_all _ _ _ _ _ _ _ _ Hin Hr Hd) as (Hr1 & Hro & Hq & c & Hk & Hs).
  destruct (insert_into_empty _ _ _ _ Hr1 Hro Hq Hst Hi) as (x & Hr2 & Hc & Hk2 & Hro2).
  pose proof (first_chained_chain 0 None [x] Hc) as Hfirst. rewrite Hr2.
  split; [done|]. split.
  - unfold verify_chain, resolve_verification_anchor. rewrite Hr2, Hfirst. cbn [Z.leb].
    exact (verify_from_inside now 0 None [] [x] 0 Hc ltac:(done)).
  - rewrite Hk in Hk2. rewrite (checkpoint_hides now st2 c Hk2); [f_equal; f_equal; lia|by rewrite Hr2|lia|done|].
    rewrite Hr2. apply Forall_singleton. destruct Hc as [(rec & Hl) _]. rewrite (lk_sequence _ _ _ _ Hl).
    intros q [= <-]. lia.
Qed.

End FullPrune.

(** ** Repairing *)

Section Repair.
Context {D : Deps} {CH : Chrono} {FD : F64Display} {SH : Sha256} {AC : AuditCodec}.

(** Records that hash to their stored hash once they are numbered and linked anew. *)
Fixpoint hashed_in_place (i : Z) (prev : option string) (records : list AuditRecord) : Prop :=
  match records with
  | [] => True
  | r :: records =>
      rec_record_hash r = Some (compute_record_hash (set_chain r (Some (i + 1)%Z) prev None)) ∧
      hashed_in_place (i + 1) (rec_record_hash r) records
  end.

Lemma repair_all_nothing unique i prev records n rows :
  hashed_in_place i prev records → repair_all unique i prev records n rows = inl (n, rows).
Proof.
  revert i prev. induction records as [|r records IH]; intros i prev; [done|]. intros [Hh Hrest].
  cbn [repair_all]. unfold repair_fields. cbn [rec_chain_sequence rec_prev_hash rec_record_hash set_chain].
  rewrite !bool_decide_true by done. rewrite Hh.
  change (compute_record_hash (set_chain r (Some (i + 1)%Z) prev (Some _)))
    with (compute_record_hash (set_chain r (Some (i + 1)%Z) prev None)).
  cbn [negb orb rec_record_hash set_chain].
  rewrite <- Hh. by apply IH.
Qed.

Lemma flip_positive rows :
  Forall (λ r, ∀ q, col_chain_sequence r = Some q → (0 <= q)%Z) rows → map flip_placeholder rows = rows.
Proof.
  induction 1 as [|r rows Hr _ IH]; cbn; [done|]. rewrite IH. f_equal. unfold flip_placeholder.
  destruct (col_chain_sequence r) as [q|] eqn:E; [|done]. rewrite (proj2 (Z.ltb_ge _ _)); [done|by apply Hr].
Qed.

(** [repair_chain] does not see a link.  When every chained record has the hash it
    would have in its place, the repair reports nothing to do and changes no row,
    whatever the rows' own [prev_hash] and gaps: the chain stays as broken as it was. *)
Theorem repair_misses_links now st records :
  read_all now (by_sequence (as_rows st)).*2 = Ok records →
  hashed_in_place 0 None records → as_read_only st = false →
  Forall (λ r, ∀ q, col_chain_sequence r = Some q → (0 <= q)%Z) (as_rows st) →
  (repair_chain now st).1 = inl 0 ∧
  as_rows (repair_chain now st).2 = as_rows st ∧
  verify_chain now (repair_chain now st).2 = verify_chain now st.
Proof.
  intros Hread Hh Hro Hpos. unfold repair_chain. rewrite Hread.
  destruct records as [|r records]; [done|]. rewrite Hro, repair_all_nothing by done. cbn.
  rewrite flip_positive by done. split; [done|]. split; [done|].
  unfold verify_chain, resolve_verification_anchor. cbn. done.
Qed.

End Repair.

(** ** Concrete runs *)

Section Concrete.
#[local] Existing Instances concrete_deps concrete_deps_laws audit_chrono audit_chrono_laws audit_fmt toy_sha256
  concrete_audit_codec concrete_audit_codec_laws.

(** The verdicts as booleans. *)
Definition reports (n : Z) (v : ChainVerification + AuditError) : bool :=
  match v with inl (Valid m) => (m =? n)%Z | _ => false end.

Lemma reports_valid n v : reports n v = true → v = inl (Valid n).
Proof. destruct v as [[m| | | |]|]; cbn; try done. by intros ->%Z.eqb_eq. Qed.

Definition link_broken_at (q : Z) (v : ChainVerification + AuditError) : bool :=
  match v with inl (Broken s _ (PrevHashMismatch _ _)) => (s =? q)%Z | _ => false end.

Definition record_validb (r : AuditRecord) : bool :=
  f64_valid (rec_composite_score r) && f64_valid (rec_evaluation_time_ms r)
  && (match rec_estimated_cost_usd r with Some x => f64_valid x | None => true end)
  && forallb (λ fr, f64_valid (frs_score fr)) (rec_filter_results r)
  && (match rec_filter_scores r with Some m => forallb (λ kv, f64_valid kv.2) (map_to_list m) | None => true end).

Lemma record_validb_spec r : record_validb r = true → record_valid r.
Proof.
  unfold record_validb. rewrite !andb_true_iff, forallb_true_Forall. intros ((((H1&H2)&H3)&H4)&H5).
  split; try done.
  - intros x Hx. by rewrite Hx in H3.
  - intros m Hm. rewrite Hm in H5. apply forallb_true_Forall in H5. intros k x Hk.
    rewrite Forall_forall in H5. by apply (H5 (k, x)), elem_of_map_to_list.
Qed.

Definition rows_check (l : list (Z * AuditRow)) : bool :=
  forallb (λ x, match row_to_record at_nine x.2 with
                | Ok r => N.eqb (rec_hash_version r) 3 && record_validb r | Err _ => true end) l.

Lemma rows_check_spec l : rows_check l = true → rows_supported at_nine l ∧ rows_valid at_nine l.
Proof.
  unfold rows_check. rewrite forallb_true_Forall, Forall_forall. intros H.
  split; intros x r Hx Hr; specialize (H x Hx); cbn beta in H; rewrite Hr in H; apply andb_true_iff in H as [Hv Hb].
  - right. right. by apply N.eqb_eq.
  - by apply record_validb_spec.
Qed.

Lemma head_hash_commits_witness :
  let rows := as_rows two_appended in
  (2%Z = 2%Z ∧ Forall2 (committed_rows at_nine) (above 0 rows) (above 0 rows)) ∨ collision.
Proof.
  assert (rows_check (above 0 (as_rows two_appended)) = true) as H by (vm_compute; reflexivity).
  apply rows_check_spec in H as [Hs Hv].
  assert (verify_chain_from at_nine 0 None 0 (as_rows two_appended) = inl (Valid 2)) as Hw
    by (apply reports_valid; vm_compute; reflexivity).
  exact (head_hash_commits at_nine (as_rows two_appended) (as_rows two_appended) 2 2 Hw Hw eq_refl Hs Hv Hv).
Defined.

(** The newest record is cut off after a verification. *)
Definition truncated : AuditStorage :=
  let st := (incremental_verify_chain at_nine two_appended).2 in
  set_rows (take 1 (as_rows st)) (set_cache None st).

Definition checkpoint_of (st : AuditStorage) : ChainCheckpoint :=
  match as_verified_head st with Some (Ok c) => c | _ => {| ck_sequence := 0; ck_record_hash := None |} end.
Definition truncated_checkpoint : ChainCheckpoint := checkpoint_of truncated.

Lemma checkpoint_hides_witness :
  (incremental_verify_chain at_nine truncated).1 = inl (Valid (Z.max 0 (ck_sequence truncated_checkpoint))).
Proof.
  apply checkpoint_hides.
  - vm_compute. reflexivity.
  - vm_compute. discriminate.
  - vm_compute. discriminate.
  - vm_compute. reflexivity.
  - assert (forallb (λ r, match col_chain_sequence r with Some q => (q <=? ck_sequence truncated_checkpoint)%Z | None => true end)
      (as_rows truncated) = true) as H by (vm_compute; reflexivity).
    apply forallb_true_Forall in H. eapply Forall_impl; [exact H|]. cbn beta. intros r Hr q Hq.
    rewrite Hq in Hr. by apply Z.leb_le.
Defined.

(** The incremental verification still counts two records; the table holds one. *)
Example truncation_unseen :
  ck_sequence truncated_checkpoint = 2%Z ∧ reports 1 (verify_chain at_nine truncated) = true.
Proof. split; vm_compute; reflexivity. Qed.

Definition uuid_c : Uuid (Deps := concrete_deps) :=
  exist _ "00000000-0000-4000-8000-00000000000c" (proj2 (uuid_shape_ok "00000000-0000-4000-8000-00000000000c") eq_refl).

Definition emptied : AuditStorage := (delete_prefix at_nine 2 two_appended).2.
Definition restarted : AuditStorage :=
  (insert_record no_fault (example_record uuid_c "{}") emptied).2.

Lemma full_prune_restarts_witness :
  first_chained_row (as_rows restarted) = Some (1%Z, None) ∧
  verify_chain at_nine restarted = inl (Valid 1) ∧
  (incremental_verify_chain at_nine restarted).1 = inl (Valid 2).
Proof.
  eapply (full_prune_restarts at_nine two_appended 2 (example_record uuid_c "{}") no_fault _ emptied restarted).
  - apply two_appended_honest.
  - lia.
  - by apply example_storable.
  - apply surjective_pairing.
  - unfold restarted. rewrite (surjective_pairing (insert_record no_fault _ emptied)) at 1.
    f_equal.
Defined.

(** When as many records as were archived and one more have followed, the incremental
    verification takes the old checkpoint for a break. *)
Definition thrice (st : AuditStorage) : AuditStorage :=
  (insert_batch no_fault [example_record uuid_c "{}"; example_record uuid_a "[]"; example_record uuid_b "{}"] st).2.

Example then_falsely_broken :
  link_broken_at 3 (incremental_verify_chain at_nine (thrice emptied)).1
  && reports 3 (verify_chain at_nine (thrice emptied)) = true.
Proof. vm_compute. reflexivity. Qed.

(** The link of the second record is overwritten. *)
Definition relink (row : AuditRow) : AuditRow :=
  if bool_decide (col_chain_sequence row = Some 2%Z)
  then set_chain_columns row (Some 2%Z) (Some "00") (col_record_hash row) else row.
Definition relinked : AuditStorage := set_rows (map relink (as_rows two_appended)) two_appended.

Definition relinked_records : list AuditRecord :=
  match read_all at_nine (by_sequence (as_rows relinked)).*2 with Ok l => l | Err _ => [] end.

Definition readable (st : AuditStorage) : bool :=
  match read_all at_nine (by_sequence (as_rows st)).*2 with Ok _ => true | Err _ => false end.

Lemma repair_misses_links_witness :
  (repair_chain at_nine relinked).1 = inl 0 ∧
  as_rows (repair_chain at_nine relinked).2 = as_rows relinked ∧
  verify_chain at_nine (repair_chain at_nine relinked).2 = verify_chain at_nine relinked.
Proof.
  apply (repair_misses_links at_nine relinked relinked_records).
  - assert (readable relinked = true) as H by (vm_compute; reflexivity). revert H.
    unfold relinked_records, readable. by destruct (read_all _ _).
  - vm_compute. done.
  - reflexivity.
  - assert (forallb (λ r, match col_chain_sequence r with Some q => (0 <=? q)%Z | None => true end)
      (as_rows relinked) = true) as H by (vm_compute; reflexivity).
    apply forallb_true_Forall in H. eapply Forall_impl; [exact H|]. cbn beta. intros r Hr q Hq.
    rewrite Hq in Hr. by apply Z.leb_le.
Defined.

Example relinked_is_broken : link_broken_at 2 (verify_chain at_nine relinked) = true.
Proof. vm_compute. reflexivity. Qed.

End Concrete.
