(* ===== verification/AuditRetention.v ===== *)
(** * Retention and cold storage

    [grith-audit/src/retention.rs]: the pass that archives the old prefix of the chain
    and then deletes it, and the recovery of the boundary from the archives.  An archive
    file is the list of its frames, each the list of its lines; a torn write leaves a
    frame that does not decode.  [serde_json] and [chrono]'s calendar are parameters, and
    so is what the disk does to each append. *)

From Stdlib Require Import Ascii String ZArith Lia SpecFloat.
From stdpp Require Import sorting.
From S2P Require Import Prelude Concrete F64 Canonical Types Reputation DbusWire AuditRecord AuditRow AuditChain AuditHistory.

(** ** Files *)

Inductive ArchiveFrame :=
  | Lines (lines : list string)
  | Garbled.

(** The files of the cold directory by name. *)
Abbreviation ColdDir := (gmap string (list ArchiveFrame)).

(** What the disk does to an append: all of it, nothing without an error, or a part and
    an error. *)
Inductive AppendFate := Written | Lost | Torn (error : string).

Class ColdCodec {D : Deps} := {
  record_to_json : AuditRecord → string;
  record_from_json : string → option AuditRecord;
  format_date : DateTime → string;
}.

(** The JSON of a record is one line that is not blank, and it reads back when the floats
    are finite. *)
Definition json_safe {D : Deps} (r : AuditRecord) : bool :=
  is_finite (rec_composite_score r) && is_finite (rec_evaluation_time_ms r)
  && from_option is_finite true (rec_estimated_cost_usd r)
  && forallb (λ fr, is_finite (frs_score fr)) (rec_filter_results r)
  && from_option (λ m : gmap string f64, forallb (λ kv, is_finite kv.2) (map_to_list m)) true
       (rec_filter_scores r).

Class ColdCodecLaws `{ColdCodec} : Prop := {
  record_round_trip : ∀ r, json_safe r = true → record_from_json (record_to_json r) = Some r;
  record_line : ∀ r, String.eqb (trim (record_to_json r)) "" = false;
}.

Section Retention.
Context {D : Deps} {CH : Chrono} {FD : F64Display} {SH : Sha256} {AC : AuditCodec} {CC : ColdCodec}.

(** The records of some lines. *)
Fixpoint read_lines (lines : list string) : result (list AuditRecord) :=
  match lines with
  | [] => Ok []
  | line :: lines =>
      if String.eqb (trim line) "" then read_lines lines
      else match record_from_json line with
           | None => Err "serialization error"
           | Some record => records ← read_lines lines; Ok (record :: records)
           end
  end.

Fixpoint read_frames (frames : list ArchiveFrame) : result (list AuditRecord) :=
  match frames with
  | [] => Ok []
  | Garbled :: _ => Err "I/O error: incomplete frame"
  | Lines lines :: frames => a ← read_lines lines; b ← read_frames frames; Ok (a ++ b)
  end.

(** The frames of a file; a file that is not there has none. *)
Definition frames_at (path : string) (disk : ColdDir) : list ArchiveFrame := default [] (disk !! path).

Definition read_zstd_jsonl (path : string) (disk : ColdDir) : result (list AuditRecord) :=
  read_frames (frames_at path disk).

(** Opening in append mode creates the file whatever happens to the frame. *)
Definition append_zstd_jsonl (fate : AppendFate) (path : string) (records : list AuditRecord)
    (disk : ColdDir) : result unit * ColdDir :=
  let frames := frames_at path disk in
  match fate with
  | Written => (Ok tt, <[path := frames ++ [Lines (map record_to_json records)]]> disk)
  | Lost => (Ok tt, <[path := frames]> disk)
  | Torn e => (Err e, <[path := frames ++ [Garbled]]> disk)
  end.

(** [by_id] of the frames from [start] on: the last record of an id counts. *)
Definition cold_record (i : Uuid) (records : list AuditRecord) : option AuditRecord :=
  List.find (λ r, bool_decide (rec_id r = i)) (rev records).

Definition proves (record : AuditRecord) (cold : option AuditRecord) : bool :=
  match cold with
  | None => false
  | Some cold =>
      bool_decide (rec_record_hash cold = rec_record_hash record)
      && bool_decide (rec_record_hash cold = Some (compute_record_hash cold))
  end.

Definition prove_archived_frame (path : string) (start : nat) (expected : list AuditRecord)
    (disk : ColdDir) : result unit :=
  let frames := frames_at path disk in
  if (length frames <=? start)%nat then Err "analytics projection error: no frame was written"
  else
    cold ← read_frames (drop start frames);
    if forallb (λ record, proves record (cold_record (rec_id record) cold)) expected then Ok tt
    else Err "analytics projection error: cold archive failed hash proof".

(** ** The archiver *)

Definition ARCHIVE_BATCH_RECORDS : nat := Nat.mul 40 50.

Record BatchedArchiver := {
  ba_enabled : bool;
  ba_date : option string;
  ba_buffer : list AuditRecord;
  ba_dates : gset string;
  (** The flushes so far, to number the fates of the disk. *)
  ba_flushes : nat;
}.

Definition BatchedArchiver_new (enabled : bool) : BatchedArchiver :=
  {| ba_enabled := enabled; ba_date := None; ba_buffer := []; ba_dates := ∅; ba_flushes := 0 |}.

Definition archive_path (date : string) : string := date +:+ ".jsonl.zst".

(** The operations of the archiver: an error ends the pass, and what reached the disk
    stays. *)
Definition archiver_flush (fates : nat → AppendFate) (a : BatchedArchiver) (disk : ColdDir) :
    (BatchedArchiver + string) * ColdDir :=
  match ba_buffer a, ba_date a with
  | [], _ => (inl a, disk)
  | _, None => (inr "a non-empty buffer always has a date", disk)
  | buffer, Some date =>
      let path := archive_path date in
      let start := length (frames_at path disk) in
      match append_zstd_jsonl (fates (ba_flushes a)) path buffer disk with
      | (Err e, disk) => (inr e, disk)
      | (Ok _, disk) =>
          match prove_archived_frame path start buffer disk with
          | Err e => (inr e, disk)
          | Ok _ => (inl {| ba_enabled := ba_enabled a; ba_date := ba_date a; ba_buffer := [];
                            ba_dates := {[date]} ∪ ba_dates a; ba_flushes := S (ba_flushes a) |}, disk)
          end
      end
  end.

Definition date_changes (a : BatchedArchiver) (date : string) : bool :=
  match ba_date a with Some current => negb (String.eqb current date) | None => false end.

Definition archiver_push (fates : nat → AppendFate) (record : AuditRecord) (a : BatchedArchiver)
    (disk : ColdDir) : (BatchedArchiver + string) * ColdDir :=
  if negb (ba_enabled a) then (inl a, disk)
  else
    let date := format_date (rec_timestamp record) in
    match (if date_changes a date then archiver_flush fates a disk else (inl a, disk)) with
    | (inr e, disk) => (inr e, disk)
    | (inl a, disk) =>
        let a := {| ba_enabled := ba_enabled a; ba_date := Some date; ba_buffer := ba_buffer a ++ [record];
                    ba_dates := ba_dates a; ba_flushes := ba_flushes a |} in
        if (ARCHIVE_BATCH_RECORDS <=? length (ba_buffer a))%nat then archiver_flush fates a disk
        else (inl a, disk)
    end.

(** [read_prefix_into] with the archiver as its visitor: rows are read one by one. *)
Fixpoint archive_rows (now : DateTime) (fates : nat → AppendFate) (rows : list AuditRow) (count : nat)
    (a : BatchedArchiver) (disk : ColdDir) : ((nat * BatchedArchiver) + AuditError) * ColdDir :=
  match rows with
  | [] => (inl (count, a), disk)
  | row :: rows =>
      match row_to_record now row with
      | Err e => (inr (RowError e), disk)
      | Ok record =>
          match archiver_push fates record a disk with
          | (inr e, disk) => (inr (Archive e), disk)
          | (inl a, disk) => archive_rows now fates rows (S count) a disk
          end
      end
  end.

(** ** The pass *)

Record PruneStats := {
  ps_archived_rows : nat;
  ps_archive_files : nat;
  ps_max_pruned_sequence : Z;
}.

Definition PruneStats_default : PruneStats :=
  {| ps_archived_rows := 0; ps_archive_files := 0; ps_max_pruned_sequence := 0 |}.

(** The state of the analytics projection once it has caught up. *)
Record Projection := {
  pj_materialized_through : Z;
  pj_dirty_days : Z;
}.

Definition analytics_covers_sequence (p : Projection) (sequence : Z) : bool :=
  (sequence <=? pj_materialized_through p)%Z && (pj_dirty_days p =? 0)%Z.

(** [MAX] and [MIN] of the sequences of the rows that satisfy [p]. *)
Definition sequences (p : AuditRow → bool) (rows : list AuditRow) : list Z :=
  omap col_chain_sequence (List.filter p rows).
Definition max_sequence (p : AuditRow → bool) (rows : list AuditRow) : option Z :=
  match sequences p rows with [] => None | s :: l => Some (fold_left Z.max l s) end.
Definition min_sequence (p : AuditRow → bool) (rows : list AuditRow) : option Z :=
  match sequences p rows with [] => None | s :: l => Some (fold_left Z.min l s) end.

Definition older_than (cutoff : DateTime) (row : AuditRow) : bool :=
  String.ltb (col_timestamp row) (to_rfc3339 cutoff).
Definition unsynced (row : AuditRow) : bool :=
  match col_synced_at row with None => true | Some _ => false end.

(** How far the pass may go: nothing, or up to a sequence. *)
Definition prune_limit (cutoff : DateTime) (respect_sync_state : bool) (rows : list AuditRow) : option Z :=
  time_max_sequence ← max_sequence (older_than cutoff) rows;
  if (time_max_sequence <=? 0)%Z then None
  else
    max_pruned_sequence ←
      (if respect_sync_state then
         let synced_prefix_max :=
           match min_sequence unsynced rows with
           | Some gap => (gap - 1)%Z
           | None => default 0%Z (max_sequence (λ _, true) rows)
           end in
         if (synced_prefix_max <=? 0)%Z then None else Some (Z.min time_max_sequence synced_prefix_max)
       else Some time_max_sequence);
    if (max_pruned_sequence <=? 0)%Z then None else Some max_pruned_sequence.

(** [prune_and_archive]; [analytics] is the outcome of catching the projection up. *)
Definition prune_and_archive (now : DateTime) (analytics : Projection + AuditError) (fates : nat → AppendFate)
    (cutoff : DateTime) (cold_storage_enabled respect_sync_state : bool) (st : AuditStorage)
    (disk : ColdDir) : (PruneStats + AuditError) * AuditStorage * ColdDir :=
  match analytics with
  | inr e => (inr e, st, disk)
  | inl projection =>
      match prune_limit cutoff respect_sync_state (as_rows st) with
      | None => (inl PruneStats_default, st, disk)
      | Some max_pruned_sequence =>
          if negb (analytics_covers_sequence projection max_pruned_sequence)
          then (inl PruneStats_default, st, disk)
          else
            match prefix_rows max_pruned_sequence (as_rows st) with
            | inr e => (inr e, st, disk)
            | inl rows =>
                match archive_rows now fates rows 0 (BatchedArchiver_new cold_storage_enabled) disk with
                | (inr e, disk) => (inr e, st, disk)
                | (inl (count, archiver), disk) =>
                    match archiver_flush fates archiver disk with
                    | (inr e, disk) => (inr (Archive e), st, disk)
                    | (inl archiver, disk) =>
                        if (count =? 0)%nat then (inl PruneStats_default, st, disk)
                        else
                          match delete_prefix now max_pruned_sequence st with
                          | (inr e, st) => (inr e, st, disk)
                          | (inl deleted, st) =>
                              (inl {| ps_archived_rows := count;
                                      ps_archive_files := size (ba_dates archiver);
                                      ps_max_pruned_sequence := max_pruned_sequence |}, st, disk)
                          end
                    end
                end
            end
      end
  end.

(** ** Recovering the boundary *)

(** The archive files, oldest first: names in order. *)
Definition list_archive_files (disk : ColdDir) : list string :=
  merge_sort String.le (List.filter (ends_with ".jsonl.zst") (map fst (map_to_list disk))).

Definition chained_le (a b : AuditRecord) : Prop :=
  (default 0 (rec_chain_sequence a) <= default 0 (rec_chain_sequence b))%Z.
#[local] Instance chained_le_dec a b : Decision (chained_le a b).
Proof. unfold chained_le. apply _. Defined.

Definition is_chained (r : AuditRecord) : bool :=
  match rec_chain_sequence r with Some _ => true | None => false end.

Fixpoint internal_break (prev : option AuditRecord) (records : list AuditRecord) : option Z :=
  match records with
  | [] => None
  | record :: records =>
      let seq := default 0%Z (rec_chain_sequence record) in
      if negb (bool_decide (rec_record_hash record = Some (compute_record_hash record))) then Some seq
      else
        let broken :=
          match prev with
          | Some p =>
              bool_decide ((λ s, (s + 1)%Z) <$> rec_chain_sequence p = Some seq)
              && negb (bool_decide (rec_prev_hash record = rec_record_hash p))
          | None => false
          end in
        if broken then Some seq else internal_break (Some record) records
  end.

Definition first_internal_break (records : list AuditRecord) : option Z :=
  internal_break None (merge_sort chained_le (List.filter is_chained records)).

Inductive BoundaryResolution :=
  | NotNeeded
  | TamperedArchive (boundary_sequence : Z) (stored_hash recomputed_hash archive : string)
  | Resolved (boundary : ArchiveBoundary)
  | Mismatch (boundary_sequence : Z) (archived_hash : string) (found_prev_hash : option string)
  | UnresolvedBoundary.

(** What one archive says: nothing if it does not hold the predecessor. *)
Definition resolve_in (now : DateTime) (path : string) (records : list AuditRecord) (target_sequence : Z)
    (first_active_prev_hash : option string) : option BoundaryResolution :=
  predecessor ← List.find (λ r, bool_decide (rec_chain_sequence r = Some target_sequence)) records;
  Some match rec_record_hash predecessor with
  | None => UnresolvedBoundary
  | Some archived_hash =>
      let recomputed := compute_record_hash predecessor in
      if negb (String.eqb recomputed archived_hash)
      then TamperedArchive target_sequence archived_hash recomputed path
      else match first_internal_break records with
      | Some break_at => TamperedArchive break_at "" "" path
      | None =>
          if negb (bool_decide (first_active_prev_hash = Some archived_hash))
          then Mismatch target_sequence archived_hash first_active_prev_hash
          else Resolved {| ab_sequence := target_sequence; ab_record_hash := archived_hash; ab_updated_at := now |}
      end
  end.

Fixpoint resolve_files (now : DateTime) (files : list string) (disk : ColdDir) (target_sequence : Z)
    (first_active_prev_hash : option string) : result BoundaryResolution :=
  match files with
  | [] => Ok UnresolvedBoundary
  | path :: files =>
      records ← read_zstd_jsonl path disk;
      match resolve_in now path records target_sequence first_active_prev_hash with
      | Some r => Ok r
      | None => resolve_files now files disk target_sequence first_active_prev_hash
      end
  end.

Definition resolve_boundary_from_archives (now : DateTime) (disk : ColdDir) (first_active_sequence : Z)
    (first_active_prev_hash : option string) : result BoundaryResolution :=
  if (first_active_sequence <=? 1)%Z then Ok NotNeeded
  else resolve_files now (rev (list_archive_files disk)) disk (first_active_sequence - 1) first_active_prev_hash.

Definition terminal_step (best : option (Z * option string)) (record : AuditRecord) : option (Z * option string) :=
  match rec_chain_sequence record with
  | None => best
  | Some seq =>
      match best with
      | Some (b, _) => if (b <? seq)%Z then Some (seq, rec_record_hash record) else best
      | None => Some (seq, rec_record_hash record)
      end
  end.

Fixpoint terminal_of_files (files : list string) (disk : ColdDir) (best : option (Z * option string)) :
    result (option (Z * option string)) :=
  match files with
  | [] => Ok best
  | path :: files =>
      records ← read_zstd_jsonl path disk;
      terminal_of_files files disk (fold_left terminal_step records best)
  end.

Definition archive_terminal_record (disk : ColdDir) : result (option (Z * option string)) :=
  terminal_of_files (list_archive_files disk) disk None.

End Retention.

(** ** Nothing is deleted that is not archived *)

Section Archived.
Context {D : Deps} {CH : Chrono} {FD : F64Display} {SH : Sha256} {AC : AuditCodec} {CC : ColdCodec}.

(** A file of the cold directory holds a line that reads as the record and whose own
    hash is right. *)
Definition archived (disk : ColdDir) (record : AuditRecord) : Prop :=
  ∃ date frames lines line cold,
    disk !! archive_path date = Some frames ∧ Lines lines ∈ frames ∧ line ∈ lines ∧
    record_from_json line = Some cold ∧ rec_id cold = rec_id record ∧
    rec_record_hash cold = rec_record_hash record ∧
    rec_record_hash cold = Some (compute_record_hash cold).

(** Files only gain frames. *)
Definition grows (disk disk' : ColdDir) : Prop :=
  ∀ path frames, disk !! path = Some frames → ∃ more, disk' !! path = Some (frames ++ more).

#[export] Instance grows_preorder : PreOrder grows.
Proof.
  split.
  - intros d path frames H. exists []. by rewrite app_nil_r.
  - intros d1 d2 d3 H12 H23 path frames H. destruct (H12 _ _ H) as [m1 H1].
    destruct (H23 _ _ H1) as [m2 H2]. exists (m1 ++ m2). by rewrite app_assoc.
Qed.

Lemma archived_grows disk disk' r : grows disk disk' → archived disk r → archived disk' r.
Proof.
  intros Hg (date & frames & lines & line & cold & Hf & Hl & Hrest). destruct (Hg _ _ Hf) as [more Hf'].
  exists date, (frames ++ more), lines, line, cold. split; [done|]. split; [|done].
  rewrite elem_of_app. by left.
Qed.

Lemma append_grows fate path records disk out disk' :
  append_zstd_jsonl fate path records disk = (out, disk') → grows disk disk'.
Proof.
  unfold append_zstd_jsonl, frames_at. intros H path' frames Hf. destruct (decide (path' = path)) as [->|Hne].
  - destruct fate; injection H as <- <-; rewrite lookup_insert_eq, Hf; cbn; eauto.
    exists []. by rewrite app_nil_r.
  - exists []. rewrite app_nil_r. destruct fate; injection H as <- <-; by rewrite lookup_insert_ne.
Qed.

Lemma read_lines_elem lines records r :
  read_lines lines = Ok records → r ∈ records → ∃ line, line ∈ lines ∧ record_from_json line = Some r.
Proof.
  revert records. induction lines as [|line lines IH]; intros records; cbn [read_lines].
  - by intros [= <-] ?%elem_of_nil.
  - destruct (String.eqb _ _).
    + intros H Hr. destruct (IH _ H Hr) as (l & ? & ?). exists l. split; [by right|done].
    + destruct (record_from_json line) as [x|] eqn:E; [|done].
      destruct (read_lines lines) as [rest|]; [|done]. intros [= <-] [->|Hr]%elem_of_cons.
      * exists line. split; [by left|done].
      * destruct (IH _ eq_refl Hr) as (l & ? & ?). exists l. split; [by right|done].
Qed.

Lemma read_frames_elem frames records r :
  read_frames frames = Ok records → r ∈ records →
  ∃ lines line, Lines lines ∈ frames ∧ line ∈ lines ∧ record_from_json line = Some r.
Proof.
  revert records. induction frames as [|[lines|] frames IH]; intros records; cbn [read_frames]; [|cbn|done].
  - by intros [= <-] ?%elem_of_nil.
  - destruct (read_lines lines) as [a|] eqn:E; [cbn|done].
    destruct (read_frames frames) as [b|]; [cbn|done]. intros [= <-] [Hr|Hr]%elem_of_app.
    + destruct (read_lines_elem _ _ _ E Hr) as (line & ? & ?). exists lines, line. split; [by left|done].
    + destruct (IH _ eq_refl Hr) as (ls & line & ? & ?). exists ls, line. split; [by right|done].
Qed.

(** What the proof of a frame establishes. *)
Lemma prove_sound date start expected disk r :
  prove_archived_frame (archive_path date) start expected disk = Ok tt → r ∈ expected → archived disk r.
Proof.
  unfold prove_archived_frame. destruct (_ <=? _)%nat eqn:Hlen; [done|]. apply Nat.leb_gt in Hlen.
  destruct (read_frames _) as [cold|] eqn:E; [cbn|done].
  destruct (forallb _ _) eqn:Hall; [|done]. intros _ Hr.
  apply forallb_true_Forall in Hall. rewrite Forall_forall in Hall. specialize (Hall r Hr). cbn beta in Hall.
  destruct (cold_record (rec_id r) cold) as [c|] eqn:Hc; [|done]. unfold proves in Hall.
  apply andb_true_iff in Hall as [H1%bool_decide_eq_true H2%bool_decide_eq_true].
  apply find_some in Hc as [Hin Hid%bool_decide_eq_true]. rewrite <- in_rev, <- list_elem_of_In in Hin.
  destruct (read_frames_elem _ _ _ E Hin) as (lines & line & Hl & Hline & Hjson).
  unfold frames_at in *. destruct (disk !! archive_path date) as [frames|] eqn:Hf; [|cbn in Hlen; lia].
  exists date, frames, lines, line, c. split; [done|]. split; [|done].
  cbn in Hl. rewrite <- (take_drop start frames), elem_of_app. by right.
Qed.

Lemma flush_sound fates a disk a' disk' :
  archiver_flush fates a disk = (inl a', disk') →
  grows disk disk' ∧ ba_enabled a' = ba_enabled a ∧ ba_buffer a' = [] ∧
  (∀ r, r ∈ ba_buffer a → archived disk' r).
Proof.
  unfold archiver_flush. destruct (ba_buffer a) as [|x buffer] eqn:Hb.
  - intros [= <- <-]. split; [done|]. split; [done|]. split; [done|]. by intros r ?%elem_of_nil.
  - destruct (ba_date a) as [date|]; [|done].
    destruct (append_zstd_jsonl _ _ _ _) as [[]  disk1] eqn:Ha; [|done].
    destruct (prove_archived_frame _ _ _ _) as [[]|] eqn:Hp; [|done]. intros [= <- <-]. cbn.
    split; [by eapply append_grows|]. split; [done|]. split; [done|].
    intros r Hr. by eapply prove_sound.
Qed.

Lemma flush_grows fates a disk out disk' : archiver_flush fates a disk = (out, disk') → grows disk disk'.
Proof.
  unfold archiver_flush. destruct (ba_buffer a); [by intros [= _ <-]|]. destruct (ba_date a); [|by intros [= _ <-]].
  destruct (append_zstd_jsonl _ _ _ _) as [r disk1] eqn:Ha. apply append_grows in Ha.
  destruct r; [|by intros [= _ <-]]. by destruct (prove_archived_frame _ _ _ _); intros [= _ <-].
Qed.

Lemma push_grows fates record a disk out disk' :
  archiver_push fates record a disk = (out, disk') → grows disk disk'.
Proof.
  unfold archiver_push. destruct (negb _); [by intros [= _ <-]|].
  set (flushed := if date_changes _ _ then archiver_flush fates a disk else (inl a, disk)).
  destruct flushed as [r disk1] eqn:Hf. assert (grows disk disk1) as Hg.
  { unfold flushed in Hf. destruct (date_changes _ _); [by eapply flush_grows|by injection Hf as _ <-]. }
  destruct r as [a1|]; [|by intros [= _ <-]]. destruct (_ <=? _)%nat; [|by intros [= _ <-]].
  intros H%flush_grows. by etrans.
Qed.

Lemma archive_rows_grows now fates rows count a disk out disk' :
  archive_rows now fates rows count a disk = (out, disk') → grows disk disk'.
Proof.
  revert count a disk. induction rows as [|row rows IH]; intros count a disk; cbn [archive_rows];
    [by intros [= _ <-]|].
  destruct (row_to_record _ _); [|by intros [= _ <-]].
  destruct (archiver_push fates _ a disk) as [[a1|] disk1] eqn:Hp; apply push_grows in Hp; [|by intros [= _ <-]].
  intros H%IH. by etrans.
Qed.

Lemma push_sound fates record a disk a' disk' :
  ba_enabled a = true → archiver_push fates record a disk = (inl a', disk') →
  grows disk disk' ∧ ba_enabled a' = true ∧
  (∀ r, r ∈ ba_buffer a ∨ r = record → r ∈ ba_buffer a' ∨ archived disk' r).
Proof.
  intros He. unfold archiver_push. rewrite He. cbn [negb].
  set (flushed := if date_changes _ _ then archiver_flush fates a disk else (inl a, disk)).
  destruct flushed as [[a1|] disk1] eqn:Hf; [|done].
  assert (grows disk disk1 ∧ ba_enabled a1 = true ∧ (∀ r, r ∈ ba_buffer a → r ∈ ba_buffer a1 ∨ archived disk1 r))
    as (Hg1 & He1 & Hb1).
  { unfold flushed in Hf. destruct (date_changes _ _).
    - apply flush_sound in Hf as (? & ? & ? & ?). split; [done|]. split; [congruence|]. eauto.
    - injection Hf as <- <-. split; [done|]. split; [done|]. auto. }
  destruct (_ <=? _)%nat.
  - intros H. apply flush_sound in H as (Hg2 & He2 & _ & Hb2). cbn in *. split; [by etrans|]. split; [congruence|].
    intros r [Hr| ->]; right.
    + destruct (Hb1 r Hr) as [?|?]; [apply Hb2; rewrite elem_of_app; by left|by eapply archived_grows].
    + apply Hb2. rewrite elem_of_app. right. by left.
  - intros [= <- <-]. cbn. split; [done|]. split; [done|]. intros r [Hr| ->].
    + destruct (Hb1 r Hr) as [?|?]; [left; rewrite elem_of_app; by left|by right].
    + left. rewrite elem_of_app. right. by left.
Qed.

Lemma archive_rows_sound now fates rows count a disk n a' disk' :
  ba_enabled a = true → archive_rows now fates rows count a disk = (inl (n, a'), disk') →
  grows disk disk' ∧ ba_enabled a' = true ∧
  (∀ r, r ∈ ba_buffer a → r ∈ ba_buffer a' ∨ archived disk' r) ∧
  (∀ row, row ∈ rows → ∃ r, row_to_record now row = Ok r ∧ (r ∈ ba_buffer a' ∨ archived disk' r)).
Proof.
  revert count a disk. induction rows as [|row rows IH]; intros count a disk He; cbn [archive_rows].
  - intros [= <- <- <-]. split; [done|]. split; [done|]. split; [auto|]. by intros row ?%elem_of_nil.
  - destruct (row_to_record now row) as [record|] eqn:Hr; [|done].
    destruct (archiver_push fates record a disk) as [[a1|] disk1] eqn:Hp; [|done].
    destruct (push_sound _ _ _ _ _ _ He Hp) as (Hg1 & He1 & Hb1). intros H.
    destruct (IH _ _ _ He1 H) as (Hg2 & He2 & Hb2 & Hrows). split; [by etrans|]. split; [done|].
    assert (∀ r, r ∈ ba_buffer a ∨ r = record → r ∈ ba_buffer a' ∨ archived disk' r) as Hall.
    { intros r Hin. destruct (Hb1 r Hin) as [?|?]; [auto|right; by eapply archived_grows]. }
    split; [auto|]. intros row' [->|Hrow]%elem_of_cons; [exists record; auto|auto].
Qed.

Lemma delete_prefix_rows now max st out st' row :
  delete_prefix now max st = (out, st') → row ∈ as_rows st → row ∉ as_rows st' → up_to max row = true.
Proof.
  unfold delete_prefix. intros H Hin Hout.
  assert (row ∉ List.filter (λ r, negb (up_to max r)) (as_rows st) → up_to max row = true) as Hf.
  { intros Hn. destruct (up_to max row) eqn:E; [done|]. destruct Hn.
    rewrite list_elem_of_In, filter_In, <- list_elem_of_In. by rewrite E. }
  apply Hf. repeat (case_match; simplify_eq/=); done.
Qed.

Lemma prefix_rows_elem max rows visited row :
  prefix_rows max rows = inl visited → visited ≠ [] → row ∈ rows → up_to max row = true → row ∈ visited.
Proof.
  unfold prefix_rows. destruct (_ <=? _)%Z; [by intros [= <-]|].
  destruct (hash_at_boundary _ _) as [[h|]|]; [|by intros [= <-]|done]. intros [= <-] _ Hrow Hup.
  unfold up_to in Hup. destruct (col_chain_sequence row) as [s|] eqn:E; [|done].
  apply list_elem_of_fmap. exists (s, row). split; [done|].
  rewrite list_elem_of_In, filter_In, <- list_elem_of_In. split; [|done].
  unfold by_sequence. rewrite (merge_sort_Permutation seq_le). apply list_elem_of_omap.
  exists row. split; [done|]. unfold sequenced. by rewrite E.
Qed.

Lemma archive_rows_count now fates rows count a disk n a' disk' :
  archive_rows now fates rows count a disk = (inl (n, a'), disk') → n = count + length rows.
Proof.
  revert count a disk. induction rows as [|row rows IH]; intros count a disk; cbn [archive_rows].
  - intros [= <- <- <-]. cbn. lia.
  - destruct (row_to_record _ _); [|done]. destruct (archiver_push _ _ _ _) as [[a1|] d1]; [|done].
    intros H%IH. cbn. lia.
Qed.

(** With cold storage off nothing is buffered and nothing written. *)
Lemma archive_rows_off now fates rows count a disk out disk' :
  ba_enabled a = false → archive_rows now fates rows count a disk = (out, disk') →
  disk' = disk ∧ ∀ n a', out = inl (n, a') → a' = a.
Proof.
  intros He. revert count. induction rows as [|row rows IH]; intros count; cbn [archive_rows].
  - intros [= <- <-]. split; [done|]. by intros n a' [= _ <-].
  - destruct (row_to_record _ _); [|by intros [= <- <-]].
    unfold archiver_push. rewrite He. cbn [negb]. apply IH.
Qed.

(** In both modes a row is taken only after it was read. *)
Lemma archive_rows_reads now fates rows count a disk n a' disk' row :
  archive_rows now fates rows count a disk = (inl (n, a'), disk') → row ∈ rows →
  ∃ r, row_to_record now row = Ok r.
Proof.
  revert count a disk. induction rows as [|x rows IH]; intros count a disk; cbn [archive_rows];
    [by intros _ ?%elem_of_nil|].
  destruct (row_to_record now x) as [r|] eqn:Hx; [|done].
  destruct (archiver_push _ _ _ _) as [[a1|] d1]; [|done].
  intros H [->|Hr]%elem_of_cons; [by exists r|by eapply IH].
Qed.

(** The archiving part of a pass, up to its last flush. *)
Lemma archived_all now fates cold rows count a disk1 a' disk disk' :
  archive_rows now fates rows 0 (BatchedArchiver_new cold) disk = (inl (count, a), disk1) →
  archiver_flush fates a disk1 = (inl a', disk') →
  grows disk disk' ∧ (cold = false → disk' = disk) ∧
  ∀ row, row ∈ rows → ∃ r, row_to_record now row = Ok r ∧ (cold = true → archived disk' r).
Proof.
  intros Ha Hf. destruct (flush_sound _ _ _ _ _ Hf) as (Hg2 & _ & _ & Hb). destruct cold.
  - destruct (archive_rows_sound now fates rows 0 (BatchedArchiver_new true) disk count a disk1 eq_refl Ha)
      as (Hg1 & _ & _ & Hrows).
    split; [by etrans|]. split; [done|]. intros row Hrow. destruct (Hrows row Hrow) as (r & Hr & Hcase).
    exists r. split; [done|]. intros _. destruct Hcase as [?|Hc]; [by apply Hb|exact (archived_grows _ _ _ Hg2 Hc)].
  - destruct (archive_rows_off now fates rows 0 (BatchedArchiver_new false) _ _ _ eq_refl Ha) as [-> Hsame].
    rewrite (Hsame _ _ eq_refl) in Hf. cbn in Hf. injection Hf as _ ->.
    split; [done|]. split; [done|]. intros row Hrow.
    destruct (archive_rows_reads _ _ _ _ _ _ _ _ _ _ Ha Hrow) as [r Hr]. by exists r.
Qed.

(** C20: Whatever the disk does to each append and whatever the setting: with cold
    storage enabled, every row that retention deletes was read as a record that some
    line of some archive file reads back with the same id, the same stored hash and a
    content that hashes to it; no archive loses a frame; and with cold storage disabled,
    where rows are deleted without an archive as the option says, the deleted rows were
    still read as records first and the cold directory is untouched. *)
Theorem pruned_rows_are_archived now analytics fates cutoff cold sync st disk out st' disk' :
  prune_and_archive now analytics fates cutoff cold sync st disk = (out, st', disk') →
  grows disk disk' ∧ (cold = false → disk' = disk) ∧
  (∀ row, row ∈ as_rows st → row ∉ as_rows st' →
    ∃ r, row_to_record now row = Ok r ∧ (cold = true → archived disk' r)).
Proof.
  unfold prune_and_archive. intros H.
  assert (Hsame : st' = st → (∀ row, row ∈ as_rows st → row ∉ as_rows st' →
    ∃ r, row_to_record now row = Ok r ∧ (cold = true → archived disk' r))) by by intros ->.
  destruct analytics as [projection|]; [|simplify_eq; by repeat split; auto].
  destruct (prune_limit _ _ _) as [max|]; [|simplify_eq; by repeat split; auto].
  destruct (negb _); [simplify_eq; by repeat split; auto|].
  destruct (prefix_rows _ _) as [rows|] eqn:Hp; [|simplify_eq; by repeat split; auto].
  destruct (archive_rows _ _ _ _ _ _) as [[[count a]|] disk1] eqn:Ha.
  2: { simplify_eq. split; [by eapply archive_rows_grows|]. split; [|auto].
       intros ->. by apply archive_rows_off in Ha as [-> _]. }
  destruct (archiver_flush fates a disk1) as [[a2|] disk2] eqn:Hf.
  2: { simplify_eq. split; [etrans; [by eapply archive_rows_grows|by eapply flush_grows]|]. split; [|auto].
       intros ->. apply archive_rows_off in Ha as [-> Ha]; [|done]. by rewrite (Ha _ _ eq_refl) in Hf. }
  destruct (archived_all now fates cold rows count a disk1 a2 disk disk2 Ha Hf) as (Hg & Hoff & Hrows).
  destruct (Nat.eqb_spec count 0); [simplify_eq; by repeat split; auto|].
  destruct (delete_prefix now max st) as [o st2] eqn:Hd.
  assert (disk' = disk2 ∧ st' = st2) as [-> ->] by (destruct o; by simplify_eq).
  split; [done|]. split; [done|]. intros row Hrow Hgone. apply Hrows.
  pose proof (delete_prefix_rows _ _ _ _ _ _ Hd Hrow Hgone) as Hup.
  eapply prefix_rows_elem; [done| |done|done]. apply archive_rows_count in Ha. intros ->. cbn in Ha. lia.
Qed.

(** *** What a pass may take *)

Lemma fold_min_le l m : (fold_left Z.min l m <= m)%Z ∧ (∀ s, s ∈ l → (fold_left Z.min l m <= s)%Z).
Proof.
  revert m. induction l as [|x l IH]; intros m; cbn [fold_left].
  - split; [lia|]. by intros s ?%elem_of_nil.
  - destruct (IH (Z.min m x)) as [H1 H2]. split; [lia|]. intros s [->|Hs]%elem_of_cons; [lia|by apply H2].
Qed.

Lemma fold_max_elem l m : fold_left Z.max l m = m ∨ fold_left Z.max l m ∈ l.
Proof.
  revert m. induction l as [|x l IH]; intros m; cbn [fold_left]; [by left|].
  destruct (IH (Z.max m x)) as [->|Hin]; [|right; by right].
  destruct (Z.max_spec m x) as [[_ ->]|[_ ->]]; [right; by left|by left].
Qed.

Lemma sequences_elem p rows s :
  s ∈ sequences p rows ↔ ∃ row, row ∈ rows ∧ p row = true ∧ col_chain_sequence row = Some s.
Proof.
  unfold sequences. rewrite list_elem_of_omap. split.
  - intros (row & Hr & Hs). rewrite list_elem_of_In, filter_In, <- list_elem_of_In in Hr.
    destruct Hr. by exists row.
  - intros (row & Hr & Hp & Hs). exists row. split; [|done].
    by rewrite list_elem_of_In, filter_In, <- list_elem_of_In.
Qed.

Lemma min_sequence_le p rows m row s :
  min_sequence p rows = Some m → row ∈ rows → p row = true → col_chain_sequence row = Some s → (m <= s)%Z.
Proof.
  intros Hm Hr Hp Hs. assert (s ∈ sequences p rows) as Hin by (apply sequences_elem; eauto).
  unfold min_sequence in Hm. destruct (sequences p rows) as [|x l]; [done|]. injection Hm as <-.
  destruct (fold_min_le l x) as [H1 H2]. by apply elem_of_cons in Hin as [->|Hin]; [|apply H2].
Qed.

Lemma min_sequence_None p rows row s :
  min_sequence p rows = None → row ∈ rows → p row = true → col_chain_sequence row = Some s → False.
Proof.
  intros Hm Hr Hp Hs. assert (s ∈ sequences p rows) as Hin by (apply sequences_elem; eauto).
  unfold min_sequence in Hm. destruct (sequences p rows); [by apply elem_of_nil in Hin|done].
Qed.

Lemma max_sequence_elem p rows m :
  max_sequence p rows = Some m → ∃ row, row ∈ rows ∧ p row = true ∧ col_chain_sequence row = Some m.
Proof.
  unfold max_sequence. destruct (sequences p rows) as [|x l] eqn:E; [done|]. intros [= <-].
  apply sequences_elem. rewrite E. destruct (fold_max_elem l x) as [-> | ?]; [by left|by right].
Qed.

(** The bounds of a limit. *)
Lemma prune_limit_bounds cutoff sync rows max :
  prune_limit cutoff sync rows = Some max →
  (∃ old s, old ∈ rows ∧ older_than cutoff old = true ∧ col_chain_sequence old = Some s ∧ (max <= s)%Z) ∧
  (sync = true → ∀ row s, row ∈ rows → unsynced row = true → col_chain_sequence row = Some s → (max < s)%Z).
Proof.
  unfold prune_limit. destruct (max_sequence (older_than cutoff) rows) as [t|] eqn:Ht; [cbn|done].
  apply max_sequence_elem in Ht as (old & Hold & Ho & Hs). destruct (Z.leb_spec t 0); [done|].
  destruct sync; cbn.
  - destruct (min_sequence unsynced rows) as [gap|] eqn:Hgap.
    + destruct (Z.leb_spec (gap - 1) 0); [done|]. cbn. destruct (Z.leb_spec (Z.min t (gap - 1)) 0); [done|].
      intros [= <-]. split; [exists old, t; repeat split; try done; lia|].
      intros _ row s Hr Hu Hrs. pose proof (min_sequence_le _ _ _ _ _ Hgap Hr Hu Hrs). lia.
    + destruct (Z.leb_spec (default 0%Z (max_sequence (λ _, true) rows)) 0); [done|]. cbn.
      destruct (Z.leb_spec (Z.min t (default 0%Z (max_sequence (λ _, true) rows))) 0); [done|].
      intros [= <-]. split; [exists old, t; repeat split; try done; lia|].
      intros _ row s Hr Hu Hrs. by destruct (min_sequence_None _ _ _ _ Hgap Hr Hu Hrs).
  - destruct (Z.leb_spec t 0); [done|]. intros [= <-].
    split; [exists old, t; repeat split; try done; lia|done].
Qed.

(** What retention may take.  A row that the pass takes out of the table is chained,
    no newer than a row older than the cutoff, covered by the materialized analytics with
    no dirty day left, and, when cloud sync is respected, acknowledged by the server. *)
Theorem pruned_rows_eligible now analytics fates cutoff cold sync st disk out st' disk' row :
  prune_and_archive now analytics fates cutoff cold sync st disk = (out, st', disk') →
  row ∈ as_rows st → row ∉ as_rows st' →
  ∃ s projection old o, col_chain_sequence row = Some s ∧ analytics = inl projection ∧
    (s <= pj_materialized_through projection)%Z ∧ pj_dirty_days projection = 0%Z ∧
    old ∈ as_rows st ∧ older_than cutoff old = true ∧ col_chain_sequence old = Some o ∧ (s <= o)%Z ∧
    (sync = true → unsynced row = false).
Proof.
  unfold prune_and_archive. intros H Hrow Hgone.
  destruct analytics as [projection|]; [|by simplify_eq].
  destruct (prune_limit _ _ _) as [max|] eqn:Hl; [|by simplify_eq].
  destruct (analytics_covers_sequence projection max) eqn:Hcov; cbn [negb] in H; [|by simplify_eq].
  assert (up_to max row = true) as Hup.
  { destruct (prefix_rows _ _) as [rows|]; [|by simplify_eq].
    destruct (archive_rows _ _ _ _ _ _) as [[[count a]|] disk1]; [|by simplify_eq].
    destruct (archiver_flush _ _ _) as [[a2|] disk2]; [|by simplify_eq].
    destruct (count =? 0)%nat; [by simplify_eq|]. destruct (delete_prefix now max st) as [o st2] eqn:Hd.
    assert (st' = st2) as -> by (destruct o; by simplify_eq). by eapply delete_prefix_rows. }
  apply prune_limit_bounds in Hl as [(old & o & Hold & Holder & Ho & Hle) Hsync].
  unfold analytics_covers_sequence in Hcov. apply andb_true_iff in Hcov as [Hc1%Z.leb_le Hc2%Z.eqb_eq].
  unfold up_to in Hup. destruct (col_chain_sequence row) as [s|] eqn:Hs; [|done]. apply Z.leb_le in Hup.
  exists s, projection, old, o. repeat split; try done; try lia.
  intros Hy. destruct (unsynced row) eqn:Hu; [|done]. specialize (Hsync Hy row s Hrow Hu Hs). lia.
Qed.

(** *** Recovering a boundary *)

Lemma resolve_in_sound now path records target prev b :
  resolve_in now path records target prev = Some (Resolved b) →
  ab_sequence b = target ∧ prev = Some (ab_record_hash b) ∧ first_internal_break records = None ∧
  ∃ predecessor, predecessor ∈ records ∧ rec_chain_sequence predecessor = Some target ∧
    ab_record_hash b = compute_record_hash predecessor.
Proof.
  unfold resolve_in. destruct (List.find _ records) as [p|] eqn:Hf; [cbn|done].
  apply find_some in Hf as [Hin Hs%bool_decide_eq_true]. rewrite <- list_elem_of_In in Hin.
  destruct (rec_record_hash p) as [h|]; [|done].
  destruct (String.eqb_spec (compute_record_hash p) h) as [<-|]; [cbn [negb]|done].
  destruct (first_internal_break records) eqn:Hb; [done|].
  case_bool_decide as Hp; [cbn [negb]|done]. intros [= <-]. cbn. repeat split; try done. by exists p.
Qed.

(** A boundary is only recovered from an authentic archive.  When
    [resolve_boundary_from_archives] resolves a boundary, it is the sequence before the
    active segment, the first active row links to its hash, and a whole archive file reads
    back without an internal break and holds a record of that sequence whose content
    hashes to it. *)
Theorem resolved_boundary_sound now disk first prev b :
  resolve_boundary_from_archives now disk first prev = Ok (Resolved b) →
  (1 < first)%Z ∧ ab_sequence b = (first - 1)%Z ∧ prev = Some (ab_record_hash b) ∧
  ∃ path records predecessor, read_zstd_jsonl path disk = Ok records ∧
    first_internal_break records = None ∧ predecessor ∈ records ∧
    rec_chain_sequence predecessor = Some (first - 1)%Z ∧
    ab_record_hash b = compute_record_hash predecessor.
Proof.
  unfold resolve_boundary_from_archives. destruct (Z.leb_spec first 1); [done|].
  generalize (rev (list_archive_files disk)) as files.
  induction files as [|path files IH]; cbn [resolve_files]; [done|].
  destruct (read_zstd_jsonl path disk) as [records|] eqn:Hr; [cbn|done].
  destruct (resolve_in now path records (first - 1) prev) as [r|] eqn:E; [|done]. intros [= ->].
  apply resolve_in_sound in E as (? & ? & ? & p & ? & ? & ?).
  repeat split; try done. by exists path, records, p.
Qed.

(** *** A healthy disk *)

(** What the chain gives of the records of a prefix. *)
Record archivable (records : list AuditRecord) : Prop := {
  av_safe : Forall (λ r, json_safe r = true) records;
  av_hashed : Forall (λ r, rec_record_hash r = Some (compute_record_hash r)) records;
  av_ids : NoDup (map rec_id records);
}.

Lemma archivable_app a b : archivable (a ++ b) → archivable a ∧ archivable b.
Proof.
  intros [H1 H2 H3]. rewrite Forall_app in H1, H2. rewrite map_app, NoDup_app in H3.
  split; split; naive_solver.
Qed.

Context {CCL : ColdCodecLaws}.

Lemma read_lines_written records :
  Forall (λ r, json_safe r = true) records → read_lines (map record_to_json records) = Ok records.
Proof.
  induction 1 as [|r records Hr _ IH]; cbn [map read_lines]; [done|].
  rewrite record_line, record_round_trip, IH by done. done.
Qed.

Lemma cold_record_elem records r :
  NoDup (map rec_id records) → r ∈ records → cold_record (rec_id r) records = Some r.
Proof.
  intros Hn Hr. unfold cold_record.
  destruct (List.find _ (rev records)) as [c|] eqn:Hf.
  - apply find_some in Hf as [Hc Hi%bool_decide_eq_true]. rewrite <- in_rev, <- list_elem_of_In in Hc. f_equal.
    apply list_elem_of_lookup in Hc as [i Hi1], Hr as [j Hj].
    assert (i = j) as ->; [|congruence]. eapply (NoDup_lookup (map rec_id records)); [done| |].
    + change (map rec_id records) with (rec_id <$> records). rewrite list_lookup_fmap, Hi1. cbn. by rewrite Hi.
    + change (map rec_id records) with (rec_id <$> records). by rewrite list_lookup_fmap, Hj.
  - apply (find_none _ _) with (x := r) in Hf; [|by rewrite <- in_rev, <- list_elem_of_In].
    by apply bool_decide_eq_false in Hf.
Qed.

Lemma written_frame_proves path records disk :
  archivable records →
  prove_archived_frame path (length (frames_at path disk)) records
    (append_zstd_jsonl Written path records disk).2 = Ok tt.
Proof.
  intros [Hs Hh Hn]. unfold prove_archived_frame. cbn [append_zstd_jsonl snd].
  assert (∀ frames, frames_at path (<[path := frames]> disk) = frames) as ->
    by (intros frames; unfold frames_at; by rewrite lookup_insert_eq).
  rewrite length_app. cbn [length]. destruct (Nat.leb_spec (length (frames_at path disk) + 1) (length (frames_at path disk))); [lia|].
  rewrite drop_app_length. cbn [read_frames]. rewrite read_lines_written by done. cbn. rewrite app_nil_r.
  assert (forallb (λ r, proves r (cold_record (rec_id r) records)) records = true) as ->; [|done].
  apply forallb_forall. intros r Hr. rewrite <- list_elem_of_In in Hr. rewrite cold_record_elem by done.
  unfold proves. rewrite !bool_decide_true; [done| |done]. by eapply Forall_forall in Hh.
Qed.

(** The state of an archiver between two records. *)
Definition running (a : BatchedArchiver) : Prop := ba_enabled a = true ∧ (ba_date a = None → ba_buffer a = []).

Lemma healthy_flush fates a disk :
  (∀ n, fates n = Written) → running a → archivable (ba_buffer a) →
  ∃ a' disk', archiver_flush fates a disk = (inl a', disk') ∧ running a' ∧ ba_buffer a' = [].
Proof.
  intros Hw [He Hd] Hb. unfold archiver_flush. destruct (ba_buffer a) as [|r l] eqn:Hl.
  { exists a, disk. by repeat split. }
  destruct (ba_date a) as [date|]; [|by specialize (Hd eq_refl)]. rewrite Hw.
  pose proof (written_frame_proves (archive_path date) (r :: l) disk Hb) as Hp.
  cbn [append_zstd_jsonl snd] in *. rewrite Hp. by do 2 eexists.
Qed.

Lemma healthy_push fates record a disk :
  (∀ n, fates n = Written) → running a → archivable (ba_buffer a ++ [record]) →
  ∃ a' disk' kept, archiver_push fates record a disk = (inl a', disk') ∧ running a' ∧ kept ++ ba_buffer a' = ba_buffer a ++ [record].
Proof.
  intros Hw Hrun Hb. unfold archiver_push. rewrite (proj1 Hrun). cbn [negb].
  assert (∃ a1 disk1 kept, (if date_changes a (format_date (rec_timestamp record)) then archiver_flush fates a disk
      else (inl a, disk)) = (inl a1, disk1) ∧ running a1 ∧ kept ++ ba_buffer a1 = ba_buffer a)
    as (a1 & disk1 & kept & -> & [He1 _] & Hk).
  { destruct (date_changes _ _); [|by exists a, disk, []].
    destruct (healthy_flush fates a disk Hw Hrun) as (a1 & disk1 & -> & ? & Hn); [exact (proj1 (archivable_app _ _ Hb))|].
    exists a1, disk1, (ba_buffer a). by rewrite Hn, app_nil_r. }
  rewrite <- Hk, <- app_assoc in Hb. apply archivable_app in Hb as [_ Hb]. rewrite He1.
  destruct (_ <=? _)%nat.
  - match goal with |- context [archiver_flush fates ?a2 disk1] =>
      destruct (healthy_flush fates a2 disk1 Hw) as (a3 & disk2 & -> & Hr & Hn); [by split|done|] end.
    exists a3, disk2, (ba_buffer a ++ [record]). rewrite Hn, app_nil_r. auto.
  - exists {| ba_enabled := true; ba_date := Some (format_date (rec_timestamp record));
              ba_buffer := ba_buffer a1 ++ [record]; ba_dates := ba_dates a1; ba_flushes := ba_flushes a1 |}, disk1, kept.
    cbn. rewrite <- Hk, <- app_assoc. by repeat split.
Qed.

Lemma healthy_archive now fates rows records count a disk :
  (∀ n, fates n = Written) → running a → archivable (ba_buffer a ++ records) →
  Forall2 (λ row r, row_to_record now row = Ok r) rows records →
  ∃ a' disk', archive_rows now fates rows count a disk = (inl (count + length rows, a'), disk') ∧
    running a' ∧ archivable (ba_buffer a').
Proof.
  intros Hw Hrun Hb Hrows. revert count a disk Hrun Hb.
  induction Hrows as [|row r rows records Hr _ IH]; intros count a disk Hrun Hb; cbn [archive_rows length].
  - exists a, disk. rewrite Nat.add_0_r. rewrite app_nil_r in Hb. auto.
  - rewrite Hr. rewrite (app_assoc (ba_buffer a) [r] records : ba_buffer a ++ r :: records = _) in Hb.
    destruct (healthy_push fates r a disk Hw Hrun) as (a1 & disk1 & kept & -> & Hrun1 & Hk);
      [exact (proj1 (archivable_app _ _ Hb))|].
    rewrite <- Hk, <- app_assoc in Hb. apply archivable_app in Hb as [_ Hb].
    destruct (IH (S count) a1 disk1 Hrun1 Hb) as (a2 & disk2 & -> & Hend).
    exists a2, disk2. by rewrite Nat.add_succ_r.
Qed.

Lemma boundary_counted max rows hash :
  hash_at_boundary max rows = inl (Some hash) → (length (List.filter (up_to max) rows) =? 0)%nat = false.
Proof.
  unfold hash_at_boundary. destruct (row_at max rows) as [row|] eqn:Hrow; [|done]. intros _.
  apply find_some in Hrow as [Hin Hs%bool_decide_eq_true]. apply Nat.eqb_neq. intros Hc%nil_length_inv.
  apply (elem_of_nil (A := AuditRow) row). rewrite <- Hc, list_elem_of_In, filter_In. split; [done|].
  unfold up_to. rewrite Hs. apply Z.leb_refl.
Qed.

Lemma prefix_rows_deletes now max rows st :
  as_rows st = rows → as_read_only st = false → (0 < max)%Z →
  (∃ visited, prefix_rows max rows = inl visited ∧ visited ≠ []) →
  ∃ n st', delete_prefix now max st = (inl n, st') ∧
    as_rows st' = List.filter (λ r, negb (up_to max r)) (as_rows st).
Proof.
  intros <- Hro Hpos (visited & Hp & Hne). unfold prefix_rows in Hp. unfold delete_prefix.
  destruct (Z.leb_spec max 0); [lia|].
  destruct (hash_at_boundary max (as_rows st)) as [[h|]|] eqn:Hh; [|congruence|done].
  rewrite Hro, (boundary_counted _ _ _ Hh). do 2 eexists. split; [done|]. by case_match.
Qed.

(** C21: Retention completes when nothing fails. With cold storage enabled and the
    storage writable, every append reaching the disk, a limit to prune up to, the
    analytics covering it, and at least one row up to the limit, all of which read as
    records with finite floats, their own right hashes and distinct ids: the pass
    succeeds, reports as many archived rows as there are up to the limit, removes
    exactly the rows up to the limit from the table, and leaves a disk on which each of
    their records is archived and every earlier archive frame is kept. *)
Theorem healthy_retention_completes now projection fates cutoff sync st disk max visited records :
  (∀ n, fates n = Written) → as_read_only st = false →
  prune_limit cutoff sync (as_rows st) = Some max →
  analytics_covers_sequence projection max = true →
  prefix_rows max (as_rows st) = inl visited → visited ≠ [] →
  Forall2 (λ row r, row_to_record now row = Ok r) visited records → archivable records →
  ∃ stats st' disk', prune_and_archive now (inl projection) fates cutoff true sync st disk = (inl stats, st', disk') ∧
    ps_archived_rows stats = length visited ∧ ps_max_pruned_sequence stats = max ∧
    as_rows st' = List.filter (λ r, negb (up_to max r)) (as_rows st) ∧
    Forall (archived disk') records ∧ grows disk disk'.
Proof.
  intros Hw Hro Hl Hcov Hv Hne Hrec Har.
  assert (0 < max)%Z as Hpos.
  { unfold prefix_rows in Hv. destruct (Z.leb_spec max 0); [|done]. by injection Hv as <-. }
  unfold prune_and_archive. rewrite Hl, Hcov, Hv. cbn [negb].
  destruct (healthy_archive now fates visited records 0 (BatchedArchiver_new true) disk) as (a & disk1 & Ea & Hrun & Hb);
    [done|by split|done|done|].
  destruct (healthy_flush fates a disk1 Hw Hrun Hb) as (a2 & disk2 & Ef & _).
  destruct (archived_all now fates true visited _ a disk1 a2 disk disk2 Ea Ef) as (Hg & _ & Hall). rewrite Ea, Ef.
  assert (0 + length visited =? 0 = false)%nat as -> by (apply Nat.eqb_neq; destruct visited; [done|cbn; lia]).
  destruct (prefix_rows_deletes now max (as_rows st) st) as (n & st' & -> & Hr); [done..|by exists visited|].
  do 3 eexists. split; [done|]. split_and!; [done..| |done].
  apply Forall_forall. intros r Hin.
  apply list_elem_of_lookup in Hin as [i Hi].
  destruct (Forall2_lookup_r _ _ _ _ _ Hrec Hi) as (row & Hrow%list_elem_of_lookup_2 & Hread).
  destruct (Hall row Hrow) as (r' & Hr' & Harc). rewrite Hread in Hr'. injection Hr' as <-. by apply Harc.
Qed.

End Archived.

(** ** A concrete instance *)

#[export] Instance proxy_action_eq_dec : EqDecision ProxyActionSummary. Proof. solve_decision. Defined.
#[export] Program Instance proxy_action_countable : Countable ProxyActionSummary :=
  inj_countable ProxyActionSummary_display (by_name ProxyActionSummary_display [ActionAllow; ActionQueue; ActionDeny]) _.
Next Obligation. by intros []. Qed.
#[export] Instance record_type_eq_dec : EqDecision RecordType. Proof. solve_decision. Defined.
#[export] Program Instance record_type_countable : Countable RecordType :=
  inj_countable RecordType_display (by_name RecordType_display [Full; Compact]) _.
Next Obligation. by intros []. Qed.

(** A record is the list of the codes of its fields. *)
Definition take_code `{Countable A} (l : list positive) : option (A * list positive) :=
  match l with p :: l => x ← countable.decode p; Some (x, l) | [] => None end.

Lemma take_code_cons `{Countable A} (x : A) l : take_code (countable.encode x :: l) = Some (x, l).
Proof. cbn. by rewrite decode_encode. Qed.

Definition record_codes (r : @AuditRecord concrete_deps) : list positive :=
  [
   countable.encode (A := uuid_text) (rec_id r); countable.encode (A := Z) (rec_timestamp r);
   countable.encode (A := uuid_text) (rec_session_id r); countable.encode (rec_plugin_id r);
   countable.encode (rec_tool_call_type r); countable.encode (rec_arguments_summary r); countable.encode (rec_arguments_hash r);
   countable.encode (rec_composite_score r); countable.encode (rec_proxy_action r); countable.encode (rec_decision_reason r);
   countable.encode (rec_enforcement_outcome r); countable.encode (rec_filter_results r); countable.encode (rec_filter_scores r);
   countable.encode (rec_execution_result r); countable.encode (rec_evaluation_time_ms r); countable.encode (rec_task_context r);
   countable.encode (rec_source r); countable.encode (rec_supervised_tool r); countable.encode (rec_supervised_pid r);
   countable.encode (rec_project_name r); countable.encode (A := option uuid_text) (rec_correlation_id r);
   countable.encode (rec_record_hash r); countable.encode (rec_prev_hash r); countable.encode (rec_chain_sequence r);
   countable.encode (rec_llm_provider r); countable.encode (rec_llm_model r); countable.encode (rec_prompt_tokens r);
   countable.encode (rec_completion_tokens r); countable.encode (rec_estimated_cost_usd r); countable.encode (rec_spawn_sha256 r);
   countable.encode (rec_matched_routine_root r); countable.encode (rec_shadow_phase3_filters r);
   countable.encode (rec_original_addr r); countable.encode (rec_rewritten_addr r); countable.encode (rec_clamp_profile_entry r);
   countable.encode (rec_record_type r); countable.encode (rec_hash_version r);
   countable.encode (A := option concrete_metadata) (rec_analytics_metadata r)].

Definition codes_record (l : list positive) : option (@AuditRecord concrete_deps) :=
  '(f1, l) ← take_code (A := uuid_text) l; '(f2, l) ← take_code (A := Z) l;
  '(f3, l) ← take_code (A := uuid_text) l; '(f4, l) ← take_code l; '(f5, l) ← take_code l;
  '(f6, l) ← take_code l; '(f7, l) ← take_code l; '(f8, l) ← take_code l; '(f9, l) ← take_code l;
  '(f10, l) ← take_code l; '(f11, l) ← take_code l; '(f12, l) ← take_code l;
  '(f13, l) ← take_code l; '(f14, l) ← take_code l; '(f15, l) ← take_code l;
  '(f16, l) ← take_code l; '(f17, l) ← take_code l; '(f18, l) ← take_code l;
  '(f19, l) ← take_code l; '(f20, l) ← take_code l; '(f21, l) ← take_code (A := option uuid_text) l;
  '(f22, l) ← take_code l; '(f23, l) ← take_code l; '(f24, l) ← take_code l;
  '(f25, l) ← take_code l; '(f26, l) ← take_code l; '(f27, l) ← take_code l;
  '(f28, l) ← take_code l; '(f29, l) ← take_code l; '(f30, l) ← take_code l;
  '(f31, l) ← take_code l; '(f32, l) ← take_code l; '(f33, l) ← take_code l;
  '(f34, l) ← take_code l; '(f35, l) ← take_code l; '(f36, l) ← take_code l;
  '(f37, l) ← take_code l; '(f38, l) ← take_code (A := option concrete_metadata) l;
  Some (Build_AuditRecord concrete_deps
    f1 f2 f3 f4 f5 f6 f7 f8 f9 f10 f11 f12 f13 f14 f15 f16 f17 f18 f19 f20 f21 f22 f23 f24 f25 f26
    f27 f28 f29 f30 f31 f32 f33 f34 f35 f36 f37 f38).

Lemma record_codes_round_trip r : codes_record (record_codes r) = Some r.
Proof.
  unfold codes_record, record_codes.
  repeat (rewrite take_code_cons; cbn [mbind option_bind]). by destruct r.
Qed.

Definition concrete_cold : @ColdCodec concrete_deps := {|
  record_to_json r := String "r" (to_text (record_codes r));
  record_from_json s := match s with String "r" s => l ← of_text s; codes_record l | _ => None end;
  format_date t := to_text (A := Z) (Z.div t 100);
|}.

Lemma concrete_cold_laws : @ColdCodecLaws concrete_deps concrete_cold.
Proof.
  split.
  - intros r _. cbn. rewrite of_to_text. apply record_codes_round_trip.
  - intros r. apply trim_keeps.
Qed.

Section Concrete.
#[local] Existing Instances concrete_deps concrete_deps_laws audit_chrono audit_chrono_laws audit_fmt toy_sha256
  concrete_audit_codec concrete_audit_codec_laws concrete_cold concrete_cold_laws.

Definition caught_up : Projection := {| pj_materialized_through := 2; pj_dirty_days := 0 |}.
Definition good_disk : nat → AppendFate := λ _, Written.
Definition cutoff_example : DateTime := 101%Z.

(** The pass over two records, both older than the cutoff, without regard to the sync
    state, on an empty cold directory. *)
#[local] Notation example_pass :=
  (prune_and_archive at_nine (inl caught_up) good_disk cutoff_example true false two_appended ∅).

Definition read_or_default (row : AuditRow) : AuditRecord :=
  match row_to_record at_nine row with Ok r => r | Err _ => example_record uuid_a "" end.
Definition two_read : list AuditRecord := map read_or_default (as_rows two_appended).

Lemma two_read_ok : Forall2 (λ row r, row_to_record at_nine row = Ok r) (as_rows two_appended) two_read.
Proof.
  assert (forallb (λ row, match row_to_record at_nine row with Ok _ => true | Err _ => false end)
    (as_rows two_appended) = true) as H by (vm_compute; reflexivity).
  unfold two_read. induction (as_rows two_appended) as [|row rows IH]; cbn [map forallb] in *; [constructor|].
  apply andb_true_iff in H as [H1 H2]. constructor; [|by apply IH].
  unfold read_or_default. by destruct (row_to_record at_nine row).
Qed.

Lemma distinct_texts (l : list AuditRecord) :
  NoDup (map (λ r, Uuid_to_string (rec_id r)) l) → NoDup (map rec_id l).
Proof. rewrite <- (map_map rec_id Uuid_to_string). apply NoDup_fmap_1. Qed.

Lemma two_read_archivable : archivable two_read.
Proof.
  assert (∀ p : AuditRecord → bool, forallb p two_read = true → Forall (λ r, p r = true) two_read) as Hall.
  { intros p H. rewrite forallb_forall in H. apply Forall_forall. intros r Hr. apply H. by apply list_elem_of_In. }
  split.
  - apply Hall. vm_compute. reflexivity.
  - eapply Forall_impl; [apply (Hall (λ r, bool_decide (rec_record_hash r = Some (compute_record_hash r))))|].
    + vm_compute. reflexivity.
    + intros r Hr. by apply bool_decide_eq_true in Hr.
  - assert (bool_decide (NoDup (map (λ r, Uuid_to_string (rec_id r)) two_read)) = true) as H by (vm_compute; reflexivity).
    apply bool_decide_eq_true in H. exact (distinct_texts _ H).
Qed.

Lemma healthy_retention_completes_witness :
  ∃ stats st' disk', example_pass = (inl stats, st', disk') ∧ ps_archived_rows stats = 2 ∧
    ps_max_pruned_sequence stats = 2%Z ∧
    as_rows st' = List.filter (λ r, negb (up_to 2 r)) (as_rows two_appended) ∧
    Forall (archived disk') two_read ∧ grows ∅ disk'.
Proof.
  apply (healthy_retention_completes at_nine caught_up good_disk cutoff_example false two_appended ∅ 2
    (as_rows two_appended) two_read).
  - intros n. reflexivity.
  - vm_compute. reflexivity.
  - vm_compute. reflexivity.
  - vm_compute. reflexivity.
  - vm_compute. reflexivity.
  - intros H. apply (f_equal length) in H. vm_compute in H. discriminate H.
  - exact two_read_ok.
  - exact two_read_archivable.
Defined.

Lemma example_pass_is : ∃ out st', example_pass = (out, st', example_pass.2) ∧ st' = example_pass.1.2.
Proof. by destruct example_pass as [[out st'] disk']; exists out, st'. Qed.

(** Every row was archived, and one line holds it. *)
Lemma pruned_rows_are_archived_witness :
  ∃ st', as_rows st' = [] ∧ grows ∅ example_pass.2 ∧ (true = false → example_pass.2 = ∅) ∧
  (∀ row, row ∈ as_rows two_appended → row ∉ as_rows st' →
    ∃ r, row_to_record at_nine row = Ok r ∧ (true = true → archived example_pass.2 r)).
Proof.
  destruct example_pass_is as (out & st' & H & E). exists st'. split.
  - apply nil_length_inv. rewrite E. vm_compute. reflexivity.
  - exact (pruned_rows_are_archived at_nine (inl caught_up) good_disk cutoff_example true false two_appended ∅ _ _ _ H).
Defined.

Definition first_row : option AuditRow := head (as_rows two_appended).

Lemma pruned_rows_eligible_witness :
  ∃ row, row ∈ as_rows two_appended ∧
  ∃ s projection old o, col_chain_sequence row = Some s ∧ (inl caught_up : Projection + AuditError) = inl projection ∧
    (s <= pj_materialized_through projection)%Z ∧ pj_dirty_days projection = 0%Z ∧
    old ∈ as_rows two_appended ∧ older_than cutoff_example old = true ∧ col_chain_sequence old = Some o ∧ (s <= o)%Z ∧
    (false = true → unsynced row = false).
Proof.
  destruct example_pass_is as (out & st' & H & E).
  assert (as_rows st' = []) as Hnil by (apply nil_length_inv; rewrite E; vm_compute; reflexivity).
  destruct (as_rows two_appended) as [|row rows] eqn:Hrows; [by apply (f_equal length) in Hrows|].
  exists row. split; [by left|]. rewrite <- Hrows.
  apply (pruned_rows_eligible at_nine (inl caught_up) good_disk cutoff_example true false two_appended ∅ _ _ _ row H).
  - rewrite Hrows. by left.
  - rewrite Hnil. apply not_elem_of_nil.
Defined.

(** The archive of the pass resolves the boundary of a segment that starts at the third
    record. *)
#[local] Notation next_prev :=
  (match last (as_rows two_appended) with Some row => col_record_hash row | None => None end).
#[local] Notation example_resolution :=
  (resolve_boundary_from_archives at_nine example_pass.2 3 next_prev).

Definition resolved_at (r : result BoundaryResolution) : option Z :=
  match r with Ok (Resolved b) => Some (ab_sequence b) | _ => None end.

Example archives_resolve : resolved_at example_resolution = Some 2%Z.
Proof. vm_compute. reflexivity. Qed.

Lemma resolved_boundary_sound_witness :
  ∃ b, (1 < 3)%Z ∧ ab_sequence b = 2%Z ∧ next_prev = Some (ab_record_hash b) ∧
  ∃ path records predecessor, read_zstd_jsonl path example_pass.2 = Ok records ∧
    first_internal_break records = None ∧ predecessor ∈ records ∧
    rec_chain_sequence predecessor = Some 2%Z ∧
    ab_record_hash b = compute_record_hash predecessor.
Proof.
  pose proof archives_resolve as H.
  destruct example_resolution as [[| |b| |]|] eqn:E; try discriminate H.
  exists b. exact (resolved_boundary_sound at_nine example_pass.2 3 next_prev b E).
Defined.

End Concrete.
