(* ===== verification/AuditStartup.v ===== *)
(** * Starting on an audit chain

    [grith-core/src/daemon/mod.rs]: what a starting daemon makes of the audit database it
    finds.  The owner backfills, verifies incrementally, may recover a lost boundary from
    the archives, and arms the quarantine of the storage when it cannot; another process
    only reads.  The texts of the quarantine reasons are left open. *)

From Stdlib Require Import Ascii String ZArith Lia SpecFloat.
From S2P Require Import Prelude Concrete F64 Canonical Types Reputation DbusWire AuditRecord AuditRow AuditChain AuditHistory AuditTamper AuditRetention.

(** ** State *)

Record SegmentHistory {D : Deps} := {
  sh_archive_terminal_sequence : Z;
  sh_archive_terminal_hash : option string;
  sh_active_genesis_sequence : Z;
  sh_cause : string;
  sh_classified_at : DateTime;
}.

(** What the reason of a quarantine is formatted from. *)
Inductive QuarantineReason :=
  | HistoryMissing (archives : nat)
  | BoundaryNotPersisted (e : AuditError)
  | HistoriesDoNotJoin (boundary_sequence : Z) (archived_hash : string) (found_prev_hash : option string)
  | ArchiveChainBroken (archive : string) (boundary_sequence : Z)
  | ArchiveModified (archive : string) (boundary_sequence : Z) (stored_hash recomputed_hash : string)
  | PredecessorNotArchived (first_sequence : Z)
  | ArchivesUnreadable (message : string)
  | BoundaryMismatch (boundary_sequence : Z) (expected_prev_hash : string) (found_prev_hash : option string)
  | ChainBroken (at_sequence : Z) (reason : BreakReason)
  | VerificationFailed (e : AuditError).

Class ReasonText := reason_text : QuarantineReason → string.

Inductive ChainStatus :=
  | Ready
  | Recovered (boundary_sequence : Z)
  | SegmentDiscontinuity (archive_terminal_sequence active_genesis_sequence : Z)
  | Quarantined (reason : QuarantineReason).

Definition is_writable (s : ChainStatus) : bool :=
  match s with Quarantined _ => false | _ => true end.

(** The database with its segment marker; [Err] is a marker that does not parse. *)
Record AuditDatabase {D : Deps} := {
  db_storage : AuditStorage;
  db_segment_history : option (result SegmentHistory);
}.

Section Startup.
Context {D : Deps} {CH : Chrono} {FD : F64Display} {SH : Sha256} {AC : AuditCodec} {CC : ColdCodec} {RT : ReasonText}.

Definition set_storage (st : AuditStorage) (db : AuditDatabase) : AuditDatabase :=
  {| db_storage := st; db_segment_history := db_segment_history db |}.

Definition readonly_error : AuditError := Database false "attempt to write a readonly database".

Definition store_segment_history (h : SegmentHistory) (db : AuditDatabase) : (unit + AuditError) * AuditDatabase :=
  if as_read_only (db_storage db) then (inr readonly_error, db)
  else (inl (), {| db_storage := db_storage db; db_segment_history := Some (Ok h) |}).

Definition store_archive_boundary (b : ArchiveBoundary) (st : AuditStorage) : (unit + AuditError) * AuditStorage :=
  if as_read_only st then (inr readonly_error, st)
  else (inl (), invalidate_verify_cache (set_boundary b st)).

Definition classify_active_regenesis (now : DateTime) (cold_dir : ColdDir) (db : AuditDatabase) :
    (option SegmentHistory + AuditError) * AuditDatabase :=
  match db_segment_history db with
  | Some (Err e) => (inr (Serialization e), db)
  | Some (Ok existing) => (inl (Some existing), db)
  | None =>
      match first_chained_row (as_rows (db_storage db)) with
      | None => (inl None, db)
      | Some (first_sequence, _) =>
          if (1 <? first_sequence)%Z then (inl None, db)
          else match as_archive_boundary (db_storage db) with
          | Some (Err e) => (inr (Serialization e), db)
          | Some (Ok _) => (inl None, db)
          | None =>
              match list_archive_files cold_dir with
              | [] => (inl None, db)
              | _ :: _ =>
                  match archive_terminal_record cold_dir with
                  | Err e => (inr (Archive e), db)
                  | Ok None => (inl None, db)
                  | Ok (Some (terminal_sequence, terminal_hash)) =>
                      let history := {|
                        sh_archive_terminal_sequence := terminal_sequence;
                        sh_archive_terminal_hash := terminal_hash;
                        sh_active_genesis_sequence := first_sequence;
                        sh_cause := "active_regenesis_with_archives";
                        sh_classified_at := now |} in
                      match store_segment_history history db with
                      | (inl _, db) => (inl (Some history), db)
                      | (inr e, db) => (inr e, db)
                      end
                  end
              end
          end
      end
  end.

(** The link of the first active row, [None] if there is no row. *)
Definition first_active_prev (st : AuditStorage) : option string :=
  match first_chained_row (as_rows st) with Some (_, prev) => prev | None => None end.

Definition resolve_unanchored (now : DateTime) (cold_dir : ColdDir) (first_sequence : Z) (db : AuditDatabase) :
    ChainStatus * AuditDatabase :=
  match resolve_boundary_from_archives now cold_dir first_sequence (first_active_prev (db_storage db)) with
  | Ok (Resolved boundary) =>
      match store_archive_boundary boundary (db_storage db) with
      | (inl _, st) => (Recovered (ab_sequence boundary), set_storage st db)
      | (inr e, st) => (Quarantined (BoundaryNotPersisted e), set_storage st db)
      end
  | Ok (Mismatch sequence archived found) => (Quarantined (HistoriesDoNotJoin sequence archived found), db)
  | Ok (TamperedArchive sequence stored recomputed archive) =>
      (Quarantined (if String.eqb stored "" then ArchiveChainBroken archive sequence
                    else ArchiveModified archive sequence stored recomputed), db)
  | Ok UnresolvedBoundary => (Quarantined (PredecessorNotArchived first_sequence), db)
  | Ok NotNeeded => (Ready, db)
  | Err e => (Quarantined (ArchivesUnreadable e), db)
  end.

Definition resolve_chain_status (now : DateTime) (verification : ChainVerification) (cold_dir : ColdDir)
    (db : AuditDatabase) : ChainStatus * AuditDatabase :=
  match verification with
  | Valid _ =>
      match classify_active_regenesis now cold_dir db with
      | (inl (Some history), db) =>
          (SegmentDiscontinuity (sh_archive_terminal_sequence history) (sh_active_genesis_sequence history), db)
      | (inl None, db) => (Ready, db)
      | (inr _, db) => (Ready, db)
      end
  | Empty =>
      match list_archive_files cold_dir with
      | [] => (Ready, db)
      | archives => (Quarantined (HistoryMissing (length archives)), db)
      end
  | Unanchored first_sequence => resolve_unanchored now cold_dir first_sequence db
  | AnchorMismatch sequence expected found _ => (Quarantined (BoundaryMismatch sequence expected found), db)
  | Broken at_sequence _ reason => (Quarantined (ChainBroken at_sequence reason), db)
  end.

(** The verification of the owner: backfill, verify, resolve. *)
Definition verify_at_startup (now : DateTime) (cold_dir : ColdDir) (db : AuditDatabase) :
    ChainStatus * AuditDatabase :=
  match backfill_chain_for_legacy_rows now (db_storage db) with
  | (inr e, st) => (Quarantined (VerificationFailed e), set_storage st db)
  | (inl _, st) =>
      match incremental_verify_chain now st with
      | (inr e, st) => (Quarantined (VerificationFailed e), set_storage st db)
      | (inl verification, st) => resolve_chain_status now verification cold_dir (set_storage st db)
      end
  end.

(** The part of [Daemon::start] that decides whether the chain may be written. *)
Definition start_chain (can_write : bool) (now : DateTime) (cold_dir : ColdDir) (db : AuditDatabase) :
    ChainStatus * AuditDatabase :=
  if negb can_write then (Ready, db)
  else
    let '(chain_status, db) := verify_at_startup now cold_dir db in
    match chain_status with
    | Quarantined reason =>
        (chain_status, set_storage (set_quarantined (Some (reason_text reason)) (db_storage db)) db)
    | _ => (chain_status, db)
    end.

End Startup.

(** ** What a start leaves *)

Section Start.
Context {D : Deps} {CH : Chrono} {FD : F64Display} {SH : Sha256} {AC : AuditCodec} {CC : ColdCodec} {RT : ReasonText}.

Lemma advance_rows st out st' :
  advance_checkpoint st = (out, st') → as_rows st' = as_rows st ∧ as_quarantine st' = as_quarantine st ∧
  as_archive_boundary st' = as_archive_boundary st.
Proof. unfold advance_checkpoint. intros H. repeat (case_match; simplify_eq/=); done. Qed.

Lemma incremental_rows now st out st' :
  incremental_verify_chain now st = (out, st') → as_rows st' = as_rows st ∧ as_quarantine st' = as_quarantine st ∧
  as_archive_boundary st' = as_archive_boundary st.
Proof.
  unfold incremental_verify_chain. intros H.
  repeat (case_match; simplify_eq/=; try done); by eapply advance_rows.
Qed.

Lemma classify_storage now disk db out db' :
  classify_active_regenesis now disk db = (out, db') → db_storage db' = db_storage db.
Proof.
  unfold classify_active_regenesis, store_segment_history. intros H.
  repeat (case_match; simplify_eq/=; try done).
Qed.

Lemma resolve_rows now v disk db status db' :
  resolve_chain_status now v disk db = (status, db') →
  as_rows (db_storage db') = as_rows (db_storage db) ∧
  as_quarantine (db_storage db') = as_quarantine (db_storage db).
Proof.
  unfold resolve_chain_status. intros H. destruct v.
  - destruct (classify_active_regenesis now disk db) as [[[h|]|] db1] eqn:Hc;
      simplify_eq; by rewrite (classify_storage _ _ _ _ _ Hc).
  - by simplify_eq.
  - by case_match; simplify_eq.
  - revert H. unfold resolve_unanchored, store_archive_boundary.
    destruct (resolve_boundary_from_archives _ _ _ _) as [[| |b| |]|]; try by intros [= _ <-].
    destruct (as_read_only _); by intros [= _ <-].
  - by simplify_eq.
Qed.

Lemma incremental_unanchored now st first st' :
  incremental_verify_chain now st = (inl (Unanchored first), st') → (1 < first)%Z.
Proof.
  assert (∀ s p n l, verify_rows now s p n l ≠ inl (Unanchored first)) as Hw.
  { intros s p n l. revert s p n. induction l as [|[q row] l IH]; intros s p n; cbn [verify_rows]; [done|].
    repeat case_match; done. }
  unfold incremental_verify_chain. destruct (incremental_start st) as [[[[s p] n]|o]|e] eqn:Hs; [|intros [= -> ->]|done].
  - destruct (verify_chain_from now s p n (as_rows st)) as [v|] eqn:Hv; [|done].
    assert (v ≠ Unanchored first) as Hne.
    { intros ->. revert Hv. unfold verify_chain_from. destruct (as_rows st); [done|].
      destruct (if (s =? 0)%Z then _ else _); [done|]. apply Hw. }
    destruct v; try (intros [= <- _]; done); try done. by destruct (advance_checkpoint st) as [[|] ?].
  - revert Hs. unfold incremental_start, resolve_verification_anchor.
    repeat (case_match; simplify_eq/=; try done); intros ?; simplify_eq.
    all: match goal with H : (_ <=? _)%Z = false |- _ => by apply Z.leb_gt in H end.
Qed.

(** The grounds on which a start may leave the chain writable. *)
Definition healthy_at_start now (cold_dir : ColdDir) (st : AuditStorage) : Prop :=
  ∃ v, (incremental_verify_chain now st).1 = inl v ∧ is_healthy v = true ∧
    (v = Empty → list_archive_files cold_dir = []).

Definition recovered_at_start now (cold_dir : ColdDir) (st st' : AuditStorage) (status : ChainStatus) : Prop :=
  ∃ first b, (incremental_verify_chain now st).1 = inl (Unanchored first) ∧
    resolve_boundary_from_archives now cold_dir first (first_active_prev st) = Ok (Resolved b) ∧
    status = Recovered (ab_sequence b) ∧ as_archive_boundary st' = Some (Ok b).

Lemma resolve_needed now disk first prev :
  (1 < first)%Z → resolve_boundary_from_archives now disk first prev ≠ Ok NotNeeded.
Proof.
  intros Hf. unfold resolve_boundary_from_archives. destruct (Z.leb_spec first 1); [lia|].
  generalize (rev (list_archive_files disk)). intros files. induction files as [|f files IH]; cbn [resolve_files]; [done|].
  destruct (read_zstd_jsonl f disk) as [records|]; [cbn|done].
  destruct (resolve_in now f records (first - 1) prev) as [r|] eqn:Hi; [|apply IH].
  intros [= ->]. revert Hi. unfold resolve_in. destruct (List.find _ _) as [p|]; [cbn|done].
  repeat (case_match; try done).
Qed.

Lemma resolve_writable now v disk db status db' :
  (∀ first, v = Unanchored first → (1 < first)%Z) →
  resolve_chain_status now v disk db = (status, db') → is_writable status = true →
  (is_healthy v = true ∧ (v = Empty → list_archive_files disk = [])) ∨
  (∃ first b, v = Unanchored first ∧
    resolve_boundary_from_archives now disk first (first_active_prev (db_storage db)) = Ok (Resolved b) ∧
    status = Recovered (ab_sequence b) ∧ as_archive_boundary (db_storage db') = Some (Ok b)).
Proof.
  unfold resolve_chain_status. intros Hfirst H Hw. destruct v as [n|s i r| |first|].
  - left. done.
  - by simplify_eq.
  - left. split; [done|]. intros _. by destruct (list_archive_files disk); simplify_eq.
  - right. specialize (Hfirst first eq_refl). revert H. unfold resolve_unanchored, store_archive_boundary.
    destruct (resolve_boundary_from_archives _ _ _ _) as [[| |b| |]|] eqn:Hr;
      try (intros [= <- _]; discriminate Hw).
    + by apply resolve_needed in Hr.
    + destruct (as_read_only _); intros [= <- <-]; [discriminate Hw|]. by exists first, b.
  - by simplify_eq.
Qed.

(** C22: The start of the daemon that owns the writer lock fails closed. Its first step,
    the backfill, may fill in the chain columns of legacy rows; after it the start
    changes no row. If it does not leave the chain writable, every later append is
    refused with the reason and changes nothing; if it does, the start left the
    quarantine flag as the backfill left it and either the incremental verification was
    healthy (an empty table having no archives behind it) or the lost boundary was
    recovered from an archive. *)
Theorem startup_fails_closed now cold_dir db status db' n st :
  start_chain true now cold_dir db = (status, db') →
  backfill_chain_for_legacy_rows now (db_storage db) = (n, st) →
  as_rows (db_storage db') = as_rows st ∧
  (is_writable status = false → ∃ reason, ∀ faults records,
    insert_batch faults records (db_storage db') = (inr (ChainQuarantined reason), db_storage db')) ∧
  (is_writable status = true → as_quarantine (db_storage db') = as_quarantine st ∧
    (healthy_at_start now cold_dir st ∨ recovered_at_start now cold_dir st (db_storage db') status)).
Proof.
  unfold start_chain, verify_at_startup. cbn [negb]. intros H Hb. rewrite Hb in H.
  destruct n as [n|e].
  2: { injection H as <- <-. cbn. split; [done|]. split; [|done]. intros _. by eexists. }
  destruct (incremental_verify_chain now st) as [[v|e] st1] eqn:Hi.
  2: { injection H as <- <-. cbn. apply incremental_rows in Hi as (-> & _). split; [done|].
       split; [|done]. intros _. by eexists. }
  destruct (resolve_chain_status now v cold_dir (set_storage st1 db)) as [s db1] eqn:Hr.
  destruct (resolve_rows _ _ _ _ _ _ Hr) as [Hrows Hq]. cbn in Hrows, Hq.
  destruct (incremental_rows _ _ _ _ Hi) as (Hrows1 & Hq1 & _).
  destruct (is_writable s) eqn:Hw.
  - assert ((status, db') = (s, db1)) as [= -> ->] by (by destruct s; simplify_eq).
    split; [congruence|]. split; [congruence|]. intros _. split; [congruence|].
    apply resolve_writable in Hr as [[Hh He]|(first & b & -> & Hb1 & -> & Hb2)]; [left|right| |done].
    + exists v. by rewrite Hi.
    + exists first, b. rewrite Hi. unfold first_active_prev in *. cbn in Hb1. by rewrite Hrows1 in Hb1.
    + intros first ->. by eapply incremental_unanchored.
  - destruct s as [| | |reason]; try discriminate Hw. injection H as <- <-. cbn. split; [congruence|].
    split; [|done]. intros _. by eexists.
Qed.

(** *** Recovery looks at one link *)

(** A segment that starts above 1 and lost its boundary, never verified before. *)
Record lost_boundary (st : AuditStorage) (first : Z) (prev : option string) : Prop := {
  lb_above : (1 < first)%Z;
  lb_first : first_chained_row (as_rows st) = Some (first, prev);
  lb_no_head : as_verified_head st = None;
  lb_no_boundary : as_archive_boundary st = None;
  lb_no_legacy : legacy_rows (as_rows st) = [];
}.

Lemma lost_boundary_start now st first prev :
  lost_boundary st first prev →
  backfill_chain_for_legacy_rows now st = (inl 0, st) ∧
  incremental_verify_chain now st = (inl (Unanchored first), st).
Proof.
  intros [Ha Hf Hh Hb Hl]. split.
  - unfold backfill_chain_for_legacy_rows. by rewrite Hl.
  - unfold incremental_verify_chain, incremental_start, resolve_verification_anchor. rewrite Hh, Hf, Hb.
    by destruct (Z.leb_spec first 1); [lia|].
Qed.

(** A recovered chain has not been verified.  When the boundary is lost the outcome
    of a start depends on the archives and on the first link alone: two tables that share
    the first row's sequence and link start the same way, whatever their other rows
    are. *)
Theorem recovery_reads_one_link now cold_dir db1 db2 first prev :
  lost_boundary (db_storage db1) first prev → lost_boundary (db_storage db2) first prev →
  as_read_only (db_storage db1) = as_read_only (db_storage db2) →
  (start_chain true now cold_dir db1).1 = (start_chain true now cold_dir db2).1.
Proof.
  intros H1 H2 Hro. unfold start_chain, verify_at_startup. cbn [negb].
  destruct (lost_boundary_start now _ _ _ H1) as [-> ->], (lost_boundary_start now _ _ _ H2) as [-> ->].
  cbn [resolve_chain_status]. unfold resolve_unanchored, first_active_prev, store_archive_boundary.
  cbn [db_storage set_storage]. rewrite (lb_first _ _ _ H1), (lb_first _ _ _ H2), Hro.
  destruct (resolve_boundary_from_archives _ _ _ _) as [[| |b| |]|]; try done.
  by destruct (as_read_only (db_storage db2)).
Qed.

End Start.

(** ** Honest histories start *)

Section HonestStart.
Context {D : Deps} {CH : Chrono} {FD : F64Display} {SH : Sha256} {AC : AuditCodec} {CC : ColdCodec} {RT : ReasonText}.
Context {DL : DepsLaws} {CL : ChronoLaws} {ACL : AuditCodecLaws}.

Lemma classify_nothing now disk db :
  db_segment_history db = None → list_archive_files disk = [] ∨ as_archive_boundary (db_storage db) ≠ None →
  resolve_chain_status now (Valid 0) disk db = (Ready, db).
Proof.
  intros Hs Hd. cbn [resolve_chain_status]. unfold classify_active_regenesis. rewrite Hs.
  destruct (first_chained_row _) as [[first prev]|]; [|done]. destruct (1 <? first)%Z; [done|].
  destruct (as_archive_boundary (db_storage db)) as [[|]|]; [done|done|].
  destruct Hd as [-> |]; done.
Qed.

Lemma delete_at_boundary now max st hash :
  (0 < max)%Z → as_read_only st = false → hash_at_boundary max (as_rows st) = inl (Some hash) →
  ∃ n, delete_prefix now max st =
    (inl n, invalidate_verify_cache (set_boundary {| ab_sequence := max; ab_record_hash := hash; ab_updated_at := now |}
      (let rest := set_rows (List.filter (λ r, negb (up_to max r)) (as_rows st)) st in
       match as_verified_head st with
       | Some (Ok c) => if (ck_sequence c <? max)%Z then set_checkpoint (Some (Ok {| ck_sequence := max; ck_record_hash := Some hash |})) rest else rest
       | _ => set_checkpoint (Some (Ok {| ck_sequence := max; ck_record_hash := Some hash |})) rest
       end))).
Proof.
  intros Hpos Hro Hh. unfold delete_prefix. destruct (Z.leb_spec max 0); [lia|]. rewrite Hh, Hro.
  rewrite (boundary_counted _ _ _ Hh). eexists. do 3 f_equal.
  destruct (as_verified_head st) as [[c|]|]; try done. by destruct (ck_sequence c <? max)%Z.
Qed.

Lemma intact_start now cold_dir db base seed :
  intact (db_storage db) base seed → as_rows (db_storage db) ≠ [] ∨ list_archive_files cold_dir = [] →
  let '(status, db') := start_chain true now cold_dir db in
  is_writable status = true ∧ as_rows (db_storage db') = as_rows (db_storage db) ∧
  as_quarantine (db_storage db') = None ∧
  (db_segment_history db = None →
   list_archive_files cold_dir = [] ∨ as_archive_boundary (db_storage db) ≠ None → status = Ready).
Proof.
  intros Hin Hne. unfold start_chain, verify_at_startup. cbn [negb].
  rewrite (backfill_intact now _ _ _ Hin).
  destruct (incremental_intact now _ _ _ Hin) as (st1 & Hi & Hin1 & Hr). rewrite Hi.
  destruct (incremental_rows _ _ _ _ Hi) as (_ & Hq & Hb). rewrite (proj2 (in_writable _ _ _ Hin)) in Hq.
  destruct (resolve_chain_status now (verdict base (as_rows (db_storage db))) cold_dir (set_storage st1 db)) as [s db1] eqn:Hs.
  destruct (resolve_rows _ _ _ _ _ _ Hs) as [Hrows1 Hq1]. cbn in Hrows1, Hq1.
  assert (is_writable s = true ∧ (db_segment_history db = None →
    list_archive_files cold_dir = [] ∨ as_archive_boundary (db_storage db) ≠ None → s = Ready)) as [Hw Hready].
  { unfold verdict in Hs. destruct (as_rows (db_storage db)) as [|row rows] eqn:E.
    - cbn in Hs. destruct (list_archive_files cold_dir) eqn:El; [by simplify_eq|by destruct Hne].
    - split.
      + cbn in Hs. by destruct (classify_active_regenesis now cold_dir (set_storage st1 db)) as [[[|]|] ?]; simplify_eq.
      + intros Hseg Hd. pose proof (classify_nothing now cold_dir (set_storage st1 db) Hseg) as Hc. cbn in Hc, Hs.
        rewrite Hb in Hc. rewrite (Hc Hd) in Hs. by simplify_eq. }
  destruct s; [| | |discriminate Hw]; repeat split; try congruence; try done.
Qed.

(** An honest history starts.  A storage that only the program has written, and that
    holds a row or has no archives beside it, is writable when the owner starts, keeps its
    rows and its freedom from quarantine; it is plainly ready when there is no segment
    marker and either no archive or a boundary. *)
Theorem honest_start_is_writable now cold_dir db total :
  honest (db_storage db) total → (0 < total)%nat ∨ list_archive_files cold_dir = [] →
  let '(status, db') := start_chain true now cold_dir db in
  is_writable status = true ∧ as_rows (db_storage db') = as_rows (db_storage db) ∧
  as_quarantine (db_storage db') = None ∧
  (db_segment_history db = None →
   list_archive_files cold_dir = [] ∨ as_archive_boundary (db_storage db) ≠ None → status = Ready).
Proof.
  intros (base & seed & Hin & Ht)%honest_intact Hne. apply (intact_start _ _ _ base seed Hin).
  destruct Hne as [Hpos|]; [left|by right]. intros E.
  destruct (in_anchor _ _ _ Hin) as [(-> & _)|(_ & Hx & _)]; [rewrite E in Ht; cbn in Ht; lia|done].
Qed.

(** Retention can lock the database.  When the pass has archived and deleted every
    row, as it does once all of them are older than the cutoff, the next start finds an
    empty table beside archives and quarantines the chain. *)
Theorem emptied_start_quarantines now later cold_dir st total out st' marker :
  honest st total → (0 < total)%nat → delete_prefix now (Z.of_nat total) st = (out, st') →
  list_archive_files cold_dir ≠ [] →
  (start_chain true later cold_dir {| db_storage := st'; db_segment_history := marker |}).1
  = Quarantined (HistoryMissing (length (list_archive_files cold_dir))).
Proof.
  intros (base & seed & Hin & Ht)%honest_intact Hpos Hd Hfiles.
  destruct (as_rows st) as [|row before _] eqn:Hr using rev_ind.
  { destruct (in_anchor _ _ _ Hin) as [(-> & _)|(_ & Hne & _)]; [cbn in Ht; lia|by rewrite Hr in Hne]. }
  rewrite length_app in Ht. cbn [length] in Ht. rewrite Nat.add_1_r in Ht. rewrite <- Ht in Hd.
  destruct (delete_all _ _ _ _ _ _ _ _ Hin Hr Hd) as (Hr1 & Hro & Hq & c & Hk & Hs).
  unfold start_chain, verify_at_startup. cbn [negb db_storage].
  unfold backfill_chain_for_legacy_rows. rewrite Hr1.
  assert (read_all later (legacy_rows []) = Ok []) as -> by done.
  unfold incremental_verify_chain, incremental_start. rewrite Hk, Hr1. cbn [verify_chain_from resolve_chain_status].
  by destruct (list_archive_files cold_dir).
Qed.

(** The storage a fresh process opens. *)
Definition reopened (st : AuditStorage) : AuditStorage := set_quarantined None (set_cache None st).

(** Retention forgets a break.  The pass does not ask for the quarantine: whatever
    the deleted prefix of a never verified chain is, once its last row and the rows that
    remain link up the next start finds the chain healthy and writable. *)
Theorem retention_forgets_breaks now later cold_dir st max hash rest out st' :
  (0 < max)%Z → as_read_only st = false → as_verified_head st = None →
  hash_at_boundary max (as_rows st) = inl (Some hash) →
  List.filter (λ r, negb (up_to max r)) (as_rows st) = rest → rest ≠ [] → chain_ok (max + 1) (Some hash) rest →
  delete_prefix now max st = (out, st') →
  verify_chain later (reopened st') = inl (Valid (max + Z.of_nat (length rest))) ∧
  (start_chain true later cold_dir {| db_storage := reopened st'; db_segment_history := None |}).1 = Ready.
Proof.
  intros Hpos Hro Hk Hh Hrest Hne Hc Hd.
  destruct (delete_at_boundary now max st hash Hpos Hro Hh) as [n Hdel].
  rewrite Hdel, Hk, Hrest in Hd. injection Hd as _ Hd.
  set (b := {| ab_sequence := max; ab_record_hash := hash; ab_updated_at := now |}) in *.
  assert (intact (reopened st') max (Some hash)) as Hin.
  { subst st'. split; cbn.
    - done.
    - right. split; [done|]. split; [done|]. by exists b.
    - right. exists {| ck_sequence := max; ck_record_hash := Some hash |}, [], rest. cbn.
      by rewrite Z.add_0_r.
    - by left.
    - by split. }
  assert (as_rows (reopened st') = rest) as Hrows by (by subst st').
  split.
  - rewrite (verify_chain_intact _ _ _ _ Hin), Hrows. by destruct rest.
  - pose proof (intact_start later cold_dir {| db_storage := reopened st'; db_segment_history := None |} max (Some hash) Hin) as Hs.
    cbn [db_storage db_segment_history] in Hs. rewrite Hrows in Hs.
    destruct (start_chain _ _ _ _) as [status db'] eqn:E. cbn. apply Hs; [by left|done|].
    right. by subst st'.
Qed.

End HonestStart.

(** ** Examples *)

Section Concrete.
#[local] Existing Instances concrete_deps concrete_deps_laws audit_chrono audit_chrono_laws audit_fmt toy_sha256
  concrete_audit_codec concrete_audit_codec_laws concrete_cold concrete_cold_laws.

#[local] Instance one_text : ReasonText := λ _, "quarantined".

Definition unmarked (st : AuditStorage) : AuditDatabase := {| db_storage := st; db_segment_history := None |}.

(** A broken link: every append is refused, and the rows stay. *)
Lemma startup_fails_closed_witness :
  let db' := (start_chain true at_nine ∅ (unmarked relinked)).2 in
  is_writable (start_chain true at_nine ∅ (unmarked relinked)).1 = false ∧
  ∃ reason, ∀ faults records,
    insert_batch faults records (db_storage db') = (inr (ChainQuarantined reason), db_storage db').
Proof.
  assert (is_writable (start_chain true at_nine ∅ (unmarked relinked)).1 = false) as Hw by (vm_compute; reflexivity).
  split; [exact Hw|].
  destruct (startup_fails_closed at_nine ∅ (unmarked relinked) (start_chain true at_nine ∅ (unmarked relinked)).1
    (start_chain true at_nine ∅ (unmarked relinked)).2
    (backfill_chain_for_legacy_rows at_nine relinked).1 (backfill_chain_for_legacy_rows at_nine relinked).2
    (surjective_pairing _) (surjective_pairing _)) as (_ & Hq & _).
  exact (Hq Hw).
Defined.

(** Three records; the first is in an archive. *)
Definition three_records : list AuditRecord :=
  [example_record uuid_a "{}"; example_record uuid_b "[]"; example_record uuid_c "{}"].
Definition three_appended : AuditStorage := (insert_batch no_fault three_records (new_storage true)).2.

Definition first_archived : ColdDir :=
  {[ "2020-01-15.jsonl.zst" := [Lines (map record_to_json (take 1 (map read_or_default (as_rows three_appended))))] ]}.

(** The first row pruned, and the bookkeeping lost. *)
Definition bookless (rows : list AuditRow) : AuditStorage := {|
  as_rows := rows; as_verified_head := None; as_archive_boundary := None; as_verify_cache := None;
  as_unique_sequence_index := true; as_quarantine := None; as_read_only := false |}.
Definition lost : AuditStorage := bookless (drop 1 (as_rows three_appended)).

(** The link of the row of a sequence is overwritten. *)
Definition relink_at (sequence : Z) (row : AuditRow) : AuditRow :=
  if bool_decide (col_chain_sequence row = Some sequence)
  then set_chain_columns row (Some sequence) (Some "00") (col_record_hash row) else row.
Definition lost_and_tampered : AuditStorage := bookless (map (relink_at 3) (as_rows lost)).

Definition prev_of_second : option string := first_active_prev lost.

Lemma recovery_reads_one_link_witness :
  (start_chain true at_nine first_archived (unmarked lost_and_tampered)).1
  = (start_chain true at_nine first_archived (unmarked lost)).1.
Proof.
  apply (recovery_reads_one_link at_nine first_archived (unmarked lost_and_tampered) (unmarked lost) 2 prev_of_second).
  - split; [lia|vm_compute; reflexivity..].
  - split; [lia|vm_compute; reflexivity..].
  - vm_compute. reflexivity.
Defined.

Definition recovered_with (sequence : Z) (s : ChainStatus) : bool :=
  match s with Recovered q => (q =? sequence)%Z | _ => false end.

(** The tampered table is recovered and written to; the start after it finds the break. *)
Example tampered_is_recovered :
  let '(status, db) := start_chain true at_nine first_archived (unmarked lost_and_tampered) in
  recovered_with 1 status = true ∧ link_broken_at 3 (verify_chain at_nine (db_storage db)) = true ∧
  is_writable (start_chain true at_nine first_archived db).1 = false.
Proof. vm_compute. repeat split; reflexivity. Qed.

Lemma honest_start_is_writable_witness :
  let '(status, db') := start_chain true at_nine first_archived (unmarked one_pruned) in
  is_writable status = true ∧ as_rows (db_storage db') = as_rows one_pruned ∧
  as_quarantine (db_storage db') = None ∧
  (db_segment_history (unmarked one_pruned) = None →
   list_archive_files first_archived = [] ∨ as_archive_boundary one_pruned ≠ None → status = Ready).
Proof.
  apply (honest_start_is_writable at_nine first_archived (unmarked one_pruned) 2); [apply one_pruned_honest|left; lia].
Defined.

Lemma emptied_start_quarantines_witness :
  (start_chain true at_nine first_archived {| db_storage := emptied; db_segment_history := None |}).1
  = Quarantined (HistoryMissing (length (list_archive_files first_archived))).
Proof.
  apply (emptied_start_quarantines at_nine at_nine first_archived two_appended 2 (delete_prefix at_nine 2 two_appended).1).
  - apply two_appended_honest.
  - lia.
  - apply surjective_pairing.
  - intros H. apply (f_equal length) in H. vm_compute in H. discriminate H.
Defined.

(** The second link broken, and the first two rows pruned: the break is gone. *)
Definition broken_three : AuditStorage := bookless (map (relink_at 2) (as_rows three_appended)).
Definition third_row : list AuditRow := drop 2 (as_rows three_appended).
Definition second_hash : string :=
  match hash_at_boundary 2 (as_rows three_appended) with inl (Some h) => h | _ => "" end.

Example broken_three_is_broken : link_broken_at 2 (verify_chain at_nine broken_three) = true.
Proof. vm_compute. reflexivity. Qed.

Lemma three_appended_honest : honest three_appended 3.
Proof.
  assert (honest three_appended (0 + if (insert_batch no_fault three_records (new_storage true)).1 then 3 else 0)) as H.
  { apply (honest_batch no_fault three_records (new_storage true) 0); [apply honest_new| |done|apply surjective_pairing].
    repeat (apply Forall_cons; split; [by apply example_storable|]). by apply Forall_nil. }
  by replace (if (insert_batch no_fault three_records (new_storage true)).1 then 3 else 0)
    with 3 in H by (vm_compute; reflexivity).
Qed.

Lemma third_row_chain : chain_ok 3 (Some second_hash) third_row.
Proof.
  destruct (honest_intact _ _ three_appended_honest) as (base & seed & Hin & _).
  destruct (in_anchor _ _ _ Hin) as [(-> & -> & _)|(_ & _ & b & Hb & _)];
    [|exfalso; revert Hb; vm_compute; discriminate].
  pose proof (in_chain _ _ _ Hin) as Hc.
  rewrite <- (take_drop 2 (as_rows three_appended)) in Hc. apply chain_ok_app in Hc as [_ Hc].
  assert (seed_after None (take 2 (as_rows three_appended)) = Some second_hash) as Hs by (vm_compute; reflexivity).
  rewrite Hs in Hc. replace (length (take 2 (as_rows three_appended))) with 2 in Hc by (vm_compute; reflexivity).
  exact Hc.
Qed.

Lemma retention_forgets_breaks_witness :
  let st' := (delete_prefix at_nine 2 broken_three).2 in
  verify_chain at_nine (reopened st') = inl (Valid (2 + Z.of_nat (length third_row))) ∧
  (start_chain true at_nine first_archived {| db_storage := reopened st'; db_segment_history := None |}).1 = Ready.
Proof.
  apply (retention_forgets_breaks at_nine at_nine first_archived broken_three 2 second_hash third_row
    (delete_prefix at_nine 2 broken_three).1).
  - lia.
  - reflexivity.
  - reflexivity.
  - vm_compute. reflexivity.
  - vm_compute. reflexivity.
  - intros H. apply (f_equal length) in H. vm_compute in H. discriminate H.
  - exact third_row_chain.
  - apply surjective_pairing.
Defined.

End Concrete.
