(* ===== verification/Admission.v ===== *)
(** * Admission of supervised sessions

    [grith-supervisor/src/supervisor/session_state.rs]: the statistics and the record of a
    session, and the registry that admits sessions: seats are reserved before a tool is
    spawned, turned into sessions afterwards, and refused altogether while the audit
    database cannot be written.  Clocks, fresh identifiers, [/proc] and the liveness of a
    process are arguments. *)

From Stdlib Require Import Ascii String ZArith Lia.
From S2P Require Import Prelude Concrete ProcessTree.

(** ** Statistics *)

Record SessionStats := {
  total_intercepted : Z;
  total_allowed : Z;
  total_queued : Z;
  total_denied : Z;
  total_filtered_noise : Z;
  foreign_abi_denied : Z;
}.

Definition SessionStats_default : SessionStats := {|
  total_intercepted := 0; total_allowed := 0; total_queued := 0; total_denied := 0;
  total_filtered_noise := 0; foreign_abi_denied := 0 |}.

Definition tick (s : SessionStats) : Z * SessionStats :=
  let n := as_u64 (total_intercepted s + 1) in
  (n, {| total_intercepted := n; total_allowed := total_allowed s; total_queued := total_queued s;
         total_denied := total_denied s; total_filtered_noise := total_filtered_noise s;
         foreign_abi_denied := foreign_abi_denied s |}).

Definition proxy_evals (s : SessionStats) : Z :=
  as_u64 (as_u64 (total_allowed s + total_queued s) + total_denied s).

(** [u64::is_power_of_two]. *)
Definition is_power_of_two (n : Z) : bool := (0 <? n)%Z && (Z.land n (n - 1) =? 0)%Z.

Definition record_foreign_abi_denial (s : SessionStats) : bool * SessionStats :=
  let n := as_u64 (foreign_abi_denied s + 1) in
  ((n <=? 8)%Z || is_power_of_two n,
   {| total_intercepted := total_intercepted s; total_allowed := total_allowed s;
      total_queued := total_queued s; total_denied := total_denied s;
      total_filtered_noise := total_filtered_noise s; foreign_abi_denied := n |}).

(** ** Sessions *)

Record SupervisorSession {D : Deps} := {
  ss_id : Uuid;
  ss_tool_name : string;
  ss_profile_name : option string;
  ss_policy_scope : option string;
  ss_launcher_overlay_name : option string;
  ss_provider_overlay_name : option string;
  ss_root_pid : Z;
  ss_process_tree : ProcessTree;
  ss_started_at : Instant;
  ss_last_synced_at : Instant;
  ss_last_activity_at : Instant;
  ss_stats : SessionStats;
  ss_project_name : option string;
  ss_cwd : option string;
  ss_tty : option string;
  ss_wedge_reported_tids : gset Z;
  ss_spawn_recorded : gset Z;
  (** [None] until it is resolved. *)
  ss_controlling_pts : option (option string);
  ss_recent_denials : gmap string Instant;
  ss_recent_approvals : gmap string Instant;
  ss_control_socket_answers : gmap string bool;
}.

Record SessionSummary {D : Deps} := {
  sum_id : Uuid;
  sum_tool_name : string;
  sum_project_name : option string;
  sum_cwd : option string;
  sum_tty : option string;
  sum_root_pid : Z;
  sum_uptime_seconds : Z;
  sum_last_activity_seconds : Z;
  sum_stats : SessionStats;
  sum_containment_remaining_seconds : option Z;
}.

Record SessionReservation {D : Deps} := {
  res_id : Uuid;
  res_tool_name : string;
  res_profile_name : option string;
  res_created_at : Instant;
}.

Inductive AdmissionError :=
  | AuditQuarantined (reason : string)
  | AuditReadOnly (reason : string)
  | SessionLimitReached (max_sessions : nat).

Record SupervisorRegistry {D : Deps} := {
  rg_sessions : gmap Uuid SupervisorSession;
  rg_reservations : gmap Uuid SessionReservation;
  rg_max_sessions : nat;
  rg_audit_quarantine : option string;
  rg_audit_read_only : option string;
}.

Section Registry.
Context {D : Deps}.

Definition SupervisorSession_new (fresh : Uuid) (now : Instant) (name : string) (root_pid : Z) : SupervisorSession := {|
  ss_id := fresh; ss_process_tree := ProcessTree_new root_pid name; ss_tool_name := name;
  ss_profile_name := None; ss_policy_scope := None; ss_launcher_overlay_name := None;
  ss_provider_overlay_name := None; ss_root_pid := root_pid; ss_started_at := now;
  ss_last_synced_at := now; ss_last_activity_at := now; ss_stats := SessionStats_default;
  ss_project_name := None; ss_cwd := None; ss_tty := None; ss_wedge_reported_tids := ∅;
  ss_spawn_recorded := ∅; ss_controlling_pts := None; ss_recent_denials := ∅;
  ss_recent_approvals := ∅; ss_control_socket_answers := ∅ |}.

(** [controlling_pts] caches the first answer; [link] is the target of the process's
    standard input, [None] when it cannot be read as text. *)
Definition controlling_pts (link : option string) (s : SupervisorSession) : option string :=
  match ss_controlling_pts s with
  | Some cached => cached
  | None => target ← link; if starts_with "/dev/pts/" target then Some target else None
  end.

Definition uptime (now : Instant) (s : SupervisorSession) : Duration :=
  saturating_duration_since now (ss_started_at s).

Definition scope_name (s : SupervisorSession) : option string :=
  match ss_policy_scope s with Some scope => Some scope | None => ss_profile_name s end.

Definition as_secs (d : Duration) : Z := (d / nanos_per_sec)%Z.

Definition summary (now : Instant) (s : SupervisorSession) : SessionSummary := {|
  sum_id := ss_id s; sum_tool_name := ss_tool_name s; sum_project_name := ss_project_name s;
  sum_cwd := ss_cwd s; sum_tty := ss_tty s; sum_root_pid := ss_root_pid s;
  sum_uptime_seconds := as_secs (saturating_duration_since now (ss_started_at s));
  sum_last_activity_seconds := as_secs (saturating_duration_since now (ss_last_activity_at s));
  sum_stats := ss_stats s; sum_containment_remaining_seconds := None |}.

(** ** The registry *)

Definition RESERVATION_TTL : Duration := from_secs 30.

Definition SupervisorRegistry_new (max_concurrent_sessions : nat) : SupervisorRegistry := {|
  rg_sessions := ∅; rg_reservations := ∅; rg_max_sessions := max_concurrent_sessions;
  rg_audit_quarantine := None; rg_audit_read_only := None |}.

Definition with_tables (sessions : gmap Uuid SupervisorSession) (reservations : gmap Uuid SessionReservation)
    (g : SupervisorRegistry) : SupervisorRegistry := {|
  rg_sessions := sessions; rg_reservations := reservations; rg_max_sessions := rg_max_sessions g;
  rg_audit_quarantine := rg_audit_quarantine g; rg_audit_read_only := rg_audit_read_only g |}.

Definition set_audit_quarantine (reason : option string) (g : SupervisorRegistry) : SupervisorRegistry := {|
  rg_sessions := rg_sessions g; rg_reservations := rg_reservations g; rg_max_sessions := rg_max_sessions g;
  rg_audit_quarantine := reason; rg_audit_read_only := rg_audit_read_only g |}.

Definition set_audit_read_only (reason : option string) (g : SupervisorRegistry) : SupervisorRegistry := {|
  rg_sessions := rg_sessions g; rg_reservations := rg_reservations g; rg_max_sessions := rg_max_sessions g;
  rg_audit_quarantine := rg_audit_quarantine g; rg_audit_read_only := reason |}.

Definition set_max_sessions (max : nat) (g : SupervisorRegistry) : SupervisorRegistry := {|
  rg_sessions := rg_sessions g; rg_reservations := rg_reservations g; rg_max_sessions := max;
  rg_audit_quarantine := rg_audit_quarantine g; rg_audit_read_only := rg_audit_read_only g |}.

Definition check_audit_admissible (g : SupervisorRegistry) : unit + AdmissionError :=
  match rg_audit_quarantine g with
  | Some reason => inr (AuditQuarantined reason)
  | None =>
      match rg_audit_read_only g with
      | Some reason => inr (AuditReadOnly reason)
      | None => inl ()
      end
  end.

Definition occupancy (g : SupervisorRegistry) : nat := size (rg_sessions g) + size (rg_reservations g).
Definition reservation_count (g : SupervisorRegistry) : nat := size (rg_reservations g).

Definition lease_live (now : Instant) (r : SessionReservation) : bool :=
  (saturating_duration_since now (res_created_at r) <? RESERVATION_TTL)%Z.

Definition reap_expired_reservations (now : Instant) (g : SupervisorRegistry) : nat * SupervisorRegistry :=
  let kept := filter (λ kr, lease_live now kr.2 = true) (rg_reservations g) in
  (size (rg_reservations g) - size kept, with_tables (rg_sessions g) kept g).

Definition session_dead (alive : Z → bool) (now : Instant) (s : SupervisorSession) : bool :=
  (from_secs 30 <? saturating_duration_since now (ss_last_synced_at s))%Z && negb (alive (ss_root_pid s)).

Definition reap_dead (alive : Z → bool) (now : Instant) (g : SupervisorRegistry) : nat * SupervisorRegistry :=
  let dead := filter (λ ks, session_dead alive now ks.2 = true) (rg_sessions g) in
  (size dead, with_tables (rg_sessions g ∖ dead) (rg_reservations g) g).

Definition register (now : Instant) (session : SupervisorSession) (g : SupervisorRegistry) :
    (unit + AdmissionError) * SupervisorRegistry :=
  match check_audit_admissible g with
  | inr e => (inr e, g)
  | inl _ =>
      let g := (reap_expired_reservations now g).2 in
      if (rg_max_sessions g <=? occupancy g)%nat then (inr (SessionLimitReached (rg_max_sessions g)), g)
      else (inl (), with_tables (<[ss_id session := session]> (rg_sessions g)) (rg_reservations g) g)
  end.

Definition reserve (alive : Z → bool) (now : Instant) (fresh : Uuid) (tool_name : string)
    (profile_name : option string) (g : SupervisorRegistry) : (Uuid + AdmissionError) * SupervisorRegistry :=
  match check_audit_admissible g with
  | inr e => (inr e, g)
  | inl _ =>
      let g := (reap_expired_reservations now g).2 in
      let g := if (rg_max_sessions g <=? occupancy g)%nat then (reap_dead alive now g).2 else g in
      if (rg_max_sessions g <=? occupancy g)%nat then (inr (SessionLimitReached (rg_max_sessions g)), g)
      else
        let reservation := {| res_id := fresh; res_tool_name := tool_name; res_profile_name := profile_name;
                              res_created_at := now |} in
        (inl fresh, with_tables (rg_sessions g) (<[fresh := reservation]> (rg_reservations g)) g)
  end.

Definition is_held {A} (m : gmap Uuid A) (i : Uuid) : bool := match m !! i with Some _ => true | None => false end.

Definition activate (now : Instant) (reservation_id : Uuid) (session : SupervisorSession) (g : SupervisorRegistry) :
    (unit + AdmissionError) * SupervisorRegistry :=
  match check_audit_admissible g with
  | inr e => (inr e, g)
  | inl _ =>
      let had_reservation := is_held (rg_reservations g) reservation_id in
      let released := with_tables (rg_sessions g) (delete reservation_id (rg_reservations g)) g in
      if is_held (rg_sessions g) (ss_id session) then (inl (), released)
      else
        let g := if had_reservation then released else (reap_expired_reservations now released).2 in
        if negb had_reservation && (rg_max_sessions g <=? occupancy g)%nat
        then (inr (SessionLimitReached (rg_max_sessions g)), g)
        else (inl (), with_tables (<[ss_id session := session]> (rg_sessions g)) (rg_reservations g) g)
  end.

Definition cancel (reservation_id : Uuid) (g : SupervisorRegistry) : bool * SupervisorRegistry :=
  (is_held (rg_reservations g) reservation_id,
   with_tables (rg_sessions g) (delete reservation_id (rg_reservations g)) g).

Definition rg_get (i : Uuid) (g : SupervisorRegistry) : option SupervisorSession := rg_sessions g !! i.

Definition rg_remove (i : Uuid) (g : SupervisorRegistry) : option SupervisorSession * SupervisorRegistry :=
  (rg_sessions g !! i, with_tables (delete i (rg_sessions g)) (rg_reservations g) g).

Definition rg_count (g : SupervisorRegistry) : nat := size (rg_sessions g).

(** [list], in the order of the map's iteration. *)
Definition rg_list `{HashIter} (now : Instant) (g : SupervisorRegistry) : list SessionSummary :=
  map (λ ks, summary now ks.2) (hash_iter (rg_sessions g)).

End Registry.

(** ** Seats *)

Section Seats.
Context {D : Deps}.

(** A call into the registry, with the clock and the processes it sees. *)
Inductive AdmissionOp :=
  | OpRegister (session : SupervisorSession)
  | OpReserve (fresh : Uuid) (tool_name : string) (profile_name : option string)
  | OpActivate (reservation_id : Uuid) (session : SupervisorSession)
  | OpCancel (reservation_id : Uuid)
  | OpRemove (i : Uuid)
  | OpReapExpired
  | OpReapDead.

Definition apply_op (alive : Z → bool) (now : Instant) (op : AdmissionOp) (g : SupervisorRegistry) : SupervisorRegistry :=
  match op with
  | OpRegister s => (register now s g).2
  | OpReserve fresh t p => (reserve alive now fresh t p g).2
  | OpActivate r s => (activate now r s g).2
  | OpCancel r => (cancel r g).2
  | OpRemove i => (rg_remove i g).2
  | OpReapExpired => (reap_expired_reservations now g).2
  | OpReapDead => (reap_dead alive now g).2
  end.

Fixpoint run_ops (alive : Z → bool) (ops : list (Instant * AdmissionOp)) (g : SupervisorRegistry) : SupervisorRegistry :=
  match ops with
  | [] => g
  | (now, op) :: ops => run_ops alive ops (apply_op alive now op g)
  end.

Lemma insert_size {A} (m : gmap Uuid A) i x : size (<[i := x]> m) <= S (size m).
Proof. rewrite map_size_insert. destruct (m !! i); cbn; lia. Qed.

Lemma delete_size {A} (m : gmap Uuid A) i : size (delete i m) <= size m.
Proof. rewrite map_size_delete. destruct (m !! i); cbn; lia. Qed.

Lemma delete_held {A} (m : gmap Uuid A) i : is_held m i = true → S (size (delete i m)) = size m.
Proof.
  unfold is_held. rewrite map_size_delete. destruct (m !! i) eqn:E; [|done]. intros _.
  assert (size m ≠ 0); [|cbn; lia]. intros H%map_size_empty_inv. by rewrite H, lookup_empty in E.
Qed.

Lemma filter_size {A} (m : gmap Uuid A) (P : Uuid * A → Prop) `{∀ x, Decision (P x)} : size (filter P m) <= size m.
Proof. apply map_subseteq_size, map_filter_subseteq. Qed.

Lemma difference_size {A} (m m' : gmap Uuid A) : size (m ∖ m') <= size m.
Proof. apply map_subseteq_size, map_subseteq_difference_l. done. Qed.

Lemma reap_expired_occupancy now g : occupancy (reap_expired_reservations now g).2 <= occupancy g.
Proof. unfold occupancy. cbn. apply Nat.add_le_mono_l, filter_size. Qed.

Lemma reap_dead_occupancy alive now g : occupancy (reap_dead alive now g).2 <= occupancy g.
Proof. unfold occupancy. cbn. apply Nat.add_le_mono_r, difference_size. Qed.

(** A seat taken after the check. *)
Lemma seat_taken {A} (m : gmap Uuid A) i x others max :
  (max <=? size m + others)%nat = false → size (<[i := x]> m) + others <= max.
Proof. intros H%Nat.leb_gt. pose proof (insert_size m i x). lia. Qed.

Lemma apply_op_max alive now op g : rg_max_sessions (apply_op alive now op g) = rg_max_sessions g.
Proof. destruct op; cbn; unfold register, reserve, activate; repeat case_match; done. Qed.

Lemma apply_op_occupancy alive now op g :
  occupancy (apply_op alive now op g) <= Nat.max (rg_max_sessions g) (occupancy g).
Proof.
  pose proof (reap_expired_occupancy now g) as Hr. destruct op as [s|fresh t p|r s|r|i| |]; cbn [apply_op].
  - unfold register. destruct (check_audit_admissible g); [|cbn; lia].
    destruct (_ <=? _)%nat eqn:Hc; [cbn in *; lia|].
    apply (seat_taken _ (ss_id s) s) in Hc. unfold occupancy at 1. cbn in *. lia.
  - unfold reserve. destruct (check_audit_admissible g); [|cbn; lia].
    set (g1 := (reap_expired_reservations now g).2) in *.
    set (g2 := if (rg_max_sessions g1 <=? occupancy g1)%nat then _ else g1).
    assert (occupancy g2 <= occupancy g1 ∧ rg_max_sessions g2 = rg_max_sessions g) as [Hg2 Hm].
    { unfold g2. destruct (_ <=? _)%nat; [|done]. split; [apply reap_dead_occupancy|done]. }
    clearbody g2. destruct (rg_max_sessions g2 <=? occupancy g2)%nat eqn:Hc; [cbn [snd]; lia|].
    unfold occupancy in Hc. rewrite Nat.add_comm in Hc. apply (seat_taken _ fresh {| res_id := fresh;
      res_tool_name := t; res_profile_name := p; res_created_at := now |}) in Hc.
    unfold occupancy at 1. cbn. lia.
  - unfold activate. destruct (check_audit_admissible g); [|cbn; lia].
    pose proof (delete_size (rg_reservations g) r) as Hd.
    destruct (is_held (rg_sessions g) (ss_id s)); [unfold occupancy; cbn; lia|].
    destruct (is_held (rg_reservations g) r) eqn:Hheld; cbn [negb andb].
    + apply delete_held in Hheld. pose proof (insert_size (rg_sessions g) (ss_id s) s). unfold occupancy. cbn. lia.
    + set (g1 := with_tables _ _ _). pose proof (reap_expired_occupancy now g1) as Hr1.
      assert (occupancy g1 <= occupancy g) by (unfold occupancy, g1; cbn; lia).
      destruct (_ <=? _)%nat eqn:Hc; [cbn in *; lia|].
      apply (seat_taken _ (ss_id s) s) in Hc. unfold occupancy at 1. cbn in *. lia.
  - unfold occupancy. cbn. pose proof (delete_size (rg_reservations g) r). lia.
  - unfold occupancy. cbn. pose proof (delete_size (rg_sessions g) i). lia.
  - lia.
  - pose proof (reap_dead_occupancy alive now g). lia.
Qed.

(** C23: the cap holds.  Whatever clients ask for and in whatever order, live sessions and
    outstanding leases together never exceed the cap, so two launches in flight cannot
    both take the last seat. *)
Theorem seats_never_exceed_cap alive ops g :
  occupancy g <= rg_max_sessions g →
  occupancy (run_ops alive ops g) <= rg_max_sessions (run_ops alive ops g) ∧
  rg_max_sessions (run_ops alive ops g) = rg_max_sessions g.
Proof.
  revert g. induction ops as [|[now op] ops IH]; intros g Hg; [done|]. cbn [run_ops].
  pose proof (apply_op_occupancy alive now op g) as Ho. pose proof (apply_op_max alive now op g) as Hm.
  destruct (IH (apply_op alive now op g)) as [H1 H2]; [lia|]. by rewrite Hm in H2.
Qed.

(** Operations that touch a lease by its identifier. *)
Definition names_lease (op : AdmissionOp) (i : Uuid) : bool :=
  match op with
  | OpReserve fresh _ _ => bool_decide (fresh = i)
  | OpActivate r _ | OpCancel r => bool_decide (r = i)
  | _ => false
  end.

Lemma apply_op_audit alive now op g :
  check_audit_admissible (apply_op alive now op g) = check_audit_admissible g.
Proof. destruct op; cbn; unfold register, reserve, activate; repeat case_match; done. Qed.

Lemma reap_keeps_lease now g i r :
  rg_reservations g !! i = Some r → lease_live now r = true →
  rg_reservations (reap_expired_reservations now g).2 !! i = Some r.
Proof. intros Hi Hl. cbn. by apply map_lookup_filter_Some_2. Qed.

Lemma apply_op_lease alive now op g i r :
  rg_reservations g !! i = Some r → lease_live now r = true → names_lease op i = false →
  rg_reservations (apply_op alive now op g) !! i = Some r.
Proof.
  intros Hi Hl Hn. pose proof (reap_keeps_lease now g i r Hi Hl) as Hreap.
  destruct op as [s|fresh t p|l s|l|j| |]; cbn [apply_op names_lease] in *; try apply bool_decide_eq_false in Hn.
  - unfold register. destruct (check_audit_admissible g); [|done]. by case_match.
  - unfold reserve. destruct (check_audit_admissible g); [|done].
    set (g1 := (reap_expired_reservations now g).2) in *.
    set (g2 := if (rg_max_sessions g1 <=? occupancy g1)%nat then _ else g1).
    assert (rg_reservations g2 !! i = Some r) as Hg2 by (unfold g2; by case_match).
    clearbody g2. case_match; [done|]. cbn. by rewrite lookup_insert_ne.
  - unfold activate. destruct (check_audit_admissible g); [|done].
    assert (delete l (rg_reservations g) !! i = Some r) as Hd by by rewrite lookup_delete_ne.
    set (g1 := with_tables _ _ _). pose proof (reap_keeps_lease now g1 i r Hd Hl) as Hr1.
    destruct (is_held (rg_sessions g) (ss_id s)); [exact Hd|].
    destruct (is_held (rg_reservations g) l); [exact Hd|]. cbn [negb andb]. by case_match.
  - cbn. by rewrite lookup_delete_ne.
  - done.
  - done.
  - done.
Qed.

(** A lease is a promise.  While a lease is younger than its time to live and nobody
    names it, no sequence of requests of other clients takes it away, and activating it
    then admits the session, full or not. *)
Theorem held_lease_admits alive ops g i r now session :
  rg_reservations g !! i = Some r → check_audit_admissible g = inl () →
  Forall (λ top, lease_live top.1 r = true ∧ names_lease top.2 i = false) ops →
  (activate now i session (run_ops alive ops g)).1 = inl () ∧
  is_held (rg_sessions (activate now i session (run_ops alive ops g)).2) (ss_id session) = true.
Proof.
  intros Hi Ha Hops. revert g Hi Ha. induction Hops as [|[t op] ops [Hl Hn] _ IH]; intros g Hi Ha.
  - cbn [run_ops]. unfold activate. rewrite Ha. destruct (is_held (rg_sessions g) (ss_id session)) eqn:Hs; [by split|].
    assert (is_held (rg_reservations g) i = true) as -> by (unfold is_held; by rewrite Hi).
    cbn [negb andb]. split; [done|]. unfold is_held. cbn. by rewrite lookup_insert_eq.
  - cbn [run_ops]. apply IH; [by apply apply_op_lease|by rewrite apply_op_audit].
Qed.

(** Refused while the audit database cannot be written: nothing is added. *)
Lemma refused_op alive now op g :
  check_audit_admissible g ≠ inl () →
  dom (rg_sessions (apply_op alive now op g)) ⊆ dom (rg_sessions g) ∧
  dom (rg_reservations (apply_op alive now op g)) ⊆ dom (rg_reservations g).
Proof.
  intros Hq. destruct (check_audit_admissible g) as [[]|e] eqn:E; [done|].
  destruct op; cbn [apply_op]; unfold register, reserve, activate; rewrite ?E; cbn; try done.
  - split; [done|]. apply subseteq_dom, delete_subseteq.
  - split; [apply subseteq_dom, delete_subseteq|done].
  - split; [done|]. apply subseteq_dom, map_filter_subseteq.
  - split; [|done]. apply subseteq_dom, map_subseteq_difference_l. done.
Qed.

(** A quarantined chain admits nobody.  While the audit chain is quarantined or the
    database read-only, no sequence of requests adds a session or a lease. *)
Theorem unwritable_audit_admits_nobody alive ops g :
  rg_audit_quarantine g ≠ None ∨ rg_audit_read_only g ≠ None →
  dom (rg_sessions (run_ops alive ops g)) ⊆ dom (rg_sessions g) ∧
  dom (rg_reservations (run_ops alive ops g)) ⊆ dom (rg_reservations g).
Proof.
  intros Hg. assert (check_audit_admissible g ≠ inl ()) as Ha.
  { unfold check_audit_admissible. destruct (rg_audit_quarantine g); [done|]. by destruct (rg_audit_read_only g), Hg. }
  clear Hg. revert g Ha. induction ops as [|[now op] ops IH]; intros g Ha; [done|]. cbn [run_ops].
  destruct (refused_op alive now op g Ha) as [H1 H2]. destruct (IH (apply_op alive now op g)) as [H3 H4].
  { by rewrite apply_op_audit. }
  split; by etrans.
Qed.

(** A lost response: a second activation of the same session changes no session. *)
Lemma activate_again now now' r r' s g :
  (activate now r s g).1 = inl () →
  (activate now' r' s (activate now r s g).2).1 = inl () ∧
  rg_sessions (activate now' r' s (activate now r s g).2).2 = rg_sessions (activate now r s g).2.
Proof.
  intros H. set (g1 := (activate now r s g).2).
  assert (is_held (rg_sessions g1) (ss_id s) = true ∧ check_audit_admissible g1 = inl ()) as [Hs Ha].
  { revert H. unfold g1, activate. destruct (check_audit_admissible g) as [[]|] eqn:E; [|done].
    destruct (is_held (rg_sessions g) (ss_id s)) eqn:Hs; [done|].
    unfold is_held. case_match; [done|]. intros _. cbn. rewrite lookup_insert_eq. split; [done|]. by destruct (rg_reservations g !! r). }
  unfold activate at 1 2. by rewrite Ha, Hs.
Qed.

(** Leases past their time to live block nobody. *)
Lemma stale_leases_free now s g :
  check_audit_admissible g = inl () → map_Forall (λ _ r, lease_live now r = false) (rg_reservations g) →
  size (rg_sessions g) < rg_max_sessions g → (register now s g).1 = inl ().
Proof.
  intros Ha Hs Hlt. unfold register. rewrite Ha.
  assert (rg_reservations (reap_expired_reservations now g).2 = ∅) as He.
  { cbn. apply map_empty. intros i. apply map_lookup_filter_None. right. intros r Hr. cbn.
    by rewrite (Hs i r Hr). }
  unfold occupancy. rewrite He, map_size_empty. cbn.
  destruct (Nat.leb_spec (rg_max_sessions g) (size (rg_sessions g) + 0)); [lia|done].
Qed.

End Seats.

(** ** The flood of foreign-ABI calls *)

Section Flood.

(** [n] denials; the counters at which a durable record was written, newest first. *)
Fixpoint deny_times (n : nat) (s : SessionStats) : list Z * SessionStats :=
  match n with
  | O => ([], s)
  | S n =>
      let '(records, s) := deny_times n s in
      let '(durable, s) := record_foreign_abi_denial s in
      (if durable then foreign_abi_denied s :: records else records, s)
  end.

Lemma power_of_two_log2 n : (1 < n)%Z → is_power_of_two n = true → Z.log2 n = (Z.log2 (n - 1) + 1)%Z.
Proof.
  intros Hn [_ H%Z.eqb_eq]%andb_true_iff.
  pose proof (Z.log2_le_mono (n - 1) n ltac:(lia)) as H1.
  pose proof (Z.log2_succ_le (n - 1)) as H2. replace (Z.succ (n - 1)) with n in H2 by lia.
  assert (Z.log2 (n - 1) ≠ Z.log2 n); [|lia]. intros E.
  assert (Z.testbit (Z.land n (n - 1)) (Z.log2 n) = true) as Hb.
  { rewrite Z.land_spec, Z.bit_log2 by lia. rewrite <- E. by rewrite Z.bit_log2 by lia. }
  by rewrite H, Z.bits_0 in Hb.
Qed.

Lemma power_is_power k : (0 <= k)%Z → is_power_of_two (2 ^ k) = true.
Proof.
  intros Hk. unfold is_power_of_two. pose proof (Z.pow_pos_nonneg 2 k ltac:(lia) Hk).
  destruct (Z.ltb_spec 0 (2 ^ k)); [cbn|lia]. apply Z.eqb_eq.
  change (2 ^ k - 1)%Z with (Z.pred (2 ^ k))%Z. rewrite <- Z.ones_equiv, Z.land_ones by done. apply Z.mod_same. lia.
Qed.

Lemma deny_times_counts n :
  (Z.of_nat n < 2 ^ 64)%Z → foreign_abi_denied (deny_times n SessionStats_default).2 = Z.of_nat n.
Proof.
  induction n as [|n IH]; [done|]. intros Hn. cbn [deny_times].
  destruct (deny_times n SessionStats_default) as [l s]. cbn in *. unfold as_u64. rewrite IH by lia.
  rewrite Z.mod_small; lia.
Qed.

(** The records of the first [n + 1] denials. *)
Lemma deny_times_S n :
  (Z.of_nat (S n) < 2 ^ 64)%Z →
  (deny_times (S n) SessionStats_default).1 =
  if (Z.of_nat (S n) <=? 8)%Z || is_power_of_two (Z.of_nat (S n))
  then Z.of_nat (S n) :: (deny_times n SessionStats_default).1 else (deny_times n SessionStats_default).1.
Proof.
  intros Hn. cbn [deny_times]. pose proof (deny_times_counts n ltac:(lia)) as Hc.
  destruct (deny_times n SessionStats_default) as [l s]. cbn [fst snd] in *.
  unfold record_foreign_abi_denial. rewrite Hc. unfold as_u64.
  rewrite Z.mod_small by lia. cbn [foreign_abi_denied].
  replace (Z.of_nat n + 1)%Z with (Z.of_nat (S n)) by lia. by case_match.
Qed.

Lemma deny_times_length n :
  (Z.of_nat n < 2 ^ 64)%Z →
  (Z.of_nat (length (deny_times n SessionStats_default).1) <= Z.min (Z.of_nat n) 8 + Z.log2 (Z.of_nat n))%Z.
Proof.
  induction n as [|n IH]; [done|]. intros Hn. rewrite deny_times_S by done. specialize (IH ltac:(lia)).
  pose proof (Z.log2_le_mono (Z.of_nat n) (Z.of_nat (S n)) ltac:(lia)) as Hm.
  destruct (Z.leb_spec (Z.of_nat (S n)) 8) as [H8|H8]; cbn [orb length].
  - lia.
  - destruct (is_power_of_two (Z.of_nat (S n))) eqn:Hp; cbn [length]; [|lia].
    apply power_of_two_log2 in Hp; [|lia]. replace (Z.of_nat (S n) - 1)%Z with (Z.of_nat n) in Hp by lia. lia.
Qed.

Lemma deny_times_elem n m :
  (Z.of_nat n < 2 ^ 64)%Z → (0 < m <= Z.of_nat n)%Z → is_power_of_two m = true →
  m ∈ (deny_times n SessionStats_default).1.
Proof.
  induction n as [|n IH]; [lia|]. intros Hn Hm Hp. rewrite deny_times_S by done.
  destruct (decide (m = Z.of_nat (S n))) as [->|].
  - rewrite Hp, orb_true_r. by left.
  - specialize (IH ltac:(lia) ltac:(lia) Hp). case_match; [by right|done].
Qed.

(** A flood of denied foreign-ABI calls leaves few records that still tell its scale.
    [n] denials write at most 8 + log2 n durable records, the counter is exact, and the
    count of some record is more than half of it. *)
Theorem foreign_abi_flood_bounded n :
  0 < n → (Z.of_nat n < 2 ^ 64)%Z →
  let '(records, s) := deny_times n SessionStats_default in
  foreign_abi_denied s = Z.of_nat n ∧
  (Z.of_nat (length records) <= 8 + Z.log2 (Z.of_nat n))%Z ∧
  ∃ m, m ∈ records ∧ (m <= Z.of_nat n < 2 * m)%Z.
Proof.
  intros Hpos Hn. pose proof (deny_times_counts n Hn) as Hc. pose proof (deny_times_length n Hn) as Hl.
  pose proof (Z.log2_spec (Z.of_nat n) ltac:(lia)) as [H1 H2].
  pose proof (Z.pow_pos_nonneg 2 (Z.log2 (Z.of_nat n)) ltac:(lia) (Z.log2_nonneg _)) as H0.
  pose proof (deny_times_elem n (2 ^ Z.log2 (Z.of_nat n)) Hn ltac:(lia) (power_is_power _ (Z.log2_nonneg _))) as He.
  destruct (deny_times n SessionStats_default) as [l s]. cbn in *. split; [done|]. split; [lia|].
  eexists. split; [exact He|]. rewrite Z.pow_succ_r in H2 by apply Z.log2_nonneg. lia.
Qed.

End Flood.

(** ** Examples *)

Section Concrete.
#[local] Existing Instances concrete_deps concrete_deps_laws.

Lemma foreign_abi_flood_bounded_witness :
  let '(records, s) := deny_times 1000 SessionStats_default in
  foreign_abi_denied s = 1000%Z ∧ (Z.of_nat (length records) <= 8 + Z.log2 1000)%Z ∧
  ∃ m, m ∈ records ∧ (m <= 1000 < 2 * m)%Z.
Proof. apply (foreign_abi_flood_bounded 1000); [lia|reflexivity]. Defined.

Definition session_a : SupervisorSession := SupervisorSession_new uuid_a 0%Z "codex" 10%Z.
Definition session_b : SupervisorSession := SupervisorSession_new uuid_b 0%Z "aider" 11%Z.
Definition one_seat : SupervisorRegistry := SupervisorRegistry_new 1.
Definition all_alive : Z → bool := λ _, true.
Definition leased : SupervisorRegistry := apply_op all_alive 0%Z (OpReserve uuid_a "codex" None) one_seat.
Definition rush : list (Instant * AdmissionOp) :=
  [(1%Z, OpRegister session_b); (2%Z, OpReserve uuid_b "aider" None); (3%Z, OpReapExpired)].

Lemma seats_never_exceed_cap_witness :
  occupancy (run_ops all_alive rush leased) <= rg_max_sessions (run_ops all_alive rush leased) ∧
  rg_max_sessions (run_ops all_alive rush leased) = rg_max_sessions leased.
Proof. apply (seats_never_exceed_cap all_alive rush leased). apply Nat.leb_le. vm_compute. reflexivity. Defined.

(** The only seat is leased; two other clients ask; the lease is still honoured. *)
Lemma held_lease_admits_witness :
  (activate 4%Z uuid_a session_a (run_ops all_alive rush leased)).1 = inl () ∧
  is_held (rg_sessions (activate 4%Z uuid_a session_a (run_ops all_alive rush leased)).2) (ss_id session_a) = true.
Proof.
  apply (held_lease_admits all_alive rush leased uuid_a
    {| res_id := uuid_a; res_tool_name := "codex"; res_profile_name := None; res_created_at := 0%Z |}).
  - reflexivity.
  - reflexivity.
  - repeat constructor.
Defined.

Lemma unwritable_audit_admits_nobody_witness :
  dom (rg_sessions (run_ops all_alive rush (set_audit_quarantine (Some "broken") leased)))
    ⊆ dom (rg_sessions (set_audit_quarantine (Some "broken") leased)) ∧
  dom (rg_reservations (run_ops all_alive rush (set_audit_quarantine (Some "broken") leased)))
    ⊆ dom (rg_reservations (set_audit_quarantine (Some "broken") leased)).
Proof. apply unwritable_audit_admits_nobody. by left. Defined.

End Concrete.
