(* ===== verification/SpawnFamilies.v ===== *)
(** Families of container commands
    (src/crates/grith-supervisor/src/supervisor/spawn_families.rs): the key under
    which the approval of a delegating spawn sticks for the session, and the key of
    the approvals themselves (delegating_approval_key of event_handler.rs).

    A flag table lists the spellings of a flag with what the flag does to the key.
    [authority] below is the specification: what an approval is about, which is the
    daemon and project selected, the verb, the flags that bear authority and the
    targets.  [family_key_names_authority] shows that equal keys mean equal
    authority. *)
From Stdlib Require Import Ascii.
From stdpp Require Import base strings list option.
From S2P Require Import Prelude Types.

#[local] Open Scope string_scope.
#[local] Open Scope list_scope.
#[local] Set Warnings "-notation-overridden".

(** ** Data *)

Record SpawnFamily := { sf_key : string; sf_label : string }.

Inductive FlagRule := KeepWithValue | Keep | DropWithValue | Drop.

Definition FlagTable : Type := list (list string * FlagRule).

(** The first spelling is the canonical one. *)
Fixpoint classify (table : FlagTable) (flag : string) : option (string * FlagRule) :=
  match table with
  | [] => None
  | (aliases, rule) :: table =>
      if str_mem flag aliases then Some (default "" (head aliases), rule) else classify table flag
  end.

Definition GLOBALS : FlagTable := [
  (["--host"; "-H"], KeepWithValue);
  (["--context"], KeepWithValue);
  (["--config"], KeepWithValue);
  (["--log-level"; "-l"], DropWithValue);
  (["--debug"; "-D"], Drop)].

Definition COMPOSE_GLOBALS : FlagTable := [
  (["--file"; "-f"], KeepWithValue);
  (["--project-name"; "-p"], KeepWithValue);
  (["--project-directory"], KeepWithValue);
  (["--env-file"], KeepWithValue);
  (["--profile"], KeepWithValue);
  (["--progress"], DropWithValue);
  (["--ansi"], DropWithValue)].

Definition EXEC_FLAGS : FlagTable := [
  (["--user"; "-u"], KeepWithValue);
  (["--privileged"], Keep);
  (["-T"; "--no-TTY"], Drop);
  (["--interactive"; "-i"], Drop);
  (["--tty"; "-t"], Drop);
  (["--detach"; "-d"], Drop);
  (["--env"; "-e"], DropWithValue);
  (["--workdir"; "-w"], DropWithValue);
  (["--index"], DropWithValue)].

Definition OBSERVER_FLAGS : FlagTable := [
  (["--tail"; "-n"], DropWithValue);
  (["--since"], DropWithValue);
  (["--until"], DropWithValue);
  (["--follow"; "-f"], Drop);
  (["--timestamps"; "-t"], Drop);
  (["--no-color"], Drop);
  (["--no-log-prefix"], Drop);
  (["--format"], DropWithValue);
  (["--quiet"; "-q"], Drop);
  (["--all"; "-a"], Drop);
  (["--services"], Drop);
  (["--filter"], DropWithValue);
  (["--no-trunc"], Drop)].

Definition LIFECYCLE_FLAGS : FlagTable := [
  (["--detach"; "-d"], Drop);
  (["--build"], Drop);
  (["--no-build"], Drop);
  (["--force-recreate"], Drop);
  (["--no-recreate"], Drop);
  (["--no-deps"], Drop);
  (["--remove-orphans"], Drop);
  (["--wait"], Drop);
  (["--quiet-pull"], Drop);
  (["--no-color"], Drop);
  (["--timeout"; "-t"], DropWithValue);
  (["--pull"], DropWithValue);
  (["--no-cache"], Drop)].

(** ** Operations *)

(** [rsplit(['/', '\\']).next()]. *)
Definition spawn_basename (path : string) : string := after_last "\"%char (after_last "/"%char path).

Definition is_leading_flag (token : string) : bool :=
  starts_with "-" token && negb (String.eqb token "-") && negb (String.eqb token "--").

(** The leading flags: the kept ones in canonical form and what follows them;
    nothing for a flag that is not in the table or lacks its value. *)
Fixpoint take_flags (table : FlagTable) (args : list string) : option (list string * list string) :=
  match args with
  | [] => Some ([], [])
  | token :: rest =>
      if negb (is_leading_flag token) then Some ([], args)
      else
        let '(flag, inline_value) :=
          match split_once "=" token with
          | Some (flag, value) => (flag, Some value)
          | None => (token, None)
          end in
        match classify table flag with
        | None => None
        | Some (canonical, rule) =>
            match rule, inline_value with
            | KeepWithValue, Some v =>
                '(kept, rest) ← take_flags table rest; Some ((canonical +:+ "=" +:+ v) :: kept, rest)
            | KeepWithValue, None =>
                match rest with
                | [] => None
                | v :: rest =>
                    '(kept, rest) ← take_flags table rest;
                    Some ((canonical +:+ "=" +:+ v) :: kept, rest)
                end
            | Keep, _ => '(kept, rest) ← take_flags table rest; Some (canonical :: kept, rest)
            | DropWithValue, None =>
                match rest with [] => None | _ :: rest => take_flags table rest end
            | DropWithValue, Some _ | Drop, _ => take_flags table rest
            end
        end
  end.

Definition spaced (words : list string) : string :=
  if decide (words = []) then "" else " " +:+ join " " words.

Definition exec_family (prefix target_kind : string) (kept_globals args : list string) :
    option SpawnFamily :=
  '(kept, rest) ← take_flags EXEC_FLAGS args;
  match rest with
  | target :: _ :: _ =>
      let qualifiers := if decide (kept = []) then "" else " (" +:+ join " " kept +:+ ")" in
      Some {| sf_key := join " " (prefix :: kept_globals ++ kept ++ [target; "*"]);
              sf_label := "any command in " +:+ target_kind +:+ " `" +:+ target +:+ "`" +:+ qualifiers
                          +:+ " via `" +:+ prefix +:+ "`, this session" |}
  | _ => None
  end.

Definition observer_family (prefix verb : string) (kept_globals args : list string) :
    option SpawnFamily :=
  '(_, rest) ← take_flags OBSERVER_FLAGS args;
  Some {| sf_key := join " " (prefix :: kept_globals ++ verb :: rest);
          sf_label := "`" +:+ prefix +:+ " " +:+ verb +:+ spaced rest
                      +:+ "` with any display flags, this session" |}.

Definition lifecycle_family (verb : string) (kept_globals args : list string) : option SpawnFamily :=
  '(_, rest) ← take_flags LIFECYCLE_FLAGS args;
  Some {| sf_key := join " " ("compose" :: kept_globals ++ verb :: rest);
          sf_label := "`docker compose " +:+ verb +:+ spaced rest
                      +:+ "` with any orchestration flags, this session" |}.

Definition compose_observers : list string :=
  ["ps"; "logs"; "version"; "config"; "top"; "images"; "ls"; "port"; "events"].
Definition compose_lifecycle : list string :=
  ["up"; "down"; "start"; "stop"; "restart"; "build"; "pull"; "create"; "kill"; "pause"; "unpause"; "wait"].
Definition docker_observers : list string :=
  ["ps"; "version"; "info"; "images"; "top"; "port"; "stats"; "logs"; "context"].

Definition compose_family (args : list string) : option SpawnFamily :=
  '(kept, rest) ← take_flags COMPOSE_GLOBALS args;
  match rest with
  | [] => None
  | verb :: rest =>
      if String.eqb verb "exec" then exec_family "compose exec" "service" kept rest
      else if str_mem verb compose_observers then observer_family "compose" verb kept rest
      else if str_mem verb compose_lifecycle then lifecycle_family verb kept rest
      else None
  end.

Definition docker_family (args : list string) : option SpawnFamily :=
  '(kept, rest) ← take_flags GLOBALS args;
  match rest with
  | [] => None
  | sub :: rest =>
      if String.eqb sub "compose" then
        inner ← compose_family rest;
        Some {| sf_key := "docker" +:+ spaced kept +:+ " " +:+ sf_key inner; sf_label := sf_label inner |}
      else if String.eqb sub "exec" then exec_family "docker exec" "container" kept rest
      else if str_mem sub docker_observers then observer_family "docker" sub kept rest
      else None
  end.

(** [args] without a first token that restates the program. *)
Definition skip_argv0 (p : string → bool) (args : list string) : list string :=
  match args with a :: rest => if p a then rest else args | [] => [] end.

Definition spawn_family (command : string) (args : list string) : option SpawnFamily :=
  let bin := spawn_basename command in
  let rest := skip_argv0 (λ a, String.eqb (spawn_basename a) bin) args in
  if String.eqb bin "docker" then docker_family rest
  else if String.eqb bin "docker-compose" then
    inner ← compose_family (skip_argv0 (String.eqb "compose") rest);
    Some {| sf_key := "docker " +:+ sf_key inner; sf_label := sf_label inner |}
  else None.

(** The entry of the session's allowlist that records an approval. *)
Definition delegating_approval_key (call_type : ToolCallType) : string :=
  match call_type with
  | ProcessSpawn command args =>
      match spawn_family command args with
      | Some family => "delegating-approved:family:" +:+ sf_key family
      | None => "delegating-approved:" +:+ ToolCallType_display call_type
      end
  | _ => "delegating-approved:" +:+ ToolCallType_display call_type
  end.

(** ** What an approval is about *)

Inductive Authority :=
  | InContainer (flags : list string) (target : string)
  | OnContainers (daemon : list string) (verb : string) (targets : list string)
  | InService (daemon flags : list string) (target : string)
  | OnProject (daemon project : list string) (verb : string) (targets : list string).

(** The words of the key. *)
Definition authority_words (a : Authority) : list string :=
  match a with
  | InContainer flags target => "docker" :: "exec" :: flags ++ [target; "*"]
  | OnContainers daemon verb targets => "docker" :: daemon ++ verb :: targets
  | InService daemon flags target => "docker" :: daemon ++ "compose" :: "exec" :: flags ++ [target; "*"]
  | OnProject daemon project verb targets => "docker" :: daemon ++ "compose" :: project ++ verb :: targets
  end.

Definition exec_authority (args : list string) : option (list string * string) :=
  '(flags, rest) ← take_flags EXEC_FLAGS args;
  match rest with target :: _ :: _ => Some (flags, target) | _ => None end.

Definition targets_of (table : FlagTable) (args : list string) : option (list string) :=
  snd <$> take_flags table args.

Definition compose_authority (daemon args : list string) : option Authority :=
  '(project, rest) ← take_flags COMPOSE_GLOBALS args;
  match rest with
  | [] => None
  | verb :: rest =>
      if String.eqb verb "exec" then
        '(flags, target) ← exec_authority rest; Some (InService daemon (project ++ flags) target)
      else if str_mem verb compose_observers then
        OnProject daemon project verb <$> targets_of OBSERVER_FLAGS rest
      else if str_mem verb compose_lifecycle then
        OnProject daemon project verb <$> targets_of LIFECYCLE_FLAGS rest
      else None
  end.

Definition docker_authority (args : list string) : option Authority :=
  '(daemon, rest) ← take_flags GLOBALS args;
  match rest with
  | [] => None
  | verb :: rest =>
      if String.eqb verb "compose" then compose_authority daemon rest
      else if String.eqb verb "exec" then
        '(flags, target) ← exec_authority rest; Some (InContainer (daemon ++ flags) target)
      else if str_mem verb docker_observers then
        OnContainers daemon verb <$> targets_of OBSERVER_FLAGS rest
      else None
  end.

Definition call_authority (t : ToolCallType) : option Authority :=
  match t with
  | ProcessSpawn command args =>
      let bin := spawn_basename command in
      let rest := skip_argv0 (λ a, String.eqb (spawn_basename a) bin) args in
      if String.eqb bin "docker" then docker_authority rest
      else if String.eqb bin "docker-compose" then compose_authority [] (skip_argv0 (String.eqb "compose") rest)
      else None
  | _ => None
  end.

Definition dashed (words : list string) : Prop := Forall (λ w, starts_with "-" w = true) words.

Definition authority_ok (a : Authority) : Prop :=
  match a with
  | InContainer flags target => dashed flags
  | OnContainers daemon verb targets => dashed daemon ∧ str_mem verb docker_observers = true
  | InService daemon flags target => dashed daemon ∧ dashed flags
  | OnProject daemon project verb targets =>
      dashed daemon ∧ dashed project ∧ (str_mem verb compose_observers || str_mem verb compose_lifecycle) = true
  end.

(** No word of the key holds a space. *)
Definition words_ok (t : ToolCallType) : Prop :=
  match call_authority t with
  | Some a => Forall (λ w, lacks " " w = true) (authority_words a)
  | None => True
  end.

(** ** Proofs *)

Definition keeps_dashed (table : FlagTable) : bool :=
  forallb (λ r, starts_with "-" (default "" (head r.1))) table.

Lemma classify_dashed table flag canonical rule :
  keeps_dashed table = true → classify table flag = Some (canonical, rule) →
  starts_with "-" canonical = true.
Proof.
  induction table as [|[al r] table IH]; cbn; [done|].
  intros [H1 H2]%andb_true_iff. destruct (str_mem flag al); [naive_solver|eauto].
Qed.

Lemma starts_with_append p s t : starts_with p s = true → starts_with p (s +:+ t) = true.
Proof.
  rewrite !starts_with_spec. intros [r ->]. exists (r +:+ t). by rewrite append_assoc.
Qed.

Lemma take_flags_dashed table args kept rest :
  keeps_dashed table = true → take_flags table args = Some (kept, rest) → dashed kept.
Proof.
  intros Ht. revert kept rest.
  induction args as [args IH] using (induction_ltof1 _ (@length string)); unfold ltof in IH.
  intros kept rest. destruct args as [|token args]; cbn; [by intros [= <- <-]; constructor|].
  destruct (is_leading_flag token); cbn; [|by intros [= <- <-]; constructor].
  destruct (match split_once "=" token with Some (f, v) => (f, Some v) | None => (token, None) end)
    as [flag inline].
  destruct (classify table flag) as [[canonical rule]|] eqn:Hc; [|done].
  apply classify_dashed in Hc; [|done].
  assert (Hrec : ∀ l k, length l < S (length args) →
    ('(kept, rest) ← take_flags table l; Some (k :: kept, rest)) = Some (kept, rest) →
    starts_with "-" k = true → dashed kept).
  { intros l k Hl E Hk. destruct (take_flags table l) as [[k' r']|] eqn:E'; [|done].
    simplify_eq/=. constructor; [done|]. by eapply (IH l). }
  assert (Hdrop : ∀ l, length l < S (length args) → take_flags table l = Some (kept, rest) → dashed kept).
  { intros l Hl E. by eapply (IH l). }
  destruct rule, inline as [v|]; try (intros E; eapply Hrec; [|exact E|]; [lia|by try apply starts_with_append]).
  all: try (intros E; eapply Hdrop; [|exact E]; lia).
  all: destruct args as [|w args]; [done|]; cbn in *.
  - intros E. eapply Hrec; [|exact E|by apply starts_with_append]. lia.
  - intros E. eapply Hdrop; [|exact E]. lia.
Qed.

Lemma join_cons sep w l : l ≠ [] → join sep (w :: l) = w +:+ sep +:+ join sep l.
Proof. destruct l; [done|]. reflexivity. Qed.

Lemma spaced_join kept l : l ≠ [] →
  "docker" +:+ spaced kept +:+ " " +:+ join " " l = join " " ("docker" :: kept ++ l).
Proof.
  intros Hl. unfold spaced. case_decide as Hk; [by subst kept; cbn [app]; rewrite (join_cons _ "docker")|].
  rewrite (join_cons _ "docker") by (by destruct kept). f_equal. rewrite join_app by done.
  by rewrite append_assoc.
Qed.

#[local] Arguments str_mem : simpl never.
#[local] Arguments take_flags : simpl never.
#[local] Arguments join : simpl never.
#[local] Arguments String.append : simpl never.

(** A family and its authority go together, and the key is the words. *)
Definition agrees (prefix : string → string) (f : option SpawnFamily) (a : option Authority) : Prop :=
  match f, a with
  | Some f, Some a => prefix (sf_key f) = join " " (authority_words a) ∧ authority_ok a
  | None, None => True
  | _, _ => False
  end.

Lemma exec_words prefix kind kept args :
  match exec_family prefix kind kept args, exec_authority args with
  | Some f, Some (flags, target) =>
      sf_key f = join " " (prefix :: (kept ++ flags) ++ [target; "*"]) ∧ dashed flags
  | None, None => True
  | _, _ => False
  end.
Proof.
  unfold exec_family, exec_authority.
  destruct (take_flags EXEC_FLAGS args) as [[flags rest]|] eqn:E; cbn; [|done].
  destruct rest as [|target [|p rest]]; cbn [sf_key]; [done..|].
  rewrite <- app_assoc. split; [done|]. by eapply take_flags_dashed; [|exact E].
Qed.

Lemma join_split_head sep a b l : l ≠ [] → join sep ((a +:+ sep +:+ b) :: l) = join sep (a :: b :: l).
Proof.
  intros Hl. rewrite !join_cons by done. by rewrite !append_assoc.
Qed.

Lemma compose_agrees daemon args : dashed daemon →
  agrees (λ k, "docker" +:+ spaced daemon +:+ " " +:+ k) (compose_family args) (compose_authority daemon args).
Proof.
  intros Hd. unfold agrees, compose_family, compose_authority.
  destruct (take_flags COMPOSE_GLOBALS args) as [[project [|verb rest]]|] eqn:E; cbn; [done| |done].
  apply take_flags_dashed in E; [|done].
  destruct (String.eqb verb "exec").
  { pose proof (exec_words "compose exec" "service" project rest) as Hx.
    destruct (exec_family _ _ _ _) as [f|], (exec_authority rest) as [[flags target]|]; cbn; try done.
    destruct Hx as [-> Hf]. split.
    - change "compose exec" with ("compose" +:+ " " +:+ "exec").
      rewrite join_split_head by (by intros [_ ?]%app_nil).
      rewrite spaced_join by done. by rewrite <- !app_assoc.
    - split; [done|]. by apply Forall_app_2. }
  destruct (str_mem verb compose_observers) eqn:Ho.
  { unfold observer_family, targets_of. destruct (take_flags OBSERVER_FLAGS rest) as [[? ts]|]; cbn; [|done].
    rewrite spaced_join by done. split; [done|].
    repeat split; [done..|]. by rewrite Ho. }
  destruct (str_mem verb compose_lifecycle) eqn:Hl; [|done].
  unfold lifecycle_family, targets_of. destruct (take_flags LIFECYCLE_FLAGS rest) as [[? ts]|]; cbn; [|done].
  rewrite spaced_join by done. split; [done|].
  repeat split; [done..|]. by rewrite Ho, Hl.
Qed.

Lemma docker_agrees args : agrees id (docker_family args) (docker_authority args).
Proof.
  unfold docker_family, docker_authority.
  destruct (take_flags GLOBALS args) as [[daemon [|verb rest]]|] eqn:E; cbn; [done| |done].
  apply take_flags_dashed in E; [|done].
  destruct (String.eqb verb "compose").
  { pose proof (compose_agrees daemon rest E) as H.
    by destruct (compose_family rest), (compose_authority daemon rest). }
  destruct (String.eqb verb "exec").
  { pose proof (exec_words "docker exec" "container" daemon rest) as Hx.
    destruct (exec_family _ _ _ _) as [f|], (exec_authority rest) as [[flags target]|]; cbn; try done.
    destruct Hx as [-> Hf]. split; [|by apply Forall_app_2]. cbn [id].
    change "docker exec" with ("docker" +:+ " " +:+ "exec").
    by rewrite join_split_head by (by intros [_ ?]%app_nil). }
  destruct (str_mem verb docker_observers) eqn:Ho; [|done].
  unfold observer_family, targets_of. destruct (take_flags OBSERVER_FLAGS rest) as [[? ts]|]; cbn; [|done].
  done.
Qed.

Lemma spawn_agrees command args :
  agrees id (spawn_family command args) (call_authority (ProcessSpawn command args)).
Proof.
  unfold spawn_family, call_authority.
  destruct (String.eqb _ "docker"); [apply docker_agrees|].
  destruct (String.eqb _ "docker-compose"); [|done].
  pose proof (compose_agrees [] (skip_argv0 (String.eqb "compose")
    (skip_argv0 (λ a, String.eqb (spawn_basename a) (spawn_basename command)) args)) (Forall_nil_2 _)) as H.
  by destruct (compose_family _), (compose_authority _ _).
Qed.

(** *** Equal keys *)

Lemma join_words_inj l1 l2 : l1 ≠ [] → l2 ≠ [] →
  Forall (λ w, lacks " " w = true) l1 → Forall (λ w, lacks " " w = true) l2 →
  join " " l1 = join " " l2 → l1 = l2.
Proof.
  assert (Hs : ∀ l, l ≠ [] → Forall (λ w, lacks " " w = true) l → split_on " " (join " " l) = l).
  { intros l Hne. induction l as [|w [|w' l] IH]; intros Hl; [done| |].
    - apply split_on_lacks. by inversion Hl.
    - rewrite join_cons by done. inversion_clear Hl.
      change (" " +:+ ?s) with (String " " s). rewrite split_on_sep, split_on_lacks by done.
      cbn [app]. f_equal. by apply IH. }
  intros N1 N2 F1 F2 E. rewrite <- (Hs l1), <- (Hs l2) by done. by rewrite E.
Qed.

(** The words before the first that is no flag. *)
Lemma dashed_split d1 d2 w1 w2 r1 r2 : dashed d1 → dashed d2 →
  starts_with "-" w1 = false → starts_with "-" w2 = false →
  d1 ++ w1 :: r1 = d2 ++ w2 :: r2 → d1 = d2 ∧ w1 = w2 ∧ r1 = r2.
Proof.
  intros H1 H2 N1 N2. revert d2 H2. induction H1 as [|x d1 Hx H1 IH]; intros d2 H2.
  - destruct H2 as [|y d2 Hy H2]; cbn; [naive_solver|]. intros [= -> _]. congruence.
  - destruct H2 as [|y d2 Hy H2]; cbn; [intros [= <- _]; congruence|].
    intros [= <- E]. destruct (IH d2 H2 E) as (-> & ? & ?). done.
Qed.

Lemma verb_plain table verb :
  forallb (λ v, negb (starts_with "-" v) && negb (String.eqb v "exec") && negb (String.eqb v "compose")) table = true →
  str_mem verb table = true →
  starts_with "-" verb = false ∧ verb ≠ "exec" ∧ verb ≠ "compose".
Proof.
  rewrite str_mem_spec. intros Ht Hv. apply forallb_true_Forall in Ht.
  rewrite Forall_forall in Ht. specialize (Ht verb Hv). reflect_bools. naive_solver.
Qed.

Lemma project_verb verb : (str_mem verb compose_observers || str_mem verb compose_lifecycle) = true →
  starts_with "-" verb = false ∧ verb ≠ "exec" ∧ verb ≠ "compose".
Proof. intros [H|H]%orb_true_iff; by eapply verb_plain; [|exact H]. Qed.

(** The first word after the daemon's selectors, and what follows it. *)
Definition first_word (a : Authority) : list string * string * list string :=
  match a with
  | InContainer flags target => ([], "exec", flags ++ [target; "*"])
  | OnContainers daemon verb targets => (daemon, verb, targets)
  | InService daemon flags target => (daemon, "compose", "exec" :: flags ++ [target; "*"])
  | OnProject daemon project verb targets => (daemon, "compose", project ++ verb :: targets)
  end.

Lemma first_word_words a : authority_words a = "docker" :: (first_word a).1.1 ++ (first_word a).1.2 :: (first_word a).2.
Proof. by destruct a. Qed.

Lemma first_word_ok a : authority_ok a →
  dashed (first_word a).1.1 ∧ starts_with "-" (first_word a).1.2 = false.
Proof.
  destruct a as [f ta|d v ts|d f ta|d p v ts]; intros Ha.
  - split; [constructor|done].
  - destruct Ha as [Hd Hv]. split; [done|]. by eapply (verb_plain docker_observers) in Hv as (? & _).
  - destruct Ha as [Hd _]. by split.
  - destruct Ha as (Hd & _). by split.
Qed.

Lemma docker_verb v : str_mem v docker_observers = true → v ≠ "exec" ∧ v ≠ "compose".
Proof. intros H. by eapply (verb_plain docker_observers) in H as (_ & ? & ?). Qed.

Lemma last_two_inj (l1 l2 : list string) a b z : l1 ++ [a; z] = l2 ++ [b; z] → l1 = l2 ∧ a = b.
Proof.
  change [a; z] with ([a] ++ [z]). change [b; z] with ([b] ++ [z]). rewrite !app_assoc.
  intros [E _]%app_inj_tail. by apply app_inj_tail in E.
Qed.

(** What runs in a service is not a verb on the project. *)
Lemma exec_not_verb p v (ts r : list string) : dashed p → starts_with "-" v = false → v ≠ "exec" →
  "exec" :: r = p ++ v :: ts → False.
Proof. intros Hp Hv Hx E. apply (dashed_split [] p "exec" v) in E as (_ & <- & _); by try constructor. Qed.

Lemma words_inj a b : authority_ok a → authority_ok b → authority_words a = authority_words b → a = b.
Proof.
  intros Ha Hb E. rewrite !first_word_words in E. injection E as E.
  destruct (first_word_ok a Ha) as [Da Wa], (first_word_ok b Hb) as [Db Wb].
  apply dashed_split in E as (Ed & Ew & Er); [|done..]. clear Da Wa Db Wb.
  destruct a as [fa ta|da va tsa|da fa ta|da pa va tsa], b as [fb tb|db vb tsb|db fb tb|db pb vb tsb];
    unfold first_word, fst, snd in Ed, Ew, Er; unfold authority_ok in Ha, Hb; try discriminate Ew.
  - apply last_two_inj in Er as [-> ->]. done.
  - destruct Hb as [_ Hb%docker_verb]. naive_solver.
  - destruct Ha as [_ Ha%docker_verb]. naive_solver.
  - by subst.
  - destruct Ha as [_ Ha%docker_verb]. naive_solver.
  - destruct Ha as [_ Ha%docker_verb]. naive_solver.
  - destruct Hb as [_ Hb%docker_verb]. naive_solver.
  - injection Er as Er. apply last_two_inj in Er as [-> ->]. by subst.
  - destruct Hb as (_ & Hp & (? & ? & _)%project_verb). by apply exec_not_verb in Er.
  - destruct Hb as [_ Hb%docker_verb]. naive_solver.
  - destruct Ha as (_ & Hp & (? & ? & _)%project_verb). symmetry in Er. by apply exec_not_verb in Er.
  - destruct Ha as (_ & Hp & (? & _)%project_verb), Hb as (_ & Hq & (? & _)%project_verb).
    apply dashed_split in Er as (-> & -> & ->); [|done..]. by subst.
Qed.

(** *** Approvals *)

Lemma key_words t a : call_authority t = Some a →
  delegating_approval_key t = "delegating-approved:family:" +:+ join " " (authority_words a) ∧ authority_ok a.
Proof.
  intros Ha. destruct t; try discriminate Ha. pose proof (spawn_agrees command args) as H.
  unfold agrees in H. rewrite Ha in H. unfold delegating_approval_key.
  destruct (spawn_family command args) as [f|]; [|done]. destruct H as [<- H]. done.
Qed.

Lemma key_display t : call_authority t = None →
  delegating_approval_key t = "delegating-approved:" +:+ ToolCallType_display t.
Proof.
  intros Ha. destruct t; try reflexivity. pose proof (spawn_agrees command args) as H.
  unfold agrees in H. rewrite Ha in H. unfold delegating_approval_key.
  by destruct (spawn_family command args) as [f|].
Qed.

Lemma display_no_family t s : "family:" +:+ s ≠ ToolCallType_display t.
Proof. destruct t; discriminate. Qed.

Lemma append_inj_r p a b : p +:+ a = p +:+ b → a = b.
Proof. induction p as [|c p IH]; [done|]. intros [= E]. by apply IH. Qed.

(** When two calls share the key under which an approval is remembered, if no word of
    the key holds a space: they drive the same daemon and project with the same verb, the
    same of the flags the code keeps, and the same targets as the code finds them; or, outside the
    curated shapes, they are shown the same.  What a target is follows the code's own
    scanner, so [--] can be one ([dashes_are_a_target]); words with spaces run together
    ([space_joins_targets]). *)
Theorem approval_covers_same_authority t1 t2 (H1 : words_ok t1) (H2 : words_ok t2) :
  delegating_approval_key t1 = delegating_approval_key t2
  ↔ call_authority t1 = call_authority t2
    ∧ (call_authority t1 = None → ToolCallType_display t1 = ToolCallType_display t2).
Proof.
  unfold words_ok in *.
  destruct (call_authority t1) as [a1|] eqn:E1, (call_authority t2) as [a2|] eqn:E2.
  - apply key_words in E1 as [-> O1], E2 as [-> O2]. split.
    + intros E%append_inj_r%join_words_inj; [|by destruct a1|by destruct a2|done..].
      split; [|done]. f_equal. by apply words_inj.
    + by intros [[= ->] _].
  - apply key_words in E1 as [-> _]. rewrite (key_display _ E2).
    change "delegating-approved:family:" with ("delegating-approved:" +:+ "family:").
    rewrite append_assoc. split; [intros E%append_inj_r; by apply display_no_family in E|].
    by intros [E _].
  - apply key_words in E2 as [-> _]. rewrite (key_display _ E1).
    change "delegating-approved:family:" with ("delegating-approved:" +:+ "family:").
    rewrite append_assoc. split; [intros E%append_inj_r; by apply eq_sym, display_no_family in E|].
    by intros [E _].
  - rewrite (key_display _ E1), (key_display _ E2). split; [intros E%append_inj_r; done|].
    intros [_ E]. by rewrite E.
Qed.

Definition php (payload : string) : ToolCallType :=
  ProcessSpawn "/usr/bin/docker" ["docker"; "compose"; "exec"; "-T"; "web"; "php"; "-r"; payload].

Lemma approval_covers_same_authority_witness :
  delegating_approval_key (php "echo 1;") = delegating_approval_key (php "echo 2;").
Proof.
  apply (approval_covers_same_authority (php "echo 1;") (php "echo 2;")).
  - repeat constructor.
  - repeat constructor.
  - split; [reflexivity|discriminate].
Defined.

(** The end of the options is taken for the target, so that one approval covers every
    service. *)
Example dashes_are_a_target :
  delegating_approval_key (ProcessSpawn "docker" ["docker"; "compose"; "exec"; "--"; "web"; "ls"])
  = delegating_approval_key (ProcessSpawn "docker" ["docker"; "compose"; "exec"; "--"; "db"; "dropdb"; "prod"]).
Proof. reflexivity. Qed.

(** The flags of [docker context] are no display flags, but its verb is in the table of
    observers: what is shown as reading contexts selects another daemon. *)
Example context_is_an_observer :
  spawn_family "docker" ["docker"; "context"; "use"; "prod"]
  = Some {| sf_key := "docker context use prod";
            sf_label := "`docker context use prod` with any display flags, this session" |}.
Proof. reflexivity. Qed.

(** Outside the curated shapes the key forgets where an argument ends. *)
Example arguments_run_together :
  delegating_approval_key (ProcessSpawn "docker" ["docker"; "run"; "img"; "sh"; "-c"; "id -u"])
  = delegating_approval_key (ProcessSpawn "docker" ["docker"; "run"; "img"; "sh"; "-c"; "id"; "-u"]).
Proof. reflexivity. Qed.

Example space_joins_targets :
  delegating_approval_key (ProcessSpawn "docker" ["docker"; "exec"; "-u"; "a b"; "c"; "id"])
  = delegating_approval_key (ProcessSpawn "docker" ["docker"; "exec"; "-u"; "a"; "b c"; "id"]).
Proof. reflexivity. Qed.
