(* ===== verification/Delegation.v ===== *)
(** Work handed to an unsupervised peer
    (src/crates/grith-supervisor/src/supervisor/authority_delegation.rs, and of
    event_handler.rs spawn_delegation_would_enforce and the escalations after the
    proxy's evaluation): the classification of spawns that delegate, of control
    sockets and of tools that inject input, the identity pins taken at the start of a
    session, the exemption of queries, the permits, and how a decision to allow is
    turned into a review.

    What the code asks of the machine is a [Host]: canonical paths, sizes, contents
    and environment variables as they are at one time, so that the pins are taken of
    one host and a spawn is judged on another.  The theorems are in DelegationProofs. *)
From Stdlib Require Import Ascii String ZArith Lia.
From stdpp Require Import base strings list option gmap.
From S2P Require Import Prelude Net Canonical DbusPolicy Types SpawnFamilies.

#[local] Open Scope string_scope.
#[local] Open Scope list_scope.

(** ** The machine *)

Record Host := {
  (** [fs::canonicalize], as text. *)
  h_canonicalize : string → option string;
  (** The length of a regular file, and whether somebody may execute it. *)
  h_metadata : string → option (N * bool);
  (** The bytes of a file that can be read. *)
  h_read : string → option string;
  (** [/proc/<pid>/exe], canonical, and [/proc/<pid>/cmdline]. *)
  h_proc_exe : Z → option string;
  h_proc_cmdline : Z → option string;
  h_env : string → option string;
}.

(** ** Sockets *)

(** The path of an address, without the marks of a socket and of an abstract name. *)
Definition socket_path (address : string) : string :=
  to_ascii_lowercase (default address (strip_prefix "unix:" address)).
Definition bare_socket_path (address : string) : string :=
  default (socket_path address) (strip_prefix "@" (socket_path address)).

Definition MARKERS : list string := ["/tmux-"; "/.x11-unix/"; "/screen/"; "/dbus-"; "/dbus/"].

Definition is_control_injection_socket (address : string) : bool :=
  let path := bare_socket_path address in
  existsb (λ m, contains m path) MARKERS
  || (starts_with "/run/user/" path && ends_with "/bus" path).

Definition is_display_socket (address : string) : bool :=
  let path := bare_socket_path address in
  contains "/.x11-unix/" path
  || (starts_with "/run/user/" path && starts_with "wayland-" (after_last "/" path)).

Inductive ClipboardDirection :=
  | AlwaysWrites
  | AlwaysReads
  | WritesUnless (flags : list string)
  | ReadsUnless (flags : list string).

Definition DESKTOP_ROUTINE_BINARIES : list (string * ClipboardDirection) := [
  ("xclip", WritesUnless ["-o"; "-out"]);
  ("xsel", ReadsUnless ["-i"; "--input"; "-a"; "--append"; "-c"; "--clear"]);
  ("wl-copy", AlwaysWrites);
  ("wl-paste", AlwaysReads);
  ("pbcopy", AlwaysWrites);
  ("pbpaste", AlwaysReads)].

Definition SYSTEM_BINARY_ROOTS : list string :=
  ["/usr/bin/"; "/bin/"; "/usr/local/bin/"; "/usr/sbin/"; "/sbin/"; "/nix/store/";
   "/home/linuxbrew/.linuxbrew/bin/"; "/opt/homebrew/bin/"].

Definition basename (command : string) : string := default command (path_file_name command).

(** The first entry of a table of names. *)
Fixpoint find_name {A} (name : string) (table : list (string * A)) : option A :=
  match table with
  | [] => None
  | (n, a) :: table => if String.eqb n name then Some a else find_name name table
  end.

Definition clipboard_invocation_writes (direction : ClipboardDirection) (argv : list string) : bool :=
  let has flags := existsb (λ a, str_mem a flags) (tail argv) in
  match direction with
  | AlwaysWrites => true
  | AlwaysReads => false
  | WritesUnless read_flags => negb (has read_flags)
  | ReadsUnless write_flags => has write_flags
  end.

Definition NUL_byte : ascii := ascii_of_N 0.

Definition read_proc_cmdline (h : Host) (pid : Z) : option (list string) :=
  raw ← h_proc_cmdline h pid;
  if String.eqb raw "" then None
  else Some (filter (λ c, c ≠ "") (split_on NUL_byte raw)).

Definition is_routine_desktop_connect (h : Host) (address : string) (pid : Z) : bool :=
  is_display_socket address &&
  match h_proc_exe h pid with
  | None => false
  | Some path =>
      existsb (λ r, starts_with r path) SYSTEM_BINARY_ROOTS &&
      match find_name (basename path) DESKTOP_ROUTINE_BINARIES, read_proc_cmdline h pid with
      | Some direction, Some argv => clipboard_invocation_writes direction argv
      | _, _ => false
      end
  end.

(** ** Delegating programs *)

Definition AUTHORITY_DELEGATING_BINARIES : list string :=
  ["docker"; "podman"; "nerdctl"; "kubectl"; "tmux"; "screen"; "systemctl"; "systemd-run"; "run0";
   "dbus-send"; "gdbus"; "busctl"; "qdbus"; "qdbus-qt5"; "qdbus-qt6"; "qdbus6"; "at"; "batch";
   "crontab"; "flatpak"; "nsenter"; "machinectl"; "loginctl"].

Definition is_authority_delegating_binary (command : string) : bool :=
  str_mem (basename command) AUTHORITY_DELEGATING_BINARIES.

Definition matched_delegating_name (command : string) (canonical_path : option string) : option string :=
  if is_authority_delegating_binary command then Some (basename command)
  else match canonical_path with
       | Some p => if is_authority_delegating_binary p then Some (basename p) else None
       | None => None
       end.

(** ** Pins *)

(** [Path::join] of one name. *)
Definition join_name (dir name : string) : string :=
  if String.eqb dir "" then name
  else if ends_with "/" dir then dir +:+ name else dir +:+ "/" +:+ name.

(** The candidate files of the search path, by name and then by directory. *)
Definition search_paths (path_var : string) : list string :=
  AUTHORITY_DELEGATING_BINARIES ≫= λ name, map (λ dir, join_name dir name) (split_on ":" path_var).

Fixpoint collect_candidates (h : Host) (seen : list string) (paths : list string) :
    list (string * N) :=
  match paths with
  | [] => []
  | candidate :: paths =>
      match h_canonicalize h candidate with
      | None => collect_candidates h seen paths
      | Some canonical =>
          if negb (is_authority_delegating_binary canonical) then collect_candidates h seen paths
          else if str_mem canonical seen then collect_candidates h seen paths
          else
            match h_metadata h canonical with
            | Some (len, true) => (canonical, len) :: collect_candidates h (canonical :: seen) paths
            | _ => collect_candidates h (canonical :: seen) paths
            end
      end
  end.

Definition candidates_from_path (h : Host) (path_var : string) : list (string * N) :=
  collect_candidates h [] (search_paths path_var).

Section Delegation.
Context `{Sha256}.

Definition sha256_file (h : Host) (path : string) : option string := sha256_hex <$> h_read h path.

Definition hash_candidates (h : Host) (candidates : list (string * N)) : gset string :=
  list_to_set (omap (λ c, sha256_file h c.1) candidates).

(** The sizes of the pinned files and, once the job of the session's start is joined,
    their hashes. *)
Record AuthorityDelegatingPins := { pin_sizes : gset N; pin_hashes : gset string }.

Definition resolve_pins (h : Host) (enabled : bool) : AuthorityDelegatingPins :=
  let candidates :=
    if enabled then candidates_from_path h (default "" (h_env h "PATH")) else [] in
  {| pin_sizes := list_to_set (map snd candidates); pin_hashes := hash_candidates h candidates |}.

(** The hashes an identity check is handed; none where they cannot matter. *)
Definition hashes_for (h : Host) (pins : AuthorityDelegatingPins) (command : string)
    (canonical_path sha256 : option string) : gset string :=
  if bool_decide (pin_sizes pins = ∅) || bool_decide (sha256 = None) then ∅
  else if bool_decide (is_Some (matched_delegating_name command canonical_path)) then ∅
  else match path ← canonical_path; h_metadata h path with
       | Some (len, _) => if bool_decide (len ∈ pin_sizes pins) then pin_hashes pins else ∅
       | None => pin_hashes pins
       end.

End Delegation.

(** ** Switches and permits *)

Definition SPAWN_ENV : string := "GRITH_ENFORCE_AUTHORITY_DELEGATING_SPAWN".
Definition CONTROL_SOCKET_ENV : string := "GRITH_ENFORCE_CONTROL_SOCKET_CONNECT".
Definition DBUS_INSPECTION_ENV : string := "GRITH_DBUS_MESSAGE_INSPECTION".

Definition env_override (h : Host) (var : string) : option bool :=
  match h_env h var with
  | Some v => if String.eqb (trim v) "" then None
              else Some (negb (str_mem (to_ascii_lowercase (trim v)) ["0"; "false"; "no"]))
  | None => None
  end.

Definition spawn_enforcement_enabled (h : Host) (config_flag : bool) : bool :=
  default config_flag (env_override h SPAWN_ENV).
Definition control_socket_enforcement_enabled (h : Host) (config_flag : bool) : bool :=
  default config_flag (env_override h CONTROL_SOCKET_ENV).
Definition dbus_inspection_enabled (h : Host) (config_flag : bool) : bool :=
  default config_flag (env_override h DBUS_INSPECTION_ENV).

Definition spawn_permitted (command : string) (permit : list string) : bool :=
  existsb (λ p, String.eqb (basename p) (basename command)) permit.

Definition spawn_permitted_full (command : string) (canonical_path : option string)
    (permit : list string) : bool :=
  spawn_permitted command permit
  || match canonical_path with Some p => spawn_permitted p permit | None => false end.

Definition control_entry_matches (path entry : string) : bool :=
  let entry := to_ascii_lowercase (trim_end_char "/" entry) in
  if String.eqb entry "" then false
  else if String.eqb path entry then true
  else negb (starts_with "@" path) && negb (starts_with "@" entry)
       && match strip_prefix entry path with Some rest => starts_with "/" rest | None => false end.

Definition control_socket_permitted (address : string) (permit : list string) : bool :=
  existsb (control_entry_matches (socket_path address)) permit.

(** ** The exemption of queries *)

Record SubcommandPolicy := {
  sp_read_only : list string;
  sp_delegating : list string;
  sp_delegating_flags : list string;
  sp_value_flags : list string;
  sp_options_only_is_read_only : bool;
}.

Definition flatpak_policy : SubcommandPolicy := {|
  sp_read_only := ["list"; "info"; "ps"; "history"; "remotes"; "remote-info"; "remote-ls"; "search";
    "documents"; "permissions"; "permission-show"; "permission-list"];
  sp_delegating := ["run"; "enter"; "install"; "update"; "upgrade"; "uninstall"; "override";
    "make-current"; "mask"; "repair"; "kill"; "remote-add"; "remote-modify"; "remote-delete"; "config";
    "permission-set"; "permission-reset"; "permission-remove"; "create-usb"; "build"; "build-init";
    "build-finish"; "build-export"; "build-bundle"; "build-import-bundle"; "build-sign";
    "build-update-repo"; "build-commit-from"];
  sp_delegating_flags := [];
  sp_value_flags := ["--installation"; "--arch"];
  sp_options_only_is_read_only := true |}.

Definition docker_policy : SubcommandPolicy := {|
  sp_read_only := ["ps"; "images"; "info"; "version"; "inspect"; "logs"; "top"; "stats"; "port"; "diff";
    "history"; "events"; "search"];
  sp_delegating := ["run"; "exec"; "create"; "start"; "restart"; "stop"; "kill"; "pause"; "unpause"; "rm";
    "rmi"; "build"; "buildx"; "cp"; "commit"; "attach"; "import"; "load"; "save"; "export"; "rename";
    "update"; "push"; "pull"; "tag"; "login"; "compose"; "service"; "swarm"; "node"; "stack"; "plugin";
    "secret"; "config"; "container"; "image"; "volume"; "network"; "system"; "context"; "builder";
    "manifest"; "trust"; "wait"];
  sp_delegating_flags := [];
  sp_value_flags := ["-H"; "--host"; "--context"; "--config"; "-l"; "--log-level"; "--tlscacert";
    "--tlscert"; "--tlskey"];
  sp_options_only_is_read_only := true |}.

Definition kubectl_policy : SubcommandPolicy := {|
  sp_read_only := ["get"; "describe"; "logs"; "top"; "explain"; "api-resources"; "api-versions"; "version";
    "cluster-info"; "events"];
  sp_delegating := ["exec"; "run"; "apply"; "create"; "delete"; "edit"; "patch"; "replace"; "scale";
    "autoscale"; "rollout"; "port-forward"; "proxy"; "cp"; "attach"; "drain"; "cordon"; "uncordon"; "taint";
    "label"; "annotate"; "set"; "expose"; "wait"; "debug"; "certificate"; "config"; "auth"; "diff"];
  sp_delegating_flags := [];
  sp_value_flags := ["-n"; "--namespace"; "--context"; "--cluster"; "--kubeconfig"; "-s"; "--server";
    "--user"; "--token"; "--as"; "--request-timeout"; "--cache-dir"];
  sp_options_only_is_read_only := true |}.

Definition systemctl_policy : SubcommandPolicy := {|
  sp_read_only := ["status"; "show"; "list-units"; "list-unit-files"; "is-active"; "is-enabled"; "is-failed";
    "is-system-running"; "cat"; "get-default"; "list-timers"; "list-sockets"; "list-jobs";
    "list-dependencies"; "list-machines"; "list-paths"; "list-automounts"; "show-environment"; "help"];
  sp_delegating := ["start"; "stop"; "restart"; "try-restart"; "reload"; "reload-or-restart"; "enable";
    "disable"; "reenable"; "preset"; "preset-all"; "mask"; "unmask"; "kill"; "set-property"; "set-default";
    "isolate"; "daemon-reload"; "daemon-reexec"; "edit"; "revert"; "reset-failed"; "add-wants";
    "add-requires"; "link"; "switch-root"; "kexec"; "reboot"; "poweroff"; "halt"; "suspend"; "hibernate";
    "hybrid-sleep"; "emergency"; "rescue"; "default"; "set-environment"; "unset-environment";
    "import-environment"];
  sp_delegating_flags := [];
  sp_value_flags := ["-t"; "--type"; "--state"; "-p"; "--property"; "-M"; "--machine"; "-H"; "--host";
    "--root"; "--when"; "--signal"; "-s"; "--job-mode"];
  sp_options_only_is_read_only := true |}.

Definition tmux_policy : SubcommandPolicy := {|
  sp_read_only := ["list-sessions"; "ls"; "list-windows"; "lsw"; "list-panes"; "lsp"; "list-clients"; "lsc";
    "list-commands"; "lscm"; "list-keys"; "lsk"; "list-buffers"; "lsb"; "show-options"; "show";
    "show-window-options"; "showw"; "show-environment"; "showenv"; "display-message"; "display"; "info";
    "has-session"; "has"];
  sp_delegating := ["new-session"; "new"; "new-window"; "neww"; "send-keys"; "send"; "split-window";
    "splitw"; "run-shell"; "run"; "attach-session"; "attach"; "at"; "respawn-pane"; "respawnp";
    "respawn-window"; "respawnw"; "if-shell"; "command-prompt"; "source-file"; "source"; "set-hook";
    "pipe-pane"; "pipep"];
  sp_delegating_flags := ["-c"];
  sp_value_flags := ["-f"; "-L"; "-S"];
  sp_options_only_is_read_only := false |}.

Definition subcommand_policy (bin : string) : option SubcommandPolicy :=
  find_name bin [("flatpak", flatpak_policy); ("docker", docker_policy); ("podman", docker_policy);
                 ("nerdctl", docker_policy); ("kubectl", kubectl_policy); ("systemctl", systemctl_policy);
                 ("tmux", tmux_policy)].

(** The first positional after the global options. *)
Fixpoint first_positional (value_flags args : list string) : option string :=
  match args with
  | [] => None
  | tok :: args =>
      if String.eqb tok "--" then head args
      else if starts_with "-" tok then
        if str_mem tok value_flags then
          match args with [] => None | _ :: args => first_positional value_flags args end
        else first_positional value_flags args
      else Some tok
  end.

Definition subcommand (args value_flags : list string) : option string :=
  first_positional value_flags (tail args).

Definition delegating_token (policy : SubcommandPolicy) (tok : string) : bool :=
  let head_ := default tok (head (split_on "=" tok)) in
  str_mem tok (sp_delegating policy) || str_mem tok (sp_delegating_flags policy)
  || str_mem head_ (sp_delegating_flags policy).

Definition invocation_is_read_only (bin : string) (args : list string) : bool :=
  match subcommand_policy bin with
  | None => false
  | Some policy =>
      if existsb (delegating_token policy) args then false
      else match subcommand args (sp_value_flags policy) with
           | None => sp_options_only_is_read_only policy
           | Some sub => str_mem sub (sp_read_only policy)
           end
  end.

(** ** Spawns that delegate *)

Definition spawn_should_escalate_full (command : string) (args : list string)
    (canonical_path sha256 : option string) (permit : list string) (pinned_hashes : gset string) : bool :=
  match matched_delegating_name command canonical_path with
  | Some matched =>
      if invocation_is_read_only matched args then false
      else negb (spawn_permitted_full command canonical_path permit)
  | None => match sha256 with Some h => bool_decide (h ∈ pinned_hashes) | None => false end
  end.

Definition spawn_should_escalate (command : string) (args permit : list string) : bool :=
  spawn_should_escalate_full command args None None permit ∅.

Definition spawn_targets_delegating_binary (command : string) (args : list string)
    (canonical_path sha256 : option string) (pinned_hashes : gset string) : bool :=
  match matched_delegating_name command canonical_path with
  | Some matched => negb (invocation_is_read_only matched args)
  | None => match sha256 with Some h => bool_decide (h ∈ pinned_hashes) | None => false end
  end.

Definition control_socket_should_escalate (address : string) (permit : list string) : bool :=
  is_control_injection_socket address && negb (control_socket_permitted address permit).

Section Escalation.
Context {D : Deps}.

Definition set_queued (reason : string) (d : ProxyDecision) : ProxyDecision := {|
  pd_action := Queue High; pd_composite_score := pd_composite_score d;
  pd_filter_results := pd_filter_results d; pd_evaluation_time := pd_evaluation_time d;
  pd_decision_reason := reason |}.

Definition set_reason (reason : string) (d : ProxyDecision) : ProxyDecision := {|
  pd_action := pd_action d; pd_composite_score := pd_composite_score d;
  pd_filter_results := pd_filter_results d; pd_evaluation_time := pd_evaluation_time d;
  pd_decision_reason := reason |}.

(** Only a decision to allow is rewritten. *)
Definition escalate_allow (should : bool) (reason : string) (d : ProxyDecision) : bool * ProxyDecision :=
  if negb should then (false, d)
  else match pd_action d with Allow => (true, set_queued reason d) | _ => (false, d) end.

Definition spawn_reason (command : string) (args : list string) (canonical_path : option string) : string :=
  let display := match canonical_path with Some p => basename p | None => basename command end in
  let reason := "authority-delegating spawn queued for review: `" +:+ display
    +:+ "` runs its effect in a privileged or unsupervised peer, outside supervision" in
  match spawn_family command args with
  | Some family => reason +:+ "; approving covers " +:+ sf_label family
  | None => reason
  end.

Definition maybe_escalate_spawn_full (d : ProxyDecision) (command : string) (args : list string)
    (canonical_path sha256 : option string) (permit : list string) (pinned_hashes : gset string) :
    bool * ProxyDecision :=
  escalate_allow (spawn_should_escalate_full command args canonical_path sha256 permit pinned_hashes)
    (spawn_reason command args canonical_path) d.

(** ** Logging in to this machine *)

Definition ssh_value_flags (tool : string) : string :=
  if String.eqb tool "ssh" then "BbcDEeFIiJLlmOopQRSWw"
  else if String.eqb tool "scp" then "cDFiJloPS"
  else if String.eqb tool "sftp" then "BbcDFiJloPRSsX"
  else "".

(** [to_ipv4_mapped], where it is a loopback address. *)
Definition mapped_loopback (ip : IpAddr) : bool :=
  match ip with
  | V4 _ => false
  | V6 n => (Z.shiftr n 32 =? 65535)%Z && (Z.land (Z.shiftr n 24) 255 =? 127)%Z
  end.

Definition host_is_loopback (host : string) : bool :=
  let h := trim host in
  if String.eqb h "" then false
  else if eq_ignore_ascii_case h "localhost" then true
  else match parse_ip h with
       | Some ip => is_loopback ip || mapped_loopback ip
       | None => false
       end.

Definition strip_user (token : string) : string := after_last "@" token.

Definition remote_spec_host (token : string) : option string :=
  let rest := strip_user token in
  match strip_prefix "[" rest with
  | Some after_bracket =>
      let host := default "" (head (split_on "]" after_bracket)) in
      if String.eqb host "" then None else Some host
  | None =>
      if bool_decide (is_Some (parse_ip rest)) then Some rest
      else '(host, _) ← split_once ":" rest;
           if contains "/" host then None else Some host
  end.

Definition first_char_in (set s : string) : bool :=
  match s with String c _ => contains (String c "") set | EmptyString => false end.

(** The rest of an option token that takes the next token for its value. *)
Definition takes_value (value_flags tok : string) : bool :=
  Nat.eqb (String.length tok) 2 && match strip_prefix "-" tok with Some f => first_char_in value_flags f | None => false end.

Fixpoint ssh_destination_loop (scp : bool) (value_flags : string) (options_ended : bool)
    (args : list string) : bool :=
  match args with
  | [] => false
  | tok :: args =>
      if negb options_ended && String.eqb tok "--" then ssh_destination_loop scp value_flags true args
      else if negb options_ended && Nat.leb 2 (String.length tok) && starts_with "-" tok then
        if takes_value value_flags tok then
          match args with [] => false | _ :: args => ssh_destination_loop scp value_flags false args end
        else ssh_destination_loop scp value_flags false args
      else if scp then
        if match remote_spec_host tok with Some host => host_is_loopback host | None => false end then true
        else ssh_destination_loop scp value_flags true args
      else host_is_loopback (default (strip_user tok) (remote_spec_host tok))
  end.

Definition ssh_family_loopback_destination (command : string) (args : list string) : bool :=
  let tool := basename command in
  str_mem tool ["ssh"; "scp"; "sftp"]
  && ssh_destination_loop (String.eqb tool "scp") (ssh_value_flags tool) false args.

Definition ssh_loopback_should_escalate (command : string) (args permit : list string) : bool :=
  ssh_family_loopback_destination command args && negb (spawn_permitted command permit).

Definition maybe_escalate_ssh_loopback_spawn (d : ProxyDecision) (command : string)
    (args permit : list string) : bool * ProxyDecision :=
  escalate_allow (ssh_loopback_should_escalate command args permit)
    ("ssh-family spawn to a loopback host queued for review: `" +:+ basename command
     +:+ "` runs its command via the local sshd, outside supervision") d.

(** ** Injection of input *)

Definition INPUT_INJECTION_BINARIES : list (string * list string) := [
  ("xdotool", ["key"; "keydown"; "keyup"; "type"; "click"; "mousedown"; "mouseup"; "mousemove";
               "mousemove_relative"; "windowactivate"; "windowfocus"]);
  ("xte", ["key"; "keydown"; "keyup"; "str"; "mouseclick"]);
  ("ydotool", ["key"; "type"; "click"; "mousemove"; "mousedown"; "mouseup"]);
  ("dotool", []);
  ("wtype", [])].

(** [split_whitespace().next()]. *)
Fixpoint until_space (s : string) : string :=
  match s with
  | EmptyString => ""
  | String c s' => if existsb (λ w, starts_with w s) whitespace then "" else String c (until_space s')
  end.
Definition first_word_of (a : string) : string :=
  let s := trim_start a in if String.eqb s "" then a else until_space s.

Definition is_input_injection_spawn (command : string) (args : list string) : bool :=
  let name := basename command in
  match find_name name INPUT_INJECTION_BINARIES with
  | None => false
  | Some [] => true
  | Some verbs =>
      existsb (λ a, str_mem (if String.eqb name "xte" then first_word_of a else a) verbs)
        (filter (λ a, starts_with "-" a = false) (tail args))
  end.

Definition input_injection_should_escalate (command : string) (args permit : list string) : bool :=
  is_input_injection_spawn command args && negb (spawn_permitted command permit).

Definition maybe_escalate_input_injection_spawn (d : ProxyDecision) (command : string)
    (args permit : list string) : bool * ProxyDecision :=
  escalate_allow (input_injection_should_escalate command args permit)
    ("desktop input-injection spawn queued for review: `" +:+ basename command
     +:+ "` synthesises keyboard or mouse          input into the operator's session, which executes outside supervision")
    d.

(** ** Control sockets *)

Inductive ControlSocketEscalation := CseNone | Annotated | Escalated.

Definition control_reason (address : string) : string :=
  "control-injection IPC socket connect queued for review: `" +:+ address
  +:+ "` can drive a more-privileged peer that runs commands on the tool's behalf".

Definition maybe_escalate_control_socket (d : ProxyDecision) (address : string) (permit : list string) :
    ControlSocketEscalation * ProxyDecision :=
  if negb (control_socket_should_escalate address permit) then (CseNone, d)
  else
    let reason := control_reason address in
    match pd_action d with
    | Allow => (Escalated, set_queued reason d)
    | Queue _ =>
        let prior := pd_decision_reason d in
        (Annotated, set_reason (if String.eqb prior "" then reason
                                else reason +:+ " (" +:+ prior +:+ ")") d)
    | Deny _ => (CseNone, d)
    end.


(** ** The gate before the evaluation, and the escalations after it *)

Context `{Sha256}.

(** The session's configuration and state as the handler reads it. *)
Record DelegationConfig := {
  dc_enforce_spawn : bool;
  dc_enforce_control : bool;
  dc_permit_delegating : list string;
  dc_permit_control : list string;
  dc_pins : AuthorityDelegatingPins;
  dc_dbus_inspection_armed : bool;
}.

Definition spawn_delegation_would_enforce (h : Host) (c : DelegationConfig) (command : string)
    (args : list string) : bool :=
  let permit := dc_permit_delegating c in
  if is_authority_delegating_binary command then
    spawn_should_escalate_full command args None None permit ∅
  else
    match h_canonicalize h command with
    | None => false
    | Some canonical =>
        if is_authority_delegating_binary canonical then
          spawn_should_escalate_full command args (Some canonical) None permit ∅
        else if bool_decide (pin_sizes (dc_pins c) = ∅) then false
        else
          match h_metadata h canonical with
          | None => false
          | Some (len, _) =>
              if negb (bool_decide (len ∈ pin_sizes (dc_pins c))) then false
              else
                match sha256_file h canonical with
                | None => false
                | Some sha =>
                    spawn_should_escalate_full command args (Some canonical) (Some sha) permit
                      (pin_hashes (dc_pins c))
                end
          end
    end.

(** Whether the spawn or connection is one the session reviews. *)
Definition delegation_would_enforce (h : Host) (c : DelegationConfig) (pid : Z) (approved : bool) (t : ToolCallType) : bool :=
  negb approved &&
  match t with
  | ProcessSpawn command args =>
      spawn_enforcement_enabled h (dc_enforce_spawn c)
      && (spawn_delegation_would_enforce h c command args
          || ssh_loopback_should_escalate command args (dc_permit_delegating c)
          || input_injection_should_escalate command args (dc_permit_delegating c))
  | NetConnect address _ =>
      control_socket_enforcement_enabled h (dc_enforce_control c)
      && negb (dc_dbus_inspection_armed c && is_dbus_socket address)
      && control_socket_should_escalate address (dc_permit_control c)
      && negb (is_routine_desktop_connect h address pid)
  | _ => false
  end.

(** The canonical path and the hash of the spawn's provenance, which is computed only
    if the file resolves and can be read. *)
Definition provenance_identity (h : Host) (command : string) : option string * option string :=
  match canonical ← h_canonicalize h command;
        sha ← sha256_file h canonical; Some (canonical, sha) with
  | Some (canonical, sha) => (Some canonical, Some sha)
  | None => (None, None)
  end.

(** The outcome of the escalations: whether the tracee is killed on a denial, whether a
    decision to allow was rewritten, and the decision. *)
Definition escalate_spawn (h : Host) (c : DelegationConfig) (approved : bool) (command : string)
    (args : list string) (d : ProxyDecision) : bool * bool * ProxyDecision :=
  if negb (spawn_enforcement_enabled h (dc_enforce_spawn c)) then (false, false, d)
  else
    let '(canonical, sha) := provenance_identity h command in
    let pinned := hashes_for h (dc_pins c) command canonical sha in
    let kill_on_deny :=
      spawn_targets_delegating_binary command args canonical sha pinned
      || ssh_family_loopback_destination command args in
    let permit := dc_permit_delegating c in
    if approved then (kill_on_deny, false, d)
    else
      let '(e, d) := maybe_escalate_spawn_full d command args canonical sha permit pinned in
      if e then (kill_on_deny, true, d)
      else
        let '(e, d) := maybe_escalate_ssh_loopback_spawn d command args permit in
        if e then (kill_on_deny, true, d)
        else
          let '(e, d) := maybe_escalate_input_injection_spawn d command args permit in
          (kill_on_deny, e, d).

Definition escalate_connect (h : Host) (c : DelegationConfig)
    (approved ipc_grant : bool) (address : string) (d : ProxyDecision) : bool * bool * ProxyDecision :=
  if negb approved && negb ipc_grant && negb (dc_dbus_inspection_armed c && is_dbus_socket address)
     && control_socket_enforcement_enabled h (dc_enforce_control c) then
    let '(e, d) := maybe_escalate_control_socket d address (dc_permit_control c) in
    (false, match e with Escalated => true | _ => false end, d)
  else (false, false, d).

Definition escalate_delegation (h : Host) (c : DelegationConfig)
    (approved ipc_grant : bool) (t : ToolCallType) (d : ProxyDecision) : bool * bool * ProxyDecision :=
  match t with
  | ProcessSpawn command args => escalate_spawn h c approved command args d
  | NetConnect address _ => escalate_connect h c approved ipc_grant address d
  | _ => (false, false, d)
  end.

End Escalation.
