(* ===== verification/DelegationProofs.v ===== *)
(** What the delegation checks promise: the exemption of queries and the permits in
    terms of a grammar, the agreement of the gate before the evaluation with the
    escalations after it, the review of copies of pinned programs, and the reading of
    ssh command lines. *)
From Stdlib Require Import Ascii String ZArith Lia.
From stdpp Require Import base strings list option gmap.
From S2P Require Import Prelude Net F64 Canonical DbusPolicy Types SpawnFamilies Delegation Concrete.

#[local] Open Scope string_scope.
#[local] Open Scope list_scope.

(** ** Specifications *)

(** A run of options, each with its value if it takes one. *)
Inductive option_run (value_flags : list string) : list string → Prop :=
  | run_nil : option_run value_flags []
  | run_plain o l : starts_with "-" o = true → o ≠ "--" → o ∉ value_flags →
      option_run value_flags l → option_run value_flags (o :: l)
  | run_value o v l : starts_with "-" o = true → o ≠ "--" → o ∈ value_flags →
      option_run value_flags l → option_run value_flags (o :: v :: l).

(** The ways an argument vector gives a positional. *)
Definition positional_at (value_flags args : list string) (sub : string) : Prop :=
  ∃ opts rest, option_run value_flags opts ∧
    ((args = opts ++ sub :: rest ∧ starts_with "-" sub = false)
     ∨ args = opts ++ "--" :: sub :: rest).

(** No positional: options to the end, perhaps an open end or a value that is missing. *)
Definition options_only (value_flags args : list string) : Prop :=
  ∃ opts, option_run value_flags opts ∧
    (args = opts ∨ args = opts ++ ["--"]
     ∨ ∃ o, o ∈ value_flags ∧ starts_with "-" o = true ∧ o ≠ "--" ∧ args = opts ++ [o]).

(** A query: on no table of delegating words, and its first positional reads. *)
Definition is_query (p : SubcommandPolicy) (args : list string) : Prop :=
  Forall (λ tok, delegating_token p tok = false) args
  ∧ ((∃ sub, positional_at (sp_value_flags p) (tail args) sub ∧ sub ∈ sp_read_only p)
     ∨ (options_only (sp_value_flags p) (tail args) ∧ sp_options_only_is_read_only p = true)).

(** ** The first positional *)

#[local] Arguments starts_with : simpl never.
#[local] Arguments str_mem : simpl never.

Lemma first_positional_run vf opts rest :
  option_run vf opts → first_positional vf (opts ++ rest) = first_positional vf rest.
Proof.
  induction 1 as [|o l Ho Hd Hv Hr IH|o v l Ho Hd Hv Hr IH]; [done| |]; cbn.
  - rewrite (proj2 (String.eqb_neq o "--")), Ho by done.
    destruct (str_mem o vf) eqn:E; [by apply str_mem_spec in E|done].
  - rewrite (proj2 (String.eqb_neq o "--")), Ho, (proj2 (str_mem_spec o vf)) by done. done.
Qed.

Lemma first_positional_cases vf args :
  match first_positional vf args with
  | Some sub => positional_at vf args sub
  | None => options_only vf args
  end.
Proof.
  induction args as [args IH] using (induction_ltof1 _ (@length string)); unfold ltof in IH.
  assert (Hcons : ∀ pre l, length l < length args → option_run vf pre →
    (∀ opts, option_run vf opts → option_run vf (pre ++ opts)) → args = pre ++ l →
    match first_positional vf l with Some sub => positional_at vf args sub | None => options_only vf args end).
  { intros pre l Hl Hp Hx ->. specialize (IH l Hl).
    destruct (first_positional vf l) as [sub|].
    - destruct IH as (opts & rest & Ho & Hc). exists (pre ++ opts), rest.
      split; [by apply Hx|]. rewrite <- !app_assoc. destruct Hc as [[-> ?]| ->]; auto.
    - destruct IH as (opts & Ho & Hc). exists (pre ++ opts).
      split; [by apply Hx|].
      destruct Hc as [->|[->|(o & ? & ? & ? & ->)]]; [by left|right; left; by rewrite <- app_assoc|].
      right; right. exists o. by rewrite <- app_assoc. }
  destruct args as [|tok args]; [by exists []; split; [constructor|left]|]. cbn [first_positional].
  destruct (String.eqb_spec tok "--") as [->|Hd].
  { destruct args as [|sub rest]; cbn.
    - exists []. split; [constructor|auto].
    - exists [], rest. split; [constructor|auto]. }
  destruct (starts_with "-" tok) eqn:Ho; [|by exists [], args; split; [constructor|auto]].
  destruct (str_mem tok vf) eqn:Hv.
  - apply str_mem_spec in Hv. destruct args as [|v args].
    + exists []. split; [constructor|]. right; right. exists tok. done.
    + apply (Hcons [tok; v]); cbn; [lia| |intros; by apply run_value|done].
      apply run_value; [done..|constructor].
  - assert (tok ∉ vf) by (intros E%str_mem_spec; congruence).
    apply (Hcons [tok]); cbn; [lia| |intros; by apply run_plain|done].
    apply run_plain; [done..|constructor].
Qed.

Lemma positional_sound vf args sub : positional_at vf args sub → first_positional vf args = Some sub.
Proof.
  intros (opts & rest & Ho & [[-> Hs]| ->]); rewrite first_positional_run by done; cbn.
  - rewrite Hs. destruct (String.eqb_spec sub "--") as [->|]; [discriminate Hs|done].
  - done.
Qed.

Lemma options_only_sound vf args : options_only vf args → first_positional vf args = None.
Proof.
  intros (opts & Ho & [->|[->|(o & Hv & Hd & Hn & ->)]]).
  - rewrite <- (app_nil_r opts), first_positional_run by done. done.
  - by rewrite first_positional_run.
  - rewrite first_positional_run by done. cbn.
    rewrite (proj2 (String.eqb_neq o "--")), Hd, (proj2 (str_mem_spec o vf)) by done. done.
Qed.

Lemma existsb_Forall {A} (p : A → bool) l : existsb p l = false ↔ Forall (λ x, p x = false) l.
Proof.
  induction l as [|x l IH]; cbn; [done|]. rewrite orb_false_iff, IH. split; [by intros []; constructor|].
  by inversion 1.
Qed.

(** C37: a spawn is exempt exactly if it is a query.  A call of a delegating program is
    let through without review exactly if the program has a table, no argument is a
    delegating word or flag of it, and the first positional after the options, with
    the values of those that take one, is on the list of reading verbs; or there is no
    positional and the table says that options alone read.  An unknown verb, flag or
    program is never exempt. *)
Theorem exempt_iff_query bin args :
  invocation_is_read_only bin args = true ↔ ∃ p, subcommand_policy bin = Some p ∧ is_query p args.
Proof.
  unfold invocation_is_read_only, is_query, subcommand.
  destruct (subcommand_policy bin) as [p|]; [|naive_solver].
  destruct (existsb (delegating_token p) args) eqn:Ed.
  { split; [done|]. intros (? & [= <-] & Hf%existsb_Forall & _). congruence. }
  apply existsb_Forall in Ed. pose proof (first_positional_cases (sp_value_flags p) (tail args)) as Hc.
  destruct (first_positional _ _) as [sub|] eqn:Ep.
  - split.
    + intros Hs%str_mem_spec. exists p. eauto 10.
    + intros (? & [= <-] & _ & [(s & Hs%positional_sound & Hin)|[Hs%options_only_sound _]]);
        [apply str_mem_spec|]; congruence.
  - split.
    + intros Ho. exists p. eauto 10.
    + intros (? & [= <-] & _ & [(s & Hs%positional_sound & Hin)|[_ Ho]]); congruence.
Qed.

(** The tables contradict themselves nowhere. *)
Lemma tables_disjoint bin p : subcommand_policy bin = Some p →
  Forall (λ v, delegating_token p v = false) (sp_read_only p).
Proof.
  unfold subcommand_policy, find_name. intros Hp.
  assert (H : ∀ q, forallb (λ v, negb (delegating_token q v)) (sp_read_only q) = true →
    Forall (λ v, delegating_token q v = false) (sp_read_only q)).
  { intros q Hq. apply forallb_true_Forall in Hq. eapply Forall_impl; [exact Hq|].
    cbn. intros v Hv. by destruct (delegating_token q v). }
  repeat match type of Hp with
  | context [if ?b then _ else _] => destruct b; [injection Hp as <-; apply H; reflexivity|]
  end. done.
Qed.

(** ** Permits for control sockets *)

Definition permit_entry (entry : string) : string := to_ascii_lowercase (trim_end_char "/" entry).

Lemma split_on_prefix c a b : split_on c a `prefix_of` split_on c b ↔
  b = a ∨ ∃ rest, b = a +:+ String c rest.
Proof.
  split.
  - intros [k Hk]. destruct k as [|w k].
    + left. rewrite app_nil_r in Hk. rewrite <- (join_split_on c a), <- (join_split_on c b). by rewrite Hk.
    + right. exists (join (String c "") (w :: k)).
      rewrite <- (join_split_on c b), Hk, join_app, join_split_on; [done|apply split_on_nonempty|done].
  - intros [->|[rest ->]]; [done|]. rewrite split_on_sep. by eexists.
Qed.

Lemma control_entry_spec path entry :
  control_entry_matches path entry = true ↔
  permit_entry entry ≠ "" ∧ split_on "/" (permit_entry entry) `prefix_of` split_on "/" path
  ∧ (starts_with "@" path = true → path = permit_entry entry).
Proof.
  unfold control_entry_matches. fold (permit_entry entry). set (e := permit_entry entry).
  rewrite split_on_prefix.
  destruct (String.eqb_spec e "") as [He|He]; [naive_solver|].
  destruct (String.eqb_spec path e) as [Hp|Hp]; [naive_solver|].
  assert (Hat : ∀ rest, path = e +:+ rest → starts_with "@" path = starts_with "@" e).
  { intros rest ->. by apply starts_with_char. }
  rewrite !andb_true_iff, !negb_true_iff. split.
  - intros [[Hn _] Hs]. split; [done|]. split; [|congruence]. right.
    destruct (strip_prefix e path) as [rest|] eqn:Er; [|done].
    apply strip_prefix_Some in Er. apply starts_with_spec in Hs as [r ->]. by exists r.
  - intros (_ & [?|[rest ->]] & Ha); [done|].
    rewrite strip_prefix_app. rewrite <- (Hat (String "/" rest)) by done.
    destruct (starts_with "@" (e +:+ String "/" rest)) eqn:Es; [by destruct Hp; apply Ha|done].
Qed.

(** A permit for control sockets grants what it names and what lies below it.  An
    address is permitted exactly if the components of some entry, without trailing
    slashes and in lower case, are the first components of the address; an abstract
    socket only if the entry is its whole name.  No entry reaches a neighbour whose
    name it is a prefix of, and an empty entry or the root grants nothing. *)
Theorem permit_is_ancestor address permit :
  control_socket_permitted address permit = true ↔
  ∃ entry, entry ∈ permit ∧ permit_entry entry ≠ ""
    ∧ split_on "/" (permit_entry entry) `prefix_of` split_on "/" (socket_path address)
    ∧ (starts_with "@" (socket_path address) = true → socket_path address = permit_entry entry).
Proof.
  unfold control_socket_permitted. rewrite existsb_exists. split.
  - intros (e & He%list_elem_of_In & Hm%control_entry_spec). by exists e.
  - intros (e & He & Hm). exists e. rewrite <- list_elem_of_In, control_entry_spec. done.
Qed.

(** ** The gate and the escalations *)

Section Gate.
Context {D : Deps} `{Sha256}.

(** What stat promises of a file that can be read. *)
Definition host_ok (h : Host) : Prop :=
  ∀ p s, h_read h p = Some s → ∃ x, h_metadata h p = Some (N.of_nat (String.length s), x).

(** The decision after the escalations, and whether a decision to allow was rewritten. *)
Definition after (r : bool * bool * ProxyDecision) : ProxyDecision := r.2.
Definition rewritten (r : bool * bool * ProxyDecision) : bool := r.1.2.
Definition kills (r : bool * bool * ProxyDecision) : bool := r.1.1.

Lemma escalate_allow_spec should reason d :
  escalate_allow should reason d =
  if should && is_allowed d then (true, set_queued reason d) else (false, d).
Proof. unfold escalate_allow, is_allowed. destruct should, (pd_action d); reflexivity. Qed.

Definition tightened (d d' : ProxyDecision) (e : bool) : Prop :=
  pd_composite_score d' = pd_composite_score d ∧ pd_filter_results d' = pd_filter_results d
  ∧ pd_evaluation_time d' = pd_evaluation_time d
  ∧ pd_action d' = (if e then Queue High else pd_action d) ∧ (e = true → pd_action d = Allow).

Lemma escalate_allow_tightens should reason d :
  tightened d (escalate_allow should reason d).2 (escalate_allow should reason d).1.
Proof.
  rewrite escalate_allow_spec. unfold is_allowed, tightened.
  destruct should, (pd_action d) eqn:E; cbn; rewrite ?E; repeat split; done.
Qed.

Lemma escalate_allow_kept should reason d :
  (escalate_allow should reason d).1 = false → (escalate_allow should reason d).2 = d.
Proof. rewrite escalate_allow_spec. by destruct (should && is_allowed d). Qed.

(** The escalations only tighten.  Whatever the call, the configuration and the
    decision, the score, the filter results and the time stay; the action changes only
    from allow to a review of high priority, exactly when a rewriting is reported, so
    a denial is never weakened and a queued call keeps its priority. *)
Theorem escalation_only_tightens h c approved ipc_grant t d :
  let r := escalate_delegation h c approved ipc_grant t d in tightened d (after r) (rewritten r).
Proof.
  cbn zeta. assert (Hid : tightened d d false) by (repeat split; done).
  unfold escalate_delegation. destruct t; try exact Hid.
  - unfold escalate_connect, maybe_escalate_control_socket.
    destruct (_ && _ && _ && _); [|exact Hid].
    destruct (negb _); [exact Hid|]. unfold after, rewritten, tightened.
    destruct (pd_action d) eqn:E; cbn; rewrite ?E; repeat split; done.
  - unfold escalate_spawn. destruct (negb _); [exact Hid|].
    destruct (provenance_identity h command) as [can sha]. destruct approved; [exact Hid|].
    unfold maybe_escalate_spawn_full, maybe_escalate_ssh_loopback_spawn, maybe_escalate_input_injection_spawn.
    do 2 (match goal with |- context [escalate_allow ?s ?r d] =>
      pose proof (escalate_allow_tightens s r d) as Ht; pose proof (escalate_allow_kept s r d) as Hk;
      destruct (escalate_allow s r d) as [[] d1]; [exact Ht|assert (d1 = d) as -> by (by apply Hk); clear Ht Hk]
    end).
    match goal with |- context [escalate_allow ?s ?r d] =>
      pose proof (escalate_allow_tightens s r d) as Ht; destruct (escalate_allow s r d) as [e d1] end.
    exact Ht.
Qed.

(** *** Where the gate and the escalations agree *)

Lemma permitted_full_weaker command can permit :
  spawn_permitted command permit = true → spawn_permitted_full command can permit = true.
Proof. unfold spawn_permitted_full. by intros ->. Qed.

Lemma raw_name_full command args can sha permit pinned :
  is_authority_delegating_binary command = true →
  spawn_should_escalate_full command args can sha permit pinned
  = negb (invocation_is_read_only (basename command) args) && negb (spawn_permitted_full command can permit).
Proof.
  intros Hc. unfold spawn_should_escalate_full, matched_delegating_name. rewrite Hc.
  by destruct (invocation_is_read_only _ _).
Qed.

Lemma canonical_name_full command args p sha permit pinned :
  is_authority_delegating_binary command = false → is_authority_delegating_binary p = true →
  spawn_should_escalate_full command args (Some p) sha permit pinned
  = negb (invocation_is_read_only (basename p) args) && negb (spawn_permitted_full command (Some p) permit).
Proof.
  intros Hc Hp. unfold spawn_should_escalate_full, matched_delegating_name. rewrite Hc, Hp.
  by destruct (invocation_is_read_only _ _).
Qed.

Lemma no_name_full command args can sha permit pinned :
  matched_delegating_name command can = None →
  spawn_should_escalate_full command args can (Some sha) permit pinned = bool_decide (sha ∈ pinned).
Proof. intros Hm. unfold spawn_should_escalate_full. by rewrite Hm. Qed.

(** The verdict after the evaluation, on the identity the provenance gives. *)
Definition full_verdict (h : Host) (c : DelegationConfig) (command : string) (args : list string) : bool :=
  let '(can, sha) := provenance_identity h command in
  spawn_should_escalate_full command args can sha (dc_permit_delegating c)
    (hashes_for h (dc_pins c) command can sha).

(** A program found under a delegating name only by its canonical path, whose file
    cannot be read, so that it has no provenance. *)
Definition unreadable_delegator (h : Host) (command : string) : Prop :=
  is_authority_delegating_binary command = false ∧
  ∃ p, h_canonicalize h command = Some p ∧ is_authority_delegating_binary p = true ∧ h_read h p = None.

(** A program of a delegating name whose canonical path is permitted. *)
Definition permitted_by_target (h : Host) (c : DelegationConfig) (command : string) : Prop :=
  is_authority_delegating_binary command = true ∧
  ∃ p, h_canonicalize h command = Some p ∧ spawn_permitted p (dc_permit_delegating c) = true.

Lemma unnamed_verdicts h c command args p : host_ok h → h_canonicalize h command = Some p →
  is_authority_delegating_binary command = false → is_authority_delegating_binary p = false →
  spawn_delegation_would_enforce h c command args = full_verdict h c command args.
Proof.
  intros Hh Hp Hc Hd.
  assert (Hm : matched_delegating_name command (Some p) = None).
  { unfold matched_delegating_name. by rewrite Hc, Hd. }
  assert (Hn : matched_delegating_name command None = None).
  { unfold matched_delegating_name. by rewrite Hc. }
  unfold spawn_delegation_would_enforce, full_verdict, provenance_identity.
  rewrite Hc, Hp, Hd. cbn. unfold sha256_file. destruct (h_read h p) as [s|] eqn:Hs; cbn.
  - destruct (Hh p s Hs) as [x Hx]. rewrite Hx, !no_name_full by done.
    unfold hashes_for. rewrite Hm. cbn. rewrite Hx.
    destruct (bool_decide (pin_sizes (dc_pins c) = ∅)) eqn:E1; cbn; [by rewrite bool_decide_eq_false_2 by set_solver|].
    destruct (bool_decide (N.of_nat (String.length s) ∈ pin_sizes (dc_pins c))); cbn; [done|].
    by rewrite bool_decide_eq_false_2 by set_solver.
  - unfold spawn_should_escalate_full. rewrite Hn.
    destruct (bool_decide _); [done|]. destruct (h_metadata h p) as [[len ?]|]; [|done].
    by destruct (negb _).
Qed.

(** Every spawn the escalation would turn into a review is kept from the short cuts
    before the evaluation, and the gate is stricter only in two cases. *)
Lemma gate_and_verdict h c command args : host_ok h →
  (full_verdict h c command args = true → spawn_delegation_would_enforce h c command args = true)
  ∧ (spawn_delegation_would_enforce h c command args = true →
     full_verdict h c command args = true
     ∨ permitted_by_target h c command ∨ unreadable_delegator h command).
Proof.
  intros Hh. destruct (is_authority_delegating_binary command) eqn:Hc.
  { unfold spawn_delegation_would_enforce, full_verdict. rewrite Hc.
    destruct (provenance_identity h command) as [can sha] eqn:Hi. rewrite !raw_name_full by done.
    destruct (invocation_is_read_only (basename command) args); cbn; [done|].
    unfold spawn_permitted_full. destruct (spawn_permitted command (dc_permit_delegating c)); cbn; [done|].
    split; [done|]. intros _. destruct can as [p|]; [|by left].
    destruct (spawn_permitted p (dc_permit_delegating c)) eqn:Hp; [|by left]. right; left.
    split; [done|]. exists p. split; [|done].
    unfold provenance_identity in Hi. destruct (h_canonicalize h command) as [q|]; [|done].
    cbn in Hi. by destruct (sha256_file h q); simplify_eq/=. }
  destruct (h_canonicalize h command) as [p|] eqn:Hp.
  2:{ unfold spawn_delegation_would_enforce, full_verdict, provenance_identity. rewrite Hc, Hp. cbn.
      unfold spawn_should_escalate_full, matched_delegating_name. by rewrite Hc. }
  destruct (is_authority_delegating_binary p) eqn:Hd; [|rewrite (unnamed_verdicts h c command args p) by done; auto].
  unfold spawn_delegation_would_enforce. rewrite Hc, Hp, Hd, canonical_name_full by done.
  unfold full_verdict, provenance_identity. rewrite Hp. cbn. unfold sha256_file.
  destruct (h_read h p) as [s|] eqn:Hs; cbn.
  - rewrite canonical_name_full by done. auto.
  - unfold spawn_should_escalate_full, matched_delegating_name. rewrite Hc. split; [done|].
    intros _. right; right. split; [done|]. by exists p.
Qed.

Lemma escalate_allow_on should reason d : pd_action d = Allow →
  escalate_allow should reason d = if should then (true, set_queued reason d) else (false, d).
Proof.
  intros Ha. rewrite escalate_allow_spec. unfold is_allowed.
  by rewrite Ha, bool_decide_eq_true_2, andb_true_r by done.
Qed.

(** The escalations of a spawn, for a decision to allow. *)
Lemma escalate_spawn_allow h c command args d : pd_action d = Allow →
  spawn_enforcement_enabled h (dc_enforce_spawn c) = true →
  rewritten (escalate_spawn h c false command args d)
  = full_verdict h c command args
    || ssh_loopback_should_escalate command args (dc_permit_delegating c)
    || input_injection_should_escalate command args (dc_permit_delegating c).
Proof.
  intros Ha He. unfold escalate_spawn, full_verdict. rewrite He. cbn [negb].
  destruct (provenance_identity h command) as [can sha].
  unfold maybe_escalate_spawn_full, maybe_escalate_ssh_loopback_spawn, maybe_escalate_input_injection_spawn.
  rewrite escalate_allow_on by done. destruct (spawn_should_escalate_full _ _ _ _ _ _); [done|].
  rewrite escalate_allow_on by done. destruct (ssh_loopback_should_escalate _ _ _); [done|].
  rewrite escalate_allow_on by done. by destruct (input_injection_should_escalate _ _ _).
Qed.

(** C36: the gate before the evaluation and the escalation after it agree.  A spawn whose
    decision to allow is rewritten to a review is one the gate keeps from the session's
    allowlist and from automatic approvals; and one the gate keeps is rewritten, unless
    its canonical path is permitted, which only the escalation looks at, or its program
    is delegating by its canonical path alone and cannot be read. *)
Theorem gate_agrees h c pid approved command args d (Hh : host_ok h) (Ha : pd_action d = Allow) :
  let t := ProcessSpawn command args in
  let r := escalate_delegation h c approved false t d in
  (rewritten r = true → delegation_would_enforce h c pid approved t = true)
  ∧ (delegation_would_enforce h c pid approved t = true →
     rewritten r = true ∨ permitted_by_target h c command ∨ unreadable_delegator h command).
Proof.
  cbn zeta. unfold escalate_delegation, delegation_would_enforce.
  destruct (spawn_enforcement_enabled h (dc_enforce_spawn c)) eqn:He.
  2:{ unfold escalate_spawn. rewrite He. cbn [negb andb]. rewrite andb_false_r. done. }
  destruct approved.
  { unfold escalate_spawn. rewrite He. cbn [negb andb].
    by destruct (provenance_identity h command). }
  rewrite escalate_spawn_allow by done. cbn [negb andb].
  destruct (gate_and_verdict h c command args Hh) as [H1 H2].
  rewrite !orb_true_iff. naive_solver.
Qed.

(** *** Copies *)

Lemma collect_candidates_elem h paths seen path f len : path ∈ paths → f ∉ seen →
  h_canonicalize h path = Some f → is_authority_delegating_binary f = true →
  h_metadata h f = Some (len, true) → (f, len) ∈ collect_candidates h seen paths.
Proof.
  intros Hin. revert seen. induction paths as [|g paths IH]; intros seen Hs Hc Hd Hm; [by inversion Hin|].
  cbn [collect_candidates]. destruct (h_canonicalize h g) as [q|] eqn:Hg.
  2:{ apply elem_of_cons in Hin as [->|Hin]; [congruence|]. by apply IH. }
  destruct (decide (q = f)) as [->|Hq].
  { rewrite Hd, Hm. cbn [negb]. destruct (str_mem f seen) eqn:E; [by apply str_mem_spec in E|]. by left. }
  assert (Hin' : path ∈ paths).
  { apply elem_of_cons in Hin as [->|?]; [congruence|done]. }
  assert (Hs' : f ∉ q :: seen) by set_solver.
  destruct (negb _); [by apply IH|]. destruct (str_mem q seen); [by apply IH|].
  destruct (h_metadata h q) as [[? []]|]; [right|..]; by apply IH.
Qed.

(** A file the pins of a session describe: a delegating name of the search path leads to
    an executable file of a delegating name, which can be read. *)
Definition pinned_file (h : Host) (content : string) : Prop :=
  ∃ path_var dir name f,
    h_env h "PATH" = Some path_var ∧ dir ∈ split_on ":" path_var
    ∧ name ∈ AUTHORITY_DELEGATING_BINARIES ∧ h_canonicalize h (join_name dir name) = Some f
    ∧ is_authority_delegating_binary f = true ∧ h_read h f = Some content
    ∧ ∃ len, h_metadata h f = Some (len, true).

Lemma pinned_file_pins h content : host_ok h → pinned_file h content →
  N.of_nat (String.length content) ∈ pin_sizes (resolve_pins h true)
  ∧ sha256_hex content ∈ pin_hashes (resolve_pins h true).
Proof.
  intros Hh (path_var & dir & name & f & Hp & Hdir & Hname & Hc & Hd & Hr & len & Hm).
  destruct (Hh f content Hr) as [x Hx]. rewrite Hm in Hx. injection Hx as -> _.
  assert (Hin : (f, N.of_nat (String.length content)) ∈ candidates_from_path h path_var).
  { apply (collect_candidates_elem h _ [] (join_name dir name)); [|apply not_elem_of_nil|done..].
    unfold search_paths. apply list_elem_of_bind. exists name. split; [|done].
    apply list_elem_of_fmap. by exists dir. }
  unfold resolve_pins. rewrite Hp. cbn [default pin_sizes pin_hashes]. split.
  - apply elem_of_list_to_set, list_elem_of_fmap. by eexists; split; [|exact Hin].
  - apply elem_of_list_to_set, list_elem_of_omap. eexists. split; [exact Hin|].
    cbn. unfold sha256_file. by rewrite Hr.
Qed.

(** C15: A disguised copy of a delegating program is reviewed. With spawn enforcement
    on, the pins resolved at the start of the session, no approval of the call
    remembered, and a machine that gives the size of every file it can read, then and
    now: a spawn of a readable file that has the content of a pinned program, when
    neither the command nor the canonical path has a delegating name, is escalated
    whatever the arguments and the permits: a decision to allow becomes a review of high
    priority, the spawn is kept from the short cuts, and a denial kills it. A copy under
    the name of another delegating program is outside: it is judged by the rules of that
    name and can be exempt as a query. *)
Theorem copies_are_reviewed h0 h1 c command args p content d pid
    (Hh0 : host_ok h0) (Hh1 : host_ok h1) (Hpins : dc_pins c = resolve_pins h0 true)
    (Hpinned : pinned_file h0 content)
    (Hon : spawn_enforcement_enabled h1 (dc_enforce_spawn c) = true)
    (Hp : h_canonicalize h1 command = Some p) (Hcopy : h_read h1 p = Some content)
    (Hname : matched_delegating_name command (Some p) = None) :
  let t := ProcessSpawn command args in
  let r := escalate_delegation h1 c false false t d in
  (pd_action d = Allow → pd_action (after r) = Queue High)
  ∧ kills r = true ∧ delegation_would_enforce h1 c pid false t = true.
Proof.
  cbn zeta. destruct (pinned_file_pins h0 content Hh0 Hpinned) as [Hsize Hhash].
  rewrite <- Hpins in Hsize, Hhash. destruct (Hh1 p content Hcopy) as [x Hx].
  assert (Hid : provenance_identity h1 command = (Some p, Some (sha256_hex content))).
  { unfold provenance_identity, sha256_file. by rewrite Hp; cbn; rewrite Hcopy. }
  assert (Hf : hashes_for h1 (dc_pins c) command (Some p) (Some (sha256_hex content)) = pin_hashes (dc_pins c)).
  { unfold hashes_for. rewrite Hname. cbn. rewrite Hx.
    rewrite bool_decide_eq_false_2 by set_solver. cbn. by rewrite bool_decide_eq_true_2. }
  assert (Hv : full_verdict h1 c command args = true).
  { unfold full_verdict. rewrite Hid, Hf, no_name_full by done. by apply bool_decide_eq_true_2. }
  assert (Hg : delegation_would_enforce h1 c pid false (ProcessSpawn command args) = true).
  { unfold delegation_would_enforce. rewrite Hon. cbn [negb andb].
    by rewrite (proj1 (gate_and_verdict h1 c command args Hh1) Hv). }
  split; [|split; [|exact Hg]].
  - intros Ha. destruct (escalation_only_tightens h1 c false false (ProcessSpawn command args) d)
      as (_ & _ & _ & -> & _).
    unfold escalate_delegation. by rewrite escalate_spawn_allow, Hv by done.
  - unfold escalate_delegation, escalate_spawn. rewrite Hon. cbn [negb]. rewrite Hid, Hf.
    assert (Ht : spawn_targets_delegating_binary command args (Some p) (Some (sha256_hex content))
                   (pin_hashes (dc_pins c)) = true).
    { unfold spawn_targets_delegating_binary. rewrite Hname. by apply bool_decide_eq_true_2. }
    rewrite Ht. unfold maybe_escalate_spawn_full, maybe_escalate_ssh_loopback_spawn, maybe_escalate_input_injection_spawn.
    repeat match goal with |- context [escalate_allow ?s ?r ?d] =>
      destruct (escalate_allow s r d) as [[] ?]; [reflexivity|] end.
    reflexivity.
Qed.

End Gate.

(** ** Reading ssh command lines *)

(** The argument vectors of supervised spawns begin with the name of the program, which
    the search for the destination takes for the host: no login of ssh or sftp to this
    machine is found. *)
Lemma argv0_hides_destination tool rest :
  tool ∈ ["ssh"; "sftp"] → ssh_family_loopback_destination tool (tool :: rest) = false.
Proof. intros Hin. repeat (apply elem_of_cons in Hin as [->|Hin]; [reflexivity|]). by inversion Hin. Qed.

(** Without it the destination is found behind the options. *)
Example destination_found :
  ssh_family_loopback_destination "/usr/bin/ssh" ["-4"; "-p"; "22"; "me@127.8.0.1"; "id"] = true
  ∧ ssh_family_loopback_destination "ssh" ["-b"; "127.0.0.1"; "example.net"] = false
  ∧ ssh_family_loopback_destination "scp" ["a.txt"; "localhost:/tmp/b"] = true
  ∧ ssh_family_loopback_destination "sftp" ["[::ffff:127.0.0.1]:/tmp"] = true.
Proof. repeat split. Qed.

(** ** Limits of the tables *)

(** Commands of tmux may be cut to a unique beginning, and the table of delegating words
    knows full names and aliases only; what a menu or a popup runs is not on it. *)
Example tmux_runs_unreviewed :
  invocation_is_read_only "tmux" ["tmux"; "ls"; ";"; "send-k"; "-t"; "0"; "rm -rf ~"; "Enter"] = true
  ∧ invocation_is_read_only "tmux" ["tmux"; "ls"; ";"; "display-popup"; "-E"; "sh"] = true.
Proof. split; reflexivity. Qed.

(** The verbs of xte that move and hold the mouse are missing. *)
Example xte_mouse_missing : is_input_injection_spawn "xte" ["xte"; "mousermove 5 5"; "mousedown 1"] = false.
Proof. reflexivity. Qed.

(** ** Witnesses *)

Lemma exempt_iff_query_witness :
  subcommand_policy "docker" = Some docker_policy ∧ is_query docker_policy ["docker"; "--host"; "tcp://h"; "ps"; "-a"]
  ∧ invocation_is_read_only "docker" ["docker"; "--host"; "tcp://h"; "ps"; "-a"] = true.
Proof.
  assert (H : is_query docker_policy ["docker"; "--host"; "tcp://h"; "ps"; "-a"]).
  { split; [repeat constructor|]. left. exists "ps". split; [|by constructor].
    exists ["--host"; "tcp://h"], ["-a"]. split; [|left; by split].
    apply run_value; [done|done|by right; constructor|constructor]. }
  split; [done|]. split; [exact H|].
  apply (exempt_iff_query "docker" ["docker"; "--host"; "tcp://h"; "ps"; "-a"]). by exists docker_policy.
Defined.

Section Example_delegation.

#[local] Existing Instance concrete_deps.
#[local] Instance text_hash : Sha256 := λ s, s.

(** systemd-run is installed, and a tool has copied it under a name of its own; run0
    is a link to a file that can be run but not read. *)
Definition example_host : Host := {|
  h_canonicalize p :=
    if String.eqb p "/usr/bin/run0" then Some "/usr/lib/systemd-run"
    else if str_mem p ["/usr/bin/systemd-run"; "/tmp/build-helper"; "/usr/bin/ls"] then Some p else None;
  h_metadata p :=
    if str_mem p ["/usr/bin/systemd-run"; "/tmp/build-helper"] then Some (4%N, true)
    else if String.eqb p "/usr/bin/ls" then Some (2%N, true) else None;
  h_read p :=
    if str_mem p ["/usr/bin/systemd-run"; "/tmp/build-helper"] then Some "ELF1"
    else if String.eqb p "/usr/bin/ls" then Some "ls" else None;
  h_proc_exe _ := None; h_proc_cmdline _ := None;
  h_env v := if String.eqb v "PATH" then Some "/bin:/usr/bin" else None |}.

Definition example_config : DelegationConfig := {|
  dc_enforce_spawn := true; dc_enforce_control := true; dc_permit_delegating := ["build-helper"];
  dc_permit_control := ["/run/user/1000/"]; dc_pins := resolve_pins example_host true;
  dc_dbus_inspection_armed := false |}.

Definition allowed : ProxyDecision := {|
  pd_action := Allow; pd_composite_score := f64_of_Z 0; pd_filter_results := [];
  pd_evaluation_time := 0%Z; pd_decision_reason := "" |}.

Lemma example_host_ok : host_ok example_host.
Proof.
  intros p s. unfold example_host, h_read, h_metadata.
  destruct (str_mem p _); [intros [= <-]; by eexists|].
  destruct (String.eqb p _); [intros [= <-]; by eexists|done].
Qed.

Lemma gate_agrees_witness :
  let t := ProcessSpawn "/tmp/build-helper" ["build-helper"; "sh"] in
  rewritten (escalate_delegation example_host example_config false false t allowed) = true
  ∧ delegation_would_enforce example_host example_config 7%Z false t = true.
Proof.
  cbn zeta.
  assert (H : rewritten (escalate_delegation example_host example_config false false
    (ProcessSpawn "/tmp/build-helper" ["build-helper"; "sh"]) allowed) = true) by (vm_compute; reflexivity).
  split; [exact H|].
  exact (proj1 (gate_agrees example_host example_config 7%Z false "/tmp/build-helper" ["build-helper"; "sh"]
    allowed example_host_ok eq_refl) H).
Defined.

Lemma copies_are_reviewed_witness :
  pd_action (after (escalate_delegation example_host example_config false false
    (ProcessSpawn "/tmp/build-helper" ["build-helper"; "--"; "sh"]) allowed)) = Queue High.
Proof.
  refine (proj1 (copies_are_reviewed example_host example_host example_config "/tmp/build-helper"
    ["build-helper"; "--"; "sh"] "/tmp/build-helper" "ELF1" allowed 7%Z example_host_ok example_host_ok
    eq_refl _ eq_refl eq_refl eq_refl eq_refl) eq_refl).
  exists "/bin:/usr/bin", "/usr/bin", "systemd-run", "/usr/bin/systemd-run".
  split; [reflexivity|]. split; [by right; left|].
  split; [by apply str_mem_spec|]. repeat split; [reflexivity..|]. by exists 4%N.
Defined.

(** A link of a delegating name to a file that cannot be read: the gate sees the name, but
    without a provenance the escalation does not, so the spawn runs. *)
Example unreadable_delegator_runs :
  let t := ProcessSpawn "/usr/bin/helper" ["helper"; "sh"] in
  let h := {| h_canonicalize p := if String.eqb p "/usr/bin/helper" then Some "/usr/bin/systemd-run" else None;
              h_metadata _ := Some (4%N, true); h_read _ := None; h_proc_exe _ := None;
              h_proc_cmdline _ := None; h_env _ := None |} in
  delegation_would_enforce h example_config 7%Z false t = true
  ∧ escalate_delegation h example_config false false t allowed = (false, false, allowed).
Proof. split; vm_compute; reflexivity. Qed.

End Example_delegation.

(** A permit for a runtime directory covers what is below it and no other user's. *)
Example permit_below :
  control_socket_permitted "unix:/run/user/1000/bus" ["/run/user/1000/"] = true
  ∧ control_socket_permitted "unix:/run/user/10000/bus" ["/run/user/1000"] = false
  ∧ control_socket_permitted "unix:@/tmp/.X11-unix/X0" ["/tmp"; "/"; ""] = false.
Proof. repeat split. Qed.
