(* ===== verification/SyscallMap.v ===== *)
(** System calls as calls of tools
    (src/crates/grith-supervisor/src/interceptor.rs, the data, and syscall_map.rs, the
    mapping): what a stopped system call is turned into before the filters judge it, and
    which calls the filters never see because they map to nothing. *)
From Stdlib Require Import Ascii String ZArith Lia.
From stdpp Require Import base strings list option.
From S2P Require Import Prelude Net Canonical Types.

#[local] Open Scope string_scope.

(** ** Data *)

Inductive OpenFlags := ReadOnly | WriteOnly | ReadWrite | Append | Create | Truncate | ReadOnlyDirectory.
Inductive NetProtocol := TcpProto | UdpProto | UnixProto.
Inductive ForeignAbiKind := CompatArch | X32.
Inductive SeccompInstallVia := Seccomp | Prctl.
Inductive KernelModuleOpKind := Init | Finit | Delete_.
Inductive OwnershipOp := Chown | Fchown | Lchown | Fchownat.
Inductive FsMutationOp :=
  Mount | Umount2 | PivotRoot | Chroot | OpenTree | MoveMount | Fsopen | Fsconfig | Fsmount | Fspick | MountSetattr.
Inductive CrossProcessOp := Ptrace | ProcessVmReadv | ProcessVmWritev | PidfdGetfd.
Inductive NamespaceSyscall := Unshare | Setns.
Inductive ArchPrivOp := SetHostname | SetDomainName | Iopl | Ioperm | Swapon | Swapoff | Reboot.

Inductive SyscallKind :=
  | KFileOpen (path : string) (flags : OpenFlags)
  | KFileWrite (fd : Z) (path : option string)
  | KFileRead (fd : Z) (path : option string)
  | KFileDelete (path : string)
  | KFileLink (target link_path : string) (symbolic : bool)
  | KFileRename (old_path new_path : string)
  | KFileChmod (path : string) (mode : Z)
  | KDirCreate (path : string) (mode : Z)
  | KDirList (path : string)
  | KProcessExec (path : string) (args : list string)
  | KProcessFork (child_pid : Z)
  | KNetConnect (address : string) (port : Z) (protocol : NetProtocol)
  | KDbusMethodCall (socket : string) (destination interface member path : option string)
  | KNetBind (address : string) (port : Z) (protocol : NetProtocol) (sockaddr_ptr addrlen : option Z)
  | KNetSendTo (address : string) (port : Z)
  | KPipeCreate
  | KSocketPair
  | KIoUringSetup
  | KRawSocketCreate (domain socket_type protocol : Z)
  | KSeccompInstall (via : SeccompInstallVia) (new_listener : bool)
  | KKernelModuleOp (op : KernelModuleOpKind)
  | KKexecLoad (from_fd : bool)
  | KOwnershipChange (op : OwnershipOp) (path : string) (new_uid new_gid : Z)
  | KFilesystemMutation (op : FsMutationOp) (source : option string) (target : string) (fstype : option string)
  | KCrossProcessAccess (op : CrossProcessOp) (target_pid : Z)
  | KNamespaceOp (syscall : NamespaceSyscall) (flags : Z)
  | KArchPrivilegedOp (op : ArchPrivOp)
  | KForeignAbiSyscall (abi : ForeignAbiKind) (raw_nr : Z).

(** [format!("{op:?}").to_ascii_lowercase()]. *)
Definition fs_mutation_text (op : FsMutationOp) : string :=
  match op with
  | Mount => "mount" | Umount2 => "umount2" | PivotRoot => "pivotroot" | Chroot => "chroot"
  | OpenTree => "opentree" | MoveMount => "movemount" | Fsopen => "fsopen" | Fsconfig => "fsconfig"
  | Fsmount => "fsmount" | Fspick => "fspick" | MountSetattr => "mountsetattr"
  end.
Definition cross_process_text (op : CrossProcessOp) : string :=
  match op with
  | Ptrace => "ptrace" | ProcessVmReadv => "processvmreadv" | ProcessVmWritev => "processvmwritev"
  | PidfdGetfd => "pidfdgetfd"
  end.
Definition namespace_text (s : NamespaceSyscall) : string :=
  match s with Unshare => "unshare" | Setns => "setns" end.

(** ** Destinations of datagrams *)

(** The octets and the groups of an address, most significant first. *)
Definition octet (n : Z) (i : Z) : Z := Z.land (Z.shiftr n (8 * (3 - i))) 255.
Definition segment (n : Z) (i : Z) : Z := Z.land (Z.shiftr n (16 * (7 - i))) 65535.

(** [Ipv4Addr::is_multicast] and [Ipv6Addr::is_multicast]. *)
Definition v4_multicast (n : Z) : bool := (224 <=? octet n 0)%Z && (octet n 0 <=? 239)%Z.
Definition v6_multicast (n : Z) : bool := (Z.shiftr n 120 =? 255)%Z.

(** [Ipv6Addr::to_ipv4_mapped]. *)
Definition ipv4_mapped (n : Z) : option Z :=
  if (Z.shiftr n 32 =? 65535)%Z then Some (Z.land n (2 ^ 32 - 1))%Z else None.

Definition scorable_v4 (n : Z) : bool :=
  if (Z.shiftr n 24 =? 127)%Z || (n =? 0)%Z then false
  else if (n =? 2 ^ 32 - 1)%Z then false
  else if v4_multicast n && (octet n 0 =? 224)%Z && (octet n 1 =? 0)%Z && (octet n 2 =? 0)%Z then false
  else if (octet n 0 =? 239)%Z && (octet n 1 =? 255)%Z && (octet n 2 =? 255)%Z && (octet n 3 =? 250)%Z
  then false
  else true.

(** The recursion on the text of a mapped address is on that address. *)
Definition is_scorable_datagram_destination (address : string) : bool :=
  if String.eqb address "" || starts_with "unix:" address || starts_with "/" address then false
  else match parse_ip address with
       | None => true
       | Some (V4 n) => scorable_v4 n
       | Some (V6 n) =>
           if (n =? 1)%Z || (n =? 0)%Z then false
           else match ipv4_mapped n with
                | Some v4 => scorable_v4 v4
                | None => negb (v6_multicast n && (Z.land (segment n 0) 65295 =? 65282)%Z)
                end
       end.

(** ** The mapping *)

Section Map.
Context `{Sha256}.

Definition compute_path_hash (path : string) : string := "sha256:" +:+ sha256_hex path.

Definition to_tool_call_type (kind : SyscallKind) : option ToolCallType :=
  match kind with
  | KFileOpen path ReadOnly => Some (FileRead path)
  | KFileOpen path ReadOnlyDirectory => Some (DirList path)
  | KFileOpen path (WriteOnly | Create | Truncate | ReadWrite) =>
      Some (FileWrite path (compute_path_hash path))
  | KFileOpen path Append => Some (FileAppend path)
  | KFileWrite _ (Some path) => Some (FileWrite path (compute_path_hash path))
  | KFileRead _ (Some path) => Some (FileRead path)
  | KFileDelete path => Some (FileDelete path)
  | KFileLink target link_path symbolic => Some (FileLink target link_path symbolic)
  | KFileRename old_path new_path => Some (FileRename old_path new_path)
  | KFileChmod path mode => Some (FileChmod path mode)
  | KDirCreate path _ => Some (DirCreate path)
  | KDirList path => Some (DirList path)
  | KProcessExec path args => Some (ProcessSpawn path args)
  | KNetConnect address port _ => Some (NetConnect address port)
  | KNetBind address port _ _ _ => Some (NetListen address port)
  | KNetSendTo address port =>
      if starts_with "raw:" address then Some (NetConnect address port)
      else if is_scorable_datagram_destination address then Some (NetConnect address port)
      else None
  | KIoUringSetup | KRawSocketCreate _ _ _ | KKernelModuleOp _ | KKexecLoad _ | KSeccompInstall _ _
  | KArchPrivilegedOp _ | KForeignAbiSyscall _ _ => None
  | KOwnershipChange _ path new_uid new_gid => Some (OwnershipChange path new_uid new_gid)
  | KFilesystemMutation op source target fstype =>
      Some (FilesystemMutation (fs_mutation_text op) source target fstype)
  | KDbusMethodCall socket destination interface member _ =>
      Some (DbusMethodCall socket destination interface member)
  | KCrossProcessAccess op target_pid => Some (CrossProcessAccess (cross_process_text op) target_pid)
  | KNamespaceOp syscall flags => Some (NamespaceOp (namespace_text syscall) flags)
  | KFileWrite _ None | KFileRead _ None | KProcessFork _ | KPipeCreate | KSocketPair => None
  end.

End Map.
