(* ===== verification/LocalSockets.v ===== *)
(** Sockets that stay on the machine
    (src/crates/grith-supervisor/src/supervisor/event_handler.rs, the helpers of the
    handler): the control sockets of privileged daemons, agents of keys and who may use
    them, what counts as a local connection or listener, the policy for listeners, the
    search of /proc/net for a listener, and what the kernel refuses anyway. *)
From Stdlib Require Import Ascii String ZArith Lia.
From stdpp Require Import base strings list option gmap.
From S2P Require Import Prelude Net Canonical DbusPolicy Types SpawnFamilies Delegation SyscallMap.

#[local] Open Scope string_scope.
#[local] Open Scope list_scope.

(** ** Control sockets of daemons *)

Definition SENSITIVE_UNIX_SOCKETS : list string :=
  ["/var/run/docker.sock"; "/run/docker.sock"; "/var/run/containerd/containerd.sock";
   "/run/containerd/containerd.sock"; "/var/run/crio/crio.sock"; "/run/crio/crio.sock";
   "/var/run/podman/podman.sock"].

Definition decimal_digit (c : ascii) : bool :=
  let n := N_of_ascii c in (48 <=? n)%N && (n <=? 57)%N.

Definition looks_like_openssh_agent_socket (p : string) : bool :=
  contains "/ssh-" p &&
  match split_once "/agent." p with
  | Some (_, String c _) => decimal_digit c
  | _ => false
  end.

Definition is_agent_socket_path (path : string) : bool :=
  let p := to_ascii_lowercase path in
  contains "/s.gpg-agent" p || contains "/gpg-agent" p || contains "/keyring/ssh" p
  || contains "/ssh-agent" p || looks_like_openssh_agent_socket p.

Definition is_sensitive_unix_socket (path : string) : bool :=
  str_mem path SENSITIVE_UNIX_SOCKETS
  || contains "podman.sock" path
  || (contains "/libvirt/" path && ends_with "-sock" path)
  || ends_with "/systemd/private" path
  || starts_with "/run/systemd/io.systemd." path || starts_with "/var/run/systemd/io.systemd." path
  || ends_with "/io.podman" path
  || ends_with "/containerd.sock" path || ends_with "/buildkitd.sock" path
  || (ends_with "/cups.sock" path && (starts_with "/run/cups/" path || starts_with "/var/run/cups/" path))
  || (starts_with "/var/lib/lxc/" path && ends_with "/command" path) || starts_with "/run/lxc/" path
  || is_agent_socket_path path.

(** The label the proxy gets; a daemon's control socket first. *)
Definition classify_unix_socket (address : string) : option UnixSocketClass :=
  path ← strip_prefix "unix:" address;
  let bare := default path (strip_prefix "@" path) in
  if String.eqb bare "" then None
  else if is_sensitive_unix_socket bare then Some Privileged
  else if is_control_injection_socket address then Some Control
  else None.

(** ** Agents of keys *)

Definition AGENT_CLIENT_BINARIES : list string :=
  ["ssh"; "git"; "gpg"; "gpg2"; "ssh-add"; "scp"; "sftp"; "gpgconf"; "gpg-connect-agent"; "ssh-agent";
   "git-remote-https"; "git-remote-http"].

(** Below a root or the root itself, slashes at its end aside. *)
Definition under_root (path root : string) : bool :=
  let trimmed := trim_end_char "/" root in
  match strip_prefix trimmed path with Some rest => starts_with "/" rest | None => false end
  || String.eqb path trimmed.

Definition exe_is_agent_client_in_routine_root (canonical_exe : string) (routine_exec_roots : list string) :
    bool :=
  str_mem (after_last "/" canonical_exe) AGENT_CLIENT_BINARIES
  && existsb (under_root canonical_exe) routine_exec_roots.

Definition connect_is_routine_agent_use (h : Host) (address : string) (pid : Z)
    (routine_exec_roots : list string) : bool :=
  match strip_prefix "unix:" address with
  | None => false
  | Some unix_path =>
      is_agent_socket_path unix_path &&
      match h_proc_exe h pid with
      | Some exe => exe_is_agent_client_in_routine_root exe routine_exec_roots
      | None => false
      end
  end.

(** ** Local connections and listeners *)

Definition is_local_address (ip_local : IpAddr → bool) (address : string) : bool :=
  match strip_prefix "unix:" address with
  | Some unix_path => negb (is_sensitive_unix_socket unix_path)
  | None =>
      starts_with "/" address || String.eqb address ""
      || eq_ignore_ascii_case address "localhost"
      || match parse_ip address with Some ip => ip_local ip | None => false end
  end.

Definition is_local_connect_address : string → bool :=
  is_local_address (λ ip, is_loopback ip || is_unspecified ip).
Definition is_local_listen_address : string → bool := is_local_address is_loopback.

(** ** Listeners *)

Inductive ListenerFamily := FamilyV4 | FamilyV6 | FamilyAny.

Record LocalListenerEntry := {
  lle_port : Z;
  lle_family : ListenerFamily;
  lle_desc : string;
  lle_allow_clamp : bool;
}.

(** The family of an address: whether it is version 4. *)
Definition listener_family_for_address (address : string) : option bool :=
  if eq_ignore_ascii_case address "localhost" then Some true
  else match parse_ip address with Some (V4 _) => Some true | Some (V6 _) => Some false | None => None end.

Definition listener_entry_matches (v4 : bool) (port : Z) (e : LocalListenerEntry) : bool :=
  (lle_port e =? port)%Z
  && match lle_family e, v4 with FamilyAny, _ | FamilyV4, true | FamilyV6, false => true | _, _ => false end.

Definition match_listener_policy (policy : list LocalListenerEntry) (address : string) (port : Z) :
    option ListenerPolicyMatch :=
  v4 ← listener_family_for_address address;
  e ← head (filter (λ e, listener_entry_matches v4 port e) policy);
  Some {| lpm_allow_clamp := lle_allow_clamp e; lpm_desc := lle_desc e |}.

(** Whether an allowed bind is rewritten to the loopback address: a wildcard address the
    policy lets be clamped. *)
Definition clamp_applies (address : string) (m : option ListenerPolicyMatch) : bool :=
  match parse_ip address with
  | None => false
  | Some ip =>
      negb (is_loopback ip)
      && (is_unspecified ip
          || match ip with
             | V6 n => match ipv4_mapped n with Some v4 => (v4 =? 0)%Z | None => false end
             | V4 _ => false
             end)
      && match m with Some m => lpm_allow_clamp m | None => false end
  end.

(** ** A listener on a port of this machine *)

(** [str::lines]: a line feed ends a line, a carriage return before it goes too, and
    nothing follows the last line feed. *)
Definition LF : ascii := ascii_of_N 10.
Definition CR : string := String (ascii_of_N 13) "".
Definition lines (s : string) : list string :=
  let ls := split_on LF s in
  let ls := if bool_decide (last ls = Some "") then removelast ls else ls in
  map (λ l, default l (strip_suffix CR l)) ls.

(** [split_whitespace]. *)
Definition split_whitespace (s : string) : list string :=
  let fix go (n : nat) (s : string) : list string :=
    match n with
    | 0%nat => []
    | S n =>
        let s := trim_start s in
        if String.eqb s "" then []
        else let w := until_space s in w :: go n (substring (String.length w) (String.length s) s)
    end in
  go (S (String.length s)) s.

(** [u16::from_str_radix(_, 16)]: an optional plus sign, then digits. *)
Fixpoint hex_digits (max acc : Z) (s : string) : option Z :=
  match s with
  | EmptyString => Some acc
  | String c s => d ← to_digit 16 c;
                  if (d <? 16)%Z && (acc * 16 + d <=? max)%Z then hex_digits max (acc * 16 + d) s else None
  end.
Definition from_str_radix_16 (max : Z) (s : string) : option Z :=
  let digits := default s (strip_prefix "+" s) in
  if String.eqb digits "" then None else hex_digits max 0 digits.

Definition loopback_hex (ipv6 : bool) : list string :=
  if ipv6 then ["00000000000000000000000000000000"; "00000000000000000000000001000000"]
  else ["0100007F"; "00000000"].

Definition listening_line (port : Z) (ipv6 : bool) (line : string) : bool :=
  match split_whitespace line with
  | _ :: local :: _ :: st :: _ =>
      String.eqb st "0A" &&
      match rsplit_once ":" local with
      | Some (addr_hex, port_hex) =>
          bool_decide (from_str_radix_16 65535 port_hex = Some port) && str_mem addr_hex (loopback_hex ipv6)
      | None => false
      end
  | _ => false
  end.

Definition scan_listeners (content : option string) (port : Z) (ipv6 : bool) : bool :=
  match content with
  | Some content => existsb (listening_line port ipv6) (tail (lines content))
  | None => false
  end.

(** The two tables are [/proc/net/tcp] and [/proc/net/tcp6]. *)
Definition loopback_port_has_listener (h : Host) (port : Z) : bool :=
  scan_listeners (h_read h "/proc/net/tcp") port false || scan_listeners (h_read h "/proc/net/tcp6") port true.

Definition is_loopback_connect_address (addr : string) : bool :=
  if String.eqb addr "" then false
  else if String.eqb addr "localhost" then true
  else match parse_ip addr with Some ip => is_loopback ip | None => false end.

(** Whether a program is missing where the supervisor looks for it. *)
Definition exec_path_clearly_missing (h : Host) (command : string) : bool :=
  let is_file p := match h_metadata h p with Some _ => true | None => false end in
  if String.eqb command "" then false
  else if contains "/" command then negb (is_file command)
  else match h_env h "PATH" with
       | None => false
       | Some path_var => negb (existsb (λ dir, is_file (join_name dir command)) (split_on ":" path_var))
       end.

(** ** What the kernel refuses anyway *)

Definition parse_cap_eff (status : string) : option Z :=
  head (omap (λ line, rest ← strip_prefix "CapEff:" line; from_str_radix_16 (2 ^ 64 - 1) (trim rest)) (lines status)).

Definition CAP_SYS_PTRACE_BIT : Z := 19.

Definition pid_has_cap_sys_ptrace (h : Host) (id : Z) : option bool :=
  status ← h_read h ("/proc/" +:+ fmt_Z id +:+ "/status");
  caps ← parse_cap_eff status;
  Some (Z.testbit caps CAP_SYS_PTRACE_BIT).

(** [link] reads symbolic links: the namespaces of a task. *)
Definition kernel_blocks_cross_process (h : Host) (link : string → option string) (yama_scope : option Z)
    (caller_tid target_pid : Z) : bool :=
  match yama_scope with
  | None => false
  | Some scope =>
      (2 <=? scope)%Z && bool_decide (pid_has_cap_sys_ptrace h caller_tid = Some false)
      && match link ("/proc/" +:+ fmt_Z caller_tid +:+ "/ns/user"),
               link ("/proc/" +:+ fmt_Z target_pid +:+ "/ns/user") with
         | Some caller_ns, Some target_ns => String.eqb caller_ns target_ns
         | _, _ => false
         end
  end.

Definition cross_process_target_provably_absent (link : string → option string) (exists_ : string → bool)
    (own_pid caller_tid target_pid : Z) : bool :=
  match link ("/proc/" +:+ fmt_Z caller_tid +:+ "/ns/pid"), link ("/proc/" +:+ fmt_Z own_pid +:+ "/ns/pid") with
  | Some caller_ns, Some own_ns =>
      String.eqb caller_ns own_ns
      && ((target_pid =? 0)%Z || negb (exists_ ("/proc/" +:+ fmt_Z target_pid)))
  | _, _ => false
  end.
