(* ===== verification/EventHandler.v ===== *)
(** The supervisor's handler of a stopped system call
    (src/crates/grith-supervisor/src/supervisor/event_handler.rs: handle_syscall_event,
    enforce_decision and queue_and_wait), from the stop to the one response it gets.

    A [Stop] is what the handler is given or looks up once: the system call, the thread,
    the clock, the DNS stash of the interceptor, whether the session is contained before
    and after the evaluation, the name the connection is attributed to, the decision
    [evaluate_proxy] returned for it (Engine and RemoteEval model how), the reputation
    table, and how the review, if one is held, was concluded (DigestReview).  The state
    is what the handler keeps between stops.  Log lines, forensic stages other than the
    last, audit rows, learned rules and the terminal are not part of the model; a panic
    of the entry matcher is the outcome [None].  The theorems are in HandlerProofs. *)
From Stdlib Require Import Ascii String ZArith Lia.
From stdpp Require Import base strings list option gmap.
From S2P Require Import Prelude Net F64 Canonical DbusPolicy Types SensitivePaths Paths ScopedPermissions.
From S2P Require Import SessionRules SshConnect MassDestruction DnsCache Reputation ReputationReview DigestReview.
From S2P Require Import RemoteEval Admission DbusPolicy Types SpawnFamilies Delegation SyscallMap LocalSockets.

#[local] Open Scope string_scope.
#[local] Open Scope list_scope.

(** ** Configuration *)

Record CoverageConfig := {
  category1_hard_deny : bool;
  category2_proxy : bool;
  category2_crossprocess : bool;
  category3_namespace : bool;
  category4_arch_priv : bool;
  deny_self_seccomp_notify : bool;
}.

Inductive InteractiveQueueAction := QueueFreeze | QueueLog | QueueDeny.

Record HandlerConfig := {
  hc_dns_inspection_enabled : bool;
  hc_coverage : CoverageConfig;
  hc_namespace_users : list string;
  hc_routine_exec_roots : list string;
  hc_delegation : DelegationConfig;
  hc_workspace_boundary : option WorkspaceBoundary;
  hc_pty_ownership_enforce : bool;
  hc_ignore_read_only : bool;
  hc_batch_rapid_reads : bool;
  hc_batch_window : Duration;
  hc_local_listener_policy : list LocalListenerEntry;
  hc_mass_destruction_enabled : bool;
  hc_home : option string;
  hc_roots : Roots;
  hc_daemon_proxy : bool;
  hc_reputation_config : ReputationConfig;
  hc_scope_name : string;
  hc_interactive_queue_action : InteractiveQueueAction;
  hc_deny_replay_seconds : Z;
  hc_approve_replay_seconds : Z;
  hc_unattended_review_streak : Z;
  hc_unattended_review_timeout_seconds : Z;
}.

(** ** State *)

Record HandlerState := {
  hs_stats : SessionStats;
  hs_recent_denials : gmap string Instant;
  hs_recent_approvals : gmap string Instant;
  hs_control_socket_answers : gmap string bool;
  hs_allowed : list string;
  hs_denied : list string;
  hs_batch : gmap (Z * Z) Instant;
  hs_unanswered : Z;
  hs_destruction : MassDestructionTracker;
}.

Definition with_stats (f : SessionStats → SessionStats) (s : HandlerState) : HandlerState := {|
  hs_stats := f (hs_stats s); hs_recent_denials := hs_recent_denials s;
  hs_recent_approvals := hs_recent_approvals s; hs_control_socket_answers := hs_control_socket_answers s;
  hs_allowed := hs_allowed s; hs_denied := hs_denied s; hs_batch := hs_batch s;
  hs_unanswered := hs_unanswered s; hs_destruction := hs_destruction s |}.
Definition with_recent_denials (m : gmap string Instant) (s : HandlerState) : HandlerState := {|
  hs_stats := hs_stats s; hs_recent_denials := m;
  hs_recent_approvals := hs_recent_approvals s; hs_control_socket_answers := hs_control_socket_answers s;
  hs_allowed := hs_allowed s; hs_denied := hs_denied s; hs_batch := hs_batch s;
  hs_unanswered := hs_unanswered s; hs_destruction := hs_destruction s |}.
Definition with_recent_approvals (m : gmap string Instant) (s : HandlerState) : HandlerState := {|
  hs_stats := hs_stats s; hs_recent_denials := hs_recent_denials s;
  hs_recent_approvals := m; hs_control_socket_answers := hs_control_socket_answers s;
  hs_allowed := hs_allowed s; hs_denied := hs_denied s; hs_batch := hs_batch s;
  hs_unanswered := hs_unanswered s; hs_destruction := hs_destruction s |}.
Definition with_answers (m : gmap string bool) (s : HandlerState) : HandlerState := {|
  hs_stats := hs_stats s; hs_recent_denials := hs_recent_denials s;
  hs_recent_approvals := hs_recent_approvals s; hs_control_socket_answers := m;
  hs_allowed := hs_allowed s; hs_denied := hs_denied s; hs_batch := hs_batch s;
  hs_unanswered := hs_unanswered s; hs_destruction := hs_destruction s |}.
Definition with_allowed (l : list string) (s : HandlerState) : HandlerState := {|
  hs_stats := hs_stats s; hs_recent_denials := hs_recent_denials s;
  hs_recent_approvals := hs_recent_approvals s; hs_control_socket_answers := hs_control_socket_answers s;
  hs_allowed := l; hs_denied := hs_denied s; hs_batch := hs_batch s;
  hs_unanswered := hs_unanswered s; hs_destruction := hs_destruction s |}.
Definition with_denied (l : list string) (s : HandlerState) : HandlerState := {|
  hs_stats := hs_stats s; hs_recent_denials := hs_recent_denials s;
  hs_recent_approvals := hs_recent_approvals s; hs_control_socket_answers := hs_control_socket_answers s;
  hs_allowed := hs_allowed s; hs_denied := l; hs_batch := hs_batch s;
  hs_unanswered := hs_unanswered s; hs_destruction := hs_destruction s |}.
Definition with_batch (m : gmap (Z * Z) Instant) (s : HandlerState) : HandlerState := {|
  hs_stats := hs_stats s; hs_recent_denials := hs_recent_denials s;
  hs_recent_approvals := hs_recent_approvals s; hs_control_socket_answers := hs_control_socket_answers s;
  hs_allowed := hs_allowed s; hs_denied := hs_denied s; hs_batch := m;
  hs_unanswered := hs_unanswered s; hs_destruction := hs_destruction s |}.
Definition with_unanswered (n : Z) (s : HandlerState) : HandlerState := {|
  hs_stats := hs_stats s; hs_recent_denials := hs_recent_denials s;
  hs_recent_approvals := hs_recent_approvals s; hs_control_socket_answers := hs_control_socket_answers s;
  hs_allowed := hs_allowed s; hs_denied := hs_denied s; hs_batch := hs_batch s;
  hs_unanswered := n; hs_destruction := hs_destruction s |}.
Definition with_destruction (t : MassDestructionTracker) (s : HandlerState) : HandlerState := {|
  hs_stats := hs_stats s; hs_recent_denials := hs_recent_denials s;
  hs_recent_approvals := hs_recent_approvals s; hs_control_socket_answers := hs_control_socket_answers s;
  hs_allowed := hs_allowed s; hs_denied := hs_denied s; hs_batch := hs_batch s;
  hs_unanswered := hs_unanswered s; hs_destruction := t |}.

(** [HashSet::insert] on the list of elements. *)
Definition set_insert (e : string) (l : list string) : list string :=
  if str_mem e l then l else l ++ [e].
Definition insert_all_entries (es l : list string) : list string := fold_left (λ l e, set_insert e l) es l.

(** The counters of the session, as u64. *)
Definition count_allowed (t : SessionStats) : SessionStats := {|
  total_intercepted := total_intercepted t; total_allowed := as_u64 (total_allowed t + 1);
  total_queued := total_queued t; total_denied := total_denied t;
  total_filtered_noise := total_filtered_noise t; foreign_abi_denied := foreign_abi_denied t |}.
Definition count_denied (t : SessionStats) : SessionStats := {|
  total_intercepted := total_intercepted t; total_allowed := total_allowed t;
  total_queued := total_queued t; total_denied := as_u64 (total_denied t + 1);
  total_filtered_noise := total_filtered_noise t; foreign_abi_denied := foreign_abi_denied t |}.
Definition count_queued (t : SessionStats) : SessionStats := {|
  total_intercepted := total_intercepted t; total_allowed := total_allowed t;
  total_queued := as_u64 (total_queued t + 1); total_denied := total_denied t;
  total_filtered_noise := total_filtered_noise t; foreign_abi_denied := foreign_abi_denied t |}.
Definition count_noise (t : SessionStats) : SessionStats := {|
  total_intercepted := total_intercepted t; total_allowed := total_allowed t;
  total_queued := total_queued t; total_denied := total_denied t;
  total_filtered_noise := as_u64 (total_filtered_noise t + 1); foreign_abi_denied := foreign_abi_denied t |}.

(** ** The response *)

Inductive Response := RAllow | RDeny | RKill.

(** The response to the thread, the last stage written for it, the fate the evaluation is
    closed with where there was one, and the state. *)
Record Handled := {
  h_response : Response;
  h_stage : string;
  h_fate : option CallOutcome;
  h_state : HandlerState;
}.

(** Responses before the evaluation. *)
Definition deny_now (stage : string) (s : HandlerState) : Handled :=
  {| h_response := RDeny; h_stage := stage; h_fate := None; h_state := s |}.
Definition allow_now (stage : string) (s : HandlerState) : Handled :=
  {| h_response := RAllow; h_stage := stage; h_fate := None; h_state := s |}.
Definition allow_noise (stage : string) (s : HandlerState) : Handled := allow_now stage (with_stats count_noise s).

Definition deny_or_kill (kill_on_deny : bool) : Response := if kill_on_deny then RKill else RDeny.

(** ** The stop *)

Record DnsQueryInspection := { di_parse_error : option string; di_queries : list (string * string) }.

Record Machine := {
  m_host : Host;
  (** [fs::read_link] and [Path::exists]. *)
  m_link : string → option string;
  m_exists : string → bool;
  m_own_pid : Z;
}.

Section Handler.
Context {D : Deps} `{Unicode} `{Filesystem} `{Sha256} `{ActionJson}.

(** [/proc/<pid>/stat], the JSON array of candidate names and its rendering. *)
Variable process_start_time : Z → option Z.
Variable json_string_array : string → option (list string).
Variable format_dns_candidate_array : list string → string.

(** How the review ended: the outcome, the stored action and the scope it was validated
    to, whether a grant made meanwhile drained it, and whether an approval that could not
    be validated had sent it back to pending before. *)
Record Review := {
  rv_outcome : ReviewOutcome;
  rv_action : option string;
  rv_scope : option ValidatedScopedAllow;
  rv_drained : bool;
  rv_sent_back : bool;
}.

Record Stop := {
  st_kind : SyscallKind;
  st_pid : Z;
  st_tid : Z;
  st_now : Instant;
  st_machine : Machine;
  st_tcp_dns_deny : bool;
  st_dns_query : option DnsQueryInspection;
  (** [evaluate_dns_query_inline] on a name and a type. *)
  st_dns_allowed : string → string → bool;
  st_supervised_pids : list Z;
  st_yama_ptrace_scope : option Z;
  st_own_pts : option string;
  st_resolution : Resolution;
  st_contained : bool;
  (** The context the call is evaluated in, built around the call, and the decision. *)
  st_context : ToolCallType → ToolCallContext;
  st_decision : ToolCallContext → ProxyDecision;
  st_clamp_fails : bool;
  st_reputation : ReputationTable;
  st_contained_after : bool;
  st_review : Review;
  st_trusted_ssh : bool;
}.

(** ** Before the mapping *)

Definition dns_phase (c : HandlerConfig) (st : Stop) (s : HandlerState) : option Handled :=
  if negb (hc_dns_inspection_enabled c) then None
  else
    let port := match st_kind st with
                | KNetConnect _ port _ | KNetSendTo _ port => Some port
                | _ => None
                end in
    if bool_decide (port = Some 853%Z) then Some (deny_now "dot" s)
    else if bool_decide (port = Some 53%Z) && st_tcp_dns_deny st then Some (deny_now "tcp_dns" s)
    else
      match st_kind st, st_dns_query st with
      | KNetSendTo _ _, Some inspection =>
          match di_parse_error inspection with
          | Some reason => Some (deny_now reason s)
          | None =>
              Some (if forallb (λ q, st_dns_allowed st q.1 q.2) (di_queries inspection)
                       && negb (bool_decide (di_queries inspection = []))
                    then allow_now "dns_query" s else deny_now "dns_query" s)
          end
      | _, _ => None
      end.

Definition category_off (cov : CoverageConfig) (k : SyscallKind) : bool :=
  match k with
  | KKernelModuleOp _ | KKexecLoad _ => negb (category1_hard_deny cov)
  | KOwnershipChange _ _ _ _ | KFilesystemMutation _ _ _ _ => negb (category2_proxy cov)
  | KCrossProcessAccess _ _ => negb (category2_crossprocess cov)
  | KNamespaceOp _ _ => negb (category3_namespace cov)
  | KArchPrivilegedOp _ => negb (category4_arch_priv cov)
  | _ => false
  end.

(** Why an access to another process is let through unevaluated. *)
Definition cross_process_carveout (st : Stop) (op : CrossProcessOp) (target_pid : Z) : option string :=
  let m := st_machine st in
  let in_tree := negb (target_pid =? 0)%Z && bool_decide (target_pid ∈ st_supervised_pids st) in
  let pidfd_unknown_target := match op with PidfdGetfd => (target_pid =? 0)%Z | _ => false end in
  if in_tree then Some "cross-process in-tree"
  else if negb pidfd_unknown_target
          && cross_process_target_provably_absent (m_link m) (m_exists m) (m_own_pid m) (st_tid st) target_pid
  then Some "cross-process dead target"
  else if kernel_blocks_cross_process (m_host m) (m_link m) (st_yama_ptrace_scope st) (st_tid st) target_pid
  then Some "cross-process kernel-blocked"
  else None.

Definition namespace_carveout (c : HandlerConfig) (st : Stop) : bool :=
  negb (bool_decide (hc_namespace_users c = [])) &&
  match h_proc_exe (m_host (st_machine st)) (st_pid st) with
  | Some canon => str_mem canon (hc_namespace_users c) && existsb (under_root canon) (hc_routine_exec_roots c)
  | None => false
  end.

(** What is decided by the kind of the system call alone. *)
Definition kind_phase (c : HandlerConfig) (st : Stop) (s : HandlerState) : option Handled :=
  match st_kind st with
  | KIoUringSetup => Some (deny_now "io_uring denied" s)
  | KRawSocketCreate _ _ _ => Some (deny_now "raw socket denied" s)
  | k =>
      if category_off (hc_coverage c) k then Some (allow_noise "PR 6 category disabled" s)
      else
        match k with
        | KCrossProcessAccess op target_pid =>
            stage ← cross_process_carveout st op target_pid; Some (allow_noise stage s)
        | KSeccompInstall _ new_listener =>
            Some (if new_listener && deny_self_seccomp_notify (hc_coverage c)
                  then deny_now "self seccomp NEW_LISTENER denied" s
                  else allow_now "self seccomp filter" s)
        | KForeignAbiSyscall _ _ =>
            Some (deny_now "foreign-ABI syscall denied" (with_stats (λ t, (record_foreign_abi_denial t).2) s))
        | KKernelModuleOp _ => Some (deny_now "kernel-module op denied" s)
        | KNamespaceOp _ _ =>
            if namespace_carveout c st then Some (allow_noise "namespace_users carveout" s) else None
        | KArchPrivilegedOp _ => Some (deny_now "arch-privileged op denied" s)
        | KKexecLoad _ => Some (deny_now "kexec denied" s)
        | _ => None
        end
  end.

(** ** Between the mapping and the evaluation *)

Definition in_grith_config (path : string) : bool :=
  let p := to_lowercase path in contains "/.config/grith/" p || contains "/config/grith/" p.

Definition is_grith_config_write (t : ToolCallType) : bool :=
  match t with
  | FileWrite path _ | FileAppend path | FileDelete path | FileChmod path _ | DirCreate path
  | OwnershipChange path _ _ | FilesystemMutation _ _ path _ => in_grith_config path
  | FileRename old_path new_path => in_grith_config old_path || in_grith_config new_path
  | _ => false
  end.

Definition control_socket_enforce (c : HandlerConfig) (st : Stop) (t : ToolCallType) : bool :=
  let h := m_host (st_machine st) in
  let d := hc_delegation c in
  match t with
  | NetConnect address _ =>
      control_socket_enforcement_enabled h (dc_enforce_control d)
      && control_socket_should_escalate address (dc_permit_control d)
      && negb (is_routine_desktop_connect h address (st_pid st))
  | _ => false
  end.

Definition is_local_call (c : HandlerConfig) (st : Stop) (t : ToolCallType) : bool :=
  match t with
  | NetConnect address _ =>
      negb (control_socket_enforce c st t)
      && (is_local_connect_address address
          || (negb (st_contained st)
              && connect_is_routine_agent_use (m_host (st_machine st)) address (st_pid st)
                   (hc_routine_exec_roots c)))
  | NetListen address _ => is_local_listen_address address
  | _ => false
  end.

(** The call with the name its address is attributed to. *)
Definition attribute (st : Stop) (t : ToolCallType) : ToolCallType :=
  match t with
  | NetConnect address port =>
      NetConnect (match st_resolution st with
                  | Exact name => name
                  | Ambiguous candidates => format_dns_candidate_array candidates
                  | Unknown _ | NotAnIp _ => address
                  end) port
  | _ => t
  end.

Definition is_foreign_pts_write (t : ToolCallType) (path : string) (own_pts : option string) : bool :=
  match t with FileWrite _ _ | FileAppend _ => true | _ => false end
  && starts_with "/dev/pts/" path
  && match own_pts with Some own => negb (String.eqb path own) | None => false end.

Definition call_paths (st : Stop) (t : ToolCallType) : list string := ctx_paths (st_context st t).

Definition noise_phase (c : HandlerConfig) (st : Stop) (t : ToolCallType) (s : HandlerState) : option Handled :=
  match call_paths st t with
  | [] => None
  | path :: rest =>
      if forallb is_noise_path (path :: rest) then
        if is_foreign_pts_write t path (st_own_pts st) && hc_pty_ownership_enforce c
        then Some (deny_now "foreign_pts_write" (with_stats count_denied s))
        else Some (allow_noise "noise path" s)
      else None
  end.

(** The path of a call that only reads. *)
Definition read_path (k : SyscallKind) : option string :=
  match k with
  | KFileOpen path (ReadOnly | ReadOnlyDirectory) => Some path
  | KFileRead _ (Some path) => Some path
  | KDirList path => Some path
  | _ => None
  end.

Definition namespaced_prefixes : list string :=
  ["exec-prefix:"; "ro:"; "ro-glob:"; "rw:"; "net:"; "exec:"; "dns:"; "projdir:"].

Definition session_trusts_path (allowed : list string) (path : string) : bool :=
  existsb (λ prefix,
    negb (existsb (λ ns, starts_with ns prefix) namespaced_prefixes)
    && starts_with prefix path
    && negb (str_mem ("projdir:" +:+ prefix) allowed && is_project_trust_guarded_path path)) allowed.

Definition read_only_phase (c : HandlerConfig) (st : Stop) (s : HandlerState) : option Handled :=
  if hc_ignore_read_only c && negb (st_contained st) then
    path ← read_path (st_kind st);
    if negb (is_sensitive_path path) || session_trusts_path (hs_allowed s) path
       || negb (m_exists (st_machine st) path)
    then Some (allow_noise "read-only noise" s) else None
  else None.

(** [ReadBatchTracker::should_coalesce]: whether to coalesce, and the tracker. *)
Definition should_coalesce (window : Duration) (now : Instant) (key : Z * Z) (m : gmap (Z * Z) Instant) :
    bool * gmap (Z * Z) Instant :=
  match m !! key with
  | Some last => if (saturating_duration_since now last <? window)%Z then (true, m) else (false, <[key := now]> m)
  | None => (false, <[key := now]> m)
  end.

Definition batch_phase (c : HandlerConfig) (st : Stop) (s : HandlerState) : option Handled * HandlerState :=
  match hc_batch_rapid_reads c, st_kind st with
  | true, KFileRead fd _ =>
      let '(coalesce, m) := should_coalesce (hc_batch_window c) (st_now st) (st_pid st, fd) (hs_batch s) in
      let s := with_batch m s in
      (if coalesce then Some (allow_noise "batched read" s) else None, s)
  | _, _ => (None, s)
  end.

Definition ssh_egress_key (address : string) (port : Z) : string :=
  "ssh-egress:" +:+ address +:+ ":" +:+ fmt_Z port.

Definition netconnect_operator_ssh_egress_grant (t : ToolCallType) (allowed : list string) : bool :=
  match t with NetConnect address port => str_mem (ssh_egress_key address port) allowed | _ => false end.

Definition already_user_approved_delegation (st : Stop) (t : ToolCallType) (s : HandlerState) : bool :=
  negb (st_contained st) && str_mem (delegating_approval_key t) (hs_allowed s).

Definition would_enforce (c : HandlerConfig) (st : Stop) (t : ToolCallType) (s : HandlerState) : bool :=
  delegation_would_enforce (m_host (st_machine st)) (hc_delegation c) (st_pid st)
    (already_user_approved_delegation st t s) t.

(** The session's allowlist, as a short cut; the outer option is a panic. *)
Definition allowlist_phase (c : HandlerConfig) (st : Stop) (t : ToolCallType) (s : HandlerState) :
    option (option Handled) :=
  if negb (st_contained st) || netconnect_operator_ssh_egress_grant t (hs_allowed s) then
    match session_allowlist_key process_start_time t with
    | None => Some None
    | Some key =>
        m ← is_session_allowlist_match json_string_array key (hs_allowed s) t;
        Some (if m && negb (is_sensitive_scoped_read_match t (hs_allowed s)) && negb (would_enforce c st t s)
              then Some (allow_noise "session_allowed" s) else None)
    end
  else Some None.

(** ** The review *)

(** The window for a review when nobody has answered for a while. *)
Definition unattended_window (streak_limit unanswered fallback_secs : Z) : option Duration :=
  if (streak_limit =? 0)%Z || (unanswered <? streak_limit)%Z then None else Some (from_secs fallback_secs).

Inductive AttendanceChange := WentUnattended (n : Z) | Returned (n : Z) | Unchanged.

Definition note_attendance (streak_limit unanswered : Z) (outcome : ReviewOutcome) : AttendanceChange * Z :=
  if (streak_limit =? 0)%Z then (Unchanged, unanswered)
  else match outcome with
       | OTimedOut =>
           let now := as_u32 (unanswered + 1) in
           (if (now =? streak_limit)%Z then WentUnattended now else Unchanged, now)
       | _ => (if (streak_limit <=? unanswered)%Z then Returned unanswered else Unchanged, 0%Z)
       end.

Definition note_review_attendance (c : HandlerConfig) (outcome : ReviewOutcome) (s : HandlerState) : HandlerState :=
  with_unanswered (note_attendance (hc_unattended_review_streak c) (hs_unanswered s) outcome).2 s.

(** Whether a time of the replay maps is within the window. *)
Definition within (now : Instant) (seconds : Z) (at_ : option Instant) : bool :=
  negb (seconds =? 0)%Z &&
  match at_ with
  | Some at_ => (saturating_duration_since now at_ <? from_secs seconds)%Z
  | None => false
  end.

(** The entries still in the window, with the new one. *)
Definition remember (now : Instant) (seconds : Z) (key : string) (m : gmap string Instant) : gmap string Instant :=
  if (0 <? seconds)%Z
  then <[key := now]> (filter (λ e, (saturating_duration_since now e.2 < from_secs seconds)%Z) m)
  else m.

Definition is_control_class_connect (ctx : ToolCallContext) : bool :=
  match ctx_call_type ctx with NetConnect _ _ => true | _ => false end
  && bool_decide (unix_socket_class ctx = Some Control).

Definition ipc_socket_grant_key_parts (m : Machine) (address : string) (pid : N) : option string :=
  path ← strip_prefix "unix:" address;
  let bare := default path (strip_prefix "@" path) in
  if String.eqb bare "" || is_sensitive_unix_socket bare then None
  else if negb (is_control_injection_socket address) then None
  else
    exe ← m_link m ("/proc/" +:+ fmt_N pid +:+ "/exe");
    if ends_with " (deleted)" exe then None
    else Some ("ipc-socket:" +:+ address +:+ "|" +:+ exe).

Definition ipc_socket_grant_key_for_ctx (m : Machine) (ctx : ToolCallContext) : option string :=
  match ctx_call_type ctx with
  | NetConnect address _ =>
      pid ← (v ← json_get (ctx_arguments ctx) "pid"; json_as_u64 v);
      ipc_socket_grant_key_parts m address pid
  | _ => None
  end.

Definition contamination_signalled (d : ProxyDecision) : bool :=
  existsb (λ r, fr_matched r && str_mem (fr_filter_name r) ["taint"; "session-containment"]) (pd_filter_results d).

(** The entries an approval adds to the allowlist. *)
Definition approval_entries (st : Stop) (ctx : ToolCallContext) (record_delegating_approval : bool) : list string :=
  let t := ctx_call_type ctx in
  let delegating := if record_delegating_approval then [delegating_approval_key t] else [] in
  match rv_scope (st_review st) with
  | Some scope => delegating ++ va_rules scope
  | None =>
      let entries := approved_session_allowlist_entries process_start_time json_string_array t in
      if bool_decide (entries = []) then delegating
      else
        delegating ++ entries
        ++ match t with NetConnect address port => if st_trusted_ssh st then [ssh_egress_key address port] else []
                      | _ => [] end
        ++ (if st_contained_after st then [] else option_list (ipc_socket_grant_key_for_ctx (st_machine st) ctx))
        ++ option_list (tmp_self_created_prefix t)
  end.

(** The rules a refusal of a directory adds to the denylist. *)
Definition refusal_rules (st : Stop) (ctx : ToolCallContext) : list string :=
  match rv_outcome (st_review st), rv_action (st_review st) ≫= from_storage_value with
  | ODenied, Some (PScopedDeny request) =>
      match validate_scoped_deny request (ToolCallType_display (ctx_call_type ctx)) with
      | Ok scope => vd_rules scope
      | Err _ => []
      end
  | _, _ => []
  end.

Definition respond (r : Response) (stage : string) (fate : CallOutcome) (s : HandlerState) : Handled :=
  {| h_response := r; h_stage := stage; h_fate := Some fate; h_state := s |}.

(** After the review: the state an approval, a drain or a refusal leaves. *)
Definition review_concluded (c : HandlerConfig) (st : Stop) (ctx : ToolCallContext)
    (kill_on_deny record_delegating_approval : bool) (s : HandlerState) : Handled :=
  let key := ToolCallType_display (ctx_call_type ctx) in
  let rv := st_review st in
  let s := if rv_sent_back rv then note_review_attendance c OApproved s else s in
  let s := note_review_attendance c (rv_outcome rv) s in
  match rv_outcome rv with
  | OApproved =>
      if rv_drained rv then respond RAllow "scope_drain_resolved" Executed s
      else
        let s := with_allowed (insert_all_entries (approval_entries st ctx record_delegating_approval) (hs_allowed s)) s in
        let s := with_recent_approvals
                   (remember (st_now st) (hc_approve_replay_seconds c) key (hs_recent_approvals s)) s in
        let s := if is_control_class_connect ctx
                 then with_answers (<[key := true]> (hs_control_socket_answers s)) s else s in
        respond RAllow "approved" Executed s
  | ODenied | OTimedOut =>
      let s := with_denied (insert_all_entries (refusal_rules st ctx) (hs_denied s)) s in
      let s := with_recent_denials
                 (remember (st_now st) (hc_deny_replay_seconds c) key (hs_recent_denials s)) s in
      let s := if match rv_outcome rv with ODenied => true | _ => false end && is_control_class_connect ctx
               then with_answers (<[key := false]> (hs_control_socket_answers s)) s else s in
      respond (deny_or_kill kill_on_deny) "denied" Denied (with_stats count_denied s)
  end.

Definition queue_and_wait (c : HandlerConfig) (st : Stop) (ctx : ToolCallContext)
    (kill_on_deny record_delegating_approval : bool) (s : HandlerState) : Handled :=
  let key := ToolCallType_display (ctx_call_type ctx) in
  if within (st_now st) (hc_deny_replay_seconds c) (hs_recent_denials s !! key) then
    respond (deny_or_kill kill_on_deny) "deny_replayed" Denied (with_stats count_denied s)
  else
    match (if is_control_class_connect ctx then hs_control_socket_answers s !! key else None) with
    | Some true =>
        respond RAllow "control_socket_answer_replayed" Executed (with_stats count_allowed s)
    | Some false =>
        respond (deny_or_kill kill_on_deny) "control_socket_answer_replayed" Denied (with_stats count_denied s)
    | None =>
        if within (st_now st) (hc_approve_replay_seconds c) (hs_recent_approvals s !! key)
           && negb (st_contained_after st)
        then respond RAllow "approve_replayed" Executed (with_stats count_allowed s)
        else review_concluded c st ctx kill_on_deny record_delegating_approval (with_stats count_queued s)
    end.

(** ** Enforcement *)

Definition enforce_decision (c : HandlerConfig) (st : Stop) (ctx : ToolCallContext) (d : ProxyDecision)
    (kill_on_deny record_delegating_approval : bool) (s : HandlerState) : Handled :=
  let t := ctx_call_type ctx in
  let h := m_host (st_machine st) in
  match pd_action d with
  | Allow =>
      let clamps := match t with
                    | NetListen address _ => clamp_applies address (ctx_listener_policy_match ctx)
                    | _ => false
                    end in
      if clamps && st_clamp_fails st then respond RDeny "clamp_failed" Denied (with_stats count_denied s)
      else
        let s := with_stats count_allowed s in
        respond RAllow "auto-allow" Executed
          (with_allowed (insert_all_entries (option_list (tmp_self_created_prefix t)) (hs_allowed s)) s)
  | Queue _ =>
      let missing := match t with ProcessSpawn command _ => exec_path_clearly_missing h command | _ => false end in
      let refused := match t with
                     | NetConnect address port =>
                         is_loopback_connect_address address && negb (loopback_port_has_listener h port)
                     | _ => false
                     end in
      if missing then respond RAllow "suppressed_failed_exec" KernelRefused (with_stats count_allowed s)
      else if refused then respond RAllow "suppressed_failed_connect" KernelRefused (with_stats count_allowed s)
      else
        match hc_interactive_queue_action c with
        | QueueLog =>
            if contamination_signalled d then queue_and_wait c st ctx kill_on_deny record_delegating_approval s
            else respond RAllow "auto-allow-log" ObservedOnly (with_stats count_queued s)
        | QueueDeny => respond (deny_or_kill kill_on_deny) "auto-deny-headless" Denied (with_stats count_denied s)
        | QueueFreeze => queue_and_wait c st ctx kill_on_deny record_delegating_approval s
        end
  | Deny reason => respond (deny_or_kill kill_on_deny) "auto-deny" Denied (with_stats count_denied s)
  end.

(** The decision for a read the operator has scoped. *)
Definition honour_scoped_read (scoped : bool) (d : ProxyDecision) : ProxyDecision :=
  match pd_action d with
  | Queue _ =>
      if scoped then
        {| pd_action := Allow; pd_composite_score := pd_composite_score d;
           pd_filter_results := pd_filter_results d; pd_evaluation_time := pd_evaluation_time d;
           pd_decision_reason :=
             "read allowed by explicit sensitive-directory session scope after proxy evaluation" |}
      else d
  | _ => d
  end.

(** What the evaluated decision is turned into before it is enforced: whether a denial
    kills, whether an escalation forbids the automatic approval, the decision and the
    state. *)
Definition adjust_decision (c : HandlerConfig) (st : Stop) (ctx : ToolCallContext) (scoped approved : bool)
    (s : HandlerState) : bool * bool * bool * ProxyDecision * HandlerState :=
  let t := ctx_call_type ctx in
  let h := m_host (st_machine st) in
  let d := honour_scoped_read scoped (st_decision st ctx) in
  let '(count, d, tracker) :=
    if hc_mass_destruction_enabled c
    then maybe_escalate (hc_home c) (hc_roots c) t (st_now st) d (hs_destruction s)
    else (None, d, hs_destruction s) in
  let s := with_destruction tracker s in
  let ipc_grant := negb (st_contained st)
    && match ipc_socket_grant_key_for_ctx (st_machine st) ctx with
       | Some key => str_mem key (hs_allowed s)
       | None => false
       end in
  let '(kill_on_deny, escalated, d) := escalate_delegation h (hc_delegation c) approved ipc_grant t d in
  (kill_on_deny, bool_decide (is_Some count), escalated, d, s).

Definition evaluated_phase (c : HandlerConfig) (st : Stop) (t : ToolCallType) (s : HandlerState) : Handled :=
  let scoped := is_sensitive_scoped_read_match t (hs_allowed s) in
  let approved := already_user_approved_delegation st t s in
  let enforce := would_enforce c st t s in
  let ctx := st_context st t in
  let '(kill_on_deny, destruction, escalated, d, s) := adjust_decision c st ctx scoped approved s in
  match supervisor_auto_allow (hc_daemon_proxy c) destruction escalated enforce (hc_scope_name c)
          (hc_reputation_config c) (st_reputation st) ctx d with
  | Some _ => respond RAllow "reputation_auto_allow" Executed (with_stats count_allowed s)
  | None =>
      let r := enforce_decision c st ctx d kill_on_deny enforce s in
      {| h_response := h_response r; h_stage := h_stage r;
         h_fate := if was_evaluated d then h_fate r else None; h_state := h_state r |}
  end.

(** ** The handler *)

(** The calls that are settled without an evaluation, after the mapping. *)
Definition call_phase (c : HandlerConfig) (st : Stop) (t : ToolCallType) (s : HandlerState) : option Handled :=
  if is_grith_config_write t then Some (deny_now "grith config write" (with_stats count_denied s))
  else if is_local_call c st t then Some (allow_noise "local-only network" s)
  else
    let t := attribute st t in
    match session_deny_match t (hs_denied s) with
    | Some rule => Some (deny_now ("blocked by session rule " +:+ rule) (with_stats count_denied s))
    | None =>
        outside ← match hc_workspace_boundary c with
                  | Some boundary =>
                      workspace_only_block_reason process_start_time json_string_array boundary t (hs_allowed s)
                  | None => Some None
                  end;
        match outside with
        | Some outside => Some (deny_now ("outside the workspace: " +:+ outside) (with_stats count_denied s))
        | None =>
            match noise_phase c st t s with
            | Some r => Some r
            | None =>
                match read_only_phase c st s with
                | Some r => Some r
                | None =>
                    match batch_phase c st s with
                    | (Some r, _) => Some r
                    | (None, s) =>
                        r ← allowlist_phase c st t s;
                        Some (match r with Some r => r | None => evaluated_phase c st t s end)
                    end
                end
            end
        end
    end.

Definition handle_syscall_event (c : HandlerConfig) (st : Stop) (s : HandlerState) : option Handled :=
  let s := with_stats (λ t, (tick t).2) s in
  match dns_phase c st s with
  | Some r => Some r
  | None =>
      match kind_phase c st s with
      | Some r => Some r
      | None =>
          match to_tool_call_type (st_kind st) with
          | None => Some (allow_noise "not security-relevant" s)
          | Some t => call_phase c st t s
          end
      end
  end.

(** The stops of a session, one after another. *)
Fixpoint handle_all (c : HandlerConfig) (stops : list Stop) (s : HandlerState) : option (list Handled * HandlerState) :=
  match stops with
  | [] => Some ([], s)
  | st :: stops =>
      r ← handle_syscall_event c st s;
      '(rs, s) ← handle_all c stops (h_state r);
      Some (r :: rs, s)
  end.

End Handler.
