(* ===== verification/HandlerProofs.v ===== *)
(** What the handler of a stopped system call guarantees (EventHandler).

    Every path through the handler ends either in a short cut that leaves the grants of
    the session alone or in the evaluated phase; [handle_cases] splits a response that
    way once, and the theorems reason on the two cases.  They show that a directory an
    operator refused stays refused, that in a contained session no earlier grant changes
    a response, that a spawn that hands its authority on runs only if it was reviewed,
    and that every answer replayed without a prompt was given by the operator before. *)
From Stdlib Require Import Ascii String ZArith Lia.
From stdpp Require Import base strings list option gmap.
From S2P Require Import Prelude Net F64 Canonical DbusPolicy Types SensitivePaths Paths ScopedPermissions.
From S2P Require Import SessionRules SessionGrants SshConnect MassDestruction DnsCache Reputation ReputationReview DigestReview.
From S2P Require Import RemoteEval Admission DbusPolicy Types SpawnFamilies Delegation DelegationProofs SyscallMap LocalSockets Concrete EventHandler.

#[local] Open Scope string_scope.
#[local] Open Scope list_scope.

(** The part of the state that answers a later call without a review. *)
Definition grants (s : HandlerState) :=
  (hs_allowed s, hs_denied s, hs_recent_approvals s, hs_recent_denials s, hs_control_socket_answers s).

Lemma grants_stats f s : grants (with_stats f s) = grants s.
Proof. reflexivity. Qed.
Lemma grants_batch m s : grants (with_batch m s) = grants s.
Proof. reflexivity. Qed.

Lemma insert_all_entries_elem es l x : x ∈ insert_all_entries es l ↔ x ∈ l ∨ x ∈ es.
Proof.
  unfold insert_all_entries. revert l. induction es as [|e es IH]; intros l; cbn.
  { set_solver. }
  rewrite IH. unfold set_insert. destruct (str_mem e l) eqn:E; [|set_solver].
  apply str_mem_spec in E. set_solver.
Qed.

Section Proofs.
Context {D : Deps} `{Unicode} `{Filesystem} `{Sha256} `{ActionJson}.
Variable process_start_time : Z → option Z.
Variable json_string_array : string → option (list string).
Variable format_dns_candidate_array : list string → string.

Notation handle := (handle_syscall_event process_start_time json_string_array format_dns_candidate_array).
Notation evaluated := (evaluated_phase process_start_time json_string_array).
Notation enforce := (enforce_decision process_start_time json_string_array).
Notation queued := (queue_and_wait process_start_time json_string_array).
Notation handles := (handle_all process_start_time json_string_array format_dns_candidate_array).

(** ** Short cuts *)

Definition replay_stage (stage : string) : Prop :=
  stage = "approve_replayed" ∨ stage = "control_socket_answer_replayed".

(** A response before the evaluation: no fate, the grants untouched, and no replay. *)
Definition settled (s : HandlerState) (r : Handled) : Prop :=
  h_fate r = None ∧ grants (h_state r) = grants s ∧ (h_response r = RAllow → ¬ replay_stage (h_stage r)).

Lemma settled_deny stage s s' : grants s' = grants s → settled s (deny_now stage s').
Proof. by repeat split. Qed.
Lemma settled_allow stage s s' : ¬ replay_stage stage → grants s' = grants s → settled s (allow_now stage s').
Proof. by repeat split. Qed.
Lemma settled_noise stage s s' : ¬ replay_stage stage → grants s' = grants s → settled s (allow_noise stage s').
Proof. by repeat split. Qed.
#[local] Hint Resolve settled_deny settled_allow settled_noise : core.
#[local] Hint Extern 1 (grants _ = grants _) => reflexivity : core.
#[local] Hint Extern 1 (¬ replay_stage _) => (intros [|]; done) : core.

Lemma carveout_stage st op pid stage : cross_process_carveout st op pid = Some stage → ¬ replay_stage stage.
Proof. unfold cross_process_carveout. intros Hs. repeat case_match; simplify_eq; auto. Qed.
#[local] Hint Resolve carveout_stage : core.

(** Split the matches and conditionals of a phase down to its answers. *)
Ltac phase_cases :=
  repeat match goal with
  | H : None = Some _ |- _ => discriminate H
  | H : Some _ = Some _ |- _ => injection H as H; try subst
  | H : Some (if ?b then _ else _) = Some _ |- _ => destruct b eqn:?
  | H : (if ?b then _ else _) = Some _ |- _ => destruct b eqn:?
  | H : match ?x with _ => _ end = Some _ |- _ => destruct x eqn:?
  | |- settled _ (if ?b then _ else _) => destruct b eqn:?
  | H : mbind _ ?x = Some _ |- _ => destruct x eqn:?; cbn [mbind option_bind] in H
  end.

Lemma dns_settled c st s r : dns_phase c st s = Some r → settled s r.
Proof. unfold dns_phase. cbv zeta. intros Hr. phase_cases; auto. Qed.

Lemma kind_settled c st s r : kind_phase c st s = Some r → settled s r.
Proof. unfold kind_phase. intros Hr. phase_cases; eauto. Qed.

Lemma noise_settled c st t s r : noise_phase c st t s = Some r → settled s r.
Proof. unfold noise_phase. intros Hr. phase_cases; auto. Qed.

Lemma read_only_settled c st s r : read_only_phase c st s = Some r → settled s r.
Proof. unfold read_only_phase. intros Hr. phase_cases; auto. Qed.

Lemma batch_grants c st s : grants (batch_phase c st s).2 = grants s.
Proof.
  unfold batch_phase. destruct (hc_batch_rapid_reads c), (st_kind st); try reflexivity.
  by destruct (should_coalesce _ _ _ _).
Qed.

Lemma batch_settled c st s r s' : batch_phase c st s = (Some r, s') → settled s r.
Proof.
  unfold batch_phase. destruct (hc_batch_rapid_reads c), (st_kind st); try done.
  destruct (should_coalesce _ _ _ _) as [[] m]; [|done]. intros [= <- <-]. auto.
Qed.

Lemma allowlist_settled c st t s r :
  allowlist_phase process_start_time json_string_array c st t s = Some (Some r) → settled s r.
Proof. unfold allowlist_phase. intros Hr. phase_cases; auto. Qed.

(** Every response is a short cut, or the evaluated phase on a state with the same
    grants. *)
Lemma handle_cases c st s r : handle c st s = Some r →
  settled s r ∨
  ∃ t s', to_tool_call_type (st_kind st) = Some t ∧ grants s' = grants s
    ∧ r = evaluated c st (attribute format_dns_candidate_array st t) s'.
Proof.
  unfold handle_syscall_event. cbv zeta.
  set (s0 := with_stats _ s). intros Hr. change (settled s r) with (settled s0 r). change (grants s) with (grants s0).
  destruct (dns_phase c st s0) eqn:Ed; [injection Hr as <-; left; by eapply dns_settled|].
  destruct (kind_phase c st s0) eqn:Ek; [injection Hr as <-; left; by eapply kind_settled|].
  destruct (to_tool_call_type (st_kind st)) as [t|] eqn:Et; [|injection Hr as <-; left; auto].
  unfold call_phase in Hr. cbv zeta in Hr. set (t' := attribute _ st t) in *.
  destruct (is_grith_config_write t); [injection Hr as <-; left; by apply settled_deny|].
  destruct (is_local_call c st t); [injection Hr as <-; left; by auto|].
  destruct (session_deny_match t' (hs_denied s0)); [injection Hr as <-; left; by apply settled_deny|].
  destruct (match hc_workspace_boundary c with Some _ => _ | None => _ end) as [[outside|]|];
    cbn [mbind option_bind] in Hr; [injection Hr as <-; left; by apply settled_deny| |done].
  destruct (noise_phase c st t' s0) eqn:En; [injection Hr as <-; left; by eapply noise_settled|].
  destruct (read_only_phase c st s0) eqn:Ero; [injection Hr as <-; left; by eapply read_only_settled|].
  pose proof (batch_grants c st s0) as Hb.
  destruct (batch_phase c st s0) as [[r'|] s1] eqn:Eb; [injection Hr as <-; left; by eapply batch_settled|].
  destruct (allowlist_phase _ _ c st t' s1) as [[r'|]|] eqn:Ea; cbn [mbind option_bind] in Hr; [|..|done].
  - injection Hr as <-. left. apply allowlist_settled in Ea as (Hf & Hg & Hn). split; [done|]. split; [by rewrite Hg|done].
  - injection Hr as <-. right. by exists t, s1.
Qed.

(** ** The evaluated phase *)

(** The context a stop is evaluated in and the text that names the call. *)
Definition stop_context (st : Stop) : option ToolCallContext :=
  (λ t, st_context st (attribute format_dns_candidate_array st t)) <$> to_tool_call_type (st_kind st).
Definition stop_key (st : Stop) : option string :=
  (λ ctx, ToolCallType_display (ctx_call_type ctx)) <$> stop_context st.

(** The evaluated phase ends in the automatic approval or in the enforcement of the
    adjusted decision. *)
Lemma evaluated_cases c st t s :
  let r := evaluated c st t s in
  (h_response r = RAllow ∧ h_stage r = "reputation_auto_allow" ∧ grants (h_state r) = grants s)
  ∨ ∃ kill destruction escalated d s',
      adjust_decision c st (st_context st t) (is_sensitive_scoped_read_match t (hs_allowed s))
        (already_user_approved_delegation st t s) s = (kill, destruction, escalated, d, s')
      ∧ grants s' = grants s
      ∧ let e := enforce c st (st_context st t) d kill (would_enforce c st t s) s' in
        h_response r = h_response e ∧ h_stage r = h_stage e ∧ h_state r = h_state e.
Proof.
  cbv zeta. unfold evaluated_phase.
  destruct (adjust_decision _ _ _ _ _ s) as [[[[kill destruction] escalated] d] s'] eqn:Ea.
  assert (Hg : grants s' = grants s).
  { unfold adjust_decision in Ea. repeat case_match; by simplify_eq. }
  destruct (supervisor_auto_allow _ _ _ _ _ _ _ _ _).
  - left. repeat split. exact Hg.
  - right. by exists kill, destruction, escalated, d, s'.
Qed.

(** What grants approvals without a review. *)
Definition approvals (s : HandlerState) := (hs_recent_approvals s, hs_control_socket_answers s).

Lemma enforce_cases c st ctx d kill rec s :
  let r := enforce c st ctx d kill rec s in
  r = queued c st ctx kill rec s
  ∨ (approvals (h_state r) = approvals s ∧ hs_denied (h_state r) = hs_denied s
     ∧ hs_allowed s ⊆ hs_allowed (h_state r) ∧ ¬ replay_stage (h_stage r)).
Proof.
  cbv zeta. unfold enforce_decision, replay_stage. cbv zeta.
  repeat match goal with
  | |- context [if ?b then _ else _] => destruct b
  | |- context [match pd_action d with _ => _ end] => destruct (pd_action d)
  | |- context [match hc_interactive_queue_action c with _ => _ end] => destruct (hc_interactive_queue_action c)
  end; first [left; reflexivity | right; split; [done|split; [done|split; [intros x Hx|by intros [|]]]]].
  all: first [exact Hx | apply insert_all_entries_elem; by left].
Qed.

(** ** Answers replayed without a prompt *)

(** The operator's own approval of a call: the review was answered, not drained. *)
Definition operator_approved (key : string) (e : Stop * Handled) : Prop :=
  stop_key e.1 = Some key ∧ rv_outcome (st_review e.1) = OApproved ∧ rv_drained (st_review e.1) = false
  ∧ h_response e.2 = RAllow ∧ h_stage e.2 = "approved".

(** Every remembered approval was given in the history, a timed one at its time. *)
Definition backed (history : list (Stop * Handled)) (s : HandlerState) : Prop :=
  (∀ key at_, hs_recent_approvals s !! key = Some at_ →
     ∃ e, e ∈ history ∧ operator_approved key e ∧ st_now e.1 = at_)
  ∧ (∀ key, hs_control_socket_answers s !! key = Some true → ∃ e, e ∈ history ∧ operator_approved key e).

(** What a replay needs. *)
Definition replay_backed (c : HandlerConfig) (history : list (Stop * Handled)) (st : Stop) (r : Handled) : Prop :=
  ∃ e key, e ∈ history ∧ stop_key st = Some key ∧ operator_approved key e
    ∧ (h_stage r = "approve_replayed" →
       (saturating_duration_since (st_now st) (st_now e.1) < from_secs (hc_approve_replay_seconds c))%Z
       ∧ st_contained_after st = false).

Lemma backed_approvals history s s' : approvals s' = approvals s → backed history s → backed history s'.
Proof. unfold backed, approvals. by intros [= -> ->]. Qed.

Lemma backed_app history e s : backed history s → backed (history ++ [e]) s.
Proof.
  intros [Hr Ha]. split.
  - intros key at_ Hk. destruct (Hr _ _ Hk) as (e' & Hin & ?). exists e'. set_solver.
  - intros key Hk. destruct (Ha _ Hk) as (e' & Hin & ?). exists e'. set_solver.
Qed.

Lemma remember_lookup now seconds key m key' at_ :
  remember now seconds key m !! key' = Some at_ → (key' = key ∧ at_ = now) ∨ m !! key' = Some at_.
Proof.
  unfold remember. destruct (0 <? seconds)%Z; [|by right].
  intros [[<- <-]|[_ [Hm _]%map_lookup_filter_Some]]%lookup_insert_Some; [by left|by right].
Qed.

Lemma within_some now seconds at_ : within now seconds at_ = true →
  ∃ t, at_ = Some t ∧ (saturating_duration_since now t < from_secs seconds)%Z.
Proof.
  unfold within. intros [_ Hw]%andb_prop. destruct at_ as [t|]; [|done].
  exists t. split; [done|]. by apply Z.ltb_lt.
Qed.

(** The conclusion of a review keeps the approvals backed, with the review itself in the
    history. *)
Lemma review_backed c st ctx kill rec s history r :
  stop_context st = Some ctx → backed history s →
  let q := review_concluded process_start_time json_string_array c st ctx kill rec s in
  h_response r = h_response q → h_stage r = h_stage q → h_state r = h_state q →
  backed (history ++ [(st, r)]) (h_state r) ∧ ¬ replay_stage (h_stage r).
Proof.
  cbv zeta. intros Hctx Hb Hresp Hstage Hstate. rewrite Hstate. rewrite Hstage.
  unfold review_concluded in *. cbv zeta in *.
  set (s1 := note_review_attendance c _ _) in *.
  assert (Hb1 : backed history s1).
  { revert Hb. apply backed_approvals. unfold s1. by destruct (rv_sent_back _). }
  clearbody s1.
  assert (Hno : ∀ d : string, d ∈ ["scope_drain_resolved"; "approved"; "denied"] → ¬ replay_stage d).
  { intros d Hd [->| ->]; set_solver. }
  assert (Hrefused : ∀ s2, hs_recent_approvals s2 = hs_recent_approvals s1 →
    (∀ key, hs_control_socket_answers s2 !! key = Some true → hs_control_socket_answers s1 !! key = Some true) →
    backed (history ++ [(st, r)]) s2).
  { intros s2 Hr2 Ha2. apply backed_app. destruct Hb1 as [Hr Ha]. split; [by rewrite Hr2|eauto]. }
  destruct (rv_outcome (st_review st)) eqn:Eo.
  2, 3: cbn; split; [|apply Hno; set_solver]; destruct (is_control_class_connect ctx); (apply Hrefused; [done|]);
    intros key; cbn; try done; by intros [[_ ?]|[_ ?]]%lookup_insert_Some.
  destruct (rv_drained (st_review st)) eqn:Edr; cbn; (split; [|apply Hno; set_solver]).
  { by apply Hrefused. }
  assert (Hme : operator_approved (ToolCallType_display (ctx_call_type ctx)) (st, r)).
  { unfold operator_approved, stop_key. cbn. by rewrite Hctx, Hresp, Hstage. }
  destruct (backed_app history (st, r) s1 Hb1) as [Hr Ha]. split; cbn.
  - intros key at_ Hk.
    assert (remember (st_now st) (hc_approve_replay_seconds c) (ToolCallType_display (ctx_call_type ctx))
      (hs_recent_approvals s1) !! key = Some at_) as [[-> ->]|Hk']%remember_lookup
      by (revert Hk; by destruct (is_control_class_connect ctx)); [|by apply Hr].
    exists (st, r). split; [set_solver|done].
  - intros key Hk. assert (key = ToolCallType_display (ctx_call_type ctx) ∨ hs_control_socket_answers s1 !! key = Some true)
      as [->|Hk'] by (revert Hk; destruct (is_control_class_connect ctx); cbn; [|by right];
        intros [[-> _]|[_ ?]]%lookup_insert_Some; by auto); [|by apply Ha].
    exists (st, r). split; [set_solver|done].
Qed.

Lemma queue_backed c st ctx kill rec s history r :
  stop_context st = Some ctx → backed history s →
  let q := queued c st ctx kill rec s in
  h_response r = h_response q → h_stage r = h_stage q → h_state r = h_state q →
  backed (history ++ [(st, r)]) (h_state r)
  ∧ (h_response r = RAllow → replay_stage (h_stage r) → replay_backed c history st r).
Proof.
  cbv zeta. intros Hctx Hb. pose proof Hb as [Hr Ha].
  assert (Hkey : stop_key st = Some (ToolCallType_display (ctx_call_type ctx))).
  { unfold stop_key. by rewrite Hctx. }
  unfold queue_and_wait. cbv zeta.
  destruct (within _ (hc_deny_replay_seconds c) _).
  { cbn. intros Hresp _ ->. split; [by apply backed_app|]. rewrite Hresp. by intros; destruct kill. }
  destruct (if is_control_class_connect ctx then _ else None) as [[]|] eqn:Ean.
  - cbn. intros _ Hstage ->. split; [by apply backed_app|]. intros _ _.
    destruct (is_control_class_connect ctx); [|done].
    destruct (Ha _ Ean) as (e & Hin & He). exists e, (ToolCallType_display (ctx_call_type ctx)).
    by rewrite Hstage.
  - cbn. intros Hresp _ ->. split; [by apply backed_app|]. rewrite Hresp. by intros; destruct kill.
  - destruct (within _ (hc_approve_replay_seconds c) _ && negb (st_contained_after st)) eqn:Ew.
    + cbn. intros _ _ ->. split; [by apply backed_app|]. intros _ _.
      apply andb_prop in Ew as [(at_ & Hat & Hw)%within_some Hc].
      destruct (Hr _ _ Hat) as (e & Hin & He & <-). exists e, (ToolCallType_display (ctx_call_type ctx)).
      do 3 (split; [done|]). intros _. split; [done|]. by apply negb_true_iff.
    + intros Hresp Hstage Hstate.
      destruct (review_backed c st ctx kill rec (with_stats count_queued s) history r) as [Hb' Hn]; [done..|].
      by split.
Qed.

Lemma handle_backed c st s r history : backed history s → handle c st s = Some r →
  backed (history ++ [(st, r)]) (h_state r)
  ∧ (h_response r = RAllow → replay_stage (h_stage r) → replay_backed c history st r).
Proof.
  intros Hb Hr. apply handle_cases in Hr as [(Hf & Hg & Hn)|(t & s' & Ht & Hg & ->)].
  { split; [|by intros Hal Hrep; destruct (Hn Hal)]. apply backed_app. revert Hb. apply backed_approvals. unfold approvals. by injection Hg as _ _ -> _ ->. }
  set (t' := attribute _ st t). set (r := evaluated c st t' s').
  assert (Hb' : backed history s').
  { revert Hb. apply backed_approvals. unfold approvals. by injection Hg as _ _ -> _ ->. }
  destruct (evaluated_cases c st t' s') as [(_ & Hstage & Hg')|(kill & ? & ? & d & s2 & _ & Hg2 & He)];
    fold r in Hstage, Hg' || fold r in He.
  { split; [|rewrite Hstage; by intros _ [|]]. apply backed_app. revert Hb'. apply backed_approvals.
    unfold approvals. by injection Hg' as _ _ -> _ ->. }
  assert (Hb2 : backed history s2).
  { revert Hb'. apply backed_approvals. unfold approvals. by injection Hg2 as _ _ -> _ ->. }
  cbv zeta in He. destruct He as (Hresp & Hst & Hstate).
  destruct (enforce_cases c st (st_context st t') d kill (would_enforce c st t' s') s2)
    as [Hq|(Happ & _ & _ & Hn)].
  - rewrite Hq in *. destruct (queue_backed c st (st_context st t') kill (would_enforce c st t' s') s2 history r)
      as [Hb3 Hrep]; [unfold stop_context; by rewrite Ht|done..|]. split; [done|]. done.
  - rewrite Hstate, Hst. split; [|by intros _ Hrep]. apply backed_app. revert Hb2. by apply backed_approvals.
Qed.

Lemma handles_snoc c stops st s0 rs s : handles c (stops ++ [st]) s0 = Some (rs, s) ↔
  ∃ rs' s' r, handles c stops s0 = Some (rs', s') ∧ handle c st s' = Some r ∧ rs = rs' ++ [r] ∧ s = h_state r.
Proof.
  revert s0 rs s. induction stops as [|st0 stops IH]; intros s0 rs s; cbn.
  - destruct (handle c st s0) as [r|] eqn:E; cbn; split; try naive_solver.
  - destruct (handle c st0 s0) as [r0|]; cbn; [|naive_solver].
    destruct (handles c (stops ++ [st]) (h_state r0)) as [[rs1 s1]|] eqn:E1; cbn.
    + apply IH in E1 as (rs' & s' & r & Hs & Hr & -> & ->). rewrite Hs. cbn. split.
      * intros [= <- <-]. by exists (r0 :: rs'), s', r.
      * intros (? & ? & r' & [= <- <-] & Hr' & -> & ->). rewrite Hr in Hr'. by simplify_eq.
    + split; [done|]. intros (rs' & s' & r & Hs & Hr & -> & ->).
      destruct (handles c stops (h_state r0)) as [[rs2 s2]|] eqn:E2; [|done].
      cbn in Hs. simplify_eq. assert (None = Some (rs2 ++ [r], h_state r)) as [=].
      rewrite <- E1. apply IH. by exists rs2, s', r.
Qed.

Lemma handles_backed c stops s0 rs s :
  hs_recent_approvals s0 = ∅ → hs_control_socket_answers s0 = ∅ →
  handles c stops s0 = Some (rs, s) → length rs = length stops ∧ backed (zip stops rs) s.
Proof.
  intros Hr Ha. revert rs s. induction stops as [|st stops IH] using rev_ind; intros rs s.
  { intros [= <- <-]. split; [done|]. split; [rewrite Hr|rewrite Ha]; intros *; by rewrite lookup_empty. }
  intros (rs' & s' & r & Hs & Hst & -> & ->)%handles_snoc. destruct (IH _ _ Hs) as [Hl Hb].
  rewrite !length_app, Hl. split; [done|]. rewrite zip_with_app by done.
  by apply (handle_backed c st s').
Qed.

(** C4: An approval that is replayed was the operator's own. Run the handler on any
    calls from a state with no remembered approvals and control-socket answers; when the
    next call is allowed because an answer is replayed (a recent approval, or the answer
    for a control socket), one of the earlier stops is the same call, at which the
    operator approved it and the review was not merely drained by a grant; a recent
    approval lies within the replay window, in a session that is not contained. It says
    nothing of replayed denials, which may stem from a timeout. *)
Theorem replays_are_the_operators c stops s0 rs s st r
    (Hr : hs_recent_approvals s0 = ∅) (Ha : hs_control_socket_answers s0 = ∅)
    (Hrun : handles c stops s0 = Some (rs, s)) (Hst : handle c st s = Some r)
    (Hallow : h_response r = RAllow) (Hstage : replay_stage (h_stage r)) :
  ∃ i e key, zip stops rs !! i = Some e ∧ stop_key st = Some key ∧ operator_approved key e
    ∧ (h_stage r = "approve_replayed" →
       (saturating_duration_since (st_now st) (st_now e.1) < from_secs (hc_approve_replay_seconds c))%Z
       ∧ st_contained_after st = false).
Proof.
  destruct (handles_backed c stops s0 rs s Hr Ha Hrun) as [_ Hb].
  destruct (handle_backed c st s r _ Hb Hst) as [_ Hrep].
  destruct (Hrep Hallow Hstage) as (e & key & [i Hi]%list_elem_of_lookup & Hrest).
  by exists i, e, key.
Qed.

(** ** Refused directories *)

Lemma grants_denied s s' : grants s' = grants s → hs_denied s' = hs_denied s.
Proof. by intros [= _ -> _ _ _]. Qed.

Lemma review_denied c st ctx kill rec s :
  hs_denied s ⊆ hs_denied (h_state (review_concluded process_start_time json_string_array c st ctx kill rec s)).
Proof.
  unfold review_concluded. cbv zeta. intros x Hx.
  repeat case_match; cbn; repeat case_match; cbn; try (apply insert_all_entries_elem; left); exact Hx.
Qed.

Lemma enforce_denied c st ctx d kill rec s : hs_denied s ⊆ hs_denied (h_state (enforce c st ctx d kill rec s)).
Proof.
  destruct (enforce_cases c st ctx d kill rec s) as [->|(_ & -> & _)]; [|reflexivity].
  unfold queue_and_wait. cbv zeta. intros x Hx. repeat case_match; first [exact Hx|by apply review_denied].
Qed.

(** Nothing takes a rule off the denylist. *)
Lemma handle_denied c st s r : handle c st s = Some r → hs_denied s ⊆ hs_denied (h_state r).
Proof.
  intros [(_ & Hg & _)|(t & s' & _ & Hg & ->)]%handle_cases.
  { by rewrite (grants_denied _ _ Hg). }
  rewrite <- (grants_denied _ _ Hg). cbn.
  destruct (evaluated_cases c st (attribute format_dns_candidate_array st t) s')
    as [(_ & _ & Hg')|(kill & ? & ? & d & s2 & _ & Hg2 & _ & _ & ->)].
  - by rewrite (grants_denied _ _ Hg').
  - rewrite <- (grants_denied _ _ Hg2). apply enforce_denied.
Qed.

Lemma handles_denied c stops s rs s' : handles c stops s = Some (rs, s') → hs_denied s ⊆ hs_denied s'.
Proof.
  revert s rs. induction stops as [|st stops IH]; intros s rs; cbn; [by intros [= _ ->]|].
  destruct (handle c st s) as [r|] eqn:E; cbn; [|done].
  destruct (handles c stops (h_state r)) as [[rs1 s1]|] eqn:E1; cbn; [|done].
  intros [= _ <-]. etrans; [by eapply handle_denied|by eapply IH].
Qed.

Lemma session_deny_match_mono t denied denied' :
  denied ⊆ denied' → is_Some (session_deny_match t denied) → is_Some (session_deny_match t denied').
Proof.
  intros Hsub [rule Hr]. destruct (session_deny_match t denied') eqn:E; [done|exfalso].
  assert (session_deny_match t denied = None) as Hn; [|by rewrite Hn in Hr].
  apply deny_match_spec. intros ns targets target dir Hns Ht Hin Hd.
  rewrite deny_match_spec in E. eapply E; eauto.
Qed.

(** The calls a directory rule is about. *)
Lemma deny_match_file t denied : is_Some (session_deny_match t denied) → is_Some (scoped_prefix_namespace t).
Proof.
  intros [rule Hr]. unfold session_deny_match in Hr. destruct denied; [done|].
  destruct (scoped_prefix_namespace t); [done|by cbn in Hr].
Qed.

Lemma file_call_reaches c st s t :
  to_tool_call_type (st_kind st) = Some t → is_Some (scoped_prefix_namespace t) →
  handle c st s = call_phase process_start_time json_string_array format_dns_candidate_array c st t
                    (with_stats (λ x, (tick x).2) s)
  ∧ is_local_call c st t = false ∧ attribute format_dns_candidate_array st t = t.
Proof.
  intros Ht [ns Hns]. unfold handle_syscall_event. cbv zeta. rewrite Ht.
  unfold dns_phase, kind_phase. destruct (st_kind st) eqn:Ek; cbn in Ht; repeat case_match; simplify_eq;
    try discriminate Hns; cbn; by destruct (hc_dns_inspection_enabled c).
Qed.

(** A refusal concluded from a review adds the rules of its block. *)
Lemma refusal_adds_rules c st ctx d kill rec s :
  h_stage (enforce c st ctx d kill rec s) = "denied" → rv_outcome (st_review st) = ODenied →
  refusal_rules st ctx ⊆ hs_denied (h_state (enforce c st ctx d kill rec s)).
Proof.
  intros Hs Ho x Hx. revert Hs.
  assert (Hrev : ∀ s1, x ∈ hs_denied (h_state (review_concluded process_start_time json_string_array c st ctx kill rec s1))).
  { intros s1. unfold review_concluded. cbv zeta. rewrite Ho. cbn [h_state respond].
    destruct (is_control_class_connect ctx); cbn; apply insert_all_entries_elem; by right. }
  unfold enforce_decision, queue_and_wait. cbv zeta.
  repeat match goal with
  | |- context [if ?b then _ else _] => destruct b
  | |- context [match ?a with _ => _ end] => destruct a
  end; first [discriminate | intros _; apply Hrev].
Qed.

(** C1: a directory an operator refused stays refused.  When a review is refused with a
    directory block that validates for the call, then after any further calls of the
    session, every later file call the rules of the block match is denied, at once and
    whatever the allowlist, the decision on it, the replays and the state of
    containment. *)
Theorem refused_directory_stays_refused c st s r ctx request v stops rs s' st2 t2
    (Hst : handle c st s = Some r) (Hctx : stop_context st = Some ctx)
    (Hreview : h_stage r = "denied") (Hfate : h_fate r = Some Denied)
    (Hout : rv_outcome (st_review st) = ODenied)
    (Haction : rv_action (st_review st) ≫= from_storage_value = Some (PScopedDeny request))
    (Hv : validate_scoped_deny request (ToolCallType_display (ctx_call_type ctx)) = Ok v)
    (Hrun : handles c stops (h_state r) = Some (rs, s'))
    (Hk : to_tool_call_type (st_kind st2) = Some t2) (Hm : is_Some (session_deny_match t2 (vd_rules v))) :
  ∃ r2, handle c st2 s' = Some r2 ∧ h_response r2 = RDeny ∧ h_fate r2 = None ∧ grants (h_state r2) = grants s'.
Proof.
  assert (Hrules : vd_rules v ⊆ hs_denied s').
  { etrans; [|by eapply handles_denied]. assert (refusal_rules st ctx = vd_rules v) as <-.
    { unfold refusal_rules. by rewrite Hout, Haction, Hv. }
    apply handle_cases in Hst as [(Hf & _)|(t & s1 & Ht & _ & ->)]; [by rewrite Hf in Hfate|].
    unfold stop_context in Hctx. rewrite Ht in Hctx. injection Hctx as <-.
    destruct (evaluated_cases c st (attribute format_dns_candidate_array st t) s1)
      as [(_ & Hs & _)|(kill & ? & ? & d & s2 & _ & _ & _ & Hs & Hst)]; rewrite Hs in Hreview; [done|].
    rewrite Hst. by apply refusal_adds_rules. }
  destruct (file_call_reaches c st2 s' t2 Hk (deny_match_file _ _ Hm)) as (-> & Hl & Ha).
  unfold call_phase. rewrite Hl, Ha. destruct (is_grith_config_write t2); [by eexists|].
  destruct (session_deny_match_mono t2 _ _ Hrules Hm) as [rule Hrule]. cbn in Hrule |- *. rewrite Hrule. by eexists.
Qed.

(** ** Contained sessions *)

(** What the thread and the records see of a response. *)
Definition verdict (r : Handled) := (h_response r, h_stage r, h_fate r).

(** Two states that differ in the allowlist alone. *)
Definition same_but_allowed (s1 s2 : HandlerState) : Prop := s2 = with_allowed (hs_allowed s2) s1.

Ltac differ := unfold same_but_allowed, with_allowed; intros ->; try reflexivity.

Lemma queued_verdict c st ctx kill rec s1 s2 : same_but_allowed s1 s2 →
  verdict (queued c st ctx kill rec s1) = verdict (queued c st ctx kill rec s2).
Proof.
  differ. unfold queue_and_wait, review_concluded. cbv zeta. cbn.
  repeat case_match; reflexivity.
Qed.

Lemma enforce_verdict c st ctx d kill rec s1 s2 : same_but_allowed s1 s2 →
  verdict (enforce c st ctx d kill rec s1) = verdict (enforce c st ctx d kill rec s2).
Proof.
  intros Hs. pose proof (queued_verdict c st ctx kill rec s1 s2 Hs) as Hq.
  unfold enforce_decision. cbv zeta. repeat case_match; first [exact Hq|reflexivity].
Qed.

Lemma adjust_contained c st ctx scoped approved s1 s2 : st_contained st = true → same_but_allowed s1 s2 →
  let a1 := adjust_decision c st ctx scoped approved s1 in
  let a2 := adjust_decision c st ctx scoped approved s2 in
  a1.1 = a2.1 ∧ same_but_allowed a1.2 a2.2.
Proof.
  intros Hc. differ. unfold adjust_decision. rewrite Hc. cbn.
  repeat case_match; by simplify_eq.
Qed.

Lemma evaluated_contained c st t s1 s2 : st_contained st = true → same_but_allowed s1 s2 →
  is_sensitive_scoped_read_match t (hs_allowed s1) = is_sensitive_scoped_read_match t (hs_allowed s2) →
  verdict (evaluated c st t s1) = verdict (evaluated c st t s2).
Proof.
  intros Hc Hs Hscoped. unfold evaluated_phase, would_enforce, already_user_approved_delegation.
  rewrite Hc, Hscoped. cbn [negb andb].
  destruct (adjust_contained c st (st_context st t) (is_sensitive_scoped_read_match t (hs_allowed s2)) false s1 s2 Hc Hs)
    as [Ha Hs'].
  destruct (adjust_decision _ _ _ _ _ s1) as [a1 s1'], (adjust_decision _ _ _ _ _ s2) as [a2 s2'].
  cbn in Ha, Hs'. subst a2. destruct a1 as [[[kill destruction] escalated] d].
  destruct (supervisor_auto_allow _ _ _ _ _ _ _ _ _); [done|].
  pose proof (enforce_verdict c st (st_context st t) d kill
    (delegation_would_enforce (m_host (st_machine st)) (hc_delegation c) (st_pid st) false t) s1' s2' Hs') as Hv.
  unfold verdict in *. cbn [h_response h_stage h_fate]. injection Hv as -> -> ->. done.
Qed.

(** The phases before the allowlist do not look at it. *)
Lemma dns_verdict c st s1 s2 : same_but_allowed s1 s2 → verdict <$> dns_phase c st s1 = verdict <$> dns_phase c st s2.
Proof. differ. unfold dns_phase. cbv zeta. repeat case_match; reflexivity. Qed.

Lemma kind_verdict c st s1 s2 : same_but_allowed s1 s2 → verdict <$> kind_phase c st s1 = verdict <$> kind_phase c st s2.
Proof. differ. unfold kind_phase. repeat case_match; try reflexivity. by destruct (cross_process_carveout _ _ _). Qed.

Lemma noise_verdict c st t s1 s2 :
  same_but_allowed s1 s2 → verdict <$> noise_phase c st t s1 = verdict <$> noise_phase c st t s2.
Proof. differ. unfold noise_phase. repeat case_match; reflexivity. Qed.

Lemma batch_verdict c st s1 s2 : same_but_allowed s1 s2 →
  let b1 := batch_phase c st s1 in
  let b2 := batch_phase c st s2 in
  verdict <$> b1.1 = verdict <$> b2.1 ∧ same_but_allowed b1.2 b2.2
  ∧ hs_allowed b1.2 = hs_allowed s1 ∧ hs_allowed b2.2 = hs_allowed s2.
Proof.
  differ. unfold batch_phase. cbn. destruct (hc_batch_rapid_reads c), (st_kind st); try done.
  by destruct (should_coalesce _ _ _ _) as [[] ?].
Qed.

(** Two phases with equal verdicts both answer or both pass on. *)
Ltac same_answers H :=
  match type of H with _ <$> ?x = _ <$> ?y => destruct x, y end; cbn in H |- *;
  [exact H|discriminate H|discriminate H|clear H].

(** What the workspace boundary, if there is one, says of a call under an allowlist. *)
Definition outside_workspace c t (allowed : list string) : option (option string) :=
  match hc_workspace_boundary c with
  | Some boundary => workspace_only_block_reason process_start_time json_string_array boundary t allowed
  | None => Some None
  end.

Lemma call_verdict c st t s1 s2 : st_contained st = true → same_but_allowed s1 s2 →
  let t' := attribute format_dns_candidate_array st t in
  outside_workspace c t' (hs_allowed s1) = outside_workspace c t' (hs_allowed s2) →
  (∀ l, l ∈ [hs_allowed s1; hs_allowed s2] →
     is_sensitive_scoped_read_match t' l = false ∧ netconnect_operator_ssh_egress_grant t' l = false) →
  let phase := call_phase process_start_time json_string_array format_dns_candidate_array c st t in
  verdict <$> phase s1 = verdict <$> phase s2.
Proof.
  cbv zeta. intros Hc Hs Hb Hx. set (t' := attribute format_dns_candidate_array st t) in *.
  destruct (Hx (hs_allowed s1)) as [Hr1 Hg1]; [left|]. destruct (Hx (hs_allowed s2)) as [Hr2 Hg2]; [right; left|].
  unfold call_phase. fold t'. cbv zeta.
  destruct (is_grith_config_write t); [by rewrite Hs|]. destruct (is_local_call c st t); [by rewrite Hs|].
  replace (hs_denied s2) with (hs_denied s1) by (by rewrite Hs).
  destruct (session_deny_match t' (hs_denied s1)); [by rewrite Hs|].
  fold (outside_workspace c t' (hs_allowed s1)) (outside_workspace c t' (hs_allowed s2)). rewrite <- Hb.
  destruct (outside_workspace c t' (hs_allowed s1)) as [[outside|]|]; cbn [mbind option_bind];
    [by rewrite Hs| |done].
  pose proof (noise_verdict c st t' s1 s2 Hs) as Hn. same_answers Hn.
  unfold read_only_phase. rewrite Hc, !andb_false_r.
  destruct (batch_verdict c st s1 s2 Hs) as (Hbv & Hs' & Ha1 & Ha2).
  destruct (batch_phase c st s1) as [b1 s1'], (batch_phase c st s2) as [b2 s2']. cbn in Hbv, Hs', Ha1, Ha2.
  same_answers Hbv.
  unfold allowlist_phase. rewrite Hc, Ha1, Ha2, Hg1, Hg2.
  cbn [negb orb mbind option_bind fmap option_fmap option_map]. apply (f_equal Some).
  apply (evaluated_contained c st t' s1' s2'); [done..|by rewrite Ha1, Ha2, Hr1, Hr2].
Qed.

(** C2: In a contained session earlier grants change no response: the handler gives the
    same response, for the same reason, under any two allowlists, for every call that
    (a) the workspace boundary, if one is set, judges the same under both, and that
    under neither allowlist is (b) a read under a scope for sensitive directories or (c)
    a connection to an ssh host the operator approved. These three are the grants that
    containment lets stand. *)
Theorem containment_ignores_grants c st s allowed' (Hc : st_contained st = true)
    (Hexcept : ∀ t, to_tool_call_type (st_kind st) = Some t →
       let t' := attribute format_dns_candidate_array st t in
       outside_workspace c t' (hs_allowed s) = outside_workspace c t' allowed'
       ∧ ∀ l, l ∈ [hs_allowed s; allowed'] →
           is_sensitive_scoped_read_match t' l = false ∧ netconnect_operator_ssh_egress_grant t' l = false) :
  verdict <$> handle c st (with_allowed allowed' s) = verdict <$> handle c st s.
Proof.
  symmetry. unfold handle_syscall_event. cbv zeta.
  set (s1 := with_stats _ s). change (with_stats _ (with_allowed allowed' s)) with (with_allowed allowed' s1).
  assert (Hs : same_but_allowed s1 (with_allowed allowed' s1)) by reflexivity.
  pose proof (dns_verdict c st _ _ Hs) as Hd. same_answers Hd.
  pose proof (kind_verdict c st _ _ Hs) as Hk. same_answers Hk.
  destruct (to_tool_call_type (st_kind st)) as [t|] eqn:Ht; [|done].
  destruct (Hexcept t eq_refl) as [Hb Hx]. by apply (call_verdict c st t _ _ Hc Hs).
Qed.

(** ** Spawns that hand their authority on *)

Lemma spawn_kind st command args : to_tool_call_type (st_kind st) = Some (ProcessSpawn command args) →
  st_kind st = KProcessExec command args.
Proof. destruct (st_kind st); cbn; intros Hk; repeat case_match; by simplify_eq. Qed.

(** A spawn the delegation rules hold is never settled by a short cut. *)
Lemma spawn_evaluated c st s command args r :
  let t := ProcessSpawn command args in
  let s0 := with_stats (λ x, (tick x).2) s in
  st_kind st = KProcessExec command args → ctx_call_type (st_context st t) = t →
  would_enforce c st t s = true → handle c st s = Some r → ∃ s1, grants s1 = grants s ∧ r = evaluated c st t s1.
Proof.
  cbv zeta. intros Hk Hctx He Hr. unfold handle_syscall_event in Hr. cbv zeta in Hr.
  set (s0 := with_stats _ s) in *. unfold dns_phase, kind_phase in Hr. rewrite Hk in Hr. cbn in Hr.
  assert (Hr' : call_phase process_start_time json_string_array format_dns_candidate_array c st
                  (ProcessSpawn command args) s0 = Some r) by (by destruct (hc_dns_inspection_enabled c)).
  clear Hr. unfold call_phase in Hr'. cbv zeta in Hr'. cbn [attribute is_grith_config_write is_local_call] in Hr'.
  assert (Hd : session_deny_match (ProcessSpawn command args) (hs_denied s0) = None)
    by (unfold session_deny_match; by destruct (hs_denied s0)).
  rewrite Hd in Hr'. clear Hd.
  assert (Hw : match hc_workspace_boundary c with
               | Some boundary => workspace_only_block_reason process_start_time json_string_array boundary
                                    (ProcessSpawn command args) (hs_allowed s0)
               | None => Some None end = Some None).
  { destruct (hc_workspace_boundary c); [|done]. unfold workspace_only_block_reason. by destruct (boundary_is_empty _). }
  rewrite Hw in Hr'. cbn [mbind option_bind] in Hr'. clear Hw.
  unfold noise_phase, call_paths, ctx_paths, ctx_path in Hr'. rewrite Hctx in Hr'. cbn [option_list] in Hr'.
  assert (Hro : read_only_phase c st s0 = None)
    by (unfold read_only_phase; rewrite Hk; cbn; by destruct (_ && _)).
  assert (Hb : batch_phase c st s0 = (None, s0))
    by (unfold batch_phase; rewrite Hk; by destruct (hc_batch_rapid_reads c)).
  rewrite Hro, Hb in Hr'. clear Hro Hb. unfold allowlist_phase in Hr'.
  change (would_enforce c st _ s0) with (would_enforce c st (ProcessSpawn command args) s) in Hr'.
  rewrite He in Hr'. cbn [negb] in Hr'. exists s0. split; [done|].
  destruct (negb (st_contained st) || _); [|by injection Hr' as <-].
  destruct (session_allowlist_key _ _) as [key|]; [|by injection Hr' as <-].
  destruct (is_session_allowlist_match _ _ _ _) as [m|]; [|done]. cbn [mbind option_bind] in Hr'.
  rewrite andb_false_r in Hr'. by injection Hr' as <-.
Qed.

(** What the escalations make of the decision on a spawn that would be enforced. *)
Lemma spawn_adjusted c st s command args kill destruction escalated d s' :
  let t := ProcessSpawn command args in
  let h := m_host (st_machine st) in
  ctx_call_type (st_context st t) = t → would_enforce c st t s = true → host_ok h →
  ¬ permitted_by_target h (hc_delegation c) command → ¬ unreadable_delegator h command →
  adjust_decision c st (st_context st t) false false s = (kill, destruction, escalated, d, s') →
  pd_action d ≠ Allow
  ∧ kill = kills (escalate_delegation h (hc_delegation c) false false t (st_decision st (st_context st t))).
Proof.
  cbv zeta. intros Hctx He Hh Hp Hu Ha. unfold adjust_decision in Ha. rewrite Hctx in Ha.
  set (t := ProcessSpawn command args) in *. set (d0 := st_decision st (st_context st t)) in *.
  assert (Hd0 : honour_scoped_read false d0 = d0) by (unfold honour_scoped_read; by destruct (pd_action d0)).
  rewrite Hd0 in Ha.
  assert (Hm : (if hc_mass_destruction_enabled c
    then maybe_escalate (hc_home c) (hc_roots c) t (st_now st) d0 (hs_destruction s)
    else (None, d0, hs_destruction s)) = (None, d0, hs_destruction s))
    by (by destruct (hc_mass_destruction_enabled c)).
  rewrite Hm in Ha. cbn [escalate_delegation t] in Ha |- *.
  unfold would_enforce, delegation_would_enforce in He. apply andb_prop in He as [Hna He].
  destruct (escalate_spawn _ _ false command args d0) as [[k e] d'] eqn:Ee. injection Ha as <- _ _ <- _.
  split; [|done]. intros Hal.
  destruct (escalation_only_tightens (m_host (st_machine st)) (hc_delegation c) false false t d0) as (_ & _ & _ & Hact & Hwas).
  unfold escalate_delegation, t, after, rewritten in Hact, Hwas. rewrite Ee in Hact, Hwas. cbn in Hact, Hwas.
  rewrite Hal in Hact. destruct e; [done|].
  destruct (gate_agrees (m_host (st_machine st)) (hc_delegation c) (st_pid st) false command args d0 Hh (eq_sym Hact))
    as [_ Hg].
  unfold rewritten, escalate_delegation in Hg. rewrite Ee in Hg. by destruct Hg as [?|[?|?]].
Qed.

(** C3: What the handler answers to a spawn that hands its authority on. Take a spawn,
    evaluated in its own context, that the delegation rules hold at this stop
    (would_enforce: they are on, and no approval of it is remembered), on a machine
    whose stat gives the size of every file that can be read, whose command is not a
    delegating name with a permitted canonical path (permitted_by_target), nor a link to
    a delegating program that cannot be read (unreadable_delegator). Whatever the
    allowlist, the reputation, the decision and the recent calls, the answer is allow
    only by an approval or a scope granted during the review, by the replay of a recent
    approval, because the program does not exist, or where queued calls are only logged;
    every other answer is a refusal, and it is the answer that kills exactly when the
    escalation says so: for a delegating program, found by name or by the hash of its
    content, or a login to this machine. A refusal that does not kill has no effect at
    the stop of an exec, where the new image is already loaded; the finding on denied
    spawns is about that. *)
Theorem delegating_spawn_reviewed c st s command args r
    (Hk : st_kind st = KProcessExec command args)
    (Hctx : ctx_call_type (st_context st (ProcessSpawn command args)) = ProcessSpawn command args)
    (He : would_enforce c st (ProcessSpawn command args) s = true)
    (Hh : host_ok (m_host (st_machine st)))
    (Hp : ¬ permitted_by_target (m_host (st_machine st)) (hc_delegation c) command)
    (Hu : ¬ unreadable_delegator (m_host (st_machine st)) command)
    (Hr : handle c st s = Some r) :
  (h_response r = RAllow ∧
   (rv_outcome (st_review st) = OApproved ∧ h_stage r ∈ ["approved"; "scope_drain_resolved"]
    ∨ h_stage r = "approve_replayed"
    ∨ h_stage r = "suppressed_failed_exec" ∧ exec_path_clearly_missing (m_host (st_machine st)) command = true
    ∨ h_stage r = "auto-allow-log" ∧ hc_interactive_queue_action c = QueueLog))
  ∨ h_response r = deny_or_kill (kills (escalate_delegation (m_host (st_machine st)) (hc_delegation c) false false
      (ProcessSpawn command args) (st_decision st (st_context st (ProcessSpawn command args))))).
Proof.
  destruct (spawn_evaluated c st s command args r Hk Hctx He Hr) as (s1 & Hg & ->).
  set (t := ProcessSpawn command args) in *.
  assert (He1 : would_enforce c st t s1 = true).
  { revert He. unfold would_enforce, already_user_approved_delegation. by injection Hg as -> _ _ _ _. }
  assert (Hap : already_user_approved_delegation st t s1 = false).
  { unfold would_enforce, delegation_would_enforce in He1. apply andb_prop in He1 as [Hn _]. by apply negb_true_iff. }
  destruct (adjust_decision c st (st_context st t) false false s1) as [[[[kill destruction] escalated] d] s2] eqn:Ea.
  destruct (spawn_adjusted c st s1 command args kill destruction escalated d s2 Hctx He1 Hh Hp Hu Ea) as [Hd Hkill].
  fold t in Hkill. rewrite <- Hkill. unfold evaluated_phase. rewrite Hap, He1.
  change (is_sensitive_scoped_read_match t (hs_allowed s1)) with false. rewrite Ea.
  unfold supervisor_auto_allow. rewrite !andb_false_r. cbn [andb].
  cbn [h_response h_stage]. clear Ea.
  unfold enforce_decision. rewrite Hctx. cbv zeta. unfold t.
  destruct (pd_action d); [done| |by right].
  destruct (exec_path_clearly_missing _ command) eqn:Em; [left; cbn; auto 10|].
  assert (Hq : let q := queued c st (st_context st t) kill true s2 in
    h_response q = RAllow ∧ (rv_outcome (st_review st) = OApproved ∧ h_stage q ∈ ["approved"; "scope_drain_resolved"]
      ∨ h_stage q = "approve_replayed") ∨ h_response q = deny_or_kill kill).
  { cbv zeta. unfold queue_and_wait, review_concluded. cbv zeta.
    assert (Hcc : is_control_class_connect (st_context st t) = false) by (unfold is_control_class_connect; by rewrite Hctx).
    rewrite Hcc. repeat case_match; cbn; first [by right | left; split; [done|]; first [by right | left; set_solver]]. }
  cbv zeta in Hq. fold t.
  destruct (hc_interactive_queue_action c); [| |by right]; [by naive_solver|].
  destruct (contamination_signalled d); [by naive_solver|]. left. cbn. auto 10.
Qed.

End Proofs.

(** ** A concrete session *)

Section Example_session.
#[local] Existing Instance concrete_deps.
#[local] Existing Instance ascii_unicode.
#[local] Existing Instance plain_filesystem.
#[local] Instance text_hash : Sha256 := λ s, s.
#[local] Instance one_block : ActionJson := {|
  action_to_json _ := "{}";
  action_from_json t := if String.eqb t "{}" then Some (PScopedDeny block_writes) else None |}.

Definition bracketed (l : list string) : string := "[]".

Definition session_config_in (boundary : option WorkspaceBoundary) : HandlerConfig := {|
  hc_dns_inspection_enabled := true;
  hc_coverage := {| category1_hard_deny := true; category2_proxy := true; category2_crossprocess := true;
                    category3_namespace := true; category4_arch_priv := true; deny_self_seccomp_notify := true |};
  hc_namespace_users := []; hc_routine_exec_roots := ["/usr/bin"];
  hc_delegation := example_config; hc_workspace_boundary := boundary; hc_pty_ownership_enforce := true;
  hc_ignore_read_only := true; hc_batch_rapid_reads := true; hc_batch_window := 50000000%Z;
  hc_local_listener_policy := []; hc_mass_destruction_enabled := true; hc_home := Some "/home/u";
  hc_roots := {| working_root := Some "/home/u/proj"; workspace_roots := []; routine_roots := []; scratch_roots := [] |};
  hc_daemon_proxy := false; hc_reputation_config := ReputationConfig_default; hc_scope_name := "tool";
  hc_interactive_queue_action := QueueFreeze; hc_deny_replay_seconds := 20%Z; hc_approve_replay_seconds := 20%Z;
  hc_unattended_review_streak := 3%Z; hc_unattended_review_timeout_seconds := 30%Z |}.
Definition session_config : HandlerConfig := session_config_in None.
Definition project_config : HandlerConfig := session_config_in (Some (WorkspaceBoundary_new ["/home/u/proj"])).

Definition session_start : HandlerState := {|
  hs_stats := SessionStats_default; hs_recent_denials := ∅; hs_recent_approvals := ∅;
  hs_control_socket_answers := ∅; hs_allowed := []; hs_denied := []; hs_batch := ∅; hs_unanswered := 0%Z;
  hs_destruction := MassDestructionTracker_with_defaults |}.

Definition queue_high : ProxyDecision := {|
  pd_action := Queue High; pd_composite_score := f64_of_Z 6; pd_filter_results := [];
  pd_evaluation_time := 0%Z; pd_decision_reason := "" |}.

(** A stop of process 7 at a second, its review answered with an outcome and an action. *)
Definition stop_on (h : Host) (second : Z) (contained : bool) (kind : SyscallKind) (d : ProxyDecision)
    (outcome : ReviewOutcome) (action : option string) : Stop := {|
  st_kind := kind; st_pid := 7%Z; st_tid := 7%Z; st_now := from_secs second;
  st_machine := {| m_host := h; m_link _ := None; m_exists _ := true; m_own_pid := 1%Z |};
  st_tcp_dns_deny := false; st_dns_query := None; st_dns_allowed _ _ := false;
  st_supervised_pids := [7%Z]; st_yama_ptrace_scope := Some 1%Z; st_own_pts := None;
  st_resolution := NotAnIp ""; st_contained := contained;
  st_context t := ToolCallContext_new uuid_a 0%Z "supervisor:tool" t uuid_b;
  st_decision _ := d; st_clamp_fails := false; st_reputation := ∅; st_contained_after := contained;
  st_review := {| rv_outcome := outcome; rv_action := action; rv_scope := None; rv_drained := false;
                  rv_sent_back := false |};
  st_trusted_ssh := false |}.
Definition stop_at := stop_on example_host.

(** A machine on which every program exists and has the same content. *)
Definition full_host : Host := {|
  h_canonicalize p := Some p; h_metadata _ := Some (4%N, true); h_read _ := Some "ELF0";
  h_proc_exe _ := None; h_proc_cmdline _ := None; h_env _ := None |}.

Notation handle_ex := (handle_syscall_event start_5 two_hosts bracketed).
Notation handle_all_ex := (handle_all start_5 two_hosts bracketed).

(** A bus call has no entry of the allowlist: the operator approves it, and three seconds
    later the same call is answered by the replay, though this time it would be denied. *)
Definition bus_call : SyscallKind :=
  KDbusMethodCall "/run/bus" (Some "org.a") (Some "org.a.B") (Some "Run") None.
Definition first_call : Stop := stop_at 10 false bus_call queue_high OApproved (Some "approve").
Definition second_call : Stop := stop_at 13 false bus_call queue_high ODenied None.

Definition run (stops : list Stop) : list Handled * HandlerState :=
  default ([], session_start) (handle_all_ex session_config stops session_start).
Definition answer (st : Stop) (s : HandlerState) : Handled :=
  default (deny_now "" s) (handle_ex session_config st s).

(** The block of a directory is the answer to the write of a file in it. *)
Definition refused_write : Stop :=
  stop_at 10 false (KFileOpen "/home/u/other/x" WriteOnly) queue_high ODenied (Some "{}").
Definition allowed_write : Stop :=
  stop_at 90 false (KFileOpen "/home/u/proj/y" WriteOnly) DelegationProofs.allowed ODenied None.
Definition later_delete : Stop :=
  stop_at 100 false (KFileDelete "/home/u/other/d/z") DelegationProofs.allowed OApproved None.

(** A pinned copy of a delegating program, denied; and a program that injects input,
    denied as well: the one is killed, the other is answered by an error at a point where
    its new image already runs. *)
Definition copied_spawn : Stop :=
  stop_at 10 false (KProcessExec "/tmp/build-helper" ["build-helper"; "sh"]) DelegationProofs.allowed ODenied None.
Definition injecting_spawn : Stop :=
  stop_on full_host 10 false (KProcessExec "/usr/bin/xdotool" ["xdotool"; "key"; "a"]) DelegationProofs.allowed ODenied None.

(** A program that runs without a file any more is taken for one that does not exist. *)
Definition deleted_spawn : Stop :=
  stop_at 10 false (KProcessExec "/memfd:x (deleted)" ["x"]) queue_high ODenied None.

Example denied_spawns :
  h_response (answer copied_spawn session_start) = RKill
  ∧ h_response (answer injecting_spawn session_start) = RDeny
  ∧ (h_response (answer deleted_spawn session_start), h_stage (answer deleted_spawn session_start))
    = (RAllow, "suppressed_failed_exec").
Proof. repeat split; vm_compute; reflexivity. Qed.

(** *** Witnesses *)

Lemma replays_are_the_operators_witness :
  h_stage (answer second_call (run [first_call]).2) = "approve_replayed"
  ∧ ∃ i e key, zip [first_call] (run [first_call]).1 !! i = Some e
      ∧ stop_key bracketed second_call = Some key ∧ operator_approved bracketed key e.
Proof.
  assert (Hs : h_stage (answer second_call (run [first_call]).2) = "approve_replayed") by (vm_compute; reflexivity).
  split; [exact Hs|].
  destruct (replays_are_the_operators start_5 two_hosts bracketed session_config [first_call] session_start
    (run [first_call]).1 (run [first_call]).2 second_call (answer second_call (run [first_call]).2)
    eq_refl eq_refl) as (i & e & key & Hi & Hk & Ho & _).
  - vm_compute. reflexivity.
  - vm_compute. reflexivity.
  - vm_compute. reflexivity.
  - left. exact Hs.
  - by exists i, e, key.
Defined.

Lemma refused_directory_stays_refused_witness :
  ∃ r2, handle_ex session_config later_delete (run [refused_write; allowed_write]).2 = Some r2
    ∧ h_response r2 = RDeny.
Proof.
  destruct (refused_directory_stays_refused start_5 two_hosts bracketed session_config refused_write session_start
    (answer refused_write session_start)
    (ToolCallContext_new uuid_a 0%Z "supervisor:tool" (FileWrite "/home/u/other/x" (compute_path_hash "/home/u/other/x")) uuid_b)
    block_writes
    {| vd_directory := "/home/u/other/"; vd_rules := ["deny-write-prefix:/home/u/other/"; "deny-delete-prefix:/home/u/other/"];
       vd_warning := None |} [allowed_write]
    (default ([], session_start) (handle_all_ex session_config [allowed_write] (h_state (answer refused_write session_start)))).1
    (run [refused_write; allowed_write]).2 later_delete (FileDelete "/home/u/other/d/z"))
    as (r2 & Hr2 & Hd & _); [vm_compute; first [reflexivity | by eexists]..|by exists r2].
Defined.

Lemma containment_ignores_grants_witness :
  verdict <$> handle_ex project_config (stop_at 10 true (KFileDelete "/home/u/proj/x") queue_high ODenied None)
    (with_allowed ["/home/u/proj/x"; "write-prefix:/home/u/"] session_start)
  = verdict <$> handle_ex project_config (stop_at 10 true (KFileDelete "/home/u/proj/x") queue_high ODenied None)
    session_start.
Proof.
  apply (containment_ignores_grants start_5 two_hosts bracketed project_config
    (stop_at 10 true (KFileDelete "/home/u/proj/x") queue_high ODenied None) session_start
    ["/home/u/proj/x"; "write-prefix:/home/u/"]); [reflexivity|].
  intros t [= <-]. split; [vm_compute; reflexivity|]. intros l _. by split.
Defined.

Lemma delegating_spawn_reviewed_witness : h_response (answer copied_spawn session_start) = RKill.
Proof.
  destruct (delegating_spawn_reviewed start_5 two_hosts bracketed session_config copied_spawn session_start
    "/tmp/build-helper" ["build-helper"; "sh"] (answer copied_spawn session_start)) as [[Ha _]|Hd].
  - reflexivity.
  - reflexivity.
  - vm_compute. reflexivity.
  - exact example_host_ok.
  - intros [Hn _]. vm_compute in Hn. discriminate Hn.
  - intros (_ & p & Hp & Hn & _). vm_compute in Hp. injection Hp as Hp. subst p. vm_compute in Hn. discriminate Hn.
  - vm_compute. reflexivity.
  - vm_compute in Ha. discriminate Ha.
  - rewrite Hd. vm_compute. reflexivity.
Defined.

End Example_session.
