(* ===== verification/Behavioural.v ===== *)
(** The behavioural and capability filters
    (src/crates/grith-proxy/src/filters/behavioural.rs, capability.rs).

    The behavioural filter keeps the last thousand calls of each session and scores a
    call of an authority-changing category by its share of them; the capability filter
    checks a plugin's grants.  The first is shown to answer as the complete history of
    the session would, the second to pass exactly the granted calls. *)
From Stdlib Require Import Ascii String ZArith Lia.
From stdpp Require Import base strings list option gmap.
From S2P Require Import Prelude Concrete F64 Types Scoring SessionState Filters.

#[local] Open Scope string_scope.
#[local] Open Scope list_scope.

Section Behavioural.
Context `{D : Deps}.

(** ** State and configuration *)

Record CallRecord := { cr_call_type : string; cr_timestamp : DateTime }.

Definition MAX_HISTORY_SIZE : nat := 1000.

Definition ANOMALY_SCORED_CATEGORIES : list string :=
  ["ownership_change"; "filesystem_mutation"; "cross_process_access"; "namespace_op"; "dbus_method_call"].

Definition is_anomaly_scored_category (category : string) : bool := str_mem category ANOMALY_SCORED_CATEGORIES.

Record BehaviouralConfig := {
  min_calls_for_baseline : nat;
  bc_mild_deviation_score : f64;
  bc_significant_deviation_score : f64;
}.

Definition BehaviouralConfig_default : BehaviouralConfig := {|
  min_calls_for_baseline := 200; bc_mild_deviation_score := f64_of_Z 1;
  bc_significant_deviation_score := f64_of_Z 3 |}.

(** The fields but the histories, which are the state. *)
Record BehaviouralFilter := {
  min_calls_for_profiling : nat;
  mild_deviation_score : f64;
  significant_deviation_score : f64;
  max_history_size : nat;
}.

Abbreviation Histories := (gmap SessionScopeKey (list CallRecord)).

Definition from_config (cfg : BehaviouralConfig) : BehaviouralFilter := {|
  min_calls_for_profiling := min_calls_for_baseline cfg;
  mild_deviation_score := bc_mild_deviation_score cfg;
  significant_deviation_score := bc_significant_deviation_score cfg;
  max_history_size := MAX_HISTORY_SIZE |}.

Definition BehaviouralFilter_new (min_calls : nat) : BehaviouralFilter :=
  from_config {| min_calls_for_baseline := min_calls;
                 bc_mild_deviation_score := bc_mild_deviation_score BehaviouralConfig_default;
                 bc_significant_deviation_score := bc_significant_deviation_score BehaviouralConfig_default |}.

Definition behavioural_defaults : BehaviouralFilter := from_config BehaviouralConfig_default.

(** ** Operations *)

Definition is_profiling_ready (f : BehaviouralFilter) (h : Histories) : bool :=
  existsb (λ e, min_calls_for_profiling f <=? length e.2)%nat (map_to_list h).

Definition is_profiling_ready_for (f : BehaviouralFilter) (scope : SessionScopeKey) (h : Histories) : bool :=
  match h !! scope with Some v => (min_calls_for_profiling f <=? length v)%nat | None => false end.

Definition call_count (h : Histories) : nat := sum_list_with (λ e, length e.2) (map_to_list h).

Definition call_count_for (scope : SessionScopeKey) (h : Histories) : nat :=
  match h !! scope with Some v => length v | None => 0 end.

Definition call_category (t : ToolCallType) : string :=
  match t with
  | FileRead _ => "file_read" | FileWrite _ _ => "file_write" | FileAppend _ => "file_append"
  | FileDelete _ => "file_delete" | DirList _ => "dir_list" | ShellExec _ _ => "shell_exec"
  | HttpRequest _ _ => "http_request" | FileRename _ _ => "file_rename" | FileLink _ _ _ => "file_link"
  | FileChmod _ _ => "file_chmod" | DirCreate _ => "dir_create" | NetConnect _ _ => "net_connect"
  | NetListen _ _ => "net_listen" | ProcessSpawn _ _ => "process_spawn" | DnsQuery _ _ => "dns_query"
  | OwnershipChange _ _ _ => "ownership_change" | FilesystemMutation _ _ _ _ => "filesystem_mutation"
  | CrossProcessAccess _ _ => "cross_process_access" | NamespaceOp _ _ => "namespace_op"
  | DbusMethodCall _ _ _ _ => "dbus_method_call"
  end.

(** The share of each category. *)
Definition count_record (counts : gmap string Z) (r : CallRecord) : gmap string Z :=
  <[cr_call_type r := (default 0 (counts !! cr_call_type r) + 1)%Z]> counts.

Definition compute_baseline (history : list CallRecord) : gmap string f64 :=
  let total := f64_of_Z (Z.of_nat (length history)) in
  if f64_eq total f64_zero then ∅
  else (λ v, f64_div (f64_of_Z v) total) <$> fold_left count_record history ∅.

Definition percent (x : f64) : string := f64_fmt1 (f64_mul x (f64_of_Z 100)).

(** The result for a share, against a baseline of [n] calls. *)
Definition score_share (f : BehaviouralFilter) (category : string) (n : nat) (p : f64) : FilterResult :=
  if f64_eq p f64_zero then
    matched "behavioural" "unseen-call-type" (significant_deviation_score f) SevWarning
      ("Call type '" +:+ category +:+ "' never observed in baseline of " +:+ fmt_Z (Z.of_nat n) +:+ " calls")
  else if f64_lt p (f64_dec 2 2) then
    matched "behavioural" "rare-call-type" (f64_of_Z 2) SevWarning
      ("Call type '" +:+ category +:+ "' is rare (" +:+ percent p +:+ "% of baseline)")
  else if f64_lt p (f64_dec 5 2) then
    matched "behavioural" "uncommon-call-type" (mild_deviation_score f) SevNotice
      ("Call type '" +:+ category +:+ "' is uncommon (" +:+ percent p +:+ "% of baseline)")
  else no_match "behavioural".

(** The history of the session with the call, the oldest entries cut off. *)
Definition record_call (f : BehaviouralFilter) (r : CallRecord) (history : list CallRecord) : list CallRecord :=
  let entry := history ++ [r] in
  if (max_history_size f <? length entry)%nat then drop (length entry - max_history_size f) entry else entry.

(** [None] is the panic of a history without the call, which a limit of zero leaves. *)
Definition behavioural_evaluate (f : BehaviouralFilter) (ctx : ToolCallContext) (h : Histories) :
    option FilterResult * Histories :=
  let category := call_category (ctx_call_type ctx) in
  let scope := scope_or_warn ctx in
  let h := <[scope := record_call f {| cr_call_type := category; cr_timestamp := ctx_timestamp ctx |}
                        (default [] (h !! scope))]> h in
  if negb (is_anomaly_scored_category category) then (Some (no_match "behavioural"), h)
  else
    match h !! scope with
    | None => (Some (no_match "behavioural"), h)
    | Some session_history =>
        if (length session_history <? min_calls_for_profiling f)%nat then (Some (no_match "behavioural"), h)
        else if bool_decide (session_history = []) then (None, h)
        else
          let baseline_history := take (length session_history - 1) session_history in
          let p := default f64_zero (compute_baseline baseline_history !! category) in
          (Some (score_share f category (length baseline_history) p), h)
    end.

Definition behavioural_evict (scope : SessionScopeKey) (h : Histories) : nat * Histories :=
  (match h !! scope with Some v => length v | None => 0 end, delete scope h).

(** The filter as the engine sees it. *)
Definition behavioural_filter {FS} (f : BehaviouralFilter) (get : FS → Histories) (set : Histories → FS → FS) :
    SecurityFilter FS :=
  let put (h : Histories) (w : World FS) : World FS :=
    {| w_filters := set h (w_filters w); w_sessions := w_sessions w; w_tick := w_tick w |} in
  {| sf_name := "behavioural"; sf_phase := Context_; sf_is_ready _ := true;
     sf_evaluate ctx w :=
       let '(r, h) := behavioural_evaluate f ctx (get (w_filters w)) in (r, put h w);
     sf_evict_session_state scope w :=
       let '(n, h) := behavioural_evict scope (get (w_filters w)) in (n, put h w);
     sf_observe_outcome _ _ _ w := w |}.

(** ** Capabilities *)

Record CapabilityGrant := { cg_plugin : string; cg_capabilities : list string }.

Record CapabilityFilter := { cf_grants : gmap string (gset string); cf_config_error : option string }.

Definition add_grant (m : gmap string (gset string)) (g : CapabilityGrant) : gmap string (gset string) :=
  <[cg_plugin g := default ∅ (m !! cg_plugin g) ∪ list_to_set (cg_capabilities g)]> m.

Definition CapabilityFilter_new (grants : list CapabilityGrant) : CapabilityFilter :=
  {| cf_grants := fold_left add_grant grants ∅; cf_config_error := None |}.

Definition fail_closed (error : string) : CapabilityFilter :=
  {| cf_grants := ∅; cf_config_error := Some error |}.

Definition required_capability (t : ToolCallType) : string :=
  match t with
  | FileRead _ => "fs:read"
  | FileWrite _ _ | FileAppend _ | FileRename _ _ | FileLink _ _ _ | FileChmod _ _ | DirCreate _ => "fs:write"
  | FileDelete _ => "fs:delete"
  | DirList _ => "fs:list"
  | ShellExec _ _ | ProcessSpawn _ _ => "shell:exec"
  | HttpRequest _ _ => "net:http"
  | NetConnect _ _ | DnsQuery _ _ => "net:connect"
  | NetListen _ _ => "net:listen"
  | OwnershipChange _ _ _ => "fs:ownership"
  | FilesystemMutation _ _ _ _ => "fs:mount"
  | CrossProcessAccess _ _ => "process:ptrace"
  | NamespaceOp _ _ => "process:namespace"
  | DbusMethodCall _ _ _ _ => "ipc:dbus"
  end.

Definition capability_evaluate (f : CapabilityFilter) (ctx : ToolCallContext) : FilterResult :=
  let required := required_capability (ctx_call_type ctx) in
  if bool_decide (cf_grants f = ∅) then
    match cf_config_error f with
    | Some err =>
        matched "capability" "config-error" (f64_of_Z 10) SevCritical
          ("Capability configuration invalid; denying until fixed: " +:+ err)
    | None => no_match "capability"
    end
  else
    match cf_grants f !! ctx_plugin_id ctx with
    | Some caps =>
        if bool_decide (required ∈ caps) || bool_decide ("*" ∈ caps) then no_match "capability"
        else matched "capability" "missing-capability" (f64_of_Z 10) SevCritical
               ("Plugin '" +:+ ctx_plugin_id ctx +:+ "' lacks capability '" +:+ required +:+ "'")
    | None =>
        matched "capability" "unknown-plugin" (f64_of_Z 10) SevCritical
          ("Plugin '" +:+ ctx_plugin_id ctx +:+ "' has no capability grants")
    end.

Definition capability_filter {FS} (f : CapabilityFilter) : SecurityFilter FS :=
  {| sf_name := "capability"; sf_phase := Static; sf_is_ready _ := true;
     sf_evaluate ctx w := (Some (capability_evaluate f ctx), w);
     sf_evict_session_state _ w := (0, w); sf_observe_outcome _ _ _ w := w |}.

(** ** The reference: the complete history *)

Inductive event := Called (ctx : ToolCallContext) | Ended (scope : SessionScopeKey).

Definition apply_event (f : BehaviouralFilter) (h : Histories) (e : event) : Histories :=
  match e with
  | Called ctx => (behavioural_evaluate f ctx h).2
  | Ended scope => (behavioural_evict scope h).2
  end.

(** The categories a session has called since it last ended, oldest first. *)
Definition past_step (scope : SessionScopeKey) (past : list string) (e : event) : list string :=
  match e with
  | Called ctx => if decide (scope_or_warn ctx = scope) then past ++ [call_category (ctx_call_type ctx)] else past
  | Ended scope' => if decide (scope' = scope) then [] else past
  end.
Definition past_calls (scope : SessionScopeKey) (events : list event) : list string :=
  fold_left (past_step scope) events [].

Definition last_n {A} (n : nat) (l : list A) : list A := drop (length l - n) l.

Definition occurrences (category : string) (l : list string) : Z :=
  Z.of_nat (length (List.filter (String.eqb category) l)).

(** What the filter should answer: the share of the category among the last 999 earlier
    calls of the session. *)
Definition reference_answer (f : BehaviouralFilter) (ctx : ToolCallContext) (past : list string) : FilterResult :=
  let category := call_category (ctx_call_type ctx) in
  let base := last_n (MAX_HISTORY_SIZE - 1)%nat past in
  if negb (is_anomaly_scored_category category) || (S (length base) <? min_calls_for_profiling f)%nat
  then no_match "behavioural"
  else score_share f category (length base)
         (if (occurrences category base =? 0)%Z then f64_zero
          else f64_div (f64_of_Z (occurrences category base)) (f64_of_Z (Z.of_nat (length base)))).

Lemma last_n_length {A} n (l : list A) : (length (last_n n l) ≤ n)%nat.
Proof. unfold last_n. rewrite length_drop. lia. Qed.

Lemma last_n_map {A B} (g : A → B) n l : last_n n (map g l) = map g (last_n n l).
Proof. unfold last_n. by rewrite length_map, skipn_map. Qed.

Lemma last_n_snoc {A} n (l : list A) x : n ≠ 0%nat → last_n n (l ++ [x]) = last_n (n - 1)%nat l ++ [x].
Proof.
  intros Hn. unfold last_n. rewrite length_app. cbn.
  rewrite drop_app_le by lia. do 2 f_equal. lia.
Qed.

Lemma last_n_idemp {A} n m (l : list A) : (n ≤ m)%nat → last_n n (last_n m l) = last_n n l.
Proof. intros Hn. unfold last_n. rewrite drop_drop, length_drop. f_equal. lia. Qed.

(** The recorded categories are the last thousand of the past. *)
Definition tracks (events : list event) (h : Histories) : Prop :=
  ∀ scope, map cr_call_type (default [] (h !! scope)) = last_n MAX_HISTORY_SIZE (past_calls scope events).

Lemma record_call_last cfg r h : record_call (from_config cfg) r h = last_n MAX_HISTORY_SIZE (h ++ [r]).
Proof.
  unfold record_call, last_n. cbn [max_history_size from_config]. cbv zeta.
  destruct (Nat.ltb_spec MAX_HISTORY_SIZE (length (h ++ [r]))); [done|].
  by replace (length (h ++ [r]) - MAX_HISTORY_SIZE) with 0%nat by lia.
Qed.

Lemma evaluate_state f ctx h :
  (behavioural_evaluate f ctx h).2
  = <[scope_or_warn ctx := record_call f {| cr_call_type := call_category (ctx_call_type ctx);
                                            cr_timestamp := ctx_timestamp ctx |}
                             (default [] (h !! scope_or_warn ctx))]> h.
Proof. unfold behavioural_evaluate. cbv zeta. repeat case_match; reflexivity. Qed.

Lemma recorded_window cfg ctx events h : tracks events h →
  map cr_call_type (record_call (from_config cfg)
    {| cr_call_type := call_category (ctx_call_type ctx); cr_timestamp := ctx_timestamp ctx |}
    (default [] (h !! scope_or_warn ctx)))
  = last_n (MAX_HISTORY_SIZE - 1)%nat (past_calls (scope_or_warn ctx) events) ++ [call_category (ctx_call_type ctx)].
Proof.
  intros Ht. rewrite record_call_last, <- last_n_map, map_app, Ht. cbn [map cr_call_type].
  rewrite last_n_snoc by done. by rewrite last_n_idemp by (unfold MAX_HISTORY_SIZE; lia).
Qed.

Lemma past_calls_snoc scope events e : past_calls scope (events ++ [e]) = past_step scope (past_calls scope events) e.
Proof. unfold past_calls. by rewrite fold_left_app. Qed.

Lemma history_tracks cfg events : tracks events (fold_left (apply_event (from_config cfg)) events ∅).
Proof.
  induction events as [|e events IH] using rev_ind; intros scope; [reflexivity|].
  rewrite fold_left_app, past_calls_snoc. cbn [fold_left]. set (h := fold_left _ events ∅) in *.
  destruct e as [ctx|scope']; cbn [apply_event past_step].
  - rewrite evaluate_state. destruct (decide (scope_or_warn ctx = scope)) as [<-|Hne].
    + rewrite lookup_insert_eq. cbn [default from_option id].
      rewrite (recorded_window cfg ctx events h IH). by rewrite last_n_snoc by done.
    + by rewrite lookup_insert_ne.
  - cbn [behavioural_evict snd]. destruct (decide (scope' = scope)) as [->|Hne].
    + by rewrite lookup_delete_eq.
    + by rewrite lookup_delete_ne.
Qed.

(** Counting through the map of counts. *)
Lemma counts_lookup category history m :
  fold_left count_record history m !! category
  = (if (occurrences category (map cr_call_type history) =? 0)%Z then m !! category
     else Some (default 0 (m !! category) + occurrences category (map cr_call_type history))%Z).
Proof.
  revert m. induction history as [|r history IH]; intros m; [done|]. cbn [fold_left map].
  rewrite IH. unfold count_record, occurrences. cbn [List.filter].
  destruct (String.eqb_spec category (cr_call_type r)) as [->|Hne].
  - rewrite lookup_insert_eq. cbn [default from_option id length].
    destruct (Z.eqb_spec (Z.of_nat (length (List.filter (String.eqb (cr_call_type r)) (map cr_call_type history)))) 0).
    + destruct (Z.eqb_spec (Z.of_nat (S (length (List.filter (String.eqb (cr_call_type r)) (map cr_call_type history))))) 0);
        [lia|]. f_equal. lia.
    + destruct (Z.eqb_spec (Z.of_nat (S (length (List.filter (String.eqb (cr_call_type r)) (map cr_call_type history))))) 0);
        [lia|]. f_equal. lia.
  - by rewrite lookup_insert_ne by done.
Qed.

Lemma small_total_nonzero n : (0 < n)%nat → (n < MAX_HISTORY_SIZE)%nat → f64_eq (f64_of_Z (Z.of_nat n)) f64_zero = false.
Proof.
  intros H0 H1.
  assert (Hall : forallb (λ n, negb (f64_eq (f64_of_Z (Z.of_nat n)) f64_zero)) (seq 1 MAX_HISTORY_SIZE) = true)
    by (vm_compute; reflexivity).
  rewrite forallb_forall in Hall. apply negb_true_iff, Hall, in_seq. lia.
Qed.

Lemma baseline_share history category : (length history < MAX_HISTORY_SIZE)%nat →
  default f64_zero (compute_baseline history !! category)
  = (let base := map cr_call_type history in
     if (occurrences category base =? 0)%Z then f64_zero
     else f64_div (f64_of_Z (occurrences category base)) (f64_of_Z (Z.of_nat (length base)))).
Proof.
  intros Hl. unfold compute_baseline. cbv zeta. rewrite length_map. destruct history as [|r history]; [done|].
  rewrite small_total_nonzero by (cbn in *; lia). rewrite lookup_fmap, counts_lookup, lookup_empty.
  by destruct (occurrences category (map cr_call_type (r :: history)) =? 0)%Z.
Qed.

(** C39: the window of each session answers as its complete history.  After any calls of
    any sessions and any ends of sessions, the answer to a call is the one the share of
    its category among the last 999 earlier calls of the same session gives, of those
    since the session last ended; other sessions do not matter. *)
Theorem behavioural_refines_history cfg events ctx :
  (behavioural_evaluate (from_config cfg) ctx (fold_left (apply_event (from_config cfg)) events ∅)).1
  = Some (reference_answer (from_config cfg) ctx (past_calls (scope_or_warn ctx) events)).
Proof.
  set (h := fold_left _ events ∅). pose proof (recorded_window cfg ctx events h (history_tracks cfg events)) as Hw.
  unfold behavioural_evaluate, reference_answer. cbv zeta. rewrite lookup_insert_eq.
  set (window := record_call _ _ _) in *. set (base := last_n _ (past_calls _ events)) in *.
  destruct (is_anomaly_scored_category _); [|done]. cbn [negb orb].
  assert (Hlen : length window = S (length base)).
  { rewrite <- (length_map cr_call_type), Hw, length_app. cbn. lia. }
  rewrite Hlen. destruct (S (length base) <? _)%nat; [done|].
  rewrite bool_decide_eq_false_2 by (by intros ->). cbn [fst].
  assert (Hbase : map cr_call_type (take (S (length base) - 1) window) = base).
  { rewrite <- firstn_map, Hw, Nat.sub_succ, Nat.sub_0_r. by rewrite take_app_length. }
  assert (Hb : (length base < MAX_HISTORY_SIZE)%nat) by (pose proof (last_n_length (MAX_HISTORY_SIZE - 1)%nat
    (past_calls (scope_or_warn ctx) events)); fold base in H; unfold MAX_HISTORY_SIZE in *; lia).
  rewrite baseline_share by (rewrite length_take, Hlen; lia). cbv zeta. rewrite Hbase.
  replace (length (take (S (length base) - 1) window)) with (length base) by (rewrite length_take, Hlen; lia). done.
Qed.

(** ** Capabilities *)

Lemma granted_spec grants m plugin :
  fold_left add_grant grants m !! plugin
  = match List.filter (λ g, String.eqb (cg_plugin g) plugin) grants with
    | [] => m !! plugin
    | gs => Some (default ∅ (m !! plugin) ∪ ⋃ map (λ g, list_to_set (cg_capabilities g)) gs)
    end.
Proof.
  revert m. induction grants as [|g grants IH]; intros m; [done|]. cbn [fold_left List.filter].
  rewrite IH. unfold add_grant. destruct (String.eqb_spec (cg_plugin g) plugin) as [->|Hne].
  - rewrite lookup_insert_eq. cbn [default from_option id].
    destruct (List.filter _ grants); f_equal; cbn; set_solver.
  - by rewrite lookup_insert_ne.
Qed.

(** The capability filter passes exactly what was granted.  With some grant
    configured, a call matches nothing exactly if some grant for its plugin lists the
    capability the call requires, or the wildcard; every other call gets the score that
    denies. *)
Theorem capability_passes_granted grants ctx (Hsome : grants ≠ []) :
  let r := capability_evaluate (CapabilityFilter_new grants) ctx in
  (fr_matched r = false ↔ ∃ g cap, g ∈ grants ∧ cg_plugin g = ctx_plugin_id ctx ∧ cap ∈ cg_capabilities g
     ∧ (cap = required_capability (ctx_call_type ctx) ∨ cap = "*"))
  ∧ (fr_matched r = true → fr_score r = f64_of_Z 10).
Proof.
  cbv zeta. unfold capability_evaluate. cbn [cf_grants CapabilityFilter_new].
  assert (Hne : fold_left add_grant grants ∅ ≠ ∅).
  { destruct grants as [|g grants]; [done|]. intros He.
    assert (fold_left add_grant (g :: grants) ∅ !! cg_plugin g = None) as Hn by (by rewrite He, lookup_empty).
    rewrite granted_spec in Hn. cbn [List.filter] in Hn. by rewrite String.eqb_refl in Hn. }
  rewrite bool_decide_eq_false_2 by done. rewrite granted_spec, lookup_empty.
  assert (Hin : ∀ g, g ∈ List.filter (λ g, String.eqb (cg_plugin g) (ctx_plugin_id ctx)) grants ↔
    g ∈ grants ∧ cg_plugin g = ctx_plugin_id ctx).
  { intros g. rewrite !list_elem_of_In, filter_In. by destruct (String.eqb_spec (cg_plugin g) (ctx_plugin_id ctx)); naive_solver. }
  destruct (List.filter _ grants) as [|g0 gs] eqn:Ef.
  { split; [|done]. split; [done|]. intros (g & cap & Hg & Hp & _). destruct (not_elem_of_nil g). by apply Hin. }
  set (caps := default ∅ None ∪ ⋃ _).
  assert (Hcaps : ∀ cap, cap ∈ caps ↔ ∃ g, (g ∈ grants ∧ cg_plugin g = ctx_plugin_id ctx) ∧ cap ∈ cg_capabilities g).
  { intros cap. unfold caps. cbn [default from_option]. rewrite elem_of_union, elem_of_union_list. split.
    - intros [He|(X & (g & -> & Hg)%list_elem_of_fmap & Hcap)]; [by apply not_elem_of_empty in He|].
      exists g. split; [by apply Hin|]. by rewrite elem_of_list_to_set in Hcap.
    - intros (g & Hg%Hin & Hcap). right. exists (list_to_set (cg_capabilities g)).
      split; [by apply list_elem_of_fmap; exists g|by rewrite elem_of_list_to_set]. }
  destruct (bool_decide_reflect (required_capability (ctx_call_type ctx) ∈ caps)) as [Hr|Hr];
    [|destruct (bool_decide_reflect ("*" ∈ caps)) as [Hs|Hs]]; cbn [orb]; (split; [|done]).
  - split; [intros _|done]. apply Hcaps in Hr as (g & [? ?] & ?). eauto 10.
  - split; [intros _|done]. apply Hcaps in Hs as (g & [? ?] & ?). eauto 10.
  - split; [done|]. intros (g & cap & Hg & Hp & Hc & [->| ->]); [destruct Hr|destruct Hs]; apply Hcaps; eauto.
Qed.

End Behavioural.

(** ** Witness *)

Section Example_grants.
#[local] Existing Instance concrete_deps.

Lemma capability_passes_granted_witness :
  fr_matched (capability_evaluate (CapabilityFilter_new [{| cg_plugin := "p"; cg_capabilities := ["fs:read"] |}])
    (ToolCallContext_new uuid_a 0%Z "p" (FileRead "/x") uuid_b)) = false.
Proof.
  apply (capability_passes_granted [{| cg_plugin := "p"; cg_capabilities := ["fs:read"] |}]
    (ToolCallContext_new uuid_a 0%Z "p" (FileRead "/x") uuid_b)); [done|].
  exists {| cg_plugin := "p"; cg_capabilities := ["fs:read"] |}, "fs:read". repeat split; [by left..|by left].
Defined.

End Example_grants.
