(* ===== verification/PathNames.v ===== *)
(** * What a path is called

    [grith-proxy/src/paths.rs]: the trees whose names carry no authority (vendored
    dependencies, generated output), backup suffixes, the shapes of credential files,
    artifacts and migrations, and the lexical normalisation of a path.  The tokens of
    file names are in SensitivePaths.  The normalisation is shown to keep where a path
    leads and to give one spelling to all absolute paths that lead there. *)

From Stdlib Require Import Ascii String Lia.
From stdpp Require Import base strings list option.
From S2P Require Import Prelude Paths.

#[local] Open Scope string_scope.
#[local] Open Scope list_scope.

(** ** Trees *)

Definition DEPENDENCY_TREE_COMPONENTS : list string :=
  ["node_modules"; ".pnpm"; "bower_components"; "vendor"; ".venv"; "venv"; "site-packages"; "Pods"; ".gradle"].

Definition DEPENDENCY_TREE_COMPONENT_PAIRS : list (string * string) :=
  [(".cargo", "registry"); (".m2", "repository")].

Definition GENERATED_OUTPUT_COMPONENTS : list string :=
  [".next"; ".nuxt"; ".svelte-kit"; ".astro"; ".docusaurus"; ".turbo"; ".vercel"; ".output";
   ".parcel-cache"; ".angular"; "dist"; "build"; "out"].

(** [path.split(['/', '\\'])] *)
Definition split_separators (path : string) : list string :=
  split_on "/"%char (replace_char "\"%char "/"%char path).

Section Trees.
Context `{Filesystem}.

Definition is_profile (c : string) : bool := eq_ignore_ascii_case c "debug" || eq_ignore_ascii_case c "release".

Definition target_component_is_build_output (path : string) (components : list string) (idx : nat) : bool :=
  if from_option is_profile false (components !! (idx + 1)%nat)
     || from_option is_profile false (components !! (idx + 2)%nat)
  then true
  else fs_exists {| p_absolute := starts_with "/" path;
                    p_components := take (S idx) components ++ ["CACHEDIR.TAG"] |}.

(** The loop over the components, at index [i], after [prev]. *)
Fixpoint dependency_tree_loop (path : string) (components : list string) (i : nat) (prev : option string)
    (rest : list string) : bool :=
  match rest with
  | [] => false
  | component :: rest =>
      let continue_ := dependency_tree_loop path components (S i) (Some component) rest in
      if eq_ignore_ascii_case component "target" then
        if target_component_is_build_output path components i then true else continue_
      else if existsb (eq_ignore_ascii_case component) DEPENDENCY_TREE_COMPONENTS then true
      else
        match prev with
        | Some prev =>
            if existsb (λ '(a, b), eq_ignore_ascii_case prev a && eq_ignore_ascii_case component b)
                 DEPENDENCY_TREE_COMPONENT_PAIRS
            then true else continue_
        | None => continue_
        end
  end.

Definition components_indicate_dependency_tree (path : string) : bool :=
  let components := List.filter (λ c, negb (String.eqb c "")) (split_separators path) in
  dependency_tree_loop path components 0 None components.

Definition components_indicate_generated_output (path : string) : bool :=
  existsb (λ component, existsb (eq_ignore_ascii_case component) GENERATED_OUTPUT_COMPONENTS)
    (split_separators path).

(** [to_str] of a canonical path fails on invalid UTF-8. *)
Definition confirmed_tree_match (path : string) (matches : string → bool) : bool :=
  if negb (matches path) then false
  else
    match fs_canonicalize path with
    | inl canonical =>
        if forallb is_utf8 canonical then matches (path_text (root_path canonical)) else true
    | inr _ => true
    end.

Definition is_dependency_tree_path (path : string) : bool :=
  confirmed_tree_match path components_indicate_dependency_tree.

Definition is_generated_output_path (path : string) : bool :=
  confirmed_tree_match path components_indicate_generated_output.

Definition is_name_opaque_tree (path : string) : bool :=
  confirmed_tree_match path
    (λ p, components_indicate_dependency_tree p || components_indicate_generated_output p).

(** A carve-out needs the name as written, and a link out of the tree loses it. *)
Lemma opaque_is_confirmed path comps : is_name_opaque_tree path = true →
  fs_canonicalize path = inl comps → forallb is_utf8 comps = true →
  components_indicate_dependency_tree (path_text (root_path comps)) = true
  ∨ components_indicate_generated_output (path_text (root_path comps)) = true.
Proof.
  unfold is_name_opaque_tree, confirmed_tree_match. intros Ho Hc Hu.
  destruct (negb _) in Ho; [done|]. rewrite Hc, Hu in Ho. by apply orb_true_iff.
Qed.

End Trees.

(** ** File names *)

Definition BACKUP_SUFFIXES : list string :=
  [".bak"; ".backup"; ".old"; ".orig"; ".save"; ".saved"; ".copy"; ".tmp"; "~"].

Definition strip_backup_suffix (file_name_lc : string) : string :=
  let stem suffix :=
    match strip_suffix suffix file_name_lc with
    | Some stem => if String.eqb stem "" then None else Some stem
    | None => None
    end in
  default file_name_lc (head (omap stem BACKUP_SUFFIXES)).

Definition has_backup_suffix (file_name : string) : bool :=
  existsb (λ suffix, (String.length suffix <? String.length file_name)%nat
    && eq_ignore_ascii_case
         (substring (String.length file_name - String.length suffix)%nat (String.length suffix) file_name) suffix)
    BACKUP_SUFFIXES.

Definition is_structured_credential_filename (file_name_lc : string) : bool :=
  if str_mem file_name_lc ["secrets.yaml"; "secrets.yml"; "secrets.json"; "credentials.json"] then true
  else
    match strip_suffix "credentials.json" file_name_lc with
    | Some stem => ends_with "-" stem || ends_with "_" stem || ends_with "." stem
    | None => false
    end.

Definition ARTIFACT_EXTS : list string :=
  [".md"; ".mdx"; ".rst"; ".adoc";
   ".svg"; ".png"; ".jpg"; ".jpeg"; ".webp"; ".gif"; ".ico"; ".avif"; ".woff"; ".woff2";
   ".ttf"; ".mp4"; ".pdf";
   ".o"; ".obj"; ".d"; ".rlib"; ".rmeta"; ".a"; ".so"; ".dylib"; ".pdb"; ".wasm"; ".class"; ".pyc"].

Definition is_non_credential_artifact_filename (file_name_lc : string) : bool :=
  existsb (λ ext, ends_with ext file_name_lc) ARTIFACT_EXTS.

(** The text after the leading ASCII digits, and whether there are any. *)
Definition is_digit_byte (c : ascii) : bool := ((48 <=? N_of_ascii c) && (N_of_ascii c <=? 57))%N.

Fixpoint skip_digits (s : string) : string :=
  match s with
  | String c s' => if is_digit_byte c then skip_digits s' else s
  | EmptyString => EmptyString
  end.

Definition is_migration_sql_filename (file_name_lc path_lc : string) : bool :=
  if negb (ends_with ".sql" file_name_lc) then false
  else
    let rest := skip_digits file_name_lc in
    let numbered := match rest with
                    | String c _ => ascii_eqb c "-"%char || ascii_eqb c "_"%char
                    | EmptyString => false
                    end in
    if (String.length rest <? String.length file_name_lc)%nat && numbered then true
    else existsb (λ c, eq_ignore_ascii_case c "migrations") (split_separators path_lc).

(** ** Lexical normalisation *)

Definition needs_normalising (path : string) : bool :=
  contains "//" path || contains "/./" path || contains "/.." path || ends_with "/." path.

(** One component against the pieces kept so far, last first. *)
Definition normalise_step (absolute : bool) (out : list string) (component : string) : list string :=
  if String.eqb component "" || String.eqb component "." then out
  else if String.eqb component ".." then
    match out with
    | last :: out' => if String.eqb last ".." then (if absolute then out else ".." :: out) else out'
    | [] => if absolute then out else [".."]
    end
  else component :: out.

Definition normalise_components (absolute : bool) (path : string) : list string :=
  reverse (fold_left (normalise_step absolute) (split_on "/"%char path) []).

Definition normalise_path_lexically (path : string) : option string :=
  if negb (needs_normalising path) then None
  else
    let absolute := starts_with "/" path in
    let trailing_slash := (1 <? String.length path)%nat && ends_with "/" path in
    let joined := (if absolute then "/" else "") +:+ join "/" (normalise_components absolute path) in
    Some (if trailing_slash && negb (ends_with "/" joined) then joined +:+ "/" else joined).

Definition normalised (path : string) : string := default path (normalise_path_lexically path).

(** A relative path that leads nowhere and ends in a slash becomes the root. *)
Example relative_becomes_root : normalise_path_lexically "a/../" = Some "/".
Proof. reflexivity. Qed.

(** ** Where a path leads *)

(** Following a path from the root of a tree without links. *)
Definition walk_step (at_ : list string) (component : string) : list string :=
  if String.eqb component "" || String.eqb component "." then at_
  else if String.eqb component ".." then take (length at_ - 1) at_ else at_ ++ [component].

Definition walk (path : string) : list string := fold_left walk_step (split_on "/"%char path) [].

(** The one spelling of an absolute path that leads to [at_]. *)
Definition spelled (at_ : list string) (slash : bool) : string :=
  "/" +:+ join "/" at_ +:+ (if slash && negb (bool_decide (at_ = [])) then "/" else "").

Definition ordinary (c : string) : Prop := c ≠ "" ∧ c ≠ "." ∧ c ≠ "..".

Lemma walk_step_ordinary at_ c : ordinary c → walk_step at_ c = at_ ++ [c].
Proof.
  intros (He & Hd & Hdd). unfold walk_step.
  by rewrite (proj2 (String.eqb_neq _ _) He), (proj2 (String.eqb_neq _ _) Hd), (proj2 (String.eqb_neq _ _) Hdd).
Qed.

Lemma walk_ordinary at_ cs : Forall ordinary cs → fold_left walk_step cs at_ = at_ ++ cs.
Proof.
  intros H. revert at_. induction H as [|c cs Hc _ IH]; intros at_; cbn; [by rewrite app_nil_r|].
  rewrite walk_step_ordinary, IH by done. by rewrite <- app_assoc.
Qed.

Lemma walk_step_Forall at_ c : Forall ordinary at_ → Forall ordinary (walk_step at_ c).
Proof.
  intros Ha. unfold walk_step. destruct (String.eqb_spec c ""); [done|]. destruct (String.eqb_spec c "."); [done|].
  destruct (String.eqb_spec c ".."); [by apply Forall_take|]. apply Forall_app. by repeat constructor.
Qed.

Lemma walk_Forall path : Forall ordinary (walk path).
Proof.
  unfold walk. generalize (split_on "/"%char path). intros cs. assert (Hn : Forall ordinary []) by constructor.
  revert Hn. generalize (@nil string). induction cs as [|c cs IH]; intros at_ Ha; [done|].
  cbn. apply IH. by apply walk_step_Forall.
Qed.

(** The stack of [normalise_path_lexically] is the place, last first. *)
Lemma normalise_step_walk out c : Forall ordinary out →
  normalise_step true out c = reverse (walk_step (reverse out) c).
Proof.
  intros Ho. unfold normalise_step, walk_step.
  destruct (String.eqb c "" || String.eqb c "."); [by rewrite reverse_involutive|].
  destruct (String.eqb c "..").
  - destruct Ho as [|l out (_ & _ & Hl) _]; [done|].
    rewrite (proj2 (String.eqb_neq _ _) Hl), reverse_cons, length_app. cbn [length].
    by rewrite Nat.add_sub, take_app_length, reverse_involutive.
  - by rewrite reverse_app, reverse_involutive.
Qed.

Lemma normalise_fold_walk cs out : Forall ordinary out →
  reverse (fold_left (normalise_step true) cs out) = fold_left walk_step cs (reverse out).
Proof.
  revert out. induction cs as [|c cs IH]; intros out Ho; [done|]. cbn.
  rewrite normalise_step_walk by done. rewrite <- (reverse_involutive (walk_step (reverse out) c)) at 2.
  apply IH, Forall_reverse, walk_step_Forall. by apply Forall_reverse.
Qed.

Lemma normalise_components_walk path : normalise_components true path = walk path.
Proof. unfold normalise_components. by rewrite normalise_fold_walk by constructor. Qed.

(** A piece that is not ordinary shows in the text. *)
Lemma piece_shows path l x k : split_on "/"%char path = l ++ x :: k → l ≠ [] → needs_normalising path = false →
  x ≠ "." ∧ x ≠ ".." ∧ (x = "" → k = []).
Proof.
  intros Hs Hl Hn. unfold needs_normalising in Hn. rewrite !orb_false_iff in Hn. destruct Hn as [[[H1 H2] H3] H4].
  assert (Hp : path = join "/" l +:+ "/" +:+ join "/" (x :: k)).
  { rewrite <- (join_split_on "/"%char path), Hs. by rewrite join_app. }
  assert (Hno : ∀ needle, contains needle path = false → ∀ q, join "/" (x :: k) = q → ∀ r, "/" +:+ q ≠ needle +:+ r).
  { intros needle Hc q Hq r Hr. subst q. rewrite Hr in Hp. apply not_true_iff_false in Hc.
    apply Hc, contains_spec. by exists (join "/" l), r. }
  destruct k as [|y k]; cbn [join] in *.
  - split; [|split; [|done]]; intros ->.
    + apply not_true_iff_false in H4. apply H4, ends_with_spec. by exists (join "/" l).
    + by apply (Hno "/.." H3 _ eq_refl "").
  - repeat split; intros ->.
    + by apply (Hno "/./" H2 _ eq_refl (join "/" (y :: k))).
    + by apply (Hno "/.." H3 _ eq_refl ("/" +:+ join "/" (y :: k))).
    + exfalso. by apply (Hno "//" H1 _ eq_refl (join "/" (y :: k))).
Qed.

(** The pieces of an absolute path with nothing to collapse. *)
Lemma clean_path_pieces path q : path = String "/" q → needs_normalising path = false →
  ∃ cs slash, split_on "/"%char q = cs ++ (if slash : bool then [""] else []) ∧ Forall ordinary cs
    ∧ (cs = [] → slash = true).
Proof.
  intros -> Hn. change (String "/" q) with ("" +:+ String "/" q) in Hn.
  assert (Hsp : split_on "/"%char ("" +:+ String "/" q) = [""] ++ split_on "/"%char q) by apply split_on_sep.
  pose proof (split_on_nonempty "/"%char q) as Hne.
  destruct (@exists_last _ _ Hne) as (cs & x & Hx). rewrite Hx in *.
  assert (Hcs : Forall ordinary cs).
  { apply Forall_forall. intros c (l & k & ->)%list_elem_of_split.
    destruct (piece_shows ("" +:+ String "/" q) ("" :: l) c (k ++ [x])) with (3 := Hn) as (? & ? & He); [|done|].
    { rewrite Hsp. cbn. by rewrite <- app_assoc. }
    split; [|done]. intros Hc. specialize (He Hc). by destruct k. }
  destruct (piece_shows ("" +:+ String "/" q) ("" :: cs) x []) with (3 := Hn) as (? & ? & _); [done|done|].
  destruct (String.eqb_spec x "") as [->|]; [by exists cs, true|].
  exists (cs ++ [x]), false. rewrite app_nil_r. repeat split; [|by destruct cs].
  apply Forall_app. by repeat constructor.
Qed.

Lemma ends_with_app suf a b : (String.length suf ≤ String.length b)%nat → ends_with suf (a +:+ b) = ends_with suf b.
Proof.
  intros Hl. apply eq_true_iff_eq. rewrite !ends_with_spec. split; [|by intros [p ->]; exists (a +:+ p); rewrite append_assoc].
  intros [p Hp]. revert p Hp. induction a as [|x a IH]; intros p Hp; [by exists p|].
  destruct p as [|y p].
  - change (String x (a +:+ b) = suf) in Hp. subst suf. cbn [String.length] in Hl. rewrite length_append in Hl. lia.
  - change (String x (a +:+ b) = String y (p +:+ suf)) in Hp. injection Hp as _ Hp. by apply (IH p).
Qed.

Lemma join_not_empty cs : Forall ordinary cs → cs ≠ [] → (1 ≤ String.length (join "/" cs))%nat.
Proof.
  intros Ho Hne. destruct Ho as [|c cs (Hc & _) _]; [done|]. destruct c as [|a c]; [done|].
  destruct cs; cbn [join]; rewrite ?length_append; cbn [String.length]; lia.
Qed.

Lemma join_ends_slash cs : Forall ordinary cs → Forall (λ c, lacks "/"%char c = true) cs → cs ≠ [] →
  ends_with "/" (join "/" cs) = false.
Proof.
  intros Ho Hl Hne. destruct (@exists_last _ _ Hne) as (l & x & ->).
  apply Forall_app in Ho as [_ [(Hx & _) _]%Forall_cons]. apply Forall_app in Hl as [_ [Hlx _]%Forall_cons].
  assert (Hs : ∃ a, join "/" (l ++ [x]) = a +:+ x).
  { destruct l as [|y l]; [by exists ""|]. rewrite join_app by done. by exists (join "/" (y :: l) +:+ "/"); rewrite append_assoc. }
  destruct Hs as [a ->]. rewrite ends_with_app by (by destruct x; cbn; [done|lia]).
  apply not_true_iff_false. rewrite ends_with_spec. intros [p ->].
  rewrite lacks_app in Hlx. by rewrite andb_false_r in Hlx.
Qed.

Lemma split_on_Forall_lacks c s : Forall (λ x, lacks c x = true) (split_on c s).
Proof.
  induction s as [|a s IH]; cbn; [by repeat constructor|].
  destruct (ascii_eqb a c) eqn:E; [by constructor|]. destruct (split_on c s) as [|w ws]; inversion_clear IH;
    constructor; cbn; rewrite ?E; try done.
Qed.

Lemma walk_step_lacks at_ c : Forall (λ x, lacks "/"%char x = true) at_ → lacks "/"%char c = true →
  Forall (λ x, lacks "/"%char x = true) (walk_step at_ c).
Proof.
  intros Ha Hc. unfold walk_step. repeat case_match; [done|by apply Forall_take|].
  apply Forall_app. by repeat constructor.
Qed.

Lemma walk_lacks path : Forall (λ x, lacks "/"%char x = true) (walk path).
Proof.
  unfold walk. pose proof (split_on_Forall_lacks "/"%char path) as H. revert H.
  generalize (split_on "/"%char path). intros cs. assert (Hn : Forall (λ x, lacks "/"%char x = true) []) by constructor.
  revert Hn. generalize (@nil string). induction cs as [|c cs IH]; intros at_ Ha Hcs; [done|].
  inversion_clear Hcs. cbn. apply IH; [by apply walk_step_lacks|done].
Qed.

(** Every absolute path is given the one spelling of the place it leads to, up to a
    trailing slash. *)
Lemma normalised_spelling path : starts_with "/" path = true →
  normalised path = spelled (walk path) (ends_with "/" path).
Proof.
  intros Hs. unfold normalised, normalise_path_lexically, spelled.
  apply starts_with_spec in Hs as [q Hq]. change (path = String "/" q) in Hq.
  destruct (needs_normalising path) eqn:En; cbn [negb default from_option].
  - replace (starts_with "/" path) with true by (rewrite Hq; by destruct q).
    rewrite normalise_components_walk. pose proof (walk_Forall path) as Ho. pose proof (walk_lacks path) as Hl.
    destruct (decide (walk path = [])) as [He|Hne].
    + rewrite He. cbn. by rewrite ?andb_false_r.
    + rewrite bool_decide_eq_false_2 by done. cbn [negb]. rewrite andb_true_r.
      rewrite ends_with_app, join_ends_slash by (try done; by apply join_not_empty). cbn [negb]. rewrite andb_true_r.
      destruct (Nat.ltb_spec 1 (String.length path)) as [Hlt|Hlt]; cbn [andb].
      * destruct (ends_with "/" path); by rewrite ?append_assoc, ?append_nil_r.
      * assert (q = "") as -> by (rewrite Hq in Hlt; destruct q; [done|cbn in Hlt; lia]).
        by rewrite Hq in Hne.
  - destruct (clean_path_pieces path q Hq En) as (cs & slash & Hsp & Ho & Hsl).
    assert (Hw : walk path = cs).
    { unfold walk. rewrite Hq. change (split_on "/"%char (String "/" q)) with ("" :: split_on "/"%char q).
      rewrite Hsp. cbn [fold_left]. change (walk_step [] "") with (@nil string).
      rewrite fold_left_app, (walk_ordinary [] cs) by done.
      by destruct slash. }
    assert (Hl : Forall (λ c, lacks "/"%char c = true) cs).
    { pose proof (split_on_Forall_lacks "/"%char q) as Hl. rewrite Hsp in Hl. by apply Forall_app in Hl as [? _]. }
    assert (Hj : path = "/" +:+ join "/" (cs ++ (if slash then [""] else []))).
    { by rewrite <- Hsp, join_split_on. }
    rewrite Hw. destruct (decide (cs = [])) as [->|Hne].
    + rewrite (Hsl eq_refl) in Hj. rewrite Hj. reflexivity.
    + rewrite bool_decide_eq_false_2, Hj by done. cbn [negb]. rewrite andb_true_r. destruct slash.
      * rewrite join_app by done. rewrite (proj2 (ends_with_spec _ _)); [done|]. exists ("/" +:+ join "/" cs).
        by rewrite append_assoc.
      * rewrite app_nil_r, ends_with_app, join_ends_slash, append_nil_r by (try done; by apply join_not_empty). done.
Qed.

(** Two absolute paths that lead to the same place, both or neither with a trailing
    slash, are normalised to the same text. *)
Lemma normalised_agrees a b : starts_with "/" a = true → starts_with "/" b = true →
  walk a = walk b → ends_with "/" a = ends_with "/" b → normalised a = normalised b.
Proof. intros Ha Hb Hw He. by rewrite !normalised_spelling, Hw, He by done. Qed.

(** ** Backup suffixes *)

Lemma ends_with_compare a b s : ends_with a s = true → ends_with b s = true →
  (String.length a ≤ String.length b)%nat → ends_with a b = true.
Proof.
  intros [p Hp]%ends_with_spec Hb Hl. apply ends_with_spec in Hb as [r ->].
  revert p Hp. induction r as [|x r IH]; intros p Hp; [apply ends_with_spec; by exists p|].
  destruct p as [|y p].
  - change (String x (r +:+ b) = a) in Hp. subst a. cbn [String.length] in Hl. rewrite length_append in Hl. lia.
  - change (String x (r +:+ b) = String y (p +:+ a)) in Hp. injection Hp as _ Hp. by apply (IH p).
Qed.

Lemma ends_with_false_app suf a b :
  (if (String.length suf <=? String.length b)%nat then ends_with suf b else ends_with b suf) = false →
  ends_with suf (a +:+ b) = false.
Proof.
  destruct (Nat.leb_spec (String.length suf) (String.length b)) as [Hl|Hl].
  - by rewrite ends_with_app.
  - intros Hf. apply not_true_iff_false in Hf. apply not_true_iff_false. intros Hs. apply Hf.
    apply (ends_with_compare b suf (a +:+ b)); [apply ends_with_spec; by exists a|done|lia].
Qed.

Lemma strip_backup_suffix_app stem suf : suf ∈ BACKUP_SUFFIXES → stem ≠ "" →
  strip_backup_suffix (stem +:+ suf) = stem.
Proof.
  intros Hin Hne. unfold strip_backup_suffix.
  assert (Hno : ∀ s', ends_with s' (stem +:+ suf) = false → strip_suffix s' (stem +:+ suf) = None).
  { intros s' Hs. unfold strip_suffix. by rewrite Hs. }
  assert (Hyes : strip_suffix suf (stem +:+ suf) = Some stem) by apply strip_suffix_app.
  unfold BACKUP_SUFFIXES in *. rewrite !elem_of_cons in Hin. apply String.eqb_neq in Hne.
  destruct_or? Hin; subst; try (by apply not_elem_of_nil in Hin); cbn [omap list_omap];
    repeat (rewrite Hyes, Hne || (rewrite Hno by (apply ends_with_false_app; reflexivity))); done.
Qed.

Lemma has_backup_suffix_app stem suf : suf ∈ BACKUP_SUFFIXES → stem ≠ "" →
  has_backup_suffix (stem +:+ suf) = true.
Proof.
  intros Hin Hne. unfold has_backup_suffix. apply existsb_exists. exists suf. split; [by apply list_elem_of_In|].
  rewrite length_append. apply andb_true_iff. split.
  - apply Nat.ltb_lt. destruct stem; [done|cbn; lia].
  - rewrite Nat.add_sub. replace (substring _ _ _) with suf; [by apply String.eqb_refl|].
    clear. induction stem as [|a stem IH]; [|done]. change ("" +:+ suf) with suf. cbn [String.length].
    rewrite <- (append_nil_r suf) at 3. by rewrite substring_prefix.
Qed.
