(* ===== verification/PathMatch.v ===== *)
(** * Path rules

    [grith-proxy/src/filters/path_match.rs], with [path_operations] of
    [sensitive_path.rs]: patterns compiled with their anchors, the glob matcher as the
    loop it is, and the evaluation of a call's paths against the rules.  The matcher is
    shown to terminate and to agree with the meaning of a pattern; the evaluation is
    shown to find the worst rule, whatever way an absolute path is spelled, and to see
    through backup suffixes. *)

From Stdlib Require Import Ascii String Lia.
From stdpp Require Import base strings list option.
From S2P Require Import Prelude Concrete F64 Types Scoring SessionState Filters Paths SensitivePaths PathNames.

#[local] Open Scope string_scope.
#[local] Open Scope list_scope.

(** ** Data *)

Record PathRule := {
  pr_id : string;
  pr_pattern : string;
  pr_operations : list string;
  pr_score : f64;
  pr_severity : string;
  pr_message : string;
  pr_exclude : list string;
  pr_weak_name_signal : bool;
}.

Inductive CompiledPattern :=
  | BasenameExact (name : string)
  | BasenameGlob (g : string)
  | RootPrefix (dir : string)
  | RootGlob (g : string)
  | HomePrefix (dir : string)
  | HomeGlob (g : string)
  | SuffixPrefix (dir : string)
  | SuffixGlob (g : string).

#[export] Instance CompiledPattern_eq_dec : EqDecision CompiledPattern.
Proof. solve_decision. Defined.

Record PathMatchFilter := { pm_rules : list PathRule; pm_compiled : list CompiledPattern }.

Definition operation_for_call_type (t : ToolCallType) : string :=
  match t with
  | FileRead _ => "read"
  | FileWrite _ _ | FileAppend _ => "write"
  | FileDelete _ => "delete"
  | DirList _ => "list"
  | ShellExec _ _ => "exec"
  | HttpRequest _ _ => "http"
  | FileRename _ _ | FileLink _ _ _ | FileChmod _ _ | DirCreate _ => "write"
  | NetConnect _ _ | NetListen _ _ => "http"
  | ProcessSpawn _ _ => "exec"
  | DnsQuery _ _ => "dns"
  | OwnershipChange _ _ _ | FilesystemMutation _ _ _ _ => "write"
  | CrossProcessAccess _ _ => "process"
  | NamespaceOp _ _ => "namespace"
  | DbusMethodCall _ _ _ _ => "dbus"
  end.

Definition path_of (t : ToolCallType) : option string :=
  match t with
  | FileRead path | FileWrite path _ | FileAppend path | FileDelete path | DirList path
  | FileChmod path _ | DirCreate path => Some path
  | FileRename old_path _ => Some old_path
  | OwnershipChange target _ _ | FilesystemMutation _ _ target _ => Some target
  | _ => None
  end.

Definition path_operations (t : ToolCallType) : list (string * string) :=
  match t with
  | FileLink target link_path _ => [(target, "read"); (link_path, "write")]
  | FileRename old_path new_path => [(old_path, "write"); (new_path, "write")]
  | other =>
      match path_of other with
      | Some path => [(path, operation_for_call_type other)]
      | None => []
      end
  end.

(** ** Patterns *)

Definition compile_pattern (pattern : string) : CompiledPattern :=
  match strip_prefix "~/" pattern with
  | Some rest =>
      match strip_suffix "/*" rest with
      | Some dir => HomePrefix (dir +:+ "/")
      | None => HomeGlob rest
      end
  | None =>
      if starts_with "/" pattern then
        match strip_suffix "/*" pattern with
        | Some dir => RootPrefix (dir +:+ "/")
        | None => RootGlob pattern
        end
      else if negb (contains "/" pattern) then
        if contains "*" pattern then BasenameGlob pattern else BasenameExact pattern
      else
        match strip_suffix "/*" pattern with
        | Some dir => SuffixPrefix (dir +:+ "/")
        | None => SuffixGlob pattern
        end
  end.

Definition PathMatchFilter_new (rules : list PathRule) : PathMatchFilter :=
  {| pm_rules := rules; pm_compiled := map (λ r, compile_pattern (pr_pattern r)) rules |}.

(** The loop of [glob_match], over the characters [p] and [t]; [None] is a loop that
    does not end within the fuel. *)
Fixpoint glob_loop (fuel : nat) (p t : list string) (pi ti : nat) (star : option (nat * nat)) : option bool :=
  match fuel with
  | 0 => None
  | S fuel =>
      if negb (ti <? length t)%nat then Some (forallb (λ c, String.eqb c "*") (drop pi p))
      else if bool_decide (p !! pi = Some "*") then glob_loop fuel p t (pi + 1) ti (Some (pi, ti))
      else if (pi <? length p)%nat && bool_decide (p !! pi = t !! ti) then
        glob_loop fuel p t (pi + 1) (ti + 1) star
      else
        match star with
        | Some (sp, st) =>
            if bool_decide (t !! st = Some "/") then Some false
            else glob_loop fuel p t (sp + 1) (st + 1) (Some (sp, st + 1)%nat)
        | None => Some false
        end
  end%nat.

Definition glob_fuel (p t : list string) : nat := ((length p + length t + 2) * (length p + 2))%nat.

Definition glob_match (pattern text : string) : bool :=
  let p := chars pattern in
  let t := chars text in
  default false (glob_loop (glob_fuel p t) p t 0 0 None).

(** The texts after each slash. *)
Fixpoint after_slashes (s : string) : list string :=
  match s with
  | String c s' => if ascii_eqb c "/"%char then s' :: after_slashes s' else after_slashes s'
  | EmptyString => []
  end.

Definition component_suffix_candidates (path : string) : list string :=
  trim_start_matches "/" path :: List.filter (λ s, negb (String.eqb s "")) (after_slashes path).

Definition dot_directory_fallback (path pattern : string) (matches : string → string → bool) : bool :=
  if negb (starts_with "." pattern) then false
  else existsb (λ candidate, matches candidate pattern) (component_suffix_candidates path).

Section Filter.
Context `{D : Deps} `{Unicode} `{Filesystem}.

Definition resolved_home : option string := home_dir.

Definition home_relative (path : string) : option string :=
  match strip_prefix "~/" path with
  | Some rest => Some rest
  | None =>
      match head (omap (λ root, strip_prefix root path) ["/home/"; "/Users/"; "/users/"]) with
      | Some rest => snd <$> split_once "/" rest
      | None =>
          match strip_prefix "/root/" path with
          | Some rest => Some rest
          | None =>
              home ← resolved_home;
              let home := trim_end_char "/"%char home in
              if String.eqb home "" then None
              else rest ← strip_prefix home path; strip_prefix "/" rest
          end
      end
  end.

Definition matches (p : CompiledPattern) (path : string) : bool :=
  let basename := after_last "/"%char path in
  match p with
  | BasenameExact name => String.eqb basename name
  | BasenameGlob g =>
      glob_match g basename
      || (has_backup_suffix basename
          && let lower := to_ascii_lowercase basename in
             let stem := strip_backup_suffix lower in
             negb (String.length stem =? String.length lower)%nat && glob_match g stem)
  | RootPrefix dir => starts_with dir path
  | RootGlob g => glob_match g path
  | HomePrefix dir =>
      from_option (starts_with dir) false (home_relative path)
      || dot_directory_fallback path dir (λ candidate dir, starts_with dir candidate)
  | HomeGlob g =>
      from_option (glob_match g) false (home_relative path)
      || dot_directory_fallback path g (λ candidate pattern, glob_match pattern candidate)
  | SuffixPrefix dir => existsb (starts_with dir) (component_suffix_candidates path)
  | SuffixGlob g => existsb (glob_match g) (component_suffix_candidates path)
  end.

(** ** Evaluation *)

Definition parse_severity (s : string) : Severity :=
  let s := to_lowercase s in
  if String.eqb s "critical" then SevCritical
  else if String.eqb s "error" then SevError
  else if String.eqb s "warning" then SevWarning
  else SevNotice.

(** The text the rules see. *)
Definition matched_path (path : string) : string :=
  normalised (if contains "\" path then replace_char "\"%char "/"%char path else path).

(** Whether the body of the loop considers a rule. *)
Definition rule_applies (path operation : string) (rule : PathRule) (compiled : CompiledPattern) : bool :=
  let basename := after_last "/"%char path in
  matches compiled path && existsb (λ op, String.eqb op operation) (pr_operations rule)
  && negb (existsb (λ ex, String.eqb basename ex) (pr_exclude rule))
  && negb (pr_weak_name_signal rule && is_name_opaque_tree path).

Definition better_rule (path operation : string) (best : option PathRule) (e : PathRule * CompiledPattern) :
    option PathRule :=
  let '(rule, compiled) := e in
  if rule_applies path operation rule compiled then
    match best with
    | Some current => if f64_ge (pr_score current) (pr_score rule) then best else Some rule
    | None => Some rule
    end
  else best.

Definition rule_result (rule : PathRule) : FilterResult :=
  matched "path-match" (pr_id rule) (pr_score rule) (parse_severity (pr_severity rule)) (pr_message rule).

Definition evaluate_path (f : PathMatchFilter) (path operation : string) : FilterResult :=
  let path := matched_path path in
  match fold_left (better_rule path operation) (combine (pm_rules f) (pm_compiled f)) None with
  | Some rule => rule_result rule
  | None => no_match "path-match"
  end.

(** Keeping the worse of two results, as the path filters do. *)
Definition worse (worst : option FilterResult) (result : FilterResult) : option FilterResult :=
  let better := match worst with
                | Some current => f64_gt (fr_score result) (fr_score current)
                | None => true
                end in
  if fr_matched result && better then Some result else worst.

Definition path_match_evaluate (f : PathMatchFilter) (ctx : ToolCallContext) : FilterResult :=
  default (no_match "path-match")
    (fold_left worse (map (λ '(path, operation), evaluate_path f path operation)
                        (path_operations (ctx_call_type ctx))) None).

Definition path_match_filter {FS} (f : PathMatchFilter) : SecurityFilter FS :=
  {| sf_name := "path-match"; sf_phase := Static; sf_is_ready _ := true;
     sf_evaluate ctx w := (Some (path_match_evaluate f ctx), w);
     sf_evict_session_state _ w := (0, w); sf_observe_outcome _ _ _ w := w |}.

End Filter.

Example glob_pem : glob_match "*.pem" "server.pem" = true. Proof. reflexivity. Qed.
Example glob_star : glob_match "*a*/b" "xaya/b" = true. Proof. reflexivity. Qed.
Example glob_slash : glob_match "*/b" "x/a/b" = false. Proof. reflexivity. Qed.

(** ** The matcher *)

(** What a pattern means: every star stands for a run of characters without a slash,
    every other character for itself. *)
Inductive fills : list string → list string → Prop :=
  | fills_nil : fills [] []
  | fills_char c p t : c ≠ "*" → fills p t → fills (c :: p) (c :: t)
  | fills_star run p t : "/" ∉ run → fills p t → fills ("*" :: p) (run ++ t).

Lemma fills_star_inv p t : fills ("*" :: p) t ↔ ∃ run u, t = run ++ u ∧ "/" ∉ run ∧ fills p u.
Proof.
  split.
  - intros H. remember ("*" :: p) as q eqn:Eq. destruct H as [|c p' t' Hc H|run p' t' Hr H]; simplify_eq.
    by exists run, t'.
  - intros (run & u & -> & Hr & H). by constructor.
Qed.

Lemma fills_char_inv c p t : c ≠ "*" → fills (c :: p) t ↔ ∃ u, t = c :: u ∧ fills p u.
Proof.
  intros Hc. split.
  - intros H. remember (c :: p) as q eqn:Eq. destruct H as [|c' p' t' Hc' H|run p' t' Hr H]; simplify_eq. by exists t'.
  - intros (u & -> & H). by constructor.
Qed.

Lemma fills_literal seg p t : Forall (λ c, c ≠ "*") seg → fills (seg ++ p) t ↔ ∃ u, t = seg ++ u ∧ fills p u.
Proof.
  intros Hs. revert t. induction Hs as [|c seg Hc _ IH]; intros t; cbn; [naive_solver|].
  rewrite fills_char_inv by done. setoid_rewrite IH. naive_solver.
Qed.

Lemma fills_empty p : fills p [] ↔ forallb (λ c, String.eqb c "*") p = true.
Proof.
  induction p as [|c p IH]; [split; [done|constructor]|]. cbn. rewrite andb_true_iff, <- IH.
  destruct (String.eqb_spec c "*") as [->|Hc].
  - rewrite fills_star_inv. split.
    + intros (run & u & [-> ->]%eq_sym%app_nil & _ & H). done.
    + intros [_ H]. exists [], []. repeat split; [apply not_elem_of_nil|done].
  - rewrite fills_char_inv by done. naive_solver.
Qed.

(** What is left to try at the last star: longer runs. *)
Definition longer_runs (p t : list string) (star : option (nat * nat)) : Prop :=
  match star with
  | Some (sp, st) => ∃ run u, run ≠ [] ∧ "/" ∉ run ∧ drop st t = run ++ u ∧ fills (drop (S sp) p) u
  | None => False
  end.

(** Since the last star the loop has matched the same literal in both. *)
Definition literal_since (p t : list string) (pi ti : nat) (star : option (nat * nat)) : Prop :=
  (pi ≤ length p)%nat ∧ (ti ≤ length t)%nat ∧
  match star with
  | Some (sp, st) => (sp < pi)%nat ∧ (st ≤ ti)%nat ∧ ∃ seg, Forall (λ c, c ≠ "*") seg
      ∧ drop (S sp) p = seg ++ drop pi p ∧ drop st t = seg ++ drop ti t
  | None => True
  end.

(** The steps that may be left: each new star or longer run, then the pattern. *)
Definition glob_measure (p t : list string) (pi : nat) (star : option (nat * nat)) : nat :=
  (match star with
   | Some (sp, st) => length p + length t - sp - st
   | None => length p + length t + 1
   end * (length p + 1) + (length p - pi))%nat.

(** A later match of the same literal leaves its tail to the next star. *)
Lemma literal_shift {A} `{EqDecision A} (x : A) (seg run u v : list A) :
  run ++ seg ++ u = seg ++ v → x ∉ run → ∃ run', v = run' ++ u ∧ x ∉ run'.
Proof.
  intros He Hx. exists (take (length run) v).
  assert (Hlen : length v = (length run + length u)%nat).
  { apply (f_equal length) in He. rewrite !length_app in He. lia. }
  assert (Hv : v = take (length run) v ++ u).
  { rewrite <- (take_drop (length run) v) at 1. f_equal.
    assert (drop (length seg + length run) (run ++ seg ++ u) = drop (length seg + length run) (seg ++ v)) as Hd by congruence.
    rewrite app_assoc, drop_app_ge in Hd by (rewrite length_app; lia). rewrite length_app in Hd.
    replace (length seg + length run - (length run + length seg))%nat with 0%nat in Hd by lia.
    rewrite drop_app_ge in Hd by lia. by replace (length seg + length run - length seg)%nat with (length run) in Hd by lia. }
  split; [done|]. intros Hin.
  assert (Hc : length (filter (.= x) (run ++ seg ++ u)) = length (filter (.= x) (seg ++ take (length run) v ++ u))).
  { by rewrite He, <- Hv. }
  rewrite !filter_app, !length_app in Hc.
  assert (Hr : filter (.= x) run = []).
  { apply elem_of_nil_inv. by intros y [-> Hy]%list_elem_of_filter. }
  rewrite Hr in Hc. cbn in Hc.
  assert (filter (.= x) (take (length run) v) = []) as Hn by (apply length_zero_iff_nil; lia).
  assert (x ∈ filter (.= x) (take (length run) v)) as Hf by (by apply list_elem_of_filter).
  rewrite Hn in Hf. by apply not_elem_of_nil in Hf.
Qed.

Lemma drop_lookup {A} (l : list A) i x : l !! i = Some x → drop i l = x :: drop (S i) l.
Proof. intros H. by erewrite drop_S. Qed.

Lemma fills_star_runs p t pi ti : p !! pi = Some "*" →
  fills (drop pi p) (drop ti t) ↔ fills (drop (S pi) p) (drop ti t) ∨ longer_runs p t (Some (pi, ti)).
Proof.
  intros Hp. rewrite (drop_lookup p pi "*") by done. rewrite fills_star_inv. cbn [longer_runs]. split.
  - intros (run & u & Hu & Hr & Hf). destruct (decide (run = [])) as [->|Hne]; [left; by rewrite Hu|].
    right. by exists run, u.
  - intros [Hf|(run & u & _ & Hr & Hu & Hf)]; [exists [], (drop ti t)|by exists run, u].
    repeat split; [apply not_elem_of_nil|done].
Qed.

(** A longer run at an earlier star is a run of the star reached. *)
Lemma longer_runs_shift p t pi ti star : literal_since p t pi ti star → p !! pi = Some "*" →
  longer_runs p t star → fills (drop pi p) (drop ti t).
Proof.
  intros (_ & _ & Hst) Hp Hl. destruct star as [[sp st]|]; [|done].
  destruct Hst as (_ & _ & seg & Hseg & Hsp & Ht), Hl as (run & u & _ & Hr & Hu & Hf).
  rewrite Hsp, fills_literal in Hf by done. destruct Hf as (v & -> & Hf).
  rewrite Ht in Hu. destruct (literal_shift "/" seg run v (drop ti t) (eq_sym Hu) Hr) as (run' & -> & Hr').
  rewrite (drop_lookup p pi "*") in Hf |- * by done. rewrite fills_star_inv in Hf |- *.
  destruct Hf as (r & w & -> & Hn & Hf). exists (run' ++ r), w. rewrite <- app_assoc. split; [done|]. split; [|done].
  rewrite elem_of_app. naive_solver.
Qed.

Lemma longer_runs_extend p t sp st c : t !! st = Some c →
  longer_runs p t (Some (sp, st)) ↔
  c ≠ "/" ∧ (fills (drop (S sp) p) (drop (S st) t) ∨ longer_runs p t (Some (sp, S st))).
Proof.
  intros Hc. cbn [longer_runs]. rewrite (drop_lookup t st c) by done. split.
  - intros (run & u & Hne & Hr & Hu & Hf). destruct run as [|c' run]; [done|]. injection Hu as <- Hu.
    apply not_elem_of_cons in Hr as [Hcs Hr]. split; [done|].
    destruct (decide (run = [])) as [->|Hn]; [left; by rewrite Hu|]. right. by exists run, u.
  - intros (Hcs & [Hf|(run & u & _ & Hr & Hu & Hf)]); [exists [c], (drop (S st) t)|exists (c :: run), u].
    + repeat split; [done| |done]. rewrite list_elem_of_singleton. congruence.
    + repeat split; [done| |by rewrite Hu|done]. apply not_elem_of_cons. split; [congruence|done].
Qed.

Lemma mismatch_fills p t pi ti : (ti < length t)%nat → p !! pi ≠ Some "*" →
  (pi <? length p)%nat && bool_decide (p !! pi = t !! ti) = false → ¬ fills (drop pi p) (drop ti t).
Proof.
  intros Hti Hs Hb. destruct (lookup_lt_is_Some_2 t ti Hti) as [c Hc]. rewrite (drop_lookup t ti c) by done.
  destruct (Nat.ltb_spec pi (length p)) as [Hpi|Hpi]; cbn [andb] in Hb.
  - destruct (lookup_lt_is_Some_2 p pi Hpi) as [d Hd]. rewrite (drop_lookup p pi d) by done.
    apply bool_decide_eq_false in Hb. rewrite fills_char_inv by congruence. intros (u & Hu & _). congruence.
  - rewrite drop_ge by done. intros Hf. inversion Hf.
Qed.

Lemma glob_loop_spec p t fuel pi ti star : literal_since p t pi ti star → (glob_measure p t pi star < fuel)%nat →
  ∃ b, glob_loop fuel p t pi ti star = Some b
    ∧ (b = true ↔ fills (drop pi p) (drop ti t) ∨ longer_runs p t star).
Proof.
  revert pi ti star. induction fuel as [|fuel IH]; intros pi ti star Hlit Hm; [lia|]. cbn [glob_loop].
  pose proof Hlit as (Hpi & Hti & Hst).
  destruct (Nat.ltb_spec ti (length t)) as [Hlt|Hge]; cbn [negb].
  2: { eexists. split; [done|]. rewrite (drop_ge t) by lia. rewrite fills_empty. split; [by left|].
       intros [?|Hr]; [done|]. exfalso. destruct star as [[sp st]|]; [|done].
       destruct Hst as (_ & Hsi & seg & Hseg & Hp & Ht), Hr as (run & u & Hne & _ & Hu & Hf).
       rewrite Hp, fills_literal in Hf by done. destruct Hf as (v & -> & _).
       rewrite (drop_ge t ti), app_nil_r in Ht by lia. rewrite Ht in Hu. apply (f_equal length) in Hu.
       rewrite !length_app in Hu. destruct run; [done|]. cbn in Hu. lia. }
  rewrite !Nat.add_1_r. case_bool_decide as Hstar.
  - apply lookup_lt_Some in Hstar as Hlp. destruct (IH (S pi) ti (Some (pi, ti))) as (b & -> & Hb).
    + repeat split; [lia..|]. by exists [].
    + unfold glob_measure in *. destruct star as [[sp st]|]; [destruct Hst as (? & ? & _)|]; nia.
    + exists b. split; [done|]. rewrite Hb, <- fills_star_runs by done. split; [by left|].
      intros [?|Hl]; [done|]. by apply (longer_runs_shift p t pi ti star).
  - destruct (_ && _) eqn:Hc.
    + apply andb_true_iff in Hc as [Hlp Hc%bool_decide_eq_true]. apply Nat.ltb_lt in Hlp.
      destruct (lookup_lt_is_Some_2 t ti Hlt) as [c Htc]. assert (Hcs : c ≠ "*") by congruence.
      assert (Hpc : p !! pi = Some c) by congruence.
      destruct (IH (S pi) (S ti) star) as (b & -> & Hb).
      * split; [lia|]. split; [lia|]. destruct star as [[sp st]|]; [|done]. destruct Hst as (? & ? & seg & Hs & Hp & Ht).
        repeat split; [lia..|]. exists (seg ++ [c]). rewrite Hp, Ht, <- !app_assoc. cbn.
        rewrite <- !drop_lookup by done. repeat split. apply Forall_app. by repeat constructor.
      * unfold glob_measure in *. lia.
      * exists b. split; [done|]. rewrite Hb, (drop_lookup p pi c), (drop_lookup t ti c), fills_char_inv by done. naive_solver.
    + pose proof (mismatch_fills p t pi ti Hlt Hstar Hc) as Hnf. clear Hc. destruct star as [[sp st]|].
      2: { exists false. split; [done|]. cbn. naive_solver. }
      destruct Hst as (Hsp & Hsi & _). destruct (lookup_lt_is_Some_2 t st) as [c Htc]; [lia|].
      pose proof (longer_runs_extend p t sp st c Htc) as Hx. rewrite Htc. case_bool_decide as Hslash.
      { exists false. split; [done|]. split; [done|]. intros [?|[? _]%Hx]; congruence. }
      rewrite !Nat.add_1_r. destruct (IH (S sp) (S st) (Some (sp, S st))) as (b & -> & Hb).
      * repeat split; [lia..|]. by exists [].
      * unfold glob_measure in *. nia.
      * exists b. split; [done|]. rewrite Hb, Hx. split; [|naive_solver].
        intros Hl. right. split; [congruence|done].
Qed.

Lemma glob_match_ends p t : ∃ b, glob_loop (glob_fuel p t) p t 0 0 None = Some b ∧ (b = true ↔ fills p t).
Proof.
  destruct (glob_loop_spec p t (glob_fuel p t) 0 0 None) as (b & -> & Hb).
  - repeat split; lia.
  - unfold glob_measure, glob_fuel. nia.
  - exists b. split; [done|]. rewrite Hb, !drop_0. cbn. naive_solver.
Qed.

Lemma glob_match_iff g t : glob_match g t = true ↔ fills (chars g) (chars t).
Proof. unfold glob_match. cbv zeta. by destruct (glob_match_ends (chars g) (chars t)) as (b & -> & Hb). Qed.

(** C40: the matcher ends, and matches exactly what a pattern means.  The loop, which
    goes back to its last star only, always ends within its fuel; and a text is matched
    exactly if it is the pattern with each star replaced by a run of characters without
    a slash. *)
Theorem glob_match_spec pattern text :
  glob_loop (glob_fuel (chars pattern) (chars text)) (chars pattern) (chars text) 0 0 None ≠ None
  ∧ (glob_match pattern text = true ↔ fills (chars pattern) (chars text)).
Proof.
  split; [|apply glob_match_iff].
  by destruct (glob_match_ends (chars pattern) (chars text)) as (b & -> & _).
Qed.

(** ** The best element *)

Definition is_number (x : f64) : Prop := f64_valid x = true ∧ f64_is_nan x = false.

Lemma f64_le_total x y : is_number x → is_number y → f64_le x y = false → f64_le y x = true.
Proof.
  intros [Hx Hnx] [Hy Hny]. rewrite f64_le_or_gt by done. intros Hl%negb_false_iff.
  rewrite f64_le_or_gt by done. apply negb_true_iff. by apply f64_lt_asym.
Qed.

(** Both loops keep the best element seen. *)
Section Best.
Context {A : Type} (ok : A → bool) (score : A → f64) (keep : A → A → bool).
Hypothesis keep_true : ∀ b x, is_number (score b) → is_number (score x) → keep b x = true → f64_le (score x) (score b) = true.
Hypothesis keep_false : ∀ b x, is_number (score b) → is_number (score x) → keep b x = false → f64_le (score b) (score x) = true.

Definition keep_best (best : option A) (x : A) : option A :=
  if ok x then match best with Some b => if keep b x then best else Some x | None => Some x end else best.

Definition is_best (l : list A) (best : option A) : Prop :=
  match best with
  | Some r => r ∈ l ∧ ok r = true ∧ ∀ x, x ∈ l → ok x = true → f64_le (score x) (score r) = true
  | None => ∀ x, x ∈ l → ok x = false
  end.

Lemma keep_best_spec l : Forall (λ x, is_number (score x)) l → is_best l (fold_left keep_best l None).
Proof.
  induction l as [|x l IH] using rev_ind; intros Hn; [by intros x ?%not_elem_of_nil|].
  apply Forall_app in Hn as [Hn [Hx _]%Forall_cons]. specialize (IH Hn). rewrite fold_left_app. cbn [fold_left].
  assert (Hin : ∀ y, y ∈ l ++ [x] ↔ y ∈ l ∨ y = x) by (intros y; by rewrite elem_of_app, list_elem_of_singleton).
  unfold keep_best at 1. destruct (ok x) eqn:Eo.
  - destruct (fold_left keep_best l None) as [b|] eqn:Eb; cbn [is_best] in IH.
    + destruct IH as (Hb & Hob & Hle). assert (is_number (score b)) by (rewrite Forall_forall in Hn; auto).
      destruct (keep b x) eqn:Ek; cbn [is_best]; setoid_rewrite Hin.
      * split; [by left|]. split; [done|]. intros y [Hy| ->] Hoy; [by apply Hle|by apply keep_true].
      * split; [by right|]. split; [done|]. intros y [Hy| ->] Hoy; [|by apply f64_le_refl, Hx].
        rewrite Forall_forall in Hn.
        apply (f64_le_trans _ (score b)); [by apply Hn|by apply Hn|apply Hx|by apply Hle|by apply keep_false].
    + cbn [is_best]. setoid_rewrite Hin. split; [by right|]. split; [done|].
      intros y [Hy| ->] Hoy; [by rewrite IH in Hoy|by apply f64_le_refl, Hx].
  - destruct (fold_left keep_best l None) as [b|]; cbn [is_best] in *; setoid_rewrite Hin.
    + destruct IH as (Hb & Hob & Hle). split; [by left|]. split; [done|].
      intros y [Hy| ->] Hoy; [by apply Hle|congruence].
    + intros y [Hy| ->]; auto.
Qed.
End Best.

(** One optional element is at most another. *)
Definition dominated_by {A} (score : A → f64) (o o' : option A) : Prop :=
  ∀ h, o = Some h → ∃ h', o' = Some h' ∧ f64_le (score h) (score h') = true.

Lemma omap_dominated {A} (score : A → f64) l l' h : Forall2 (dominated_by score) l l' → h ∈ omap id l →
  ∃ h', h' ∈ omap id l' ∧ f64_le (score h) (score h') = true.
Proof.
  intros Hl. rewrite list_elem_of_omap. intros (o & Ho & Hh). cbn in Hh. subst o.
  apply list_elem_of_lookup in Ho as [i Hi].
  destruct (Forall2_lookup_l _ _ _ _ _ Hl Hi) as (o' & Hi' & Hd). destruct (Hd h eq_refl) as (h' & -> & Hle).
  exists h'. split; [|done]. apply list_elem_of_omap. exists (Some h'). split; [by apply list_elem_of_lookup_2 in Hi'|done].
Qed.

(** ** Backup suffixes *)

Section Theorems.
Context `{D : Deps} `{Unicode} `{Filesystem}.

(** A backup copy keeps the rule of its original.  If the pattern of a rule on file
    names matches a lower-case name, the rule matches every path of that name, and every
    path of that name with one of the backup suffixes. *)
Theorem backup_copies_keep_the_rule g dir name suf
    (Hname : lacks "/"%char name = true) (Hne : name ≠ "") (Hlow : to_ascii_lowercase name = name)
    (Hsuf : suf ∈ BACKUP_SUFFIXES) (Hm : fills (chars g) (chars name)) :
  matches (BasenameGlob g) (dir +:+ "/" +:+ name) = true
  ∧ matches (BasenameGlob g) (dir +:+ "/" +:+ name +:+ suf) = true.
Proof.
  assert (Hs : lacks "/"%char suf = true ∧ to_ascii_lowercase suf = suf ∧ suf ≠ "").
  { unfold BACKUP_SUFFIXES in Hsuf. rewrite !elem_of_cons in Hsuf.
    destruct_or? Hsuf; subst; try done. by apply not_elem_of_nil in Hsuf. }
  destruct Hs as (Hl & Hlow' & Hse). apply glob_match_iff in Hm. cbn [matches].
  change (dir +:+ "/" +:+ name) with (dir +:+ String "/" name).
  change (dir +:+ "/" +:+ name +:+ suf) with (dir +:+ String "/" (name +:+ suf)).
  rewrite !after_last_sep by (by rewrite ?lacks_app, ?Hname, ?Hl). split; [by rewrite Hm|].
  rewrite has_backup_suffix_app, to_ascii_lowercase_app, Hlow, Hlow', strip_backup_suffix_app, Hm by done.
  assert (Hlen : (String.length name =? String.length (name +:+ suf))%nat = false).
  { apply Nat.eqb_neq. rewrite length_append. destruct suf; [done|]. cbn. lia. }
  rewrite Hlen. by rewrite orb_true_r.
Qed.


(** ** The worst rule *)

(** A rule applies to a path a call carries, with the operation it is subject to. *)
Definition applicable (t : ToolCallType) (rule : PathRule) : Prop :=
  ∃ path operation, (path, operation) ∈ path_operations t
    ∧ rule_applies (matched_path path) operation rule (compile_pattern (pr_pattern rule)) = true.

Lemma combine_map {A B} (g : A → B) (l : list A) : combine l (map g l) = map (λ x, (x, g x)) l.
Proof. induction l as [|x l IH]; [done|]. cbn. by rewrite IH. Qed.

Lemma fold_left_map {A B C} (g : A → B) (h : C → B → C) l c :
  fold_left h (map g l) c = fold_left (λ c x, h c (g x)) l c.
Proof. revert c. induction l as [|x l IH]; intros c; [done|]. cbn. apply IH. Qed.

Lemma evaluate_path_spec rules path op : Forall (λ r, is_number (pr_score r)) rules →
  let best := fold_left (better_rule (matched_path path) op)
                (combine rules (map (λ r, compile_pattern (pr_pattern r)) rules)) None in
  is_best (λ r, rule_applies (matched_path path) op r (compile_pattern (pr_pattern r))) pr_score rules best
  ∧ evaluate_path (PathMatchFilter_new rules) path op = from_option rule_result (no_match "path-match") best.
Proof.
  intros Hn. cbv zeta. split; [|unfold evaluate_path; cbv zeta; cbn [PathMatchFilter_new pm_rules pm_compiled];
    by destruct (fold_left _ _ _)].
  rewrite combine_map, fold_left_map.
  apply (keep_best_spec _ pr_score (λ b x, f64_ge (pr_score b) (pr_score x))); [done| |done].
  intros b x Hb Hx. by apply f64_le_total.
Qed.

Lemma worse_spec results : Forall (λ x, is_number (fr_score x)) results →
  is_best fr_matched fr_score results (fold_left worse results None).
Proof.
  intros Hn. pose proof (keep_best_spec fr_matched fr_score (λ b x, negb (f64_gt (fr_score x) (fr_score b)))) as Hs.
  replace (fold_left worse results None) with
    (fold_left (keep_best fr_matched (λ b x, negb (f64_gt (fr_score x) (fr_score b)))) results None).
  - apply Hs; [..|done]; intros b x Hb Hx Hk.
    + apply negb_true_iff in Hk. apply f64_lt_false_le; [apply Hb|apply Hx|done].
    + apply negb_false_iff in Hk. rewrite f64_le_or_gt by (apply Hb || apply Hx). apply negb_true_iff.
      apply f64_lt_asym; [apply Hb|apply Hx|done].
  - generalize (@None FilterResult). clear. induction results as [|x l IH]; intros best; [done|]. cbn [fold_left].
    rewrite IH. f_equal. unfold keep_best, worse. destruct (fr_matched x), best as [b|]; cbn; try done.
    by destruct (f64_gt _ _).
Qed.

Lemma evaluate_path_number rules path op : Forall (λ r, is_number (pr_score r)) rules →
  is_number (fr_score (evaluate_path (PathMatchFilter_new rules) path op)).
Proof.
  intros Hn. destruct (evaluate_path_spec rules path op Hn) as [Hb ->]. destruct (fold_left _ _ _) as [r|]; [|done].
  destruct Hb as (Hr & _). cbn. by apply (proj1 (Forall_forall _ _) Hn).
Qed.

Lemma applied_result rules p o (Hn : Forall (λ r, is_number (pr_score r)) rules) :
  let applies r := rule_applies (matched_path p) o r (compile_pattern (pr_pattern r)) in
  let result := evaluate_path (PathMatchFilter_new rules) p o in
  (∃ rule, rule ∈ rules ∧ applies rule = true ∧ result = rule_result rule
     ∧ ∀ r, r ∈ rules → applies r = true → f64_le (pr_score r) (pr_score rule) = true)
  ∨ (result = no_match "path-match" ∧ ∀ r, r ∈ rules → applies r = false).
Proof.
  cbv zeta. destruct (evaluate_path_spec rules p o Hn) as [Hb ->]. destruct (fold_left _ _ _) as [r|]; [left|by right].
  destruct Hb as (Hr & Ha & Hle). by exists r.
Qed.

(** The filter reports the worst rule.  With scores that are numbers, a call
    matches nothing exactly if no rule applies to any of its paths; otherwise the result
    is that of a rule that applies, and no rule that applies scores higher. *)
Theorem worst_rule_reported rules ctx (Hn : Forall (λ r, is_number (pr_score r)) rules) :
  let r := path_match_evaluate (PathMatchFilter_new rules) ctx in
  (fr_matched r = false → ∀ rule, rule ∈ rules → ¬ applicable (ctx_call_type ctx) rule)
  ∧ (fr_matched r = true → ∃ rule, rule ∈ rules ∧ applicable (ctx_call_type ctx) rule ∧ r = rule_result rule
       ∧ ∀ rule', rule' ∈ rules → applicable (ctx_call_type ctx) rule' → f64_le (pr_score rule') (pr_score rule) = true).
Proof.
  cbv zeta. unfold path_match_evaluate.
  set (results := map (λ '(path, operation), evaluate_path (PathMatchFilter_new rules) path operation) (path_operations (ctx_call_type ctx))).
  assert (Hin : ∀ x, x ∈ results ↔ ∃ path op, (path, op) ∈ path_operations (ctx_call_type ctx) ∧ x = evaluate_path (PathMatchFilter_new rules) path op).
  { intros x. unfold results. rewrite list_elem_of_fmap. split; [intros ([p o] & -> & ?)|intros (p & o & ? & ->)]; [by exists p, o|by exists (p, o)]. }
  assert (Hnum : Forall (λ x, is_number (fr_score x)) results).
  { apply Forall_forall. intros x (p & o & _ & ->)%Hin. by apply evaluate_path_number. }
  pose proof (worse_spec results Hnum) as Hb. destruct (fold_left worse results None) as [x|]; cbn [is_best default from_option id] in *.
  - destruct Hb as ((p & o & Hpo & Hx)%Hin & Hm & Hle). split; [by rewrite Hm|]. intros _.
    destruct (applied_result rules p o Hn) as [(rule & Hr & Ha & He & _)|[He _]]; [|rewrite Hx, He in Hm; done].
    exists rule. split; [done|]. split; [by exists p, o|]. split; [by rewrite Hx|]. intros rule' Hr' (p' & o' & Hpo' & Ha').
    destruct (applied_result rules p' o' Hn) as [(r'' & Hr'' & _ & He'' & Hb'')|[_ Hnone]]; [|by rewrite Hnone in Ha'].
    assert (Hl : f64_le (pr_score r'') (pr_score rule) = true).
    { change (pr_score r'') with (fr_score (rule_result r'')). change (pr_score rule) with (fr_score (rule_result rule)).
      rewrite <- He'', <- He, <- Hx. apply Hle; [apply Hin; by exists p', o'|by rewrite He'']. }
    rewrite Forall_forall in Hn. apply (f64_le_trans _ (pr_score r'')); [by apply Hn..|by apply Hb''|done].
  - split; [|done]. intros _ rule Hr (p & o & Hpo & Ha).
    destruct (applied_result rules p o Hn) as [(r' & _ & _ & He & _)|[_ Hnone]]; [|by rewrite Hnone in Ha].
    assert (Hf : fr_matched (evaluate_path (PathMatchFilter_new rules) p o) = false) by (apply Hb, Hin; by exists p, o).
    by rewrite He in Hf.
Qed.

(** An absolute path is judged alike however it is spelled: two spellings that lead
    to the same place, both or neither with a trailing slash, get the same result. *)
Theorem spelling_does_not_matter f a b op
    (Ha : starts_with "/" a = true) (Hb : starts_with "/" b = true)
    (Hna : contains "\" a = false) (Hnb : contains "\" b = false)
    (Hw : walk a = walk b) (Hs : ends_with "/" a = ends_with "/" b) :
  evaluate_path f a op = evaluate_path f b op.
Proof.
  unfold evaluate_path. replace (matched_path b) with (matched_path a); [done|].
  unfold matched_path. rewrite Hna, Hnb. by apply normalised_agrees.
Qed.

End Theorems.

(** ** Examples *)

(** A machine with no files. *)
Definition bare_filesystem : Filesystem := {|
  fs_exists _ := false; fs_is_dir _ := false; fs_canonicalize _ := inr NotFound; fs_metadata _ := None;
  lossy := id; is_utf8 _ := true; geteuid := 1000; home_dir := Some "/home/u"; config_dir := None;
  data_dir := None; cache_dir := None; current_dir := Some "/" |}.

Section Examples.
#[local] Existing Instances concrete_deps ascii_unicode bare_filesystem.

Definition example_rules : list PathRule :=
  [{| pr_id := "ssh-directory"; pr_pattern := "~/.ssh/*"; pr_operations := ["read"; "write"];
      pr_score := f64_of_Z 4; pr_severity := "error"; pr_message := "ssh"; pr_exclude := []; pr_weak_name_signal := false |};
   {| pr_id := "ssh-private-key"; pr_pattern := "~/.ssh/id_*"; pr_operations := ["read"];
      pr_score := f64_of_Z 8; pr_severity := "critical"; pr_message := "key"; pr_exclude := []; pr_weak_name_signal := false |}].

Definition example_call : ToolCallContext :=
  ToolCallContext_new uuid_a 0%Z "p" (FileRead "/home/u/./.ssh//id_rsa") uuid_b.

Lemma worst_rule_reported_witness :
  ∃ rule, rule ∈ example_rules ∧ applicable (ctx_call_type example_call) rule
    ∧ path_match_evaluate (PathMatchFilter_new example_rules) example_call = rule_result rule
    ∧ ∀ rule', rule' ∈ example_rules → applicable (ctx_call_type example_call) rule' →
        f64_le (pr_score rule') (pr_score rule) = true.
Proof. apply (worst_rule_reported example_rules example_call); [repeat constructor|vm_compute; reflexivity]. Defined.

Lemma spelling_does_not_matter_witness :
  evaluate_path (PathMatchFilter_new example_rules) "/home/u/./.ssh//id_rsa" "read"
  = evaluate_path (PathMatchFilter_new example_rules) "/home/x/../u/.ssh/id_rsa" "read".
Proof.
  apply (spelling_does_not_matter (PathMatchFilter_new example_rules) "/home/u/./.ssh//id_rsa" "/home/x/../u/.ssh/id_rsa" "read");
    reflexivity.
Defined.

Lemma backup_copies_keep_the_rule_witness :
  matches (BasenameGlob "*.pem") "/p/server.pem" = true ∧ matches (BasenameGlob "*.pem") "/p/server.pem.bak" = true.
Proof.
  apply (backup_copies_keep_the_rule "*.pem" "/p" "server.pem" ".bak"); [reflexivity|done|reflexivity|by left|].
  change (chars "*.pem") with ["*"; "."; "p"; "e"; "m"].
  change (chars "server.pem") with (["s"; "e"; "r"; "v"; "e"; "r"] ++ ["."; "p"; "e"; "m"]).
  apply fills_star; [set_solver|repeat (apply fills_char; [done|]); apply fills_nil].
Defined.

(** The place decides: a directory named like a protected one elsewhere is not matched,
    a home that is not where homes usually are is. *)
Example anchored :
  map (matches (compile_pattern "/etc/*")) ["/etc/passwd"; "/p/etc/roles"; "/etc"] = [true; false; false]
  ∧ map (matches (compile_pattern "~/.ssh/*")) ["/root/.ssh/x"; "/var/lib/svc/.ssh/x"; "/p/backup.ssh/x"] = [true; true; false].
Proof. split; reflexivity. Qed.

(** Only the case of a name's backup is folded: a rule is not matched in other letters. *)
Example case_matters :
  matches (compile_pattern "*.pem") "/p/SERVER.PEM" = false ∧ matches (compile_pattern "*.pem") "/p/SERVER.PEM.bak" = true.
Proof. split; reflexivity. Qed.

(** A name keeps its rule behind one suffix, not behind two. *)
Example two_suffixes : matches (compile_pattern "*.pem") "/p/server.pem.bak.bak" = false.
Proof. reflexivity. Qed.

End Examples.
