(* ===== verification/SensitivePathFilter.v ===== *)
(** * The sensitive-path heuristic

    [grith-proxy/src/filters/sensitive_path.rs]: the built-in rules on paths, each as
    the hit it adds, and the worst hit of every path a call carries.  A write never
    scores below a read of the same path, a link, a rename or a mount never below what
    it stands for, and a read of a credential store is put before a human, with the
    exceptions the theorems list. *)

From Stdlib Require Import Ascii String Lia.
From stdpp Require Import base strings list option.
From S2P Require Import Prelude Concrete F64 Types Scoring SessionState Filters Paths SensitivePaths PathNames PathMatch.

#[local] Open Scope string_scope.
#[local] Open Scope list_scope.

(** ** Tables *)

Definition is_sensitive_etc_path (path_lc : string) : bool :=
  contains "shadow" path_lc
  || contains "/sudoers" path_lc
  || contains "/private/" path_lc
  || contains "/ssl/private" path_lc
  || contains "/krb5.keytab" path_lc
  || contains "/security/opasswd" path_lc
  || (contains "/ssh/" path_lc && contains "ssh_host" path_lc && ends_with "_key" path_lc)
  || contains "/kubernetes/" path_lc
  || contains "/rancher/" path_lc
  || contains "/wpa_supplicant" path_lc
  || contains "/networkmanager/system-connections" path_lc
  || contains "/grafana/" path_lc
  || contains "/gitlab/" path_lc
  || contains "/libvirt/" path_lc
  || ends_with "/debian.cnf" path_lc.

Definition SHADOWABLE_SYSTEM_COMMANDS : list string :=
  ["sh"; "bash"; "zsh"; "dash"; "fish"; "ksh"; "env"; "sudo"; "su"; "doas"; "pkexec";
   "ls"; "cat"; "cp"; "mv"; "rm"; "ln"; "mkdir"; "chmod"; "chown"; "touch"; "echo"; "find"; "grep";
   "egrep"; "sed"; "awk"; "sort"; "head"; "tail"; "cut"; "tr"; "tee"; "xargs"; "tar"; "gzip"; "ps";
   "kill"; "mount"; "umount"; "dd"; "less"; "more";
   "git"; "ssh"; "scp"; "sftp"; "ssh-add"; "ssh-agent"; "ssh-keygen"; "gpg"; "gpg2"; "openssl";
   "passwd"; "login"; "sshd"; "keychain";
   "python"; "python2"; "python3"; "node"; "ruby"; "perl"; "php"; "go"; "rustc"; "java"; "gcc"; "cc";
   "clang"; "ld"; "make";
   "pip"; "pip3"; "npm"; "npx"; "yarn"; "pnpm"; "gem"; "cargo"; "go"; "apt"; "apt-get"; "dpkg"; "yum";
   "dnf"; "rpm"; "brew"; "snap"; "pacman"; "pipx";
   "curl"; "wget"; "nc"; "ncat"; "netcat"; "socat"; "rsync"; "ftp";
   "docker"; "podman"; "kubectl"; "systemctl"; "service"; "crontab"; "at"; "launchctl"].

Definition shadows_system_command (basename : string) : bool := str_mem basename SHADOWABLE_SYSTEM_COMMANDS.

Definition is_path_executable_dir (path_lc : string) : bool :=
  existsb (λ p, starts_with p path_lc)
    ["/usr/bin/"; "/bin/"; "/usr/local/bin/"; "/usr/sbin/"; "/sbin/"; "/usr/local/sbin/"]
  || contains "/.local/bin/" path_lc.

Definition NSS_CERT_STORE_CHANGE_SCORE : f64 := f64_dec 15 1.

Definition is_nss_shared_db_path (path_lc : string) : bool := contains "/.pki/nssdb/" path_lc.

Definition proc_cross_process_secret (path : string) : bool :=
  match strip_prefix "/proc/" path with
  | None => false
  | Some rest =>
      if starts_with "self/" rest || starts_with "thread-self/" rest then false
      else
        let '(pid, sub) := default (rest, "") (split_once "/" rest) in
        is_digits pid && (String.eqb sub "environ" || String.eqb sub "mem")
  end.

Definition os_secret_stores : list string :=
  ["/windows/system32/config/sam"; "/windows/system32/config/security"; "/windows/system32/config/system";
   "/etc/krb5.keytab"; "/var/lib/sss/"; "/library/keychains/"; "/system/library/keychains/";
   "/appdata/microsoft/credentials/"; "/appdata/microsoft/crypto/rsa/"].

Definition credential_markers : list string :=
  ["/.ssh/"; "/.gnupg/"; "/.pki/"; "/.aws/"; "/.azure/"; "/.kube/"; "/.docker/"; "/.config/gcloud/";
   "/appdata/gcloud/"; "/appdata/gnupg/"; "/appdata/roaming/gnupg/"].

Definition browser_profile_markers : list string :=
  ["/google/chrome/user data/"; "/microsoft/edge/user data/"; "/mozilla/firefox/";
   "/.config/chromium/"; "/.config/google-chrome/"; "/.config/microsoft-edge/"; "/.config/brave/";
   "/.config/vivaldi/"; "/.config/opera/"; "/snap/chromium/";
   "/library/application support/google/chrome/"; "/library/application support/chromium/";
   "/library/application support/microsoft edge/"; "/library/application support/brave browser/";
   "/library/application support/vivaldi/";
   "/appdata/local/google/chrome/"; "/appdata/local/microsoft/edge/"].

Definition ENV_TEMPLATE_SUFFIXES : list string := ["example"; "sample"; "template"; "dist"; "defaults"].

Definition CHROMIUM_MARKERS : list string :=
  ["Login Data"; "Preferences"; "Secure Preferences"; "History"; "Bookmarks"; "Favicons"; "Top Sites"].

(** ** Hits *)

Record HeuristicHit := { hit_rule_id : string; hit_score : f64; hit_severity : Severity; hit_message : string }.

Definition hit (rule_id : string) (score : f64) (severity : Severity) (message : string) : option HeuristicHit :=
  Some {| hit_rule_id := rule_id; hit_score := score; hit_severity := severity; hit_message := message |}.

(** [Path::parent] of a text, joined with a name. *)
Definition component_name (c : Component) : option string :=
  match c with Normal name => Some name | ParentDir => Some ".." | RootDir | CurDir => None end.

Definition parent_join (path name : string) : option PathBuf :=
  let comps := components_of path in
  match last comps with
  | None | Some RootDir => None
  | Some _ => Some {| p_absolute := starts_with "/" path;
                      p_components := omap component_name (take (length comps - 1) comps) ++ [name] |}
  end.

Section Filter.
Context `{D : Deps} `{Unicode} `{Filesystem}.

Definition has_sibling_chromium_marker (path : string) : bool :=
  existsb (λ m, from_option fs_exists false (parent_join path m)) CHROMIUM_MARKERS.

Definition normalize_path_for_match (path : string) : string := to_lowercase (replace_char "\"%char "/"%char path).

Definition normalized_file_name (path_lc : string) : string := after_last "/"%char path_lc.

Definition sp_operation_for_call_type (t : ToolCallType) : option string :=
  match t with
  | FileRead _ => Some "read"
  | FileWrite _ _ | FileAppend _ => Some "write"
  | FileDelete _ => Some "delete"
  | DirList _ => Some "list"
  | FileRename _ _ | FileChmod _ _ | DirCreate _ => Some "write"
  | _ => None
  end.

Definition is_destructive (op : string) : bool := String.eqb op "write" || String.eqb op "delete".

Definition etc_hit (op path_lc : string) : option HeuristicHit :=
  let destructive := is_destructive op in
  if negb (starts_with "/etc/" path_lc) then None
  else if is_sensitive_etc_path path_lc then
    hit "system-etc-path" (f64_of_Z (if destructive then 4 else 3)) (if destructive then SevError else SevWarning)
      (op +:+ " access to sensitive system config path")
  else if destructive then
    hit "system-etc-write" (f64_of_Z 3) SevWarning (op +:+ " modifies a system config path")
  else hit "system-etc-config-read" (f64_dec 5 1) SevNotice (op +:+ " reads a system config path").

Definition os_secret_hit (op path_lc : string) : option HeuristicHit :=
  if existsb (λ m, contains m path_lc) os_secret_stores then
    hit "os-secret-store" (if is_destructive op then f64_of_Z 5 else f64_dec 42 1) SevCritical
      (op +:+ " access to OS credential store")
  else None.

Definition kernel_hit (op path_lc : string) : option HeuristicHit :=
  if proc_cross_process_secret path_lc then
    hit "cross-process-memory" (f64_dec 45 1) SevError (op +:+ " access to another process's environment/memory")
  else if starts_with "/proc/" path_lc || starts_with "/sys/" path_lc then
    hit "kernel-interface-path" (if is_destructive op then f64_of_Z 4 else f64_dec 25 1) SevWarning
      (op +:+ " access to kernel interface path")
  else None.

Definition ssh_metadata_read (op path_lc : string) : bool :=
  String.eqb op "read"
  && str_mem (normalized_file_name path_lc) ["config"; "known_hosts"; "known_hosts2"]
  && contains "/.ssh/" path_lc.

(** The loop ends at the first marker of the path. *)
Definition credential_directory_hit (op path_lc : string) : option HeuristicHit :=
  let enumerate := String.eqb op "list" in
  match List.find (λ marker, contains marker path_lc) credential_markers with
  | None => None
  | Some marker =>
      if String.eqb marker "/.ssh/" && ssh_metadata_read op path_lc then None
      else
        hit (if enumerate then "credential-directory-listing" else "credential-directory")
          (if is_destructive op then f64_dec 45 1 else if enumerate then f64_dec 5 1 else f64_of_Z 4)
          (if is_destructive op then SevError else if enumerate then SevWarning else SevError)
          (if enumerate then "listed the names in a credential directory"
           else op +:+ " access to credential directory")
  end.

Definition grith_hit (op path_lc : string) : option HeuristicHit :=
  if contains "/.config/grith/" path_lc || contains "/config/grith/" path_lc then
    hit "grith-self-access" (if is_destructive op then f64_of_Z 5 else f64_dec 45 1) SevError
      (op +:+ " access to grith's own state directory")
  else None.

Definition persistence_hit (op path_lc : string) : option HeuristicHit :=
  if contains "/var/run/docker.sock" path_lc || contains "/etc/systemd/" path_lc || starts_with "/boot/" path_lc
     || contains "/.config/systemd/" path_lc || contains "/.config/autostart/" path_lc || contains "/etc/cron" path_lc
     || starts_with "/system/" path_lc || contains "/library/launchdaemons/" path_lc
     || contains "/programdata/microsoft/windows/start menu/programs/startup/" path_lc
  then hit "persistence-or-control-path" (f64_of_Z (if is_destructive op then 4 else 3)) SevWarning
         (op +:+ " access to persistence/control path")
  else None.

Definition shadow_hit (op path_lc : string) : option HeuristicHit :=
  let file_name_lc := normalized_file_name path_lc in
  if is_destructive op && is_path_executable_dir path_lc && shadows_system_command file_name_lc then
    hit "path-shadow-write" (f64_of_Z 4) SevError
      (op +:+ " writes a binary shadowing system command '" +:+ file_name_lc +:+ "'")
  else None.

Definition browser_hit (op path path_lc : string) (dir_create : bool) : option HeuristicHit :=
  let destructive := is_destructive op in
  let file_name_lc := normalized_file_name path_lc in
  let browser_profile_path := existsb (λ m, contains m path_lc) browser_profile_markers in
  let distinctive_browser_credential_file :=
    str_mem file_name_lc ["login data"; "secure preferences"; "key4.db"; "cert9.db"; "cert8.db"; "logins.json";
                          "signons.sqlite"; "signedinusers.json"] in
  let copy_out_or_removal := destructive && negb dir_create in
  let generic_browser_credential_file :=
    str_mem file_name_lc ["cookies"; "web data"; "local state"; "network persistent state"; "wallet"]
    && negb (is_name_opaque_tree path)
    && (browser_profile_path || copy_out_or_removal || has_sibling_chromium_marker path) in
  let credential_file_hit := distinctive_browser_credential_file || generic_browser_credential_file in
  if browser_profile_path || credential_file_hit then
    hit "browser-session-data"
      (match destructive, credential_file_hit with
       | true, _ => f64_of_Z 4
       | false, true => f64_dec 35 1
       | false, false => f64_of_Z 3
       end) SevWarning (op +:+ " access to browser session/credential data")
  else None.

Definition key_hit (op path_lc : string) : option HeuristicHit :=
  let key_name := strip_backup_suffix (normalized_file_name path_lc) in
  if ends_with ".pem" key_name || ends_with ".key" key_name || ends_with ".p12" key_name || ends_with ".pfx" key_name
     || str_mem key_name ["id_rsa"; "id_ed25519"; "id_dsa"; "id_ecdsa"]
  then hit "key-material-file" (f64_of_Z (if is_destructive op then 5 else 4)) SevError
         (op +:+ " access to key/certificate file")
  else None.

Definition env_hit (op path_lc : string) : option HeuristicHit :=
  let file_name_lc := normalized_file_name path_lc in
  let is_env_template := from_option (λ suffix, str_mem suffix ENV_TEMPLATE_SUFFIXES) false
                           (strip_prefix ".env." file_name_lc) in
  if (String.eqb file_name_lc ".env" || starts_with ".env." file_name_lc) && negb is_env_template then
    hit "env-file-heuristic" (if is_destructive op then f64_dec 35 1 else f64_of_Z 3) SevWarning
      (op +:+ " access to environment file")
  else None.

Definition shape_hit (op path_lc : string) : option HeuristicHit :=
  if is_structured_credential_filename (normalized_file_name path_lc) then
    hit "credential-file-shape" (if is_destructive op then f64_of_Z 4 else f64_dec 35 1) SevError
      (op +:+ " access to a credential file")
  else None.

Definition name_hit (op path path_lc : string) : option HeuristicHit :=
  let file_name_lc := normalized_file_name path_lc in
  let file_name := after_last "/"%char (replace_char "\"%char "/"%char path) in
  if name_has_sensitive_token file_name && negb (is_source_code_filename file_name_lc)
     && negb (is_non_credential_artifact_filename file_name_lc)
     && negb (is_migration_sql_filename file_name_lc path_lc) && negb (is_name_opaque_tree path)
  then hit "secretish-filename" (if is_destructive op then f64_dec 35 1 else f64_dec 28 1) SevWarning
         (op +:+ " access to sensitive-looking filename")
  else None.

Definition rule_hits (path op : string) (dir_create : bool) : list (option HeuristicHit) :=
  let path_lc := normalize_path_for_match path in
          [etc_hit op path_lc; os_secret_hit op path_lc; kernel_hit op path_lc; credential_directory_hit op path_lc;
           grith_hit op path_lc; persistence_hit op path_lc; shadow_hit op path_lc; browser_hit op path path_lc dir_create;
           key_hit op path_lc; env_hit op path_lc; shape_hit op path_lc; name_hit op path path_lc].

Definition hits (path op : string) (dir_create : bool) : list HeuristicHit := omap id (rule_hits path op dir_create).

(** [max_by] with [total_cmp], the last of equals; the scores are positive constants,
    which [total_cmp] orders as numbers. *)
Definition max_hit (best : option HeuristicHit) (h : HeuristicHit) : option HeuristicHit :=
  match best with
  | Some b => if f64_gt (hit_score b) (hit_score h) then best else Some h
  | None => Some h
  end.

Definition sp_evaluate_path (path op : string) (dir_create : bool) : FilterResult :=
  let path_lc := normalize_path_for_match path in
  if is_nss_shared_db_path path_lc then
    if is_destructive op then
      matched "sensitive-path-heuristic" "nss-cert-store-change" NSS_CERT_STORE_CHANGE_SCORE SevNotice
        (op +:+ " to the NSS shared certificate store (~/.pki/nssdb)")
    else no_match "sensitive-path-heuristic"
  else
    match fold_left max_hit (hits path op dir_create) None with
    | None => no_match "sensitive-path-heuristic"
    | Some best => matched "sensitive-path-heuristic" (hit_rule_id best) (hit_score best) (hit_severity best)
                     (hit_message best)
    end.

Definition evaluate_filesystem_mutation (source : option string) (target : string) : FilterResult :=
  let candidates :=
    match source with
    | Some src => (src, "read") :: (if ends_with "/" src then [] else [(src +:+ "/", "read")])
    | None => []
    end ++ [(target, "write")] in
  default (no_match "sensitive-path-heuristic")
    (fold_left worse (map (λ '(path, op), sp_evaluate_path path op false) candidates) None).

(** [evaluate] looks at the call alone. *)
Definition sensitive_path_verdict (t : ToolCallType) : FilterResult :=
  match t with
  | FilesystemMutation _ source target _ => evaluate_filesystem_mutation source target
  | _ =>
      let handled := match sp_operation_for_call_type t, t with
                     | Some _, _ | None, FileLink _ _ _ => true
                     | None, _ => false
                     end in
      if negb handled then no_match "sensitive-path-heuristic"
      else
        let dir_create := match t with DirCreate _ => true | _ => false end in
        let step worst '(path, op) :=
          let result := sp_evaluate_path path op dir_create in
          if dir_create && String.eqb (fr_rule_id result) "secretish-filename" then worst
          else worse worst result in
        default (no_match "sensitive-path-heuristic") (fold_left step (path_operations t) None)
  end.

Definition sensitive_path_evaluate (ctx : ToolCallContext) : FilterResult := sensitive_path_verdict (ctx_call_type ctx).

Definition sensitive_path_filter {FS} : SecurityFilter FS :=
  {| sf_name := "sensitive-path-heuristic"; sf_phase := Static; sf_is_ready _ := true;
     sf_evaluate ctx w := (Some (sensitive_path_evaluate ctx), w);
     sf_evict_session_state _ w := (0, w); sf_observe_outcome _ _ _ w := w |}.

(** ** The worst hit *)

Definition proper_score (x : f64) : Prop := is_number x ∧ f64_le f64_zero x = true.

Lemma hit_Some rule_id score severity message h :
  hit rule_id score severity message = Some h → hit_score h = score.
Proof. by intros [= <-]. Qed.

Ltac unfold_hits :=
  unfold etc_hit, os_secret_hit, kernel_hit, credential_directory_hit, grith_hit, persistence_hit, shadow_hit,
    browser_hit, key_hit, env_hit, shape_hit, name_hit in *; cbv zeta in *.

Lemma hits_proper path op dir_create : Forall (λ h, proper_score (hit_score h)) (hits path op dir_create).
Proof.
  apply Forall_forall. intros h. unfold hits, rule_hits. cbv zeta. rewrite list_elem_of_omap. intros (o & Ho & Hh).
  cbn in Hh. subst o. rewrite !elem_of_cons in Ho.
  destruct_or? Ho; try (by apply not_elem_of_nil in Ho); symmetry in Ho; unfold_hits;
    repeat case_match; try done; apply hit_Some in Ho; rewrite Ho; repeat split.
Qed.

Lemma max_hit_spec l : Forall (λ h, proper_score (hit_score h)) l → is_best (λ _, true) hit_score l (fold_left max_hit l None).
Proof.
  intros Hp. pose proof (keep_best_spec (λ _, true) hit_score (λ b h, f64_gt (hit_score b) (hit_score h))) as Hs.
  apply Hs; [..|by eapply Forall_impl; [exact Hp|intros h [? ?]]]; intros b x [Hb Hnb] [Hx Hnx] Hg.
  - rewrite f64_le_or_gt by done. apply negb_true_iff. by apply f64_lt_asym.
  - by apply f64_lt_false_le.
Qed.

(** The score of a path bounds its hits from above, and is zero without one. *)
Definition sp_score (path op : string) (dir_create : bool) : f64 := fr_score (sp_evaluate_path path op dir_create).

Lemma sp_score_hit path op dc h : is_nss_shared_db_path (normalize_path_for_match path) = false →
  h ∈ hits path op dc → f64_le (hit_score h) (sp_score path op dc) = true.
Proof.
  intros Hnss Hh. unfold sp_score, sp_evaluate_path. cbv zeta. rewrite Hnss.
  pose proof (max_hit_spec _ (hits_proper path op dc)) as Hb. destruct (fold_left max_hit _ None) as [b|]; cbn in *.
  - by apply Hb.
  - by specialize (Hb h Hh).
Qed.
Lemma sp_score_cases path op dc :
  sp_score path op dc = f64_zero
  ∨ sp_score path op dc = NSS_CERT_STORE_CHANGE_SCORE ∧ is_destructive op = true
    ∧ is_nss_shared_db_path (normalize_path_for_match path) = true
  ∨ is_nss_shared_db_path (normalize_path_for_match path) = false
    ∧ ∃ h, h ∈ hits path op dc ∧ sp_score path op dc = hit_score h.
Proof.
  unfold sp_score, sp_evaluate_path. cbv zeta. destruct (is_nss_shared_db_path _).
  { destruct (is_destructive op); [right; left; done|by left]. }
  pose proof (max_hit_spec _ (hits_proper path op dc)) as Hb. destruct (fold_left max_hit _ None) as [b|]; [|by left].
  right; right. split; [done|]. destruct Hb as (Hb & _). by exists b.
Qed.

Lemma sp_score_proper path op dc : proper_score (sp_score path op dc).
Proof.
  destruct (sp_score_cases path op dc) as [->|[(-> & _)|(_ & h & Hh & ->)]]; [done..|].
  by apply (proj1 (Forall_forall _ _) (hits_proper path op dc)).
Qed.

Lemma sp_matched_score path op dc : fr_matched (sp_evaluate_path path op dc) = false → sp_score path op dc = f64_zero.
Proof. unfold sp_score, sp_evaluate_path. cbv zeta. by repeat case_match. Qed.

(** ** Writes and reads *)

Abbreviation dominated := (dominated_by hit_score).

Lemma dominated_None o : dominated None o.
Proof. done. Qed.

Lemma dominated_hit r s v m r' s' v' m' : f64_le s s' = true → dominated (hit r s v m) (hit r' s' v' m').
Proof. intros Hs h [= <-]. by eexists. Qed.

Lemma dominated_if (c : bool) o1 o2 o1' o2' : dominated o1 o1' → dominated o2 o2' →
  dominated (if c then o1 else o2) (if c then o1' else o2').
Proof. by destruct c. Qed.

Lemma dominated_impl (c c' : bool) o o' : (c = true → c' = true) → dominated o o' →
  dominated (if c then o else None) (if c' then o' else None).
Proof. intros Hc Ho. destruct c; [by rewrite Hc|done]. Qed.

(** Each rule scores a change at least as it scores a read. *)
Lemma etc_dominated op lc : is_destructive op = true → dominated (etc_hit "read" lc) (etc_hit op lc).
Proof.
  intros Hop. unfold etc_hit. rewrite Hop. change (is_destructive "read") with false. cbv zeta iota.
  apply dominated_if; [done|]. apply dominated_if; by apply dominated_hit.
Qed.

Lemma kernel_dominated op lc : is_destructive op = true → dominated (kernel_hit "read" lc) (kernel_hit op lc).
Proof.
  intros Hop. unfold kernel_hit. rewrite Hop. change (is_destructive "read") with false.
  apply dominated_if; [by apply dominated_hit|]. apply dominated_if; [by apply dominated_hit|done].
Qed.

Lemma directory_dominated op lc : is_destructive op = true →
  dominated (credential_directory_hit "read" lc) (credential_directory_hit op lc).
Proof.
  intros Hop. unfold credential_directory_hit. cbv zeta. destruct (List.find _ _) as [m|]; [|done].
  assert (Hm : ssh_metadata_read op lc = false).
  { unfold ssh_metadata_read. destruct (String.eqb_spec op "read") as [->|]; [done|reflexivity]. }
  rewrite Hm, andb_false_r, Hop. destruct (_ && ssh_metadata_read "read" lc); [done|]. by apply dominated_hit.
Qed.

Lemma browser_dominated op path lc dc dc' : is_destructive op = true →
  dominated (browser_hit "read" path lc dc) (browser_hit op path lc dc').
Proof.
  intros Hop. unfold browser_hit. cbv zeta. rewrite Hop. change (is_destructive "read") with false.
  set (profile := existsb _ browser_profile_markers). set (named := str_mem _ _). set (generic := str_mem _ _).
  set (opaque := is_name_opaque_tree path). set (sibling := has_sibling_chromium_marker path).
  cbv iota. apply dominated_impl; [|destruct named, generic, opaque, profile, sibling; by apply dominated_hit].
  destruct profile, named, generic, opaque, sibling, dc'; done.
Qed.

Lemma rules_dominated path op dc dc' : is_destructive op = true →
  Forall2 dominated (rule_hits path "read" dc) (rule_hits path op dc').
Proof.
  intros Hop. unfold rule_hits. cbv zeta. set (lc := normalize_path_for_match path).
  constructor; [by apply etc_dominated|].
  constructor. { unfold os_secret_hit. rewrite Hop. by apply dominated_if; [apply dominated_hit|]. }
  constructor; [by apply kernel_dominated|].
  constructor; [by apply directory_dominated|].
  constructor. { unfold grith_hit. rewrite Hop. by apply dominated_if; [apply dominated_hit|]. }
  constructor. { unfold persistence_hit. rewrite Hop. by apply dominated_if; [apply dominated_hit|]. }
  constructor; [done|].
  constructor; [by apply browser_dominated|].
  constructor. { unfold key_hit. rewrite Hop. by apply dominated_if; [apply dominated_hit|]. }
  constructor. { unfold env_hit. rewrite Hop. by apply dominated_if; [apply dominated_hit|]. }
  constructor. { unfold shape_hit. rewrite Hop. by apply dominated_if; [apply dominated_hit|]. }
  constructor. { unfold name_hit. rewrite Hop. by apply dominated_if; [apply dominated_hit|]. }
  constructor.
Qed.

Lemma read_dominated path op dc dc' h : is_destructive op = true → h ∈ hits path "read" dc →
  ∃ h', h' ∈ hits path op dc' ∧ f64_le (hit_score h) (hit_score h') = true.
Proof. intros Hop. apply omap_dominated. by apply rules_dominated. Qed.

Lemma f64_le_proper_trans x y z : proper_score x → proper_score y → proper_score z →
  f64_le x y = true → f64_le y z = true → f64_le x z = true.
Proof. intros [[? _] _] [[? _] _] [[? _] _]. by apply f64_le_trans. Qed.

(** Changing a path never scores below reading it: whatever the path, the score of
    a write or a delete (or of making a directory) is at least that of a read. *)
Theorem changes_cost_more path op dir_create dir_create' (Hop : is_destructive op = true) :
  f64_le (sp_score path "read" dir_create) (sp_score path op dir_create') = true.
Proof.
  destruct (sp_score_cases path "read" dir_create) as [->|[(_ & ? & _)|(Hn & h & Hh & ->)]]; [|done|].
  - apply sp_score_proper.
  - destruct (read_dominated path op dir_create dir_create' h Hop Hh) as (h' & Hh' & Hle).
    apply (f64_le_proper_trans _ (hit_score h')); [..|done|by apply sp_score_hit].
    + apply (proj1 (Forall_forall _ _) (hits_proper path "read" dir_create)), Hh.
    + apply (proj1 (Forall_forall _ _) (hits_proper path op dir_create')), Hh'.
    + apply sp_score_proper.
Qed.
(** ** Links, renames and mounts *)

Definition verdict_score (t : ToolCallType) : f64 := fr_score (sensitive_path_verdict t).

Lemma worst_of pairs path op : (path, op) ∈ pairs →
  f64_le (sp_score path op false)
    (fr_score (default (no_match "sensitive-path-heuristic")
       (fold_left worse (map (λ '(path, op), sp_evaluate_path path op false) pairs) None))) = true.
Proof.
  intros Hin. set (results := map _ pairs).
  assert (Hx : sp_evaluate_path path op false ∈ results) by (apply list_elem_of_fmap; by exists (path, op)).
  assert (Hnum : Forall (λ x, is_number (fr_score x)) results).
  { apply Forall_forall. intros x ([p o] & -> & _)%list_elem_of_fmap. apply sp_score_proper. }
  pose proof (worse_spec results Hnum) as Hb.
  destruct (fr_matched (sp_evaluate_path path op false)) eqn:Hm.
  - destruct (fold_left worse results None) as [b|]; cbn [is_best default from_option id] in *.
    + by apply Hb.
    + by rewrite Hb in Hm.
  - rewrite (sp_matched_score _ _ _ Hm). destruct (fold_left worse results None) as [b|]; [|done].
    destruct Hb as (([p o] & -> & _)%list_elem_of_fmap & _). cbn [default from_option id]. apply sp_score_proper.
Qed.

Lemma fold_pairs pairs :
  fold_left (λ worst '(path, op), worse worst (sp_evaluate_path path op false)) pairs None
  = fold_left worse (map (λ '(path, op), sp_evaluate_path path op false) pairs) None.
Proof.
  generalize (@None FilterResult). induction pairs as [|[p o] pairs IH]; intros w; [done|]. cbn. apply IH.
Qed.

(** The verdict on a call of one path is that of the path. *)
Lemma single_score path op t : path_operations t = [(path, op)] →
  sensitive_path_verdict t = default (no_match "sensitive-path-heuristic")
    (fold_left (λ worst '(path, op), worse worst (sp_evaluate_path path op false)) (path_operations t) None) →
  verdict_score t = sp_score path op false.
Proof.
  intros Hp Hv. unfold verdict_score. rewrite Hv, Hp. cbn. unfold worse. rewrite andb_true_r.
  destruct (fr_matched _) eqn:Hm; [done|]. symmetry. by apply sp_matched_score.
Qed.

Lemma read_score path : verdict_score (FileRead path) = sp_score path "read" false.
Proof. by apply single_score. Qed.

Lemma write_score path content : verdict_score (FileWrite path content) = sp_score path "write" false.
Proof. by apply single_score. Qed.

(** What makes a file reachable by another name is never cheaper than what it
    stands for: a link scores at least as a read of its target and a write of its name,
    a rename as a write of either name, a mount as a read of its source and a write of
    its target. *)
Theorem indirection_never_cheaper target name content symbolic op fstype :
  (f64_le (verdict_score (FileRead target)) (verdict_score (FileLink target name symbolic)) = true
   ∧ f64_le (verdict_score (FileWrite name content)) (verdict_score (FileLink target name symbolic)) = true)
  ∧ (f64_le (verdict_score (FileWrite target content)) (verdict_score (FileRename target name)) = true
     ∧ f64_le (verdict_score (FileWrite name content)) (verdict_score (FileRename target name)) = true)
  ∧ f64_le (verdict_score (FileRead target)) (verdict_score (FilesystemMutation op (Some target) name fstype)) = true
  ∧ f64_le (verdict_score (FileWrite name content)) (verdict_score (FilesystemMutation op (Some target) name fstype)) = true.
Proof.
  rewrite !read_score, !write_score. unfold verdict_score. cbn [sensitive_path_verdict sp_operation_for_call_type negb andb].
  cbv zeta. rewrite !fold_pairs. cbn [path_operations]. unfold evaluate_filesystem_mutation. cbv zeta.
  repeat split; apply worst_of; repeat (apply elem_of_cons; (by left) || right).
  destruct (ends_with "/" target); [by left|right; by left].
Qed.
(** ** Credential stores *)

Definition above_allow (x : f64) : Prop := f64_gt x SCORE_QUEUE_THRESHOLD = true.

Definition fires (o : option HeuristicHit) : Prop := ∃ h, o = Some h ∧ above_allow (hit_score h).

Lemma fires_if (c : bool) rule_id score severity message o : c = true → above_allow score →
  fires (if c then hit rule_id score severity message else o).
Proof. intros -> Hs. by eexists. Qed.

Lemma hit_above path op dc o : is_nss_shared_db_path (normalize_path_for_match path) = false →
  o ∈ rule_hits path op dc → fires o → above_allow (sp_score path op dc).
Proof.
  intros Hnss Ho (h & -> & Ha). assert (Hh : h ∈ hits path op dc) by (apply list_elem_of_omap; by exists (Some h)).
  change (f64_lt SCORE_QUEUE_THRESHOLD (sp_score path op dc) = true). apply (f64_lt_le_trans _ (hit_score h)); [done|..|done|by apply sp_score_hit].
  - apply (proj1 (Forall_forall _ _) (hits_proper path op dc)), Hh.
  - apply sp_score_proper.
Qed.

Ltac in_rules := unfold rule_hits; cbv zeta; repeat (apply elem_of_cons; (by left) || right).

(** What the supervisor calls a credential store and this filter lets be read. *)
Definition unscored_store (path : string) : Prop :=
  let lc := normalize_path_for_match path in
  is_nss_shared_db_path lc = true
  ∨ ssh_metadata_read "read" lc = true
  ∨ existsb (λ d, ends_with d (lc +:+ "/")) credential_dirs = true
  ∨ str_mem (normalized_file_name lc) [".netrc"; ".npmrc"; ".pypirc"; ".pgpass"; ".git-credentials"] = true
  ∨ contains "/etc/shadow" lc = true ∨ contains "/etc/sudoers" lc = true.

Lemma string_snoc s : s = "" ∨ ∃ t c, s = t +:+ String c "".
Proof.
  induction s as [|a s [->|(t & c & ->)]]; [by left| |]; right; [by exists "", a|by exists (String a t), c].
Qed.

Lemma prefix_snoc needle s c r : s +:+ String c "" = needle +:+ r → r = "" ∨ ∃ q, s = needle +:+ q.
Proof.
  intros He. destruct (string_snoc r) as [->|(q & x & ->)]; [by left|]. right. exists q.
  rewrite <- append_assoc in He. pose proof (f_equal String.length He) as Hl. rewrite !length_append in Hl. cbn in Hl.
  destruct (append_inj_length s (needle +:+ q) (String c "") (String x "")) as [-> _]; [rewrite length_append; lia|done|done].
Qed.

Lemma contains_snoc needle s c : contains needle (s +:+ String c "") = true → contains needle s = false →
  ends_with needle (s +:+ String c "") = true.
Proof.
  intros (p & q & Hp)%contains_spec Hn. rewrite <- append_assoc in Hp.
  destruct (prefix_snoc _ _ _ _ Hp) as [->|[r ->]].
  - rewrite Hp, append_nil_r. apply ends_with_spec. by exists p.
  - apply not_true_iff_false in Hn. destruct Hn. apply contains_spec. exists p, r. by rewrite append_assoc.
Qed.

(** Bytes that normalisation leaves as they are. *)
Definition settled (c : ascii) : bool :=
  (N_of_ascii c <? 128)%N && ascii_eqb (ascii_lower c) c && negb (ascii_eqb c "\"%char).

Lemma settled_normalised `{!UnicodeLaws} s : str_all settled s = true → normalize_path_for_match s = s.
Proof.
  intros Hs. unfold normalize_path_for_match.
  assert (Hall : replace_char "\"%char "/"%char s = s ∧ is_ascii s = true ∧ to_ascii_lowercase s = s).
  { induction s as [|c s IH]; [done|]. cbn [str_all] in Hs. apply andb_true_iff in Hs as [Hc Hs].
    destruct (IH Hs) as (Hr & Ha & Hl). unfold settled in Hc. rewrite !andb_true_iff, negb_true_iff in Hc.
    destruct Hc as [[Hc1 Hc2%Ascii.eqb_eq] Hc3]. cbn.
    change (list_ascii_of_string (String c s)) with (c :: list_ascii_of_string s).
    unfold is_ascii in *. cbn [forallb list_ascii_of_string]. by rewrite Hc3, Hr, Hc1, Ha, Hc2, Hl. }
  destruct Hall as (-> & Ha & Hl). by rewrite to_lowercase_ascii.
Qed.

Lemma digits_settled s : is_digits s = true → str_all settled s = true.
Proof.
  intros [_ Hd]%andb_true_iff. induction s as [|c s IH]; [done|]. cbn in Hd. apply andb_true_iff in Hd as [Hc Hd].
  cbn. rewrite IH by done. rewrite andb_true_r. clear IH Hd.
  destruct c as [[] [] [] [] [] [] [] []]; done.
Qed.

Lemma proc_secret_normalised `{!UnicodeLaws} path : is_cross_process_secret_proc_path path = true →
  normalize_path_for_match path = path.
Proof.
  unfold is_cross_process_secret_proc_path. destruct (strip_prefix "/proc/" path) as [rest|] eqn:Ep; [|done].
  apply strip_prefix_Some in Ep as ->. destruct (_ || _); [done|].
  destruct (split_once "/" rest) as [[pid sub]|] eqn:Es; cbn [default from_option id].
  - apply split_once_Some in Es as ->. intros [Hpid Hsub]%andb_true_iff. apply settled_normalised.
    rewrite !str_all_app, (digits_settled pid) by done. apply orb_true_iff in Hsub as [->%String.eqb_eq| ->%String.eqb_eq]; done.
  - by rewrite andb_false_r.
Qed.

Lemma directory_fires lc d : d ∈ credential_dirs → contains d lc = true → ssh_metadata_read "read" lc = false →
  fires (credential_directory_hit "read" lc).
Proof.
  intros Hin Hc Hs. unfold credential_directory_hit. cbv zeta. destruct (List.find _ credential_markers) as [m|] eqn:Ef.
  - rewrite Hs, andb_false_r. by eexists.
  - pose proof (find_none _ _ Ef d) as Hn. cbv beta in Hn. rewrite Hn in Hc; [done|].
    change credential_markers with (credential_dirs ++ ["/appdata/gcloud/"; "/appdata/gnupg/"; "/appdata/roaming/gnupg/"]).
    apply in_or_app. left. by apply list_elem_of_In.
Qed.

Lemma key_fires lc : str_mem (normalized_file_name lc) credential_files = true →
  str_mem (normalized_file_name lc) [".netrc"; ".npmrc"; ".pypirc"; ".pgpass"; ".git-credentials"] = false →
  fires (key_hit "read" lc).
Proof.
  unfold key_hit. cbv zeta. generalize (normalized_file_name lc). intros f Hf Hn. apply not_true_iff_false in Hn.
  assert (Hk : f ∈ ["id_rsa"; "id_ed25519"; "id_dsa"; "id_ecdsa"]).
  { apply str_mem_spec in Hf. change credential_files with
      ([".netrc"; ".npmrc"; ".pypirc"; ".pgpass"; ".git-credentials"] ++ ["id_rsa"; "id_ed25519"; "id_dsa"; "id_ecdsa"]) in Hf.
    apply elem_of_app in Hf as [Hf|Hf]; [|done]. by apply str_mem_spec in Hf. }
  rewrite !elem_of_cons in Hk. destruct_or? Hk; subst; [by eexists..|by apply not_elem_of_nil in Hk].
Qed.

Lemma os_store_fires lc m : m ∈ os_secret_stores → contains m lc = true → fires (os_secret_hit "read" lc).
Proof.
  intros Hm Hc. apply fires_if; [|done]. apply existsb_exists. exists m. split; [by apply list_elem_of_In|done].
Qed.

Lemma not_or (P Q : Prop) : ¬ (P ∨ Q) → ¬ P ∧ ¬ Q.
Proof. tauto. Qed.

(** C17: reads of credential stores are put before a human.  What the supervisor calls a
    credential store scores above the allow threshold when it is read, unless it is the
    certificate database, the metadata of ssh, a credential directory itself, one of
    five files in a home directory, or a shadow or sudoers file. *)
Theorem credential_reads_reviewed `{!UnicodeLaws} path
    (Hslash : ends_with "/" (normalize_path_for_match path) = false)
    (Hstore : is_credential_store_path path = true) (Hex : ¬ unscored_store path) :
  above_allow (verdict_score (FileRead path)).
Proof.
  rewrite read_score. unfold unscored_store in Hex. cbv zeta in Hex.
  assert (Hlc : path_lc path = normalize_path_for_match path) by reflexivity.
  unfold is_credential_store_path in Hstore. cbv zeta in Hstore. rewrite Hlc, Hslash in Hstore.
  set (lc := normalize_path_for_match path) in *. unfold trim_slashes in Hstore. rewrite trim_end_char_id in Hstore by done.
  apply not_or in Hex as [Hnss Hex]. apply not_or in Hex as [Hmeta Hex]. apply not_or in Hex as [Hdir Hex].
  apply not_or in Hex as [Hdot Hex]. apply not_or in Hex as [Hshadow Hsudo]. rewrite not_true_iff_false in *.
  rewrite !orb_true_iff in Hstore. destruct Hstore as [[[[Hg|Hd]|Hf]|He]|Hp].
  - apply (hit_above _ _ _ (grith_hit "read" lc)); [done|in_rules|]. apply fires_if; [by apply orb_true_iff|done].
  - apply existsb_exists in Hd as (d & Hin%list_elem_of_In & Hd).
    apply (hit_above _ _ _ (credential_directory_hit "read" lc)); [done|in_rules|]. apply (directory_fires lc d); [done| |done].
    destruct (contains d lc) eqn:Hc; [done|]. rewrite existsb_false_Forall, Forall_forall in Hdir.
    by rewrite <- (Hdir d Hin), contains_snoc.
  - apply (hit_above _ _ _ (key_hit "read" lc)); [done|in_rules|]. by apply key_fires.
  - apply (hit_above _ _ _ (os_secret_hit "read" lc)); [done|in_rules|].
    destruct He as [[[Hs|Hs]|Hs]|Hs]; [by rewrite Hs in Hshadow|by rewrite Hs in Hsudo|..];
      (eapply os_store_fires; [|exact Hs]); repeat (apply elem_of_cons; (by left) || right).
  - apply (hit_above _ _ _ (kernel_hit "read" lc)); [done|in_rules|]. apply fires_if; [|done].
    subst lc. by rewrite proc_secret_normalised.
Qed.

End Filter.

(** ** The shipped rules *)

Definition path_rule (id pattern : string) (operations : list string) (score : Z) (severity message : string)
    (exclude : list string) : PathRule :=
  {| pr_id := id; pr_pattern := pattern; pr_operations := operations; pr_score := f64_of_Z score;
     pr_severity := severity; pr_message := message; pr_exclude := exclude; pr_weak_name_signal := false |}.

(** [config/filters/paths.toml] *)
Definition shipped_path_rules : list PathRule :=
  let rwd := ["read"; "write"; "delete"] in
  let templates := [".env.example"; ".env.sample"; ".env.template"; ".env.dist"; ".env.defaults"] in
  [path_rule "ssh-private-key" "~/.ssh/id_*" rwd 5 "critical" "Access to SSH private key" [];
   path_rule "ssh-dir" "~/.ssh/*" ["write"; "delete"; "list"] 3 "warning" "Access to SSH directory" [];
   path_rule "gnupg" "~/.gnupg/*" rwd 4 "error" "Access to GnuPG keyring" [];
   path_rule "aws-credentials" "~/.aws/*" rwd 4 "error" "Access to AWS credentials" [];
   path_rule "gcloud-config" "~/.config/gcloud/*" rwd 4 "error" "Access to Google Cloud configuration" [];
   path_rule "pem-files" "*.pem" rwd 4 "error" "Access to PEM certificate/key file" [];
   path_rule "key-files" "*.key" rwd 4 "error" "Access to private key file" [];
   path_rule "env-file" ".env" rwd 3 "warning" "Access to environment file" templates;
   path_rule "env-file-variants" ".env.*" rwd 3 "warning" "Access to environment file variant" templates;
   path_rule "terraform-state" "*.tfstate" rwd 4 "error" "Access to Terraform state file" [];
   path_rule "cargo-credentials-store" "~/.cargo/credentials*" rwd 4 "error" "Access to the cargo registry token store" [];
   path_rule "git-credentials-store-xdg" "~/.config/git/credentials" rwd 4 "error" "Access to the git credential store" [];
   path_rule "git-credentials-store" ".git-credentials" rwd 4 "error" "Access to git credential store" [];
   path_rule "etc-shadow" "/etc/shadow*" ["read"; "write"] 5 "critical" "Access to /etc/shadow (password hashes)" [];
   path_rule "etc-system-write" "/etc/*" ["write"; "delete"] 3 "warning" "Write/delete to system config directory" []].

Section Examples.
#[local] Existing Instances concrete_deps ascii_unicode bare_filesystem.

(** What the two path filters add to the score of a read. *)
Definition read_total (path : string) : f64 :=
  f64_add (fr_score (path_match_evaluate (PathMatchFilter_new shipped_path_rules)
             (ToolCallContext_new uuid_a 0%Z "p" (FileRead path) uuid_b)))
    (verdict_score (FileRead path)).

Lemma changes_cost_more_witness :
  f64_le (sp_score "/home/u/.ssh/config" "read" false) (sp_score "/home/u/.ssh/config" "delete" false) = true.
Proof. apply (changes_cost_more "/home/u/.ssh/config" "delete" false false). reflexivity. Defined.

Lemma credential_reads_reviewed_witness : above_allow (verdict_score (FileRead "/home/u/.aws/credentials")).
Proof.
  apply (@credential_reads_reviewed _ _ _ ascii_unicode_laws "/home/u/.aws/credentials"); [reflexivity..|].
  unfold unscored_store. vm_compute. intuition discriminate.
Defined.

(** The system secrets that the filter means to hold for review score three when read,
    which is not above the threshold, and no rule adds to it; the tokens in the home
    directory score nothing.  (grafana.ini holds the administrator's password.) *)
Example secret_reads_allowed :
  map read_total ["/etc/kubernetes/admin.conf"; "/etc/grafana/grafana.ini"; "/etc/sudoers"; "/etc/ssh/ssh_host_ed25519_key"]
  = [f64_of_Z 3; f64_of_Z 3; f64_of_Z 3; f64_of_Z 3]
  ∧ map read_total ["/home/u/.netrc"; "/home/u/.npmrc"; "/home/u/.pypirc"; "/home/u/.pgpass"]
  = [f64_zero; f64_zero; f64_zero; f64_zero]
  ∧ f64_gt (f64_of_Z 3) SCORE_QUEUE_THRESHOLD = false.
Proof. vm_compute. repeat split. Qed.

(** A file that does not exist yet is judged by its spelling: through a directory of
    generated output its name carries no signal. *)
Example detour_hides_name :
  verdict_score (FileWrite "/p/my-secrets.txt" "") = f64_dec 35 1
  ∧ verdict_score (FileWrite "/p/dist/../my-secrets.txt" "") = f64_zero.
Proof. vm_compute. split; reflexivity. Qed.

(** Changing the owner of a credential file is not judged at all. *)
Example ownership_unscored : verdict_score (OwnershipChange "/home/u/.ssh/id_rsa" 0 0) = f64_zero.
Proof. reflexivity. Qed.

End Examples.
