(* ===== verification/StaticFilters.v ===== *)
(** * Lists, arguments, canaries and command patterns

    The pattern filters of [grith-proxy/src/filters/] that judge a call by itself:
    [allowlist.rs], [argument.rs], [canary.rs], [command.rs] and the inactive
    [semantic.rs].  The multi-pattern search of the [aho_corasick] crate is a parameter
    with the laws its documentation gives. *)

From Stdlib Require Import Ascii String ZArith Lia.
From stdpp Require Import base strings list option gmap.
From S2P Require Import Prelude Concrete F64 Types Scoring SessionState Filters Paths SensitivePaths PathMatch EgressCommand.

#[local] Open Scope string_scope.
#[local] Open Scope list_scope.

(** ** The operator's lists *)

Module Lists.

Record ListEntry := { le_pattern : string; le_plugins : list string }.

Record AllowlistConfig := { allow : list ListEntry; deny : list ListEntry }.

Definition path_matches (path pattern : string) : bool :=
  if String.eqb pattern "*" then true
  else
    match strip_prefix "*" pattern with
    | Some suffix =>
        match strip_suffix "*" suffix with
        | Some middle => contains middle path
        | None => ends_with suffix path
        end
    | None =>
        match strip_suffix "*" pattern with
        | Some prefix => starts_with prefix path
        | None => String.eqb path pattern || ends_with pattern path
        end
    end.

Definition plugin_matches (plugin_id : string) (plugins : list string) : bool :=
  bool_decide (plugins = []) || existsb (λ p, String.eqb p plugin_id || String.eqb p "*") plugins.

Section Evaluate.
Context `{D : Deps}.

Definition entry_matches (ctx : ToolCallContext) (targets : list string) (entry : ListEntry) : bool :=
  plugin_matches (ctx_plugin_id ctx) (le_plugins entry)
  && existsb (λ t, path_matches t (le_pattern entry)) targets.

Definition list_targets (ctx : ToolCallContext) : list string :=
  let net_target := (λ '(addr, port), addr +:+ ":" +:+ fmt_Z port) <$> ctx_address ctx in
  let file_paths := ctx_paths ctx in
  let single_target :=
    match ctx_path ctx with
    | Some p => p
    | None =>
        match ctx_url ctx with
        | Some u => u
        | None => match full_command ctx with Some c => c | None => default "" net_target end
        end
    end in
  if bool_decide (file_paths = []) then [single_target] else file_paths.

Definition allowlist_evaluate (c : AllowlistConfig) (ctx : ToolCallContext) : FilterResult :=
  let targets := list_targets ctx in
  match List.find (entry_matches ctx targets) (deny c) with
  | Some entry =>
      matched "allowlist" "deny-list" (f64_of_Z 3) SevError ("Path matches denylist: " +:+ le_pattern entry)
  | None =>
      match List.find (entry_matches ctx targets) (allow c) with
      | Some entry =>
          matched "allowlist" "allow-list" (f64_of_Z (-1)) SevNotice
            ("Path matches allowlist: " +:+ le_pattern entry)
      | None => no_match "allowlist"
      end
  end.

Definition allowlist_filter {FS} (c : AllowlistConfig) : SecurityFilter FS :=
  {| sf_name := "allowlist"; sf_phase := Static; sf_is_ready _ := true;
     sf_evaluate ctx w := (Some (allowlist_evaluate c ctx), w);
     sf_evict_session_state _ w := (0, w); sf_observe_outcome _ _ _ w := w |}.

(** A denylist entry for a target of the call decides, whatever the allowlist says. *)
Lemma denied_targets c ctx t e : t ∈ list_targets ctx → e ∈ deny c →
  plugin_matches (ctx_plugin_id ctx) (le_plugins e) = true → path_matches t (le_pattern e) = true →
  fr_score (allowlist_evaluate c ctx) = f64_of_Z 3 ∧ fr_rule_id (allowlist_evaluate c ctx) = "deny-list".
Proof.
  intros Ht He Hp Hm. unfold allowlist_evaluate. cbv zeta.
  destruct (List.find _ (deny c)) as [e'|] eqn:Ef; [done|]. exfalso.
  pose proof (find_none _ _ Ef e) as Hn. cbv beta in Hn. unfold entry_matches in Hn. rewrite Hp in Hn.
  cbn [andb] in Hn. assert (Hx : existsb (λ t, path_matches t (le_pattern e)) (list_targets ctx) = true).
  { apply existsb_exists. exists t. split; [by apply list_elem_of_In|done]. }
  rewrite Hx in Hn. by specialize (Hn (proj1 (list_elem_of_In _ _) He)).
Qed.

End Evaluate.
End Lists.

(** ** The structure of arguments *)

Module Argument.

Record ArgumentFilter := { max_path_length : nat; max_command_length : nat; max_url_length : nat }.

Definition ArgumentFilter_new : ArgumentFilter :=
  {| max_path_length := 4096; max_command_length := 8192; max_url_length := 2048 |}.

Definition PATH_INJECTION_CHARS : list ascii := ["|"; "`"; "$"; ";"; "&"; ">"; "<"]%char.

Definition TRAVERSAL_PATTERNS : list string := ["../../../"; "..\..\..\"].

Section Evaluate.
Context `{D : Deps} (f : ArgumentFilter).

Definition exceeds (what : string) (s : string) (limit : nat) : string :=
  what +:+ " length " +:+ fmt_Z (Z.of_nat (String.length s)) +:+ " exceeds maximum " +:+ fmt_Z (Z.of_nat limit).

Definition check_path (path : string) : FilterResult :=
  if (max_path_length f <? String.length path)%nat then
    matched "argument" "path-too-long" (f64_of_Z 2) SevWarning (exceeds "Path" path (max_path_length f))
  else if existsb (λ c, existsb (ascii_eqb c) PATH_INJECTION_CHARS) (list_ascii_of_string path) then
    matched "argument" "path-injection" (f64_of_Z 2) SevWarning "Path contains shell metacharacters"
  else if existsb (λ pattern, contains pattern path) TRAVERSAL_PATTERNS then
    matched "argument" "path-traversal" (f64_of_Z 2) SevWarning "Path contains deep traversal pattern"
  else no_match "argument".

Definition check_command (command : string) : FilterResult :=
  if (max_command_length f <? String.length command)%nat then
    matched "argument" "command-too-long" (f64_of_Z 2) SevWarning (exceeds "Command" command (max_command_length f))
  else no_match "argument".

Definition check_url (url : string) : FilterResult :=
  if (max_url_length f <? String.length url)%nat then
    matched "argument" "url-too-long" (f64_of_Z 1) SevNotice (exceeds "URL" url (max_url_length f))
  else no_match "argument".

Definition check_both (first second : string) : FilterResult :=
  let result := check_path first in
  if fr_matched result then result else check_path second.

Definition argument_evaluate (ctx : ToolCallContext) : FilterResult :=
  match ctx_call_type ctx with
  | FileRead path | FileWrite path _ | FileAppend path | FileDelete path | DirList path
  | FileChmod path _ | DirCreate path => check_path path
  | FileRename old_path new_path => check_both old_path new_path
  | FileLink target link_path _ => check_both target link_path
  | ShellExec _ _ | ProcessSpawn _ _ =>
      match full_command ctx with Some full => check_command full | None => no_match "argument" end
  | HttpRequest _ url => check_url url
  | NetConnect _ _ | NetListen _ _ | DnsQuery _ _ => no_match "argument"
  | OwnershipChange target _ _ | FilesystemMutation _ _ target _ => check_path target
  | CrossProcessAccess _ _ | NamespaceOp _ _ | DbusMethodCall _ _ _ _ => no_match "argument"
  end.

Definition argument_filter {FS} : SecurityFilter FS :=
  {| sf_name := "argument"; sf_phase := Static; sf_is_ready _ := true;
     sf_evaluate ctx w := (Some (argument_evaluate ctx), w);
     sf_evict_session_state _ w := (0, w); sf_observe_outcome _ _ _ w := w |}.

(** The filter alone never holds a call for review. *)
Lemma argument_bounded ctx : f64_le (fr_score (argument_evaluate ctx)) (f64_of_Z 2) = true.
Proof.
  assert (Hp : ∀ p, f64_le (fr_score (check_path p)) (f64_of_Z 2) = true)
    by (intros p; unfold check_path; repeat case_match; reflexivity).
  unfold argument_evaluate, check_both, check_command, check_url. cbv zeta. repeat case_match; try apply Hp; reflexivity.
Qed.

End Evaluate.
End Argument.

(** ** Canaries *)

Module Canary.
Section Registry.
Context `{D : Deps}.

Record CanaryToken := { ct_id : Uuid; ct_label : string; ct_value : string }.

(** The contents of the registry's lock. *)
Abbreviation CanaryRegistry := (list CanaryToken).

Definition canary_add (token : CanaryToken) (tokens : CanaryRegistry) : CanaryRegistry := tokens ++ [token].

Definition canary_remove (id : Uuid) (tokens : CanaryRegistry) : bool * CanaryRegistry :=
  let kept := List.filter (λ t, negb (bool_decide (ct_id t = id))) tokens in
  ((length kept <? length tokens)%nat, kept).

(** [fresh] is the identifier [Uuid::new_v4] draws. *)
Definition canary_rotate (fresh id : Uuid) (new_value : string) (tokens : CanaryRegistry) :
    option CanaryToken * CanaryRegistry :=
  match list_find (λ t, ct_id t = id) tokens with
  | Some (idx, old) =>
      let new_token := {| ct_id := fresh; ct_label := ct_label old; ct_value := new_value |} in
      (Some new_token, take idx tokens ++ drop (S idx) tokens ++ [new_token])
  | None => (None, tokens)
  end.

Definition canary_list (tokens : CanaryRegistry) : list CanaryToken := tokens.
Definition canary_count (tokens : CanaryRegistry) : nat := length tokens.

Definition canary_check (text : string) (tokens : CanaryRegistry) : option (Uuid * string) :=
  (λ t, (ct_id t, ct_label t)) <$>
  List.find (λ t, negb (String.eqb (ct_value t) "") && contains (ct_value t) text) tokens.

(** ** The filter *)

(** [Display] of [serde_json::Value]. *)
Variable json_to_string : Json → string.

Definition extract_scannable_text (ctx : ToolCallContext) : option string :=
  match ctx_call_type ctx with
  | HttpRequest method url => Some (method +:+ " " +:+ url)
  | NetConnect address port => Some (address +:+ ":" +:+ fmt_Z port)
  | ShellExec command args | ProcessSpawn command args => Some (command +:+ " " +:+ join " " args)
  | FileWrite path _ | FileAppend path => Some path
  | _ => None
  end.

Definition canary_message (id : Uuid) (label : string) : string :=
  "Canary secret '" +:+ label +:+ "' (id: " +:+ Uuid_to_string id +:+ ") detected in outbound operation".

Definition canary_evaluate (tokens : CanaryRegistry) (ctx : ToolCallContext) : FilterResult :=
  match extract_scannable_text ctx with
  | None => no_match "canary"
  | Some text =>
      let combined := text +:+ " " +:+ json_to_string (ctx_arguments ctx) in
      match canary_check combined tokens with
      | Some (canary_id, label) =>
          matched "canary" "canary-secret-detected" (f64_dec 95 1) SevCritical (canary_message canary_id label)
      | None => no_match "canary"
      end
  end.

Definition canary_filter {FS} (get : FS → CanaryRegistry) : SecurityFilter FS :=
  {| sf_name := "canary"; sf_phase := Pattern; sf_is_ready _ := true;
     sf_evaluate ctx w := (Some (canary_evaluate (get (w_filters w)) ctx), w);
     sf_evict_session_state _ w := (0, w); sf_observe_outcome _ _ _ w := w |}.

(** ** Values *)

Definition hex_digit (n : N) : ascii := if (n <? 10)%N then ascii_of_N (48 + n) else ascii_of_N (87 + n).

Definition hex_encode (bytes : list N) : string :=
  fold_right (λ b s, String (hex_digit (b / 16)) (String (hex_digit (b mod 16)) s)) "" bytes.

(** The bytes of a fresh identifier, and those derived from them. *)
Definition rand_bytes (id_bytes : list N) : list N :=
  id_bytes ++ map (λ i, N.lxor (default 0%N (id_bytes !! i)) (default 0%N (id_bytes !! (15 - i)%nat))) (seq 0 8).

Definition generate_canary_value (id_bytes : list N) : string := hex_encode (rand_bytes id_bytes).

Definition resolve_canary_value (id_bytes : list N) (value : option string) (generate : bool) : result string :=
  if generate then
    match value with
    | Some _ => Err "use either value or generate, not both"
    | None => Ok (generate_canary_value id_bytes)
    end
  else
    match value with
    | None => Err "missing value (or set generate=true)"
    | Some value =>
        let trimmed := trim value in
        if String.eqb trimmed "" then Err "value cannot be empty" else Ok trimmed
    end.

(** ** Reading the identifiers back *)

(** [str::parse::<Uuid>]. *)
Variable parse_uuid : string → option Uuid.

Definition canary_id_of (r : FilterResult) : option Uuid :=
  '(_, rest) ← split_once "(id: " (fr_message r);
  '(id, _) ← split_once ")" rest;
  parse_uuid id.

Definition detected_canary_ids (filter_results : list FilterResult) : gset Uuid :=
  list_to_set (omap canary_id_of
    (List.filter (λ r, String.eqb (fr_filter_name r) "canary" && String.eqb (fr_rule_id r) "canary-secret-detected")
       filter_results)).

(** Every outbound call that carries a canary is denied: its score is above the denial
    threshold by itself. *)
Lemma canary_denies tokens ctx text t : extract_scannable_text ctx = Some text → t ∈ tokens → ct_value t ≠ "" →
  contains (ct_value t) (text +:+ " " +:+ json_to_string (ctx_arguments ctx)) = true →
  fr_score (canary_evaluate tokens ctx) = f64_dec 95 1.
Proof.
  intros He Ht Hv Hc. unfold canary_evaluate, canary_check. rewrite He. cbv zeta.
  destruct (List.find _ tokens) as [u|] eqn:Ef; [done|].
  pose proof (find_none _ _ Ef t (proj1 (list_elem_of_In _ _) Ht)) as Hn. cbv beta in Hn. rewrite Hc in Hn.
  by rewrite (proj2 (String.eqb_neq _ _) Hv) in Hn.
Qed.

(** The identifier is read back from the message, provided the label does not look like
    one. *)
Lemma canary_id_round_trip id label : (∀ u, parse_uuid (Uuid_to_string u) = Some u) →
  lacks "("%char label = true → lacks ")"%char (Uuid_to_string id) = true →
  canary_id_of (matched "canary" "canary-secret-detected" (f64_dec 95 1) SevCritical (canary_message id label)) = Some id.
Proof.
  intros Hp Hl Hi. unfold canary_id_of. cbn [fr_message matched]. unfold canary_message.
  assert (H1 : split_once "(id: " ("Canary secret '" +:+ label +:+ "' (id: " +:+ Uuid_to_string id +:+ ") detected in outbound operation")
               = Some ("Canary secret '" +:+ label +:+ "' ", Uuid_to_string id +:+ ") detected in outbound operation")).
  { replace ("Canary secret '" +:+ label +:+ "' (id: " +:+ Uuid_to_string id +:+ ") detected in outbound operation") with
      (("Canary secret '" +:+ label +:+ "' ") +:+ "(id: " +:+ (Uuid_to_string id +:+ ") detected in outbound operation"))
      by (by rewrite !append_assoc). apply split_once_sep. rewrite !lacks_app, Hl. reflexivity. }
  rewrite H1. cbn [mbind option_bind].
  pose proof (split_once_sep ")" "" (Uuid_to_string id) " detected in outbound operation" Hi) as H2.
  change (Uuid_to_string id +:+ ") detected in outbound operation")
    with (Uuid_to_string id +:+ ")" +:+ " detected in outbound operation"). rewrite H2. cbn. apply Hp.
Qed.

End Registry.
End Canary.

(** ** Command patterns *)

Module Command.

Record CommandRule := { cr_id : string; cr_pattern : string; cr_score : f64; cr_severity : string; cr_message : string }.

(** [AhoCorasick::new] and [find_iter]: the matches as pattern index and start. *)
Class AhoCorasick := find_iter : list string → string → list (nat * nat).

Definition occurs_at (text : string) (start : nat) (pattern : string) : Prop :=
  ∃ before after, text = before +:+ pattern +:+ after ∧ String.length before = start.

(** Documented: a match is an occurrence of its pattern, matches do not overlap and go
    forward, and every occurrence of a pattern overlaps a match or is one. *)
Class AhoCorasickLaws `{AhoCorasick} : Prop := {
  match_occurs : ∀ patterns text i start, (i, start) ∈ find_iter patterns text →
    ∃ pattern, patterns !! i = Some pattern ∧ occurs_at text start pattern;
  match_found : ∀ patterns text i pattern start, patterns !! i = Some pattern → pattern ≠ "" →
    occurs_at text start pattern →
    ∃ j start' pattern', (j, start') ∈ find_iter patterns text ∧ patterns !! j = Some pattern'
      ∧ (start' < start + String.length pattern)%nat ∧ (start < start' + String.length pattern')%nat;
}.

Section Filter.
Context `{D : Deps} `{Unicode} `{AhoCorasick}.

Definition SUDO_VALUE_FLAGS : list string :=
  ["-u"; "--user"; "-g"; "--group"; "-h"; "--host"; "-p"; "--prompt"; "-r"; "--role"; "-t"; "--type"; "-c"; "--class";
   "-d"; "--directory"; "-R"; "--chroot"; "-C"; "--close-from"; "-U"; "--other-user"].

Definition SHELL_TARGETS : list string :=
  ["sh"; "bash"; "zsh"; "dash"; "fish"; "ksh"; "python"; "python2"; "python3"; "perl"; "ruby"; "node"; "php"; "su";
   "env"; "eval"; "exec"; "nc"; "ncat"; "socat"].

Definition ROUTINE_SUDO_TARGETS : list string :=
  ["apt"; "apt-get"; "aptitude"; "dpkg"; "yum"; "dnf"; "zypper"; "snap"; "flatpak"; "service"; "make"; "ldconfig";
   "update-alternatives"; "sysctl"; "mkdir"; "cp"; "mv"; "ln"; "tee"; "install"; "mount"; "umount"; "modprobe";
   "useradd"; "usermod"; "groupadd"; "kubectl"; "docker"; "rsync"].

Definition SAFE_VERBS : list string :=
  ["start"; "stop"; "restart"; "reload"; "status"; "is-active"; "is-enabled"; "is-failed"; "list-units";
   "list-unit-files"; "show"; "cat"; "try-restart"; "reload-or-restart"].

Definition systemctl_invocation_is_routine (text_lc : string) : bool :=
  match split_once "systemctl " text_lc with
  | None => false
  | Some (_, after) =>
      match List.find (λ t, negb (starts_with "--" t)) (split_whitespace after) with
      | None => false
      | Some verb => str_mem verb SAFE_VERBS
      end
  end.

(** The loop over the tokens after [sudo]. *)
Fixpoint sudo_target_loop (tokens : list string) : option string :=
  match tokens with
  | [] => None
  | t :: rest =>
      if starts_with "-" t then
        if str_mem t SUDO_VALUE_FLAGS then
          match rest with
          | [] => None
          | _ :: rest' => sudo_target_loop rest'
          end
        else sudo_target_loop rest
      else Some t
  end.

Definition sudo_invocation_is_routine (text_lc : string) : bool :=
  if contains "| sh" text_lc || contains "|sh" text_lc || contains "| bash" text_lc || contains "|bash" text_lc
     || contains "curl" text_lc || contains "wget" text_lc
  then false
  else
    match split_once "sudo " text_lc with
    | None => false
    | Some (_, after) =>
        match sudo_target_loop (split_whitespace after) with
        | None => false
        | Some target =>
            if str_mem target SHELL_TARGETS then false
            else if String.eqb target "systemctl" then systemctl_invocation_is_routine text_lc
            else str_mem target ROUTINE_SUDO_TARGETS
        end
    end.

Definition command_keyword_is_routine (rule_id text_lc : string) : bool :=
  if String.eqb rule_id "sudo" then sudo_invocation_is_routine text_lc
  else if String.eqb rule_id "crontab-edit" then
    contains "crontab -l" text_lc && negb (contains "crontab -e" text_lc)
    && negb (contains "crontab -r" text_lc) && negb (contains "crontab -i" text_lc)
  else if String.eqb rule_id "systemctl" then systemctl_invocation_is_routine text_lc
  else false.

Definition LINE_FEED : ascii := ascii_of_N 10.
Definition CARRIAGE_RETURN : ascii := ascii_of_N 13.

Definition is_command_separator (c : ascii) : bool := existsb (ascii_eqb c) [";"%char; LINE_FEED; CARRIAGE_RETURN; "&"%char; "|"%char].

(** The text up to the first separator, and after the last. *)
Fixpoint until_separator (s : string) : string :=
  match s with
  | String c s' => if is_command_separator c then "" else String c (until_separator s')
  | EmptyString => ""
  end.

Fixpoint since_separator (acc s : string) : string :=
  match s with
  | String c s' => since_separator (if is_command_separator c then "" else acc +:+ String c "") s'
  | EmptyString => acc
  end.

Definition command_segment_for_match (text : string) (match_start : nat) : string :=
  trim (since_separator "" (substring 0 match_start text)
        +:+ until_separator (substring match_start (String.length text - match_start) text)).

(** One match against the best rule so far. *)
Definition command_step (rules : list CommandRule) (text : string) (best : option CommandRule) (m : nat * nat) :
    option CommandRule :=
  match rules !! m.1 with
  | None => best
  | Some rule =>
      let matched_segment_lc := to_lowercase (command_segment_for_match text m.2) in
      if command_keyword_is_routine (cr_id rule) matched_segment_lc then best
      else
        match best with
        | Some current => if f64_ge (cr_score current) (cr_score rule) then best else Some rule
        | None => Some rule
        end
  end.

Definition command_evaluate (rules : list CommandRule) (ctx : ToolCallContext) : FilterResult :=
  match full_command ctx with
  | None => no_match "command"
  | Some full_command =>
      let search_text := match ctx_path ctx with
                         | Some path => full_command +:+ " " +:+ path
                         | None => full_command
                         end in
      match fold_left (command_step rules search_text) (find_iter (map cr_pattern rules) search_text) None with
      | Some rule => matched "command" (cr_id rule) (cr_score rule) (parse_severity (cr_severity rule)) (cr_message rule)
      | None => no_match "command"
      end
  end.

Definition command_filter {FS} (rules : list CommandRule) : SecurityFilter FS :=
  {| sf_name := "command"; sf_phase := Pattern; sf_is_ready _ := true;
     sf_evaluate ctx w := (Some (command_evaluate rules ctx), w);
     sf_evict_session_state _ w := (0, w); sf_observe_outcome _ _ _ w := w |}.

(** The rules whose patterns were found in a place that is not routine. *)
Definition found_rules (rules : list CommandRule) (text : string) : list CommandRule :=
  omap (λ m, rule ← rules !! m.1;
             if command_keyword_is_routine (cr_id rule) (to_lowercase (command_segment_for_match text m.2))
             then None else Some rule) (find_iter (map cr_pattern rules) text).

Lemma command_fold rules text ms best :
  fold_left (command_step rules text) ms best
  = fold_left (keep_best (λ _, true) (λ b x, f64_ge (cr_score b) (cr_score x)))
      (omap (λ m, rule ← rules !! m.1;
             if command_keyword_is_routine (cr_id rule) (to_lowercase (command_segment_for_match text m.2))
             then None else Some rule) ms) best.
Proof.
  revert best. induction ms as [|m ms IH]; intros best; [done|]. cbn [fold_left]. rewrite IH. cbn [omap list_omap].
  unfold command_step. destruct (rules !! m.1) as [rule|]; cbn [mbind option_bind]; [|done].
  by destruct (command_keyword_is_routine _ _).
Qed.

Lemma command_best rules text : Forall (λ r, is_number (cr_score r)) (found_rules rules text) →
  is_best (λ _, true) cr_score (found_rules rules text)
    (fold_left (command_step rules text) (find_iter (map cr_pattern rules) text) None).
Proof.
  intros Hn. rewrite command_fold. apply (keep_best_spec (λ _, true) cr_score); [done| |done].
  intros b x Hb Hx. by apply f64_le_total.
Qed.

(** A pattern that overlaps no other cannot be hidden: a command with the pattern of a
    rule other than the three keywords scores at least the rule. *)
Lemma pattern_not_hidden `{!AhoCorasickLaws} rules ctx text i rule start :
  full_command ctx = Some text → ctx_path ctx = None →
  Forall (λ r, is_number (cr_score r)) rules → rules !! i = Some rule → cr_pattern rule ≠ "" →
  str_mem (cr_id rule) ["sudo"; "crontab-edit"; "systemctl"] = false →
  occurs_at text start (cr_pattern rule) →
  (∀ j rule' start', rules !! j = Some rule' → occurs_at text start' (cr_pattern rule') →
     (start' < start + String.length (cr_pattern rule))%nat → (start < start' + String.length (cr_pattern rule'))%nat → j = i) →
  f64_le (cr_score rule) (fr_score (command_evaluate rules ctx)) = true.
Proof.
  intros Hc Hpath Hn Hi Hne Hid Ho Hov. unfold command_evaluate. rewrite Hc, Hpath.
  assert (Hin : rule ∈ found_rules rules text).
  { destruct (match_found (map cr_pattern rules) text i (cr_pattern rule) start) as (j & st & p' & Hm & Hj & Hl1 & Hl2);
      [by rewrite list_lookup_fmap, Hi|done|done|]. destruct (match_occurs _ _ _ _ Hm) as (p'' & Hj' & Hoc).
    rewrite Hj in Hj'. injection Hj' as <-. rewrite list_lookup_fmap in Hj.
    destruct (rules !! j) as [r'|] eqn:Er; [|done]. injection Hj as <-.
    assert (j = i) as -> by (by apply (Hov j r' st)). rewrite Hi in Er. injection Er as <-.
    unfold found_rules. rewrite list_elem_of_omap. exists (i, st). split; [done|]. cbn [fst snd]. rewrite Hi. cbn [mbind option_bind].
    unfold command_keyword_is_routine. cbn [str_mem existsb] in Hid. rewrite !orb_false_iff in Hid.
    destruct Hid as (-> & -> & -> & _). done. }
  assert (Hf : Forall (λ r, is_number (cr_score r)) (found_rules rules text)).
  { apply Forall_forall. intros r. unfold found_rules. rewrite list_elem_of_omap. intros ([j st] & _ & Hr). cbn [fst snd] in Hr.
    destruct (rules !! j) as [r'|] eqn:Ej; [|done]. cbn [mbind option_bind] in Hr.
    destruct (command_keyword_is_routine _ _); [done|]. injection Hr as <-.
    rewrite Forall_forall in Hn. apply Hn. by apply list_elem_of_lookup_2 in Ej. }
  pose proof (command_best rules text Hf) as Hb. destruct (fold_left (command_step rules text) _ None) as [b|].
  - by apply Hb.
  - by specialize (Hb rule Hin).
Qed.

End Filter.

(** A concrete search: at each position the first pattern that begins there. *)
Fixpoint leftmost (patterns : list string) (skip pos : nat) (s : string) : list (nat * nat) :=
  match s with
  | EmptyString => []
  | String _ s' =>
      match skip with
      | S skip => leftmost patterns skip (S pos) s'
      | 0 =>
          match list_find (λ p, p ≠ "" ∧ starts_with p s = true) patterns with
          | Some (i, p) => (i, pos) :: leftmost patterns (String.length p - 1) (S pos) s'
          | None => leftmost patterns 0 (S pos) s'
          end
      end
  end.

Definition leftmost_search : AhoCorasick := λ patterns text, leftmost patterns 0 0 text.

Lemma leftmost_occurs patterns skip pos s i st : (i, st) ∈ leftmost patterns skip pos s →
  ∃ p b a, patterns !! i = Some p ∧ s = b +:+ p +:+ a ∧ st = (pos + String.length b)%nat.
Proof.
  revert skip pos. induction s as [|c s IH]; intros skip pos; cbn [leftmost]; [by intros ?%not_elem_of_nil|].
  assert (Hrec : ∀ skip, (i, st) ∈ leftmost patterns skip (S pos) s →
    ∃ p b a, patterns !! i = Some p ∧ String c s = b +:+ p +:+ a ∧ st = (pos + String.length b)%nat).
  { intros skip' (p & b & a & Hp & -> & ->)%IH. exists p, (String c b), a. split; [done|]. split; [done|]. cbn. lia. }
  destruct skip; [|apply Hrec]. destruct (list_find _ patterns) as [[j p]|] eqn:Ef; [|apply Hrec].
  intros [Heq|?]%elem_of_cons; [|by eapply Hrec]. injection Heq as -> ->.
  apply list_find_Some in Ef as (Hj & [_ [r Hr]%starts_with_spec] & _). exists p, "", r. split; [done|]. split; [done|]. cbn. lia.
Qed.

Lemma leftmost_found patterns skip pos s i p b a : patterns !! i = Some p → p ≠ "" → s = b +:+ p +:+ a →
  (String.length b < skip)%nat ∨ ∃ j st p', (j, st) ∈ leftmost patterns skip pos s ∧ patterns !! j = Some p'
    ∧ (st < pos + String.length b + String.length p)%nat ∧ (pos + String.length b < st + String.length p')%nat.
Proof.
  intros Hi Hne. assert (Hlen : (0 < String.length p)%nat) by (destruct p; [done|cbn; lia]).
  revert skip pos b. induction s as [|c s IH]; intros skip pos b Hs.
  { destruct b; [|done]. by destruct p. }
  assert (Hrec : ∀ skip' b', b = String c b' → (String.length b' < skip')%nat ∨ ∃ j st p',
      (j, st) ∈ leftmost patterns skip' (S pos) s ∧ patterns !! j = Some p'
      ∧ (st < pos + String.length b + String.length p)%nat ∧ (pos + String.length b < st + String.length p')%nat).
  { intros skip' b' ->. change (String c s = String c (b' +:+ p +:+ a)) in Hs. injection Hs as Hs.
    destruct (IH skip' (S pos) b' Hs) as [?|(j & st & p' & ? & ? & ? & ?)]; [by left|right]. exists j, st, p'. cbn. repeat split; [done..|lia|lia]. }
  assert (Hb : b = "" ∨ ∃ b', b = String c b').
  { destruct b as [|d b]; [by left|right]. change (String c s = String d (b +:+ p +:+ a)) in Hs. injection Hs as -> _. by exists b. }
  cbn [leftmost]. destruct skip as [|skip].
  - destruct (list_find _ patterns) as [[j p']|] eqn:Ef.
    + pose proof Ef as (Hj & [Hne' _] & _)%list_find_Some.
      assert (Hlen' : (0 < String.length p')%nat) by (destruct p'; [done|cbn; lia]).
      right. destruct Hb as [->|[b' ->]].
      * exists j, pos, p'. split; [by left|]. cbn. repeat split; [done|lia|lia].
      * destruct (Hrec (String.length p' - 1)%nat b' eq_refl) as [Hl|(j' & st & q & ? & ? & ? & ?)].
        -- exists j, pos, p'. split; [by left|]. cbn. repeat split; [done|lia|lia].
        -- exists j', st, q. split; [by right|done].
    + right. destruct Hb as [->|[b' ->]].
      * exfalso. rewrite list_find_None in Ef. rewrite Forall_forall in Ef. apply (Ef p); [by apply list_elem_of_lookup_2 in Hi|].
        split; [done|]. change ("" +:+ p +:+ a) with (p +:+ a) in Hs. rewrite Hs. apply starts_with_app.
      * by destruct (Hrec 0%nat b' eq_refl) as [?|?]; [lia|].
  - destruct Hb as [->|[b' ->]]; [left; cbn; lia|].
    destruct (Hrec skip b' eq_refl) as [?|?]; [left; cbn; lia|by right].
Qed.

Lemma leftmost_search_laws : @AhoCorasickLaws leftmost_search.
Proof.
  split.
  - intros patterns text i start (p & b & a & Hp & Ht & ->)%leftmost_occurs. exists p. split; [done|]. by exists b, a.
  - intros patterns text i p start Hi Hne (b & a & Ht & <-).
    destruct (leftmost_found patterns 0 0 text i p b a Hi Hne Ht) as [?|(j & st & p' & ? & ? & ? & ?)]; [lia|].
    by exists j, st, p'.
Qed.

End Command.

(** ** The inactive filter *)

Module Semantic.
Section Filter.
Context `{D : Deps}.

Definition semantic_filter {FS} : SecurityFilter FS :=
  {| sf_name := "semantic"; sf_phase := Context_; sf_is_ready _ := false;
     sf_evaluate _ w := (Some (no_match "semantic"), w);
     sf_evict_session_state _ w := (0, w); sf_observe_outcome _ _ _ w := w |}.

End Filter.
End Semantic.

(** ** Examples *)

Section Examples.
#[local] Existing Instances concrete_deps ascii_unicode Command.leftmost_search.

Definition call (t : ToolCallType) : ToolCallContext := ToolCallContext_new uuid_a 0%Z "p" t uuid_b.

(** An entry of the denylist adds three, which by itself is still allowed; and the
    destination of a rename is not looked at. *)
Example denied_read_allowed :
  let c := {| Lists.allow := []; Lists.deny := [{| Lists.le_pattern := "/p/private/*"; Lists.le_plugins := [] |}] |} in
  f64_gt (fr_score (Lists.allowlist_evaluate c (call (FileRead "/p/private/x")))) SCORE_QUEUE_THRESHOLD = false
  ∧ fr_matched (Lists.allowlist_evaluate c (call (FileRename "/tmp/x" "/p/private/x"))) = false.
Proof. split; reflexivity. Qed.

(** One allowed name of a link lowers the score of the other. *)
Example allowed_name_covers_target :
  let c := {| Lists.allow := [{| Lists.le_pattern := "/p/*"; Lists.le_plugins := [] |}]; Lists.deny := [] |} in
  fr_score (Lists.allowlist_evaluate c (call (FileLink "/home/u/.ssh/id_rsa" "/p/x" true))) = f64_of_Z (-1).
Proof. reflexivity. Qed.

(** A canary leaves in a DNS name, or as the new name of a file, unseen. *)
Example canary_unscanned :
  let tokens := [{| Canary.ct_id := uuid_a; Canary.ct_label := "trap"; Canary.ct_value := "c4n4ry" |}] in
  let seen t := fr_matched (Canary.canary_evaluate (λ _, "null") tokens (call t)) in
  map seen [HttpRequest "GET" "https://x/c4n4ry"; DnsQuery "c4n4ry.evil.example" "A"; FileRename "/p/x" "/p/c4n4ry"]
  = [true; false; false].
Proof. reflexivity. Qed.

Definition sudo_rules : list Command.CommandRule :=
  [{| Command.cr_id := "sudo"; Command.cr_pattern := "sudo"; Command.cr_score := f64_of_Z 3;
      Command.cr_severity := "warning"; Command.cr_message := "sudo" |}].

(** A shell elevated inside the arguments of a routine command is routine, since only
    the first target of the segment is looked at. *)
Example nested_sudo_routine :
  let score c := fr_score (Command.command_evaluate sudo_rules (call (ShellExec c []))) in
  score "sudo bash -c id" = f64_of_Z 3
  ∧ score "sudo apt-get update" = f64_zero
  ∧ score "sudo apt-get install $(sudo bash -c id)" = f64_zero.
Proof. vm_compute. repeat split. Qed.

(** The text is in lower case, so [-H], which takes no value, is read as [-h], which
    takes one, and the shell it elevates is skipped as that value. *)
Example lower_cased_flag :
  fr_score (Command.command_evaluate sudo_rules (call (ShellExec "sudo bash make" []))) = f64_of_Z 3
  ∧ fr_score (Command.command_evaluate sudo_rules (call (ShellExec "sudo -H bash make" []))) = f64_zero.
Proof. vm_compute. split; reflexivity. Qed.

End Examples.
