(* ===== verification/DestructiveAction.v ===== *)
(** * Destructive actions

    [grith-proxy/src/filters/destructive_action.rs]: commands and file operations that
    destroy hosts, disks, databases, cloud resources or backups, or that hand the host
    to a container.  Every rule is the hit it adds.  Whatever the filter matches is put
    before a human or denied; a production target is never judged milder; and a
    recursive delete of a system directory is denied. *)

From Stdlib Require Import Ascii String ZArith Lia.
From stdpp Require Import base strings list option.
From S2P Require Import Prelude Concrete F64 Types Scoring SessionState Filters Paths SensitivePaths PathNames PathMatch EgressCommand.

#[local] Open Scope string_scope.
#[local] Open Scope list_scope.

Definition DENY_SCORE : f64 := f64_of_Z 9.

(** ** Production *)

Definition is_prod_segment (seg : string) : bool := str_mem seg ["prod"; "production"; "prd"; "live"; "mainnet"].

Definition is_ascii_alphanumeric (c : ascii) : bool :=
  let n := N_of_ascii c in
  ((48 <=? n) && (n <=? 57) || (65 <=? n) && (n <=? 90) || (97 <=? n) && (n <=? 122))%N.

Definition has_prod_lexical (text_lc : string) : bool :=
  existsb is_prod_segment (split_any (λ c, negb (is_ascii_alphanumeric c)) text_lc).

Definition PROD_DB_ENDPOINT_MARKERS : list string :=
  [".rds.amazonaws.com"; ".redshift.amazonaws.com"; ".cache.amazonaws.com"; ".sql.googleapis.com";
   ".database.windows.net"; ".documents.azure.com"].

Definition has_prod_db_endpoint (text_lc : string) : bool :=
  existsb (λ m, contains m text_lc) PROD_DB_ENDPOINT_MARKERS.

(** ** Hits *)

Record Hit := { h_rule_id : string; h_score : f64; h_severity : Severity; h_message : string }.

Definition Hit_deny (rule_id message : string) : Hit :=
  {| h_rule_id := rule_id; h_score := DENY_SCORE; h_severity := SevCritical; h_message := message |}.

Definition Hit_queue (rule_id : string) (score : f64) (severity : Severity) (message : string) : Hit :=
  {| h_rule_id := rule_id; h_score := score; h_severity := severity; h_message := message |}.

Definition prod_gated (prod : bool) (rule_id : string) (queue_score : f64) (queue_severity : Severity) (message : string) : Hit :=
  if prod then Hit_deny rule_id (message +:+ " (production target)")
  else Hit_queue rule_id queue_score queue_severity message.

Inductive PathClass :=
  | Catastrophic (rule message : string)
  | PathQueue (rule : string) (score : f64) (message : string).

(** ** Paths *)

(** One of the directories or a path below one. *)
Definition at_or_below (dirs : list string) (path : string) : bool :=
  existsb (λ d, String.eqb path d || starts_with (d +:+ "/") path) dirs.

Definition DB_DATA_DIRS : list string :=
  ["/var/lib/postgresql"; "/var/lib/mysql"; "/var/lib/mariadb"; "/var/lib/mongodb"; "/var/lib/redis";
   "/var/lib/cassandra"; "/var/lib/elasticsearch"; "/var/lib/clickhouse"; "/var/lib/influxdb"; "/var/lib/neo4j";
   "/var/lib/couchdb"].

Definition is_database_data_dir (path_lc : string) : bool := at_or_below DB_DATA_DIRS path_lc.

Definition DATA_MOUNTS : list string := ["/data"; "/srv/data"; "/var/data"].

Definition is_data_mount (path_lc : string) : bool := at_or_below DATA_MOUNTS path_lc.

Definition SYSTEM_DIRS : list string :=
  ["/boot"; "/bin"; "/sbin"; "/lib"; "/lib64"; "/usr"; "/etc"; "/var"; "/var/lib"; "/sys"; "/proc"; "/dev"; "/root"; "/home"].

Definition is_system_critical_dir (path_lc : string) : bool :=
  let p := trim_end_char "/"%char path_lc in
  if String.eqb p "" then true else str_mem p SYSTEM_DIRS.

Definition BENIGN_DEVICES : list string :=
  ["null"; "zero"; "full"; "random"; "urandom"; "console"; "stdin"; "stdout"; "stderr"].

Definition is_raw_block_device (dev_lc : string) : bool :=
  match strip_prefix "/dev/" dev_lc with
  | None => false
  | Some rest =>
      if str_mem rest BENIGN_DEVICES then false
      else if starts_with "tty" rest || starts_with "pts/" rest || starts_with "fd/" rest then false
      else true
  end.

Definition SENSITIVE_MOUNT_ROOTS : list string :=
  ["/etc"; "/root"; "/boot"; "/usr"; "/var"; "/home"; "/lib"; "/lib64"; "/sys"; "/proc"; "/dev"; "/bin"; "/sbin"].

Definition is_sensitive_mount_source (src : string) : bool :=
  let s := trim_end_char "/"%char src in
  if String.eqb s "" then true
  else if contains "/.ssh" s then true
  else at_or_below SENSITIVE_MOUNT_ROOTS s.

(** ** Tokens *)

Definition basename (token : string) : string := after_last "/"%char token.

Definition has_command (tokens : list string) (name : string) : bool :=
  existsb (λ t, String.eqb (basename t) name) tokens.

Definition has_recursive_flag (tokens : list string) : bool :=
  existsb (λ t,
    if String.eqb t "--recursive" then true
    else
      match strip_prefix "-" t with
      | Some short => negb (starts_with "-" short)
                      && existsb (λ c, ascii_eqb c "r"%char || ascii_eqb c "R"%char) (list_ascii_of_string short)
      | None => false
      end) tokens.

(** [splitn(3, ':')] *)
Definition splitn3 (spec : string) : list string :=
  match split_once ":" spec with
  | None => [spec]
  | Some (a, rest) =>
      match split_once ":" rest with
      | None => [a; rest]
      | Some (b, c) => [a; b; c]
      end
  end.

Definition or_else {A} (a b : option A) : option A := match a with Some x => Some x | None => b end.

Definition mount_spec_is_dangerous (spec : string) : bool :=
  if contains "source=" spec || contains "src=" spec then
    match head (omap (λ kv, or_else (strip_prefix "source=" kv) (strip_prefix "src=" kv)) (split_on ","%char spec)) with
    | None => false
    | Some src =>
        if contains "docker.sock" src then true
        else
          let read_only := contains "readonly" spec || contains "ro=true" spec in
          negb read_only && is_sensitive_mount_source src
    end
  else
    let parts := splitn3 spec in
    match parts with
    | src :: _ :: rest =>
        if negb (starts_with "/" src) then false
        else if contains "docker.sock" src then true
        else
          let read_only := from_option (λ opts, existsb (String.eqb "ro") (split_on ","%char opts)) false (head rest) in
          negb read_only && is_sensitive_mount_source src
    | _ => false
    end.

(** The loop that collects the mounts. *)
Fixpoint mount_specs (tokens : list string) : list string :=
  match tokens with
  | [] => []
  | t :: rest =>
      let attached := option_list (or_else (strip_prefix "--volume=" t)
                                     (or_else (strip_prefix "-v=" t) (strip_prefix "--mount=" t))) in
      if str_mem t ["-v"; "--volume"; "--mount"] then
        match rest with
        | spec :: rest' => spec :: mount_specs rest'
        | [] => attached
        end
      else attached ++ mount_specs rest
  end.

Definition docker_run_escalation (cmd_lc : string) (tokens : list string) : option Hit :=
  '(runtime_idx, _) ← list_find (λ t, str_mem (basename t) ["docker"; "podman"; "nerdctl"] = true) tokens;
  let subcommand := basename <$> List.find (λ t, negb (starts_with "-" t)) (drop (runtime_idx + 1) tokens) in
  if negb (bool_decide (subcommand = Some "run") || bool_decide (subcommand = Some "create")) then None
  else if contains "--privileged" cmd_lc then
    Some (Hit_queue "docker-run-privileged" (f64_of_Z 5) SevError "container run --privileged (full host capabilities)")
  else if contains "--pid=host" cmd_lc || contains "--pid host" cmd_lc then
    Some (Hit_queue "docker-run-pid-host" (f64_of_Z 5) SevError "container run --pid=host (host process namespace)")
  else if existsb mount_spec_is_dangerous (mount_specs tokens) then
    Some (Hit_queue "docker-run-host-mount" (f64_of_Z 5) SevError
            "container run with the docker socket or a writable sensitive host bind-mount")
  else None.

Section Filter.
Context `{D : Deps} `{Unicode} `{Filesystem}.

Definition is_backup_location (path_lc : string) : bool :=
  if is_name_opaque_tree path_lc then false
  else existsb (λ component, starts_with "backup" component && negb (contains "." component)) (split_on "/"%char path_lc).

Definition classify_rm_target (target : string) : option PathClass :=
  let path_lc := to_lowercase target in
  let p := trim_end_char "/"%char path_lc in
  if String.eqb p "" || String.eqb p "/*" || String.eqb p "/.*" then
    Some (Catastrophic "rm-filesystem-root" "recursive delete of the filesystem root")
  else if is_system_critical_dir path_lc then
    Some (Catastrophic "rm-system-directory" "recursive delete of a system directory")
  else if is_database_data_dir path_lc then
    Some (Catastrophic "rm-database-data-directory" "recursive delete of a database data directory")
  else if is_backup_location path_lc then
    Some (PathQueue "rm-backup-location" (f64_dec 45 1) "recursive delete of a backup location")
  else if is_data_mount path_lc then
    Some (PathQueue "rm-data-mount" (f64_of_Z 4) "recursive delete of a data mount")
  else None.

Definition classify_fileop_target (path_lc : string) : option PathClass :=
  if is_database_data_dir path_lc then
    Some (Catastrophic "destructive-write-database-data-directory" "destructive operation on a database data directory")
  else if is_backup_location path_lc then
    Some (PathQueue "destructive-write-backup-location" (f64_dec 45 1) "destructive operation on a backup location")
  else if is_data_mount path_lc then
    Some (PathQueue "destructive-write-data-mount" (f64_of_Z 4) "destructive operation on a data mount")
  else None.

Definition path_class_to_hit (class : PathClass) : Hit :=
  match class with
  | Catastrophic rule msg => Hit_deny rule msg
  | PathQueue rule score msg => Hit_queue rule score SevError msg
  end.

(** ** Commands *)

Definition when (c : bool) (h : Hit) : option Hit := if c then Some h else None.

Definition is_mkfs (t : string) : bool :=
  let b := basename t in
  String.eqb b "mkfs" || starts_with "mkfs." b || str_mem b ["mke2fs"; "mkswap"; "mkdosfs"; "mkntfs"].

Definition dd_hit (tokens : list string) : option Hit :=
  if has_command tokens "dd" then
    dev ← head (omap (strip_prefix "of=") tokens);
    when (is_raw_block_device (to_lowercase dev)) (Hit_deny "dd-device-write" "dd write to a block device")
  else None.

Definition shred_hit (tokens : list string) : option Hit :=
  if has_command tokens "shred" then
    Some (if existsb (λ t, is_raw_block_device (to_lowercase t)) tokens
          then Hit_deny "shred-device" "secure-overwrite of a block device (shred)"
          else Hit_queue "shred" (f64_of_Z 4) SevError "secure overwrite (shred)")
  else None.

(** The worst of the targets, the first of equals. *)
Definition rm_step (best : option Hit) (target : string) : option Hit :=
  match classify_rm_target target with
  | Some class =>
      let hit := path_class_to_hit class in
      match best with
      | Some b => if f64_ge (h_score b) (h_score hit) then Some b else Some hit
      | None => Some hit
      end
  | None => best
  end.

Definition rm_targets (tokens : list string) : list string :=
  let idx := from_option fst 0%nat (list_find (λ t, basename t = "rm") tokens) in
  List.filter (λ t, negb (starts_with "-" t)) (drop (idx + 1) tokens).

Definition rm_hit (tokens : list string) : option Hit :=
  if has_command tokens "rm" && has_recursive_flag tokens then fold_left rm_step (rm_targets tokens) None else None.

Definition DB_CLIENTS : list string :=
  ["psql"; "mysql"; "mariadb"; "mysqlsh"; "mongo"; "mongosh"; "redis-cli"; "cqlsh"; "clickhouse-client"; "sqlplus";
   "sqlcmd"; "pgcli"; "mycli"; "cockroach"].

Definition datastore_hits (cmd_lc : string) (tokens : list string) (prod : bool) : list (option Hit) :=
  let db_client := existsb (λ t, str_mem (basename t) DB_CLIENTS) tokens in
  [when (contains "drop database" cmd_lc || contains "db.dropdatabase" cmd_lc)
     (prod_gated prod "sql-drop-database" (f64_dec 45 1) SevError "SQL DROP DATABASE");
   when (contains "drop schema" cmd_lc) (prod_gated prod "sql-drop-schema" (f64_of_Z 4) SevError "SQL DROP SCHEMA");
   when (contains "drop keyspace" cmd_lc) (prod_gated prod "cql-drop-keyspace" (f64_of_Z 4) SevError "CQL DROP KEYSPACE");
   when (contains "drop table" cmd_lc) (prod_gated prod "sql-drop-table" (f64_of_Z 4) SevError "SQL DROP TABLE");
   when (contains "truncate table" cmd_lc || (contains "truncate" cmd_lc && db_client))
     (prod_gated prod "sql-truncate" (f64_dec 35 1) SevError "SQL TRUNCATE");
   when (contains "flushall" cmd_lc || contains "flushdb" cmd_lc)
     (prod_gated prod "redis-flush" (f64_of_Z 4) SevError "Redis FLUSH")].

Definition s3_hit (cmd_lc : string) (tokens : list string) (prod : bool) : option Hit :=
  if contains "aws s3 rm" cmd_lc then
    let recursive := contains "--recursive" cmd_lc || has_recursive_flag tokens in
    let bucket_root := existsb (λ t, from_option (λ rest, negb (contains "/" (trim_end_char "/"%char rest))) false
                                       (strip_prefix "s3://" t)) tokens in
    when (recursive || bucket_root || prod)
      (prod_gated prod "aws-s3-recursive-delete" (f64_dec 35 1) SevWarning "S3 recursive object delete")
  else None.

Definition cloud_hits (cmd_lc : string) (tokens : list string) (prod : bool) : list (option Hit) :=
  [when (contains "aws s3 rb" cmd_lc) (prod_gated prod "aws-s3-bucket-delete" (f64_dec 45 1) SevError "S3 bucket delete");
   s3_hit cmd_lc tokens prod;
   when (contains "gsutil" cmd_lc && contains " rm" cmd_lc && has_recursive_flag tokens)
     (prod_gated prod "gcs-recursive-delete" (f64_of_Z 4) SevError "GCS recursive delete");
   when (contains "kubectl delete" cmd_lc && contains "--all" cmd_lc)
     (prod_gated prod "kubectl-delete-all" (f64_dec 45 1) SevError "kubectl delete --all");
   when (contains "kubectl delete namespace" cmd_lc || contains "kubectl delete ns " cmd_lc)
     (prod_gated prod "kubectl-delete-namespace" (f64_dec 45 1) SevError "kubectl delete namespace");
   when (contains "terraform destroy" cmd_lc || contains "terraform apply -destroy" cmd_lc
         || contains "terraform apply --destroy" cmd_lc)
     (prod_gated prod "terraform-destroy" (f64_of_Z 4) SevError "Infrastructure teardown (terraform destroy)");
   when (contains "helm uninstall" cmd_lc || contains "helm delete" cmd_lc)
     (prod_gated prod "helm-uninstall" (f64_dec 35 1) SevWarning "Helm release uninstall");
   when (contains "az group delete" cmd_lc) (prod_gated prod "az-group-delete" (f64_of_Z 4) SevError "Azure resource-group delete");
   when (contains "gcloud" cmd_lc && contains " delete" cmd_lc)
     (prod_gated prod "gcloud-delete" (f64_of_Z 4) SevError "gcloud resource delete");
   when (contains "flyctl destroy" cmd_lc || contains "fly destroy" cmd_lc)
     (prod_gated prod "flyctl-destroy" (f64_of_Z 4) SevError "Fly.io app destroy")].

Definition host_hits (cmd_lc : string) (tokens : list string) : list (option Hit) :=
  [when (existsb is_mkfs tokens) (Hit_deny "filesystem-format" "filesystem format (mkfs)");
   when (has_command tokens "wipefs") (Hit_deny "filesystem-signature-wipe" "filesystem signature wipe (wipefs)");
   when (contains "--no-preserve-root" cmd_lc)
     (Hit_deny "rm-no-preserve-root" "rm with --no-preserve-root (root filesystem destruction)");
   dd_hit tokens; shred_hit tokens; rm_hit tokens].

Definition container_hits (cmd_lc : string) (tokens : list string) : list (option Hit) :=
  [when (contains "docker system prune" cmd_lc || contains "docker volume prune" cmd_lc)
     (Hit_queue "docker-prune" (f64_dec 35 1) SevWarning "Docker prune");
   docker_run_escalation cmd_lc tokens].

Definition command_hits (cmd_lc : string) (tokens : list string) (prod : bool) : list (option Hit) :=
  host_hits cmd_lc tokens ++ datastore_hits cmd_lc tokens prod ++ cloud_hits cmd_lc tokens prod
  ++ container_hits cmd_lc tokens.

(** [max_by] with [total_cmp], the last of equals; the scores are positive constants. *)
Definition worse_hit (best : option Hit) (h : Hit) : option Hit :=
  match best with
  | Some b => if f64_gt (h_score b) (h_score h) then best else Some h
  | None => Some h
  end.

Definition classify_command (cmd_lc : string) (tokens : list string) (prod : bool) : option Hit :=
  fold_left worse_hit (omap id (command_hits cmd_lc tokens prod)) None.

(** ** Evaluation *)

Definition is_destructive_file_op (t : ToolCallType) : bool :=
  match t with FileWrite _ _ | FileAppend _ | FileDelete _ | FileRename _ _ => true | _ => false end.

Definition hit_result (h : Hit) : FilterResult :=
  matched "destructive-action" (h_rule_id h) (h_score h) (h_severity h) (h_message h).

Definition is_production (ctx : ToolCallContext) (cmd_lc : string) : bool :=
  let cwd_lc := default "" (to_lowercase <$> (v ← json_get (ctx_arguments ctx) "cwd"; json_as_str v)) in
  has_prod_db_endpoint cmd_lc || has_prod_lexical cmd_lc || has_prod_lexical cwd_lc.

Definition destructive_evaluate (ctx : ToolCallContext) : FilterResult :=
  match full_command ctx with
  | Some full =>
      let cmd_lc := to_lowercase full in
      let tokens := split_whitespace full in
      from_option hit_result (no_match "destructive-action") (classify_command cmd_lc tokens (is_production ctx cmd_lc))
  | None =>
      if is_destructive_file_op (ctx_call_type ctx) then
        match ctx_path ctx with
        | Some path =>
            match classify_fileop_target (to_lowercase path) with
            | Some class => hit_result (path_class_to_hit class)
            | None => no_match "destructive-action"
            end
        | None => no_match "destructive-action"
        end
      else no_match "destructive-action"
  end.

Definition destructive_action_filter {FS} : SecurityFilter FS :=
  {| sf_name := "destructive-action"; sf_phase := Pattern; sf_is_ready _ := true;
     sf_evaluate ctx w := (Some (destructive_evaluate ctx), w);
     sf_evict_session_state _ w := (0, w); sf_observe_outcome _ _ _ w := w |}.

End Filter.

(** ** What the scores mean *)

Definition for_review (h : Hit) : Prop :=
  is_number (h_score h) ∧ f64_gt (h_score h) SCORE_QUEUE_THRESHOLD = true ∧ f64_le (h_score h) DENY_SCORE = true.

Definition reviewed (o : option Hit) : Prop := ∀ h, o = Some h → for_review h.

Lemma deny_review rule message : for_review (Hit_deny rule message).
Proof. repeat split. Qed.

Lemma gated_review prod rule score severity message : for_review (Hit_queue rule score severity message) →
  for_review (prod_gated prod rule score severity message).
Proof. by destruct prod; [intros _; apply deny_review|]. Qed.

Lemma when_review c h : for_review h → reviewed (when c h).
Proof. intros Hh h'. unfold when. by destruct c; intros [= <-]. Qed.

Lemma some_review h : for_review h → reviewed (Some h).
Proof. by intros Hh h' [= <-]. Qed.

Lemma none_review : reviewed None.
Proof. done. Qed.

Create HintDb hits discriminated.
#[local] Hint Resolve deny_review gated_review when_review some_review none_review : hits.
#[local] Hint Extern 1 (for_review (Hit_queue _ _ _ _)) => (repeat split) : hits.
#[local] Hint Constructors Forall : hits.

Section Theorems.
Context `{D : Deps} `{Unicode} `{Filesystem}.

Definition class_reviewed (o : option PathClass) : Prop := ∀ c, o = Some c → for_review (path_class_to_hit c).

Lemma rm_target_reviewed t : class_reviewed (classify_rm_target t).
Proof. intros c. unfold classify_rm_target. cbv zeta. repeat case_match; intros [= <-]; cbn [path_class_to_hit]; auto with hits. Qed.

Lemma fileop_target_reviewed p : class_reviewed (classify_fileop_target p).
Proof. intros c. unfold classify_fileop_target. repeat case_match; intros [= <-]; cbn [path_class_to_hit]; auto with hits. Qed.

Lemma rm_fold_reviewed targets best : reviewed best → reviewed (fold_left rm_step targets best).
Proof.
  revert best. induction targets as [|t targets IH]; intros best Hb; [done|]. cbn. apply IH.
  unfold rm_step. destruct (classify_rm_target t) as [c|] eqn:Ec; [|done]. apply rm_target_reviewed in Ec. cbv zeta.
  destruct best as [b|]; [|by apply some_review]. destruct (f64_ge _ _); [done|by apply some_review].
Qed.

Lemma command_hits_reviewed cmd tokens prod : Forall reviewed (command_hits cmd tokens prod).
Proof.
  unfold command_hits, host_hits, datastore_hits, cloud_hits, container_hits. cbv zeta. rewrite !Forall_app.
  split; [|split; [|split]]; repeat (apply Forall_cons_2; [try solve [auto with hits]|]); try apply Forall_nil_2.
  - unfold dd_hit. destruct (has_command tokens "dd"); [|done]. destruct (head _); cbn [mbind option_bind]; auto with hits.
  - unfold shred_hit. destruct (has_command tokens "shred"); [|done]. apply some_review. destruct (existsb _ _); auto with hits.
  - unfold rm_hit. destruct (_ && _); [|done]. by apply rm_fold_reviewed.
  - unfold s3_hit. destruct (contains _ _); [|done]. cbv zeta. auto with hits.
  - unfold docker_run_escalation. destruct (list_find _ tokens) as [[i t]|]; [|done]. cbn [mbind option_bind]. cbv zeta.
    repeat case_match; auto with hits.
Qed.

Lemma worst_command cmd tokens prod :
  is_best (λ _, true) h_score (omap id (command_hits cmd tokens prod)) (classify_command cmd tokens prod)
  ∧ reviewed (classify_command cmd tokens prod).
Proof.
  assert (Hr : ∀ h, h ∈ omap id (command_hits cmd tokens prod) → for_review h).
  { intros h (o & Ho & Hh)%list_elem_of_omap. cbn in Hh. subst o.
    by apply (proj1 (Forall_forall _ _) (command_hits_reviewed cmd tokens prod) _ Ho). }
  assert (Hb : is_best (λ _, true) h_score (omap id (command_hits cmd tokens prod)) (classify_command cmd tokens prod)).
  { apply (keep_best_spec (λ _, true) h_score (λ b h, f64_gt (h_score b) (h_score h))).
    - intros b x [Hb Hnb] [Hx Hnx] Hg. rewrite f64_le_or_gt by done. apply negb_true_iff. by apply f64_lt_asym.
    - intros b x [Hb Hnb] [Hx Hnx] Hg. by apply f64_lt_false_le.
    - apply Forall_forall. intros h Hh. by apply Hr. }
  split; [done|]. intros h Hh. rewrite Hh in Hb. apply Hr, Hb.
Qed.

Definition destructive_score (ctx : ToolCallContext) : f64 := fr_score (destructive_evaluate ctx).

(** Nothing destructive passes unseen.  Whatever the filter matches scores above the
    allow threshold by itself, and never above the score of a denial. *)
Theorem destructive_reviewed ctx (Hm : fr_matched (destructive_evaluate ctx) = true) :
  f64_gt (destructive_score ctx) SCORE_QUEUE_THRESHOLD = true ∧ f64_le (destructive_score ctx) DENY_SCORE = true.
Proof.
  unfold destructive_score, destructive_evaluate in *. destruct (full_command ctx) as [full|].
  - cbv zeta in *. destruct (worst_command (to_lowercase full) (split_whitespace full) (is_production ctx (to_lowercase full))) as [_ Hr].
    destruct (classify_command _ _ _) as [h|]; [|done]. by destruct (Hr h eq_refl) as (_ & ? & ?).
  - destruct (is_destructive_file_op _); [|done]. destruct (ctx_path ctx) as [path|]; [|done].
    destruct (classify_fileop_target _) as [c|] eqn:Ec; [|done]. by destruct (fileop_target_reviewed _ _ Ec) as (_ & ? & ?).
Qed.

(** ** Production *)

Definition command_score (cmd : string) (tokens : list string) (prod : bool) : f64 :=
  from_option h_score f64_zero (classify_command cmd tokens prod).

Lemma when_dominated c rule score severity message :
  for_review (Hit_queue rule score severity message) →
  dominated_by h_score (when c (prod_gated false rule score severity message)) (when c (prod_gated true rule score severity message)).
Proof. intros (_ & _ & Hs) h. unfold when. destruct c; [|done]. intros [= <-]. by eexists. Qed.

Lemma same_dominated o : reviewed o → dominated_by h_score o o.
Proof. intros Hr h Hh. exists h. split; [done|]. apply f64_le_refl. by apply (Hr h Hh). Qed.

#[local] Hint Resolve when_dominated same_dominated : hits.

Lemma commands_dominated cmd tokens :
  Forall2 (dominated_by h_score) (command_hits cmd tokens false) (command_hits cmd tokens true).
Proof.
  pose proof (command_hits_reviewed cmd tokens false) as Hr. unfold command_hits in *. rewrite !Forall_app in Hr.
  destruct Hr as (Hh & _ & _ & Hc). assert (Hsame : ∀ l, Forall reviewed l → Forall2 (dominated_by h_score) l l).
  { intros l Hl. induction Hl; constructor; auto with hits. }
  apply Forall2_app; [by apply Hsame|]. apply Forall2_app; [|apply Forall2_app; [|by apply Hsame]].
  - unfold datastore_hits. cbv zeta. repeat (constructor; [auto with hits|]); constructor.
  - unfold cloud_hits. repeat (constructor; [try solve [auto with hits]|]); try constructor.
    unfold s3_hit. destruct (contains _ _); [|done]. cbv zeta. intros h. unfold when. rewrite orb_true_r, orb_false_r.
    destruct (_ || _); [|done]. intros [= <-]. by eexists.
Qed.

(** A production target is never judged milder: the same command scores at least as
    much with production in sight as without. *)
Theorem production_never_milder cmd tokens :
  f64_le (command_score cmd tokens false) (command_score cmd tokens true) = true.
Proof.
  destruct (worst_command cmd tokens false) as [Hb Hr], (worst_command cmd tokens true) as [Hb' Hr'].
  unfold command_score. destruct (classify_command cmd tokens false) as [h|]; cbn [from_option].
  - destruct Hb as (Hh & _). destruct (omap_dominated h_score _ _ _ (commands_dominated cmd tokens) Hh) as (h' & Hh' & Hle).
    destruct (classify_command cmd tokens true) as [b|]; [|by specialize (Hb' h' Hh')]. cbn [from_option is_best] in *.
    assert (Hn : is_number (h_score h')).
    { apply list_elem_of_omap in Hh' as (o & Ho & Hx). cbn in Hx. subst o.
      by apply (proj1 (Forall_forall _ _) (command_hits_reviewed cmd tokens true) _ Ho). }
    apply (f64_le_trans _ (h_score h')); [by apply (Hr h)|apply Hn|by apply (Hr' b)|done|by apply Hb'].
  - destruct (classify_command cmd tokens true) as [b|]; [|done]. cbn [from_option].
    destruct (Hr' b eq_refl) as ((Hv & Hn) & Hg & _). change (f64_lt SCORE_QUEUE_THRESHOLD (h_score b) = true) in Hg.
    assert (Hlt : f64_lt f64_zero (h_score b) = true) by (by apply (f64_le_lt_trans _ SCORE_QUEUE_THRESHOLD)).
    rewrite f64_le_or_gt by done. apply negb_true_iff. by apply f64_lt_asym.
Qed.

(** ** Recursive deletes *)

Definition denies (o : option Hit) : Prop := ∃ h, o = Some h ∧ f64_le DENY_SCORE (h_score h) = true.

Lemma rm_step_denies best t : reviewed best → denies best → denies (rm_step best t).
Proof.
  intros Hr (b & -> & Hb). unfold rm_step. destruct (classify_rm_target t) as [c|] eqn:Ec; [|by exists b].
  destruct (rm_target_reviewed _ _ Ec) as ([Hv _] & _ & Hle). destruct (Hr b eq_refl) as ([Hvb _] & _ & _). cbv zeta.
  change (f64_ge (h_score b) (h_score (path_class_to_hit c))) with (f64_le (h_score (path_class_to_hit c)) (h_score b)).
  rewrite (f64_le_trans _ DENY_SCORE) by done. by exists b.
Qed.

Lemma rm_fold_denies targets best : reviewed best →
  denies best ∨ (∃ t rule message, t ∈ targets ∧ classify_rm_target t = Some (Catastrophic rule message)) →
  denies (fold_left rm_step targets best).
Proof.
  revert best. induction targets as [|t targets IH]; intros best Hr Hd.
  { destruct Hd as [?|(t & ? & ? & Ht & _)]; [done|by apply not_elem_of_nil in Ht]. }
  cbn [fold_left]. apply IH; [by apply (rm_fold_reviewed [t] best)|].
  destruct Hd as [Hd|(u & rule & message & [->|Hu]%elem_of_cons & Hc)]; [left; by apply rm_step_denies| |right; by exists u, rule, message].
  left. unfold rm_step. rewrite Hc. cbv zeta. destruct best as [b|]; [|by eexists].
  destruct (f64_ge (h_score b) _) eqn:Eg; [by exists b|by eexists].
Qed.

(** What a recursive delete may not name. *)
Definition protected_directory (target : string) : bool :=
  let lc := to_lowercase target in is_system_critical_dir lc || is_database_data_dir lc.

Lemma protected_catastrophic t : protected_directory t = true →
  ∃ rule message, classify_rm_target t = Some (Catastrophic rule message).
Proof.
  unfold protected_directory, classify_rm_target. cbv zeta. intros Hp.
  destruct (_ || _ || _); [by do 2 eexists|]. destruct (is_system_critical_dir _); [by do 2 eexists|].
  destruct (is_database_data_dir _); [by do 2 eexists|done].
Qed.

(** C18: A recursive delete that names a protected directory as it is scores above the
    denial threshold: the text of a shell call or spawn, split at white space, has a
    word whose last path component is rm, a word --recursive or a cluster of short flags
    with r or R, and behind the rm a word without a leading dash that is, up to letter
    case and in the spellings the filter knows, the root, a system directory or the data
    directory of a database. Words are taken literally: a quoted path, a detour such as
    /usr/../etc or an abbreviated --recurs is not recognised and not covered
    (hidden_deletes). *)
Theorem protected_deletes_denied ctx command t (Hc : full_command ctx = Some command)
    (Hrm : has_command (split_whitespace command) "rm" = true)
    (Hrec : has_recursive_flag (split_whitespace command) = true)
    (Ht : t ∈ rm_targets (split_whitespace command)) (Hp : protected_directory t = true) :
  f64_le DENY_SCORE (destructive_score ctx) = true ∧ f64_gt (destructive_score ctx) SCORE_DENY_THRESHOLD = true.
Proof.
  set (tokens := split_whitespace command) in *. destruct (protected_catastrophic t Hp) as (rule & message & Hcl).
  assert (Hd : denies (rm_hit tokens)).
  { unfold rm_hit. rewrite Hrm, Hrec. apply rm_fold_denies; [done|]. right. by exists t, rule, message. }
  destruct Hd as (h & Hh & Hle). set (cmd := to_lowercase command). set (prod := is_production ctx cmd).
  assert (Hin : h ∈ omap id (command_hits cmd tokens prod)).
  { apply list_elem_of_omap. exists (rm_hit tokens). split; [|done]. unfold command_hits, host_hits. apply elem_of_app. left.
    do 5 (apply elem_of_cons; right). by left. }
  destruct (worst_command cmd tokens prod) as [Hb Hr]. unfold destructive_score, destructive_evaluate. rewrite Hc. cbv zeta.
  fold cmd tokens prod. destruct (classify_command cmd tokens prod) as [b|]; [|by specialize (Hb h Hin)].
  cbn [from_option hit_result fr_score matched is_best] in *. destruct Hb as (_ & _ & Hb).
  destruct (Hr b eq_refl) as ([Hvb _] & _ & _).
  assert (Hvh : f64_valid (h_score h) = true).
  { by apply (proj1 (Forall_forall _ _) (command_hits_reviewed cmd tokens prod) (rm_hit tokens));
      [unfold command_hits, host_hits; apply elem_of_app; left; do 5 (apply elem_of_cons; right); left|]. }
  assert (Hdb : f64_le DENY_SCORE (h_score b) = true) by (apply (f64_le_trans _ (h_score h)); [done..|by apply Hb]).
  split; [done|]. change (f64_lt SCORE_DENY_THRESHOLD (h_score b) = true).
  by apply (f64_lt_le_trans _ DENY_SCORE).
Qed.

End Theorems.

(** ** Examples *)

Section Examples.
#[local] Existing Instances concrete_deps ascii_unicode bare_filesystem.

Definition shell (command : string) : ToolCallContext :=
  ToolCallContext_new uuid_a 0%Z "p" (ShellExec command []) uuid_b.

Lemma destructive_reviewed_witness :
  f64_gt (destructive_score (shell "terraform destroy")) SCORE_QUEUE_THRESHOLD = true
  ∧ f64_le (destructive_score (shell "terraform destroy")) DENY_SCORE = true.
Proof. apply (destructive_reviewed (shell "terraform destroy")). vm_compute. reflexivity. Defined.

Lemma protected_deletes_denied_witness :
  f64_le DENY_SCORE (destructive_score (shell "sudo rm -rf /tmp/x /ETC/")) = true
  ∧ f64_gt (destructive_score (shell "sudo rm -rf /tmp/x /ETC/")) SCORE_DENY_THRESHOLD = true.
Proof.
  apply (protected_deletes_denied (shell "sudo rm -rf /tmp/x /ETC/") "sudo rm -rf /tmp/x /ETC/" "/ETC/");
    [reflexivity| | |right; by left|reflexivity]; vm_compute; reflexivity.
Defined.

(** What the words hide: quotes, a detour in the path, an abbreviated option. *)
Example hidden_deletes :
  map (λ c, destructive_score (shell c)) ["rm -rf /etc"; "rm -rf '/etc'"; "rm -rf /usr/../etc"; "rm --recurs /etc"]
  = [DENY_SCORE; f64_zero; f64_zero; f64_zero].
Proof. vm_compute. reflexivity. Qed.

(** What the search for a subcommand hides: the long form of the command, a global
    option with a value, a mount attached to its flag. *)
Example hidden_containers :
  map (λ c, destructive_score (shell c))
    ["docker run --privileged x"; "docker container run --privileged x"; "docker --context c run --privileged x";
     "docker run -v /:/host x"; "docker run -v/:/host x"]
  = [f64_of_Z 5; f64_zero; f64_zero; f64_of_Z 5; f64_zero].
Proof. vm_compute. reflexivity. Qed.

(** A rename is judged by its old name. *)
Example rename_destination_unjudged :
  fr_score (destructive_evaluate (ToolCallContext_new uuid_a 0%Z "p" (FileWrite "/var/lib/mysql/x" "") uuid_b)) = DENY_SCORE
  ∧ fr_score (destructive_evaluate (ToolCallContext_new uuid_a 0%Z "p" (FileRename "/tmp/x" "/var/lib/mysql/x") uuid_b)) = f64_zero.
Proof. vm_compute. split; reflexivity. Qed.

End Examples.
