(* ===== verification/LearnedRules.v ===== *)
(** * Learned rules

    The rules a reviewer teaches with "learn and approve"
    ([grith-supervisor/src/learned_rules.rs], and the persisting part of the review in
    [supervisor/event_handler.rs]): what may be persisted, the file with its lock and its
    atomic replacement, the cache of the team's rules, and what a later session merges
    into its allowlist.

    Appending is a state machine ([Writer]) whose steps are single calls of the operating
    system, so that several processes can learn at once: [run_schedule] interleaves them.
    TOML and JSON are parameters ([LearnedCodec]). *)

From Stdlib Require Import Ascii String ZArith Lia.
From S2P Require Import Prelude Concrete Types SensitivePaths Paths ScopedPermissions SessionRules SessionGrants.
From S2P Require Import LocalSockets.
From S2P Require Import ReputationStore.
From S2P Require Import EventHandler.
From S2P Require Import HandlerProofs.

#[local] Open Scope string_scope.
#[local] Open Scope list_scope.

Record LearnedRule := {
  lr_pattern : string;
  lr_profile : string;
  lr_scope : string;
  lr_reason : string;
  lr_created_at : string;
  lr_created_by : string;
}.

Record TeamLearnedRule := {
  tl_pattern : string;
  tl_profile : string;
  tl_scope : string;
  tl_reason : string;
  tl_created_by : string;
  tl_created_at : string;
}.

(** ** What may be persisted *)

Definition SENSITIVE_MARKERS : list string :=
  ["id_rsa"; "id_ed25519"; "id_ecdsa"; "id_dsa"; "/.ssh/authorized_keys"; "/.aws/credentials";
   "/.gnupg/"; "/.kube/config"; "/.docker/config.json"; "/.config/gcloud/"; "/.git-credentials";
   "/.netrc"; "/.pgpass"; "/.npmrc"; "/.pypirc"; "/etc/shadow"; "/etc/gshadow"; "private_key";
   "/credentials"; "/secrets"; "/.env"].

Definition path_targets_sensitive (path : string) : bool :=
  existsb (λ m, contains m (to_ascii_lowercase path)) SENSITIVE_MARKERS.

Definition valid_prefixes : list string :=
  ["ro:"; "rw:"; "exec:"; "exec-prefix:"; "net:"; "listen:"; "ipc-socket:"].

Definition check (ok : bool) (message : string) : result unit := if ok then Ok tt else Err message.

Definition validate_exec_prefix (suffix scope : string) : result unit :=
  if negb (String.eqb scope "team") then
    Err "exec-prefix: rules can only be created by team admins, not user-local [l] actions"
  else check (negb (String.eqb suffix "") && starts_with "/" suffix)
    "exec-prefix: pattern must contain a non-empty absolute path (e.g., exec-prefix:/usr/lib/git-core/)".

Definition validate_ipc_socket (suffix : string) : result unit :=
  match split_once "|" suffix with
  | None => Err "ipc-socket: pattern must be `ipc-socket:<socket address>|<client exe>`"
  | Some (socket, exe) =>
      match (p ← strip_prefix "unix:" socket; Some (default p (strip_prefix "@" p))) with
      | None => Err "ipc-socket: socket address must start with `unix:`"
      | Some bare =>
          if negb (starts_with "/" bare) then Err "ipc-socket: socket address must contain an absolute path"
          else if is_sensitive_unix_socket bare then Err "ipc-socket: privileged daemon sockets are not grantable"
          else check (starts_with "/" exe) "ipc-socket: client exe must be an absolute path"
      end
  end.

(** The check of one namespace: nothing to check if the pattern is of another. *)
Definition of_namespace (namespace pattern : string) (f : string → result unit) : result unit :=
  match strip_prefix namespace pattern with Some suffix => f suffix | None => Ok tt end.

Definition absolute_suffix (message suffix : string) : result unit := check (starts_with "/" suffix) message.

(** The path a pattern is about. *)
Definition rule_path (pattern : string) : option string :=
  match strip_prefix "ro:" pattern with
  | Some path => Some path
  | None =>
      match strip_prefix "rw:" pattern with
      | Some path => Some path
      | None =>
          match strip_prefix "exec-prefix:" pattern with
          | Some path => Some path
          | None => strip_prefix "exec:" pattern
          end
      end
  end.

Definition validate_persisted_rule_with_scope (pattern scope : string) : result unit :=
  _ ← check (negb (String.eqb pattern "")) "pattern must not be empty";
  _ ← check (negb (512 <? String.length pattern)%nat) "pattern must not exceed 512 characters";
  _ ← check (existsb (λ p, starts_with p pattern) valid_prefixes)
        ("pattern must start with one of: " +:+ join ", " valid_prefixes
         +:+ ". Bare filesystem paths and dns: are not persistable.");
  _ ← of_namespace "exec-prefix:" pattern (λ suffix, validate_exec_prefix suffix scope);
  _ ← of_namespace "ipc-socket:" pattern validate_ipc_socket;
  _ ← of_namespace "ro:" pattern (absolute_suffix "ro: pattern must contain an absolute path");
  _ ← of_namespace "rw:" pattern (absolute_suffix "rw: pattern must contain an absolute path");
  _ ← (if starts_with "exec-prefix:" pattern then Ok tt
       else of_namespace "exec:" pattern (absolute_suffix "exec: pattern must contain an absolute path"));
  match rule_path pattern with
  | Some path =>
      check (negb (path_targets_sensitive path))
        ("refusing to persist a rule targeting a sensitive path (" +:+ path
         +:+ "): sensitive accesses must go through the proxy, not an auto-allow rule")
  | None => Ok tt
  end.

Definition validate_persisted_rule (pattern : string) : result unit :=
  validate_persisted_rule_with_scope pattern "user".

Definition is_ok {A} (r : result A) : bool := match r with Ok _ => true | Err _ => false end.

(** ** The files *)

Class LearnedCodec := {
  (** [toml::from_str] and [to_string_pretty] of the file, [serde_json] of the cache. *)
  parse_learned : string → result (list LearnedRule);
  print_learned : list LearnedRule → result string;
  parse_team : string → result (list TeamLearnedRule);
  print_team : list TeamLearnedRule → result string;
}.

(** What was printed is read back, and the text of a file with rules is not blank. *)
Class LearnedCodecLaws `{LearnedCodec} : Prop := {
  learned_round_trip : ∀ rules s, print_learned rules = Ok s → parse_learned s = Ok rules;
  learned_not_blank : ∀ rules s, print_learned rules = Ok s → rules ≠ [] → trim s ≠ "";
}.

Section Files.
Context `{LearnedCodec}.

Definition load_learned_rules (read_error : option string) (path : string) (disk : Disk) : list LearnedRule :=
  match disk !! path, read_error with
  | Some content, None =>
      if String.eqb (trim content) "" then []
      else match parse_learned content with
           | Ok rules => List.filter (λ r, is_ok (validate_persisted_rule (lr_pattern r))) rules
           | Err _ => []
           end
  | _, _ => []
  end.

(** [Path::parent] of a file's path. *)
Definition parent_dir (path : string) : string :=
  match rsplit_once "/"%char path with
  | Some (EmptyString, _) => "/"
  | Some (dir, _) => dir
  | None => ""
  end.

Definition load_team_learned_rules (read_error : option string) (path : string) (disk : Disk) :
    list TeamLearnedRule :=
  match disk !! path, read_error with
  | Some content, None =>
      if String.eqb (trim content) "" then []
      else match parse_team content with
           | Ok rules =>
               List.filter (λ r, is_ok (validate_persisted_rule_with_scope (tl_pattern r) (tl_scope r))) rules
           | Err _ => []
           end
  | _, _ => []
  end.

Definition write_team_learned_rules_cache (faults : DiskFaults) (path : string)
    (rules : list TeamLearnedRule) (disk : Disk) : result unit * Disk :=
  match df_create_dir faults with
  | Some e => (Err ("failed to create directory " +:+ parent_dir path +:+ ": " +:+ e), disk)
  | None =>
      match print_team rules with
      | Err e => (Err ("failed to serialize team rules: " +:+ e), disk)
      | Ok json =>
          let tmp := with_extension "json.tmp" path in
          match df_write faults with
          | Some (partial, e) => (Err ("failed to write team rule cache: " +:+ e), <[tmp := partial]> disk)
          | None =>
              let disk := <[tmp := json]> disk in
              match df_rename faults with
              | Some e => (Err ("failed to rename team rule cache into place: " +:+ e), disk)
              | None => (Ok tt, <[path := json]> (delete tmp disk))
              end
          end
      end
  end.

(** ** Appending a rule

    The files, and the time the lock file was made if there is one. *)

Record LearnedDisk := {
  ld_files : Disk;
  ld_lock : option Z;
}.

Definition with_lock (lock : option Z) (d : LearnedDisk) : LearnedDisk :=
  {| ld_files := ld_files d; ld_lock := lock |}.
Definition with_files (files : Disk) (d : LearnedDisk) : LearnedDisk :=
  {| ld_files := files; ld_lock := ld_lock d |}.

(** What one call of the operating system meets: the clock, an error, and what a write
    that fails leaves behind. *)
Record StepEnv := {
  se_now : Z;
  se_error : option string;
  se_partial : string;
}.

Inductive Writer :=
  | Try (attempt : nat)
  | CheckAge (attempt : nat)
  | RemoveStale (attempt : nat)
  | ReadRules
  | WriteTmp (content : string)
  | RenameTmp
  | DropLock (outcome : result unit)
  | Finished (outcome : result unit).

Definition LOCK_ATTEMPTS : nat := 20.
Definition STALE_SECS : Z := 10.

(** [modified().elapsed().as_secs() > 10]; a time in the future has no age. *)
Definition lock_is_stale (now mtime : Z) : bool :=
  (mtime <=? now)%Z && (STALE_SECS <? (now - mtime) / nanos_per_sec)%Z.

(** The existing rules; a file that cannot be read or parsed is an error here. *)
Definition read_existing (read_error : option string) (path : string) (disk : Disk) :
    result (list LearnedRule) :=
  match disk !! path with
  | None => Ok []
  | Some content =>
      match read_error with
      | Some e => Err ("failed to read existing rules file: " +:+ e)
      | None =>
          if String.eqb (trim content) "" then Ok []
          else match parse_learned content with
               | Ok rules => Ok rules
               | Err e =>
                   Err ("existing learned rules file is corrupted and cannot be parsed: " +:+ e
                        +:+ ". Fix or delete " +:+ path +:+ " before learning new rules.")
               end
      end
  end.

Definition same_key (rule r : LearnedRule) : bool :=
  String.eqb (lr_pattern r) (lr_pattern rule) && String.eqb (lr_profile r) (lr_profile rule).

Definition tmp_path (path : string) : string := with_extension "toml.tmp" path.

(** One step of [append_learned_rule], from the lock to its release. *)
Definition writer_step (path : string) (rule : LearnedRule) (e : StepEnv) (w : Writer) (d : LearnedDisk) :
    Writer * LearnedDisk :=
  match w with
  | Try attempt =>
      if (attempt <? LOCK_ATTEMPTS)%nat then
        match se_error e, ld_lock d with
        | Some m, _ => (Finished (Err ("failed to create lock file: " +:+ m)), d)
        | None, None => (ReadRules, with_lock (Some (se_now e)) d)
        | None, Some _ => (CheckAge attempt, d)
        end
      else (Finished (Err "exhausted lock attempts"), d)
  | CheckAge attempt =>
      if match se_error e, ld_lock d with None, Some mtime => lock_is_stale (se_now e) mtime | _, _ => false end
      then (RemoveStale attempt, d)
      else if (attempt <? LOCK_ATTEMPTS - 1)%nat then (Try (S attempt), d)
      else (Finished (Err "could not acquire lock for learned rules file (another process holds it)"), d)
  | RemoveStale attempt =>
      (Try (S attempt), match se_error e with Some _ => d | None => with_lock None d end)
  | ReadRules =>
      match read_existing (se_error e) path (ld_files d) with
      | Err m => (DropLock (Err m), d)
      | Ok rules =>
          if existsb (same_key rule) rules then (DropLock (Ok tt), d)
          else match print_learned (rules ++ [rule]) with
               | Err m => (DropLock (Err ("failed to serialize rules: " +:+ m)), d)
               | Ok content => (WriteTmp content, d)
               end
      end
  | WriteTmp content =>
      match se_error e with
      | Some m => (DropLock (Err ("failed to write temp file: " +:+ m)),
                   with_files (<[tmp_path path := se_partial e]> (ld_files d)) d)
      | None => (RenameTmp, with_files (<[tmp_path path := content]> (ld_files d)) d)
      end
  | RenameTmp =>
      match se_error e, ld_files d !! tmp_path path with
      | Some m, _ => (DropLock (Err ("failed to rename temp file: " +:+ m)), d)
      | None, None => (DropLock (Err "failed to rename temp file: No such file or directory (os error 2)"), d)
      | None, Some content =>
          (DropLock (Ok tt), with_files (<[path := content]> (delete (tmp_path path) (ld_files d))) d)
      end
  | DropLock outcome =>
      (Finished outcome, match se_error e with Some _ => d | None => with_lock None d end)
  | Finished _ => (w, d)
  end.

(** A process that is not disturbed: [envs] gives what each of its calls meets. *)
Fixpoint run_writer (fuel : nat) (path : string) (rule : LearnedRule) (envs : nat → StepEnv)
    (w : Writer) (d : LearnedDisk) : option (result unit * LearnedDisk) :=
  match w, fuel with
  | Finished outcome, _ => Some (outcome, d)
  | _, O => None
  | _, S fuel =>
      let '(w, d) := writer_step path rule (envs fuel) w d in
      run_writer fuel path rule envs w d
  end.

Definition WRITER_FUEL : nat := 3 * S LOCK_ATTEMPTS + 5.

Definition append_learned_rule (create_dir_error : option string) (envs : nat → StepEnv) (path : string)
    (rule : LearnedRule) (d : LearnedDisk) : option (result unit * LearnedDisk) :=
  match validate_persisted_rule (lr_pattern rule), create_dir_error with
  | Err m, _ => Some (Err m, d)
  | Ok _, Some m => Some (Err ("failed to create directory " +:+ parent_dir path +:+ ": " +:+ m), d)
  | Ok _, None => run_writer WRITER_FUEL path rule envs (Try 0) d
  end.

(** Several processes that append to one file, in any order of their steps. *)
Definition append_turn (path : string) (turn : nat * StepEnv) (s : list (LearnedRule * Writer) * LearnedDisk) :
    list (LearnedRule * Writer) * LearnedDisk :=
  let '(i, e) := turn in
  let '(ws, d) := s in
  match ws !! i with
  | None => s
  | Some (rule, w) =>
      let '(w, d) := writer_step path rule e w d in
      (<[i := (rule, w)]> ws, d)
  end.

Definition run_schedule (path : string) (schedule : list (nat * StepEnv)) (s : list (LearnedRule * Writer) * LearnedDisk) :
    list (LearnedRule * Writer) * LearnedDisk :=
  fold_left (λ s turn, append_turn path turn s) schedule s.

(** ** Merging into a session's allowlist *)

Context {U : Unicode} {FS : Filesystem}.

Definition normalize_loaded_pattern (pattern : string) : string :=
  match (path ← strip_prefix "ro:" pattern; canonicalize_allowlist_entry "ro:" path) with
  | Some entry => entry
  | None =>
      match (path ← strip_prefix "rw:" pattern; canonicalize_allowlist_entry "rw:" path) with
      | Some entry => entry
      | None => pattern
      end
  end.

Definition rules_for_profile (rules : list LearnedRule) (profile_name : string) : list LearnedRule :=
  List.filter (λ r, String.eqb (lr_profile r) profile_name) rules.

(** What the loops insert, in their order. *)
Definition local_entries (read_error : option string) (profile_name local_path : string) (disk : Disk) :
    list string :=
  map (λ r, normalize_loaded_pattern (lr_pattern r))
    (rules_for_profile (load_learned_rules read_error local_path disk) profile_name).

Definition team_entries (read_error : option string) (profile_name team_path : string) (disk : Disk) :
    list string :=
  map (λ r, normalize_loaded_pattern (tl_pattern r))
    (List.filter (λ r, String.eqb (tl_profile r) profile_name
                       && is_ok (validate_persisted_rule_with_scope (tl_pattern r) (tl_scope r)))
       (load_team_learned_rules read_error team_path disk)).

Definition merge_cached_rules_for_profile (local_error team_error : option string) (profile_name local_path team_path : string)
    (disk : Disk) (allowlist : list string) : list string * (nat * nat) :=
  let local := local_entries local_error profile_name local_path disk in
  let team := team_entries team_error profile_name team_path disk in
  (insert_all_entries team (insert_all_entries local allowlist), (length local, length team)).

Definition default_learned_rules_path (env : string → option string) : string :=
  match env "GRITH_CONFIG_DIR" with
  | Some path => path_join path "learned_rules.toml"
  | None =>
      match env "HOME" with
      | Some home => path_join (path_join home ".config/grith") "learned_rules.toml"
      | None =>
          match env "USERPROFILE" with
          | Some profile => path_join (path_join profile ".config/grith") "learned_rules.toml"
          | None => path_join ".grith" "learned_rules.toml"
          end
      end
  end.

(** [Path::with_file_name]. *)
Definition team_learned_rules_cache_path (env : string → option string) : string :=
  path_join (parent_dir (default_learned_rules_path env)) "team_learned_rules.json".

Definition merge_default_cached_rules_for_profile (env : string → option string)
    (local_error team_error : option string) (profile_name : string) (disk : Disk) (allowlist : list string) :
    list string * (nat * nat) :=
  merge_cached_rules_for_profile local_error team_error profile_name (default_learned_rules_path env)
    (team_learned_rules_cache_path env) disk allowlist.

(** ** Learning

    The part of the review that persists the rules of an approved call.  [attempts]
    gives what the directory and the calls of each append meet; an append that fails is
    only logged. *)

Context {D : Deps} `{Sha256} `{ActionJson}.
Variable process_start_time : Z → option Z.
Variable json_string_array : string → option (list string).

Definition learned_reason (ctx : ToolCallContext) : string :=
  match (v ← json_get (ctx_arguments ctx) "process"; json_as_str v) with
  | None => ""
  | Some proc =>
      match (v ← json_get (ctx_arguments ctx) "process_args"; args ← json_as_array v;
             List.find (λ a, negb (starts_with "-" a) && (contains "@" a || contains "." a)) (omap json_as_str args)) with
      | Some t => proc +:+ " → " +:+ t
      | None => proc
      end
  end.

Definition learnable_entries (m : Machine) (contained : bool) (ctx : ToolCallContext) : list string :=
  approved_session_allowlist_entries process_start_time json_string_array (ctx_call_type ctx)
  ++ option_list (if contained then None else ipc_socket_grant_key_for_ctx m ctx).

Definition LearnEnv : Type := option string * (nat → StepEnv).

Fixpoint persist_entries (attempts : nat → LearnEnv) (path profile reason now : string) (entries : list string)
    (d : LearnedDisk) : LearnedDisk :=
  match entries with
  | [] => d
  | entry :: entries =>
      let rule := {| lr_pattern := entry; lr_profile := profile; lr_scope := "user"; lr_reason := reason;
                     lr_created_at := now; lr_created_by := "" |} in
      let d :=
        if is_ok (validate_persisted_rule entry) then
          let '(create_dir_error, envs) := attempts (length entries) in
          from_option snd d (append_learned_rule create_dir_error envs path rule d)
        else d in
      persist_entries attempts path profile reason now entries d
  end.

Definition learn_and_approve (attempts : nat → LearnEnv) (path now : string) (m : Machine) (contained : bool)
    (profile_scope : option string) (ctx : ToolCallContext) (d : LearnedDisk) : LearnedDisk :=
  match profile_scope with
  | Some profile =>
      persist_entries attempts path profile (learned_reason ctx) now (learnable_entries m contained ctx) d
  | None => d
  end.

End Files.

(** ** Appending ends *)

Section Appending.
Context `{LearnedCodec}.

Definition writer_rank (w : Writer) : nat :=
  match w with
  | Try n => 3 * (S LOCK_ATTEMPTS - n) + 5
  | CheckAge n => 3 * (S LOCK_ATTEMPTS - n) + 4
  | RemoveStale n => 3 * (S LOCK_ATTEMPTS - n) + 3
  | ReadRules => 4
  | WriteTmp _ => 3
  | RenameTmp => 2
  | DropLock _ => 1
  | Finished _ => 0
  end.

Definition in_attempts (w : Writer) : Prop :=
  match w with Try n => (n <= LOCK_ATTEMPTS)%nat | CheckAge n | RemoveStale n => (n < LOCK_ATTEMPTS)%nat | _ => True end.

Lemma writer_step_ranked path rule e w d : in_attempts w →
  in_attempts (writer_step path rule e w d).1
  ∧ (writer_rank w = 0 ∨ writer_rank (writer_step path rule e w d).1 < writer_rank w)%nat.
Proof.
  intros Hw. destruct w; cbn [writer_step in_attempts] in *; repeat case_match;
    cbn [fst in_attempts writer_rank] in *; unfold LOCK_ATTEMPTS in *;
    rewrite ?Nat.ltb_lt, ?Nat.ltb_ge in *; lia.
Qed.

Lemma run_writer_finishes path rule envs fuel w d : in_attempts w → (writer_rank w <= fuel)%nat →
  is_Some (run_writer fuel path rule envs w d).
Proof.
  revert w d. induction fuel as [|fuel IH]; intros w d Hw Hr.
  { destruct w; cbn in Hr; try lia. by eexists. }
  pose proof (writer_step_ranked path rule (envs fuel) w d Hw) as [Hw' Hlt].
  destruct (writer_step path rule (envs fuel) w d) as [w' d'] eqn:E. cbn [fst] in *.
  destruct w; try (cbn; by eexists); cbn [run_writer]; rewrite E; apply IH; try done; cbn in Hlt, Hr; lia.
Qed.

Lemma append_returns create_dir_error envs path rule d :
  is_Some (append_learned_rule create_dir_error envs path rule d).
Proof.
  unfold append_learned_rule. destruct (validate_persisted_rule _); [|by eexists].
  destruct create_dir_error; [by eexists|].
  apply run_writer_finishes; cbn; unfold WRITER_FUEL, LOCK_ATTEMPTS; lia.
Qed.

Definition turns_of (i : nat) (schedule : list (nat * StepEnv)) : nat :=
  length (List.filter (λ turn, (turn.1 =? i)%nat) schedule).

Lemma append_turn_other path i j e ws d : i ≠ j → (append_turn path (j, e) (ws, d)).1 !! i = ws !! i.
Proof.
  intros Hij. unfold append_turn. destruct (ws !! j) as [[rule w]|]; [|done].
  destruct (writer_step path rule e w d). cbn [fst]. by rewrite list_lookup_insert_ne by done.
Qed.

Lemma append_turn_own path i e ws d rule w : ws !! i = Some (rule, w) →
  append_turn path (i, e) (ws, d) =
    (<[i := (rule, (writer_step path rule e w d).1)]> ws, (writer_step path rule e w d).2).
Proof. intros Hi. unfold append_turn. rewrite Hi. by destruct (writer_step path rule e w d). Qed.

(** Learning ends, whatever the other processes, the disk and the clock do: a process that
    got [WRITER_FUEL] turns is finished. *)
Theorem writers_finish path schedule ws d i rule w
    (Hi : ws !! i = Some (rule, w)) (Hw : in_attempts w) (Hn : (writer_rank w <= turns_of i schedule)%nat) :
  ∃ outcome, (run_schedule path schedule (ws, d)).1 !! i = Some (rule, Finished outcome).
Proof.
  revert ws d w Hi Hw Hn. induction schedule as [|[j e] schedule IH]; intros ws d w Hi Hw Hn.
  { cbn in Hn. destruct w; cbn in Hn; try lia. by eexists. }
  change (run_schedule path ((j, e) :: schedule) (ws, d))
    with (run_schedule path schedule (append_turn path (j, e) (ws, d))).
  unfold turns_of in Hn. cbn [List.filter fst] in Hn. destruct (Nat.eqb_spec j i) as [->|Hij].
  - rewrite (append_turn_own path i e ws d rule w Hi).
    destruct (writer_step_ranked path rule e w d Hw) as [Hw' Hr]. eapply IH; [|exact Hw'|].
    + apply list_lookup_insert_eq. by eapply lookup_lt_Some.
    + cbn [length] in Hn. destruct Hr as [Hz|Hr]; [|unfold turns_of; lia].
      destruct w; cbn in Hz; try lia. cbn. lia.
  - rewrite (surjective_pairing (append_turn path (j, e) (ws, d))). eapply IH; [|exact Hw|exact Hn].
    rewrite append_turn_other by done. exact Hi.
Qed.

End Appending.

(** ** What learned rules let through *)

Section Confined.
Context `{LearnedCodec} {U : Unicode} {FS : Filesystem}.
Variable json_string_array : string → option (list string).

(** A pattern the validation accepts, in the scope of a user or of the team. *)
Definition accepted (pattern : string) : Prop :=
  ∃ scope, validate_persisted_rule_with_scope pattern scope = Ok tt.

Lemma check_ok b m : check b m = Ok tt ↔ b = true.
Proof. by destruct b. Qed.

Lemma bind_ok (r : result unit) (k : unit → result unit) : mbind k r = Ok tt ↔ r = Ok tt ∧ k tt = Ok tt.
Proof. destruct r as [[]|]; cbn; naive_solver. Qed.

Lemma is_ok_true (r : result unit) : is_ok r = true ↔ r = Ok tt.
Proof. by destruct r as [[]|]. Qed.

Lemma accepted_namespace pattern : accepted pattern → ∃ p rest, p ∈ valid_prefixes ∧ pattern = p +:+ rest.
Proof.
  intros [scope Hv]. unfold validate_persisted_rule_with_scope in Hv. rewrite !bind_ok, !check_ok in Hv.
  destruct Hv as (_ & _ & Hp & _). apply existsb_elem in Hp as (p & Hp & [rest ->]%starts_with_spec). by exists p, rest.
Qed.

(** What an accepted rule on files says of its path. *)
Lemma accepted_path pattern path : accepted pattern → rule_path pattern = Some path →
  path_targets_sensitive path = false.
Proof.
  intros [scope Hv] Hp. unfold validate_persisted_rule_with_scope in Hv. rewrite Hp, !bind_ok, !check_ok in Hv.
  apply negb_true_iff. naive_solver.
Qed.

Lemma accepted_absolute ns path : ns ∈ ["ro:"; "rw:"] → accepted (ns +:+ path) → starts_with "/" path = true.
Proof.
  intros Hns [scope Hv]. unfold validate_persisted_rule_with_scope in Hv. rewrite !bind_ok in Hv.
  destruct Hv as (_ & _ & _ & _ & _ & Hro & Hrw & _). unfold of_namespace, absolute_suffix in Hro, Hrw.
  rewrite !elem_of_cons in Hns. destruct Hns as [->|[->|[]%not_elem_of_nil]].
  - rewrite strip_prefix_app, check_ok in Hro. done.
  - rewrite strip_prefix_app, check_ok in Hrw. done.
Qed.

(** The entries learned rules become. *)
Definition learned (e : string) : Prop := ∃ pattern, accepted pattern ∧ e = normalize_loaded_pattern pattern.

Lemma normalize_cases pattern :
  normalize_loaded_pattern pattern = pattern
  ∨ ∃ ns path, ns ∈ ["ro:"; "rw:"] ∧ pattern = ns +:+ path
      ∧ canonicalize_allowlist_entry ns path = Some (normalize_loaded_pattern pattern).
Proof.
  unfold normalize_loaded_pattern.
  destruct (strip_prefix "ro:" pattern) as [path|] eqn:E1; cbn [mbind option_bind].
  - apply strip_prefix_Some in E1 as ->.
    destruct (canonicalize_allowlist_entry "ro:" path) eqn:Ec; [|left; reflexivity].
    right. exists "ro:", path. rewrite Ec. repeat split; try done. by left.
  - destruct (strip_prefix "rw:" pattern) as [path|] eqn:E2; cbn [mbind option_bind]; [|by left].
    apply strip_prefix_Some in E2 as ->.
    destruct (canonicalize_allowlist_entry "rw:" path) eqn:Ec; [|by left].
    right. exists "rw:", path. rewrite Ec. repeat split; try done. right. by left.
Qed.

Lemma canonicalize_entry_Some ns path e : canonicalize_allowlist_entry ns path = Some e →
  ∃ comps, fs_canonicalize path = inl comps ∧ e = ns +:+ path_text (root_path comps).
Proof. unfold canonicalize_allowlist_entry. intros. repeat case_match; naive_solver. Qed.

Lemma learned_namespace e : learned e → ∃ p rest, p ∈ valid_prefixes ∧ e = p +:+ rest.
Proof.
  intros (pattern & Ha & ->). destruct (normalize_cases pattern) as [->|(ns & path & Hns & _ & Hc)].
  - by apply accepted_namespace.
  - apply canonicalize_entry_Some in Hc as (comps & _ & ->). eexists ns, _. split; [|done].
    rewrite !elem_of_cons in Hns. destruct Hns as [->|[->|[]%not_elem_of_nil]]; [by left|right; by left].
Qed.

Lemma prefixes_comparable a r b s : a +:+ r = b +:+ s → ∃ t, b = a +:+ t ∨ a = b +:+ t.
Proof.
  revert b. induction a as [|c a IH]; intros b Heq; [exists b; by left|].
  destruct b as [|c' b]; [exists (String c a); by right|].
  change (String c (a +:+ r) = String c' (b +:+ s)) in Heq. injection Heq as -> Heq.
  destruct (IH _ Heq) as [t [->| ->]]; exists t; [by left|by right].
Qed.

(** Namespaces no learned entry has, nor is a learned entry a path. *)
Lemma learned_not_in ns e : learned e → existsb (λ p, starts_with p ns || starts_with ns p) valid_prefixes = false →
  strip_prefix ns e = None.
Proof.
  intros (p & rest & Hp & ->)%learned_namespace Hno. destruct (strip_prefix ns (p +:+ rest)) as [r|] eqn:E; [|done].
  exfalso. apply strip_prefix_Some in E. apply not_true_iff_false in Hno. apply Hno, existsb_elem. exists p. split; [done|].
  apply prefixes_comparable in E as [t [->| ->]]; by rewrite starts_with_app, ?orb_true_r.
Qed.

Definition foreign (ns : string) : Prop :=
  existsb (λ p, starts_with p ns || starts_with ns p) valid_prefixes = false.

Lemma learned_entries_with ns allowed l : foreign ns → Forall learned l →
  entries_with ns (allowed ++ l) = entries_with ns allowed.
Proof.
  intros Hns Hl. unfold entries_with. induction allowed as [|a allowed IH]; cbn; [|by rewrite IH].
  induction Hl as [|e l He _ IH]; [done|]. cbn. by rewrite (learned_not_in ns e).
Qed.

Lemma learned_str_mem e allowed l ns : foreign ns → starts_with ns e = true → Forall learned l →
  str_mem e (allowed ++ l) = str_mem e allowed.
Proof.
  intros Hns [r ->]%starts_with_spec Hl. apply eq_true_iff_eq. rewrite !str_mem_spec, elem_of_app. split; [|by left].
  intros [?|Hin]; [done|]. rewrite Forall_forall in Hl.
  pose proof (learned_not_in ns _ (Hl _ Hin) Hns) as Hno. by rewrite strip_prefix_app in Hno.
Qed.

Lemma learned_globs key allowed l : Forall learned l → glob_entries key (allowed ++ l) = glob_entries key allowed.
Proof.
  intros Hl. induction allowed as [|e allowed IH]; cbn [app glob_entries]; [|by rewrite IH].
  induction Hl as [|e l He _ IH]; [done|]. cbn [glob_entries]. by rewrite (learned_not_in "ro-glob:" e).
Qed.

Lemma learned_blocked allowed l prefix key t : Forall learned l →
  launch_derived_blocked (allowed ++ l) prefix key t = launch_derived_blocked allowed prefix key t.
Proof.
  intros Hl. unfold launch_derived_blocked.
  by rewrite (learned_str_mem ("projdir:" +:+ prefix) allowed l "projdir:").
Qed.

Lemma learned_scope t allowed l : Forall learned l → scope_match t (allowed ++ l) = scope_match t allowed.
Proof.
  intros Hl. unfold scope_match. destruct (scoped_call_target t); [|done].
  destruct (scoped_prefix_namespace t) as [ns|] eqn:Hns; [|done]. rewrite learned_entries_with; try done.
  destruct t; cbn in Hns; simplify_eq; reflexivity.
Qed.

Lemma learned_no_path e key : learned e → starts_with "/" key = true → starts_with e key = false.
Proof.
  intros (p & rest & Hp & ->)%learned_namespace [k ->]%starts_with_spec. apply not_true_iff_false.
  intros [r Hr]%starts_with_spec. unfold valid_prefixes in Hp. rewrite !elem_of_cons in Hp.
  destruct_or? Hp; subst; try discriminate. by apply not_elem_of_nil in Hp.
Qed.

Lemma existsb_same {A} (f g : A → bool) l : (∀ x, f x = g x) → existsb f l = existsb g l.
Proof. intros Hfg. induction l as [|x l IH]; [done|]. cbn. by rewrite Hfg, IH. Qed.

Lemma learned_prefix_match key allowed l t : Forall learned l → starts_with "/" key = true →
  prefix_match key (allowed ++ l) t = prefix_match key allowed t.
Proof.
  intros Hl Hk. unfold prefix_match. rewrite existsb_app.
  rewrite (not_true_is_false (existsb _ l)).
  - rewrite orb_false_r. apply existsb_same. intros e. by rewrite learned_blocked.
  - intros (e & He & Hm)%existsb_elem. rewrite Forall_forall in Hl.
    rewrite (learned_no_path e key), andb_false_r in Hm by auto. done.
Qed.

(** A learned entry on the file the call is about. *)
Definition learned_grant (key : string) (t : ToolCallType) (l : list string) (ns e : string) : Prop :=
  (is_file_read t = true ∧ ns = "ro:" ∨ is_write_op t = true ∧ ns = "rw:")
  ∧ canonicalize_allowlist_entry ns key = Some e ∧ e ∈ l.

Lemma entry_match_app e allowed l : entry_match e (allowed ++ l) = true →
  entry_match e allowed = true ∨ ∃ e', e = Some e' ∧ e' ∈ l.
Proof.
  destruct e as [e|]; [|done]. cbn. rewrite !str_mem_spec, elem_of_app. naive_solver.
Qed.

Lemma learned_exact key allowed l t : Forall learned l → starts_with "/" key = true →
  exact_path_match key (allowed ++ l) t = exact_path_match key allowed t.
Proof.
  intros Hl Hk. unfold exact_path_match. rewrite learned_blocked by done.
  by rewrite (learned_str_mem key allowed l "/").
Qed.

Lemma learned_path_match key allowed l t : Forall learned l → starts_with "/" key = true →
  path_match key (allowed ++ l) t = Some true →
  path_match key allowed t = Some true ∨ ∃ ns e, learned_grant key t l ns e.
Proof.
  intros Hl Hk. unfold path_match.
  rewrite learned_scope, learned_globs, learned_exact, learned_prefix_match, (learned_str_mem key allowed l "/") by done.
  destruct (scope_match t allowed); [by left|].
  destruct (is_file_read t) eqn:Hr; cbn [andb].
  - assert (is_write_op t = false) as -> by (by destruct t). cbn [andb].
    destruct (entry_match _ (allowed ++ l)) eqn:E; [|intros Hm; left; by destruct (entry_match _ allowed)].
    intros _. apply entry_match_app in E as [->|(e & He & Hin)]; [by left|].
    right. exists "ro:", e. repeat split; try done. by left.
  - cbn [mbind option_bind]. destruct (is_write_op t) eqn:Hw; cbn [andb]; [|by left].
    destruct (entry_match _ (allowed ++ l)) eqn:E; [|intros Hm; left; by destruct (entry_match _ allowed)].
    intros _. apply entry_match_app in E as [->|(e & He & Hin)]; [by left|].
    right. exists "rw:", e. repeat split; try done. by right.
Qed.

(** The rules of a profile, as the two files hold them. *)
Definition rule_of_profile local_error team_error (profile_name local_path team_path : string) (disk : Disk)
    (pattern : string) : Prop :=
  (∃ r, r ∈ load_learned_rules local_error local_path disk ∧ lr_profile r = profile_name ∧ lr_pattern r = pattern)
  ∨ (∃ r, r ∈ load_team_learned_rules team_error team_path disk ∧ tl_profile r = profile_name ∧ tl_pattern r = pattern).

Lemma rules_accepted le te profile_name lp tp disk pattern :
  rule_of_profile le te profile_name lp tp disk pattern → accepted pattern.
Proof.
  intros [(r & Hr & _ & <-)|(r & Hr & _ & <-)].
  - unfold load_learned_rules in Hr. repeat case_match; try by apply not_elem_of_nil in Hr.
    apply list_elem_of_In, filter_In in Hr as [_ Hr]. apply is_ok_true in Hr. by exists "user".
  - unfold load_team_learned_rules in Hr. repeat case_match; try by apply not_elem_of_nil in Hr.
    apply list_elem_of_In, filter_In in Hr as [_ Hr]. apply is_ok_true in Hr. by exists (tl_scope r).
Qed.

Lemma insert_all_entries_app es l : ∃ l', insert_all_entries es l = l ++ l' ∧ ∀ e, e ∈ l' → e ∈ es.
Proof.
  unfold insert_all_entries. revert l. induction es as [|e es IH]; intros l; cbn.
  { exists []. split; [by rewrite app_nil_r|]. by intros e ?%not_elem_of_nil. }
  unfold set_insert at 2. destruct (str_mem e l).
  - destruct (IH l) as (l' & -> & Hl). exists l'. split; [done|]. intros. right. by apply Hl.
  - destruct (IH (l ++ [e])) as (l' & -> & Hl). exists (e :: l'). split; [by rewrite <- app_assoc|].
    intros x [->|?]%elem_of_cons; [by left|right; by apply Hl].
Qed.

(** What merging appends to the allowlist. *)
Lemma merged_entries le te profile_name lp tp disk allowlist :
  ∃ l, (merge_cached_rules_for_profile le te profile_name lp tp disk allowlist).1 = allowlist ++ l
    ∧ ∀ e, e ∈ l → ∃ pattern, rule_of_profile le te profile_name lp tp disk pattern
                              ∧ e = normalize_loaded_pattern pattern.
Proof.
  unfold merge_cached_rules_for_profile. cbn [fst].
  destruct (insert_all_entries_app (local_entries le profile_name lp disk) allowlist) as (l1 & -> & H1).
  destruct (insert_all_entries_app (team_entries te profile_name tp disk) (allowlist ++ l1)) as (l2 & -> & H2).
  exists (l1 ++ l2). split; [by rewrite app_assoc|]. intros e [He%H1|He%H2]%elem_of_app.
  - unfold local_entries, rules_for_profile in He. apply list_elem_of_In, in_map_iff in He as (r & <- & Hr).
    apply filter_In in Hr as [Hr Hp%String.eqb_eq]. eexists. split; [|done]. left. exists r.
    by rewrite list_elem_of_In.
  - unfold team_entries in He. apply list_elem_of_In, in_map_iff in He as (r & <- & Hr).
    apply filter_In in Hr as [Hr [Hp%String.eqb_eq _]%andb_prop]. eexists. split; [|done]. right. exists r.
    by rewrite list_elem_of_In.
Qed.

(** A learned rule opens the files it names, and no file whose name says that it holds a
    secret.  If a call on an absolute path (no link) is let through with the rules of a
    profile merged in and was not without them, the call reads a file, or changes one,
    that a rule of this very profile covers for that kind of access; the path the rule was
    stored with carries none of the markers of secrets, and it is the canonical path of the
    file of the call, or leads to it. *)
Theorem learned_rules_confined le te profile_name lp tp disk allowlist key t
    (Hkey : starts_with "/" key = true) (Hlink : ∀ target link symbolic, t ≠ FileLink target link symbolic)
    (Hm : is_session_allowlist_match json_string_array key
            (merge_cached_rules_for_profile le te profile_name lp tp disk allowlist).1 t = Some true) :
  is_session_allowlist_match json_string_array key allowlist t = Some true
  ∨ ∃ ns path text,
      (is_file_read t = true ∧ ns = "ro:" ∨ is_write_op t = true ∧ ns = "rw:")
      ∧ rule_of_profile le te profile_name lp tp disk (ns +:+ path)
      ∧ path_targets_sensitive path = false
      ∧ canonicalize_allowlist_entry ns key = Some (ns +:+ text)
      ∧ (path = text ∨ canonicalize_allowlist_entry ns path = Some (ns +:+ text)).
Proof.
  destruct (merged_entries le te profile_name lp tp disk allowlist) as (l & Happ & Hl). rewrite Happ in Hm.
  assert (Hlearned : Forall learned l).
  { apply Forall_forall. intros e (pattern & Hr & ->)%Hl. exists pattern. split; [|done]. by eapply rules_accepted. }
  assert (∀ allowed, is_session_allowlist_match json_string_array key allowed t = path_match key allowed t) as Heq.
  { intros allowed. rewrite <- (absolute_key_match json_string_array) by done. destruct t; try done. by edestruct Hlink. }
  rewrite Heq in Hm |- *. apply learned_path_match in Hm as [?|(ns & e & Hns & Hc & Hin)]; [by left| |done..].
  right. apply canonicalize_entry_Some in Hc as Htext. destruct Htext as (comps & _ & ->).
  apply Hl in Hin as (pattern & Hr & Hpat).
  assert (∃ path, pattern = ns +:+ path ∧ (path = path_text (root_path comps)
            ∨ canonicalize_allowlist_entry ns path = Some (ns +:+ path_text (root_path comps))))
    as (path & -> & Hpath).
  { destruct (normalize_cases pattern) as [Hsame|(ns' & path & Hns' & -> & Hc')].
    - exists (path_text (root_path comps)). split; [congruence|by left].
    - rewrite <- Hpat in Hc'. apply canonicalize_entry_Some in Hc' as Htext. destruct Htext as (comps' & _ & Htext).
      exists path. assert (ns' = ns) as ->; [|by auto].
      rewrite !elem_of_cons in Hns'. destruct Hns' as [->|[->|[]%not_elem_of_nil]], Hns as [[_ ->]|[_ ->]]; done. }
  exists ns, path, (path_text (root_path comps)). repeat split; try done.
  apply (accepted_path (ns +:+ path)); [by eapply rules_accepted|].
  destruct Hns as [[_ ->]|[_ ->]]; reflexivity.
Qed.

End Confined.

(** ** Several processes learning at once *)

Section Learning.
Context `{LearnedCodecLaws}.
Variables (path : string) (initial : list LearnedRule).
Hypothesis Htmp : tmp_path path ≠ path.








Lemma read_printed rules rule content files :
  print_learned (rules ++ [rule]) = Ok content → files !! path = Some content →
  read_existing None path files = Ok (rules ++ [rule]).
Proof.
  intros Hp Hf. unfold read_existing. rewrite Hf. destruct (String.eqb_spec (trim content) "") as [Hb|_].
  - exfalso. eapply learned_not_blank; [exact Hp| |done]. by destruct rules.
  - by rewrite (learned_round_trip _ _ Hp).
Qed.












End Learning.

(** ** A learned approval lasts *)

Section Lasting.
Context {D : Deps} `{LearnedCodecLaws} {U : Unicode} {FS : Filesystem} `{Sha256} `{ActionJson}.
Variable process_start_time : Z → option Z.
Variable json_string_array : string → option (list string).

(** A disk and a lock on which nothing fails. *)
Definition healthy (attempt : LearnEnv) : Prop := attempt.1 = None ∧ ∀ n, se_error (attempt.2 n) = None.

Definition holds_rule (path profile entry : string) (disk : Disk) : Prop :=
  ∃ r, r ∈ load_learned_rules None path disk ∧ lr_profile r = profile ∧ lr_pattern r = entry.

Lemma load_existing path disk rules : read_existing None path disk = Ok rules →
  load_learned_rules None path disk = List.filter (λ r, is_ok (validate_persisted_rule (lr_pattern r))) rules.
Proof. unfold read_existing, load_learned_rules. intros. repeat case_match; naive_solver. Qed.

Lemma stored_rule_loads path profile entry disk rules :
  read_existing None path disk = Ok rules → validate_persisted_rule entry = Ok tt →
  holds_rule path profile entry disk ↔ ∃ r, r ∈ rules ∧ lr_profile r = profile ∧ lr_pattern r = entry.
Proof.
  intros Hr Hv. unfold holds_rule. rewrite (load_existing _ _ _ Hr). f_equiv. intros r.
  rewrite list_elem_of_In, filter_In, <- list_elem_of_In, is_ok_true. naive_solver.
Qed.

Lemma run_writer_turn n path rule envs w d w' d' :
  (∀ outcome, w ≠ Finished outcome) → writer_step path rule (envs n) w d = (w', d') →
  run_writer (S n) path rule envs w d = run_writer n path rule envs w' d'.
Proof. intros Hw Hs. destruct w; try (cbn [run_writer]; by rewrite Hs). by edestruct Hw. Qed.

Lemma append_healthy attempt path rule files rules :
  healthy attempt → tmp_path path ≠ path → (∀ rules, ∃ s, print_learned rules = Ok s) →
  validate_persisted_rule (lr_pattern rule) = Ok tt → read_existing None path files = Ok rules →
  ∃ files' rules',
    append_learned_rule attempt.1 attempt.2 path rule {| ld_files := files; ld_lock := None |}
      = Some (Ok tt, {| ld_files := files'; ld_lock := None |})
    ∧ read_existing None path files' = Ok rules' ∧ (∀ r, r ∈ rules → r ∈ rules')
    ∧ ∃ r, r ∈ rules' ∧ same_key rule r = true.
Proof.
  intros [Hd He] Htmp Hprint Hv Hr. unfold append_learned_rule. rewrite Hd, Hv.
  assert (∃ n, WRITER_FUEL = S (S (S (S (S n))))) as [n ->] by (by exists 63).
  rewrite (run_writer_turn _ _ _ _ (Try 0) _ ReadRules {| ld_files := files; ld_lock := Some (se_now (attempt.2 (S (S (S (S n)))))) |});
    [|done|unfold writer_step; by rewrite He].
  set (d := {| ld_files := files; ld_lock := _ |}).
  assert (Hread : ∀ k, read_existing (se_error (attempt.2 k)) path (ld_files d) = Ok rules) by (intros k; by rewrite He).
  destruct (existsb (same_key rule) rules) eqn:Ek.
  - rewrite (run_writer_turn _ _ _ _ ReadRules d (DropLock (Ok tt)) d); [|done|unfold writer_step; by rewrite Hread, Ek].
    rewrite (run_writer_turn _ _ _ _ (DropLock (Ok tt)) d (Finished (Ok tt)) (with_lock None d)); [|done|cbn; by rewrite He].
    apply existsb_elem in Ek as (r & ? & ?). exists files, rules. split; [by destruct n|]. repeat split; try done. by exists r.
  - destruct (Hprint (rules ++ [rule])) as [content Hp].
    rewrite (run_writer_turn _ _ _ _ ReadRules d (WriteTmp content) d); [|done|unfold writer_step; by rewrite Hread, Ek, Hp].
    set (d1 := with_files (<[tmp_path path := content]> files) d).
    rewrite (run_writer_turn _ _ _ _ (WriteTmp content) d RenameTmp d1); [|done|cbn; by rewrite He].
    set (d2 := with_files (<[path := content]> (delete (tmp_path path) (ld_files d1))) d1).
    rewrite (run_writer_turn _ _ _ _ RenameTmp d1 (DropLock (Ok tt)) d2);
      [|done|unfold writer_step; rewrite He; cbn; by rewrite lookup_insert_eq].
    rewrite (run_writer_turn _ _ _ _ (DropLock (Ok tt)) d2 (Finished (Ok tt)) (with_lock None d2)); [|done|cbn; by rewrite He].
    eexists _, (rules ++ [rule]). split; [by destruct n|]. split; [|split].
    + eapply read_printed; [exact Hp|apply lookup_insert_eq].
    + intros r. rewrite elem_of_app. by left.
    + exists rule. unfold same_key. rewrite !String.eqb_refl. rewrite elem_of_app, list_elem_of_singleton. auto.
Qed.

Lemma persist_healthy attempts path profile reason now entries files rules :
  (∀ n, healthy (attempts n)) → tmp_path path ≠ path → (∀ rules, ∃ s, print_learned rules = Ok s) →
  read_existing None path files = Ok rules →
  ∃ files' rules',
    persist_entries attempts path profile reason now entries {| ld_files := files; ld_lock := None |}
      = {| ld_files := files'; ld_lock := None |}
    ∧ read_existing None path files' = Ok rules' ∧ (∀ r, r ∈ rules → r ∈ rules')
    ∧ ∀ e, e ∈ entries → validate_persisted_rule e = Ok tt →
        ∃ r, r ∈ rules' ∧ lr_profile r = profile ∧ lr_pattern r = e.
Proof.
  intros Hh Htmp Hprint. revert files rules. induction entries as [|entry entries IH]; intros files rules Hr.
  { exists files, rules. repeat split; try done. by intros e ?%not_elem_of_nil. }
  cbn [persist_entries]. destruct (is_ok (validate_persisted_rule entry)) eqn:Ev.
  - apply is_ok_true in Ev. set (rule := {| lr_pattern := entry |}).
    destruct (append_healthy (attempts (length entries)) path rule files rules) as (files1 & rules1 & Ha & Hr1 & Hsub & r & Hin & Hk);
      try done.
    destruct (attempts (length entries)) as [dir envs] eqn:Ea. cbn [fst snd] in Ha. rewrite Ha. cbn [from_option snd].
    destruct (IH files1 rules1 Hr1) as (files' & rules' & -> & Hr' & Hsub' & Hall).
    exists files', rules'. repeat split; [done|auto|]. intros e [->|He]%elem_of_cons Hv; [|by apply Hall].
    exists r. apply andb_prop in Hk as [Hpat%String.eqb_eq Hprof%String.eqb_eq]. auto.
  - destruct (IH files rules Hr) as (files' & rules' & -> & Hr' & Hsub' & Hall).
    exists files', rules'. repeat split; try done. intros e [->|He]%elem_of_cons Hv; [|by apply Hall].
    by rewrite Hv in Ev.
Qed.

Lemma merged_rule le te profile_name lp tp disk allowlist r :
  r ∈ load_learned_rules le lp disk → lr_profile r = profile_name →
  normalize_loaded_pattern (lr_pattern r) ∈ (merge_cached_rules_for_profile le te profile_name lp tp disk allowlist).1.
Proof.
  intros Hr Hp. unfold merge_cached_rules_for_profile. cbn [fst]. rewrite !insert_all_entries_elem. left. right.
  unfold local_entries, rules_for_profile. apply list_elem_of_In, in_map_iff. exists r. split; [done|].
  apply filter_In. by rewrite <- list_elem_of_In, String.eqb_eq.
Qed.

(** A learned approval lasts.  If the operator answers "learn and approve", every entry
    the approval stores may be persisted, nothing fails while it is written, and the
    entries' files are still where they were (their canonical paths lead to themselves),
    then every later session of the profile that merges the file lets the same call
    through without asking. *)
Theorem learned_approval_lasts attempts path now m contained profile ctx key files rules te tp allowlist
    (t := ctx_call_type ctx)
    (entries := approved_session_allowlist_entries process_start_time json_string_array t)
    (Hhealthy : ∀ n, healthy (attempts n)) (Htmp : tmp_path path ≠ path)
    (Hprint : ∀ rules, ∃ s, print_learned rules = Ok s)
    (Hfile : read_existing None path files = Ok rules)
    (Hrem : remembered t = true) (Hkey : session_allowlist_key process_start_time t = Some key)
    (Habs : file_call t = true → starts_with "/" key = true)
    (Hne : entries ≠ [])
    (Hvalid : ∀ e, e ∈ entries → validate_persisted_rule e = Ok tt ∧ normalize_loaded_pattern e = e) :
  let d := learn_and_approve process_start_time json_string_array attempts path now m contained (Some profile) ctx
             {| ld_files := files; ld_lock := None |} in
  is_session_allowlist_match json_string_array key
    (merge_cached_rules_for_profile None te profile path tp (ld_files d) allowlist).1 t = Some true.
Proof.
  intros d. subst d. unfold learn_and_approve.
  destruct (persist_healthy attempts path profile (learned_reason ctx) now
              (learnable_entries process_start_time json_string_array m contained ctx) files rules)
    as (files' & rules' & -> & Hr' & _ & Hall); try done.
  apply (approved_call_matches_again process_start_time json_string_array t); try done.
  intros e He. destruct (Hvalid e He) as [Hv Hn].
  destruct (Hall e) as (r & Hr & Hp & <-); [by apply elem_of_app; left|done|]. rewrite <- Hn.
  apply merged_rule; [|done]. cbn. rewrite (load_existing _ _ _ Hr').
  apply list_elem_of_In, filter_In. by rewrite <- list_elem_of_In, is_ok_true.
Qed.

End Lasting.

(** ** Concrete runs *)

#[global] Instance LearnedRule_eq_dec : EqDecision LearnedRule.
Proof. solve_decision. Defined.

#[global] Program Instance LearnedRule_countable : Countable LearnedRule :=
  inj_countable' (λ r, (lr_pattern r, lr_profile r, lr_scope r, lr_reason r, lr_created_at r, lr_created_by r))
    (λ '(a, b, c, d, e, f), Build_LearnedRule a b c d e f) _.
Next Obligation. by intros []. Qed.

#[global] Instance TeamLearnedRule_eq_dec : EqDecision TeamLearnedRule.
Proof. solve_decision. Defined.

#[global] Program Instance TeamLearnedRule_countable : Countable TeamLearnedRule :=
  inj_countable' (λ r, (tl_pattern r, tl_profile r, tl_scope r, tl_reason r, tl_created_by r, tl_created_at r))
    (λ '(a, b, c, d, e, f), Build_TeamLearnedRule a b c d e f) _.
Next Obligation. by intros []. Qed.

Definition read_text {A} (o : option A) : result A := match o with Some x => Ok x | None => Err "malformed" end.

Definition concrete_learned : LearnedCodec := {|
  parse_learned s := match s with String _ s => read_text (of_text s) | EmptyString => Err "empty" end;
  print_learned rules := Ok (String "r" (to_text rules));
  parse_team s := match s with String _ s => read_text (of_text s) | EmptyString => Err "empty" end;
  print_team rules := Ok (String "r" (to_text rules));
|}.

Lemma concrete_learned_laws : @LearnedCodecLaws concrete_learned.
Proof.
  split; cbn.
  - intros rules s [= <-]. by rewrite of_to_text.
  - intros rules s [= <-] _ Hb. pose proof (trim_keeps (to_text rules)) as Ht. by rewrite Hb in Ht.
Qed.

Section Examples.
#[local] Existing Instances concrete_learned concrete_learned_laws ascii_unicode plain_filesystem concrete_deps.

Definition user_rule (pattern : string) : LearnedRule :=
  {| lr_pattern := pattern; lr_profile := "p"; lr_scope := "user"; lr_reason := ""; lr_created_at := ""; lr_created_by := "" |}.

Definition rules_file : string := "/c/learned_rules.toml".
Definition team_file : string := "/c/team_learned_rules.json".
Definition holding_rules (patterns : list string) : Disk :=
  {[ rules_file := String "r" (to_text (map user_rule patterns)) ]}.

(** Accepted and refused patterns. *)
Example validation_examples :
  forallb (λ p, is_ok (validate_persisted_rule p))
    ["ro:/home/u/.ssh/config"; "rw:/w/a"; "exec:/bin/ls"; "net:x.com"; "listen:0.0.0.0:80";
     "ipc-socket:unix:/run/user/1000/bus|/usr/bin/gh"] = true
  ∧ existsb (λ p, is_ok (validate_persisted_rule p))
      [""; "/bare"; "dns:x.com"; "ro:rel"; "exec:ls"; "exec-prefix:/usr/lib/"; "rw:/home/u/.ssh/ID_RSA";
       "ipc-socket:unix:/var/run/docker.sock|/usr/bin/x"; "ipc-socket:unix:/run/user/1000/bus|gh"] = false
  ∧ is_ok (validate_persisted_rule_with_scope "exec-prefix:/usr/lib/" "team") = true.
Proof. vm_compute. repeat split. Qed.

Definition two_learners : list LearnedRule := [user_rule "ro:/a"; user_rule "rw:/b"].



(** Two processes that find the lock of a crashed one: both take it for stale, and the
    second removes the lock the first has just made. *)
Definition stale_schedule : list (nat * StepEnv) :=
  map (λ i, (i, {| se_now := from_secs 11; se_error := None; se_partial := "" |}))
    [0; 1; 0; 1; 0; 0; 1; 1; 0; 1; 0; 0; 0; 1; 1; 1].

(** A leftover lock loses a rule: both report success, and the file has one rule. *)
Theorem stale_lock_loses_rule :
  let start := (map (λ r, (r, Try 0)) two_learners, {| ld_files := ∅; ld_lock := Some 0%Z |}) in
  let s := run_schedule rules_file stale_schedule start in
  map snd s.1 = [Finished (Ok tt); Finished (Ok tt)]
  ∧ read_existing None rules_file (ld_files s.2) = Ok [user_rule "rw:/b"].
Proof. split; vm_compute; reflexivity. Qed.

Lemma learned_rules_confined_witness :
  is_session_allowlist_match two_hosts "/w/a" [] (FileRead "/w/a") = Some true
  ∨ ∃ ns path text,
      (is_file_read (FileRead "/w/a") = true ∧ ns = "ro:" ∨ is_write_op (FileRead "/w/a") = true ∧ ns = "rw:")
      ∧ rule_of_profile None None "p" rules_file team_file (holding_rules ["ro:/w/a"]) (ns +:+ path)
      ∧ path_targets_sensitive path = false
      ∧ canonicalize_allowlist_entry ns "/w/a" = Some (ns +:+ text)
      ∧ (path = text ∨ canonicalize_allowlist_entry ns path = Some (ns +:+ text)).
Proof.
  apply (learned_rules_confined two_hosts None None "p" rules_file team_file (holding_rules ["ro:/w/a"]) []);
    [done|done|vm_compute; reflexivity].
Defined.

(** The check of sensitive paths looks at names only.  A secret whose name has no marker may be
    persisted although [is_sensitive_path] knows it, and every later read of it is let through. *)
Theorem sensitive_rule_persists :
  is_sensitive_path "/home/u/.ssh/deploy_key" = true
  ∧ validate_persisted_rule "ro:/home/u/.ssh/deploy_key" = Ok tt
  ∧ is_session_allowlist_match two_hosts "/home/u/.ssh/deploy_key"
      (merge_cached_rules_for_profile None None "p" rules_file team_file
         (holding_rules ["ro:/home/u/.ssh/deploy_key"]) []).1 (FileRead "/home/u/.ssh/deploy_key") = Some true.
Proof. split; [|split]; vm_compute; reflexivity. Qed.

End Examples.

Section Symlink.

(** A file that was learned and is now a link to a key. *)
Definition relinked_filesystem : Filesystem := {|
  fs_exists _ := true;
  fs_is_dir _ := true;
  fs_canonicalize s :=
    if String.eqb s "/w/notes" then inl ["home"; "u"; ".ssh"; "id_rsa"] else inl (plain_components s);
  fs_metadata _ := Some (0, 493)%Z;
  lossy := id;
  is_utf8 _ := true;
  geteuid := 1000;
  home_dir := Some "/home/u";
  config_dir := None;
  data_dir := None;
  cache_dir := None;
  current_dir := Some "/w";
|}.
#[local] Existing Instances concrete_learned ascii_unicode relinked_filesystem.

(** The check comes before the links are followed: a stored rule is made canonical when it is
    loaded, and the canonical path is not checked again. *)
Theorem relinked_rule_opens_key :
  is_ok (validate_persisted_rule "ro:/home/u/.ssh/id_rsa") = false
  ∧ (merge_cached_rules_for_profile None None "p" rules_file team_file (holding_rules ["ro:/w/notes"]) []).1
    = ["ro:/home/u/.ssh/id_rsa"]
  ∧ is_session_allowlist_match two_hosts "/home/u/.ssh/id_rsa"
      (merge_cached_rules_for_profile None None "p" rules_file team_file (holding_rules ["ro:/w/notes"]) []).1
      (FileRead "/home/u/.ssh/id_rsa") = Some true.
Proof. split; [|split]; vm_compute; reflexivity. Qed.

End Symlink.
